(* ===== verification/_CoqProject ===== *)
-Q . S2P
Prelude.v
Text.v
Verdict.v
Sdk.v
Float.v
Host.v
Judging.v
Qualifier.v
QualifierProofs.v
BracketModel.v
BracketDecide.v
BracketDecideProofs.v
BracketPacing.v
BracketJudge.v
BracketInvariant.v
BracketSetup.v
VisibilityApi.v
BracketGate.v
BracketGateProofs.v
BracketWakeup.v
BracketExamples.v
JudgingContests.v
JudgingProofs.v
JudgingExamples.v
Ioi.v
IoiProofs.v
IoiExamples.v
Icpc.v
IcpcProofs.v
Compare.v
CompareProofs.v
CompareCli.v
Json.v
Checkers.v
Evaluator.v
EvaluatorProofs.v
EvaluatorWiring.v
Windowed.v
EvaluateSession.v
Mask.v
HostRules.v
HostRulesProofs.v
Visibility.v
VisibilityProofs.v
VisibilityFrozen.v
JudgingDb.v
Dispatch.v
Recovery.v
DispatchInvariant.v
DispatchProofs.v
RecoveryProofs.v
IoiTokens.v
IoiBoard.v
IoiApi.v
IoiBoardProofs.v
IoiTokensProofs.v
IoiRecompute.v
IoiApiExamples.v
IoiVisibility.v
PluginConfig.v
Hooks.v
HooksProofs.v
Statements.v
Cooldown.v
CooldownProofs.v
SubmissionLimit.v
LimitProofs.v
PluginStorage.v
HooksExamples.v
Admission.v
AdmissionProofs.v
AdmissionRefines.v
Intake.v
IntakeProofs.v
Idempotency.v
IdempotencyProofs.v
OperationBatch.v
OperationBatchProofs.v
OperationQueue.v
OperationQueueProofs.v
