(* ===== verification/Prelude.v ===== *)
(** * Broccoli: a verification library for the online judge

    Broccoli judges programs for contests.  A server (packages/server) stores
    problems, contests and submissions, and delegates what a contest means to
    plugins compiled to WebAssembly (plugins/).  A plugin sees the world through
    the host calls of packages/server-sdk: a key-value storage with revisions,
    timers, updates of submissions, feedback records and detached evaluation
    sessions.  This library models the plugins and the part of the SDK and of the
    shared types they stand on, and proves what makes them correct.

    ** Files and what they model

    - [Prelude]: machine integers (a Rust integer is a [Z]; each operation whose
      result depends on the width is written out), orders and the stable sorts
      and searches of iterators, results, lists, the laws of a ranked list.
    - [Text]: texts as lists of code points, decimal integers and their parser,
      splitting, debug forms, UTF-8.  [Float]: [f64] as [spec_float] with 53
      bits, its order and its decimal forms.
    - [Verdict]: packages/broccoli-types/src/types/verdict.rs and
      packages/common/src/submission_status.rs, verdicts and submission states of
      the plugins and of the host, with their names and parsers.
    - [Sdk]: errors, users, plugin requests and responses, access to a
      contest (packages/broccoli-types, packages/server-sdk/src/contest.rs).
    - [Host]: the host calls as their native implementation in
      packages/server-sdk/src/sdk defines them, in a state and error monad
      [M A := Host -> option (result SdkError A * Host)]; [None] is a panic.
    - [Judging], [JudgingContests], [JudgingProofs],
      [JudgingExamples]: the session that judges one submission
      (packages/server-sdk/src/evaluator/detached.rs), driven by callbacks, and
      the policies of the three all-or-nothing contest types.  [ContestJudge] is
      the interface of a contest type, [JudgeLaws] what the session relies on.
    - [Qualifier], [QualifierProofs]: plugins/codelink-qualifier, the standings
      in which every problem hands out a limited number of slots and a contestant
      is shown as qualified only when no pending result can change that.
    - [BracketModel], [BracketDecide], [BracketPacing],
      [BracketJudge], [BracketSetup], [BracketGate] and the [Proofs] files,
      [BracketInvariant], [BracketWakeup], [BracketExamples]:
      plugins/codelink-bracket, a knock-out tournament of one-problem games
      between two players, as a state machine of match documents, timers and
      judging results.
    - [Icpc], [IcpcProofs]: plugins/icpc, the board of an ICPC
      contest, its freeze and its reveal, and the redaction of submissions.
    - [Json]: JSON values.
    - [Compare], [CompareProofs], [CompareCli]: packages/broccoli-compare, the
      program a worker runs beside a solution to compare its output with the
      answer.  [Read] and [Write] are classes of streams; a stream may deliver any
      pieces, be interrupted or fail.
    - [Checkers]: the operations sent to a worker and their results
      (packages/broccoli-types/src/types/operation.rs, evaluate.rs, checker.rs) and
      plugins/standard-checkers: a checker as a stage of an operation, and the
      verdict of its exit code.
    - [Evaluator], [EvaluatorProofs], [EvaluatorWiring]: plugins/batch-evaluator and packages/server-sdk/src/evaluator/interpret.rs,
      from a case to an operation, and from its result to a verdict.
    - [Windowed], [EvaluateSession]: the loop of
      packages/server/src/services/windowed_session.rs that keeps a window of
      cases in flight, over the interface [WindowedSession], and its instance in
      evaluate_batch/detached.rs.
    - [Ioi], [IoiProofs], [IoiExamples]: the judging of
      plugins/ioi: subtask scores, the cases that are skipped once their subtasks
      are lost, and the score that is stored.
    - [IoiTokens], [IoiBoard], [IoiApi]: the tokens and feedback of IOI contests
      (tokens.rs, feedback.rs), the score of a contestant and the scoreboard over
      the tables of [JudgingDb] (scoring.rs, score.rs, scoreboard.rs), and the
      requests of api.rs.  [IoiTokensProofs], [IoiBoardProofs],
      [IoiRecompute], [IoiApiExamples]: their theorems.
    - [Mask], [HostRules], [HostRulesProofs], [Visibility],
      [VisibilityProofs]: packages/server/src/visibility: the lattice of
      decisions and the masking of documents, the access rules over the tables,
      the plugins asked and the memory of a request.  [VisibilityFrozen]: the
      kernel composed with the ICPC plugin; [IoiVisibility]: with the IOI plugin.
    - [JudgingDb], [Dispatch], [Recovery]: the tables behind judging and the
      transactions on them: what plugins write (host_funcs/submissions.rs), the
      dispatchers (packages/server/src/dispatcher, services/submission_dispatch.rs),
      the detector of stuck rows (dlq/stuck) and the handlers of staff
      (handlers/submission, handlers/dlq.rs).  [DispatchInvariant],
      [DispatchProofs], [RecoveryProofs]: these
      as the steps of a world in which anybody acts at any time.
    - [PluginConfig], [Hooks], [HooksProofs], [HooksExamples]: the configuration of
      plugins (packages/server/src/host_funcs/config.rs, the cascade of
      packages/server-sdk/src/sdk/config.rs) and the hooks an event is dispatched to
      (packages/server/src/hooks.rs, packages/plugin-core/src/hook.rs), and the errors
      of requests (error.rs).
    - [Statements]: programs that run one statement of the database at a time, and
      the world of requests between whose statements others run.  [Cooldown],
      [CooldownProofs], [SubmissionLimit], [LimitProofs]:
      plugins/cooldown and plugins/submission-limit over it.
    - [PluginStorage]: the table behind the storage of plugins
      (packages/server/src/host_funcs/storage.rs, services/plugin_storage.rs), which
      the native storage of [Host] refines.
    - [Admission], [AdmissionProofs], [AdmissionRefines]: the submissions a plugin
      admits and the feedback it withholds
      (packages/server/src/services/submission_feedback.rs).  [Intake],
      [IntakeProofs]: the handlers that create a submission
      (packages/server/src/handlers/submission/mod.rs) with their checks
      (utils/judging.rs, utils/filename.rs, utils/rate_limit.rs, utils/contest.rs,
      dispatcher/queue_depth.rs).
    - [Idempotency], [IdempotencyProofs]: requests that are
      sent again (packages/server/src/middleware/idempotency.rs), over [Statements].
    - [OperationBatch], [OperationBatchProofs]: operations on
      their way to the workers and back (packages/server/src/services/operation_batch.rs,
      registry.rs, consumers/operation_result.rs).
    - [OperationQueue], [OperationQueueProofs]: the queue between the server and the
      workers over [Statements]: the commands of the broker
      (third_party/broccoli_queue/src/brokers/redis), a worker that takes an operation
      (packages/worker/src/consumer.rs, dedup.rs, task_runner.rs, heartbeat.rs) and the
      reaper (packages/server/src/dispatcher/operation_reaper.rs).

    ** Groups of theorems

    - Judging: a session records every case once and ends when every case has a
      result, whatever the order and the repetitions, as long as its callbacks
      succeed; a failing callback does not strand a submission, but its recovery may
      store a second row for a case; what the contest types store.
    - Qualifier: a shown verdict survives every pending result; slots, credits and
      scores agree; the order of the rows does not matter.
    - Bracket: reachable matches are well formed; settled games, decided matches
      and closed stages are final; deciding makes progress, is idempotent and charges
      exactly the extra time that was used; a
      match under way never loses its wake-up; what the gate admits is what the
      player sees.
    - ICPC: scores, balloons and ranks equal order-free references; a redacted
      result does not influence the board.
    - Host and shared types: conditional writes are atomic, paging is complete,
      names and keys are read back.
    - Comparison: the exit code of the comparator is the agreement of the two
      streams, whatever pieces they arrive in, and says of a run that could not
      compare them that it could not; a stream of characters gives back
      the text it encodes; the preview is the beginning of the output.
    - Evaluation of a case: an operation is well formed whatever the checker; the
      answer reaches only the checker; a system error is exactly a fault of the
      machinery, and never a verdict about a contestant; with a built-in checker
      a case is accepted exactly when it ran cleanly and the texts agree.
    - Evaluation session: it always returns, and dispatches each case at most three
      times.
    - IOI contests: skipping cases never changes the score that is stored; what the
      recomputation of staff stores is what live judging stored; tokens are never
      overspent; a cell of the board is the official score of its contestant.
    - Visibility: a batch decides each resource as the rules say, plugins only
      narrow that and fail closed, a mask blanks what it names and nothing else;
      what the freeze hides is blank in all that is sent.
    - Leases and recovery: in any interleaving a submission has one current
      judgement at its own epoch, the results of a driver that was overtaken
      do not count (a failure of its dispatch can, when the epoch is in use again), a
      scan deals with every expired lease it reaches, oldest first, and no submission
      is lost with its server.  Times are numbers in one unit and the queries of one transaction
      see one state; a row locked elsewhere is skipped, as the scans ask.
    - Hooks: the hooks asked are the global ones and those of plugins that the
      configuration enables or that own the type of the contest; an event that is
      allowed passed every gate as it was sent; a plugin that breaks refuses.
    - Cooldown and limits: in any interleaving of the statements of requests,
      submissions are a cooldown apart and no more than the limit, up to the
      rounding, latency and reclaims that the theorems name.
    - Plugin storage: what holds over the storage of the native SDK holds over the
      tables of the server.
    - Admission and intake: in any order of transactions a token admits once, a slot
      has one holder, an admission makes stale what was read before it, and what is
      withheld stays hidden; the native SDK answers as the tables; what a contest
      stores passed every check, and an admission is its owner's.
    - Idempotent requests: while requests end within two minutes (the server ends
      them after one), a key is executed by one at a time, and once it is completed
      it is answered the same for a day.
    - Operation batches: a wait that gives up with nothing pending missed nothing, the
      first result of an operation is the one received, and received once.
    - Operation queue: whatever publishers, workers and reapers do between each other's
      commands, an operation that was queued is in some queue or was acknowledged, one
      that is done has its result in the queue of replies; a dead worker leaves
      nothing but what exceeds the budget of a tick of the reaper.

    ** Bounds and fuel

    Functions whose recursion is not structural take fuel and return [None]
    (a panic) without it; each has a lemma that the fuel given is enough.
    [call_depth] (257) is one more than the games a match can hold, since games
    are numbered in eight bits; the 100 attempts of a conditional write are the
    bound of the source; the pages of a scan are bounded by the number of
    records, because every full page moves the cursor.  The loops of the comparator
    take the fuel of the whole run, and the bytes and interruptions still to come
    bound what they use; the turns of an evaluation session are bounded by the
    cases in flight and pending and the retries left.

    ** Modelling choices

    JSON documents are texts, read back by the law of [Serde]; a number in them
    is finite, as JSON cannot hold the others.  The database is an argument or a
    table of the host, and a query is a read of it.  Hash maps are [gmap], and
    where the source folds over one, the result is proved not to depend on the
    order.  Plain arithmetic wraps, as in the release profiles of the repository.
    A handler is atomic, except where a theorem says that the host may change
    between calls.

    ** Not modelled

    The web frontend, the command line clients, the stress test, the vendored
    queue (third_party/broccoli_queue), the HTTP, SQL and entity layers of the
    server, the sandbox of the worker, and metrics: input and output around the
    logic above, or code that only calls a library.  The manifest lists each with
    its reason.  The
    communication evaluator follows the pattern of the batch evaluator and is left out
    for its size. *)

From Stdlib Require Export ZArith Lia Bool.
From stdpp Require Export base tactics list gmap sets strings sorting numbers pretty.

#[global] Set Default Goal Selector "!".

(** ** Machine integers

    A Rust integer is a [Z].  Each primitive whose behaviour depends on the
    width is written out: [checked_*] returns [None] outside the range,
    [saturating_*] clamps, and the plain operators of a release build (the
    profiles of this repository leave [overflow-checks] off) and [as] casts
    wrap. *)

Declare Scope machine_scope.
Delimit Scope machine_scope with machine.

Definition i64_min : Z := - 2 ^ 63.
Definition i64_max : Z := 2 ^ 63 - 1.
Definition i32_min : Z := - 2 ^ 31.
Definition i32_max : Z := 2 ^ 31 - 1.
Definition u32_max : Z := 2 ^ 32 - 1.
Definition u64_max : Z := 2 ^ 64 - 1.

Definition in_i64 (z : Z) : Prop := (i64_min ≤ z ≤ i64_max)%Z.
Definition in_i32 (z : Z) : Prop := (i32_min ≤ z ≤ i32_max)%Z.
Definition in_u8 (z : Z) : Prop := (0 ≤ z ≤ 255)%Z.

#[global] Instance in_i64_dec z : Decision (in_i64 z).
Proof. unfold in_i64. apply _. Defined.
#[global] Instance in_i32_dec z : Decision (in_i32 z).
Proof. unfold in_i32. apply _. Defined.
#[global] Instance in_u8_dec z : Decision (in_u8 z).
Proof. unfold in_u8. apply _. Defined.

Definition sat64 (z : Z) : Z := Z.max i64_min (Z.min i64_max z).
Definition checked64 (z : Z) : option Z := if decide (in_i64 z) then Some z else None.
Definition wrap64 (z : Z) : Z := ((z - i64_min) mod 2 ^ 64 + i64_min)%Z.
Definition wrap32 (z : Z) : Z := ((z - i32_min) mod 2 ^ 32 + i32_min)%Z.
Definition wrap_u8 (z : Z) : Z := (z mod 256)%Z.

Notation "x +s y" := (sat64 (x + y)%Z) (at level 50, left associativity) : machine_scope.
Notation "x -s y" := (sat64 (x - y)%Z) (at level 50, left associativity) : machine_scope.
Notation "x *s y" := (sat64 (x * y)%Z) (at level 40, left associativity) : machine_scope.
Notation "x +? y" := (checked64 (x + y)%Z) (at level 50, left associativity) : machine_scope.
Notation "x *? y" := (checked64 (x * y)%Z) (at level 40, left associativity) : machine_scope.

(** Solve a linear goal about machine integers: the bounds are unfolded to
    literals so that [lia] sees them. *)
Ltac mlia :=
  unfold sat64, in_i64, in_i32, in_u8, i64_min, i64_max, i32_min, i32_max,
    u32_max, u64_max in *;
  change (2 ^ 63)%Z with 9223372036854775808%Z in *;
  change (2 ^ 64)%Z with 18446744073709551616%Z in *;
  change (2 ^ 31)%Z with 2147483648%Z in *;
  change (2 ^ 32)%Z with 4294967296%Z in *;
  lia.

Lemma sat64_in_range z : in_i64 (sat64 z).
Proof. mlia. Qed.

Lemma sat64_id z : in_i64 z → sat64 z = z.
Proof. intros. mlia. Qed.

Lemma sat64_mono x y : (x ≤ y)%Z → (sat64 x ≤ sat64 y)%Z.
Proof. intros. mlia. Qed.

Lemma checked64_Some z r : checked64 z = Some r ↔ r = z ∧ in_i64 z.
Proof. unfold checked64. case_decide; naive_solver. Qed.

Lemma checked64_None z : checked64 z = None ↔ ¬ in_i64 z.
Proof. unfold checked64. case_decide; naive_solver. Qed.

Lemma wrap_u8_range z : in_u8 (wrap_u8 z).
Proof. unfold wrap_u8. pose proof (Z.mod_pos_bound z 256). mlia. Qed.

Lemma wrap_u8_id z : in_u8 z → wrap_u8 z = z.
Proof. intros. unfold wrap_u8. apply Z.mod_small. mlia. Qed.

Lemma wrap64_id z : in_i64 z → wrap64 z = z.
Proof. intros. unfold wrap64. rewrite Z.mod_small; mlia. Qed.

Lemma wrap32_id z : in_i32 z → wrap32 z = z.
Proof. intros. unfold wrap32. rewrite Z.mod_small; mlia. Qed.

(** ** Rust's [Ord]

    The code sorts and takes minima by keys: integers, tuples, options and
    [Reverse].  [Ord] carries the [<=] of the key type; [OrdLaws] is what the
    sorting lemmas need of it. *)

Class Ord (K : Type) := kle : K → K → bool.
Class OrdLaws (K : Type) `{Ord K} := {
  kle_total : ∀ x y, kle x y = true ∨ kle y x = true;
  kle_trans : ∀ x y z, kle x y = true → kle y z = true → kle x z = true;
  kle_antisym : ∀ x y, kle x y = true → kle y x = true → x = y;
}.

#[export] Instance Ord_Z : Ord Z := Z.leb.
#[export] Instance Ord_nat : Ord nat := Nat.leb.

(** Tuples compare lexicographically. *)
#[export] Instance Ord_prod {A B} `{Ord A, Ord B} : Ord (A * B) := λ x y,
  if kle x.1 y.1 then (if kle y.1 x.1 then kle x.2 y.2 else true) else false.

(** [None < Some _]. *)
#[export] Instance Ord_option {A} `{Ord A} : Ord (option A) := λ x y,
  match x, y with
  | None, _ => true
  | Some _, None => false
  | Some a, Some b => kle a b
  end.

(** [std::cmp::Reverse]. *)
Record reversed (A : Type) := Reverse { unreverse : A }.
Arguments Reverse {A} _.
Arguments unreverse {A} _.
#[export] Instance Ord_reverse {A} `{Ord A} : Ord (reversed A) := λ x y,
  kle (unreverse y) (unreverse x).

#[export] Instance OrdLaws_Z : OrdLaws Z.
Proof. split; unfold kle, Ord_Z; intros; rewrite ?Z.leb_le in *; lia. Qed.
#[export] Instance OrdLaws_nat : OrdLaws nat.
Proof. split; unfold kle, Ord_nat; intros; rewrite ?Nat.leb_le in *; lia. Qed.

#[export] Instance OrdLaws_prod {A B} `{OrdLaws A, OrdLaws B} : OrdLaws (A * B).
Proof.
  split.
  - intros [a b] [a' b']; unfold kle, Ord_prod; simpl.
    destruct (kle_total a a') as [E|E], (kle_total b b') as [E'|E'];
      repeat case_match; naive_solver.
  - intros [a b] [a' b'] [a'' b'']; unfold kle, Ord_prod; simpl.
    intros H1' H2'.
    destruct (kle a a') eqn:E1; [|done].
    destruct (kle a' a'') eqn:E2; [|done].
    rewrite (kle_trans _ _ _ E1 E2).
    destruct (kle a'' a) eqn:E3; [|done].
    rewrite (kle_trans _ _ _ E2 E3) in H1'.
    rewrite (kle_trans _ _ _ E3 E1) in H2'.
    eauto using kle_trans.
  - intros [a b] [a' b']; unfold kle, Ord_prod; simpl. intros H1' H2'.
    destruct (kle a a') eqn:E1; [|done]. destruct (kle a' a) eqn:E2; [|done].
    f_equal; eauto using kle_antisym.
Qed.

#[export] Instance OrdLaws_option {A} `{OrdLaws A} : OrdLaws (option A).
Proof.
  split.
  - intros [a|] [b|]; unfold kle, Ord_option; auto using kle_total.
  - intros [a|] [b|] [c|]; unfold kle, Ord_option; eauto using kle_trans; done.
  - intros [a|] [b|]; unfold kle, Ord_option; intros; f_equal; eauto using kle_antisym; done.
Qed.

#[export] Instance OrdLaws_reverse {A} `{OrdLaws A} : OrdLaws (reversed A).
Proof.
  split; unfold kle, Ord_reverse.
  - intros; apply kle_total.
  - intros; eauto using kle_trans.
  - intros [a] [b]; simpl; intros; f_equal; eauto using kle_antisym.
Qed.

Definition klt {K} `{Ord K} (x y : K) : bool := negb (kle y x).

Lemma kle_refl {K} `{OrdLaws K} (x : K) : kle x x = true.
Proof. destruct (kle_total x x); done. Qed.

Lemma klt_kle {K} `{OrdLaws K} (x y : K) : klt x y = true → kle x y = true.
Proof.
  unfold klt. rewrite negb_true_iff. intros E.
  destruct (kle_total x y) as [|E']; [done|congruence].
Qed.

Lemma klt_false {K} `{OrdLaws K} (x y : K) : klt x y = false ↔ kle y x = true.
Proof. unfold klt. rewrite negb_false_iff. done. Qed.

Create HintDb ord.
#[export] Hint Resolve kle_refl kle_trans klt_kle : ord.

(** ** [Iterator::min_by_key], [max_by_key] and the stable [sort_by_key] *)

Section by_key.
Context {A K : Type} `{OrdLaws K} (key : A → K).

(** The first minimum wins, as in [Iterator::min_by_key]. *)
Definition min_by_key (l : list A) : option A :=
  match l with
  | [] => None
  | x :: l => Some (foldl (λ b y, if kle (key b) (key y) then b else y) x l)
  end.

(** The last maximum wins, as in [Iterator::max_by_key]. *)
Definition max_by_key (l : list A) : option A :=
  match l with
  | [] => None
  | x :: l => Some (foldl (λ b y, if kle (key b) (key y) then y else b) x l)
  end.

Lemma min_foldl_spec l x :
  let m := foldl (λ b y, if kle (key b) (key y) then b else y) x l in
  m ∈ x :: l ∧ ∀ y, y ∈ x :: l → kle (key m) (key y) = true.
Proof.
  revert x. induction l as [|z l IH]; intros x; simpl.
  { split; [set_solver|]. intros y ->%list_elem_of_singleton. apply kle_refl. }
  specialize (IH (if kle (key x) (key z) then x else z)). simpl in IH.
  set (m := foldl _ _ _) in *. destruct IH as [Hin Hmin].
  assert (kle (key m) (key (if kle (key x) (key z) then x else z)) = true) as Hm.
  { apply Hmin. set_solver. }
  destruct (kle (key x) (key z)) eqn:E; (split; [set_solver|]).
  - intros y Hy. rewrite !elem_of_cons in Hy. destruct Hy as [->|[->|Hy]]; [done| |].
    + eauto with ord.
    + apply Hmin. set_solver.
  - intros y Hy. rewrite !elem_of_cons in Hy. destruct Hy as [->|[->|Hy]]; [|done|].
    + destruct (kle_total (key x) (key z)) as [?|E']; [congruence|]. eauto with ord.
    + apply Hmin. set_solver.
Qed.

Lemma max_foldl_spec l x :
  let m := foldl (λ b y, if kle (key b) (key y) then y else b) x l in
  m ∈ x :: l ∧ ∀ y, y ∈ x :: l → kle (key y) (key m) = true.
Proof.
  revert x. induction l as [|z l IH]; intros x; simpl.
  { split; [set_solver|]. intros y ->%list_elem_of_singleton. apply kle_refl. }
  specialize (IH (if kle (key x) (key z) then z else x)). simpl in IH.
  set (m := foldl _ _ _) in *. destruct IH as [Hin Hmax].
  assert (kle (key (if kle (key x) (key z) then z else x)) (key m) = true) as Hm.
  { apply Hmax. set_solver. }
  destruct (kle (key x) (key z)) eqn:E; (split; [set_solver|]).
  - intros y Hy. rewrite !elem_of_cons in Hy. destruct Hy as [->|[->|Hy]]; [|done|].
    + eauto with ord.
    + apply Hmax. set_solver.
  - intros y Hy. rewrite !elem_of_cons in Hy. destruct Hy as [->|[->|Hy]]; [done| |].
    + destruct (kle_total (key x) (key z)) as [?|E']; [congruence|]. eauto with ord.
    + apply Hmax. set_solver.
Qed.

Lemma min_by_key_Some l m :
  min_by_key l = Some m → m ∈ l ∧ ∀ y, y ∈ l → kle (key m) (key y) = true.
Proof. destruct l as [|x l]; [done|]. intros [= <-]. apply min_foldl_spec. Qed.

Lemma min_by_key_None l : min_by_key l = None ↔ l = [].
Proof. by destruct l. Qed.

Lemma max_by_key_Some l m :
  max_by_key l = Some m → m ∈ l ∧ ∀ y, y ∈ l → kle (key y) (key m) = true.
Proof. destruct l as [|x l]; [done|]. intros [= <-]. apply max_foldl_spec. Qed.

Lemma max_by_key_None l : max_by_key l = None ↔ l = [].
Proof. by destruct l. Qed.

Fixpoint insert_by_key (x : A) (l : list A) : list A :=
  match l with
  | [] => [x]
  | y :: l' => if kle (key x) (key y) then x :: l else y :: insert_by_key x l'
  end.

Definition sort_by_key (l : list A) : list A := foldr insert_by_key [] l.

Definition key_le (x y : A) : Prop := kle (key x) (key y) = true.

Lemma insert_by_key_perm x l : insert_by_key x l ≡ₚ x :: l.
Proof.
  induction l as [|y l IH]; simpl; [done|].
  destruct (kle _ _); [done|]. rewrite IH. apply Permutation_swap.
Qed.

Lemma sort_by_key_perm l : sort_by_key l ≡ₚ l.
Proof. induction l as [|x l IH]; simpl; [done|]. by rewrite insert_by_key_perm, IH. Qed.

Lemma insert_by_key_sorted x l :
  StronglySorted key_le l → StronglySorted key_le (insert_by_key x l).
Proof.
  induction 1 as [|y l Hl IH Hy]; simpl; [repeat constructor|].
  destruct (kle (key x) (key y)) eqn:E.
  - constructor; [by constructor|]. constructor; [done|].
    eapply Forall_impl; [exact Hy|]. unfold key_le. eauto with ord.
  - constructor; [done|]. rewrite insert_by_key_perm. constructor; [|done].
    destruct (kle_total (key x) (key y)); [congruence|done].
Qed.

Lemma sort_by_key_sorted l : StronglySorted key_le (sort_by_key l).
Proof. induction l; simpl; [constructor|]. by apply insert_by_key_sorted. Qed.

(** Sorting is determined by the multiset of the elements when no two of
    them share a key: the order in which they arrive does not matter. *)
Lemma sorted_perm_unique l1 l2 :
  (∀ x y, x ∈ l1 → y ∈ l1 → key x = key y → x = y) →
  StronglySorted key_le l1 → StronglySorted key_le l2 → l1 ≡ₚ l2 → l1 = l2.
Proof.
  intros Hinj Hs1. revert l2 Hinj. induction Hs1 as [|x l1 Hl IH Hx]; intros l2 Hinj Hs2 Hp.
  { by apply Permutation_nil_l in Hp. }
  destruct Hs2 as [|y l2 Hs2 Hy]; [by apply Permutation_nil_r in Hp|].
  assert (x = y) as ->.
  { assert (x ∈ y :: l2) as Hx2 by (rewrite <- Hp; left).
    assert (y ∈ x :: l1) as Hy1 by (rewrite Hp; left).
    rewrite elem_of_cons in Hx2, Hy1.
    destruct Hx2 as [|Hx2]; [done|]. destruct Hy1 as [|Hy1]; [done|].
    apply Hinj; [left|by right|]. rewrite Forall_forall in Hx, Hy.
    apply kle_antisym; [apply Hx | apply Hy]; done. }
  f_equal. apply IH; [|done|].
  - intros ????. apply Hinj; by right.
  - by apply Permutation_cons_inv in Hp.
Qed.

Lemma sort_by_key_perm_eq l1 l2 :
  (∀ x y, x ∈ l1 → y ∈ l1 → key x = key y → x = y) →
  l1 ≡ₚ l2 → sort_by_key l1 = sort_by_key l2.
Proof.
  intros Hinj Hp. apply sorted_perm_unique; [|apply sort_by_key_sorted..|].
  - intros x y. rewrite !sort_by_key_perm. apply Hinj.
  - by rewrite !sort_by_key_perm.
Qed.

Lemma elem_of_sort_by_key x l : x ∈ sort_by_key l ↔ x ∈ l.
Proof. by rewrite sort_by_key_perm. Qed.

Lemma length_sort_by_key l : length (sort_by_key l) = length l.
Proof. by rewrite sort_by_key_perm. Qed.
End by_key.

#[export] Hint Resolve sort_by_key_perm sort_by_key_sorted : ord.

(** ** Results and fallible code *)

Inductive result (E A : Type) := Ok (a : A) | Err (e : E).
Arguments Ok {E A} _.
Arguments Err {E A} _.

#[export] Instance result_ret {E} : MRet (result E) := @Ok E.
#[export] Instance result_bind {E} : MBind (result E) := λ A B f r,
  match r with Ok a => f a | Err e => Err e end.
#[export] Instance result_fmap {E} : FMap (result E) := λ A B f r,
  match r with Ok a => Ok (f a) | Err e => Err e end.

Definition ok_or {E A} (o : option A) (e : E) : result E A :=
  match o with Some a => Ok a | None => Err e end.

Definition is_Ok {E A} (r : result E A) : bool :=
  match r with Ok _ => true | Err _ => false end.

Lemma result_bind_Ok {E A B} (r : result E A) (f : A → result E B) b :
  r ≫= f = Ok b ↔ ∃ a, r = Ok a ∧ f a = Ok b.
Proof. destruct r; simpl; unfold mbind; simpl; naive_solver. Qed.

(** ** Lists without duplicate keys *)

Lemma NoDup_fmap_lookup {A B} (f : A → B) (l : list A) i j x y :
  NoDup (f <$> l) → l !! i = Some x → l !! j = Some y → f x = f y → i = j.
Proof.
  intros Hnd Hi Hj Hf. apply (NoDup_lookup (f <$> l) i j (f x)); [done|..].
  - by rewrite list_lookup_fmap, Hi.
  - by rewrite list_lookup_fmap, Hj, Hf.
Qed.

Lemma NoDup_fmap_filter {A B} (f : A → B) (P : A → Prop) `{!∀ x, Decision (P x)} l :
  NoDup (f <$> l) → NoDup (f <$> filter P l).
Proof.
  intros Hnd. eapply sublist_NoDup; [exact Hnd|]. apply fmap_sublist, sublist_filter.
Qed.

Lemma NoDup_fmap_elem {A B} (f : A → B) (l : list A) x y :
  NoDup (f <$> l) → x ∈ l → y ∈ l → f x = f y → x = y.
Proof.
  intros Hnd [i Hi]%list_elem_of_lookup [j Hj]%list_elem_of_lookup Hf.
  pose proof (NoDup_fmap_lookup f l i j x y Hnd Hi Hj Hf). subst. congruence.
Qed.

Lemma StronglySorted_weaken {A} (R S : A → A → Prop) (l : list A) :
  (∀ x y, R x y → S x y) → StronglySorted R l → StronglySorted S l.
Proof.
  intros HRS. induction 1 as [|x l _ IH Hx]; constructor; [done|].
  eapply Forall_impl; [exact Hx|]. apply HRS.
Qed.

(** ** Filters, searches and sorted lists *)

Lemma filter_ext_elem {A} (P Q : A → Prop) `{!∀ x, Decision (P x)} `{!∀ x, Decision (Q x)} (l : list A) :
  (∀ x, x ∈ l → P x ↔ Q x) → filter P l = filter Q l.
Proof.
  induction l as [|x l IH]; intros HPQ; [done|]. rewrite !filter_cons.
  rewrite IH by (intros; apply HPQ; by right).
  destruct (decide (P x)) as [Hx|Hx]; rewrite HPQ in Hx by by left.
  - by rewrite decide_True.
  - by rewrite decide_False.
Qed.

Lemma filter_none {A} (P : A → Prop) `{!∀ x, Decision (P x)} (l : list A) :
  (∀ x, x ∈ l → ¬ P x) → filter P l = [].
Proof.
  induction l as [|x l IH]; intros HP; [done|]. rewrite filter_cons, decide_False.
  - apply IH. intros; apply HP; by right.
  - apply HP. by left.
Qed.

Lemma filter_all {A} (P : A → Prop) `{!∀ x, Decision (P x)} (l : list A) :
  (∀ x, x ∈ l → P x) → filter P l = l.
Proof.
  induction l as [|x l IH]; intros HP; [done|]. rewrite filter_cons, decide_True.
  - f_equal. apply IH. intros; apply HP; by right.
  - apply HP. by left.
Qed.

Lemma sorted_app_le {A} (R : A → A → Prop) l1 l2 x y :
  StronglySorted R (l1 ++ l2) → x ∈ l1 → y ∈ l2 → R x y.
Proof.
  induction l1 as [|z l1 IH]; cbn; intros Hs Hx Hy; [by apply not_elem_of_nil in Hx|].
  inversion Hs as [|? ? Hs' Hz]; subst. apply elem_of_cons in Hx as [-> |Hx]; [|by apply IH].
  rewrite Forall_forall in Hz. apply Hz, elem_of_app. by right.
Qed.

Lemma list_find_spec {A} (P : A → Prop) `{!∀ x, Decision (P x)} (l : list A) i x :
  list_find P l = Some (i, x) →
  l = take i l ++ x :: drop (S i) l ∧ P x ∧ ∀ y, y ∈ take i l → ¬ P y.
Proof.
  intros (Hi & Hx & Hlt)%list_find_Some. split_and!; [by rewrite take_drop_middle|done|].
  intros y (j & Hj)%list_elem_of_lookup. rewrite lookup_take in Hj.
  destruct (decide (j < i)); [|done]. by eapply Hlt.
Qed.

Lemma filter_related {A} (R : A → A → Prop) (P : A → Prop) `{!∀ x, Decision (P x)} (S : A → A → Prop) l1 l2 :
  (∀ x y, R x y → (P x ↔ P y) ∧ (P x → S x y)) →
  Forall2 R l1 l2 → Forall2 S (filter P l1) (filter P l2).
Proof.
  intros HR. induction 1 as [|x y l1 l2 Hxy Hl IH]; [constructor|].
  destruct (HR _ _ Hxy) as [HP HS]. rewrite !filter_cons.
  destruct (decide (P x)) as [Hx|Hx]; rewrite HP in Hx.
  - rewrite decide_True by done. constructor; [|done]. apply HS. by rewrite HP.
  - by rewrite decide_False.
Qed.

Lemma filter_related_eq {A} (R : A → A → Prop) (P : A → Prop) `{!∀ x, Decision (P x)} l1 l2 :
  (∀ x y, R x y → (P x ↔ P y) ∧ (P x → x = y)) → Forall2 R l1 l2 → filter P l1 = filter P l2.
Proof. intros HR Hl. apply list_eq_Forall2. by eapply filter_related. Qed.

Lemma sorted_by_keys {A K} `{Ord K} (key : A → K) l l' :
  key <$> l = key <$> l' → StronglySorted (key_le key) l' → StronglySorted (key_le key) l.
Proof.
  intros E Hs. revert l E. induction Hs as [|y l' Hs IH Hy]; intros [|x l] E; try done; [constructor|].
  rewrite !fmap_cons in E. injection E as Ex El. constructor; [by apply IH|].
  apply Forall_forall. intros z Hz. rewrite Forall_forall in Hy. unfold key_le. rewrite Ex.
  assert (key z ∈ key <$> l') as (z' & -> & Hz')%list_elem_of_fmap.
  { rewrite <- El. by apply list_elem_of_fmap_2. }
  by apply Hy.
Qed.

(** ** Closed goals

    [by_vm] evaluates a closed equation or existential; [by_decide] evaluates
    a decidable proposition through its [Decision] instance. *)
Ltac by_vm := vm_compute; first [reflexivity | exact I | eexists; reflexivity].
Ltac by_decide := apply (bool_decide_unpack _); vm_compute; exact I.

(** * Competition ranks

    The ranks of a sorted list in which tied neighbours share a rank: an element's
    rank is one more than the number of elements strictly ahead of it. *)

From stdpp Require Import base list sorting.

Section ranking.
Context {A K : Type} `{OrdLaws K} (place : A → K).
Context (rank_of : A → nat) (with_rank : nat → A → A) (tie : A → A → bool).
Context (rank_with : ∀ n a, rank_of (with_rank n a) = n).
Context (place_with : ∀ n a, place (with_rank n a) = place a).
Context (tie_with : ∀ n a b, tie a (with_rank n b) = tie a b).

(** The element at position [i], after [prev], shares the rank of [prev] on a tie. *)
Fixpoint ranked (i : nat) (prev : option A) (l : list A) : list A :=
  match l with
  | [] => []
  | a :: l =>
      let rank := match prev with
                  | Some p => if tie a p then rank_of p else S i
                  | None => S i
                  end in
      let a := with_rank rank a in
      a :: ranked (S i) (Some a) l
  end.

(** One more than the elements strictly ahead. *)
Definition competition_rank (l : list A) (a : A) : nat :=
  S (length (filter (λ b, klt (place b) (place a) = true) l)).

Lemma competition_rank_place l a b : place a = place b → competition_rank l a = competition_rank l b.
Proof. unfold competition_rank. by intros ->. Qed.

Lemma ranked_place i prev l : place <$> ranked i prev l = place <$> l.
Proof.
  revert i prev. induction l as [|a l IH]; intros i prev; [done|]. cbn [ranked fmap list_fmap].
  by rewrite IH, place_with.
Qed.

Lemma competition_rank_places l l' a :
  place <$> l = place <$> l' → competition_rank l a = competition_rank l' a.
Proof.
  unfold competition_rank. intros E. f_equal.
  assert (∀ l : list A, length (filter (λ b, klt (place b) (place a) = true) l)
    = length (filter (λ k, klt k (place a) = true) (place <$> l))) as Hlen.
  { clear. induction l as [|b l IH]; [done|]. cbn [fmap list_fmap]. rewrite !filter_cons.
    case_decide; cbn; by rewrite IH. }
  by rewrite !Hlen, E.
Qed.

(** Sorted: what comes before an element whose place differs from the one before
    is strictly ahead of it, and nothing later is. *)
Lemma competition_rank_at pre a l :
  StronglySorted (key_le place) (pre ++ a :: l) →
  (∀ q, last pre = Some q → place q ≠ place a) →
  competition_rank (pre ++ a :: l) a = S (length pre).
Proof.
  intros Hs Hlast. unfold competition_rank. f_equal. rewrite filter_app.
  assert (∀ q, q ∈ pre → key_le place q a) as Hpre.
  { intros q Hq. apply (sorted_app_le _ _ _ _ _ Hs); [done|by left]. }
  destruct (proj1 (StronglySorted_app _ _ _) Hs) as (_ & _ & [Hal _]%StronglySorted_cons).
  rewrite (filter_none _ (a :: l)), app_nil_r.
  2: { intros b [-> |Hb]%elem_of_cons; unfold klt; [by rewrite kle_refl|].
       rewrite Forall_forall in Hal. by rewrite (Hal b Hb). }
  f_equal. apply filter_all. intros q Hq. destruct (last pre) as [p|] eqn:Hp.
  2: { apply last_None in Hp as ->. by apply not_elem_of_nil in Hq. }
  apply last_Some in Hp as (pre' & ->). specialize (Hlast p eq_refl).
  assert (kle (place q) (place p) = true) as Hqp.
  { apply elem_of_app in Hq as [Hq| ->%list_elem_of_singleton]; [|apply kle_refl].
    rewrite <- app_assoc in Hs. eapply (sorted_app_le _ _ _ _ _ Hs); [done|by left]. }
  unfold klt. apply negb_true_iff, not_true_iff_false. intros Haq.
  apply Hlast, kle_antisym; [apply Hpre, elem_of_app; right; by left|]. by eapply kle_trans.
Qed.

Lemma ranked_spec_from pre l prev :
  StronglySorted (key_le place) (pre ++ l) →
  (∀ a b, a ∈ l → b ∈ pre ++ l → tie a b = true ↔ place a = place b) →
  match prev with
  | Some p => ∃ q n, last pre = Some q ∧ p = with_rank n q ∧ rank_of p = competition_rank (pre ++ l) q
  | None => pre = []
  end →
  Forall (λ a, rank_of a = competition_rank (pre ++ l) a) (ranked (length pre) prev l).
Proof.
  revert pre prev. induction l as [|a l IH]; intros pre prev Hs Htie Hprev; [constructor|].
  cbn [ranked]. set (r := match prev with Some _ => _ | None => _ end).
  assert (r = competition_rank (pre ++ a :: l) a) as Hr.
  { unfold r. destruct prev as [p|].
    - destruct Hprev as (q & n & Hq & -> & Hrank). rewrite tie_with, Hrank.
      assert (q ∈ pre ++ a :: l) as Hin.
      { apply elem_of_app. left. apply last_Some in Hq as (pre' & ->). apply elem_of_app. right. by left. }
      destruct (tie a q) eqn:E.
      + apply competition_rank_place. symmetry. apply Htie; [by left|done|done].
      + symmetry. apply competition_rank_at; [done|]. rewrite Hq. intros ? [= <-] Heq.
        symmetry in Heq. apply Htie in Heq; [congruence|by left|done].
    - subst pre. symmetry. by apply (competition_rank_at []). }
  constructor; [by rewrite rank_with, Hr; apply competition_rank_place; rewrite place_with|].
  specialize (IH (pre ++ [a]) (Some (with_rank r a))). rewrite <- app_assoc, length_app, Nat.add_1_r in IH.
  apply IH; [done| |].
  - intros x y Hx Hy. apply Htie; [by right|done].
  - exists a, r. rewrite last_snoc, rank_with. done.
Qed.

Lemma ranked_spec l :
  StronglySorted (key_le place) l →
  (∀ a b, a ∈ l → b ∈ l → tie a b = true ↔ place a = place b) →
  Forall (λ a, rank_of a = competition_rank (ranked 0 None l) a) (ranked 0 None l).
Proof.
  intros Hs Htie. eapply Forall_impl; [by apply (ranked_spec_from [] l None)|].
  intros a ->. symmetry. apply competition_rank_places, ranked_place.
Qed.
End ranking.
