(* ===== verification/Text.v ===== *)
(** * Text: Rust strings as sequences of Unicode scalar values

    A Rust [String] is a [list Z] of code points ([ustring]); a literal of the
    source is written [u "..."].  The operations are the ones the modelled code
    calls: [char::is_whitespace], [trim], [trim_end], [strip_prefix],
    [strip_suffix] and the decimal printing and parsing of machine integers
    that timer and storage keys are made of. *)

From S2P Require Import Prelude.

Definition ustring : Type := list Z.

(** A source literal; every literal of the modelled code is ASCII. *)
Definition u (s : string) : ustring :=
  (λ a, Z.of_N (Ascii.N_of_ascii a)) <$> String.list_ascii_of_string s.

(** [char::is_whitespace]: the Unicode property White_Space. *)
Definition is_whitespace (c : Z) : bool :=
  (((9 <=? c) && (c <=? 13)) || (c =? 32) || (c =? 133) || (c =? 160) || (c =? 5760)
   || ((8192 <=? c) && (c <=? 8202)) || (c =? 8232) || (c =? 8233) || (c =? 8239)
   || (c =? 8287) || (c =? 12288))%Z.

Fixpoint drop_while (P : Z → bool) (s : ustring) : ustring :=
  match s with
  | [] => []
  | c :: s' => if P c then drop_while P s' else s
  end.

Definition trim_start (s : ustring) : ustring := drop_while is_whitespace s.
Definition trim_end (s : ustring) : ustring := reverse (drop_while is_whitespace (reverse s)).
Definition trim (s : ustring) : ustring := trim_end (trim_start s).

Definition strip_prefix (p s : ustring) : option ustring :=
  if decide (take (length p) s = p) then Some (drop (length p) s) else None.

Definition strip_suffix (p s : ustring) : option ustring :=
  if decide (length p ≤ length s ∧ drop (length s - length p) s = p)
  then Some (take (length s - length p) s) else None.

(** A string [trim] leaves alone: empty, or with no white space at either end. *)
Definition trimmed (s : ustring) : Prop :=
  match head s, last s with
  | Some a, Some b => is_whitespace a = false ∧ is_whitespace b = false
  | _, _ => True
  end.

#[global] Instance trimmed_dec s : Decision (trimmed s).
Proof. unfold trimmed. destruct (head s), (last s); apply _. Defined.

Lemma drop_while_id P s :
  match head s with Some c => P c = false | None => True end → drop_while P s = s.
Proof. destruct s as [|c s]; simpl; [done|]. by intros ->. Qed.

Lemma trim_trimmed s : trimmed s → trim s = s.
Proof.
  unfold trim, trim_start, trim_end, trimmed.
  destruct s as [|a s]; [done|]. simpl head.
  destruct (last (a :: s)) as [b|] eqn:Hl; [|by apply last_None in Hl].
  intros [Ha Hb]. rewrite (drop_while_id _ (a :: s)) by done.
  rewrite drop_while_id; [apply reverse_involutive|].
  by rewrite head_reverse, Hl.
Qed.

Lemma drop_while_split P s :
  ∃ pre, s = pre ++ drop_while P s ∧ Forall (λ c, P c = true) pre.
Proof.
  induction s as [|c s (pre & E & Hpre)]; simpl; [by exists []|].
  destruct (P c) eqn:Hc; [|by exists []].
  exists (c :: pre). split; [by rewrite E at 1|by constructor].
Qed.

Lemma drop_while_head P s c : head (drop_while P s) = Some c → P c = false.
Proof.
  induction s as [|d s IH]; simpl; [done|]. destruct (P d) eqn:E; [done|]. simpl. congruence.
Qed.

Lemma trim_is_trimmed s : trimmed (trim s).
Proof.
  unfold trim, trim_end, trimmed. set (t := trim_start s).
  rewrite last_reverse.
  destruct (drop_while is_whitespace (reverse t)) as [|c r] eqn:E.
  { done. }
  assert (is_whitespace c = false) as Hc.
  { apply (drop_while_head _ (reverse t)). by rewrite E. }
  simpl. destruct (head (reverse (c :: r))) as [d|] eqn:Ed; [|done]. split; [|done].
  destruct (drop_while_split is_whitespace (reverse t)) as (pre & Ht & _).
  rewrite E in Ht. apply (f_equal reverse) in Ht.
  rewrite reverse_involutive, reverse_app in Ht.
  assert (head t = Some d) as Hd.
  { rewrite Ht. destruct (reverse (c :: r)); [done|]. done. }
  by apply (drop_while_head _ s).
Qed.

Lemma trim_idemp s : trim (trim s) = trim s.
Proof. apply trim_trimmed, trim_is_trimmed. Qed.

Lemma strip_prefix_Some p s r : strip_prefix p s = Some r ↔ s = p ++ r.
Proof.
  unfold strip_prefix. case_decide as E; split.
  - intros [= <-]. rewrite <- E at 1. by rewrite take_drop.
  - intros ->. by rewrite drop_app_length.
  - done.
  - intros ->. by rewrite take_app_length in E.
Qed.

Lemma strip_suffix_Some p s r : strip_suffix p s = Some r ↔ s = r ++ p.
Proof.
  unfold strip_suffix. case_decide as E; split.
  - intros [= <-]. destruct E as [_ E]. rewrite <- E at 2. by rewrite take_drop.
  - intros ->. rewrite length_app, Nat.add_sub. by rewrite take_app_length.
  - done.
  - intros ->. destruct E. rewrite length_app, Nat.add_sub, drop_app_length. split; [lia|done].
Qed.

(** ** Decimal integers

    [show] is [to_string] of an integer, [parse_int] is [str::parse] of the
    integer type with the given bounds: an optional sign ([-] only for a
    signed type), at least one digit, and nothing else. *)

Definition is_digit (c : Z) : bool := ((48 <=? c) && (c <=? 57))%Z.

Fixpoint parse_digits (acc : Z) (s : ustring) : option Z :=
  match s with
  | [] => Some acc
  | c :: s' => if is_digit c then parse_digits (10 * acc + (c - 48))%Z s' else None
  end.

Definition parse_unsigned (s : ustring) : option Z :=
  match s with [] => None | _ => parse_digits 0 s end.

Definition within (lo hi : Z) (o : option Z) : option Z :=
  z ← o; if ((lo <=? z) && (z <=? hi))%Z then Some z else None.

Definition parse_int (lo hi : Z) (s : ustring) : option Z :=
  match s with
  | 43%Z :: d => within lo hi (parse_unsigned d)
  | 45%Z :: d => if (lo <? 0)%Z then within lo hi (Z.opp <$> parse_unsigned d) else None
  | _ => within lo hi (parse_unsigned s)
  end.

Definition parse_i32 : ustring → option Z := parse_int i32_min i32_max.
Definition parse_i64 : ustring → option Z := parse_int i64_min i64_max.
Definition parse_u8 : ustring → option Z := parse_int 0 255.

Fixpoint show_digits (fuel : nat) (n : Z) (acc : ustring) : ustring :=
  match fuel with
  | O => acc
  | S fuel =>
      let acc := (48 + n mod 10)%Z :: acc in
      if (n <? 10)%Z then acc else show_digits fuel (n / 10)%Z acc
  end.

(** A number below [2 ^ k] has at most [k] digits. *)
Definition show_unsigned (n : Z) : ustring := show_digits (S (Z.to_nat (Z.log2 n))) n [].

Definition show (z : Z) : ustring :=
  if (z <? 0)%Z then 45%Z :: show_unsigned (- z) else show_unsigned z.

(** *** Debug form of a text

    [{:?}] of a [str].  Characters outside ASCII are taken as printable. *)

Definition hex_digit (d : Z) : Z := if (d <? 10)%Z then 48 + d else 87 + d.

Definition show_hex_byte (n : Z) : ustring :=
  if (n <? 16)%Z then [hex_digit n] else [hex_digit (n / 16); hex_digit (n mod 16)].

Definition escape_debug (c : Z) : ustring :=
  match c with
  | 0 => u "\0"
  | 9 => u "\t"
  | 10 => u "\n"
  | 13 => u "\r"
  | 34 => [92; 34]
  | 92 => [92; 92]
  | _ => if ((c <? 32) || (c =? 127))%Z then u "\u{" ++ show_hex_byte c ++ u "}" else [c]
  end%Z.

Definition debug_str (s : ustring) : ustring := [34%Z] ++ mjoin (escape_debug <$> s) ++ [34%Z].

(** [str::split] on one character: never empty. *)
Fixpoint split_on (c : Z) (s : ustring) : list ustring :=
  match s with
  | [] => [[]]
  | x :: s' =>
      if (x =? c)%Z then [] :: split_on c s'
      else match split_on c s' with
           | p :: ps => (x :: p) :: ps
           | [] => [[x]]
           end
  end.

(** [str::split_whitespace]: the non-empty pieces between white space. *)
Fixpoint split_by (P : Z → bool) (cs : ustring) : list ustring :=
  match cs with
  | [] => [[]]
  | c :: cs =>
      if P c then [] :: split_by P cs
      else match split_by P cs with w :: ws => (c :: w) :: ws | [] => [[c]] end
  end.

Definition split_whitespace (cs : ustring) : list ustring :=
  filter (λ w, w ≠ []) (split_by is_whitespace cs).

Definition ascii_lower (c : Z) : Z := if ((65 <=? c) && (c <=? 90))%Z then (c + 32)%Z else c.

Definition to_ascii_lowercase (s : ustring) : ustring := ascii_lower <$> s.

Definition starts_with (p s : ustring) : bool := bool_decide (take (length p) s = p).

Definition ends_with (p s : ustring) : bool := bool_decide (is_Some (strip_suffix p s)).

(** [str::contains]. *)
Fixpoint contains (p s : ustring) : bool :=
  starts_with p s || match s with [] => false | _ :: s => contains p s end.

(** [s.lines().next().unwrap_or("")]: without its line end. *)
Fixpoint until_newline (s : ustring) : ustring * bool :=
  match s with
  | [] => ([], false)
  | c :: s => if (c =? 10)%Z then ([], true) else let '(l, nl) := until_newline s in (c :: l, nl)
  end.

Definition first_line (s : ustring) : ustring :=
  let '(l, nl) := until_newline s in if nl then default l (strip_suffix [13%Z] l) else l.

(** [ps.join(sep)]. *)
Fixpoint join (sep : ustring) (ps : list ustring) : ustring :=
  match ps with
  | [] => []
  | [p] => p
  | p :: ps => p ++ sep ++ join sep ps
  end.

Lemma show_digits_app fuel n acc : show_digits fuel n acc = show_digits fuel n [] ++ acc.
Proof.
  revert n acc. induction fuel as [|fuel IH]; intros n acc; simpl; [done|].
  destruct (n <? 10)%Z; [done|]. rewrite IH, (IH _ [_]), <- app_assoc. done.
Qed.

Lemma parse_digits_app acc s t :
  parse_digits acc (s ++ t) = parse_digits acc s ≫= λ a, parse_digits a t.
Proof.
  revert acc. induction s as [|c s IH]; intros acc; simpl; [done|].
  destruct (is_digit c); [apply IH|done].
Qed.

Lemma digit_mod n : is_digit (48 + n mod 10)%Z = true.
Proof. unfold is_digit. pose proof (Z.mod_pos_bound n 10). lia. Qed.

Lemma parse_show_digits fuel n :
  (0 ≤ n < 2 ^ Z.of_nat fuel)%Z →
  parse_digits 0 (show_digits fuel n []) = Some n.
Proof.
  revert n. induction fuel as [|fuel IH]; intros n Hn; cbn -[Z.mul Z.add Z.sub].
  { change (2 ^ Z.of_nat 0)%Z with 1%Z in Hn. f_equal. lia. }
  destruct (Z.ltb_spec n 10).
  { cbn -[Z.mul Z.add Z.sub]. rewrite digit_mod, Z.mod_small by lia. f_equal. lia. }
  rewrite show_digits_app, parse_digits_app, IH.
  - cbn -[Z.mul Z.add Z.sub]. rewrite digit_mod. f_equal.
    pose proof (Z.div_mod n 10). lia.
  - rewrite Nat2Z.inj_succ, Z.pow_succ_r in Hn by lia.
    split; [apply Z.div_pos; lia|].
    apply Z.div_lt_upper_bound; lia.
Qed.

Lemma show_digits_nonempty fuel n : show_digits (S fuel) n [] ≠ [].
Proof.
  cbn. destruct (n <? 10)%Z; [done|]. rewrite show_digits_app. by destruct (show_digits _ _ []).
Qed.

Lemma show_digits_digits fuel n : Forall (λ c, is_digit c = true) (show_digits fuel n []).
Proof.
  revert n. induction fuel as [|fuel IH]; intros n; cbn; [constructor|].
  destruct (n <? 10)%Z; [repeat constructor; apply digit_mod|].
  rewrite show_digits_app. apply Forall_app. split; [apply IH|].
  repeat constructor. apply digit_mod.
Qed.

Lemma parse_show_unsigned n : (0 ≤ n)%Z → parse_unsigned (show_unsigned n) = Some n.
Proof.
  intros Hn. unfold parse_unsigned, show_unsigned.
  pose proof (show_digits_nonempty (Z.to_nat (Z.log2 n)) n).
  destruct (show_digits _ _ _) as [|c s] eqn:E; [done|]. rewrite <- E.
  apply parse_show_digits. rewrite Nat2Z.inj_succ, Z2Nat.id by apply Z.log2_nonneg.
  destruct (decide (n = 0%Z)) as [->|]; [done|].
  split; [done|]. apply Z.log2_spec. lia.
Qed.

Lemma show_unsigned_head n : ∃ c s, show_unsigned n = c :: s ∧ is_digit c = true.
Proof.
  unfold show_unsigned. pose proof (show_digits_nonempty (Z.to_nat (Z.log2 n)) n).
  pose proof (show_digits_digits (S (Z.to_nat (Z.log2 n))) n) as Hd.
  destruct (show_digits _ _ _) as [|c s]; [done|]. exists c, s. split; [done|].
  by inversion Hd.
Qed.

Lemma parse_int_digits lo hi s c t :
  s = c :: t → is_digit c = true → parse_int lo hi s = within lo hi (parse_unsigned s).
Proof.
  intros -> Hc. unfold is_digit in Hc. unfold parse_int.
  destruct c as [|p|p]; [done| |done].
  do 6 (destruct p as [p|p|]; try done; try lia).
Qed.

(** Printing and parsing an integer of a type with the bounds [lo, hi]. *)
Lemma parse_show lo hi z :
  (lo ≤ z ≤ hi)%Z → (lo ≤ 0)%Z → parse_int lo hi (show z) = Some z.
Proof.
  intros Hz Hlo. unfold show. destruct (Z.ltb_spec z 0).
  - cbn [parse_int]. rewrite parse_show_unsigned by lia. cbn.
    rewrite (proj2 (Z.ltb_lt lo 0)) by lia. rewrite Z.opp_involutive.
    rewrite (proj2 (Z.leb_le lo z)), (proj2 (Z.leb_le z hi)) by lia. done.
  - destruct (show_unsigned_head z) as (c & s & E & Hc).
    rewrite (parse_int_digits _ _ _ _ _ E Hc), parse_show_unsigned by lia. cbn.
    rewrite (proj2 (Z.leb_le lo z)), (proj2 (Z.leb_le z hi)) by lia. done.
Qed.

Lemma parse_int_range lo hi s z : parse_int lo hi s = Some z → (lo ≤ z ≤ hi)%Z.
Proof.
  assert (∀ o, within lo hi o = Some z → (lo ≤ z ≤ hi)%Z) as Hw.
  { intros [y|]; cbn; [|done]. destruct (Z.leb_spec lo y), (Z.leb_spec y hi); cbn; naive_solver. }
  unfold parse_int. repeat case_match; try done; apply Hw.
Qed.

Definition show_char (c : Z) : Prop := c = 45%Z ∨ is_digit c = true.

Lemma show_chars z : Forall show_char (show z).
Proof.
  unfold show. destruct (z <? 0)%Z.
  - constructor; [by left|]. eapply Forall_impl; [apply show_digits_digits|]. by right.
  - eapply Forall_impl; [apply show_digits_digits|]. by right.
Qed.

Lemma show_no_char c z : ¬ show_char c → c ∉ show z.
Proof.
  intros Hc Hin. pose proof (show_chars z) as Hf. rewrite Forall_forall in Hf.
  apply Hc, Hf, Hin.
Qed.

Lemma show_inj lo hi x y :
  (lo ≤ x ≤ hi)%Z → (lo ≤ y ≤ hi)%Z → (lo ≤ 0)%Z → show x = show y → x = y.
Proof.
  intros Hx Hy Hlo E. pose proof (parse_show lo hi x Hx Hlo) as Px.
  rewrite E, (parse_show lo hi y Hy Hlo) in Px. congruence.
Qed.

Lemma split_on_none c s : c ∉ s → split_on c s = [s].
Proof.
  induction s as [|x s IH]; simpl; [done|]. rewrite not_elem_of_cons. intros [Hx Hs].
  destruct (Z.eqb_spec x c); [congruence|]. by rewrite IH.
Qed.

Lemma split_on_cons c p s : c ∉ p → split_on c (p ++ c :: s) = p :: split_on c s.
Proof.
  induction p as [|x p IH]; simpl.
  { intros _. by rewrite Z.eqb_refl. }
  rewrite not_elem_of_cons. intros [Hx Hp].
  destruct (Z.eqb_spec x c); [congruence|]. by rewrite IH.
Qed.

(** UTF-8 as [std::str::from_utf8] checks it: a byte automaton with the tables
    of the Unicode standard (no overlong form, no surrogate, nothing above
    U+10FFFF), the error positions the streaming decoder of [Compare] relies on,
    and the lemmas that let a decoder work on any split of a byte stream. *)

From stdpp Require Import base list numbers.

(** ** The byte automaton *)

(** [Within n lo hi acc]: [n] continuation bytes are missing, the next one lies
    in [lo..hi], [acc] holds the bits read so far. *)
Inductive utf8_state := Boundary | Within (n : nat) (lo hi acc : Z).

#[global] Instance utf8_state_eq_dec : EqDecision utf8_state.
Proof. solve_decision. Defined.

Definition between (lo hi b : Z) : bool := ((lo <=? b) && (b <=? hi))%Z.

Definition utf8_byte (s : utf8_state) (b : Z) : option (utf8_state * option Z) :=
  match s with
  | Boundary =>
      if between 0 127 b then Some (Boundary, Some b)
      else if between 194 223 b then Some (Within 1 128 191 (b - 192), None)
      else if (b =? 224)%Z then Some (Within 2 160 191 0, None)
      else if between 225 236 b || between 238 239 b then Some (Within 2 128 191 (b - 224), None)
      else if (b =? 237)%Z then Some (Within 2 128 159 13, None)
      else if (b =? 240)%Z then Some (Within 3 144 191 0, None)
      else if between 241 243 b then Some (Within 3 128 191 (b - 240), None)
      else if (b =? 244)%Z then Some (Within 3 128 143 4, None)
      else None
  | Within n lo hi acc =>
      if between lo hi b then
        let acc := (acc * 64 + (b - 128))%Z in
        match n with
        | S (S m) => Some (Within (S m) 128 191 acc, None)
        | _ => Some (Boundary, Some acc)
        end
      else None
  end.

(** [Utf8Error]: the length of the longest valid prefix, and whether the error is
    an invalid sequence ([error_len] is [Some]) or only an incomplete last one. *)
Record Utf8Error := { valid_up_to : nat; error_len_is_some : bool }.

Fixpoint from_utf8_go (s : utf8_state) (i valid : nat) (cs bs : list Z) : result Utf8Error ustring :=
  match bs with
  | [] => if decide (s = Boundary) then Ok cs
          else Err {| valid_up_to := valid; error_len_is_some := false |}
  | b :: bs =>
      match utf8_byte s b with
      | None => Err {| valid_up_to := valid; error_len_is_some := true |}
      | Some (s', None) => from_utf8_go s' (S i) valid cs bs
      | Some (s', Some c) => from_utf8_go s' (S i) (S i) (cs ++ [c]) bs
      end
  end.

Definition from_utf8 (bs : list Z) : result Utf8Error ustring := from_utf8_go Boundary 0 0 [] bs.

(** ** Reference: the characters of a byte string and how it ends *)

Inductive utf8_end := Complete | Truncated | Malformed.

Fixpoint decode (s : utf8_state) (bs : list Z) : ustring * utf8_end :=
  match bs with
  | [] => ([], if decide (s = Boundary) then Complete else Truncated)
  | b :: bs =>
      match utf8_byte s b with
      | None => ([], Malformed)
      | Some (s', oc) => let '(cs, e) := decode s' bs in (option_list oc ++ cs, e)
      end
  end.

Definition valid_text (bs : list Z) (cs : ustring) : Prop := decode Boundary bs = (cs, Complete).

#[global] Instance utf8_end_eq_dec : EqDecision utf8_end.
Proof. solve_decision. Defined.
#[global] Instance valid_text_dec bs cs : Decision (valid_text bs cs).
Proof. unfold valid_text. apply _. Defined.

(** The state the automaton is left in. *)
Fixpoint utf8_run (s : utf8_state) (bs : list Z) : option utf8_state :=
  match bs with
  | [] => Some s
  | b :: bs => match utf8_byte s b with Some (s', _) => utf8_run s' bs | None => None end
  end.

(** ** Splitting a byte string *)

Lemma decode_app s p q :
  decode s (p ++ q) =
    match utf8_run s p with
    | Some s' => ((decode s p).1 ++ (decode s' q).1, (decode s' q).2)
    | None => decode s p
    end.
Proof.
  revert s. induction p as [|b p IH]; intros s; simpl.
  { by destruct (decode s q). }
  destruct (utf8_byte s b) as [[s' oc]|]; [|done].
  rewrite IH. destruct (utf8_run s' p) as [t|], (decode s' p) as [cs e]; simpl; [|done].
  by rewrite (assoc (++)).
Qed.

Lemma decode_malformed s bs : (decode s bs).2 = Malformed ↔ utf8_run s bs = None.
Proof.
  revert s. induction bs as [|b bs IH]; intros s; simpl; [by case_decide|].
  destruct (utf8_byte s b) as [[s' oc]|]; [|done].
  specialize (IH s'). by destruct (decode s' bs).
Qed.

Lemma decode_complete s bs : (decode s bs).2 = Complete ↔ utf8_run s bs = Some Boundary.
Proof.
  revert s. induction bs as [|b bs IH]; intros s; simpl.
  { case_decide; naive_solver. }
  destruct (utf8_byte s b) as [[s' oc]|]; [|done].
  specialize (IH s'). by destruct (decode s' bs).
Qed.

Lemma utf8_run_app s p q : utf8_run s (p ++ q) = utf8_run s p ≫= λ t, utf8_run t q.
Proof.
  revert s. induction p as [|b p IH]; intros s; simpl; [done|].
  destruct (utf8_byte s b) as [[s' ?]|]; [apply IH|done].
Qed.

(** A byte ends a character exactly when it leads to a boundary. *)
Lemma utf8_byte_boundary s b s' oc : utf8_byte s b = Some (s', oc) → is_Some oc ↔ s' = Boundary.
Proof.
  intros Hb. unfold utf8_byte in Hb.
  destruct s as [|[|[|n]] lo hi acc]; repeat case_match; simplify_eq; split; intros Hx;
    first [done | by destruct Hx | by eexists].
Qed.

(** What [from_utf8] returns, by induction along the automaton: [q] holds the
    bytes since the last boundary. *)
Lemma from_utf8_go_spec s i q cs bs :
  utf8_run Boundary q = Some s → (decode Boundary q).1 = [] → (s = Boundary → q = []) →
  match from_utf8_go s (i + length q) i cs bs with
  | Ok cs' => (decode s bs).2 = Complete ∧ cs' = cs ++ (decode s bs).1
  | Err e =>
      if error_len_is_some e then (decode s bs).2 = Malformed
      else ∃ p r s', q ++ bs = p ++ r ∧ valid_up_to e = i + length p
           ∧ decode Boundary p = ((decode s bs).1, Complete)
           ∧ (decode s bs).2 = Truncated
           ∧ utf8_run Boundary r = Some s' ∧ s' ≠ Boundary ∧ (decode Boundary r).1 = []
  end.
Proof.
  revert s i q cs. induction bs as [|b bs IH]; intros s i q cs Hrun Hq Hs; simpl.
  { case_decide as Hb; simpl.
    - by rewrite (right_id_L [] (++)).
    - exists [], q, s. rewrite (right_id_L [] (++)). split_and!; try done. }
  destruct (utf8_byte s b) as [[s' oc]|] eqn:Hb; simpl; [|done].
  assert (Hstep : utf8_run Boundary (q ++ [b]) = Some s').
  { rewrite utf8_run_app, Hrun. simpl. by rewrite Hb. }
  assert (Hdec : decode Boundary (q ++ [b]) = (option_list oc, if decide (s' = Boundary) then Complete else Truncated)).
  { rewrite decode_app, Hrun, Hq. simpl. rewrite Hb. by destruct oc. }
  destruct oc as [c|].
  - assert (s' = Boundary) as ->.
    { by apply (utf8_byte_boundary _ _ _ _ Hb). }
    specialize (IH Boundary (S (i + length q)) [] (cs ++ [c]) eq_refl eq_refl (λ _, eq_refl)).
    simpl in IH. rewrite Nat.add_0_r in IH.
    destruct (from_utf8_go _ _ _ _ _) as [cs'|e].
    + destruct (decode Boundary bs) as [ds ee]; simpl in *. destruct IH as [-> ->].
      by rewrite <-(assoc_L (++)).
    + destruct (error_len_is_some e) eqn:Herr.
      { by destruct (decode Boundary bs). }
      destruct IH as (p & r & t & Heq & Hv & Hp & Ht & Hr).
      exists (q ++ b :: p), r, t. split_and!; [..|by apply Hr|by apply Hr|by apply Hr].
      * rewrite Heq. by rewrite <-(assoc_L (++)).
      * rewrite Hv, length_app. simpl. lia.
      * rewrite (cons_middle b q p), (assoc_L (++)), decode_app, Hstep, Hdec, Hp.
        by destruct (decode Boundary bs).
      * by destruct (decode Boundary bs).
  - assert (s' ≠ Boundary) as Hne.
    { intros Hbd%(utf8_byte_boundary _ _ _ _ Hb). by destruct Hbd. }
    specialize (IH s' i (q ++ [b]) cs Hstep).
    rewrite Hdec in IH. specialize (IH eq_refl ltac:(done)).
    rewrite length_app in IH. simpl in IH. replace (i + (length q + 1)) with (S (i + length q)) in IH by lia.
    destruct (from_utf8_go _ _ _ _ _) as [cs'|e].
    + by destruct (decode s' bs).
    + destruct (error_len_is_some e) eqn:Herr; [by destruct (decode s' bs)|].
      destruct IH as (p & r & t & Heq & Hv & Hp & Ht & Hr).
      exists p, r, t. rewrite <-(assoc_L (++)) in Heq. simpl in Heq.
      destruct (decode s' bs); simpl in *. by split_and!; try apply Hr.
Qed.

(** [from_utf8] against the reference. *)
Lemma from_utf8_spec bs :
  match from_utf8 bs with
  | Ok cs => valid_text bs cs
  | Err e =>
      if error_len_is_some e then (decode Boundary bs).2 = Malformed
      else ∃ p r s', bs = p ++ r ∧ valid_up_to e = length p ∧ valid_text p (decode Boundary bs).1
           ∧ utf8_run Boundary r = Some s' ∧ s' ≠ Boundary ∧ (decode Boundary r).1 = []
  end.
Proof.
  pose proof (from_utf8_go_spec Boundary 0 [] [] bs eq_refl eq_refl (λ _, eq_refl)) as H.
  unfold from_utf8, valid_text. simpl in H. destruct (from_utf8_go _ _ _ _ _) as [cs|e].
  - destruct (decode Boundary bs) as [ds ee]; simpl in *. destruct H as [-> ->]. done.
  - destruct (error_len_is_some e); [done|].
    destruct H as (p & r & s' & H1 & H2 & H3 & _ & H5). by exists p, r, s'.
Qed.

Lemma from_utf8_valid bs cs : valid_text bs cs → from_utf8 bs = Ok cs.
Proof.
  intros Hv. pose proof (from_utf8_spec bs) as H. unfold valid_text in *. rewrite Hv in H.
  destruct (from_utf8 bs) as [cs'|e].
  { by simplify_eq. }
  destruct (error_len_is_some e); [done|].
  destruct H as (p & r & s' & -> & _ & Hp & Hr & Hne & _). exfalso. apply Hne.
  assert (utf8_run Boundary p = Some Boundary) as Hp' by (apply decode_complete; by rewrite Hp).
  rewrite decode_app, Hp' in Hv. injection Hv as _ Hv. apply decode_complete in Hv. congruence.
Qed.

(** ** Encoding *)

(** A Unicode scalar value, a Rust [char]. *)
Definition is_scalar (c : Z) : bool := between 0 55295 c || between 57344 1114111 c.

(** [char::encode_utf8]. *)
Definition encode_char (c : Z) : list Z :=
  (if c <? 128 then [c]
   else if c <? 2048 then [192 + c / 64; 128 + c mod 64]
   else if c <? 65536 then [224 + c / 4096; 128 + (c / 64) mod 64; 128 + c mod 64]
   else [240 + c / 262144; 128 + (c / 4096) mod 64; 128 + (c / 64) mod 64; 128 + c mod 64])%Z.

Definition encode (cs : ustring) : list Z := mjoin (encode_char <$> cs).

Ltac utf8_ranges :=
  unfold is_scalar, between in *; Z.div_mod_to_equations; lia.

Lemma utf8_byte_ascii b : (0 ≤ b < 128)%Z → utf8_byte Boundary b = Some (Boundary, Some b).
Proof. intros. unfold utf8_byte, between. by destruct (0 <=? b)%Z eqn:?, (b <=? 127)%Z eqn:?; try lia. Qed.

Lemma utf8_byte_two b :
  (194 ≤ b ≤ 223)%Z → utf8_byte Boundary b = Some (Within 1 128 191 (b - 192), None).
Proof. intros. unfold utf8_byte, between. repeat (case_match; try lia). done. Qed.

Lemma utf8_byte_three b :
  (224 ≤ b ≤ 239)%Z →
  utf8_byte Boundary b =
    Some (Within 2 (if b =? 224 then 160 else 128) (if b =? 237 then 159 else 191) (b - 224), None)%Z.
Proof.
  intros. unfold utf8_byte, between. repeat (case_match; try lia); repeat f_equal; lia.
Qed.

Lemma utf8_byte_four b :
  (240 ≤ b ≤ 244)%Z →
  utf8_byte Boundary b =
    Some (Within 3 (if b =? 240 then 144 else 128) (if b =? 244 then 143 else 191) (b - 240), None)%Z.
Proof.
  intros. unfold utf8_byte, between. repeat (case_match; try lia); repeat f_equal; lia.
Qed.

Lemma utf8_byte_within n lo hi acc b :
  (lo ≤ b ≤ hi)%Z →
  utf8_byte (Within (S (S n)) lo hi acc) b = Some (Within (S n) 128 191 (acc * 64 + (b - 128)), None).
Proof. intros. unfold utf8_byte, between. repeat (case_match; try lia). done. Qed.

Lemma utf8_byte_last lo hi acc b :
  (lo ≤ b ≤ hi)%Z →
  utf8_byte (Within 1 lo hi acc) b = Some (Boundary, Some (acc * 64 + (b - 128))%Z).
Proof. intros. unfold utf8_byte, between. repeat (case_match; try lia). done. Qed.

Lemma decode_encode_char c r :
  is_scalar c = true →
  decode Boundary (encode_char c ++ r) = (c :: (decode Boundary r).1, (decode Boundary r).2).
Proof.
  intros Hc. unfold encode_char.
  repeat case_match; cbn [app decode].
  - rewrite utf8_byte_ascii by utf8_ranges. by destruct (decode Boundary r).
  - rewrite utf8_byte_two by utf8_ranges. rewrite utf8_byte_last by utf8_ranges.
    destruct (decode Boundary r) as [cs e]. simpl. repeat f_equal. utf8_ranges.
  - rewrite utf8_byte_three by utf8_ranges.
    rewrite utf8_byte_within by (repeat case_match; utf8_ranges).
    rewrite utf8_byte_last by utf8_ranges.
    destruct (decode Boundary r) as [cs e]. simpl. repeat f_equal. utf8_ranges.
  - rewrite utf8_byte_four by utf8_ranges.
    rewrite utf8_byte_within by (repeat case_match; utf8_ranges).
    rewrite utf8_byte_within by utf8_ranges. rewrite utf8_byte_last by utf8_ranges.
    destruct (decode Boundary r) as [cs e]. simpl. repeat f_equal. utf8_ranges.
Qed.

(** Every text is the decoding of its encoding. *)
Lemma valid_encode cs : Forall (λ c, is_scalar c = true) cs → valid_text (encode cs) cs.
Proof.
  unfold valid_text, encode. induction 1 as [|c cs Hc _ IH]; [done|].
  rewrite fmap_cons. change (mjoin (?x :: ?y)) with (x ++ mjoin y).
  rewrite decode_encode_char by done. by rewrite IH.
Qed.
