(* ===== verification/Verdict.v ===== *)
(** * Verdict: verdicts and submission states, on both sides of the host

    [Verdict] is the type plugins see
    (packages/broccoli-types/src/types/verdict.rs); [HostVerdict] is the
    server's copy and [SubmissionStatus] its submission states
    (packages/common/src/submission_status.rs).  Both sides store a verdict as
    text, so what the text of one side means to the other is part of the
    contract. *)

From S2P Require Import Prelude Text.

(** ** The plugins' verdict *)

Inductive Verdict :=
  | Accepted
  | WrongAnswer
  | TimeLimitExceeded
  | MemoryLimitExceeded
  | RuntimeError
  | SystemError
  | CompileError
  | Skipped
  | Cancelled
  | OtherVerdict (custom : ustring).

#[global] Instance Verdict_eq_dec : EqDecision Verdict.
Proof. solve_decision. Defined.

(** [{:?}] of a verdict. *)
Definition debug_verdict (v : Verdict) : ustring :=
  match v with
  | Accepted => u "Accepted"
  | WrongAnswer => u "WrongAnswer"
  | TimeLimitExceeded => u "TimeLimitExceeded"
  | MemoryLimitExceeded => u "MemoryLimitExceeded"
  | RuntimeError => u "RuntimeError"
  | SystemError => u "SystemError"
  | CompileError => u "CompileError"
  | Skipped => u "Skipped"
  | Cancelled => u "Cancelled"
  | OtherVerdict custom => u "Other(" ++ debug_str custom ++ u ")"
  end.

Definition severity (v : Verdict) : nat :=
  match v with
  | Accepted | Skipped | Cancelled => 0
  | WrongAnswer => 1
  | TimeLimitExceeded => 2
  | MemoryLimitExceeded => 3
  | RuntimeError => 4
  | SystemError => 5
  | OtherVerdict _ => 6
  | CompileError => 7
  end.

Definition to_db_str (v : Verdict) : ustring :=
  match v with
  | Accepted => u "Accepted"
  | WrongAnswer => u "WrongAnswer"
  | TimeLimitExceeded => u "TimeLimitExceeded"
  | MemoryLimitExceeded => u "MemoryLimitExceeded"
  | RuntimeError => u "RuntimeError"
  | Skipped => u "Skipped"
  | Cancelled => u "Cancelled"
  | SystemError | CompileError => u "SystemError"
  | OtherVerdict custom => custom
  end.

Definition is_accepted (v : Verdict) : bool := bool_decide (v = Accepted).

Definition is_skipped_or_cancelled (v : Verdict) : bool :=
  match v with Skipped | Cancelled => true | _ => false end.

(** [Display], and the text [Serialize] writes. *)
Definition display_verdict (v : Verdict) : ustring :=
  match v with CompileError => u "CompileError" | other => to_db_str other end.

Definition serialize_verdict (v : Verdict) : ustring :=
  match v with CompileError => u "CompileError" | other => to_db_str other end.

(** [Other(...)] around a text that is not blank. *)
Definition other_form (s : ustring) : option ustring :=
  value ← strip_prefix (u "Other(") s ≫= strip_suffix (u ")");
  if decide (trim value = []) then None else Some value.

(** [Verdict::from_str]; the error carries the invalid text. *)
Definition verdict_from_str (s : ustring) : result ustring Verdict :=
  let s := trim s in
  if decide (s = []) then Err s
  else if decide (s = u "Accepted") then Ok Accepted
  else if decide (s = u "WrongAnswer") then Ok WrongAnswer
  else if decide (s = u "TimeLimitExceeded") then Ok TimeLimitExceeded
  else if decide (s = u "MemoryLimitExceeded") then Ok MemoryLimitExceeded
  else if decide (s = u "RuntimeError") then Ok RuntimeError
  else if decide (s = u "SystemError") then Ok SystemError
  else if decide (s = u "CompileError") then Ok CompileError
  else if decide (s = u "Skipped") then Ok Skipped
  else if decide (s = u "Cancelled") then Ok Cancelled
  else match other_form s with
       | Some custom => Ok (OtherVerdict custom)
       | None => Ok (OtherVerdict s)
       end.

Definition deserialize_verdict (raw : ustring) : Verdict :=
  if decide (raw = u "CompileError") then CompileError
  else match verdict_from_str raw with Ok v => v | Err _ => OtherVerdict raw end.

(** ** The server's verdict *)

Inductive HostVerdict :=
  | HAccepted
  | HWrongAnswer
  | HTimeLimitExceeded
  | HMemoryLimitExceeded
  | HRuntimeError
  | HSystemError
  | HSkipped
  | HCancelled
  | HOther (custom : ustring).

#[global] Instance HostVerdict_eq_dec : EqDecision HostVerdict.
Proof. solve_decision. Defined.

Definition host_as_str (v : HostVerdict) : ustring :=
  match v with
  | HAccepted => u "Accepted"
  | HWrongAnswer => u "WrongAnswer"
  | HTimeLimitExceeded => u "TimeLimitExceeded"
  | HMemoryLimitExceeded => u "MemoryLimitExceeded"
  | HRuntimeError => u "RuntimeError"
  | HSystemError => u "SystemError"
  | HSkipped => u "Skipped"
  | HCancelled => u "Cancelled"
  | HOther custom => custom
  end.

Definition host_severity (v : HostVerdict) : nat :=
  match v with
  | HAccepted => severity Accepted
  | HWrongAnswer => severity WrongAnswer
  | HTimeLimitExceeded => severity TimeLimitExceeded
  | HMemoryLimitExceeded => severity MemoryLimitExceeded
  | HRuntimeError => severity RuntimeError
  | HSystemError => severity SystemError
  | HSkipped => severity Skipped
  | HCancelled => severity Cancelled
  | HOther _ => severity (OtherVerdict [])
  end.

Definition host_from_str (s : ustring) : result ustring HostVerdict :=
  let s := trim s in
  if decide (s = []) then Err s
  else if decide (s = u "Accepted") then Ok HAccepted
  else if decide (s = u "WrongAnswer") then Ok HWrongAnswer
  else if decide (s = u "TimeLimitExceeded") then Ok HTimeLimitExceeded
  else if decide (s = u "MemoryLimitExceeded") then Ok HMemoryLimitExceeded
  else if decide (s = u "RuntimeError") then Ok HRuntimeError
  else if decide (s = u "SystemError") then Ok HSystemError
  else if decide (s = u "Skipped") then Ok HSkipped
  else if decide (s = u "Cancelled") then Ok HCancelled
  else match other_form s with
       | Some custom => Ok (HOther custom)
       | None => Ok (HOther s)
       end.

Definition host_deserialize (raw : ustring) : HostVerdict :=
  match host_from_str raw with Ok v => v | Err _ => HOther raw end.

(** [impl From<broccoli_types::types::Verdict> for Verdict]. *)
Definition host_of (v : Verdict) : HostVerdict :=
  match v with
  | Accepted => HAccepted
  | WrongAnswer => HWrongAnswer
  | TimeLimitExceeded => HTimeLimitExceeded
  | MemoryLimitExceeded => HMemoryLimitExceeded
  | RuntimeError => HRuntimeError
  | SystemError | CompileError => HSystemError
  | Skipped => HSkipped
  | Cancelled => HCancelled
  | OtherVerdict custom => HOther custom
  end.

(** ** Submission states *)

Inductive SubmissionLifecycle :=
  | Queued
  | PendingSubmission
  | Compiling
  | Running
  | Judged
  | CompilationError
  | SystemErrorStatus.

#[global] Instance SubmissionLifecycle_eq_dec : EqDecision SubmissionLifecycle.
Proof. solve_decision. Defined.

Definition status_as_str (s : SubmissionLifecycle) : ustring :=
  match s with
  | Queued => u "Queued"
  | PendingSubmission => u "Pending"
  | Compiling => u "Compiling"
  | Running => u "Running"
  | Judged => u "Judged"
  | CompilationError => u "CompilationError"
  | SystemErrorStatus => u "SystemError"
  end.

Definition status_is_terminal (s : SubmissionLifecycle) : bool :=
  match s with Judged | CompilationError | SystemErrorStatus => true | _ => false end.

Definition status_from_str (s : ustring) : result ustring SubmissionLifecycle :=
  if decide (s = u "Queued") then Ok Queued
  else if decide (s = u "Pending") then Ok PendingSubmission
  else if decide (s = u "Compiling") then Ok Compiling
  else if decide (s = u "Running") then Ok Running
  else if decide (s = u "Judged") then Ok Judged
  else if decide (s = u "CompilationError") then Ok CompilationError
  else if decide (s = u "SystemError") then Ok SystemErrorStatus
  else Err s.

(** ** Which texts survive a round trip *)

Definition builtin_names : list ustring :=
  [u "Accepted"; u "WrongAnswer"; u "TimeLimitExceeded"; u "MemoryLimitExceeded";
   u "RuntimeError"; u "SystemError"; u "CompileError"; u "Skipped"; u "Cancelled"].

(** The custom verdicts whose stored text reads back as themselves: blank
    text, or text with no surrounding white space that is neither the name of
    another verdict nor wrapped in [Other(...)]. *)
Definition stable_custom (s : ustring) : Prop :=
  if decide (trim s = []) then True
  else trim s = s ∧ s ∉ builtin_names ∧ other_form s = None.

Lemma other_form_shorter s t : other_form s = Some t → length t < length s.
Proof.
  unfold other_form. intros (v & Hv & Ht)%bind_Some.
  apply bind_Some in Hv as (w & Hw%strip_prefix_Some & Hv%strip_suffix_Some).
  destruct (decide (trim v = [])); [done|]. injection Ht as <-.
  subst. rewrite !length_app. cbn. lia.
Qed.

Lemma drop_while_length P s : length (drop_while P s) ≤ length s.
Proof. destruct (drop_while_split P s) as (pre & E & _). rewrite E at 2. rewrite length_app. lia. Qed.

Lemma trim_length s : length (trim s) ≤ length s.
Proof.
  unfold trim, trim_end, trim_start. rewrite length_reverse.
  etrans; [apply drop_while_length|]. rewrite length_reverse. apply drop_while_length.
Qed.

(** A text that is not the name of a verdict is read as a custom verdict. *)
Lemma from_str_custom s :
  trim s ≠ [] → trim s ∉ builtin_names →
  verdict_from_str s = Ok (OtherVerdict (default (trim s) (other_form (trim s)))).
Proof.
  intros Hne Hnot. unfold verdict_from_str, builtin_names in *.
  rewrite !not_elem_of_cons in Hnot. destruct_and! Hnot.
  repeat (destruct (decide _) as [?E|_]; [congruence|]). by destruct (other_form (trim s)).
Qed.

Lemma from_str_builtin s v :
  trim s ∈ builtin_names → verdict_from_str s = Ok v → ∀ c, v ≠ OtherVerdict c.
Proof.
  unfold builtin_names, verdict_from_str. intros Hin.
  rewrite !elem_of_cons in Hin.
  repeat destruct Hin as [->|Hin];
    repeat (rewrite decide_False by done); repeat (rewrite decide_True by done);
    try (intros [= <-]; done).
  by apply not_elem_of_nil in Hin.
Qed.

(** A verdict written as text reads back as itself on the plugins' side,
    for every verdict but a custom one whose text is not [stable_custom]; the
    condition is necessary and sufficient. *)
Theorem verdict_serde_roundtrip v :
  deserialize_verdict (serialize_verdict v) = v ↔
  match v with OtherVerdict s => stable_custom s | _ => True end.
Proof.
  destruct v as [| | | | | | | | |s]; try (split; [done|]; intros _; by vm_compute).
  unfold deserialize_verdict, serialize_verdict, to_db_str, stable_custom.
  destruct (decide (s = u "CompileError")) as [->|Hce].
  { split; [done|]. rewrite decide_False by done. intros (_ & Hno & _).
    destruct Hno. by_decide. }
  destruct (decide (trim s = [])) as [E|Hne].
  { unfold verdict_from_str. rewrite decide_True by done. done. }
  destruct (decide (trim s ∈ builtin_names)) as [Hin|Hnot].
  - destruct (verdict_from_str s) as [v|e] eqn:Ev.
    + split; [|by intros (E & Hno & _); rewrite E in Hin].
      intros ->. by destruct (from_str_builtin s (OtherVerdict s) Hin Ev s).
    + unfold verdict_from_str in Ev. rewrite decide_False in Ev by done.
      by repeat case_match.
  - rewrite from_str_custom by done. split.
    + intros [= E]. pose proof (trim_length s).
      destruct (other_form (trim s)) as [c|] eqn:Eo; cbn in E.
      { pose proof (other_form_shorter _ _ Eo). subst c. lia. }
      rewrite E in Hnot, Eo. done.
    + intros (E & _ & Eo). rewrite E, Eo. done.
Qed.

(** The two sides of the host agree on the text of a verdict: converting a
    guest verdict and printing it gives the guest's database text; reading a
    text on the server is reading it in a plugin and converting, except for
    the text [CompileError], which only the plugins know; and the ranks the
    two sides aggregate by agree except on that same verdict. *)
Theorem host_guest_agree :
  (∀ v, host_as_str (host_of v) = to_db_str v) ∧
  (∀ raw, trim raw ≠ u "CompileError" →
     host_deserialize raw = host_of (deserialize_verdict raw)) ∧
  (∀ v, v ≠ CompileError ↔ host_severity (host_of v) = severity v).
Proof.
  split; [by intros []|]. split; [|intros []; naive_solver].
  intros raw Hraw. unfold host_deserialize, deserialize_verdict.
  destruct (decide (raw = u "CompileError")) as [->|_]; [by destruct Hraw|].
  unfold host_from_str, verdict_from_str. cbv zeta.
  generalize dependent (trim raw). intros t Ht.
  assert (∀ A (x y : A), (if decide (t = u "CompileError") then x else y) = y) as Hce.
  { intros. by rewrite decide_False. }
  rewrite Hce.
  repeat (match goal with |- context [decide (t = ?x)] => destruct (decide (t = x)) end; [done|]).
  by destruct (other_form t).
Qed.

(** Every submission state reads back from its text, and only the texts of
    the seven states are states. *)
Theorem status_roundtrip s st :
  status_from_str s = Ok st ↔ s = status_as_str st.
Proof.
  split.
  - unfold status_from_str.
    repeat (destruct (decide (s = _)) as [E|_]; [intros [= <-]; exact E|]). done.
  - intros ->. destruct st; by vm_compute.
Qed.
