(* ===== verification/Sdk.v ===== *)
(** * Sdk: the types every plugin shares

    [SdkError] (packages/broccoli-types/src/error.rs) and [UserIdentity]
    (packages/broccoli-types/src/types/user.rs). *)

From S2P Require Import Prelude Text.

Inductive SdkError :=
  | Serialization (msg : ustring)
  | HostCall (msg : ustring)
  | Database (msg : ustring)
  | StaleEpoch
  | Other (msg : ustring).

#[global] Instance SdkError_eq_dec : EqDecision SdkError.
Proof. solve_decision. Defined.

(** [{}] and [{:?}] of an error. *)
Definition display_error (e : SdkError) : ustring :=
  match e with
  | Serialization msg => u "Serialization error: " ++ msg
  | HostCall msg => u "Host call error: " ++ msg
  | Database msg => u "Database error: " ++ msg
  | StaleEpoch => u "Stale judge epoch " ++ [8212%Z] ++ u " submission was rejudged"
  | Other msg => msg
  end.

Definition debug_error (e : SdkError) : ustring :=
  match e with
  | Serialization msg => u "Serialization(" ++ debug_str msg ++ u ")"
  | HostCall msg => u "HostCall(" ++ debug_str msg ++ u ")"
  | Database msg => u "Database(" ++ debug_str msg ++ u ")"
  | StaleEpoch => u "StaleEpoch"
  | Other msg => u "Other(" ++ debug_str msg ++ u ")"
  end.

Abbreviation sdk := (result SdkError).

Record UserIdentity := {
  id_user_id : Z;
  id_username : ustring;
  id_display_name : option ustring;
}.

(** [UserIdentity::display_label]. *)
Definition display_label (p : UserIdentity) : ustring :=
  default (id_username p)
    (name ← trim <$> id_display_name p; if decide (name = []) then None else Some name).

(** * Requests to a plugin and access to a contest

    packages/broccoli-types/src/types/http.rs, packages/server-sdk/src/api.rs and
    packages/server-sdk/src/contest.rs.  What the database answers is an argument
    ([ContestDb]). *)

(** ** Requests and responses *)

Record PluginHttpAuth := {
  pa_user_id : Z;
  pa_username : ustring;
  pa_roles : list ustring;
  pa_permissions : list ustring;
}.

Record PluginHttpRequest := {
  rq_method : ustring;
  rq_path : ustring;
  rq_params : gmap ustring ustring;
  rq_query : gmap ustring ustring;
  rq_headers : gmap ustring ustring;
  rq_body : option ustring;
  rq_auth : option PluginHttpAuth;
}.

Definition user_id (req : PluginHttpRequest) : option Z := pa_user_id <$> rq_auth req.

Definition has_permission (req : PluginHttpRequest) (permission : ustring) : bool :=
  match rq_auth req with
  | Some auth => bool_decide (permission ∈ pa_permissions auth)
  | None => false
  end.

(** [param] of a request, as an [i32]. *)
Definition param_i32 (req : PluginHttpRequest) (name : ustring) : sdk Z :=
  ok_or (rq_params req !! name ≫= parse_i32) (Other (u "Missing or invalid param: " ++ name)).

(** A body is an error message or the document a handler builds. *)
Inductive ResponseBody (A : Type) := ErrorBody (message : ustring) | Body (document : A).
Arguments ErrorBody {A} _.
Arguments Body {A} _.

Record PluginHttpResponse (A : Type) := {
  rs_status : Z;
  rs_headers : option (gmap ustring ustring);
  rs_body : option (ResponseBody A);
}.
Arguments rs_status {A} _.
Arguments rs_headers {A} _.
Arguments rs_body {A} _.

(** [PluginHttpResponse::error]. *)
Definition error_response {A} (status : Z) (message : ustring) : PluginHttpResponse A :=
  {| rs_status := status; rs_headers := None; rs_body := Some (ErrorBody message) |}.

Definition ok_response {A} (document : A) : PluginHttpResponse A :=
  {| rs_status := 200; rs_headers := None; rs_body := Some (Body document) |}.

Inductive ApiError (A : Type) := Response (r : PluginHttpResponse A) | ApiSdk (e : SdkError).
Arguments Response {A} _.
Arguments ApiSdk {A} _.

Abbreviation api A := (result (ApiError A)).

Definition api_error {A B} (status : Z) (message : ustring) : api A B :=
  Err (Response (error_response status message)).

(** [?] on an SDK result. *)
Definition api_of {A B} (r : sdk B) : api A B :=
  match r with Ok b => Ok b | Err e => Err (ApiSdk e) end.

Definition into_response {A} (e : ApiError A) : PluginHttpResponse A :=
  match e with
  | Response r => r
  | ApiSdk e => error_response 500 (debug_error e)
  end.

(** [run_api_handler], between the JSON of the request and of the response. *)
Definition run_api_handler {A} (r : api A (PluginHttpResponse A)) : PluginHttpResponse A :=
  match r with Ok r => r | Err e => into_response e end.

(** ** Access to a contest *)

Definition CONTEST_MANAGE : ustring := u "contest:manage".
Definition CONTEST_NOT_FOUND : ustring := u "Contest not found".

Record ContestInfo := {
  ci_contest_type : option ustring;
  ci_is_public : bool;
  ci_is_active : bool;
  ci_phase : ustring;
}.

(** What the database answers about a contest, its participants and its problems. *)
Record ContestDb := {
  db_info : Z → sdk (option ContestInfo);
  db_is_participant : Z → Z → sdk bool;
  db_has_problem : Z → Z → sdk bool;
}.

Section access.
Context {A : Type} (db : ContestDb).

Definition require_type (info : ContestInfo) (expected : ustring) : api A () :=
  if decide (ci_contest_type info = Some expected) then Ok tt
  else api_error 404 (u "Not a " ++ expected ++ u " contest").

Definition load_info (contest_id : Z) : api A ContestInfo :=
  info ← api_of (db_info db contest_id);
  match info with Some info => Ok info | None => api_error 404 CONTEST_NOT_FOUND end.

Definition can_view (req : PluginHttpRequest) (contest_id : Z) (info : ContestInfo) : api A bool :=
  if has_permission req CONTEST_MANAGE then Ok true
  else if negb (ci_is_active info) then Ok false
  else if ci_is_public info then Ok true
  else
    match user_id req with
    | Some user => api_of (db_is_participant db contest_id user)
    | None => Ok false
    end.

Definition check_access (req : PluginHttpRequest) (contest_id : Z) : api A ContestInfo :=
  info ← load_info contest_id;
  visible ← can_view req contest_id info;
  if negb visible then api_error 404 CONTEST_NOT_FOUND else Ok info.

Definition check_problem_access (req : PluginHttpRequest) (contest_id user problem_id : Z)
    : api A () :=
  info ← load_info contest_id;
  outside ← (if has_permission req CONTEST_MANAGE then Ok false
             else if negb (ci_is_active info) then Ok true
             else negb <$> api_of (db_is_participant db contest_id user));
  if (outside : bool) then api_error 404 CONTEST_NOT_FOUND
  else
    known ← api_of (db_has_problem db contest_id problem_id);
    if negb known then api_error 404 CONTEST_NOT_FOUND else Ok tt.

End access.

(** A contest that is refused looks like one that does not exist. *)
Lemma refused_like_missing {A} db req contest_id info :
  db_info db contest_id = Ok (Some info) →
  can_view (A := A) db req contest_id info = Ok false →
  check_access (A := A) db req contest_id = api_error 404 CONTEST_NOT_FOUND.
Proof. intros Hi Hv. unfold check_access, load_info. rewrite Hi. cbn. by rewrite Hv. Qed.
