(* ===== verification/Float.v ===== *)
(** * Float: the scores of the judge

    A Rust [f64] is a [spec_float] of the Standard Library with 53 bits of
    precision; arithmetic is its correctly rounded arithmetic. *)

From Stdlib Require Import SpecFloat.
From S2P Require Import Prelude.
From S2P Require Import Text.

Definition f64 : Type := spec_float.

Definition fprec : Z := 53.
Definition femax : Z := 1024.

Definition f_zero : f64 := S754_zero false.
Definition f_one : f64 := S754_finite false 4503599627370496 (-52).

Definition is_finite (x : f64) : bool :=
  match x with S754_zero _ | S754_finite _ _ _ => true | _ => false end.

Definition is_nan (x : f64) : bool := match x with S754_nan => true | _ => false end.

Definition f_add : f64 → f64 → f64 := SFadd fprec femax.
Definition f_sub : f64 → f64 → f64 := SFsub fprec femax.
Definition f_mul : f64 → f64 → f64 := SFmul fprec femax.
Definition f_div : f64 → f64 → f64 := SFdiv fprec femax.
Definition f_eqb : f64 → f64 → bool := SFeqb.
Definition f_ltb : f64 → f64 → bool := SFltb.
Definition f_leb : f64 → f64 → bool := SFleb.

(** [z as f64] for an integer of at most 53 bits. *)
Definition f_of_Z (z : Z) : f64 := binary_normalize fprec femax z 0 false.

#[global] Instance f64_eq_dec : EqDecision f64.
Proof. intros x y. unfold f64 in *. solve_decision. Defined.

Lemma f_of_one : f_of_Z 1 = f_one.
Proof. reflexivity. Qed.

(** Comparison is reflexive on finite numbers (and not on NaN). *)
Lemma f_eqb_refl x : is_finite x = true → f_eqb x x = true.
Proof.
  destruct x as [[]|[]| |[] m e]; try done; intros _; unfold f_eqb, SFeqb; cbn;
    by rewrite Z.compare_refl, Pos.compare_refl.
Qed.

(** ** Conversions *)

(** [f64::max] (on two zeros the sign is not specified; the second one is kept). *)
Definition f_max (x y : f64) : f64 :=
  if is_nan x then y else if is_nan y then x else if f_ltb y x then x else y.

(** [f64::clamp]. *)
Definition f_clamp (lo hi x : f64) : f64 :=
  if f_ltb x lo then lo else if f_ltb hi x then hi else x.

(** [x.ceil()] of a finite number, as an integer. *)
Definition f_ceil (x : f64) : Z :=
  match x with
  | S754_finite s m e =>
      let v := if s then Z.neg m else Z.pos m in
      if (0 <=? e)%Z then (v * 2 ^ e)%Z else (- ((- v) / 2 ^ (- e)))%Z
  | _ => 0%Z
  end.

(** [x as i64]: towards zero, saturating, and 0 for NaN. *)
Definition f_to_i64 (x : f64) : Z :=
  match x with
  | S754_finite s m e =>
      let v := if (0 <=? e)%Z then (Z.pos m * 2 ^ e)%Z else (Z.pos m / 2 ^ (- e))%Z in
      sat64 (if s then (- v)%Z else v)
  | S754_infinity s => if s then i64_min else i64_max
  | _ => 0%Z
  end.

Lemma f_to_i64_range x : in_i64 (f_to_i64 x).
Proof.
  destruct x as [s|s| |s m e]; cbn; [done|by destruct s|done|apply sat64_in_range].
Qed.

(** ** [str::parse::<f64>] *)

(** The binary64 number nearest to [m * 10 ^ e]: a quotient of at least 64 bits
    whose last bit is sticky, then the rounding to nearest even. *)
Definition f_of_decimal (neg : bool) (m e : Z) : f64 :=
  (let sign z := if neg then - z else z in
   if m =? 0 then S754_zero neg
   else if 0 <=? e then binary_normalize fprec femax (sign (m * 10 ^ e)) 0 neg
   else
     let d := 10 ^ (- e) in
     let s := Z.max 0 (Z.log2 d - Z.log2 m + 66) in
     let q := m * 2 ^ s / d in
     let sticky := if (m * 2 ^ s) mod d =? 0 then 0 else 1 in
     binary_normalize fprec femax (sign (2 * q + sticky)) (- s - 1) neg)%Z.

Fixpoint span_digits (s : ustring) : ustring * ustring :=
  match s with
  | c :: s' => if is_digit c then let '(ds, r) := span_digits s' in (c :: ds, r) else ([], s)
  | [] => ([], [])
  end.

Definition digits_value (ds : ustring) : Z := default 0%Z (parse_digits 0 ds).

(** The exponent part: nothing, or [e] with an optional sign and digits. *)
Definition parse_exponent (s : ustring) : option Z :=
  match s with
  | [] => Some 0%Z
  | c :: s' =>
      if (ascii_lower c =? 101)%Z then
        let '(neg, ds) := match s' with
                          | 45%Z :: ds => (true, ds)
                          | 43%Z :: ds => (false, ds)
                          | _ => (false, s')
                          end in
        match span_digits ds with
        | ((_ :: _) as ds, []) => Some (if neg then - digits_value ds else digits_value ds)%Z
        | _ => None
        end
      else None
  end.

Definition parse_f64 (s : ustring) : option f64 :=
  let '(neg, body) := match s with
                      | 45%Z :: b => (true, b)
                      | 43%Z :: b => (false, b)
                      | _ => (false, s)
                      end in
  let low := ascii_lower <$> body in
  if decide (low = u "inf" ∨ low = u "infinity") then Some (S754_infinity neg)
  else if decide (low = u "nan") then Some S754_nan
  else
    let '(ip, r) := span_digits body in
    let '(fp, r) := match r with 46%Z :: r' => span_digits r' | _ => ([], r) end in
    match ip ++ fp with
    | [] => None
    | ds => (λ x, f_of_decimal neg (digits_value ds) (x - Z.of_nat (length fp))) <$> parse_exponent r
    end.

(** * Rounding, sums and products of scores

    [f64::round] and the sums and products of iterators over [f64]; a product of
    numbers of the unit interval stays in it, and equality up to the sign of a
    zero is a congruence for the arithmetic of scores. *)

From stdpp Require Import base list.

(** [x.round()]: half away from zero. *)
Definition f_round (x : f64) : f64 :=
  match x with
  | S754_finite s m e =>
      if (0 <=? e)%Z then x
      else
        let q := ((Z.pos m + 2 ^ (- e - 1)) / 2 ^ (- e))%Z in
        binary_normalize fprec femax (if s then - q else q)%Z 0 s
  | _ => x
  end.

(** [iter.sum()] starts at the negative zero, [iter.product()] at one. *)
Definition f_sum (xs : list f64) : f64 := foldl f_add (S754_zero true) xs.
Definition f_product (xs : list f64) : f64 := foldl f_mul f_one xs.

(** ** Shifts of a mantissa *)

Lemma iter_pos_nat {A} (f : A → A) p x : SpecFloat.iter_pos f p x = Nat.iter (Pos.to_nat p) f x.
Proof.
  revert x. induction p as [p IH|p IH|]; intros x; cbn [SpecFloat.iter_pos].
  - rewrite !IH, Pos2Nat.inj_xI.
    replace (S (2 * Pos.to_nat p)) with (Pos.to_nat p + (Pos.to_nat p + 1)) by lia.
    by rewrite !Nat.iter_add.
  - rewrite !IH, Pos2Nat.inj_xO, <- Nat.iter_add. f_equal. lia.
  - done.
Qed.

Lemma shr_1_spec (m : Z) (r s : bool) :
  (0 ≤ m)%Z →
  shr_m (shr_1 (Build_shr_record m r s)) = (m / 2)%Z ∧
  shr_r (shr_1 (Build_shr_record m r s)) = Z.odd m ∧
  shr_s (shr_1 (Build_shr_record m r s)) = r || s.
Proof.
  intros Hm. destruct m as [|p|p]; [done| |lia].
  destruct p as [p|p|]; cbn; split_and!; try done.
  - apply Z.div_unique with 1%Z; lia.
  - apply Z.div_unique with 0%Z; lia.
Qed.

Lemma shr_iter_spec (m : Z) (n : nat) :
  (0 ≤ m)%Z →
  let t := Nat.iter n shr_1 (Build_shr_record m false false) in
  shr_m t = (m / 2 ^ Z.of_nat n)%Z ∧
  (shr_r t = false → shr_s t = false → (2 ^ Z.of_nat n * (m / 2 ^ Z.of_nat n))%Z = m) ∧
  (shr_r t || shr_s t = true → (2 ^ Z.of_nat n * (m / 2 ^ Z.of_nat n) < m)%Z).
Proof.
  intros Hm. induction n as [|n (IHm & IHe & IHi)]; cbn [Nat.iter nat_rect].
  { cbn. rewrite Z.div_1_r. split_and!; [done| |done]. intros _ _. lia. }
  cbv zeta in *. set (t := Nat.iter n shr_1 _) in *.
  assert (0 ≤ shr_m t)%Z as Hpos by (rewrite IHm; apply Z.div_pos; lia).
  destruct t as [tm tr ts] eqn:Et. cbn [shr_m shr_r shr_s] in *.
  destruct (shr_1_spec tm tr ts Hpos) as (Em & Er & Es).
  change (Nat.iter (S n) shr_1 (Build_shr_record m false false))
    with (shr_1 (Nat.iter n shr_1 (Build_shr_record m false false))).
  fold t. change (shr_1 _) with (shr_1 t). rewrite Et, Em, Er, Es.
  replace (2 ^ Z.of_nat (S n))%Z with (2 ^ Z.of_nat n * 2)%Z
    by (rewrite Nat2Z.inj_succ, Z.pow_succ_r by lia; lia).
  rewrite <- Z.div_div, <- IHm by lia.
  pose proof (Z.div_mod tm 2 ltac:(lia)) as Hdm. rewrite Zmod_odd in Hdm.
  split_and!; [done| |].
  - intros Ho [-> ->]%orb_false_iff. rewrite Ho in Hdm. rewrite <- (IHe eq_refl eq_refl), <- IHm. lia.
  - intros Hor. assert (2 ^ Z.of_nat n * tm ≤ m)%Z.
    { rewrite IHm. apply Z.mul_div_le. lia. }
    assert (0 < 2 ^ Z.of_nat n)%Z by lia.
    destruct (Z.odd tm); [nia|]. cbn in Hor. specialize (IHi Hor). rewrite <- IHm in IHi. nia.
Qed.

Lemma shr_spec m e n :
  (0 ≤ m)%Z →
  let '(t, e') := shr (Build_shr_record m false false) e n in
  e' = (e + Z.max 0 n)%Z ∧ shr_m t = (m / 2 ^ Z.max 0 n)%Z ∧
  (loc_of_shr_record t = loc_Exact ∨ (2 ^ Z.max 0 n * (m / 2 ^ Z.max 0 n) < m)%Z).
Proof.
  intros Hm. destruct n as [|p|p]; cbn [shr Z.max Z.compare].
  1, 3: cbn; rewrite Z.div_1_r; split_and!; [lia|done|by left].
  rewrite iter_pos_nat. pose proof (shr_iter_spec m (Pos.to_nat p) Hm) as (Em & He & Hi).
  rewrite positive_nat_Z in Em, He, Hi. split_and!; [done|done|].
  destruct (Nat.iter _ _ _) as [tm [|] [|]]; cbn in *; auto.
Qed.

Lemma digits2_pos_bound p k : (Z.pos p ≤ 2 ^ k)%Z → (0 ≤ k)%Z → (Z.pos (digits2_pos p) ≤ k + 1)%Z.
Proof.
  revert k. induction p as [p IH|p IH|]; intros k Hp Hk; cbn [digits2_pos]; [| |lia].
  all: destruct (decide (k = 0)%Z) as [-> |]; [cbn in Hp; lia|].
  all: assert (2 ^ k = 2 * 2 ^ (k - 1))%Z as Ek
    by (rewrite <- Z.pow_succ_r by lia; f_equal; lia).
  all: specialize (IH (k - 1)%Z ltac:(lia) ltac:(lia)); lia.
Qed.

Lemma digits2_pos_lower p : (Z.pos p < 2 ^ Z.pos (digits2_pos p))%Z.
Proof.
  induction p as [p IH|p IH|]; cbn [digits2_pos]; [| |done];
    rewrite Pos2Z.inj_succ, Z.pow_succ_r by lia; lia.
Qed.

(** ** The unit interval *)

Definition is_zero (x : f64) : Prop := match x with S754_zero _ => True | _ => False end.

#[global] Instance is_zero_dec x : Decision (is_zero x).
Proof. destruct x; cbn; apply _. Defined.

Definition in_unit (x : f64) : Prop :=
  match x with
  | S754_zero _ => True
  | S754_finite false m e => (e ≤ 0 ∧ Z.pos m ≤ 2 ^ (- e))%Z
  | _ => False
  end.

(** A mantissa shifted to the right keeps its number in the unit interval. *)
Lemma shift_in_unit (m e : Z) :
  (0 ≤ m)%Z → (e ≤ 0)%Z → (m ≤ 2 ^ (- e))%Z →
  let '(t, e') := shr_fexp fprec femax m e loc_Exact in
  (e' ≤ 0)%Z ∧ (0 ≤ shr_m t ≤ 2 ^ (- e'))%Z ∧
  (0 ≤ round_nearest_even (shr_m t) (loc_of_shr_record t) ≤ 2 ^ (- e'))%Z.
Proof.
  intros Hm He Hle. unfold shr_fexp. cbn [shr_record_of_loc].
  assert (Zdigits2 m + e ≤ 1)%Z as Hd.
  { destruct m as [|p|p]; cbn; [lia| |lia].
    pose proof (digits2_pos_bound p (- e) Hle ltac:(lia)). lia. }
  set (n := (fexp fprec femax (Zdigits2 m + e) - e)%Z).
  assert (n ≤ - e)%Z as Hn by (subst n; unfold fexp, emin, fprec, femax; lia).
  pose proof (shr_spec m e n Hm) as Hs. destruct (shr _ e n) as [t e'].
  destruct Hs as (-> & -> & Hloc). set (k := Z.max 0 n) in *. assert (0 ≤ k ≤ - e)%Z by lia.
  assert (2 ^ (- e) = 2 ^ k * 2 ^ (- (e + k)))%Z as Hpow.
  { rewrite <- Z.pow_add_r by lia. f_equal. lia. }
  assert (0 ≤ m / 2 ^ k)%Z by (apply Z.div_pos; lia).
  assert (2 ^ k * (m / 2 ^ k) ≤ m)%Z by (apply Z.mul_div_le; lia).
  assert (0 < 2 ^ k)%Z by lia.
  split_and!; [lia|lia|nia| |].
  - unfold round_nearest_even. destruct (loc_of_shr_record t) as [|[]]; [lia| |lia|lia]. by case_match; lia.
  - destruct Hloc as [-> |Hlt]; [cbn; nia|]. unfold round_nearest_even.
    assert (m / 2 ^ k < 2 ^ (- (e + k)))%Z by nia.
    destruct (loc_of_shr_record t) as [|[]]; [lia| |lia|lia]. case_match; lia.
Qed.

Lemma in_unit_round m e :
  (e ≤ 0)%Z → (Z.pos m ≤ 2 ^ (- e))%Z → in_unit (binary_round_aux fprec femax false (Z.pos m) e loc_Exact).
Proof.
  intros He Hm. unfold binary_round_aux.
  pose proof (shift_in_unit (Z.pos m) e ltac:(lia) He Hm) as H1.
  destruct (shr_fexp _ _ _ e _) as [t e']. destruct H1 as (He' & _ & Hr & Hle).
  pose proof (shift_in_unit _ e' Hr He' Hle) as H2.
  destruct (shr_fexp _ _ _ e' _) as [t' e'']. destruct H2 as (He'' & [Hpos Hle'] & _).
  destruct (shr_m t') as [|p|p]; [done| |lia].
  destruct (Z.leb_spec e'' (femax - fprec)); [by cbn|]. unfold femax, fprec in *. lia.
Qed.

Lemma in_unit_mul x y : in_unit x → in_unit y → in_unit (f_mul x y).
Proof.
  destruct x as [sx|sx| |[] mx ex], y as [sy|sy| |[] my ey]; try done; cbn.
  intros [Hx Hmx] [Hy Hmy]. apply in_unit_round; [lia|].
  replace (- (ex + ey))%Z with (- ex + - ey)%Z by lia. rewrite Z.pow_add_r, Pos2Z.inj_mul by lia.
  apply Z.mul_le_mono_nonneg; lia.
Qed.

Lemma in_unit_one : in_unit f_one.
Proof. cbn. lia. Qed.

(** A product with a factor that is zero. *)
Lemma mul_zero_l x y : is_zero x → in_unit y → is_zero (f_mul x y).
Proof. by destruct x, y as [| | |[]]. Qed.

Lemma mul_zero_r x y : in_unit x → is_zero y → is_zero (f_mul x y).
Proof. by destruct x as [| | |[]], y. Qed.

Lemma foldl_mul_zero xs x : is_zero x → Forall in_unit xs → is_zero (foldl f_mul x xs).
Proof.
  intros Hx Hxs. revert x Hx. induction Hxs as [|y xs Hy _ IH]; intros x Hx; cbn; [done|].
  by apply IH, mul_zero_l.
Qed.

Lemma product_in_unit xs : Forall in_unit xs → in_unit (f_product xs).
Proof.
  unfold f_product. generalize in_unit_one. generalize f_one.
  intros x Hx Hxs. revert x Hx. induction Hxs as [|y xs Hy _ IH]; intros x Hx; cbn; [done|].
  by apply IH, in_unit_mul.
Qed.

Lemma product_zero xs : Forall in_unit xs → Exists is_zero xs → is_zero (f_product xs).
Proof.
  unfold f_product. generalize in_unit_one. generalize f_one.
  intros x Hx Hxs Hz. revert x Hx. induction Hxs as [|y xs Hy Hxs IH]; intros x Hx.
  { by apply Exists_nil in Hz. }
  apply Exists_cons in Hz as [Hz|Hz]; cbn.
  - apply foldl_mul_zero; [|done]. by apply mul_zero_r.
  - by apply IH, in_unit_mul.
Qed.

(** A number clamped to the unit interval; every [f64] is a valid binary64. *)
Lemma in_unit_clamp x :
  valid_binary fprec femax x = true → is_finite x = true → in_unit (f_clamp f_zero f_one x).
Proof.
  intros Hv Hf. unfold f_clamp, f_ltb. destruct x as [s|s| |[] m e]; try done.
  unfold SFltb. change (SFcompare (S754_finite false m e) f_zero) with (Some Gt). cbn [SFcompare f_one].
  unfold f_one, SFcompare. destruct (Z.compare_spec (-52) e) as [<- |Hlt|Hgt].
  - change (Pos.compare_cont Eq 4503599627370496 m) with (Pos.compare 4503599627370496 m).
    destruct (Pos.compare_spec 4503599627370496 m) as [<-|?|?]; [done|exact in_unit_one|].
    split; [done|]. apply Z.lt_le_incl, Pos2Z.pos_lt_pos. done.
  - apply in_unit_one.
  - cbn. split; [lia|]. cbn in Hv. apply andb_true_iff in Hv as [Hc _].
    unfold canonical_mantissa, fexp, emin, fprec, femax in Hc. apply Z.eqb_eq in Hc.
    assert (Z.pos (digits2_pos m) ≤ 53)%Z as Hd by lia.
    pose proof (digits2_pos_lower m).
    assert (2 ^ Z.pos (digits2_pos m) ≤ 2 ^ 53)%Z by (apply Z.pow_le_mono_r; lia).
    assert (2 ^ 53 ≤ 2 ^ (- e))%Z by (apply Z.pow_le_mono_r; lia). lia.
Qed.

(** ** The same number *)

(** Equality up to the sign of a zero. *)
Definition f_same (x y : f64) : Prop := x = y ∨ (is_zero x ∧ is_zero y).

#[global] Instance f_same_equivalence : Equivalence f_same.
Proof.
  split.
  - intros x. by left.
  - intros x y [-> |[]]; [by left|by right].
  - intros x y z [-> |[? ?]] [-> |[? ?]]; unfold f_same; tauto.
Qed.

Ltac same_cases :=
  intros;
  repeat match goal with H : f_same _ _ |- _ => destruct H as [-> |[? ?]] end;
  repeat match goal with H : is_zero ?x |- _ => is_var x; destruct x; try done end;
  repeat match goal with x : f64 |- _ => destruct x as [[]|[]| |[] ? ?] end;
  repeat match goal with b : bool |- _ => destruct b end;
  try done; (by left) || (by right).

#[global] Instance f_same_mul : Proper (f_same ==> f_same ==> f_same) f_mul.
Proof. unfold Proper, respectful. same_cases. Qed.

#[global] Instance f_same_add : Proper (f_same ==> f_same ==> f_same) f_add.
Proof. unfold Proper, respectful. same_cases. Qed.

#[global] Instance f_same_div : Proper (f_same ==> eq ==> f_same) f_div.
Proof. intros x x' Hx y ? <-. same_cases. Qed.

#[global] Instance f_same_round : Proper (f_same ==> f_same) f_round.
Proof. unfold Proper, respectful. same_cases. Qed.

#[global] Instance f_same_ltb : Proper (f_same ==> f_same ==> eq) f_ltb.
Proof. unfold Proper, respectful. same_cases. Qed.

Lemma f_sum_same xs ys : Forall2 f_same xs ys → f_same (f_sum xs) (f_sum ys).
Proof.
  unfold f_sum. assert (f_same (S754_zero true) (S754_zero true)) as Hz by done.
  revert Hz. generalize (S754_zero true) at 1 3. generalize (S754_zero true).
  intros b a Hab Hs. revert a b Hab. induction Hs as [|x y xs ys Hxy _ IH]; intros a b Hab; cbn; [done|].
  apply IH. by rewrite Hab, Hxy.
Qed.

(** * The order of scores

    The comparisons of [f64] are those of a totally ordered key, NaN apart; the
    maximum of scores, and that neither maxima nor bests depend on the order in
    which they are taken. *)

(** ** The key of a number *)

(** Sign, exponent and mantissa, of a number that is not NaN. *)
Definition f_key (x : f64) : Z * (Z * Z) :=
  match x with
  | S754_zero _ | S754_nan => (0, (0, 0))
  | S754_finite false m e => (1, (e, Z.pos m))
  | S754_finite true m e => (-1, (- e, Z.neg m))
  | S754_infinity false => (2, (0, 0))
  | S754_infinity true => (-2, (0, 0))
  end%Z.

Lemma pos_compare_cont m n : Pos.compare_cont Eq m n = (Z.pos m ?= Z.pos n)%Z.
Proof. reflexivity. Qed.

Lemma f_leb_key x y : is_nan x = false → is_nan y = false → f_leb x y = kle (f_key x) (f_key y).
Proof.
  intros Hx Hy. unfold f_leb, SFleb. destruct x as [?|[]| |[] m e], y as [?|[]| |[] n k]; try done;
    unfold SFcompare, kle, Ord_prod, kle, Ord_Z; cbn [f_key fst snd];
    rewrite pos_compare_cont; destruct (Z.compare_spec e k), (Z.compare_spec (Z.pos m) (Z.pos n));
    cbn [CompOpp]; repeat case_match; cbn [negb]; rewrite ?Z.leb_le, ?Z.leb_gt in *;
    first [lia | symmetry; apply Z.leb_le; lia | symmetry; apply Z.leb_gt; lia].
Qed.

Lemma f_ltb_key x y : is_nan x = false → is_nan y = false → f_ltb x y = klt (f_key x) (f_key y).
Proof.
  intros Hx Hy. unfold klt. rewrite <- f_leb_key by done. unfold f_ltb, SFltb, f_leb, SFleb.
  destruct x as [?|[]| |[] m e], y as [?|[]| |[] n k]; try done; unfold SFcompare;
    rewrite !pos_compare_cont, (Z.compare_antisym (Z.pos m) (Z.pos n)), (Z.compare_antisym e k);
    destruct (e ?= k)%Z, (Z.pos m ?= Z.pos n)%Z; done.
Qed.

Lemma f_key_same x y : is_nan x = false → is_nan y = false → f_key x = f_key y → f_same x y.
Proof.
  intros Hx Hy. unfold f_same.
  destruct x as [?|[]| |[] m e], y as [?|[]| |[] n k]; try done; cbn; intros [=]; subst; auto.
  left. f_equal; lia.
Qed.

(** ** Maxima *)

Lemma f_max_nan x y : is_nan x = false → is_nan y = false → is_nan (f_max x y) = false.
Proof. unfold f_max. intros Hx Hy. rewrite Hx, Hy. by case_match. Qed.

Definition key_max (a b : Z * (Z * Z)) : Z * (Z * Z) := if klt b a then a else b.

Lemma f_max_key x y : is_nan x = false → is_nan y = false →
  f_key (f_max x y) = key_max (f_key x) (f_key y).
Proof. intros Hx Hy. unfold f_max, key_max. rewrite Hx, Hy, <- f_ltb_key by done. by case_match. Qed.

(** [if score > best then score]: NaN never replaces a number. *)
Definition keep_better (best score : f64) : f64 := if f_ltb best score then score else best.

Lemma f_ltb_nan x y : is_nan x = true → f_ltb y x = false.
Proof. by destruct x, y as [?|[]| |[] ? ?]. Qed.

(** A best so far: at least the positive zero it began as. *)
Definition best_ok (x : f64) : Prop := is_nan x = false ∧ (x = f_zero ∨ f_ltb f_zero x = true).

Lemma best_ok_zero : best_ok f_zero.
Proof. split; auto. Qed.

Lemma klt_trans {K} `{OrdLaws K} (x y z : K) : klt x y = true → klt y z = true → klt x z = true.
Proof.
  unfold klt. rewrite !negb_true_iff. intros Hxy Hyz. apply not_true_iff_false. intros Hzx.
  destruct (kle_total x y) as [Ho|Ho]; [|congruence].
  by rewrite (kle_trans _ _ _ Hzx Ho) in Hyz.
Qed.

Lemma keep_better_ok b s : best_ok b → best_ok (keep_better b s).
Proof.
  intros [Hn Hb]. unfold keep_better. destruct (f_ltb b s) eqn:E; [|by split].
  assert (is_nan s = false) as Hs.
  { destruct (is_nan s) eqn:Es; [|done]. by rewrite f_ltb_nan in E. }
  split; [done|]. right. destruct Hb as [-> |Hb]; [done|].
  rewrite f_ltb_key in * by done. by eapply klt_trans.
Qed.

(** Positive numbers with one key are the same. *)
Lemma positive_key x y :
  is_nan x = false → is_nan y = false → f_ltb f_zero x = true → f_key x = f_key y → x = y.
Proof.
  intros Hx Hy Hpos E. destruct (f_key_same _ _ Hx Hy E) as [-> |[Hz _]]; [done|].
  by destruct x as [[]| | |].
Qed.

(** The bests of two scores, in either order. *)
Lemma keep_better_comm b s t :
  best_ok b → keep_better (keep_better b s) t = keep_better (keep_better b t) s.
Proof.
  intros [Hb Hpos].
  destruct (is_nan s) eqn:Es.
  { unfold keep_better. rewrite (f_ltb_nan s b), (f_ltb_nan s _) by done. done. }
  destruct (is_nan t) eqn:Et.
  { unfold keep_better. rewrite (f_ltb_nan t b), (f_ltb_nan t _) by done. done. }
  unfold keep_better. destruct (f_ltb b s) eqn:Ebs, (f_ltb b t) eqn:Ebt; rewrite ?Ebs, ?Ebt; [| | |done].
  - destruct (f_ltb s t) eqn:Est, (f_ltb t s) eqn:Ets; try done.
    + rewrite f_ltb_key in Est, Ets by done. pose proof (klt_trans _ _ _ Est Ets) as Hc.
      unfold klt in Hc. by rewrite kle_refl in Hc.
    + rewrite f_ltb_key in * by done. apply klt_false in Est, Ets. apply positive_key; [done..| |by apply kle_antisym].
      rewrite f_ltb_key by done. destruct Hpos as [-> |Hpos]; [done|].
      by eapply klt_trans.
  - destruct (f_ltb s t) eqn:Est; [|done]. rewrite f_ltb_key in * by done.
    apply klt_false in Ebt. pose proof (klt_trans _ _ _ Ebs Est) as Hc. unfold klt in Hc. by rewrite Ebt in Hc.
  - destruct (f_ltb t s) eqn:Ets; [|done]. rewrite f_ltb_key in * by done.
    apply klt_false in Ebs. pose proof (klt_trans _ _ _ Ebt Ets) as Hc. unfold klt in Hc. by rewrite Ebs in Hc.
Qed.

(** ** Folds that do not depend on the order *)

Lemma foldl_perm_inv {A B} (f : B → A → B) (P : B → Prop) l l' b :
  (∀ b x, P b → P (f b x)) → (∀ b x y, P b → f (f b x) y = f (f b y) x) →
  l ≡ₚ l' → P b → foldl f b l = foldl f b l'.
Proof.
  intros Hinv Hcomm Hp. revert b. induction Hp as [|x l l' _ IH|x y l|l1 l2 l3 _ IH1 _ IH2]; intros b Hb; cbn.
  - done.
  - by apply IH, Hinv.
  - by rewrite Hcomm.
  - by rewrite IH1, IH2.
Qed.
