(* ===== verification/Host.v ===== *)
(** * Host: what a plugin sees of the server

    The state behind the SDK's [Host] and the calls the plugins make on it, as
    the native host of packages/server-sdk/src/sdk implements them: key-value
    storage with revisions (storage.rs), timers (timer.rs), and the feedback
    slots of submissions (submissions.rs, with the transition rules of
    packages/broccoli-types/src/types/submission_admission.rs).  The tables a
    plugin reads with SQL are the lists and maps [h_contests], [h_submissions]
    and the clock [h_now].

    A call is a [M A]: it runs on a host and either panics ([None]) or returns
    a result together with the host it leaves behind; an error keeps the
    effects made before it. *)

From S2P Require Import Prelude Text Float Verdict Sdk.

(** ** JSON

    [serde_json] writes and reads the documents a plugin stores. *)

Class Serde (A : Type) := {
  to_json : A → ustring;
  from_json : ustring → result ustring A;
  from_to_json : ∀ a, from_json (to_json a) = Ok a;
}.

(** ** Feedback records *)

Record SubmissionFeedbackResult := { fr_verdict : Verdict; fr_score : f64 }.

Record SubmissionFeedbackRecord := {
  fb_submission_id : Z;
  fb_contest_id : Z;
  fb_user_id : Z;
  fb_problem_id : Z;
  fb_submitted_at_us : Z;
  fb_status : SubmissionLifecycle;
  fb_verdict : option Verdict;
  fb_key : ustring;
  fb_metadata : ustring;
  fb_withheld : bool;
  fb_slot_held : bool;
  fb_slot_key : option ustring;
  fb_result : option SubmissionFeedbackResult;
}.

Inductive ReleaseResult := Original | Override (verdict : Verdict) (score : f64).

Inductive SubmissionFeedbackAction := Release (r : ReleaseResult) | ReleaseSlot.

Inductive FeedbackUpdateOutcome := Applied | AlreadyApplied.

#[global] Instance SubmissionFeedbackResult_eq_dec : EqDecision SubmissionFeedbackResult.
Proof. solve_decision. Defined.
#[global] Instance SubmissionFeedbackRecord_eq_dec : EqDecision SubmissionFeedbackRecord.
Proof. solve_decision. Defined.
#[global] Instance ReleaseResult_eq_dec : EqDecision ReleaseResult.
Proof. solve_decision. Defined.
#[global] Instance SubmissionFeedbackAction_eq_dec : EqDecision SubmissionFeedbackAction.
Proof. solve_decision. Defined.
#[global] Instance FeedbackUpdateOutcome_eq_dec : EqDecision FeedbackUpdateOutcome.
Proof. solve_decision. Defined.

Definition release_validate (r : ReleaseResult) : result ustring unit :=
  match r with
  | Override _ score => if is_finite score then Ok tt else Err (u "Invalid feedback score")
  | Original => Ok tt
  end.

Definition with_feedback_state (withheld slot_held : bool)
    (res : option SubmissionFeedbackResult) (r : SubmissionFeedbackRecord)
    : SubmissionFeedbackRecord := {|
  fb_submission_id := fb_submission_id r;
  fb_contest_id := fb_contest_id r;
  fb_user_id := fb_user_id r;
  fb_problem_id := fb_problem_id r;
  fb_submitted_at_us := fb_submitted_at_us r;
  fb_status := fb_status r;
  fb_verdict := fb_verdict r;
  fb_key := fb_key r;
  fb_metadata := fb_metadata r;
  fb_withheld := withheld;
  fb_slot_held := slot_held;
  fb_slot_key := fb_slot_key r;
  fb_result := res;
|}.

Definition released_result (r : ReleaseResult) : option SubmissionFeedbackResult :=
  match r with
  | Original => None
  | Override verdict score => Some {| fr_verdict := verdict; fr_score := score |}
  end.

(** Equality of results: scores compare as floating-point numbers. *)
Definition same_result (x y : option SubmissionFeedbackResult) : bool :=
  match x, y with
  | Some x, Some y =>
      bool_decide (fr_verdict x = fr_verdict y) && f_eqb (fr_score x) (fr_score y)
  | None, None => true
  | _, _ => false
  end.

(** [SubmissionFeedbackRecord::apply_action]. *)
Definition apply_action (action : SubmissionFeedbackAction) (r : SubmissionFeedbackRecord)
    : result ustring (FeedbackUpdateOutcome * SubmissionFeedbackRecord) :=
  match action with
  | ReleaseSlot =>
      if negb (fb_slot_held r) then Ok (AlreadyApplied, r)
      else Ok (Applied, with_feedback_state (fb_withheld r) false (fb_result r) r)
  | Release release =>
      release_validate release ≫= λ _,
      let res := released_result release in
      if negb (fb_withheld r) then
        if same_result (fb_result r) res then Ok (AlreadyApplied, r)
        else Err (u "Feedback was already released with a different result")
      else Ok (Applied, with_feedback_state false false res r)
  end.

(** ** Results of judging

    The fields an update leaves alone are [None]; those it may clear are
    options of options. *)

Record SubmissionUpdate := {
  su_submission_id : Z;
  su_judgement_id : Z;
  su_judge_epoch : Z;
  su_status : option SubmissionLifecycle;
  su_verdict : option (option Verdict);
  su_score : option f64;
  su_time_used : option (option Z);
  su_memory_used : option (option Z);
  su_compile_output : option (option ustring);
  su_error_code : option (option ustring);
  su_error_message : option (option ustring);
}.

(** A persisted row of a test case. *)
Record TestCaseResultRow := {
  tr_submission_id : Z;
  tr_judgement_id : Z;
  tr_judge_epoch : Z;
  tr_test_case_id : option Z;
  tr_run_index : option Z;
  tr_verdict : Verdict;
  tr_score : f64;
  tr_time_used : option Z;
  tr_memory_used : option Z;
  tr_message : option ustring;
  tr_stdout : option ustring;
  tr_stderr : option ustring;
}.

(** ** Evaluation requests *)

#[global] Instance TestCaseResultRow_eq_dec : EqDecision TestCaseResultRow.
Proof. solve_decision. Defined.

Inductive TestCaseBodyRef :=
  | Inline (text : ustring)
  | Blob (hash : ustring)
  | Missing.

Record SourceFile := { sf_filename : ustring; sf_content : ustring }.

Record StartEvaluateCaseInput := {
  ec_problem_id : Z;
  ec_test_case_id : Z;
  ec_solution_source : list SourceFile;
  ec_solution_language : ustring;
  ec_time_limit_ms : Z;
  ec_memory_limit_kb : Z;
  ec_contest_id : option Z;
  ec_input : TestCaseBodyRef;
  ec_expected_output : TestCaseBodyRef;
  ec_is_custom : bool;
  ec_target_worker_id : option ustring;
}.

Record StartEvaluateBatchInput := {
  eb_problem_type : ustring;
  eb_test_cases : list StartEvaluateCaseInput;
}.

Record DetachedSubmissionCompletion := {
  dc_submission_id : Z;
  dc_judgement_id : Z;
  dc_judge_epoch : Z;
  dc_fire_after_judging : bool;
}.

Record StartDetachedWindowedEvaluateInput := {
  de_batch : StartEvaluateBatchInput;
  de_concurrency : nat;
  de_result_timeout_ms : Z;
  de_callback_fn : ustring;
  de_state : ustring;
  de_submission_completion : option DetachedSubmissionCompletion;
}.

(** ** The host *)

Record StorageSnapshot := { sn_value : ustring; sn_revision : Z }.

#[global] Instance StorageSnapshot_eq_dec : EqDecision StorageSnapshot.
Proof. solve_decision. Defined.

Record ContestTimes := { ct_start_ms : Z; ct_end_ms : option Z }.

Record SubmissionRow := {
  row_id : Z;
  row_contest_id : Z;
  row_user_id : Z;
  row_problem_id : Z;
  row_created_at_us : Z;
  row_verdict : option Verdict;
  row_status : SubmissionLifecycle;
}.

Record Host := {
  h_data : gmap ustring ustring;
  h_revisions : gmap ustring Z;
  h_timers : gmap ustring (Z * ustring);
  h_cancelled : list ustring;
  h_now : Z;
  h_contests : gmap Z ContestTimes;
  h_submissions : list SubmissionRow;
  h_feedback : list SubmissionFeedbackRecord;
  h_feedback_actions : list (Z * SubmissionFeedbackAction);
  h_feedback_errors : list SdkError;
  h_feedback_query_errors : list (option SdkError);
  h_updates : list SubmissionUpdate;
  h_update_results : list (sdk Z);
  h_log : list ustring;
  h_results : list TestCaseResultRow;
  h_insert_errors : list SdkError;
  h_detached : list StartDetachedWindowedEvaluateInput;
  h_start_errors : list SdkError;
}.

Definition with_storage (data : gmap ustring ustring) (revisions : gmap ustring Z) (h : Host)
    : Host := {|
  h_data := data; h_revisions := revisions; h_timers := h_timers h;
  h_cancelled := h_cancelled h; h_now := h_now h; h_contests := h_contests h;
  h_submissions := h_submissions h; h_feedback := h_feedback h;
  h_feedback_actions := h_feedback_actions h; h_feedback_errors := h_feedback_errors h;
  h_feedback_query_errors := h_feedback_query_errors h; h_updates := h_updates h;
  h_update_results := h_update_results h; h_log := h_log h; h_results := h_results h;
  h_insert_errors := h_insert_errors h; h_detached := h_detached h;
  h_start_errors := h_start_errors h |}.

Definition with_timers (timers : gmap ustring (Z * ustring)) (cancelled : list ustring)
    (h : Host) : Host := {|
  h_data := h_data h; h_revisions := h_revisions h; h_timers := timers;
  h_cancelled := cancelled; h_now := h_now h; h_contests := h_contests h;
  h_submissions := h_submissions h; h_feedback := h_feedback h;
  h_feedback_actions := h_feedback_actions h; h_feedback_errors := h_feedback_errors h;
  h_feedback_query_errors := h_feedback_query_errors h; h_updates := h_updates h;
  h_update_results := h_update_results h; h_log := h_log h; h_results := h_results h;
  h_insert_errors := h_insert_errors h; h_detached := h_detached h;
  h_start_errors := h_start_errors h |}.

Definition with_feedback (records : list SubmissionFeedbackRecord)
    (actions : list (Z * SubmissionFeedbackAction)) (h : Host) : Host := {|
  h_data := h_data h; h_revisions := h_revisions h; h_timers := h_timers h;
  h_cancelled := h_cancelled h; h_now := h_now h; h_contests := h_contests h;
  h_submissions := h_submissions h; h_feedback := records;
  h_feedback_actions := actions; h_feedback_errors := h_feedback_errors h;
  h_feedback_query_errors := h_feedback_query_errors h; h_updates := h_updates h;
  h_update_results := h_update_results h; h_log := h_log h; h_results := h_results h;
  h_insert_errors := h_insert_errors h; h_detached := h_detached h;
  h_start_errors := h_start_errors h |}.

Definition with_feedback_errors (errors : list SdkError) (query : list (option SdkError))
    (h : Host) : Host := {|
  h_data := h_data h; h_revisions := h_revisions h; h_timers := h_timers h;
  h_cancelled := h_cancelled h; h_now := h_now h; h_contests := h_contests h;
  h_submissions := h_submissions h; h_feedback := h_feedback h;
  h_feedback_actions := h_feedback_actions h; h_feedback_errors := errors;
  h_feedback_query_errors := query; h_updates := h_updates h;
  h_update_results := h_update_results h; h_log := h_log h; h_results := h_results h;
  h_insert_errors := h_insert_errors h; h_detached := h_detached h;
  h_start_errors := h_start_errors h |}.

Definition with_log (log : list ustring) (h : Host) : Host := {|
  h_data := h_data h; h_revisions := h_revisions h; h_timers := h_timers h;
  h_cancelled := h_cancelled h; h_now := h_now h; h_contests := h_contests h;
  h_submissions := h_submissions h; h_feedback := h_feedback h;
  h_feedback_actions := h_feedback_actions h; h_feedback_errors := h_feedback_errors h;
  h_feedback_query_errors := h_feedback_query_errors h; h_updates := h_updates h;
  h_update_results := h_update_results h; h_log := log; h_results := h_results h;
  h_insert_errors := h_insert_errors h; h_detached := h_detached h;
  h_start_errors := h_start_errors h |}.

Definition with_updates (updates : list SubmissionUpdate) (results : list (sdk Z)) (h : Host)
    : Host := {|
  h_data := h_data h; h_revisions := h_revisions h; h_timers := h_timers h;
  h_cancelled := h_cancelled h; h_now := h_now h; h_contests := h_contests h;
  h_submissions := h_submissions h; h_feedback := h_feedback h;
  h_feedback_actions := h_feedback_actions h; h_feedback_errors := h_feedback_errors h;
  h_feedback_query_errors := h_feedback_query_errors h; h_updates := updates;
  h_update_results := results; h_log := h_log h; h_results := h_results h;
  h_insert_errors := h_insert_errors h; h_detached := h_detached h;
  h_start_errors := h_start_errors h |}.

Definition with_results (results : list TestCaseResultRow) (errors : list SdkError) (h : Host)
    : Host := {|
  h_data := h_data h; h_revisions := h_revisions h; h_timers := h_timers h;
  h_cancelled := h_cancelled h; h_now := h_now h; h_contests := h_contests h;
  h_submissions := h_submissions h; h_feedback := h_feedback h;
  h_feedback_actions := h_feedback_actions h; h_feedback_errors := h_feedback_errors h;
  h_feedback_query_errors := h_feedback_query_errors h; h_updates := h_updates h;
  h_update_results := h_update_results h; h_log := h_log h; h_results := results;
  h_insert_errors := errors; h_detached := h_detached h;
  h_start_errors := h_start_errors h |}.

Definition with_detached (requests : list StartDetachedWindowedEvaluateInput)
    (errors : list SdkError) (h : Host)
    : Host := {|
  h_data := h_data h; h_revisions := h_revisions h; h_timers := h_timers h;
  h_cancelled := h_cancelled h; h_now := h_now h; h_contests := h_contests h;
  h_submissions := h_submissions h; h_feedback := h_feedback h;
  h_feedback_actions := h_feedback_actions h; h_feedback_errors := h_feedback_errors h;
  h_feedback_query_errors := h_feedback_query_errors h; h_updates := h_updates h;
  h_update_results := h_update_results h; h_log := h_log h; h_results := h_results h;
  h_insert_errors := h_insert_errors h; h_detached := requests; h_start_errors := errors |}.

(** ** Calls *)

Definition M (A : Type) : Type := Host → option (sdk A * Host).

#[export] Instance M_ret : MRet M := λ A a h, Some (Ok a, h).
#[export] Instance M_bind : MBind M := λ A B f m h,
  match m h with
  | Some (Ok a, h') => f a h'
  | Some (Err e, h') => Some (Err e, h')
  | None => None
  end.

Definition throw {A} (e : SdkError) : M A := λ h, Some (Err e, h).
Definition panic {A} : M A := λ _, None.
Definition gets {A} (f : Host → A) : M A := λ h, Some (Ok (f h), h).
Definition update (f : Host → Host) : M unit := λ h, Some (Ok tt, f h).
Definition lift {A} (r : sdk A) : M A := λ h, Some (r, h).
Definition or_throw {A} (o : option A) (e : SdkError) : M A := lift (ok_or o e).
(** An operation that panics where the option is empty. *)
Definition unwrap {A} (o : option A) : M A :=
  match o with Some a => mret a | None => panic end.

Fixpoint mapM_ {A} (f : A → M unit) (l : list A) : M unit :=
  match l with
  | [] => mret tt
  | x :: l => f x ≫= λ _, mapM_ f l
  end.

(** [serde_json::from_str(text)?]. *)
Definition parse_json {A} `{Serde A} (text : ustring) : M A :=
  match from_json text with
  | Ok a => mret a
  | Err e => throw (Serialization e)
  end.

(** ** Storage *)

(** Strings are ordered by their bytes, which is the order of their code
    points. *)
Fixpoint ustring_leb (x y : ustring) : bool :=
  match x, y with
  | [], _ => true
  | _ :: _, [] => false
  | a :: x, b :: y => if (a <? b)%Z then true else if (b <? a)%Z then false else ustring_leb x y
  end.

#[export] Instance Ord_ustring : Ord ustring := ustring_leb.

#[export] Instance OrdLaws_ustring : OrdLaws ustring.
Proof.
  split; unfold kle, Ord_ustring.
  - intros x. induction x as [|a x IH]; intros [|b y]; cbn; auto.
    destruct (Z.ltb_spec a b), (Z.ltb_spec b a); auto.
  - intros x. induction x as [|a x IH]; intros [|b y] [|c z]; cbn; try done.
    destruct (Z.ltb_spec a b), (Z.ltb_spec b a), (Z.ltb_spec b c), (Z.ltb_spec c b),
      (Z.ltb_spec a c), (Z.ltb_spec c a); intros; try lia; try done; eauto.
  - intros x. induction x as [|a x IH]; intros [|b y]; cbn; try done.
    destruct (Z.ltb_spec a b), (Z.ltb_spec b a); intros; try lia; try done.
    f_equal; [lia|by apply IH].
Qed.

Module Storage.

Definition get_one (key : ustring) : M (option ustring) := gets (λ h, h_data h !! key).

Definition bump (key : ustring) (h : Host) : gmap ustring Z :=
  <[key := (default 0 (h_revisions h !! key) + 1)%Z]> (h_revisions h).

Definition set_one (key value : ustring) : M unit :=
  update (λ h, with_storage (<[key := value]> (h_data h)) (bump key h) h).

Definition set (entries : list (ustring * ustring)) : M unit :=
  mapM_ (λ e, set_one e.1 e.2) entries.

Definition compare_and_set (key : ustring) (expected : option ustring) (new : ustring) : M bool :=
  current ← get_one key;
  if decide (current = expected) then set_one key new ≫= λ _, mret true
  else mret false.

Definition snapshot_of (h : Host) (key : ustring) : option StorageSnapshot :=
  (λ value, {| sn_value := value; sn_revision := default 0%Z (h_revisions h !! key) |})
    <$> h_data h !! key.

Definition snapshot (key : ustring) : M (option StorageSnapshot) :=
  gets (λ h, snapshot_of h key).

Definition compare_and_set_snapshot (key : ustring) (expected : option StorageSnapshot)
    (new : ustring) : M bool :=
  current ← snapshot key;
  if decide (current = expected) then compare_and_set key (sn_value <$> expected) new
  else mret false.

(** One page of keys: those with the prefix after [after]; the first
    hundred of them in order. *)
Definition in_page (prefix : ustring) (after : option ustring) (key : ustring) : bool :=
  bool_decide (is_Some (strip_prefix prefix key))
  && match after with Some a => klt a key | None => true end.

Definition scan_keys (h : Host) (prefix : ustring) (after : option ustring) : list ustring :=
  take 100
    (sort_by_key id
       (filter (λ key, in_page prefix after key = true) (elements (dom (h_data h))))).

Definition scan (prefix : ustring) (after : option ustring) : M (list (ustring * ustring)) :=
  gets (λ h, omap (λ key, (λ v, (key, v)) <$> h_data h !! key) (scan_keys h prefix after)).

(** [Storage::modify]: read, apply, write with a compare-and-set, at most
    [tries] times. *)
Fixpoint modify_loop {T} `{Serde T} (tries : nat) (key : ustring) (dflt : T) (f : T → M T)
    : M T :=
  match tries with
  | O => throw (Other (u "CAS retry limit exceeded"))
  | S tries =>
      snap ← snapshot key;
      value ← match snap with
              | Some s => parse_json (sn_value s)
              | None => mret dflt
              end;
      value ← f value;
      swapped ← compare_and_set_snapshot key snap (to_json value);
      if swapped : bool then mret value else modify_loop tries key dflt f
  end.

Definition modify {T} `{Serde T} (key : ustring) (dflt : T) (f : T → M T) : M T :=
  modify_loop 100 key dflt f.

End Storage.

(** ** Timers *)

Module Timer.

Definition schedule (fire_at_ms : Z) (key payload : ustring) : M unit :=
  update (λ h, with_timers (<[key := (fire_at_ms, payload)]> (h_timers h)) (h_cancelled h) h).

Definition cancel (key : ustring) : M unit :=
  update (λ h, with_timers (delete key (h_timers h)) (h_cancelled h ++ [key]) h).

End Timer.

(** ** Feedback *)

Record SubmissionFeedbackQuery := {
  q_key : option ustring;
  q_slot_key : option ustring;
  q_submission_ids : option (list Z);
  q_unpublished_only : bool;
  q_after_id : Z;
  q_limit : Z;
}.

Definition FEEDBACK_PAGE_SIZE : Z := 100.
Definition FEEDBACK_MAX_PAGE_SIZE : Z := 1000.

Definition query_default : SubmissionFeedbackQuery := {|
  q_key := None; q_slot_key := None; q_submission_ids := None; q_unpublished_only := false;
  q_after_id := 0; q_limit := FEEDBACK_PAGE_SIZE |}.

Definition page_size (q : SubmissionFeedbackQuery) : nat :=
  Z.to_nat (Z.max 1 (Z.min FEEDBACK_MAX_PAGE_SIZE (q_limit q))).

Definition after_id (z : Z) (q : SubmissionFeedbackQuery) : SubmissionFeedbackQuery := {|
  q_key := q_key q; q_slot_key := q_slot_key q; q_submission_ids := q_submission_ids q;
  q_unpublished_only := q_unpublished_only q; q_after_id := z; q_limit := q_limit q |}.

Definition matches_query (q : SubmissionFeedbackQuery) (r : SubmissionFeedbackRecord) : Prop :=
  (q_after_id q < fb_submission_id r)%Z ∧
  match q_key q with Some k => k = fb_key r | None => True end ∧
  match q_slot_key q with Some k => Some k = fb_slot_key r | None => True end ∧
  match q_submission_ids q with Some ids => fb_submission_id r ∈ ids | None => True end ∧
  (q_unpublished_only q = true → fb_withheld r = true).

#[global] Instance matches_query_dec q r : Decision (matches_query q r).
Proof. unfold matches_query. repeat case_match; apply _. Defined.

Record SubmissionSlotToken := { tok_key : ustring; tok_generation : option Z }.

Record SubmissionSlotObservation := {
  so_token : SubmissionSlotToken;
  so_pending : option SubmissionFeedbackRecord;
}.

Module Submissions.

(** The number of affected rows; a judgement that is not positive is stale. *)
Definition update (up : SubmissionUpdate) : M Z := λ h,
  if (su_judgement_id up <=? 0)%Z then Some (Err StaleEpoch, h)
  else
    let updates := h_updates h ++ [up] in
    match h_update_results h with
    | r :: rest => Some (r, with_updates updates rest h)
    | [] => Some (Ok 1%Z, with_updates updates [] h)
    end.

(** An update that sets nothing ([SubmissionUpdate::default()] for the ids). *)
Definition update_default (submission_id judgement_id judge_epoch : Z) : SubmissionUpdate := {|
  su_submission_id := submission_id; su_judgement_id := judgement_id;
  su_judge_epoch := judge_epoch; su_status := None; su_verdict := None; su_score := None;
  su_time_used := None; su_memory_used := None; su_compile_output := None;
  su_error_code := None; su_error_message := None |}.

Definition with_status (status : SubmissionLifecycle) (up : SubmissionUpdate) : SubmissionUpdate := {|
  su_submission_id := su_submission_id up; su_judgement_id := su_judgement_id up;
  su_judge_epoch := su_judge_epoch up; su_status := Some status; su_verdict := su_verdict up;
  su_score := su_score up; su_time_used := su_time_used up; su_memory_used := su_memory_used up;
  su_compile_output := su_compile_output up; su_error_code := su_error_code up;
  su_error_message := su_error_message up |}.

Definition set_compiling (submission_id judgement_id judge_epoch : Z) : M Z :=
  update (with_status Compiling (update_default submission_id judgement_id judge_epoch)).

Definition set_running (submission_id judgement_id judge_epoch : Z) : M Z :=
  update (with_status Running (update_default submission_id judgement_id judge_epoch)).

Definition insert_results (rows : list TestCaseResultRow) : M unit := λ h,
  if decide (rows = []) then Some (Ok tt, h)
  else if existsb (λ r, tr_judgement_id r <=? 0)%Z rows then Some (Err StaleEpoch, h)
  else
    match h_insert_errors h with
    | e :: rest => Some (Err e, with_results (h_results h) rest h)
    | [] => Some (Ok tt, with_results (h_results h ++ rows) [] h)
    end.

Definition delete_results (submission_id judgement_id judge_epoch : Z) : M unit := λ h,
  if (judgement_id <=? 0)%Z then Some (Err StaleEpoch, h)
  else
    let kept := filter (λ r, tr_submission_id r ≠ submission_id ∨ tr_judgement_id r ≠ judgement_id
                             ∨ tr_judge_epoch r ≠ judge_epoch) (h_results h) in
    Some (Ok tt, with_results kept (h_insert_errors h) h).

Definition feedback (q : SubmissionFeedbackQuery) : M (list SubmissionFeedbackRecord) := λ h,
  match h_feedback_query_errors h with
  | Some e :: rest =>
      Some (Err e, with_feedback_errors (h_feedback_errors h) rest h)
  | None :: rest =>
      let h := with_feedback_errors (h_feedback_errors h) rest h in
      Some (Ok (take (page_size q) (filter (matches_query q) (h_feedback h))), h)
  | [] => Some (Ok (take (page_size q) (filter (matches_query q) (h_feedback h))), h)
  end.

(** Read every page.  Each full page moves the cursor, so the number of records
    bounds the number of pages. *)
Fixpoint feedback_pages (fuel : nat) (q : SubmissionFeedbackQuery)
    (acc : list SubmissionFeedbackRecord) : M (list SubmissionFeedbackRecord) :=
  match fuel with
  | O => panic
  | S fuel =>
      page ← feedback q;
      let full := length page =? page_size q in
      let q := match last page with
               | Some r => after_id (fb_submission_id r) q
               | None => q
               end in
      let acc := acc ++ page in
      if full then feedback_pages fuel q acc else mret acc
  end.

Definition feedback_all (q : SubmissionFeedbackQuery) : M (list SubmissionFeedbackRecord) :=
  λ h, feedback_pages (S (length (h_feedback h))) q [] h.

(** The exclusive slot of a key: who holds it, and the newest submission that
    ever had it. *)
Definition slot_records (key : ustring) (h : Host) : list SubmissionFeedbackRecord :=
  filter (λ r, fb_slot_key r = Some key) (h_feedback h).

Definition observe_slot (key : ustring) : M SubmissionSlotObservation := gets (λ h,
  {| so_token := {| tok_key := key;
                    tok_generation := max_by_key id (fb_submission_id <$> slot_records key h) |};
     so_pending := snd <$> list_find (λ r, fb_slot_held r = true) (slot_records key h) |}).

Definition update_feedback (submission_id : Z) (action : SubmissionFeedbackAction)
    : M FeedbackUpdateOutcome := λ h,
  match h_feedback_errors h with
  | e :: rest => Some (Err e, with_feedback_errors rest (h_feedback_query_errors h) h)
  | [] =>
      match list_find (λ r, fb_submission_id r = submission_id) (h_feedback h) with
      | None => Some (Err (Database (u "Feedback record not found for this plugin")), h)
      | Some (i, r) =>
          match apply_action action r with
          | Err e => Some (Err (Database e), h)
          | Ok (outcome, r') =>
              Some (Ok outcome, with_feedback (<[i := r']> (h_feedback h))
                                  (h_feedback_actions h ++ [(submission_id, action)]) h)
          end
      end
  end.

Definition release_feedback (submission_id : Z) (r : ReleaseResult) : M FeedbackUpdateOutcome :=
  match release_validate r with
  | Err e => throw (Database e)
  | Ok _ => update_feedback submission_id (Release r)
  end.

Definition release_slot (submission_id : Z) : M FeedbackUpdateOutcome :=
  update_feedback submission_id ReleaseSlot.

End Submissions.

Module Eval.

(** Hand the cases to the host; the host may refuse the session. *)
Definition start_detached (request : StartDetachedWindowedEvaluateInput) : M unit := λ h,
  match h_start_errors h with
  | e :: rest => Some (Err e, with_detached (h_detached h) rest h)
  | [] => Some (Ok tt, with_detached (h_detached h ++ [request]) [] h)
  end.

End Eval.

Definition log_info (message : ustring) : M unit :=
  update (λ h, with_log (h_log h ++ [message]) h).

(** * The contracts of the host calls

    Optimistic updates of a stored document, paging through feedback records,
    and the finality of a feedback release. *)

(** ** Running calls *)

Lemma bind_Some_Ok {A B} (m : M A) (f : A → M B) h a h' :
  m h = Some (Ok a, h') → (m ≫= f) h = f a h'.
Proof. intros E. unfold mbind, M_bind. by rewrite E. Qed.

Lemma bind_inv {A B} (m : M A) (f : A → M B) h b h2 :
  (m ≫= f) h = Some (Ok b, h2) →
  ∃ a h1, m h = Some (Ok a, h1) ∧ f a h1 = Some (Ok b, h2).
Proof.
  unfold mbind, M_bind. destruct (m h) as [[[a|e] h1]|]; naive_solver.
Qed.

Lemma ret_inv {A} (a b : A) h h' : (mret a : M A) h = Some (Ok b, h') → b = a ∧ h' = h.
Proof. unfold mret, M_ret. naive_solver. Qed.

Lemma lift_inv {A} (r : sdk A) (b : A) h h' : lift r h = Some (Ok b, h') → r = Ok b ∧ h' = h.
Proof. unfold lift. naive_solver. Qed.

Lemma or_throw_inv {A} (o : option A) e (b : A) h h' :
  or_throw o e h = Some (Ok b, h') → o = Some b ∧ h' = h.
Proof. unfold or_throw, lift. destruct o; naive_solver. Qed.

Lemma unwrap_inv {A} (o : option A) (b : A) h h' :
  unwrap o h = Some (Ok b, h') → o = Some b ∧ h' = h.
Proof. destruct o; cbn; [intros [-> ->]%ret_inv; done|done]. Qed.

Lemma throw_inv {A} e (b : A) h h' : ¬ throw e h = Some (Ok b, h').
Proof. done. Qed.

(** Take a successful run of a call apart. *)
Ltac run_inv :=
  repeat match goal with
  | H : (_ ≫= _) _ = Some (Ok _, _) |- _ =>
      let a := fresh "a" in let h := fresh "h" in let Hr := fresh "Hrun" in
      apply bind_inv in H as (a & h & Hr & H)
  | H : mret _ _ = Some (Ok _, _) |- _ => apply ret_inv in H as [-> ->]
  | H : lift _ _ = Some (Ok _, _) |- _ => apply lift_inv in H as [H ->]
  | H : or_throw _ _ _ = Some (Ok _, _) |- _ => apply or_throw_inv in H as [H ->]
  | H : unwrap _ _ = Some (Ok _, _) |- _ => apply unwrap_inv in H as [H ->]
  | H : throw _ _ = Some (Ok _, _) |- _ => destruct (throw_inv _ _ _ _ H)
  | H : gets _ _ = Some (Ok _, _) |- _ => injection H as <- <-
  end.

Lemma parse_to_json {A} `{Serde A} (a : A) h : parse_json (to_json a) h = Some (Ok a, h).
Proof. unfold parse_json. by rewrite from_to_json. Qed.

(** ** Storage *)

Lemma snapshot_run key h : Storage.snapshot key h = Some (Ok (Storage.snapshot_of h key), h).
Proof. reflexivity. Qed.

(** What other handlers may do to the store between two calls of this one, and
    how many of their writes went to [key]. *)
Inductive interference (key : ustring) : nat → Host → Host → Prop :=
  | no_interference h : interference key 0 h h
  | other_set k v n h h' :
      interference key n (with_storage (<[k := v]> (h_data h)) (Storage.bump k h) h) h' →
      interference key (if decide (k = key) then S n else n) h h'
  | other_delete k n h h' :
      interference key n (with_storage (delete k (h_data h)) (h_revisions h) h) h' →
      interference key n h h'
  | other_effect n h h1 h' :
      h_data h1 = h_data h → h_revisions h1 = h_revisions h →
      interference key n h1 h' → interference key n h h'.

Definition revision_of (key : ustring) (h : Host) : Z := default 0%Z (h_revisions h !! key).

Lemma revision_bump key k h data :
  revision_of key (with_storage data (Storage.bump k h) h) =
  (revision_of key h + (if decide (k = key) then 1 else 0))%Z.
Proof.
  unfold revision_of, Storage.bump. cbn. destruct (decide (k = key)) as [->|Hne].
  - by rewrite lookup_insert_eq.
  - rewrite lookup_insert_ne by done. lia.
Qed.

Lemma interference_revision key n h h' :
  interference key n h h' → revision_of key h' = (revision_of key h + Z.of_nat n)%Z.
Proof.
  induction 1 as [h|k v n h h' _ IH|k n h h' _ IH|n h h1 h' _ Hr _ IH].
  - lia.
  - rewrite IH, revision_bump. destruct (decide (k = key)); lia.
  - exact IH.
  - rewrite IH. unfold revision_of. by rewrite Hr.
Qed.

Lemma cas_snapshot_spec key expected new h :
  Storage.compare_and_set_snapshot key expected new h =
  if decide (Storage.snapshot_of h key = expected)
  then Some (Ok true, with_storage (<[key := new]> (h_data h)) (Storage.bump key h) h)
  else Some (Ok false, h).
Proof.
  unfold Storage.compare_and_set_snapshot, Storage.snapshot, Storage.compare_and_set,
    Storage.get_one, gets, mbind, M_bind.
  destruct (decide (Storage.snapshot_of h key = expected)) as [<-|]; [|done].
  rewrite decide_True; [done|]. unfold Storage.snapshot_of. by destruct (h_data h !! key).
Qed.

(** A conditional write is lost if anybody else wrote the document since it
    was read, even the same text, and otherwise replaces exactly the document
    that was read: no update of a document is ever overwritten unseen. *)
Theorem conditional_write_atomic key s new n h h' ok h'' :
  Storage.snapshot_of h key = Some s → interference key n h h' →
  Storage.compare_and_set_snapshot key (Some s) new h' = Some (Ok ok, h'') →
  (ok = true → n = 0 ∧ h_data h' !! key = Some (sn_value s) ∧
     h_data h'' = <[key := new]> (h_data h') ∧ revision_of key h'' = (sn_revision s + 1)%Z) ∧
  (ok = false → h'' = h').
Proof.
  intros Hs Hi. rewrite cas_snapshot_spec.
  destruct (decide _) as [E|Hne]; intros [= <- <-]; (split; [|done]); [|done].
  intros _. pose proof (interference_revision _ _ _ _ Hi) as Hr.
  unfold Storage.snapshot_of in Hs, E.
  destruct (h_data h !! key) as [v|] eqn:Ev; [|done]. injection Hs as <-.
  destruct (h_data h' !! key) as [v'|] eqn:Ev'; [|done]. injection E as -> E.
  fold (revision_of key h) (revision_of key h') in E.
  split_and!; [lia|done|done|]. rewrite revision_bump, decide_True by done.
  cbn. fold (revision_of key h). lia.
Qed.

(** [modify] when nothing interferes and [f] leaves the document alone: one
    round, whose write is the value [f] computed from the stored one. *)
Lemma modify_alone {T} `{Serde T} key (dflt value value' : T) f h h' :
  h_data h !! key = Some (to_json value) → f value h = Some (Ok value', h') →
  Storage.snapshot_of h' key = Storage.snapshot_of h key →
  Storage.modify key dflt f h =
  Some (Ok value', with_storage (<[key := to_json value']> (h_data h'))
                     (Storage.bump key h') h').
Proof.
  intros Hv Hf Hsame. unfold Storage.modify. change 100 with (S 99). cbn [Storage.modify_loop].
  rewrite (bind_Some_Ok _ _ _ _ _ (snapshot_run key h)).
  assert (Storage.snapshot_of h key =
    Some {| sn_value := to_json value; sn_revision := revision_of key h |}) as Hs.
  { unfold Storage.snapshot_of. by rewrite Hv. }
  rewrite Hs. cbn [sn_value]. rewrite (bind_Some_Ok _ _ _ _ _ (parse_to_json value h)).
  rewrite (bind_Some_Ok _ _ _ _ _ Hf).
  unfold mbind, M_bind. rewrite cas_snapshot_spec, decide_True by congruence. done.
Qed.

Lemma modify_error {T} `{Serde T} key (dflt value : T) f e h h' :
  h_data h !! key = Some (to_json value) → f value h = Some (Err e, h') →
  Storage.modify key dflt f h = Some (Err e, h').
Proof.
  intros Hv Hf. unfold Storage.modify. change 100 with (S 99). cbn [Storage.modify_loop].
  rewrite (bind_Some_Ok _ _ _ _ _ (snapshot_run key h)).
  unfold Storage.snapshot_of. rewrite Hv. cbn [fmap option_fmap option_map sn_value].
  rewrite (bind_Some_Ok _ _ _ _ _ (parse_to_json value h)).
  unfold mbind, M_bind. by rewrite Hf.
Qed.

(** Whatever happens in between, the value [modify] returns came out of [f]. *)
Lemma modify_applies {T} `{Serde T} tries key (dflt : T) f h v h' :
  Storage.modify_loop tries key dflt f h = Some (Ok v, h') →
  ∃ v0 h0 h1, f v0 h0 = Some (Ok v, h1) ∧ h_data h' !! key = Some (to_json v).
Proof.
  revert h. induction tries as [|n IH]; intros h; cbn; [done|].
  intros (snap & h1 & _ & (v0 & h2 & _ & (v1 & h3 & Hf & (ok & h4 & Hcas & E)%bind_inv)%bind_inv)%bind_inv)%bind_inv.
  rewrite cas_snapshot_spec in Hcas. destruct (decide _); injection Hcas as <- <-.
  - injection E as <- <-. exists v0, h2, h3. split; [done|]. cbn. by rewrite lookup_insert_eq.
  - by apply IH in E.
Qed.

(** ** Feedback *)

Lemma released_same r :
  release_validate r = Ok tt → same_result (released_result r) (released_result r) = true.
Proof.
  destruct r as [|v score]; [done|]. cbn. intros Hv.
  rewrite bool_decide_true by done. apply f_eqb_refl. by destruct (is_finite score).
Qed.

(** A release is final: it makes the result visible as asked, the same
    release can be repeated without effect, and no later action hides the
    result again or replaces it. *)
Theorem feedback_release_final release r out r' :
  apply_action (Release release) r = Ok (out, r') →
  fb_withheld r' = false ∧ same_result (fb_result r') (released_result release) = true ∧
  apply_action (Release release) r' = Ok (AlreadyApplied, r') ∧
  ∀ action out2 r2, apply_action action r' = Ok (out2, r2) →
    fb_withheld r2 = false ∧ fb_result r2 = fb_result r'.
Proof.
  cbn [apply_action]. intros ([] & Hvalid & E)%result_bind_Ok.
  assert (fb_withheld r' = false ∧ same_result (fb_result r') (released_result release) = true)
    as [Hw Hr].
  { destruct (fb_withheld r) eqn:Ew; cbn in E.
    - injection E as <- <-. split; [done|]. by apply released_same.
    - destruct (same_result (fb_result r) _) eqn:Es; [|done]. by injection E as <- <-. }
  split_and!; [done..| |].
  - rewrite Hvalid. cbn. rewrite Hw. cbn. by rewrite Hr.
  - intros [r2|] out2 r3; cbn.
    + intros ([] & _ & E2)%result_bind_Ok. rewrite Hw in E2. cbn in E2.
      destruct (same_result (fb_result r') (released_result r2)); [|done]. by injection E2 as <- <-.
    + destruct (fb_slot_held r'); cbn; intros [= <- <-]; done.
Qed.

Definition by_id (x y : SubmissionFeedbackRecord) : Prop :=
  (fb_submission_id x < fb_submission_id y)%Z.

#[global] Instance by_id_dec x y : Decision (by_id x y).
Proof. unfold by_id. apply _. Defined.

Lemma sorted_filter {A} (R : A → A → Prop) (P : A → Prop) `{∀ x, Decision (P x)} (l : list A) :
  StronglySorted R l → StronglySorted R (filter P l).
Proof.
  induction 1 as [|x l Hl IH Hx]; [constructor|]. rewrite filter_cons.
  destruct (decide (P x)); [|done]. constructor; [done|].
  rewrite Forall_forall in Hx |- *. intros y [_ Hy]%list_elem_of_filter. by apply Hx.
Qed.

(** The records after the last one of a page are the rest of the list. *)
Lemma rest_of_page l n r :
  StronglySorted by_id l → last (take n l) = Some r →
  filter (λ x, by_id r x) l = drop n l.
Proof.
  intros Hs. revert n. induction Hs as [|x l Hl IH Hx]; intros n Hlast.
  { by rewrite take_nil in Hlast. }
  destruct n as [|n]; [done|]. cbn [take drop] in *.
  rewrite Forall_forall in Hx. rewrite last_cons in Hlast.
  destruct (last (take n l)) as [y|] eqn:E.
  - injection Hlast as <-. rewrite filter_cons_False; [by apply IH|].
    pose proof (last_Some_elem_of _ _ E) as Hy. apply elem_of_take in Hy as (i & Hi & _).
    specialize (Hx y (list_elem_of_lookup_2 _ _ _ Hi)). unfold by_id in *. lia.
  - injection Hlast as <-. apply last_None in E. rewrite filter_cons_False by (unfold by_id; lia).
    destruct n as [|n], l as [|z l]; try done.
    + rewrite drop_0. by apply filter_all.
Qed.

Lemma feedback_run q h :
  h_feedback_query_errors h = [] →
  Submissions.feedback q h =
  Some (Ok (take (page_size q) (filter (matches_query q) (h_feedback h))), h).
Proof. intros E. unfold Submissions.feedback. by rewrite E. Qed.

Lemma matches_after q r x :
  matches_query q r →
  matches_query (after_id (fb_submission_id r) q) x ↔ by_id r x ∧ matches_query q x.
Proof. unfold matches_query, by_id. cbn. intuition lia. Qed.

Lemma feedback_pages_complete fuel q acc h :
  h_feedback_query_errors h = [] → StronglySorted by_id (h_feedback h) →
  length (filter (matches_query q) (h_feedback h)) < fuel →
  Submissions.feedback_pages fuel q acc h =
  Some (Ok (acc ++ filter (matches_query q) (h_feedback h)), h).
Proof.
  intros He Hs. revert q acc. induction fuel as [|fuel IH]; intros q acc Hlen; [lia|].
  cbn [Submissions.feedback_pages]. rewrite (bind_Some_Ok _ _ _ _ _ (feedback_run q h He)). cbv beta zeta.
  set (l := filter (matches_query q) (h_feedback h)) in *.
  assert (1 ≤ page_size q) as Hk by (unfold page_size; lia).
  destruct (last (take (page_size q) l)) as [r|] eqn:Hlast.
  - assert (matches_query q r) as Hr.
    { apply last_Some_elem_of, elem_of_take in Hlast as (i & Hi & _).
      by apply list_elem_of_lookup_2, list_elem_of_filter in Hi as [? _]. }
    destruct (Nat.eqb_spec (length (take (page_size q) l)) (page_size q)) as [Hfull|Hpart].
    + assert (filter (matches_query (after_id (fb_submission_id r) q)) (h_feedback h)
              = drop (page_size q) l) as Hrest.
      { rewrite <- (rest_of_page l _ r); [|by apply sorted_filter|done].
        unfold l. rewrite list_filter_filter. apply list_filter_iff.
        intros x. by apply matches_after. }
      rewrite length_take in Hfull. rewrite IH; rewrite Hrest.
      * by rewrite <- app_assoc, take_drop.
      * rewrite length_drop. lia.
    + rewrite length_take in Hpart. rewrite take_ge by lia. done.
  - apply last_None in Hlast. rewrite Hlast. assert (l = []) as ->.
    { destruct l as [|x l'], (page_size q); try done. lia. }
    destruct (page_size q); [lia|]. done.
Qed.

(** Reading the feedback records page by page terminates and returns every
    record the query selects, each once and in order. *)
Theorem feedback_all_complete q h :
  h_feedback_query_errors h = [] → StronglySorted by_id (h_feedback h) →
  Submissions.feedback_all q h = Some (Ok (filter (matches_query q) (h_feedback h)), h).
Proof.
  intros He Hs. unfold Submissions.feedback_all. rewrite feedback_pages_complete; [done..|].
  pose proof (length_filter (matches_query q) (h_feedback h)). lia.
Qed.
