(* ===== verification/Judging.v ===== *)
(** * Timeout: how long a case may take to be evaluated

    packages/broccoli-types/src/types/evaluate.rs: the time after which the
    session of [Judging] is told that a case timed out. *)

From S2P Require Import Prelude Float.

Definition DEFAULT_EVALUATION_RESULT_TIMEOUT_MIN_MS : Z := 0.
Definition DEFAULT_EVALUATION_RESULT_TIMEOUT_MAX_MS : Z := 60 * 60 * 1000.
Definition DEFAULT_EVALUATION_CHECKER_SLACK_S : f64 := f_of_Z 180.

Record EvaluationTimeoutBudget := {
  tb_compile_units : Z;
  tb_compile_time_limit_s : f64;
  tb_compile_wall_time_multiplier : f64;
  tb_compile_extra_time_s : f64;
  tb_exec_time_limit_s : f64;
  tb_exec_wall_time_multiplier : f64;
  tb_exec_extra_time_s : f64;
  tb_manager_time_limit_s : f64;
  tb_manager_wall_time_multiplier : f64;
  tb_manager_extra_time_s : f64;
  tb_checker_slack_s : f64;
  tb_queue_slack_s : f64;
  tb_minimum_timeout_ms : Z;
  tb_maximum_timeout_ms : Z;
}.

Definition positive_or_zero (value : f64) : f64 :=
  if is_finite value then f_max value f_zero else f_zero.

Definition seconds_from_ms (time_limit_ms : Z) : f64 :=
  positive_or_zero (f_div (f_of_Z time_limit_ms) (f_of_Z 1000)).

Definition millis_from_seconds (seconds : f64) : Z :=
  if negb (is_finite seconds) || f_leb seconds f_zero then 0
  else
    let scaled := f_mul seconds (f_of_Z 1000) in
    if negb (is_finite scaled) then u64_max
    else if (2 ^ 64 <=? f_ceil scaled)%Z then u64_max
    else f_ceil scaled.

Definition default_for_time_limit_ms (time_limit_ms : Z) : EvaluationTimeoutBudget := {|
  tb_compile_units := 1;
  tb_compile_time_limit_s := f_of_Z 30;
  tb_compile_wall_time_multiplier := f_of_Z 2;
  tb_compile_extra_time_s := f_zero;
  tb_exec_time_limit_s := seconds_from_ms time_limit_ms;
  tb_exec_wall_time_multiplier := f_of_Z 5;
  tb_exec_extra_time_s := f_zero;
  tb_manager_time_limit_s := f_zero;
  tb_manager_wall_time_multiplier := f_one;
  tb_manager_extra_time_s := f_zero;
  tb_checker_slack_s := DEFAULT_EVALUATION_CHECKER_SLACK_S;
  tb_queue_slack_s := f_zero;
  tb_minimum_timeout_ms := DEFAULT_EVALUATION_RESULT_TIMEOUT_MIN_MS;
  tb_maximum_timeout_ms := DEFAULT_EVALUATION_RESULT_TIMEOUT_MAX_MS;
|}.

Definition timeout_ms (b : EvaluationTimeoutBudget) : Z :=
  let compile_s :=
    f_mul (f_of_Z (tb_compile_units b))
      (positive_or_zero
        (f_add (f_mul (tb_compile_time_limit_s b) (tb_compile_wall_time_multiplier b))
           (tb_compile_extra_time_s b))) in
  let exec_s :=
    positive_or_zero
      (f_add (f_mul (tb_exec_time_limit_s b) (tb_exec_wall_time_multiplier b))
         (tb_exec_extra_time_s b)) in
  let manager_s :=
    positive_or_zero
      (f_add (f_mul (tb_manager_time_limit_s b) (tb_manager_wall_time_multiplier b))
         (tb_manager_extra_time_s b)) in
  let slack_s :=
    f_add (positive_or_zero (tb_checker_slack_s b)) (positive_or_zero (tb_queue_slack_s b)) in
  let total_s := f_add (f_add (f_add compile_s exec_s) manager_s) slack_s in
  let computed := millis_from_seconds total_s in
  let max := Z.max (tb_maximum_timeout_ms b) (tb_minimum_timeout_ms b) in
  Z.max (tb_minimum_timeout_ms b) (Z.min max computed).

Definition default_evaluation_result_timeout_ms (time_limit_ms : Z) : Z :=
  timeout_ms (default_for_time_limit_ms time_limit_ms).

(** The timeout is never outside the bounds of the budget. *)
Lemma timeout_ms_range b :
  (0 ≤ tb_minimum_timeout_ms b)%Z →
  (tb_minimum_timeout_ms b ≤ timeout_ms b
    ≤ Z.max (tb_maximum_timeout_ms b) (tb_minimum_timeout_ms b))%Z.
Proof. unfold timeout_ms. cbv zeta. lia. Qed.

Lemma default_timeout_range t :
  (0 ≤ default_evaluation_result_timeout_ms t ≤ DEFAULT_EVALUATION_RESULT_TIMEOUT_MAX_MS)%Z.
Proof. apply (timeout_ms_range (default_for_time_limit_ms t)). done. Qed.

(** One second: 60 s to compile, 5 s to run, 180 s for the checker. *)
Example one_second : default_evaluation_result_timeout_ms 1000 = 245000%Z.
Proof. by_vm. Qed.

(** * The session that judges one submission

    packages/server-sdk/src/evaluator/detached.rs.  A contest type says how to
    score a case, whether to go on after it, and how to store the final result
    ([ContestJudge]); [DetachedEval] drives the session from the results the
    host delivers, one callback at a time. *)

From S2P Require Import Text Verdict Sdk Host.

Open Scope machine_scope.

Definition SKIPPED_SHORT_CIRCUIT : ustring := u "SKIPPED_SHORT_CIRCUIT".
Definition EVALUATION_TIMEOUT : ustring := u "EVALUATION_TIMEOUT".
Definition BATCH_START_FAILED : ustring := u "BATCH_START_FAILED".
Definition EVALUATION_PERSIST_FAILED : ustring := u "EVALUATION_PERSIST_FAILED".

(** ** Data *)

(** What an evaluator reports for a case. *)
Record TestCaseVerdict := {
  tv_test_case_id : Z;
  tv_verdict : Verdict;
  tv_score : f64;
  tv_time_used_ms : option Z;
  tv_memory_used_kb : option Z;
  tv_message : option ustring;
  tv_stdout : option ustring;
  tv_stderr : option ustring;
}.

Record CaseOutcome := {
  co_test_case_id : Z;
  co_verdict : Verdict;
  co_score : f64;
  co_time_used : option Z;
  co_memory_used : option Z;
  co_message : option ustring;
  co_stdout : option ustring;
  co_stderr : option ustring;
}.

Definition clamp_i32 (v : Z) : Z := Z.max 0 (Z.min i32_max v).

Definition from_verdict (v : TestCaseVerdict) (score : f64) : CaseOutcome := {|
  co_test_case_id := tv_test_case_id v;
  co_verdict := tv_verdict v;
  co_score := score;
  co_time_used := clamp_i32 <$> tv_time_used_ms v;
  co_memory_used := clamp_i32 <$> tv_memory_used_kb v;
  co_message := tv_message v;
  co_stdout := tv_stdout v;
  co_stderr := tv_stderr v;
|}.

(** [CaseOutcome::filled]. *)
Definition filled (test_case_id : Z) (verdict : Verdict) (message : ustring) : CaseOutcome := {|
  co_test_case_id := test_case_id;
  co_verdict := verdict;
  co_score := f_zero;
  co_time_used := None;
  co_memory_used := None;
  co_message := Some message;
  co_stdout := None;
  co_stderr := None;
|}.

Definition without_output (o : CaseOutcome) : CaseOutcome := {|
  co_test_case_id := co_test_case_id o;
  co_verdict := co_verdict o;
  co_score := co_score o;
  co_time_used := co_time_used o;
  co_memory_used := co_memory_used o;
  co_message := co_message o;
  co_stdout := None;
  co_stderr := None;
|}.

Record TestCaseRow := {
  tc_id : Z;
  tc_score : f64;
  tc_is_sample : bool;
  tc_position : Z;
  tc_description : option ustring;
  tc_label : option ustring;
  tc_input : TestCaseBodyRef;
  tc_expected_output : TestCaseBodyRef;
  tc_is_custom : bool;
}.

Record ScoringCase := {
  sc_id : Z;
  sc_score : f64;
  sc_is_sample : bool;
  sc_position : Z;
  sc_description : option ustring;
  sc_label : option ustring;
  sc_is_custom : bool;
}.

Definition scoring_case (tc : TestCaseRow) : ScoringCase := {|
  sc_id := tc_id tc;
  sc_score := tc_score tc;
  sc_is_sample := tc_is_sample tc;
  sc_position := tc_position tc;
  sc_description := tc_description tc;
  sc_label := tc_label tc;
  sc_is_custom := tc_is_custom tc;
|}.

Record OnSubmissionInput := {
  os_submission_id : Z;
  os_judgement_id : Z;
  os_fire_after_judging : bool;
  os_user_id : Z;
  os_problem_id : Z;
  os_contest_id : option Z;
  os_files : list SourceFile;
  os_language : ustring;
  os_time_limit_ms : Z;
  os_memory_limit_kb : Z;
  os_problem_type : ustring;
  os_test_cases : list TestCaseRow;
  os_judge_epoch : Z;
  os_target_worker_id : option ustring;
}.

Record JudgedSubmission := {
  js_submission_id : Z;
  js_judgement_id : Z;
  js_judge_epoch : Z;
  js_fire_after_judging : bool;
  js_user_id : Z;
  js_problem_id : Z;
  js_contest_id : option Z;
  js_language : ustring;
  js_time_limit_ms : Z;
  js_memory_limit_kb : Z;
  js_problem_type : ustring;
  js_target_worker_id : option ustring;
}.

Definition judged_submission (req : OnSubmissionInput) : JudgedSubmission := {|
  js_submission_id := os_submission_id req;
  js_judgement_id := os_judgement_id req;
  js_judge_epoch := os_judge_epoch req;
  js_fire_after_judging := os_fire_after_judging req;
  js_user_id := os_user_id req;
  js_problem_id := os_problem_id req;
  js_contest_id := os_contest_id req;
  js_language := os_language req;
  js_time_limit_ms := os_time_limit_ms req;
  js_memory_limit_kb := os_memory_limit_kb req;
  js_problem_type := os_problem_type req;
  js_target_worker_id := os_target_worker_id req;
|}.

Definition build_eval_batch_input (req : OnSubmissionInput) (test_cases : list TestCaseRow)
    : StartEvaluateBatchInput := {|
  eb_problem_type := os_problem_type req;
  eb_test_cases := (λ tc, {|
    ec_problem_id := os_problem_id req;
    ec_test_case_id := tc_id tc;
    ec_solution_source := os_files req;
    ec_solution_language := os_language req;
    ec_time_limit_ms := os_time_limit_ms req;
    ec_memory_limit_kb := os_memory_limit_kb req;
    ec_contest_id := os_contest_id req;
    ec_input := tc_input tc;
    ec_expected_output := tc_expected_output tc;
    ec_is_custom := tc_is_custom tc;
    ec_target_worker_id := os_target_worker_id req |}) <$> test_cases;
|}.

(** *** Texts of a result row (persistence.rs) *)

Definition RESULT_TEXT_DB_LIMIT_CHARS : nat := 64 * 1024.

Definition sanitize_text_field (s : ustring) : ustring :=
  (λ c, if (c =? 0)%Z then 65533%Z else c) <$> s.

Definition sanitize_result_text_field (s : ustring) : ustring :=
  let sanitized := sanitize_text_field s in
  if length sanitized <=? RESULT_TEXT_DB_LIMIT_CHARS then sanitized
  else take RESULT_TEXT_DB_LIMIT_CHARS sanitized ++ [10%Z] ++ u "... (truncated)".

Definition build_tc_row (req : JudgedSubmission) (outcome : CaseOutcome) (score : f64)
    (tc : option ScoringCase) : TestCaseResultRow :=
  let is_custom := match tc with Some t => sc_is_custom t | None => false end in
  {| tr_submission_id := js_submission_id req;
     tr_judgement_id := js_judgement_id req;
     tr_judge_epoch := js_judge_epoch req;
     tr_test_case_id := if is_custom then None else Some (co_test_case_id outcome);
     tr_run_index := if is_custom then Some (co_test_case_id outcome) else None;
     tr_verdict := co_verdict outcome;
     tr_score := score;
     tr_time_used := co_time_used outcome;
     tr_memory_used := co_memory_used outcome;
     tr_message := sanitize_result_text_field <$> co_message outcome;
     tr_stdout := sanitize_result_text_field <$> co_stdout outcome;
     tr_stderr := sanitize_result_text_field <$> co_stderr outcome |}.

(** ** The interface of a contest type *)

Record JudgeProgress := {
  jp_submission : JudgedSubmission;
  jp_scoring_cases : list ScoringCase;
  jp_outcomes : list CaseOutcome;
  jp_last : option CaseOutcome;
  jp_recorded_ids : gset Z;
}.

Definition recorded_all (cases : list ScoringCase) (recorded : gset Z) : bool :=
  forallb (λ tc, bool_decide (sc_id tc ∈ recorded)) cases.

Definition progress_all_recorded (p : JudgeProgress) : bool :=
  recorded_all (jp_scoring_cases p) (jp_recorded_ids p).

Inductive JudgeStep :=
  | Continue
  | Cancel (ids : list Z)
  | Finish (fill : option (Verdict * ustring)).

Definition short_circuit : JudgeStep := Finish (Some (Skipped, SKIPPED_SHORT_CIRCUIT)).

Class ContestJudge (J : Type) := {
  judge_score : J → TestCaseVerdict → CaseOutcome;
  db_score : J → CaseOutcome → ScoringCase → f64;
  next_step : J → JudgeProgress → J * JudgeStep;
  judge_finalize : J → JudgeProgress → M unit;
}.

(** ** The session *)

Record DetachedEval (J : Type) := {
  ev_request : JudgedSubmission;
  ev_scoring_cases : list ScoringCase;
  ev_outcomes : list CaseOutcome;
  ev_recorded_ids : gset Z;
  ev_marked_running : bool;
  ev_policy : J;
}.
Arguments ev_request {J}.
Arguments ev_scoring_cases {J}.
Arguments ev_outcomes {J}.
Arguments ev_recorded_ids {J}.
Arguments ev_marked_running {J}.
Arguments ev_policy {J}.

Definition with_outcomes {J} (outcomes : list CaseOutcome) (recorded : gset Z)
    (s : DetachedEval J) : DetachedEval J := {|
  ev_request := ev_request s;
  ev_scoring_cases := ev_scoring_cases s;
  ev_outcomes := outcomes;
  ev_recorded_ids := recorded;
  ev_marked_running := ev_marked_running s;
  ev_policy := ev_policy s;
|}.

Definition with_running {J} (s : DetachedEval J) : DetachedEval J := {|
  ev_request := ev_request s;
  ev_scoring_cases := ev_scoring_cases s;
  ev_outcomes := ev_outcomes s;
  ev_recorded_ids := ev_recorded_ids s;
  ev_marked_running := true;
  ev_policy := ev_policy s;
|}.

Definition with_policy {J} (policy : J) (s : DetachedEval J) : DetachedEval J := {|
  ev_request := ev_request s;
  ev_scoring_cases := ev_scoring_cases s;
  ev_outcomes := ev_outcomes s;
  ev_recorded_ids := ev_recorded_ids s;
  ev_marked_running := ev_marked_running s;
  ev_policy := policy;
|}.

Inductive DetachedEvaluateCallbackEvent :=
  | EvResult (result : TestCaseVerdict)
  | EvTimeout (message : ustring)
  | EvExhausted.

Inductive DetachedEvaluateCallbackAction := ActContinue | ActFinish | ActCancel.

#[global] Instance DetachedEvaluateCallbackAction_eq_dec :
  EqDecision DetachedEvaluateCallbackAction.
Proof. solve_decision. Defined.

(** The state of the session travels as text between callbacks. *)
Record DetachedEvaluateCallbackInput := {
  ci_session_id : ustring;
  ci_state : ustring;
  ci_event : DetachedEvaluateCallbackEvent;
  ci_completed : nat;
  ci_total : nat;
}.

Record DetachedEvaluateCallbackOutput := {
  out_state : ustring;
  out_action : DetachedEvaluateCallbackAction;
  out_refill : bool;
  out_cancel_test_case_ids : list Z;
}.

Definition continue_with (state : ustring) (refill : bool) (cancel_ids : list Z)
    : DetachedEvaluateCallbackOutput := {|
  out_state := state; out_action := ActContinue; out_refill := refill;
  out_cancel_test_case_ids := cancel_ids |}.

Definition finish_with (state : ustring) : DetachedEvaluateCallbackOutput := {|
  out_state := state; out_action := ActFinish; out_refill := false;
  out_cancel_test_case_ids := [] |}.

Definition cancel_with (state : ustring) : DetachedEvaluateCallbackOutput := {|
  out_state := state; out_action := ActCancel; out_refill := false;
  out_cancel_test_case_ids := [] |}.

Section session.
Context {J : Type} `{ContestJudge J} `{Serde (DetachedEval J)}.

Definition all_recorded (s : DetachedEval J) : bool :=
  recorded_all (ev_scoring_cases s) (ev_recorded_ids s).

Definition any_unrecorded (s : DetachedEval J) : bool :=
  existsb (λ tc, negb (bool_decide (sc_id tc ∈ ev_recorded_ids s))) (ev_scoring_cases s).

Definition progress_of (last : option CaseOutcome) (s : DetachedEval J) : JudgeProgress := {|
  jp_submission := ev_request s;
  jp_scoring_cases := ev_scoring_cases s;
  jp_outcomes := ev_outcomes s;
  jp_last := last;
  jp_recorded_ids := ev_recorded_ids s |}.

Definition record (outcome : CaseOutcome) (s : DetachedEval J) : M (DetachedEval J) :=
  let tc := snd <$> list_find (λ tc, sc_id tc = co_test_case_id outcome) (ev_scoring_cases s) in
  let score := match tc with
               | Some tc => db_score (ev_policy s) outcome tc
               | None => f_zero
               end in
  _ ← Submissions.insert_results [build_tc_row (ev_request s) outcome score tc];
  mret (with_outcomes (ev_outcomes s ++ [without_output outcome])
          ({[co_test_case_id outcome]} ∪ ev_recorded_ids s) s).

(** Record a filled outcome for each id of a list. *)
Fixpoint record_filled (verdict : Verdict) (message : ustring) (ids : list Z)
    (s : DetachedEval J) : M (DetachedEval J) :=
  match ids with
  | [] => mret s
  | id :: ids => s ← record (filled id verdict message) s; record_filled verdict message ids s
  end.

Definition unrecorded (s : DetachedEval J) : list Z :=
  filter (λ i, i ∉ ev_recorded_ids s) (sc_id <$> ev_scoring_cases s).

Definition fill_unrecorded (verdict : Verdict) (message : ustring) (s : DetachedEval J)
    : M (DetachedEval J) :=
  record_filled verdict message (unrecorded s) s.

Definition finalize (s : DetachedEval J) : M unit :=
  judge_finalize (ev_policy s) (progress_of None s).

Definition continue_or_finish (cancel_ids : list Z) (s : DetachedEval J)
    : M DetachedEvaluateCallbackOutput :=
  if all_recorded s then finalize s ≫= λ _, mret (finish_with (to_json s))
  else mret (continue_with (to_json s) (any_unrecorded s) cancel_ids).

Definition mark_running (s : DetachedEval J) : M (DetachedEval J) :=
  if ev_marked_running s then mret s
  else
    let req := ev_request s in
    affected ← Submissions.set_running (js_submission_id req) (js_judgement_id req)
                 (js_judge_epoch req);
    if (affected =? 0)%Z then throw StaleEpoch else mret (with_running s).

Definition on_result (result : TestCaseVerdict) (s : DetachedEval J)
    : M DetachedEvaluateCallbackOutput :=
  if decide (tv_test_case_id result ∈ ev_recorded_ids s) then
    mret (continue_with (to_json s) (any_unrecorded s) [])
  else
    let outcome := judge_score (ev_policy s) result in
    if decide (co_verdict outcome = CompileError) then
      s ← record outcome s;
      s ← fill_unrecorded Skipped SKIPPED_SHORT_CIRCUIT s;
      _ ← finalize s;
      mret (finish_with (to_json s))
    else
      s ← mark_running s;
      s ← record outcome s;
      let '(policy, step) := next_step (ev_policy s) (progress_of (last (ev_outcomes s)) s) in
      let s := with_policy policy s in
      match step with
      | Continue => continue_or_finish [] s
      | Cancel ids =>
          s ← record_filled Skipped SKIPPED_SHORT_CIRCUIT ids s;
          continue_or_finish ids s
      | Finish fill =>
          s ← match fill with
              | Some (verdict, message) => fill_unrecorded verdict message s
              | None => mret s
              end;
          _ ← finalize s;
          mret (finish_with (to_json s))
      end.

Definition handle_callback (input : DetachedEvaluateCallbackInput)
    : M DetachedEvaluateCallbackOutput :=
  s ← parse_json (A := DetachedEval J) (ci_state input);
  match ci_event input with
  | EvResult result => on_result result s
  | EvTimeout _ | EvExhausted =>
      s ← fill_unrecorded SystemError EVALUATION_TIMEOUT s;
      _ ← finalize s;
      mret (cancel_with (to_json s))
  end.

(** Errors are dropped, effects stay. *)
Definition ignore_error {A} (c : M A) : M (option A) := λ h,
  match c h with
  | Some (Ok a, h') => Some (Ok (Some a), h')
  | Some (Err _, h') => Some (Ok None, h')
  | None => None
  end.

Definition initial_session (request : OnSubmissionInput) (scoring_cases : list TestCaseRow)
    (policy : J) : DetachedEval J := {|
  ev_request := judged_submission request;
  ev_scoring_cases := scoring_case <$> scoring_cases;
  ev_outcomes := [];
  ev_recorded_ids := ∅;
  ev_marked_running := false;
  ev_policy := policy |}.

Definition start (request : OnSubmissionInput)
    (scoring_cases : list TestCaseRow) (policy : J) (callback_fn : ustring) (concurrency : nat)
    : M unit :=
  _ ← ignore_error (Submissions.delete_results (os_submission_id request)
                      (os_judgement_id request) (os_judge_epoch request));
  affected ← Submissions.set_compiling (os_submission_id request) (os_judgement_id request)
               (os_judge_epoch request);
  if (affected =? 0)%Z then throw StaleEpoch
  else
    let s := initial_session request scoring_cases policy in
    λ h,
      match Eval.start_detached {|
              de_batch := build_eval_batch_input request scoring_cases;
              de_concurrency := Nat.max 1 concurrency;
              de_result_timeout_ms :=
                default_evaluation_result_timeout_ms (os_time_limit_ms request);
              de_callback_fn := callback_fn;
              de_state := to_json s;
              de_submission_completion := Some {|
                dc_submission_id := os_submission_id request;
                dc_judgement_id := os_judgement_id request;
                dc_judge_epoch := os_judge_epoch request;
                dc_fire_after_judging := os_fire_after_judging request |} |} h with
      | Some (Err e, h) =>
          (s ← fill_unrecorded SystemError (BATCH_START_FAILED ++ u ": " ++ debug_error e) s;
           finalize s) h
      | Some (Ok _, h) => Some (Ok tt, h)
      | None => None
      end.

(** [recover]: record the unrecorded cases as system errors and finalize, whatever
    fails.  A failure while recording keeps the cases recorded before it. *)
Fixpoint record_until_error (verdict : Verdict) (message : ustring) (ids : list Z)
    (s : DetachedEval J) : M (DetachedEval J) :=
  match ids with
  | [] => mret s
  | id :: ids =>
      r ← ignore_error (record (filled id verdict message) s);
      match r with
      | Some s => record_until_error verdict message ids s
      | None => mret s
      end
  end.

Definition recover (state : ustring) : M unit := λ h,
  match from_json (A := DetachedEval J) state with
  | Err _ => Some (Ok tt, h)
  | Ok s =>
      (s ← record_until_error SystemError EVALUATION_PERSIST_FAILED (unrecorded s) s;
       _ ← ignore_error (finalize s);
       mret tt) h
  end.

(** The callback of a contest type: a stale epoch cancels the session, any other
    error finalizes it as a system error.  The contest types differ in what they
    log. *)
Definition callback_with_recovery (log_stale : M unit) (log_error : SdkError → M unit)
    (input : DetachedEvaluateCallbackInput) : M DetachedEvaluateCallbackOutput := λ h,
  match handle_callback input h with
  | Some (Err StaleEpoch, h) =>
      (_ ← log_stale; mret (cancel_with (ci_state input))) h
  | Some (Err e, h) =>
      (_ ← log_error e;
       _ ← recover (ci_state input);
       mret (cancel_with (ci_state input))) h
  | other => other
  end.

End session.
