(* ===== verification/Qualifier.v ===== *)
(** * Qualifier: the standings of the codelink qualifier round

    plugins/codelink-qualifier/src/standings.rs and config.rs.  [calculate]
    replays one snapshot of the submissions in submission order; [Confirmation]
    bounds what the submissions still being judged can change. *)

From S2P Require Import Prelude Text Sdk.

(** ** Configuration *)

Record ContestConfig := {
  expected_problem_count : nat;
  slots_per_problem : nat;
  solves_to_qualify : nat;
  advancement_slots : nat;
  scoreboard_refresh_seconds : nat;
}.

Definition contest_config_default : ContestConfig := {|
  expected_problem_count := 20;
  slots_per_problem := 2;
  solves_to_qualify := 3;
  advancement_slots := 16;
  scoreboard_refresh_seconds := 5;
|}.

(** The rows of the loop of [ContestConfig::validate]. *)
Definition config_ranges (c : ContestConfig) : list (ustring * nat * nat * nat) :=
  [ (u "expected_problem_count", expected_problem_count c, 0, 1000);
    (u "slots_per_problem", slots_per_problem c, 1, 1000);
    (u "solves_to_qualify", solves_to_qualify c, 1, 1000);
    (u "advancement_slots", advancement_slots c, 1, 1000);
    (u "scoreboard_refresh_seconds", scoreboard_refresh_seconds c, 0, 3600) ].

Definition out_of_range (row : ustring * nat * nat * nat) : bool :=
  let '(_, value, lo, hi) := row in negb ((lo <=? value) && (value <=? hi)).

Definition validate (c : ContestConfig) : sdk unit :=
  match List.find out_of_range (config_ranges c) with
  | Some (name, _, lo, hi) =>
      Err (Other (u "Invalid Codelink configuration: " ++ name ++ u " must be between "
                  ++ show (Z.of_nat lo) ++ u " and " ++ show (Z.of_nat hi)))
  | None => Ok tt
  end.

Definition validate_points (points : nat) : sdk unit :=
  if (1 <=? points) && (points <=? 2) then Ok tt
  else Err (Other (u "Invalid Codelink configuration: problem points must be 1 or 2")).

(** ** Data *)

Record Problem := { pr_problem_id : Z; pr_label : option ustring; pr_points : nat }.

Record Submission := {
  submission_id : Z;
  user_id : Z;
  problem_id : Z;
  submitted_at_us : Z;
  accepted : bool;
  pending : bool;
}.

Inductive CreditStatus := Credited | SlotsFull | AfterQualification.
Inductive QualificationVerdict := Pending | Qualified.

#[global] Instance CreditStatus_eq_dec : EqDecision CreditStatus.
Proof. solve_decision. Defined.
#[global] Instance QualificationVerdict_eq_dec : EqDecision QualificationVerdict.
Proof. solve_decision. Defined.

Record ProblemCell := {
  cell_status : CreditStatus;
  cell_submission_id : Z;
  cell_time_seconds : Z;
  cell_slot : option nat;
}.

Record Standing := {
  st_user_id : Z;
  st_username : ustring;
  st_display_name : ustring;
  st_credited : nat;
  st_score : nat;
  st_accepted : nat;
  st_verdict : option QualificationVerdict;
  st_qualified_at : option Z;
  st_problems : gmap Z ProblemCell;
  st_last_credit : option (Z * Z);
}.

Record SlotAward := {
  aw_user_id : Z;
  aw_username : ustring;
  aw_display_name : ustring;
  aw_submission_id : Z;
  aw_time_seconds : Z;
}.

Record ProblemSlots := {
  ps_problem_id : Z;
  ps_label : ustring;
  ps_points : nat;
  ps_remaining : nat;
  ps_awards : list SlotAward;
}.

Record Standings := {
  ss_config : ContestConfig;
  ss_problem_count : nat;
  ss_qualified_count : nat;
  ss_pending : nat;
  ss_problems : list ProblemSlots;
  ss_rows : list Standing;
}.

Record Advancement := {
  direct_user_ids : list Z;
  reserve_user_ids : list Z;
  unfilled_slots : nat;
}.

(** ** [Standings::advancement] *)

Definition standing_key (r : Standing) : reversed nat * option (Z * Z) * Z :=
  (Reverse (st_score r), st_last_credit r, st_user_id r).

Definition advancement (s : Standings) (contest_ended : bool) : sdk (option Advancement) :=
  if negb contest_ended || negb (ss_pending s =? 0) then Ok None
  else
    let direct := filter (λ r, solves_to_qualify (ss_config s) ≤ st_score r) (ss_rows s) in
    let rest := filter (λ r, ¬ solves_to_qualify (ss_config s) ≤ st_score r) (ss_rows s) in
    if advancement_slots (ss_config s) <? length direct then
      Err (Other (u "Codelink direct qualifiers exceed the configured advancement places"))
    else
      let available := advancement_slots (ss_config s) - length direct in
      let direct_ids := sort_by_key id (st_user_id <$> direct) in
      let reserves := sort_by_key standing_key (filter (λ r, 0 < st_score r) rest) in
      let reserve_ids := st_user_id <$> take available reserves in
      Ok (Some {| direct_user_ids := direct_ids;
                  reserve_user_ids := reserve_ids;
                  unfilled_slots := available - length reserve_ids |}).

(** ** [Confirmation] *)

Record Confirmation := {
  possible_owners : list (gset nat);
  certain_owners : list (gset nat);
  possible_problems : list (gset nat);
  proofs : list (gset nat);
  points : list nat;
}.

Definition confirmation_new (users : nat) (problems : list ProblemSlots) : Confirmation := {|
  possible_owners := replicate (length problems) ∅;
  certain_owners := replicate (length problems) ∅;
  possible_problems := replicate users ∅;
  proofs := replicate users ∅;
  points := ps_points <$> problems;
|}.

Definition total_points (c : Confirmation) (ps : gset nat) : nat :=
  sum_list ((λ p, points c !!! p) <$> elements ps).

Definition is_confirmed (c : Confirmation) (user : nat) (cfg : ContestConfig) : bool :=
  solves_to_qualify cfg <=? total_points c (proofs c !!! user).

Definition conf_verdict (c : Confirmation) (user : nat) (cfg : ContestConfig)
    : option QualificationVerdict :=
  if is_confirmed c user cfg then Some Qualified
  else if solves_to_qualify cfg <=? total_points c (possible_problems c !!! user)
  then Some Pending
  else None.

(** [vec[i].insert(x)] on a vector of sets. *)
Definition insert_at (i x : nat) (l : list (gset nat)) : list (gset nat) :=
  alter (λ s, {[x]} ∪ s) i l.

Definition other_owners (c : Confirmation) (user problem : nat) : nat :=
  size (possible_owners c !!! problem)
  - (if decide (user ∈ possible_owners c !!! problem) then 1 else 0).

Definition other_points (c : Confirmation) (user problem : nat) : nat :=
  total_points c (possible_problems c !!! user)
  - (if decide (problem ∈ possible_problems c !!! user) then points c !!! problem else 0).

Definition observe (c : Confirmation) (user problem : nat) (acc : bool) (cfg : ContestConfig)
    : Confirmation :=
  if is_confirmed c user cfg || (slots_per_problem cfg <=? size (certain_owners c !!! problem))
  then c
  else
    let proves := acc && (other_owners c user problem <? slots_per_problem cfg) in
    let certain := proves && (other_points c user problem <? solves_to_qualify cfg) in
    {| possible_owners := insert_at problem user (possible_owners c);
       certain_owners :=
         if certain then insert_at problem user (certain_owners c) else certain_owners c;
       possible_problems := insert_at user problem (possible_problems c);
       proofs := if proves then insert_at user problem (proofs c) else proofs c;
       points := points c |}.

(** ** [calculate] *)

(** [iter().enumerate().map(|(i, x)| (key(x), i)).collect::<HashMap<_, _>>()]:
    a later index replaces an earlier one under the same key. *)
Definition index_map {A} (key : A → Z) (l : list A) : gmap Z nat :=
  foldl (λ m p, <[key p.2 := p.1]> m) ∅ (imap pair l).

Definition standing_new (p : UserIdentity) : Standing := {|
  st_user_id := id_user_id p;
  st_username := id_username p;
  st_display_name := display_label p;
  st_credited := 0;
  st_score := 0;
  st_accepted := 0;
  st_verdict := None;
  st_qualified_at := None;
  st_problems := ∅;
  st_last_credit := None;
|}.

Definition problem_label (i : nat) (label : option ustring) : ustring :=
  match label with
  | Some ((_ :: _) as l) => l
  | _ => if i <? 26 then [Z.of_nat (65 + i)] else show (Z.of_nat (i + 1))
  end.

Definition problem_slots_new (cfg : ContestConfig) (i : nat) (p : Problem) : ProblemSlots := {|
  ps_problem_id := pr_problem_id p;
  ps_label := problem_label i (pr_label p);
  ps_points := pr_points p;
  ps_remaining := slots_per_problem cfg;
  ps_awards := [];
|}.

Definition submission_key (s : Submission) : Z * Z := (submitted_at_us s, submission_id s).

(** The variables the replay loop mutates. *)
Record Replay := {
  rp_rows : list Standing;
  rp_problems : list ProblemSlots;
  rp_conf : Confirmation;
  rp_pending : nat;
}.

Definition credit_status (cfg : ContestConfig) (row : Standing) (problem : ProblemSlots)
    : CreditStatus :=
  if solves_to_qualify cfg <=? st_score row then AfterQualification
  else if ps_remaining problem =? 0 then SlotsFull
  else Credited.

Definition award_to (row : Standing) (s : Submission) (time : Z) : SlotAward := {|
  aw_user_id := st_user_id row;
  aw_username := st_username row;
  aw_display_name := st_display_name row;
  aw_submission_id := submission_id s;
  aw_time_seconds := time;
|}.

Definition award_slot (problem : ProblemSlots) (a : SlotAward) : ProblemSlots := {|
  ps_problem_id := ps_problem_id problem;
  ps_label := ps_label problem;
  ps_points := ps_points problem;
  ps_remaining := ps_remaining problem - 1;
  ps_awards := ps_awards problem ++ [a];
|}.

(** The part of the loop body that runs for a known first acceptance: the row
    and the problem after it. *)
Definition record_accepted (cfg : ContestConfig) (s : Submission) (row : Standing)
    (problem : ProblemSlots) : Standing * ProblemSlots :=
  let time := (submitted_at_us s `div` 1000000)%Z in
  let status := credit_status cfg row problem in
  let credited := bool_decide (status = Credited) in
  let problem' := if credited then award_slot problem (award_to row s time) else problem in
  let score := if credited then st_score row + ps_points problem else st_score row in
  ({| st_user_id := st_user_id row;
      st_username := st_username row;
      st_display_name := st_display_name row;
      st_credited := if credited then S (st_credited row) else st_credited row;
      st_score := score;
      st_accepted := S (st_accepted row);
      st_verdict := st_verdict row;
      st_qualified_at :=
        if credited && (solves_to_qualify cfg <=? score) then Some time
        else st_qualified_at row;
      st_problems :=
        <[problem_id s := {| cell_status := status;
                             cell_submission_id := submission_id s;
                             cell_time_seconds := time;
                             cell_slot := if credited then Some (length (ps_awards problem'))
                                          else None |}]> (st_problems row);
      st_last_credit :=
        if credited then Some (submission_key s) else st_last_credit row |},
   problem').

Definition replay_step (cfg : ContestConfig) (users problems : gmap Z nat) (r : Replay)
    (s : Submission) : Replay :=
  match users !! user_id s, problems !! problem_id s with
  | Some ui, Some pi =>
      let waiting := if pending s then S (rp_pending r) else rp_pending r in
      let r := {| rp_rows := rp_rows r; rp_problems := rp_problems r;
                  rp_conf := rp_conf r; rp_pending := waiting |} in
      if negb (accepted s) && negb (pending s) then r
      else
        match rp_rows r !! ui, rp_problems r !! pi with
        | Some row, Some problem =>
            if decide (is_Some (st_problems row !! problem_id s)) then r
            else
              let conf := observe (rp_conf r) ui pi (accepted s && negb (pending s)) cfg in
              if pending s then
                {| rp_rows := rp_rows r; rp_problems := rp_problems r;
                   rp_conf := conf; rp_pending := waiting |}
              else
                let '(row', problem') := record_accepted cfg s row problem in
                {| rp_rows := <[ui := row']> (rp_rows r);
                   rp_problems := <[pi := problem']> (rp_problems r);
                   rp_conf := conf; rp_pending := waiting |}
        | _, _ => r
        end
  | _, _ => r
  end.

Definition with_verdict (v : option QualificationVerdict) (row : Standing) : Standing := {|
  st_user_id := st_user_id row;
  st_username := st_username row;
  st_display_name := st_display_name row;
  st_credited := st_credited row;
  st_score := st_score row;
  st_accepted := st_accepted row;
  st_verdict := v;
  st_qualified_at := if decide (v = Some Qualified) then st_qualified_at row else None;
  st_problems := st_problems row;
  st_last_credit := st_last_credit row;
|}.

Definition replay_init (participants : list UserIdentity) (problems : list Problem)
    (cfg : ContestConfig) : Replay :=
  let ps := imap (problem_slots_new cfg) problems in
  {| rp_rows := standing_new <$> participants;
     rp_problems := ps;
     rp_conf := confirmation_new (length participants) ps;
     rp_pending := 0 |}.

Definition replay (participants : list UserIdentity) (problems : list Problem)
    (submissions : list Submission) (cfg : ContestConfig) : Replay :=
  foldl (replay_step cfg (index_map id_user_id participants) (index_map pr_problem_id problems))
        (replay_init participants problems cfg) (sort_by_key submission_key submissions).

Definition judged_rows (cfg : ContestConfig) (r : Replay) : list Standing :=
  imap (λ i row, with_verdict (conf_verdict (rp_conf r) i cfg) row) (rp_rows r).

Definition validate_problems (problems : list Problem) : sdk unit :=
  foldr (λ p rest, validate_points (pr_points p) ≫= λ _, rest) (Ok tt) problems.

Definition calculate (participants : list UserIdentity) (problems : list Problem)
    (submissions : list Submission) (cfg : ContestConfig) : sdk Standings :=
  validate cfg ≫= λ _,
  validate_problems problems ≫= λ _,
  let r := replay participants problems submissions cfg in
  let rows := sort_by_key standing_key (judged_rows cfg r) in
  Ok {| ss_config := cfg;
        ss_problem_count := length (rp_problems r);
        ss_qualified_count := length (filter (λ row, st_verdict row = Some Qualified) rows);
        ss_pending := rp_pending r;
        ss_problems := rp_problems r;
        ss_rows := rows |}.
