(* ===== verification/QualifierProofs.v ===== *)
(** * QualifierProofs: what the qualifier standings guarantee

    The replay is related to a ghost [ledger] that records which contestant
    owns a slot of which problem.  [run_ok] ties one replay to its ledger;
    [conf_ok] ties the bounds of [Confirmation] to the ledger of any other
    replay in which the submissions still being judged have been given a
    result. *)

From S2P Require Import Prelude Text Sdk Qualifier.

(** ** Sums over sets of problem indices *)

Definition pts (w : list nat) (s : gset nat) : nat := sum_list_with (λ p, w !!! p) (elements s).

Lemma total_points_pts c s : total_points c s = pts (points c) s.
Proof.
  unfold total_points, pts. induction (elements s) as [|x l IH]; [done|].
  rewrite fmap_cons. simpl. by rewrite IH.
Qed.

Lemma pts_union_singleton w x s : x ∉ s → pts w ({[x]} ∪ s) = w !!! x + pts w s.
Proof. intros Hx. unfold pts. by rewrite elements_union_singleton. Qed.

Lemma pts_remove w x s :
  pts w (s ∖ {[x]}) = pts w s - (if decide (x ∈ s) then w !!! x else 0).
Proof.
  case_decide as Hx.
  - rewrite (union_difference_singleton_L x s) at 2 by done.
    rewrite pts_union_singleton by set_solver. lia.
  - rewrite Nat.sub_0_r. f_equal. set_solver.
Qed.

Lemma pts_mono w s t : s ⊆ t → pts w s ≤ pts w t.
Proof.
  revert t. induction s as [|x s Hx IH] using set_ind_L; intros t Ht.
  { unfold pts. rewrite elements_empty. simpl. lia. }
  rewrite pts_union_singleton by done.
  rewrite (union_difference_singleton_L x t) by set_solver.
  rewrite pts_union_singleton by set_solver.
  assert (s ⊆ t ∖ {[x]}) as Hs by set_solver. specialize (IH _ Hs). lia.
Qed.

(** ** Vectors of sets *)

Lemma insert_at_lookup i x (l : list (gset nat)) j :
  i < length l →
  insert_at i x l !!! j = if decide (i = j) then {[x]} ∪ l !!! j else l !!! j.
Proof.
  intros Hi. unfold insert_at. rewrite !list_lookup_total_alt. case_decide as E.
  - subst j. rewrite list_lookup_alter_eq.
    destruct (lookup_lt_is_Some_2 l i Hi) as [s ->]. done.
  - by rewrite list_lookup_alter_ne.
Qed.

Lemma length_insert_at i x l : length (insert_at i x l) = length l.
Proof. apply length_alter. Qed.

(** ** The ledger of one replay *)

Record ledger := { owners : nat → gset nat; owned : nat → gset nat }.

Definition ledger_empty : ledger := {| owners := λ _, ∅; owned := λ _, ∅ |}.

Definition ledger_add (L : ledger) (ui pi : nat) : ledger := {|
  owners := λ p, if decide (p = pi) then {[ui]} ∪ owners L p else owners L p;
  owned := λ v, if decide (v = ui) then {[pi]} ∪ owned L v else owned L v;
|}.

Definition has_cell (rows : list Standing) (ui : nat) (pid : Z) : Prop :=
  ∃ row, rows !! ui = Some row ∧ is_Some (st_problems row !! pid).

Section run.
Context (cfg : ContestConfig) (pmap : gmap Z nat) (w : list nat).
Notation T := (solves_to_qualify cfg).
Notation slots := (slots_per_problem cfg).

Record run_ok (rows : list Standing) (probs : list ProblemSlots) (L : ledger) : Prop := {
  ok_points : ps_points <$> probs = w;
  ok_ids : ∀ pid pi, pmap !! pid = Some pi → ps_problem_id <$> probs !! pi = Some pid;
  ok_consistent : ∀ ui pi, ui ∈ owners L pi ↔ pi ∈ owned L ui;
  ok_score : ∀ ui row, rows !! ui = Some row → st_score row = pts w (owned L ui);
  ok_remaining : ∀ pi pb, probs !! pi = Some pb →
    ps_remaining pb + size (owners L pi) = slots;
  ok_owned : ∀ ui pi, pi ∈ owned L ui →
    ∃ pid, pmap !! pid = Some pi ∧ has_cell rows ui pid;
  ok_cell : ∀ ui pid pi, pmap !! pid = Some pi → has_cell rows ui pid →
    pi ∈ owned L ui ∨ T ≤ pts w (owned L ui) ∨
    (ui ∉ owners L pi ∧ slots ≤ size (owners L pi));
}.

Definition credit (row : Standing) (pb : ProblemSlots) : bool :=
  bool_decide (credit_status cfg row pb = Credited).

Lemma credit_true row pb : credit row pb = true ↔ st_score row < T ∧ 0 < ps_remaining pb.
Proof.
  unfold credit, credit_status. rewrite bool_decide_eq_true.
  destruct (Nat.leb_spec T (st_score row)), (Nat.eqb_spec (ps_remaining pb) 0);
    split; intros; try done; lia.
Qed.

Lemma credit_false row pb : credit row pb = false ↔ T ≤ st_score row ∨ ps_remaining pb = 0.
Proof.
  rewrite <- not_true_iff_false, credit_true. lia.
Qed.

Lemma has_cell_insert rows ui row row' v pid :
  rows !! ui = Some row →
  has_cell (<[ui := row']> rows) v pid ↔
  (v = ui ∧ is_Some (st_problems row' !! pid)) ∨ (v ≠ ui ∧ has_cell rows v pid).
Proof.
  intros Hrow. unfold has_cell.
  destruct (decide (v = ui)) as [->|Hne].
  - rewrite list_lookup_insert_eq by (by eapply lookup_lt_Some). naive_solver.
  - rewrite list_lookup_insert_ne by done. naive_solver.
Qed.

Lemma owned_add L ui pi v q :
  q ∈ owned (ledger_add L ui pi) v ↔ (v = ui ∧ q = pi) ∨ q ∈ owned L v.
Proof. simpl. destruct (decide (v = ui)); set_solver. Qed.

Lemma owners_add L ui pi v q :
  v ∈ owners (ledger_add L ui pi) q ↔ (v = ui ∧ q = pi) ∨ v ∈ owners L q.
Proof. simpl. destruct (decide (q = pi)); set_solver. Qed.

Lemma not_owned_without_cell rows probs L ui pid pi :
  run_ok rows probs L → pmap !! pid = Some pi → ¬ has_cell rows ui pid → pi ∉ owned L ui.
Proof.
  intros Hok Hpid Hno Hin.
  destruct (ok_owned _ _ _ Hok ui pi Hin) as (pid' & Hpid' & Hcell).
  pose proof (ok_ids _ _ _ Hok _ _ Hpid). pose proof (ok_ids _ _ _ Hok _ _ Hpid').
  assert (pid = pid') as -> by congruence. done.
Qed.

(** What [record_accepted] changes, field by field. *)
Lemma record_accepted_spec s row pb :
  let out := record_accepted cfg s row pb in
  st_score out.1 = (if credit row pb then st_score row + ps_points pb else st_score row) ∧
  ps_remaining out.2 = (if credit row pb then ps_remaining pb - 1 else ps_remaining pb) ∧
  ps_problem_id out.2 = ps_problem_id pb ∧
  ps_points out.2 = ps_points pb ∧
  (∀ pid, is_Some (st_problems out.1 !! pid) ↔
          pid = problem_id s ∨ is_Some (st_problems row !! pid)).
Proof.
  unfold record_accepted. fold (credit row pb). simpl.
  split_and!; [done|by destruct (credit row pb)..|].
  intros pid. rewrite lookup_insert_is_Some. destruct (decide (problem_id s = pid)); naive_solver.
Qed.

Lemma points_at rows probs L pi pb :
  run_ok rows probs L → probs !! pi = Some pb → w !!! pi = ps_points pb.
Proof.
  intros Hok Hpb. apply list_lookup_total_correct.
  rewrite <- (ok_points _ _ _ Hok), list_lookup_fmap, Hpb. done.
Qed.

Lemma same_fields_ok rows probs L pi pb pb' :
  run_ok rows probs L → probs !! pi = Some pb →
  ps_problem_id pb' = ps_problem_id pb → ps_points pb' = ps_points pb →
  ps_points <$> <[pi := pb']> probs = w ∧
  (∀ pid q, pmap !! pid = Some q → ps_problem_id <$> <[pi := pb']> probs !! q = Some pid).
Proof.
  intros Hok Hpb Hid Hpts. split.
  - rewrite list_fmap_insert, list_insert_id; [apply Hok|].
    by rewrite list_lookup_fmap, Hpb, Hpts.
  - intros pid q Hq. pose proof (ok_ids _ _ _ Hok _ _ Hq) as Hq'.
    destruct (decide (q = pi)) as [->|].
    + rewrite list_lookup_insert_eq by (by eapply lookup_lt_Some).
      rewrite Hpb in Hq'. simpl in *. congruence.
    + by rewrite list_lookup_insert_ne.
Qed.

(** One known first acceptance keeps a replay in step with its ledger; the
    ledger gains a slot exactly when the acceptance is credited. *)
Lemma record_credited_ok rows probs L s ui pi row pb :
  run_ok rows probs L →
  rows !! ui = Some row → probs !! pi = Some pb →
  pmap !! problem_id s = Some pi → ¬ has_cell rows ui (problem_id s) →
  credit row pb = true →
  let out := record_accepted cfg s row pb in
  run_ok (<[ui := out.1]> rows) (<[pi := out.2]> probs) (ledger_add L ui pi).
Proof.
  intros Hok Hrow Hpb Hpid Hnocell Hc out.
  pose proof (not_owned_without_cell _ _ _ _ _ _ Hok Hpid Hnocell) as Hnew.
  assert (ui ∉ owners L pi) as Hnew' by (by rewrite (ok_consistent _ _ _ Hok)).
  destruct (record_accepted_spec s row pb) as (Hscore & Hrem & Hid & Hpts & Hcells).
  fold out in Hscore, Hrem, Hid, Hpts, Hcells. rewrite Hc in Hscore, Hrem.
  apply credit_true in Hc as [Hlt Hpos].
  pose proof (points_at _ _ _ _ _ Hok Hpb) as Hw.
  destruct (same_fields_ok _ _ _ _ _ out.2 Hok Hpb Hid Hpts) as [? ?].
  split; [done|done|..].
  - intros v q. rewrite owned_add, owners_add, (ok_consistent _ _ _ Hok). done.
  - intros v row' Hv. simpl. destruct (decide (v = ui)) as [->|].
    + rewrite list_lookup_insert_eq in Hv by (by eapply lookup_lt_Some). simplify_eq.
      rewrite pts_union_singleton, Hscore, Hw, (ok_score _ _ _ Hok _ _ Hrow) by done. lia.
    + rewrite list_lookup_insert_ne in Hv by done. by apply Hok.
  - intros q pb' Hq. simpl. destruct (decide (q = pi)) as [->|].
    + rewrite list_lookup_insert_eq in Hq by (by eapply lookup_lt_Some). simplify_eq.
      rewrite size_union, size_singleton, Hrem by set_solver.
      pose proof (ok_remaining _ _ _ Hok _ _ Hpb). lia.
    + rewrite list_lookup_insert_ne in Hq by done. by apply Hok.
  - intros v q. rewrite owned_add. intros [[-> ->]|Hq].
    + exists (problem_id s). split; [done|]. rewrite has_cell_insert by done.
      left. split; [done|]. apply Hcells. by left.
    + destruct (ok_owned _ _ _ Hok _ _ Hq) as (pid & ? & Hcell). exists pid. split; [done|].
      rewrite has_cell_insert by done. destruct (decide (v = ui)) as [->|]; [left|by right].
      split; [done|]. apply Hcells. right.
      destruct Hcell as (row' & ? & ?). by simplify_eq.
  - intros v pid q Hq. rewrite has_cell_insert, owned_add, owners_add by done.
    intros [[-> Hcell]|[Hne Hcell]].
    + apply Hcells in Hcell as [->|Hcell]; [left; left; naive_solver|].
      destruct (decide (q = pi)) as [->|Hqp]; [left; by left|].
      destruct (ok_cell _ _ _ Hok ui pid q Hq) as [?|[Hge|[? ?]]];
        [by eexists|left; by right| |].
      * exfalso. rewrite <- (ok_score _ _ _ Hok _ _ Hrow) in Hge. lia.
      * right; right. simpl. rewrite decide_False by done. naive_solver.
    + destruct (ok_cell _ _ _ Hok v pid q Hq Hcell) as [?|[?|[? ?]]];
        [left; by right|right; left|right; right].
      * simpl. by rewrite decide_False.
      * split; [naive_solver|]. simpl. destruct (decide (q = pi)); [|done].
        etrans; [done|]. apply subseteq_size. set_solver.
Qed.

Lemma record_uncredited_ok rows probs L s ui pi row pb :
  run_ok rows probs L →
  rows !! ui = Some row → probs !! pi = Some pb →
  pmap !! problem_id s = Some pi → ¬ has_cell rows ui (problem_id s) →
  credit row pb = false →
  let out := record_accepted cfg s row pb in
  run_ok (<[ui := out.1]> rows) (<[pi := out.2]> probs) L.
Proof.
  intros Hok Hrow Hpb Hpid Hnocell Hc out.
  pose proof (not_owned_without_cell _ _ _ _ _ _ Hok Hpid Hnocell) as Hnew.
  destruct (record_accepted_spec s row pb) as (Hscore & Hrem & Hid & Hpts & Hcells).
  fold out in Hscore, Hrem, Hid, Hpts, Hcells. rewrite Hc in Hscore, Hrem.
  apply credit_false in Hc.
  destruct (same_fields_ok _ _ _ _ _ out.2 Hok Hpb Hid Hpts) as [? ?].
  split; [done|done|apply Hok|..].
  - intros v row' Hv. destruct (decide (v = ui)) as [->|].
    + rewrite list_lookup_insert_eq in Hv by (by eapply lookup_lt_Some). simplify_eq.
      rewrite Hscore. by apply Hok.
    + rewrite list_lookup_insert_ne in Hv by done. by apply Hok.
  - intros q pb' Hq. destruct (decide (q = pi)) as [->|].
    + rewrite list_lookup_insert_eq in Hq by (by eapply lookup_lt_Some). simplify_eq.
      rewrite Hrem. by apply Hok.
    + rewrite list_lookup_insert_ne in Hq by done. by apply Hok.
  - intros v q Hq. destruct (ok_owned _ _ _ Hok _ _ Hq) as (pid & ? & Hcell).
    exists pid. split; [done|]. rewrite has_cell_insert by done.
    destruct (decide (v = ui)) as [->|]; [left|by right]. split; [done|]. apply Hcells. right.
    destruct Hcell as (row' & ? & ?). by simplify_eq.
  - intros v pid q Hq. rewrite has_cell_insert by done.
    intros [[-> Hcell]|[Hne Hcell]]; [|by eapply ok_cell].
    apply Hcells in Hcell as [->|Hcell].
    + assert (q = pi) as -> by congruence. right.
      pose proof (ok_score _ _ _ Hok _ _ Hrow). pose proof (ok_remaining _ _ _ Hok _ _ Hpb).
      destruct Hc as [?|?]; [left; lia|right].
      split; [by rewrite (ok_consistent _ _ _ Hok)|lia].
    + eapply ok_cell; [done|done|by eexists].
Qed.
End run.

(** ** The bounds of [Confirmation] against the ledger of another replay *)

Section confirmation.
Context (cfg : ContestConfig) (w : list nat).
Notation T := (solves_to_qualify cfg).
Notation slots := (slots_per_problem cfg).

Record conf_ok (users problems : nat) (c : Confirmation) (L : ledger) : Prop := {
  c_points : points c = w;
  c_len_po : length (possible_owners c) = problems;
  c_len_co : length (certain_owners c) = problems;
  c_len_pp : length (possible_problems c) = users;
  c_len_pr : length (proofs c) = users;
  c_possible : ∀ ui pi, pi ∈ owned L ui →
    pi ∈ possible_problems c !!! ui ∧ ui ∈ possible_owners c !!! pi;
  c_certain : ∀ pi, certain_owners c !!! pi ⊆ owners L pi;
  c_proofs : ∀ ui pi, pi ∈ proofs c !!! ui →
    pi ∈ owned L ui ∨ T ≤ pts w (owned L ui);
}.

Lemma confirmed_score users problems c L ui :
  conf_ok users problems c L → is_confirmed c ui cfg = true → T ≤ pts w (owned L ui).
Proof.
  intros Hc. unfold is_confirmed. rewrite Nat.leb_le, total_points_pts, (c_points _ _ _ _ Hc).
  intros Hle. destruct (decide (T ≤ pts w (owned L ui))) as [|Hlt]; [done|].
  etrans; [exact Hle|]. apply pts_mono. intros pi Hpi.
  destruct (c_proofs _ _ _ _ Hc _ _ Hpi); [done|lia].
Qed.

Lemma possible_score users problems c L ui :
  conf_ok users problems c L → pts w (owned L ui) ≤ total_points c (possible_problems c !!! ui).
Proof.
  intros Hc. rewrite total_points_pts, (c_points _ _ _ _ Hc). apply pts_mono.
  intros pi Hpi. by apply (c_possible _ _ _ _ Hc).
Qed.

Lemma other_owners_size c ui pi :
  other_owners c ui pi = size (possible_owners c !!! pi ∖ {[ui]}).
Proof.
  unfold other_owners. set (s := possible_owners c !!! pi). case_decide as Hin.
  - rewrite (union_difference_singleton_L ui s) at 1 by done.
    rewrite size_union, size_singleton by set_solver. lia.
  - rewrite Nat.sub_0_r. f_equal. set_solver.
Qed.

Lemma other_points_pts c ui pi :
  points c = w → other_points c ui pi = pts w (possible_problems c !!! ui ∖ {[pi]}).
Proof. intros Hw. unfold other_points. rewrite total_points_pts, pts_remove, Hw. done. Qed.

(** The ledger moved by at most the submission being observed. *)
Definition ledger_step (L L' : ledger) (ui pi : nat) : Prop :=
  L' = L ∨
  (L' = ledger_add L ui pi ∧ pts w (owned L ui) < T ∧ size (owners L pi) < slots).

Lemma ledger_step_mono L L' ui pi v :
  ledger_step L L' ui pi → owned L v ⊆ owned L' v.
Proof. intros [->|(-> & _)]; [done|]. intros q Hq. rewrite owned_add. by right. Qed.

Lemma ledger_step_owners L L' ui pi q :
  ledger_step L L' ui pi → owners L q ⊆ owners L' q.
Proof. intros [->|(-> & _)]; [done|]. intros v Hv. rewrite owners_add. by right. Qed.

Lemma ledger_step_owned L L' ui pi v q :
  ledger_step L L' ui pi → q ∈ owned L' v → (v = ui ∧ q = pi) ∨ q ∈ owned L v.
Proof. intros [->|(-> & _)]; [by right|]. by rewrite owned_add. Qed.

(** What an early return of [observe] relies on. *)
Lemma observe_skip_ok users problems c L L' ui pi :
  conf_ok users problems c L → ledger_step L L' ui pi →
  is_confirmed c ui cfg || (slots <=? size (certain_owners c !!! pi)) = true →
  L' = L.
Proof.
  intros Hc [?|(-> & Hlt & Hfree)] Hskip; [done|exfalso].
  apply orb_true_iff in Hskip as [Hconf|Hfull].
  - pose proof (confirmed_score _ _ _ _ _ Hc Hconf). lia.
  - apply Nat.leb_le in Hfull.
    pose proof (subseteq_size _ _ (c_certain _ _ _ _ Hc pi)). lia.
Qed.

Lemma conf_ok_mono users problems c L L' ui pi :
  conf_ok users problems c L → ledger_step L L' ui pi →
  (∀ v q, q ∈ proofs c !!! v → q ∈ owned L' v ∨ T ≤ pts w (owned L' v)) ∧
  (∀ q, certain_owners c !!! q ⊆ owners L' q).
Proof.
  intros Hc Hs. split.
  - intros v q Hq. pose proof (ledger_step_mono _ _ _ _ v Hs) as Hm.
    destruct (c_proofs _ _ _ _ Hc _ _ Hq) as [?|?]; [left; set_solver|right].
    etrans; [done|]. by apply pts_mono.
  - intros q. etrans; [apply (c_certain _ _ _ _ Hc)|by eapply ledger_step_owners].
Qed.

(** A known acceptance with room for it under every possible owner proves
    "owns this slot or already qualified". *)
Lemma proof_sound users problems c L L' ui pi :
  conf_ok users problems c L → ledger_step L L' ui pi →
  (∀ v q, v ∈ owners L' q ↔ q ∈ owned L' v) →
  other_owners c ui pi < slots →
  (pi ∈ owned L' ui ∨ T ≤ pts w (owned L' ui) ∨
   (ui ∉ owners L' pi ∧ slots ≤ size (owners L' pi))) →
  pi ∈ owned L' ui ∨ T ≤ pts w (owned L' ui).
Proof.
  intros Hc Hs Hcons Hroom [?|[?|[Hno Hfull]]]; [by left|by right|exfalso].
  rewrite other_owners_size in Hroom.
  assert (owners L' pi ⊆ possible_owners c !!! pi ∖ {[ui]}) as Hsub.
  { intros v Hv. assert (v ≠ ui) as Hne by (intros ->; done).
    apply Hcons in Hv. destruct (ledger_step_owned _ _ _ _ _ _ Hs Hv) as [[-> _]|Hv']; [done|].
    apply (c_possible _ _ _ _ Hc) in Hv'. set_solver. }
  apply subseteq_size in Hsub. lia.
Qed.

(** Without this problem the contestant cannot have qualified: a place is
    occupied in every outcome. *)
Lemma certain_sound users problems c L L' ui pi :
  conf_ok users problems c L → ledger_step L L' ui pi →
  other_points c ui pi < T →
  pi ∈ owned L' ui ∨ T ≤ pts w (owned L' ui) → pi ∈ owned L' ui.
Proof.
  intros Hc Hs Hother [?|Hge]; [done|].
  destruct (decide (pi ∈ owned L' ui)) as [|Hno]; [done|exfalso].
  rewrite other_points_pts in Hother by apply Hc.
  assert (owned L' ui ⊆ possible_problems c !!! ui ∖ {[pi]}) as Hsub.
  { intros q Hq. assert (q ≠ pi) as Hne by (intros ->; done).
    destruct (ledger_step_owned _ _ _ _ _ _ Hs Hq) as [[_ ->]|Hq']; [done|].
    apply (c_possible _ _ _ _ Hc) in Hq'. set_solver. }
  apply (pts_mono w) in Hsub. lia.
Qed.

Lemma observe_ok users problems c L L' ui pi acc :
  conf_ok users problems c L → ledger_step L L' ui pi →
  ui < users → pi < problems →
  (∀ v q, v ∈ owners L' q ↔ q ∈ owned L' v) →
  (acc = true → pi ∈ owned L' ui ∨ T ≤ pts w (owned L' ui) ∨
                (ui ∉ owners L' pi ∧ slots ≤ size (owners L' pi))) →
  conf_ok users problems (observe c ui pi acc cfg) L'.
Proof.
  intros Hc Hs Hui Hpi Hcons Hacc. unfold observe.
  destruct (is_confirmed c ui cfg || _) eqn:Hskip.
  { by rewrite (observe_skip_ok _ _ _ _ _ _ _ Hc Hs Hskip). }
  destruct (conf_ok_mono _ _ _ _ _ _ _ Hc Hs) as [Hpr Hco].
  set (proves := acc && _). set (certain := proves && _).
  assert (proves = true → pi ∈ owned L' ui ∨ T ≤ pts w (owned L' ui)) as Hproof.
  { unfold proves. rewrite andb_true_iff, Nat.ltb_lt. intros [? ?].
    eapply proof_sound; eauto. }
  assert (certain = true → pi ∈ owned L' ui) as Hcertain.
  { unfold certain. rewrite andb_true_iff, Nat.ltb_lt. intros [? ?].
    eapply certain_sound; eauto. }
  destruct Hc as [Hw Hpo Hlco Hpp Hlpr Hposs _ _].
  split; simpl; [done|by rewrite length_insert_at|destruct certain; by rewrite ?length_insert_at
    |by rewrite length_insert_at|destruct proves; by rewrite ?length_insert_at|..].
  - intros v q Hq. rewrite !insert_at_lookup by lia.
    destruct (ledger_step_owned _ _ _ _ _ _ Hs Hq) as [[-> ->]|Hq'].
    + rewrite !decide_True by done. set_solver.
    + destruct (Hposs _ _ Hq'). repeat case_decide; set_solver.
  - intros q. destruct certain; [|apply Hco]. rewrite insert_at_lookup by lia.
    case_decide as E; [|apply Hco]. subst q.
    specialize (Hco pi). rewrite <- (Hcons ui pi) in Hcertain. set_solver.
  - intros v q. destruct proves; [|apply Hpr]. rewrite insert_at_lookup by lia.
    case_decide as E; [|apply Hpr]. subst v. rewrite elem_of_union, elem_of_singleton.
    intros [->|?]; [by apply Hproof|by apply Hpr].
Qed.
End confirmation.

(** ** Two replays side by side *)

(** An outcome for every submission still being judged. *)
Definition resolve (ρ : Submission → bool) (s : Submission) : Submission :=
  if pending s then
    {| submission_id := submission_id s; user_id := user_id s; problem_id := problem_id s;
       submitted_at_us := submitted_at_us s; accepted := ρ s; pending := false |}
  else s.

Lemma resolve_key ρ s : submission_key (resolve ρ s) = submission_key s.
Proof. unfold resolve. by destruct (pending s). Qed.

Lemma resolve_ids ρ s :
  user_id (resolve ρ s) = user_id s ∧ problem_id (resolve ρ s) = problem_id s.
Proof. unfold resolve. by destruct (pending s). Qed.

Lemma resolve_pending ρ s : pending (resolve ρ s) = false.
Proof. unfold resolve. by destruct (pending s) eqn:?. Qed.

Section joint.
Context (cfg : ContestConfig) (umap pmap : gmap Z nat) (w : list nat) (users nprob : nat).
Context (Humap : ∀ id ui, umap !! id = Some ui → ui < users).
Context (Hpmap : ∀ id pi, pmap !! id = Some pi → pi < nprob).
Notation T := (solves_to_qualify cfg).
Notation step := (replay_step cfg umap pmap).

Record joint (rD rR : Replay) (L : ledger) : Prop := {
  j_run : run_ok cfg pmap w (rp_rows rR) (rp_problems rR) L;
  j_conf : conf_ok cfg w users nprob (rp_conf rD) L;
  j_rowsD : length (rp_rows rD) = users;
  j_rowsR : length (rp_rows rR) = users;
  j_probsD : length (rp_problems rD) = nprob;
  j_probsR : length (rp_problems rR) = nprob;
  j_cells : ∀ ui pid, has_cell (rp_rows rD) ui pid → has_cell (rp_rows rR) ui pid;
}.

(** A submission the loop skips. *)
Lemma step_skip r s :
  umap !! user_id s = None ∨ pmap !! problem_id s = None ∨
  (accepted s = false ∧ pending s = false) ∨
  (∃ ui, umap !! user_id s = Some ui ∧ has_cell (rp_rows r) ui (problem_id s)) →
  rp_rows (step r s) = rp_rows r ∧ rp_problems (step r s) = rp_problems r ∧
  rp_conf (step r s) = rp_conf r.
Proof.
  unfold replay_step. intros H.
  destruct (umap !! user_id s) as [ui|]; [|done].
  destruct (pmap !! problem_id s) as [pi|]; [|done].
  destruct (negb (accepted s) && negb (pending s)) eqn:E; [done|].
  simpl. destruct (rp_rows r !! ui) as [row|] eqn:Hrow; [|done].
  destruct (rp_problems r !! pi); [|done].
  case_decide as Hcell; [done|exfalso].
  destruct H as [?|[?|[[Ha Hp]|(ui' & [= <-] & row' & Hrow' & ?)]]]; [done|done| |].
  - by rewrite Ha, Hp in E.
  - simplify_eq. done.
Qed.

(** A submission the loop looks at. *)
Lemma step_run r s ui pi row pb :
  umap !! user_id s = Some ui → pmap !! problem_id s = Some pi →
  accepted s || pending s = true →
  rp_rows r !! ui = Some row → rp_problems r !! pi = Some pb →
  ¬ has_cell (rp_rows r) ui (problem_id s) →
  rp_conf (step r s)
    = observe (rp_conf r) ui pi (accepted s && negb (pending s)) cfg ∧
  (rp_rows (step r s), rp_problems (step r s)) =
    if pending s then (rp_rows r, rp_problems r)
    else let out := record_accepted cfg s row pb in
         (<[ui := out.1]> (rp_rows r), <[pi := out.2]> (rp_problems r)).
Proof.
  intros Hu Hp Hap Hrow Hpb Hno. unfold replay_step. rewrite Hu, Hp. simpl.
  assert (negb (accepted s) && negb (pending s) = false) as ->.
  { rewrite <- negb_orb, Hap. done. }
  rewrite Hrow, Hpb. rewrite decide_False.
  2:{ intros ?. apply Hno. by exists row. }
  destruct (pending s); [done|]. by destruct (record_accepted cfg s row pb).
Qed.

(** A known acceptance in one replay: the ledger moves by [ledger_step], and
    afterwards the contestant has a cell for the problem. *)
Lemma run_step_accepted r L s ui pi :
  run_ok cfg pmap w (rp_rows r) (rp_problems r) L →
  length (rp_rows r) = users → length (rp_problems r) = nprob →
  umap !! user_id s = Some ui → pmap !! problem_id s = Some pi →
  accepted s = true → pending s = false →
  ∃ L', run_ok cfg pmap w (rp_rows (step r s)) (rp_problems (step r s)) L' ∧
    ledger_step cfg w L L' ui pi ∧
    length (rp_rows (step r s)) = users ∧ length (rp_problems (step r s)) = nprob ∧
    (∀ v pid, has_cell (rp_rows r) v pid ∨ (v = ui ∧ pid = problem_id s) →
              has_cell (rp_rows (step r s)) v pid).
Proof.
  intros Hok Hlr Hlp Hu Hp Ha Hpe.
  destruct (lookup_lt_is_Some_2 (rp_rows r) ui) as [row Hrow]; [rewrite Hlr; eauto|].
  destruct (lookup_lt_is_Some_2 (rp_problems r) pi) as [pb Hpb]; [rewrite Hlp; eauto|].
  destruct (decide (is_Some (st_problems row !! problem_id s))) as [Hc|Hc].
  { assert (has_cell (rp_rows r) ui (problem_id s)) as Hcell by (by exists row).
    destruct (step_skip r s) as (-> & -> & _); [right; right; right; eauto|].
    exists L. split_and!; [done|by left|done|done|]. intros v pid [?|[-> ->]]; done. }
  assert (¬ has_cell (rp_rows r) ui (problem_id s)) as Hno.
  { intros (row' & ? & ?). by simplify_eq. }
  destruct (step_run r s ui pi row pb) as [_ Hrun]; try done; [by rewrite Ha|].
  rewrite Hpe in Hrun. simpl in Hrun. injection Hrun as Hrows Hprobs.
  rewrite Hrows, Hprobs. rewrite !length_insert.
  exists (if credit cfg row pb then ledger_add L ui pi else L).
  assert (∀ v pid, has_cell (rp_rows r) v pid ∨ (v = ui ∧ pid = problem_id s) →
    has_cell (<[ui := (record_accepted cfg s row pb).1]> (rp_rows r)) v pid) as Hcells.
  { intros v pid Hv. rewrite has_cell_insert by done.
    destruct (record_accepted_spec cfg s row pb) as (_ & _ & _ & _ & Hcells).
    destruct (decide (v = ui)) as [->|]; [left|right; naive_solver].
    split; [done|]. apply Hcells. destruct Hv as [(row' & ? & ?)|[_ ->]]; [right|by left].
    by simplify_eq. }
  destruct (credit cfg row pb) eqn:Hcr; (split_and!; [|  |done|done|exact Hcells]).
  - by apply record_credited_ok.
  - right. apply credit_true in Hcr as [Hlt Hpos].
    rewrite <- (ok_score _ _ _ _ _ _ Hok _ _ Hrow).
    pose proof (ok_remaining _ _ _ _ _ _ Hok _ _ Hpb). split; [done|lia].
  - by apply record_uncredited_ok.
  - by left.
Qed.

(** Whatever the resolved replay does with a submission is a [ledger_step]. *)
Lemma resolved_step ρ rR L s ui pi :
  run_ok cfg pmap w (rp_rows rR) (rp_problems rR) L →
  length (rp_rows rR) = users → length (rp_problems rR) = nprob →
  umap !! user_id s = Some ui → pmap !! problem_id s = Some pi →
  ∃ L', run_ok cfg pmap w (rp_rows (step rR (resolve ρ s)))
                          (rp_problems (step rR (resolve ρ s))) L' ∧
    ledger_step cfg w L L' ui pi ∧
    length (rp_rows (step rR (resolve ρ s))) = users ∧
    length (rp_problems (step rR (resolve ρ s))) = nprob ∧
    (∀ v pid, has_cell (rp_rows rR) v pid ∨
              (accepted (resolve ρ s) = true ∧ v = ui ∧ pid = problem_id s) →
              has_cell (rp_rows (step rR (resolve ρ s))) v pid).
Proof.
  intros Hok Hlr Hlp Hu Hp. destruct (resolve_ids ρ s) as [Hu' Hp'].
  destruct (accepted (resolve ρ s)) eqn:Ha.
  - destruct (run_step_accepted rR L (resolve ρ s) ui pi) as (L' & ? & ? & ? & ? & Hcells);
      rewrite ?Hu', ?Hp'; auto using resolve_pending.
    exists L'. split_and!; [done..|]. intros v pid Hv. apply Hcells. rewrite Hp'. naive_solver.
  - destruct (step_skip rR (resolve ρ s)) as (-> & -> & _).
    { right; right; left. auto using resolve_pending. }
    exists L. split_and!; [done|by left|done|done|]. intros v pid [?|[? _]]; done.
Qed.

Lemma joint_step ρ rD rR L s :
  joint rD rR L → ∃ L', joint (step rD s) (step rR (resolve ρ s)) L'.
Proof.
  intros [Hrun Hconf HlD HlR HpD HpR Hcells]. destruct (resolve_ids ρ s) as [Hu' Hp'].
  destruct (umap !! user_id s) as [ui|] eqn:Hu; [destruct (pmap !! problem_id s) as [pi|] eqn:Hp|];
    [|destruct (step_skip rD s) as (HrD & HbD & HcD); [by eauto|];
      destruct (step_skip rR (resolve ρ s)) as (HrR & HbR & _); [rewrite Hu', Hp'; by eauto|];
      exists L; split; rewrite ?HrD, ?HbD, ?HcD, ?HrR, ?HbR; done..].
  destruct (resolved_step ρ rR L s ui pi) as (L' & Hrun' & Hstep & HlR' & HpR' & Hcells');
    [done..|].
  destruct (decide (accepted s = false ∧ pending s = false ∨
                    is_Some (rp_rows rD !! ui ≫= λ row, st_problems row !! problem_id s)))
    as [Hskip|Hlook].
  - (* the observed replay skips the submission, and so does the other one *)
    assert ((accepted s = false ∧ pending s = false) ∨ has_cell (rp_rows rD) ui (problem_id s)) as Hs.
    { destruct Hskip as [?|[x Hx]]; [by left|right].
      destruct (rp_rows rD !! ui) as [row|] eqn:Hr; [|done]. exists row. split; [done|by eexists]. }
    destruct (step_skip rD s) as (HrD & HbD & HcD); [naive_solver|].
    destruct (step_skip rR (resolve ρ s)) as (HrR & HbR & _).
    { rewrite Hu', Hp'. destruct Hs as [[Ha Hpe]|Hc]; [|by eauto 10].
      unfold resolve. rewrite Hpe. auto. }
    exists L. split; rewrite ?HrD, ?HbD, ?HcD, ?HrR, ?HbR; done.
  - destruct (lookup_lt_is_Some_2 (rp_rows rD) ui) as [row Hrow]; [rewrite HlD; eauto|].
    destruct (lookup_lt_is_Some_2 (rp_problems rD) pi) as [pb Hpb]; [rewrite HpD; eauto|].
    assert (¬ has_cell (rp_rows rD) ui (problem_id s)) as Hno.
    { intros (row' & Hrow' & ?). apply Hlook. right. by rewrite Hrow'. }
    destruct (step_run rD s ui pi row pb) as [HcD HD]; [done..| |done|done|done|].
    { destruct (accepted s), (pending s); naive_solver. }
    exists L'. split; [done|rewrite HcD; apply observe_ok with L|..]; eauto.
    + intros ??. apply Hrun'.
    + rewrite andb_true_iff, negb_true_iff. intros [Ha Hpe].
      eapply (ok_cell _ _ _ _ _ _ Hrun'); [exact Hp|]. apply Hcells'. right.
      unfold resolve. by rewrite Hpe.
    + destruct (pending s); simpl in HD; injection HD as -> _; by rewrite ?length_insert.
    + destruct (pending s); simpl in HD; injection HD as _ ->; by rewrite ?length_insert.
    + intros v pid Hv. apply Hcells'. destruct (pending s) eqn:Hpe; simpl in HD; injection HD as Hr _;
        rewrite Hr in Hv; [left; auto|].
      rewrite has_cell_insert in Hv by done.
      destruct (record_accepted_spec cfg s row pb) as (_ & _ & _ & _ & Hc).
      destruct Hv as [[-> Hv]|[_ Hv]]; [|left; auto].
      apply Hc in Hv as [->|Hv]; [|left; apply Hcells; by exists row].
      right. unfold resolve. rewrite Hpe. destruct (accepted s); naive_solver.
Qed.

Lemma joint_fold ρ l rD rR L :
  joint rD rR L → ∃ L', joint (foldl step rD l) (foldl step rR (resolve ρ <$> l)) L'.
Proof.
  revert rD rR L. induction l as [|s l IH]; intros rD rR L Hj; [by exists L|].
  destruct (joint_step ρ _ _ _ s Hj) as [L' Hj']. simpl. by eapply IH.
Qed.
End joint.

(** ** Settled replays: nothing is waiting for a result *)

Section settled.
Context (cfg : ContestConfig) (umap pmap : gmap Z nat) (w : list nat) (users nprob : nat).
Context (Humap : ∀ id ui, umap !! id = Some ui → ui < users).
Context (Hpmap : ∀ id pi, pmap !! id = Some pi → pi < nprob).
Notation T := (solves_to_qualify cfg).
Notation slots := (slots_per_problem cfg).
Notation step := (replay_step cfg umap pmap).

(** Every bound of [Confirmation] is the ledger itself. *)
Record exact (c : Confirmation) (L : ledger) : Prop := {
  x_points : points c = w;
  x_len : length (possible_owners c) = nprob ∧ length (certain_owners c) = nprob ∧
          length (possible_problems c) = users ∧ length (proofs c) = users;
  x_user : ∀ ui, proofs c !!! ui = owned L ui ∧ possible_problems c !!! ui = owned L ui;
  x_problem : ∀ pi, possible_owners c !!! pi = owners L pi ∧
                    certain_owners c !!! pi = owners L pi;
}.

Record settled (r : Replay) (L : ledger) : Prop := {
  s_run : run_ok cfg pmap w (rp_rows r) (rp_problems r) L;
  s_exact : exact (rp_conf r) L;
  s_rows : length (rp_rows r) = users;
  s_probs : length (rp_problems r) = nprob;
}.

Lemma exact_confirmed c L ui :
  exact c L → is_confirmed c ui cfg = bool_decide (T ≤ pts w (owned L ui)).
Proof.
  intros Hx. unfold is_confirmed. rewrite total_points_pts, (x_points _ _ Hx).
  destruct (x_user _ _ Hx ui) as [-> _].
  by destruct (Nat.leb_spec T (pts w (owned L ui))); case_bool_decide; try lia.
Qed.

Lemma observe_exact c L ui pi :
  exact c L → ui < users → pi < nprob → ui ∉ owners L pi → pi ∉ owned L ui →
  let credited := bool_decide (pts w (owned L ui) < T ∧ size (owners L pi) < slots) in
  exact (observe c ui pi true cfg) (if credited then ledger_add L ui pi else L).
Proof.
  intros Hx Hui Hpi Hno Hno'. pose proof Hx as [Hw (L1 & L2 & L3 & L4) Hu Hp]. simpl.
  unfold observe. rewrite (exact_confirmed _ _ _ Hx).
  destruct (Hp pi) as [HPO HCO]. rewrite HCO.
  destruct (bool_decide (T ≤ _) || _) eqn:Hskip.
  { rewrite bool_decide_false; [done|]. apply orb_true_iff in Hskip as [E|E];
      [apply bool_decide_eq_true in E|apply Nat.leb_le in E]; lia. }
  apply orb_false_iff in Hskip as [E1 E2].
  apply bool_decide_eq_false in E1. apply Nat.leb_gt in E2.
  rewrite bool_decide_true by lia.
  rewrite other_owners_size, (other_points_pts w) by done.
  rewrite HPO, (proj2 (Hu ui)).
  replace (owners L pi ∖ {[ui]}) with (owners L pi) by set_solver.
  replace (owned L ui ∖ {[pi]}) with (owned L ui) by set_solver.
  assert (size (owners L pi) <? slots = true) as -> by (by apply Nat.ltb_lt).
  assert (pts w (owned L ui) <? T = true) as -> by (apply Nat.ltb_lt; lia).
  split; simpl; [done|by rewrite !length_insert_at|..].
  - intros v. rewrite !insert_at_lookup by lia. destruct (Hu v) as [-> ->].
    repeat case_decide; subst; naive_solver.
  - intros q. rewrite !insert_at_lookup by lia. destruct (Hp q) as [-> ->].
    repeat case_decide; subst; naive_solver.
Qed.

Lemma step_pending r s : rp_pending r ≤ rp_pending (step r s).
Proof.
  unfold replay_step. repeat (case_match; simpl; try lia).
Qed.

Lemma fold_pending l r : rp_pending r ≤ rp_pending (foldl step r l).
Proof.
  revert r. induction l as [|s l IH]; intros r; simpl; [done|].
  etrans; [apply (step_pending r s)|apply IH].
Qed.

Lemma step_pending_count r s ui pi :
  umap !! user_id s = Some ui → pmap !! problem_id s = Some pi → pending s = true →
  rp_pending (step r s) = S (rp_pending r).
Proof.
  intros Hu Hp Hpe. unfold replay_step. rewrite Hu, Hp, Hpe.
  repeat (case_match; simpl; try done).
Qed.

Lemma settled_same r r' L :
  settled r L → rp_rows r' = rp_rows r ∧ rp_problems r' = rp_problems r ∧
  rp_conf r' = rp_conf r → settled r' L.
Proof. intros [] (Hr & Hp & Hc). split; rewrite ?Hr, ?Hp, ?Hc; done. Qed.

Lemma settled_step r L s :
  settled r L → rp_pending (step r s) = 0 → ∃ L', settled (step r s) L'.
Proof.
  intros Hs Hz. pose proof Hs as [Hrun Hx Hlr Hlp].
  destruct (umap !! user_id s) as [ui|] eqn:Hu;
    [|exists L; apply (settled_same r); [done|apply step_skip; auto]].
  destruct (pmap !! problem_id s) as [pi|] eqn:Hp;
    [|exists L; apply (settled_same r); [done|apply step_skip; auto]].
  destruct (pending s) eqn:Hpe.
  { rewrite (step_pending_count _ _ _ _ Hu Hp Hpe) in Hz. done. }
  destruct (accepted s) eqn:Ha;
    [|exists L; apply (settled_same r); [done|apply step_skip; auto 6]].
  destruct (lookup_lt_is_Some_2 (rp_rows r) ui) as [row Hrow]; [rewrite Hlr; eauto|].
  destruct (lookup_lt_is_Some_2 (rp_problems r) pi) as [pb Hpb]; [rewrite Hlp; eauto|].
  destruct (decide (is_Some (st_problems row !! problem_id s))) as [Hc|Hc].
  { exists L. apply (settled_same r); [done|]. apply step_skip. right; right; right.
    exists ui. split; [done|]. by exists row. }
  assert (¬ has_cell (rp_rows r) ui (problem_id s)) as Hno.
  { intros (row' & Hrow' & ?). apply Hc. by simplify_eq. }
  destruct (step_run cfg umap pmap r s ui pi row pb) as [HcD HD]; [done|done|by rewrite Ha|done..|].
  rewrite Hpe, Ha in *. simpl in HD, HcD. injection HD as HrD HbD.
  pose proof (not_owned_without_cell _ _ _ _ _ _ _ _ _ Hrun Hp Hno) as Hnew.
  assert (credit cfg row pb =
          bool_decide (pts w (owned L ui) < T ∧ size (owners L pi) < slots)) as Hcredit.
  { apply eq_true_iff_eq. rewrite credit_true, bool_decide_eq_true.
    rewrite (ok_score _ _ _ _ _ _ Hrun _ _ Hrow).
    pose proof (ok_remaining _ _ _ _ _ _ Hrun _ _ Hpb). lia. }
  exists (if credit cfg row pb then ledger_add L ui pi else L).
  split; [|rewrite HcD, Hcredit; apply observe_exact; eauto|by rewrite HrD, length_insert
          |by rewrite HbD, length_insert].
  - rewrite HrD, HbD. destruct (credit cfg row pb) eqn:E;
      [by apply record_credited_ok|by apply record_uncredited_ok].
  - by rewrite (ok_consistent _ _ _ _ _ _ Hrun).
Qed.

Lemma settled_fold l r L :
  settled r L → rp_pending (foldl step r l) = 0 → ∃ L', settled (foldl step r l) L'.
Proof.
  revert r L. induction l as [|s l IH]; intros r L Hs Hz; [by exists L|]. simpl in *.
  pose proof (fold_pending l (step r s)).
  destruct (settled_step r L s Hs) as [L' Hs']; [lia|]. by eapply IH.
Qed.
End settled.

(** ** The index maps and the initial state *)

Lemma index_map_snoc {A} (key : A → Z) l x :
  index_map key (l ++ [x]) = <[key x := length l]> (index_map key l).
Proof.
  unfold index_map. rewrite imap_app, foldl_app. simpl. by rewrite Nat.add_0_r.
Qed.

Lemma index_map_Some {A} (key : A → Z) l k i :
  index_map key l !! k = Some i → ∃ x, l !! i = Some x ∧ key x = k.
Proof.
  induction l as [|x l IH] using rev_ind; [done|].
  rewrite index_map_snoc, lookup_insert. case_decide as E.
  - intros [= <-]. exists x. rewrite lookup_app_r, Nat.sub_diag by lia. done.
  - intros H. destruct (IH H) as (y & Hy & ?). exists y. split; [|done].
    by apply lookup_app_l_Some.
Qed.

Lemma index_map_lt {A} (key : A → Z) l k i : index_map key l !! k = Some i → i < length l.
Proof. intros (x & Hx & _)%index_map_Some. by eapply lookup_lt_Some. Qed.

Lemma replicate_total n j : (replicate n (∅ : gset nat)) !!! j = ∅.
Proof.
  rewrite list_lookup_total_alt. destruct (replicate n ∅ !! j) eqn:E; [|done].
  by apply lookup_replicate in E as [-> _].
Qed.

Section init.
Context (participants : list UserIdentity) (problems : list Problem) (cfg : ContestConfig).
Notation umap := (index_map id_user_id participants).
Notation pmap := (index_map pr_problem_id problems).
Notation w := (pr_points <$> problems).
Notation r0 := (replay_init participants problems cfg).

Lemma init_points : ps_points <$> rp_problems r0 = w.
Proof.
  simpl. apply list_eq. intros i. rewrite !list_lookup_fmap, list_lookup_imap.
  by destruct (problems !! i).
Qed.

Lemma init_no_cell ui pid : ¬ has_cell (rp_rows r0) ui pid.
Proof.
  intros (row & Hrow & [x Hx]). simpl in Hrow. apply list_lookup_fmap_Some in Hrow as (p & -> & _).
  done.
Qed.

Lemma init_run_ok : run_ok cfg pmap w (rp_rows r0) (rp_problems r0) ledger_empty.
Proof.
  split; [apply init_points|..].
  - intros pid pi (x & Hx & <-)%index_map_Some. simpl. by rewrite list_lookup_imap, Hx.
  - intros ui pi. set_solver.
  - intros ui row (p & -> & _)%list_lookup_fmap_Some. simpl. unfold pts. by rewrite elements_empty.
  - intros pi pb. simpl. rewrite list_lookup_imap. intros (p & _ & ->)%fmap_Some.
    change (slots_per_problem cfg + size (∅ : gset nat) = slots_per_problem cfg). rewrite size_empty. lia.
  - set_solver.
  - intros ui pid pi _ Hcell. by apply init_no_cell in Hcell.
Qed.

Lemma init_joint :
  joint cfg pmap w (length participants) (length problems) r0 r0 ledger_empty.
Proof.
  split; [apply init_run_ok| |by simpl; rewrite ?length_fmap, ?length_imap..|done].
  split; simpl; rewrite ?length_replicate, ?length_imap; [apply init_points|done..| | |].
  - set_solver.
  - intros pi. by rewrite replicate_total.
  - intros ui pi. rewrite replicate_total. set_solver.
Qed.

Lemma step_user_ids u p r s :
  st_user_id <$> rp_rows (replay_step cfg u p r s) = st_user_id <$> rp_rows r.
Proof.
  unfold replay_step. destruct (u !! _) as [ui|]; [|done]. destruct (p !! _) as [pi|]; [|done].
  destruct (_ && _); [done|]. simpl.
  destruct (rp_rows r !! ui) as [row|] eqn:Hrow; [|done]. destruct (rp_problems r !! pi); [|done].
  case_decide; [done|]. destruct (pending s); [done|]. simpl.
  rewrite list_fmap_insert, list_insert_id; [done|]. by rewrite list_lookup_fmap, Hrow.
Qed.

Lemma replay_user_ids subs :
  st_user_id <$> rp_rows (replay participants problems subs cfg) = id_user_id <$> participants.
Proof.
  unfold replay. assert (st_user_id <$> rp_rows r0 = id_user_id <$> participants) as Hinit.
  { simpl. by rewrite <- list_fmap_compose. }
  revert Hinit. generalize r0 as r.
  induction (sort_by_key submission_key subs) as [|s l IH]; intros r Hr; [done|].
  simpl. apply IH. by rewrite step_user_ids.
Qed.
End init.

Lemma insert_by_key_fmap {A K} `{Ord K} (key : A → K) (f : A → A) x l :
  (∀ y, key (f y) = key y) →
  insert_by_key key (f x) (f <$> l) = f <$> insert_by_key key x l.
Proof.
  intros Hf. induction l as [|y l IH]; [done|].
  rewrite fmap_cons. cbn [insert_by_key]. rewrite !Hf.
  destruct (kle _ _); [done|]. by rewrite fmap_cons, IH.
Qed.

Lemma sort_by_key_fmap {A K} `{Ord K} (key : A → K) (f : A → A) l :
  (∀ y, key (f y) = key y) → sort_by_key key (f <$> l) = f <$> sort_by_key key l.
Proof.
  intros Hf. induction l as [|x l IH]; [done|].
  rewrite fmap_cons. unfold sort_by_key in *. cbn [foldr].
  by rewrite IH, insert_by_key_fmap.
Qed.

(** ** The displayed rows *)

Lemma elem_of_rows cfg r row :
  row ∈ sort_by_key standing_key (judged_rows cfg r) ↔
  ∃ i r0, rp_rows r !! i = Some r0 ∧ row = with_verdict (conf_verdict (rp_conf r) i cfg) r0.
Proof.
  rewrite elem_of_sort_by_key, list_elem_of_lookup. unfold judged_rows. split.
  - intros (i & Hi). rewrite list_lookup_imap in Hi. apply fmap_Some in Hi as (r0 & ? & ->). eauto.
  - intros (i & r0 & Hr & ->). exists i. by rewrite list_lookup_imap, Hr.
Qed.

Lemma calculate_Ok participants problems subs cfg st :
  calculate participants problems subs cfg = Ok st ↔
  validate cfg = Ok tt ∧ validate_problems problems = Ok tt ∧
  let r := replay participants problems subs cfg in
  let rows := sort_by_key standing_key (judged_rows cfg r) in
  st = {| ss_config := cfg;
          ss_problem_count := length (rp_problems r);
          ss_qualified_count := length (filter (λ row, st_verdict row = Some Qualified) rows);
          ss_pending := rp_pending r;
          ss_problems := rp_problems r;
          ss_rows := rows |}.
Proof.
  unfold calculate. rewrite result_bind_Ok. setoid_rewrite result_bind_Ok. split.
  - intros ([] & ? & [] & ? & [= <-]). done.
  - intros (? & ? & ->). exists tt. split; [done|]. exists tt. done.
Qed.

(** The observed replay and a resolved one, row by row. *)
Lemma replay_joint participants problems subs cfg ρ :
  ∃ L, joint cfg (index_map pr_problem_id problems) (pr_points <$> problems)
             (length participants) (length problems)
             (replay participants problems subs cfg)
             (replay participants problems (resolve ρ <$> subs) cfg) L.
Proof.
  unfold replay. rewrite sort_by_key_fmap by apply resolve_key.
  apply joint_fold with ledger_empty; eauto using index_map_lt, init_joint.
Qed.

(** ** Properties *)

(** The row of a contestant in a list of displayed rows. *)
Definition scores_at_least (st : Standings) (id : Z) (t : nat) : Prop :=
  (∃ row, row ∈ ss_rows st ∧ st_user_id row = id) ∧
  ∀ row, row ∈ ss_rows st → st_user_id row = id → t ≤ st_score row.

Lemma row_index participants problems subs cfg i r0 :
  rp_rows (replay participants problems subs cfg) !! i = Some r0 →
  id_user_id <$> participants !! i = Some (st_user_id r0).
Proof.
  intros Hr. pose proof (replay_user_ids participants problems cfg subs) as Hids.
  apply (f_equal (λ l : list Z, l !! i)) in Hids. rewrite !list_lookup_fmap, Hr in Hids.
  by rewrite <- Hids.
Qed.

Lemma index_of_user participants problems subs subs' cfg i j r0 r1 :
  NoDup (id_user_id <$> participants) →
  rp_rows (replay participants problems subs cfg) !! i = Some r0 →
  rp_rows (replay participants problems subs' cfg) !! j = Some r1 →
  st_user_id r0 = st_user_id r1 → i = j.
Proof.
  intros Hnd Hi Hj Heq. apply row_index in Hi, Hj. rewrite Heq in Hi.
  rewrite <- list_lookup_fmap in Hi, Hj. by eapply NoDup_lookup.
Qed.

(** C1. A contestant shown as [Qualified] stays qualified: in every way the
    submissions still being judged can come back (each accepted or not), the
    standings computed from the finished results give that contestant at least
    the qualifying score. *)
Theorem qualified_survives participants problems subs cfg st row ρ :
  NoDup (id_user_id <$> participants) →
  calculate participants problems subs cfg = Ok st →
  row ∈ ss_rows st → st_verdict row = Some Qualified →
  ∃ st', calculate participants problems (resolve ρ <$> subs) cfg = Ok st' ∧
         scores_at_least st' (st_user_id row) (solves_to_qualify cfg).
Proof.
  intros Hnd (Hv & Hvp & ->)%calculate_Ok (i & r0 & Hr0 & ->)%elem_of_rows Hq.
  eexists. split; [by apply calculate_Ok|].
  destruct (replay_joint participants problems subs cfg ρ) as (L & [Hrun Hconf HlD HlR _ _ _]).
  unfold scores_at_least. simpl in *. split.
  - destruct (lookup_lt_is_Some_2
      (rp_rows (replay participants problems (resolve ρ <$> subs) cfg)) i) as [r1 Hr1].
    { rewrite HlR, <- HlD. by eapply lookup_lt_Some. }
    eexists. rewrite elem_of_rows. split; [by exists i, r1|]. simpl.
    apply row_index in Hr0, Hr1. congruence.
  - intros row' (j & r1 & Hr1 & ->)%elem_of_rows Heq. simpl in *.
    assert (j = i) as -> by (eapply index_of_user; eauto).
    rewrite (ok_score _ _ _ _ _ _ Hrun _ _ Hr1). eapply confirmed_score; [exact Hconf|].
    unfold conf_verdict in Hq. destruct (is_confirmed _ i cfg); [done|]. by case_match.
Qed.

(** A contestant shown without a verdict cannot qualify any more: in no
    way the pending submissions can come back does the contestant's score reach
    the threshold. *)
Theorem no_verdict_cannot_qualify participants problems subs cfg st row ρ st' row' :
  NoDup (id_user_id <$> participants) →
  calculate participants problems subs cfg = Ok st →
  row ∈ ss_rows st → st_verdict row = None →
  calculate participants problems (resolve ρ <$> subs) cfg = Ok st' →
  row' ∈ ss_rows st' → st_user_id row' = st_user_id row →
  st_score row' < solves_to_qualify cfg.
Proof.
  intros Hnd (_ & _ & ->)%calculate_Ok (i & r0 & Hr0 & ->)%elem_of_rows Hq
    (_ & _ & ->)%calculate_Ok (j & r1 & Hr1 & ->)%elem_of_rows Heq. simpl in *.
  assert (j = i) as -> by (eapply index_of_user; eauto).
  destruct (replay_joint participants problems subs cfg ρ) as (L & [Hrun Hconf _ _ _ _ _]).
  rewrite (ok_score _ _ _ _ _ _ Hrun _ _ Hr1).
  pose proof (possible_score _ _ _ _ _ _ i Hconf).
  unfold conf_verdict in Hq. destruct (is_confirmed _ _ _); [done|].
  destruct (Nat.leb_spec (solves_to_qualify cfg)
    (total_points (rp_conf (replay participants problems subs cfg))
       (possible_problems (rp_conf (replay participants problems subs cfg)) !!! i))); [done|lia].
Qed.

(** When no submission is waiting for a result, the verdict is exactly the
    score test: [Qualified] when the score reaches the threshold, none
    otherwise, and never [Pending]. *)
Theorem settled_verdict_exact participants problems subs cfg st row :
  calculate participants problems subs cfg = Ok st → ss_pending st = 0 →
  row ∈ ss_rows st →
  st_verdict row = if decide (solves_to_qualify cfg ≤ st_score row) then Some Qualified else None.
Proof.
  intros (_ & _ & ->)%calculate_Ok Hz (i & r0 & Hr0 & ->)%elem_of_rows. simpl in *.
  destruct (settled_fold cfg (index_map id_user_id participants) (index_map pr_problem_id problems)
    (pr_points <$> problems) (length participants) (length problems)
    ltac:(eauto using index_map_lt) ltac:(eauto using index_map_lt)
    (sort_by_key submission_key subs) (replay_init participants problems cfg) ledger_empty)
    as (L & [Hrun Hx _ _]); [|done|].
  { destruct (init_joint participants problems cfg) as [? [] ? ? ? ? ?].
    split; [done| |done|done]. split; [done|done|..].
    - intros ui. simpl. by rewrite replicate_total.
    - intros pi. simpl. by rewrite replicate_total. }
  fold (replay participants problems subs cfg) in *.
  unfold conf_verdict. rewrite (exact_confirmed _ _ _ _ _ _ _ Hx), total_points_pts.
  rewrite (x_points _ _ _ _ _ Hx), (proj2 (x_user _ _ _ _ _ Hx i)).
  rewrite (ok_score _ _ _ _ _ _ Hrun _ _ Hr0).
  case_bool_decide; case_decide; try done.
  destruct (Nat.leb_spec (solves_to_qualify cfg) (pts (pr_points <$> problems) (owned L i)));
    [lia|done].
Qed.

(** *** Slots, credits and awards *)

(** Induction over the known first acceptances of a replay. *)
Lemma replay_invariant participants problems subs cfg
    (P : list Standing → list ProblemSlots → Prop) :
  let umap := index_map id_user_id participants in
  let pmap := index_map pr_problem_id problems in
  let r0 := replay_init participants problems cfg in
  let r := replay participants problems subs cfg in
  P (rp_rows r0) (rp_problems r0) →
  (∀ rows probs s ui pi row pb,
     P rows probs → umap !! user_id s = Some ui → pmap !! problem_id s = Some pi →
     rows !! ui = Some row → probs !! pi = Some pb →
     st_problems row !! problem_id s = None →
     let out := record_accepted cfg s row pb in
     P (<[ui := out.1]> rows) (<[pi := out.2]> probs)) →
  P (rp_rows r) (rp_problems r).
Proof.
  intros umap pmap r0 r Hinit Hstep. unfold r, replay. fold umap pmap r0.
  revert Hinit. generalize r0 as q. clear r r0.
  induction (sort_by_key submission_key subs) as [|s l IH]; intros q Hq; [done|].
  simpl. apply IH. unfold replay_step.
  destruct (umap !! user_id s) as [ui|] eqn:Hu; [|done].
  destruct (pmap !! problem_id s) as [pi|] eqn:Hp; [|done].
  destruct (_ && _); [done|]. simpl.
  destruct (rp_rows q !! ui) as [row|] eqn:Hrow; [|done].
  destruct (rp_problems q !! pi) as [pb|] eqn:Hpb; [|done].
  case_decide as Hc; [done|]. destruct (pending s); [done|].
  rewrite <- eq_None_not_Some in Hc. by apply (Hstep _ _ s ui pi row pb).
Qed.

Definition cell_credited (c : ProblemCell) : Prop := cell_status c = Credited.
#[global] Instance cell_credited_dec c : Decision (cell_credited c).
Proof. unfold cell_credited. apply _. Defined.

(** The awards of one problem: as many as the places taken, at most one per
    contestant, each backed by a credited cell in the contestant's row. *)
Definition awards_ok (cfg : ContestConfig) (rows : list Standing) (pb : ProblemSlots) : Prop :=
  length (ps_awards pb) + ps_remaining pb = slots_per_problem cfg ∧
  NoDup (aw_user_id <$> ps_awards pb) ∧
  ∀ a, a ∈ ps_awards pb → ∃ row c, row ∈ rows ∧ st_user_id row = aw_user_id a ∧
    st_problems row !! ps_problem_id pb = Some c ∧ cell_credited c ∧
    cell_submission_id c = aw_submission_id a.

(** A row: the credit counter counts the credited cells, and credits stop at
    the qualifying score. *)
Definition row_ok (cfg : ContestConfig) (row : Standing) : Prop :=
  st_credited row = size (filter (λ kv, cell_credited kv.2) (st_problems row)) ∧
  st_accepted row = size (st_problems row) ∧
  st_score row < solves_to_qualify cfg + 2.

Definition accounts_ok (participants : list UserIdentity) (problems : list Problem)
    (cfg : ContestConfig) (rows : list Standing) (probs : list ProblemSlots) : Prop :=
  st_user_id <$> rows = id_user_id <$> participants ∧
  ps_problem_id <$> probs = pr_problem_id <$> problems ∧
  Forall (λ pb, ps_points pb ≤ 2) probs ∧
  Forall (row_ok cfg) rows ∧ Forall (awards_ok cfg rows) probs.

Lemma record_row_ok cfg s row pb :
  row_ok cfg row → ps_points pb ≤ 2 → st_problems row !! problem_id s = None →
  row_ok cfg (record_accepted cfg s row pb).1.
Proof.
  intros (Hcr & Hac & Hlt) Hp Hnone. unfold row_ok, record_accepted. simpl.
  fold (credit cfg row pb). destruct (credit cfg row pb) eqn:Hc.
  - assert (credit_status cfg row pb = Credited) as ->.
    { by apply bool_decide_eq_true in Hc. }
    apply credit_true in Hc as [Hs Hr].
    rewrite map_filter_insert_True, !map_size_insert_None by
      (try done; rewrite map_lookup_filter_None; auto). lia.
  - assert (credit_status cfg row pb ≠ Credited) as Hne.
    { by apply bool_decide_eq_false in Hc. }
    rewrite map_filter_insert_False, delete_id, map_size_insert_None by done. lia.
Qed.

Lemma record_accepted_award cfg s row pb :
  let out := record_accepted cfg s row pb in
  ∃ a c, ps_awards out.2 = (if credit cfg row pb then ps_awards pb ++ [a] else ps_awards pb) ∧
    aw_user_id a = st_user_id row ∧ st_problems out.1 !! problem_id s = Some c ∧
    cell_submission_id c = aw_submission_id a ∧
    (credit cfg row pb = true → cell_credited c).
Proof.
  exists (award_to row s (submitted_at_us s `div` 1000000)). eexists.
  unfold record_accepted. fold (credit cfg row pb). simpl. split_and!.
  - by destruct (credit cfg row pb).
  - done.
  - apply lookup_insert_eq.
  - done.
  - intros Hc. by apply bool_decide_eq_true in Hc.
Qed.

Lemma record_awards_ok participants problems cfg rows probs s ui pi row pb :
  accounts_ok participants problems cfg rows probs →
  NoDup (id_user_id <$> participants) →
  rows !! ui = Some row → probs !! pi = Some pb →
  ps_problem_id pb = problem_id s → st_problems row !! problem_id s = None →
  awards_ok cfg (<[ui := (record_accepted cfg s row pb).1]> rows) (record_accepted cfg s row pb).2.
Proof.
  intros (Hids & _ & _ & _ & Haw) Hnd Hrow Hpb Hpid Hnone.
  rewrite Forall_lookup in Haw. destruct (Haw _ _ Hpb) as (Hlen & Hdup & Hback).
  set (out := record_accepted cfg s row pb).
  assert (∀ a, a ∈ ps_awards pb → aw_user_id a ≠ st_user_id row) as Hfresh.
  { intros a Ha Heq. destruct (Hback a Ha) as (row' & c & Hin & Hu & Hc & _).
    apply list_elem_of_lookup in Hin as [j Hj].
    assert (j = ui) as ->.
    { eapply (NoDup_fmap_lookup st_user_id rows); [by rewrite Hids|done|done|congruence]. }
    simplify_eq. congruence. }
  assert (∀ a, a ∈ ps_awards pb → ∃ row' c, row' ∈ <[ui := out.1]> rows ∧
    st_user_id row' = aw_user_id a ∧ st_problems row' !! ps_problem_id pb = Some c ∧
    cell_credited c ∧ cell_submission_id c = aw_submission_id a) as Hold.
  { intros a Ha. destruct (Hback a Ha) as (row' & c & Hin & Hu & Hc).
    exists row', c. split; [|done]. apply list_elem_of_lookup in Hin as [j Hj].
    apply list_elem_of_lookup. exists j. rewrite list_lookup_insert_ne; [done|].
    intros ->. simplify_eq. by apply (Hfresh a). }
  destruct (record_accepted_spec cfg s row pb) as (_ & Hrem & Hid & _ & _).
  destruct (record_accepted_award cfg s row pb) as (award & c & Haws & Hu & Hcell & Hsub & Hcr).
  fold out in Hrem, Hid, Haws, Hcell. unfold awards_ok. rewrite Hrem, Hid, Haws.
  destruct (credit cfg row pb) eqn:Hc; [|done].
  apply credit_true in Hc as [_ Hr]. rewrite length_app, fmap_app. simpl. split_and!; [lia| |].
  - apply NoDup_app. split_and!; [done| |apply NoDup_singleton].
    intros id (a & -> & Ha)%list_elem_of_fmap. rewrite list_elem_of_singleton, Hu. by apply Hfresh.
  - intros a [Ha| ->%list_elem_of_singleton]%elem_of_app; [by apply Hold|].
    exists out.1, c. rewrite Hpid. split_and!; [|done|done|by apply Hcr|done].
    eapply list_elem_of_lookup_2, list_lookup_insert_eq. by eapply lookup_lt_Some.
Qed.

Lemma record_other_awards cfg rows ui row row' pb :
  rows !! ui = Some row → st_user_id row' = st_user_id row →
  (∀ pid c, st_problems row !! pid = Some c → st_problems row' !! pid = Some c) →
  awards_ok cfg rows pb → awards_ok cfg (<[ui := row']> rows) pb.
Proof.
  intros Hrow Hu Hkeep (Hlen & Hdup & Hback). split_and!; [done|done|].
  intros a Ha. destruct (Hback a Ha) as (row0 & c & Hin & Hu0 & Hc & ?).
  apply list_elem_of_lookup in Hin as [j Hj]. destruct (decide (j = ui)) as [->|Hne].
  - simplify_eq. exists row', c. split_and!; [|congruence|by apply Hkeep|naive_solver..].
    eapply list_elem_of_lookup_2, list_lookup_insert_eq. by eapply lookup_lt_Some.
  - exists row0, c. split; [|done]. apply list_elem_of_lookup. exists j.
    by rewrite list_lookup_insert_ne.
Qed.

Lemma validate_problems_points problems :
  validate_problems problems = Ok tt → Forall (λ p, 1 ≤ pr_points p ≤ 2) problems.
Proof.
  induction problems as [|p problems IH]; [constructor|].
  unfold validate_problems. simpl. rewrite result_bind_Ok. intros ([] & Hp & Hrest).
  constructor; [|by apply IH]. unfold validate_points in Hp.
  destruct (Nat.leb_spec 1 (pr_points p)), (Nat.leb_spec (pr_points p) 2); simpl in Hp; done.
Qed.

Lemma validate_ranges cfg :
  validate cfg = Ok tt →
  expected_problem_count cfg ≤ 1000 ∧ 1 ≤ slots_per_problem cfg ≤ 1000 ∧
  1 ≤ solves_to_qualify cfg ≤ 1000 ∧ 1 ≤ advancement_slots cfg ≤ 1000.
Proof.
  unfold validate. destruct (List.find _ _) as [[[[]]]|] eqn:Hf; [done|]. intros _.
  pose proof (List.find_none _ _ Hf) as Hnone.
  assert (∀ row, List.In row (config_ranges cfg) → out_of_range row = false) as H by done.
  assert (∀ n v lo hi, List.In (n, v, lo, hi) (config_ranges cfg) → lo ≤ v ≤ hi) as Hrange.
  { intros n v lo hi Hin. specialize (H _ Hin). simpl in H.
    apply negb_false_iff, andb_true_iff in H as [?%Nat.leb_le ?%Nat.leb_le]. done. }
  pose proof (Hrange _ _ _ _ (or_introl eq_refl)).
  pose proof (Hrange _ _ _ _ (or_intror (or_introl eq_refl))).
  pose proof (Hrange _ _ _ _ (or_intror (or_intror (or_introl eq_refl)))).
  pose proof (Hrange _ _ _ _ (or_intror (or_intror (or_intror (or_introl eq_refl))))). lia.
Qed.

Lemma accounts_step participants problems cfg rows probs s ui pi row pb :
  NoDup (id_user_id <$> participants) →
  accounts_ok participants problems cfg rows probs →
  index_map pr_problem_id problems !! problem_id s = Some pi →
  rows !! ui = Some row → probs !! pi = Some pb → st_problems row !! problem_id s = None →
  let out := record_accepted cfg s row pb in
  accounts_ok participants problems cfg (<[ui := out.1]> rows) (<[pi := out.2]> probs).
Proof.
  intros Hnd Hacc Hp Hrow Hpb Hnone out. pose proof Hacc as (Hids & Hpids & Hpts & Hrows & Haw).
  assert (ps_problem_id pb = problem_id s) as Hpid.
  { apply index_map_Some in Hp as (x & Hx & <-).
    apply (f_equal (λ l : list Z, l !! pi)) in Hpids.
    rewrite !list_lookup_fmap, Hpb, Hx in Hpids. simpl in Hpids. congruence. }
  pose proof (Forall_lookup_1 _ _ _ _ Hpts Hpb) as Hpt.
  destruct (record_accepted_spec cfg s row pb) as (_ & _ & Hid & Hpt' & _). fold out in Hid, Hpt'.
  split_and!.
  - rewrite list_fmap_insert, list_insert_id; [done|]. by rewrite list_lookup_fmap, Hrow.
  - rewrite list_fmap_insert, list_insert_id; [done|]. by rewrite list_lookup_fmap, Hpb, Hid.
  - apply Forall_insert; [done|]. by rewrite Hpt'.
  - apply Forall_insert; [done|]. apply record_row_ok; [|done|done].
    by eapply Forall_lookup_1.
  - apply Forall_insert; [|by eapply record_awards_ok].
    eapply Forall_impl; [exact Haw|]. intros pb' Hpb'.
    eapply record_other_awards; [done|done| |done]. intros pid c Hc. simpl.
    rewrite lookup_insert_ne; [done|]. intros <-. congruence.
Qed.

Lemma accounts participants problems subs cfg :
  NoDup (id_user_id <$> participants) → Forall (λ p, 1 ≤ pr_points p ≤ 2) problems →
  1 ≤ solves_to_qualify cfg →
  let r := replay participants problems subs cfg in
  accounts_ok participants problems cfg (rp_rows r) (rp_problems r).
Proof.
  intros Hnd Hpts HT r. unfold r. apply replay_invariant.
  - split_and!; simpl.
    + by rewrite <- list_fmap_compose.
    + apply list_eq. intros i. rewrite !list_lookup_fmap, list_lookup_imap.
      by destruct (problems !! i).
    + apply Forall_lookup. intros i pb. rewrite list_lookup_imap.
      intros (p & Hp & ->)%fmap_Some. simpl. by apply (Forall_lookup_1 _ _ _ _ Hpts Hp).
    + apply Forall_fmap, Forall_true. intros p. unfold row_ok. simpl.
      rewrite map_filter_empty, map_size_empty. lia.
    + apply Forall_lookup. intros i pb. rewrite list_lookup_imap.
      intros (p & _ & ->)%fmap_Some. split_and!; simpl; [lia|constructor|]. intros a Ha. set_solver.
  - intros rows probs s ui pi row pb Hacc _ Hp Hrow Hpb Hnone. by eapply accounts_step.
Qed.

(** The books of the standings balance: every problem hands out at most
    [slots_per_problem] places, to distinct contestants, each with a credited
    cell for that very submission; every contestant's credit counter is the
    number of credited cells, and credits stop at the qualifying score (at most
    one point above it). *)
Theorem slots_accounting participants problems subs cfg st :
  NoDup (id_user_id <$> participants) →
  calculate participants problems subs cfg = Ok st →
  (∀ pb, pb ∈ ss_problems st → awards_ok cfg (ss_rows st) pb) ∧
  (∀ row, row ∈ ss_rows st → row_ok cfg row).
Proof.
  intros Hnd (Hv & Hvp & ->)%calculate_Ok. simpl.
  destruct (accounts participants problems subs cfg Hnd (validate_problems_points _ Hvp)
    ltac:(apply validate_ranges in Hv; lia)) as (_ & _ & _ & Hrows & Haw).
  split.
  - intros pb Hpb. rewrite Forall_forall in Haw.
    destruct (Haw pb Hpb) as (? & ? & Hback). split_and!; [done..|].
    intros a Ha. destruct (Hback a Ha) as (row & c & Hin & Hc).
    apply list_elem_of_lookup in Hin as [i Hi].
    eexists (with_verdict _ row), c. rewrite elem_of_rows. split; [by exists i, row|done].
  - intros row (i & r0 & Hr0 & ->)%elem_of_rows. by apply (Forall_lookup_1 _ _ _ _ Hrows Hr0).
Qed.

(** *** Arrival order and advancement *)

(** The standings do not depend on the order in which the submissions are
    handed over (SQL row order, worker delivery): any permutation of a snapshot
    with distinct submission ids yields the same standings. *)
Theorem calculate_order_independent participants problems subs subs' cfg :
  NoDup (submission_id <$> subs) → subs ≡ₚ subs' →
  calculate participants problems subs cfg = calculate participants problems subs' cfg.
Proof.
  intros Hnd Hp. unfold calculate, replay.
  rewrite (sort_by_key_perm_eq submission_key subs subs'); [done| |done].
  intros x y Hx Hy [=_ Heq]. by apply (NoDup_fmap_elem submission_id subs).
Qed.

Lemma elem_of_take_sorted {A K} `{OrdLaws K} (key : A → K) n l x y :
  x ∈ take n (sort_by_key key l) → y ∈ drop n (sort_by_key key l) →
  kle (key x) (key y) = true.
Proof.
  pose proof (sort_by_key_sorted key l) as Hs. rewrite <- (take_drop n (sort_by_key key l)) in Hs.
  intros Hx Hy. by apply (StronglySorted_app_1_elem_of _ _ _ _ _ Hs).
Qed.

(** The contestants [advancement] chooses among as reserves. *)
Definition reserve_candidate (st : Standings) (row : Standing) : Prop :=
  row ∈ ss_rows st ∧ 0 < st_score row < solves_to_qualify (ss_config st).

(** Once the contest is over and judged, [advancement] fills exactly the
    configured places: the direct qualifiers are all the contestants at the
    threshold, in increasing id order; the reserves are candidates below it, in
    standings order, none of them behind a candidate left out; a place stays
    unfilled only if no candidate is left. *)
Theorem advancement_fills_places st adv :
  advancement st true = Ok (Some adv) →
  ss_pending st = 0 ∧
  length (direct_user_ids adv) + length (reserve_user_ids adv) + unfilled_slots adv
    = advancement_slots (ss_config st) ∧
  StronglySorted Z.le (direct_user_ids adv) ∧
  (∀ id, id ∈ direct_user_ids adv ↔ ∃ row, row ∈ ss_rows st ∧ st_user_id row = id ∧
         solves_to_qualify (ss_config st) ≤ st_score row) ∧
  ∃ chosen left_out,
    reserve_user_ids adv = st_user_id <$> chosen ∧
    (∀ row, row ∈ chosen ++ left_out ↔ reserve_candidate st row) ∧
    StronglySorted (key_le standing_key) (chosen ++ left_out) ∧
    (0 < unfilled_slots adv → left_out = []).
Proof.
  unfold advancement. destruct (Nat.eqb_spec (ss_pending st) 0) as [Hz|]; [|done]. simpl.
  set (T := solves_to_qualify (ss_config st)).
  set (direct := filter (λ r, T ≤ st_score r) (ss_rows st)).
  set (rest := filter (λ r, ¬ T ≤ st_score r) (ss_rows st)).
  set (avail := advancement_slots (ss_config st) - length direct).
  set (sorted := sort_by_key standing_key (filter (λ r, 0 < st_score r) rest)).
  destruct (Nat.ltb_spec (advancement_slots (ss_config st)) (length direct)) as [|Hle]; [done|].
  intros [= <-]. simpl.
  split_and!; [done| | | |exists (take avail sorted), (drop avail sorted); split_and!].
  - rewrite length_sort_by_key, !length_fmap, length_take. lia.
  - eapply StronglySorted_weaken; [|apply (sort_by_key_sorted id)].
    intros x y. unfold key_le, kle, Ord_Z. simpl. by rewrite Z.leb_le.
  - intros id. rewrite elem_of_sort_by_key, list_elem_of_fmap. unfold direct.
    setoid_rewrite list_elem_of_filter. naive_solver.
  - done.
  - intros row. rewrite take_drop. unfold sorted, rest, reserve_candidate.
    rewrite elem_of_sort_by_key, !list_elem_of_filter. fold T. naive_solver lia.
  - rewrite take_drop. apply sort_by_key_sorted.
  - rewrite length_fmap, length_take. intros Hpos. apply drop_ge. lia.
Qed.

(** *** Witnesses *)

Definition ex_user (i : Z) : UserIdentity :=
  {| id_user_id := i; id_username := u "player"; id_display_name := None |}.
Definition ex_problem (i : Z) : Problem :=
  {| pr_problem_id := i; pr_label := None; pr_points := 1 |}.
Definition ex_sub (i user problem at_us : Z) (acc wait : bool) : Submission :=
  {| submission_id := i; user_id := user; problem_id := problem;
     submitted_at_us := at_us; accepted := acc; pending := wait |}.

Definition ex_users : list UserIdentity := ex_user <$> [1; 2]%Z.
Definition ex_problems : list Problem := ex_problem <$> [10; 11; 12]%Z.

(** Contestant 1 has three acceptances; contestant 2 waits for a result on a
    problem whose two places contestant 1 cannot be pushed out of. *)
Definition ex_subs : list Submission :=
  [ ex_sub 1 1 10 1 true false; ex_sub 2 2 11 2 true true;
    ex_sub 3 1 11 3 true false; ex_sub 4 1 12 4 true false ].

Definition ex_standings (subs : list Submission) : Standings :=
  match calculate ex_users ex_problems subs contest_config_default with
  | Ok st => st
  | Err _ => {| ss_config := contest_config_default; ss_problem_count := 0;
                ss_qualified_count := 0; ss_pending := 0; ss_problems := []; ss_rows := [] |}
  end.

Definition ex_row (subs : list Submission) (i : nat) : Standing :=
  default (standing_new (ex_user 0)) (ss_rows (ex_standings subs) !! i).

Lemma ex_row_in subs i :
  is_Some (ss_rows (ex_standings subs) !! i) → ex_row subs i ∈ ss_rows (ex_standings subs).
Proof.
  intros [r Hr]. unfold ex_row. rewrite Hr. by eapply list_elem_of_lookup_2.
Qed.

Lemma qualified_survives_witness :
  ∃ st', calculate ex_users ex_problems (resolve (λ _, true) <$> ex_subs)
           contest_config_default = Ok st' ∧
    scores_at_least st' (st_user_id (ex_row ex_subs 0)) (solves_to_qualify contest_config_default).
Proof.
  apply (qualified_survives ex_users ex_problems ex_subs contest_config_default
    (ex_standings ex_subs) (ex_row ex_subs 0) (λ _, true)).
  - by_decide.
  - by_vm.
  - apply (ex_row_in ex_subs 0). by_vm.
  - by_vm.
Defined.

Lemma no_verdict_cannot_qualify_witness :
  st_score (ex_row (resolve (λ _, true) <$> ex_subs) 1) < solves_to_qualify contest_config_default.
Proof.
  apply (no_verdict_cannot_qualify ex_users ex_problems ex_subs contest_config_default
    (ex_standings ex_subs) (ex_row ex_subs 1) (λ _, true)
    (ex_standings (resolve (λ _, true) <$> ex_subs)) (ex_row (resolve (λ _, true) <$> ex_subs) 1)).
  - by_decide.
  - by_vm.
  - apply (ex_row_in ex_subs 1). by_vm.
  - by_vm.
  - by_vm.
  - apply (ex_row_in _ 1). by_vm.
  - by_vm.
Defined.

Definition ex_judged : list Submission := resolve (λ _, false) <$> ex_subs.

Lemma settled_verdict_exact_witness :
  st_verdict (ex_row ex_judged 0) =
  if decide (solves_to_qualify contest_config_default ≤ st_score (ex_row ex_judged 0))
  then Some Qualified else None.
Proof.
  apply (settled_verdict_exact ex_users ex_problems ex_judged contest_config_default
    (ex_standings ex_judged) (ex_row ex_judged 0)).
  - by_vm.
  - by_vm.
  - apply (ex_row_in ex_judged 0). by_vm.
Defined.

Lemma slots_accounting_witness :
  (∀ pb, pb ∈ ss_problems (ex_standings ex_subs) →
         awards_ok contest_config_default (ss_rows (ex_standings ex_subs)) pb) ∧
  (∀ row, row ∈ ss_rows (ex_standings ex_subs) → row_ok contest_config_default row).
Proof.
  apply (slots_accounting ex_users ex_problems ex_subs contest_config_default
    (ex_standings ex_subs)).
  - by_decide.
  - by_vm.
Defined.

Lemma calculate_order_independent_witness :
  calculate ex_users ex_problems ex_subs contest_config_default =
  calculate ex_users ex_problems (rev ex_subs) contest_config_default.
Proof.
  apply (calculate_order_independent ex_users ex_problems ex_subs (rev ex_subs)
    contest_config_default).
  - by_decide.
  - apply Permutation.Permutation_rev.
Defined.

Lemma advancement_fills_places_witness : ss_pending (ex_standings ex_judged) = 0.
Proof.
  apply (advancement_fills_places (ex_standings ex_judged)
    {| direct_user_ids := [1%Z]; reserve_user_ids := []; unfilled_slots := 15 |}).
  by_vm.
Defined.
