(* ===== verification/BracketModel.v ===== *)
(** * BracketModel: the data of the elimination bracket

    The documents the plugin stores (plugins/codelink-bracket/src/model.rs) and
    the numbering of matches and keys (plugins/codelink-bracket/src/storage.rs).
    An integer field is a [Z] whatever its width; the operations on it write
    the width out. *)

From S2P Require Import Prelude Text.

(** ** Setup *)

Definition default_escalation_grace_seconds : Z := 120.
Definition default_penalty_seconds : Z := 20.

Record ThirdPlaceProblems := {
  tp_group_a : list Z;
  tp_group_b : list Z;
  tp_tiebreak : list Z;
}.

Inductive ThirdPlaceConfig := Shared | Custom (problems : ThirdPlaceProblems).

Inductive MatchKind := Elimination | Final | ThirdPlace.

Record RoundDef := {
  rd_group_a : list Z;
  rd_group_b : list Z;
  rd_tiebreak : list Z;
  rd_wins_to_advance : option nat;
  rd_start_at_ms : option Z;
  rd_post_order_wait_seconds : option Z;
  rd_game_break_seconds : option Z;
  rd_match_extra_time_seconds : option Z;
  rd_xiaoju_seconds : Z;
  rd_tiebreak_seconds : Z;
  rd_break_before_seconds : Z;
}.

Record StageClock := {
  sc_start_at_ms : Z;
  sc_ordering_deadline_ms : Z;
  sc_starts_at_ms : Z;
  sc_awaiting_reschedule : bool;
}.

Record GameDurations := { gd_xiaoju_seconds : Z; gd_tiebreak_seconds : Z }.

Record Setup := {
  rounds : list RoundDef;
  seeds : list Z;
  third_place : option ThirdPlaceConfig;
  opened_rounds : nat;
  stage_clocks : gmap Z StageClock;
  setup_extra_time_seconds : Z;
  penalty_seconds : Z;
  escalation_grace_seconds : Z;
}.

Definition setup_default : Setup := {|
  rounds := [];
  seeds := [];
  third_place := None;
  opened_rounds := 0;
  stage_clocks := ∅;
  setup_extra_time_seconds := 0;
  penalty_seconds := default_penalty_seconds;
  escalation_grace_seconds := default_escalation_grace_seconds;
|}.

Definition set_opened_rounds (x : nat) (s : Setup) : Setup := {|
  rounds := rounds s;
  seeds := seeds s;
  third_place := third_place s;
  opened_rounds := x;
  stage_clocks := stage_clocks s;
  setup_extra_time_seconds := setup_extra_time_seconds s;
  penalty_seconds := penalty_seconds s;
  escalation_grace_seconds := escalation_grace_seconds s;
|}.

Definition set_stage_clocks (x : gmap Z StageClock) (s : Setup) : Setup := {|
  rounds := rounds s;
  seeds := seeds s;
  third_place := third_place s;
  opened_rounds := opened_rounds s;
  stage_clocks := x;
  setup_extra_time_seconds := setup_extra_time_seconds s;
  penalty_seconds := penalty_seconds s;
  escalation_grace_seconds := escalation_grace_seconds s;
|}.

(** ** Matches *)

Record XiaojuState := {
  x_index : Z;
  x_opened_at_ms : Z;
  x_base_deadline_ms : option Z;
  x_deadline_ms : Z;
  x_extra_time_used_ms : Z;
  x_winner : option Z;
  x_decided : bool;
}.

Definition xiaoju_base_deadline_ms (x : XiaojuState) : Z :=
  default (x_deadline_ms x) (x_base_deadline_ms x).

(** The comparison is made in 128 bits: no overflow. *)
Definition contains_submission_at_us (x : XiaojuState) (submitted_at_us : Z) : bool :=
  ((x_opened_at_ms x * 1000 <=? submitted_at_us)
   && (submitted_at_us <? x_deadline_ms x * 1000))%Z.

Inductive AdjudicationReason := StuckJudge | TiebreakExhausted | SetupMissing | ContestEnded.

Inductive MatchPhase :=
  | Pending
  | Ordering
  | Preparing
  | Intermission
  | InProgress
  | Tiebreak
  | AwaitingJudge
  | Decided
  | NeedsAdjudication.

Record MatchState := {
  m_round : Z;
  m_pos : Z;
  m_player_a : Z;
  m_player_b : Z;
  m_group_a : list Z;
  m_group_b : list Z;
  m_order_a : option (list Z);
  m_order_b : option (list Z);
  m_xiaoju : list XiaojuState;
  m_score_a : Z;
  m_score_b : Z;
  m_state : MatchPhase;
  m_next_game_at_ms : option Z;
  m_winner : option Z;
  m_tiebreak_index : nat;
  m_decided_at_ms : Z;
  m_awaiting_submission_id : option Z;
  m_adjudication_reason : option AdjudicationReason;
  m_game_durations : option GameDurations;
  m_match_extra_time_seconds : Z;
  m_extra_time_remaining_ms : Z;
}.

#[global] Instance RoundDef_eq_dec : EqDecision RoundDef.
Proof. solve_decision. Defined.
#[global] Instance ThirdPlaceProblems_eq_dec : EqDecision ThirdPlaceProblems.
Proof. solve_decision. Defined.
#[global] Instance ThirdPlaceConfig_eq_dec : EqDecision ThirdPlaceConfig.
Proof. solve_decision. Defined.
#[global] Instance MatchKind_eq_dec : EqDecision MatchKind.
Proof. solve_decision. Defined.
#[global] Instance StageClock_eq_dec : EqDecision StageClock.
Proof. solve_decision. Defined.
#[global] Instance GameDurations_eq_dec : EqDecision GameDurations.
Proof. solve_decision. Defined.
#[global] Instance Setup_eq_dec : EqDecision Setup.
Proof. solve_decision. Defined.
#[global] Instance XiaojuState_eq_dec : EqDecision XiaojuState.
Proof. solve_decision. Defined.
#[global] Instance AdjudicationReason_eq_dec : EqDecision AdjudicationReason.
Proof. solve_decision. Defined.
#[global] Instance MatchPhase_eq_dec : EqDecision MatchPhase.
Proof. solve_decision. Defined.
#[global] Instance MatchState_eq_dec : EqDecision MatchState.
Proof. solve_decision. Defined.

Definition match_state_default : MatchState := {|
  m_round := 0%Z;
  m_pos := 0%Z;
  m_player_a := 0%Z;
  m_player_b := 0%Z;
  m_group_a := [];
  m_group_b := [];
  m_order_a := None;
  m_order_b := None;
  m_xiaoju := [];
  m_score_a := 0%Z;
  m_score_b := 0%Z;
  m_state := Pending;
  m_next_game_at_ms := None;
  m_winner := None;
  m_tiebreak_index := 0;
  m_decided_at_ms := 0%Z;
  m_awaiting_submission_id := None;
  m_adjudication_reason := None;
  m_game_durations := None;
  m_match_extra_time_seconds := 0%Z;
  m_extra_time_remaining_ms := 0%Z;
|}.

(** [m.field = x]. *)
Definition set_order_a (x : option (list Z)) (m : MatchState) : MatchState :=
  {|m_round := m_round m; m_pos := m_pos m; m_player_a := m_player_a m;
      m_player_b := m_player_b m; m_group_a := m_group_a m; m_group_b := m_group_b m;
      m_order_a := x; m_order_b := m_order_b m; m_xiaoju := m_xiaoju m; m_score_a := m_score_a m;
      m_score_b := m_score_b m; m_state := m_state m; m_next_game_at_ms := m_next_game_at_ms m;
      m_winner := m_winner m; m_tiebreak_index := m_tiebreak_index m;
      m_decided_at_ms := m_decided_at_ms m;
      m_awaiting_submission_id := m_awaiting_submission_id m;
      m_adjudication_reason := m_adjudication_reason m; m_game_durations := m_game_durations m;
      m_match_extra_time_seconds := m_match_extra_time_seconds m;
      m_extra_time_remaining_ms := m_extra_time_remaining_ms m |}.
Definition set_order_b (x : option (list Z)) (m : MatchState) : MatchState :=
  {|m_round := m_round m; m_pos := m_pos m; m_player_a := m_player_a m;
      m_player_b := m_player_b m; m_group_a := m_group_a m; m_group_b := m_group_b m;
      m_order_a := m_order_a m; m_order_b := x; m_xiaoju := m_xiaoju m; m_score_a := m_score_a m;
      m_score_b := m_score_b m; m_state := m_state m; m_next_game_at_ms := m_next_game_at_ms m;
      m_winner := m_winner m; m_tiebreak_index := m_tiebreak_index m;
      m_decided_at_ms := m_decided_at_ms m;
      m_awaiting_submission_id := m_awaiting_submission_id m;
      m_adjudication_reason := m_adjudication_reason m; m_game_durations := m_game_durations m;
      m_match_extra_time_seconds := m_match_extra_time_seconds m;
      m_extra_time_remaining_ms := m_extra_time_remaining_ms m |}.
Definition set_xiaoju (x : list XiaojuState) (m : MatchState) : MatchState :=
  {|m_round := m_round m; m_pos := m_pos m; m_player_a := m_player_a m;
      m_player_b := m_player_b m; m_group_a := m_group_a m; m_group_b := m_group_b m;
      m_order_a := m_order_a m; m_order_b := m_order_b m; m_xiaoju := x; m_score_a := m_score_a m;
      m_score_b := m_score_b m; m_state := m_state m; m_next_game_at_ms := m_next_game_at_ms m;
      m_winner := m_winner m; m_tiebreak_index := m_tiebreak_index m;
      m_decided_at_ms := m_decided_at_ms m;
      m_awaiting_submission_id := m_awaiting_submission_id m;
      m_adjudication_reason := m_adjudication_reason m; m_game_durations := m_game_durations m;
      m_match_extra_time_seconds := m_match_extra_time_seconds m;
      m_extra_time_remaining_ms := m_extra_time_remaining_ms m |}.
Definition set_score_a (x : Z) (m : MatchState) : MatchState :=
  {|m_round := m_round m; m_pos := m_pos m; m_player_a := m_player_a m;
      m_player_b := m_player_b m; m_group_a := m_group_a m; m_group_b := m_group_b m;
      m_order_a := m_order_a m; m_order_b := m_order_b m; m_xiaoju := m_xiaoju m; m_score_a := x;
      m_score_b := m_score_b m; m_state := m_state m; m_next_game_at_ms := m_next_game_at_ms m;
      m_winner := m_winner m; m_tiebreak_index := m_tiebreak_index m;
      m_decided_at_ms := m_decided_at_ms m;
      m_awaiting_submission_id := m_awaiting_submission_id m;
      m_adjudication_reason := m_adjudication_reason m; m_game_durations := m_game_durations m;
      m_match_extra_time_seconds := m_match_extra_time_seconds m;
      m_extra_time_remaining_ms := m_extra_time_remaining_ms m |}.
Definition set_score_b (x : Z) (m : MatchState) : MatchState :=
  {|m_round := m_round m; m_pos := m_pos m; m_player_a := m_player_a m;
      m_player_b := m_player_b m; m_group_a := m_group_a m; m_group_b := m_group_b m;
      m_order_a := m_order_a m; m_order_b := m_order_b m; m_xiaoju := m_xiaoju m;
      m_score_a := m_score_a m; m_score_b := x; m_state := m_state m;
      m_next_game_at_ms := m_next_game_at_ms m; m_winner := m_winner m;
      m_tiebreak_index := m_tiebreak_index m; m_decided_at_ms := m_decided_at_ms m;
      m_awaiting_submission_id := m_awaiting_submission_id m;
      m_adjudication_reason := m_adjudication_reason m; m_game_durations := m_game_durations m;
      m_match_extra_time_seconds := m_match_extra_time_seconds m;
      m_extra_time_remaining_ms := m_extra_time_remaining_ms m |}.
Definition set_state (x : MatchPhase) (m : MatchState) : MatchState :=
  {|m_round := m_round m; m_pos := m_pos m; m_player_a := m_player_a m;
      m_player_b := m_player_b m; m_group_a := m_group_a m; m_group_b := m_group_b m;
      m_order_a := m_order_a m; m_order_b := m_order_b m; m_xiaoju := m_xiaoju m;
      m_score_a := m_score_a m; m_score_b := m_score_b m; m_state := x;
      m_next_game_at_ms := m_next_game_at_ms m; m_winner := m_winner m;
      m_tiebreak_index := m_tiebreak_index m; m_decided_at_ms := m_decided_at_ms m;
      m_awaiting_submission_id := m_awaiting_submission_id m;
      m_adjudication_reason := m_adjudication_reason m; m_game_durations := m_game_durations m;
      m_match_extra_time_seconds := m_match_extra_time_seconds m;
      m_extra_time_remaining_ms := m_extra_time_remaining_ms m |}.
Definition set_next_game_at_ms (x : option Z) (m : MatchState) : MatchState :=
  {|m_round := m_round m; m_pos := m_pos m; m_player_a := m_player_a m;
      m_player_b := m_player_b m; m_group_a := m_group_a m; m_group_b := m_group_b m;
      m_order_a := m_order_a m; m_order_b := m_order_b m; m_xiaoju := m_xiaoju m;
      m_score_a := m_score_a m; m_score_b := m_score_b m; m_state := m_state m;
      m_next_game_at_ms := x; m_winner := m_winner m; m_tiebreak_index := m_tiebreak_index m;
      m_decided_at_ms := m_decided_at_ms m;
      m_awaiting_submission_id := m_awaiting_submission_id m;
      m_adjudication_reason := m_adjudication_reason m; m_game_durations := m_game_durations m;
      m_match_extra_time_seconds := m_match_extra_time_seconds m;
      m_extra_time_remaining_ms := m_extra_time_remaining_ms m |}.
Definition set_winner (x : option Z) (m : MatchState) : MatchState :=
  {|m_round := m_round m; m_pos := m_pos m; m_player_a := m_player_a m;
      m_player_b := m_player_b m; m_group_a := m_group_a m; m_group_b := m_group_b m;
      m_order_a := m_order_a m; m_order_b := m_order_b m; m_xiaoju := m_xiaoju m;
      m_score_a := m_score_a m; m_score_b := m_score_b m; m_state := m_state m;
      m_next_game_at_ms := m_next_game_at_ms m; m_winner := x;
      m_tiebreak_index := m_tiebreak_index m; m_decided_at_ms := m_decided_at_ms m;
      m_awaiting_submission_id := m_awaiting_submission_id m;
      m_adjudication_reason := m_adjudication_reason m; m_game_durations := m_game_durations m;
      m_match_extra_time_seconds := m_match_extra_time_seconds m;
      m_extra_time_remaining_ms := m_extra_time_remaining_ms m |}.
Definition set_tiebreak_index (x : nat) (m : MatchState) : MatchState :=
  {|m_round := m_round m; m_pos := m_pos m; m_player_a := m_player_a m;
      m_player_b := m_player_b m; m_group_a := m_group_a m; m_group_b := m_group_b m;
      m_order_a := m_order_a m; m_order_b := m_order_b m; m_xiaoju := m_xiaoju m;
      m_score_a := m_score_a m; m_score_b := m_score_b m; m_state := m_state m;
      m_next_game_at_ms := m_next_game_at_ms m; m_winner := m_winner m; m_tiebreak_index := x;
      m_decided_at_ms := m_decided_at_ms m;
      m_awaiting_submission_id := m_awaiting_submission_id m;
      m_adjudication_reason := m_adjudication_reason m; m_game_durations := m_game_durations m;
      m_match_extra_time_seconds := m_match_extra_time_seconds m;
      m_extra_time_remaining_ms := m_extra_time_remaining_ms m |}.
Definition set_decided_at_ms (x : Z) (m : MatchState) : MatchState :=
  {|m_round := m_round m; m_pos := m_pos m; m_player_a := m_player_a m;
      m_player_b := m_player_b m; m_group_a := m_group_a m; m_group_b := m_group_b m;
      m_order_a := m_order_a m; m_order_b := m_order_b m; m_xiaoju := m_xiaoju m;
      m_score_a := m_score_a m; m_score_b := m_score_b m; m_state := m_state m;
      m_next_game_at_ms := m_next_game_at_ms m; m_winner := m_winner m;
      m_tiebreak_index := m_tiebreak_index m; m_decided_at_ms := x;
      m_awaiting_submission_id := m_awaiting_submission_id m;
      m_adjudication_reason := m_adjudication_reason m; m_game_durations := m_game_durations m;
      m_match_extra_time_seconds := m_match_extra_time_seconds m;
      m_extra_time_remaining_ms := m_extra_time_remaining_ms m |}.
Definition set_awaiting_submission_id (x : option Z) (m : MatchState) : MatchState :=
  {|m_round := m_round m; m_pos := m_pos m; m_player_a := m_player_a m;
      m_player_b := m_player_b m; m_group_a := m_group_a m; m_group_b := m_group_b m;
      m_order_a := m_order_a m; m_order_b := m_order_b m; m_xiaoju := m_xiaoju m;
      m_score_a := m_score_a m; m_score_b := m_score_b m; m_state := m_state m;
      m_next_game_at_ms := m_next_game_at_ms m; m_winner := m_winner m;
      m_tiebreak_index := m_tiebreak_index m; m_decided_at_ms := m_decided_at_ms m;
      m_awaiting_submission_id := x; m_adjudication_reason := m_adjudication_reason m;
      m_game_durations := m_game_durations m;
      m_match_extra_time_seconds := m_match_extra_time_seconds m;
      m_extra_time_remaining_ms := m_extra_time_remaining_ms m |}.
Definition set_adjudication_reason (x : option AdjudicationReason) (m : MatchState) : MatchState :=
  {|m_round := m_round m; m_pos := m_pos m; m_player_a := m_player_a m;
      m_player_b := m_player_b m; m_group_a := m_group_a m; m_group_b := m_group_b m;
      m_order_a := m_order_a m; m_order_b := m_order_b m; m_xiaoju := m_xiaoju m;
      m_score_a := m_score_a m; m_score_b := m_score_b m; m_state := m_state m;
      m_next_game_at_ms := m_next_game_at_ms m; m_winner := m_winner m;
      m_tiebreak_index := m_tiebreak_index m; m_decided_at_ms := m_decided_at_ms m;
      m_awaiting_submission_id := m_awaiting_submission_id m; m_adjudication_reason := x;
      m_game_durations := m_game_durations m;
      m_match_extra_time_seconds := m_match_extra_time_seconds m;
      m_extra_time_remaining_ms := m_extra_time_remaining_ms m |}.
Definition set_game_durations (x : option GameDurations) (m : MatchState) : MatchState :=
  {|m_round := m_round m; m_pos := m_pos m; m_player_a := m_player_a m;
      m_player_b := m_player_b m; m_group_a := m_group_a m; m_group_b := m_group_b m;
      m_order_a := m_order_a m; m_order_b := m_order_b m; m_xiaoju := m_xiaoju m;
      m_score_a := m_score_a m; m_score_b := m_score_b m; m_state := m_state m;
      m_next_game_at_ms := m_next_game_at_ms m; m_winner := m_winner m;
      m_tiebreak_index := m_tiebreak_index m; m_decided_at_ms := m_decided_at_ms m;
      m_awaiting_submission_id := m_awaiting_submission_id m;
      m_adjudication_reason := m_adjudication_reason m; m_game_durations := x;
      m_match_extra_time_seconds := m_match_extra_time_seconds m;
      m_extra_time_remaining_ms := m_extra_time_remaining_ms m |}.
Definition set_match_extra_time_seconds (x : Z) (m : MatchState) : MatchState :=
  {|m_round := m_round m; m_pos := m_pos m; m_player_a := m_player_a m;
      m_player_b := m_player_b m; m_group_a := m_group_a m; m_group_b := m_group_b m;
      m_order_a := m_order_a m; m_order_b := m_order_b m; m_xiaoju := m_xiaoju m;
      m_score_a := m_score_a m; m_score_b := m_score_b m; m_state := m_state m;
      m_next_game_at_ms := m_next_game_at_ms m; m_winner := m_winner m;
      m_tiebreak_index := m_tiebreak_index m; m_decided_at_ms := m_decided_at_ms m;
      m_awaiting_submission_id := m_awaiting_submission_id m;
      m_adjudication_reason := m_adjudication_reason m; m_game_durations := m_game_durations m;
      m_match_extra_time_seconds := x; m_extra_time_remaining_ms := m_extra_time_remaining_ms m |}.
Definition set_extra_time_remaining_ms (x : Z) (m : MatchState) : MatchState :=
  {|m_round := m_round m; m_pos := m_pos m; m_player_a := m_player_a m;
      m_player_b := m_player_b m; m_group_a := m_group_a m; m_group_b := m_group_b m;
      m_order_a := m_order_a m; m_order_b := m_order_b m; m_xiaoju := m_xiaoju m;
      m_score_a := m_score_a m; m_score_b := m_score_b m; m_state := m_state m;
      m_next_game_at_ms := m_next_game_at_ms m; m_winner := m_winner m;
      m_tiebreak_index := m_tiebreak_index m; m_decided_at_ms := m_decided_at_ms m;
      m_awaiting_submission_id := m_awaiting_submission_id m;
      m_adjudication_reason := m_adjudication_reason m; m_game_durations := m_game_durations m;
      m_match_extra_time_seconds := m_match_extra_time_seconds m; m_extra_time_remaining_ms := x |}.

(** ** Methods of [RoundDef] and [MatchState] *)

Definition post_order_wait (r : RoundDef) : Z := default 30%Z (rd_post_order_wait_seconds r).

Definition game_break (r : RoundDef) : Z :=
  default (if decide (is_Some (rd_start_at_ms r)) then 60 else 0)%Z (rd_game_break_seconds r).

Definition contains_problem (r : RoundDef) (problem : Z) : bool :=
  bool_decide (problem ∈ rd_group_a r) || bool_decide (problem ∈ rd_group_b r)
  || bool_decide (problem ∈ rd_tiebreak r).

(** Every problem of a round, group after group. *)
Definition round_problems (r : RoundDef) : list Z :=
  rd_group_a r ++ rd_group_b r ++ rd_tiebreak r.

Definition win_target (r : RoundDef) : nat :=
  default (length (rd_group_a r) / 2 + 1) (rd_wins_to_advance r).

Definition round_game_durations (r : RoundDef) : GameDurations :=
  {| gd_xiaoju_seconds := rd_xiaoju_seconds r; gd_tiebreak_seconds := rd_tiebreak_seconds r |}.

Definition is_regular_game (m : MatchState) (index : Z) : bool :=
  (Z.to_nat index <? length (m_group_a m)).

(** ** Numbering of the matches *)

Definition matches_in_round (players round : Z) : Z :=
  if (round <? 8)%Z then Z.shiftr players round else 0.

Definition round_offset (players round : Z) : Z :=
  foldl (λ acc r, wrap_u8 (acc + matches_in_round players r))%Z 0%Z (seqZ 1 (round - 1)).

Definition match_id_for (players round pos : Z) : Z :=
  wrap_u8 (round_offset players round + pos).

Definition setup_key (contest : Z) : ustring := u "setup:" ++ show contest.

Definition slot_key (contest round pos : Z) : ustring :=
  u "slot:" ++ show contest ++ u ":" ++ show round ++ u ":" ++ show pos.

Definition match_key (contest id : Z) : ustring :=
  u "match:" ++ show contest ++ u ":" ++ show id.

(** ** Methods of [Setup] *)

Definition player_count (s : Setup) : Z := wrap_u8 (Z.of_nat (length (seeds s))).

Definition match_count (s : Setup) (round : Z) : Z :=
  wrap_u8 (matches_in_round (player_count s) round
           + (if decide (is_Some (third_place s)) then
                if decide (round = Z.of_nat (length (rounds s))) then 1 else 0
              else 0))%Z.

Definition total_matches (s : Setup) : nat :=
  (length (seeds s) - 1) + (if decide (is_Some (third_place s)) then 1 else 0).

Definition match_kind (s : Setup) (round pos : Z) : MatchKind :=
  if decide (round ≠ Z.of_nat (length (rounds s))) then Elimination
  else if decide (pos = 1%Z ∧ is_Some (third_place s)) then ThirdPlace
  else Final.

(** [self.rounds.get(round.checked_sub(1)?)]. *)
Definition round_at (s : Setup) (round : Z) : option RoundDef :=
  if (round <? 1)%Z then None else rounds s !! Z.to_nat (round - 1).

Definition with_problems (r : RoundDef) (p : ThirdPlaceProblems) : RoundDef := {|
  rd_group_a := tp_group_a p;
  rd_group_b := tp_group_b p;
  rd_tiebreak := tp_tiebreak p;
  rd_wins_to_advance := rd_wins_to_advance r;
  rd_start_at_ms := rd_start_at_ms r;
  rd_post_order_wait_seconds := rd_post_order_wait_seconds r;
  rd_game_break_seconds := rd_game_break_seconds r;
  rd_match_extra_time_seconds := rd_match_extra_time_seconds r;
  rd_xiaoju_seconds := rd_xiaoju_seconds r;
  rd_tiebreak_seconds := rd_tiebreak_seconds r;
  rd_break_before_seconds := rd_break_before_seconds r;
|}.

Definition round_for_match (s : Setup) (round pos : Z) : option RoundDef :=
  base ← round_at s round;
  if (match_count s round <=? pos)%Z then None
  else if decide (match_kind s round pos = ThirdPlace) then
    match third_place s with
    | None => None
    | Some Shared => Some base
    | Some (Custom problems) => Some (with_problems base problems)
    end
  else Some base.

Definition problem_round (s : Setup) (problem : Z) : option Z :=
  match list_find (λ r, contains_problem r problem = true) (rounds s) with
  | Some (index, _) => Some (wrap_u8 (wrap_u8 (Z.of_nat index) + 1))
  | None =>
      match third_place s with
      | Some (Custom p) =>
          if decide (problem ∈ tp_group_a p ∨ problem ∈ tp_group_b p ∨ problem ∈ tp_tiebreak p)
          then Some (wrap_u8 (Z.of_nat (length (rounds s))))
          else None
      | _ => None
      end
  end.

(** [find_players_match]: the first match of the round the player is in. *)
Definition find_players_match (matches : list (Z * MatchState)) (round player : Z)
    : option MatchState :=
  snd ∘ snd <$> list_find (λ p, m_round p.2 = round ∧ (m_player_a p.2 = player ∨ m_player_b p.2 = player))
                     matches.

(** * The stored documents of a bracket

    plugins/codelink-bracket/src/storage.rs: reading and updating the setup,
    the matches and the slots that feed the next stage. *)

From S2P Require Import Float Verdict Sdk Host.

Section store.
Context `{Serde MatchState, Serde Setup}.

Definition load_match (contest id : Z) : M (option MatchState) :=
  raw ← Storage.get_one (match_key contest id);
  match raw with
  | Some raw => m ← parse_json raw; mret (Some m)
  | None => mret None
  end.

Definition load_setup (contest : Z) : M (option Setup) :=
  raw ← Storage.get_one (setup_key contest);
  match raw with
  | Some raw => s ← parse_json raw; mret (Some s)
  | None => mret None
  end.

Fixpoint scan_pages {A} (fuel : nat) (prefix : ustring) (after : option ustring)
    (visit : A → ustring → ustring → M A) (acc : A) : M A :=
  match fuel with
  | O => panic
  | S fuel =>
      page ← Storage.scan prefix after;
      if decide (page = []) then mret acc
      else
        acc ← foldl (λ acc e, acc ≫= λ a, visit a e.1 e.2) (mret acc) page;
        scan_pages fuel prefix (max_by_key id (fst <$> page)) visit acc
  end.

(** Every page is not empty and moves the cursor: the number of stored keys
    bounds the number of pages. *)
Definition scan_documents {A} (prefix : ustring) (visit : A → ustring → ustring → M A) (acc : A)
    : M A :=
  λ h, scan_pages (S (size (h_data h))) prefix None visit acc h.

Definition match_prefix (contest : Z) : ustring := u "match:" ++ show contest ++ u ":".

Definition visit_match (contest : Z) (acc : list (Z * MatchState)) (key value : ustring)
    : M (list (Z * MatchState)) :=
  rest ← unwrap (strip_prefix (match_prefix contest) key);
  match_id ← or_throw (parse_u8 rest) (Other (u "Invalid match key"));
  m ← parse_json value;
  mret (acc ++ [(match_id, m)]).

Definition load_all_matches (contest : Z) : M (list (Z * MatchState)) :=
  matches ← scan_documents (match_prefix contest) (visit_match contest) [];
  mret (sort_by_key fst matches).

Definition update_match (contest id : Z) (f : MatchState → M MatchState) : M MatchState :=
  Storage.modify (match_key contest id) match_state_default f.

(** The match a pair of players starts with. *)
Definition new_match (round pos player_a player_b : Z) (round_def : RoundDef) : MatchState := {|
  m_round := round;
  m_pos := pos;
  m_player_a := player_a;
  m_player_b := player_b;
  m_group_a := rd_group_a round_def;
  m_group_b := rd_group_b round_def;
  m_order_a := None;
  m_order_b := None;
  m_xiaoju := [];
  m_score_a := 0%Z;
  m_score_b := 0%Z;
  m_state := Ordering;
  m_next_game_at_ms := None;
  m_winner := None;
  m_tiebreak_index := 0;
  m_decided_at_ms := 0%Z;
  m_awaiting_submission_id := None;
  m_adjudication_reason := None;
  m_game_durations := None;
  m_match_extra_time_seconds := 0%Z;
  m_extra_time_remaining_ms := 0%Z;
|}.

Definition slot_error (key : ustring) : SdkError :=
  Other (u "slot " ++ key ++ u " holds a non-integer player id").

(** The players of a match: two neighbours of the seeding in the first stage,
    afterwards the two slots written by the matches that feed it. *)
Definition slot_players (contest : Z) (setup : Setup) (round pos : Z) : M (option (Z * Z)) :=
  if (round =? 1)%Z then
    match seeds setup !! Z.to_nat (pos * 2), seeds setup !! Z.to_nat (pos * 2 + 1) with
    | Some a, Some b => mret (Some (a, b))
    | _, _ => throw (Other (u "Invalid first-stage position"))
    end
  else
    let key_a := slot_key contest round (wrap_u8 (pos * 2)) in
    let key_b := slot_key contest round (wrap_u8 (wrap_u8 (pos * 2) + 1)) in
    a ← Storage.get_one key_a;
    b ← Storage.get_one key_b;
    match a, b with
    | Some a, Some b =>
        player_a ← or_throw (parse_i32 a) (slot_error key_a);
        player_b ← or_throw (parse_i32 b) (slot_error key_b);
        mret (Some (player_a, player_b))
    | _, _ => mret None
    end.

Definition create_match_if_both_slots_filled (contest : Z) (setup : Setup) (round pos : Z)
    : M unit :=
  players ← slot_players contest setup round pos;
  match players with
  | None => mret tt
  | Some (player_a, player_b) =>
      round_def ← or_throw (round_for_match setup round pos)
                    (Other (u "setup has no RoundDef for round " ++ show round));
      let m := new_match round pos player_a player_b round_def in
      _ ← Storage.compare_and_set
            (match_key contest (match_id_for (player_count setup) round pos)) None (to_json m);
      mret tt
  end.

End store.
