(* ===== verification/BracketDecide.v ===== *)
(** * BracketDecide: deciding a game, then a match

    The two idempotent functions of plugins/codelink-bracket/src/decide.rs and
    the scoring rules they share with the feedback shown to players
    (plugins/codelink-bracket/src/feedback.rs). *)

From S2P Require Import Prelude Text Verdict BracketModel.

Open Scope machine_scope.

(** ** Submissions *)

Record SubmissionRecord := {
  sr_submission_id : Z;
  sr_user_id : Z;
  sr_problem_id : Z;
  sr_submitted_at_us : Z;
  sr_effective_at_us : Z;
  sr_verdict : option Verdict;
  sr_status : SubmissionLifecycle;
}.

Definition is_in_flight (status : SubmissionLifecycle) : bool :=
  match status with Judged | CompilationError => false | _ => true end.

Definition arrival_order (s : SubmissionRecord) : Z * Z :=
  (sr_effective_at_us s, sr_submission_id s).

Definition submission_in_flight (s : SubmissionRecord) : bool :=
  is_in_flight (sr_status s) || bool_decide (sr_verdict s = Some SystemError).

Definition oldest_in_flight (subs : list SubmissionRecord) : option Z :=
  sr_submission_id <$>
    min_by_key arrival_order (filter (λ s, submission_in_flight s = true) subs).

(** ** Penalties (feedback.rs) *)

Definition PENALTY_VERDICTS : list Verdict :=
  [WrongAnswer; TimeLimitExceeded; MemoryLimitExceeded; RuntimeError].

Definition counts_as_penalty (sub : SubmissionRecord) : bool :=
  bool_decide (sr_status sub = Judged) &&
  match sr_verdict sub with
  | Some verdict => bool_decide (verdict ∈ PENALTY_VERDICTS)
  | None => false
  end.

Definition score_delay_seconds (m : MatchState) (count penalty : Z) : Z :=
  match last (m_xiaoju m) with
  | Some game => if is_regular_game m (x_index game) then count *s penalty else 0%Z
  | None => 0%Z
  end.

Definition game_scope (contest match_id index : Z) : ustring :=
  u "game:" ++ show contest ++ u ":" ++ show match_id ++ u ":" ++ show index.

Definition player_slot (contest user : Z) : ustring := show contest ++ u ":" ++ show user.

(** ** Settlement *)

Definition in_current_game (m : MatchState) (s : SubmissionRecord) : bool :=
  match last (m_xiaoju m) with
  | Some game => contains_submission_at_us game (sr_submitted_at_us s)
  | None => false
  end.

Definition opponent_of (m : MatchState) (user : Z) : Z :=
  if decide (user = m_player_a m) then m_player_b m else m_player_a m.

Definition penalty_count (m : MatchState) (subs : list SubmissionRecord) (player : Z) : nat :=
  length (filter (λ s, (bool_decide (sr_user_id s = player) && counts_as_penalty s
                        && in_current_game m s) = true) subs).

Definition ac_settlement_at_us (m : MatchState) (subs : list SubmissionRecord)
    (ac : SubmissionRecord) (penalty : Z) : Z :=
  let opponent := opponent_of m (sr_user_id ac) in
  let delay := score_delay_seconds m (Z.of_nat (penalty_count m subs opponent)) penalty in
  sr_effective_at_us ac -s (delay *s 1000000).

(** ** One game *)

Inductive XiaojuOutcome :=
  | XNotYet
  | XDecided (winner : option Z)
  | XAwaitingJudge (blocking_submission_id : Z).

#[global] Instance XiaojuOutcome_eq_dec : EqDecision XiaojuOutcome.
Proof. solve_decision. Defined.

(** [i64::clamp], which panics when the bounds are crossed. *)
Definition clamp (lo hi x : Z) : option Z :=
  if (lo <=? hi)%Z then Some (Z.max lo (Z.min hi x)) else None.

Definition eligible (game : XiaojuState) (cutoff_ms : Z) (s : SubmissionRecord) : bool :=
  contains_submission_at_us game (sr_submitted_at_us s)
  && (sr_submitted_at_us s <? cutoff_ms * 1000)%Z.

Definition is_solved (s : SubmissionRecord) : bool :=
  negb (submission_in_flight s) && bool_decide (sr_verdict s = Some Accepted).

Definition best_ac (game : XiaojuState) (cutoff_ms : Z) (subs : list SubmissionRecord)
    : option SubmissionRecord :=
  min_by_key arrival_order
    (filter (λ s, is_solved s = true) (filter (λ s, eligible game cutoff_ms s = true) subs)).

(** The oldest unresolved submission among those that arrived before [ac]
    (all of them when there is no [ac]). *)
Definition blocker (game : XiaojuState) (cutoff_ms : Z) (subs : list SubmissionRecord)
    (ac : option SubmissionRecord) : option SubmissionRecord :=
  min_by_key arrival_order
    (filter (λ s, (submission_in_flight s
                   && match ac with
                      | Some ac => klt (arrival_order s) (arrival_order ac)
                      | None => true
                      end) = true)
       (filter (λ s, eligible game cutoff_ms s = true) subs)).

Definition close_game (winner : option Z) (used : Z) (game : XiaojuState) : XiaojuState := {|
  x_index := x_index game;
  x_opened_at_ms := x_opened_at_ms game;
  x_base_deadline_ms := x_base_deadline_ms game;
  x_deadline_ms := x_deadline_ms game;
  x_extra_time_used_ms := used;
  x_winner := winner;
  x_decided := true;
|}.

(** [if let Some(slot) = v.last_mut() { *slot = f(slot) }]. *)
Definition update_last {A} (f : A → A) (l : list A) : list A := alter f (length l - 1) l.

(** The end of [decide_game_at_cutoff]: charge the extra time, close the game
    and count the point. *)
Definition record_result (m : MatchState) (game : XiaojuState) (winner : option Z)
    (ended_at_ms : Z) : option (XiaojuOutcome * MatchState) :=
  used ← (if is_regular_game m (x_index game)
          then clamp 0 (m_extra_time_remaining_ms m)
                 (ended_at_ms -s xiaoju_base_deadline_ms game)
          else Some 0%Z);
  let m := set_extra_time_remaining_ms (wrap64 (m_extra_time_remaining_ms m - used)) m in
  let m := set_xiaoju (update_last (close_game winner used) (m_xiaoju m)) m in
  let m :=
    match winner with
    | Some uid =>
        if decide (uid = m_player_a m) then set_score_a (wrap_u8 (m_score_a m + 1)) m
        else if decide (uid = m_player_b m) then set_score_b (wrap_u8 (m_score_b m + 1)) m
        else m
    | None => m
    end in
  Some (XDecided winner, m).

(** [None] is a panic. *)
Definition decide_game_at_cutoff (m : MatchState) (subs : list SubmissionRecord)
    (now_ms cutoff_ms penalty : Z) : option (XiaojuOutcome * MatchState) :=
  match last (m_xiaoju m) with
  | None => Some (XNotYet, m)
  | Some current =>
      if x_decided current then Some (XDecided (x_winner current), m)
      else
        match best_ac current cutoff_ms subs with
        | Some ac =>
            if ((now_ms <? cutoff_ms) && (now_ms *s 1000 <? ac_settlement_at_us m subs ac penalty))%Z
            then Some (XNotYet, m)
            else
              match blocker current cutoff_ms subs (Some ac) with
              | Some b =>
                  if (now_ms <? x_deadline_ms current)%Z then Some (XNotYet, m)
                  else Some (XAwaitingJudge (sr_submission_id b), m)
              | None =>
                  record_result m current (Some (sr_user_id ac))
                    (Z.quot (sr_submitted_at_us ac) 1000)
              end
        | None =>
            if (now_ms <? x_deadline_ms current)%Z then Some (XNotYet, m)
            else
              match blocker current cutoff_ms subs None with
              | Some b => Some (XAwaitingJudge (sr_submission_id b), m)
              | None => record_result m current None (x_deadline_ms current)
              end
        end
  end.

Definition decide_xiaoju (m : MatchState) (subs : list SubmissionRecord) (now_ms penalty : Z)
    : option (XiaojuOutcome * MatchState) :=
  let cutoff_ms := match last (m_xiaoju m) with
                   | Some game => x_deadline_ms game
                   | None => now_ms
                   end in
  decide_game_at_cutoff m subs now_ms cutoff_ms penalty.

(** ** One match *)

Inductive MatchOutcome :=
  | MNotYet
  | MDecided (winner : Z)
  | MOpenTiebreak (problem_id : Z)
  | MNeedsAdjudication.

#[global] Instance MatchOutcome_eq_dec : EqDecision MatchOutcome.
Proof. solve_decision. Defined.

Definition decided_for (winner : Z) (m : MatchState) : MatchOutcome * MatchState :=
  (MDecided winner, set_winner (Some winner) (set_state Decided m)).

Definition adjudicate (reason : AdjudicationReason) (m : MatchState) : MatchState :=
  set_adjudication_reason (Some reason) (set_state NeedsAdjudication m).

(** The arm for a match whose last game is a tiebreak. *)
Definition decide_tiebreak (m : MatchState) (round_def : RoundDef) : MatchOutcome * MatchState :=
  match last (m_xiaoju m) with
  | None => (MNotYet, m)
  | Some current =>
      if negb (x_decided current) then (MNotYet, m)
      else
        match x_winner current with
        | Some winner => decided_for winner m
        | None =>
            let next_index := S (m_tiebreak_index m) in
            match rd_tiebreak round_def !! next_index with
            | Some problem_id => (MOpenTiebreak problem_id, set_tiebreak_index next_index m)
            | None => (MNeedsAdjudication, adjudicate TiebreakExhausted m)
            end
        end
  end.

Definition decide_regular (m : MatchState) (round_def : RoundDef) : MatchOutcome * MatchState :=
  if bool_decide (m_xiaoju m = []) || existsb (λ x, negb (x_decided x)) (m_xiaoju m)
  then (MNotYet, m)
  else
    let target_reached := win_target round_def <=? Z.to_nat (Z.max (m_score_a m) (m_score_b m)) in
    if negb target_reached && (length (m_xiaoju m) <? length (m_group_a m)) then (MNotYet, m)
    else
      match Z.compare (m_score_a m) (m_score_b m) with
      | Gt => decided_for (m_player_a m) m
      | Lt => decided_for (m_player_b m) m
      | Eq =>
          match head (rd_tiebreak round_def) with
          | Some problem_id =>
              (MOpenTiebreak problem_id, set_tiebreak_index 0 (set_state Tiebreak m))
          | None => (MNeedsAdjudication, adjudicate TiebreakExhausted m)
          end
      end.

Definition decide_match (m : MatchState) (setup : Setup) : MatchOutcome * MatchState :=
  match m_state m with
  | Decided => (MDecided (default (m_player_a m) (m_winner m)), m)
  | NeedsAdjudication => (MNeedsAdjudication, m)
  | _ =>
      match round_for_match setup (m_round m) (m_pos m) with
      | None => (MNeedsAdjudication, adjudicate SetupMissing m)
      | Some round_def =>
          if decide (m_state m = Tiebreak) then decide_tiebreak m round_def
          else decide_regular m round_def
      end
  end.
