(* ===== verification/BracketDecideProofs.v ===== *)
(** * BracketDecideProofs: what the decision functions guarantee

    One game is decided for the earliest effective accepted submission, once
    nothing that exists or can still be submitted may overtake it; a match ends
    with a participant as its winner or in the hands of the staff. *)

From S2P Require Import Prelude Text Verdict BracketModel BracketDecide.

Open Scope machine_scope.

(** ** Selection lemmas *)

Lemma elem_of_filter_bool {A} (f : A → bool) (l : list A) x :
  x ∈ filter (λ y, f y = true) l ↔ f x = true ∧ x ∈ l.
Proof. rewrite list_elem_of_filter. done. Qed.

Lemma min_by_key_none_filter {A K} `{Ord K} (key : A → K) (f : A → bool) l :
  min_by_key key (filter (λ y, f y = true) l) = None ↔ ∀ x, x ∈ l → f x = false.
Proof.
  rewrite min_by_key_None. split.
  - intros E x Hx. apply not_true_iff_false. intros Hf.
    assert (x ∈ filter (λ y, f y = true) l) as Hin by (by apply elem_of_filter_bool).
    rewrite E in Hin. by apply not_elem_of_nil in Hin.
  - intros Hf. destruct (filter _ l) as [|x r] eqn:E; [done|].
    assert (x ∈ filter (λ y, f y = true) l) as Hin by (rewrite E; left).
    apply elem_of_filter_bool in Hin as [Hx Hl]. by rewrite Hf in Hx.
Qed.

Definition contender (game : XiaojuState) (cutoff : Z) (subs : list SubmissionRecord)
    (s : SubmissionRecord) : Prop := s ∈ subs ∧ eligible game cutoff s = true.

Lemma best_ac_Some game cutoff subs ac :
  best_ac game cutoff subs = Some ac →
  contender game cutoff subs ac ∧ is_solved ac = true ∧
  ∀ s, contender game cutoff subs s → is_solved s = true →
       kle (arrival_order ac) (arrival_order s) = true.
Proof.
  unfold best_ac, contender. intros [Hin Hmin]%min_by_key_Some.
  apply elem_of_filter_bool in Hin as [Hs [He Hin]%elem_of_filter_bool].
  split_and!; try done. intros s [Hs' He'] Hsolved. apply Hmin.
  by rewrite !elem_of_filter_bool.
Qed.

Lemma best_ac_None game cutoff subs s :
  best_ac game cutoff subs = None → contender game cutoff subs s → is_solved s = false.
Proof.
  unfold best_ac. rewrite min_by_key_none_filter. intros Hno [Hin He]. apply Hno.
  by apply elem_of_filter_bool.
Qed.

Lemma blocker_Some game cutoff subs ac b :
  blocker game cutoff subs ac = Some b →
  contender game cutoff subs b ∧ submission_in_flight b = true ∧
  (∀ a, ac = Some a → klt (arrival_order b) (arrival_order a) = true) ∧
  ∀ s, contender game cutoff subs s → submission_in_flight s = true →
       kle (arrival_order b) (arrival_order s) = true.
Proof.
  unfold blocker, contender. intros [Hin Hmin]%min_by_key_Some.
  apply elem_of_filter_bool in Hin as [[Hf Hac]%andb_prop [He Hin]%elem_of_filter_bool].
  split_and!; try done.
  { intros a ->. exact Hac. }
  intros s [Hs' He'] Hflight.
  destruct ac as [a|].
  - destruct (klt (arrival_order s) (arrival_order a)) eqn:E.
    + apply Hmin. rewrite !elem_of_filter_bool, Hflight, E. done.
    + apply klt_false in E. eapply kle_trans; [|exact E]. by apply klt_kle.
  - apply Hmin. rewrite !elem_of_filter_bool, Hflight. done.
Qed.

Lemma blocker_None game cutoff subs ac s :
  blocker game cutoff subs ac = None → contender game cutoff subs s →
  submission_in_flight s = true →
  match ac with Some a => kle (arrival_order a) (arrival_order s) = true | None => False end.
Proof.
  unfold blocker. rewrite min_by_key_none_filter. intros Hno [Hin He] Hflight.
  specialize (Hno s). rewrite elem_of_filter_bool in Hno. specialize (Hno (conj He Hin)).
  rewrite Hflight in Hno. destruct ac as [a|]; [|done]. by apply klt_false.
Qed.

(** ** Recording a result *)

Lemma clamp_Some lo hi x r : clamp lo hi x = Some r → (lo ≤ r ≤ hi)%Z.
Proof. unfold clamp. destruct (Z.leb_spec lo hi); [|done]. intros [= <-]. lia. Qed.

Lemma last_update_last {A} (f : A → A) l x : last l = Some x → last (update_last f l) = Some (f x).
Proof.
  intros H. unfold update_last. rewrite last_lookup, length_alter.
  destruct l as [|y l]; [done|]. rewrite last_lookup in H.
  replace (length (y :: l) - 1) with (pred (length (y :: l))) by (simpl; lia).
  by rewrite list_lookup_alter_eq, H.
Qed.

Lemma last_inv {A} (l : list A) x : last l = Some x → ∃ init, l = init ++ [x].
Proof. intros Hl. apply last_Some in Hl as [init ->]. by exists init. Qed.

Lemma update_last_snoc {A} (f : A → A) init x : update_last f (init ++ [x]) = init ++ [f x].
Proof.
  unfold update_last. rewrite length_app. cbn. rewrite Nat.add_sub.
  by rewrite alter_app_r_alt, Nat.sub_diag by lia.
Qed.

Lemma length_update_last {A} (f : A → A) l : length (update_last f l) = length l.
Proof. apply length_alter. Qed.

(** Everything a result changes, and nothing else. *)
Record recorded (m m' : MatchState) (game : XiaojuState) (w : option Z) : Prop := {
  rec_games : ∃ used, m_xiaoju m' = update_last (close_game w used) (m_xiaoju m) ∧
    (0 ≤ m_extra_time_remaining_ms m ≤ i64_max →
     0 ≤ used ∧ 0 ≤ m_extra_time_remaining_ms m' ∧
     m_extra_time_remaining_ms m' + used = m_extra_time_remaining_ms m)%Z;
  rec_length : length (m_xiaoju m') = length (m_xiaoju m);
  rec_score : m_score_a m' = (if decide (w = Some (m_player_a m))
                             then wrap_u8 (m_score_a m + 1) else m_score_a m) ∧
              m_score_b m' = (if decide (w = Some (m_player_b m) ∧ m_player_b m ≠ m_player_a m)
                             then wrap_u8 (m_score_b m + 1) else m_score_b m);
  rec_players : m_player_a m' = m_player_a m ∧ m_player_b m' = m_player_b m;
  rec_state : m_state m' = m_state m ∧ m_winner m' = m_winner m;
  rec_place : m_round m' = m_round m ∧ m_pos m' = m_pos m ∧
              m_group_a m' = m_group_a m ∧ m_tiebreak_index m' = m_tiebreak_index m ∧
              m_match_extra_time_seconds m' = m_match_extra_time_seconds m;
}.

Lemma record_result_recorded m game w ended o m' :
  last (m_xiaoju m) = Some game → record_result m game w ended = Some (o, m') →
  o = XDecided w ∧ recorded m m' game w.
Proof.
  intros Hlast. unfold record_result. intros (used & Hused & E)%bind_Some.
  injection E as <- <-. split; [done|].
  assert (0 ≤ m_extra_time_remaining_ms m ≤ i64_max → 0 ≤ used ∧
    0 ≤ wrap64 (m_extra_time_remaining_ms m - used) ∧
    wrap64 (m_extra_time_remaining_ms m - used) + used = m_extra_time_remaining_ms m)%Z as Hr.
  { intros Hpos. assert (0 ≤ used ≤ m_extra_time_remaining_ms m)%Z.
    { destruct (is_regular_game m (x_index game)); [by eapply clamp_Some|].
      injection Hused as <-. lia. }
    rewrite wrap64_id by mlia. lia. }
  pose proof (length_update_last (close_game w used) (m_xiaoju m)) as Hlen.
  destruct w as [uid|]; [|by split; [exists used|..]].
  cbn. destruct (decide (uid = m_player_a m)) as [->|Ha].
  { split; cbn; try done; [by exists used|]. rewrite decide_True, decide_False by naive_solver. done. }
  destruct (decide (uid = m_player_b m)) as [->|Hb];
    (split; cbn; try done; [by exists used|]).
  - rewrite decide_False, decide_True by naive_solver. done.
  - rewrite !decide_False by naive_solver. done.
Qed.

(** The extra time a game that ended at [ended] has used: in a regular game, what
    it ran past its own time, up to what the match had left; none in a tiebreak. *)
Definition extra_time_spent (m : MatchState) (game : XiaojuState) (ended : Z) : Z :=
  if is_regular_game m (x_index game)
  then Z.max 0 (Z.min (m_extra_time_remaining_ms m) (ended - xiaoju_base_deadline_ms game))
  else 0.

(** It is charged to the match once, and noted in the game. *)
Definition charged (m m' : MatchState) (game : XiaojuState) (w : option Z) (ended : Z) : Prop :=
  (0 ≤ m_extra_time_remaining_ms m ≤ i64_max)%Z →
  m_xiaoju m' = update_last (close_game w (extra_time_spent m game ended)) (m_xiaoju m)
  ∧ m_extra_time_remaining_ms m' = (m_extra_time_remaining_ms m - extra_time_spent m game ended)%Z.

Lemma record_result_charged m game w ended o m' :
  record_result m game w ended = Some (o, m') → charged m m' game w ended.
Proof.
  unfold record_result. intros (used & Hused & E)%bind_Some Hpos.
  assert (used = extra_time_spent m game ended) as ->.
  { unfold extra_time_spent. destruct (is_regular_game m (x_index game)); [|by injection Hused].
    unfold clamp in Hused. destruct (Z.leb_spec 0 (m_extra_time_remaining_ms m)); [|done].
    injection Hused as <-. mlia. }
  assert (0 ≤ extra_time_spent m game ended ≤ m_extra_time_remaining_ms m)%Z as Hr.
  { unfold extra_time_spent. case_match; lia. }
  injection E as <- <-. rewrite wrap64_id by mlia.
  destruct w as [uid|]; [repeat case_decide|]; by split.
Qed.

Lemma record_result_total m game w ended :
  (0 ≤ m_extra_time_remaining_ms m)%Z → is_Some (record_result m game w ended).
Proof.
  intros Hpos. unfold record_result.
  destruct (is_regular_game m (x_index game)); cbn; [|done].
  unfold clamp. destruct (Z.leb_spec 0 (m_extra_time_remaining_ms m)); [done|lia].
Qed.

(** ** One game *)

(** What an outcome says about the submissions it was computed from. *)
Definition outcome_sound (m : MatchState) (game : XiaojuState) (subs : list SubmissionRecord)
    (now cutoff penalty : Z) (o : XiaojuOutcome) (m' : MatchState) : Prop :=
  match o with
  | XDecided (Some w) =>
      recorded m m' game (Some w) ∧
      ∃ ac, contender game cutoff subs ac ∧ is_solved ac = true ∧ sr_user_id ac = w ∧
        (∀ s, contender game cutoff subs s →
              is_solved s = true ∨ submission_in_flight s = true →
              kle (arrival_order ac) (arrival_order s) = true) ∧
        (cutoff ≤ now ∨ ac_settlement_at_us m subs ac penalty ≤ now *s 1000)%Z ∧
        charged m m' game (Some w) (Z.quot (sr_submitted_at_us ac) 1000)
  | XDecided None =>
      recorded m m' game None ∧ (x_deadline_ms game ≤ now)%Z ∧
      (∀ s, contender game cutoff subs s → is_solved s = false ∧ submission_in_flight s = false) ∧
      charged m m' game None (x_deadline_ms game)
  | XAwaitingJudge b =>
      m' = m ∧ (x_deadline_ms game ≤ now)%Z ∧
      ∃ s, contender game cutoff subs s ∧ submission_in_flight s = true ∧
        sr_submission_id s = b ∧
        (∀ s', contender game cutoff subs s' →
               is_solved s' = true ∨ submission_in_flight s' = true →
               kle (arrival_order s) (arrival_order s') = true)
  | XNotYet => m' = m ∧ (now < cutoff ∨ now < x_deadline_ms game)%Z
  end.

Lemma game_decision_inv m subs now cutoff penalty game o m' :
  last (m_xiaoju m) = Some game → x_decided game = false →
  decide_game_at_cutoff m subs now cutoff penalty = Some (o, m') →
  outcome_sound m game subs now cutoff penalty o m'.
Proof.
  intros Hlast Hopen. unfold decide_game_at_cutoff. rewrite Hlast, Hopen.
  destruct (best_ac game cutoff subs) as [ac|] eqn:Hac.
  - destruct (best_ac_Some _ _ _ _ Hac) as (Hcon & Hsol & Hmin).
    destruct (andb _ _) eqn:Hwait.
    { intros [= <- <-]. apply andb_prop in Hwait as [?%Z.ltb_lt _]. cbn. auto. }
    destruct (blocker game cutoff subs (Some ac)) as [b|] eqn:Hb.
    + destruct (blocker_Some _ _ _ _ _ Hb) as (Hconb & Hfl & Hlt & Hold).
      destruct (Z.ltb_spec now (x_deadline_ms game)); intros [= <- <-]; cbn; [auto|].
      split_and!; [done..|]. exists b. split_and!; [apply Hconb..|done|done|].
      intros s Hs [Hss|Hss]; [|by apply Hold]. eapply kle_trans; [|by apply Hmin].
      apply klt_kle, Hlt. done.
    + intros Hrr. pose proof (record_result_charged _ _ _ _ _ _ Hrr) as Hch. revert Hrr.
      intros [-> Hrec]%record_result_recorded; [|done]. cbn. split; [done|].
      exists ac. split_and!; [apply Hcon..|done|done| | |done].
      * intros s Hs [Hss|Hss]; [by apply Hmin|]. exact (blocker_None _ _ _ _ _ Hb Hs Hss).
      * apply andb_false_iff in Hwait as [?%Z.ltb_ge|?%Z.ltb_ge]; auto.
  - destruct (Z.ltb_spec now (x_deadline_ms game)); [intros [= <- <-]; cbn; auto|].
    destruct (blocker game cutoff subs None) as [b|] eqn:Hb.
    + destruct (blocker_Some _ _ _ _ _ Hb) as (Hconb & Hfl & _ & Hold).
      intros [= <- <-]. cbn. split_and!; [done..|]. exists b.
      split_and!; [apply Hconb..|done|done|].
      intros s Hs [Hss|Hss]; [|by apply Hold].
      by rewrite (best_ac_None _ _ _ _ Hac Hs) in Hss.
    + intros Hrr. pose proof (record_result_charged _ _ _ _ _ _ Hrr) as Hch. revert Hrr.
      intros [-> Hrec]%record_result_recorded; [|done]. cbn. split_and!; [done..| |done].
      intros s Hs. split; [by apply (best_ac_None _ _ _ _ Hac)|].
      apply not_true_iff_false. intros Hss. exact (blocker_None _ _ _ _ _ Hb Hs Hss).
Qed.

(** C28. A game is decided for the right player.  The outcome of an open game
    names as winner the player of the accepted submission with the earliest
    effective time, and only when no submission of the window that is accepted
    or still being judged comes before it; it ends without a winner only after
    the deadline with nothing accepted and nothing being judged; it waits for
    the judge only after the deadline, on the oldest submission that matters;
    and as long as it is not decided, the match is unchanged.  The match is charged
    exactly the extra time the game used: what a regular game ran past its own time
    until the winning submission was made, whatever its effective time or the time
    of its verdict, or until the deadline without a winner, up to what was left,
    which is not negative. *)
Theorem game_decision_sound m subs now cutoff penalty game o m' :
  last (m_xiaoju m) = Some game → x_decided game = false →
  decide_game_at_cutoff m subs now cutoff penalty = Some (o, m') →
  outcome_sound m game subs now cutoff penalty o m'.
Proof. apply game_decision_inv. Qed.

(** Deciding a game is idempotent: once an outcome is recorded, deciding
    again, at any time and from any submissions, reports the same outcome and
    changes nothing. *)
Theorem game_decision_idempotent m subs now cutoff penalty w m' :
  decide_game_at_cutoff m subs now cutoff penalty = Some (XDecided w, m') →
  ∀ subs2 now2 cutoff2 penalty2,
    decide_game_at_cutoff m' subs2 now2 cutoff2 penalty2 = Some (XDecided w, m').
Proof.
  intros Hd subs2 now2 cutoff2 penalty2.
  destruct (last (m_xiaoju m)) as [game|] eqn:Hlast.
  2: { unfold decide_game_at_cutoff in Hd. by rewrite Hlast in Hd. }
  destruct (x_decided game) eqn:Hopen.
  { unfold decide_game_at_cutoff in Hd |- *. rewrite Hlast, Hopen in Hd.
    injection Hd as <- <-. by rewrite Hlast, Hopen. }
  pose proof (game_decision_inv _ _ _ _ _ _ _ _ Hlast Hopen Hd) as Hs.
  assert (recorded m m' game w) as [(used & Hl & _) _ _ _ _ _].
  { destruct w; apply Hs. }
  unfold decide_game_at_cutoff. by rewrite Hl, (last_update_last _ _ game).
Qed.

(** After its deadline a game never waits in silence: with a budget of extra
    time that is not negative, deciding does not panic, and from the deadline
    on it either decides the game or names the submission it waits for. *)
Theorem game_decision_progress m subs now cutoff penalty game :
  last (m_xiaoju m) = Some game → (0 ≤ m_extra_time_remaining_ms m)%Z →
  ∃ o m', decide_game_at_cutoff m subs now cutoff penalty = Some (o, m') ∧
    ((cutoff ≤ now)%Z → (x_deadline_ms game ≤ now)%Z → o ≠ XNotYet).
Proof.
  intros Hlast Hpos.
  assert (is_Some (decide_game_at_cutoff m subs now cutoff penalty)) as [[o m'] Hd].
  { unfold decide_game_at_cutoff. rewrite Hlast.
    destruct (x_decided game); [done|].
    destruct (best_ac _ _ _); [destruct (andb _ _); [done|]|destruct (_ <? _)%Z; [done|]];
      (destruct (blocker _ _ _ _); [try (destruct (_ <? _)%Z); done|]);
      by apply record_result_total. }
  exists o, m'. split; [done|]. intros Hcut Hdl ->.
  destruct (x_decided game) eqn:Hopen.
  { unfold decide_game_at_cutoff in Hd. by rewrite Hlast, Hopen in Hd. }
  pose proof (game_decision_inv _ _ _ _ _ _ _ _ Hlast Hopen Hd) as [_ ?]. lia.
Qed.

(** ** A winner is final *)

(** [s'] is the submission [s] at a later time: what was resolved stays. *)
Definition settles (s s' : SubmissionRecord) : Prop :=
  arrival_order s' = arrival_order s ∧ sr_user_id s' = sr_user_id s ∧
  sr_submitted_at_us s' = sr_submitted_at_us s ∧
  (submission_in_flight s = false → s' = s).

(** A submission admitted from [now] on: it has a larger id, and its effective
    time carries at least the penalty its player has already collected. *)
Definition admitted_later (m : MatchState) (subs : list SubmissionRecord) (now penalty : Z)
    (n : SubmissionRecord) : Prop :=
  (now * 1000 ≤ sr_submitted_at_us n)%Z ∧ in_i64 (sr_submitted_at_us n) ∧
  (sr_user_id n = m_player_a m ∨ sr_user_id n = m_player_b m) ∧
  (∀ s, s ∈ subs → sr_submission_id s < sr_submission_id n)%Z ∧
  ∃ delay, (0 ≤ score_delay_seconds m (Z.of_nat (penalty_count m subs (sr_user_id n))) penalty
              ≤ delay)%Z ∧
    sr_effective_at_us n = sr_submitted_at_us n +s (delay *s 1000000).

Definition record_ok (m : MatchState) (s : SubmissionRecord) : Prop :=
  in_i64 (sr_effective_at_us s) ∧
  (sr_user_id s = m_player_a m ∨ sr_user_id s = m_player_b m).

Lemma arrival_kle s t :
  kle (arrival_order s) (arrival_order t) = true ↔
  (sr_effective_at_us s < sr_effective_at_us t ∨
   sr_effective_at_us s = sr_effective_at_us t ∧ sr_submission_id s ≤ sr_submission_id t)%Z.
Proof.
  unfold arrival_order, kle, Ord_prod, kle, Ord_Z. cbn.
  destruct (Z.leb_spec (sr_effective_at_us s) (sr_effective_at_us t)),
    (Z.leb_spec (sr_effective_at_us t) (sr_effective_at_us s)); rewrite ?Z.leb_le; lia.
Qed.

(** Once settled, an accepted submission precedes whatever the opponent may
    still submit. *)
Lemma settlement_protects m subs now penalty ac n :
  in_i64 (sr_effective_at_us ac) → ac ∈ subs → sr_user_id n = opponent_of m (sr_user_id ac) →
  (ac_settlement_at_us m subs ac penalty ≤ now *s 1000)%Z →
  admitted_later m subs now penalty n →
  kle (arrival_order n) (arrival_order ac) = false.
Proof.
  intros Heff Hin Hopp Hset (Hnow & Hsub & _ & Hid & delay & Hdelay & Heffn).
  apply not_true_iff_false. rewrite arrival_kle. specialize (Hid ac Hin).
  unfold ac_settlement_at_us in Hset. rewrite <- Hopp in Hset.
  set (D := score_delay_seconds _ _ _) in *.
  assert (sr_effective_at_us ac ≤ sr_effective_at_us n)%Z; [|lia].
  rewrite Heffn. mlia.
Qed.

Lemma settles_contender subs subs' news game cutoff ac :
  Forall2 settles subs subs' → contender game cutoff subs ac → is_solved ac = true →
  contender game cutoff (subs' ++ news) ac.
Proof.
  intros Hf [[i Hi]%list_elem_of_lookup He] Hsol. split; [|done].
  destruct (Forall2_lookup_l _ _ _ _ _ Hf Hi) as (ac' & Hi' & _ & _ & _ & Hsame).
  unfold is_solved in Hsol. apply andb_prop in Hsol as [Hfl%negb_true_iff _].
  rewrite (Hsame Hfl) in Hi'. apply elem_of_app. left. by eapply list_elem_of_lookup_2.
Qed.

(** C24. A recorded winner is final.  Take the moment a game is decided for [w],
    and decide the game afresh at any later time with any way the submissions
    still being judged may have been resolved and any submissions admitted in
    between: no other winner, and no scoreless end, can come out. *)
Theorem settled_winner_final m subs now cutoff penalty game w m' :
  last (m_xiaoju m) = Some game → x_decided game = false →
  Forall (record_ok m) subs → NoDup (sr_submission_id <$> subs) →
  decide_game_at_cutoff m subs now cutoff penalty = Some (XDecided (Some w), m') →
  ∀ subs' news now' penalty' w' m'',
    Forall2 settles subs subs' → Forall (admitted_later m subs now penalty) news →
    decide_game_at_cutoff m (subs' ++ news) now' cutoff penalty' = Some (XDecided w', m'') →
    w' = Some w.
Proof.
  intros Hlast Hopen Hok Hnd Hd subs' news now' penalty' w' m'' Hf Hnews Hd'.
  destruct (game_decision_inv _ _ _ _ _ _ _ _ Hlast Hopen Hd)
    as (_ & ac & Hcon & Hsol & Huser & Hmin & Hset & _).
  pose proof (settles_contender _ _ news _ _ _ Hf Hcon Hsol) as Hcon'.
  pose proof (game_decision_inv _ _ _ _ _ _ _ _ Hlast Hopen Hd') as Hs.
  destruct w' as [w2|]; [|destruct Hs as (_ & _ & Hno & _); by rewrite (proj1 (Hno _ Hcon')) in Hsol].
  destruct Hs as (_ & ac2 & [Hin2 He2] & Hsol2 & Huser2 & Hmin2 & _).
  specialize (Hmin2 _ Hcon' (or_introl Hsol)).
  destruct (decide (w2 = w)) as [->|Hne]; [done|]. exfalso.
  rewrite Forall_forall in Hok, Hnews. destruct (Hok _ (proj1 Hcon)) as [Heff Hab].
  apply elem_of_app in Hin2 as [[i Hi2]%list_elem_of_lookup|Hin2].
  - destruct (Forall2_lookup_r _ _ _ _ _ Hf Hi2) as (s & Hi & Harr & Hu & Hsub & Hsame).
    assert (contender game cutoff subs s) as Hcs.
    { split; [by eapply list_elem_of_lookup_2|]. unfold eligible. rewrite <- Hsub. exact He2. }
    assert (is_solved s = true ∨ submission_in_flight s = true) as Hss.
    { destruct (submission_in_flight s) eqn:E; [by right|left]. by rewrite <- (Hsame eq_refl). }
    specialize (Hmin _ Hcs Hss). rewrite Harr in Hmin2.
    pose proof (kle_antisym _ _ Hmin Hmin2) as E. injection E as _ E.
    assert (ac = s) as ->; [|congruence].
    apply (NoDup_fmap_elem sr_submission_id subs); [done|apply Hcon|apply Hcs|done].
  - specialize (Hnews _ Hin2).
    destruct Hset as [Hcut|Hset].
    { unfold eligible in He2. apply andb_prop in He2 as [_ He2%Z.ltb_lt].
      destruct Hnews as [Hnow _]. lia. }
    rewrite (settlement_protects m subs now penalty ac ac2) in Hmin2; try done; [apply Hcon|].
    destruct Hnews as (_ & _ & Hab2 & _). unfold opponent_of.
    destruct (decide (sr_user_id ac = m_player_a m)); destruct Hab, Hab2; congruence.
Qed.

(** ** One match *)

Definition live (p : MatchPhase) : Prop := p ≠ Decided ∧ p ≠ NeedsAdjudication.

#[global] Instance live_dec p : Decision (live p).
Proof. unfold live. apply _. Defined.

Definition games_over (m : MatchState) (rd : RoundDef) : Prop :=
  m_xiaoju m ≠ [] ∧ (∀ x, x ∈ m_xiaoju m → x_decided x = true) ∧
  (win_target rd ≤ Z.to_nat (Z.max (m_score_a m) (m_score_b m)) ∨
   length (m_group_a m) ≤ length (m_xiaoju m)).

Definition last_scoreless (m : MatchState) : Prop :=
  ∃ x, last (m_xiaoju m) = Some x ∧ x_decided x = true ∧ x_winner x = None.

Definition match_outcome_sound (m : MatchState) (rd : RoundDef) (o : MatchOutcome)
    (m' : MatchState) : Prop :=
  match o with
  | MNotYet =>
      m' = m ∧
      if decide (m_state m = Tiebreak) then
        ∀ x, last (m_xiaoju m) = Some x → x_decided x = false
      else ¬ games_over m rd
  | MDecided w =>
      m' = set_winner (Some w) (set_state Decided m) ∧
      if decide (m_state m = Tiebreak) then
        ∃ x, last (m_xiaoju m) = Some x ∧ x_decided x = true ∧ x_winner x = Some w
      else
        games_over m rd ∧
        (w = m_player_a m ∧ m_score_b m < m_score_a m ∨
         w = m_player_b m ∧ m_score_a m < m_score_b m)%Z
  | MOpenTiebreak p =>
      m_state m' = Tiebreak ∧ rd_tiebreak rd !! m_tiebreak_index m' = Some p ∧
      if decide (m_state m = Tiebreak) then
        last_scoreless m ∧ m' = set_tiebreak_index (S (m_tiebreak_index m)) m
      else
        games_over m rd ∧ m_score_a m = m_score_b m ∧
        m' = set_tiebreak_index 0 (set_state Tiebreak m)
  | MNeedsAdjudication =>
      m' = adjudicate TiebreakExhausted m ∧
      if decide (m_state m = Tiebreak) then
        last_scoreless m ∧ length (rd_tiebreak rd) ≤ S (m_tiebreak_index m)
      else games_over m rd ∧ m_score_a m = m_score_b m ∧ rd_tiebreak rd = []
  end.

Lemma games_over_spec m rd :
  (bool_decide (m_xiaoju m = []) || existsb (λ x, negb (x_decided x)) (m_xiaoju m)) = false →
  negb (win_target rd <=? Z.to_nat (Z.max (m_score_a m) (m_score_b m)))
    && (length (m_xiaoju m) <? length (m_group_a m)) = false →
  games_over m rd.
Proof.
  intros [He Hex]%orb_false_iff Hn. split_and!.
  - by apply bool_decide_eq_false in He.
  - intros x Hx. destruct (x_decided x) eqn:E; [done|].
    assert (existsb (λ x, negb (x_decided x)) (m_xiaoju m) = true) as Ht; [|congruence].
    apply existsb_exists. exists x. rewrite <- list_elem_of_In, E. done.
  - apply andb_false_iff in Hn as [?%negb_false_iff%Nat.leb_le|?%Nat.ltb_ge]; auto.
Qed.

Lemma not_games_over m rd :
  (bool_decide (m_xiaoju m = []) || existsb (λ x, negb (x_decided x)) (m_xiaoju m)) = true ∨
  negb (win_target rd <=? Z.to_nat (Z.max (m_score_a m) (m_score_b m)))
    && (length (m_xiaoju m) <? length (m_group_a m)) = true →
  ¬ games_over m rd.
Proof.
  intros [[He|He]%orb_true_iff|[He%negb_true_iff%Nat.leb_gt Hl%Nat.ltb_lt]%andb_prop]
    (Hne & Hall & Hor).
  - by apply bool_decide_eq_true in He.
  - apply existsb_exists in He as (x & Hx & Hd). rewrite <- list_elem_of_In in Hx.
    by rewrite (Hall x Hx) in Hd.
  - lia.
Qed.

Lemma match_decision_inv m setup rd o m' :
  live (m_state m) → round_for_match setup (m_round m) (m_pos m) = Some rd →
  decide_match m setup = (o, m') → match_outcome_sound m rd o m'.
Proof.
  intros [Hl1 Hl2] Hrd. unfold decide_match. rewrite Hrd.
  assert (decide_match m setup = if decide (m_state m = Tiebreak) then decide_tiebreak m rd
          else decide_regular m rd) as E.
  { unfold decide_match. rewrite Hrd. by destruct (m_state m). }
  unfold decide_match in E. rewrite Hrd in E. rewrite E. clear E.
  destruct (decide (m_state m = Tiebreak)) as [Ht|Ht].
  - unfold decide_tiebreak.
    destruct (last (m_xiaoju m)) as [x|] eqn:Hx.
    2: { intros [= <- <-]. split; [done|]. rewrite decide_True, Hx by done. done. }
    destruct (x_decided x) eqn:Hd; cbn [negb].
    2: { intros [= <- <-]. split; [done|]. rewrite decide_True, Hx by done. by intros ? [= <-]. }
    destruct (x_winner x) as [w|] eqn:Hw.
    { intros [= <- <-]. split; [done|]. rewrite decide_True by done. eauto. }
    assert (last_scoreless m) by (by exists x).
    destruct (rd_tiebreak rd !! _) as [p|] eqn:Hp; intros [= <- <-]; cbn;
      rewrite decide_True by done; [by split_and!|].
    apply lookup_ge_None in Hp. by split_and!.
  - unfold decide_regular. destruct (bool_decide _ || _) eqn:Ho.
    { intros [= <- <-]. split; [done|]. rewrite decide_False by done.
      apply not_games_over. by left. }
    destruct (negb _ && _) eqn:Hn.
    { intros [= <- <-]. split; [done|]. rewrite decide_False by done.
      apply not_games_over. by right. }
    pose proof (games_over_spec m rd Ho Hn) as Hover.
    destruct (Z.compare_spec (m_score_a m) (m_score_b m)) as [Hc|Hc|Hc];
      [destruct (rd_tiebreak rd) as [|p l] eqn:Hp|..]; intros [= <- <-]; cbn;
      rewrite decide_False by done; rewrite ?Hp; split_and!; auto.
Qed.

(** A match ends for the right player.  Outside a tiebreak, and once every
    game played is settled and either the target of wins or the number of games
    is reached, the strictly higher score wins, and a level score, 0-0
    included, opens the first tiebreak problem; a tiebreak ends the match for
    the player who solved it, and otherwise opens the next problem of the list;
    the match is left to the staff exactly when that list is exhausted; and in
    every other case nothing is changed. *)
Theorem match_decision_sound m setup rd o m' :
  live (m_state m) → round_for_match setup (m_round m) (m_pos m) = Some rd →
  decide_match m setup = (o, m') → match_outcome_sound m rd o m'.
Proof. apply match_decision_inv. Qed.

(** The end of a match is absorbing: after an outcome that ends it, whoever
    decides it again gets the same outcome and changes nothing, whatever the
    setup has become. *)
Theorem match_end_absorbing m setup o m' :
  live (m_state m) → decide_match m setup = (o, m') →
  (∃ w, o = MDecided w) ∨ o = MNeedsAdjudication →
  ∀ setup2, decide_match m' setup2 = (o, m').
Proof.
  intros Hl Hd Ho setup2.
  destruct (round_for_match setup (m_round m) (m_pos m)) as [rd|] eqn:Hrd.
  - pose proof (match_decision_inv m setup rd o m' Hl Hrd Hd) as Hs.
    destruct Ho as [[w ->]| ->]; destruct Hs as [-> _]; done.
  - unfold decide_match in Hd. rewrite Hrd in Hd. destruct Hl.
    destruct (m_state m); try done; by injection Hd as <- <-.
Qed.
