(* ===== verification/BracketPacing.v ===== *)
(** * BracketPacing: when stages and games start, and who may order problems

    The pure rules of plugins/codelink-bracket/src/bracket.rs and stages.rs,
    the ranking of problems (ordering.rs) and the timer keys of judge.rs. *)

From S2P Require Import Prelude Text Sdk BracketModel.

Open Scope machine_scope.

(** ** Pacing (bracket.rs) *)

Definition matches_of_round (matches : list (Z * MatchState)) (round : Z) : list MatchState :=
  filter (λ m, m_round m = round) (snd <$> matches).

(** [iter().max()] of integers. *)
Definition max_of (l : list Z) : option Z := max_by_key id l.

Definition prerequisites_ready_at_ms (setup : Setup) (matches : list (Z * MatchState))
    (round contest_start_ms : Z) : option Z :=
  if (round <=? 1)%Z then Some contest_start_ms
  else
    stage ← rounds setup !! Z.to_nat (round - 1);
    let previous_round := (round - 1)%Z in
    let expected := Z.to_nat (match_count setup previous_round) in
    let previous := matches_of_round matches previous_round in
    if negb (length previous =? expected)
       || existsb (λ m, bool_decide (m_state m ≠ Decided)) previous
    then None
    else
      last ← max_of (m_decided_at_ms <$> previous);
      pause ← rd_break_before_seconds stage *? 1000;
      last +? pause.

Definition stage_open_at_ms (setup : Setup) (matches : list (Z * MatchState))
    (round contest_start_ms : Z) : option Z :=
  config ← round_at setup round;
  if decide (is_Some (rd_start_at_ms config)) then
    clock ← stage_clocks setup !! round;
    if sc_awaiting_reschedule clock then None else Some (sc_start_at_ms clock)
  else prerequisites_ready_at_ms setup matches round contest_start_ms.

Definition start_at_ms (setup : Setup) (matches : list (Z * MatchState)) (m : MatchState)
    (contest_start_ms : Z) : option Z :=
  config ← round_at setup (m_round m);
  if decide (is_Some (rd_start_at_ms config)) then
    stage ← stage_clocks setup !! m_round m;
    if negb (sc_awaiting_reschedule stage)
       && bool_decide (m_state m = Ordering ∨ m_state m = Preparing)
    then Some (sc_starts_at_ms stage) else None
  else if bool_decide (m_state m ≠ Ordering ∨ m_order_a m = None ∨ m_order_b m = None) then None
  else stage_open_at_ms setup matches (m_round m) contest_start_ms.

Definition fill_missing_orders (m : MatchState) : MatchState :=
  let m := if decide (m_order_a m = None) then set_order_a (Some (m_group_a m)) m else m in
  if decide (m_order_b m = None) then set_order_b (Some (m_group_b m)) m else m.

(** ** Scheduled stages (stages.rs) *)

Definition ORDERING_SECONDS : Z := 180.

Definition planned_clock (setup : Setup) (round : Z) : sdk StageClock :=
  stage ← ok_or (rounds setup !! Z.to_nat (Z.max 0 (round - 1)))
                (Other (u "Stage is not configured"));
  start ← ok_or (rd_start_at_ms stage) (Other (u "Stage has no schedule"));
  ordering_deadline ← ok_or (start +? (ORDERING_SECONDS * 1000))
                            (Other (u "Stage ordering deadline overflow"));
  starts ← ok_or (wait ← post_order_wait stage *? 1000; ordering_deadline +? wait)
                 (Other (u "Stage game start overflow"));
  Ok {| sc_start_at_ms := start;
        sc_ordering_deadline_ms := ordering_deadline;
        sc_starts_at_ms := starts;
        sc_awaiting_reschedule := false |}.

Definition with_awaiting_reschedule (b : bool) (c : StageClock) : StageClock := {|
  sc_start_at_ms := sc_start_at_ms c;
  sc_ordering_deadline_ms := sc_ordering_deadline_ms c;
  sc_starts_at_ms := sc_starts_at_ms c;
  sc_awaiting_reschedule := b |}.

Definition decide_clock (setup : Setup) (matches : list (Z * MatchState))
    (round contest_start : Z) : sdk StageClock :=
  planned ← planned_clock setup round;
  let ready :=
    match prerequisites_ready_at_ms setup matches round contest_start with
    | Some ready => (ready <=? sc_start_at_ms planned)%Z
    | None => false
    end in
  let fresh :=
    with_awaiting_reschedule
      (negb ready || (opened_rounds setup + 1 <? Z.to_nat round)) planned in
  match stage_clocks setup !! round with
  | Some saved => if (sc_start_at_ms saved =? sc_start_at_ms planned)%Z then Ok saved else Ok fresh
  | None => Ok fresh
  end.

Record StageView := {
  sv_round : Z;
  sv_phase : ustring;
  sv_start_at_ms : option Z;
  sv_ordering_deadline_ms : option Z;
  sv_starts_at_ms : option Z;
  sv_match_count : Z;
  sv_decided_count : nat;
}.

Definition stage_phase (setup : Setup) (round now : Z) (decided_count : nat)
    (clock : option StageClock) : ustring :=
  let during (f : StageClock → bool) := match clock with Some c => f c | None => false end in
  if decided_count =? Z.to_nat (match_count setup round) then u "complete"
  else if during sc_awaiting_reschedule then u "awaiting_reschedule"
  else if opened_rounds setup <? Z.to_nat round then u "scheduled"
  else if during (λ c, now <? sc_ordering_deadline_ms c)%Z then u "ordering"
  else if during (λ c, now <? sc_starts_at_ms c)%Z then u "preparing"
  else u "playing".

Definition view_of (setup : Setup) (matches : list (Z * MatchState)) (now : Z) (index : nat)
    (definition : RoundDef) : StageView :=
  let round := wrap_u8 (wrap_u8 (Z.of_nat index) + 1) in
  let clock :=
    match stage_clocks setup !! round with
    | Some c => Some c
    | None => match planned_clock setup round with Ok c => Some c | Err _ => None end
    end in
  let decided_count :=
    length (filter (λ m, m_state m = Decided) (matches_of_round matches round)) in
  {| sv_round := round;
     sv_phase := stage_phase setup round now decided_count clock;
     sv_start_at_ms := rd_start_at_ms definition;
     sv_ordering_deadline_ms := sc_ordering_deadline_ms <$> clock;
     sv_starts_at_ms := sc_starts_at_ms <$> clock;
     sv_match_count := match_count setup round;
     sv_decided_count := decided_count |}.

Definition views (setup : Setup) (matches : list (Z * MatchState)) (now : Z) : list StageView :=
  imap (view_of setup matches now) (rounds setup).

(** ** Ranking the opponent's problems (ordering.rs) *)

Definition LEFT_ORDERING_PHASE_MSG : ustring :=
  u "the match has left the ordering phase; rankings can no longer be changed".
Definition ORDERING_CLOSED_MSG : ustring := u "The stage ordering window has closed".
Definition NOT_A_PERMUTATION_MSG : ustring :=
  u "order must be a permutation of the opponent's problem group".

Definition is_permutation_of (order group : list Z) : bool :=
  bool_decide (sort_by_key id order = sort_by_key id group).

Definition not_a_participant (player : Z) : ustring :=
  u "player " ++ show player ++ u " is not a participant in this match".

Definition record_order (m : MatchState) (submitter : Z) (order : list Z)
    : result ustring MatchState :=
  if decide (m_state m ≠ Ordering) then Err LEFT_ORDERING_PHASE_MSG
  else if decide (submitter = m_player_b m) then
    if negb (is_permutation_of order (m_group_a m)) then Err NOT_A_PERMUTATION_MSG
    else Ok (set_order_a (Some order) m)
  else if decide (submitter = m_player_a m) then
    if negb (is_permutation_of order (m_group_b m)) then Err NOT_A_PERMUTATION_MSG
    else Ok (set_order_b (Some order) m)
  else Err (not_a_participant submitter).

(** ** Timer keys (judge.rs) *)

Definition xiaoju_timer_key (contest match_id index : Z) : ustring :=
  u "xiaoju:" ++ show contest ++ u ":" ++ show match_id ++ u ":" ++ show index.

Definition effective_timer_key (contest match_id index submission : Z) : ustring :=
  xiaoju_timer_key contest match_id index ++ u ":effective:" ++ show submission.

Definition settlement_timer_key (contest match_id index submission effective_at_us at_us : Z)
    : ustring :=
  let key := effective_timer_key contest match_id index submission in
  if decide (at_us = effective_at_us) then key else key ++ u ":at:" ++ show at_us.

Definition judgewait_timer_key (contest match_id index : Z) : ustring :=
  u "judgewait:" ++ show contest ++ u ":" ++ show match_id ++ u ":" ++ show index.

Definition start_timer_key (contest match_id : Z) : ustring :=
  u "start:" ++ show contest ++ u ":" ++ show match_id.

Definition stage_timer_key (contest round : Z) : ustring :=
  u "stage:" ++ show contest ++ u ":" ++ show round.

(** [key.split(':')]. *)
Definition key_parts (key : ustring) : list ustring := split_on 58 key.

Definition parse_xiaoju_timer_key (key : ustring) : option (Z * Z) :=
  match key_parts key with
  | p :: contest :: match_id :: _ :: _ =>
      if decide (p = u "xiaoju") then
        contest ← parse_i32 contest; match_id ← parse_u8 match_id; Some (contest, match_id)
      else None
  | _ => None
  end.

Definition parse_judgewait_timer_key (key : ustring) : option (Z * Z) :=
  match key_parts key with
  | p :: contest :: match_id :: _ :: _ =>
      if decide (p = u "judgewait") then
        contest ← parse_i32 contest; match_id ← parse_u8 match_id; Some (contest, match_id)
      else None
  | _ => None
  end.

Definition parse_start_timer_key (key : ustring) : option (Z * Z) :=
  match key_parts key with
  | [p; contest; match_id] =>
      if decide (p = u "start") then
        contest ← parse_i32 contest; match_id ← parse_u8 match_id; Some (contest, match_id)
      else None
  | _ => None
  end.

(** The optional fourth part is the time of a rescheduled stage. *)
Definition parse_stage_timer_key (key : ustring) : option (Z * Z) :=
  match key_parts key with
  | p :: contest :: round :: rest =>
      if decide (p = u "stage") then
        contest ← parse_i32 contest; round ← parse_u8 round;
        match rest with
        | [] => Some (contest, round)
        | [at_ms] => _ ← parse_i64 at_ms; Some (contest, round)
        | _ => None
        end
      else None
  | _ => None
  end.

(** * Keys, rankings, stages and the numbering of matches *)

Open Scope machine_scope.

(** ** Timer keys *)

Definition in_key (contest match_id : Z) : Prop := in_i32 contest ∧ in_u8 match_id.

Lemma colon_not_shown z : 58%Z ∉ show z.
Proof. apply show_no_char. intros [?|?]; [lia|done]. Qed.

Lemma parts_of_show z : key_parts (show z) = [show z].
Proof. apply split_on_none, colon_not_shown. Qed.

Lemma parts_show_cons z s : key_parts (show z ++ u ":" ++ s) = show z :: key_parts s.
Proof. apply split_on_cons, colon_not_shown. Qed.

Lemma parts_name_cons name s :
  58%Z ∉ u name → key_parts (u name ++ u ":" ++ s) = u name :: key_parts s.
Proof. apply split_on_cons. Qed.

Lemma key_parts_nonempty s : ∃ p ps, key_parts s = p :: ps.
Proof.
  unfold key_parts. induction s as [|c s (p & ps & E)]; cbn; [by eexists _, _|].
  destruct (c =? 58)%Z; [by eexists _, _|]. rewrite E. by eexists _, _.
Qed.

Lemma parse_i32_show z : in_i32 z → parse_i32 (show z) = Some z.
Proof. intros. apply parse_show; mlia. Qed.

Lemma parse_u8_show z : in_u8 z → parse_u8 (show z) = Some z.
Proof. intros. apply parse_show; mlia. Qed.

Lemma parse_i64_show z : in_i64 z → parse_i64 (show z) = Some z.
Proof. intros. apply parse_show; mlia. Qed.

(** A key [name:contest:id:rest]. *)
Lemma parts_three name contest match_id rest :
  58%Z ∉ u name →
  key_parts (u name ++ u ":" ++ show contest ++ u ":" ++ show match_id ++ u ":" ++ rest) =
  u name :: show contest :: show match_id :: key_parts rest.
Proof. intros Hn. by rewrite parts_name_cons, !parts_show_cons. Qed.

(** A key [name:contest:id]. *)
Lemma parts_two name contest match_id :
  58%Z ∉ u name →
  key_parts (u name ++ u ":" ++ show contest ++ u ":" ++ show match_id) =
  [u name; show contest; show match_id].
Proof. intros Hn. by rewrite parts_name_cons, parts_show_cons, parts_of_show. Qed.

(** The handler a timer key names, and the pair it names it with. *)
Inductive timer_target :=
  | XiaojuTimer (contest match_id : Z)
  | StartTimer (contest match_id : Z)
  | StageTimer (contest round : Z)
  | JudgewaitTimer (contest match_id : Z).

Definition target_of (key : ustring) : option timer_target :=
  match parse_xiaoju_timer_key key, parse_start_timer_key key, parse_stage_timer_key key,
        parse_judgewait_timer_key key with
  | Some (c, i), _, _, _ => Some (XiaojuTimer c i)
  | None, Some (c, i), _, _ => Some (StartTimer c i)
  | None, None, Some (c, r), _ => Some (StageTimer c r)
  | None, None, None, Some (c, i) => Some (JudgewaitTimer c i)
  | None, None, None, None => None
  end.

Lemma target_of_parts key name contest match_id rest :
  key_parts key = u name :: show contest :: show match_id :: rest → in_key contest match_id →
  parse_xiaoju_timer_key key =
    (if decide (u name = u "xiaoju" ∧ rest ≠ []) then Some (contest, match_id) else None) ∧
  parse_judgewait_timer_key key =
    (if decide (u name = u "judgewait" ∧ rest ≠ []) then Some (contest, match_id) else None) ∧
  parse_start_timer_key key =
    (if decide (u name = u "start" ∧ rest = []) then Some (contest, match_id) else None) ∧
  parse_stage_timer_key key =
    (if decide (u name = u "stage") then
       match rest with
       | [] => Some (contest, match_id)
       | [at_ms] => _ ← parse_i64 at_ms; Some (contest, match_id)
       | _ => None
       end
     else None).
Proof.
  intros E [Hc Hi].
  unfold parse_xiaoju_timer_key, parse_judgewait_timer_key, parse_start_timer_key,
    parse_stage_timer_key. rewrite E.
  rewrite (parse_i32_show _ Hc), (parse_u8_show _ Hi). generalize (u name). intros n.
  destruct rest; split_and!; repeat case_decide; naive_solver.
Qed.

(** Whatever follows the index, the key is one of the game's. *)
Lemma xiaoju_key_target contest match_id index suffix :
  in_key contest match_id →
  target_of (xiaoju_timer_key contest match_id index ++ suffix) =
  Some (XiaojuTimer contest match_id).
Proof.
  intros Hk.
  assert (key_parts (xiaoju_timer_key contest match_id index ++ suffix) =
    u "xiaoju" :: show contest :: show match_id :: key_parts (show index ++ suffix)) as E.
  { rewrite <- parts_three by by_decide. f_equal. unfold xiaoju_timer_key.
    by rewrite <- !app_assoc. }
  destruct (target_of_parts _ _ _ _ _ E Hk) as (Hx & _).
  unfold target_of. rewrite Hx, decide_True; [done|].
  split; [done|]. by destruct (key_parts_nonempty (show index ++ suffix)) as (p & ps & ->).
Qed.

Lemma judgewait_key_target contest match_id index :
  in_key contest match_id →
  target_of (judgewait_timer_key contest match_id index) =
  Some (JudgewaitTimer contest match_id).
Proof.
  intros Hk.
  assert (key_parts (judgewait_timer_key contest match_id index) =
    u "judgewait" :: show contest :: show match_id :: [show index]) as E.
  { rewrite <- parts_of_show, <- parts_three by by_decide. done. }
  destruct (target_of_parts _ _ _ _ _ E Hk) as (Hx & Hj & Hs & Ht).
  unfold target_of. rewrite Hx, Hj, Hs, Ht. by vm_compute.
Qed.

Lemma start_key_target contest match_id :
  in_key contest match_id →
  target_of (start_timer_key contest match_id) = Some (StartTimer contest match_id).
Proof.
  intros Hk. pose proof (parts_two "start" contest match_id ltac:(by_decide)) as E.
  destruct (target_of_parts _ _ _ _ _ E Hk) as (Hx & Hj & Hs & Ht).
  unfold target_of. change (start_timer_key contest match_id) with
    (u "start" ++ u ":" ++ show contest ++ u ":" ++ show match_id).
  rewrite Hx, Hj, Hs, Ht. by vm_compute.
Qed.

Lemma stage_key_target contest round :
  in_key contest round →
  target_of (stage_timer_key contest round) = Some (StageTimer contest round).
Proof.
  intros Hk. pose proof (parts_two "stage" contest round ltac:(by_decide)) as E.
  destruct (target_of_parts _ _ _ _ _ E Hk) as (Hx & Hj & Hs & Ht).
  unfold target_of. change (stage_timer_key contest round) with
    (u "stage" ++ u ":" ++ show contest ++ u ":" ++ show round).
  rewrite Hx, Hj, Hs, Ht. by vm_compute.
Qed.

Lemma stage_at_key_target contest round at_ms :
  in_key contest round → in_i64 at_ms →
  target_of (stage_timer_key contest round ++ u ":" ++ show at_ms) =
  Some (StageTimer contest round).
Proof.
  intros Hk Hat.
  assert (key_parts (stage_timer_key contest round ++ u ":" ++ show at_ms) =
    u "stage" :: show contest :: show round :: [show at_ms]) as E.
  { rewrite <- parts_of_show, <- parts_three by by_decide. f_equal. unfold stage_timer_key.
    by rewrite <- !app_assoc. }
  destruct (target_of_parts _ _ _ _ _ E Hk) as (Hx & Hj & Hs & Ht).
  rewrite (parse_i64_show _ Hat) in Ht.
  unfold target_of. rewrite Hx, Hj, Hs, Ht. by vm_compute.
Qed.

(** A timer is delivered to the handler that scheduled it: each key the
    plugin writes, for a game, a settlement, a start, a stage or a judge wait,
    parses back to its own kind, contest and match or stage, and no parser
    claims a key of another kind. *)
Theorem timer_keys_roundtrip contest id :
  in_key contest id →
  (∀ index, target_of (xiaoju_timer_key contest id index) = Some (XiaojuTimer contest id)) ∧
  (∀ index sub eff at_us, target_of (settlement_timer_key contest id index sub eff at_us) =
     Some (XiaojuTimer contest id)) ∧
  target_of (start_timer_key contest id) = Some (StartTimer contest id) ∧
  target_of (stage_timer_key contest id) = Some (StageTimer contest id) ∧
  (∀ at_ms, in_i64 at_ms → target_of (stage_timer_key contest id ++ u ":" ++ show at_ms) =
     Some (StageTimer contest id)) ∧
  (∀ index, target_of (judgewait_timer_key contest id index) = Some (JudgewaitTimer contest id)).
Proof.
  intros Hk. split_and!; auto using start_key_target, stage_key_target, stage_at_key_target,
    judgewait_key_target.
  - intros index. rewrite <- (app_nil_r (xiaoju_timer_key _ _ _)). by apply xiaoju_key_target.
  - intros index sub eff at_us. unfold settlement_timer_key, effective_timer_key.
    destruct (decide _); rewrite <- ?app_assoc; by apply xiaoju_key_target.
Qed.

(** ** Rankings *)

Lemma is_permutation_of_spec order group : is_permutation_of order group = true ↔ order ≡ₚ group.
Proof.
  unfold is_permutation_of. rewrite bool_decide_eq_true. split.
  - intros E. by rewrite <- (sort_by_key_perm id order), E, sort_by_key_perm.
  - intros E. by apply sort_by_key_perm_eq.
Qed.

Lemma record_order_inv m submitter order m' :
  m_player_a m ≠ m_player_b m →
  record_order m submitter order = Ok m' ↔
  m_state m = Ordering ∧
  ((submitter = m_player_b m ∧ order ≡ₚ m_group_a m ∧ m' = set_order_a (Some order) m) ∨
   (submitter = m_player_a m ∧ order ≡ₚ m_group_b m ∧ m' = set_order_b (Some order) m)).
Proof.
  intros Hab. unfold record_order. rewrite <- !is_permutation_of_spec.
  destruct (decide (m_state m ≠ Ordering)) as [|Hst]; [naive_solver|]. apply dec_stable in Hst.
  repeat case_decide; destruct (is_permutation_of order _) eqn:E; cbn; naive_solver congruence.
Qed.

(** A ranking is accepted exactly from a player of a match that is still in
    its ordering phase, for a permutation of the opponent's problems, and then
    sets the order in which the opponent will play and nothing else. *)
Theorem record_order_spec m submitter order m' :
  m_player_a m ≠ m_player_b m →
  record_order m submitter order = Ok m' ↔
  m_state m = Ordering ∧
  ((submitter = m_player_b m ∧ order ≡ₚ m_group_a m ∧ m' = set_order_a (Some order) m) ∨
   (submitter = m_player_a m ∧ order ≡ₚ m_group_b m ∧ m' = set_order_b (Some order) m)).
Proof. apply record_order_inv. Qed.

(** ** Stages *)

Lemma max_of_ge l m x : max_of l = Some m → x ∈ l → (x ≤ m)%Z.
Proof.
  intros Hm Hx. destruct (max_by_key_Some _ _ _ Hm) as [_ Hmax]. specialize (Hmax x Hx).
  by apply Z.leb_le in Hmax.
Qed.

(** A stage without a schedule opens only when the stage before it is
    complete: every one of its matches exists and is decided, and the break
    has passed since the last of them. *)
Theorem stage_waits_for_previous setup matches round contest_start at_ms config :
  (1 < round)%Z → round_at setup round = Some config → rd_start_at_ms config = None →
  stage_open_at_ms setup matches round contest_start = Some at_ms →
  Z.of_nat (length (matches_of_round matches (round - 1))) = match_count setup (round - 1) ∧
  ∀ m, m ∈ matches_of_round matches (round - 1) →
    m_state m = Decided ∧ (m_decided_at_ms m + rd_break_before_seconds config * 1000 ≤ at_ms)%Z.
Proof.
  intros Hround Hconfig Hstart. unfold stage_open_at_ms. rewrite Hconfig. cbn.
  rewrite Hstart, decide_False by (by intros [??]).
  unfold prerequisites_ready_at_ms. destruct (Z.leb_spec round 1); [lia|].
  unfold round_at in Hconfig. destruct (Z.ltb_spec round 1); [lia|]. rewrite Hconfig. cbn.
  destruct (negb _ || _) eqn:E; [done|].
  apply orb_false_iff in E as [Hlen%negb_false_iff%Nat.eqb_eq Hdec].
  intros (last & Hlast & (pause & Hpause & Hat)%bind_Some)%bind_Some.
  apply checked64_Some in Hpause as [-> _], Hat as [-> _].
  split.
  { rewrite Hlen, Z2Nat.id; [done|]. unfold match_count. pose proof (wrap_u8_range
      (matches_in_round (player_count setup) (round - 1) +
       (if decide (is_Some (third_place setup)) then
          if decide (round - 1 = Z.of_nat (length (rounds setup))) then 1 else 0 else 0)))%Z.
    mlia. }
  intros m Hm. split.
  - destruct (decide (m_state m = Decided)) as [|Hne]; [done|].
    assert (existsb (λ m, bool_decide (m_state m ≠ Decided)) (matches_of_round matches (round - 1))
            = true); [|congruence].
    apply existsb_exists. exists m. rewrite <- list_elem_of_In. split; [done|].
    by apply bool_decide_eq_true.
  - assert (m_decided_at_ms m ≤ last)%Z; [|lia].
    apply (max_of_ge _ _ _ Hlast). by apply list_elem_of_fmap_2.
Qed.

(** ** Numbering *)

(** The matches of a bracket of [2 ^ k] players, stage by stage. *)
Definition all_matches (k : nat) (third : bool) : list (Z * Z) :=
  let players := (2 ^ Z.of_nat k)%Z in
  (round ← seqZ 1 (Z.of_nat k);
   pos ← seqZ 0 (matches_in_round players round
                 + (if third && (round =? Z.of_nat k)%Z then 1 else 0));
   [(round, pos)]).

Definition match_ids (k : nat) (third : bool) : list Z :=
  (λ p, match_id_for (2 ^ Z.of_nat k) p.1 p.2) <$> all_matches k third.

(** The matches of a bracket are numbered without gaps or clashes: for every
    admissible number of players, and with or without a match for the third
    place, the identifiers in the order of stages and positions are exactly
    [0, 1, 2, ...]. *)
Theorem match_ids_bijective k third :
  1 ≤ k ≤ 7 →
  match_ids k third = seqZ 0 (2 ^ Z.of_nat k - 1 + (if third then 1 else 0)).
Proof.
  intros Hk. assert (k ∈ seq 1 7) as Hin by (apply elem_of_seq; lia).
  assert (Forall (λ k, ∀ third,
    match_ids k third = seqZ 0 (2 ^ Z.of_nat k - 1 + (if third then 1 else 0))) (seq 1 7)) as Hall.
  { repeat constructor; intros []; by vm_compute. }
  rewrite Forall_forall in Hall. by apply Hall.
Qed.
