(* ===== verification/BracketJudge.v ===== *)
(** * BracketJudge: driving a match

    plugins/codelink-bracket/src/judge.rs, with the publication of feedback
    (feedback.rs) and the opening of scheduled stages (stages.rs) it calls.
    A closure the code hands to [update_match] is a function
    [MatchState -> M MatchState]: the effects on the host stay even when the
    document is not written. *)

From S2P Require Import Prelude Text Float Verdict Sdk Host BracketModel BracketDecide.
From S2P Require Import BracketPacing.

Open Scope machine_scope.

(** ** Clocks *)

Record Clock := { clk_now : Z; clk_contest_end : option Z }.

Definition contest_ended (c : Clock) : bool :=
  match clk_contest_end c with Some e => (e <=? clk_now c)%Z | None => false end.

Definition cutoff (c : Clock) (deadline_ms : Z) : Z :=
  match clk_contest_end c with Some e => Z.min deadline_ms e | None => deadline_ms end.

Definition now_ms : M Z := gets h_now.

Definition clock (contest : Z) : M Clock :=
  gets (λ h, {| clk_now := h_now h;
                clk_contest_end := h_contests h !! contest ≫= ct_end_ms |}).

Definition contest_times (contest : Z) : M ContestTimes :=
  row ← gets (λ h, h_contests h !! contest);
  or_throw row (Other (u "contest not found")).

(** ** The problem a player is on *)

Definition current_regular_problem (m : MatchState) (player : Z) : option Z :=
  order ← (if decide (player = m_player_a m) then m_order_a m
           else if decide (player = m_player_b m) then m_order_b m
           else None);
  game ← last (m_xiaoju m);
  order !! Z.to_nat (x_index game).

Definition tiebreak_problem (m : MatchState) (round_def : RoundDef) : option Z :=
  rd_tiebreak round_def !! m_tiebreak_index m.

Definition current_problem (m : MatchState) (round_def : RoundDef) (player : Z) : option Z :=
  match m_state m with
  | Tiebreak => tiebreak_problem m round_def
  | InProgress => current_regular_problem m player
  | AwaitingJudge =>
      game ← last (m_xiaoju m);
      if is_regular_game m (x_index game) then current_regular_problem m player
      else tiebreak_problem m round_def
  | _ => None
  end.

(** ** Feedback (feedback.rs) *)

Record AdmissionMetadata := {
  am_scope_key : ustring;
  am_delay_seconds : Z;
  am_effective_at_us : option Z;
}.

Section judge.
Context `{Serde MatchState, Serde Setup, Serde AdmissionMetadata}.

Definition effective_time (row : SubmissionFeedbackRecord) : sdk Z :=
  match from_json (fb_metadata row) with
  | Err e => Err (Serialization e)
  | Ok metadata =>
      Ok (default (fb_submitted_at_us row +s (am_delay_seconds metadata *s 1000000))
            (am_effective_at_us metadata))
  end.

Definition record_of_feedback (row : SubmissionFeedbackRecord) (effective_at_us : Z)
    : SubmissionRecord := {|
  sr_submission_id := fb_submission_id row;
  sr_user_id := fb_user_id row;
  sr_problem_id := fb_problem_id row;
  sr_submitted_at_us := fb_submitted_at_us row;
  sr_effective_at_us := effective_at_us;
  sr_verdict := fb_verdict row;
  sr_status := fb_status row;
|}.

(** What to publish for a resolved submission: [None] leaves it hidden. *)
Definition release_for (m : MatchState) (game : option XiaojuState) (record : SubmissionRecord)
    : option ReleaseResult :=
  let too_late := Override (OtherVerdict (u "TooLate")) f_zero in
  let against (w : option Z) :=
    if decide (w ≠ Some (sr_user_id record)) then too_late else Original in
  if negb (bool_decide (sr_verdict record = Some Accepted)) then Some Original
  else
    match game with
    | Some game =>
        if x_decided game then Some (against (x_winner game))
        else if decide (m_state m = Decided) then Some (against (m_winner m))
        else None
    | None => if decide (m_state m = Decided) then Some (against (m_winner m)) else None
    end.

Definition publish_one (contest match_id : Z) (m : MatchState) (row : SubmissionFeedbackRecord)
    : M (list ustring) :=
  metadata ← parse_json (A := AdmissionMetadata) (fb_metadata row);
  effective_at_us ← lift (effective_time row);
  let game := snd <$> list_find (λ g, game_scope contest match_id (x_index g) = am_scope_key metadata)
                        (m_xiaoju m) in
  let completed :=
    match game with
    | Some g =>
        if decide (m_state m = Decided ∨ x_decided g = true)
        then [effective_timer_key contest match_id (x_index g) (fb_submission_id row)]
        else []
    | None => []
    end in
  let record := record_of_feedback row effective_at_us in
  if submission_in_flight record then
    if decide (m_state m ≠ Decided) then mret completed
    else Submissions.release_slot (sr_submission_id record) ≫= λ _, mret completed
  else
    match release_for m game record with
    | None => mret completed
    | Some release =>
        Submissions.release_feedback (sr_submission_id record) release ≫= λ _, mret completed
    end.

Definition unpublished_query (key : ustring) : SubmissionFeedbackQuery := {|
  q_key := Some key; q_slot_key := None; q_submission_ids := None; q_unpublished_only := true;
  q_after_id := 0; q_limit := FEEDBACK_PAGE_SIZE |}.

Definition publish (contest match_id : Z) (m : MatchState) : M (list ustring) :=
  rows ← Submissions.feedback_all (unpublished_query (match_key contest match_id));
  foldl (λ acc row, acc ≫= λ keys, more ← publish_one contest match_id m row; mret (keys ++ more))
    (mret []) rows.

(** ** Reading the submissions of the current game *)

Definition wanted_row (contest : Z) (m : MatchState) (prob_a prob_b : option Z) (opened_ms : Z)
    (r : SubmissionRow) : bool :=
  bool_decide (row_contest_id r = contest)
  && (bool_decide (row_user_id r = m_player_a m ∧ Some (row_problem_id r) = prob_a)
      || bool_decide (row_user_id r = m_player_b m ∧ Some (row_problem_id r) = prob_b))
  && (opened_ms * 1000 <=? row_created_at_us r)%Z.

Definition ids_query (ids : list Z) : SubmissionFeedbackQuery := {|
  q_key := None; q_slot_key := None; q_submission_ids := Some ids; q_unpublished_only := false;
  q_after_id := 0; q_limit := FEEDBACK_PAGE_SIZE |}.

(** The effective times by submission id; an unreadable row is an error. *)
Definition effective_times (rows : list SubmissionFeedbackRecord) : sdk (gmap Z Z) :=
  foldl (λ acc row, m ← acc; t ← effective_time row; Ok (<[fb_submission_id row := t]> m))
    (Ok ∅) rows.

Definition record_of_row (effective : gmap Z Z) (r : SubmissionRow) : SubmissionRecord := {|
  sr_submission_id := row_id r;
  sr_user_id := row_user_id r;
  sr_problem_id := row_problem_id r;
  sr_submitted_at_us := row_created_at_us r;
  sr_effective_at_us := default (row_created_at_us r) (effective !! row_id r);
  sr_verdict := row_verdict r;
  sr_status := row_status r;
|}.

Definition fetch_subs (contest : Z) (m : MatchState) (round_def : RoundDef)
    : M (list SubmissionRecord) :=
  let prob_a := current_problem m round_def (m_player_a m) in
  let prob_b := current_problem m round_def (m_player_b m) in
  if decide (prob_a = None ∧ prob_b = None) then mret []
  else
    let opened_ms := match last (m_xiaoju m) with Some g => x_opened_at_ms g | None => 0%Z end in
    rows ← gets (λ h, filter (λ r, wanted_row contest m prob_a prob_b opened_ms r = true)
                        (h_submissions h));
    feedback ← Submissions.feedback_all (ids_query (row_id <$> rows));
    effective ← lift (effective_times feedback);
    mret (filter (λ s, in_current_game m s = true) (record_of_row effective <$> rows)).

(** ** Opening a game *)

Definition game_at (m : MatchState) (durations : GameDurations) (opened_at_ms : Z)
    : sdk XiaojuState :=
  let index := wrap_u8 (Z.of_nat (length (m_xiaoju m))) in
  let seconds := if is_regular_game m index then gd_xiaoju_seconds durations
                 else gd_tiebreak_seconds durations in
  ms ← ok_or (seconds *? 1000) (Other (u "game duration overflow"));
  base_deadline_ms ← ok_or (opened_at_ms +? ms) (Other (u "game deadline overflow"));
  let extra_ms := if is_regular_game m index then m_extra_time_remaining_ms m else 0%Z in
  deadline_ms ← ok_or (base_deadline_ms +? extra_ms) (Other (u "Game deadline is too large"));
  Ok {| x_index := index;
        x_opened_at_ms := opened_at_ms;
        x_base_deadline_ms := Some base_deadline_ms;
        x_deadline_ms := deadline_ms;
        x_extra_time_used_ms := 0;
        x_winner := None;
        x_decided := false |}.

(** The first game fixes the budget of extra time of the match. *)
Definition start_budget (setup : Setup) (round : RoundDef) (m : MatchState) : sdk MatchState :=
  if decide (m_xiaoju m = []) then
    let seconds := default (setup_extra_time_seconds setup) (rd_match_extra_time_seconds round) in
    ms ← ok_or (seconds *? 1000) (Other (u "Extra time is too large"));
    Ok (set_extra_time_remaining_ms ms (set_match_extra_time_seconds seconds m))
  else Ok m.

Definition fix_durations (round : RoundDef) (m : MatchState) : MatchState :=
  match m_game_durations m with
  | Some _ => m
  | None => set_game_durations (Some (round_game_durations round)) m
  end.

Definition open_xiaoju_at (contest match_id : Z) (setup : Setup) (clock : Clock)
    (opened_at_ms : Z) (m : MatchState) : M MatchState :=
  round ← or_throw (round_for_match setup (m_round m) (m_pos m)) (Other (u "round setup missing"));
  m ← lift (start_budget setup round m);
  let m := fix_durations round m in
  let durations := default (round_game_durations round) (m_game_durations m) in
  game ← lift (game_at m durations opened_at_ms);
  let m := set_xiaoju (m_xiaoju m ++ [game]) m in
  _ ← Timer.schedule (cutoff clock (x_deadline_ms game))
        (xiaoju_timer_key contest match_id (x_index game)) [];
  mret m.

Definition open_xiaoju (contest match_id : Z) (setup : Setup) (clock : Clock) (m : MatchState)
    : M MatchState :=
  open_xiaoju_at contest match_id setup clock (clk_now clock) m.

(** ** One step of a match *)

Definition wakeup_for (contest match_id : Z) (m : MatchState) (clock : Clock) (cut : Z)
    (subs : list SubmissionRecord) (penalty : Z) (game : XiaojuState) (sub : SubmissionRecord)
    : M unit :=
  if contains_submission_at_us game (sr_submitted_at_us sub)
     && (sr_submitted_at_us sub <? cut *s 1000)%Z
     && negb (submission_in_flight sub) && bool_decide (sr_verdict sub = Some Accepted)
  then
    let at_us := ac_settlement_at_us m subs sub penalty in
    let at_ms := Z.quot (at_us +s 999) 1000 in
    if ((clk_now clock <? at_ms) && (at_us <=? cut *s 1000))%Z
    then Timer.schedule at_ms
           (settlement_timer_key contest match_id (x_index game) (sr_submission_id sub)
              (sr_effective_at_us sub) at_us) []
    else mret tt
  else mret tt.

Definition schedule_wakeups (contest match_id : Z) (m : MatchState) (clock : Clock)
    (subs : list SubmissionRecord) (penalty : Z) : M unit :=
  current ← unwrap (last (m_xiaoju m));
  let cut := cutoff clock (x_deadline_ms current) in
  _ ← Timer.schedule cut (xiaoju_timer_key contest match_id (x_index current)) [];
  mapM_ (wakeup_for contest match_id m clock cut subs penalty current) subs.

Definition escalate_contest_ended (contest match_id index : Z) (m : MatchState) : M MatchState :=
  _ ← Timer.cancel (judgewait_timer_key contest match_id index);
  mret (set_awaiting_submission_id None (adjudicate ContestEnded m)).

(** The arm of [step] for a match between two games. *)
Definition step_intermission (contest match_id : Z) (setup : Setup) (m : MatchState)
    : M MatchState :=
  clock ← clock contest;
  if contest_ended clock then
    mret (set_next_game_at_ms None (adjudicate ContestEnded m))
  else
    at_ms ← or_throw (m_next_game_at_ms m) (Other (u "Missing intermission deadline"));
    if (clk_now clock <? at_ms)%Z then
      Timer.schedule at_ms (start_timer_key contest match_id) [] ≫= λ _, mret m
    else
      let phase := if is_regular_game m (wrap_u8 (Z.of_nat (length (m_xiaoju m))))
                   then InProgress else Tiebreak in
      let m := set_next_game_at_ms None (set_state phase m) in
      open_xiaoju_at contest match_id setup clock at_ms m.

(** After a decided game: end the match, hand it over, or go on. *)
Definition step_decided (contest match_id : Z) (setup : Setup) (round_def : RoundDef)
    (clock : Clock) (index : Z) (m : MatchState) : M MatchState :=
  let m :=
    if decide (m_state m = AwaitingJudge) then
      set_state (if is_regular_game m index then InProgress else Tiebreak)
        (set_awaiting_submission_id None m)
    else m in
  match decide_match m setup with
  | (MNotYet, m) | (MOpenTiebreak _, m) =>
      if contest_ended clock then escalate_contest_ended contest match_id index m
      else
        let seconds := game_break round_def in
        if (seconds =? 0)%Z then open_xiaoju contest match_id setup clock m
        else
          at_ms ← or_throw (duration ← seconds *? 1000; clk_now clock +? duration)
                    (Other (u "Intermission deadline overflow"));
          let m := set_next_game_at_ms (Some at_ms) (set_state Intermission m) in
          Timer.schedule at_ms (start_timer_key contest match_id) [] ≫= λ _, mret m
  | (MDecided _, m) => mret (set_decided_at_ms (clk_now clock) m)
  | (MNeedsAdjudication, m) => mret m
  end.

Definition step_awaiting (contest match_id : Z) (setup : Setup) (clock : Clock) (index : Z)
    (blocking : Z) (m : MatchState) : M MatchState :=
  let entering_now := bool_decide (m_state m ≠ AwaitingJudge) in
  let m := set_awaiting_submission_id (Some blocking) (set_state AwaitingJudge m) in
  if entering_now then
    grace ← or_throw (escalation_grace_seconds setup *? 1000)
              (Other (u "judge wait duration overflow"));
    escalate_at_ms ← or_throw (clk_now clock +? grace)
                       (Other (u "judge wait deadline overflow"));
    Timer.schedule escalate_at_ms (judgewait_timer_key contest match_id index) []
      ≫= λ _, mret m
  else mret m.

(** The arm of [step] for a match with an open game. *)
Definition step_game (contest match_id : Z) (setup : Setup) (round_def : RoundDef)
    (current : XiaojuState) (m : MatchState) : M MatchState :=
  clock ← clock contest;
  subs ← fetch_subs contest m round_def;
  let cutoff_ms := cutoff clock (x_deadline_ms current) in
  decided ← unwrap (decide_game_at_cutoff m subs (clk_now clock) cutoff_ms (penalty_seconds setup));
  let '(outcome, m) := decided in
  if decide (outcome = XNotYet ∧ contest_ended clock = true) then
    match oldest_in_flight subs with
    | Some blocking => step_awaiting contest match_id setup clock (x_index current) blocking m
    | None => escalate_contest_ended contest match_id (x_index current) m
    end
  else
    match outcome with
    | XNotYet =>
        schedule_wakeups contest match_id m clock subs (penalty_seconds setup) ≫= λ _, mret m
    | XAwaitingJudge blocking =>
        step_awaiting contest match_id setup clock (x_index current) blocking m
    | XDecided _ => step_decided contest match_id setup round_def clock (x_index current) m
    end.

Definition step (contest match_id : Z) (setup : Setup) (m : MatchState) : M MatchState :=
  match m_state m with
  | Intermission => step_intermission contest match_id setup m
  | InProgress | Tiebreak | AwaitingJudge =>
      match last (m_xiaoju m) with
      | None => mret m
      | Some current =>
          match round_for_match setup (m_round m) (m_pos m) with
          | None => mret (decide_match m setup).2
          | Some round_def => step_game contest match_id setup round_def current m
          end
      end
  | _ => mret m
  end.

(** ** After an update *)

Definition write_next_round_slots (contest : Z) (setup : Setup) (m : MatchState) (winner : Z)
    : M unit :=
  if (Z.of_nat (length (rounds setup)) <=? m_round m)%Z then mret tt
  else
    let next_round := wrap_u8 (m_round m + 1) in
    _ ← Storage.set_one (slot_key contest next_round (m_pos m)) (show winner);
    if decide (is_Some (third_place setup) ∧ next_round = Z.of_nat (length (rounds setup))) then
      let loser := opponent_of m winner in
      Storage.set_one (slot_key contest next_round (wrap_u8 (m_pos m + 2))) (show loser)
    else mret tt.

Definition cancel_game_timers (contest match_id : Z) (m : MatchState) (game : XiaojuState)
    : M unit :=
  if decide (x_decided game = true ∨ m_state m = Decided ∨ m_state m = NeedsAdjudication) then
    _ ← Timer.cancel (xiaoju_timer_key contest match_id (x_index game));
    Timer.cancel (judgewait_timer_key contest match_id (x_index game))
  else if decide (m_state m = AwaitingJudge) then
    Timer.cancel (xiaoju_timer_key contest match_id (x_index game))
  else mret tt.

(** [finish_transition]; [open_stage] is [try_open_stage], whose opening of the
    next stage may come back to a match of that stage. *)
Definition finish_transition (open_stage : Z → Z → M unit) (contest match_id : Z) (setup : Setup)
    (updated : MatchState) : M unit :=
  _ ← (if decide (m_state updated = Decided ∨ m_state updated = NeedsAdjudication)
       then Timer.cancel (start_timer_key contest match_id) else mret tt);
  effective_timers ← publish contest match_id updated;
  _ ← match m_winner updated with
      | Some winner =>
          if decide (m_state updated = Decided) then
            _ ← write_next_round_slots contest setup updated winner;
            open_stage contest (wrap_u8 (m_round updated + 1))
          else mret tt
      | None => mret tt
      end;
  _ ← mapM_ Timer.cancel effective_timers;
  _ ← (if decide (m_state updated = Decided ∧ m_xiaoju updated = [])
       then Timer.cancel (xiaoju_timer_key contest match_id 0) else mret tt);
  mapM_ (cancel_game_timers contest match_id updated) (m_xiaoju updated).

Definition advance_with (open_stage : Z → Z → M unit) (contest match_id : Z) : M unit :=
  setup ← load_setup contest;
  match setup with
  | None => mret tt
  | Some setup =>
      current ← load_match contest match_id;
      match current with
      | None => mret tt
      | Some _ =>
          updated ← update_match contest match_id (step contest match_id setup);
          finish_transition open_stage contest match_id setup updated
      end
  end.

(** ** Starting matches *)

(** What the update of [advance_preparation] does to the match. *)
Definition prepare (contest match_id : Z) (setup : Setup) (stage : StageClock) (clock : Clock)
    (m : MatchState) : M MatchState :=
  if negb (bool_decide (m_state m = Ordering ∨ m_state m = Preparing)) then mret m
  else if contest_ended clock then mret (adjudicate ContestEnded m)
  else
    let m :=
      if ((sc_ordering_deadline_ms stage <=? clk_now clock)%Z
          && bool_decide (m_state m = Ordering))
      then set_state Preparing (fill_missing_orders m) else m in
    if ((sc_starts_at_ms stage <=? clk_now clock)%Z && bool_decide (m_state m = Preparing))
    then open_xiaoju_at contest match_id setup clock (sc_starts_at_ms stage)
           (set_state InProgress m)
    else mret m.

Definition advance_preparation (contest match_id : Z) (setup : Setup) (current : MatchState)
    : M unit :=
  if negb (bool_decide (m_state current = Ordering ∨ m_state current = Preparing)) then mret tt
  else
    match stage_clocks setup !! m_round current with
    | None => mret tt
    | Some stage =>
        if sc_awaiting_reschedule stage then mret tt
        else
          clock ← clock contest;
          updated ← update_match contest match_id (prepare contest match_id setup stage clock);
          match m_state updated with
          | Ordering =>
              Timer.schedule (sc_ordering_deadline_ms stage) (start_timer_key contest match_id) []
          | Preparing =>
              Timer.schedule (sc_starts_at_ms stage) (start_timer_key contest match_id) []
          | _ => mret tt
          end
    end.

(** The update of [try_autostart] for a stage without a schedule. *)
Definition autostart (contest match_id : Z) (setup : Setup) (matches : list (Z * MatchState))
    (contest_start : Z) (clock : Clock) (m : MatchState) : M MatchState :=
  if decide (start_at_ms setup matches m contest_start = None) then mret m
  else open_xiaoju contest match_id setup clock (set_state InProgress m).

Definition scheduled_round (setup : Setup) (round : Z) : bool :=
  match rounds setup !! Z.to_nat (Z.max 0 (round - 1)) with
  | Some r => bool_decide (is_Some (rd_start_at_ms r))
  | None => false
  end.

Definition try_autostart_with (advance : Z → Z → M unit) (contest match_id : Z) : M unit :=
  setup ← load_setup contest;
  match setup with
  | None => mret tt
  | Some setup =>
      current ← load_match contest match_id;
      match current with
      | None => mret tt
      | Some current =>
          if decide (m_state current = Intermission) then advance contest match_id
          else if scheduled_round setup (m_round current) then
            advance_preparation contest match_id setup current
          else
            matches ← load_all_matches contest;
            times ← contest_times contest;
            let contest_start := ct_start_ms times in
            match start_at_ms setup matches current contest_start with
            | None => mret tt
            | Some at_ms =>
                clock ← clock contest;
                if contest_ended clock
                   || match clk_contest_end clock with Some e => (e <=? at_ms)%Z | None => false end
                then mret tt
                else if (clk_now clock <? at_ms)%Z then
                  Timer.schedule at_ms (start_timer_key contest match_id) []
                else
                  _ ← update_match contest match_id
                        (autostart contest match_id setup matches contest_start clock);
                  mret tt
            end
      end
  end.

(** ** Opening stages *)

Definition matches_in (matches : list (Z * MatchState)) (round : Z) : nat :=
  length (matches_of_round matches round).

Definition stage_timer (contest round at_ms : Z) : ustring :=
  stage_timer_key contest round ++ u ":" ++ show at_ms.

(** Positions [0 .. match_count - 1]. *)
Definition positions (setup : Setup) (round : Z) : list Z := seqZ 0 (match_count setup round).

Definition open_scheduled_matches (try_autostart : Z → Z → M unit) (contest : Z) (setup : Setup)
    (round : Z) : M unit :=
  mapM_ (λ pos,
    _ ← create_match_if_both_slots_filled contest setup round pos;
    try_autostart contest (match_id_for (player_count setup) round pos)) (positions setup round).

Definition record_clock (round : Z) (clock : StageClock) (setup : Setup) : Setup :=
  let setup := set_stage_clocks (<[round := clock]> (stage_clocks setup)) setup in
  if sc_awaiting_reschedule clock then setup
  else set_opened_rounds (Nat.max (opened_rounds setup) (Z.to_nat round)) setup.

(** [try_open_scheduled]: true when the stage has a schedule of its own. *)
Fixpoint open_scheduled_loop (tries : nat) (try_autostart : Z → Z → M unit) (contest round : Z)
    : M bool :=
  match tries with
  | O => throw (Other (u "Stage opening CAS retry limit exceeded"))
  | S tries =>
      let key := setup_key contest in
      snapshot ← Storage.snapshot key;
      match snapshot with
      | None => mret false
      | Some snapshot =>
          setup ← parse_json (A := Setup) (sn_value snapshot);
          match round_at setup round ≫= rd_start_at_ms with
          | None => mret false
          | Some start_at =>
              now ← clock contest;
              if contest_ended now then mret true
              else
                let timer := stage_timer contest round start_at in
                if (clk_now now <? start_at)%Z then
                  Timer.schedule start_at timer [] ≫= λ _, mret true
                else
                  matches ← load_all_matches contest;
                  times ← contest_times contest;
                  clock ← lift (decide_clock setup matches round (ct_start_ms times));
                  let same := bool_decide (stage_clocks setup !! round = Some clock) in
                  let setup' := if same then setup else record_clock round clock setup in
                  swapped ←
                    (if same then mret true
                     else
                       _ ← Timer.schedule (clk_now now +s 1000) timer [];
                       Storage.compare_and_set_snapshot key (Some snapshot) (to_json setup'));
                  if negb swapped then open_scheduled_loop tries try_autostart contest round
                  else if sc_awaiting_reschedule clock then
                    Timer.cancel timer ≫= λ _, mret true
                  else
                    _ ← open_scheduled_matches try_autostart contest setup' round;
                    created ← load_all_matches contest;
                    if decide (Z.of_nat (matches_in created round) ≠ match_count setup' round) then
                      throw (Other (u "Stage is waiting for feeder slots"))
                    else Timer.cancel timer ≫= λ _, mret true
          end
      end
  end.

(** [try_open_stage] once [try_open_scheduled] has declined. *)
Fixpoint open_stage_loop (tries : nat) (contest round : Z) : M unit :=
  match tries with
  | O => throw (Other (u "Stage opening CAS retry limit exceeded"))
  | S tries =>
      let key := setup_key contest in
      snapshot ← Storage.snapshot key;
      match snapshot with
      | None => mret tt
      | Some snapshot =>
          setup ← parse_json (A := Setup) (sn_value snapshot);
          if ((round =? 0) || (Z.of_nat (length (rounds setup)) <? round)
              || (Z.of_nat (opened_rounds setup) + 1 <? round))%Z
          then mret tt
          else
            matches ← load_all_matches contest;
            if decide (1 < round ∧ stage_open_at_ms setup matches round 0 = None)%Z then mret tt
            else
              times ← contest_times contest;
              match stage_open_at_ms setup matches round (ct_start_ms times) with
              | None => mret tt
              | Some at_ms =>
                  now ← now_ms;
                  if match ct_end_ms times with
                     | Some e => ((e <=? now) || (e <=? at_ms))%Z
                     | None => false
                     end
                  then mret tt
                  else
                    let wake := if (now <? at_ms)%Z then at_ms else now +s 1000 in
                    let timer_key := stage_timer contest round wake in
                    _ ← Timer.schedule wake timer_key [];
                    if (now <? at_ms)%Z then mret tt
                    else
                      let opening := opened_rounds setup <? Z.to_nat round in
                      let setup' := if opening then set_opened_rounds (Z.to_nat round) setup
                                    else setup in
                      swapped ←
                        (if opening then
                           Storage.compare_and_set_snapshot key (Some snapshot) (to_json setup')
                         else mret true);
                      if negb swapped then open_stage_loop tries contest round
                      else
                        _ ← mapM_ (create_match_if_both_slots_filled contest setup' round)
                              (positions setup' round);
                        created ← load_all_matches contest;
                        if decide (Z.of_nat (matches_in created round) ≠ match_count setup' round)
                        then throw (Other (u "Stage is waiting for winner slots; retry opening"))
                        else Timer.cancel timer_key
              end
      end
  end.

Definition try_open_stage_with (try_autostart : Z → Z → M unit) (contest round : Z) : M unit :=
  done ← open_scheduled_loop 100 try_autostart contest round;
  if done : bool then mret tt else open_stage_loop 100 contest round.

(** [advance], [try_autostart] and [try_open_stage] call each other: opening
    the stage after a decided match starts its matches.  [fuel] bounds the
    depth of the calls; running out of it is running out of stack. *)
Fixpoint advance_deep (fuel : nat) (contest match_id : Z) : M unit :=
  match fuel with
  | O => panic
  | S fuel =>
      advance_with (try_open_stage_with (try_autostart_with (advance_deep fuel))) contest match_id
  end.

(** One level per stage, and a stage number has eight bits. *)
Definition call_depth : nat := 257.

Definition advance : Z → Z → M unit := advance_deep call_depth.
Definition try_autostart : Z → Z → M unit := try_autostart_with advance.
Definition try_open_stage : Z → Z → M unit := try_open_stage_with try_autostart.

(** ** Staff and timers *)

Definition escalate_update (m : MatchState) : MatchState :=
  if decide (m_state m ≠ AwaitingJudge) then m else adjudicate StuckJudge m.

Definition escalate (contest match_id : Z) : M unit :=
  setup ← load_setup contest;
  current ← match setup with Some _ => load_match contest match_id | None => mret None end;
  match current with
  | None => mret tt
  | Some _ =>
      _ ← update_match contest match_id (λ m, mret (escalate_update m));
      mret tt
  end.

Definition ALREADY_DECIDED_MSG : ustring := u "this match has already been decided".

Definition apply_force_decide (m : MatchState) (winner now : Z) : result ustring MatchState :=
  if decide (winner ≠ m_player_a m ∧ winner ≠ m_player_b m) then Err (not_a_participant winner)
  else if decide (m_state m = Decided) then Err ALREADY_DECIDED_MSG
  else
    let m := set_winner (Some winner) (set_state Decided m) in
    let m := set_decided_at_ms now (set_next_game_at_ms None m) in
    Ok (set_adjudication_reason None (set_awaiting_submission_id None m)).

Definition force_decide_update (contest match_id winner : Z) (m : MatchState) : M MatchState :=
  now ← now_ms;
  m ← match apply_force_decide m winner now with
      | Ok m => mret m
      | Err e => throw (Other e)
      end;
  let index := match last (m_xiaoju m) with Some g => x_index g | None => 0%Z end in
  _ ← Timer.schedule (now +s 1000) (xiaoju_timer_key contest match_id index) [];
  mret m.

Definition force_decide (contest match_id winner : Z) : M unit :=
  setup ← load_setup contest;
  match setup with
  | None => throw (Other (u "the bracket has not been set up yet"))
  | Some setup =>
      current ← load_match contest match_id;
      match current with
      | None => throw (Other (u "match not found"))
      | Some _ =>
          updated ← update_match contest match_id (force_decide_update contest match_id winner);
          finish_transition try_open_stage contest match_id setup updated
      end
  end.

(** A judged submission advances the match of its player. *)
Definition resolve_and_advance (contest_id user_id problem_id : Z) : M unit :=
  setup ← load_setup contest_id;
  match setup with
  | None => mret tt
  | Some setup =>
      match problem_round setup problem_id with
      | None => mret tt
      | Some round =>
          matches ← load_all_matches contest_id;
          match find_players_match matches round user_id with
          | None => mret tt
          | Some m =>
              advance contest_id (match_id_for (player_count setup) (m_round m) (m_pos m))
          end
      end
  end.

(** The handler a key belongs to; [None] for a key the plugin did not write. *)
Definition timer_handler (key : ustring) : option (M unit) :=
  match parse_xiaoju_timer_key key with
  | Some (contest, match_id) => Some (advance contest match_id)
  | None =>
      match parse_start_timer_key key with
      | Some (contest, match_id) => Some (try_autostart contest match_id)
      | None =>
          match parse_stage_timer_key key with
          | Some (contest, round) => Some (try_open_stage contest round)
          | None =>
              match parse_judgewait_timer_key key with
              | Some (contest, match_id) => Some (escalate contest match_id)
              | None => None
              end
          end
      end
  end.

(** A handler that fails is scheduled again a second later. *)
Definition handle_timer (key : ustring) (fire_at_ms : Z) : M unit := λ h,
  match timer_handler key with
  | None => log_info (u "codelink-bracket: unparseable timer key: " ++ key) h
  | Some handler =>
      match handler h with
      | Some (Err e, h') =>
          (Timer.schedule (fire_at_ms +s 1000) key [] ≫= λ _, throw (A := unit) e) h'
      | other => other
      end
  end.

(** ** Ranking requests (ordering.rs) *)

(** The update [handle_order] makes, inside the ordering window of a scheduled
    stage when there is one. *)
Definition order_update (window : option (Z * Z)) (submitter : Z) (order : list Z)
    (m : MatchState) : M MatchState :=
  now ← now_ms;
  if match window with Some (start, stop) => ((now <? start) || (stop <=? now))%Z | None => false end
  then throw (Other ORDERING_CLOSED_MSG)
  else
    match record_order m submitter order with
    | Ok m => mret m
    | Err e => throw (Other e)
    end.

(** ** Starting a match by hand (routes.rs) *)

Definition force_start (m : MatchState) : result ustring MatchState :=
  if decide (m_state m ≠ Ordering) then Err (u "match is not awaiting start")
  else Ok (set_state InProgress (fill_missing_orders m)).

(** The update [handle_start] makes. *)
Definition start_update (contest match_id : Z) (setup : Setup) (m : MatchState) : M MatchState :=
  clock ← clock contest;
  m ← match force_start m with
      | Ok m => mret m
      | Err e => throw (Other e)
      end;
  open_xiaoju contest match_id setup clock m.

End judge.
