(* ===== verification/BracketInvariant.v ===== *)
(** * BracketInvariant: every reachable match is in order

    A match document only changes through the functions handed to
    [update_match]: recording a ranking, starting a match with or without a
    schedule, a step, an escalation, a decision of the staff.  Each of them
    runs on whatever host it finds: the relation [match_step] leaves clock,
    submissions and timers free, so the invariant holds for every interleaving
    of handlers, deliveries of timers and results of judging. *)

From S2P Require Import Prelude Text Float Verdict Sdk Host BracketModel.
From S2P Require Import BracketDecide BracketDecideProofs BracketPacing.
From S2P Require Import BracketJudge.

Open Scope machine_scope.

Section invariant.
Context `{Serde MatchState, Serde Setup, Serde AdmissionMetadata}.

(** What changes a match document. *)
Inductive match_step (setup : Setup) (m m' : MatchState) : Prop :=
  | do_order window submitter order h h' :
      order_update window submitter order m h = Some (Ok m', h') → match_step setup m m'
  | do_autostart contest match_id matches contest_start clock h h' :
      autostart contest match_id setup matches contest_start clock m h = Some (Ok m', h') →
      match_step setup m m'
  | do_prepare contest match_id stage clock h h' :
      prepare contest match_id setup stage clock m h = Some (Ok m', h') → match_step setup m m'
  | do_step contest match_id h h' :
      step contest match_id setup m h = Some (Ok m', h') → match_step setup m m'
  | do_escalate : m' = escalate_update m → match_step setup m m'
  | do_force contest match_id winner h h' :
      force_decide_update contest match_id winner m h = Some (Ok m', h') →
      match_step setup m m'
  | do_start contest match_id h h' :
      start_update contest match_id setup m h = Some (Ok m', h') → match_step setup m m'.

(** ** The invariant *)

Definition wins (m : MatchState) (player : Z) : nat :=
  length (filter (λ x, x_winner x = Some player) (m_xiaoju m)).

Definition extra_used (games : list XiaojuState) : Z :=
  foldr (λ x acc, x_extra_time_used_ms x + acc)%Z 0%Z games.

Definition participant (m : MatchState) (w : Z) : Prop := w = m_player_a m ∨ w = m_player_b m.

(** The games recorded so far. *)
Record games_ok (rd : RoundDef) (m : MatchState) : Prop := {
  g_group : length (m_group_a m) = length (rd_group_a rd);
  g_players : m_player_a m ≠ m_player_b m;
  g_index : ∀ i x, m_xiaoju m !! i = Some x → x_index x = Z.of_nat i;
  g_settled : ∀ i x, m_xiaoju m !! i = Some x → S i < length (m_xiaoju m) → x_decided x = true;
  g_winner : ∀ x, x ∈ m_xiaoju m →
    if x_decided x then (∀ w, x_winner x = Some w → participant m w)
    else x_winner x = None ∧ x_extra_time_used_ms x = 0%Z;
  g_bound : length (m_xiaoju m) ≤ length (rd_group_a rd) + length (rd_tiebreak rd);
  g_score_a : m_score_a m = Z.of_nat (wins m (m_player_a m));
  g_score_b : m_score_b m = Z.of_nat (wins m (m_player_b m));
  g_extra : (0 ≤ m_extra_time_remaining_ms m ≤ i64_max)%Z ∧
    (m_xiaoju m ≠ [] →
     m_extra_time_remaining_ms m + extra_used (m_xiaoju m) = m_match_extra_time_seconds m * 1000)%Z;
  g_used : Forall (λ x, 0 ≤ x_extra_time_used_ms x)%Z (m_xiaoju m);
}.

Definition below_target (rd : RoundDef) (m : MatchState) : Prop :=
  Z.to_nat (Z.max (m_score_a m) (m_score_b m)) < win_target rd.

Definition open_game (m : MatchState) : Prop :=
  ∃ x, last (m_xiaoju m) = Some x ∧ x_decided x = false.

Definition tiebreak_at (rd : RoundDef) (m : MatchState) (games : nat) : Prop :=
  games = length (rd_group_a rd) + m_tiebreak_index m ∧
  m_tiebreak_index m < length (rd_tiebreak rd).

Definition playing_regular (rd : RoundDef) (m : MatchState) : Prop :=
  open_game m ∧ length (m_xiaoju m) ≤ length (rd_group_a rd) ∧ below_target rd m.

Definition playing_tiebreak (rd : RoundDef) (m : MatchState) : Prop :=
  open_game m ∧ below_target rd m ∧ ∃ n, length (m_xiaoju m) = S n ∧ tiebreak_at rd m n.

(** Every game played is settled and another one is due. *)
Definition next_due (rd : RoundDef) (m : MatchState) (p : MatchPhase) : Prop :=
  (∀ x, x ∈ m_xiaoju m → x_decided x = true) ∧ below_target rd m ∧
  (p = InProgress ∧ length (m_xiaoju m) < length (rd_group_a rd) ∨
   p = Tiebreak ∧ tiebreak_at rd m (length (m_xiaoju m))).

Definition phase_ok (rd : RoundDef) (m : MatchState) : Prop :=
  match m_state m with
  | Pending | Ordering | Preparing => m_xiaoju m = []
  | InProgress => playing_regular rd m
  | Tiebreak => playing_tiebreak rd m
  | AwaitingJudge => playing_regular rd m ∨ playing_tiebreak rd m
  | Intermission => is_Some (m_next_game_at_ms m) ∧ m_xiaoju m ≠ [] ∧ ∃ p, next_due rd m p
  | Decided => ∃ w, m_winner m = Some w ∧ participant m w
  | NeedsAdjudication => is_Some (m_adjudication_reason m)
  end.

Definition match_ok (rd : RoundDef) (m : MatchState) : Prop := games_ok rd m ∧ phase_ok rd m.

(** What the validation of a setup guarantees of the games of a match. *)
Record round_ok (setup : Setup) (rd : RoundDef) : Prop := {
  r_target : 1 ≤ win_target rd ≤ length (rd_group_a rd);
  r_tiebreak : 1 ≤ length (rd_tiebreak rd);
  r_small : length (rd_group_a rd) + length (rd_tiebreak rd) ≤ 256;
  r_extra : (0 ≤ default (setup_extra_time_seconds setup) (rd_match_extra_time_seconds rd))%Z;
}.

(** ** Opening a game *)

Definition fresh_game (m : MatchState) (x : XiaojuState) : Prop :=
  x_index x = wrap_u8 (Z.of_nat (length (m_xiaoju m))) ∧ x_extra_time_used_ms x = 0%Z ∧
  x_winner x = None ∧ x_decided x = false.

(** The fields that opening a game, or waiting, leaves alone. *)
Definition kept (m m' : MatchState) : Prop :=
  m_round m' = m_round m ∧ m_pos m' = m_pos m ∧
  m_player_a m' = m_player_a m ∧ m_player_b m' = m_player_b m ∧
  length (m_group_a m') = length (m_group_a m) ∧
  m_score_a m' = m_score_a m ∧ m_score_b m' = m_score_b m ∧
  m_tiebreak_index m' = m_tiebreak_index m.

Lemma game_at_fresh m d at_ms x : game_at m d at_ms = Ok x → fresh_game m x.
Proof.
  unfold game_at. intros E. repeat apply result_bind_Ok in E as (? & _ & E).
  by injection E as <-.
Qed.

Lemma start_budget_inv setup rd m m' :
  start_budget setup rd m = Ok m' →
  m_xiaoju m' = m_xiaoju m ∧ m_state m' = m_state m ∧ kept m m' ∧
  if decide (m_xiaoju m = []) then
    m_match_extra_time_seconds m' =
      default (setup_extra_time_seconds setup) (rd_match_extra_time_seconds rd) ∧
    m_extra_time_remaining_ms m' = (m_match_extra_time_seconds m' * 1000)%Z ∧
    in_i64 (m_extra_time_remaining_ms m')
  else m' = m.
Proof.
  unfold start_budget. destruct (decide (m_xiaoju m = [])) as [E|E].
  - intros (ms & Hms & Em)%result_bind_Ok. injection Em as <-.
    destruct (checked64 _) as [x|] eqn:Ex; [|done]. injection Hms as ->.
    by apply checked64_Some in Ex as [-> ?].
  - by intros [= <-].
Qed.

(** Opening a game appends a fresh one; the first one also sets the budget. *)
Lemma open_xiaoju_at_inv contest match_id setup clock at_ms m h m' h' rd :
  round_for_match setup (m_round m) (m_pos m) = Some rd →
  open_xiaoju_at contest match_id setup clock at_ms m h = Some (Ok m', h') →
  ∃ m1 x, start_budget setup rd m = Ok m1 ∧ fresh_game m x ∧
    m_xiaoju m' = m_xiaoju m ++ [x] ∧
    m_extra_time_remaining_ms m' = m_extra_time_remaining_ms m1 ∧
    m_match_extra_time_seconds m' = m_match_extra_time_seconds m1 ∧
    m_state m' = m_state m ∧ kept m m'.
Proof.
  intros Hrd Hrun. unfold open_xiaoju_at in Hrun. run_inv.
  rewrite Hrd in Hrun0. injection Hrun0 as <-.
  destruct (start_budget_inv _ _ _ _ Hrun1) as (Hx & Hst & Hkept & _).
  apply game_at_fresh in Hrun2.
  assert (∀ m, m_xiaoju (fix_durations rd m) = m_xiaoju m ∧
    m_state (fix_durations rd m) = m_state m ∧ kept m (fix_durations rd m) ∧
    m_extra_time_remaining_ms (fix_durations rd m) = m_extra_time_remaining_ms m ∧
    m_match_extra_time_seconds (fix_durations rd m) = m_match_extra_time_seconds m) as Hfix.
  { intros m1. unfold fix_durations. by destruct (m_game_durations m1). }
  destruct (Hfix a0) as (Fx & Fs & Fk & Fe & Fm). unfold fresh_game in Hrun2 |- *.
  rewrite Fx, Hx in Hrun2. exists a0, a1. unfold kept in *. cbn. rewrite Fx, Hx, Fs, Fe, Fm.
  intuition congruence.
Qed.

(** ** Counting games *)

Lemma wins_le m p : wins m p ≤ length (m_xiaoju m).
Proof. apply length_filter. Qed.

Lemma extra_used_app l1 l2 : extra_used (l1 ++ l2) = (extra_used l1 + extra_used l2)%Z.
Proof. induction l1 as [|x l1 IH]; simpl; [done|]. rewrite IH. lia. Qed.

Lemma below_kept rd m m' : kept m m' → below_target rd m → below_target rd m'.
Proof. unfold kept, below_target. intros (_&_&_&_&_&-> & -> &_). done. Qed.

Lemma tiebreak_kept rd m m' n : kept m m' → tiebreak_at rd m n → tiebreak_at rd m' n.
Proof. unfold kept, tiebreak_at. intros (_&_&_&_&_&_&_& ->). done. Qed.

(** Opening a game that is due keeps the match in order. *)
Lemma open_games_ok setup rd m m1 m' x :
  round_ok setup rd → games_ok rd m → next_due rd m (m_state m) →
  start_budget setup rd m = Ok m1 → fresh_game m x →
  m_xiaoju m' = m_xiaoju m ++ [x] →
  m_extra_time_remaining_ms m' = m_extra_time_remaining_ms m1 →
  m_match_extra_time_seconds m' = m_match_extra_time_seconds m1 → kept m m' →
  games_ok rd m'.
Proof.
  intros Hr Hg (Hset & _ & Hdue) Hb (Hi & Hu & Hw & Hd) Hx He Hme Hk.
  assert (length (m_xiaoju m) < length (rd_group_a rd) + length (rd_tiebreak rd)) as Hlen.
  { destruct Hdue as [[_ ?]|(_ & ? & ?)]; lia. }
  pose proof (r_small _ _ Hr).
  assert (∀ p, wins m' p = wins m p) as Hwins.
  { intros p. unfold wins. by rewrite Hx, filter_app, filter_cons_False, app_nil_r by (by rewrite Hw). }
  destruct Hk as (_ & _ & Ha & Hb' & Hga & Hsa & Hsb & _). destruct Hg.
  split; rewrite ?Hx, ?Ha, ?Hb', ?Hsa, ?Hsb, ?Hwins; try done.
  - congruence.
  - intros i y. rewrite lookup_app. destruct (m_xiaoju m !! i) eqn:E; [intros [= ->]; auto|].
    apply lookup_ge_None in E. intros Hy. apply list_lookup_singleton_Some in Hy as [Hy <-].
    rewrite Hi, wrap_u8_id by mlia. f_equal. lia.
  - intros i y Hy. rewrite length_app. cbn. intros Hlt. rewrite lookup_app_l in Hy by lia.
    apply Hset. by eapply list_elem_of_lookup_2.
  - intros y [Hy|Hy%list_elem_of_singleton]%elem_of_app.
    + specialize (g_winner0 y Hy). unfold participant in *. by rewrite Ha, Hb'.
    + subst y. by rewrite Hd.
  - rewrite length_app. cbn. lia.
  - destruct (start_budget_inv _ _ _ _ Hb) as (_ & _ & _ & Hbud). rewrite He, Hme.
    destruct (decide (m_xiaoju m = [])) as [E|E].
    + destruct Hbud as (Hs & Hrem & Hin). pose proof (r_extra _ _ Hr). split; [mlia|].
      intros _. rewrite E. cbn. lia.
    + subst m1. destruct g_extra0 as [? Hsum]. split; [done|]. intros _.
      rewrite extra_used_app. cbn. specialize (Hsum E). lia.
  - apply Forall_app. split; [done|]. repeat constructor. lia.
Qed.

Lemma open_match_ok contest match_id setup clock at_ms rd m h m' h' :
  round_ok setup rd → round_for_match setup (m_round m) (m_pos m) = Some rd →
  games_ok rd m → next_due rd m (m_state m) →
  open_xiaoju_at contest match_id setup clock at_ms m h = Some (Ok m', h') →
  match_ok rd m' ∧ kept m m'.
Proof.
  intros Hr Hrd Hg Hdue Hrun.
  destruct (open_xiaoju_at_inv _ _ _ _ _ _ _ _ _ _ Hrd Hrun)
    as (m1 & x & Hb & Hf & Hx & He & Hme & Hst & Hk).
  split; [|done]. split; [by eapply open_games_ok|].
  assert (open_game m') as Hopen.
  { exists x. rewrite Hx, last_snoc. split; [done|]. apply Hf. }
  unfold phase_ok. rewrite Hst. destruct Hdue as (_ & Hbel & [[-> Hlen]|[-> Htb]]).
  - split_and!; [done| |by eapply below_kept]. rewrite Hx, length_app. cbn. lia.
  - split_and!; [done|by eapply below_kept|]. exists (length (m_xiaoju m)). rewrite Hx, length_app. cbn.
    split; [lia|by eapply tiebreak_kept].
Qed.

(** ** Recording a result *)

Lemma settled_init rd m init game :
  games_ok rd m → m_xiaoju m = init ++ [game] → ∀ x, x ∈ init → x_decided x = true.
Proof.
  intros Hg Hx x [i Hi]%list_elem_of_lookup. pose proof (lookup_lt_Some _ _ _ Hi).
  apply (g_settled _ _ Hg i); rewrite Hx; [by rewrite lookup_app_l|].
  rewrite length_app. cbn. lia.
Qed.

Lemma score_after (w : option Z) p (n : nat) (old new : Z) (b : bool) :
  n < 255 → old = Z.of_nat n → b = bool_decide (w = Some p) →
  new = (if b then wrap_u8 (old + 1) else old) →
  new = Z.of_nat (n + (if decide (w = Some p) then 1 else 0)).
Proof.
  intros Hn -> -> ->. case_bool_decide; [rewrite decide_True by done|rewrite decide_False by done].
  - rewrite wrap_u8_id by mlia. lia.
  - lia.
Qed.

Lemma wins_snoc m init game p :
  m_xiaoju m = init ++ [game] →
  wins m p = length (filter (λ x, x_winner x = Some p) init) +
             (if decide (x_winner game = Some p) then 1 else 0).
Proof.
  intros Hx. unfold wins. rewrite Hx, filter_app, length_app. f_equal.
  rewrite filter_cons. by destruct (decide (x_winner game = Some p)).
Qed.

Lemma recorded_wins rd m m' game w :
  games_ok rd m → last (m_xiaoju m) = Some game → x_decided game = false →
  recorded m m' game w →
  ∀ p, wins m' p = wins m p + (if decide (w = Some p) then 1 else 0).
Proof.
  intros Hg [init Hx]%last_inv Hopen Hrec p.
  destruct (rec_games _ _ _ _ Hrec) as (used & Hx' & _).
  rewrite Hx, update_last_snoc in Hx'.
  rewrite (wins_snoc m init game p Hx), (wins_snoc m' init _ p Hx'). cbn [close_game x_winner].
  assert (game ∈ m_xiaoju m) as Hin by (rewrite Hx; set_solver).
  pose proof (g_winner _ _ Hg game Hin) as Hw. rewrite Hopen in Hw. destruct Hw as [-> _].
  rewrite (decide_False (P := None = Some p)) by done. lia.
Qed.

Lemma recorded_games_ok setup rd m m' game w :
  round_ok setup rd → games_ok rd m → below_target rd m →
  last (m_xiaoju m) = Some game → x_decided game = false →
  recorded m m' game w → (∀ w0, w = Some w0 → participant m w0) →
  games_ok rd m' ∧ (∀ x, x ∈ m_xiaoju m' → x_decided x = true).
Proof.
  intros Hr Hg Hbel Hlast Hopen Hrec Hpart.
  pose proof (recorded_wins _ _ _ _ _ Hg Hlast Hopen Hrec) as Hwins.
  destruct (last_inv _ _ Hlast) as [init Hx].
  pose proof (settled_init _ _ _ _ Hg Hx) as Hinit.
  destruct Hrec as [(used & Hx' & Hextra) Hlen Hsc [Ha Hb] [_ _] (_ & _ & Hga & _ & Hme)].
  rewrite Hx, update_last_snoc in Hx'.
  assert (game ∈ m_xiaoju m) as Hin by (rewrite Hx; set_solver).
  pose proof (g_winner _ _ Hg game Hin) as Hw. rewrite Hopen in Hw. destruct Hw as [Hw0 Hu0].
  pose proof (r_small _ _ Hr) as Hsmall. pose proof (g_bound _ _ Hg) as Hbound.
  assert (∀ p, participant m p → wins m p < 255) as Hwlt.
  { intros p Hp. pose proof (r_target _ _ Hr). pose proof (r_tiebreak _ _ Hr).
    unfold below_target in Hbel. rewrite (g_score_a _ _ Hg), (g_score_b _ _ Hg) in Hbel.
    destruct Hp as [-> | ->]; lia. }
  split.
  2: { intros x. rewrite Hx', elem_of_app, list_elem_of_singleton. intros [?| ->]; [auto|done]. }
  destruct Hg, Hsc as [Hsa Hsb]. split; rewrite ?Ha, ?Hb, ?Hga, ?Hme; try done.
  - intros i x Hi. assert (i < length (m_xiaoju m)).
    { rewrite <- Hlen. by eapply lookup_lt_Some. }
    destruct (m_xiaoju m !! i) as [y|] eqn:E; [|apply lookup_ge_None in E; lia].
    rewrite <- (g_index0 i y E). rewrite Hx' in Hi. rewrite Hx in E.
    destruct (decide (i < length init)).
    + rewrite lookup_app_l in Hi, E by done. congruence.
    + rewrite lookup_app_r in Hi, E by lia.
      apply list_lookup_singleton_Some in Hi as [_ <-], E as [_ <-]. done.
  - intros i x Hi Hs. rewrite Hlen, Hx, length_app in Hs. cbn in Hs.
    rewrite Hx', lookup_app_l in Hi by lia. apply Hinit. by eapply list_elem_of_lookup_2.
  - intros x. rewrite Hx', elem_of_app, list_elem_of_singleton. unfold participant in *.
    rewrite Ha, Hb. intros [Hxi| ->]; [|cbn; exact Hpart].
    apply g_winner0. rewrite Hx. set_solver.
  - by rewrite Hlen.
  - rewrite Hwins. eapply (score_after w); [apply Hwlt; by left|done|done|].
    rewrite Hsa. destruct (decide (w = Some (m_player_a m))) as [E|E];
      [by rewrite bool_decide_true|by rewrite bool_decide_false].
  - rewrite Hwins. eapply (score_after w); [apply Hwlt; by right|done|done|].
    rewrite Hsb. destruct (decide (w = Some (m_player_b m))) as [E|E];
      [rewrite bool_decide_true, decide_True by done|rewrite bool_decide_false, decide_False by naive_solver];
      done.
  - destruct g_extra0 as [Hrange Hsum]. destruct (Hextra Hrange) as (Hu & Hr' & Hs).
    split; [lia|]. intros _. rewrite Hx in Hsum. specialize (Hsum ltac:(by destruct init)).
    rewrite extra_used_app in Hsum. rewrite Hx', extra_used_app. cbn in *. lia.
  - rewrite Hx'. rewrite Hx in g_used0. apply Forall_app in g_used0 as [? _].
    apply Forall_app. split; [done|]. repeat constructor. cbn.
    destruct g_extra0 as [Hrange _]. destruct (Hextra Hrange); lia.
Qed.

(** ** One step of a live match *)

(** Setters of the other fields keep the games. *)
Ltac keep_games :=
  match goal with
  | Hg : games_ok ?rd ?m |- games_ok ?rd _ => destruct Hg; split; assumption
  end.

(** The last game is over and its point is counted. *)
Definition settled (rd : RoundDef) (m : MatchState) (p : MatchPhase) : Prop :=
  m_xiaoju m ≠ [] ∧ (∀ x, x ∈ m_xiaoju m → x_decided x = true) ∧
  (m_score_a m = m_score_b m ∨ last_scoreless m → below_target rd m) ∧
  (p = InProgress ∧ length (m_xiaoju m) ≤ length (rd_group_a rd) ∨
   p = Tiebreak ∧ ∃ n, length (m_xiaoju m) = S n ∧ tiebreak_at rd m n).

(** What deciding the match makes of it. *)
Lemma decide_match_next setup rd m o m' :
  round_for_match setup (m_round m) (m_pos m) = Some rd → games_ok rd m →
  settled rd m (m_state m) → decide_match m setup = (o, m') →
  games_ok rd m' ∧ m_xiaoju m' = m_xiaoju m ∧ m_round m' = m_round m ∧ m_pos m' = m_pos m ∧
  match o with
  | MNotYet | MOpenTiebreak _ => next_due rd m' (m_state m')
  | MDecided w => m_state m' = Decided ∧ phase_ok rd m'
  | MNeedsAdjudication => m_state m' = NeedsAdjudication ∧ phase_ok rd m'
  end.
Proof.
  intros Hrd Hg (Hne & Hall & Hlev & Hset) Hd.
  assert (live (m_state m)) as Hlive by (destruct Hset as [[-> _]|[-> _]]; done).
  pose proof (match_decision_inv m setup rd o m' Hlive Hrd Hd) as Hs.
  destruct o as [|w|p|]; cbn in Hs.
  - destruct Hs as [-> Hs]. split_and!; try done. split; [done|].
    destruct Hset as [[Hp Hlen]|[Hp Htb]]; rewrite Hp in *.
    + rewrite decide_False in Hs by done. unfold below_target.
      assert (¬ (win_target rd ≤ Z.to_nat (Z.max (m_score_a m) (m_score_b m)) ∨
                 length (m_group_a m) ≤ length (m_xiaoju m))) as Hno.
      { intros Hor. apply Hs. by split_and!. }
      rewrite (g_group _ _ Hg) in Hno. split; [lia|]. left. split; [done|lia].
    + rewrite decide_True in Hs by done.
      destruct (last (m_xiaoju m)) as [x|] eqn:Hx; [|by apply last_None in Hx].
      specialize (Hs x eq_refl). by rewrite Hall in Hs by (by apply last_Some_elem_of).
  - destruct Hs as [-> Hs]. split_and!; try done; [keep_games|]. exists w. split; [done|].
    change (participant m w). destruct (decide _) as [Ht|Ht].
    + destruct Hs as (x & Hx & Hdec & Hw). pose proof (last_Some_elem_of _ _ Hx) as Hin.
      pose proof (g_winner _ _ Hg x Hin) as Hpart. rewrite Hdec in Hpart. auto.
    + destruct Hs as [_ [[-> _]|[-> _]]]; [by left|by right].
  - destruct Hs as (Hst & Hp & Hs). destruct (decide _) as [Ht|Ht].
    + destruct Hs as [Hless ->]. split_and!; try done; [keep_games|].
      split_and!; [done|exact (Hlev (or_intror Hless))|]. right.
      split; [done|]. destruct Hset as [[Hc _]|(_ & n & Hn & Htb & _)]; [congruence|].
      split; cbn in *; [lia|]. by apply lookup_lt_Some in Hp.
    + destruct Hs as ((_ & _ & Hor) & Heq & ->). split_and!; try done; [keep_games|].
      pose proof (Hlev (or_introl Heq)) as Hbel.
      split_and!; [done|exact Hbel|]. right. split; [done|].
      destruct Hset as [[_ Hlen]|[Hc _]]; [|congruence].
      unfold below_target in Hbel. rewrite (g_group _ _ Hg) in Hor.
      split; cbn in *; [lia|]. by apply lookup_lt_Some in Hp.
  - destruct Hs as [-> _]. split_and!; try done; [keep_games|by eexists].
Qed.

Lemma step_decided_ok contest match_id setup rd clock index m h m' h' :
  round_ok setup rd → round_for_match setup (m_round m) (m_pos m) = Some rd → games_ok rd m →
  settled rd m (if decide (m_state m = AwaitingJudge)
                then (if is_regular_game m index then InProgress else Tiebreak)
                else m_state m) →
  step_decided contest match_id setup rd clock index m h = Some (Ok m', h') →
  match_ok rd m' ∧ m_round m' = m_round m ∧ m_pos m' = m_pos m.
Proof.
  intros Hr Hrd Hg Hset Hrun. unfold step_decided in Hrun.
  set (m2 := if decide (m_state m = AwaitingJudge) then _ else m) in Hrun.
  assert (games_ok rd m2 ∧ settled rd m2 (m_state m2) ∧ m_round m2 = m_round m ∧
          m_pos m2 = m_pos m) as (Hg2 & Hset2 & Er & Ep).
  { unfold m2. destruct (decide (m_state m = AwaitingJudge)); [|done].
    split_and!; try done. keep_games. }
  clearbody m2. rewrite <- Er, <- Ep in Hrd |- *.
  destruct (decide_match m2 setup) as [o m3] eqn:Hd.
  destruct (decide_match_next _ _ _ _ _ Hrd Hg2 Hset2 Hd) as (Hg3 & Hx3 & Er3 & Ep3 & Ho).
  rewrite <- Er3, <- Ep3 in Hrd |- *.
  assert (m_xiaoju m3 ≠ []) as Hne by (rewrite Hx3; apply Hset2).
  assert (next_due rd m3 (m_state m3) →
    (if contest_ended clock then escalate_contest_ended contest match_id index m3
     else
       let seconds := game_break rd in
       if (seconds =? 0)%Z then open_xiaoju contest match_id setup clock m3
       else
         at_ms ← or_throw (duration ← seconds *? 1000; clk_now clock +? duration)
                   (Other (u "Intermission deadline overflow"));
         let m := set_next_game_at_ms (Some at_ms) (set_state Intermission m3) in
         Timer.schedule at_ms (start_timer_key contest match_id) [] ≫= λ _, mret m) h
      = Some (Ok m', h') →
    match_ok rd m' ∧ m_round m' = m_round m3 ∧ m_pos m' = m_pos m3) as Hnext.
  { clear Hrun. intros Hdue. destruct (contest_ended clock).
    { unfold escalate_contest_ended. intros Hrun. run_inv.
      split_and!; try done. split; [keep_games|by eexists]. }
    cbv zeta. destruct (_ =? 0)%Z.
    - intros Hrun. unfold open_xiaoju in Hrun.
      destruct (open_match_ok _ _ _ _ _ _ _ _ _ _ Hr Hrd Hg3 Hdue Hrun) as (? & ? & ? & _).
      by split_and!.
    - intros Hrun. run_inv. split_and!; try done. split; [keep_games|].
      split_and!; [done..|]. by exists (m_state m3). }
  destruct o; cbn in Ho; try (apply Hnext; assumption).
  - run_inv. destruct Ho as [_ Hp]. split_and!; try done. split; [keep_games|].
    unfold phase_ok in *. exact Hp.
  - run_inv. destruct Ho as [_ Hp]. by split_and!.
Qed.

Definition playing (rd : RoundDef) (m : MatchState) : Prop :=
  playing_regular rd m ∨ playing_tiebreak rd m.

Lemma fetch_subs_participants contest m rd h subs h' s :
  fetch_subs contest m rd h = Some (Ok subs, h') → s ∈ subs → participant m (sr_user_id s).
Proof.
  unfold fetch_subs. intros Hrun Hs.
  destruct (decide _); [apply ret_inv in Hrun as [-> _]; by apply not_elem_of_nil in Hs|].
  run_inv. apply list_elem_of_filter in Hs as [_ (r & -> & Hr)%list_elem_of_fmap].
  apply list_elem_of_filter in Hr as [Hr _]. cbn. unfold participant, wanted_row in *.
  apply andb_prop in Hr as [[_ Hr]%andb_prop _].
  apply orb_prop in Hr as [Hr%bool_decide_eq_true|Hr%bool_decide_eq_true]; naive_solver.
Qed.

(** After a game that leaves the score level, or has no winner, nobody has
    reached the target. *)
Lemma recorded_below rd m m' game w :
  games_ok rd m → games_ok rd m' → last (m_xiaoju m) = Some game → x_decided game = false →
  recorded m m' game w → below_target rd m →
  m_score_a m' = m_score_b m' ∨ w = None → below_target rd m'.
Proof.
  intros Hg Hg' Hlast Hopen Hrec Hbel Hlev.
  pose proof (recorded_wins _ _ _ _ _ Hg Hlast Hopen Hrec) as Hw.
  destruct (rec_players _ _ _ _ Hrec) as [Ha Hb].
  pose proof (g_players _ _ Hg). unfold below_target in *.
  rewrite (g_score_a _ _ Hg'), (g_score_b _ _ Hg'), Ha, Hb, !Hw in Hlev |- *.
  rewrite (g_score_a _ _ Hg), (g_score_b _ _ Hg) in Hbel.
  destruct w as [w|].
  - destruct Hlev as [Hlev|]; [|done]. repeat case_decide; try lia. congruence.
  - rewrite !decide_False by done. lia.
Qed.

Lemma recorded_settled setup rd m m' game w :
  round_ok setup rd → games_ok rd m → playing rd m → last (m_xiaoju m) = Some game →
  x_decided game = false → recorded m m' game w → (∀ w0, w = Some w0 → participant m w0) →
  games_ok rd m' ∧
  settled rd m' (if is_regular_game m' (x_index game) then InProgress else Tiebreak).
Proof.
  intros Hr Hg Hp Hlast Hopen Hrec Hpart.
  assert (below_target rd m) as Hbel by (by destruct Hp as [(_ & _ & ?)|(_ & ? & _)]).
  destruct (recorded_games_ok _ _ _ _ _ _ Hr Hg Hbel Hlast Hopen Hrec Hpart) as [Hg' Hall].
  split; [done|]. pose proof (rec_length _ _ _ _ Hrec) as Hlen.
  destruct (rec_place _ _ _ _ Hrec) as (_ & _ & Hga & Htb & _).
  destruct (last_inv _ _ Hlast) as [init Hx].
  assert (S (length init) = length (m_xiaoju m)) as Hl by (rewrite Hx, length_app; cbn; lia).
  assert (x_index game = Z.of_nat (length init)) as Hi.
  { apply (g_index _ _ Hg). by rewrite Hx, lookup_app_r, Nat.sub_diag by done. }
  unfold is_regular_game. rewrite Hga, (g_group _ _ Hg), Hi, Nat2Z.id.
  split_and!; [intros E; rewrite E in Hlen; cbn in Hlen; lia|done| |].
  { intros Hor. eapply (recorded_below rd m); [done..|].
    destruct Hor as [?|(x & Hlx & _ & Hwx)]; [by left|right].
    destruct (rec_games _ _ _ _ Hrec) as (used & Hgames & _).
    rewrite Hgames, (last_update_last _ _ _ Hlast) in Hlx. by injection Hlx as <-. }
  destruct Hp as [(_ & Hreg & _)|(_ & _ & n & Hn & Heq & Hlt)].
  - left. destruct (Nat.ltb_spec (length init) (length (rd_group_a rd))); [|lia].
    split; [done|lia].
  - right. destruct (Nat.ltb_spec (length init) (length (rd_group_a rd))); [lia|].
    split; [done|]. exists n. unfold tiebreak_at. rewrite Htb. split; [lia|done].
Qed.

Lemma step_awaiting_ok contest match_id setup clock index blocking rd m h m' h' :
  games_ok rd m → playing rd m →
  step_awaiting contest match_id setup clock index blocking m h = Some (Ok m', h') →
  match_ok rd m' ∧ m_round m' = m_round m ∧ m_pos m' = m_pos m.
Proof.
  intros Hg Hp Hrun. unfold step_awaiting in Hrun.
  destruct (bool_decide _); run_inv;
    (split_and!; try done; split; [keep_games|]; exact Hp).
Qed.

(** What a game's decision, on the submissions of its players, makes of the
    match. *)
Lemma decided_game_next setup rd current m subs now cut penalty o m1 :
  round_ok setup rd → games_ok rd m → playing rd m → last (m_xiaoju m) = Some current →
  m_state m = AwaitingJudge ∨
    m_state m = (if is_regular_game m (x_index current) then InProgress else Tiebreak) →
  (∀ s, s ∈ subs → participant m (sr_user_id s)) →
  decide_game_at_cutoff m subs now cut penalty = Some (o, m1) →
  match o with
  | XDecided _ =>
      games_ok rd m1 ∧ m_round m1 = m_round m ∧ m_pos m1 = m_pos m ∧
      settled rd m1 (if decide (m_state m1 = AwaitingJudge)
                     then (if is_regular_game m1 (x_index current) then InProgress else Tiebreak)
                     else m_state m1)
  | _ => m1 = m
  end.
Proof.
  intros Hr Hg Hp Hlast Hstate Hsubs Hd.
  assert (x_decided current = false) as Hopen.
  { destruct Hp as [((x & Hx & ?) & _)|((x & Hx & ?) & _)]; congruence. }
  pose proof (game_decision_inv _ _ _ _ _ _ _ _ Hlast Hopen Hd) as Hs.
  destruct o as [|w|b]; [apply Hs| |apply Hs].
  assert (recorded m m1 current w ∧ ∀ w0, w = Some w0 → participant m w0) as [Hrec Hpart].
  { destruct w as [w|]; destruct Hs as [Hrec Hac]; (split; [done|]); [|done].
    intros w0 [= <-]. destruct Hac as (ac & [Hin _] & _ & <- & _). by apply Hsubs. }
  destruct (recorded_settled _ _ _ _ _ _ Hr Hg Hp Hlast Hopen Hrec Hpart) as [Hg1 Hset].
  destruct (rec_place _ _ _ _ Hrec) as (Er & Ep & Hga & _).
  destruct (rec_state _ _ _ _ Hrec) as [Est _]. split_and!; [done..|].
  destruct (decide (m_state m1 = AwaitingJudge)); [done|].
  destruct Hstate as [Hst|Hst]; [congruence|].
  rewrite Est, Hst. unfold is_regular_game in *. by rewrite Hga in Hset.
Qed.

Lemma step_game_ok contest match_id setup rd current m h m' h' :
  round_ok setup rd → round_for_match setup (m_round m) (m_pos m) = Some rd → games_ok rd m →
  playing rd m → last (m_xiaoju m) = Some current →
  m_state m = AwaitingJudge ∨
    m_state m = (if is_regular_game m (x_index current) then InProgress else Tiebreak) →
  phase_ok rd m →
  step_game contest match_id setup rd current m h = Some (Ok m', h') →
  match_ok rd m' ∧ m_round m' = m_round m ∧ m_pos m' = m_pos m.
Proof.
  intros Hr Hrd Hg Hp Hlast Hstate Hphase Hrun. unfold step_game in Hrun. run_inv.
  destruct a1 as [o m1].
  pose proof (decided_game_next _ _ _ _ _ _ _ _ _ _ Hr Hg Hp Hlast Hstate
    (λ s, fetch_subs_participants _ _ _ _ _ _ s Hrun1) Hrun2) as Hs.
  destruct (decide (o = XNotYet ∧ _)) as [[-> _]|_].
  { subst m1. destruct (oldest_in_flight a0); [by eapply step_awaiting_ok|].
    unfold escalate_contest_ended in Hrun. run_inv.
    split_and!; try done. split; [keep_games|by eexists]. }
  destruct o as [|w|b].
  - subst m1. run_inv. by split_and!.
  - destruct Hs as (Hg1 & Er & Ep & Hset). rewrite <- Er, <- Ep in Hrd |- *.
    by eapply step_decided_ok.
  - subst m1. by eapply step_awaiting_ok.
Qed.

Lemma step_intermission_ok contest match_id setup rd m h m' h' :
  round_ok setup rd → round_for_match setup (m_round m) (m_pos m) = Some rd → match_ok rd m →
  m_state m = Intermission → step_intermission contest match_id setup m h = Some (Ok m', h') →
  match_ok rd m' ∧ m_round m' = m_round m ∧ m_pos m' = m_pos m.
Proof.
  intros Hr Hrd [Hg Hp] Hst Hrun. unfold phase_ok in Hp. rewrite Hst in Hp.
  destruct Hp as (Hat & Hne & p & Hall & Hbel & Hdue). unfold step_intermission in Hrun. run_inv.
  destruct (contest_ended _); [run_inv; split_and!; try done; split; [keep_games|by eexists]|].
  run_inv. destruct (_ <? _)%Z.
  { run_inv. split_and!; try done. split; [done|]. unfold phase_ok. rewrite Hst.
    split_and!; [done..|]. exists p. by split. }
  set (m1 := set_next_game_at_ms None _) in Hrun.
  assert (games_ok rd m1) as Hg1 by keep_games.
  pose proof (r_small _ _ Hr).
  assert (length (m_xiaoju m) ≤ 255) by (destruct Hdue as [[_ ?]|(_ & ? & ?)]; lia).
  assert (next_due rd m1 (m_state m1)) as Hdue1.
  { split_and!; [done..|]. cbn [m1 m_state set_next_game_at_ms set_state]. unfold is_regular_game.
    rewrite wrap_u8_id, Nat2Z.id, (g_group _ _ Hg) by mlia.
    destruct Hdue as [[_ Hlt]|(_ & Heq & Hlt)];
      destruct (Nat.ltb_spec (length (m_xiaoju m)) (length (rd_group_a rd))); try lia;
      [by left|by right]. }
  destruct (open_match_ok _ _ _ _ _ _ m1 _ _ _ Hr Hrd Hg1 Hdue1 Hrun) as (? & ? & ? & _).
  by split_and!.
Qed.

(** The open game of a live match, and the phase its number calls for. *)
Lemma live_game rd m :
  match_ok rd m → m_state m = InProgress ∨ m_state m = Tiebreak ∨ m_state m = AwaitingJudge →
  playing rd m ∧ ∃ current, last (m_xiaoju m) = Some current ∧
    (m_state m = AwaitingJudge ∨
     m_state m = (if is_regular_game m (x_index current) then InProgress else Tiebreak)).
Proof.
  intros [Hg Hp] Hst.
  assert (playing rd m) as Hplay.
  { unfold phase_ok in Hp. destruct Hst as [Hst|[Hst|Hst]]; rewrite Hst in Hp;
      [by left|by right|exact Hp]. }
  split; [done|].
  assert (∃ x, last (m_xiaoju m) = Some x) as [x Hlast]
    by (destruct Hplay as [((x & Hx & _) & _)|((x & Hx & _) & _)]; eauto).
  exists x. split; [done|]. destruct (last_inv _ _ Hlast) as [init Hx].
  assert (x_index x = Z.of_nat (length init)) as Hi
    by (apply (g_index _ _ Hg); by rewrite Hx, lookup_app_r, Nat.sub_diag by done).
  unfold phase_ok in Hp. unfold is_regular_game. rewrite Hi, Nat2Z.id, (g_group _ _ Hg).
  destruct Hst as [Hst|[Hst|Hst]]; rewrite Hst in Hp |- *; [right|right|by left].
  - destruct Hp as (_ & Hlen & _). rewrite Hx, length_app in Hlen. cbn in Hlen.
    destruct (Nat.ltb_spec (length init) (length (rd_group_a rd))); [done|lia].
  - destruct Hp as (_ & _ & n & Hlen & Heq & _). rewrite Hx, length_app in Hlen. cbn in Hlen.
    destruct (Nat.ltb_spec (length init) (length (rd_group_a rd))); [lia|done].
Qed.

(** The three ways a step goes. *)
Lemma step_inv contest match_id setup rd m h m' h' :
  round_for_match setup (m_round m) (m_pos m) = Some rd → match_ok rd m →
  step contest match_id setup m h = Some (Ok m', h') →
  (m_state m = Intermission ∧ step_intermission contest match_id setup m h = Some (Ok m', h')) ∨
  (playing rd m ∧ ∃ current, last (m_xiaoju m) = Some current ∧
    (m_state m = AwaitingJudge ∨
     m_state m = (if is_regular_game m (x_index current) then InProgress else Tiebreak)) ∧
    step_game contest match_id setup rd current m h = Some (Ok m', h')) ∨
  m' = m ∧ h' = h.
Proof.
  intros Hrd Hok Hrun.
  destruct (decide (m_state m = InProgress ∨ m_state m = Tiebreak ∨ m_state m = AwaitingJudge))
    as [Hst|Hno].
  - right. left. destruct (live_game _ _ Hok Hst) as (Hplay & current & Hlast & Hphase).
    split; [done|]. exists current. split_and!; [done..|].
    unfold step in Hrun. rewrite Hlast, Hrd in Hrun. by destruct Hst as [Hst|[Hst|Hst]]; rewrite Hst in Hrun.
  - unfold step in Hrun.
    destruct (m_state m) eqn:Hst; 
      first [by left|tauto|right; right; by apply ret_inv in Hrun].
Qed.

Lemma step_ok contest match_id setup rd m h m' h' :
  round_ok setup rd → round_for_match setup (m_round m) (m_pos m) = Some rd → match_ok rd m →
  step contest match_id setup m h = Some (Ok m', h') →
  match_ok rd m' ∧ m_round m' = m_round m ∧ m_pos m' = m_pos m.
Proof.
  intros Hr Hrd Hok Hrun.
  destruct (step_inv _ _ _ _ _ _ _ _ Hrd Hok Hrun)
    as [[Hst Hi]|[(Hplay & current & Hlast & Hphase & Hg)|[-> _]]].
  - by eapply step_intermission_ok.
  - destruct Hok. by eapply step_game_ok.
  - by split_and!.
Qed.

(** ** Every update *)

Lemma unstarted_due setup rd m :
  round_ok setup rd → games_ok rd m → m_xiaoju m = [] →
  next_due rd (set_state InProgress m) InProgress.
Proof.
  intros Hr Hg Hx. pose proof (r_target _ _ Hr).
  split_and!.
  - cbn [m_xiaoju set_state]. rewrite Hx. by intros ? ?%not_elem_of_nil.
  - unfold below_target. cbn. rewrite (g_score_a _ _ Hg), (g_score_b _ _ Hg). unfold wins.
    rewrite Hx. cbn. lia.
  - left. cbn [m_xiaoju set_state]. rewrite Hx. split; [done|cbn; lia].
Qed.

Lemma start_ok contest match_id setup clock at_ms rd m h m' h' :
  round_ok setup rd → round_for_match setup (m_round m) (m_pos m) = Some rd → games_ok rd m →
  m_xiaoju m = [] →
  open_xiaoju_at contest match_id setup clock at_ms (set_state InProgress m) h =
    Some (Ok m', h') →
  match_ok rd m' ∧ m_round m' = m_round m ∧ m_pos m' = m_pos m.
Proof.
  intros Hr Hrd Hg Hx Hrun. pose proof (unstarted_due _ _ _ Hr Hg Hx) as Hdue.
  assert (games_ok rd (set_state InProgress m)) as Hg1 by keep_games.
  destruct (open_match_ok _ _ _ _ _ _ (set_state InProgress m) _ _ _ Hr Hrd Hg1 Hdue Hrun)
    as (? & ? & ? & _).
  by split_and!.
Qed.

Lemma fill_orders_kept m :
  m_xiaoju (fill_missing_orders m) = m_xiaoju m ∧ m_state (fill_missing_orders m) = m_state m ∧
  m_round (fill_missing_orders m) = m_round m ∧ m_pos (fill_missing_orders m) = m_pos m ∧
  ∀ rd, games_ok rd m → games_ok rd (fill_missing_orders m).
Proof.
  unfold fill_missing_orders. destruct (decide _), (decide _); split_and!; try done;
    intros rd Hg; keep_games.
Qed.

Lemma order_ok window submitter order rd m h m' h' :
  match_ok rd m → order_update window submitter order m h = Some (Ok m', h') →
  match_ok rd m' ∧ m_round m' = m_round m ∧ m_pos m' = m_pos m.
Proof.
  intros [Hg Hp] Hrun. unfold order_update in Hrun. run_inv.
  destruct (match window with Some _ => _ | None => _ end); [run_inv|].
  destruct (record_order m submitter order) as [m2|e] eqn:E; run_inv.
  unfold record_order in E. destruct (decide (m_state m ≠ Ordering)) as [|Hst]; [done|].
  apply dec_stable in Hst. unfold phase_ok in Hp. rewrite Hst in Hp.
  repeat case_decide; try done; destruct (is_permutation_of _ _); try done; injection E as <-;
    (split_and!; try done; split; [keep_games|unfold phase_ok; cbn; by rewrite Hst]).
Qed.

Lemma start_at_unstarted setup matches m contest_start :
  start_at_ms setup matches m contest_start ≠ None → m_state m = Ordering ∨ m_state m = Preparing.
Proof.
  unfold start_at_ms. intros Hs.
  destruct (round_at setup (m_round m)) as [c|]; [cbn in Hs|done].
  destruct (decide _).
  - destruct (stage_clocks setup !! m_round m) as [st|]; [cbn in Hs|done].
    destruct (negb _ && _) eqn:E; [|done]. apply andb_prop in E as [_ E].
    by apply bool_decide_eq_true in E.
  - destruct (bool_decide _) eqn:E; [done|]. apply bool_decide_eq_false in E.
    left. destruct (decide (m_state m = Ordering)); tauto.
Qed.

Lemma phase_unstarted rd m :
  phase_ok rd m → m_state m = Ordering ∨ m_state m = Preparing → m_xiaoju m = [].
Proof. unfold phase_ok. intros Hp [E|E]; by rewrite E in Hp. Qed.

Lemma prepare_ok contest match_id setup stage clock rd m h m' h' :
  round_ok setup rd → round_for_match setup (m_round m) (m_pos m) = Some rd → match_ok rd m →
  prepare contest match_id setup stage clock m h = Some (Ok m', h') →
  match_ok rd m' ∧ m_round m' = m_round m ∧ m_pos m' = m_pos m.
Proof.
  intros Hr Hrd [Hg Hp] Hrun. unfold prepare in Hrun.
  destruct (bool_decide (m_state m = Ordering ∨ _)) eqn:Est; cbn [negb] in Hrun;
    [|run_inv; by split_and!].
  apply bool_decide_eq_true in Est. pose proof (phase_unstarted _ _ Hp Est) as Hx.
  destruct (contest_ended clock).
  { run_inv. split_and!; try done. split; [keep_games|by eexists]. }
  set (m2 := if ((_ <=? _)%Z && _) : bool then set_state Preparing _ else m) in Hrun.
  assert (games_ok rd m2 ∧ m_xiaoju m2 = [] ∧ m_round m2 = m_round m ∧ m_pos m2 = m_pos m ∧
          (m_state m2 = Ordering ∨ m_state m2 = Preparing)) as (Hg2 & Hx2 & Er & Ep & Hst2).
  { unfold m2. destruct (_ && _); [|done].
    destruct (fill_orders_kept m) as (Fx & _ & Fr & Fp & Fg).
    specialize (Fg rd Hg). cbn. rewrite Fx, Fr, Fp. split_and!; try done; [|by right].
    destruct Fg; split; assumption. }
  clearbody m2. rewrite <- Er, <- Ep in Hrd |- *. cbv zeta in Hrun.
  destruct (_ && _); [by eapply start_ok|].
  run_inv. split_and!; try done. split; [done|]. unfold phase_ok.
  by destruct Hst2 as [-> | ->].
Qed.

Lemma force_inv contest match_id winner m h m' h' :
  force_decide_update contest match_id winner m h = Some (Ok m', h') →
  m_state m ≠ Decided ∧ participant m winner ∧ m_state m' = Decided ∧
  m_winner m' = Some winner ∧ m_round m' = m_round m ∧ m_pos m' = m_pos m ∧
  ∀ rd, games_ok rd m → match_ok rd m'.
Proof.
  unfold force_decide_update. intros Hrun. run_inv.
  unfold apply_force_decide in Hrun1.
  destruct (decide (winner ≠ _ ∧ _)) as [|Hpart]; [run_inv|].
  destruct (decide (m_state m = Decided)); run_inv.
  assert (participant m winner) as Hw by (unfold participant; lia).
  split_and!; try done. intros rd Hg. split; [keep_games|]. by exists winner.
Qed.

Lemma escalate_ok rd m :
  match_ok rd m → match_ok rd (escalate_update m) ∧
  m_round (escalate_update m) = m_round m ∧ m_pos (escalate_update m) = m_pos m.
Proof.
  intros [Hg Hp]. unfold escalate_update. destruct (decide _); [done|].
  split_and!; try done. split; [keep_games|by eexists].
Qed.

Lemma start_update_inv contest match_id setup m h m' h' :
  start_update contest match_id setup m h = Some (Ok m', h') →
  m_state m = Ordering ∧ ∃ clock h1,
    open_xiaoju contest match_id setup clock (set_state InProgress (fill_missing_orders m)) h1
      = Some (Ok m', h').
Proof.
  unfold start_update, force_start. intros Hrun. run_inv.
  destruct (decide (m_state m ≠ Ordering)) as [|Hst]; run_inv. apply dec_stable in Hst. eauto.
Qed.

Lemma match_step_ok setup rd m m' :
  round_ok setup rd → round_for_match setup (m_round m) (m_pos m) = Some rd → match_ok rd m →
  match_step setup m m' → match_ok rd m' ∧ m_round m' = m_round m ∧ m_pos m' = m_pos m.
Proof.
  intros Hr Hrd Hok [window submitter order h h' Hrun|contest id matches cs clk h h' Hrun
    |contest id stage clk h h' Hrun|contest id h h' Hrun| ->|contest id winner h h' Hrun|contest id h h' Hrun].
  - by eapply order_ok.
  - unfold autostart in Hrun. destruct (decide _) as [|Hs]; [run_inv; by split_and!|].
    destruct Hok as [Hg Hp]. eapply start_ok; [done..| |exact Hrun].
    by eapply phase_unstarted, start_at_unstarted.
  - by eapply prepare_ok.
  - by eapply step_ok.
  - by apply escalate_ok.
  - destruct (force_inv _ _ _ _ _ _ _ Hrun) as (_ & _ & _ & _ & ? & ? & Hf).
    split_and!; try done. apply Hf, Hok.
  - destruct Hok as [Hg Hp].
    destruct (start_update_inv _ _ _ _ _ _ _ Hrun) as (Hst & clk & h1 & Hopen).
    destruct (fill_orders_kept m) as (Fx & _ & Fr & Fp & Fg).
    rewrite <- Fr, <- Fp in Hrd |- *. eapply start_ok; [done..|by apply Fg| |exact Hopen].
    rewrite Fx. apply (phase_unstarted rd); auto.
Qed.

(** ** Reachable matches *)

(** A match of a stage: created for two players, then changed by any sequence
    of updates, under setups that keep the problems of the stage. *)
Inductive reachable (rd : RoundDef) (round pos : Z) : MatchState → Prop :=
  | reach_new a b : a ≠ b → reachable rd round pos (new_match round pos a b rd)
  | reach_step setup m m' :
      reachable rd round pos m → round_for_match setup round pos = Some rd →
      round_ok setup rd → match_step setup m m' → reachable rd round pos m'.

Lemma new_match_ok round pos a b rd : a ≠ b → match_ok rd (new_match round pos a b rd).
Proof.
  intros Hab. split; [split|]; try done; cbn; try lia.
  by intros x ?%not_elem_of_nil.
Qed.

Lemma reachable_ok rd round pos m :
  reachable rd round pos m → match_ok rd m ∧ m_round m = round ∧ m_pos m = pos.
Proof.
  induction 1 as [a b Hab|setup m m' _ (Hok & Er & Ep) Hrd Hr Hstep].
  - split_and!; [by apply new_match_ok|done..].
  - rewrite <- Er, <- Ep in Hrd.
    destruct (match_step_ok _ _ _ _ Hr Hrd Hok Hstep) as (? & ? & ?). split_and!; congruence.
Qed.

(** C23. Every reachable match is in order, whatever the clock, the submissions
    and the interleaving of handlers: at most one game is open and it is the
    last one; games are numbered in the order they are opened and there are
    never more than the regular games and the tiebreak problems; a score is
    the number of games its player won; the extra time spent and the extra
    time left add up to the budget; a match being played is below its target
    or level in a tiebreak; and a decided match has one of its players as the
    winner. *)
Theorem reachable_match_ok rd round pos m :
  reachable rd round pos m → match_ok rd m ∧ m_round m = round ∧ m_pos m = pos.
Proof. apply reachable_ok. Qed.

(** A result is final: once a match is decided no update of any handler
    changes anything in it, and a match left to the staff changes only by
    being decided for one of its players. *)
Theorem finished_match_frozen setup m m' :
  match_step setup m m' →
  (m_state m = Decided → m' = m) ∧
  (m_state m = NeedsAdjudication →
   m' = m ∨ m_state m' = Decided ∧ ∃ w, m_winner m' = Some w ∧ participant m w).
Proof.
  intros [window submitter order h h' Hrun|contest id matches cs clk h h' Hrun
    |contest id stage clk h h' Hrun|contest id h h' Hrun| ->|contest id winner h h' Hrun|contest id h h' Hrun];
    split; intros Hst.
  1, 2: unfold order_update in Hrun; run_inv;
    destruct (match window with Some _ => _ | None => _ end); [run_inv|];
    unfold record_order in Hrun; rewrite decide_True in Hrun by congruence; run_inv.
  1, 2: unfold autostart in Hrun; destruct (decide _) as [|Hs]; [run_inv; auto|];
    apply start_at_unstarted in Hs as [Hs|Hs]; congruence.
  1, 2: unfold prepare in Hrun; rewrite bool_decide_false in Hrun by (intros [?|?]; congruence);
    cbn in Hrun;
    run_inv; auto.
  1, 2: unfold step in Hrun; rewrite Hst in Hrun; run_inv; auto.
  1, 2: unfold escalate_update; rewrite decide_True by congruence; auto.
  3, 4: destruct (start_update_inv _ _ _ _ _ _ _ Hrun); congruence.
  - by destruct (force_inv _ _ _ _ _ _ _ Hrun) as [? _].
  - destruct (force_inv _ _ _ _ _ _ _ Hrun) as (_ & ? & ? & ? & _). right. eauto.
Qed.
End invariant.
