(* ===== verification/BracketSetup.v ===== *)
(** * BracketSetup: which setups are accepted

    The validation of a bracket setup and of an edit
    (plugins/codelink-bracket/src/setup.rs), and what a valid setup guarantees
    of every match played under it. *)

From Stdlib Require Import ZifyNat ZifyBool.
From S2P Require Import Prelude Text Float Verdict Sdk Host BracketModel BracketDecide.
From S2P Require Import BracketPacing BracketJudge BracketDecideProofs.
From S2P Require Import BracketInvariant.

Open Scope machine_scope.

Definition reject_if (b : bool) (message : ustring) : result ustring unit :=
  if b then Err message else Ok tt.

(** [(0..=i64::MAX / 1_000).contains(&seconds)]. *)
Definition in_timer_range (seconds : Z) : bool :=
  ((0 <=? seconds) && (seconds <=? i64_max / 1000))%Z.

(** [sort_unstable(); dedup(); len() != original len()]. *)
Definition has_duplicates (l : list Z) : bool := negb (length (remove_dups l) =? length l).

Definition is_power_of_two (n : nat) : bool := n =? 2 ^ Nat.log2 n.

Definition show_nat (n : nat) : ustring := show (Z.of_nat n).

(** [for x in l { ... }] with an accumulator and an early return. *)
Fixpoint check_all {A B} (f : nat → A → B → result ustring B) (i : nat) (l : list A) (acc : B)
    : result ustring B :=
  match l with
  | [] => Ok acc
  | x :: l => acc ← f i x acc; check_all f (S i) l acc
  end.

Definition planned_clock_error (setup : Setup) (round : Z) : result ustring unit :=
  match planned_clock setup round with
  | Ok _ => Ok tt
  | Err (Other e) => Err e
  | Err _ => Err []
  end.

Definition range_message (index : nat) (name : ustring) : ustring :=
  u "round " ++ show_nat index ++ u "'s " ++ name
    ++ u " must be nonnegative seconds within the timer range".

Definition check_pacing (setup : Setup) (index : nat) (round : RoundDef) (last_start : option Z)
    : result ustring (option Z) :=
  _ ← reject_if (negb (in_timer_range (post_order_wait round)))
        (range_message index (u "post_order_wait_seconds"));
  _ ← reject_if (negb (in_timer_range (game_break round)))
        (range_message index (u "game_break_seconds"));
  _ ← reject_if (negb (in_timer_range
        (default (setup_extra_time_seconds setup) (rd_match_extra_time_seconds round))))
        (range_message index (u "match_extra_time_seconds"));
  match rd_start_at_ms round with
  | None => Ok last_start
  | Some at_ms =>
      _ ← reject_if ((at_ms <? 0) || match last_start with Some l => at_ms <=? l | None => false end)%Z
            (u "Stage start times must increase in round order");
      _ ← planned_clock_error setup (wrap_u8 (wrap_u8 (Z.of_nat index) + 1));
      Ok (Some at_ms)
  end.

Definition insert_distinct (problem : Z) (seen : result ustring (gset Z))
    : result ustring (gset Z) :=
  seen ← seen;
  if decide (problem ∈ seen) then
    Err (u "problem " ++ show problem ++ u " appears in more than one group or tiebreak list")
  else Ok ({[problem]} ∪ seen).

Definition check_games (setup : Setup) (idx : nat) (round : RoundDef) (seen : gset Z)
    : result ustring (gset Z) :=
  let at_round (message : ustring) := u "round " ++ show_nat idx ++ message in
  let games := length (rd_group_a round) in
  let extra := default (setup_extra_time_seconds setup) (rd_match_extra_time_seconds round) in
  _ ← reject_if ((games =? 0) || negb (games =? length (rd_group_b round))
                 || (256 <? games + length (rd_tiebreak round)))
        (at_round (u " needs equally sized nonempty problem groups and at most 256 games including tiebreaks"));
  _ ← reject_if (negb ((1 <=? win_target round) && (win_target round <=? games)))
        (at_round (u "'s wins_to_advance must be between 1 and its regular game count"));
  _ ← reject_if (bool_decide ((s ← rd_xiaoju_seconds round +? extra; s *? 1000) = None))
        (at_round (u "'s xiaoju_seconds plus match_extra_time_seconds exceed the timer range"));
  _ ← reject_if ((rd_xiaoju_seconds round <=? 0)
                 || (i64_max / 1000 <? rd_xiaoju_seconds round))%Z
        (at_round (u "'s xiaoju_seconds must be positive seconds within the timer range"));
  _ ← reject_if ((rd_tiebreak_seconds round <=? 0)
                 || (i64_max / 1000 <? rd_tiebreak_seconds round))%Z
        (at_round (u "'s tiebreak_seconds must be positive seconds within the timer range"));
  _ ← reject_if (negb (in_timer_range (rd_break_before_seconds round)))
        (at_round (u "'s break_before_seconds must be nonnegative seconds within the timer range"));
  _ ← reject_if ((idx =? 0) && negb (rd_break_before_seconds round =? 0)%Z)
        (u "round 0's break_before_seconds must be 0; round one opens with the contest");
  _ ← reject_if (has_duplicates (rd_group_a round))
        (at_round (u "'s group_a must contain distinct problem ids"));
  _ ← reject_if (has_duplicates (rd_group_b round))
        (at_round (u "'s group_b must contain distinct problem ids"));
  _ ← reject_if (length (rd_tiebreak round) =? 0)
        (at_round (u "'s tiebreak list must not be empty"));
  foldl (λ seen p, insert_distinct p seen) (Ok seen) (round_problems round).

Definition third_place_round (setup : Setup) : option RoundDef :=
  match third_place setup with
  | Some (Custom _) => round_for_match setup (wrap_u8 (Z.of_nat (length (rounds setup)))) 1
  | _ => None
  end.

Definition check_third_place (setup : Setup) : result ustring unit :=
  match third_place setup with
  | Some (Custom p) =>
      let final_games := match last (rounds setup) with
                         | Some r => length (rd_group_a r)
                         | None => 0
                         end in
      reject_if (negb (length (tp_group_a p) =? final_games)
                 || negb (length (tp_group_b p) =? final_games))
        (u "Third-place problem groups must match the final's BO game count")
  | _ => Ok tt
  end.

Definition validate_setup (setup : Setup) (seeds : list Z) : result ustring unit :=
  let n := length seeds in
  _ ← reject_if (negb ((2 <=? n) && (n <=? 128)) || negb (is_power_of_two n))
        (u "seeds must contain a power of two players between 2 and 128");
  _ ← reject_if (has_duplicates seeds) (u "seeds must contain distinct player ids");
  _ ← reject_if (negb (length (rounds setup) =? Nat.log2 n))
        (u "setup must define exactly " ++ show_nat (Nat.log2 n) ++ u " rounds, got "
         ++ show_nat (length (rounds setup)));
  _ ← reject_if (penalty_seconds setup <? 0)%Z
        (u "penalty_seconds must be greater than or equal to 0");
  _ ← reject_if (setup_extra_time_seconds setup <? 0)%Z
        (u "match_extra_time_seconds must be non-negative");
  _ ← reject_if (negb (in_timer_range (escalation_grace_seconds setup)))
        (u "escalation_grace_seconds must be nonnegative seconds within the timer range");
  _ ← check_all (check_pacing setup) 0 (rounds setup) None;
  _ ← reject_if (bool_decide (is_Some (third_place setup)) && (n <? 4))
        (u "A third-place match needs at least four players");
  _ ← check_third_place setup;
  _ ← check_all (check_games setup) 0 (rounds setup ++ option_list (third_place_round setup)) ∅;
  Ok tt.

(** [validate_edit]; slicing beyond the end of a vector panics ([None]). *)
Definition validate_edit (previous next : Setup) (started : bool) : option (result ustring unit) :=
  let opened := opened_rounds previous in
  let fixed := started || (0 <? opened) in
  if fixed && (bool_decide (seeds previous ≠ seeds next)
               || negb (length (rounds previous) =? length (rounds next)))
  then Some (Err (u "Bracket size and player seeding are fixed once the contest starts"))
  else if (length (rounds previous) <? opened) || (length (rounds next) <? opened) then None
  else if bool_decide (take opened (rounds previous) ≠ take opened (rounds next))
  then Some (Err (u "Opened stages cannot be edited, including matches still ranking"))
  else if fixed && negb (bool_decide (is_Some (third_place previous) ↔ is_Some (third_place next)))
  then Some (Err (u "The third-place match must be enabled before the contest starts"))
  else if (opened =? length (rounds previous))
          && bool_decide (third_place previous ≠ third_place next)
  then Some (Err (u "Opened final-stage problems cannot be edited"))
  else if fixed && (negb (penalty_seconds previous =? penalty_seconds next)
                    || negb (setup_extra_time_seconds previous =? setup_extra_time_seconds next)
                    || negb (escalation_grace_seconds previous =? escalation_grace_seconds next))%Z
  then Some (Err (u "Shared settings are fixed once the contest starts"))
  else Some (Ok tt).

(** ** What validation guarantees *)

Lemma reject_if_Ok b msg x : reject_if b msg = Ok x → b = false.
Proof. by destruct b. Qed.

Lemma check_all_Ok {A B} (f : nat → A → B → result ustring B) i l acc r :
  check_all f i l acc = Ok r →
  ∀ k x, l !! k = Some x → ∃ acc1 acc2, f (i + k) x acc1 = Ok acc2.
Proof.
  revert i acc. induction l as [|y l IH]; intros i acc; cbn; [done|].
  intros (acc2 & Hf & Hr)%result_bind_Ok [|k] x; cbn.
  - intros [= <-]. rewrite Nat.add_0_r. eauto.
  - intros Hk. rewrite Nat.add_succ_r. by apply (IH (S i) acc2 Hr k).
Qed.

Lemma round_for_match_inv setup round pos rd :
  round_for_match setup round pos = Some rd →
  ∃ k base, rounds setup !! k = Some base ∧ round = Z.of_nat (S k) ∧
    (rd = base ∨ ∃ p, third_place setup = Some (Custom p) ∧ rd = with_problems base p ∧
                 S k = length (rounds setup) ∧ pos = 1%Z).
Proof.
  unfold round_for_match, round_at. intros (base & Hb & Hrd)%bind_Some.
  destruct (Z.ltb_spec round 1); [done|].
  exists (Z.to_nat (round - 1)), base. split_and!; [done|lia|].
  destruct (_ <=? pos)%Z; [done|].
  unfold match_kind in Hrd. repeat case_decide; try done; try (injection Hrd as <-; by left).
  destruct (third_place setup) as [[|p]|] eqn:Ep; try done; injection Hrd as <-; [by left|].
  right. exists p. split_and!; try done; [|naive_solver]. lia.
Qed.

Lemma check_games_Ok setup idx rd seen seen' :
  check_games setup idx rd seen = Ok seen' →
  1 ≤ win_target rd ≤ length (rd_group_a rd) ∧
  length (rd_group_a rd) = length (rd_group_b rd) ∧
  1 ≤ length (rd_tiebreak rd) ∧
  length (rd_group_a rd) + length (rd_tiebreak rd) ≤ 256 ∧
  (0 < rd_xiaoju_seconds rd)%Z ∧ (0 < rd_tiebreak_seconds rd)%Z.
Proof.
  unfold check_games. intros Hc.
  repeat (apply result_bind_Ok in Hc as (? & ?%reject_if_Ok & Hc)).
  lia.
Qed.

(** The resolved round of every match went through the checks. *)
Lemma match_round_checked setup round pos rd :
  validate_setup setup (seeds setup) = Ok tt → round_for_match setup round pos = Some rd →
  (∃ idx s1 s2, check_games setup idx rd s1 = Ok s2) ∧
  (0 ≤ default (setup_extra_time_seconds setup) (rd_match_extra_time_seconds rd))%Z.
Proof.
  unfold validate_setup. intros Hv Hrd.
  repeat (apply result_bind_Ok in Hv as (? & ?%reject_if_Ok & Hv)).
  apply result_bind_Ok in Hv as (ls & Hpace & Hv).
  apply result_bind_Ok in Hv as (? & ?%reject_if_Ok & Hv).
  apply result_bind_Ok in Hv as (? & _ & Hv).
  apply result_bind_Ok in Hv as (seen & Hgames & _).
  destruct (round_for_match_inv _ _ _ _ Hrd) as (k & base & Hk & -> & Hcase).
  split.
  - destruct Hcase as [->|(p & Hp & -> & Hlast & ->)].
    + destruct (check_all_Ok _ _ _ _ _ Hgames k base) as (s1 & s2 & Hc); [|by eauto].
      by apply lookup_app_l_Some.
    + destruct (check_all_Ok _ _ _ _ _ Hgames (length (rounds setup)) (with_problems base p))
        as (s1 & s2 & Hc); [|by eauto].
      rewrite lookup_app_r, Nat.sub_diag by done.
      unfold third_place_round. rewrite Hp.
      assert (length (rounds setup) ≤ 7).
      { repeat match goal with H : _ = false |- _ => revert H end. intros.
        pose proof (Nat.log2_le_mono (length (seeds setup)) 128). change (Nat.log2 128) with 7 in *.
        lia. }
      rewrite wrap_u8_id by mlia. rewrite <- Hlast, Hrd. done.
  - destruct (check_all_Ok _ _ _ _ _ Hpace k base Hk) as (a1 & a2 & Hc).
    assert (rd_match_extra_time_seconds rd = rd_match_extra_time_seconds base) as ->.
    { by destruct Hcase as [->|(p & _ & -> & _)]. }
    unfold check_pacing in Hc.
    do 3 apply result_bind_Ok in Hc as (? & ?%reject_if_Ok & Hc).
    unfold in_timer_range in *. lia.
Qed.

(** Validation is enough: a setup that [validate_setup] accepts satisfies,
    for every match of every stage, the conditions under which reachable
    matches are in order; and its problem groups have the same size. *)
Theorem valid_setup_rounds_ok setup round pos rd :
  validate_setup setup (seeds setup) = Ok tt → round_for_match setup round pos = Some rd →
  round_ok setup rd ∧ length (rd_group_a rd) = length (rd_group_b rd).
Proof.
  intros Hv Hrd. destruct (match_round_checked _ _ _ _ Hv Hrd) as [(idx & s1 & s2 & Hc) Hextra].
  apply check_games_Ok in Hc as (? & ? & ? & ? & _). split; [|done]. by split.
Qed.

Lemma insert_distinct_all l seen seen' :
  foldl (λ seen p, insert_distinct p seen) (Ok seen) l = Ok seen' →
  NoDup l ∧ (∀ p, p ∈ l → p ∉ seen) ∧ seen' = list_to_set l ∪ seen.
Proof.
  revert seen. induction l as [|p l IH]; intros seen; cbn.
  { intros [= ->]. split_and!; [constructor|by intros ? ?%not_elem_of_nil|set_solver]. }
  destruct (decide (p ∈ seen)) as [Hin|Hno].
  { intros Hf. exfalso. revert Hf. generalize (u "problem " ++ show p
      ++ u " appears in more than one group or tiebreak list"). clear.
    intros e. induction l as [|q l IH]; cbn; [done|]. exact IH. }
  intros Hf. destruct (IH _ Hf) as (Hnd & Hout & ->). split_and!.
  - constructor; [|done]. intros Hp. specialize (Hout p Hp). set_solver.
  - intros q Hq. apply elem_of_cons in Hq as [->|Hq]; [done|]. specialize (Hout q Hq). set_solver.
  - set_solver.
Qed.

Lemma check_games_distinct setup idx rd seen seen' :
  check_games setup idx rd seen = Ok seen' →
  NoDup (round_problems rd) ∧ (∀ p, p ∈ round_problems rd → p ∉ seen) ∧
  seen' = list_to_set (round_problems rd) ∪ seen.
Proof.
  unfold check_games. intros Hc.
  repeat (apply result_bind_Ok in Hc as (? & ?%reject_if_Ok & Hc)).
  by apply insert_distinct_all.
Qed.

Lemma check_all_distinct setup i l seen seen' :
  check_all (check_games setup) i l seen = Ok seen' →
  NoDup (l ≫= round_problems) ∧ (∀ p, p ∈ l ≫= round_problems → p ∉ seen).
Proof.
  revert i seen. induction l as [|rd l IH]; intros i seen; cbn.
  { intros _. split; [constructor|by intros ? ?%not_elem_of_nil]. }
  intros (seen2 & (Hnd & Hout & ->)%check_games_distinct & Hr)%result_bind_Ok.
  destruct (IH _ _ Hr) as [Hnd2 Hout2]. split.
  - apply NoDup_app. split_and!; [done| |done].
    intros p Hp Hp2. specialize (Hout2 p Hp2). set_solver.
  - intros p [Hp|Hp]%elem_of_app; [by apply Hout|]. specialize (Hout2 p Hp). set_solver.
Qed.

(** No problem of an accepted setup appears twice, in any group or tiebreak
    list of any stage or of the third-place match: a submission belongs to at
    most one match of a player, and showing a player the opponent's problems
    never shows one of the player's own. *)
Theorem valid_setup_problems_distinct setup :
  validate_setup setup (seeds setup) = Ok tt →
  NoDup ((rounds setup ++ option_list (third_place_round setup)) ≫= round_problems).
Proof.
  unfold validate_setup. intros Hv.
  repeat (apply result_bind_Ok in Hv as (? & ?%reject_if_Ok & Hv)).
  apply result_bind_Ok in Hv as (? & _ & Hv).
  apply result_bind_Ok in Hv as (? & _ & Hv).
  apply result_bind_Ok in Hv as (? & _ & Hv).
  apply result_bind_Ok in Hv as (? & Hgames & _).
  by apply check_all_distinct in Hgames as [? _].
Qed.

(** ** Edits *)

Lemma edit_inv previous next started :
  validate_edit previous next started = Some (Ok tt) → 0 < opened_rounds previous →
  seeds previous = seeds next ∧ length (rounds previous) = length (rounds next) ∧
  opened_rounds previous ≤ length (rounds previous) ∧
  take (opened_rounds previous) (rounds previous) = take (opened_rounds previous) (rounds next) ∧
  (is_Some (third_place previous) ↔ is_Some (third_place next)) ∧
  (opened_rounds previous = length (rounds previous) → third_place previous = third_place next).
Proof.
  unfold validate_edit. intros Hv Hop.
  rewrite (proj2 (Nat.ltb_lt 0 _) Hop), orb_true_r in Hv. cbn [andb] in Hv.
  destruct (bool_decide (seeds previous ≠ seeds next) || _) eqn:E1; [done|].
  destruct ((_ <? _) || _) eqn:E2; [done|].
  destruct (bool_decide (take _ _ ≠ _)) eqn:E3; [done|].
  destruct (negb (bool_decide (_ ↔ _))) eqn:E4; [done|].
  destruct (_ && bool_decide (third_place previous ≠ _)) eqn:E5; [done|].
  apply orb_false_iff in E1 as [E1%bool_decide_eq_false E1']. apply dec_stable in E1.
  apply bool_decide_eq_false, dec_stable in E3.
  apply negb_false_iff, bool_decide_eq_true in E4.
  split_and!; try done; [lia|lia|]. intros E.
  apply andb_false_iff in E5 as [E5|E5%bool_decide_eq_false]; [lia|]. by apply dec_stable in E5.
Qed.

(** An accepted edit never changes the problems of a match that may have
    begun: for every position of an opened stage the new setup resolves to the
    same round definition. *)
Theorem edit_keeps_opened_rounds previous next started round pos :
  validate_edit previous next started = Some (Ok tt) →
  (1 ≤ round ≤ Z.of_nat (opened_rounds previous))%Z →
  round_for_match next round pos = round_for_match previous round pos.
Proof.
  intros Hv Hround.
  destruct (edit_inv _ _ _ Hv) as (Hseeds & Hlen & Hop & Htake & Hthird & Hfinal); [lia|].
  assert (round_at next round = round_at previous round) as Hat.
  { unfold round_at. destruct (Z.ltb_spec round 1); [done|].
    rewrite <- (lookup_take_lt (rounds next) (opened_rounds previous)) by lia.
    rewrite <- (lookup_take_lt (rounds previous) (opened_rounds previous)) by lia.
    by rewrite Htake. }
  assert (match_count next round = match_count previous round) as Hcount.
  { unfold match_count, player_count. rewrite Hseeds, Hlen. repeat case_decide; tauto || done. }
  assert (match_kind next round pos = match_kind previous round pos) as Hkind.
  { unfold match_kind. rewrite Hlen. repeat case_decide; tauto || done. }
  unfold round_for_match. rewrite Hat, Hcount, Hkind.
  destruct (round_at previous round) as [base|]; [cbn|done].
  destruct (_ <=? pos)%Z; [done|]. destruct (decide (match_kind previous round pos = ThirdPlace)) as [Hk|];
    [|done].
  rewrite Hfinal; [done|]. unfold match_kind in Hk. repeat case_decide; try done. lia.
Qed.
