(* ===== verification/VisibilityApi.v ===== *)
(** * VisibilityApi: what the server and its plugins say about visibility

    packages/broccoli-types/src/types/visibility.rs: the question the server asks
    (who wants to do what with which resources) and the decision a plugin gives
    for each resource; packages/broccoli-types/src/permissions.rs. *)

From S2P Require Import Prelude.
From S2P Require Import Text.

Definition SUBMISSION_VIEW_ALL : ustring := u "submission:view_all".
Definition PROBLEM_CREATE : ustring := u "problem:create".
Definition PROBLEM_EDIT : ustring := u "problem:edit".

Record QuerySubject := {
  qs_user_id : option Z;
  qs_authenticated : bool;
  qs_permissions : list ustring;
}.

(** A resource whose visibility is asked for. *)
Record QueryResource := {
  vr_kind : ustring;
  vr_id : ustring;
  vr_contest_id : option Z;
  vr_problem_id : option Z;
}.

Record VisibilityQueryInput := {
  vq_subject : QuerySubject;
  vq_action : ustring;
  vq_context : option Z;
  vq_resources : list QueryResource;
}.

Definition vq_user_id (req : VisibilityQueryInput) : option Z := qs_user_id (vq_subject req).

Definition vq_permissions (req : VisibilityQueryInput) : list ustring :=
  qs_permissions (vq_subject req).

Inductive WireDecision := Allow | Deny | Redact (fields : list ustring).

#[global] Instance WireDecision_eq_dec : EqDecision WireDecision.
Proof. solve_decision. Defined.

Record VisibilityQueryOutput := { vo_decisions : list WireDecision }.
