(* ===== verification/BracketGate.v ===== *)
(** * BracketGate: who may submit, and who may see which problem

    The submission gate (plugins/codelink-bracket/src/gate.rs), the feedback a
    player's next submission is charged with (feedback.rs) and the visibility
    of problems and submissions (visibility.rs). *)

From S2P Require Import Prelude Text Float Verdict Sdk Host BracketModel BracketDecide.
From S2P Require Import BracketPacing BracketJudge VisibilityApi.

Open Scope machine_scope.

(** ** The gate *)

Record GateCtx := {
  gc_player_a : Z;
  gc_player_b : Z;
  gc_order_a : option (list Z);
  gc_order_b : option (list Z);
  gc_state : MatchPhase;
  gc_current_xiaoju_index : option Z;
  gc_current_xiaoju_decided : bool;
  gc_tiebreak_problem : option Z;
}.

Record Rejection := { rej_code : ustring; rej_message : ustring }.

Definition not_your_problem : Rejection := {|
  rej_code := u "NOT_YOUR_PROBLEM";
  (* "... in this 小局." *)
  rej_message := u "This is not your current problem in this " ++ [23567; 23616]%Z ++ u "." |}.
Definition xiaoju_closed : Rejection := {|
  rej_code := u "XIAOJU_CLOSED"; rej_message := u "This game is closed for submissions." |}.
Definition not_in_match : Rejection := {|
  rej_code := u "NOT_IN_MATCH";
  rej_message := u "You are not a participant in a match for this problem." |}.
Definition match_not_started : Rejection := {|
  rej_code := u "MATCH_NOT_STARTED";
  rej_message := u "This match is not currently accepting submissions." |}.
Definition submission_pending : Rejection := {|
  rej_code := u "SUBMISSION_IN_FLIGHT";
  rej_message := u "Wait for your previous submission's result before submitting again." |}.
Definition submission_too_late : Rejection := {|
  rej_code := u "SUBMISSION_TOO_LATE";
  rej_message := u "The submission window for this game has closed." |}.

Definition expected_problem (ctx : GateCtx) (viewer : Z) : option Z :=
  match gc_state ctx with
  | Tiebreak => gc_tiebreak_problem ctx
  | InProgress =>
      order ← (if decide (viewer = gc_player_a ctx) then gc_order_a ctx
               else if decide (viewer = gc_player_b ctx) then gc_order_b ctx
               else None);
      index ← gc_current_xiaoju_index ctx;
      order !! Z.to_nat index
  | _ => None
  end.

Definition check (ctx : GateCtx) (viewer problem_id : Z) : result Rejection unit :=
  if decide (expected_problem ctx viewer ≠ Some problem_id) then Err not_your_problem
  else if gc_current_xiaoju_decided ctx then Err xiaoju_closed
  else Ok tt.

Definition gate_ctx_from_match (m : MatchState) (round_def : RoundDef) : GateCtx :=
  let current := last (m_xiaoju m) in
  {| gc_player_a := m_player_a m;
     gc_player_b := m_player_b m;
     gc_order_a := m_order_a m;
     gc_order_b := m_order_b m;
     gc_state := m_state m;
     gc_current_xiaoju_index := x_index <$> current;
     gc_current_xiaoju_decided := default false (x_decided <$> current);
     gc_tiebreak_problem := rd_tiebreak round_def !! m_tiebreak_index m |}.

Record PlayerFeedback := {
  pf_penalty_count : Z;
  pf_delay_seconds : Z;
  pf_pending_submission_id : option Z;
  pf_effective_at_us : option Z;
  pf_slot_token : option SubmissionSlotToken;
}.

Record BeforeSubmissionEvent := {
  ev_user_id : Z;
  ev_problem_id : Z;
  ev_contest_id : option Z;
  ev_language : ustring;
  ev_file_count : nat;
  ev_contest_type : ustring;
}.

Record SubmissionAdmission := {
  ad_guard_key : ustring;
  ad_guard_expected_value : ustring;
  ad_feedback_key : ustring;
  ad_metadata : ustring;
  ad_slot : option SubmissionSlotToken;
  ad_latest_arrival_ms : option Z;
}.

(** The hook's answer: pass the event on, attach an admission to it, or reject
    it. *)
Inductive GateResponse :=
  | Pass
  | Admit (admission : SubmissionAdmission)
  | Reject (code message : ustring) (status : Z).

Section gate.
Context `{Serde MatchState, Serde Setup, Serde AdmissionMetadata}.

(** The errors of a player in the current game, as the query counts them. *)
Definition is_judged_error (contest user problem opened_at_ms : Z) (r : SubmissionRow) : bool :=
  bool_decide (row_contest_id r = contest ∧ row_user_id r = user ∧ row_problem_id r = problem)
  && (opened_at_ms * 1000 <=? row_created_at_us r)%Z
  && bool_decide (row_status r = Judged)
  && match row_verdict r with
     | Some v => bool_decide (to_db_str v ∈ to_db_str <$> PENALTY_VERDICTS)
     | None => false
     end.

Definition judged_errors (contest user problem opened_at_ms : Z) (rows : list SubmissionRow) : Z :=
  Z.of_nat (length (filter (λ r, is_judged_error contest user problem opened_at_ms r = true) rows)).

Definition player_feedback (contest : Z) (m : MatchState) (user problem penalty : Z)
    : M PlayerFeedback :=
  match last (m_xiaoju m) with
  | None => mret {| pf_penalty_count := 0; pf_delay_seconds := 0; pf_pending_submission_id := None;
                    pf_effective_at_us := None; pf_slot_token := None |}
  | Some game =>
      slot ← Submissions.observe_slot (player_slot contest user);
      count ← gets (λ h, judged_errors contest user problem (x_opened_at_ms game) (h_submissions h));
      effective ← match so_pending slot with
                  | Some pending => t ← lift (effective_time pending); mret (Some t)
                  | None => mret None
                  end;
      mret {| pf_penalty_count := count;
              pf_delay_seconds := score_delay_seconds m count penalty;
              pf_pending_submission_id := fb_submission_id <$> so_pending slot;
              pf_effective_at_us := effective;
              pf_slot_token := Some (so_token slot) |}
  end.

(** The checks on the game once the match, the problem and the slot are right. *)
Definition admit_to_game (contest match_id : Z) (state_key : ustring) (snapshot : StorageSnapshot)
    (m : MatchState) (feedback : PlayerFeedback) : M (result Rejection SubmissionAdmission) :=
  game ← or_throw (last (m_xiaoju m)) (Other (u "no open game"));
  clock ← clock contest;
  if negb (contains_submission_at_us game (clk_now clock *s 1000)) then mret (Err xiaoju_closed)
  else
    let deadline_ms := cutoff clock (x_deadline_ms game) in
    if (deadline_ms <=? clk_now clock)%Z then mret (Err submission_too_late)
    else mret (Ok {|
      ad_guard_key := state_key;
      ad_guard_expected_value := sn_value snapshot;
      ad_feedback_key := state_key;
      ad_metadata := to_json {| am_scope_key := game_scope contest match_id (x_index game);
                                am_delay_seconds := pf_delay_seconds feedback;
                                am_effective_at_us := None |};
      ad_slot := pf_slot_token feedback;
      ad_latest_arrival_ms := Some deadline_ms |}).

Definition resolve_rejection (event : BeforeSubmissionEvent)
    : M (result Rejection SubmissionAdmission) :=
  match ev_contest_id event with
  | None => mret (Err not_in_match)
  | Some contest_id =>
      setup ← load_setup contest_id;
      match setup with
      | None => mret (Err not_in_match)
      | Some setup =>
          match problem_round setup (ev_problem_id event) with
          | None => mret (Err not_your_problem)
          | Some round =>
              matches ← load_all_matches contest_id;
              match find_players_match matches round (ev_user_id event) with
              | None => mret (Err not_in_match)
              | Some m =>
                  round_def ← or_throw (round_for_match setup (m_round m) (m_pos m))
                                (Other (u "Missing match problem groups"));
                  let match_id := match_id_for (player_count setup) (m_round m) (m_pos m) in
                  let state_key := match_key contest_id match_id in
                  snapshot ← Storage.snapshot state_key;
                  snapshot ← or_throw snapshot (Other (u "match disappeared during submission"));
                  m ← parse_json (A := MatchState) (sn_value snapshot);
                  if decide (m_state m ≠ InProgress ∧ m_state m ≠ Tiebreak) then
                    mret (Err match_not_started)
                  else
                    match check (gate_ctx_from_match m round_def) (ev_user_id event)
                            (ev_problem_id event) with
                    | Err rejection => mret (Err rejection)
                    | Ok _ =>
                        feedback ← player_feedback contest_id m (ev_user_id event)
                                     (ev_problem_id event) (penalty_seconds setup);
                        if decide (is_Some (pf_pending_submission_id feedback)) then
                          mret (Err submission_pending)
                        else
                          let match_id := match_id_for (player_count setup) (m_round m) (m_pos m) in
                          admit_to_game contest_id match_id state_key snapshot m feedback
                    end
              end
          end
      end
  end.

Definition BRACKET_TYPE : ustring := u "codelink-bracket".

(** [blocked] is the query for a running bracket contest that holds the
    problem. *)
Definition dispatch_submission_gate (blocked : Z → M bool) (event : BeforeSubmissionEvent)
    : M GateResponse :=
  if decide (is_Some (ev_contest_id event) ∧ ev_contest_type event = BRACKET_TYPE) then
    verdict ← resolve_rejection event;
    match verdict with
    | Ok admission => mret (Admit admission)
    | Err rejection => mret (Reject (rej_code rejection) (rej_message rejection) 400)
    end
  else
    blocked ← (if decide (ev_contest_type event = BRACKET_TYPE) then mret true
               else blocked (ev_problem_id event));
    mret (if blocked : bool then
            Reject (u "CONTEST_SUBMISSION_REQUIRED")
              (u "Submit this problem through its bracket contest.") 400
          else Pass).

End gate.

(** ** Visibility *)

Record VisibilityCtx := {
  vc_player_a : Z;
  vc_player_b : Z;
  vc_group_a : list Z;
  vc_group_b : list Z;
  vc_order_a : option (list Z);
  vc_order_b : option (list Z);
  vc_state : MatchPhase;
  vc_current_xiaoju_index : option Z;
  vc_tiebreak_problem : option Z;
}.

Definition allow_if (b : bool) : WireDecision := if b then Allow else Deny.

(** [order.iter().position(|&p| p == problem)]. *)
Definition position_of (problem : Z) (order : list Z) : option nat :=
  fst <$> list_find (λ p, p = problem) order.

Definition on_tiebreak (ctx : VisibilityCtx) (problem_id viewer : Z) : bool :=
  (bool_decide (vc_state ctx = Tiebreak)
   || (bool_decide (vc_state ctx = AwaitingJudge)
       && match vc_current_xiaoju_index ctx with
          | Some index => length (vc_group_a ctx) <=? Z.to_nat index
          | None => false
          end))
  && bool_decide (vc_tiebreak_problem ctx = Some problem_id)
  && bool_decide (viewer = vc_player_a ctx ∨ viewer = vc_player_b ctx).

Definition on_own_problem (ctx : VisibilityCtx) (problem_id viewer owner : Z)
    (owners_order : option (list Z)) : bool :=
  bool_decide (viewer = owner)
  && bool_decide (vc_state ctx = InProgress ∨ vc_state ctx = AwaitingJudge)
  && match vc_current_xiaoju_index ctx, owners_order with
     | Some current_index, Some order =>
         match position_of problem_id order with
         | Some pos => (wrap_u8 (Z.of_nat pos) =? current_index)%Z
         | None => false
         end
     | _, _ => false
     end.

Definition decide_problem (ctx : VisibilityCtx) (problem_id viewer : Z) (can_view_all : bool)
    : WireDecision :=
  if can_view_all then Allow
  else
    let in_group (owner opponent : Z) (order : option (list Z)) :=
      if decide (viewer = opponent ∧ vc_state ctx = Ordering) then Allow
      else allow_if (on_own_problem ctx problem_id viewer owner order) in
    if decide (problem_id ∈ vc_group_a ctx) then
      in_group (vc_player_a ctx) (vc_player_b ctx) (vc_order_a ctx)
    else if decide (problem_id ∈ vc_group_b ctx) then
      in_group (vc_player_b ctx) (vc_player_a ctx) (vc_order_b ctx)
    else allow_if (on_tiebreak ctx problem_id viewer).

Definition decide_submission (owner viewer : Z) (can_view_all : bool) : WireDecision :=
  allow_if (can_view_all || bool_decide (viewer = owner)).

Definition ctx_from_match (m : MatchState) (round_def : RoundDef) : VisibilityCtx := {|
  vc_player_a := m_player_a m;
  vc_player_b := m_player_b m;
  vc_group_a := m_group_a m;
  vc_group_b := m_group_b m;
  vc_order_a := m_order_a m;
  vc_order_b := m_order_b m;
  vc_state := m_state m;
  vc_current_xiaoju_index := x_index <$> last (m_xiaoju m);
  vc_tiebreak_problem := rd_tiebreak round_def !! m_tiebreak_index m |}.

Definition decide_problem_for_contest (contest_id problem_id viewer : Z)
    (setups : gmap Z Setup) (matches : gmap Z (list (Z * MatchState))) : WireDecision :=
  default Deny
    (setup ← setups !! contest_id;
     round ← problem_round setup problem_id;
     contest_matches ← matches !! contest_id;
     m ← find_players_match contest_matches round viewer;
     round_def ← round_for_match setup (m_round m) (m_pos m);
     Some (decide_problem (ctx_from_match m round_def) problem_id viewer false)).

(** The tables the queries read: the type of each contest, the problems of the
    bracket contests that are not deleted, and the owner and contest type of
    the submissions made in a contest. *)
Record VisibilityTables := {
  vt_contest_types : gmap Z (option ustring);
  vt_bracket_problems : list (Z * Z);
  vt_submissions : gmap Z (Z * option ustring);
}.

Section visibility.
Context `{Serde MatchState, Serde Setup}.

Definition asked_contests (req : VisibilityQueryInput) : list Z :=
  omap vr_contest_id (filter (λ r, vr_kind r = u "problem") (vq_resources req)).

Definition context_free_problems (req : VisibilityQueryInput) : list Z :=
  omap vr_problem_id
    (filter (λ r, vr_kind r = u "problem" ∧ vr_contest_id r = None) (vq_resources req)).

(** The bracket contests among the ones asked for, and those that hold a
    problem asked for without a contest. *)
Definition bracket_contests (t : VisibilityTables) (req : VisibilityQueryInput) : list Z :=
  filter (λ c, vt_contest_types t !! c = Some (Some BRACKET_TYPE)) (remove_dups (asked_contests req))
  ++ (snd <$> filter (λ row, row.1 ∈ context_free_problems req) (vt_bracket_problems t)).

Definition contests_with_problem (t : VisibilityTables) (problem_id : Z) : list Z :=
  snd <$> filter (λ row, row.1 = problem_id) (vt_bracket_problems t).

(** Load the setup and the matches of each contest. *)
Fixpoint load_contests (contests : list Z)
    (acc : gmap Z Setup * gmap Z (list (Z * MatchState)))
    : M (gmap Z Setup * gmap Z (list (Z * MatchState))) :=
  match contests with
  | [] => mret acc
  | contest_id :: rest =>
      setup ← load_setup contest_id;
      matches ← load_all_matches contest_id;
      load_contests rest
        (match setup with Some s => <[contest_id := s]> acc.1 | None => acc.1 end,
         <[contest_id := matches]> acc.2)
  end.

Definition decide_problem_resource (t : VisibilityTables) (req : VisibilityQueryInput)
    (docs : gmap Z Setup * gmap Z (list (Z * MatchState))) (r : QueryResource)
    : WireDecision :=
  match vr_problem_id r with
  | None => Allow
  | Some problem_id =>
      match vr_contest_id r with
      | Some contest_id =>
          if decide (contest_id ∉ bracket_contests t req) then Allow
          else
            match vq_user_id req with
            | None => Deny
            | Some v => decide_problem_for_contest contest_id problem_id v docs.1 docs.2
            end
      | None =>
          match contests_with_problem t problem_id with
          | [] => Allow
          | contests =>
              match vq_user_id req with
              | None => Deny
              | Some v =>
                  allow_if (forallb (λ c, bool_decide
                    (decide_problem_for_contest c problem_id v docs.1 docs.2 = Allow)) contests)
              end
          end
      end
  end.

Definition decide_submission_resource (t : VisibilityTables) (req : VisibilityQueryInput)
    (r : QueryResource) : WireDecision :=
  match parse_i32 (vr_id r) with
  | None => Allow
  | Some sub_id =>
      match vt_submissions t !! sub_id with
      | None => Deny
      | Some (owner, contest_type) =>
          if decide (contest_type ≠ Some BRACKET_TYPE) then Allow
          else
            match vq_user_id req with
            | None => Deny
            | Some v => decide_submission owner v false
            end
      end
  end.

Definition decide_visibility_decisions (t : VisibilityTables) (req : VisibilityQueryInput)
    : M (list WireDecision) :=
  if decide (SUBMISSION_VIEW_ALL ∈ vq_permissions req) then
    mret ((λ _, Allow) <$> vq_resources req)
  else
    docs ← load_contests (bracket_contests t req) (∅, ∅);
    mret ((λ r, if decide (vr_kind r = u "problem") then decide_problem_resource t req docs r
                else if decide (vr_kind r = u "submission") then decide_submission_resource t req r
                else Allow) <$> vq_resources req).

End visibility.
