(* ===== verification/BracketGateProofs.v ===== *)
(** * BracketGateProofs: the gate, the judge and visibility agree

    The gate admits a submission, the judge reads it and the problem page shows
    its statement by three separate pieces of code.  On a reachable match they
    agree on the one problem a player is on. *)

From S2P Require Import Prelude Text Float Verdict Sdk Host BracketModel.
From S2P Require Import BracketDecide BracketDecideProofs BracketPacing.
From S2P Require Import BracketJudge BracketInvariant VisibilityApi BracketGate.

Open Scope machine_scope.

Section gate_proofs.
Context `{Serde MatchState, Serde Setup, Serde AdmissionMetadata}.

(** ** Groups and orders *)

Definition same_orders (m m' : MatchState) : Prop :=
  m_group_a m' = m_group_a m ∧ m_group_b m' = m_group_b m ∧
  m_order_a m' = m_order_a m ∧ m_order_b m' = m_order_b m.

Lemma same_orders_trans m1 m2 m3 : same_orders m1 m2 → same_orders m2 m3 → same_orders m1 m3.
Proof. unfold same_orders. intuition congruence. Qed.

Lemma open_same_orders contest match_id setup clock at_ms m h m' h' :
  open_xiaoju_at contest match_id setup clock at_ms m h = Some (Ok m', h') → same_orders m m'.
Proof.
  unfold open_xiaoju_at. intros Hrun. run_inv. unfold start_budget in Hrun1.
  assert (same_orders m a0) as Hb.
  { destruct (decide _); [|by injection Hrun1 as <-].
    apply result_bind_Ok in Hrun1 as (? & _ & E). by injection E as <-. }
  eapply same_orders_trans; [exact Hb|]. unfold fix_durations.
  by destruct (m_game_durations a0).
Qed.

Lemma decide_game_same_orders m subs now cut penalty o m' :
  decide_game_at_cutoff m subs now cut penalty = Some (o, m') → same_orders m m'.
Proof.
  assert (∀ game w ended, record_result m game w ended = Some (o, m') → same_orders m m') as Hr.
  { intros game w ended. unfold record_result. intros (used & _ & E)%bind_Some.
    injection E as _ <-. destruct w; [|done]. cbn. repeat case_decide; done. }
  unfold decide_game_at_cutoff. repeat case_match; intros E;
    first [by apply Hr in E | by injection E as _ <-].
Qed.

Lemma decide_match_same_orders m setup o m' :
  decide_match m setup = (o, m') → same_orders m m'.
Proof.
  unfold decide_match, decide_tiebreak, decide_regular, decided_for. cbv zeta.
  repeat case_match; intros E; injection E as _ <-; done.
Qed.

Lemma step_same_orders contest match_id setup m h m' h' :
  step contest match_id setup m h = Some (Ok m', h') → same_orders m m'.
Proof.
  unfold step. intros Hrun.
  assert (step_intermission contest match_id setup m h = Some (Ok m', h') → same_orders m m') as Hi.
  { clear Hrun. unfold step_intermission. intros Hrun. run_inv.
    destruct (contest_ended _); [by run_inv|]. run_inv.
    destruct (_ <? _)%Z; [by run_inv|]. by apply open_same_orders in Hrun. }
  assert (∀ clock index blocking m0 h0, same_orders m m0 →
    step_awaiting contest match_id setup clock index blocking m0 h0 = Some (Ok m', h') →
    same_orders m m') as Ha.
  { intros clock index blocking m0 h0 Hs Hr. unfold step_awaiting in Hr.
    destruct (bool_decide _); run_inv; done. }
  assert (∀ rd current, step_game contest match_id setup rd current m h = Some (Ok m', h') →
    same_orders m m') as Hg.
  { clear Hrun Hi. intros rd current Hrun. unfold step_game in Hrun. run_inv.
    destruct a1 as [o m1]. apply decide_game_same_orders in Hrun2.
    destruct (decide _).
    { destruct (oldest_in_flight _); [by eapply Ha|].
      unfold escalate_contest_ended in Hrun. by run_inv. }
    destruct o; [by run_inv| |by eapply Ha].
    unfold step_decided in Hrun.
    set (m2 := if decide _ then _ else m1) in Hrun.
    assert (same_orders m m2) as H2 by (unfold m2; by destruct (decide _)).
    clearbody m2. destruct (decide_match m2 setup) as [o m3] eqn:Hd.
    apply decide_match_same_orders in Hd. pose proof (same_orders_trans _ _ _ H2 Hd) as H3.
    destruct o; cbv zeta in Hrun; try (by run_inv);
      (destruct (contest_ended _); [unfold escalate_contest_ended in Hrun; by run_inv|];
       destruct (_ =? 0)%Z; [|by run_inv]; apply open_same_orders in Hrun;
       by eapply same_orders_trans). }
  destruct (m_state m); try (by run_inv); try (by apply Hi);
    (destruct (last (m_xiaoju m)); [|by run_inv];
     destruct (round_for_match _ _ _) eqn:Hrd; [by eapply Hg|]; run_inv;
     destruct (decide_match m setup) eqn:Hd; by apply decide_match_same_orders in Hd).
Qed.

(** Orders are rankings of the groups of the round. *)
Definition orders_ok (rd : RoundDef) (m : MatchState) : Prop :=
  m_group_a m = rd_group_a rd ∧ m_group_b m = rd_group_b rd ∧
  (∀ o, m_order_a m = Some o → o ≡ₚ rd_group_a rd) ∧
  (∀ o, m_order_b m = Some o → o ≡ₚ rd_group_b rd).

Lemma same_orders_ok rd m m' : same_orders m m' → orders_ok rd m → orders_ok rd m'.
Proof. unfold same_orders, orders_ok. intros (-> & -> & -> & ->). done. Qed.

Lemma fill_orders_ok rd m : orders_ok rd m → orders_ok rd (fill_missing_orders m).
Proof.
  intros (Ga & Gb & Ha & Hb). unfold fill_missing_orders, orders_ok.
  repeat case_decide; cbn in *; rewrite ?Ga, ?Gb; split_and!; try done; by intros o [= <-].
Qed.

Lemma match_step_orders setup rd m m' :
  m_player_a m ≠ m_player_b m → match_step setup m m' → orders_ok rd m → orders_ok rd m'.
Proof.
  intros Hab [window submitter order h h' Hrun|contest id matches cs clk h h' Hrun
    |contest id stage clk h h' Hrun|contest id h h' Hrun| ->|contest id winner h h' Hrun
    |contest id h h' Hrun] Ho.
  - unfold order_update in Hrun. run_inv.
    destruct (match window with Some _ => _ | None => _ end); [run_inv|].
    destruct (record_order m submitter order) eqn:E; run_inv.
    apply record_order_inv in E as [_ Hc]; [|done]. destruct Ho as (Ga & Gb & Ha & Hb).
    unfold orders_ok.
    destruct Hc as [(_ & Hp & ->)|(_ & Hp & ->)]; cbn; rewrite ?Ga, ?Gb in *;
      split_and!; try done; by intros o [= <-].
  - unfold autostart in Hrun. destruct (decide _); [by run_inv|].
    apply open_same_orders in Hrun. by eapply same_orders_ok.
  - unfold prepare in Hrun. destruct (negb _); [by run_inv|].
    destruct (contest_ended _); [by run_inv|]. cbv zeta in Hrun.
    set (m2 := if (_ : bool) then set_state Preparing _ else m) in Hrun.
    assert (orders_ok rd m2) as H2.
    { unfold m2. destruct (_ && _); [|done]. by apply fill_orders_ok in Ho. }
    clearbody m2. destruct (_ && _); [|by run_inv].
    apply open_same_orders in Hrun. by eapply same_orders_ok.
  - apply step_same_orders in Hrun. by eapply same_orders_ok.
  - unfold escalate_update. by destruct (decide _).
  - unfold force_decide_update, apply_force_decide in Hrun. run_inv.
    repeat case_decide; run_inv; done.
  - destruct (start_update_inv _ _ _ _ _ _ _ Hrun) as (_ & clk & h1 & Hopen).
    apply open_same_orders in Hopen. eapply same_orders_ok; [exact Hopen|].
    by apply fill_orders_ok in Ho.
Qed.

Lemma reachable_orders_ok rd round pos m : reachable rd round pos m → orders_ok rd m.
Proof.
  induction 1 as [a b Hab|setup m m' Hre IH Hrd Hr Hstep].
  - by split_and!.
  - eapply match_step_orders; [|exact Hstep|done].
    destruct (reachable_ok _ _ _ _ Hre) as [[Hg _] _]. apply (g_players _ _ Hg).
Qed.

(** ** The problem a player sees *)

Lemma position_lookup p order index :
  NoDup order → length order ≤ 256 → (0 ≤ index < 256)%Z →
  match position_of p order with
  | Some pos => (wrap_u8 (Z.of_nat pos) =? index)%Z
  | None => false
  end = true ↔ order !! Z.to_nat index = Some p.
Proof.
  intros Hnd Hlen Hi. unfold position_of.
  destruct (list_find (λ q, q = p) order) as [[pos q]|] eqn:E; cbn.
  - apply list_find_Some in E as (Hpos & -> & _). pose proof (lookup_lt_Some _ _ _ Hpos).
    rewrite wrap_u8_id by mlia. rewrite Z.eqb_eq. split.
    + intros <-. by rewrite Nat2Z.id.
    + intros Hx. pose proof (NoDup_lookup _ _ _ _ Hnd Hpos Hx). lia.
  - split; [done|]. intros Hx. apply list_find_None in E. rewrite Forall_forall in E.
    exfalso. apply (E p); [|done]. by eapply list_elem_of_lookup_2.
Qed.

(** What validation guarantees of the problems of a round. *)
Record round_distinct (rd : RoundDef) : Prop := {
  rd_nodup : NoDup (round_problems rd);
  rd_total : length (rd_group_a rd) + length (rd_tiebreak rd) ≤ 256;
  rd_even : length (rd_group_b rd) = length (rd_group_a rd);
}.

Definition opponents_group (m : MatchState) (viewer : Z) : list Z :=
  if decide (viewer = m_player_a m) then m_group_b m else m_group_a m.

Definition may_see (m : MatchState) (rd : RoundDef) (problem viewer : Z) : Prop :=
  current_problem m rd viewer = Some problem ∨
  m_state m = Ordering ∧ problem ∈ opponents_group m viewer.

(** The index of the open game, for a match in order. *)
Definition index_ok (m : MatchState) : Prop :=
  ∀ x, last (m_xiaoju m) = Some x → (0 ≤ x_index x < 256)%Z.

(** The problems a player is on are in the player's own group or in the
    tiebreak list. *)
Lemma current_problem_own rd m viewer problem :
  orders_ok rd m → m_player_a m ≠ m_player_b m → current_problem m rd viewer = Some problem →
  problem ∈ rd_tiebreak rd ∨
  viewer = m_player_a m ∧ problem ∈ rd_group_a rd ∨
  viewer = m_player_b m ∧ problem ∈ rd_group_b rd.
Proof.
  intros (_ & _ & Ha & Hb) Hab Hc.
  assert (tiebreak_problem m rd = Some problem ∨ current_regular_problem m viewer = Some problem)
    as [Ht|Hr].
  { unfold current_problem in Hc. destruct (m_state m); try done; auto.
    apply bind_Some in Hc as (x & _ & Hc). destruct (is_regular_game _ _); auto. }
  - left. unfold tiebreak_problem in Ht. by eapply list_elem_of_lookup_2.
  - right. unfold current_regular_problem in Hr.
    apply bind_Some in Hr as (o & Ho & (x & _ & Hi)%bind_Some).
    apply list_elem_of_lookup_2 in Hi. repeat case_decide; try done.
    + left. by rewrite (Ha _ Ho) in Hi.
    + right. by rewrite (Hb _ Ho) in Hi.
Qed.

(** Seeing one's own problem is being on it. *)
Lemma own_problem_current rd m problem owner order :
  NoDup (rd_group_a rd) → NoDup (rd_group_b rd) → length (rd_group_a rd) ≤ 256 →
  length (rd_group_b rd) = length (rd_group_a rd) → games_ok rd m → phase_ok rd m → index_ok m →
  problem ∉ rd_tiebreak rd →
  (∀ o, order = Some o → o ≡ₚ rd_group_a rd ∨ o ≡ₚ rd_group_b rd) →
  (∀ x, last (m_xiaoju m) = Some x →
     current_regular_problem m owner = order ≫= λ o, o !! Z.to_nat (x_index x)) →
  on_own_problem (ctx_from_match m rd) problem owner owner order = true ↔
  current_problem m rd owner = Some problem.
Proof.
  intros Hna Hnb Hsa Heven Hg Hp Hidx Htie Horder Hcur. unfold on_own_problem.
  rewrite (bool_decide_true (owner = owner)) by done. cbn [andb ctx_from_match vc_state
    vc_current_xiaoju_index].
  destruct (last (m_xiaoju m)) as [x|] eqn:Hlast; cbn [fmap option_fmap option_map].
  2: { rewrite andb_false_r. split; [done|]. unfold current_problem, current_regular_problem,
         tiebreak_problem. rewrite Hlast.
       destruct (m_state m); try done; intros Hc.
       - by apply bind_Some in Hc as (? & _ & ?).
       - destruct Htie. by eapply list_elem_of_lookup_2. }
  specialize (Hidx x Hlast). specialize (Hcur x eq_refl).
  assert (order ≫= (λ o, o !! Z.to_nat (x_index x)) = Some problem ↔
    match order with
    | Some o => match position_of problem o with
                | Some pos => (wrap_u8 (Z.of_nat pos) =? x_index x)%Z | None => false end
    | None => false end = true) as Hpos.
  { destruct order as [o|]; [|done]. cbn. rewrite position_lookup; [done| | |done].
    - destruct (Horder o eq_refl) as [E|E]; by rewrite E.
    - destruct (Horder o eq_refl) as [E|E]; rewrite E; lia. }
  rewrite andb_true_iff, bool_decide_eq_true, <- Hpos, <- Hcur.
  unfold current_problem. rewrite Hlast. cbn [mbind option_bind].
  assert (∀ p, tiebreak_problem m rd = Some p → p ≠ problem) as Hnt.
  { intros p Hx ->. apply Htie. by eapply list_elem_of_lookup_2. }
  destruct (m_state m) eqn:Hst; try (split; [by intros [[?|?] _]|done]).
  - split; [by intros [_ ?]|]. intros ?. split; [by left|done].
  - split; [by intros [[?|?] _]|]. intros Hc. by destruct (Hnt _ Hc).
  - destruct (is_regular_game m (x_index x)) eqn:Hreg.
    + split; [by intros [_ ?]|]. intros ?. split; [by right|done].
    + split; [|intros Hc; by destruct (Hnt _ Hc)]. intros [_ Hc]. exfalso.
      rewrite Hcur in Hc. apply bind_Some in Hc as (o & -> & Hl%lookup_lt_Some).
      unfold is_regular_game in Hreg. rewrite (g_group _ _ Hg) in Hreg.
      apply Nat.ltb_ge in Hreg. destruct (Horder o eq_refl) as [E|E]; rewrite E in Hl; lia.
Qed.

Lemma games_index_ok rd m : games_ok rd m → round_distinct rd → index_ok m.
Proof.
  intros Hg Hd x [init Hx]%last_inv. pose proof (rd_total _ Hd). pose proof (g_bound _ _ Hg) as Hb.
  rewrite (g_index _ _ Hg (length init) x).
  - rewrite Hx, length_app in Hb. cbn in Hb. lia.
  - by rewrite Hx, lookup_app_r, Nat.sub_diag by done.
Qed.

Lemma distinct_groups rd :
  round_distinct rd →
  NoDup (rd_group_a rd) ∧ NoDup (rd_group_b rd) ∧
  (∀ p, p ∈ rd_group_a rd → p ∉ rd_group_b rd ∧ p ∉ rd_tiebreak rd) ∧
  (∀ p, p ∈ rd_group_b rd → p ∉ rd_tiebreak rd).
Proof.
  intros [Hnd _ _]. unfold round_problems in Hnd. apply NoDup_app in Hnd as (Ha & Hab & Hnd).
  apply NoDup_app in Hnd as (Hb & Hbt & _). split_and!; try done.
  intros p Hp. specialize (Hab p Hp). set_solver.
Qed.

Lemma allow_if_Allow b : allow_if b = Allow ↔ b = true.
Proof. by destruct b. Qed.

(** A tiebreak problem is shown to the players while it is played. *)
Lemma tiebreak_current rd m problem viewer :
  match_ok rd m → orders_ok rd m → participant m viewer →
  problem ∉ rd_group_a rd → problem ∉ rd_group_b rd →
  on_tiebreak (ctx_from_match m rd) problem viewer = true ↔
  current_problem m rd viewer = Some problem.
Proof.
  intros [Hg _] (Ga & Gb & Ha & Hb) Hpart Hna Hnb. unfold on_tiebreak.
  rewrite (bool_decide_true (viewer = _ ∨ viewer = _)) by exact Hpart. rewrite andb_true_r.
  cbn [ctx_from_match vc_state vc_group_a vc_current_xiaoju_index vc_tiebreak_problem].
  assert (current_regular_problem m viewer ≠ Some problem) as Hnot.
  { unfold current_regular_problem. intros (o & Ho & (x & _ & Hi)%bind_Some)%bind_Some.
    apply list_elem_of_lookup_2 in Hi. repeat case_decide; try done.
    - rewrite (Ha _ Ho) in Hi. done.
    - rewrite (Hb _ Ho) in Hi. done. }
  rewrite andb_true_iff, orb_true_iff, andb_true_iff, !bool_decide_eq_true.
  unfold current_problem, tiebreak_problem. destruct (m_state m) eqn:Hst; try naive_solver.
  destruct (last (m_xiaoju m)) as [x|];
    cbn [fmap option_fmap option_map mbind option_bind]; [|naive_solver].
  unfold is_regular_game. destruct (Nat.ltb_spec (Z.to_nat (x_index x)) (length (m_group_a m)));
    rewrite Nat.leb_le; intuition (try lia; try done).
Qed.

Lemma visible_iff rd m problem viewer :
  match_ok rd m → orders_ok rd m → round_distinct rd → participant m viewer →
  decide_problem (ctx_from_match m rd) problem viewer false = Allow ↔
  may_see m rd problem viewer.
Proof.
  intros Hok Ho Hd Hpart. pose proof Hok as [Hg Hp]. pose proof (g_players _ _ Hg) as Hab.
  pose proof (games_index_ok _ _ Hg Hd) as Hidx.
  destruct (distinct_groups rd Hd) as (Hna & Hnb & Hda & Hdb).
  pose proof (rd_total _ Hd). pose proof (rd_even _ Hd) as Heven.
  pose proof (current_problem_own rd m viewer problem Ho Hab) as Hown.
  pose proof Ho as (Ga & Gb & Ha & Hb).
  unfold decide_problem, may_see, opponents_group. cbn [ctx_from_match vc_group_a vc_group_b
    vc_player_a vc_player_b vc_order_a vc_order_b vc_state]. rewrite Ga, Gb.
  destruct (decide (problem ∈ rd_group_a rd)) as [Hina|Hina];
    [|destruct (decide (problem ∈ rd_group_b rd)) as [Hinb|Hinb]].
  - destruct (Hda _ Hina) as [Hxb Hxt].
    destruct Hpart as [-> | ->].
    + rewrite (decide_False (P := m_player_a m = m_player_b m ∧ _)) by naive_solver.
      rewrite allow_if_Allow, (decide_True (P := m_player_a m = m_player_a m)) by done.
      change (ctx_from_match m rd) with (ctx_from_match m rd).
      rewrite (own_problem_current rd m problem (m_player_a m) (m_order_a m)); try done.
      * naive_solver.
      * lia.
      * intros o E. left. by apply Ha.
      * intros x Hx. unfold current_regular_problem. rewrite decide_True, Hx by done. done.
    + rewrite (decide_False (P := m_player_b m = m_player_a m)) by done.
      destruct (decide (m_player_b m = m_player_b m ∧ m_state m = Ordering)) as [[_ Hs]|Hs].
      { split; [|done]. intros _. by right. }
      rewrite allow_if_Allow. unfold on_own_problem. rewrite bool_decide_false by done.
      split; [done|]. intros [Hc|[Hc _]]; [|naive_solver].
      destruct (Hown Hc) as [?|[[? _]|[_ ?]]]; done.
  - pose proof (Hdb _ Hinb) as Hxt. destruct Hpart as [-> | ->].
    + rewrite (decide_True (P := m_player_a m = m_player_a m)) by done.
      destruct (decide (m_player_a m = m_player_a m ∧ m_state m = Ordering)) as [[_ Hs]|Hs].
      { split; [|done]. intros _. by right. }
      rewrite allow_if_Allow. unfold on_own_problem. rewrite bool_decide_false by done.
      split; [done|]. intros [Hc|[Hc _]]; [|naive_solver].
      destruct (Hown Hc) as [?|[[_ ?]|[? _]]]; done.
    + rewrite (decide_False (P := m_player_b m = m_player_a m ∧ _)) by naive_solver.
      rewrite allow_if_Allow, (decide_False (P := m_player_b m = m_player_a m)) by done.
      rewrite (own_problem_current rd m problem (m_player_b m) (m_order_b m)); try done.
      * naive_solver.
      * lia.
      * intros o E. right. by apply Hb.
      * intros x Hx. unfold current_regular_problem.
        rewrite decide_False, decide_True, Hx by done. done.
  - rewrite allow_if_Allow, tiebreak_current by done. split; [by left|].
    intros [?|[_ Hin]]; [done|]. by destruct (decide (viewer = m_player_a m)).
Qed.

Lemma gate_expected m rd viewer :
  expected_problem (gate_ctx_from_match m rd) viewer =
  (if decide (m_state m = AwaitingJudge) then None else current_problem m rd viewer).
Proof.
  unfold expected_problem, current_problem, current_regular_problem, tiebreak_problem. cbn.
  destruct (m_state m); cbn; try done. destruct (last (m_xiaoju m)); done.
Qed.

(** On a reachable match a player sees exactly one problem, the one the judge
    reads the player's submissions for; before the games start, the problems
    of the opponent, to rank them; and nothing else. *)
Theorem visible_problem_exact rd round pos m problem viewer :
  reachable rd round pos m → round_distinct rd → participant m viewer →
  decide_problem (ctx_from_match m rd) problem viewer false = Allow ↔
  may_see m rd problem viewer.
Proof.
  intros Hre Hd Hpart. apply visible_iff; [|by eapply reachable_orders_ok|done..].
  by apply reachable_ok in Hre as [? _].
Qed.

(** A submission the gate admits is for a problem that the player can see,
    that the judge reads the player's submissions for, and whose game is
    open. *)
Theorem admitted_problem_visible rd round pos m problem viewer :
  reachable rd round pos m → round_distinct rd → participant m viewer →
  check (gate_ctx_from_match m rd) viewer problem = Ok tt →
  decide_problem (ctx_from_match m rd) problem viewer false = Allow ∧
  current_problem m rd viewer = Some problem ∧ open_game m.
Proof.
  intros Hre Hd Hpart Hc. pose proof (reachable_ok _ _ _ _ Hre) as [[Hg Hp] _].
  unfold check in Hc. destruct (decide _) as [|He]; [done|]. apply dec_stable in He.
  rewrite gate_expected in He. destruct (decide (m_state m = AwaitingJudge)) as [|Hst]; [done|].
  split_and!; [|done|].
  - apply visible_iff; [done|by eapply reachable_orders_ok|done|done|by left].
  - unfold current_problem in He. unfold phase_ok in Hp.
    destruct (m_state m); try done; apply Hp.
Qed.
End gate_proofs.
