(* ===== verification/BracketWakeup.v ===== *)
(** * BracketWakeup: a live match always has a timer that will drive it on

    Nobody polls a match: it moves on when a timer fires or a submission is
    judged.  [awake] says that the timer the current phase waits for is
    scheduled; the functions that move a match establish it and the clean-up
    after an update does not cancel it. *)

From S2P Require Import Prelude Text Float Verdict Sdk Host BracketModel.
From S2P Require Import BracketDecide BracketDecideProofs BracketPacing.
From S2P Require Import BracketJudge BracketInvariant.

Open Scope machine_scope.

Definition scheduled (h : Host) (key : ustring) : Prop := is_Some (h_timers h !! key).

Definition last_index (m : MatchState) : Z :=
  match last (m_xiaoju m) with Some x => x_index x | None => 0%Z end.

(** The timer the match waits for. *)
Definition wake_key (contest match_id : Z) (m : MatchState) : option ustring :=
  match m_state m with
  | InProgress | Tiebreak => Some (xiaoju_timer_key contest match_id (last_index m))
  | AwaitingJudge => Some (judgewait_timer_key contest match_id (last_index m))
  | Intermission => Some (start_timer_key contest match_id)
  | _ => None
  end.

Definition awake (contest match_id : Z) (m : MatchState) (h : Host) : Prop :=
  match wake_key contest match_id m with Some key => scheduled h key | None => True end.

Section wakeup.
Context `{Serde MatchState, Serde Setup, Serde AdmissionMetadata}.

(** ** Calls that leave the timers alone *)

Definition keeps_timers {A} (c : M A) : Prop :=
  ∀ h a h', c h = Some (Ok a, h') → h_timers h' = h_timers h.

Lemma keeps_bind {A B} (c : M A) (f : A → M B) :
  keeps_timers c → (∀ a, keeps_timers (f a)) → keeps_timers (c ≫= f).
Proof.
  intros Hc Hf h b h2 (a & h1 & Hr1 & Hr2)%bind_inv. rewrite (Hf a h1 b h2 Hr2). by apply (Hc h a).
Qed.

Lemma keeps_ret {A} (a : A) : keeps_timers (mret a : M A).
Proof. intros h b h' [-> ->]%ret_inv. done. Qed.

Lemma keeps_gets {A} (f : Host → A) : keeps_timers (gets f).
Proof. intros h b h' [= _ <-]. done. Qed.

Lemma keeps_lift {A} (r : sdk A) : keeps_timers (lift r).
Proof. intros h b h' [_ ->]%lift_inv. done. Qed.

Lemma keeps_throw {A} e : keeps_timers (throw (A := A) e).
Proof. by intros h b h' ?%throw_inv. Qed.

Lemma keeps_feedback q : keeps_timers (Submissions.feedback q).
Proof.
  intros h b h'. unfold Submissions.feedback.
  destruct (h_feedback_query_errors h) as [|[e|] l]; intros [= _ <-]; done.
Qed.

Lemma keeps_feedback_all q : keeps_timers (Submissions.feedback_all q).
Proof.
  intros h0. unfold Submissions.feedback_all. generalize (S (length (h_feedback h0))).
  intros fuel. revert h0. change (keeps_timers (Submissions.feedback_pages fuel q [])).
  generalize (@nil SubmissionFeedbackRecord). revert q. induction fuel as [|fuel IH]; intros q acc.
  { by intros ???. }
  cbn [Submissions.feedback_pages]. apply keeps_bind; [apply keeps_feedback|]. intros page.
  cbv zeta. destruct (_ =? _); [apply IH|apply keeps_ret].
Qed.

Lemma keeps_fetch contest m rd : keeps_timers (fetch_subs contest m rd).
Proof.
  unfold fetch_subs. destruct (decide _); [apply keeps_ret|].
  apply keeps_bind; [apply keeps_gets|]. intros rows.
  apply keeps_bind; [apply keeps_feedback_all|]. intros fb.
  apply keeps_bind; [apply keeps_lift|]. intros. apply keeps_ret.
Qed.

Lemma keeps_update_feedback i action : keeps_timers (Submissions.update_feedback i action).
Proof.
  intros h b h'. unfold Submissions.update_feedback.
  destruct (h_feedback_errors h); [|by intros [= _ <-]].
  destruct (list_find _ _) as [[k r]|]; [|done].
  destruct (apply_action action r) as [[o r']|]; [|done]. by intros [= _ <-].
Qed.

Lemma keeps_parse {A} `{Serde A} text : keeps_timers (parse_json (A := A) text).
Proof. unfold parse_json. destruct (from_json text); [apply keeps_ret|apply keeps_throw]. Qed.

Lemma keeps_publish_one contest match_id m row : keeps_timers (publish_one contest match_id m row).
Proof.
  unfold publish_one. apply keeps_bind; [apply keeps_parse|]. intros metadata.
  apply keeps_bind; [apply keeps_lift|]. intros eff. cbv zeta.
  destruct (submission_in_flight _).
  - destruct (decide _); [apply keeps_ret|].
    apply keeps_bind; [apply keeps_update_feedback|]. intros. apply keeps_ret.
  - destruct (release_for _ _ _) as [r|]; [|apply keeps_ret].
    apply keeps_bind; [|intros; apply keeps_ret]. unfold Submissions.release_feedback.
    destruct (release_validate r); [apply keeps_update_feedback|apply keeps_throw].
Qed.

(** ** Scheduling *)

Lemma schedule_run at_ms key payload h :
  Timer.schedule at_ms key payload h =
  Some (Ok tt, with_timers (<[key := (at_ms, payload)]> (h_timers h)) (h_cancelled h) h).
Proof. reflexivity. Qed.

Lemma schedule_scheduled at_ms key payload h a h' key' :
  Timer.schedule at_ms key payload h = Some (Ok a, h') →
  scheduled h key' ∨ key' = key → scheduled h' key'.
Proof.
  rewrite schedule_run. intros [= _ <-] Hk. unfold scheduled. cbn.
  destruct (decide (key = key')) as [->|Hne].
  - rewrite lookup_insert_eq. done.
  - rewrite lookup_insert_ne by done. by destruct Hk as [?| ->].
Qed.

Lemma wakeups_keep contest match_id m clk cut subs penalty game h a h' key l :
  mapM_ (wakeup_for contest match_id m clk cut subs penalty game) l h = Some (Ok a, h') →
  scheduled h key → scheduled h' key.
Proof.
  revert h. induction l as [|s l IH]; intros h Hrun Hk.
  { by injection Hrun as _ <-. }
  cbn in Hrun.
  apply bind_inv in Hrun as ([] & h1 & Hr1 & Hr2). apply (IH h1 Hr2).
  unfold wakeup_for in Hr1. destruct (_ && _); [|by injection Hr1 as <-]. cbv zeta in Hr1.
  destruct (_ && _); [|by injection Hr1 as <-]. eapply schedule_scheduled; [exact Hr1|by left].
Qed.

Lemma open_schedules contest match_id setup clk at_ms m h m' h' :
  open_xiaoju_at contest match_id setup clk at_ms m h = Some (Ok m', h') →
  m_state m' = m_state m ∧
  scheduled h' (xiaoju_timer_key contest match_id (last_index m')).
Proof.
  unfold open_xiaoju_at. intros Hrun. run_inv. split.
  - destruct (start_budget_inv _ _ _ _ Hrun1) as (_ & <- & _).
    cbn. unfold fix_durations. by destruct (m_game_durations a0).
  - unfold last_index. cbn [m_xiaoju set_xiaoju]. rewrite last_snoc.
    eapply schedule_scheduled; [exact Hrun3|by right].
Qed.

Lemma opened_awake contest match_id setup clk at_ms m h m' h' :
  m_state m = InProgress ∨ m_state m = Tiebreak →
  open_xiaoju_at contest match_id setup clk at_ms m h = Some (Ok m', h') →
  awake contest match_id m' h'.
Proof.
  intros Hst [Hs Hk]%open_schedules. unfold awake, wake_key. rewrite Hs.
  by destruct Hst as [-> | ->].
Qed.

Lemma awaiting_awake contest match_id setup clk index blocking m h m' h' :
  index = last_index m →
  (m_state m = AwaitingJudge → awake contest match_id m h) →
  step_awaiting contest match_id setup clk index blocking m h = Some (Ok m', h') →
  awake contest match_id m' h'.
Proof.
  intros -> Hpre Hrun. unfold step_awaiting in Hrun.
  destruct (bool_decide (m_state m ≠ AwaitingJudge)) eqn:E; run_inv.
  - unfold awake, wake_key. cbn. eapply schedule_scheduled; [exact Hrun2|by right].
  - apply bool_decide_eq_false, dec_stable in E. specialize (Hpre E).
    unfold awake, wake_key in *. rewrite E in Hpre. exact Hpre.
Qed.

Lemma decided_awake contest match_id setup rd clk index m h m' h' :
  settled rd m (if decide (m_state m = AwaitingJudge)
                then (if is_regular_game m index then InProgress else Tiebreak)
                else m_state m) →
  round_for_match setup (m_round m) (m_pos m) = Some rd → games_ok rd m →
  step_decided contest match_id setup rd clk index m h = Some (Ok m', h') →
  awake contest match_id m' h'.
Proof.
  intros Hset Hrd Hg Hrun. unfold step_decided in Hrun.
  set (m2 := if decide (m_state m = AwaitingJudge) then _ else m) in Hrun.
  assert (games_ok rd m2 ∧ settled rd m2 (m_state m2) ∧ m_round m2 = m_round m ∧
          m_pos m2 = m_pos m) as (Hg2 & Hset2 & Er & Ep).
  { unfold m2. destruct (decide (m_state m = AwaitingJudge)); [|done].
    split_and!; try done. destruct Hg; split; assumption. }
  clearbody m2. rewrite <- Er, <- Ep in Hrd.
  destruct (decide_match m2 setup) as [o m3] eqn:Hd.
  destruct (decide_match_next _ _ _ _ _ Hrd Hg2 Hset2 Hd) as (_ & _ & _ & _ & Ho).
  assert (next_due rd m3 (m_state m3) → m_state m3 = InProgress ∨ m_state m3 = Tiebreak) as Hlive.
  { intros (_ & _ & [[? _]|[? _]]); auto. }
  destruct o; cbv zeta in Hrun; cbn in Ho.
  1, 3: destruct (contest_ended clk); [unfold escalate_contest_ended in Hrun; by run_inv|];
    destruct (_ =? 0)%Z; [by apply opened_awake in Hrun; auto|];
    run_inv; unfold awake, wake_key; cbn; eapply schedule_scheduled; [exact Hrun1|by right].
  all: run_inv; destruct Ho as [Hst _]; unfold awake, wake_key; cbn; by rewrite Hst.
Qed.
Lemma schedule_wakeups_schedules contest match_id m clk subs penalty x h h' a :
  last (m_xiaoju m) = Some x →
  schedule_wakeups contest match_id m clk subs penalty h = Some (Ok a, h') →
  scheduled h' (xiaoju_timer_key contest match_id (x_index x)) ∧
  ∀ key, scheduled h key → scheduled h' key.
Proof.
  unfold schedule_wakeups. intros Hx Hrun. rewrite Hx in Hrun. cbn [unwrap] in Hrun.
  apply bind_inv in Hrun as (y & h1 & [-> ->]%ret_inv & Hrun). cbv zeta in Hrun.
  apply bind_inv in Hrun as ([] & h2 & Hs & Hw).
  split; [|intros key Hk]; eapply wakeups_keep; try exact Hw;
    (eapply schedule_scheduled; [exact Hs|auto]).
Qed.

Lemma game_awake contest match_id setup rd current m h m' h' :
  round_ok setup rd → round_for_match setup (m_round m) (m_pos m) = Some rd → games_ok rd m →
  playing rd m → last (m_xiaoju m) = Some current →
  m_state m = AwaitingJudge ∨
    m_state m = (if is_regular_game m (x_index current) then InProgress else Tiebreak) →
  awake contest match_id m h →
  step_game contest match_id setup rd current m h = Some (Ok m', h') →
  awake contest match_id m' h'.
Proof.
  intros Hr Hrd Hg Hp Hlast Hstate Hawake Hrun. unfold step_game in Hrun. run_inv.
  destruct a1 as [o m1].
  pose proof (decided_game_next _ _ _ _ _ _ _ _ _ _ Hr Hg Hp Hlast Hstate
    (λ s, fetch_subs_participants _ _ _ _ _ _ s Hrun1) Hrun2) as Hs.
  assert (last_index m = x_index current) as Hidx by (unfold last_index; by rewrite Hlast).
  pose proof (keeps_fetch _ _ _ _ _ _ Hrun1) as Ht.
  match type of Ht with h_timers ?h2 = _ => assert (awake contest match_id m h2) as Haw2 end.
  { unfold awake, scheduled in *. by rewrite Ht, (keeps_gets _ _ _ _ Hrun0). }
  destruct (decide (o = XNotYet ∧ _)) as [[-> _]|_].
  { subst m1. destruct (oldest_in_flight a0); [by eapply awaiting_awake|].
    unfold escalate_contest_ended in Hrun. by run_inv. }
  destruct o as [|w|b].
  - subst m1. apply bind_inv in Hrun as (y & h3 & Hsch & [-> ->]%ret_inv).
    destruct (schedule_wakeups_schedules _ _ _ _ _ _ _ _ _ _ Hlast Hsch) as [Hsched Hkeep].
    unfold awake, wake_key in *. rewrite Hidx in *.
    destruct Hstate as [E|E]; rewrite E in *; [by apply Hkeep|]. by destruct (is_regular_game _ _).
  - destruct Hs as (Hg1 & Er & Ep & Hset). rewrite <- Er, <- Ep in Hrd.
    by eapply decided_awake.
  - subst m1. by eapply awaiting_awake.
Qed.

Lemma step_awake contest match_id setup rd m h m' h' :
  round_ok setup rd → round_for_match setup (m_round m) (m_pos m) = Some rd → match_ok rd m →
  awake contest match_id m h → step contest match_id setup m h = Some (Ok m', h') →
  awake contest match_id m' h'.
Proof.
  intros Hr Hrd Hok Hawake Hrun.
  destruct (step_inv _ _ _ _ _ _ _ _ Hrd Hok Hrun)
    as [[Hst Hi]|[(Hplay & current & Hlast & Hphase & Hg)|[-> ->]]]; [| |done].
  - unfold step_intermission in Hi. run_inv. destruct (contest_ended _); [by run_inv|].
    run_inv. destruct (_ <? _)%Z.
    + apply bind_inv in Hi as (y & h3 & Hsch & [-> ->]%ret_inv).
      unfold awake, wake_key. rewrite Hst. eapply schedule_scheduled; [exact Hsch|by right].
    + eapply opened_awake; [|exact Hi]. cbn [m_state set_next_game_at_ms set_state].
      destruct (is_regular_game _ _); auto.
  - destruct Hok. by eapply game_awake.
Qed.

(** ** Cleaning up after an update *)

Lemma parts_xiaoju contest match_id index :
  key_parts (xiaoju_timer_key contest match_id index) =
  [u "xiaoju"; show contest; show match_id; show index].
Proof.
  pose proof (parts_three "xiaoju" contest match_id (show index) ltac:(by_decide)) as E.
  by rewrite parts_of_show in E.
Qed.

Lemma parts_judgewait contest match_id index :
  key_parts (judgewait_timer_key contest match_id index) =
  [u "judgewait"; show contest; show match_id; show index].
Proof.
  pose proof (parts_three "judgewait" contest match_id (show index) ltac:(by_decide)) as E.
  by rewrite parts_of_show in E.
Qed.

Lemma parts_start contest match_id :
  key_parts (start_timer_key contest match_id) = [u "start"; show contest; show match_id].
Proof. apply (parts_two "start"). by_decide. Qed.

Lemma parts_effective contest match_id index submission :
  length (key_parts (effective_timer_key contest match_id index submission)) = 6.
Proof.
  assert (key_parts (u "effective" ++ u ":" ++ show submission) =
          [u "effective"; show submission]) as Er
    by (rewrite parts_name_cons, parts_of_show by by_decide; done).
  pose proof (parts_show_cons index (u "effective" ++ u ":" ++ show submission)) as Ei.
  rewrite Er in Ei.
  pose proof (parts_three "xiaoju" contest match_id
    (show index ++ u ":" ++ u "effective" ++ u ":" ++ show submission) ltac:(by_decide)) as E.
  rewrite Ei in E. unfold effective_timer_key, xiaoju_timer_key. rewrite <- !app_assoc.
  change (u ":effective:" ++ show submission) with
    (u ":" ++ u "effective" ++ u ":" ++ show submission).
  change (u "xiaoju:" ++ ?s) with (u "xiaoju" ++ u ":" ++ s). by rewrite E.
Qed.

Lemma wake_key_short contest match_id m key :
  wake_key contest match_id m = Some key → length (key_parts key) ≤ 4.
Proof.
  unfold wake_key. destruct (m_state m); try done; intros [= <-];
    rewrite ?parts_xiaoju, ?parts_judgewait, ?parts_start; cbn; lia.
Qed.

Lemma cancel_keeps key key' h a h' :
  Timer.cancel key h = Some (Ok a, h') → key ≠ key' → scheduled h key' → scheduled h' key'.
Proof. intros [= _ <-] Hne Hk. unfold scheduled. cbn. by rewrite lookup_delete_ne. Qed.

Lemma mapM_cancel_keeps {A} (f : A → M unit) key l h a h' :
  (∀ x h a h', x ∈ l → f x h = Some (Ok a, h') → scheduled h key → scheduled h' key) →
  mapM_ f l h = Some (Ok a, h') → scheduled h key → scheduled h' key.
Proof.
  revert h. induction l as [|x l IH]; intros h Hf Hrun Hk.
  { by injection Hrun as _ <-. }
  apply bind_inv in Hrun as ([] & h1 & Hr1 & Hr2).
  apply (IH h1); [|done|].
  - intros y h2 b h3 Hy. apply (Hf y h2 b h3). by right.
  - eapply Hf; [by left|exact Hr1|done].
Qed.

(** The keys [publish] asks to cancel are those of effective submissions. *)
Lemma publish_keys contest match_id m h keys h' :
  publish contest match_id m h = Some (Ok keys, h') →
  h_timers h' = h_timers h ∧ Forall (λ key, length (key_parts key) = 6) keys.
Proof.
  unfold publish. intros Hrun. apply bind_inv in Hrun as (rows & h1 & Hq & Hrun).
  rewrite <- (keeps_feedback_all _ _ _ _ Hq). clear Hq h. revert keys h' Hrun.
  induction rows as [|row rows IH] using rev_ind; intros keys h' Hrun.
  { by apply ret_inv in Hrun as [-> ->]. }
  rewrite foldl_app in Hrun. cbn [foldl] in Hrun.
  apply bind_inv in Hrun as (keys1 & h2 & Hrun & Hone).
  destruct (IH _ _ Hrun) as [<- Hkeys].
  apply bind_inv in Hone as (more & h3 & Hone & [-> ->]%ret_inv).
  split; [by apply keeps_publish_one in Hone|]. apply Forall_app. split; [done|].
  clear -Hone. unfold publish_one in Hone. run_inv.
  match type of Hone with context [mret ?c] =>
    assert (Forall (λ key, length (key_parts key) = 6) c) as Hc end.
  { destruct (snd <$> _) as [g|]; [|constructor].
    destruct (decide (m_state m = Decided ∨ _)); [|constructor].
    repeat constructor. apply parts_effective. }
  destruct (submission_in_flight _).
  - destruct (decide _); run_inv; done.
  - destruct (release_for _ _ _); run_inv; done.
Qed.

(** The games whose timers are cancelled are over, or wait for the judge. *)
Lemma cancel_game_keeps contest match_id rd m key x h a h' :
  match_ok rd m → length (m_xiaoju m) ≤ 256 → x ∈ m_xiaoju m →
  wake_key contest match_id m = Some key →
  cancel_game_timers contest match_id m x h = Some (Ok a, h') →
  scheduled h key → scheduled h' key.
Proof.
  intros [Hg Hp] Hsmall [i Hi]%list_elem_of_lookup Hkey Hrun Hk.
  pose proof (g_index _ _ Hg i x Hi) as Hidx. pose proof (lookup_lt_Some _ _ _ Hi).
  assert (∀ y, last (m_xiaoju m) = Some y → x_decided y = false → x_decided x = true →
    show (x_index x) = show (last_index m) → False) as Hdiff.
  { intros y Hy Hopen Hdone E. unfold last_index in E. rewrite Hy in E.
    destruct (last_inv _ _ Hy) as [init Hx].
    assert (x_index y = Z.of_nat (length init)) as Hyi
      by (apply (g_index _ _ Hg); by rewrite Hx, lookup_app_r, Nat.sub_diag by done).
    rewrite Hx, length_app in Hsmall. cbn in Hsmall. rewrite Hx, length_app in H2. cbn in H2.
    apply (show_inj 0 255) in E; [|lia..]. assert (i = length init) as -> by lia.
    rewrite Hx, lookup_app_r, Nat.sub_diag in Hi by done. injection Hi as <-. congruence. }
  assert (m_state m ≠ Intermission → open_game m) as Hopen.
  { intros Hni. unfold phase_ok in Hp. unfold wake_key in Hkey.
    destruct (m_state m); try done; first [apply Hp|by destruct Hp as [Hp|Hp]; apply Hp]. }
  unfold cancel_game_timers in Hrun.
  destruct (decide (x_decided x = true ∨ _)) as [Hd|Hnd].
  - assert (x_decided x = true) as Hdone.
    { destruct Hd as [?|Hd]; [done|]. unfold wake_key in Hkey. by destruct Hd as [Hd|Hd]; rewrite Hd in Hkey. }
    apply bind_inv in Hrun as ([] & h1 & Hr1 & Hr2).
    assert (xiaoju_timer_key contest match_id (x_index x) ≠ key ∧
            judgewait_timer_key contest match_id (x_index x) ≠ key) as [Hn1 Hn2].
    { unfold wake_key in Hkey.
      destruct (m_state m); try done; injection Hkey as <-;
        (destruct Hopen as (y & Hy & Hyo); [done|] || idtac); split; intros E;
        apply (f_equal key_parts) in E;
        rewrite ?parts_xiaoju, ?parts_judgewait, ?parts_start in E; try done;
        injection E as E; eauto. }
    eapply cancel_keeps; [exact Hr2|done|]. by eapply cancel_keeps.
  - destruct (decide (m_state m = AwaitingJudge)) as [Ha|]; [|by injection Hrun as _ <-].
    eapply cancel_keeps; [exact Hrun| |done]. unfold wake_key in Hkey. rewrite Ha in Hkey.
    injection Hkey as <-. intros E. apply (f_equal key_parts) in E.
    by rewrite parts_xiaoju, parts_judgewait in E.
Qed.

Lemma finish_awake open_stage contest match_id setup rd m h a h' :
  round_ok setup rd → match_ok rd m →
  finish_transition open_stage contest match_id setup m h = Some (Ok a, h') →
  awake contest match_id m h → awake contest match_id m h'.
Proof.
  intros Hr Hok Hrun. unfold awake.
  destruct (wake_key contest match_id m) as [key|] eqn:Hkey; [|done].
  assert (m_state m ≠ Decided ∧ m_state m ≠ NeedsAdjudication) as [Hnd Hna].
  { unfold wake_key in Hkey. destruct (m_state m); done. }
  unfold finish_transition in Hrun.
  rewrite (decide_False (P := m_state m = Decided ∨ m_state m = NeedsAdjudication)) in Hrun
    by (by intros [?|?]).
  apply bind_inv in Hrun as (? & h1 & [-> ->]%ret_inv & Hrun).
  apply bind_inv in Hrun as (keys & h2 & Hpub & Hrun).
  destruct (publish_keys _ _ _ _ _ _ Hpub) as [Ht Hkeys].
  apply bind_inv in Hrun as (? & h3 & Hw & Hrun).
  assert (h3 = h2) as ->.
  { destruct (m_winner m); [rewrite decide_False in Hw by done|]; by apply ret_inv in Hw as [_ ?]. }
  apply bind_inv in Hrun as (? & h4 & Heff & Hrun).
  apply bind_inv in Hrun as (? & h5 & Hz & Hrun).
  rewrite decide_False in Hz by (by intros [? _]). apply ret_inv in Hz as [-> ->].
  intros Hk. assert (scheduled h2 key) as Hk2 by (unfold scheduled in *; by rewrite Ht).
  destruct Hok as [Hg Hp]. pose proof (r_small _ _ Hr). pose proof (g_bound _ _ Hg).
  eapply mapM_cancel_keeps; [|exact Hrun|].
  - intros g h6 b h7 Hx Hc. eapply (cancel_game_keeps _ _ rd); [done|lia|done..].
  - eapply mapM_cancel_keeps; [|exact Heff|done].
    intros k h6 b h7 Hx Hc. eapply cancel_keeps; [exact Hc|].
    rewrite Forall_forall in Hkeys. specialize (Hkeys k Hx).
    pose proof (wake_key_short _ _ _ _ Hkey). intros ->. lia.
Qed.

(** C31. A match under way never goes to sleep.  If the timer its phase waits for
    is scheduled (the deadline of the open game, the escalation of the wait for
    the judge, or the start of the next game), then after a step of [advance]
    - with whatever submissions and clock - the timer its new phase waits for
    is scheduled, and the clean-up that publishes feedback and cancels the
    timers of finished games does not cancel it.  A game opened by
    any of the ways to start a match comes with its deadline scheduled. *)
Theorem advance_never_loses_wakeup open_stage contest match_id setup rd m :
  round_ok setup rd → round_for_match setup (m_round m) (m_pos m) = Some rd → match_ok rd m →
  (∀ h m' h1 h2 h3,
     awake contest match_id m h →
     step contest match_id setup m h = Some (Ok m', h1) → h_timers h2 = h_timers h1 →
     finish_transition open_stage contest match_id setup m' h2 = Some (Ok tt, h3) →
     awake contest match_id m' h1 ∧ awake contest match_id m' h3) ∧
  (∀ clk at_ms h m' h1,
     m_state m = InProgress →
     open_xiaoju_at contest match_id setup clk at_ms m h = Some (Ok m', h1) →
     awake contest match_id m' h1).
Proof.
  intros Hr Hrd Hok. split.
  - intros h m' h1 h2 h3 Haw Hstep Ht Hfin.
    pose proof (step_awake _ _ _ _ _ _ _ _ Hr Hrd Hok Haw Hstep) as Haw1. split; [done|].
    eapply finish_awake; [done| |exact Hfin|].
    + by eapply step_ok.
    + unfold awake, scheduled in *. by rewrite Ht.
  - intros clk at_ms h m' h1 Hst. apply opened_awake. by left.
Qed.
End wakeup.
