(* ===== verification/BracketExamples.v ===== *)
(** * BracketExamples: the bracket theorems at work

    A final between two players, its documents encoded through [Countable], and
    one instance of each theorem whose statement has hypotheses. *)

From S2P Require Import Prelude Text Float Verdict Sdk Host BracketModel.
From S2P Require Import BracketDecide BracketDecideProofs BracketPacing.
From S2P Require Import BracketJudge BracketInvariant BracketSetup VisibilityApi BracketGate.
From S2P Require Import BracketGateProofs BracketWakeup.

(** ** An encoding of documents *)

Definition countable_serde {A} `{Countable A} : Serde A.
Proof.
  refine {| to_json a := [Zpos (countable.encode a)];
            from_json t := match t with
                           | [Zpos p] => ok_or (countable.decode p) (u "invalid document")
                           | _ => Err (u "invalid document")
                           end |}.
  intros a. by rewrite decode_encode.
Defined.

#[export] Instance AdmissionMetadata_eq_dec : EqDecision AdmissionMetadata.
Proof. solve_decision. Defined.

#[export] Instance AdmissionMetadata_countable : Countable AdmissionMetadata.
Proof.
  refine (inj_countable'
    (λ m, (am_scope_key m, am_delay_seconds m, am_effective_at_us m))
    (λ p, let '(a, b, c) := p in
      {| am_scope_key := a; am_delay_seconds := b; am_effective_at_us := c |}) _).
  by intros [].
Defined.

#[export] Instance ex_metadata_serde : Serde AdmissionMetadata := countable_serde.

(** ** A final *)

Definition ex_round : RoundDef := {|
  rd_group_a := [101; 102; 103]%Z; rd_group_b := [201; 202; 203]%Z; rd_tiebreak := [301]%Z;
  rd_wins_to_advance := None; rd_start_at_ms := None; rd_post_order_wait_seconds := None;
  rd_game_break_seconds := None; rd_match_extra_time_seconds := Some 60%Z;
  rd_xiaoju_seconds := 600; rd_tiebreak_seconds := 300; rd_break_before_seconds := 0 |}.

Definition ex_setup : Setup := {|
  rounds := [ex_round]; seeds := [1; 2]%Z; third_place := None; opened_rounds := 1;
  stage_clocks := ∅; setup_extra_time_seconds := 0; penalty_seconds := 20;
  escalation_grace_seconds := 120 |}.

Definition ex_host (now : Z) : Host := {|
  h_data := ∅; h_revisions := ∅; h_timers := ∅; h_cancelled := []; h_now := now;
  h_contests := {[ 9%Z := {| ct_start_ms := 0; ct_end_ms := None |} ]};
  h_submissions := []; h_feedback := []; h_feedback_actions := []; h_feedback_errors := [];
  h_feedback_query_errors := []; h_updates := []; h_update_results := []; h_log := [];
  h_results := []; h_insert_errors := []; h_detached := []; h_start_errors := [] |}.

Definition run {A} (dflt : A) (c : M A) (h : Host) : A :=
  match c h with Some (Ok a, _) => a | _ => dflt end.

Definition ex_new : MatchState := new_match 1 0 1 2 ex_round.
Definition ex_ranked_a : MatchState :=
  run ex_new (order_update None 2 [103; 101; 102]%Z ex_new) (ex_host 0).
Definition ex_ranked : MatchState :=
  run ex_new (order_update None 1 [201; 203; 202]%Z ex_ranked_a) (ex_host 0).
Definition ex_clock (now : Z) : Clock := {| clk_now := now; clk_contest_end := None |}.
Definition ex_started : MatchState :=
  run ex_new (autostart 9 0 ex_setup [] 0 (ex_clock 1000) ex_ranked) (ex_host 1000).
Definition ex_forced : MatchState := run ex_new (force_decide_update 9 0 2 ex_started) (ex_host 5000).

Definition ex_record (i user at_s eff_s : Z) (v : Verdict) : SubmissionRecord := {|
  sr_submission_id := i; sr_user_id := user; sr_problem_id := 103;
  sr_submitted_at_us := at_s * 1000000; sr_effective_at_us := eff_s * 1000000;
  sr_verdict := Some v; sr_status := Judged |}.

(** Player 2 missed once; player 1 is accepted at 100 s, settled from 80 s on. *)
Definition ex_records : list SubmissionRecord :=
  [ex_record 1 2 50 50 WrongAnswer; ex_record 2 1 100 100 Accepted].

Definition ex_game : XiaojuState := default (close_game None 0 (Build_XiaojuState 0 0 None 0 0 None false))
                                      (last (m_xiaoju ex_started)).

Definition ex_decision : XiaojuOutcome * MatchState :=
  default (XNotYet, ex_new)
    (decide_game_at_cutoff ex_started ex_records 200000 661000 20).

Lemma game_decision_sound_witness :
  outcome_sound ex_started ex_game ex_records 200000 661000 20 ex_decision.1 ex_decision.2.
Proof.
  apply (game_decision_sound ex_started ex_records 200000 661000 20 ex_game).
  - by_vm.
  - by_vm.
  - by_vm.
Defined.

Lemma game_decision_idempotent_witness :
  decide_game_at_cutoff ex_decision.2 [] 0 0 0 = Some (XDecided (Some 1%Z), ex_decision.2).
Proof.
  apply (game_decision_idempotent ex_started ex_records 200000 661000 20 (Some 1%Z)).
  by_vm.
Defined.

Lemma game_decision_progress_witness :
  ∃ o m', decide_game_at_cutoff ex_started ex_records 700000 661000 20 = Some (o, m') ∧
    ((661000 ≤ 700000)%Z → (x_deadline_ms ex_game ≤ 700000)%Z → o ≠ XNotYet).
Proof.
  apply (game_decision_progress ex_started ex_records 700000 661000 20 ex_game).
  - by_vm.
  - by_decide.
Defined.

Definition ex_late : SubmissionRecord := ex_record 3 2 250 270 Accepted.

Lemma settled_winner_final_witness : Some 1%Z = Some 1%Z.
Proof.
  apply (settled_winner_final ex_started ex_records 200000 661000 20 ex_game 1%Z ex_decision.2)
    with (subs' := ex_records) (news := [ex_late]) (now' := 300000%Z) (penalty' := 20%Z)
         (m'' := ex_decision.2).
  - by_vm.
  - by_vm.
  - unfold record_ok. by_decide.
  - by_decide.
  - by_vm.
  - repeat constructor; by_vm.
  - constructor; [|constructor]. unfold admitted_later. split_and!.
    + by_decide.
    + by_decide.
    + by_decide.
    + intros s Hs. assert (Forall (λ s, sr_submission_id s < sr_submission_id ex_late)%Z ex_records)
        as Hall by by_decide. rewrite Forall_forall in Hall. by apply Hall.
    + exists 20%Z. by_decide.
  - by_vm.
Defined.

Lemma match_decision_sound_witness :
  match_outcome_sound ex_decision.2 ex_round MNotYet ex_decision.2.
Proof.
  apply (match_decision_sound ex_decision.2 ex_setup).
  - by_decide.
  - by_vm.
  - by_vm.
Defined.

Definition ex_over : MatchState := set_xiaoju [close_game (Some 2%Z) 0 ex_game] (set_score_b 2 ex_decision.2).

Lemma match_end_absorbing_witness :
  decide_match (decide_match ex_over ex_setup).2 setup_default =
  (MDecided 2, (decide_match ex_over ex_setup).2).
Proof.
  apply (match_end_absorbing ex_over ex_setup).
  - by_decide.
  - by_vm.
  - left. by eexists.
Defined.

Lemma ex_round_ok : round_ok ex_setup ex_round.
Proof. split; by_decide. Qed.

Lemma ex_started_reachable : reachable ex_round 1 0 ex_started.
Proof.
  apply (reach_step ex_round 1 0 ex_setup ex_ranked); [|by_vm|apply ex_round_ok|].
  2: { eapply (do_autostart ex_setup ex_ranked ex_started 9 0 [] 0 (ex_clock 1000) (ex_host 1000)).
       by_vm. }
  apply (reach_step ex_round 1 0 ex_setup ex_ranked_a); [|by_vm|apply ex_round_ok|].
  2: { eapply (do_order ex_setup ex_ranked_a ex_ranked None 1 [201; 203; 202]%Z (ex_host 0)).
       by_vm. }
  apply (reach_step ex_round 1 0 ex_setup ex_new); [|by_vm|apply ex_round_ok|].
  2: { eapply (do_order ex_setup ex_new ex_ranked_a None 2 [103; 101; 102]%Z (ex_host 0)).
       by_vm. }
  by apply reach_new.
Qed.

Lemma reachable_match_ok_witness :
  match_ok ex_round ex_started ∧ m_round ex_started = 1%Z ∧ m_pos ex_started = 0%Z.
Proof. apply (reachable_match_ok ex_round 1 0). apply ex_started_reachable. Defined.

Lemma finished_match_frozen_witness :
  (m_state ex_forced = Decided → ex_forced = ex_forced) ∧
  (m_state ex_forced = NeedsAdjudication →
   ex_forced = ex_forced ∨ m_state ex_forced = Decided ∧
   ∃ w, m_winner ex_forced = Some w ∧ participant ex_forced w).
Proof.
  apply (finished_match_frozen ex_setup).
  eapply (do_step ex_setup ex_forced ex_forced 9 0 (ex_host 9000)). by_vm.
Defined.

(** ** Host calls *)

Definition ex_key : ustring := u "document".
Definition ex_stored : Host :=
  with_storage {[ ex_key := u "text" ]} {[ ex_key := 1%Z ]} (ex_host 0).

Lemma conditional_write_atomic_witness :
  (true = true → 0 = 0 ∧ h_data ex_stored !! ex_key = Some (u "text") ∧
     h_data (with_storage (<[ex_key := u "new"]> (h_data ex_stored))
               (Storage.bump ex_key ex_stored) ex_stored)
       = <[ex_key := u "new"]> (h_data ex_stored) ∧
     revision_of ex_key (with_storage (<[ex_key := u "new"]> (h_data ex_stored))
               (Storage.bump ex_key ex_stored) ex_stored) = (1 + 1)%Z) ∧
  (true = false → with_storage (<[ex_key := u "new"]> (h_data ex_stored))
               (Storage.bump ex_key ex_stored) ex_stored = ex_stored).
Proof.
  apply (conditional_write_atomic ex_key {| sn_value := u "text"; sn_revision := 1 |} (u "new") 0
    ex_stored ex_stored).
  - by_vm.
  - apply no_interference.
  - by_vm.
Defined.

Definition ex_feedback (i : Z) : SubmissionFeedbackRecord := {|
  fb_submission_id := i; fb_contest_id := 9; fb_user_id := 1; fb_problem_id := 103;
  fb_submitted_at_us := 0; fb_status := Judged; fb_verdict := Some Accepted; fb_key := ex_key;
  fb_metadata := []; fb_withheld := true; fb_slot_held := true; fb_slot_key := None;
  fb_result := None |}.

Lemma feedback_release_final_witness :
  let r := with_feedback_state false false None (ex_feedback 1) in
  fb_withheld r = false ∧ same_result (fb_result r) (released_result Original) = true ∧
  apply_action (Release Original) r = Ok (AlreadyApplied, r) ∧
  ∀ action out2 r2, apply_action action r = Ok (out2, r2) →
    fb_withheld r2 = false ∧ fb_result r2 = fb_result r.
Proof.
  apply (feedback_release_final Original (ex_feedback 1) Applied). by_vm.
Defined.

Lemma feedback_all_complete_witness :
  let h := with_feedback (ex_feedback <$> [1; 2; 5]%Z) [] (ex_host 0) in
  Submissions.feedback_all query_default h =
  Some (Ok (filter (matches_query query_default) (h_feedback h)), h).
Proof.
  apply (feedback_all_complete query_default (with_feedback (ex_feedback <$> [1; 2; 5]%Z) [] (ex_host 0))).
  - by_vm.
  - repeat constructor.
Defined.

(** ** Timers *)

Lemma timer_keys_roundtrip_witness :
  target_of (start_timer_key 9 0) = Some (StartTimer 9 0).
Proof. apply (timer_keys_roundtrip 9 0). by_decide. Defined.

Definition ex_started_host : Host :=
  match autostart 9 0 ex_setup [] 0 (ex_clock 1000) ex_ranked (ex_host 1000) with
  | Some (_, h) => h
  | None => ex_host 0
  end.

Definition ex_later (now : Z) (h : Host) : Host := {|
  h_data := h_data h; h_revisions := h_revisions h; h_timers := h_timers h;
  h_cancelled := h_cancelled h; h_now := now; h_contests := h_contests h;
  h_submissions := h_submissions h; h_feedback := h_feedback h;
  h_feedback_actions := h_feedback_actions h; h_feedback_errors := h_feedback_errors h;
  h_feedback_query_errors := h_feedback_query_errors h; h_updates := h_updates h;
  h_update_results := h_update_results h; h_log := h_log h; h_results := h_results h;
  h_insert_errors := h_insert_errors h; h_detached := h_detached h;
  h_start_errors := h_start_errors h |}.

(** An hour later nobody has submitted: the game goes without a winner. *)
Definition ex_hour_later : Host := ex_later 3600000 ex_started_host.
Definition ex_stepped : option (result SdkError MatchState * Host) :=
  step 9 0 ex_setup ex_started ex_hour_later.
Definition ex_second : MatchState :=
  match ex_stepped with Some (Ok m, _) => m | _ => ex_new end.
Definition ex_second_host : Host :=
  match ex_stepped with Some (_, h) => h | None => ex_host 0 end.
Definition ex_no_stage (contest round : Z) : M unit := mret tt.
Definition ex_finished_host : Host :=
  match finish_transition ex_no_stage 9 0 ex_setup ex_second ex_second_host with
  | Some (_, h) => h
  | None => ex_host 0
  end.

Lemma advance_never_loses_wakeup_witness :
  length (m_xiaoju ex_second) = 2 ∧
  awake 9 0 ex_second ex_second_host ∧ awake 9 0 ex_second ex_finished_host.
Proof.
  split; [by_vm|].
  apply (proj1 (advance_never_loses_wakeup ex_no_stage 9 0 ex_setup ex_round ex_started
           ex_round_ok ltac:(by_vm) (proj1 (reachable_ok _ _ _ _ ex_started_reachable)))
         ex_hour_later ex_second ex_second_host ex_second_host ex_finished_host).
  - by_decide.
  - by_vm.
  - reflexivity.
  - by_vm.
Defined.

Lemma record_order_spec_witness :
  record_order ex_new 2 [103; 101; 102]%Z = Ok ex_ranked_a ↔
  m_state ex_new = Ordering ∧
  ((2%Z = m_player_b ex_new ∧ [103; 101; 102]%Z ≡ₚ m_group_a ex_new ∧
    ex_ranked_a = set_order_a (Some [103; 101; 102]%Z) ex_new) ∨
   (2%Z = m_player_a ex_new ∧ [103; 101; 102]%Z ≡ₚ m_group_b ex_new ∧
    ex_ranked_a = set_order_b (Some [103; 101; 102]%Z) ex_new)).
Proof. apply (record_order_spec ex_new 2 [103; 101; 102]%Z ex_ranked_a). by_decide. Defined.

(** ** Stages and setups *)

Definition ex_final : RoundDef := {|
  rd_group_a := [401; 402]%Z; rd_group_b := [501; 502]%Z; rd_tiebreak := [601]%Z;
  rd_wins_to_advance := Some 2; rd_start_at_ms := None; rd_post_order_wait_seconds := None;
  rd_game_break_seconds := Some 5%Z; rd_match_extra_time_seconds := None;
  rd_xiaoju_seconds := 600; rd_tiebreak_seconds := 300; rd_break_before_seconds := 30 |}.

Definition ex_cup : Setup := {|
  rounds := [ex_round; ex_final]; seeds := [1; 2; 3; 4]%Z; third_place := Some Shared;
  opened_rounds := 1; stage_clocks := ∅; setup_extra_time_seconds := 0; penalty_seconds := 20;
  escalation_grace_seconds := 120 |}.

Definition ex_semi (pos winner loser decided_at : Z) : Z * MatchState :=
  (pos, set_decided_at_ms decided_at (set_winner (Some winner)
     (set_state Decided (new_match 1 pos winner loser ex_round)))).
Definition ex_semis : list (Z * MatchState) := [ex_semi 0 1 4 50000; ex_semi 1 3 2 70000]%Z.

Lemma stage_waits_for_previous_witness :
  Z.of_nat (length (matches_of_round ex_semis (2 - 1))) = match_count ex_cup (2 - 1) ∧
  ∀ m, m ∈ matches_of_round ex_semis (2 - 1) →
    m_state m = Decided ∧ (m_decided_at_ms m + rd_break_before_seconds ex_final * 1000 ≤ 100000)%Z.
Proof.
  apply (stage_waits_for_previous ex_cup ex_semis 2 0 100000 ex_final).
  - by_decide.
  - by_vm.
  - by_vm.
  - by_vm.
Defined.

Lemma match_ids_bijective_witness : match_ids 2 true = [0; 1; 2; 3]%Z.
Proof. apply (match_ids_bijective 2 true). by_decide. Defined.

Lemma valid_setup_rounds_ok_witness :
  round_ok ex_cup ex_final ∧ length (rd_group_a ex_final) = length (rd_group_b ex_final).
Proof.
  apply (valid_setup_rounds_ok ex_cup 2 1).
  - by_vm.
  - by_vm.
Defined.

Lemma valid_setup_problems_distinct_witness : NoDup ([ex_round; ex_final] ≫= round_problems).
Proof. apply (valid_setup_problems_distinct ex_cup). by_vm. Defined.

(** The final may still be given other problems once the first stage is open. *)
Definition ex_edited : Setup :=
  {| rounds := [ex_round; with_problems ex_final {| tp_group_a := [411; 412]%Z;
                                                    tp_group_b := [511; 512]%Z;
                                                    tp_tiebreak := [611]%Z |}];
     seeds := seeds ex_cup; third_place := third_place ex_cup; opened_rounds := 1;
     stage_clocks := ∅; setup_extra_time_seconds := 0; penalty_seconds := 20;
     escalation_grace_seconds := 120 |}.

Lemma edit_keeps_opened_rounds_witness :
  round_for_match ex_edited 1 1 = round_for_match ex_cup 1 1.
Proof.
  apply (edit_keeps_opened_rounds ex_cup ex_edited true 1 1).
  - by_vm.
  - by_decide.
Defined.

(** ** Who sees what *)

Lemma ex_round_distinct : round_distinct ex_round.
Proof. split; by_decide. Qed.

Lemma visible_problem_exact_witness :
  decide_problem (ctx_from_match ex_started ex_round) 103 1 false = Allow ↔
  may_see ex_started ex_round 103 1.
Proof.
  apply (visible_problem_exact ex_round 1 0 ex_started 103 1).
  - apply ex_started_reachable.
  - apply ex_round_distinct.
  - by left.
Defined.

Lemma admitted_problem_visible_witness :
  decide_problem (ctx_from_match ex_started ex_round) 103 1 false = Allow ∧
  current_problem ex_started ex_round 1 = Some 103%Z ∧ open_game ex_started.
Proof.
  apply (admitted_problem_visible ex_round 1 0 ex_started 103 1).
  - apply ex_started_reachable.
  - apply ex_round_distinct.
  - by left.
  - by_vm.
Defined.
