(* ===== verification/JudgingContests.v ===== *)
(** * JudgingContests: the all-or-nothing contest types

    The policies of the qualifier (plugins/codelink-qualifier/src/judge.rs), of
    the bracket (plugins/codelink-bracket/src/judge.rs) and of ICPC contests
    (plugins/icpc/src/evaluate.rs, persist.rs): a case scores one or nothing,
    the first case that is not accepted ends the session, and the final result
    goes to the submission under the judgement it was started for. *)

From S2P Require Import Prelude Text Float Verdict Sdk Host BracketModel BracketJudge Judging.

Open Scope machine_scope.

Definition binary_score (v : Verdict) : f64 := if is_accepted v then f_one else f_zero.

Definition binary_outcome (r : TestCaseVerdict) : CaseOutcome :=
  from_verdict r (binary_score (tv_verdict r)).

Definition stop_at_failure (p : JudgeProgress) : JudgeStep :=
  match jp_last p with
  | Some outcome => if negb (is_accepted (co_verdict outcome)) then short_circuit else Continue
  | None => Continue
  end.

Definition non_skipped (l : list CaseOutcome) : list CaseOutcome :=
  filter (λ o, is_skipped_or_cancelled (co_verdict o) = false) l.

(** The most severe verdict; a system error when there is none. *)
Definition worst_verdict (l : list CaseOutcome) : Verdict :=
  default SystemError (max_by_key severity (co_verdict <$> l)).

Definition max_time (l : list CaseOutcome) : option Z := max_by_key id (omap co_time_used l).
Definition max_memory (l : list CaseOutcome) : option Z := max_by_key id (omap co_memory_used l).

Definition compile_message (l : list CaseOutcome) : option ustring :=
  o ← list_find (λ o, co_verdict o = CompileError) l; co_message o.2.

Definition update_or_stale (up : SubmissionUpdate) : M unit :=
  affected ← Submissions.update up;
  if (affected =? 0)%Z then throw StaleEpoch else mret tt.

(** ** The qualifier *)

Inductive CodelinkJudge := TheCodelinkJudge.

Definition all_accepted (p : JudgeProgress) : bool :=
  progress_all_recorded p && negb (bool_decide (jp_outcomes p = []))
  && forallb (λ o, is_accepted (co_verdict o)) (jp_outcomes p).

Definition codelink_verdict (p : JudgeProgress) : Verdict :=
  let verdict := worst_verdict (non_skipped (jp_outcomes p)) in
  if is_accepted verdict && negb (all_accepted p) then SystemError else verdict.

Definition codelink_update (p : JudgeProgress) : SubmissionUpdate :=
  let req := jp_submission p in
  let outcomes := non_skipped (jp_outcomes p) in
  let verdict := codelink_verdict p in
  let is_ce := bool_decide (verdict = CompileError) in
  {| su_submission_id := js_submission_id req;
     su_judgement_id := js_judgement_id req;
     su_judge_epoch := js_judge_epoch req;
     su_status := Some (if is_ce then CompilationError else Judged);
     su_verdict := Some (if is_ce then None else Some verdict);
     su_score := Some (if all_accepted p then f_one else f_zero);
     su_time_used := Some (max_time outcomes);
     su_memory_used := Some (max_memory outcomes);
     su_compile_output := Some (if is_ce then compile_message outcomes else None);
     su_error_code := Some None;
     su_error_message := Some None |}.

#[export] Instance CodelinkJudge_judge : ContestJudge CodelinkJudge := {
  judge_score _ := binary_outcome;
  db_score _ outcome _ := co_score outcome;
  next_step j p := (j, stop_at_failure p);
  judge_finalize _ p := update_or_stale (codelink_update p);
}.

Definition no_cases_update (code message : ustring) (req : OnSubmissionInput) : SubmissionUpdate := {|
  su_submission_id := os_submission_id req;
  su_judgement_id := os_judgement_id req;
  su_judge_epoch := os_judge_epoch req;
  su_status := Some Judged;
  su_verdict := Some (Some SystemError);
  su_score := Some f_zero;
  su_time_used := None;
  su_memory_used := None;
  su_compile_output := None;
  su_error_code := Some (Some code);
  su_error_message := Some (Some message) |}.

Definition no_cases_update_cleared (code message : ustring) (req : OnSubmissionInput)
    : SubmissionUpdate :=
  let up := no_cases_update code message req in
  {| su_submission_id := su_submission_id up; su_judgement_id := su_judgement_id up;
     su_judge_epoch := su_judge_epoch up; su_status := su_status up; su_verdict := su_verdict up;
     su_score := su_score up; su_time_used := Some None; su_memory_used := Some None;
     su_compile_output := None; su_error_code := su_error_code up;
     su_error_message := su_error_message up |}.

(** What a submission handler answers: a stale epoch counts as handled. *)
Record OnSubmissionOutput := { oo_success : bool; oo_error_message : option ustring }.

Definition judged_output : OnSubmissionOutput := {| oo_success := true; oo_error_message := None |}.

Definition answer (text : SdkError → ustring) (c : M OnSubmissionOutput) : M OnSubmissionOutput :=
  λ h,
    match c h with
    | Some (Err StaleEpoch, h) => Some (Ok judged_output, h)
    | Some (Err e, h) =>
        Some (Ok {| oo_success := false; oo_error_message := Some (text e) |}, h)
    | other => other
    end.

(** ** ICPC *)

Inductive IcpcJudge := TheIcpcJudge.

Record EvalOutcome := {
  eo_test_case_id : Z;
  eo_verdict : Verdict;
  eo_time_used : option Z;
  eo_memory_used : option Z;
  eo_message : option ustring;
  eo_stdout : option ustring;
  eo_stderr : option ustring;
}.

Record EvalResult := {
  er_outcomes : list EvalOutcome;
  er_is_compile_error : bool;
  er_is_accepted : bool;
}.

Definition eval_outcome_from_case (o : CaseOutcome) : EvalOutcome := {|
  eo_test_case_id := co_test_case_id o;
  eo_verdict := co_verdict o;
  eo_time_used := co_time_used o;
  eo_memory_used := co_memory_used o;
  eo_message := co_message o;
  eo_stdout := None;
  eo_stderr := None |}.

Definition icpc_result (outcomes : list CaseOutcome) : EvalResult :=
  let is_ce := existsb (λ o, bool_decide (co_verdict o = CompileError)) outcomes in
  {| er_outcomes := eval_outcome_from_case <$> outcomes;
     er_is_compile_error := is_ce;
     er_is_accepted := negb is_ce && forallb (λ o, is_accepted (co_verdict o)) outcomes |}.

Definition icpc_non_skipped (eval : EvalResult) : list EvalOutcome :=
  filter (λ o, is_skipped_or_cancelled (eo_verdict o) = false) (er_outcomes eval).

Definition icpc_verdict (eval : EvalResult) : Verdict :=
  if decide (icpc_non_skipped eval = []) then SystemError
  else default SystemError (max_by_key severity (eo_verdict <$> icpc_non_skipped eval)).

Definition icpc_update (submission_id judgement_id judge_epoch : Z) (eval : EvalResult)
    : SubmissionUpdate :=
  let non_skipped := icpc_non_skipped eval in
  let verdict := icpc_verdict eval in
  let is_ce := bool_decide (verdict = CompileError) in
  {| su_submission_id := submission_id;
     su_judgement_id := judgement_id;
     su_judge_epoch := judge_epoch;
     su_status := Some (if is_ce then CompilationError else Judged);
     su_verdict := Some (if is_ce then None else Some verdict);
     su_score := Some (if er_is_accepted eval && negb (bool_decide (non_skipped = []))
                       then f_one else f_zero);
     su_time_used := Some (max_by_key id (omap eo_time_used non_skipped));
     su_memory_used := Some (max_by_key id (omap eo_memory_used non_skipped));
     su_compile_output :=
       Some (if is_ce
             then o ← list_find (λ o, eo_verdict o = CompileError) (er_outcomes eval);
                  eo_message o.2
             else None);
     su_error_code := None;
     su_error_message := None |}.

Definition persist_and_track (submission_id judgement_id judge_epoch : Z) (eval : EvalResult)
    : M unit :=
  _ ← update_or_stale (icpc_update submission_id judgement_id judge_epoch eval);
  log_info (u "ICPC: Submission " ++ show submission_id ++ u " judged: "
              ++ debug_verdict (icpc_verdict eval) ++ u ", accepted="
              ++ (if er_is_accepted eval then u "true" else u "false")).

#[export] Instance IcpcJudge_judge : ContestJudge IcpcJudge := {
  judge_score _ := binary_outcome;
  db_score _ outcome _ := co_score outcome;
  next_step j p := (j, stop_at_failure p);
  judge_finalize _ p :=
    let req := jp_submission p in
    persist_and_track (js_submission_id req) (js_judgement_id req) (js_judge_epoch req)
      (icpc_result (jp_outcomes p));
}.

(** ** The bracket *)

Inductive CodelinkBracketJudge := TheCodelinkBracketJudge.

Definition bracket_update (p : JudgeProgress) : SubmissionUpdate :=
  let req := jp_submission p in
  let outcomes := non_skipped (jp_outcomes p) in
  let verdict := if decide (outcomes = []) then SystemError else worst_verdict outcomes in
  let is_ce := bool_decide (verdict = CompileError) in
  {| su_submission_id := js_submission_id req;
     su_judgement_id := js_judgement_id req;
     su_judge_epoch := js_judge_epoch req;
     su_status := Some (if is_ce then CompilationError else Judged);
     su_verdict := Some (if is_ce then None else Some verdict);
     su_score := Some (if negb is_ce && is_accepted verdict then f_one else f_zero);
     su_time_used := Some (max_time outcomes);
     su_memory_used := Some (max_memory outcomes);
     su_compile_output := Some (if is_ce then compile_message (jp_outcomes p) else None);
     su_error_code := None;
     su_error_message := None |}.

Section contests.
Context `{Serde MatchState, Serde Setup, Serde AdmissionMetadata}.
Context `{Serde (DetachedEval CodelinkJudge), Serde (DetachedEval IcpcJudge)}.

#[export] Instance CodelinkBracketJudge_judge : ContestJudge CodelinkBracketJudge := {
  judge_score _ := binary_outcome;
  db_score _ outcome _ := co_score outcome;
  next_step j p := (j, stop_at_failure p);
  judge_finalize _ p :=
    _ ← update_or_stale (bracket_update p);
    let req := jp_submission p in
    match js_contest_id req with
    | None => mret tt
    | Some contest_id => resolve_and_advance contest_id (js_user_id req) (js_problem_id req)
    end;
}.
Context `{Serde (DetachedEval CodelinkBracketJudge)}.

(** *** The qualifier *)

Definition judge (req : OnSubmissionInput) : M unit :=
  if decide (os_test_cases req = []) then
    update_or_stale (no_cases_update (u "CODELINK_NO_TEST_CASES")
      (u "Codelink problems require test cases") req)
  else start req (os_test_cases req) TheCodelinkJudge (u "on_codelink_qualifier_eval_result") 1.

Definition handle_codelink_submission (req : OnSubmissionInput) : M OnSubmissionOutput :=
  answer display_error (_ ← judge req; mret judged_output).

Definition handle_eval_callback (input : DetachedEvaluateCallbackInput)
    : M DetachedEvaluateCallbackOutput :=
  callback_with_recovery (J := CodelinkJudge) (mret tt)
    (λ e, log_info (u "Codelink evaluation callback failed: " ++ display_error e)) input.

(** *** The bracket *)

Definition NO_TEST_CASES : ustring := u "NO_TEST_CASES".
Definition NO_TEST_CASES_MSG : ustring := u "Problem has no test cases; cannot be judged".

Definition evaluate_detached (req : OnSubmissionInput) : M OnSubmissionOutput :=
  if decide (os_test_cases req = []) then
    _ ← log_info
          (u "codelink-bracket: No test cases found; marking as SystemError (not a solve)");
    _ ← update_or_stale (no_cases_update_cleared NO_TEST_CASES NO_TEST_CASES_MSG req);
    mret judged_output
  else
    _ ← start req (os_test_cases req) TheCodelinkBracketJudge
          (u "on_codelink_bracket_eval_result") 1;
    mret judged_output.

Definition handle_codelink_bracket_submission (req : OnSubmissionInput) : M OnSubmissionOutput :=
  answer debug_error (evaluate_detached req).

Definition on_codelink_bracket_eval_result (input : DetachedEvaluateCallbackInput)
    : M DetachedEvaluateCallbackOutput :=
  callback_with_recovery (J := CodelinkBracketJudge)
    (log_info (u "codelink-bracket: detached callback epoch stale, cancelling"))
    (λ e, log_info (u "codelink-bracket: detached callback failed (" ++ debug_error e
                    ++ u "); finalizing as SystemError")) input.

(** *** ICPC *)

Definition evaluate_short_circuit_detached (req : OnSubmissionInput)
    (test_cases : list TestCaseRow) : M OnSubmissionOutput :=
  _ ← start req test_cases TheIcpcJudge (u "on_icpc_eval_result") 1;
  mret judged_output.

(** Run [c] and then [stale] if the epoch was stale. *)
Definition if_stale {A} (stale : M A) (c : M A) : M A := λ h,
  match c h with
  | Some (Err StaleEpoch, h) => stale h
  | other => other
  end.

(** [run_judge]: a submission of a contest. *)
Definition run_judge (req : OnSubmissionInput) : M OnSubmissionOutput :=
  if decide (os_test_cases req = []) then
    _ ← log_info (u "ICPC: No test cases found; marking as SystemError (not a solve)");
    _ ← update_or_stale (no_cases_update_cleared NO_TEST_CASES NO_TEST_CASES_MSG req);
    mret judged_output
  else
    if_stale
      (_ ← log_info (u "ICPC: Submission " ++ show (os_submission_id req) ++ u " epoch "
                     ++ show (os_judge_epoch req) ++ u " is stale, stopping");
       mret judged_output)
      (evaluate_short_circuit_detached req (os_test_cases req)).

Definition persist_empty_standalone (req : OnSubmissionInput) : M OnSubmissionOutput :=
  _ ← log_info
        (u "ICPC: No test cases found, marking standalone submission as judged with score 0");
  _ ← update_or_stale {|
    su_submission_id := os_submission_id req;
    su_judgement_id := os_judgement_id req;
    su_judge_epoch := os_judge_epoch req;
    su_status := Some Judged;
    su_verdict := Some (Some Accepted);
    su_score := Some f_zero;
    su_time_used := Some None;
    su_memory_used := Some None;
    su_compile_output := None;
    su_error_code := None;
    su_error_message := None |};
  mret judged_output.

(** [run_standalone_judge]: a submission outside any contest. *)
Definition run_standalone_judge (req : OnSubmissionInput) : M OnSubmissionOutput :=
  _ ← log_info (u "ICPC: Judging standalone submission " ++ show (os_submission_id req)
                ++ u " for problem " ++ show (os_problem_id req));
  answer debug_error
    (if decide (os_test_cases req = []) then persist_empty_standalone req
     else evaluate_short_circuit_detached req (os_test_cases req)).

Definition handle_icpc_submission (req : OnSubmissionInput) : M OnSubmissionOutput :=
  match os_contest_id req with
  | None => run_standalone_judge req
  | Some contest_id =>
      _ ← log_info (u "ICPC: Judging submission " ++ show (os_submission_id req)
                    ++ u " for problem " ++ show (os_problem_id req) ++ u " in contest "
                    ++ show contest_id);
      answer debug_error (run_judge req)
  end.

Definition on_icpc_eval_result (input : DetachedEvaluateCallbackInput)
    : M DetachedEvaluateCallbackOutput :=
  callback_with_recovery (J := IcpcJudge)
    (log_info (u "ICPC: detached callback epoch stale, cancelling"))
    (λ e, log_info (u "ICPC: detached callback failed (" ++ debug_error e
                    ++ u "); finalizing as SystemError")) input.

End contests.
