(* ===== verification/JudgingProofs.v ===== *)
(** * JudgingProofs: a session records every case once and always ends

    For any contest type that keeps the laws of [JudgeLaws]: a result changes
    the session only the first time it is delivered, every case is persisted
    once, and the final result is stored when every case has an outcome. *)

From S2P Require Import Prelude Text Float Verdict Sdk Host.
From S2P Require Import BracketModel BracketJudge Judging JudgingContests.

(** ** The laws of a contest type *)

Class JudgeLaws (J : Type) `{ContestJudge J} := {
  (** What a contest type keeps true of its own state. *)
  policy_ok : J → Prop;
  next_step_ok j p j' step : policy_ok j → next_step j p = (j', step) → policy_ok j';
  score_names_case j r : co_test_case_id (judge_score j r) = tv_test_case_id r;
  cancel_names_pending j p j' ids :
    policy_ok j → jp_recorded_ids p = list_to_set (co_test_case_id <$> jp_outcomes p) →
    next_step j p = (j', Cancel ids) → NoDup ids ∧ ∀ i, i ∈ ids → i ∉ jp_recorded_ids p;
  finish_leaves_none j p j' :
    next_step j p = (j', Finish None) → progress_all_recorded p = true;
}.

Lemma stop_at_failure_step p : stop_at_failure p = Continue ∨ stop_at_failure p = short_circuit.
Proof. unfold stop_at_failure. destruct (jp_last p); [|by left]. destruct (negb _); auto. Qed.

Lemma stop_at_failure_laws (J : Type) (j j' : J) p step :
  (j, stop_at_failure p) = (j', step) → (∃ ids, step = Cancel ids) ∨ step = Finish None → False.
Proof.
  intros [= _ <-] [[ids E]|E]; destruct (stop_at_failure_step p) as [E2|E2]; rewrite E2 in E; done.
Qed.

#[export] Instance CodelinkJudge_laws : JudgeLaws CodelinkJudge.
Proof.
  unshelve econstructor; [exact (λ _, True)|done|done|..].
  all: intros j p j' *; intros; exfalso;
    match goal with E : next_step _ _ = _ |- _ => (eapply stop_at_failure_laws; [exact E|]; eauto) end.
Defined.

#[export] Instance IcpcJudge_laws : JudgeLaws IcpcJudge.
Proof.
  unshelve econstructor; [exact (λ _, True)|done|done|..].
  all: intros j p j' *; intros; exfalso;
    match goal with E : next_step _ _ = _ |- _ => (eapply stop_at_failure_laws; [exact E|]; eauto) end.
Defined.

Section session_proofs.
Context {J : Type} `{JudgeLaws J} `{Serde (DetachedEval J)}.

(** ** What a call adds to a session *)

Definition row_id (r : TestCaseResultRow) : option Z :=
  match tr_test_case_id r with Some i => Some i | None => tr_run_index r end.

Definition row_matches (r : TestCaseResultRow) (o : CaseOutcome) : Prop :=
  row_id r = Some (co_test_case_id o) ∧ tr_verdict r = co_verdict o.

Definition ids (l : list CaseOutcome) : list Z := co_test_case_id <$> l.

(** [new] outcomes were recorded, and each has its row. *)
Record extends (s s' : DetachedEval J) (h h' : Host) (new : list CaseOutcome) : Prop := {
  ext_request : ev_request s' = ev_request s;
  ext_cases : ev_scoring_cases s' = ev_scoring_cases s;
  ext_outcomes : ev_outcomes s' = ev_outcomes s ++ new;
  ext_recorded : ev_recorded_ids s' = list_to_set (ids new) ∪ ev_recorded_ids s;
  ext_rows : ∃ rows, h_results h' = h_results h ++ rows ∧ Forall2 row_matches rows new;
}.

Lemma extends_refl s s' h h' :
  ev_request s' = ev_request s → ev_scoring_cases s' = ev_scoring_cases s →
  ev_outcomes s' = ev_outcomes s → ev_recorded_ids s' = ev_recorded_ids s →
  h_results h' = h_results h → extends s s' h h' [].
Proof.
  intros ? ? Ho Hr Hh. split; [done..| | |].
  - by rewrite app_nil_r.
  - cbn. rewrite Hr. set_solver.
  - exists []. by rewrite app_nil_r.
Qed.

Lemma extends_trans s1 s2 s3 h1 h2 h3 new1 new2 :
  extends s1 s2 h1 h2 new1 → extends s2 s3 h2 h3 new2 → extends s1 s3 h1 h3 (new1 ++ new2).
Proof.
  intros [R1 C1 O1 D1 (rows1 & E1 & F1)] [R2 C2 O2 D2 (rows2 & E2 & F2)]. split.
  - congruence.
  - congruence.
  - by rewrite O2, O1, app_assoc.
  - rewrite D2, D1. unfold ids. rewrite fmap_app, list_to_set_app_L. set_solver.
  - exists (rows1 ++ rows2). rewrite E2, E1, app_assoc. split; [done|]. by apply Forall2_app.
Qed.

Lemma build_row_matches req o score tc :
  row_matches (build_tc_row req o score tc) (without_output o).
Proof.
  unfold row_matches, row_id, build_tc_row. cbn.
  by destruct tc as [t|]; [destruct (sc_is_custom t)|].
Qed.

Lemma record_extends o s h s' h' :
  record o s h = Some (Ok s', h') → extends s s' h h' [without_output o] ∧ ev_policy s' = ev_policy s.
Proof.
  unfold record. intros Hrun. run_inv. split; [|done].
  unfold Submissions.insert_results in Hrun0. cbn [existsb decide] in Hrun0.
  destruct (decide _) as [E|_]; [done|]. destruct (_ || _); [done|].
  destruct (h_insert_errors h); [|done]. injection Hrun0 as _ <-.
  split; [done..| |].
  - cbn. set_solver.
  - cbn. eexists. split; [done|]. constructor; [|constructor].
    apply build_row_matches.
Qed.

Lemma record_filled_extends v msg l s h s' h' :
  record_filled v msg l s h = Some (Ok s', h') →
  extends s s' h h' (without_output ∘ (λ i, filled i v msg) <$> l) ∧ ev_policy s' = ev_policy s.
Proof.
  revert s h. induction l as [|i l IH]; intros s h Hrun; cbn [record_filled] in Hrun.
  { apply ret_inv in Hrun as [-> ->]. split; [|done]. by apply extends_refl. }
  apply bind_inv in Hrun as (s1 & h1 & Hr & Hrun).
  apply record_extends in Hr as [E1 P1]. apply IH in Hrun as [E2 P2].
  split; [|congruence]. exact (extends_trans _ _ _ _ _ _ _ _ E1 E2).
Qed.

Lemma ids_filled v msg l : ids (without_output ∘ (λ i, filled i v msg) <$> l) = l.
Proof. unfold ids. rewrite <- list_fmap_compose. apply list_fmap_id. Qed.

Lemma mark_running_extends s h s' h' :
  mark_running s h = Some (Ok s', h') → extends s s' h h' [] ∧ ev_policy s' = ev_policy s.
Proof.
  unfold mark_running. destruct (ev_marked_running s); intros Hrun.
  { apply ret_inv in Hrun as [-> ->]. split; [|done]. by apply extends_refl. }
  apply bind_inv in Hrun as (n & h1 & Hup & Hrun). destruct (n =? 0)%Z; [done|].
  apply ret_inv in Hrun as [-> ->]. split; [|done]. apply extends_refl; try done.
  unfold Submissions.set_running, Submissions.update in Hup.
  destruct (_ <=? 0)%Z; [done|]. by destruct (h_update_results h); injection Hup as _ <-.
Qed.

(** ** The invariant *)

Record session_ok (s : DetachedEval J) : Prop := {
  so_once : NoDup (ids (ev_outcomes s));
  so_recorded : ev_recorded_ids s = list_to_set (ids (ev_outcomes s));
  so_policy : policy_ok (ev_policy s);
}.

Lemma extends_ok s s' h h' new :
  session_ok s → extends s s' h h' new → policy_ok (ev_policy s') → NoDup (ids new) →
  (∀ i, i ∈ ids new → i ∉ ev_recorded_ids s) → session_ok s'.
Proof.
  intros [Hn Hr _] [_ _ Ho Hd _] Hpol Hnew Hfresh.
  split; [| |done]; rewrite Ho; unfold ids in *; rewrite fmap_app.
  - apply NoDup_app. split_and!; [done| |done].
    intros i Hi Hi2. apply (Hfresh i Hi2). rewrite Hr. by apply elem_of_list_to_set.
  - rewrite Hd, Hr, list_to_set_app_L. set_solver.
Qed.

Lemma elem_of_unrecorded (s : DetachedEval J) i :
  i ∈ unrecorded s ↔ i ∈ sc_id <$> ev_scoring_cases s ∧ i ∉ ev_recorded_ids s.
Proof. unfold unrecorded. rewrite list_elem_of_filter. tauto. Qed.

Lemma all_recorded_spec (s : DetachedEval J) :
  all_recorded s = true ↔ ∀ i, i ∈ sc_id <$> ev_scoring_cases s → i ∈ ev_recorded_ids s.
Proof.
  unfold all_recorded, recorded_all. rewrite forallb_forall. split.
  - intros Hall i (tc & -> & Htc)%list_elem_of_fmap. apply list_elem_of_In in Htc.
    by apply Hall, bool_decide_eq_true in Htc.
  - intros Hall tc Htc%list_elem_of_In. apply bool_decide_eq_true, Hall.
    by apply list_elem_of_fmap_2.
Qed.

Lemma any_unrecorded_spec (s : DetachedEval J) : any_unrecorded s = negb (all_recorded s).
Proof.
  unfold any_unrecorded, all_recorded, recorded_all.
  induction (ev_scoring_cases s) as [|tc l IH]; [done|]. cbn. rewrite IH.
  by destruct (bool_decide _).
Qed.

Lemma fill_unrecorded_spec v msg s h s' h' :
  session_ok s → NoDup (sc_id <$> ev_scoring_cases s) →
  fill_unrecorded v msg s h = Some (Ok s', h') →
  ∃ new, extends s s' h h' new ∧ session_ok s' ∧ all_recorded s' = true ∧ ev_policy s' = ev_policy s.
Proof.
  intros Hok Hnd Hrun. unfold fill_unrecorded in Hrun.
  apply record_filled_extends in Hrun as [E P]. eexists. split; [exact E|].
  pose proof (ids_filled v msg (unrecorded s)) as Hids.
  split_and!; [| |done].
  - eapply extends_ok; [exact Hok|exact E|rewrite P; apply Hok|..]; rewrite Hids.
    + by apply NoDup_filter.
    + intros i Hi. by apply elem_of_unrecorded in Hi as [_ ?].
  - apply all_recorded_spec. intros i Hi. rewrite (ext_cases _ _ _ _ _ E) in Hi.
    rewrite (ext_recorded _ _ _ _ _ E), Hids.
    destruct (decide (i ∈ ev_recorded_ids s)); [set_solver|].
    apply elem_of_union_l, elem_of_list_to_set, elem_of_unrecorded. done.
Qed.

(** ** Callbacks *)

(** What a callback that succeeds has done: [new] outcomes were recorded with
    their rows; either the session goes on, or every case has an outcome and the
    final result was stored. *)
Definition callback_done (s : DetachedEval J) (h : Host)
    (out : DetachedEvaluateCallbackOutput) (h' : Host) (s' : DetachedEval J)
    (new : list CaseOutcome) : Prop :=
  out_state out = to_json s' ∧ session_ok s' ∧ ∃ h1, extends s s' h h1 new ∧
  match out_action out with
  | ActContinue =>
      h' = h1 ∧ out_refill out = negb (all_recorded s') ∧
      (new = [] ∧ s' = s ∨ all_recorded s' = false)
  | ActFinish | ActCancel =>
      all_recorded s' = true ∧
      judge_finalize (ev_policy s') (progress_of None s') h1 = Some (Ok tt, h')
  end.

Lemma finish_done s s' h h1 h' new :
  session_ok s' → extends s s' h h1 new → all_recorded s' = true →
  finalize s' h1 = Some (Ok tt, h') → callback_done s h (finish_with (to_json s')) h' s' new.
Proof. intros. split_and!; [done..|]. exists h1. by split_and!. Qed.

Lemma continue_or_finish_done cancel s s' h h1 out h' new :
  session_ok s' → extends s s' h h1 new →
  continue_or_finish cancel s' h1 = Some (Ok out, h') → callback_done s h out h' s' new.
Proof.
  intros Hok Hext. unfold continue_or_finish. destruct (all_recorded s') eqn:E; intros Hrun.
  - apply bind_inv in Hrun as ([] & h2 & Hf & [-> ->]%ret_inv). by eapply finish_done.
  - apply ret_inv in Hrun as [-> ->]. split_and!; [done..|]. exists h1.
    split; [done|]. cbn. rewrite any_unrecorded_spec. auto.
Qed.

(** A result for a case without an outcome. *)
Lemma fresh_result_done result s h out h' :
  session_ok s → NoDup (sc_id <$> ev_scoring_cases s) →
  tv_test_case_id result ∉ ev_recorded_ids s →
  on_result result s h = Some (Ok out, h') →
  ∃ s' new, callback_done s h out h' s' new ∧ tv_test_case_id result ∈ ev_recorded_ids s'.
Proof.
  intros Hok Hnd Hfresh Hrun. unfold on_result in Hrun. rewrite decide_False in Hrun by done.
  set (o := judge_score (ev_policy s) result) in Hrun.
  assert (co_test_case_id o = tv_test_case_id result) as Hid by apply score_names_case.
  assert (∀ s0 h0 s1 h1, extends s s0 h h0 [] → ev_policy s0 = ev_policy s →
    record o s0 h0 = Some (Ok s1, h1) →
    extends s s1 h h1 [without_output o] ∧ session_ok s1 ∧
    NoDup (sc_id <$> ev_scoring_cases s1) ∧ tv_test_case_id result ∈ ev_recorded_ids s1 ∧
    ev_policy s1 = ev_policy s0) as Hrec.
  { intros s0 h0 s1 h1 E0 P0 [E1 P1]%record_extends.
    pose proof (extends_trans _ _ _ _ _ _ _ _ E0 E1) as E. cbn [app] in E.
    split_and!; [done| |by rewrite (ext_cases _ _ _ _ _ E)| |done].
    - eapply extends_ok; [exact Hok|exact E|rewrite P1, P0; apply Hok|..]; cbn.
      + apply NoDup_singleton.
      + intros i ->%list_elem_of_singleton. by rewrite Hid.
    - rewrite (ext_recorded _ _ _ _ _ E). cbn. rewrite Hid. set_solver. }
  assert (∀ s1 s2 h1 h2 new, tv_test_case_id result ∈ ev_recorded_ids s1 →
    extends s1 s2 h1 h2 new → tv_test_case_id result ∈ ev_recorded_ids s2) as Hkeep.
  { intros s1 s2 h1 h2 new Hin E. rewrite (ext_recorded _ _ _ _ _ E). set_solver. }
  destruct (decide (co_verdict o = CompileError)).
  - apply bind_inv in Hrun as (s1 & h1 & Hr & Hrun).
    destruct (Hrec s h s1 h1) as (E1 & Hok1 & Hnd1 & Hin1 & _); [by apply extends_refl|done..|].
    apply bind_inv in Hrun as (s2 & h2 & Hf & Hrun).
    destruct (fill_unrecorded_spec _ _ _ _ _ _ Hok1 Hnd1 Hf) as (new & E2 & Hok2 & Hall & _).
    apply bind_inv in Hrun as ([] & h3 & Hfin & [-> ->]%ret_inv).
    exists s2, ([without_output o] ++ new). split; [|by eapply Hkeep].
    eapply finish_done; [done|by eapply extends_trans|done..].
  - apply bind_inv in Hrun as (s0 & h0 & Hm & Hrun).
    apply mark_running_extends in Hm as [E0 P0].
    apply bind_inv in Hrun as (s1 & h1 & Hr & Hrun).
    destruct (Hrec s0 h0 s1 h1 E0 P0 Hr) as (E1 & Hok1 & Hnd1 & Hin1 & _).
    destruct (next_step _ _) as [policy step] eqn:Hstep. cbv zeta in Hrun.
    set (s2 := with_policy policy s1) in Hrun.
    assert (extends s s2 h h1 [without_output o]) as E2 by (destruct E1; by split).
    assert (session_ok s2) as Hok2.
    { destruct Hok1 as [? ? Hpol]. split; [done..|]. exact (next_step_ok _ _ _ _ Hpol Hstep). }
    destruct step as [|cancel|[[v msg]|]].
    + exists s2, [without_output o]. split; [|done]. by eapply continue_or_finish_done.
    + destruct (cancel_names_pending _ (progress_of (last (ev_outcomes s1)) s1) _ _
                  (so_policy _ Hok1) (so_recorded _ Hok1) Hstep) as [Hcn Hcf].
      cbn in Hcf.
      apply bind_inv in Hrun as (s3 & h3 & Hfl & Hrun).
      apply record_filled_extends in Hfl as [E3 P3].
      pose proof (ids_filled Skipped SKIPPED_SHORT_CIRCUIT cancel) as Hci.
      exists s3. eexists. split; [|by eapply (Hkeep s2)].
      eapply continue_or_finish_done; [|by eapply extends_trans|exact Hrun].
      eapply extends_ok; [exact Hok2|exact E3|rewrite P3; apply Hok2|..]; rewrite Hci; done.
    + apply bind_inv in Hrun as (s3 & h3 & Hfl & Hrun).
      destruct (fill_unrecorded_spec _ _ _ _ _ _ Hok2 Hnd1 Hfl) as (new & E3 & Hok3 & Hall & _).
      apply bind_inv in Hrun as ([] & h4 & Hfin & [-> ->]%ret_inv).
      exists s3. eexists. split; [|by eapply (Hkeep s2)].
      eapply finish_done; [done|by eapply extends_trans|done..].
    + apply bind_inv in Hrun as (s3 & h3 & [-> ->]%ret_inv & Hrun).
      apply bind_inv in Hrun as ([] & h4 & Hfin & [-> ->]%ret_inv).
      exists s2, [without_output o]. split; [|done].
      eapply finish_done; [done..| |done]. exact (finish_leaves_none _ _ _ Hstep).
Qed.

Lemma callback_run input s h out h' :
  session_ok s → NoDup (sc_id <$> ev_scoring_cases s) → ci_state input = to_json s →
  handle_callback input h = Some (Ok out, h') →
  ∃ s' new, callback_done s h out h' s' new ∧
    match ci_event input with
    | EvResult r =>
        tv_test_case_id r ∈ ev_recorded_ids s' ∧
        (tv_test_case_id r ∈ ev_recorded_ids s → new = [] ∧ s' = s ∧ out_action out = ActContinue)
    | _ => out_action out = ActCancel
    end.
Proof.
  intros Hok Hnd Hst Hrun. unfold handle_callback in Hrun.
  apply bind_inv in Hrun as (s0 & h0 & Hp & Hrun). rewrite Hst in Hp.
  rewrite parse_to_json in Hp. injection Hp as <- <-.
  assert (∀ v, (s1 ← fill_unrecorded SystemError EVALUATION_TIMEOUT s; _ ← finalize s1;
                 mret (cancel_with (to_json s1))) h = Some (Ok out, h') →
    v = out_action out → ∃ s' new, callback_done s h out h' s' new ∧ v = ActCancel) as Htimeout.
  { intros v Hrun1 ->. apply bind_inv in Hrun1 as (s1 & h1 & Hf & Hrun1).
    destruct (fill_unrecorded_spec _ _ _ _ _ _ Hok Hnd Hf) as (new & E & Hok1 & Hall & _).
    apply bind_inv in Hrun1 as ([] & h2 & Hfin & [-> ->]%ret_inv).
    exists s1, new. split; [|done]. split_and!; [done..|]. exists h1. by split_and!. }
  destruct (ci_event input) as [r|msg|]; [|by eapply Htimeout..].
  destruct (decide (tv_test_case_id r ∈ ev_recorded_ids s)) as [Hin|Hfresh].
  - unfold on_result in Hrun. rewrite decide_True in Hrun by done.
    apply ret_inv in Hrun as [-> ->]. exists s, []. split; [|done].
    split_and!; [done..|]. exists h. split; [by apply extends_refl|]. cbn.
    rewrite any_unrecorded_spec. auto.
  - destruct (fresh_result_done _ _ _ _ _ Hok Hnd Hfresh Hrun) as (s' & new & Hd & Hin).
    exists s', new. split; [done|]. split; [done|]. by intros.
Qed.
End session_proofs.

Section session_theorems.
Context {J : Type} `{JudgeLaws J} `{Serde (DetachedEval J)}.

(** C35. Judging records every case once and never loses the final result.  A
    callback that succeeds leaves the session with one outcome and one
    persisted row per recorded case; a result delivered again changes nothing;
    a session that ends has an outcome for every case and has stored the final
    result computed from exactly these outcomes; one that goes on asks for more
    cases exactly while some case has no outcome.  A callback that fails cancels
    the session in the state it was called with: nothing more is written when its
    epoch is stale, and otherwise the recovery runs on that state.  What the failed
    callback had written stays, so a case can have two rows after a recovery. *)
Theorem callback_records_once (log_stale : M unit) (log_error : SdkError → M unit)
    (input : DetachedEvaluateCallbackInput) (s : DetachedEval J) h out h' :
  session_ok s → NoDup (sc_id <$> ev_scoring_cases s) → ci_state input = to_json s →
  callback_with_recovery log_stale log_error input h = Some (Ok out, h') →
  (handle_callback input h = Some (Ok out, h') ∧
   ∃ s' new, callback_done s h out h' s' new ∧
    match ci_event input with
    | EvResult r =>
        tv_test_case_id r ∈ ev_recorded_ids s' ∧
        (tv_test_case_id r ∈ ev_recorded_ids s → new = [] ∧ s' = s ∧ out_action out = ActContinue)
    | _ => out_action out = ActCancel
    end)
  ∨ out = cancel_with (ci_state input) ∧ ∃ e h0,
      handle_callback input h = Some (Err e, h0) ∧
      (e = StaleEpoch ∧ log_stale h0 = Some (Ok tt, h')
       ∨ e ≠ StaleEpoch ∧ ∃ h1, log_error e h0 = Some (Ok tt, h1) ∧
           recover (J := J) (ci_state input) h1 = Some (Ok tt, h')).
Proof.
  intros Hok Hnd Hst. unfold callback_with_recovery.
  destruct (handle_callback input h) as [[[o|e] h0]|] eqn:Hrun; [| |done].
  - intros [= -> ->]. left. split; [done|]. by apply callback_run.
  - intros Hrec. right. destruct (decide (e = StaleEpoch)) as [->|Hne].
    + apply bind_inv in Hrec as ([] & h1 & Hl & [-> ->]%ret_inv). split; [done|]. exists StaleEpoch, h0. auto.
    + assert ((_ ← log_error e; _ ← recover (J := J) (ci_state input); mret (cancel_with (ci_state input))) h0
        = Some (Ok out, h')) as E by by destruct e.
      apply bind_inv in E as ([] & h1 & Hl & ([] & h2 & Hr & [-> ->]%ret_inv)%bind_inv).
      split; [done|]. exists e, h0. split; [done|]. right. eauto.
Qed.

(** Results that leave the session going; the host may change in between. *)
Inductive continues : DetachedEval J → Host → list TestCaseVerdict → DetachedEval J → Host → Prop :=
  | continues_nil s h : continues s h [] s h
  | continues_cons s h input r rs out s1 h1 h1' s2 h2 :
      ci_state input = to_json s → ci_event input = EvResult r →
      handle_callback input h = Some (Ok out, h1) →
      out_action out = ActContinue → out_state out = to_json s1 →
      continues s1 h1' rs s2 h2 → continues s h (r :: rs) s2 h2.

Lemma to_json_inj {A} `{Serde A} (x y : A) : to_json x = to_json y → x = y.
Proof. intros E. pose proof (from_to_json x) as Hx. rewrite E, from_to_json in Hx. by injection Hx. Qed.

Lemma continues_ok s h rs s' h' :
  continues s h rs s' h' → session_ok s → NoDup (sc_id <$> ev_scoring_cases s) →
  all_recorded s = false →
  ev_scoring_cases s' = ev_scoring_cases s ∧ all_recorded s' = false ∧
  ev_recorded_ids s ⊆ ev_recorded_ids s' ∧
  ∀ r, r ∈ rs → tv_test_case_id r ∈ ev_recorded_ids s'.
Proof.
  induction 1 as [s h|s h input r rs out s1 h1 h1' s2 h2 Hin0 Hev Hrun Hact Hst Hc IH];
    intros Hok Hnd Hall.
  { split_and!; try done. by intros ? ?%not_elem_of_nil. }
  destruct (callback_run _ _ _ _ _ Hok Hnd Hin0 Hrun) as (s' & new & Hdone & Hmore).
  rewrite Hev in Hmore. destruct Hmore as [Hin Hdup].
  destruct Hdone as (Hout & Hok1 & h0 & Hext & Hmatch).
  assert (s' = s1) as -> by (apply to_json_inj; congruence).
  assert (all_recorded s1 = false) as Hall1.
  { rewrite Hact in Hmatch. by destruct Hmatch as (_ & _ & [[_ ->]|]). }
  rewrite <- (ext_cases _ _ _ _ _ Hext) in Hnd |- *.
  destruct (IH Hok1 Hnd Hall1) as (Hcases & Hall2 & Hsub & Hrs).
  assert (ev_recorded_ids s ⊆ ev_recorded_ids s1) as Hsub1.
  { rewrite (ext_recorded _ _ _ _ _ Hext). set_solver. }
  split_and!; [done|done|set_solver|].
  intros r' [-> |Hr]%elem_of_cons; [|by apply Hrs]. apply Hsub, Hin.
Qed.

(** Judging ends: while a session goes on after any number of results, in any
    order and with repetitions, some case has not had a result delivered, so
    once every case has had one, the session is over. *)
Theorem session_ends (s : DetachedEval J) h rs s' h' :
  session_ok s → NoDup (sc_id <$> ev_scoring_cases s) → all_recorded s = false →
  continues s h rs s' h' →
  ∃ tc, tc ∈ ev_scoring_cases s ∧ ∀ r, r ∈ rs → tv_test_case_id r ≠ sc_id tc.
Proof.
  intros Hok Hnd Hall Hc. destruct (continues_ok _ _ _ _ _ Hc Hok Hnd Hall) as (Hcases & Hall2 & _ & Hrs).
  destruct (decide (Exists (λ tc, sc_id tc ∉ ev_recorded_ids s') (ev_scoring_cases s)))
    as [(tc & Htc & Hno)%Exists_exists|Hnone].
  - exists tc. split; [done|]. intros r Hr E. apply Hno. rewrite <- E. by apply Hrs.
  - exfalso. apply not_true_iff_false in Hall2. apply Hall2, all_recorded_spec.
    intros i (tc & -> & Htc)%list_elem_of_fmap. rewrite Hcases in Htc.
    apply not_Exists_Forall in Hnone; [|apply _]. rewrite Forall_forall in Hnone.
    by apply dec_stable, Hnone.
Qed.
(** ** Recovery *)

Lemma record_succeeds o s h :
  (0 < js_judgement_id (ev_request s))%Z → h_insert_errors h = [] →
  ∃ s' h', record o s h = Some (Ok s', h') ∧ h_insert_errors h' = [] ∧
    ev_request s' = ev_request s.
Proof.
  intros Hj He. unfold record, mbind, M_bind, Submissions.insert_results. cbn.
  rewrite (proj2 (Z.leb_gt _ _)) by done. cbn. rewrite He. eexists _, _.
  split; [reflexivity|]. done.
Qed.

Lemma record_until_error_fills v msg l s h :
  (0 < js_judgement_id (ev_request s))%Z → h_insert_errors h = [] →
  ∃ s' h', record_until_error v msg l s h = Some (Ok s', h') ∧
    record_filled v msg l s h = Some (Ok s', h').
Proof.
  revert s h. induction l as [|i l IH]; intros s h Hj He; [by eexists _, _|].
  destruct (record_succeeds (filled i v msg) s h Hj He) as (s1 & h1 & Hr & He1 & Hq).
  destruct (IH s1 h1) as (s2 & h2 & Hu & Hf); [by rewrite Hq|done|].
  exists s2, h2. cbn [record_until_error record_filled].
  unfold mbind, M_bind, ignore_error. rewrite Hr. done.
Qed.

(** A callback that fails for any reason but a stale epoch does not strand
    the submission: the session it was called with is cancelled, each of its
    cases without an outcome gets one and a row as a system error, and the final
    result is stored from them, if the host accepts the rows. *)
Theorem failed_callback_recovers (log_stale : M unit) (log_error : SdkError → M unit)
    (input : DetachedEvaluateCallbackInput) (s : DetachedEval J) h e h1 h2 :
  session_ok s → NoDup (sc_id <$> ev_scoring_cases s) → ci_state input = to_json s →
  (0 < js_judgement_id (ev_request s))%Z →
  handle_callback input h = Some (Err e, h1) → e ≠ StaleEpoch →
  log_error e h1 = Some (Ok tt, h2) → h_insert_errors h2 = [] →
  ∃ s' h3,
    extends s s' h2 h3
      ((λ i, without_output (filled i SystemError EVALUATION_PERSIST_FAILED)) <$> unrecorded s) ∧
    session_ok s' ∧ all_recorded s' = true ∧
    callback_with_recovery log_stale log_error input h =
      match judge_finalize (ev_policy s') (progress_of None s') h3 with
      | Some (_, h4) => Some (Ok (cancel_with (ci_state input)), h4)
      | None => None
      end.
Proof.
  intros Hok Hnd Hst Hj Hrun Hne Hlog He.
  destruct (record_until_error_fills SystemError EVALUATION_PERSIST_FAILED (unrecorded s) s h2 Hj He)
    as (s' & h3 & Hu & Hf).
  destruct (fill_unrecorded_spec _ _ _ _ _ _ Hok Hnd Hf) as (new & _ & Hok' & Hall & _).
  apply record_filled_extends in Hf as [Hext _].
  exists s', h3. split_and!; [done..|].
  unfold callback_with_recovery. rewrite Hrun.
  assert ((_ ← log_error e; _ ← recover (J := J) (ci_state input); mret (cancel_with (ci_state input)))
            h1 = match judge_finalize (ev_policy s') (progress_of None s') h3 with
                 | Some (_, h4) => Some (Ok (cancel_with (ci_state input)), h4)
                 | None => None
                 end) as E; [|by destruct e].
  unfold mbind, M_bind. rewrite Hlog. unfold recover. rewrite Hst, from_to_json.
  unfold mbind, M_bind. rewrite Hu. unfold ignore_error, finalize.
  by destruct (judge_finalize _ _ _) as [[[] ?]|].
Qed.
End session_theorems.

(** ** The final result of the all-or-nothing contest types *)

Lemma worst_verdict_Some l :
  l ≠ [] → ∃ o, o ∈ l ∧ worst_verdict l = co_verdict o ∧
    ∀ o', o' ∈ l → severity (co_verdict o') ≤ severity (co_verdict o).
Proof.
  intros Hne. unfold worst_verdict. destruct (max_by_key severity _) as [v|] eqn:E.
  - apply max_by_key_Some in E as [(o & -> & Ho)%list_elem_of_fmap Hmax].
    exists o. split_and!; [done..|]. intros o' Ho'.
    apply Nat.leb_le, (Hmax (co_verdict o')). by apply list_elem_of_fmap_2.
  - apply max_by_key_None, fmap_nil_inv in E. done.
Qed.

Lemma is_accepted_true v : is_accepted v = true ↔ v = Accepted.
Proof. apply bool_decide_eq_true. Qed.

Lemma non_skipped_elem o l :
  o ∈ non_skipped l ↔ o ∈ l ∧ co_verdict o ≠ Skipped ∧ co_verdict o ≠ Cancelled.
Proof.
  unfold non_skipped. rewrite list_elem_of_filter.
  destruct (co_verdict o); cbn; intuition congruence.
Qed.

(** Every case has an outcome and all of them are accepted. *)
Definition fully_accepted (p : JudgeProgress) : Prop :=
  progress_all_recorded p = true ∧ jp_outcomes p ≠ [] ∧
  ∀ o, o ∈ jp_outcomes p → co_verdict o = Accepted.

Lemma forallb_accepted l :
  forallb (λ o, is_accepted (co_verdict o)) l = true ↔ ∀ o, o ∈ l → co_verdict o = Accepted.
Proof.
  rewrite forallb_forall. setoid_rewrite is_accepted_true.
  split; intros Hall o Ho; apply Hall; by apply list_elem_of_In.
Qed.

Lemma all_accepted_spec p : all_accepted p = true ↔ fully_accepted p.
Proof.
  unfold all_accepted, fully_accepted.
  rewrite !andb_true_iff, negb_true_iff, bool_decide_eq_false, forallb_accepted. tauto.
Qed.

(** The result is the most severe verdict of the cases that were really run; a
    compile error is a status of its own, and no case at all a system error. *)
Definition judged_as (run : list CaseOutcome) (up : SubmissionUpdate) : Prop :=
  (run = [] → su_status up = Some Judged ∧ su_verdict up = Some (Some SystemError)) ∧
  (run ≠ [] → ∃ o, o ∈ run ∧ (∀ o', o' ∈ run → severity (co_verdict o') ≤ severity (co_verdict o)) ∧
     if decide (co_verdict o = CompileError)
     then su_status up = Some CompilationError ∧ su_verdict up = Some None
     else su_status up = Some Judged ∧ su_verdict up = Some (Some (co_verdict o))).

Lemma judged_as_worst run up v :
  v = (if decide (run = []) then SystemError else worst_verdict run) →
  su_status up = Some (if bool_decide (v = CompileError) then CompilationError else Judged) →
  su_verdict up = Some (if bool_decide (v = CompileError) then None else Some v) →
  judged_as run up.
Proof.
  intros Hv Hs Hw. split.
  - intros E. rewrite decide_True in Hv by done. by subst v.
  - intros Hne. rewrite decide_False in Hv by done.
    destruct (worst_verdict_Some run Hne) as (o & Ho & Hworst & Hmax). exists o.
    split_and!; [done..|]. rewrite Hworst in Hv. subst v.
    destruct (decide (co_verdict o = CompileError)) as [E|E];
      [rewrite bool_decide_true in Hs, Hw by done|rewrite bool_decide_false in Hs, Hw by done]; done.
Qed.

Lemma icpc_non_skipped_result l :
  icpc_non_skipped (icpc_result l) = eval_outcome_from_case <$> non_skipped l.
Proof.
  unfold icpc_non_skipped, non_skipped. cbn [er_outcomes icpc_result]. induction l as [|o l IH]; [done|]. rewrite fmap_cons, !filter_cons. cbn.
  rewrite IH. by destruct (decide _).
Qed.

Lemma fully_accepted_worst p :
  fully_accepted p →
  non_skipped (jp_outcomes p) ≠ [] ∧ worst_verdict (non_skipped (jp_outcomes p)) = Accepted.
Proof.
  intros (_ & Hne & Hall).
  assert (non_skipped (jp_outcomes p) ≠ []) as Hrun.
  { destruct (jp_outcomes p) as [|o l] eqn:E; [done|]. apply elem_of_not_nil with o.
    apply non_skipped_elem. split; [by left|]. by rewrite (Hall o) by by left. }
  split; [done|]. destruct (worst_verdict_Some _ Hrun) as (o & Ho & Hw & _).
  rewrite Hw. apply Hall. by apply non_skipped_elem in Ho as [? _].
Qed.

Lemma codelink_verdict_accepted p : codelink_verdict p = Accepted ↔ fully_accepted p.
Proof.
  unfold codelink_verdict. rewrite <- all_accepted_spec.
  destruct (all_accepted p) eqn:Ha; cbn.
  - rewrite andb_false_r. split; [done|]. intros _. by apply fully_accepted_worst, all_accepted_spec.
  - rewrite andb_true_r. split; [|done].
    destruct (is_accepted (worst_verdict _)) eqn:E; [done|]. intros E'. by rewrite E' in E.
Qed.

Lemma icpc_accepted l :
  er_is_accepted (icpc_result l) = true ↔ ∀ o, o ∈ l → co_verdict o = Accepted.
Proof.
  cbn. rewrite andb_true_iff, forallb_accepted. split; [by intros [_ ?]|].
  intros Hall. split; [|done]. apply negb_true_iff, not_true_iff_false.
  intros (o & Ho%list_elem_of_In & E%bool_decide_eq_true)%existsb_exists.
  by rewrite (Hall o Ho) in E.
Qed.

Lemma icpc_point l :
  er_is_accepted (icpc_result l) = true ∧ non_skipped l ≠ [] ↔
  l ≠ [] ∧ ∀ o, o ∈ l → co_verdict o = Accepted.
Proof.
  rewrite icpc_accepted. split; intros [H1 H2].
  - split; [|done]. intros ->. by apply H2.
  - split; [done|]. destruct l as [|o l]; [done|]. apply elem_of_not_nil with o.
    apply non_skipped_elem. split; [by left|]. by rewrite (H2 o) by by left.
Qed.

Lemma f_one_if (b : bool) : Some (if b then f_one else f_zero) = Some f_one ↔ b = true.
Proof. by destruct b. Qed.

(** The final result of the all-or-nothing contest types.  The qualifier
    accepts a submission, and gives it its point, exactly when every case has an
    outcome and all of them are accepted; ICPC gives its point exactly when
    every recorded outcome is accepted.  Bracket and ICPC store the most severe
    verdict among the cases that really ran. *)
Theorem all_or_nothing_results p :
  let icpc := icpc_update (js_submission_id (jp_submission p)) (js_judgement_id (jp_submission p))
                (js_judge_epoch (jp_submission p)) (icpc_result (jp_outcomes p)) in
  (su_verdict (codelink_update p) = Some (Some Accepted) ↔ fully_accepted p) ∧
  (su_score (codelink_update p) = Some f_one ↔ fully_accepted p) ∧
  (su_score icpc = Some f_one ↔
     jp_outcomes p ≠ [] ∧ ∀ o, o ∈ jp_outcomes p → co_verdict o = Accepted) ∧
  judged_as (non_skipped (jp_outcomes p)) icpc ∧
  judged_as (non_skipped (jp_outcomes p)) (bracket_update p).
Proof.
  cbv zeta. split_and!.
  - rewrite <- codelink_verdict_accepted. cbn [su_verdict codelink_update].
    case_bool_decide as E; [rewrite E; done|]. split; congruence.
  - rewrite <- all_accepted_spec. apply f_one_if.
  - rewrite <- icpc_point. unfold icpc_update. cbn [su_score].
    rewrite icpc_non_skipped_result, f_one_if, andb_true_iff, negb_true_iff, bool_decide_eq_false.
    destruct (non_skipped (jp_outcomes p)); cbn; [|]; split; intros [??]; split; done.
  - eapply judged_as_worst; [|done|done]. unfold icpc_verdict. rewrite icpc_non_skipped_result.
    unfold worst_verdict. rewrite <- list_fmap_compose.
    destruct (non_skipped (jp_outcomes p)); [done|]. by rewrite !decide_False.
  - by eapply judged_as_worst.
Qed.

(** A case that never ran.  When one case was accepted and the next one was
    cancelled, the bracket stores an accepted verdict with the point, ICPC an
    accepted verdict without the point, and only the qualifier a system
    error. *)
Theorem cancelled_case_results p accepted cancelled :
  jp_outcomes p = [accepted; cancelled] →
  co_verdict accepted = Accepted → co_verdict cancelled = Cancelled →
  let icpc := icpc_update (js_submission_id (jp_submission p)) (js_judgement_id (jp_submission p))
                (js_judge_epoch (jp_submission p)) (icpc_result (jp_outcomes p)) in
  su_verdict (bracket_update p) = Some (Some Accepted) ∧ su_score (bracket_update p) = Some f_one ∧
  su_verdict icpc = Some (Some Accepted) ∧ su_score icpc = Some f_zero ∧
  su_verdict (codelink_update p) = Some (Some SystemError) ∧
  su_score (codelink_update p) = Some f_zero.
Proof.
  intros Hp Ha Hc. cbv zeta.
  assert (non_skipped (jp_outcomes p) = [accepted]) as Hrun.
  { rewrite Hp. unfold non_skipped. by rewrite !filter_cons, Ha, Hc. }
  assert (worst_verdict [accepted] = Accepted) as Hw by (unfold worst_verdict; cbn; by rewrite Ha).
  assert (all_accepted p = false) as Hall.
  { unfold all_accepted. rewrite Hp. cbn. rewrite Hc. cbn. by rewrite !andb_false_r. }
  unfold bracket_update, codelink_update, codelink_verdict, icpc_update, icpc_verdict.
  cbn -[icpc_result]. rewrite icpc_non_skipped_result, Hrun, Hall, Hw. unfold icpc_result.
  cbn. rewrite Ha, Hp. cbn. rewrite Hc. cbn. rewrite !andb_false_r. done.
Qed.
