(* ===== verification/JudgingExamples.v ===== *)
(** * JudgingExamples: the judging theorems at work

    A qualifier session of two cases with its documents encoded by
    [Wire], and one instance of each theorem that has hypotheses. *)

From Stdlib Require Import SpecFloat.
From S2P Require Import Prelude Text Float Verdict Sdk Host BracketModel BracketJudge.
From S2P Require Import BracketExamples Judging JudgingContests JudgingProofs.

(** ** An encoding of sessions

    [Wire] writes a value in front of a text and reads it back with what follows. *)

Class Wire (A : Type) := {
  put : A → ustring;
  take_one : ustring → option (A * ustring);
  take_put : ∀ a rest, take_one (put a ++ rest) = Some (a, rest);
}.

#[export] Instance Wire_Z : Wire Z.
Proof.
  refine {| put z := [z]; take_one t := match t with z :: rest => Some (z, rest) | [] => None end |}.
  done.
Defined.

#[export] Instance Wire_prod {A B} `{Wire A, Wire B} : Wire (A * B).
Proof.
  refine {| put p := put p.1 ++ put p.2;
            take_one t := '(a, t) ← take_one t; '(b, t) ← take_one t; Some ((a, b), t) |}.
  intros [a b] rest. rewrite <- app_assoc, take_put. cbn. by rewrite take_put.
Defined.

Fixpoint take_many {A} `{Wire A} (n : nat) (t : ustring) : option (list A * ustring) :=
  match n with
  | O => Some ([], t)
  | S n => '(a, t) ← take_one t; '(l, t) ← take_many n t; Some (a :: l, t)
  end.

#[export] Instance Wire_list {A} `{Wire A} : Wire (list A).
Proof.
  refine {| put l := Z.of_nat (length l) :: concat (map put l);
            take_one t := match t with n :: t => take_many (Z.to_nat n) t | [] => None end |}.
  intros l rest. cbn. rewrite Nat2Z.id. induction l as [|a l IH]; [done|]. cbn.
  rewrite <- app_assoc, take_put. cbn. by rewrite IH.
Defined.

Definition wire_iso {A B} `{Wire B} (f : A → B) (g : B → A) : (∀ a, g (f a) = a) → Wire A.
Proof.
  intros Hg. refine {| put a := put (f a); take_one t := '(b, t) ← take_one t; Some (g b, t) |}.
  intros a rest. rewrite take_put. cbn. by rewrite Hg.
Defined.

#[export] Instance Wire_bool : Wire bool.
Proof. apply (wire_iso Z.b2z (λ z, (z =? 1)%Z)). by intros []. Defined.

#[export] Instance Wire_option {A} `{Wire A} : Wire (option A).
Proof. apply (wire_iso option_list head). by intros []. Defined.

#[export] Instance Wire_gset : Wire (gset Z).
Proof. apply (wire_iso elements list_to_set). intros s. apply list_to_set_elements_L. Defined.

#[export] Instance Wire_f64 : Wire f64.
Proof.
  apply (wire_iso
    (λ x : f64, match x with
                | S754_zero s => (0, s, 0, 0)
                | S754_infinity s => (1, s, 0, 0)
                | S754_nan => (2, false, 0, 0)
                | S754_finite s m e => (3, s, Zpos m, e)
                end)%Z
    (λ p, let '(k, s, m, e) := p in
          match k with
          | 0 => S754_zero s
          | 1 => S754_infinity s
          | 2 => S754_nan
          | _ => S754_finite s (Z.to_pos m) e
          end)%Z).
  by intros [].
Defined.

#[export] Instance Wire_Verdict : Wire Verdict.
Proof.
  apply (wire_iso
    (λ v, match v with
          | Accepted => (0, []) | WrongAnswer => (1, []) | TimeLimitExceeded => (2, [])
          | MemoryLimitExceeded => (3, []) | RuntimeError => (4, []) | SystemError => (5, [])
          | CompileError => (6, []) | Skipped => (7, []) | Cancelled => (8, [])
          | OtherVerdict s => (9, s)
          end)%Z
    (λ p, match p.1 with
          | 0 => Accepted | 1 => WrongAnswer | 2 => TimeLimitExceeded
          | 3 => MemoryLimitExceeded | 4 => RuntimeError | 5 => SystemError
          | 6 => CompileError | 7 => Skipped | 8 => Cancelled
          | _ => OtherVerdict p.2
          end)%Z).
  by intros [].
Defined.

#[export] Instance Wire_CaseOutcome : Wire CaseOutcome.
Proof.
  apply (wire_iso
    (λ o, (co_test_case_id o, co_verdict o, co_score o, co_time_used o, co_memory_used o,
           co_message o, co_stdout o, co_stderr o))
    (λ p, let '(a, b, c, d, e, f, g, h) := p in
      {| co_test_case_id := a; co_verdict := b; co_score := c; co_time_used := d;
         co_memory_used := e; co_message := f; co_stdout := g; co_stderr := h |})).
  by intros [].
Defined.

#[export] Instance Wire_ScoringCase : Wire ScoringCase.
Proof.
  apply (wire_iso
    (λ o, (sc_id o, sc_score o, sc_is_sample o, sc_position o, sc_description o, sc_label o,
           sc_is_custom o))
    (λ p, let '(a, b, c, d, e, f, g) := p in
      {| sc_id := a; sc_score := b; sc_is_sample := c; sc_position := d; sc_description := e;
         sc_label := f; sc_is_custom := g |})).
  by intros [].
Defined.

#[export] Instance Wire_JudgedSubmission : Wire JudgedSubmission.
Proof.
  apply (wire_iso
    (λ r, (js_submission_id r, js_judgement_id r, js_judge_epoch r, js_fire_after_judging r,
           js_user_id r, js_problem_id r, js_contest_id r, js_language r, js_time_limit_ms r,
           js_memory_limit_kb r, js_problem_type r, js_target_worker_id r))
    (λ p, let '(a, b, c, d, e, f, g, h, i, j, k, l) := p in
      {| js_submission_id := a; js_judgement_id := b; js_judge_epoch := c;
         js_fire_after_judging := d; js_user_id := e; js_problem_id := f; js_contest_id := g;
         js_language := h; js_time_limit_ms := i; js_memory_limit_kb := j;
         js_problem_type := k; js_target_worker_id := l |})).
  by intros [].
Defined.

#[export] Instance Wire_CodelinkSession : Wire (DetachedEval CodelinkJudge).
Proof.
  apply (wire_iso
    (λ s : DetachedEval CodelinkJudge,
      (ev_request s, ev_scoring_cases s, ev_outcomes s, ev_recorded_ids s, ev_marked_running s))
    (λ p, let '(a, b, c, d, e) := p in
      {| ev_request := a; ev_scoring_cases := b; ev_outcomes := c; ev_recorded_ids := d;
         ev_marked_running := e; ev_policy := TheCodelinkJudge |})).
  by intros [? ? ? ? ? []].
Defined.

#[export] Instance ex_session_serde : Serde (DetachedEval CodelinkJudge).
Proof.
  refine {| to_json := put;
            from_json t := match take_one t with
                           | Some (s, []) => Ok s
                           | _ => Err (u "invalid document")
                           end |}.
  intros s. by rewrite <- (app_nil_r (put s)), take_put.
Defined.

(** ** A session of two cases *)

Definition ex_submission : JudgedSubmission := {|
  js_submission_id := 40; js_judgement_id := 41; js_judge_epoch := 1; js_fire_after_judging := true;
  js_user_id := 1; js_problem_id := 101; js_contest_id := Some 9; js_language := u "cpp";
  js_time_limit_ms := 1000; js_memory_limit_kb := 65536; js_problem_type := u "standard";
  js_target_worker_id := None |}%Z.

Definition ex_case (i : Z) : ScoringCase := {|
  sc_id := i; sc_score := f_one; sc_is_sample := false; sc_position := i; sc_description := None;
  sc_label := None; sc_is_custom := false |}.

Definition ex_session : DetachedEval CodelinkJudge := {|
  ev_request := ex_submission; ev_scoring_cases := [ex_case 7; ex_case 8]; ev_outcomes := [];
  ev_recorded_ids := ∅; ev_marked_running := false; ev_policy := TheCodelinkJudge |}.

Definition ex_result (i : Z) (v : Verdict) : TestCaseVerdict := {|
  tv_test_case_id := i; tv_verdict := v; tv_score := f_zero; tv_time_used_ms := Some 12%Z;
  tv_memory_used_kb := None; tv_message := None; tv_stdout := None; tv_stderr := None |}.

Definition ex_input (s : DetachedEval CodelinkJudge) (event : DetachedEvaluateCallbackEvent)
    : DetachedEvaluateCallbackInput := {|
  ci_session_id := u "session"; ci_state := to_json s; ci_event := event;
  ci_completed := 1; ci_total := 2 |}.

Definition ex_call (s : DetachedEval CodelinkJudge) (event : DetachedEvaluateCallbackEvent)
    : M DetachedEvaluateCallbackOutput :=
  handle_callback (J := CodelinkJudge) (ex_input s event).

Definition ex_output (s : DetachedEval CodelinkJudge) (event : DetachedEvaluateCallbackEvent) :=
  run (continue_with [] false []) (ex_call s event) (ex_host 0).

Definition ex_after (s : DetachedEval CodelinkJudge) (event : DetachedEvaluateCallbackEvent) : Host :=
  match ex_call s event (ex_host 0) with Some (_, h) => h | None => ex_host 0 end.

(** The first case of [ex_session] was accepted. *)
Definition ex_halfway : DetachedEval CodelinkJudge :=
  with_running (with_outcomes [without_output (binary_outcome (ex_result 7 Accepted))] {[7%Z]}
                  ex_session).

Example ex_continues : out_action (ex_output ex_session (EvResult (ex_result 7 Accepted))) = ActContinue.
Proof. by_vm. Qed.

Example ex_stops : out_action (ex_output ex_session (EvResult (ex_result 7 WrongAnswer))) = ActFinish.
Proof. by_vm. Qed.

Lemma ex_halfway_ok : session_ok ex_halfway.
Proof. split; by_decide. Qed.

Lemma callback_records_once_witness :
  out_action (ex_output ex_halfway (EvResult (ex_result 8 Accepted))) = ActFinish ∧
  ((handle_callback (ex_input ex_halfway (EvResult (ex_result 8 Accepted))) (ex_host 0)
      = Some (Ok (ex_output ex_halfway (EvResult (ex_result 8 Accepted))),
              ex_after ex_halfway (EvResult (ex_result 8 Accepted))) ∧
    ∃ s' new,
      callback_done ex_halfway (ex_host 0) (ex_output ex_halfway (EvResult (ex_result 8 Accepted)))
        (ex_after ex_halfway (EvResult (ex_result 8 Accepted))) s' new ∧
      8%Z ∈ ev_recorded_ids s' ∧
      (8%Z ∈ ev_recorded_ids ex_halfway → new = [] ∧ s' = ex_halfway ∧
         out_action (ex_output ex_halfway (EvResult (ex_result 8 Accepted))) = ActContinue))
   ∨ ex_output ex_halfway (EvResult (ex_result 8 Accepted)) = cancel_with (to_json ex_halfway) ∧ ∃ e h0,
       handle_callback (ex_input ex_halfway (EvResult (ex_result 8 Accepted))) (ex_host 0) = Some (Err e, h0) ∧
       (e = StaleEpoch ∧ (mret tt : M unit) h0 = Some (Ok tt, ex_after ex_halfway (EvResult (ex_result 8 Accepted)))
        ∨ e ≠ StaleEpoch ∧ ∃ h1, (mret tt : M unit) h0 = Some (Ok tt, h1) ∧
            recover (J := CodelinkJudge) (to_json ex_halfway) h1
              = Some (Ok tt, ex_after ex_halfway (EvResult (ex_result 8 Accepted))))).
Proof.
  split; [by_vm|].
  apply (callback_records_once (mret tt) (λ _, mret tt)
           (ex_input ex_halfway (EvResult (ex_result 8 Accepted))) ex_halfway (ex_host 0)).
  - exact ex_halfway_ok.
  - by_decide.
  - reflexivity.
  - by_vm.
Defined.

Lemma ex_session_ok : session_ok ex_session.
Proof. split; by_decide. Qed.

Lemma session_ends_witness :
  ∃ tc, tc ∈ ev_scoring_cases ex_session ∧
    ∀ r, r ∈ [ex_result 7 Accepted] → tv_test_case_id r ≠ sc_id tc.
Proof.
  apply (session_ends ex_session (ex_host 0) [ex_result 7 Accepted] ex_halfway (ex_host 5)).
  - exact ex_session_ok.
  - by_decide.
  - by_vm.
  - apply (continues_cons _ _ (ex_input ex_session (EvResult (ex_result 7 Accepted))) _ _
             (ex_output ex_session (EvResult (ex_result 7 Accepted)))
             ex_halfway (ex_after ex_session (EvResult (ex_result 7 Accepted))) (ex_host 5));
      [reflexivity|reflexivity|by_vm..|apply continues_nil].
Defined.

(** ** A callback that fails *)

(** The host refuses the next update. *)
Definition ex_refusing (e : SdkError) : Host := with_updates [] [Err e] (ex_host 0).

Definition ex_last_result : DetachedEvaluateCallbackInput :=
  ex_input ex_halfway (EvResult (ex_result 8 Accepted)).

Definition ex_refused : Host :=
  match handle_callback (J := CodelinkJudge) ex_last_result (ex_refusing (Database [])) with
  | Some (_, h) => h
  | None => ex_host 0
  end.

Lemma failed_callback_recovers_witness :
  ∃ s' h3,
    extends ex_halfway s' ex_refused h3
      ((λ i, without_output (filled i SystemError EVALUATION_PERSIST_FAILED))
         <$> unrecorded ex_halfway) ∧
    session_ok s' ∧ all_recorded s' = true ∧
    callback_with_recovery (J := CodelinkJudge) (mret tt) (λ _, mret tt) ex_last_result
      (ex_refusing (Database [])) =
      match judge_finalize (ev_policy s') (progress_of None s') h3 with
      | Some (_, h4) => Some (Ok (cancel_with (ci_state ex_last_result)), h4)
      | None => None
      end.
Proof.
  apply (failed_callback_recovers (mret tt) (λ _, mret tt) ex_last_result ex_halfway
           (ex_refusing (Database [])) (Database []) ex_refused ex_refused).
  - exact ex_halfway_ok.
  - by_decide.
  - reflexivity.
  - done.
  - by_vm.
  - done.
  - reflexivity.
  - by_vm.
Defined.

(** Recovery starts from the session before the failed callback, whose row
    may already be stored.  When the last case of an accepted submission is
    delivered and the final update fails once, the case ends with two rows that
    disagree and the submission with a system error. *)
Theorem recovery_duplicates_row (e : SdkError) :
  e ≠ StaleEpoch →
  ∃ h', handle_eval_callback ex_last_result (ex_refusing e)
          = Some (Ok (cancel_with (ci_state ex_last_result)), h') ∧
    ((λ r, (tr_test_case_id r, tr_verdict r)) <$> h_results h')
      = [(Some 8%Z, Accepted); (Some 8%Z, SystemError)] ∧
    (su_verdict <$> last (h_updates h')) = Some (Some (Some SystemError)).
Proof.
  intros He. destruct e;
    [| | |by destruct He|]; (eexists; split; [vm_compute; reflexivity|split; vm_compute; reflexivity]).
Qed.

Lemma recovery_duplicates_row_witness :
  ∃ h', handle_eval_callback ex_last_result (ex_refusing (Database []))
          = Some (Ok (cancel_with (ci_state ex_last_result)), h') ∧
    ((λ r, (tr_test_case_id r, tr_verdict r)) <$> h_results h')
      = [(Some 8%Z, Accepted); (Some 8%Z, SystemError)] ∧
    (su_verdict <$> last (h_updates h')) = Some (Some (Some SystemError)).
Proof. by apply (recovery_duplicates_row (Database [])). Defined.

(** ** A cancelled case *)

Definition ex_progress : JudgeProgress := {|
  jp_submission := ex_submission; jp_scoring_cases := [ex_case 7; ex_case 8];
  jp_outcomes := [binary_outcome (ex_result 7 Accepted); binary_outcome (ex_result 8 Cancelled)];
  jp_last := None; jp_recorded_ids := {[7; 8]}%Z |}.

Lemma cancelled_case_results_witness :
  su_verdict (bracket_update ex_progress) = Some (Some Accepted) ∧
  su_verdict (codelink_update ex_progress) = Some (Some SystemError).
Proof.
  split; by apply (cancelled_case_results ex_progress (binary_outcome (ex_result 7 Accepted))
                     (binary_outcome (ex_result 8 Cancelled))).
Defined.
