(* ===== verification/Ioi.v ===== *)
(** * Ioi: subtasks and the judging of IOI contests

    plugins/ioi/src/config.rs, subtasks.rs, evaluate_batch.rs, judge.rs, persist.rs
    and score.rs ([run_judge]): a submission is scored by subtasks, and a case
    whose subtasks are all lost already is skipped.  Configuration documents are
    answers of the host ([IoiDb]). *)

From S2P Require Import Prelude Text Float Verdict Sdk Host.
From S2P Require Import BracketModel BracketJudge Judging JudgingContests.

Open Scope machine_scope.

(** ** Configuration (config.rs) *)

Inductive ScoringMode := MaxSubmission | SumBestSubtask | BestTokenedOrLast.
Inductive FeedbackLevel := Full | SubtaskScores | TotalOnly | NoFeedback.
Inductive ScoreboardVisibility := AdminsOnly | AllContestViewers.
Inductive ScoreboardTiebreaker := EqualRank | SumScoreTime | MaxScoreTime.
Inductive TokenMode := NoTokens | FixedBudget | Regenerating.
Inductive SubtaskScoringMethod := GroupMin | Sum | GroupMul.

#[global] Instance FeedbackLevel_eq_dec : EqDecision FeedbackLevel.
Proof. solve_decision. Defined.
#[global] Instance ScoreboardVisibility_eq_dec : EqDecision ScoreboardVisibility.
Proof. solve_decision. Defined.
#[global] Instance TokenMode_eq_dec : EqDecision TokenMode.
Proof. solve_decision. Defined.
#[global] Instance SubtaskScoringMethod_eq_dec : EqDecision SubtaskScoringMethod.
Proof. solve_decision. Defined.

Record TokenConfig := {
  tk_mode : TokenMode;
  tk_initial : Z;
  tk_max : Z;
  tk_regen_interval_min : Z;
}.

Record ContestConfig := {
  scoring_mode : ScoringMode;
  feedback_level : FeedbackLevel;
  scoreboard_visibility : ScoreboardVisibility;
  scoreboard_tiebreaker : ScoreboardTiebreaker;
  tokens : TokenConfig;
}.

(** [ContestConfig::default()]. *)
Definition config_default : ContestConfig := {|
  scoring_mode := MaxSubmission;
  feedback_level := Full;
  scoreboard_visibility := AdminsOnly;
  scoreboard_tiebreaker := MaxScoreTime;
  tokens := {| tk_mode := NoTokens; tk_initial := 0; tk_max := 0; tk_regen_interval_min := 0 |};
|}.

Record SubtaskDef := {
  sd_name : ustring;
  sd_scoring_method : SubtaskScoringMethod;
  sd_max_score : f64;
  sd_test_cases : list ustring;
}.

Definition TaskConfig : Type := list SubtaskDef.

Definition resolve_tc_label (tc : TestCaseRow) : ustring :=
  match tc_label tc with
  | Some l => if decide (l = []) then show (tc_id tc) else l
  | None => show (tc_id tc)
  end.

Definition round_score (v : f64) : f64 :=
  f_div (f_round (f_mul v (f_of_Z 100))) (f_of_Z 100).

(** ** Subtasks (subtasks.rs) *)

Record SubtaskResult := { sr_name : ustring; sr_score : f64; sr_max_score : f64 }.

Definition test_case_reference_keys (tc : TestCaseRow) : list ustring :=
  let label := resolve_tc_label tc in
  let id := show (tc_id tc) in
  if decide (label = id) then [id] else [label; id].

(** [insert] of the same value under each key. *)
Definition insert_keys (keys : list ustring) (x : f64) (m : gmap ustring f64) : gmap ustring f64 :=
  foldl (λ m key, <[key := x]> m) m keys.

Definition test_case_weights (test_cases : list TestCaseRow) : gmap ustring f64 :=
  foldl (λ m tc, insert_keys (test_case_reference_keys tc) (tc_score tc) m) ∅ test_cases.

(** [entry(key).or_insert(x)] for each key. *)
Definition or_insert_keys (keys : list ustring) (x : f64) (m : gmap ustring f64)
    : gmap ustring f64 :=
  foldl (λ m key, match m !! key with Some _ => m | None => <[key := x]> m end) m keys.

Definition scores_by_all_keys (test_cases : list TestCaseRow) (tc_scores : gmap ustring f64)
    : gmap ustring f64 :=
  foldl (λ out tc,
    match tc_scores !! resolve_tc_label tc with
    | Some score => or_insert_keys (test_case_reference_keys tc) score out
    | None => out
    end) tc_scores test_cases.

Definition raw_of (tc_scores : gmap ustring f64) (label : ustring) : f64 :=
  default f_zero (tc_scores !! label).

(** The weighted mean: total weight and weighted sum; weights that are not
    positive do not count. *)
Definition add_weighted (weights tc_scores : gmap ustring f64) (acc : f64 * f64) (label : ustring)
    : f64 * f64 :=
  let weight := default f_one (weights !! label) in
  if f_leb weight f_zero then acc
  else (f_add acc.1 weight, f_add acc.2 (f_mul (raw_of tc_scores label) weight)).

Definition score_subtask_with_weights (def : SubtaskDef) (weights tc_scores : gmap ustring f64)
    : SubtaskResult :=
  let score :=
    if decide (sd_test_cases def = []) then f_zero
    else
      match sd_scoring_method def with
      | GroupMin =>
          if forallb (λ label, f_leb f_one (raw_of tc_scores label)) (sd_test_cases def)
          then sd_max_score def else f_zero
      | Sum =>
          let '(total_weight, weighted_sum) :=
            foldl (add_weighted weights tc_scores) (f_zero, f_zero) (sd_test_cases def) in
          if f_ltb f_zero total_weight
          then f_mul (sd_max_score def) (f_div weighted_sum total_weight) else f_zero
      | GroupMul =>
          f_mul (sd_max_score def) (f_product (raw_of tc_scores <$> sd_test_cases def))
      end in
  {| sr_name := sd_name def; sr_score := round_score score; sr_max_score := sd_max_score def |}.

Definition score_subtask (def : SubtaskDef) (test_cases : list TestCaseRow)
    (tc_scores : gmap ustring f64) : SubtaskResult :=
  score_subtask_with_weights def (test_case_weights test_cases)
    (scores_by_all_keys test_cases tc_scores).

Definition score_all_subtasks (defs : list SubtaskDef) (test_cases : list TestCaseRow)
    (tc_scores : gmap ustring f64) : list SubtaskResult :=
  let weights := test_case_weights test_cases in
  let tc_scores := scores_by_all_keys test_cases tc_scores in
  (λ def, score_subtask_with_weights def weights tc_scores) <$> defs.

(** Samples, cases worth points and cases a subtask names are evaluated. *)
Definition is_scoring_case (subtask_labels : list ustring) (tc : TestCaseRow) : bool :=
  tc_is_sample tc || f_ltb f_zero (tc_score tc)
  || existsb (λ key, bool_decide (key ∈ subtask_labels)) (test_case_reference_keys tc).

Definition compute_scoring_test_case_ids (subtask_defs : list SubtaskDef)
    (test_cases : list TestCaseRow) : list Z :=
  tc_id <$> filter (λ tc, is_scoring_case (subtask_defs ≫= sd_test_cases) tc = true) test_cases.

Definition build_default_subtasks (test_cases : list TestCaseRow) : list SubtaskDef :=
  let scoring := filter (λ tc, negb (tc_is_sample tc) && f_ltb f_zero (tc_score tc) = true) test_cases in
  if decide (scoring = []) then []
  else [{| sd_name := u "All Tests"; sd_scoring_method := Sum;
           sd_max_score := f_sum (tc_score <$> scoring);
           sd_test_cases := resolve_tc_label <$> scoring |}].

(** ** Skipping what cannot matter (evaluate_batch.rs) *)

Definition normalize_raw_score (score : f64) : f64 :=
  if is_finite score then f_clamp f_zero f_one score else f_zero.

Record SubtaskShortCircuit := {
  sc_methods : list SubtaskScoringMethod;
  sc_subtask_cases : list (gset Z);
  sc_case_subtasks : gmap Z (list nat);
  sc_failed_subtasks : gset nat;
  sc_active_cases : gset Z;
  sc_sample_cases : gset Z;
  sc_test_case_order : list Z;
}.

Definition with_progress (failed : gset nat) (active : gset Z) (s : SubtaskShortCircuit)
    : SubtaskShortCircuit := {|
  sc_methods := sc_methods s; sc_subtask_cases := sc_subtask_cases s;
  sc_case_subtasks := sc_case_subtasks s; sc_failed_subtasks := failed; sc_active_cases := active;
  sc_sample_cases := sc_sample_cases s; sc_test_case_order := sc_test_case_order s |}.

(** The cases each key stands for, in order. *)
Definition key_to_ids (test_cases : list TestCaseRow) : gmap ustring (list Z) :=
  foldl (λ m tc, foldl (λ m key, <[key := default [] (m !! key) ++ [tc_id tc]]> m) m
                   (test_case_reference_keys tc)) ∅ test_cases.

(** One case enters a subtask: the cases of the subtask, the subtasks of the case. *)
Definition add_member (idx : nat) (acc : gset Z * gmap Z (list nat)) (id : Z)
    : gset Z * gmap Z (list nat) :=
  let '(cases, subtasks) := acc in
  if decide (id ∈ cases) then acc
  else ({[id]} ∪ cases, <[id := default [] (subtasks !! id) ++ [idx]]> subtasks).

Definition members_of (ids : gmap ustring (list Z)) (def : SubtaskDef) : list Z :=
  sd_test_cases def ≫= (λ key, default [] (ids !! key)).

Fixpoint add_subtasks (ids : gmap ustring (list Z)) (idx : nat) (defs : list SubtaskDef)
    (subtasks : gmap Z (list nat)) : list (gset Z) * gmap Z (list nat) :=
  match defs with
  | [] => ([], subtasks)
  | def :: defs =>
      let '(cases, subtasks) := foldl (add_member idx) (∅, subtasks) (members_of ids def) in
      let '(rest, subtasks) := add_subtasks ids (S idx) defs subtasks in
      (cases :: rest, subtasks)
  end.

Definition new_short_circuit (subtask_defs : list SubtaskDef) (test_cases : list TestCaseRow)
    : SubtaskShortCircuit :=
  let '(subtask_cases, case_subtasks) :=
    add_subtasks (key_to_ids test_cases) 0 subtask_defs ∅ in
  {| sc_methods := sd_scoring_method <$> subtask_defs;
     sc_subtask_cases := subtask_cases;
     sc_case_subtasks := case_subtasks;
     sc_failed_subtasks := ∅;
     sc_active_cases := list_to_set (tc_id <$> test_cases);
     sc_sample_cases := list_to_set (tc_id <$> filter (λ tc, tc_is_sample tc = true) test_cases);
     sc_test_case_order := tc_id <$> test_cases |}.

Definition result_fails_method (s : SubtaskShortCircuit) (idx : nat) (raw_score : f64) : bool :=
  match sc_methods s !! idx with
  | Some GroupMin => f_ltb raw_score f_one
  | Some GroupMul => f_leb raw_score f_zero
  | Some Sum | None => false
  end.

Definition method_can_short_circuit (s : SubtaskShortCircuit) (idx : nat) : bool :=
  match sc_methods s !! idx with Some GroupMin | Some GroupMul => true | _ => false end.

Definition subtasks_of (s : SubtaskShortCircuit) (id : Z) : list nat :=
  default [] (sc_case_subtasks s !! id).

Definition failing_subtasks_for (s : SubtaskShortCircuit) (id : Z) (raw_score : f64) : gset nat :=
  list_to_set (filter (λ idx, result_fails_method s idx raw_score = true) (subtasks_of s id)).

Definition only_needed_by_failed (s : SubtaskShortCircuit) (id : Z) (failed : gset nat) : bool :=
  match sc_case_subtasks s !! id with
  | Some subtasks =>
      forallb (λ idx, method_can_short_circuit s idx && bool_decide (idx ∈ failed)) subtasks
  | None => false
  end.

Definition cancellable_cases_for_failure (s : SubtaskShortCircuit) (failed_id : Z) (failed : gset nat)
    : list Z :=
  match sc_case_subtasks s !! failed_id with
  | None => []
  | Some subtasks =>
      let newly_failed_cases : gset Z :=
        ⋃ ((λ idx, default ∅ (sc_subtask_cases s !! idx))
             <$> filter (λ idx, method_can_short_circuit s idx = true) subtasks) in
      filter (λ id, id ∈ sc_active_cases s ∧ id ∉ sc_sample_cases s ∧ id ∈ newly_failed_cases
                    ∧ only_needed_by_failed s id failed = true)
        (sc_test_case_order s)
  end.

Definition cancellable_after (id : Z) (raw_score : f64) (already_recorded : gset Z)
    (s : SubtaskShortCircuit) : SubtaskShortCircuit * list Z :=
  let s := with_progress (sc_failed_subtasks s) (sc_active_cases s ∖ {[id]}) s in
  let failing := failing_subtasks_for s id raw_score in
  if decide (failing = ∅) then (s, [])
  else
    let s := with_progress (sc_failed_subtasks s ∪ failing) (sc_active_cases s) s in
    (s, filter (λ i, i ∉ already_recorded)
          (cancellable_cases_for_failure s id (sc_failed_subtasks s))).

Definition mark_cancelled (ids : list Z) (s : SubtaskShortCircuit) : SubtaskShortCircuit :=
  with_progress (sc_failed_subtasks s) (sc_active_cases s ∖ list_to_set ids) s.

(** ** Storing the result (persist.rs)

    The log line of the result is left out. *)

Record EvalOutcome := {
  io_test_case_id : Z;
  io_verdict : Verdict;
  io_raw_score : f64;
  io_time_used : option Z;
  io_memory_used : option Z;
  io_message : option ustring;
  io_stdout : option ustring;
  io_stderr : option ustring;
}.

Definition eval_outcome_from_case (o : CaseOutcome) : EvalOutcome := {|
  io_test_case_id := co_test_case_id o;
  io_verdict := co_verdict o;
  io_raw_score := co_score o;
  io_time_used := co_time_used o;
  io_memory_used := co_memory_used o;
  io_message := co_message o;
  io_stdout := None;
  io_stderr := None |}.

Definition results_verdict (non_skipped : list EvalOutcome) : Verdict :=
  if decide (non_skipped = []) then SystemError
  else default SystemError (max_by_key severity (io_verdict <$> non_skipped)).

Definition results_update (submission_id judgement_id judge_epoch : Z) (outcomes : list EvalOutcome)
    (submission_score : f64) : SubmissionUpdate :=
  let non_skipped := filter (λ o, is_skipped_or_cancelled (io_verdict o) = false) outcomes in
  let verdict := results_verdict non_skipped in
  let is_ce := bool_decide (verdict = CompileError) in
  {| su_submission_id := submission_id;
     su_judgement_id := judgement_id;
     su_judge_epoch := judge_epoch;
     su_status := Some (if is_ce then CompilationError else Judged);
     su_verdict := Some (if is_ce then None else Some verdict);
     su_score := Some (if decide (non_skipped = []) then f_zero else round_score submission_score);
     su_time_used := Some (max_by_key id (omap io_time_used non_skipped));
     su_memory_used := Some (max_by_key id (omap io_memory_used non_skipped));
     su_compile_output :=
       Some (if is_ce
             then o ← list_find (λ o, io_verdict o = CompileError) outcomes; io_message o.2
             else None);
     su_error_code := None;
     su_error_message := None |}.

Definition persist_results (submission_id judgement_id judge_epoch : Z) (outcomes : list EvalOutcome)
    (submission_score : f64) : M OnSubmissionOutput :=
  _ ← update_or_stale
        (results_update submission_id judgement_id judge_epoch outcomes submission_score);
  mret judged_output.

(** ** The contest type *)

Record IoiJudge := {
  ij_all_test_cases : list TestCaseRow;
  ij_subtask_defs : list SubtaskDef;
  ij_short_circuit : SubtaskShortCircuit;
}.

Definition with_short_circuit (s : SubtaskShortCircuit) (j : IoiJudge) : IoiJudge := {|
  ij_all_test_cases := ij_all_test_cases j;
  ij_subtask_defs := ij_subtask_defs j;
  ij_short_circuit := s |}.

Definition ioi_next_step (j : IoiJudge) (p : JudgeProgress) : IoiJudge * JudgeStep :=
  match jp_last p with
  | None => (j, Continue)
  | Some last =>
      let already_recorded := list_to_set (co_test_case_id <$> jp_outcomes p) in
      let '(s, cancel_ids) :=
        cancellable_after (co_test_case_id last) (co_score last) already_recorded
          (ij_short_circuit j) in
      if decide (cancel_ids = []) then (with_short_circuit s j, Continue)
      else (with_short_circuit (mark_cancelled cancel_ids s) j, Cancel cancel_ids)
  end.

(** The keys of each case; a later row of the same id replaces an earlier one. *)
Definition id_to_keys (test_cases : list TestCaseRow) : gmap Z (list ustring) :=
  foldl (λ m tc, <[tc_id tc := test_case_reference_keys tc]> m) ∅ test_cases.

(** The scores of the outcomes that count, under every key of their case. *)
Definition outcome_scores (keys : gmap Z (list ustring)) (outcomes : list CaseOutcome)
    : gmap ustring f64 :=
  foldl (λ m o, insert_keys (default [] (keys !! co_test_case_id o)) (co_score o) m) ∅
    (non_skipped outcomes).

(** The score of a submission with these outcomes. *)
Definition submission_score (j : IoiJudge) (outcomes : list CaseOutcome) : f64 :=
  let tc_scores := outcome_scores (id_to_keys (ij_all_test_cases j)) outcomes in
  let results := score_all_subtasks (ij_subtask_defs j) (ij_all_test_cases j) tc_scores in
  round_score (f_sum (sr_score <$> results)).

#[export] Instance IoiJudge_judge : ContestJudge IoiJudge := {
  judge_score _ r := from_verdict r (normalize_raw_score (tv_score r));
  db_score _ outcome tc := round_score (f_mul (co_score outcome) (sc_score tc));
  next_step := ioi_next_step;
  judge_finalize j p :=
    let req := jp_submission p in
    _ ← persist_results (js_submission_id req) (js_judgement_id req) (js_judge_epoch req)
          (eval_outcome_from_case <$> jp_outcomes p) (submission_score j (jp_outcomes p));
    mret tt;
}.

(** ** Judging a submission (judge.rs, score.rs, lib.rs) *)

Definition without_bodies (tc : TestCaseRow) : TestCaseRow := {|
  tc_id := tc_id tc; tc_score := tc_score tc; tc_is_sample := tc_is_sample tc;
  tc_position := tc_position tc; tc_description := tc_description tc; tc_label := tc_label tc;
  tc_input := Missing; tc_expected_output := Missing; tc_is_custom := tc_is_custom tc |}.

Definition ioi_policy (all_test_cases scoring_test_cases : list TestCaseRow)
    (subtask_defs : list SubtaskDef) : IoiJudge := {|
  ij_all_test_cases := without_bodies <$> all_test_cases;
  ij_subtask_defs := subtask_defs;
  ij_short_circuit := new_short_circuit subtask_defs scoring_test_cases |}.

Section judging.
Context `{Serde (DetachedEval IoiJudge)}.

Definition evaluate_all_detached (req : OnSubmissionInput)
    (all_test_cases scoring_test_cases : list TestCaseRow) (subtask_defs : list SubtaskDef)
    : M OnSubmissionOutput :=
  _ ← start req scoring_test_cases
        (ioi_policy all_test_cases scoring_test_cases subtask_defs)
        (u "on_ioi_eval_result") 4;
  mret judged_output.

(** The update for a submission nothing is evaluated for. *)
Definition nothing_to_judge (req : OnSubmissionInput) : SubmissionUpdate := {|
  su_submission_id := os_submission_id req;
  su_judgement_id := os_judgement_id req;
  su_judge_epoch := os_judge_epoch req;
  su_status := Some Judged;
  su_verdict := Some (Some Accepted);
  su_score := Some f_zero;
  su_time_used := Some None;
  su_memory_used := Some None;
  su_compile_output := None;
  su_error_code := None;
  su_error_message := None |}.

Definition judge_with_context_detached (req : OnSubmissionInput) (test_cases : list TestCaseRow)
    (subtask_defs : list SubtaskDef) : M OnSubmissionOutput :=
  if decide (test_cases = []) then
    _ ← log_info (u "No test cases found, marking as judged with score 0");
    _ ← update_or_stale (nothing_to_judge req);
    mret judged_output
  else
    let scoring_ids : gset Z := list_to_set (compute_scoring_test_case_ids subtask_defs test_cases) in
    let scoring := filter (λ tc, tc_id tc ∈ scoring_ids) test_cases in
    if decide (scoring = []) then
      _ ← ignore_error (Submissions.delete_results (os_submission_id req)
                          (os_judgement_id req) (os_judge_epoch req));
      _ ← update_or_stale (nothing_to_judge req);
      mret judged_output
    else evaluate_all_detached req test_cases scoring subtask_defs.

(** The answers of the configuration. *)
Record IoiDb := {
  io_config : Z → sdk ContestConfig;
  io_task_config : Z → Z → sdk TaskConfig;
}.

Definition effective_subtasks (test_cases : list TestCaseRow) (config : TaskConfig)
    : list SubtaskDef :=
  if decide (config = []) then build_default_subtasks test_cases else config.

Definition run_judge (db : IoiDb) (req : OnSubmissionInput) (contest_id : Z) : M OnSubmissionOutput :=
  _ ← lift (io_config db contest_id);
  task_config ← lift (io_task_config db contest_id (os_problem_id req));
  judge_with_context_detached req (os_test_cases req)
    (effective_subtasks (os_test_cases req) task_config).

Definition handle_ioi_submission (db : IoiDb) (req : OnSubmissionInput) : M OnSubmissionOutput :=
  match os_contest_id req with
  | None => mret {| oo_success := false;
                    oo_error_message := Some (u "IOI plugin requires contest_id") |}
  | Some contest_id =>
      _ ← log_info (u "IOI: Judging submission " ++ show (os_submission_id req) ++ u " for problem "
                    ++ show (os_problem_id req) ++ u " in contest " ++ show contest_id);
      answer debug_error (run_judge db req contest_id)
  end.

Definition on_ioi_eval_result (input : DetachedEvaluateCallbackInput)
    : M DetachedEvaluateCallbackOutput :=
  callback_with_recovery (J := IoiJudge)
    (log_info (u "IOI: detached callback epoch stale, cancelling"))
    (λ e, log_info (u "IOI: detached callback failed (" ++ debug_error e
                    ++ u "); finalizing as SystemError")) input.
End judging.
