(* ===== verification/IoiProofs.v ===== *)
(** * IoiProofs: skipping cases does not change the score

    The judge of an IOI contest cancels cases once every subtask that needs them
    is lost.  The score of the submission is the one it would have had with every
    case evaluated, as long as no two cases share a reference key. *)

From Stdlib Require Import SpecFloat.
From S2P Require Import Prelude Text Float Verdict Sdk Host.
From S2P Require Import BracketModel BracketJudge Judging JudgingContests JudgingProofs Ioi.

(** ** The session of an IOI submission obeys the laws of sessions *)

#[export] Instance IoiJudge_laws : JudgeLaws IoiJudge.
Proof.
  unshelve econstructor.
  - exact (λ j, NoDup (sc_test_case_order (ij_short_circuit j))).
  - intros j p j' step Hj. cbn. unfold ioi_next_step, cancellable_after.
    destruct (jp_last p); [|by intros [= <- _]]. cbv zeta.
    repeat case_decide; intros [= <- _]; exact Hj.
  - done.
  - intros j p j' ids Hj Hrec. cbn. unfold ioi_next_step, cancellable_after.
    destruct (jp_last p) as [o|]; [|done]. cbv zeta.
    case_decide; [by case_decide|]. case_decide as Hids; [done|]. intros [= _ <-].
    split; [|intros i [Hi _]%list_elem_of_filter; by rewrite Hrec].
    apply NoDup_filter. unfold cancellable_cases_for_failure. case_match; [|constructor].
    by apply NoDup_filter.
  - intros j p j'. cbn. unfold ioi_next_step. destruct (jp_last p); [|done].
    destruct (cancellable_after _ _ _ _). by case_decide.
Defined.

(** ** Scores by key *)

(** No two cases can be meant by the same key. *)
Definition keys_distinct (test_cases : list TestCaseRow) : Prop :=
  NoDup (test_cases ≫= test_case_reference_keys).

Lemma keys_distinct_eq tcs tc tc' k :
  keys_distinct tcs → tc ∈ tcs → tc' ∈ tcs →
  k ∈ test_case_reference_keys tc → k ∈ test_case_reference_keys tc' → tc = tc'.
Proof.
  unfold keys_distinct. intros Hnd Htc Htc' Hk Hk'.
  induction tcs as [|t tcs IH]; [by apply not_elem_of_nil in Htc|].
  cbn in Hnd. apply NoDup_app in Hnd as (_ & Hno & Hnd).
  assert (∀ t' : TestCaseRow, t' ∈ tcs → k ∈ test_case_reference_keys t' →
            k ∈ tcs ≫= test_case_reference_keys) as Hin.
  { intros t' Ht' Hkt. apply list_elem_of_bind. eauto. }
  apply elem_of_cons in Htc as [-> |Htc], Htc' as [-> |Htc']; [done|..|by apply IH].
  - by destruct (Hno k Hk (Hin _ Htc' Hk')).
  - by destruct (Hno k Hk' (Hin _ Htc Hk)).
Qed.

Lemma id_key tc : show (tc_id tc) ∈ test_case_reference_keys tc.
Proof. unfold test_case_reference_keys. case_decide; set_solver. Qed.

Lemma label_key tc : resolve_tc_label tc ∈ test_case_reference_keys tc.
Proof. unfold test_case_reference_keys. case_decide as E; [rewrite E|]; set_solver. Qed.

Lemma keys_distinct_id tcs tc tc' :
  keys_distinct tcs → tc ∈ tcs → tc' ∈ tcs → tc_id tc = tc_id tc' → tc = tc'.
Proof.
  intros Hd H1 H2 E. eapply keys_distinct_eq; [exact Hd|done|done|apply id_key|].
  rewrite E. apply id_key.
Qed.

Lemma insert_keys_lookup keys x m k :
  insert_keys keys x m !! k = if decide (k ∈ keys) then Some x else m !! k.
Proof.
  unfold insert_keys. revert m. induction keys as [|k' keys IH]; intros m; cbn; [done|].
  rewrite IH. repeat case_decide; try set_solver.
  - assert (k = k') as -> by set_solver. by rewrite lookup_insert_eq.
  - rewrite lookup_insert_ne; [done|set_solver].
Qed.

Lemma last_snoc_filter {A} (P : A → Prop) `{!∀ x, Decision (P x)} l x :
  last (filter P (l ++ [x])) = if decide (P x) then Some x else last (filter P l).
Proof.
  rewrite filter_app, filter_cons, filter_nil. case_decide; [apply last_snoc|by rewrite app_nil_r].
Qed.

Lemma outcome_scores_lookup keys outcomes k :
  outcome_scores keys outcomes !! k =
  co_score <$> last (filter (λ o, k ∈ default [] (keys !! co_test_case_id o)) (non_skipped outcomes)).
Proof.
  unfold outcome_scores. induction (non_skipped outcomes) as [|o l IH] using rev_ind; [done|].
  rewrite foldl_snoc, last_snoc_filter, insert_keys_lookup. by case_decide.
Qed.

Lemma id_to_keys_lookup tcs id keys :
  id_to_keys tcs !! id = Some keys →
  ∃ tc, tc ∈ tcs ∧ tc_id tc = id ∧ keys = test_case_reference_keys tc.
Proof.
  unfold id_to_keys. induction tcs as [|tc tcs IH] using rev_ind; [done|]. rewrite foldl_snoc.
  destruct (decide (id = tc_id tc)) as [-> |Hne].
  - rewrite lookup_insert_eq. intros [= <-]. exists tc. set_solver.
  - rewrite lookup_insert_ne by done. intros (tc' & ? & ? & ?)%IH. exists tc'. set_solver.
Qed.

Lemma id_to_keys_of tcs tc :
  keys_distinct tcs → tc ∈ tcs → id_to_keys tcs !! tc_id tc = Some (test_case_reference_keys tc).
Proof.
  intros Hd Htc. destruct (id_to_keys tcs !! tc_id tc) as [keys|] eqn:E.
  - destruct (id_to_keys_lookup _ _ _ E) as (tc' & Htc' & Hid & ->).
    by rewrite (keys_distinct_id _ _ _ Hd Htc' Htc Hid).
  - exfalso. unfold id_to_keys in E. clear Hd. induction tcs as [|t tcs IH] using rev_ind; [set_solver|].
    rewrite foldl_snoc in E. destruct (decide (tc_id tc = tc_id t)) as [Hid|Hne].
    { by rewrite Hid, lookup_insert_eq in E. }
    rewrite lookup_insert_ne in E by done. apply IH; [|done]. set_solver.
Qed.

(** The score that counts for a case. *)
Definition counted_score (outcomes : list CaseOutcome) (id : Z) : option f64 :=
  co_score <$> last (filter (λ o, co_test_case_id o = id) (non_skipped outcomes)).

Section scores.
Context (all : list TestCaseRow) (Hdistinct : keys_distinct all).

Lemma key_score outcomes tc k :
  tc ∈ all → k ∈ test_case_reference_keys tc →
  outcome_scores (id_to_keys all) outcomes !! k = counted_score outcomes (tc_id tc).
Proof.
  intros Htc Hk. rewrite outcome_scores_lookup. unfold counted_score. do 2 f_equal.
  apply filter_ext_elem. intros o _. split.
  - destruct (id_to_keys all !! co_test_case_id o) as [keys|] eqn:E; [|set_solver]. cbn. intros Hko.
    destruct (id_to_keys_lookup _ _ _ E) as (tc' & Htc' & <- & ->).
    by rewrite (keys_distinct_eq _ _ _ k Hdistinct Htc' Htc Hko Hk).
  - intros ->. by rewrite (id_to_keys_of _ _ Hdistinct Htc).
Qed.

Lemma unknown_key outcomes k :
  (∀ tc, tc ∈ all → k ∉ test_case_reference_keys tc) →
  outcome_scores (id_to_keys all) outcomes !! k = None.
Proof.
  intros Hno. rewrite outcome_scores_lookup.
  rewrite (filter_none (λ o, k ∈ default [] (id_to_keys all !! co_test_case_id o))); [done|].
  intros o _. destruct (id_to_keys all !! co_test_case_id o) as [keys|] eqn:E; [|set_solver].
  destruct (id_to_keys_lookup _ _ _ E) as (tc & Htc & _ & ->). by apply Hno.
Qed.

Lemma or_insert_present (keys : list ustring) (x : f64) (m : gmap ustring f64) :
  (∀ k, k ∈ keys → is_Some (m !! k)) → or_insert_keys keys x m = m.
Proof.
  unfold or_insert_keys. induction keys as [|k keys IH]; intros Hk; cbn; [done|].
  destruct (Hk k) as [y ->]; [set_solver|]. apply IH. set_solver.
Qed.

(** Outcomes are entered under every key, so nothing is added. *)
Lemma scores_already_by_key outcomes :
  scores_by_all_keys all (outcome_scores (id_to_keys all) outcomes)
  = outcome_scores (id_to_keys all) outcomes.
Proof.
  set (m := outcome_scores _ _). unfold scores_by_all_keys.
  assert (∀ l, (∀ tc, tc ∈ l → tc ∈ all) →
    foldl (λ out tc, match m !! resolve_tc_label tc with
                     | Some score => or_insert_keys (test_case_reference_keys tc) score out
                     | None => out
                     end) m l = m) as Hall; [|by apply Hall].
  induction l as [|tc l IH]; intros Hl; cbn; [done|].
  destruct (m !! resolve_tc_label tc) as [x|] eqn:E; [|apply IH; set_solver].
  rewrite or_insert_present; [apply IH; set_solver|].
  assert (tc ∈ all) as Htc by (apply Hl; set_solver).
  intros k Hk. subst m. rewrite (key_score _ tc) in E |- * by (try done; apply label_key). eauto.
Qed.
End scores.

(** ** The score of one subtask *)

Lemma f_ltb_leb x y : f_ltb x y = true → f_leb y x = false.
Proof.
  unfold f_ltb, f_leb, SFltb, SFleb. destruct x as [[]|[]| |[] m e], y as [[]|[]| |[] m' e']; cbn; try done.
  all: rewrite (Z.compare_antisym e e'); destruct (Z.compare e e'); cbn; try done.
  all: change (Pos.compare_cont Eq ?a ?b) with (Pos.compare a b).
  all: rewrite (Pos.compare_antisym m m'); by destruct (Pos.compare m m').
Qed.

Lemma f_leb_zero_unit x : in_unit x → f_leb x f_zero = true → is_zero x.
Proof. by destruct x as [| | |[]]. Qed.

(** Two score tables that agree on the cases of a subtask. *)
Lemma subtask_same_scores def w m m' :
  (∀ k, k ∈ sd_test_cases def → raw_of m k = raw_of m' k) →
  score_subtask_with_weights def w m = score_subtask_with_weights def w m'.
Proof.
  intros Hk. unfold score_subtask_with_weights. f_equal. f_equal. case_decide; [done|].
  destruct (sd_scoring_method def).
  - assert (∀ l, (∀ k, k ∈ l → raw_of m k = raw_of m' k) →
      forallb (λ label, f_leb f_one (raw_of m label)) l
      = forallb (λ label, f_leb f_one (raw_of m' label)) l) as E; [|by rewrite (E _ Hk)].
    induction l as [|k l IH]; intros Hl; cbn; [done|]. rewrite Hl, IH; set_solver.
  - assert (∀ l acc, (∀ k, k ∈ l → raw_of m k = raw_of m' k) →
      foldl (add_weighted w m) acc l = foldl (add_weighted w m') acc l) as E; [|by rewrite (E _ _ Hk)].
    induction l as [|k l IH]; intros acc Hl; cbn; [done|].
    rewrite IH by set_solver. f_equal. unfold add_weighted. rewrite Hl by set_solver. done.
  - do 2 f_equal. apply list_fmap_ext. intros i k Hi. apply Hk. by eapply list_elem_of_lookup_2.
Qed.

(** A group with a case that fails its method is worth nothing. *)
Definition fails (method : SubtaskScoringMethod) (raw : f64) : Prop :=
  match method with
  | GroupMin => f_ltb raw f_one = true
  | GroupMul => f_leb raw f_zero = true
  | Sum => False
  end.

Lemma lost_subtask def w m k :
  (∀ label, in_unit (raw_of m label)) → k ∈ sd_test_cases def →
  fails (sd_scoring_method def) (raw_of m k) →
  f_same (sr_score (score_subtask_with_weights def w m)) 
    (round_score (match sd_scoring_method def with GroupMul => f_mul (sd_max_score def) f_zero | _ => f_zero end)).
Proof.
  intros Hunit Hk Hfail. unfold score_subtask_with_weights. cbn.
  rewrite decide_False by (intros E; rewrite E in Hk; by apply not_elem_of_nil in Hk).
  destruct (sd_scoring_method def); [| |]; cbn in Hfail.
  - destruct (forallb _ _) eqn:E; [|done]. exfalso. rewrite forallb_forall in E.
    specialize (E k (proj1 (list_elem_of_In _ _) Hk)). by rewrite (f_ltb_leb _ _ Hfail) in E.
  - done.
  - unfold round_score. apply f_same_div; [|done]. apply f_same_round. apply f_same_mul; [|done].
    apply f_same_mul; [done|]. right. split; [|done]. apply product_zero.
    + apply Forall_forall. intros x (label & -> & _)%list_elem_of_fmap. apply Hunit.
    + apply Exists_exists. exists (raw_of m k). split; [by apply list_elem_of_fmap_2|].
      apply f_leb_zero_unit; [apply Hunit|done].
Qed.

(** ** What the tables of the short circuit mean *)

(** The case [id] belongs to the subtask at [idx]. *)
Definition member (defs : list SubtaskDef) (tcs : list TestCaseRow) (idx : nat) (id : Z) : Prop :=
  ∃ def tc k, defs !! idx = Some def ∧ tc ∈ tcs ∧ tc_id tc = id ∧
    k ∈ sd_test_cases def ∧ k ∈ test_case_reference_keys tc.

Lemma key_to_ids_lookup tcs k id :
  id ∈ default [] (key_to_ids tcs !! k) ↔
  ∃ tc, tc ∈ tcs ∧ tc_id tc = id ∧ k ∈ test_case_reference_keys tc.
Proof.
  unfold key_to_ids. induction tcs as [|tc tcs IH] using rev_ind.
  { cbn. rewrite lookup_empty. cbn. set_solver. }
  rewrite foldl_snoc. set (m := foldl _ ∅ tcs) in *.
  assert (∀ (keys : list ustring) (m : gmap ustring (list Z)),
    id ∈ default [] (foldl (λ m key, <[key := default [] (m !! key) ++ [tc_id tc]]> m) m keys !! k)
    ↔ id ∈ default [] (m !! k) ∨ (k ∈ keys ∧ id = tc_id tc)) as Hins.
  { clear. intros keys m. revert m. induction keys as [|k' keys IH]; intros m; cbn; [set_solver|].
    rewrite IH. destruct (decide (k = k')) as [-> |Hne].
    - rewrite lookup_insert_eq. cbn. set_solver.
    - rewrite lookup_insert_ne by done. set_solver. }
  rewrite Hins, IH. setoid_rewrite elem_of_app. setoid_rewrite list_elem_of_singleton. naive_solver.
Qed.

Lemma elem_of_members tcs def id :
  id ∈ members_of (key_to_ids tcs) def ↔
  ∃ tc k, tc ∈ tcs ∧ tc_id tc = id ∧ k ∈ sd_test_cases def ∧ k ∈ test_case_reference_keys tc.
Proof.
  unfold members_of. rewrite list_elem_of_bind. setoid_rewrite key_to_ids_lookup. naive_solver.
Qed.

Lemma add_members_spec idx l cases (m : gmap Z (list nat)) i id :
  (i = idx → id ∈ cases → i ∈ default [] (m !! id)) →
  i ∈ default [] ((foldl (add_member idx) (cases, m) l).2 !! id) ↔
  i ∈ default [] (m !! id) ∨ (i = idx ∧ id ∈ l).
Proof.
  revert cases m. induction l as [|x l IH]; intros cases m Hc; cbn; [set_solver|].
  case_decide as Hx.
  - rewrite IH by done. split; [set_solver|]. intros [?|[-> [-> |?]%elem_of_cons]]; auto.
  - rewrite IH.
    + destruct (decide (id = x)) as [-> |Hne].
      * rewrite lookup_insert_eq. cbn. set_solver.
      * rewrite lookup_insert_ne by done. set_solver.
    + intros -> Hid. destruct (decide (id = x)) as [-> |Hne].
      * rewrite lookup_insert_eq. cbn. set_solver.
      * rewrite lookup_insert_ne by done. apply Hc; [done|]. set_solver.
Qed.

Lemma add_subtasks_spec ids idx defs (m : gmap Z (list nat)) i id :
  (∀ j, j ∈ default [] (m !! id) → j < idx) →
  i ∈ default [] ((add_subtasks ids idx defs m).2 !! id) ↔
  i ∈ default [] (m !! id) ∨
  (idx ≤ i ∧ ∃ def, defs !! (i - idx) = Some def ∧ id ∈ members_of ids def).
Proof.
  revert idx m. induction defs as [|def defs IH]; intros idx m Hlt; cbn; [set_solver|].
  destruct (foldl (add_member idx) (∅, m) (members_of ids def)) as [cases m'] eqn:Ef.
  assert (∀ j, j ∈ default [] (m' !! id) ↔ j ∈ default [] (m !! id) ∨ (j = idx ∧ id ∈ members_of ids def))
    as Hm'.
  { intros j. pose proof (add_members_spec idx (members_of ids def) ∅ m j id) as Ha.
    rewrite Ef in Ha. cbn in Ha. apply Ha. set_solver. }
  destruct (add_subtasks ids (S idx) defs m') as [rest m''] eqn:Er. cbn.
  specialize (IH (S idx) m'). rewrite Er in IH. cbn in IH. rewrite IH, Hm'.
  - split.
    + intros [[?|[-> Hid]]|(Hle & d & Hd & Hid)]; [by left|right|right].
      * split; [lia|]. exists def. by rewrite Nat.sub_diag.
      * split; [lia|]. exists d. replace (i - idx) with (S (i - S idx)) by lia. done.
    + intros [?|(Hle & d & Hd & Hid)]; [by do 2 left|].
      destruct (i - idx) as [|n] eqn:En; cbn in Hd.
      * injection Hd as ->. left. right. split; [lia|done].
      * right. split; [lia|]. exists d. replace (i - S idx) with n by lia. done.
  - intros j [Hj|[-> _]]%Hm'; [apply Hlt in Hj; lia|lia].
Qed.

Lemma case_subtasks_spec defs tcs idx id :
  idx ∈ subtasks_of (new_short_circuit defs tcs) id ↔ member defs tcs idx id.
Proof.
  unfold subtasks_of, new_short_circuit.
  destruct (add_subtasks (key_to_ids tcs) 0 defs ∅) as [cases m] eqn:E. cbn [sc_case_subtasks].
  pose proof (add_subtasks_spec (key_to_ids tcs) 0 defs ∅ idx id) as Hs.
  rewrite E in Hs. cbn in Hs. rewrite lookup_empty in Hs. cbn in Hs.
  rewrite Hs by (intros j Hj; by apply not_elem_of_nil in Hj).
  rewrite Nat.sub_0_r. unfold member. setoid_rewrite elem_of_members. split.
  - intros [[]%not_elem_of_nil|(_ & d & ? & tc & k & ?)]. exists d, tc, k. naive_solver.
  - intros (d & tc & k & ? & ? & ? & ? & ?). right. split; [lia|]. eauto 10.
Qed.

Lemma new_methods defs tcs : sc_methods (new_short_circuit defs tcs) = sd_scoring_method <$> defs.
Proof. unfold new_short_circuit. by destruct (add_subtasks _ _ _ _). Qed.

Lemma new_order defs tcs : sc_test_case_order (new_short_circuit defs tcs) = tc_id <$> tcs.
Proof. unfold new_short_circuit. by destruct (add_subtasks _ _ _ _). Qed.

Lemma new_failed defs tcs : sc_failed_subtasks (new_short_circuit defs tcs) = ∅.
Proof. unfold new_short_circuit. by destruct (add_subtasks _ _ _ _). Qed.

(** ** A skipped case changes no subtask *)

(** The outcome a result is recorded as. *)
Definition counted (r : TestCaseVerdict) : CaseOutcome :=
  without_output (from_verdict r (normalize_raw_score (tv_score r))).

Section skipping.
Context (defs : list SubtaskDef) (all scoring : list TestCaseRow).
Context (Hsub : ∀ tc, tc ∈ scoring → without_bodies tc ∈ all) (Hdist : keys_distinct all).
(** What the evaluator reports for each case. *)
Context (v : Z → TestCaseVerdict).

Record reports_ok : Prop := {
  ro_id i : tv_test_case_id (v i) = i;
  ro_score i : valid_binary fprec femax (tv_score (v i)) = true;
  ro_judged i : is_skipped_or_cancelled (tv_verdict (v i)) = false;
  ro_compiles i : tv_verdict (v i) ≠ CompileError;
}.
Context (Hv : reports_ok).

Local Notation sc0 := (new_short_circuit defs scoring).
Local Notation judged i := (counted (v i)).

(** Subtask [idx] is lost by a recorded outcome. *)
Definition lost (outcomes : list CaseOutcome) (idx : nat) : Prop :=
  ∃ i, member defs scoring idx i ∧ judged i ∈ outcomes ∧
    result_fails_method sc0 idx (co_score (judged i)) = true.

(** Every outcome is a result, or is skipped with its subtasks lost. *)
Definition lossless (outcomes : list CaseOutcome) : Prop :=
  ∀ o, o ∈ outcomes →
    o = judged (co_test_case_id o) ∨
    is_skipped_or_cancelled (co_verdict o) = true ∧
    ∀ idx, member defs scoring idx (co_test_case_id o) → lost outcomes idx.

Lemma judged_id i : co_test_case_id (judged i) = i.
Proof. apply (ro_id Hv). Qed.

Lemma normalized_unit x :
  valid_binary fprec femax x = true → in_unit (normalize_raw_score x).
Proof. intros Hx. unfold normalize_raw_score. destruct (is_finite x) eqn:E; [by apply in_unit_clamp|done]. Qed.

Lemma judged_counts i : is_skipped_or_cancelled (co_verdict (judged i)) = false.
Proof. apply (ro_judged Hv). Qed.

Lemma fails_method def idx x :
  defs !! idx = Some def → result_fails_method sc0 idx x = true → fails (sd_scoring_method def) x.
Proof.
  intros Hdef. unfold result_fails_method. rewrite new_methods, list_lookup_fmap, Hdef. cbn.
  by destruct (sd_scoring_method def).
Qed.

Section table.
Context (outcomes : list CaseOutcome) (Honce : NoDup (co_test_case_id <$> outcomes)).
Context (Hless : lossless outcomes).

Lemma outcome_unique o o' :
  o ∈ outcomes → o' ∈ outcomes → co_test_case_id o = co_test_case_id o' → o = o'.
Proof.
  intros (i & Hi)%list_elem_of_lookup (j & Hj)%list_elem_of_lookup E.
  assert (i = j) as ->; [|congruence].
  eapply NoDup_lookup; [exact Honce|by rewrite list_lookup_fmap, Hi|].
  by rewrite list_lookup_fmap, Hj, E.
Qed.

Lemma counted_elem i x :
  counted_score outcomes i = Some x →
  judged i ∈ outcomes ∧ x = co_score (judged i).
Proof.
  unfold counted_score. destruct (last _) as [o|] eqn:E; [|done]. intros [= <-].
  apply last_Some_elem_of, list_elem_of_filter in E as [<- Ho].
  apply list_elem_of_filter in Ho as [Hns Ho].
  destruct (Hless _ Ho) as [E|[Hs _]]; [by rewrite <- E|]. congruence.
Qed.

Lemma judged_counted i : judged i ∈ outcomes → counted_score outcomes i = Some (co_score (judged i)).
Proof.
  intros Hi. unfold counted_score.
  destruct (last (filter _ _)) as [o|] eqn:E.
  - apply last_Some_elem_of, list_elem_of_filter in E as [Hid [_ Ho]%list_elem_of_filter].
    rewrite (outcome_unique o (judged i)); [done..|]. by rewrite judged_id.
  - apply last_None in E. exfalso. eapply (not_elem_of_nil (judged i)). rewrite <- E.
    apply list_elem_of_filter. split; [apply judged_id|].
    apply list_elem_of_filter. split; [apply judged_counts|done].
Qed.

Lemma raw_unit k : in_unit (raw_of (outcome_scores (id_to_keys all) outcomes) k).
Proof.
  unfold raw_of. destruct (outcome_scores _ _ !! k) as [x|] eqn:E; [|done].
  rewrite outcome_scores_lookup in E. destruct (last _) as [o|] eqn:El; [|done].
  injection E as <-. apply last_Some_elem_of, list_elem_of_filter in El as [_ Ho].
  apply list_elem_of_filter in Ho as [Hns Ho].
  destruct (Hless _ Ho) as [-> |[Hs _]]; [|congruence]. apply normalized_unit, Hv.
Qed.
End table.

(** *** The score with every case evaluated *)

Definition every_result : list CaseOutcome := (λ tc, judged (tc_id tc)) <$> scoring.

Lemma elem_of_every_result i : judged i ∈ every_result ↔ i ∈ tc_id <$> scoring.
Proof.
  unfold every_result. rewrite !list_elem_of_fmap. split; intros (tc & E & Htc).
  - exists tc. split; [|done]. apply (f_equal co_test_case_id) in E. by rewrite !judged_id in E.
  - exists tc. by rewrite E.
Qed.

Lemma every_result_ids : co_test_case_id <$> every_result = tc_id <$> scoring.
Proof. unfold every_result. rewrite <- list_fmap_compose. apply list_fmap_ext. intros. apply judged_id. Qed.

Lemma every_result_lossless : lossless every_result.
Proof. intros o (tc & -> & _)%list_elem_of_fmap. left. by rewrite judged_id. Qed.

Context (Hnodup : NoDup (tc_id <$> scoring)).

Lemma every_result_once : NoDup (co_test_case_id <$> every_result).
Proof. by rewrite every_result_ids. Qed.

Local Notation table l := (outcome_scores (id_to_keys all) l).

Lemma raw_judged outcomes tc k :
  NoDup (co_test_case_id <$> outcomes) → tc ∈ scoring → k ∈ test_case_reference_keys tc →
  judged (tc_id tc) ∈ outcomes →
  raw_of (table outcomes) k = co_score (judged (tc_id tc)).
Proof.
  intros Honce Htc Hk Hin. unfold raw_of.
  rewrite (key_score all Hdist outcomes (without_bodies tc)) by auto.
  cbn [tc_id without_bodies]. by rewrite judged_counted.
Qed.

(** *** A session that has ended *)

Section ended.
Context (outcomes : list CaseOutcome) (Honce : NoDup (co_test_case_id <$> outcomes)).
Context (Hids : ∀ i, i ∈ co_test_case_id <$> outcomes ↔ i ∈ tc_id <$> scoring).
Context (Hless : lossless outcomes).

Lemma raw_same_or_skipped k :
  raw_of (table outcomes) k = raw_of (table every_result) k ∨
  ∃ tc, tc ∈ scoring ∧ k ∈ test_case_reference_keys tc ∧ judged (tc_id tc) ∉ outcomes.
Proof.
  unfold raw_of.
  destruct (decide (Exists (λ tc, k ∈ test_case_reference_keys tc) all))
    as [(tc & Htc & Hk)%Exists_exists|Hno].
  - rewrite !(key_score all Hdist _ tc k) by done.
    destruct (counted_score outcomes (tc_id tc)) as [x|] eqn:E.
    + left. apply (counted_elem outcomes Hless) in E as [Hin ->].
      rewrite (judged_counted every_result every_result_once); [done|].
      apply elem_of_every_result, Hids. rewrite <- (judged_id (tc_id tc)) at 1.
      by apply list_elem_of_fmap_2.
    + destruct (counted_score every_result (tc_id tc)) as [y|] eqn:Ey; [|by left]. right.
      apply (counted_elem every_result every_result_lossless) in Ey as [Hin _].
      apply elem_of_every_result, list_elem_of_fmap in Hin as (tc' & Hid & Htc').
      assert (tc = without_bodies tc') as ->.
      { by apply (keys_distinct_id all); [| |apply Hsub|]. }
      exists tc'. split_and!; [done|done|]. intros Hin.
      rewrite (judged_counted outcomes Honce) in E; done.
  - left. assert (∀ tc, tc ∈ all → k ∉ test_case_reference_keys tc) as Hnone
      by (intros tc Htc Hk; apply Hno, Exists_exists; by exists tc).
    by rewrite !unknown_key by done.
Qed.

Lemma subtask_keeps_score idx def w :
  defs !! idx = Some def →
  f_same (sr_score (score_subtask_with_weights def w (table outcomes)))
    (sr_score (score_subtask_with_weights def w (table every_result))).
Proof.
  intros Hdef.
  destruct (decide (Exists (λ k, raw_of (table outcomes) k ≠ raw_of (table every_result) k)
                      (sd_test_cases def))) as [(k & Hk & Hne)%Exists_exists|Hno].
  2: { left. f_equal. apply subtask_same_scores. intros k Hk.
       apply not_Exists_Forall in Hno; [|intros ?; apply _]. rewrite Forall_forall in Hno.
       by apply dec_stable, Hno. }
  destruct (raw_same_or_skipped k) as [?|(tc & Htc & Hkt & Hskip)]; [done|].
  assert (tc_id tc ∈ co_test_case_id <$> outcomes) as (o & Ho & Hin)%list_elem_of_fmap
    by (apply Hids; by apply list_elem_of_fmap_2).
  destruct (Hless o Hin) as [E|[_ Hlost]]; [rewrite <- Ho in E; congruence|].
  destruct (Hlost idx) as (i & (def' & tc2 & k2 & Hd & Htc2 & <- & Hk2 & Hkt2) & Hj & Hf).
  { exists def, tc, k. by rewrite Ho. }
  rewrite Hdef in Hd. injection Hd as <-. pose proof (fails_method _ _ _ Hdef Hf) as Hfail.
  etrans; [|symmetry].
  all: apply (lost_subtask _ _ _ k2); [intros label; apply raw_unit; auto using every_result_lossless|done|].
  - by rewrite (raw_judged _ tc2).
  - rewrite (raw_judged _ tc2); [done|apply every_result_once|done|done|].
    apply elem_of_every_result. by apply list_elem_of_fmap_2.
Qed.

Lemma skipping_keeps_score j :
  ij_all_test_cases j = all → ij_subtask_defs j = defs →
  f_same (submission_score j outcomes) (submission_score j every_result).
Proof.
  intros Ha Hd. unfold submission_score, score_all_subtasks. rewrite Ha, Hd, !(scores_already_by_key all Hdist).
  unfold round_score. apply f_same_div; [|done]. apply f_same_round, f_same_mul; [|done].
  apply f_sum_same. rewrite <- !list_fmap_compose. apply Forall2_fmap_2, Forall_Forall2_diag.
  apply Forall_forall. intros def (idx & Hdef)%list_elem_of_lookup. by eapply subtask_keeps_score.
Qed.
End ended.

(** *** What the policy knows *)

(** The tables are those of the first policy; a failed subtask is lost. *)
Record policy_inv (j : IoiJudge) (outcomes : list CaseOutcome) : Prop := {
  pi_all : ij_all_test_cases j = all;
  pi_defs : ij_subtask_defs j = defs;
  pi_methods : sc_methods (ij_short_circuit j) = sc_methods sc0;
  pi_subtasks : sc_case_subtasks (ij_short_circuit j) = sc_case_subtasks sc0;
  pi_order : sc_test_case_order (ij_short_circuit j) = tc_id <$> scoring;
  pi_failed idx : idx ∈ sc_failed_subtasks (ij_short_circuit j) → lost outcomes idx;
}.

Lemma lost_mono l l' idx : (∀ o, o ∈ l → o ∈ l') → lost l idx → lost l' idx.
Proof. intros Hsubset (i & ? & ? & ?). exists i. auto. Qed.

Lemma policy_inv_mono j l l' : (∀ o, o ∈ l → o ∈ l') → policy_inv j l → policy_inv j l'.
Proof. intros Hsubset []. split; [done..|]. intros. eapply lost_mono; eauto. Qed.

Lemma policy_inv_member j outcomes idx i :
  policy_inv j outcomes → idx ∈ subtasks_of (ij_short_circuit j) i ↔ member defs scoring idx i.
Proof. intros Hj. rewrite <- case_subtasks_spec. unfold subtasks_of. by rewrite (pi_subtasks _ _ Hj). Qed.

Lemma failing_lost j outcomes i idx :
  policy_inv j outcomes → judged i ∈ outcomes →
  idx ∈ failing_subtasks_for (ij_short_circuit j) i (co_score (judged i)) → lost outcomes idx.
Proof.
  intros Hj Hi Hidx. unfold failing_subtasks_for in Hidx.
  apply elem_of_list_to_set, list_elem_of_filter in Hidx as [Hf Hm].
  exists i. split_and!; [by eapply policy_inv_member|done|].
  unfold result_fails_method in *. by rewrite <- (pi_methods _ _ Hj).
Qed.

Lemma cancellable_lost j outcomes failed_id failed i :
  policy_inv j outcomes → (∀ idx, idx ∈ failed → lost outcomes idx) →
  i ∈ cancellable_cases_for_failure (ij_short_circuit j) failed_id failed →
  i ∈ tc_id <$> scoring ∧ ∀ idx, member defs scoring idx i → lost outcomes idx.
Proof.
  intros Hj Hfailed. unfold cancellable_cases_for_failure.
  case_match; [|by intros ?%not_elem_of_nil].
  intros [(_ & _ & _ & Hneed) Hord]%list_elem_of_filter. rewrite (pi_order _ _ Hj) in Hord.
  split; [done|]. intros idx Hidx. apply (policy_inv_member j outcomes) in Hidx; [|done].
  apply Hfailed. unfold only_needed_by_failed, subtasks_of in *.
  destruct (sc_case_subtasks _ !! i) as [subtasks|]; [|done].
  rewrite forallb_forall in Hneed. apply list_elem_of_In, Hneed, andb_true_iff in Hidx as [_ Hin].
  by apply bool_decide_eq_true in Hin.
Qed.

Lemma next_step_keeps j p i j' step :
  policy_inv j (jp_outcomes p) → jp_last p = Some (judged i) → judged i ∈ jp_outcomes p →
  ioi_next_step j p = (j', step) →
  policy_inv j' (jp_outcomes p) ∧
  (step = Continue ∨ ∃ ids, step = Cancel ids ∧ ∀ k, k ∈ ids →
     k ∈ tc_id <$> scoring ∧ ∀ idx, member defs scoring idx k → lost (jp_outcomes p) idx).
Proof.
  intros Hj Hlast Hin. unfold ioi_next_step, cancellable_after. rewrite Hlast, judged_id. cbv zeta.
  set (sc1 := with_progress _ _ (ij_short_circuit j)).
  assert (∀ failed active, (∀ idx, idx ∈ failed → lost (jp_outcomes p) idx) →
    policy_inv (with_short_circuit (with_progress failed active (ij_short_circuit j)) j)
      (jp_outcomes p)) as Hkeep by (destruct Hj; by split).
  assert (policy_inv (with_short_circuit sc1 j) (jp_outcomes p)) as Hj1 by (apply Hkeep, Hj).
  case_decide as Hf.
  { rewrite decide_True by done. intros [= <- <-]. auto. }
  set (failed := _ ∪ _).
  assert (∀ idx, idx ∈ failed → lost (jp_outcomes p) idx) as Hfailed.
  { intros idx [Hidx|Hidx]%elem_of_union; [by apply Hj|]. by apply (failing_lost _ _ i _ Hj1). }
  case_decide as Hids; intros [= <- <-]; (split; [by apply Hkeep|]); [by left|right].
  eexists. split; [done|]. intros k [_ Hk]%list_elem_of_filter.
  by apply (cancellable_lost (with_short_circuit (with_progress failed (sc_active_cases sc1) sc1) j)
              _ i failed); [apply Hkeep|..].
Qed.

(** ** The session *)

Context `{Serde (DetachedEval IoiJudge)}.

Record ioi_session (s : DetachedEval IoiJudge) : Prop := {
  is_ok : session_ok s;
  is_cases : sc_id <$> ev_scoring_cases s = tc_id <$> scoring;
  is_policy : policy_inv (ev_policy s) (ev_outcomes s);
  is_known i : i ∈ ids (ev_outcomes s) → i ∈ tc_id <$> scoring;
  is_lossless : lossless (ev_outcomes s);
}.

Lemma lossless_app l new :
  lossless l →
  (∀ o, o ∈ new → o = judged (co_test_case_id o) ∨
     is_skipped_or_cancelled (co_verdict o) = true ∧
     ∀ idx, member defs scoring idx (co_test_case_id o) → lost l idx) →
  lossless (l ++ new).
Proof.
  intros Hl Hnew o [Ho|Ho]%elem_of_app; [apply Hl in Ho|apply Hnew in Ho].
  all: destruct Ho as [?|[? Hlost]]; [by left|right; split; [done|]].
  all: intros idx Hidx; apply (lost_mono l); [|by apply Hlost]; set_solver.
Qed.

(** New outcomes leave the session one of these. *)
Lemma extends_session s s' h h' new :
  ioi_session s → session_ok s' → extends s s' h h' new → ev_policy s' = ev_policy s →
  (∀ o, o ∈ new → co_test_case_id o ∈ tc_id <$> scoring ∧
    (o = judged (co_test_case_id o) ∨
     is_skipped_or_cancelled (co_verdict o) = true ∧
     ∀ idx, member defs scoring idx (co_test_case_id o) → lost (ev_outcomes s) idx)) →
  ioi_session s'.
Proof.
  intros [_ Hc Hp Hk Hl] Hok E P Hnew. split; [done|..].
  - by rewrite (ext_cases _ _ _ _ _ E).
  - rewrite P, (ext_outcomes _ _ _ _ _ E). eapply policy_inv_mono; [|exact Hp]. set_solver.
  - rewrite (ext_outcomes _ _ _ _ _ E). unfold ids. rewrite fmap_app.
    intros i [Hi|(o & -> & Ho)%list_elem_of_fmap]%elem_of_app; [by apply Hk|by apply Hnew].
  - rewrite (ext_outcomes _ _ _ _ _ E). apply lossless_app; [done|]. intros o Ho. by apply Hnew.
Qed.

(** A cancelled case is recorded as skipped. *)
Lemma cancel_session cancel s h s' h' :
  ioi_session s → NoDup cancel → (∀ i, i ∈ cancel → i ∉ ev_recorded_ids s) →
  (∀ i, i ∈ cancel → i ∈ tc_id <$> scoring ∧
     ∀ idx, member defs scoring idx i → lost (ev_outcomes s) idx) →
  record_filled Skipped SKIPPED_SHORT_CIRCUIT cancel s h = Some (Ok s', h') →
  ioi_session s' ∧ ∀ o, o ∈ ev_outcomes s → o ∈ ev_outcomes s'.
Proof.
  intros Hs Hnd Hfresh Hlost [E P]%record_filled_extends.
  pose proof (ids_filled Skipped SKIPPED_SHORT_CIRCUIT cancel) as Hids.
  split; [|rewrite (ext_outcomes _ _ _ _ _ E); set_solver].
  eapply extends_session; [exact Hs| |exact E|exact P|].
  - eapply extends_ok; [apply Hs|exact E|rewrite P; apply Hs|..]; by rewrite Hids.
  - intros o (i & -> & Hi)%list_elem_of_fmap. cbn. destruct (Hlost i Hi). auto.
Qed.

(** A fresh result is recorded, and the policy takes its step. *)
Lemma fresh_session i s h s0 h0 s1 h1 policy step :
  ioi_session s → i ∈ tc_id <$> scoring → i ∉ ev_recorded_ids s →
  mark_running s h = Some (Ok s0, h0) →
  record (judge_score (ev_policy s) (v i)) s0 h0 = Some (Ok s1, h1) →
  next_step (ev_policy s1) (progress_of (last (ev_outcomes s1)) s1) = (policy, step) →
  ioi_session (with_policy policy s1) ∧ judged i ∈ ev_outcomes s1 ∧
  (step = Continue ∨ ∃ cancel, step = Cancel cancel ∧ NoDup cancel ∧
     (∀ k, k ∈ cancel → k ∉ ev_recorded_ids s1) ∧
     ∀ k, k ∈ cancel → k ∈ tc_id <$> scoring ∧
       ∀ idx, member defs scoring idx k → lost (ev_outcomes s1) idx).
Proof.
  intros Hs Hi Hfresh [E0 P0]%mark_running_extends [E1 P1]%record_extends Hstep.
  pose proof (extends_trans _ _ _ _ _ _ _ _ E0 E1) as E. cbn [app] in E.
  change (without_output (judge_score (ev_policy s) (v i))) with (judged i) in E.
  assert (ioi_session s1) as Hs1.
  { eapply extends_session; [exact Hs| |exact E|congruence|].
    - eapply extends_ok; [apply Hs|exact E|rewrite P1, P0; apply Hs|..];
        change (ids [judged i]) with [co_test_case_id (judged i)]; rewrite judged_id.
      + apply NoDup_singleton.
      + by intros ? ->%list_elem_of_singleton.
    - intros o ->%list_elem_of_singleton. rewrite judged_id. auto. }
  assert (judged i ∈ ev_outcomes s1) as Hin by (rewrite (ext_outcomes _ _ _ _ _ E); set_solver).
  assert (last (ev_outcomes s1) = Some (judged i)) as Hlast.
  { rewrite (ext_outcomes _ _ _ _ _ E). apply last_snoc. }
  destruct (next_step_keeps _ (progress_of (last (ev_outcomes s1)) s1) i _ _ (is_policy _ Hs1)
              Hlast Hin Hstep) as [Hj Hcancel].
  split_and!; [|done|].
  - destruct Hs1 as [[] ? _ ? ?]. split; [split|..]; try done. by eapply next_step_ok.
  - destruct Hcancel as [->|(cancel & -> & Hlost)]; [by left|right]. exists cancel. split; [done|].
    destruct (cancel_names_pending _ (progress_of (last (ev_outcomes s1)) s1) _ _
                (so_policy _ (is_ok _ Hs1)) (so_recorded _ (is_ok _ Hs1)) Hstep) as [Hcn Hcf].
    split_and!; [done|exact Hcf|exact Hlost].
Qed.

Lemma continue_or_finish_session cancel s h out h' i :
  ioi_session s → judged i ∈ ev_outcomes s →
  continue_or_finish cancel s h = Some (Ok out, h') →
  ∃ s', out_state out = to_json s' ∧ ioi_session s' ∧
    (out_action out = ActContinue ∨
     out_action out = ActFinish ∧ all_recorded s' = true ∧ judged i ∈ ev_outcomes s' ∧
       finalize s' h = Some (Ok tt, h')).
Proof.
  intros Hs Hi. unfold continue_or_finish. destruct (all_recorded s) eqn:E; intros Hrun.
  - apply bind_inv in Hrun as ([] & h1 & Hf & [-> ->]%ret_inv). exists s. auto 10.
  - apply ret_inv in Hrun as [-> ->]. exists s. auto.
Qed.

Lemma callback_session i s h input out h' :
  ioi_session s → i ∈ tc_id <$> scoring → ci_state input = to_json s →
  ci_event input = EvResult (v i) → handle_callback input h = Some (Ok out, h') →
  ∃ s', out_state out = to_json s' ∧ ioi_session s' ∧
    (out_action out = ActContinue ∨
     out_action out = ActFinish ∧ all_recorded s' = true ∧ judged i ∈ ev_outcomes s' ∧
       ∃ h1, finalize s' h1 = Some (Ok tt, h')).
Proof.
  intros Hs Hi Hst Hev Hrun. unfold handle_callback in Hrun.
  apply bind_inv in Hrun as (s0 & h0 & Hp & Hrun). rewrite Hst, parse_to_json in Hp.
  injection Hp as <- <-. rewrite Hev in Hrun. unfold on_result in Hrun.
  rewrite (ro_id Hv) in Hrun. case_decide as Hrec.
  { apply ret_inv in Hrun as [-> ->]. exists s. auto. }
  rewrite decide_False in Hrun by apply (ro_compiles Hv).
  apply bind_inv in Hrun as (s1 & h1 & Hm & Hrun).
  apply bind_inv in Hrun as (s2 & h2 & Hr & Hrun).
  destruct (next_step _ _) as [policy step] eqn:Hstep.
  destruct (fresh_session i s h s1 h1 s2 h2 policy step) as (Hs2 & Hin & Hcancel); [done..|].
  destruct Hcancel as [-> |(cancel & -> & Hnd & Hcf & Hlost)].
  - apply (continue_or_finish_session _ _ _ _ _ i) in Hrun as (s' & ? & ? & Hfin); [|done..].
    exists s'. naive_solver.
  - apply bind_inv in Hrun as (s3 & h3 & Hf & Hrun).
    apply cancel_session in Hf as [Hs3 Hkeep]; [|done..].
    apply (continue_or_finish_session _ _ _ _ _ i) in Hrun as (s' & ? & ? & Hfin); [|by auto..].
    exists s'. naive_solver.
Qed.

Lemma continues_session s h rs s' h' :
  continues s h rs s' h' → ioi_session s → 
  (∀ r, r ∈ rs → ∃ i, i ∈ tc_id <$> scoring ∧ r = v i) → ioi_session s'.
Proof.
  induction 1 as [|s h input r rs out s1 h1 h1' s2 h2 Hin0 Hev Hrun Hact Hst _ IH]; intros Hs Hrs;
    [done|].
  destruct (Hrs r) as (i & Hi & ->); [by left|].
  destruct (callback_session i _ _ _ _ _ Hs Hi Hin0 Hev Hrun) as (s' & Hst' & Hs' & _).
  apply IH; [|intros; apply Hrs; by right]. rewrite Hst in Hst'. by apply to_json_inj in Hst' as ->.
Qed.

Lemma finalize_stores s i h h' :
  ioi_session s → all_recorded s = true → judged i ∈ ev_outcomes s →
  finalize s h = Some (Ok tt, h') →
  ∃ up, last (h_updates h') = Some up ∧
    su_score up = Some (round_score (submission_score (ev_policy s) (ev_outcomes s))).
Proof.
  intros Hs Hall Hi Hrun. unfold finalize in Hrun. cbn [judge_finalize IoiJudge_judge] in Hrun.
  unfold persist_results in Hrun.
  apply bind_inv in Hrun as (o & h1 & Hrun & [_ ->]%ret_inv).
  apply bind_inv in Hrun as ([] & h2 & Hrun & [_ ->]%ret_inv).
  unfold update_or_stale in Hrun. apply bind_inv in Hrun as (n & h3 & Hup & Hrun).
  destruct (n =? 0)%Z; [done|]. apply ret_inv in Hrun as [_ ->].
  eexists. split.
  - unfold Submissions.update in Hup. destruct (_ <=? 0)%Z; [done|].
    destruct (h_update_results h); injection Hup as _ <-; cbn [h_updates with_updates]; apply last_snoc.
  - cbn [su_score results_update]. rewrite decide_False; [done|]. intros E.
    eapply (not_elem_of_nil (eval_outcome_from_case (judged i))). rewrite <- E.
    apply list_elem_of_filter. split; [apply judged_counts|]. by apply list_elem_of_fmap_2.
Qed.

Lemma finished_score s i h h' :
  ioi_session s → all_recorded s = true → judged i ∈ ev_outcomes s →
  finalize s h = Some (Ok tt, h') →
  ∃ up x, last (h_updates h') = Some up ∧ su_score up = Some x ∧
    ∀ j, ij_all_test_cases j = all → ij_subtask_defs j = defs →
      f_same x (round_score (submission_score j every_result)).
Proof.
  intros Hs Hall Hi Hrun. destruct (finalize_stores _ _ _ _ Hs Hall Hi Hrun) as (up & Hup & Hx).
  exists up. eexists. split_and!; [done..|]. intros j Ha Hd. unfold round_score.
  apply f_same_div; [|done]. apply f_same_round, f_same_mul; [|done].
  destruct Hs as [[Honce Hrec _] Hc Hp Hk Hl].
  assert (submission_score j every_result = submission_score (ev_policy s) every_result) as ->.
  { unfold submission_score. by rewrite Ha, Hd, (pi_all _ _ Hp), (pi_defs _ _ Hp). }
  apply skipping_keeps_score; [done| |done|apply Hp..].
  intros k. split; [apply Hk|]. intros Hin. rewrite <- Hc in Hin.
  apply all_recorded_spec in Hin; [|done]. rewrite Hrec in Hin. by apply elem_of_list_to_set in Hin.
Qed.
End skipping.

(** ** The score of a submission *)

Section theorem.
Context `{Serde (DetachedEval IoiJudge)}.

Lemma first_session req all scoring defs v :
  NoDup (tc_id <$> scoring) →
  ioi_session defs (without_bodies <$> all) scoring v
    (initial_session req scoring (ioi_policy all scoring defs)).
Proof.
  intros Hnd. split; cbn.
  - split; [constructor|done|]. cbn. by rewrite new_order.
  - rewrite <- list_fmap_compose. by apply list_fmap_ext.
  - split; try done; cbn; [by rewrite new_order|]. rewrite new_failed. set_solver.
  - intros i []%not_elem_of_nil.
  - intros o []%not_elem_of_nil.
Qed.

End theorem.
