(* ===== verification/IoiExamples.v ===== *)
(** * IoiExamples: the IOI theorems at work

    A submission of three cases in two subtasks, with sessions encoded by
    [Wire]: the first case fails, so the second is skipped. *)

From Stdlib Require Import SpecFloat.
From S2P Require Import Prelude Text Float Verdict Sdk Host.
From S2P Require Import BracketModel BracketJudge BracketExamples.
From S2P Require Import Judging JudgingContests JudgingProofs JudgingExamples Ioi IoiProofs.

(** ** An encoding of IOI sessions *)

#[export] Instance Wire_nat : Wire nat.
Proof. apply (wire_iso Z.of_nat Z.to_nat). apply Nat2Z.id. Defined.

#[export] Instance Wire_gset_nat : Wire (gset nat).
Proof. apply (wire_iso (B := list nat) elements list_to_set). intros s. apply list_to_set_elements_L. Defined.

#[export] Instance Wire_gmap {A} `{Wire A} : Wire (gmap Z A).
Proof. apply (wire_iso (B := list (Z * A)) map_to_list list_to_map). intros m. apply list_to_map_to_list. Defined.

#[export] Instance Wire_body : Wire TestCaseBodyRef.
Proof.
  apply (wire_iso
    (λ b, match b with
          | Missing => (0, []) | Inline t => (1, t) | Blob h => (2, h)
          end)%Z
    (λ p, match p.1 with 0 => Missing | 1 => Inline p.2 | _ => Blob p.2 end)%Z).
  by intros [].
Defined.

#[export] Instance Wire_TestCaseRow : Wire TestCaseRow.
Proof.
  apply (wire_iso
    (λ t, (tc_id t, tc_score t, tc_is_sample t, tc_position t, tc_description t, tc_label t,
           tc_input t, tc_expected_output t, tc_is_custom t))
    (λ p, let '(a, b, c, d, e, f, g, h, i) := p in
      {| tc_id := a; tc_score := b; tc_is_sample := c; tc_position := d; tc_description := e;
         tc_label := f; tc_input := g; tc_expected_output := h; tc_is_custom := i |})).
  by intros [].
Defined.

#[export] Instance Wire_method : Wire SubtaskScoringMethod.
Proof.
  apply (wire_iso (λ m, match m with GroupMin => 0 | Sum => 1 | GroupMul => 2 end)%Z
    (λ z, match z with 0 => GroupMin | 1 => Sum | _ => GroupMul end)%Z).
  by intros [].
Defined.

#[export] Instance Wire_SubtaskDef : Wire SubtaskDef.
Proof.
  apply (wire_iso (λ d, (sd_name d, sd_scoring_method d, sd_max_score d, sd_test_cases d))
    (λ p, let '(a, b, c, d) := p in
      {| sd_name := a; sd_scoring_method := b; sd_max_score := c; sd_test_cases := d |})).
  by intros [].
Defined.

#[export] Instance Wire_SubtaskShortCircuit : Wire SubtaskShortCircuit.
Proof.
  apply (wire_iso
    (λ s, (sc_methods s, sc_subtask_cases s, sc_case_subtasks s, sc_failed_subtasks s,
           sc_active_cases s, sc_sample_cases s, sc_test_case_order s))
    (λ p, let '(a, b, c, d, e, f, g) := p in
      {| sc_methods := a; sc_subtask_cases := b; sc_case_subtasks := c; sc_failed_subtasks := d;
         sc_active_cases := e; sc_sample_cases := f; sc_test_case_order := g |})).
  by intros [].
Defined.

#[export] Instance Wire_IoiJudge : Wire IoiJudge.
Proof.
  apply (wire_iso (λ j, (ij_all_test_cases j, ij_subtask_defs j, ij_short_circuit j))
    (λ p, let '(a, b, c) := p in
      {| ij_all_test_cases := a; ij_subtask_defs := b; ij_short_circuit := c |})).
  by intros [].
Defined.

#[export] Instance Wire_IoiSession : Wire (DetachedEval IoiJudge).
Proof.
  apply (wire_iso
    (λ s : DetachedEval IoiJudge,
      (ev_request s, ev_scoring_cases s, ev_outcomes s, ev_recorded_ids s, ev_marked_running s,
       ev_policy s))
    (λ p, let '(a, b, c, d, e, f) := p in
      {| ev_request := a; ev_scoring_cases := b; ev_outcomes := c; ev_recorded_ids := d;
         ev_marked_running := e; ev_policy := f |})).
  by intros [].
Defined.

#[export] Instance ioi_ex_serde : Serde (DetachedEval IoiJudge).
Proof.
  refine {| to_json := put;
            from_json t := match take_one t with
                           | Some (s, []) => Ok s
                           | _ => Err (u "invalid document")
                           end |}.
  intros s. by rewrite <- (app_nil_r (put s)), take_put.
Defined.

(** ** A submission of three cases *)

Definition ioi_ex_case (i : Z) (sample : bool) : TestCaseRow := {|
  tc_id := i; tc_score := f_one; tc_is_sample := sample; tc_position := i; tc_description := None;
  tc_label := Some (u "case" ++ show i); tc_input := Missing; tc_expected_output := Missing;
  tc_is_custom := false |}.

Definition ioi_ex_cases : list TestCaseRow :=
  [ioi_ex_case 1 false; ioi_ex_case 2 false; ioi_ex_case 3 false]%Z.

Definition ioi_ex_defs : list SubtaskDef :=
  [{| sd_name := u "small"; sd_scoring_method := GroupMin; sd_max_score := f_of_Z 40;
      sd_test_cases := [u "case1"; u "case2"] |};
   {| sd_name := u "large"; sd_scoring_method := GroupMul; sd_max_score := f_of_Z 60;
      sd_test_cases := [u "case3"] |}].

Definition ioi_ex_request : OnSubmissionInput := {|
  os_submission_id := 40; os_judgement_id := 41; os_fire_after_judging := true; os_user_id := 1;
  os_problem_id := 101; os_contest_id := Some 9; os_files := []; os_language := u "cpp";
  os_time_limit_ms := 1000; os_memory_limit_kb := 65536; os_problem_type := u "standard";
  os_test_cases := ioi_ex_cases; os_judge_epoch := 1; os_target_worker_id := None |}%Z.

(** Only the first case fails. *)
Definition ioi_ex_report (i : Z) : TestCaseVerdict := {|
  tv_test_case_id := i; tv_verdict := if (i =? 1)%Z then WrongAnswer else Accepted;
  tv_score := if (i =? 1)%Z then f_zero else f_one; tv_time_used_ms := None;
  tv_memory_used_kb := None; tv_message := None; tv_stdout := None; tv_stderr := None |}.

Definition ioi_ex_policy : IoiJudge := ioi_policy ioi_ex_cases ioi_ex_cases ioi_ex_defs.

Definition ioi_ex_session : DetachedEval IoiJudge :=
  initial_session ioi_ex_request ioi_ex_cases ioi_ex_policy.

Definition ioi_ex_input (s : ustring) (i : Z) : DetachedEvaluateCallbackInput := {|
  ci_session_id := u "session"; ci_state := s; ci_event := EvResult (ioi_ex_report i);
  ci_completed := 1; ci_total := 3 |}.

Definition ioi_ex_run (s : ustring) (i : Z) : option (sdk DetachedEvaluateCallbackOutput * Host) :=
  on_ioi_eval_result (ioi_ex_input s i) (ex_host 0).

Definition ioi_ex_out (s : ustring) (i : Z) : DetachedEvaluateCallbackOutput :=
  match ioi_ex_run s i with Some (Ok out, _) => out | _ => continue_with [] false [] end.

Definition ioi_ex_after (s : ustring) (i : Z) : Host :=
  match ioi_ex_run s i with Some (_, h) => h | None => ex_host 0 end.

(** The session after the failure of the first case. *)
Definition ioi_ex_text : ustring := out_state (ioi_ex_out (to_json ioi_ex_session) 1).

Definition ioi_ex_halfway : DetachedEval IoiJudge :=
  match from_json (A := DetachedEval IoiJudge) ioi_ex_text with Ok s => s | Err _ => ioi_ex_session end.

(** The second case is cancelled; only the third is missing. *)
Example ioi_ex_cancels :
  out_action (ioi_ex_out (to_json ioi_ex_session) 1) = ActContinue ∧
  out_cancel_test_case_ids (ioi_ex_out (to_json ioi_ex_session) 1) = [2%Z] ∧
  ((λ o, (co_test_case_id o, co_verdict o)) <$> ev_outcomes ioi_ex_halfway)
    = [(1%Z, WrongAnswer); (2%Z, Skipped)].
Proof. split_and!; by_vm. Qed.

Lemma ioi_ex_reports : reports_ok ioi_ex_report.
Proof. split; intros i; cbn; try done; by destruct (i =? 1)%Z. Qed.

