(* ===== verification/Icpc.v ===== *)
(** * Icpc: the standings of an ICPC contest and what a freeze hides

    plugins/icpc/src/config.rs, standings.rs and lib.rs.  What the database
    answers is an argument ([IcpcDb]); the reveal flag is read from the storage. *)

From S2P Require Import Prelude Text Float Verdict Sdk Host VisibilityApi BracketGate.

Open Scope machine_scope.

(** ** Configuration and freeze (config.rs) *)

Record ContestConfig := {
  penalty_minutes : Z;
  count_compile_error : bool;
  show_test_details : bool;
  public_standings : bool;
  freeze_minutes : Z;
}.

(** [ContestConfig::default()]. *)
Definition config_default : ContestConfig := {|
  penalty_minutes := 0; count_compile_error := false; show_test_details := false;
  public_standings := false; freeze_minutes := 0 |}.

Definition BEFORE : ustring := u "before".
Definition DURING : ustring := u "during".
Definition AFTER : ustring := u "after".

Record FreezeView := {
  fv_freeze_start_ms : Z;
  fv_frozen : bool;
  fv_can_reveal : bool;
}.

Definition freeze_window_start_ms (freeze_minutes duration_ms : Z) : Z :=
  if (0 <? freeze_minutes)%Z then Z.max 0 (wrap64 (duration_ms - freeze_minutes * 60000))
  else i64_max.

Definition in_window_phase (phase : ustring) : bool :=
  bool_decide (phase = DURING) || bool_decide (phase = AFTER).

Definition freeze_window_open (freeze_minutes : Z) (phase : ustring) (revealed : bool)
    (duration_ms now_elapsed_ms : Z) : bool :=
  (0 <? freeze_minutes)%Z && negb revealed && in_window_phase phase
  && (freeze_window_start_ms freeze_minutes duration_ms <=? now_elapsed_ms)%Z.

Definition freeze_view (freeze_minutes : Z) (phase : ustring) (can_view_all revealed : bool)
    (duration_ms now_elapsed_ms : Z) : FreezeView :=
  let window_start := freeze_window_start_ms freeze_minutes duration_ms in
  let window_open := freeze_window_open freeze_minutes phase revealed duration_ms now_elapsed_ms in
  {| fv_freeze_start_ms := if window_open && negb can_view_all then window_start else i64_max;
     fv_frozen := window_open && negb can_view_all;
     fv_can_reveal := window_open && can_view_all |}.

Record ProblemState := {
  ps_attempts : Z;
  ps_solved : bool;
  ps_solve_time_ms : option Z;
}.

Definition problem_state_default : ProblemState :=
  {| ps_attempts := 0; ps_solved := false; ps_solve_time_ms := None |}.

(** [ProblemState::penalty_minutes]. *)
Definition penalty_of (s : ProblemState) (penalty_per_attempt : Z) : Z :=
  if negb (ps_solved s) then 0
  else
    let solve_min := wrap32 (default 0%Z (ps_solve_time_ms s) / 60000) in
    wrap32 (solve_min + wrap32 (ps_attempts s * penalty_per_attempt)).

(** ** Scores (standings.rs) *)

Record StandingsSubmission := {
  ss_submission_id : Z;
  ss_user_id : Z;
  ss_problem_id : Z;
  ss_verdict : option Verdict;
  ss_status : ustring;
  ss_elapsed_ms : Z;
}.

Definition SYSTEM_ERROR : ustring := u "SystemError".
Definition COMPILATION_ERROR : ustring := u "CompilationError".

Definition is_system_error (row : StandingsSubmission) : bool :=
  bool_decide (ss_status row = SYSTEM_ERROR) || bool_decide (ss_verdict row = Some SystemError).

Definition is_penalty_attempt (row : StandingsSubmission) (count_compile_error : bool) : bool :=
  if is_system_error row then false
  else if bool_decide (ss_status row = COMPILATION_ERROR)
          || bool_decide (ss_verdict row = Some CompileError) then count_compile_error
  else
    match ss_verdict row with
    | Some Accepted | Some Skipped | Some Cancelled => false
    | _ => true
    end.

Definition ss_key (row : StandingsSubmission) : Z * Z := (ss_user_id row, ss_problem_id row).

(** Submissions count in the order of their times. *)
Definition ss_order (row : StandingsSubmission) : Z * Z :=
  (ss_elapsed_ms row, ss_submission_id row).

Definition is_ac (row : StandingsSubmission) : Prop := ss_verdict row = Some Accepted.

Definition push_group (groups : gmap (Z * Z) (list StandingsSubmission)) (row : StandingsSubmission)
    : gmap (Z * Z) (list StandingsSubmission) :=
  <[ss_key row := default [] (groups !! ss_key row) ++ [row]]> groups.

(** The state of one contestant on one problem. *)
Definition group_state (count_compile_error : bool) (rows : list StandingsSubmission)
    : ProblemState :=
  let rows := sort_by_key ss_order rows in
  let accepted := list_find is_ac rows in
  let count_until := match accepted with Some (i, _) => i | None => length rows end in
  {| ps_attempts :=
       wrap32 (Z.of_nat (length (filter (λ r, is_penalty_attempt r count_compile_error = true)
                                   (take count_until rows))));
     ps_solved := bool_decide (is_Some accepted);
     ps_solve_time_ms := (λ a, Z.max 0 (ss_elapsed_ms a.2)) <$> accepted |}.

Definition compute_problem_states (submissions : list StandingsSubmission)
    (count_compile_error : bool) : gmap (Z * Z) ProblemState :=
  group_state count_compile_error <$> foldl push_group ∅ submissions.

Definition solved_before (states : gmap (Z * Z) ProblemState) (key : Z * Z) : bool :=
  match states !! key with Some s => ps_solved s | None => false end.

Definition add_pending (states : gmap (Z * Z) ProblemState) (pending : gmap (Z * Z) Z)
    (row : StandingsSubmission) : gmap (Z * Z) Z :=
  if is_system_error row then pending
  else if solved_before states (ss_key row) then pending
  else <[ss_key row := wrap32 (default 0%Z (pending !! ss_key row) + 1)]> pending.

Definition compute_pending (freeze_submissions : list StandingsSubmission)
    (pre_freeze_states : gmap (Z * Z) ProblemState) : gmap (Z * Z) Z :=
  foldl (add_pending pre_freeze_states) ∅ freeze_submissions.

Definition counts_as_live (sub : StandingsSubmission) (freeze_start_ms : Z) (own_user_id : option Z)
    : bool :=
  (ss_elapsed_ms sub <? freeze_start_ms)%Z || bool_decide (Some (ss_user_id sub) = own_user_id).

(** The submissions a board counts, those that are not only shown as pending. *)
Definition live_at (freeze_start_ms : Z) (own_user_id : option Z) (sub : StandingsSubmission)
    : Prop := counts_as_live sub freeze_start_ms own_user_id = true.

#[export] Instance live_at_dec start own sub : Decision (live_at start own sub).
Proof. unfold live_at. apply _. Defined.

(** The better of the best solver so far and of one more. *)
Definition better_solver (solve : Z * Z) (current : option (Z * Z)) : Z * Z :=
  match current with
  | Some current => if klt solve current then solve else current
  | None => solve
  end.

Definition add_solver (key : Z * Z) (s : ProblemState) (best : gmap Z (Z * Z)) : gmap Z (Z * Z) :=
  if negb (ps_solved s) then best
  else <[key.2 := better_solver (default i64_max (ps_solve_time_ms s), key.1) (best !! key.2)]> best.

Definition compute_first_solvers (states : gmap (Z * Z) ProblemState) (restricted : bool)
    : gmap Z Z :=
  if restricted then ∅ else snd <$> map_fold add_solver ∅ states.

(** ** What a contestant may see (lib.rs) *)

Definition must_hide_other_submission (public_standings : bool) (freeze_minutes : Z)
    (phase : ustring) (revealed : bool)
    (duration_ms now_elapsed_ms submission_elapsed_ms : Z) : bool :=
  if (bool_decide (phase = BEFORE) || bool_decide (phase = DURING)) && negb public_standings
  then true
  else
    freeze_window_open freeze_minutes phase revealed duration_ms now_elapsed_ms
    && (freeze_window_start_ms freeze_minutes duration_ms <=? submission_elapsed_ms)%Z.

Inductive StandingsRestriction :=
  | Unrestricted
  | RestrictedTo (viewer : Z)
  | RestrictedAnonymous.

Definition standings_restriction (phase : ustring) (can_view_all public_standings : bool)
    (viewer_id : option Z) : StandingsRestriction :=
  if negb ((bool_decide (phase = BEFORE) || bool_decide (phase = DURING))
           && negb can_view_all && negb public_standings)
  then Unrestricted
  else
    match viewer_id with
    | Some uid => RestrictedTo uid
    | None => RestrictedAnonymous
    end.

Definition hidden_result_mask_fields : list ustring := [
  u "verdict"; u "score"; u "time_used"; u "memory_used";
  u "result.verdict"; u "result.score"; u "result.time_used"; u "result.memory_used";
  u "result.compile_output"; u "result.error_message";
  u "result.test_case_results"; u "result.test_case_pagination"].

(** ** Rows of the database *)

Record ContestProblem := { cp_problem_id : Z; cp_label : option ustring }.

(** A current, finalized judgement of a submission for a problem of the contest. *)
Record CurrentSubmission := {
  cs_submission_id : Z;
  cs_user_id : Z;
  cs_problem_id : Z;
  cs_status : ustring;
  cs_verdict : option Verdict;
  cs_elapsed_ms : option f64;
}.

Record ContestTimes := {
  tm_duration_ms : option f64;
  tm_now_elapsed_ms : option f64;
}.

Record SubmissionFreezeRow := {
  sf_submission_id : Z;
  sf_user_id : Z;
  sf_contest_type : option ustring;
  sf_phase : ustring;
  sf_duration_ms : option f64;
  sf_now_elapsed_ms : option f64;
  sf_submission_elapsed_ms : option f64;
}.

(** The answers of the database, and the configuration of a contest
    ([contest::load_config]). *)
Record IcpcDb := {
  id_contest : ContestDb;
  id_config : Z → sdk ContestConfig;
  id_problems : Z → sdk (list ContestProblem);
  id_participants : Z → sdk (list UserIdentity);
  id_submissions : Z → sdk (list CurrentSubmission);
  id_times : Z → sdk (option ContestTimes);
  id_freeze_rows : list Z → sdk (list SubmissionFreezeRow);
}.

Definition ms_of (ms : option f64) : Z := f_to_i64 (default f_zero ms).
Definition elapsed_of (ms : option f64) : Z := f_to_i64 (f_max (default f_zero ms) f_zero).

Definition standings_submission (row : CurrentSubmission) : StandingsSubmission := {|
  ss_submission_id := cs_submission_id row;
  ss_user_id := cs_user_id row;
  ss_problem_id := cs_problem_id row;
  ss_verdict := cs_verdict row;
  ss_status := cs_status row;
  ss_elapsed_ms := elapsed_of (cs_elapsed_ms row) |}.

(** ** Visibility of submissions *)

Definition ICPC : ustring := u "icpc".
Definition reveal_key (contest_id : Z) : ustring := u "reveal:" ++ show contest_id.

(** The submission a resource names, where the plugin has an opinion. *)
Definition submission_of (r : QueryResource) : option Z :=
  if decide (vr_kind r = u "submission" ∧ is_Some (vr_contest_id r)) then parse_i32 (vr_id r)
  else None.

(** The decision for the row of a submission that was found. *)
Definition decide_row (viewer : option Z) (config : ContestConfig) (revealed : bool)
    (row : SubmissionFreezeRow) : WireDecision :=
  if decide (sf_contest_type row ≠ Some ICPC) then Allow
  else if decide (viewer = Some (sf_user_id row)) then Allow
  else if must_hide_other_submission (public_standings config) (freeze_minutes config)
            (sf_phase row) revealed (ms_of (sf_duration_ms row)) (ms_of (sf_now_elapsed_ms row))
            (elapsed_of (sf_submission_elapsed_ms row))
  then Redact hidden_result_mask_fields
  else Allow.

Definition decide_resource (viewer : option Z) (rows : gmap Z SubmissionFreezeRow)
    (configs : gmap Z ContestConfig) (revealed : gmap Z bool) (r : QueryResource) : WireDecision :=
  match submission_of r with
  | None => Allow
  | Some sub_id =>
      match rows !! sub_id with
      | None => Redact hidden_result_mask_fields
      | Some row =>
          match vr_contest_id r with
          | None => Allow
          | Some contest_id =>
              decide_row viewer (default config_default (configs !! contest_id))
                (default false (revealed !! contest_id)) row
          end
      end
  end.

(** The ICPC contests of a batch. *)
Definition icpc_contest (rows : gmap Z SubmissionFreezeRow) (r : QueryResource) : option Z :=
  sub_id ← submission_of r;
  row ← rows !! sub_id;
  if decide (sf_contest_type row = Some ICPC) then vr_contest_id r else None.

Fixpoint load_configs (db : IcpcDb) (contests : list Z) (acc : gmap Z ContestConfig)
    : sdk (gmap Z ContestConfig) :=
  match contests with
  | [] => Ok acc
  | c :: contests => config ← id_config db c; load_configs db contests (<[c := config]> acc)
  end.

Definition reveal_flags (h : Host) (contests : list Z) : gmap Z bool :=
  list_to_map ((λ c, (c, bool_decide (h_data h !! reveal_key c = Some (u "1")))) <$> contests).

Definition decide_visibility_decisions (db : IcpcDb) (req : VisibilityQueryInput)
    : M (list WireDecision) := λ h,
  if existsb (λ p, bool_decide (p = SUBMISSION_VIEW_ALL) || bool_decide (p = CONTEST_MANAGE))
       (vq_permissions req)
  then Some (Ok ((λ _, Allow) <$> vq_resources req), h)
  else
    let submission_ids := omap submission_of (vq_resources req) in
    if decide (submission_ids = []) then Some (Ok ((λ _, Allow) <$> vq_resources req), h)
    else
      match id_freeze_rows db (remove_dups (sort_by_key id submission_ids)) with
      | Err e => Some (Err e, h)
      | Ok rows =>
          let rows := foldl (λ m row, <[sf_submission_id row := row]> m) ∅ rows in
          let contests := remove_dups (sort_by_key id (omap (icpc_contest rows) (vq_resources req))) in
          match load_configs db contests ∅ with
          | Err e => Some (Err e, h)
          | Ok configs =>
              Some (Ok (decide_resource (vq_user_id req) rows configs (reveal_flags h contests)
                          <$> vq_resources req), h)
          end
      end.

(** ** The board *)

(** The labels A to Z and then AA, AB and so on, in bytes that wrap. *)
Definition default_label (i : nat) : ustring :=
  let b := wrap_u8 (Z.of_nat i) in
  let c := wrap_u8 (65 + b mod 26) in
  if i <? 26 then [c] else [wrap_u8 (wrap_u8 (65 + b / 26) - 1); c].

Definition problem_label (i : nat) (p : ContestProblem) : ustring :=
  match cp_label p with
  | Some l => if decide (l = []) then default_label i else l
  | None => default_label i
  end.

Definition problem_labels (problems : list ContestProblem) : list ustring :=
  imap problem_label problems.

Record ProblemCell := {
  pc_attempts : Z;
  pc_solved : bool;
  pc_time : option Z;
  pc_penalty : option Z;
  pc_first_solve : option bool;
  pc_pending : option Z;
}.

Record StandingsEntry := {
  se_rank : nat;
  se_user_id : Z;
  se_username : ustring;
  se_display_name : ustring;
  se_solved : Z;
  se_penalty : Z;
  se_problems : gmap ustring ProblemCell;
}.

(** A row while its problems are added: solved, penalty and cells. *)
Definition add_problem (config : ContestConfig) (states : gmap (Z * Z) ProblemState)
    (pending : gmap (Z * Z) Z) (user : Z) (acc : Z * Z * gmap ustring ProblemCell)
    (p : ustring * Z) : Z * Z * gmap ustring ProblemCell :=
  let '(solved, total_penalty, cells) := acc in
  let '(label, pid) := p in
  let state := default problem_state_default (states !! (user, pid)) in
  let pend := pending !! (user, pid) in
  if ps_solved state then
    let pen := penalty_of state (penalty_minutes config) in
    let time_min := wrap32 (default 0%Z (ps_solve_time_ms state) / 60000) in
    (wrap32 (solved + 1), wrap32 (total_penalty + pen),
     <[label := {| pc_attempts := ps_attempts state; pc_solved := true; pc_time := Some time_min;
                   pc_penalty := Some pen; pc_first_solve := None; pc_pending := None |}]> cells)
  else if (0 <? ps_attempts state)%Z || bool_decide (is_Some pend) then
    (solved, total_penalty,
     <[label := {| pc_attempts := ps_attempts state; pc_solved := false; pc_time := None;
                   pc_penalty := None; pc_first_solve := None; pc_pending := pend |}]> cells)
  else acc.

Definition entry_of (config : ContestConfig) (states : gmap (Z * Z) ProblemState)
    (pending : gmap (Z * Z) Z) (problems : list (ustring * Z)) (p : UserIdentity)
    : StandingsEntry :=
  let '(solved, penalty, cells) :=
    foldl (add_problem config states pending (id_user_id p)) (0, 0, ∅)%Z problems in
  {| se_rank := 0; se_user_id := id_user_id p; se_username := id_username p;
     se_display_name := display_label p; se_solved := solved; se_penalty := penalty;
     se_problems := cells |}.

(** Balloons for the first solvers. *)
Definition mark_cell (first_solvers : gmap Z Z) (user : Z) (cells : gmap ustring ProblemCell)
    (p : ustring * Z) : gmap ustring ProblemCell :=
  let '(label, pid) := p in
  match cells !! label with
  | Some cell =>
      if decide (pc_solved cell = true ∧ first_solvers !! pid = Some user) then
        <[label := {| pc_attempts := pc_attempts cell; pc_solved := pc_solved cell;
                      pc_time := pc_time cell; pc_penalty := pc_penalty cell;
                      pc_first_solve := Some true; pc_pending := pc_pending cell |}]> cells
      else cells
  | None => cells
  end.

Definition mark_first_solves (first_solvers : gmap Z Z) (problems : list (ustring * Z))
    (e : StandingsEntry) : StandingsEntry := {|
  se_rank := se_rank e; se_user_id := se_user_id e; se_username := se_username e;
  se_display_name := se_display_name e; se_solved := se_solved e; se_penalty := se_penalty e;
  se_problems := foldl (mark_cell first_solvers (se_user_id e)) (se_problems e) problems |}.

Definition with_rank (rank : nat) (e : StandingsEntry) : StandingsEntry := {|
  se_rank := rank; se_user_id := se_user_id e; se_username := se_username e;
  se_display_name := se_display_name e; se_solved := se_solved e; se_penalty := se_penalty e;
  se_problems := se_problems e |}.

(** Most solved first, then the lowest penalty, then the name. *)
Definition entry_key (e : StandingsEntry) : reversed Z * Z * ustring :=
  (Reverse (se_solved e), se_penalty e, se_username e).

(** The rank of the entry at position [i], after [prev]. *)
Fixpoint assign_ranks (i : nat) (prev : option StandingsEntry) (entries : list StandingsEntry)
    : list StandingsEntry :=
  match entries with
  | [] => []
  | e :: entries =>
      let rank := match prev with
                  | Some p => if decide (se_solved e = se_solved p ∧ se_penalty e = se_penalty p)
                              then se_rank p else S i
                  | None => S i
                  end in
      with_rank rank e :: assign_ranks (S i) (Some (with_rank rank e)) entries
  end.

Definition ranked_entries (config : ContestConfig) (states : gmap (Z * Z) ProblemState)
    (pending : gmap (Z * Z) Z) (first_solvers : gmap Z Z) (problems : list (ustring * Z))
    (participants : list UserIdentity) : list StandingsEntry :=
  let entries := entry_of config states pending problems <$> participants in
  let entries := mark_first_solves first_solvers problems <$> entries in
  assign_ranks 0 None (sort_by_key entry_key entries).

Inductive StandingsBody :=
  | EmptyBoard (phase : ustring) (penalty_minutes : Z) (labels : list ustring)
  | Board (phase : ustring) (frozen revealed can_reveal : bool) (penalty_minutes : Z)
      (labels : list ustring) (rows : list StandingsEntry).

(** The SQL filter that restricts a query to one user. *)
Definition only_user {A} (f : A → Z) (user : option Z) (l : list A) : list A :=
  match user with
  | Some uid => filter (λ a, f a = uid) l
  | None => l
  end.

Definition query_contest_times (db : IcpcDb) (contest_id : Z) : sdk (Z * Z) :=
  times ← id_times db contest_id;
  Ok (ms_of (times ≫= tm_duration_ms), ms_of (times ≫= tm_now_elapsed_ms)).

(** The board from what the database answered, for a viewer: [restricted_user_id]
    is the only row to show, [times] the duration and the time since the start. *)
Definition board_of (config : ContestConfig) (phase : ustring) (can_view_all revealed : bool)
    (restricted_user_id own_uid : option Z) (problems : list ContestProblem) (times : Z * Z)
    (participants : list UserIdentity) (submissions : list StandingsSubmission) : StandingsBody :=
  let labels := problem_labels problems in
  let problem_ids := cp_problem_id <$> problems in
  let fview := freeze_view (freeze_minutes config) phase can_view_all revealed times.1 times.2 in
  let pre_freeze := filter (live_at (fv_freeze_start_ms fview) own_uid) submissions in
  let during_freeze := filter (λ s, ¬ live_at (fv_freeze_start_ms fview) own_uid s) submissions in
  let all_states := compute_problem_states pre_freeze (count_compile_error config) in
  let pending_map := compute_pending during_freeze all_states in
  let first_solvers := compute_first_solvers all_states (bool_decide (is_Some restricted_user_id)) in
  Board phase (fv_frozen fview) revealed (fv_can_reveal fview) (penalty_minutes config) labels
    (ranked_entries config all_states pending_map first_solvers (zip labels problem_ids)
       participants).

(** Ask the database and build the board. *)
Definition board (db : IcpcDb) (config : ContestConfig) (phase : ustring) (can_view_all revealed : bool)
    (restricted_user_id own_uid : option Z) (contest_id : Z) (problems : list ContestProblem)
    : sdk StandingsBody :=
  let freeze_possible := (0 <? freeze_minutes config)%Z && negb revealed && in_window_phase phase in
  times ← (if freeze_possible then query_contest_times db contest_id else Ok (0, 0)%Z);
  participants ← only_user id_user_id restricted_user_id <$> id_participants db contest_id;
  current ← only_user cs_user_id restricted_user_id <$> id_submissions db contest_id;
  Ok (board_of config phase can_view_all revealed restricted_user_id own_uid problems times
        participants (standings_submission <$> current)).

Definition handle_standings (db : IcpcDb) (req : PluginHttpRequest) (h : Host)
    : api StandingsBody (PluginHttpResponse StandingsBody) :=
  contest_id ← api_of (param_i32 req (u "contest_id"));
  info ← check_access (id_contest db) req contest_id;
  _ ← require_type info ICPC;
  config ← api_of (id_config db contest_id);
  problems ← api_of (id_problems db contest_id);
  let phase := ci_phase info in
  let can_view_all := has_permission req CONTEST_MANAGE in
  let revealed := bool_decide (h_data h !! reveal_key contest_id = Some (u "1")) in
  match standings_restriction phase can_view_all (public_standings config) (user_id req) with
  | RestrictedAnonymous =>
      Ok (ok_response (EmptyBoard phase (penalty_minutes config) (problem_labels problems)))
  | Unrestricted =>
      ok_response <$> api_of (board db config phase can_view_all revealed None (user_id req)
                                contest_id problems)
  | RestrictedTo uid =>
      ok_response <$> api_of (board db config phase can_view_all revealed (Some uid) (user_id req)
                                contest_id problems)
  end.

(** Set the reveal flag of a contest, once its freeze has begun. *)
Definition handle_reveal (db : IcpcDb) (req : PluginHttpRequest)
    : M (api unit (PluginHttpResponse unit)) := λ h,
  let checked : api unit Z :=
    contest_id ← api_of (param_i32 req (u "contest_id"));
    info ← check_access (id_contest db) req contest_id;
    _ ← require_type info ICPC;
    _ ← (if has_permission req CONTEST_MANAGE then Ok tt
         else api_error 403 (u "Revealing the scoreboard requires contest:manage"));
    config ← api_of (id_config db contest_id);
    opened ← (if (0 <? freeze_minutes config)%Z && in_window_phase (ci_phase info) then
                times ← api_of (query_contest_times db contest_id);
                Ok (freeze_window_start_ms (freeze_minutes config) times.1 <=? times.2)%Z
              else Ok false);
    if (opened : bool) then Ok contest_id
    else api_error 409 (u "The scoreboard freeze window has not opened yet; nothing to reveal") in
  match checked with
  | Err e => Some (Ok (Err e), h)
  | Ok contest_id =>
      (_ ← Storage.set [(reveal_key contest_id, u "1")]; mret (Ok (ok_response tt))) h
  end.
