(* ===== verification/IcpcProofs.v ===== *)
(** * IcpcProofs: the standings count what they should and leak nothing

    The score of a contestant on a problem, the balloons and the ranks are given
    by order-free specifications; a result the visibility rules hide from a
    viewer does not influence the board that viewer is shown. *)

From S2P Require Import Prelude Text Float Verdict Sdk Host VisibilityApi BracketGate Icpc.

(** ** One contestant on one problem *)

Definition rows_of (k : Z * Z) (l : list StandingsSubmission) : list StandingsSubmission :=
  filter (λ s, ss_key s = k) l.

Lemma groups_lookup l k :
  foldl push_group ∅ l !! k = (if decide (rows_of k l = []) then None else Some (rows_of k l)).
Proof.
  induction l as [|s l IH] using rev_ind; [by cbn; rewrite lookup_empty|].
  rewrite foldl_snoc. unfold rows_of in *. rewrite filter_app, filter_cons, filter_nil.
  unfold push_group at 1. destruct (decide (ss_key s = k)) as [<-|Hk].
  - rewrite lookup_insert_eq, IH. rewrite (decide_False (P := _ ++ [s] = [])) by by destruct (filter _ l).
    destruct (decide _) as [->|]; done.
  - rewrite lookup_insert_ne by done. by rewrite app_nil_r.
Qed.

(** An accepted submission before which no other one was accepted. *)
Definition first_accepted (rows : list StandingsSubmission) (ac : StandingsSubmission) : Prop :=
  ac ∈ rows ∧ is_ac ac ∧ ∀ ac', ac' ∈ rows → is_ac ac' → kle (ss_order ac) (ss_order ac') = true.

(** A penalty attempt made before every accepted submission. *)
Definition counted (cce : bool) (rows : list StandingsSubmission) (r : StandingsSubmission) : Prop :=
  is_penalty_attempt r cce = true ∧
  Forall (λ ac, is_ac ac → klt (ss_order r) (ss_order ac) = true) rows.

#[export] Instance counted_dec cce rows r : Decision (counted cce rows r).
Proof. apply _. Defined.

Section problem_states.
Context (cce : bool) (rows : list StandingsSubmission).
Context (Hnd : NoDup (ss_submission_id <$> rows)).

Local Abbreviation sorted := (sort_by_key ss_order rows).

Lemma sorted_orders x y l1 l2 :
  sorted = l1 ++ l2 → x ∈ l1 → y ∈ l2 → klt (ss_order x) (ss_order y) = true.
Proof.
  intros E Hx Hy.
  pose proof (sort_by_key_sorted ss_order rows) as Hs. rewrite E in Hs.
  pose proof (sorted_app_le _ _ _ _ _ Hs Hx Hy) as Hle.
  assert (ss_order x ≠ ss_order y) as Hne.
  { intros Heq. assert (ss_submission_id x = ss_submission_id y) as Hid by (unfold ss_order in Heq; congruence).
    assert (NoDup (ss_submission_id <$> sorted)) as Hns.
    { by rewrite (sort_by_key_perm ss_order rows). }
    rewrite E, fmap_app, NoDup_app in Hns. destruct Hns as (_ & Hno & _).
    apply (Hno (ss_submission_id x)); [by apply list_elem_of_fmap_2|].
    rewrite Hid. by apply list_elem_of_fmap_2. }
  unfold klt. apply negb_true_iff, not_true_iff_false. intros Hle'.
  apply Hne. by apply kle_antisym.
Qed.

Lemma group_state_first ac i :
  list_find is_ac sorted = Some (i, ac) → first_accepted rows ac.
Proof.
  intros (E & Hac & Hno)%list_find_spec.
  assert (ac ∈ sorted) as Hin by (rewrite E, elem_of_app; right; by left).
  split_and!; [by rewrite elem_of_sort_by_key in Hin|done|].
  intros ac' Hac' Hp. rewrite <- (elem_of_sort_by_key ss_order), E in Hac'.
  apply elem_of_app in Hac' as [Hac'|[-> |Hac']%elem_of_cons].
  - by destruct (Hno _ Hac').
  - apply kle_refl.
  - apply klt_kle. eapply (sorted_orders _ _ (take i sorted ++ [ac])); [rewrite <- app_assoc; exact E| |done].
    apply elem_of_app. right. by left.
Qed.

Lemma first_accepted_unique ac ac' : first_accepted rows ac → first_accepted rows ac' → ss_order ac = ss_order ac'.
Proof. intros (H1 & H2 & H3) (H4 & H5 & H6). apply kle_antisym; auto. Qed.

Lemma group_attempts :
  ps_attempts (group_state cce rows) = wrap32 (Z.of_nat (length (filter (counted cce rows) rows))).
Proof.
  unfold group_state. cbn [ps_attempts]. do 2 f_equal.
  transitivity (length (filter (counted cce rows) sorted)); [|by rewrite sort_by_key_perm].
  destruct (list_find is_ac sorted) as [[i ac]|] eqn:Hf.
  - pose proof (group_state_first _ _ Hf) as (Hac & Hp & Hmin).
    apply list_find_spec in Hf as (E & _ & Hno).
    rewrite E at 2. rewrite filter_app.
    rewrite (filter_none (counted cce rows) (ac :: _)), app_nil_r.
    + f_equal. apply filter_ext_elem. intros x Hx. unfold counted. split; [|tauto].
      intros Hpen. split; [done|]. apply Forall_forall. intros ac' Hac' Hp'.
      rewrite <- (elem_of_sort_by_key ss_order), E in Hac'.
      apply elem_of_app in Hac' as [Hac'|Hac']; [by destruct (Hno _ Hac')|].
      by eapply sorted_orders.
    + intros x Hx [_ Hall]. rewrite Forall_forall in Hall. specialize (Hall ac Hac Hp).
      apply elem_of_cons in Hx as [-> |Hx].
      { unfold klt in Hall. by rewrite kle_refl in Hall. }
      assert (klt (ss_order ac) (ss_order x) = true) as Hlt.
      { eapply (sorted_orders _ _ (take i sorted ++ [ac])); [rewrite <- app_assoc; exact E| |done].
        apply elem_of_app. right. by left. }
      unfold klt in Hall. by rewrite (klt_kle _ _ Hlt) in Hall.
  - apply list_find_None in Hf. rewrite firstn_all. f_equal. apply filter_ext_elem.
    intros x _. unfold counted. split; [|tauto]. intros Hpen. split; [done|].
    apply Forall_forall. intros ac Hac Hp. rewrite Forall_forall in Hf.
    rewrite <- (elem_of_sort_by_key ss_order) in Hac. by destruct (Hf ac Hac).
Qed.

Lemma group_solved : ps_solved (group_state cce rows) = true ↔ ∃ ac, ac ∈ rows ∧ is_ac ac.
Proof.
  unfold group_state. cbn [ps_solved]. rewrite bool_decide_eq_true.
  destruct (list_find is_ac sorted) as [[i ac]|] eqn:Hf.
  - split; [|by eauto]. intros _. exists ac. apply group_state_first in Hf as (? & ? & _). done.
  - split; [by intros []|]. intros (ac & Hac & Hp). apply list_find_None in Hf.
    rewrite Forall_forall in Hf. rewrite <- (elem_of_sort_by_key ss_order) in Hac.
    by destruct (Hf ac Hac).
Qed.

Lemma group_time t :
  ps_solve_time_ms (group_state cce rows) = Some t ↔
  ∃ ac, first_accepted rows ac ∧ t = Z.max 0 (ss_elapsed_ms ac).
Proof.
  unfold group_state. cbn [ps_solve_time_ms].
  destruct (list_find is_ac sorted) as [[i ac]|] eqn:Hf; cbn.
  - apply group_state_first in Hf. split; [intros [= <-]; by eauto|].
    intros (ac' & Hac' & ->). pose proof (first_accepted_unique _ _ Hf Hac') as E.
    unfold ss_order in E. by injection E as -> _.
  - split; [done|]. intros (ac & (Hac & Hp & _) & _). apply list_find_None in Hf.
    rewrite Forall_forall in Hf. rewrite <- (elem_of_sort_by_key ss_order) in Hac.
    by destruct (Hf ac Hac).
Qed.
End problem_states.

(** The score of a contestant on a problem, whatever the order in which the
    submissions are read: it exists when there is a submission, it is solved
    when one was accepted, its time is that of the first accepted one, and its
    attempts are the penalty attempts before every accepted one. *)
Theorem problem_state_spec (subs : list StandingsSubmission) (cce : bool) (k : Z * Z) :
  NoDup (ss_submission_id <$> subs) →
  match compute_problem_states subs cce !! k with
  | None => rows_of k subs = []
  | Some st =>
      rows_of k subs ≠ [] ∧
      (ps_solved st = true ↔ ∃ ac, ac ∈ rows_of k subs ∧ is_ac ac) ∧
      (∀ t, ps_solve_time_ms st = Some t ↔
         ∃ ac, first_accepted (rows_of k subs) ac ∧ t = Z.max 0 (ss_elapsed_ms ac)) ∧
      ps_attempts st =
        wrap32 (Z.of_nat (length (filter (counted cce (rows_of k subs)) (rows_of k subs))))
  end.
Proof.
  intros Hnd. unfold compute_problem_states. rewrite lookup_fmap, groups_lookup.
  destruct (decide (rows_of k subs = [])) as [E|Hne]; [done|]. cbn.
  assert (NoDup (ss_submission_id <$> rows_of k subs)) as Hnd'.
  { apply (sublist_NoDup _ (ss_submission_id <$> subs)); [done|].
    apply fmap_sublist, sublist_filter. }
  split_and!; [done|by apply (group_solved cce)|intros t; by apply (group_time cce)|by apply group_attempts].
Qed.

(** ** Balloons *)

Definition solver (states : gmap (Z * Z) ProblemState) (p : Z) (q : Z * Z) : Prop :=
  ∃ st, states !! (q.2, p) = Some st ∧ ps_solved st = true
        ∧ q.1 = default i64_max (ps_solve_time_ms st).

Definition best_solver (states : gmap (Z * Z) ProblemState) (p : Z) (q : Z * Z) : Prop :=
  solver states p q ∧ ∀ q', solver states p q' → kle q q' = true.

Lemma solver_insert states k st p q :
  states !! k = None →
  solver (<[k := st]> states) p q ↔
  (ps_solved st = true ∧ k.2 = p ∧ q = (default i64_max (ps_solve_time_ms st), k.1))
  ∨ solver states p q.
Proof.
  intros Hk. unfold solver. destruct k as [u p'], q as [t u']. cbn [fst snd]. split.
  - intros (st' & Hl & Hs & ->). apply lookup_insert_Some in Hl as [[[= <- <-] <-]|[Hne Hl]].
    + by left.
    + right. by eexists.
  - intros [(Hs & <- & [= -> ->])|(st' & Hl & Hs & ->)].
    + exists st. by rewrite lookup_insert_eq.
    + exists st'. split; [|done]. apply lookup_insert_Some. right. split; [congruence|done].
Qed.

Definition solvers_ok (best : gmap Z (Z * Z)) (states : gmap (Z * Z) ProblemState) : Prop :=
  ∀ p, match best !! p with
       | Some q => best_solver states p q
       | None => ∀ q, ¬ solver states p q
       end.

Lemma fold_solvers_ok states : solvers_ok (map_fold add_solver ∅ states) states.
Proof.
  apply (map_fold_weak_ind solvers_ok).
  { intros p. rewrite lookup_empty. intros q (st & Hl & _). by rewrite lookup_empty in Hl. }
  intros k st states' best Hk IH p. specialize (IH p). unfold add_solver.
  destruct (ps_solved st) eqn:Hs; cbn [negb].
  2: { destruct (best !! p) as [q|].
       - destruct IH as [Hq Hmin]. split; [apply solver_insert; auto|].
         intros q'. rewrite solver_insert by done. intros [[? _]|]; [congruence|auto].
       - intros q. rewrite solver_insert by done. intros [[? _]|]; [congruence|by eapply IH]. }
  destruct (decide (k.2 = p)) as [<-|Hp].
  2: { rewrite lookup_insert_ne by done. destruct (best !! p) as [q|].
       - destruct IH as [Hq Hmin]. split; [apply solver_insert; auto|].
         intros q'. rewrite solver_insert by done. intros [(_ & ? & _)|]; [done|auto].
       - intros q. rewrite solver_insert by done. intros [(_ & ? & _)|]; [done|by eapply IH]. }
  rewrite lookup_insert_eq. set (mine := (default i64_max (ps_solve_time_ms st), k.1)).
  destruct (best !! k.2) as [q|]; cbn [better_solver].
  - destruct IH as [Hq Hmin]. destruct (klt mine q) eqn:Hlt.
    + split; [apply solver_insert; auto|]. intros q'. rewrite solver_insert by done.
      intros [(_ & _ & ->)|Hq']; [apply kle_refl|].
      eapply kle_trans; [by apply klt_kle|by apply Hmin].
    + split; [apply solver_insert; auto|]. intros q'. rewrite solver_insert by done.
      intros [(_ & _ & ->)|Hq']; [by apply klt_false|auto].
  - split; [apply solver_insert; auto|]. intros q'. rewrite solver_insert by done.
    intros [(_ & _ & ->)|Hq']; [apply kle_refl|by destruct (IH q')].
Qed.

(** The balloon of a problem goes to the contestant with the earliest solve,
    and to the smaller identifier among equals; a private board shows none. *)
Theorem first_solver_spec (states : gmap (Z * Z) ProblemState) (p u : Z) :
  (compute_first_solvers states false !! p = Some u ↔ ∃ t, best_solver states p (t, u)) ∧
  compute_first_solvers states true = ∅.
Proof.
  split; [|done]. unfold compute_first_solvers. rewrite lookup_fmap.
  pose proof (fold_solvers_ok states p) as Hok.
  destruct (map_fold add_solver ∅ states !! p) as [[t u']|]; cbn.
  - split; [intros [= <-]; by eauto|]. intros (t' & Ht' & Hmin'). destruct Hok as [Ht Hmin].
    pose proof (kle_antisym _ _ (Hmin _ Ht') (Hmin' _ Ht)) as [= _ ->]. done.
  - split; [done|]. intros (t & Ht & _). by destruct (Hok (t, u)).
Qed.

(** ** Ranks *)

Definition score_of (e : StandingsEntry) : Z * Z := (se_solved e, se_penalty e).

(** More problems, or as many for a lower penalty. *)
Definition beats (a b : Z * Z) : Prop := (b.1 < a.1 ∨ a.1 = b.1 ∧ a.2 < b.2)%Z.

#[export] Instance beats_dec a b : Decision (beats a b).
Proof. unfold beats. apply _. Defined.

Definition place (scores : list (Z * Z)) (e : StandingsEntry) : nat :=
  S (length (filter (λ s, beats s (score_of e)) scores)).

Lemma place_score l a b : score_of a = score_of b → place l a = place l b.
Proof. unfold place. by intros ->. Qed.

Lemma entry_key_score a b :
  key_le entry_key a b → score_of a = score_of b ∨ beats (score_of a) (score_of b).
Proof.
  unfold key_le, entry_key, kle, Ord_prod, Ord_reverse, Ord_Z, kle, Ord_reverse, kle, Ord_Z, score_of, beats.
  cbn. destruct (Z.leb_spec (se_solved b) (se_solved a)), (Z.leb_spec (se_solved a) (se_solved b)),
    (Z.leb_spec (se_penalty a) (se_penalty b)), (Z.leb_spec (se_penalty b) (se_penalty a));
    try done; intros _; try (left; f_equal; lia); right; lia.
Qed.

Lemma beats_trans a b c : beats a b → beats b c → beats a c.
Proof. unfold beats. lia. Qed.

Lemma beats_irrefl a b : beats a b → ¬ beats b a.
Proof. unfold beats. lia. Qed.

Lemma assign_ranks_key i prev l :
  entry_key <$> assign_ranks i prev l = entry_key <$> l ∧
  se_user_id <$> assign_ranks i prev l = se_user_id <$> l ∧
  score_of <$> assign_ranks i prev l = score_of <$> l.
Proof.
  revert i prev. induction l as [|e l IH]; intros i prev; [done|].
  cbn [assign_ranks]. rewrite !fmap_cons.
  set (r := match prev with Some _ => _ | None => _ end).
  destruct (IH (S i) (Some (with_rank r e))) as (-> & -> & ->). done.
Qed.

Lemma no_later_beats pre e l s :
  StronglySorted (key_le entry_key) (pre ++ e :: l) → s ∈ score_of <$> e :: l →
  ¬ beats s (score_of e).
Proof.
  intros Hs (x & -> & Hx)%list_elem_of_fmap Hb.
  apply elem_of_cons in Hx as [-> |Hx]; [by destruct (beats_irrefl _ _ Hb)|].
  rewrite (app_assoc pre [e] l : pre ++ e :: l = (pre ++ [e]) ++ l) in Hs.
  assert (key_le entry_key e x) as Hle.
  { eapply (sorted_app_le _ _ _ _ _ Hs); [|done]. apply elem_of_app. right. by left. }
  destruct (entry_key_score _ _ Hle) as [E|E]; [rewrite E in Hb|]; by destruct (beats_irrefl _ _ Hb).
Qed.

(** An entry whose score differs from the one before is beaten by all before it. *)
Lemma place_after pre e l :
  StronglySorted (key_le entry_key) (pre ++ e :: l) →
  (∀ q, last pre = Some q → score_of q ≠ score_of e) →
  place (score_of <$> pre ++ e :: l) e = S (length pre).
Proof.
  intros Hs Hlast. unfold place. f_equal. rewrite fmap_app, filter_app.
  rewrite (filter_none _ (score_of <$> e :: l)), app_nil_r; [|intros s; by eapply no_later_beats].
  rewrite <- (length_fmap score_of pre). f_equal. apply filter_all.
  intros s (x & -> & Hx)%list_elem_of_fmap.
  destruct (last pre) as [q|] eqn:Hq; [|by apply last_None in Hq as ->; apply not_elem_of_nil in Hx].
  apply last_Some in Hq as (pre' & ->).
  assert (∀ y, y ∈ pre' ++ [q] → key_le entry_key y e) as Hle.
  { intros y Hy. eapply (sorted_app_le _ _ _ _ _ Hs); [done|by left]. }
  assert (beats (score_of q) (score_of e)) as Hqe.
  { destruct (entry_key_score q e) as [?|?]; [|by destruct (Hlast q)|done].
    apply Hle, elem_of_app. right. by left. }
  apply elem_of_app in Hx as [Hx| ->%list_elem_of_singleton]; [|done].
  rewrite <- app_assoc in Hs.
  destruct (entry_key_score x q) as [-> |?]; [|done|by eapply beats_trans].
  eapply (sorted_app_le _ _ _ _ _ Hs); [done|by left].
Qed.

Lemma assign_ranks_place pre l prev :
  StronglySorted (key_le entry_key) (pre ++ l) →
  match prev with
  | Some p => ∃ q, last pre = Some q ∧ score_of p = score_of q ∧
                   se_rank p = place (score_of <$> pre ++ l) q
  | None => pre = []
  end →
  Forall (λ e, se_rank e = place (score_of <$> pre ++ l) e) (assign_ranks (length pre) prev l).
Proof.
  revert pre prev. induction l as [|e l IH]; intros pre prev Hs Hprev; [constructor|].
  cbn [assign_ranks]. set (r := match prev with Some _ => _ | None => _ end).
  assert (r = place (score_of <$> pre ++ e :: l) e) as Hr.
  { unfold r. destruct prev as [p|].
    - destruct Hprev as (q & Hq & Hpq & Hrank). destruct (decide _) as [[E1 E2]|Hne].
      + rewrite Hrank. apply place_score. rewrite <- Hpq. unfold score_of. congruence.
      + symmetry. apply place_after; [done|]. rewrite Hq. intros ? [= <-]. rewrite <- Hpq.
        intros [= E1 E2]. by apply Hne.
    - subst pre. symmetry. by apply place_after. }
  constructor; [exact Hr|].
  specialize (IH (pre ++ [e]) (Some (with_rank r e))).
  rewrite <- app_assoc, length_app, Nat.add_1_r in IH. apply IH; [done|].
  exists e. by rewrite last_snoc.
Qed.

(** The board ranks the participants as a competition does: every participant
    has one row, rows come by solved problems, penalty and name, and the rank of
    a row is one more than the number of rows with a strictly better score, so
    that equal scores share a rank. *)
Theorem standings_ranked (config : ContestConfig) states pending first_solvers problems
    (participants : list UserIdentity) :
  let rows := ranked_entries config states pending first_solvers problems participants in
  se_user_id <$> rows ≡ₚ id_user_id <$> participants ∧
  StronglySorted (key_le entry_key) rows ∧
  Forall (λ e, se_rank e = place (score_of <$> rows) e) rows.
Proof.
  cbv zeta. unfold ranked_entries.
  set (es := mark_first_solves first_solvers problems <$> _).
  pose proof (sort_by_key_sorted entry_key es) as Hs.
  destruct (assign_ranks_key 0 None (sort_by_key entry_key es)) as (Hk & Hu & Hsc).
  split_and!.
  - rewrite Hu, (sort_by_key_perm entry_key es). unfold es. rewrite <- !list_fmap_compose.
    erewrite (list_fmap_ext _ id_user_id); [done|]. intros i p _. cbn. unfold entry_of.
    by destruct (foldl _ _ _) as [[??]?].
  - by apply (sorted_by_keys entry_key _ (sort_by_key entry_key es)).
  - rewrite Hsc. by apply (assign_ranks_place []).
Qed.

(** ** What a contestant cannot learn *)

Definition with_submissions (subs : list CurrentSubmission) (db : IcpcDb) : IcpcDb := {|
  id_contest := id_contest db; id_config := id_config db; id_problems := id_problems db;
  id_participants := id_participants db; id_submissions := λ _, Ok subs; id_times := id_times db;
  id_freeze_rows := id_freeze_rows db |}.

(** The row the visibility query reads for a submission of an ICPC contest. *)
Definition freeze_row (phase : ustring) (times : ContestTimes) (s : CurrentSubmission)
    : SubmissionFreezeRow := {|
  sf_submission_id := cs_submission_id s; sf_user_id := cs_user_id s; sf_contest_type := Some ICPC;
  sf_phase := phase; sf_duration_ms := tm_duration_ms times;
  sf_now_elapsed_ms := tm_now_elapsed_ms times; sf_submission_elapsed_ms := cs_elapsed_ms s |}.

(** The same submission with another result; a judge fault stays one. *)
Record same_submission (s1 s2 : CurrentSubmission) : Prop := {
  same_id : cs_submission_id s1 = cs_submission_id s2;
  same_user : cs_user_id s1 = cs_user_id s2;
  same_problem : cs_problem_id s1 = cs_problem_id s2;
  same_time : cs_elapsed_ms s1 = cs_elapsed_ms s2;
  same_fault : is_system_error (standings_submission s1) = is_system_error (standings_submission s2);
}.

(** Equal, or both redacted for the viewer. *)
Definition same_to (viewer : option Z) (config : ContestConfig) (revealed : bool) (phase : ustring)
    (times : ContestTimes) (s1 s2 : CurrentSubmission) : Prop :=
  s1 = s2 ∨
  same_submission s1 s2 ∧
  decide_row viewer config revealed (freeze_row phase times s1) = Redact hidden_result_mask_fields.

Definition pending_alike (s1 s2 : StandingsSubmission) : Prop :=
  ss_key s1 = ss_key s2 ∧ is_system_error s1 = is_system_error s2.

Lemma compute_pending_alike states l1 l2 :
  Forall2 pending_alike l1 l2 → compute_pending l1 states = compute_pending l2 states.
Proof.
  unfold compute_pending. generalize (∅ : gmap (Z * Z) Z) as m. intros m H. revert m.
  induction H as [|s1 s2 l1 l2 [Hk He] Hl IH]; intros m; [done|]. cbn.
  rewrite IH. f_equal. unfold add_pending. by rewrite Hk, He.
Qed.

Lemma hidden_row viewer config revealed phase times s :
  decide_row viewer config revealed (freeze_row phase times s) = Redact hidden_result_mask_fields →
  viewer ≠ Some (cs_user_id s) ∧
  must_hide_other_submission (public_standings config) (freeze_minutes config) phase revealed
    (ms_of (tm_duration_ms times)) (ms_of (tm_now_elapsed_ms times))
    (elapsed_of (cs_elapsed_ms s)) = true.
Proof.
  unfold decide_row, freeze_row. cbn. rewrite decide_False by tauto.
  destruct (decide (viewer = _)); [done|]. by destruct (must_hide_other_submission _ _ _ _ _ _ _).
Qed.

Section boards.
Context (config : ContestConfig) (phase : ustring) (revealed : bool).
Context (times : ContestTimes) (viewer : option Z).

Local Abbreviation duration := (ms_of (tm_duration_ms times)).
Local Abbreviation elapsed := (ms_of (tm_now_elapsed_ms times)).
Local Abbreviation fview := (freeze_view (freeze_minutes config) phase false revealed duration elapsed).

Lemma hidden_not_live s1 s2 :
  ((phase = BEFORE ∨ phase = DURING) → public_standings config = true) →
  same_to viewer config revealed phase times s1 s2 →
  s1 = s2 ∨ pending_alike (standings_submission s1) (standings_submission s2) ∧
            ¬ live_at (fv_freeze_start_ms fview) viewer (standings_submission s1) ∧
            ¬ live_at (fv_freeze_start_ms fview) viewer (standings_submission s2).
Proof.
  intros Hpub [-> |[[Hid Hu Hp Ht Hf] [Hv Hh]%hidden_row]]; [by left|]. right.
  assert (¬ live_at (fv_freeze_start_ms fview) viewer (standings_submission s1)) as Hnot.
  { unfold live_at, counts_as_live. cbn. unfold must_hide_other_submission in Hh.
    assert ((bool_decide (phase = BEFORE) || bool_decide (phase = DURING))
            && negb (public_standings config) = false) as Hpriv.
    { destruct (bool_decide _ || _) eqn:E; [|done]. rewrite Hpub; [done|].
      apply orb_true_iff in E as [?%bool_decide_eq_true|?%bool_decide_eq_true]; auto. }
    rewrite Hpriv, andb_true_iff in Hh. destruct Hh as [Hopen Hle]. rewrite Hopen. cbn.
    rewrite orb_true_iff, bool_decide_eq_true, Z.ltb_lt. apply Z.leb_le in Hle.
    intros [?|E]; [lia|]. by rewrite <- E in Hv. }
  split_and!; [split; [by unfold ss_key; cbn; rewrite Hu, Hp|done]|done|].
  unfold live_at, counts_as_live in *. cbn in *. by rewrite <- Ht, <- Hu.
Qed.

(** A board that shows every row does not depend on redacted results. *)
Lemma board_of_alike problems participants subs1 subs2 :
  ((phase = BEFORE ∨ phase = DURING) → public_standings config = true) →
  Forall2 (same_to viewer config revealed phase times) subs1 subs2 →
  board_of config phase false revealed None viewer problems (duration, elapsed) participants
    (standings_submission <$> subs1) =
  board_of config phase false revealed None viewer problems (duration, elapsed) participants
    (standings_submission <$> subs2).
Proof.
  intros Hpub Hsubs. unfold board_of. cbn [fst snd].
  set (live := live_at (fv_freeze_start_ms fview) viewer).
  assert (Forall2 (λ s1 s2, s1 = s2 ∨ pending_alike s1 s2 ∧ ¬ live s1 ∧ ¬ live s2)
            (standings_submission <$> subs1) (standings_submission <$> subs2)) as Hrel.
  { apply Forall2_fmap, (Forall2_impl _ _ _ _ Hsubs). intros s1 s2 Hs.
    destruct (hidden_not_live _ _ Hpub Hs) as [-> |?]; [by left|by right]. }
  assert (filter live (standings_submission <$> subs1)
          = filter live (standings_submission <$> subs2)) as ->.
  { eapply filter_related_eq; [|exact Hrel]. intros x y [-> |(_ & ? & ?)]; tauto. }
  erewrite (compute_pending_alike _ (filter (λ s, ¬ live s) (standings_submission <$> subs1)));
    [reflexivity|].
  eapply filter_related; [|exact Hrel].
  intros x y [-> |(? & ? & ?)]; [|tauto]. split; [done|by split].
Qed.

(** Without a freeze the times do not matter. *)
Lemma board_of_times can_view_all restricted problems participants subs d n d' n' :
  (0 <? freeze_minutes config)%Z && negb revealed && in_window_phase phase = false →
  board_of config phase can_view_all revealed restricted viewer problems (d, n) participants subs =
  board_of config phase can_view_all revealed restricted viewer problems (d', n') participants subs.
Proof.
  intros Hno. unfold board_of. cbn [fst snd].
  assert (∀ a b, freeze_view (freeze_minutes config) phase can_view_all revealed a b
          = {| fv_freeze_start_ms := i64_max; fv_frozen := false; fv_can_reveal := false |}) as E.
  { intros a b. unfold freeze_view, freeze_window_open. by rewrite Hno. }
  by rewrite !E.
Qed.

Lemma board_alike db contest_id problems subs1 subs2 :
  id_times db contest_id = Ok (Some times) →
  ((phase = BEFORE ∨ phase = DURING) → public_standings config = true) →
  Forall2 (same_to viewer config revealed phase times) subs1 subs2 →
  board (with_submissions subs1 db) config phase false revealed None viewer contest_id problems =
  board (with_submissions subs2 db) config phase false revealed None viewer contest_id problems.
Proof.
  intros Htimes Hpub Hsubs. unfold board, query_contest_times.
  cbn [id_times id_participants id_submissions with_submissions]. rewrite Htimes.
  destruct (_ && _ && _) eqn:Hno; cbn [mbind result_bind];
    (destruct (id_participants db contest_id) as [participants|]; [|done]);
    cbn [fmap result_fmap mbind result_bind only_user]; f_equal.
  - by apply board_of_alike.
  - rewrite !(board_of_times _ _ _ _ _ 0 0 duration elapsed) by done. by apply board_of_alike.
Qed.
End boards.

Lemma own_submissions viewer config revealed phase times subs1 subs2 :
  Forall2 (same_to (Some viewer) config revealed phase times) subs1 subs2 →
  filter (λ s, cs_user_id s = viewer) subs1 = filter (λ s, cs_user_id s = viewer) subs2.
Proof.
  intros Hsubs. eapply filter_related_eq; [|exact Hsubs].
  intros s1 s2 [-> |[Hs [Hv _]%hidden_row]]; [tauto|]. rewrite <- (same_user _ _ Hs).
  split; [done|]. intros E. by rewrite E in Hv.
Qed.

(** Redaction and the board agree: a result that the visibility rules redact
    for a viewer without the contest permission does not influence the board
    that viewer is shown, except that a judge fault is not counted as pending. *)
Theorem redacted_results_not_on_board (db : IcpcDb) (req : PluginHttpRequest) (h : Host)
    contest_id info config times subs1 subs2 :
  param_i32 req (u "contest_id") = Ok contest_id →
  db_info (id_contest db) contest_id = Ok (Some info) →
  id_config db contest_id = Ok config → id_times db contest_id = Ok (Some times) →
  has_permission req CONTEST_MANAGE = false →
  let revealed := bool_decide (h_data h !! reveal_key contest_id = Some (u "1")) in
  Forall2 (same_to (user_id req) config revealed (ci_phase info) times) subs1 subs2 →
  handle_standings (with_submissions subs1 db) req h =
  handle_standings (with_submissions subs2 db) req h.
Proof.
  intros Hparam Hinfo Hconfig Htimes Hperm revealed Hsubs.
  unfold handle_standings, check_access, load_info. rewrite Hparam.
  cbn [api_of mbind result_bind id_contest id_config id_problems with_submissions]. rewrite Hinfo.
  cbn [api_of mbind result_bind]. destruct (can_view _ _ _ _) as [[]|]; [|done..].
  cbn [api_of mbind result_bind negb]. destruct (require_type _ _); [|done].
  cbn [mbind result_bind]. rewrite Hconfig. cbn [api_of mbind result_bind].
  destruct (id_problems db contest_id) as [problems|]; [|done]. cbn [api_of mbind result_bind].
  rewrite Hperm. destruct (standings_restriction _ _ _ _) as [|uid|] eqn:Hr; [| |done].
  - erewrite board_alike; [done|done| |exact Hsubs].
    unfold standings_restriction in Hr. cbn in Hr. rewrite andb_true_r in Hr.
    destruct (public_standings config); [done|]. intros Hph. exfalso.
    destruct (bool_decide _ || _) eqn:E; [cbn in Hr; by destruct (user_id req)|].
    apply orb_false_iff in E as [?%bool_decide_eq_false ?%bool_decide_eq_false]. tauto.
  - assert (user_id req = Some uid) as Hu.
    { unfold standings_restriction in Hr. destruct (negb _); [done|].
      destruct (user_id req); [by injection Hr as ->|done]. }
    rewrite Hu in Hsubs |- *. unfold board, query_contest_times.
    cbn [id_times id_participants id_submissions with_submissions fmap result_fmap only_user].
    by rewrite (own_submissions _ _ _ _ _ _ _ Hsubs).
Qed.

(** ** The reveal *)

Definition shows_frozen (r : PluginHttpResponse StandingsBody) : bool :=
  match rs_body r with
  | Some (Body (Board _ frozen _ _ _ _ _)) => frozen
  | _ => false
  end.

Lemma board_revealed db config phase can_view_all restricted own contest_id problems b :
  board db config phase can_view_all true restricted own contest_id problems = Ok b →
  shows_frozen (ok_response b) = false.
Proof.
  unfold board. intros (times & _ & Hb)%result_bind_Ok.
  apply result_bind_Ok in Hb as (participants & _ & Hb).
  apply result_bind_Ok in Hb as (current & _ & [= <-]).
  unfold shows_frozen, board_of, freeze_view, freeze_window_open. cbn.
  by rewrite andb_false_r.
Qed.

Lemma api_of_Ok {A B} (r : sdk B) (b : B) : api_of (A := A) r = Ok b → r = Ok b.
Proof. destruct r; [by intros [= ->]|done]. Qed.

Lemma answered_body {A B} (b : sdk A) (r : PluginHttpResponse A) :
  ok_response <$> api_of (A := B) b = Ok r → ∃ b', b = Ok b' ∧ r = ok_response b'.
Proof. destruct b as [b|]; [|done]. intros [= <-]. by exists b. Qed.

Lemma standings_revealed db req h contest_id r :
  param_i32 req (u "contest_id") = Ok contest_id → h_data h !! reveal_key contest_id = Some (u "1") →
  handle_standings db req h = Ok r → shows_frozen r = false.
Proof.
  intros Hparam Hkey. unfold handle_standings. rewrite Hparam. cbn [api_of].
  intros Hr. apply result_bind_Ok in Hr as (c & [= <-] & Hr).
  apply result_bind_Ok in Hr as (info & _ & Hr). apply result_bind_Ok in Hr as (_ & _ & Hr).
  apply result_bind_Ok in Hr as (config & _ & Hr). apply result_bind_Ok in Hr as (problems & _ & Hr).
  rewrite bool_decide_true in Hr by exact Hkey.
  assert (∀ restricted,
    ok_response <$> api_of (A := StandingsBody) (board db config (ci_phase info)
      (has_permission req CONTEST_MANAGE) true restricted (user_id req) contest_id problems) = Ok r →
    shows_frozen r = false) as Hboard.
  { intros restricted (b & Hb & ->)%answered_body. by apply board_revealed in Hb. }
  destruct (standings_restriction _ _ _ _); [by eapply Hboard..|]. by injection Hr as <-.
Qed.

(** Revealing the board is for organizers and only once the freeze has begun:
    an answer other than success leaves the storage as it was; success sets the
    flag of the contest, and from then on no viewer is shown a frozen board. *)
Theorem reveal_spec (db : IcpcDb) (req : PluginHttpRequest) h r h' contest_id :
  param_i32 req (u "contest_id") = Ok contest_id →
  handle_reveal db req h = Some (Ok r, h') →
  match r with
  | Err _ => h' = h
  | Ok _ =>
      has_permission req CONTEST_MANAGE = true ∧
      (∃ info config d n,
         db_info (id_contest db) contest_id = Ok (Some info) ∧
         id_config db contest_id = Ok config ∧ query_contest_times db contest_id = Ok (d, n) ∧
         freeze_window_open (freeze_minutes config) (ci_phase info) false d n = true) ∧
      h_data h' = <[reveal_key contest_id := u "1"]> (h_data h) ∧
      ∀ req' r', param_i32 req' (u "contest_id") = Ok contest_id →
        handle_standings db req' h' = Ok r' → shows_frozen r' = false
  end.
Proof.
  intros Hparam. unfold handle_reveal.
  match goal with |- context [match ?c with Ok _ => _ | Err _ => _ end] =>
    destruct c as [c'|] eqn:Hc end; intros Hrun; [|by injection Hrun as <- <-].
  rewrite Hparam in Hc. apply result_bind_Ok in Hc as (c & [= <-] & Hc).
  apply result_bind_Ok in Hc as (info & Hinfo & Hc). apply result_bind_Ok in Hc as ([] & _ & Hc).
  apply result_bind_Ok in Hc as ([] & Hperm & Hc).
  apply result_bind_Ok in Hc as (config & Hconfig & Hc). apply result_bind_Ok in Hc as (o & Ho & Hc).
  destruct o; [injection Hc as <-|done].
  destruct ((0 <? freeze_minutes config)%Z && in_window_phase (ci_phase info)) eqn:Hwin; [|done].
  apply result_bind_Ok in Ho as ([d n] & Htimes & [= Ho]). cbn [fst snd] in Ho.
  injection Hrun as <- <-. cbn [h_data].
  assert (h_data (with_storage (<[reveal_key contest_id := u "1"]> (h_data h))
            (Storage.bump (reveal_key contest_id) h) h)
          = <[reveal_key contest_id := u "1"]> (h_data h)) as Hdata by done.
  split_and!.
  - by destruct (has_permission req CONTEST_MANAGE).
  - exists info, config, d, n. split_and!.
    + unfold check_access in Hinfo. apply result_bind_Ok in Hinfo as (i & Hi & Hv).
      apply result_bind_Ok in Hv as ([] & _ & [= <-]). unfold load_info in Hi.
      apply result_bind_Ok in Hi as ([i'|] & Hi' & Hi); [|done]. injection Hi as <-.
      by apply api_of_Ok in Hi'.
    + by apply api_of_Ok in Hconfig.
    + by apply api_of_Ok in Htimes.
    + unfold freeze_window_open. apply andb_true_iff in Hwin as [-> ->]. by rewrite Ho.
  - done.
  - intros req' r' Hp. apply standings_revealed with contest_id; [done|].
    rewrite Hdata. apply lookup_insert_eq.
Qed.

(** * A frozen contest

    A contest of five hours whose last hour is frozen, and one instance of each
    theorem of [IcpcProofs] that has hypotheses. *)

From S2P Require Import BracketExamples.

Definition ex_config : ContestConfig := {|
  penalty_minutes := 20; count_compile_error := false; show_test_details := false;
  public_standings := true; freeze_minutes := 60 |}.

Definition ex_minutes (m : Z) : option f64 := Some (f_of_Z (m * 60000)).

Definition ex_submission_at (i user minute : Z) (v : Verdict) : CurrentSubmission := {|
  cs_submission_id := i; cs_user_id := user; cs_problem_id := 5; cs_status := u "Judged";
  cs_verdict := Some v; cs_elapsed_ms := ex_minutes minute |}.

(** Contestant 2 fails once, and tries again during the freeze. *)
Definition ex_submissions (last : Verdict) : list CurrentSubmission :=
  [ex_submission_at 1 1 30 Accepted; ex_submission_at 2 2 40 WrongAnswer;
   ex_submission_at 3 2 250 last].

Definition ex_times : ContestTimes := {|
  tm_duration_ms := ex_minutes 300; tm_now_elapsed_ms := ex_minutes 260 |}.

Definition ex_info : ContestInfo := {|
  ci_contest_type := Some ICPC; ci_is_public := true; ci_is_active := true; ci_phase := DURING |}.

Definition ex_person (i : Z) : UserIdentity := {|
  id_user_id := i; id_username := show i; id_display_name := None |}.

Definition ex_db : IcpcDb := {|
  id_contest := {| db_info _ := Ok (Some ex_info); db_is_participant _ _ := Ok true;
                   db_has_problem _ _ := Ok true |};
  id_config _ := Ok ex_config;
  id_problems _ := Ok [{| cp_problem_id := 5; cp_label := None |}];
  id_participants _ := Ok [ex_person 1; ex_person 2];
  id_submissions _ := Ok (ex_submissions Accepted);
  id_times _ := Ok (Some ex_times);
  id_freeze_rows _ := Ok [] |}.

Definition ex_request (user : Z) (permissions : list ustring) : PluginHttpRequest := {|
  rq_method := u "GET"; rq_path := []; rq_params := {[ u "contest_id" := u "9" ]};
  rq_query := ∅; rq_headers := ∅; rq_body := None;
  rq_auth := Some {| pa_user_id := user; pa_username := show user; pa_roles := [];
                     pa_permissions := permissions |} |}.

(** What a viewer sees of contestant 2: rank, solved, penalty and the cell. *)
Definition ex_row (user : Z) (permissions : list ustring) :=
  match handle_standings ex_db (ex_request user permissions) (ex_host 0) with
  | Ok {| rs_body := Some (Body (Board _ frozen _ _ _ _ rows)) |} =>
      Some (frozen, (λ e, (se_rank e, se_solved e, se_penalty e,
                             (λ c, (pc_attempts c, pc_pending c)) <$> se_problems e !! u "A"))
                      <$> filter (λ e, se_user_id e = 2%Z) rows)
  | _ => None
  end.

(** Contestant 1 sees a pending attempt, contestant 2 and the organizer the solve. *)
Example ex_rival : ex_row 1 [] = Some (true, [(2%nat, 0, 0, Some (1, Some 1))])%Z.
Proof. by_vm. Qed.
Example ex_own : ex_row 2 [] = Some (true, [(2%nat, 1, 270, Some (1, None))])%Z.
Proof. by_vm. Qed.
Example ex_organizer : ex_row 3 [CONTEST_MANAGE] = Some (false, [(2%nat, 1, 270, Some (1, None))])%Z.
Proof. by_vm. Qed.

Lemma problem_state_spec_witness :
  let subs := standings_submission <$> ex_submissions Accepted in
  match compute_problem_states subs false !! (2, 5)%Z with
  | None => rows_of (2, 5)%Z subs = []
  | Some st =>
      rows_of (2, 5)%Z subs ≠ [] ∧
      (ps_solved st = true ↔ ∃ ac, ac ∈ rows_of (2, 5)%Z subs ∧ is_ac ac) ∧
      (∀ t, ps_solve_time_ms st = Some t ↔
         ∃ ac, first_accepted (rows_of (2, 5)%Z subs) ac ∧ t = Z.max 0 (ss_elapsed_ms ac)) ∧
      ps_attempts st =
        wrap32 (Z.of_nat (length (filter (counted false (rows_of (2, 5)%Z subs))
                                    (rows_of (2, 5)%Z subs))))
  end.
Proof. apply (problem_state_spec _ false (2, 5)%Z). by_decide. Defined.

Lemma redacted_results_not_on_board_witness :
  handle_standings (with_submissions (ex_submissions Accepted) ex_db) (ex_request 1 []) (ex_host 0) =
  handle_standings (with_submissions (ex_submissions WrongAnswer) ex_db) (ex_request 1 []) (ex_host 0).
Proof.
  apply (redacted_results_not_on_board ex_db (ex_request 1 []) (ex_host 0) 9 ex_info ex_config
           ex_times).
  1-5: by_vm.
  constructor; [by left|constructor; [by left|constructor; [right|constructor]]].
  split; [split; by_vm|by_vm].
Defined.

Definition ex_revealed : option (result SdkError (api unit (PluginHttpResponse unit)) * Host) :=
  handle_reveal ex_db (ex_request 3 [CONTEST_MANAGE]) (ex_host 0).

Lemma reveal_spec_witness :
  ∃ h', ex_revealed = Some (Ok (Ok (ok_response tt)), h') ∧
        h_data h' = <[reveal_key 9 := u "1"]> (h_data (ex_host 0)).
Proof.
  eexists. split; [unfold ex_revealed; reflexivity|].
  eapply (reveal_spec ex_db (ex_request 3 [CONTEST_MANAGE]) (ex_host 0) (Ok (ok_response tt)) _ 9);
    [by_vm|reflexivity].
Defined.
