(* ===== verification/Compare.v ===== *)
(** [broccoli-compare]: the native output comparator
    (packages/broccoli-compare/src/modes.rs and main.rs).

    A [std::io::Read] is a class of readers; the byte and error events a reader
    still has to deliver are its script. Every loop of the source takes the fuel
    of the whole run; [CompareProofs] shows how much is enough. A function
    returns [None] when the fuel runs out, else its [io::Result] and the state
    it leaves. *)

From Stdlib Require Import SpecFloat.
From stdpp Require Import base list numbers.
From S2P Require Import Prelude.
From S2P Require Import Text.
From S2P Require Import Float.

(** ** Readers *)

(** [std::io::ErrorKind]: the kinds the source tells apart, and the others. *)
Inductive ErrorKind := InvalidData | InvalidInput | Interrupted | OtherKind (code : Z).

#[global] Instance ErrorKind_eq_dec : EqDecision ErrorKind.
Proof. solve_decision. Defined.

(** [read cap]: at most [cap] bytes; no byte at all is the end of the stream. *)
Class Read (R : Type) := read : nat → R → result ErrorKind (list Z) * R.

Definition outcome (S A : Type) : Type := option (result ErrorKind A * S).

(** [read_some]: a read that is interrupted is tried again. *)
Fixpoint read_some {R} `{Read R} (fuel cap : nat) (r : R) : outcome R (list Z) :=
  match fuel with
  | O => None
  | S fuel =>
      match read cap r with
      | (Ok n, r) => Some (Ok n, r)
      | (Err Interrupted, r) => read_some fuel cap r
      | (Err e, r) => Some (Err e, r)
      end
  end.

(** A reader given by the events it has left. A chunk longer than the buffer is
    delivered in parts; an empty chunk is an end of stream. *)
Inductive read_event := Chunk (bs : list Z) | Fails (e : ErrorKind).

#[export] Instance Read_script : Read (list read_event) := λ cap s,
  match s with
  | [] => (Ok [], [])
  | Chunk bs :: s =>
      if decide (length bs ≤ cap) then (Ok bs, s) else (Ok (take cap bs), Chunk (drop cap bs) :: s)
  | Fails e :: s => (Err e, s)
  end.

(** ** Verdicts *)

Inductive Verdict := Accepted | WrongAnswer.

#[global] Instance Verdict_eq_dec : EqDecision Verdict.
Proof. solve_decision. Defined.

Definition exit_code (v : Verdict) : Z := match v with Accepted => 0 | WrongAnswer => 1 end.

Definition message (v : Verdict) : ustring :=
  match v with Accepted => u "Accepted" | WrongAnswer => u "Wrong Answer" end.

Definition CHUNK : nat := N.to_nat 65536.

(** ** Byte comparison *)

Section exact.
Context {Out Ans : Type} `{Read Out, Read Ans}.

(** One stream of [compare_exact]: its buffer, the slice of it that is not
    matched yet, and whether the stream has ended. *)
Record side := Side { buf : list Z; lo : nat; hi : nat; done : bool }.

Definition fresh_side : side := Side (replicate CHUNK 0%Z) 0 0 false.

(** The bytes [buf[lo..lo + n]]. *)
Definition slice (s : side) (n : nat) : list Z := take n (drop (lo s) (buf s)).

Definition refill {R} `{Read R} (fuel : nat) (s : side) (r : R) : outcome (side * R) unit :=
  if (lo s =? hi s)%nat && negb (done s) then
    match read_some fuel (length (buf s)) r with
    | None => None
    | Some (Err e, r) => Some (Err e, (s, r))
    | Some (Ok bs, r) =>
        Some (Ok (), (Side (bs ++ drop (length bs) (buf s)) 0 (length bs) (bool_decide (bs = [])), r))
    end
  else Some (Ok (), (s, r)).

Definition advance (n : nat) (s : side) : side := Side (buf s) (lo s + n) (hi s) (done s).

Definition exhausted (s : side) : bool := (lo s =? hi s)%nat && done s.

Fixpoint compare_exact_loop (fuel inner : nat) (out ans : side) (output : Out) (answer : Ans)
    : outcome Out Verdict :=
  match fuel with
  | O => None
  | S fuel =>
      match refill inner out output with
      | None => None
      | Some (Err e, (_, output)) => Some (Err e, output)
      | Some (Ok _, (out, output)) =>
          match refill inner ans answer with
          | None => None
          | Some (Err e, _) => Some (Err e, output)
          | Some (Ok _, (ans, answer)) =>
              let n := (hi out - lo out) `min` (hi ans - lo ans) in
              if decide (slice out n ≠ slice ans n) then Some (Ok WrongAnswer, output)
              else
                let out := advance n out in
                let ans := advance n ans in
                let out_empty := exhausted out in
                let ans_empty := exhausted ans in
                if out_empty && ans_empty then Some (Ok Accepted, output)
                else if (out_empty && (lo ans <? hi ans)%nat) || (ans_empty && (lo out <? hi out)%nat)
                then Some (Ok WrongAnswer, output)
                else compare_exact_loop fuel inner out ans output answer
          end
      end
  end.

Definition compare_exact (fuel : nat) (output : Out) (answer : Ans) : outcome Out Verdict :=
  compare_exact_loop fuel fuel fresh_side fresh_side output answer.
End exact.

(** ** Characters *)

Record CharStream (R : Type) := {
  reader : R;
  pending : list Z;      (* bytes not decoded yet *)
  chars : list Z;        (* characters not handed out yet *)
  eof : bool;
}.
Arguments reader {R} _.
Arguments pending {R} _.
Arguments chars {R} _.
Arguments eof {R} _.

Section streams.
Context {R : Type} `{Read R}.

Definition new_chars (r : R) : CharStream R :=
  {| reader := r; pending := []; chars := []; eof := false |}.

Definition fill (fuel : nat) (st : CharStream R) : outcome (CharStream R) unit :=
  match read_some fuel CHUNK (reader st) with
  | None => None
  | Some (Err e, r) =>
      Some (Err e, {| reader := r; pending := pending st; chars := chars st; eof := eof st |})
  | Some (Ok bs, r) =>
      let '(end_seen, bytes) := match bs with
                                | [] => (true, pending st)
                                | _ => (eof st, pending st ++ bs)
                                end in
      match from_utf8 bytes with
      | Ok valid =>
          Some (Ok (), {| reader := r; pending := []; chars := chars st ++ valid; eof := end_seen |})
      | Err e =>
          let kept := {| reader := r; pending := bytes; chars := chars st; eof := end_seen |} in
          if error_len_is_some e then Some (Err InvalidData, kept)
          else if (valid_up_to e =? 0)%nat then Some (Ok (), kept)
          else
            match from_utf8 (take (valid_up_to e) bytes) with
            | Err _ => Some (Err InvalidData, kept)
            | Ok valid =>
                Some (Ok (), {| reader := r; pending := drop (valid_up_to e) bytes;
                                chars := chars st ++ valid; eof := end_seen |})
            end
      end
  end.

Fixpoint next_char_loop (fuel inner : nat) (st : CharStream R) : outcome (CharStream R) (option Z) :=
  match fuel with
  | O => None
  | S fuel =>
      match chars st with
      | ch :: rest =>
          Some (Ok (Some ch),
                {| reader := reader st; pending := pending st; chars := rest; eof := eof st |})
      | [] =>
          if eof st then
            match pending st with
            | [] => Some (Ok None, st)
            | _ => Some (Err InvalidData, st)
            end
          else
            match fill inner st with
            | None => None
            | Some (Err e, st) => Some (Err e, st)
            | Some (Ok _, st) => next_char_loop fuel inner st
            end
      end
  end.

Definition next_char (fuel : nat) (st : CharStream R) : outcome (CharStream R) (option Z) :=
  next_char_loop fuel fuel st.

(** ** Tokens *)

Record TokenStream := { token_chars : CharStream R; partial : ustring }.

Definition new_tokens (r : R) : TokenStream := {| token_chars := new_chars r; partial := [] |}.

Fixpoint next_token_loop (fuel inner : nat) (st : TokenStream) : outcome TokenStream (option ustring) :=
  match fuel with
  | O => None
  | S fuel =>
      match next_char inner (token_chars st) with
      | None => None
      | Some (Err e, cs) => Some (Err e, {| token_chars := cs; partial := partial st |})
      | Some (Ok None, cs) =>
          match partial st with
          | [] => Some (Ok None, {| token_chars := cs; partial := [] |})
          | tok => Some (Ok (Some tok), {| token_chars := cs; partial := [] |})
          end
      | Some (Ok (Some ch), cs) =>
          if is_whitespace ch then
            match partial st with
            | [] => next_token_loop fuel inner {| token_chars := cs; partial := [] |}
            | tok => Some (Ok (Some tok), {| token_chars := cs; partial := [] |})
            end
          else next_token_loop fuel inner {| token_chars := cs; partial := partial st ++ [ch] |}
      end
  end.

Definition next_token (fuel : nat) (st : TokenStream) : outcome TokenStream (option ustring) :=
  next_token_loop fuel fuel st.

(** ** Lines *)

Record LineStream := {
  line_chars : CharStream R;
  current : ustring;
  pending_empty : nat;
  flush_empty : nat;
  queued : list ustring;
}.

Definition new_lines (r : R) : LineStream :=
  {| line_chars := new_chars r; current := []; pending_empty := 0; flush_empty := 0; queued := [] |}.

Definition with_text (st : LineStream) (cs : CharStream R) (cur : ustring) : LineStream :=
  {| line_chars := cs; current := cur; pending_empty := pending_empty st;
     flush_empty := flush_empty st; queued := queued st |}.

Definition with_empties (st : LineStream) (pend flush : nat) (q : list ustring) : LineStream :=
  {| line_chars := line_chars st; current := current st; pending_empty := pend;
     flush_empty := flush; queued := q |}.

(** [if current.ends_with('\r') { current.pop() }]. *)
Definition drop_cr (s : ustring) : ustring := default s (strip_suffix [13%Z] s).

Fixpoint next_raw_line_loop (fuel inner : nat) (st : LineStream) : outcome LineStream (option ustring) :=
  match fuel with
  | O => None
  | S fuel =>
      match next_char inner (line_chars st) with
      | None => None
      | Some (Err e, cs) => Some (Err e, with_text st cs (current st))
      | Some (Ok (Some ch), cs) =>
          if (ch =? 10)%Z then Some (Ok (Some (drop_cr (current st))), with_text st cs [])
          else next_raw_line_loop fuel inner (with_text st cs (current st ++ [ch]))
      | Some (Ok None, cs) =>
          match current st with
          | [] => Some (Ok None, with_text st cs [])
          | line => Some (Ok (Some line), with_text st cs [])
          end
      end
  end.

Fixpoint next_line_loop (fuel inner : nat) (st : LineStream) : outcome LineStream (option ustring) :=
  match fuel with
  | O => None
  | S fuel =>
      match flush_empty st with
      | S n => Some (Ok (Some []), with_empties st (pending_empty st) n (queued st))
      | O =>
          match queued st with
          | line :: rest => Some (Ok (Some line), with_empties st (pending_empty st) 0 rest)
          | [] =>
              match next_raw_line_loop inner inner st with
              | None => None
              | Some (Err e, st) => Some (Err e, st)
              | Some (Ok None, st) => Some (Ok None, with_empties st 0 (flush_empty st) (queued st))
              | Some (Ok (Some raw), st) =>
                  match trim_end raw with
                  | [] => next_line_loop fuel inner
                            (with_empties st (S (pending_empty st)) (flush_empty st) (queued st))
                  | line => next_line_loop fuel inner
                              (with_empties st 0 (pending_empty st) (queued st ++ [line]))
                  end
              end
          end
      end
  end.

Definition next_line (fuel : nat) (st : LineStream) : outcome LineStream (option ustring) :=
  next_line_loop fuel fuel st.
End streams.
Arguments TokenStream R : clear implicits.
Arguments LineStream R : clear implicits.

(** ** Comparison of two streams *)

Inductive TokenMode :=
  | Exact
  | CaseInsensitive
  | Floating (abs_tol rel_tol : f64).

(** [f64::abs] and [f64::max] (a NaN argument is ignored). *)
Definition f_abs (x : f64) : f64 :=
  match x with
  | S754_zero _ => S754_zero false
  | S754_infinity _ => S754_infinity false
  | S754_nan => S754_nan
  | S754_finite _ m e => S754_finite false m e
  end.

(** [str::to_lowercase] follows the case tables of Unicode: [to_lowercase] is
    that function. *)
Definition tokens_match (to_lowercase : ustring → ustring) (expected actual : ustring) (mode : TokenMode)
    : bool :=
  match mode with
  | Exact => bool_decide (expected = actual)
  | CaseInsensitive => bool_decide (to_lowercase expected = to_lowercase actual)
  | Floating abs_tol rel_tol =>
      match parse_f64 expected, parse_f64 actual with
      | Some exp_f, Some act_f =>
          if negb (is_finite exp_f) || negb (is_finite act_f) then
            (is_nan exp_f && is_nan act_f) || f_eqb exp_f act_f
          else
            let diff := f_abs (f_sub exp_f act_f) in
            let tolerance := f_max abs_tol (f_mul rel_tol (f_max (f_abs exp_f) (f_abs act_f))) in
            f_leb diff tolerance
      | _, _ => bool_decide (expected = actual)
      end
  end.

(** The loop [compare_tokens] and [compare_lines] share: an element of each
    stream per turn; text of the solution that is not UTF-8 is a wrong answer,
    any other error is one of the comparator. *)
Section pairwise.
Context {S1 T E : Type} (next_out : S1 → outcome S1 (option E)) (next_ans : T → outcome T (option E)).
Context (matches : E → E → bool).

Fixpoint compare_pairs (fuel : nat) (out : S1) (ans : T) : outcome S1 Verdict :=
  match fuel with
  | O => None
  | S fuel =>
      match next_out out with
      | None => None
      | Some (Err InvalidData, out) => Some (Ok WrongAnswer, out)
      | Some (Err e, out) => Some (Err e, out)
      | Some (Ok o, out) =>
          match next_ans ans with
          | None => None
          | Some (Err e, _) => Some (Err e, out)
          | Some (Ok a, ans) =>
              match o, a with
              | Some o, Some a =>
                  if negb (matches a o) then Some (Ok WrongAnswer, out)
                  else compare_pairs fuel out ans
              | None, None => Some (Ok Accepted, out)
              | _, _ => Some (Ok WrongAnswer, out)
              end
          end
      end
  end.
End pairwise.

Section compare.
Context {Out Ans : Type} `{Read Out, Read Ans} (to_lowercase : ustring → ustring).

(** The caller keeps the reader of the output. *)
Definition compare_tokens (fuel : nat) (output : Out) (answer : Ans) (mode : TokenMode) : outcome Out Verdict :=
  prod_map id (λ st, reader (token_chars st)) <$>
    compare_pairs (next_token fuel) (next_token fuel) (λ a o, tokens_match to_lowercase a o mode)
      fuel (new_tokens output) (new_tokens answer).

Definition compare_lines (fuel : nat) (output : Out) (answer : Ans) : outcome Out Verdict :=
  prod_map id (λ st, reader (line_chars st)) <$>
    compare_pairs (next_line fuel) (next_line fuel) (λ a o, bool_decide (o = a))
      fuel (new_lines output) (new_lines answer).
End compare.

(** ** The command line (main.rs) *)

(** 1e-9 and 1e-6. *)
Definition DEFAULT_ABS_TOL : f64 := f_of_decimal false 1 (-9).
Definition DEFAULT_REL_TOL : f64 := f_of_decimal false 1 (-6).

Definition INLINE_OUTPUT_PREVIEW_BYTES : nat := N.to_nat 65536.

Record Args := {
  arg_mode : ustring;
  arg_answer : ustring;
  epsilon : option f64;
  rel_epsilon : option f64;
}.

(** The errors of [anyhow] that [run] returns, by their cause. *)
Inductive cli_error :=
  | MissingValue (flag : ustring)
  | InvalidValue (flag raw : ustring)
  | UnknownArgument (arg : ustring)
  | MissingMode
  | MissingAnswer
  | OpeningAnswer (e : ErrorKind)
  | Comparing (e : ErrorKind).

(** The options seen so far while [parse_args] walks the arguments. *)
Record parsed := {
  p_mode : option ustring;
  p_answer : option ustring;
  p_epsilon : option f64;
  p_rel_epsilon : option f64;
}.

Definition parse_value (flag raw : ustring) : result cli_error f64 :=
  ok_or (parse_f64 raw) (InvalidValue flag raw).

Fixpoint parse_loop (iter : list ustring) (p : parsed) : result cli_error parsed :=
  match iter with
  | [] => Ok p
  | arg :: iter =>
      if decide (arg = u "--mode") then
        match iter with
        | [] => Err (MissingValue arg)
        | v :: iter => parse_loop iter {| p_mode := Some v; p_answer := p_answer p;
                                          p_epsilon := p_epsilon p; p_rel_epsilon := p_rel_epsilon p |}
        end
      else if decide (arg = u "--answer") then
        match iter with
        | [] => Err (MissingValue arg)
        | v :: iter => parse_loop iter {| p_mode := p_mode p; p_answer := Some v;
                                          p_epsilon := p_epsilon p; p_rel_epsilon := p_rel_epsilon p |}
        end
      else if decide (arg = u "--epsilon") then
        match iter with
        | [] => Err (MissingValue arg)
        | raw :: iter =>
            x ← parse_value arg raw;
            parse_loop iter {| p_mode := p_mode p; p_answer := p_answer p;
                               p_epsilon := Some x; p_rel_epsilon := p_rel_epsilon p |}
        end
      else if decide (arg = u "--rel-epsilon") then
        match iter with
        | [] => Err (MissingValue arg)
        | raw :: iter =>
            x ← parse_value arg raw;
            parse_loop iter {| p_mode := p_mode p; p_answer := p_answer p;
                               p_epsilon := p_epsilon p; p_rel_epsilon := Some x |}
        end
      else Err (UnknownArgument arg)
  end.

Definition parse_args (iter : list ustring) : result cli_error Args :=
  p ← parse_loop iter {| p_mode := None; p_answer := None; p_epsilon := None; p_rel_epsilon := None |};
  mode ← ok_or (p_mode p) MissingMode;
  answer ← ok_or (p_answer p) MissingAnswer;
  Ok {| arg_mode := mode; arg_answer := answer; epsilon := p_epsilon p; rel_epsilon := p_rel_epsilon p |}.

Definition compare {Out Ans} `{Read Out, Read Ans} (to_lowercase : ustring → ustring) (fuel : nat)
    (args : Args) (output : Out) (answer : Ans) : outcome Out Verdict :=
  let mode := arg_mode args in
  if decide (mode = u "exact") then compare_exact fuel output answer
  else if decide (mode = u "tokens") then compare_tokens to_lowercase fuel output answer Exact
  else if decide (mode = u "tokens-case-insensitive") then
    compare_tokens to_lowercase fuel output answer CaseInsensitive
  else if decide (mode = u "tokens-float") then
    compare_tokens to_lowercase fuel output answer
      (Floating (default DEFAULT_ABS_TOL (epsilon args)) (default DEFAULT_REL_TOL (rel_epsilon args)))
  else if decide (mode = u "lines") then compare_lines fuel output answer
  else Some (Err InvalidInput, output).

(** A [std::io::Write] sink; [false] is a failed operation. *)
Class Write (W : Type) := {
  write_all : list Z → W → bool * W;
  flush : W → bool * W;
}.

Record TeeReader (R W : Type) := { inner : R; preview : option W; captured : nat }.
Arguments inner {R W} _.
Arguments preview {R W} _.
Arguments captured {R W} _.

Section tee.
Context {R W : Type} `{Read R, Write W}.

Definition new_tee (r : R) (sink : option W) : TeeReader R W :=
  {| inner := r; preview := sink; captured := 0 |}.

Definition tee (chunk : list Z) (t : TeeReader R W) : TeeReader R W :=
  match preview t with
  | Some sink =>
      if (captured t <? INLINE_OUTPUT_PREVIEW_BYTES)%nat then
        let remaining := INLINE_OUTPUT_PREVIEW_BYTES - captured t in
        let take_n := remaining `min` length chunk in
        match write_all (take take_n chunk) sink with
        | (true, sink) =>
            {| inner := inner t; preview := Some sink; captured := captured t + take_n |}
        | (false, _) => {| inner := inner t; preview := None; captured := captured t |}
        end
      else t
  | None => t
  end.

#[export] Instance Read_tee : Read (TeeReader R W) := λ cap t,
  let '(x, r) := read cap (inner t) in
  let t := {| inner := r; preview := preview t; captured := captured t |} in
  match x with
  | Ok [] => (Ok [], t)
  | Ok bs => (Ok bs, tee bs t)
  | Err e => (Err e, t)
  end.

Fixpoint drain_to_eof (fuel : nat) (t : TeeReader R W) : outcome (TeeReader R W) unit :=
  match fuel with
  | O => None
  | S fuel =>
      match read CHUNK t with
      | (Ok [], t) => Some (Ok (), t)
      | (Ok _, t) => drain_to_eof fuel t
      | (Err Interrupted, t) => drain_to_eof fuel t
      | (Err e, t) => Some (Err e, t)
      end
  end.

Definition flush_preview (t : TeeReader R W) : bool * TeeReader R W :=
  match preview t with
  | Some sink =>
      let '(ok, sink) := flush sink in
      (ok, {| inner := inner t; preview := Some sink; captured := captured t |})
  | None => (true, t)
  end.

(** The verdict decides; draining and flushing only warn. *)
Definition finalize (verdict : result ErrorKind Verdict) (drained : result ErrorKind unit)
    (flushed : bool) : result cli_error Verdict :=
  match verdict with Ok v => Ok v | Err e => Err (Comparing e) end.

(** [open path]: the answer file; [stdin] and [stdout] are the process's. *)
Definition run {Ans} `{Read Ans} (to_lowercase : ustring → ustring) (fuel : nat) (argv : list ustring)
    (open : ustring → result ErrorKind Ans) (stdin : R) (stdout : W)
    : option (result cli_error Verdict * option W) :=
  match parse_args argv with
  | Err e => Some (Err e, Some stdout)
  | Ok args =>
      match open (arg_answer args) with
      | Err e => Some (Err (OpeningAnswer e), Some stdout)
      | Ok answer =>
          match compare to_lowercase fuel args (new_tee stdin (Some stdout)) answer with
          | None => None
          | Some (verdict, output) =>
              match drain_to_eof fuel output with
              | None => None
              | Some (drained, output) =>
                  let '(flushed, output) := flush_preview output in
                  Some (finalize verdict drained flushed, preview output)
              end
          end
      end
  end.

(** The exit code of the process. *)
Definition main (r : result cli_error Verdict) : Z :=
  match r with Ok v => exit_code v | Err _ => 64%Z end.
End tee.
