(* ===== verification/CompareProofs.v ===== *)
(** The comparator of [Compare] is correct: however the two streams are cut into
    reads, the verdict is that of comparing the whole contents, and every run
    ends. *)

From stdpp Require Import base list numbers.
From S2P Require Import Prelude.
From S2P Require Import Text.
From S2P Require Import Float.
From S2P Require Import Compare.

(** ** Readers and their contents *)

(** A reader behaves as its script does. *)
Class ReadLaws (R : Type) `{Read R} := {
  script : R → list read_event;
  script_read cap r : read cap (script r) = prod_map id script (read cap r);
}.

#[export] Instance ReadLaws_script : ReadLaws (list read_event).
Proof. refine {| script := id |}. intros cap r. unfold prod_map. simpl. by destruct (read cap r). Defined.

(** The bytes up to the first end of stream or error, and that error. *)
Fixpoint content (s : list read_event) : list Z * option ErrorKind :=
  match s with
  | [] => ([], None)
  | Chunk [] :: _ => ([], None)
  | Chunk bs :: s => (bs ++ (content s).1, (content s).2)
  | Fails Interrupted :: s => content s
  | Fails e :: _ => ([], Some e)
  end.

(** The reads a script can take, at most. *)
Fixpoint weight (s : list read_event) : nat :=
  match s with
  | [] => 0
  | Chunk bs :: s => S (length bs) + weight s
  | Fails _ :: s => S (weight s)
  end.

Lemma content_length s : length (content s).1 ≤ weight s.
Proof.
  induction s as [|[[|b bs]|[]] s IH]; simpl; rewrite ?length_app; lia.
Qed.

Lemma chunk_positive : 0 < CHUNK.
Proof. unfold CHUNK. lia. Qed.

#[local] Opaque CHUNK.

Lemma read_some_spec {R} `{ReadLaws R} fuel cap (r : R) :
  weight (script r) < fuel → 0 < cap →
  ∃ x r', read_some fuel cap r = Some (x, r') ∧
    match x with
    | Ok [] => content (script r) = ([], None)
    | Ok bs => content (script r) = (bs ++ (content (script r')).1, (content (script r')).2)
               ∧ length bs ≤ cap
    | Err e => content (script r) = ([], Some e)
    end ∧
    match x with Ok bs => weight (script r') + length bs ≤ weight (script r) | Err _ => True end.
Proof.
  intros Hfuel Hcap. revert r Hfuel. induction fuel as [|fuel IH]; intros r Hfuel; [lia|].
  simpl. pose proof (script_read cap r) as Hr.
  destruct (read cap r) as [x r'] eqn:E. unfold prod_map in Hr. simpl in Hr.
  destruct (script r) as [|[bs|e] s] eqn:Es; simpl in *.
  - injection Hr as <- Hs. exists (Ok []), r'. rewrite <-Hs. split_and!; simpl; lia || done.
  - change (read cap (Chunk bs :: s)) with
      (if decide (length bs ≤ cap) then (Ok (E:=ErrorKind) bs, s)
       else (Ok (take cap bs), Chunk (drop cap bs) :: s)) in Hr.
    case_decide as Hlen; injection Hr as <- Hs.
    + exists (Ok bs), r'. rewrite <-Hs. split_and!; [done| |lia]. by destruct bs.
    + exists (Ok (take cap bs)), r'. rewrite <-Hs.
      assert (∃ b bs', take cap bs = b :: bs') as (b & bs' & Hb).
      { destruct bs, cap; simpl in *; try lia. eauto. }
      assert (∃ b bs', drop cap bs = b :: bs') as (d & ds & Hd).
      { destruct (drop cap bs) eqn:Hd; [|eauto]. apply (f_equal length) in Hd.
        rewrite length_drop in Hd. simpl in Hd. lia. }
      split_and!; [done| |].
      * rewrite Hb. split; [|rewrite <-Hb, length_take; lia].
        rewrite <-Hb. simpl. rewrite Hd. rewrite <-Hd. simpl.
        rewrite (assoc_L (++)), take_drop. by destruct bs; simpl in *; [lia|].
      * simpl. rewrite length_drop, length_take. lia.
  - change (read cap (Fails e :: s)) with (Err (A:=list Z) e, s) in Hr.
    injection Hr as <- Hs.
    destruct e; [by exists (Err InvalidData), r'|by exists (Err InvalidInput), r'| |by eexists (Err (OtherKind _)), r'].
    destruct (IH r') as (x & r'' & Hx & H1 & H2); [rewrite <-Hs; lia|].
    exists x, r''. split; [done|]. rewrite <-Hs in *. split; [done|]. by destruct x; [lia|].
Qed.

(** ** Byte comparison *)

(** The specification: the first position at which the contents differ, or at
    which a stream ends or fails, decides. The output is read first. *)
Fixpoint exact_spec (bs : list Z) (eo : option ErrorKind) (bs' : list Z) (ea : option ErrorKind)
    : result ErrorKind Verdict :=
  match bs, bs' with
  | b :: bs, b' :: bs' => if decide (b = b') then exact_spec bs eo bs' ea else Ok WrongAnswer
  | [], _ =>
      match eo with
      | Some e => Err e
      | None =>
          match bs', ea with
          | [], Some e => Err e
          | [], None => Ok Accepted
          | _, _ => Ok WrongAnswer
          end
      end
  | _, [] => match ea with Some e => Err e | None => Ok WrongAnswer end
  end.

Lemma exact_spec_accepted bs eo bs' ea :
  exact_spec bs eo bs' ea = Ok Accepted ↔ bs = bs' ∧ eo = None ∧ ea = None.
Proof.
  revert bs'. induction bs as [|b bs IH]; intros [|b' bs']; simpl; repeat case_match;
    rewrite ?IH; naive_solver.
Qed.

Lemma exact_spec_app p x eo y ea q :
  length p = length q →
  exact_spec (p ++ x) eo (q ++ y) ea =
    if decide (p = q) then exact_spec x eo y ea else Ok WrongAnswer.
Proof.
  revert q. induction p as [|b p IH]; intros [|c q] Hl; simplify_eq/=; [done|].
  rewrite IH by done. repeat case_decide; naive_solver.
Qed.

Section exact.
Context {Out Ans : Type} `{ReadLaws Out, ReadLaws Ans}.

Definition pend (s : side) : list Z := slice s (hi s - lo s).

Definition side_ok (s : side) : Prop := lo s ≤ hi s ≤ length (buf s) ∧ length (buf s) = CHUNK.

(** What a stream has left: its unmatched slice and the reader's content. *)
Definition left_of {R} `{ReadLaws R} (s : side) (r : R) : list Z * option ErrorKind :=
  if done s then (pend s, None) else (pend s ++ (content (script r)).1, (content (script r)).2).

Lemma length_pend s : side_ok s → length (pend s) = hi s - lo s.
Proof. intros [? ?]. unfold pend, slice. rewrite length_take, length_drop. lia. Qed.

Lemma pend_nil s : side_ok s → pend s = [] ↔ lo s = hi s.
Proof.
  intros Hok. rewrite <-length_zero_iff_nil, length_pend by done. destruct Hok. lia.
Qed.

Lemma fresh_side_ok : side_ok fresh_side.
Proof. unfold side_ok, fresh_side. cbn [lo hi buf]. rewrite length_replicate. lia. Qed.

Lemma refill_spec {R} `{ReadLaws R} fuel s (r : R) :
  side_ok s → weight (script r) < fuel →
  ∃ x s' r', refill fuel s r = Some (x, (s', r')) ∧
    match x with
    | Ok _ => side_ok s' ∧ left_of s' r' = left_of s r ∧ (pend s' = [] → done s' = true)
              ∧ weight (script r') ≤ weight (script r)
    | Err e => left_of s r = ([], Some e)
    end.
Proof.
  intros Hok Hfuel. unfold refill.
  destruct (_ && _) eqn:E.
  - apply andb_true_iff in E as [El Ed]. apply Nat.eqb_eq in El. apply negb_true_iff in Ed.
    assert (pend s = []) as Hp by by apply pend_nil.
    destruct (read_some_spec fuel (length (buf s)) r Hfuel) as (x & r' & -> & Hx & Hw).
    { destruct Hok as [_ ->]. apply chunk_positive. }
    destruct x as [bs|e]; eexists _, _, r'; split; try done; unfold left_of; rewrite ?Ed, ?Hp, ?Hx; [|done].
    assert (length bs ≤ length (buf s)) as Hl.
    { destruct bs; [simpl; lia|]. by destruct Hx. }
    assert (pend (Side (bs ++ drop (length bs) (buf s)) 0 (length bs) (bool_decide (bs = []))) = bs) as ->.
    { unfold pend, slice. simpl. by rewrite Nat.sub_0_r, drop_0, take_app_length. }
    unfold side_ok. simpl. split_and!; [lia| | | | |lia].
    + rewrite length_app, length_drop. lia.
    + rewrite length_app, length_drop. destruct Hok. lia.
    + destruct bs as [|b bs]; simpl; [by rewrite Hx|]. destruct Hx as [-> _]. done.
    + by intros ->.
  - exists (Ok ()), s, r. split_and!; try done. intros Hp%pend_nil; [|done].
    apply andb_false_iff in E as [E|E]; [by apply Nat.eqb_neq in E|by apply negb_false_iff in E].
Qed.

Lemma slice_pend s n : n ≤ hi s - lo s → slice s n = take n (pend s).
Proof. intros. unfold pend, slice. rewrite take_take. f_equal. lia. Qed.

Lemma pend_advance s n : pend (advance n s) = drop n (pend s).
Proof.
  unfold pend, slice, advance. simpl. rewrite <-(drop_drop _ n (lo s)). rewrite take_drop_commute.
  destruct (decide (n ≤ hi s - lo s)).
  - do 2 f_equal. lia.
  - rewrite !drop_ge; try done; rewrite length_take; lia.
Qed.

Lemma advance_ok s n : side_ok s → n ≤ hi s - lo s → side_ok (advance n s).
Proof. unfold side_ok. simpl. lia. Qed.

Lemma left_advance {R} `{ReadLaws R} s (r : R) n :
  side_ok s → n ≤ hi s - lo s → left_of s r = (take n (pend s) ++ (left_of (advance n s) r).1, (left_of (advance n s) r).2).
Proof.
  intros Hok Hn. unfold left_of. rewrite pend_advance. simpl.
  destruct (done s); simpl; rewrite ?(assoc_L (++)), take_drop; done.
Qed.

Lemma exhausted_left {R} `{ReadLaws R} s (r : R) :
  side_ok s → exhausted s = true → left_of s r = ([], None).
Proof.
  intros Hok [E1%Nat.eqb_eq E2]%andb_true_iff. unfold left_of. rewrite E2.
  by rewrite (proj2 (pend_nil s Hok) E1).
Qed.

(** A side whose slice is used up after [n] bytes though the stream goes on
    had a byte to match. *)
Lemma progress s n :
  side_ok s → (pend s = [] → done s = true) → n ≤ hi s - lo s →
  exhausted (advance n s) = false → pend (advance n s) = [] → 0 < n.
Proof.
  intros Hok Hd Hn Hx Hp. destruct n as [|n]; [|lia]. rewrite pend_advance, drop_0 in Hp.
  apply andb_false_iff in Hx as [Hx%Nat.eqb_neq|Hx]; simpl in Hx.
  - apply pend_nil in Hp; [lia|done].
  - by rewrite Hd in Hx.
Qed.

Lemma slice_left s : side_ok s → (lo s <? hi s)%nat = negb (bool_decide (pend s = [])).
Proof.
  intros Hok. pose proof (pend_nil s Hok) as Hp. destruct Hok as [? _].
  case_bool_decide as E; simpl.
  - apply Nat.ltb_ge. apply Hp in E. lia.
  - apply Nat.ltb_lt. destruct (decide (lo s = hi s)); [naive_solver|lia].
Qed.

Lemma left_of_slice {R} `{ReadLaws R} s (r : R) :
  pend s ≠ [] → ∃ b bs, (left_of s r).1 = b :: bs.
Proof. intros. unfold left_of. destruct (done s), (pend s) eqn:?; simpl; eauto; done. Qed.

(** The verdict a turn of the loop reaches without going on. *)
Lemma compare_exact_step out ans (output : Out) (answer : Ans) n :
  side_ok out → side_ok ans →
  (pend out = [] → done out = true) → (pend ans = [] → done ans = true) →
  n = (hi out - lo out) `min` (hi ans - lo ans) →
  let out' := advance n out in
  let ans' := advance n ans in
  let verdict := exact_spec (left_of out' output).1 (left_of out' output).2
                            (left_of ans' answer).1 (left_of ans' answer).2 in
  if exhausted out' && exhausted ans' then verdict = Ok Accepted
  else if (exhausted out' && (lo ans' <? hi ans')%nat) || (exhausted ans' && (lo out' <? hi out')%nat)
  then verdict = Ok WrongAnswer
  else 0 < n.
Proof.
  intros Ho Ha Do Da Hn out' ans' verdict.
  pose proof (advance_ok out n Ho ltac:(lia)) as Ho'.
  pose proof (advance_ok ans n Ha ltac:(lia)) as Ha'.
  assert (pend out' = [] ∨ pend ans' = []) as Hpend.
  { unfold out', ans'. rewrite !pend_nil by done. simpl. destruct Ho as [? _], Ha as [? _]. lia. }
  pose proof (progress out n Ho Do ltac:(lia)) as Po.
  pose proof (progress ans n Ha Da ltac:(lia)) as Pa.
  fold out' in Po, Ho'. fold ans' in Pa, Ha'.
  unfold verdict. rewrite !slice_left by done.
  destruct (exhausted out') eqn:Xo, (exhausted ans') eqn:Xa; simpl.
  - by rewrite (exhausted_left out' output), (exhausted_left ans' answer).
  - rewrite (exhausted_left out' output) by done. case_bool_decide as E; simpl; [by apply Pa|].
    by destruct (left_of_slice ans' answer E) as (b & bs & ->).
  - rewrite (exhausted_left ans' answer) by done. case_bool_decide as E; simpl; [by apply Po|].
    by destruct (left_of_slice out' output E) as (b & bs & ->).
  - destruct Hpend; auto.
Qed.

Lemma compare_exact_loop_spec fuel inner out ans (output : Out) (answer : Ans) :
  side_ok out → side_ok ans →
  length (left_of out output).1 < fuel →
  weight (script output) < inner → weight (script answer) < inner →
  ∃ output', compare_exact_loop fuel inner out ans output answer =
    Some (exact_spec (left_of out output).1 (left_of out output).2
            (left_of ans answer).1 (left_of ans answer).2, output').
Proof.
  revert out ans output answer. induction fuel as [|fuel IH]; intros out ans output answer Ho Ha Hf Hwo Hwa;
    [lia|]. simpl.
  destruct (refill_spec inner out output Ho Hwo) as (xo & out' & output' & -> & Hxo).
  destruct xo as [[]|e]; [|rewrite Hxo; simpl; by eexists].
  destruct Hxo as (Ho' & Eo & Do & Hwo'). rewrite <-Eo in *. clear Ho Eo out.
  destruct (refill_spec inner ans answer Ha Hwa) as (xa & ans' & answer' & -> & Hxa).
  destruct xa as [[]|e].
  2: { rewrite Hxa. simpl. exists output'. do 2 f_equal.
       destruct (decide (pend out' = [])) as [Hp|Hp].
       - unfold left_of. by rewrite (Do Hp), Hp.
       - by destruct (left_of_slice out' output' Hp) as (b & bs & ->). }
  destruct Hxa as (Ha' & Ea & Da & Hwa'). rewrite <-Ea in *. clear Ha Ea ans.
  set (n := (hi out' - lo out') `min` (hi ans' - lo ans')).
  rewrite !slice_pend by lia.
  pose proof (compare_exact_step out' ans' output' answer' n Ho' Ha' Do Da eq_refl) as Hstep.
  rewrite (left_advance out' output' n), (left_advance ans' answer' n) by (done || lia). simpl.
  rewrite (left_advance out' output' n) in Hf by (done || lia). simpl in Hf.
  rewrite length_app in Hf.
  assert (length (take n (pend out')) = n) as Hlo by (rewrite length_take, length_pend; done || lia).
  assert (length (take n (pend ans')) = n) as Hla by (rewrite length_take, length_pend; done || lia).
  rewrite exact_spec_app by lia.
  destruct (decide (take n (pend out') = take n (pend ans'))) as [Heq|Hne].
  2: { rewrite decide_True by done. by eexists. }
  rewrite decide_False by (by intros []).
  cbv zeta in Hstep. destruct (_ && _); [by rewrite Hstep; eexists|].
  destruct (_ || _); [by rewrite Hstep; eexists|].
  apply IH; [by apply advance_ok; [|lia].. | lia | lia | lia].
Qed.
End exact.

(** ** Streams of elements *)

(** [Emits next o xs e]: a stream whose next answer is [o] hands out [xs] and
    then ends ([e = None]) for good, or fails with [e]. *)
Section emits.
Context {S1 E : Type} (next : S1 → outcome S1 (option E)).

Inductive Emits : outcome S1 (option E) → list E → option ErrorKind → Prop :=
  | emits_end st : next st = Some (Ok None, st) → Emits (Some (Ok None, st)) [] None
  | emits_error st k : Emits (Some (Err k, st)) [] (Some k)
  | emits_more st x xs e : Emits (next st) xs e → Emits (Some (Ok (Some x), st)) (x :: xs) e.
End emits.

(** The comparison of the elements two streams hand out. *)
Section pairs_spec.
Context {E : Type} (matches : E → E → bool).

Fixpoint pairs_spec (xs : list E) (eo : option ErrorKind) (ys : list E) (ea : option ErrorKind)
    : result ErrorKind Verdict :=
  match xs, ys with
  | x :: xs, y :: ys => if matches y x then pairs_spec xs eo ys ea else Ok WrongAnswer
  | [], _ =>
      match eo with
      | Some InvalidData => Ok WrongAnswer
      | Some e => Err e
      | None =>
          match ys, ea with
          | [], Some e => Err e
          | [], None => Ok Accepted
          | _, _ => Ok WrongAnswer
          end
      end
  | _, [] => match ea with Some e => Err e | None => Ok WrongAnswer end
  end.

Lemma pairs_spec_accepted xs eo ys ea :
  pairs_spec xs eo ys ea = Ok Accepted ↔
    eo = None ∧ ea = None ∧ Forall2 (λ y x, matches y x = true) ys xs.
Proof.
  revert ys. induction xs as [|x xs IH]; intros [|y ys]; simpl.
  - repeat case_match; simplify_eq; naive_solver.
  - split; [repeat case_match; simplify_eq; done|]. by intros (_ & _ & ?%Forall2_nil_inv_r).
  - split; [repeat case_match; simplify_eq; done|]. by intros (_ & _ & ?%Forall2_nil_inv_l).
  - rewrite Forall2_cons. destruct (matches y x) eqn:Em; [rewrite IH; naive_solver|].
    split; [done|]. naive_solver.
Qed.

Lemma pairs_spec_error xs eo ys ea k :
  pairs_spec xs eo ys ea = Err k → (eo = Some k ∧ k ≠ InvalidData) ∨ ea = Some k.
Proof.
  revert ys. induction xs as [|x xs IH]; intros [|y ys]; simpl; repeat case_match; intros;
    simplify_eq; naive_solver.
Qed.

Lemma compare_pairs_spec {S1 T : Type} next_out next_ans fuel (out : S1) (ans : T) xs eo ys ea :
  Emits next_out (next_out out) xs eo → Emits next_ans (next_ans ans) ys ea → length xs < fuel →
  ∃ out', compare_pairs next_out next_ans matches fuel out ans = Some (pairs_spec xs eo ys ea, out').
Proof.
  revert out ans xs ys. induction fuel as [|fuel IH]; intros out ans xs ys Ho Ha Hf; [lia|]. simpl.
  destruct Ho as [out' Hout|out' k|out' x xs eo Ho].
  - destruct Ha; simpl; by eexists.
  - destruct k; by eexists.
  - destruct Ha as [ans' Hans|ans' k|ans' y ys ea Ha]; simpl; [by eexists..|].
    destruct (matches y x); simpl; [|by eexists].
    simpl in Hf. apply IH; [done..|lia].
Qed.
End pairs_spec.

(** ** Characters *)

(** What a byte stream ending in [k] decodes to: a malformed sequence may hide
    characters before it, a stream ending inside a character is an error. *)
Definition text_of (bs : list Z) (k : option ErrorKind) (cs : ustring) (e : option ErrorKind) : Prop :=
  match decode Boundary bs with
  | (full, Complete) => cs = full ∧ e = k
  | (full, Truncated) => cs = full ∧ e = Some (default InvalidData k)
  | (full, Malformed) => cs `prefix_of` full ∧ e = Some InvalidData
  end.

(** Bytes that start a character and do not end one. *)
Definition open_bytes (bs : list Z) : Prop :=
  ∃ s, utf8_run Boundary bs = Some s ∧ (decode Boundary bs).1 = [].

Lemma open_bytes_nil : open_bytes [].
Proof. by exists Boundary. Qed.

Lemma open_boundary bs :
  open_bytes bs → bs ≠ [] → ∃ s, utf8_run Boundary bs = Some s ∧ s ≠ Boundary ∧ (decode Boundary bs).1 = [].
Proof.
  intros (s & Hs & Hd) Hne. exists s. split_and!; try done. intros ->.
  destruct bs as [|b bs] using rev_ind; [done|]. clear IHbs Hne.
  rewrite utf8_run_app in Hs. rewrite decode_app in Hd.
  destruct (utf8_run Boundary bs) as [t|]; [|done]. simpl in Hs, Hd.
  apply app_nil in Hd as [_ Hd].
  destruct (utf8_byte t b) as [[s' oc]|] eqn:Hb; [|done]. injection Hs as ->.
  destruct (proj2 (utf8_byte_boundary _ _ _ _ Hb) eq_refl) as [c ->]. done.
Qed.

Lemma decode_length s bs : length (decode s bs).1 ≤ length bs.
Proof.
  revert s. induction bs as [|b bs IH]; intros s; simpl; [lia|].
  destruct (utf8_byte s b) as [[s' oc]|]; simpl; [|lia].
  specialize (IH s'). destruct (decode s' bs), oc; simpl in *; lia.
Qed.

Lemma decode_nil_complete p : valid_text p [] → p = [].
Proof.
  intros Hv. destruct (decide (p = [])) as [|Hne]; [done|]. exfalso.
  assert (utf8_run Boundary p = Some Boundary) as Hr by (apply decode_complete; by rewrite Hv).
  destruct (open_boundary p) as (s & Hs & Hb & _); [|done|congruence].
  exists Boundary. by rewrite Hv.
Qed.

Lemma decode_open q : open_bytes q → q ≠ [] → decode Boundary q = ([], Truncated).
Proof.
  intros Hq Hne. destruct (open_boundary q Hq Hne) as (s & Hs & Hb & Hd).
  destruct (decode Boundary q) as [cs e] eqn:E; simpl in Hd; subst cs. f_equal.
  destruct e; [exfalso|done|exfalso].
  - assert (utf8_run Boundary q = Some Boundary) by (apply decode_complete; by rewrite E). congruence.
  - assert (utf8_run Boundary q = None) by (apply decode_malformed; by rewrite E). congruence.
Qed.

Lemma text_of_app p v q k more e :
  valid_text p v → text_of q k more e → text_of (p ++ q) k (v ++ more) e.
Proof.
  intros Hv. unfold text_of. rewrite decode_app.
  rewrite (proj1 (decode_complete Boundary p)) by by rewrite Hv. rewrite Hv. simpl.
  destruct (decode Boundary q) as [full []]; simpl; [naive_solver..|].
  intros [? ->]. split; [by apply prefix_app|done].
Qed.

Lemma text_of_open q k : open_bytes q → (q ≠ [] ∨ is_Some k) →
  text_of q k [] (Some (default InvalidData k)).
Proof.
  intros Hq Hor. unfold text_of. destruct (decide (q = [])) as [->|Hne].
  - destruct Hor as [|[e ->]]; done.
  - by rewrite decode_open.
Qed.

Section characters.
Context {R : Type} `{ReadLaws R}.

(** What the stream will still hand out beyond its decoded characters. *)
Definition to_come (st : CharStream R) (more : ustring) (e : option ErrorKind) : Prop :=
  if eof st then more = [] ∧ e = (if decide (pending st = []) then None else Some InvalidData)
  else text_of (pending st ++ (content (script (reader st))).1) (content (script (reader st))).2 more e.

Definition chars_ok (st : CharStream R) : Prop := eof st = false → open_bytes (pending st).

Lemma fill_spec fuel st :
  eof st = false → open_bytes (pending st) → weight (script (reader st)) < fuel →
  ∃ x st', fill fuel st = Some (x, st') ∧
    match x with
    | Err k => to_come st [] (Some k)
    | Ok _ =>
        ∃ valid, chars st' = chars st ++ valid ∧ chars_ok st'
          ∧ (∀ more e, to_come st' more e → to_come st (valid ++ more) e)
          ∧ (if eof st' then length valid + length (pending st') ≤ length (pending st)
                             ∧ weight (script (reader st')) ≤ weight (script (reader st))
             else length valid + length (pending st') + weight (script (reader st'))
                  ≤ length (pending st) + weight (script (reader st))
                  ∧ weight (script (reader st')) < weight (script (reader st)))
    end.
Proof.
  intros Heof Hopen Hfuel. unfold fill, chars_ok, to_come.
  destruct (read_some_spec fuel CHUNK (reader st) Hfuel chunk_positive) as (x & r' & -> & Hc & Hw).
  rewrite Heof. destruct x as [bs|k].
  2: { eexists _, _. split; [done|]. simpl. rewrite Hc. simpl. rewrite (right_id_L [] (++)).
       apply (text_of_open _ (Some k)); [done|]. right. by eexists. }
  destruct bs as [|b bs].
  { pose proof (from_utf8_spec (pending st)) as Hs.
    assert (∀ more e, more = [] ∧ e = (if decide (pending st = []) then None else Some InvalidData) →
      text_of (pending st ++ (content (script (reader st))).1) (content (script (reader st))).2 more e) as Hend.
    { intros more e [-> ->]. rewrite Hc. simpl. rewrite (right_id_L [] (++)).
      case_decide as Hp; [by rewrite Hp|]. apply (text_of_open _ None); auto. }
    destruct (decide (pending st = [])) as [Hp|Hp].
    - rewrite Hp. simpl. eexists _, _. split; [done|]. exists []. simpl.
      rewrite (right_id_L [] (++)). rewrite Hp in Hend. simpl in *. split_and!; done || lia.
    - pose proof (decode_open _ Hopen Hp) as Hd.
      destruct (from_utf8 (pending st)) as [cs|e].
      { unfold valid_text in Hs. by rewrite Hd in Hs. }
      destruct (error_len_is_some e); [by rewrite Hd in Hs|].
      destruct Hs as (p & r & s' & Hpr & Hv & Hvt & _). rewrite Hd in Hvt. simpl in Hvt.
      apply decode_nil_complete in Hvt as ->. rewrite Hv. simpl.
      eexists _, _. split; [done|]. exists []. simpl. rewrite (right_id_L [] (++)).
      simpl in Hw. split_and!; [done|done| |simpl; lia|simpl; lia]. intros more e0. cbn [eof pending]. rewrite decide_False by done. exact (Hend more e0). }
  destruct Hc as [Hc Hlen]. set (bytes := pending st ++ b :: bs).
  assert (length bytes = length (pending st) + length (b :: bs)) as Hbl by apply length_app.
  assert (pending st ++ (content (script (reader st))).1 = bytes ++ (content (script r')).1) as Hall.
  { rewrite Hc. simpl. unfold bytes. by rewrite <-(assoc_L (++)). }
  rewrite Hall. rewrite Hc. cbn [snd]. pose proof (from_utf8_spec bytes) as Hs.
  destruct (from_utf8 bytes) as [valid|e] eqn:Ef.
  { eexists _, _. split; [done|]. exists valid. simpl.
    pose proof (decode_length Boundary bytes) as Hdl. rewrite Hs in Hdl. simpl in *.
    split_and!; [done|intros; apply open_bytes_nil| | lia | lia].
    intros more e. by apply text_of_app. }
  destruct (error_len_is_some e).
  { eexists _, _. split; [done|]. simpl. unfold text_of. rewrite decode_app.
    rewrite (proj1 (decode_malformed _ _) Hs). destruct (decode Boundary bytes) as [cs []]; try done.
    split; [apply prefix_nil|done]. }
  destruct Hs as (p & r & s' & Hpr & Hv & Hvt & Hr & Hb & Hd). rewrite Hv.
  assert (open_bytes r) as Hor by by exists s'.
  destruct (length p =? 0)%nat eqn:E0.
  { apply Nat.eqb_eq, length_zero_iff_nil in E0 as ->. simpl in Hpr.
    eexists _, _. split; [done|]. exists []. simpl. rewrite (right_id_L [] (++)).
    simpl in *. split_and!; [done|by rewrite Hpr|done|lia|lia]. }
  rewrite Hpr, take_app_length, drop_app_length, (from_utf8_valid _ _ Hvt).
  eexists _, _. split; [done|]. eexists. simpl.
  pose proof (decode_length Boundary p) as Hdl. rewrite Hvt in Hdl. simpl in Hdl.
  rewrite Hpr, length_app in Hbl. simpl in *.
  split_and!; [done|done| |lia|lia].
  intros more e' Ht. rewrite <-(assoc_L (++)). by apply text_of_app.
Qed.

(** Every turn of the loop lowers this number. *)
Definition char_measure (st : CharStream R) : nat :=
  length (chars st) + length (pending st)
  + (if eof st then 0 else S (2 * weight (script (reader st)))).

Lemma next_char_emits n st :
  chars_ok st → S (weight (script (reader st))) < n →
  ∃ cs e, Emits (next_char n) (next_char n st) (chars st ++ cs) e ∧ to_come st cs e
    ∧ length cs ≤ length (pending st) + weight (script (reader st)).
Proof.
  intros Hok Hn.
  assert (∀ k st, char_measure st < k → chars_ok st → S (weight (script (reader st))) < n → ∀ fuel,
    (if eof st then 0 else S (weight (script (reader st)))) < fuel →
    ∃ cs e, Emits (next_char n) (next_char_loop fuel n st) (chars st ++ cs) e ∧ to_come st cs e
      ∧ length cs ≤ length (pending st) + weight (script (reader st))) as Hind.
  2: { apply (Hind (S (char_measure st))); [lia|done|done|destruct (eof st); lia]. }
  clear st Hok Hn. induction k as [|k IH]; [lia|]. intros st Hk Hok Hn fuel Hf.
  destruct fuel as [|fuel]; [lia|]. cbn [next_char_loop].
  destruct (chars st) as [|ch rest] eqn:Ech.
  2: { destruct (IH {| reader := reader st; pending := pending st; chars := rest; eof := eof st |})
         with (fuel := n) as (cs & e & He & Ht & Hl); try done.
       - unfold char_measure in *. rewrite Ech in Hk. simpl in *. lia.
       - simpl. destruct (eof st); lia.
       - exists cs, e. split_and!; [by apply emits_more|done|done]. }
  destruct (eof st) eqn:Eeof.
  { exists [], (if decide (pending st = []) then None else Some InvalidData). unfold to_come. rewrite Eeof.
    split_and!; [|done|done|simpl; lia]. destruct (pending st) eqn:Ep; simpl; [|apply emits_error].
    apply emits_end. unfold next_char. destruct n; [lia|]. simpl. by rewrite Ech, Eeof, Ep. }
  destruct (fill_spec n st Eeof (Hok Eeof)) as (x & st' & -> & Hx); [lia|].
  destruct x as [[]|e]; [|exists [], (Some e); split_and!; [apply emits_error|done|simpl; lia]].
  destruct Hx as (valid & Hch & Hok' & Hcome & Hm). rewrite Ech in Hch. simpl in Hch.
  destruct (IH st') with (fuel := fuel) as (cs & e & He & Ht & Hl).
  - unfold char_measure in *. rewrite Eeof, Ech in Hk. rewrite Hch. simpl in Hk. destruct (eof st'); lia.
  - done.
  - destruct (eof st'); lia.
  - destruct (eof st'); lia.
  - exists (valid ++ cs), e. rewrite Hch in He. split_and!; [done|by apply Hcome|].
    rewrite length_app. destruct (eof st'); lia.
Qed.
End characters.

(** ** Tokens *)

(** The tokens of [cs] after the partial token [p]; the last one counts only
    when the stream ends without an error. *)
Fixpoint tokens_from (p cs : ustring) (e : option ErrorKind) : list ustring :=
  match cs with
  | [] => match e, p with None, _ :: _ => [p] | _, _ => [] end
  | c :: cs =>
      if is_whitespace c then match p with [] => tokens_from [] cs e | _ => p :: tokens_from [] cs e end
      else tokens_from (p ++ [c]) cs e
  end.

Lemma split_by_cons P cs : ∃ w ws, split_by P cs = w :: ws.
Proof. induction cs as [|c cs (w & ws & IH)]; simpl; rewrite ?IH; repeat case_match; eauto. Qed.

Lemma tokens_from_split p cs :
  tokens_from p cs None =
    match split_by is_whitespace cs with
    | w :: ws => filter (λ w, w ≠ []) ((p ++ w) :: ws)
    | [] => []
    end.
Proof.
  revert p. induction cs as [|c cs IH]; intros p; simpl.
  - rewrite (right_id_L [] (++)). by destruct p.
  - destruct (split_by_cons is_whitespace cs) as (w & ws & E). rewrite E in IH.
    destruct (is_whitespace c); rewrite E.
    + rewrite IH, (right_id_L [] (++)). by destruct p.
    + by rewrite IH, <-(assoc_L (++)).
Qed.

Lemma tokens_from_whitespace cs : tokens_from [] cs None = split_whitespace cs.
Proof.
  rewrite tokens_from_split. unfold split_whitespace.
  by destruct (split_by_cons is_whitespace cs) as (w & ws & ->).
Qed.

Lemma tokens_from_length p cs e : length (tokens_from p cs e) ≤ S (length cs).
Proof.
  revert p. induction cs as [|c cs IH]; intros p; simpl; [repeat case_match; simpl; lia|].
  pose proof (IH []). pose proof (IH (p ++ [c])). repeat case_match; simpl; lia.
Qed.

Section tokens.
Context {R : Type} `{ReadLaws R} (n : nat).

Lemma next_token_emits cs e o :
  Emits (next_char n) o cs e → S (length cs) < n →
  ∀ st p fuel, next_char n st = o → S (length cs) < fuel →
    Emits (next_token n) (next_token_loop fuel n {| token_chars := st; partial := p |}) (tokens_from p cs e) e.
Proof.
  induction 1 as [st' Hend|st' k|st' ch cs e He IH]; intros Hn st p fuel Ho Hf;
    (destruct fuel as [|fuel]; [lia|]); cbn [next_token_loop token_chars partial]; rewrite Ho.
  - assert (∀ m, 0 < m → next_token_loop m n {| token_chars := st'; partial := [] |}
      = Some (Ok None, {| token_chars := st'; partial := [] |})) as Hstop.
    { intros [|m] ?; [lia|]. simpl. by rewrite Hend. }
    destruct p as [|c p]; simpl.
    + apply emits_end. apply Hstop. lia.
    + apply emits_more. unfold next_token. rewrite Hstop by lia. apply emits_end. apply Hstop. lia.
  - apply emits_error.
  - simpl in Hn, Hf. simpl. destruct (is_whitespace ch); [destruct p as [|c p]|].
    + apply IH; [lia|done|lia].
    + apply emits_more. apply IH; [lia|done|lia].
    + apply IH; [lia|done|lia].
Qed.
End tokens.

(** ** Lines *)

(** [str::lines]: pieces ended by a line feed, a carriage return before it
    dropped; the last piece counts when it is not empty. *)
Fixpoint raw_lines (p cs : ustring) (e : option ErrorKind) : list ustring :=
  match cs with
  | [] => match e, p with None, _ :: _ => [p] | _, _ => [] end
  | c :: cs => if (c =? 10)%Z then drop_cr p :: raw_lines [] cs e else raw_lines (p ++ [c]) cs e
  end.

(** Lines without trailing white space, [k] empty ones held back; empty lines
    at the end are dropped. *)
Fixpoint normal_lines (k : nat) (rs : list ustring) : list ustring :=
  match rs with
  | [] => []
  | r :: rs =>
      match trim_end r with
      | [] => normal_lines (S k) rs
      | line => replicate k [] ++ line :: normal_lines 0 rs
      end
  end.

(** [util::split_lines_trimmed] of the checker plugin. *)
Fixpoint pop_empty (ls : list ustring) : list ustring :=
  match ls with
  | [] => []
  | l :: ls => match l, pop_empty ls with [], [] => [] | _, t => l :: t end
  end.

Definition split_lines_trimmed (cs : ustring) : list ustring :=
  pop_empty (trim_end <$> raw_lines [] cs None).

Lemma normal_lines_length k rs : length (normal_lines k rs) ≤ k + length rs.
Proof.
  revert k. induction rs as [|r rs IH]; intros k; simpl; [lia|].
  pose proof (IH (S k)). pose proof (IH 0).
  destruct (trim_end r); [lia|]. rewrite length_app, length_replicate. unfold ustring in *. simpl in *. lia.
Qed.

Lemma normal_lines_replicate k rs :
  normal_lines k rs = pop_empty (replicate k [] ++ (trim_end <$> rs)).
Proof.
  revert k. induction rs as [|r rs IH]; intros k; simpl.
  - rewrite (right_id_L [] (++)). induction k as [|k IHk]; simpl; [done|]. by rewrite <-IHk.
  - destruct (trim_end r) as [|c l] eqn:E.
    + by rewrite IH, replicate_S_end, <-(assoc_L (++)).
    + rewrite IH. simpl. induction k as [|k IHk]; simpl; [done|].
      rewrite <-IHk. by destruct k.
Qed.

Lemma normal_lines_trimmed cs : normal_lines 0 (raw_lines [] cs None) = split_lines_trimmed cs.
Proof. apply normal_lines_replicate. Qed.

Lemma raw_lines_length p cs e : length (raw_lines p cs e) ≤ S (length cs).
Proof.
  revert p. induction cs as [|c cs IH]; intros p; simpl; [repeat case_match; simpl; lia|].
  pose proof (IH []). pose proof (IH (p ++ [c])). repeat case_match; simpl; lia.
Qed.

Section lines.
Context {R : Type} `{ReadLaws R} (n : nat).

Definition line_state (st : CharStream R) (p : ustring) (k f : nat) (q : list ustring) : LineStream R :=
  {| line_chars := st; current := p; pending_empty := k; flush_empty := f; queued := q |}.

(** One raw line: what is left afterwards emits the lines after it. *)
Lemma next_raw_line_spec cs e o :
  Emits (next_char n) o cs e →
  ∀ st p k f q fuel, next_char n st = o → length cs < fuel →
    match next_raw_line_loop fuel n (line_state st p k f q) with
    | Some (Ok (Some l), st') =>
        ∃ st'' cs', st' = line_state st'' [] k f q ∧ raw_lines p cs e = l :: raw_lines [] cs' e
          ∧ Emits (next_char n) (next_char n st'') cs' e ∧ length cs' ≤ length cs
    | Some (Ok None, st') =>
        ∃ st'', st' = line_state st'' [] k f q ∧ raw_lines p cs e = [] ∧ e = None
          ∧ next_char n st'' = Some (Ok None, st'')
    | Some (Err x, _) => raw_lines p cs e = [] ∧ e = Some x
    | None => False
    end.
Proof.
  induction 1 as [st' Hend|st' x|st' ch cs e He IH]; intros st p k f q fuel Ho Hf;
    (destruct fuel as [|fuel]; [lia|]); cbn [next_raw_line_loop line_state line_chars current]; rewrite Ho.
  - destruct p as [|c p]; simpl.
    + by exists st'.
    + exists st', []. split_and!; [done|done| |done]. rewrite Hend. by apply emits_end.
  - done.
  - simpl in Hf. simpl. destruct (ch =? 10)%Z.
    + exists st', cs. split_and!; [done|done|done|lia].
    + specialize (IH st' (p ++ [ch]) k f q fuel eq_refl ltac:(lia)). unfold with_text. simpl.
      unfold line_state in *. destruct (next_raw_line_loop _ _ _) as [[[[l|]|x] st'']|]; try done.
      destruct IH as (st3 & cs' & H1 & H2 & H3 & H4). exists st3, cs'. split_and!; [done|done|done|lia].
Qed.

Lemma flush_emits st k xs e f l fuel :
  0 < n → 0 < fuel →
  Emits (next_line n) (next_line n (line_state st [] k 0 [])) xs e →
  Emits (next_line n) (next_line_loop fuel n (line_state st [] k f [l])) (replicate f [] ++ l :: xs) e.
Proof.
  intros Hn Hf He. revert fuel Hf. induction f as [|f IH]; intros [|fuel] Hf; try lia; simpl.
  - by apply emits_more.
  - apply emits_more. apply IH. lia.
Qed.

Lemma next_line_emits rs :
  ∀ cs e st k fuel,
    Emits (next_char n) (next_char n st) cs e → rs = raw_lines [] cs e → length cs < n →
    S (length rs) < fuel → S (length rs) < n →
    Emits (next_line n) (next_line_loop fuel n (line_state st [] k 0 [])) (normal_lines k rs) e.
Proof.
  induction rs as [|r rs IH]; intros cs e st k fuel He Hrs Hn Hf Hl;
    (destruct fuel as [|fuel]; [lia|]);
    pose proof (next_raw_line_spec cs e _ He st [] k 0 [] n eq_refl Hn) as Hraw; rewrite <-Hrs in Hraw;
    cbn [next_line_loop line_state flush_empty queued]; fold (line_state st [] k 0 []);
    destruct (next_raw_line_loop _ _ _) as [[[[l|]|x] st']|]; try done.
  - by destruct Hraw as (? & ? & _ & [=] & _).
  - destruct Hraw as (st'' & -> & _ & -> & Hend). simpl. apply emits_end.
    unfold next_line. destruct n as [|m] eqn:Em; [lia|]. simpl. by rewrite Hend.
  - destruct Hraw as [_ ->]. apply emits_error.
  - destruct Hraw as (st'' & cs' & -> & [= <- Hrs'] & He' & Hlen). simpl in *.
    destruct (trim_end r) as [|c line].
    + apply (IH cs' e st'' (S k) fuel He' Hrs'); lia.
    + apply flush_emits; [lia|lia|]. apply (IH cs' e st'' 0 n He' Hrs'); lia.
  - by destruct Hraw as (? & _ & [=] & _).
  - by destruct Hraw as [[=] _].
Qed.
End lines.

(** ** The three comparisons *)

(** The stream ends without an error and its bytes are the UTF-8 text [cs]. *)
Definition clean_text (s : list read_event) (cs : ustring) : Prop :=
  (content s).2 = None ∧ valid_text (content s).1 cs.

Lemma text_of_end bs k cs : text_of bs k cs None → k = None ∧ valid_text bs cs.
Proof. unfold text_of, valid_text. destruct (decode Boundary bs) as [full []]; naive_solver. Qed.

Lemma text_of_clean s cs cs' e :
  clean_text s cs → text_of (content s).1 (content s).2 cs' e → cs' = cs ∧ e = None.
Proof. unfold clean_text, text_of, valid_text. intros [-> ->]. done. Qed.

Lemma text_of_error bs k cs e : text_of bs k cs (Some e) → e = InvalidData ∨ k = Some e.
Proof.
  unfold text_of. destruct (decode Boundary bs) as [full []]; [naive_solver| |naive_solver].
  intros [_ [= ->]]. destruct k; naive_solver.
Qed.

(** The verdict of the elements of two texts, [elements] being those a stream
    hands out before it ends with or without an error. *)
Lemma pairs_of_texts {E} (matches : E → E → bool) (elements : ustring → option ErrorKind → list E) o a co eo ca ea :
  text_of (content o).1 (content o).2 co eo → text_of (content a).1 (content a).2 ca ea →
  let v := pairs_spec matches (elements co eo) eo (elements ca ea) ea in
  (v = Ok Accepted ↔ ∃ co ca, clean_text o co ∧ clean_text a ca
     ∧ Forall2 (λ y x, matches y x = true) (elements ca None) (elements co None))
  ∧ ((content o).2 = None → (∃ ca, clean_text a ca) → ∃ w, v = Ok w).
Proof.
  intros Ho Ha v. split.
  - unfold v. rewrite pairs_spec_accepted. split.
    + intros (-> & -> & HF). exists co, ca.
      apply text_of_end in Ho as [? ?]. apply text_of_end in Ha as [? ?]. done.
    + intros (co' & ca' & Hco & Hca & HF).
      destruct (text_of_clean _ _ _ _ Hco Ho) as [-> ->]. by destruct (text_of_clean _ _ _ _ Hca Ha) as [-> ->].
  - intros Hk (ca' & Hca). destruct v as [w|k] eqn:Ev; [by exists w|]. exfalso.
    destruct (text_of_clean _ _ _ _ Hca Ha) as [-> ->].
    apply pairs_spec_error in Ev as [[-> Hne]|[=]].
    apply text_of_error in Ho as [->|Ho]; [done|congruence].
Qed.

Section comparisons.
Context {Out Ans : Type} `{ReadLaws Out, ReadLaws Ans} (to_lowercase : ustring → ustring).

(** Fuel that is enough for one run. *)
Definition enough (n : nat) (output : Out) (answer : Ans) : Prop :=
  weight (script output) + 3 < n ∧ weight (script answer) + 3 < n.

(** A fresh stream hands out a text of its content. *)
Lemma new_chars_emits {R} `{ReadLaws R} n (r : R) :
  weight (script r) + 3 < n →
  ∃ cs e, Emits (next_char n) (next_char n (new_chars r)) cs e
    ∧ text_of (content (script r)).1 (content (script r)).2 cs e ∧ length cs ≤ weight (script r).
Proof.
  intros Hn. destruct (next_char_emits n (new_chars r)) as (cs & e & He & Ht & Hl).
  - intros _. apply open_bytes_nil.
  - simpl. lia.
  - by exists cs, e.
Qed.

Lemma new_tokens_emits {R} `{ReadLaws R} n (r : R) :
  weight (script r) + 3 < n →
  ∃ cs e, Emits (next_token n) (next_token n (new_tokens r)) (tokens_from [] cs e) e
    ∧ text_of (content (script r)).1 (content (script r)).2 cs e ∧ length (tokens_from [] cs e) < n.
Proof.
  intros Hn. destruct (new_chars_emits n r Hn) as (cs & e & He & Ht & Hl).
  exists cs, e. pose proof (tokens_from_length [] cs e).
  split_and!; [|done|lia]. apply (next_token_emits n cs e _ He); [lia|done|lia].
Qed.

Lemma new_lines_emits {R} `{ReadLaws R} n (r : R) :
  weight (script r) + 3 < n →
  ∃ cs e, Emits (next_line n) (next_line n (new_lines r)) (normal_lines 0 (raw_lines [] cs e)) e
    ∧ text_of (content (script r)).1 (content (script r)).2 cs e
    ∧ length (normal_lines 0 (raw_lines [] cs e)) < n.
Proof.
  intros Hn. destruct (new_chars_emits n r Hn) as (cs & e & He & Ht & Hl).
  exists cs, e. pose proof (raw_lines_length [] cs e). pose proof (normal_lines_length 0 (raw_lines [] cs e)).
  split_and!; [|done|lia]. apply (next_line_emits n _ cs e _ 0 n He eq_refl); lia.
Qed.

(** The verdict of a text comparison: [Accepted] exactly for two clean texts
    whose elements agree; a solution's output never makes the comparator fail. *)
Definition verdict_of {E} (v : result ErrorKind Verdict) (agree : E → E → Prop) (elements : ustring → E)
    (o a : list read_event) : Prop :=
  (v = Ok Accepted ↔ ∃ co ca, clean_text o co ∧ clean_text a ca ∧ agree (elements ca) (elements co))
  ∧ ((content o).2 = None → (∃ ca, clean_text a ca) → ∃ w, v = Ok w).

Definition tokens_agree (mode : TokenMode) (expected actual : list ustring) : Prop :=
  Forall2 (λ a o, tokens_match to_lowercase a o mode = true) expected actual.

Lemma compare_tokens_verdict n (output : Out) (answer : Ans) mode :
  enough n output answer →
  ∃ v output', compare_tokens to_lowercase n output answer mode = Some (v, output')
    ∧ verdict_of v (tokens_agree mode) split_whitespace (script output) (script answer).
Proof.
  intros [Ho Ha]. unfold compare_tokens.
  destruct (new_tokens_emits n output Ho) as (co & eo & Eo & To & Lo).
  destruct (new_tokens_emits n answer Ha) as (ca & ea & Ea & Ta & La).
  destruct (compare_pairs_spec (λ a o, tokens_match to_lowercase a o mode)
              _ _ n _ _ _ _ _ _ Eo Ea Lo) as [out' ->].
  eexists _, _. split; [done|].
  pose proof (pairs_of_texts (λ a o, tokens_match to_lowercase a o mode)
    (λ cs e, tokens_from [] cs e) _ _ _ _ _ _ To Ta) as [Hacc Hok].
  split; [|done]. rewrite Hacc. unfold tokens_agree.
  split; intros (c1 & c2 & ? & ? & HF); exists c1, c2; by rewrite ?tokens_from_whitespace in *.
Qed.

Lemma Forall2_bool_eq {E} `{EqDecision E} (xs ys : list E) :
  Forall2 (λ y x, bool_decide (x = y) = true) ys xs ↔ ys = xs.
Proof.
  split; [|intros ->; apply Forall_Forall2_diag, Forall_true; intros; by apply bool_decide_eq_true].
  induction 1 as [|y x ys xs Hxy _ IH]; [done|]. apply bool_decide_eq_true in Hxy. congruence.
Qed.

Lemma compare_lines_verdict n (output : Out) (answer : Ans) :
  enough n output answer →
  ∃ v output', compare_lines n output answer = Some (v, output')
    ∧ verdict_of v eq split_lines_trimmed (script output) (script answer).
Proof.
  intros [Ho Ha]. unfold compare_lines.
  destruct (new_lines_emits n output Ho) as (co & eo & Eo & To & Lo).
  destruct (new_lines_emits n answer Ha) as (ca & ea & Ea & Ta & La).
  destruct (compare_pairs_spec (λ a o, bool_decide (o = a)) _ _ n _ _ _ _ _ _ Eo Ea Lo) as [out' ->].
  eexists _, _. split; [done|].
  pose proof (pairs_of_texts (λ a o, bool_decide (o = a))
    (λ cs e, normal_lines 0 (raw_lines [] cs e)) _ _ _ _ _ _ To Ta) as [Hacc Hok].
  split; [|done]. rewrite Hacc.
  split; intros (c1 & c2 & ? & ? & HF); exists c1, c2.
  - by rewrite Forall2_bool_eq, !normal_lines_trimmed in HF.
  - by rewrite Forall2_bool_eq, !normal_lines_trimmed.
Qed.

Lemma compare_exact_verdict n (output : Out) (answer : Ans) :
  enough n output answer →
  ∃ output', compare_exact n output answer =
    Some (exact_spec (content (script output)).1 (content (script output)).2
            (content (script answer)).1 (content (script answer)).2, output').
Proof.
  intros [Ho Ha]. pose proof (content_length (script output)).
  destruct (compare_exact_loop_spec n n fresh_side fresh_side output answer) as [o' Heq];
    [apply fresh_side_ok..| | |lia|].
  - unfold left_of. simpl. lia.
  - lia.
  - by exists o'.
Qed.
End comparisons.
