(* ===== verification/CompareCli.v ===== *)
(** The command line of the comparator: its exit code for every mode, whatever
    becomes of the preview, and the preview itself; the properties of
    [Compare] with their witnesses. *)

From Stdlib Require Import SpecFloat.
From stdpp Require Import base list numbers.
From S2P Require Import Prelude.
From S2P Require Import Text.
From S2P Require Import Float.
From S2P Require Import Compare.
From S2P Require Import CompareProofs.

#[local] Opaque CHUNK INLINE_OUTPUT_PREVIEW_BYTES.

(** ** What reads preserve, a comparison preserves *)

Section preserved.
Context {R : Type} `{Read R} (I : R → Prop) (HI : ∀ cap r, I r → I (read cap r).2).

Lemma read_some_inv fuel cap r x r' : I r → read_some fuel cap r = Some (x, r') → I r'.
Proof using HI.
  revert r. induction fuel as [|fuel IH]; intros r Hr; simpl; [done|].
  pose proof (HI cap r Hr) as Hr'. destruct (read cap r) as [[bs|[]] r'']; simpl in Hr'; naive_solver.
Qed.

Lemma refill_inv fuel s r x s' r' : I r → refill fuel s r = Some (x, (s', r')) → I r'.
Proof using HI.
  unfold refill. intros Hr. destruct (_ && _); [|naive_solver].
  destruct (read_some _ _ _) as [[[bs|e] r'']|] eqn:E; [..|done]; intros; simplify_eq;
    by eapply read_some_inv.
Qed.

Lemma compare_exact_inv {Ans} `{Read Ans} fuel inner out ans r (a : Ans) v r' :
  I r → compare_exact_loop fuel inner out ans r a = Some (v, r') → I r'.
Proof using HI.
  revert out ans r a. induction fuel as [|fuel IH]; intros out ans r a Hr; simpl; [done|].
  destruct (refill inner out r) as [[[[]|e] [out' r1]]|] eqn:E; [..|done];
    pose proof (refill_inv _ _ _ _ _ _ Hr E) as Hr1; [|naive_solver].
  destruct (refill inner ans a) as [[[[]|e] [ans' a1]]|]; [..|done]; [|naive_solver].
  case_decide; [naive_solver|]. repeat case_match; [naive_solver..|]. by apply IH.
Qed.

Lemma fill_inv fuel (st : CharStream R) x st' :
  I (reader st) → fill fuel st = Some (x, st') → I (reader st').
Proof using HI.
  unfold fill. intros Hr.
  destruct (read_some _ _ _) as [[[bs|e] r'']|] eqn:E; [..|done];
    apply (read_some_inv _ _ _ _ _ Hr) in E; [|naive_solver].
  destruct bs; repeat case_match; naive_solver.
Qed.

Lemma next_char_inv fuel inner (st : CharStream R) x st' :
  I (reader st) → next_char_loop fuel inner st = Some (x, st') → I (reader st').
Proof using HI.
  revert st. induction fuel as [|fuel IH]; intros st Hr; simpl; [done|].
  destruct (chars st); [|naive_solver]. destruct (eof st); [destruct (pending st); naive_solver|].
  destruct (fill inner st) as [[[[]|e] st1]|] eqn:E; [..|done];
    apply (fill_inv _ _ _ _ Hr) in E; [by apply IH|naive_solver].
Qed.

Lemma next_token_inv fuel inner (st : TokenStream R) x st' :
  I (reader (token_chars st)) → next_token_loop fuel inner st = Some (x, st') →
  I (reader (token_chars st')).
Proof using HI.
  revert st. induction fuel as [|fuel IH]; intros st Hr; simpl; [done|].
  destruct (next_char inner (token_chars st)) as [[[[ch|]|e] cs]|] eqn:E; [..|done];
    apply (next_char_inv _ _ _ _ _ Hr) in E; [|destruct (partial st); naive_solver|naive_solver].
  destruct (is_whitespace ch); [destruct (partial st)|]; intros Hx;
    first [by apply IH in Hx | by simplify_eq].
Qed.

Lemma next_raw_line_inv fuel inner (st : LineStream R) x st' :
  I (reader (line_chars st)) → next_raw_line_loop fuel inner st = Some (x, st') →
  I (reader (line_chars st')).
Proof using HI.
  revert st. induction fuel as [|fuel IH]; intros st Hr; simpl; [done|].
  destruct (next_char inner (line_chars st)) as [[[[ch|]|e] cs]|] eqn:E; [..|done];
    apply (next_char_inv _ _ _ _ _ Hr) in E; [|destruct (current st); naive_solver|naive_solver].
  destruct (ch =? 10)%Z; intros Hx; [by simplify_eq|by apply IH in Hx].
Qed.

Lemma next_line_inv fuel inner (st : LineStream R) x st' :
  I (reader (line_chars st)) → next_line_loop fuel inner st = Some (x, st') →
  I (reader (line_chars st')).
Proof using HI.
  revert st. induction fuel as [|fuel IH]; intros st Hr; simpl; [done|].
  destruct (flush_empty st); [|naive_solver]. destruct (queued st); [|naive_solver].
  destruct (next_raw_line_loop _ _ _) as [[[[l|]|e] st1]|] eqn:E; [..|done];
    apply (next_raw_line_inv _ _ _ _ _ Hr) in E; [|naive_solver..].
  destruct (trim_end l); intros Hx; by apply IH in Hx.
Qed.
End preserved.

Lemma compare_pairs_inv {S1 T E} (I : S1 → Prop) next_out next_ans (m : E → E → bool) fuel (out : S1) (ans : T) v out' :
  (∀ s x s', I s → next_out s = Some (x, s') → I s') →
  I out → compare_pairs next_out next_ans m fuel out ans = Some (v, out') → I out'.
Proof.
  intros HI. revert out ans. induction fuel as [|fuel IH]; intros out ans Ho; simpl; [done|].
  destruct (next_out out) as [[[o|e] out1]|] eqn:E1; [..|done]; apply (HI _ _ _ Ho) in E1.
  - destruct (next_ans ans) as [[[a|e] ans1]|]; [..|done]; [|naive_solver].
    destruct o, a; try naive_solver. destruct (m _ _); simpl; [by apply IH|naive_solver].
  - destruct e; naive_solver.
Qed.

Lemma compare_inv {Out Ans} `{Read Out, Read Ans} (I : Out → Prop) to_lowercase fuel args output (answer : Ans) v output' :
  (∀ cap r, I r → I (read cap r).2) →
  I output → compare to_lowercase fuel args output answer = Some (v, output') → I output'.
Proof.
  intros HI Ho. unfold compare, compare_exact, compare_tokens, compare_lines.
  repeat case_decide; [by apply compare_exact_inv|..|naive_solver];
    intros ([v0 st] & Hx & [= -> ->])%fmap_Some; simpl.
  1-3: refine (compare_pairs_inv (λ st, I (reader (token_chars st))) _ _ _ _ _ _ _ _ _ _ Hx); [|done];
    intros s x s'; by apply next_token_inv.
  refine (compare_pairs_inv (λ st, I (reader (line_chars st))) _ _ _ _ _ _ _ _ _ _ Hx); [|done];
    intros s x s'; by apply next_line_inv.
Qed.

(** ** The reader with a preview *)

Section tee.
Context {R W : Type} `{ReadLaws R, Write W}.

(** The tee hands out exactly what its reader does, whatever the sink does. *)
#[export] Program Instance ReadLaws_tee : ReadLaws (TeeReader R W) := {| script t := script (inner t) |}.
Next Obligation.
  intros cap t. cbv beta. rewrite script_read. unfold read at 2, Read_tee.
  destruct (read cap (inner t)) as [[[|b bs]|e] r]; unfold prod_map; simpl; [done| |done].
  unfold tee. simpl. by repeat case_match.
Qed.
End tee.

Lemma read_weight {R} `{ReadLaws R} cap (r : R) :
  weight (script (read cap r).2) ≤ weight (script r).
Proof.
  pose proof (script_read cap r) as Hr. unfold prod_map in Hr.
  apply (f_equal snd) in Hr. simpl in Hr. rewrite <-Hr.
  destruct (script r) as [|[bs|e] s]; simpl; [done| |lia].
  unfold read, Read_script. case_decide; simpl; [lia|]. rewrite length_drop. lia.
Qed.

Lemma read_weight_lt {R} `{ReadLaws R} cap (r : R) :
  0 < cap → (read cap r).1 = Ok [] ∨ weight (script (read cap r).2) < weight (script r).
Proof.
  intros Hcap. pose proof (script_read cap r) as Hr. unfold prod_map in Hr.
  destruct (read cap r) as [x r']. simpl in *.
  destruct (script r) as [|[bs|e] s]; simpl.
  - injection Hr as <- _. by left.
  - right. unfold read, Read_script in Hr. case_decide; injection Hr as _ <-; simpl; [lia|].
    rewrite length_drop. lia.
  - injection Hr as _ <-. right. lia.
Qed.

Lemma drain_total {R W} `{ReadLaws R, Write W} fuel (t : TeeReader R W) :
  weight (script t) < fuel → ∃ d t', drain_to_eof fuel t = Some (d, t').
Proof.
  revert t. induction fuel as [|fuel IH]; intros t Hf; [lia|]. cbn [drain_to_eof].
  destruct (read_weight_lt CHUNK t chunk_positive) as [Hx|Hx];
    destruct (read CHUNK t) as [[[|b bs]|e] t']; simpl in *; simplify_eq; [by eexists _, _..| |];
    [apply IH; lia|]. destruct e; [by eexists _, _..|apply IH; lia|by eexists _, _].
Qed.

(** What each mode accepts, on whole contents. *)
Definition accepts (to_lowercase : ustring → ustring) (args : Args) (o a : list read_event) : Prop :=
  let texts {E} (agree : E → E → Prop) (elements : ustring → E) :=
    ∃ co ca, clean_text o co ∧ clean_text a ca ∧ agree (elements ca) (elements co) in
  let mode := arg_mode args in
  if decide (mode = u "exact") then
    (content o).1 = (content a).1 ∧ (content o).2 = None ∧ (content a).2 = None
  else if decide (mode = u "tokens") then texts (tokens_agree to_lowercase Exact) split_whitespace
  else if decide (mode = u "tokens-case-insensitive") then
    texts (tokens_agree to_lowercase CaseInsensitive) split_whitespace
  else if decide (mode = u "tokens-float") then
    texts (tokens_agree to_lowercase
             (Floating (default DEFAULT_ABS_TOL (epsilon args)) (default DEFAULT_REL_TOL (rel_epsilon args))))
          split_whitespace
  else if decide (mode = u "lines") then texts eq split_lines_trimmed
  else False.

Definition known_mode (mode : ustring) : Prop :=
  mode ∈ [u "exact"; u "tokens"; u "tokens-case-insensitive"; u "tokens-float"; u "lines"].

Lemma exact_spec_no_error bs bs' k : exact_spec bs None bs' None ≠ Err k.
Proof.
  revert bs'. induction bs as [|b bs IH]; intros [|b' bs']; simpl; try done. by case_decide.
Qed.

Lemma compare_unknown {Out Ans} `{Read Out, Read Ans} to_lowercase n args (output : Out) (answer : Ans) v output' :
  ¬ known_mode (arg_mode args) → compare to_lowercase n args output answer = Some (v, output') →
  ∃ e, v = Err e.
Proof.
  unfold known_mode. rewrite !not_elem_of_cons. intros (?&?&?&?&?&_). unfold compare.
  rewrite !decide_False by done. intros [= <- _]. eauto.
Qed.

Lemma compare_verdict {Out Ans} `{ReadLaws Out, ReadLaws Ans} to_lowercase n args (output : Out) (answer : Ans) :
  enough n output answer →
  ∃ v output', compare to_lowercase n args output answer = Some (v, output')
    ∧ (v = Ok Accepted ↔ accepts to_lowercase args (script output) (script answer))
    ∧ (known_mode (arg_mode args) → (content (script output)).2 = None →
       (∃ ca, clean_text (script answer) ca) → ∃ w, v = Ok w).
Proof.
  intros Hn. unfold compare, accepts.
  case_decide as E1; [|case_decide as E2; [|case_decide as E3; [|case_decide as E4; [|case_decide as E5]]]].
  - destruct (compare_exact_verdict n output answer Hn) as [o' ->]. eexists _, _.
    split_and!; [done|apply exact_spec_accepted|]. intros _ -> (ca & -> & _).
    destruct (exact_spec _ _ _ _) eqn:E; [by eexists|]. by apply exact_spec_no_error in E.
  - destruct (compare_tokens_verdict to_lowercase n output answer Exact Hn) as (v & o' & -> & Hv & Hk).
    eexists _, _. split_and!; auto.
  - destruct (compare_tokens_verdict to_lowercase n output answer CaseInsensitive Hn) as (v & o' & -> & Hv & Hk).
    eexists _, _. split_and!; auto.
  - edestruct (compare_tokens_verdict to_lowercase n output answer) as (v & o' & -> & Hv & Hk); [done|].
    eexists _, _. split_and!; auto.
  - destruct (compare_lines_verdict n output answer Hn) as (v & o' & -> & Hv & Hk).
    eexists _, _. split_and!; auto.
  - eexists _, _. split_and!; [done|naive_solver|]. unfold known_mode. set_solver.
Qed.

(** ** The process *)

(** A sink that takes every write. *)
Class WriteLaws (W : Type) `{Write W} := {
  written : W → list Z;
  write_all_written bs w : ∃ w', write_all bs w = (true, w') ∧ written w' = written w ++ bs;
  flush_written w : ∃ ok w', flush w = (ok, w') ∧ written w' = written w;
}.

(** Nothing but data and interrupted reads. *)
Definition regular (s : list read_event) : Prop :=
  Forall (λ ev, match ev with Chunk bs => bs ≠ [] | Fails e => e = Interrupted end) s.

Lemma regular_read {R} `{ReadLaws R} cap (r : R) :
  regular (script r) →
  regular (script (read cap r).2) ∧
  (content (script r)).1 =
    match (read cap r).1 with Ok bs => bs | Err _ => [] end ++ (content (script (read cap r).2)).1.
Proof.
  intros Hr. pose proof (script_read cap r) as Hs. unfold prod_map in Hs.
  destruct (read cap r) as [x r']. simpl in *. destruct (script r) as [|[bs|e] s].
  - injection Hs as <- <-. done.
  - apply Forall_cons in Hr as [Hbs Hr]. unfold read, Read_script in Hs.
    case_decide as Hl; injection Hs as <- <-.
    + split; [done|]. by destruct bs.
    + assert (drop cap bs ≠ []) as Hd.
      { intros Hd%(f_equal length). rewrite length_drop in Hd. simpl in Hd. lia. }
      split; [by apply Forall_cons|]. simpl. destruct bs as [|b bs]; [done|].
      destruct (drop cap (b :: bs)) as [|d ds] eqn:E; [done|]. simpl.
      change (d :: ds ++ (content s).1) with ((d :: ds) ++ (content s).1).
      by rewrite <-E, (assoc_L (++)), take_drop.
  - apply Forall_cons in Hr as [-> Hr]. injection Hs as <- <-. done.
Qed.

Section process.
Context {R W Ans : Type} `{ReadLaws R, Write W, ReadLaws Ans} (to_lowercase : ustring → ustring).

Lemma run_spec n argv open (stdin : R) (stdout : W) args (answer : Ans) :
  parse_args argv = Ok args → open (arg_answer args) = Ok answer → enough n stdin answer →
  ∃ v output d output' ok output'',
    compare to_lowercase n args (new_tee stdin (Some stdout)) answer = Some (v, output)
    ∧ drain_to_eof n output = Some (d, output') ∧ flush_preview output' = (ok, output'')
    ∧ run to_lowercase n argv open stdin stdout = Some (finalize v d ok, preview output'')
    ∧ (v = Ok Accepted ↔ accepts to_lowercase args (script stdin) (script answer))
    ∧ (known_mode (arg_mode args) → (content (script stdin)).2 = None →
       (∃ ca, clean_text (script answer) ca) → ∃ w, v = Ok w).
Proof.
  intros Hargs Hopen Hn. unfold run. rewrite Hargs, Hopen.
  assert (enough n (new_tee stdin (Some stdout)) answer) as Hn' by (destruct Hn; by split).
  destruct (compare_verdict to_lowercase n args (new_tee stdin (Some stdout)) answer Hn')
    as (v & output & Hc & Hv & Hk).
  assert (weight (script output) < n) as Hw.
  { refine (compare_inv (λ t, weight (script t) < n) to_lowercase n args _ answer v output _ _ Hc).
    - intros cap t Ht. pose proof (read_weight cap t). lia.
    - destruct Hn. simpl. lia. }
  destruct (drain_total n output Hw) as (d & output' & Hd).
  destruct (flush_preview output') as [ok output''] eqn:Hf.
  exists v, output, d, output', ok, output''. rewrite Hc, Hd, Hf. split_and!; done.
Qed.

Context `{!WriteLaws W}.

(** The bytes delivered so far are in the sink, up to the cap. *)
Definition previewed (stdin : R) (stdout : W) (t : TeeReader R W) : Prop :=
  ∃ bs w, (content (script stdin)).1 = bs ++ (content (script t)).1 ∧ preview t = Some w
    ∧ written w = written stdout ++ take INLINE_OUTPUT_PREVIEW_BYTES bs
    ∧ captured t = INLINE_OUTPUT_PREVIEW_BYTES `min` length bs ∧ regular (script t).

Lemma take_app_min {A} (bs chunk : list A) cap :
  take cap bs ++ take ((cap - length (take cap bs)) `min` length chunk) chunk = take cap (bs ++ chunk).
Proof.
  rewrite take_app, length_take. f_equal.
  destruct (decide (cap - length bs ≤ length chunk)).
  - f_equal. lia.
  - rewrite !take_ge; [done|lia..].
Qed.

Lemma tee_previewed stdin stdout (t : TeeReader R W) chunk bs :
  (content (script stdin)).1 = bs ++ chunk ++ (content (script t)).1 → regular (script t) →
  (∃ w, preview t = Some w ∧ written w = written stdout ++ take INLINE_OUTPUT_PREVIEW_BYTES bs) →
  captured t = INLINE_OUTPUT_PREVIEW_BYTES `min` length bs →
  previewed stdin stdout (tee chunk t).
Proof using WriteLaws0.
  intros Hb Hreg (w & Hw & Hwr) Hcap. unfold tee, previewed. rewrite Hw.
  generalize dependent INLINE_OUTPUT_PREVIEW_BYTES. intros cap Hwr Hcap.
  assert (length (take cap bs) = captured t) as Hl by (rewrite length_take; lia).
  destruct (captured t <? cap)%nat eqn:E.
  - destruct (write_all_written (take ((cap - captured t) `min` length chunk) chunk) w) as (w' & -> & Hw').
    exists (bs ++ chunk), w'. simpl. split_and!; [by rewrite <-(assoc_L (++))|done| | |done].
    + by rewrite Hw', Hwr, <-(assoc_L (++)), <-Hl, take_app_min.
    + rewrite length_app. apply Nat.ltb_lt in E. lia.
  - apply Nat.ltb_ge in E. exists (bs ++ chunk), w.
    split_and!; [by rewrite <-(assoc_L (++))|done| | |done].
    + rewrite Hwr, take_app. replace (cap - length bs) with 0 by lia.
      by rewrite take_0, app_nil_r.
    + rewrite length_app. lia.
Qed.

Lemma read_previewed stdin stdout cap (t : TeeReader R W) :
  previewed stdin stdout t → previewed stdin stdout (read cap t).2.
Proof using WriteLaws0.
  intros (bs & w & Hb & Hp & Hw & Hc & Hreg). destruct (regular_read cap (inner t) Hreg) as [Hreg' Hcont].
  unfold read at 1, Read_tee. simpl in Hb. rewrite Hcont in Hb.
  destruct (read cap (inner t)) as [[[|b x]|e] r]; simpl in *.
  - by exists bs, w.
  - eapply (tee_previewed _ _ _ (b :: x) bs); eauto.
  - by exists bs, w.
Qed.

(** Draining reads to the end of the content. *)
Lemma drain_content fuel (t : TeeReader R W) d t' :
  regular (script t) → drain_to_eof fuel t = Some (d, t') → (content (script t')).1 = [].
Proof.
  revert t. induction fuel as [|fuel IH]; intros t Hreg; [done|]. cbn [drain_to_eof].
  destruct (regular_read CHUNK t Hreg) as [Hreg' Hc].
  pose proof (read_weight_lt CHUNK t chunk_positive) as Hlt.
  pose proof (script_read CHUNK t) as Hs. unfold prod_map in Hs.
  destruct (read CHUNK t) as [[[|b bs]|e] t1] eqn:E; simpl in *.
  - intros [= <- <-]. destruct (script (inner t)) as [|[c|k] s]; simpl in *.
    + by injection Hs as <-.
    + apply Forall_cons in Hreg as [Hne _]. unfold read, Read_script in Hs.
      case_decide; injection Hs as Hs _; [done|].
      apply (f_equal length) in Hs. rewrite length_take in Hs. pose proof chunk_positive. simpl in Hs.
      destruct c; simpl in *; [done|lia].
    + done.
  - by apply IH.
  - destruct (script (inner t)) as [|[c|k] s]; [done| |].
    + unfold read, Read_script in Hs. case_decide; done.
    + apply Forall_cons in Hreg as [-> _]. injection Hs as <- _. by apply IH.
Qed.
End process.

(** ** Properties *)

Section properties.
Context {R W Ans : Type} `{ReadLaws R, Write W, ReadLaws Ans} (to_lowercase : ustring → ustring).

(** C4. The comparator's exit code, for every command line, every way the two
    streams are cut into reads, and whatever becomes of the preview sink: the
    process ends with 0, 1 or 64.  The code is 64 when the command line does not
    parse, the answer file does not open, or the mode is none of the five; it is 0
    exactly when the mode accepts the whole contents (equal bytes, token by token,
    or line by line after trimming); with a known mode, an output that can be read
    to its end and a clean answer file, an output that is not accepted, however
    malformed, gets 1. *)
Theorem run_exit_code n argv (open : ustring → result ErrorKind Ans) (stdin : R) (stdout : W) :
  (∀ args answer, parse_args argv = Ok args → open (arg_answer args) = Ok answer → enough n stdin answer) →
  ∃ r w, run to_lowercase n argv open stdin stdout = Some (r, w)
    ∧ (main r = 0 ∨ main r = 1 ∨ main r = 64)%Z
    ∧ match parse_args argv with
      | Err _ => main r = 64%Z
      | Ok args =>
          match open (arg_answer args) with
          | Err _ => main r = 64%Z
          | Ok answer =>
              (main r = 0%Z ↔ accepts to_lowercase args (script stdin) (script answer))
              ∧ (¬ known_mode (arg_mode args) → main r = 64%Z)
              ∧ (known_mode (arg_mode args) → (content (script stdin)).2 = None →
                 (∃ ca, clean_text (script answer) ca) →
                 ¬ accepts to_lowercase args (script stdin) (script answer) → main r = 1%Z)
          end
      end.
Proof.
  intros Hn. destruct (parse_args argv) as [args|e] eqn:Hargs.
  2:{ unfold run. rewrite Hargs. eexists _, _. split_and!; [done|by auto..]. }
  destruct (open (arg_answer args)) as [answer|e] eqn:Hopen.
  2:{ unfold run. rewrite Hargs, Hopen. eexists _, _. split_and!; [done|by auto..]. }
  destruct (run_spec to_lowercase n argv open stdin stdout args answer Hargs Hopen (Hn _ _ eq_refl Hopen))
    as (v & ? & d & ? & ok & ? & Hc & _ & _ & -> & Hv & Hk).
  eexists _, _. split; [done|]. rewrite <-Hv. unfold finalize. split_and!.
  - destruct v as [[]|]; simpl; auto.
  - destruct v as [[]|]; simpl; naive_solver.
  - intros Hm. by destruct (compare_unknown _ _ _ _ _ _ _ Hm Hc) as [? ->].
  - intros Hm Hs Ha. destruct (Hk Hm Hs Ha) as [[] ->]; simpl; naive_solver.
Qed.

(** The preview: when the sink takes every write and the solution's stream
    has no error but interrupted reads, the sink ends with exactly the first
    64 KiB of the whole output, even when the verdict was reached long before. *)
Theorem preview_is_prefix `{!WriteLaws W} n argv open (stdin : R) (stdout : W) args (answer : Ans) :
  regular (script stdin) →
  parse_args argv = Ok args → open (arg_answer args) = Ok answer → enough n stdin answer →
  ∃ r w, run to_lowercase n argv open stdin stdout = Some (r, Some w)
    ∧ written w = written stdout ++ take INLINE_OUTPUT_PREVIEW_BYTES (content (script stdin)).1.
Proof.
  intros Hreg Hargs Hopen Hn.
  destruct (run_spec to_lowercase n argv open stdin stdout args answer Hargs Hopen Hn)
    as (v & t & d & t' & ok & t'' & Hc & Hd & Hf & -> & _).
  assert (previewed stdin stdout t) as Ht.
  { refine (compare_inv (previewed stdin stdout) to_lowercase n args _ answer v t _ _ Hc).
    - intros cap r. apply read_previewed.
    - exists [], stdout. simpl. rewrite take_nil, app_nil_r. split_and!; done || lia. }
  assert (previewed stdin stdout t') as (bs & w & Hb & Hp & Hw & _ & _).
  { clear -Ht Hd. revert t Ht Hd. induction n as [|m IH]; intros t Ht; [done|]. cbn [drain_to_eof].
    pose proof (read_previewed stdin stdout CHUNK t Ht) as Ht1.
    destruct (read CHUNK t) as [[[|b bs]|[]] t1]; simpl in Ht1; first [by intros [= <- <-] | by apply IH]. }
  rewrite (drain_content n t d t'), app_nil_r in Hb; [|by destruct Ht as (? & ? & ? & ? & ? & ? & ?)|done].
  unfold flush_preview in Hf. rewrite Hp in Hf.
  destruct (flush_written w) as (ok' & w' & Hfl & Hw'). rewrite Hfl in Hf. injection Hf as <- <-.
  eexists _, w'. split; [done|]. by rewrite Hw', Hw, Hb.
Qed.
End properties.

(** The byte comparison is chunk-independent down to its errors: its result
    is the walk [exact_spec] along the two contents, where the first differing
    byte, end of stream or read error decides and the output is read first. *)
Theorem compare_exact_correct {Out Ans} `{ReadLaws Out, ReadLaws Ans} n (output : Out) (answer : Ans) :
  enough n output answer →
  ∃ output', compare_exact n output answer =
    Some (exact_spec (content (script output)).1 (content (script output)).2
            (content (script answer)).1 (content (script answer)).2, output').
Proof. apply compare_exact_verdict. Qed.

(** UTF-8 round trip of the streaming decoder: the encoding of any text, cut
    into reads anywhere (inside characters too) and interrupted at will, is
    handed out character by character as that text. *)
Theorem char_stream_roundtrip {R} `{ReadLaws R} n (r : R) cs :
  Forall (λ c, is_scalar c = true) cs → content (script r) = (encode cs, None) →
  weight (script r) + 3 < n →
  Emits (next_char n) (next_char n (new_chars r)) cs None.
Proof.
  intros Hcs Hc Hn. destruct (new_chars_emits n r Hn) as (cs' & e & He & Ht & _).
  destruct (text_of_clean (script r) cs cs' e) as [-> ->]; [|done|done].
  split; rewrite Hc; [done|]. by apply valid_encode.
Qed.

(** ** Examples *)

#[local] Transparent CHUNK INLINE_OUTPUT_PREVIEW_BYTES.

(** A sink that keeps its bytes. *)
Definition memory : Type := list Z.

#[global] Instance Write_memory : Write memory := {|
  write_all bs w := (true, w ++ bs);
  flush w := (true, w);
|}.

#[global] Instance WriteLaws_memory : WriteLaws memory.
Proof.
  refine {| written (w : memory) := w |}; simpl.
  - by eexists.
  - by eexists _, _.
Defined.

Definition lower_ascii (s : ustring) : ustring := ascii_lower <$> s.

(** "é 1.5", split inside the character and the number, and an interrupted read. *)
Definition sample_stdin : list read_event :=
  [Chunk [195%Z]; Fails Interrupted; Chunk [169; 32; 49]%Z; Chunk [46; 53; 10]%Z].
Definition sample_answer : list read_event := [Chunk (encode (u " " ++ [233%Z] ++ u " 1.5000000001"))].

Definition sample_argv : list ustring :=
  [u "--mode"; u "tokens-float"; u "--answer"; u "a.txt"; u "--epsilon"; u "1e-3"].

Definition sample_args : Args :=
  {| arg_mode := u "tokens-float"; arg_answer := u "a.txt";
     epsilon := Some (f_of_decimal false 1 (-3)); rel_epsilon := None |}.

Definition sample_open (path : ustring) : result ErrorKind (list read_event) := Ok sample_answer.

Lemma run_exit_code_witness :
  ∃ r w, run lower_ascii 100 sample_argv sample_open sample_stdin ([] : memory) = Some (r, w)
    ∧ (main r = 0 ∨ main r = 1 ∨ main r = 64)%Z
    ∧ match parse_args sample_argv with
      | Err _ => main r = 64%Z
      | Ok args =>
          match sample_open (arg_answer args) with
          | Err _ => main r = 64%Z
          | Ok answer =>
              (main r = 0%Z ↔ accepts lower_ascii args (script sample_stdin) (script answer))
              ∧ (¬ known_mode (arg_mode args) → main r = 64%Z)
              ∧ (known_mode (arg_mode args) → (content (script sample_stdin)).2 = None →
                 (∃ ca, clean_text (script answer) ca) →
                 ¬ accepts lower_ascii args (script sample_stdin) (script answer) → main r = 1%Z)
          end
      end.
Proof.
  apply (run_exit_code lower_ascii 100 sample_argv sample_open sample_stdin ([] : memory)).
  intros args answer _ [= <-]. split; vm_compute; lia.
Defined.

Example sample_run :
  run lower_ascii 100 sample_argv sample_open sample_stdin ([] : memory)
  = Some (Ok Accepted, Some [195; 169; 32; 49; 46; 53; 10]%Z).
Proof. vm_compute. reflexivity. Qed.

Lemma preview_is_prefix_witness :
  ∃ r w, run lower_ascii 100 sample_argv sample_open sample_stdin ([] : memory) = Some (r, Some w)
    ∧ written w = written ([] : memory) ++ take INLINE_OUTPUT_PREVIEW_BYTES (content (script sample_stdin)).1.
Proof.
  apply (preview_is_prefix lower_ascii 100 sample_argv sample_open sample_stdin ([] : memory) sample_args sample_answer).
  - repeat constructor; discriminate.
  - vm_compute. reflexivity.
  - reflexivity.
  - split; vm_compute; lia.
Defined.

Lemma compare_exact_correct_witness :
  ∃ output', compare_exact 20 [Chunk [1; 2]%Z; Chunk [3]%Z] [Chunk [1]%Z; Fails Interrupted; Chunk [2; 4]%Z] =
    Some (Ok WrongAnswer, output').
Proof.
  destruct (compare_exact_correct 20 [Chunk [1; 2]%Z; Chunk [3]%Z] [Chunk [1]%Z; Fails Interrupted; Chunk [2; 4]%Z])
    as [output' Hout]; [split; vm_compute; lia|].
  exists output'. exact Hout.
Defined.

Lemma char_stream_roundtrip_witness :
  Emits (next_char 50) (next_char 50 (new_chars [Chunk [240; 159]%Z; Chunk [152; 128; 65]%Z])) [128512; 65]%Z None.
Proof.
  apply (char_stream_roundtrip 50 [Chunk [240; 159]%Z; Chunk [152; 128; 65]%Z] [128512; 65]%Z).
  - repeat constructor.
  - vm_compute. reflexivity.
  - vm_compute. lia.
Defined.
