(* ===== verification/Json.v ===== *)
(** JSON values as [serde_json::Value] has them, with their induction principle.
    An object is an association list; the code looks the first entry of a key
    up, and a parsed object has each key once. *)

From stdpp Require Import base list.
From S2P Require Import Prelude.
From S2P Require Import Text.
From S2P Require Import Float.

Inductive Value :=
  | VNull
  | VBool (b : bool)
  | VInt (z : Z)
  | VFloat (x : f64)
  | VString (s : ustring)
  | VArray (vs : list Value)
  | VObject (fields : list (ustring * Value)).

Section induction.
Context (P : Value → Prop).
Context (Hnull : P VNull) (Hbool : ∀ b, P (VBool b)) (Hint : ∀ z, P (VInt z))
  (Hfloat : ∀ x, P (VFloat x)) (Hstring : ∀ s, P (VString s))
  (Harray : ∀ vs, Forall P vs → P (VArray vs))
  (Hobject : ∀ fs, Forall (λ kv, P kv.2) fs → P (VObject fs)).

Fixpoint Value_induction (v : Value) : P v :=
  match v with
  | VNull => Hnull
  | VBool b => Hbool b
  | VInt z => Hint z
  | VFloat x => Hfloat x
  | VString s => Hstring s
  | VArray vs =>
      Harray vs ((fix go vs : Forall P vs := match vs with
                               | [] => Forall_nil_2 _
                               | v :: vs => Forall_cons_2 _ _ _ (Value_induction v) (go vs)
                               end) vs)
  | VObject fs =>
      Hobject fs ((fix go fs : Forall (λ kv, P kv.2) fs := match fs with
                                | [] => Forall_nil_2 _
                                | kv :: fs => Forall_cons_2 _ kv _ (Value_induction kv.2) (go fs)
                                end) fs)
  end.
End induction.

(** The first entry of a key. *)
Fixpoint field {A} (k : ustring) (fields : list (ustring * A)) : option A :=
  match fields with
  | [] => None
  | (k', v) :: fields => if decide (k = k') then Some v else field k fields
  end.

(** [Value::get] with a string index. *)
Definition get (k : ustring) (v : Value) : option Value :=
  match v with VObject fields => field k fields | _ => None end.

Definition as_f64 (v : Value) : option f64 :=
  match v with VInt z => Some (f_of_Z z) | VFloat x => Some x | _ => None end.

(** [value[key] = x] on an object. *)
Fixpoint set_field (key : ustring) (x : Value) (fields : list (ustring * Value))
    : list (ustring * Value) :=
  match fields with
  | [] => [(key, x)]
  | (k, v) :: fields => if decide (key = k) then (k, x) :: fields else (k, v) :: set_field key x fields
  end.

Definition as_bool (v : Value) : option bool := match v with VBool b => Some b | _ => None end.
Definition as_str (v : Value) : option ustring := match v with VString s => Some s | _ => None end.
Definition as_u64 (v : Value) : option Z :=
  match v with VInt z => if decide (0 ≤ z)%Z then Some z else None | _ => None end.

(** [==] of two values: an object is a map, whatever the order of its entries. *)
Fixpoint value_eqb (v w : Value) {struct v} : bool :=
  match v, w with
  | VNull, VNull => true
  | VBool b, VBool c => Bool.eqb b c
  | VInt z, VInt y => (z =? y)%Z
  | VFloat x, VFloat y => f_eqb x y
  | VString s, VString t => bool_decide (s = t)
  | VArray vs, VArray ws =>
      (fix go vs ws {struct vs} := match vs, ws with
        | [], [] => true
        | v :: vs, w :: ws => value_eqb v w && go vs ws
        | _, _ => false
        end) vs ws
  | VObject fs, VObject gs =>
      (length fs =? length gs)%nat &&
      (fix go fs := match fs with
        | [] => true
        | (k, v) :: fs =>
            match field k gs with Some w => value_eqb v w && go fs | None => false end
        end) fs
  | _, _ => false
  end.

Lemma field_set_field k k' x fs :
  field k (set_field k' x fs) = if decide (k = k') then Some x else field k fs.
Proof.
  induction fs as [|[k0 v] fs IH]; cbn [set_field field]; [done|].
  destruct (decide (k' = k0)) as [-> |Hk']; cbn [field].
  - by destruct (decide (k = k0)).
  - destruct (decide (k = k0)) as [-> |Hk]; [by rewrite decide_False|done].
Qed.
