(* ===== verification/Checkers.v ===== *)
(** * Operations: what the judge asks a worker to run, and its answer

    packages/broccoli-types/src/types/operation.rs and the parts of evaluate.rs
    and checker.rs the evaluator uses. Durations and limits in seconds are f64,
    sizes u32; paths are texts. *)

From stdpp Require Import base list gmap.
From S2P Require Import Prelude.
From S2P Require Import Text.
From S2P Require Import Float.

(** ** Files and environments *)

Inductive SessionFile :=
  | SfPath (path : ustring)
  | SfContent (content : ustring)
  | SfBlob (hash : ustring).

#[global] Instance SessionFile_eq_dec : EqDecision SessionFile.
Proof. solve_decision. Defined.

Record FileRef := { fr_filename : ustring; fr_content_type : option ustring;
                    fr_blob_hash : ustring; fr_read_token : option ustring }.

Record SourceFile := { src_filename : ustring; src_content : ustring }.

Inductive JudgeFile :=
  | JInline (text : ustring)
  | JBlob (file : FileRef)
  | JMissing.

Definition to_session_file (f : JudgeFile) : SessionFile :=
  match f with
  | JBlob file => SfBlob (fr_blob_hash file)
  | JInline text => SfContent text
  | JMissing => SfContent []
  end.

Record Environment := { env_id : ustring; files_in : list (ustring * SessionFile) }.

(** ** Steps *)

Inductive IOTarget :=
  | IoNull
  | IoInherit
  | IoFile (path : ustring)
  | IoPipe (name : ustring).

#[global] Instance IOTarget_eq_dec : EqDecision IOTarget.
Proof. solve_decision. Defined.

Record IOConfig := { io_stdin : IOTarget; io_stdout : IOTarget; io_stderr : IOTarget }.

Record ResourceLimits := {
  time_limit : option f64;
  wall_time_limit : option f64;
  extra_time : option f64;
  memory_limit : option Z;
  stack_limit : option Z;
  open_files_limit : option Z;
  file_size_limit : option Z;
  process_limit : option Z;
}.

(** [ResourceLimits::default()] sets nothing; the one of [RunOptions::default()]
    allows a single process. *)
Definition no_limits : ResourceLimits := {|
  time_limit := None; wall_time_limit := None; extra_time := None; memory_limit := None;
  stack_limit := None; open_files_limit := None; file_size_limit := None; process_limit := None;
|}.

Record DirectoryOptions := {
  read_write : bool; allow_devices : bool; no_exec : bool;
  is_filesystem : bool; is_tmp : bool; no_recursive : bool;
}.

Record DirectoryRule := {
  inside_path : ustring; outside_path : option ustring; dir_options : DirectoryOptions;
}.

Inductive EnvRule := EnvInherit (name : ustring) | EnvSet (name value : ustring) | FullEnv.

Record RunOptions := {
  resource_limits : ResourceLimits;
  wait : bool;
  as_uid : option Z;
  as_gid : option Z;
  opt_stdin : option ustring;
  opt_stdout : option ustring;
  opt_stderr : option ustring;
  env_rules : list EnvRule;
  directory_rules : list DirectoryRule;
}.

(** [RunOptions { resource_limits, ..Default::default() }]: no inherited
    environment variables. *)
Definition run_with (limits : ResourceLimits) : RunOptions := {|
  resource_limits := limits; wait := true; as_uid := None; as_gid := None;
  opt_stdin := None; opt_stdout := None; opt_stderr := None; env_rules := []; directory_rules := [];
|}.

Definition default_limits : ResourceLimits := {|
  time_limit := None; wall_time_limit := None; extra_time := None; memory_limit := None;
  stack_limit := None; open_files_limit := None; file_size_limit := None; process_limit := Some 1%Z;
|}.

Definition default_run_options : RunOptions := run_with default_limits.

Record StepCacheConfig := { key_inputs : list ustring; cache_outputs : list ustring }.

Inductive StepKind := Generic | CompileKind | Testcase | CheckerCompile | CheckerKind.

Inductive MountSource :=
  | StepOutput (from_step file : ustring)
  | PlatformTool (name : ustring).

Record MountSpec := { mount_inside : ustring; mount_source : MountSource }.

Record Step := {
  step_id : ustring;
  step_kind : StepKind;
  env_ref : ustring;
  argv : list ustring;
  conf : RunOptions;
  io : IOConfig;
  collect : list ustring;
  depends_on : list ustring;
  cache : option StepCacheConfig;
  mounts : list MountSpec;
}.

(** The three parts of a step that splicing changes. *)
Definition with_wiring (s : Step) (io' : IOConfig) (collect' depends' : list ustring) : Step := {|
  step_id := step_id s; step_kind := step_kind s; env_ref := env_ref s; argv := argv s;
  conf := conf s; io := io'; collect := collect'; depends_on := depends'; cache := cache s;
  mounts := mounts s;
|}.

Record Channel := {
  ch_name : ustring;
  buffer_size : option Z;
  producer_step : option ustring;
  consumer_step : option ustring;
}.

(** [Channel { name, ..Channel::default() }]. *)
Definition channel_named (name : ustring) : Channel :=
  {| ch_name := name; buffer_size := Some 8192%Z; producer_step := None; consumer_step := None |}.

Record OperationTask := {
  environments : list Environment;
  tasks : list Step;
  channels : list Channel;
  priority : option Z;
  target_worker_id : option ustring;
  evaluate_batch_id : option ustring;
  op_test_case_id : option Z;
}.

(** ** Results *)

Inductive SandboxStatus := StOk | TimedOut | Signaled | NonZeroExit | InternalError | StUnknown.

#[global] Instance SandboxStatus_eq_dec : EqDecision SandboxStatus.
Proof. solve_decision. Defined.

Definition from_isolate (status : ustring) : SandboxStatus :=
  if decide (status = u "OK") then StOk
  else if decide (status = u "TO") then TimedOut
  else if decide (status = u "SG") then Signaled
  else if decide (status = u "RE") then NonZeroExit
  else if decide (status = u "XX") then InternalError
  else StUnknown.

Record ExecutionResult := {
  exit_code : option Z;
  signal : option Z;
  time_used : f64;
  wall_time_used : f64;
  memory_used : option Z;
  killed : bool;
  cg_oom_killed : bool;
  status : ustring;
  sandbox_status : SandboxStatus;
  message : ustring;
  stdout : ustring;
  stderr : ustring;
}.

Definition status_kind (r : ExecutionResult) : SandboxStatus :=
  match sandbox_status r with
  | StUnknown => from_isolate (status r)
  | known => known
  end.

(** [ExecutionResult::default()]. *)
Definition default_execution : ExecutionResult := {|
  exit_code := None; signal := None; time_used := f_zero; wall_time_used := f_zero;
  memory_used := None; killed := false; cg_oom_killed := false; status := u "UNKNOWN";
  sandbox_status := StUnknown; message := []; stdout := []; stderr := [];
|}.

Record TaskExecutionResult := {
  task_id : ustring;
  task_success : bool;
  sandbox_result : ExecutionResult;
  collected_outputs : gmap ustring ustring;
}.

Record OperationResult := {
  op_success : bool;
  task_results : gmap ustring TaskExecutionResult;
  op_error : option ustring;
}.

Definition CANCELLED_BY_HOST : ustring := u "Cancelled by host".

Definition cancelled_by_host : OperationResult :=
  {| op_success := false; task_results := ∅; op_error := Some CANCELLED_BY_HOST |}.

Definition is_cancelled_by_host (r : OperationResult) : bool :=
  negb (op_success r) && bool_decide (task_results r = ∅)
  && bool_decide (op_error r = Some CANCELLED_BY_HOST).

(** * The standard checkers of the judge

    plugins/standard-checkers: the stage a comparison format or a testlib checker
    adds to an operation, and the verdict its small result means. The native
    comparator itself is [Compare]. *)

From S2P Require Import Json.
From S2P Require Import Compare.
From S2P Require Import Verdict.

(** ** Texts (util.rs) *)

Definition truncate (s : ustring) (max_chars : nat) : ustring :=
  if decide (length s ≤ max_chars) then s else take max_chars s ++ u "... (truncated)".

(** ** Data *)

Record CheckerVerdict := { cv_verdict : Verdict; cv_score : f64; cv_message : option ustring }.

Inductive OutputMode := Stream (channel : ustring) | File (name : ustring).

#[global] Instance OutputMode_eq_dec : EqDecision OutputMode.
Proof. solve_decision. Defined.

Record CheckerStage := {
  checker_env : Environment;
  stage_steps : list Step;
  output_mode : OutputMode;
  result_step_id : ustring;
}.

Record ResolveCheckerInput := {
  rc_format : ustring;
  rc_answer : JudgeFile;
  rc_test_input : JudgeFile;
  rc_problem_id : option Z;
  rc_config : option Value;
  rc_output_binding : OutputMode;
}.

Record CheckerRunOutcome := {
  run_exit_code : option Z;
  run_stderr : ustring;
  run_sandbox_status : option ustring;
}.

Definition CHECKER_ENV_ID : ustring := u "checker".
Definition CHECK_STEP_ID : ustring := u "check".
Definition SOLUTION_EXEC_STEP_ID : ustring := u "exec".
Definition BROCCOLI_COMPARE_TOOL : ustring := u "broccoli-compare".
Definition BROCCOLI_COMPARE_PATH : ustring := u "/tools/broccoli-compare".
Definition ANSWER_FILE : ustring := u "answer.txt".
Definition PREVIEW_FILE : ustring := u "output_preview.txt".
Definition MESSAGE_FILE : ustring := u "check_msg.txt".
Definition BUILTIN_CHECK_TIME_LIMIT_S : f64 := f_of_Z 30.
Definition BUILTIN_CHECK_WALL_LIMIT_S : f64 := f_of_Z 600.
Definition BUILTIN_CHECK_MEMORY_LIMIT_KB : Z := 256 * 1024.

(** ** Resolving a stage (resolve.rs) *)

Definition builtin_compare_mode (format : ustring) : option ustring :=
  if decide (format ∈ [u "exact"; u "lines"; u "tokens"; u "tokens-case-insensitive"; u "tokens-float"])
  then Some format else None.

Section resolve.
(** [{}] of a number ([f64::fmt]) and of a JSON value ([serde_json]). *)
Context (display_f64 : f64 → ustring) (display_value : Value → ustring).

Definition tolerance (config : option Value) (key : ustring) (dflt : f64) : result ustring f64 :=
  match config ≫= get key with
  | None | Some VNull => Ok dflt
  | Some v => ok_or (as_f64 v)
      (u "checker config `" ++ key ++ u "` must be a number, got " ++ display_value v)
  end.

Definition float_tolerances (config : option Value) : result ustring (f64 * f64) :=
  abs ← tolerance config (u "abs_tol") DEFAULT_ABS_TOL;
  rel ← tolerance config (u "rel_tol") DEFAULT_REL_TOL;
  Ok (abs, rel).

Definition builtin_argv (format mode : ustring) (config : option Value) : result ustring (list ustring) :=
  let argv := [BROCCOLI_COMPARE_PATH; u "--mode"; mode; u "--answer"; ANSWER_FILE] in
  if decide (format = u "tokens-float") then
    tols ← float_tolerances config;
    Ok (argv ++ [u "--epsilon"; display_f64 tols.1; u "--rel-epsilon"; display_f64 tols.2])
  else Ok argv.

Definition resolve_builtin (format : ustring) (input : ResolveCheckerInput) : result ustring CheckerStage :=
  match builtin_compare_mode format with
  | None => Err (u "'" ++ format ++ u "' is not a built-in comparison format")
  | Some mode =>
      match rc_output_binding input with
      | File name =>
          Err (u "built-in checker '" ++ format ++ u "' requires a Stream output binding, got File '"
               ++ name ++ u "'")
      | Stream channel =>
          argv ← builtin_argv format mode (rc_config input);
          Ok {| checker_env := {| env_id := CHECKER_ENV_ID;
                                  files_in := [(ANSWER_FILE, to_session_file (rc_answer input))] |};
                stage_steps := [{|
                  step_id := CHECK_STEP_ID; step_kind := CheckerKind; env_ref := CHECKER_ENV_ID;
                  argv := argv;
                  conf := run_with {|
                    time_limit := Some BUILTIN_CHECK_TIME_LIMIT_S;
                    wall_time_limit := Some BUILTIN_CHECK_WALL_LIMIT_S; extra_time := None;
                    memory_limit := Some BUILTIN_CHECK_MEMORY_LIMIT_KB; stack_limit := None;
                    open_files_limit := None; file_size_limit := None; process_limit := Some 1%Z |};
                  io := {| io_stdin := IoPipe channel; io_stdout := IoFile PREVIEW_FILE;
                           io_stderr := IoFile MESSAGE_FILE |};
                  collect := []; depends_on := []; cache := None;
                  mounts := [{| mount_inside := BROCCOLI_COMPARE_PATH;
                                mount_source := PlatformTool BROCCOLI_COMPARE_TOOL |}] |}];
                output_mode := Stream channel;
                result_step_id := CHECK_STEP_ID |}
      end
  end.
End resolve.

(** ** Languages, as resolved for an evaluator *)

Inductive OutputSpec := OutFile (f : ustring) | OutGlob (g : ustring).

Record CompileSpec := {
  cs_command : list ustring;
  cs_cache_inputs : list ustring;
  cs_outputs : list OutputSpec;
  cs_resource_limits : option ResourceLimits;
}.

Record RunSpec := { rs_command : list ustring; rs_extra_files : list ustring; min_process_limit : option Z }.

Record ResolveLanguageOutput := { lang_compile : option CompileSpec; lang_run : RunSpec }.

Record ResolveLanguageInput := {
  rl_language_id : ustring;
  rl_submitted_files : list ustring;
  rl_additional_files : list FileRef;
  rl_problem_id : option Z;
  rl_contest_id : option Z;
  rl_overrides : option Value;
}.

Definition output_name (o : OutputSpec) : ustring := match o with OutFile f => f | OutGlob g => g end.

(** ** testlib checkers (checkers/testlib.rs) *)

Record CheckerCompilerConfig := { compiler : ustring; flags : list ustring }.

Record TestlibConfig := {
  cpp : CheckerCompilerConfig;
  c_lang : CheckerCompilerConfig;
  compile_time_limit_s : f64;
  compile_memory_limit_kb : Z;
  run_time_limit_s : f64;
  run_memory_limit_kb : Z;
}.

Definition default_testlib_config : TestlibConfig := {|
  cpp := {| compiler := u "/usr/bin/g++"; flags := [u "-O2"; u "-std=c++17"] |};
  c_lang := {| compiler := u "/usr/bin/gcc"; flags := [u "-O2"; u "-std=c11"] |};
  compile_time_limit_s := f_of_Z 10;
  compile_memory_limit_kb := 512 * 1024;
  run_time_limit_s := f_of_Z 20;
  run_memory_limit_kb := 1024 * 1024;
|}.

Definition is_checker_source (filename : ustring) : bool :=
  let f := to_ascii_lowercase filename in
  ends_with (u ".cpp") f || ends_with (u ".cc") f || ends_with (u ".cxx") f || ends_with (u ".c") f.

Definition partition_checker_sources (filenames : list ustring)
    : result ustring (list ustring * list ustring) :=
  let sources := filter (λ f, is_checker_source f = true) filenames in
  let others := filter (λ f, is_checker_source f ≠ true) filenames in
  match sources with
  | [] => Err (u "checker_source has no compilable .c/.cpp file (got: " ++ join (u ", ") others ++
               u "). Upload the checker's .cpp; bundle testlib.h alongside it as a header.")
  | _ => Ok (sources, others)
  end.

Definition checker_language_id (primary_filename : ustring) : result ustring ustring :=
  if ends_with (u ".cpp") primary_filename || ends_with (u ".cc") primary_filename
     || ends_with (u ".cxx") primary_filename then Ok (u "cpp")
  else if ends_with (u ".c") primary_filename then Ok (u "c")
  else Err (u "Unsupported checker source language for '" ++ primary_filename ++
            u "'. Only C (.c) and C++ (.cpp/.cc/.cxx) are supported.").

(** Every file of the bundle becomes part of the compile cache key. *)
Definition add_cache_inputs (inputs bundle : list ustring) : list ustring :=
  foldl (λ acc f, if decide (f ∈ acc) then acc else acc ++ [f]) inputs bundle.

Definition extend_cache_inputs_with_bundle (resolved : ResolveLanguageOutput) (bundle : list ustring)
    : ResolveLanguageOutput := {|
  lang_compile := (λ c, {| cs_command := cs_command c;
                           cs_cache_inputs := add_cache_inputs (cs_cache_inputs c) bundle;
                           cs_outputs := cs_outputs c; cs_resource_limits := cs_resource_limits c |})
                  <$> lang_compile resolved;
  lang_run := lang_run resolved;
|}.

Definition build_compile_checker_step (resolved : ResolveLanguageOutput) (config : TestlibConfig)
    (env_id : ustring) : option Step :=
  compile ← lang_compile resolved;
  let outputs := output_name <$> cs_outputs compile in
  Some {|
    step_id := u "compile_checker"; step_kind := CheckerCompile; env_ref := env_id;
    argv := cs_command compile;
    conf := run_with {|
      time_limit := Some (compile_time_limit_s config); wall_time_limit := None; extra_time := None;
      memory_limit := Some (compile_memory_limit_kb config); stack_limit := None;
      open_files_limit := None; file_size_limit := None; process_limit := Some 64%Z |};
    io := {| io_stdin := IoNull; io_stdout := IoFile (u "checker_compile.log");
             io_stderr := IoFile (u "checker_compile_err.log") |};
    collect := outputs ++ [u "checker_compile.log"; u "checker_compile_err.log"];
    depends_on := [];
    cache := Some {| key_inputs := cs_cache_inputs compile; cache_outputs := outputs |};
    mounts := [] |}.

Definition testlib_checker_binary (resolved : ResolveLanguageOutput) : ustring :=
  match lang_compile resolved ≫= λ c, head (cs_outputs c) with
  | Some (OutFile f) => u "./" ++ f
  | _ => u "./checker"
  end.

Definition build_testlib_checker_stage (checker_source : list SourceFile) (test_input answer : JudgeFile)
    (resolved : ResolveLanguageOutput) (config : TestlibConfig) (output_binding : OutputMode)
    : result ustring CheckerStage :=
  match output_binding with
  | Stream channel =>
      Err (u "testlib checker requires a File output binding, got Stream '" ++ channel ++ u "'")
  | File output_file =>
      let files := ((λ s, (src_filename s, SfContent (src_content s))) <$> checker_source)
                   ++ [(u "input.txt", to_session_file test_input); (u "answer.txt", to_session_file answer)] in
      let compiled := bool_decide (is_Some (lang_compile resolved)) in
      Ok {|
        checker_env := {| env_id := CHECKER_ENV_ID; files_in := files |};
        stage_steps :=
          option_list (build_compile_checker_step resolved config CHECKER_ENV_ID) ++ [{|
            step_id := CHECK_STEP_ID; step_kind := CheckerKind; env_ref := CHECKER_ENV_ID;
            argv := [testlib_checker_binary resolved; u "input.txt"; u "output.txt"; u "answer.txt"];
            conf := run_with {|
              time_limit := Some (run_time_limit_s config); wall_time_limit := None; extra_time := None;
              memory_limit := Some (run_memory_limit_kb config); stack_limit := None;
              open_files_limit := None; file_size_limit := None; process_limit := None |};
            io := {| io_stdin := IoNull; io_stdout := IoFile (u "checker_out.txt");
                     io_stderr := IoFile (u "checker_err.txt") |};
            collect := [u "checker_out.txt"; u "checker_err.txt"];
            depends_on := if compiled then [u "compile_checker"] else [];
            cache := None;
            mounts := [{| mount_inside := u "output.txt";
                          mount_source := StepOutput SOLUTION_EXEC_STEP_ID output_file |}] |}];
        output_mode := File output_file;
        result_step_id := CHECK_STEP_ID |}
  end.

(** ** Dispatch of a resolve request *)

(** What [host.config.get_problem] and [get_global] return. *)
Record ConfigResult := { config_value : Value; is_default : bool }.

Section resolve_stage.
(** Calls to the host and [serde_json::from_value] at the two types read here. *)
Context (get_problem : Z → ustring → result ustring ConfigResult)
  (get_global : ustring → result ustring ConfigResult)
  (resolve_language : ResolveLanguageInput → result ustring ResolveLanguageOutput)
  (sources_of_value : Value → result ustring (list SourceFile))
  (testlib_config_of_value : Value → result ustring TestlibConfig)
  (display_f64 : f64 → ustring) (display_value : Value → ustring).

Definition map_err {A} (prefix : ustring) (r : result ustring A) : result ustring A :=
  match r with Ok a => Ok a | Err e => Err (prefix ++ e) end.

Definition load_checker_source (problem_id : option Z) : result ustring (list SourceFile) :=
  problem_id ← ok_or problem_id (u "Testlib checker requires a problem_id to load its source");
  r ← map_err (u "failed to load checker source config: ") (get_problem problem_id (u "checker_source"));
  if is_default r then Err (u "Testlib checker requires checker_source")
  else
    files ← map_err (u "invalid checker_source config: ") (sources_of_value (config_value r));
    match files with [] => Err (u "Testlib checker requires checker_source") | _ => Ok files end.

Definition load_testlib_config : TestlibConfig :=
  match get_global (u "testlib") with
  | Ok r => match testlib_config_of_value (config_value r) with
            | Ok c => c
            | Err _ => default_testlib_config
            end
  | Err _ => default_testlib_config
  end.

Definition resolve_testlib_compile (checker_source : list SourceFile)
    : result ustring (ResolveLanguageOutput * TestlibConfig) :=
  match checker_source with
  | [] => Err (u "checker_source is empty")
  | _ =>
      let filenames := src_filename <$> checker_source in
      parts ← partition_checker_sources filenames;
      let sources := parts.1 in
      lang_id ← checker_language_id (default [] (head sources));
      let config := load_testlib_config in
      let checker_compiler := if decide (lang_id = u "c") then c_lang config else cpp config in
      resolved ← map_err (u "Failed to resolve checker language: ") (resolve_language {|
        rl_language_id := lang_id; rl_submitted_files := sources; rl_additional_files := [];
        rl_problem_id := None; rl_contest_id := None;
        rl_overrides := Some (VObject [(u "compiler", VString (compiler checker_compiler));
                                       (u "flags", VArray (VString <$> flags checker_compiler))]) |});
      Ok (extend_cache_inputs_with_bundle resolved filenames, config)
  end.

Definition resolve_stage (req : ResolveCheckerInput) : result ustring CheckerStage :=
  if decide (is_Some (builtin_compare_mode (rc_format req))) then
    resolve_builtin display_f64 display_value (rc_format req) req
  else if decide (rc_format req = u "testlib") then
    checker_source ← load_checker_source (rc_problem_id req);
    compiled ← resolve_testlib_compile checker_source;
    build_testlib_checker_stage checker_source (rc_test_input req) (rc_answer req) compiled.1 compiled.2
      (rc_output_binding req)
  else if decide (rc_format req = u "none") then
    Err (u "checker format 'none' performs no comparison and must be interpreted inline, not resolved as a checker stage")
  else Err (u "No checker resolver for format '" ++ rc_format req ++ u "' in standard-checkers").
End resolve_stage.

(** ** Interpreting the check step's result *)

Definition system_error (message : ustring) : CheckerVerdict :=
  {| cv_verdict := SystemError; cv_score := f_zero; cv_message := Some message |}.

(** [message_from], and [extract_testlib_message]. *)
Definition message_from (stderr : ustring) : option ustring :=
  match trim stderr with [] => None | m => Some (truncate m 1024) end.

Definition sandbox_failure_verdict (label : ustring) (result : CheckerRunOutcome) : CheckerVerdict :=
  let status := default [] (run_sandbox_status result) in
  let detail := trim (run_stderr result) in
  let message :=
    if decide (status = u "TO") then label ++ u " timed out"
    else if decide (status = u "SG") then label ++ u " was terminated by a signal"
    else if decide (status = u "UNKNOWN") then label ++ u " step did not run; dependency may have failed"
    else match status, detail with
         | _ :: _, [] => label ++ u " failed with sandbox status " ++ status
         | _ :: _, _ => label ++ u " failed with sandbox status " ++ status ++ u ": " ++ detail
         | [], [] => label ++ u " failed without an exit code"
         | [], _ => label ++ u " failed without an exit code: " ++ detail
         end in
  system_error (truncate message 1024).

(** [o.or_else(|| Some(text))]. *)
Definition or_text (o : option ustring) (text : ustring) : option ustring :=
  match o with Some _ => o | None => Some text end.

Definition interpret_builtin (result : CheckerRunOutcome) : CheckerVerdict :=
  match run_exit_code result with
  | Some 0%Z => {| cv_verdict := Accepted; cv_score := f_one; cv_message := message_from (run_stderr result) |}
  | Some 1%Z => {| cv_verdict := WrongAnswer; cv_score := f_zero; cv_message := message_from (run_stderr result) |}
  | Some 2%Z => {| cv_verdict := WrongAnswer; cv_score := f_zero;
                   cv_message := or_text (message_from (run_stderr result)) (u "Presentation error") |}
  | Some other => system_error (u "Comparator exited with unexpected code " ++ show other)
  | None => sandbox_failure_verdict (u "Comparator") result
  end.

Definition unit_score (score : f64) : f64 :=
  if is_finite score then f_clamp f_zero f_one score else f_zero.

(** [rest.splitn(2, whitespace)]: the first piece and what follows it. *)
Fixpoint split_once (s : ustring) : ustring * option ustring :=
  match s with
  | [] => ([], None)
  | c :: s => if is_whitespace c then ([], Some s) else let '(w, r) := split_once s in (c :: w, r)
  end.

Definition parse_points (line : ustring) : option (f64 * option ustring) :=
  rest ← match strip_prefix (u "points ") line with
         | Some rest => Some rest
         | None => strip_prefix (u "points" ++ [9%Z]) line
         end;
  let '(first, more) := split_once rest in
  score ← parse_f64 first;
  Some (unit_score score, (λ m, truncate (trim m) 1024) <$> more).

Definition parse_leading_score (line : ustring) : option (f64 * option ustring) :=
  first_token ← head (split_whitespace line);
  score ← parse_f64 first_token;
  Some (unit_score score,
        match trim (drop (length first_token) line) with [] => None | rest => Some (truncate rest 1024) end).

Definition parse_testlib_partial (stderr : ustring) : f64 * option ustring :=
  let line := trim (first_line stderr) in
  match parse_points line with
  | Some r => r
  | None => match parse_leading_score line with Some r => r | None => (f_zero, message_from stderr) end
  end.

Definition interpret_testlib_exit_code (exit_code : Z) (stderr : ustring) : CheckerVerdict :=
  let rejected v text :=
    {| cv_verdict := v; cv_score := f_zero; cv_message := or_text (message_from stderr) text |} in
  match exit_code with
  | 0%Z => {| cv_verdict := Accepted; cv_score := f_one; cv_message := message_from stderr |}
  | 1%Z => {| cv_verdict := WrongAnswer; cv_score := f_zero; cv_message := message_from stderr |}
  | 2%Z => rejected WrongAnswer (u "Presentation error")
  | 3%Z => rejected SystemError (u "Checker reported judge failure (exit code 3)")
  | 4%Z => rejected WrongAnswer (u "Extra information in the output file")
  | 8%Z => rejected WrongAnswer (u "Unexpected end of the participant output")
  | 7%Z =>
      let '(score, msg) := parse_testlib_partial stderr in
      {| cv_verdict := if f_leb f_one score then Accepted else WrongAnswer;
         cv_score := score; cv_message := msg |}
  | other => system_error (u "Checker exited with unexpected code " ++ show other)
  end.

Definition interpret_testlib (result : CheckerRunOutcome) : CheckerVerdict :=
  match run_exit_code result with
  | Some code => interpret_testlib_exit_code code (run_stderr result)
  | None => sandbox_failure_verdict (u "Checker") result
  end.

Definition interpret_checker (format : ustring) (result : CheckerRunOutcome) : CheckerVerdict :=
  if decide (is_Some (builtin_compare_mode format)) then interpret_builtin result
  else if decide (format = u "testlib") then interpret_testlib result
  else if decide (format = u "none") then
    {| cv_verdict := Accepted; cv_score := f_one; cv_message := None |}
  else system_error (u "No interpreter registered for checker format '" ++ format ++ u "'").
