(* ===== verification/Evaluator.v ===== *)
(** * Evaluator: from a submission to an operation and back to a verdict

    plugins/batch-evaluator/src/batch.rs and lib.rs build the operation a worker
    runs for one case, with the checker's stage spliced into it;
    packages/server-sdk/src/evaluator/interpret.rs turns its result into the
    verdict that the session of [Judging] records. *)

From Stdlib Require Import SpecFloat.
From stdpp Require Import base list gmap.
From S2P Require Import Prelude.
From S2P Require Import Text.
From S2P Require Import Float.
From S2P Require Import Json.
From S2P Require Import Verdict.
From S2P Require Import Judging.
From S2P Require Import Sdk.
From S2P Require Import Checkers.

(** ** The operation of a case (batch.rs) *)

Record SandboxConfig := {
  sb_compile_time_limit_s : f64;
  sb_compile_wall_time_multiplier : f64;
  sb_compile_extra_time_s : f64;
  sb_compile_memory_limit_kb : Z;
  sb_compile_stack_limit_kb : Z;
  sb_compile_process_limit : Z;
  sb_compile_open_files_limit : Z;
  sb_compile_file_size_limit_kb : Z;
  sb_exec_extra_time_s : f64;
  sb_exec_stack_limit_kb : Z;
  sb_exec_process_limit : Z;
  sb_exec_open_files_limit : Z;
  sb_exec_file_size_limit_kb : Z;
  sb_exec_wall_time_multiplier : f64;
  sb_result_timeout_ms : Z;
}.

Definition default_sandbox_config : SandboxConfig := {|
  sb_compile_time_limit_s := f_of_Z 30;
  sb_compile_wall_time_multiplier := f_of_Z 2;
  sb_compile_extra_time_s := f_zero;
  sb_compile_memory_limit_kb := 524288;
  sb_compile_stack_limit_kb := 0;
  sb_compile_process_limit := 32;
  sb_compile_open_files_limit := 256;
  sb_compile_file_size_limit_kb := 524288;
  sb_exec_extra_time_s := f_zero;
  sb_exec_stack_limit_kb := 0;
  sb_exec_process_limit := 1;
  sb_exec_open_files_limit := 64;
  sb_exec_file_size_limit_kb := 65536;
  sb_exec_wall_time_multiplier := f_of_Z 3;
  sb_result_timeout_ms := tb_minimum_timeout_ms (default_for_time_limit_ms 0);
|}.

Definition limit_if_positive (value : Z) : option Z := if (0 <? value)%Z then Some value else None.

Definition positive_time (x : f64) : option f64 := if f_ltb f_zero x then Some x else None.

Definition compile_limits (c : SandboxConfig) : ResourceLimits := {|
  time_limit := Some (sb_compile_time_limit_s c);
  wall_time_limit := Some (f_mul (sb_compile_time_limit_s c) (sb_compile_wall_time_multiplier c));
  extra_time := positive_time (sb_compile_extra_time_s c);
  memory_limit := Some (sb_compile_memory_limit_kb c);
  stack_limit := limit_if_positive (sb_compile_stack_limit_kb c);
  open_files_limit := Some (sb_compile_open_files_limit c);
  file_size_limit := Some (sb_compile_file_size_limit_kb c);
  process_limit := Some (sb_compile_process_limit c);
|}.

Definition exec_limits (c : SandboxConfig) (time_limit_s : f64) (memory_limit_kb : Z) : ResourceLimits := {|
  time_limit := Some time_limit_s;
  wall_time_limit := Some (f_mul time_limit_s (sb_exec_wall_time_multiplier c));
  extra_time := positive_time (sb_exec_extra_time_s c);
  memory_limit := Some memory_limit_kb;
  stack_limit := limit_if_positive (sb_exec_stack_limit_kb c);
  open_files_limit := Some (sb_exec_open_files_limit c);
  file_size_limit := Some (sb_exec_file_size_limit_kb c);
  process_limit := Some (sb_exec_process_limit c);
|}.

Definition result_timeout_ms_for (c : SandboxConfig) (time_limit_ms compile_units : Z) : Z :=
  let d := default_for_time_limit_ms time_limit_ms in
  timeout_ms {|
    tb_compile_units := compile_units;
    tb_compile_time_limit_s := sb_compile_time_limit_s c;
    tb_compile_wall_time_multiplier := sb_compile_wall_time_multiplier c;
    tb_compile_extra_time_s := sb_compile_extra_time_s c;
    tb_exec_time_limit_s := seconds_from_ms time_limit_ms;
    tb_exec_wall_time_multiplier := sb_exec_wall_time_multiplier c;
    tb_exec_extra_time_s := sb_exec_extra_time_s c;
    tb_manager_time_limit_s := tb_manager_time_limit_s d;
    tb_manager_wall_time_multiplier := tb_manager_wall_time_multiplier d;
    tb_manager_extra_time_s := tb_manager_extra_time_s d;
    tb_checker_slack_s := tb_checker_slack_s d;
    tb_queue_slack_s := tb_queue_slack_s d;
    tb_minimum_timeout_ms := Z.max (sb_result_timeout_ms c) (tb_minimum_timeout_ms d);
    tb_maximum_timeout_ms := Z.max (sb_result_timeout_ms c) (tb_maximum_timeout_ms d);
  |}.

Record BuildEvalOpsInput := {
  be_problem_id : Z;
  be_test_case_id : Z;
  be_solution_source : list SourceFile;
  be_solution_language : ustring;
  be_time_limit_ms : Z;
  be_memory_limit_kb : Z;
  be_contest_id : option Z;
  be_evaluate_batch_id : option ustring;
  be_test_input : JudgeFile;
  be_expected_output : JudgeFile;
  be_checker_format : option ustring;
  be_checker_config : option Value;
  be_additional_file_refs : list FileRef;
  be_target_worker_id : option ustring;
}.

(** Files in order, the first of a name wins. *)
Definition add_file (acc : list (ustring * SessionFile)) (f : ustring * SessionFile)
    : list (ustring * SessionFile) :=
  if decide (f.1 ∈ acc.*1) then acc else acc ++ [f].

Definition solution_files (req : BuildEvalOpsInput) : list (ustring * SessionFile) :=
  foldl add_file []
    (((λ r, (fr_filename r, SfBlob (fr_blob_hash r))) <$> be_additional_file_refs req)
     ++ ((λ s, (src_filename s, SfContent (src_content s))) <$> be_solution_source req))
  ++ [(u "input.txt", to_session_file (be_test_input req))].

(** [u32::try_from]. *)
Definition to_u32 (z : Z) : option Z := if decide (0 ≤ z ≤ u32_max)%Z then Some z else None.

Definition compile_step (compile : CompileSpec) (config : SandboxConfig) : Step :=
  let outputs := output_name <$> cs_outputs compile in {|
  step_id := u "compile"; step_kind := CompileKind; env_ref := u "sandbox";
  argv := cs_command compile;
  conf := run_with (default (compile_limits config) (cs_resource_limits compile));
  io := {| io_stdin := IoNull; io_stdout := IoNull; io_stderr := IoFile (u "compile_stderr.txt") |};
  collect := outputs ++ [u "compile_stderr.txt"];
  depends_on := [];
  cache := Some {| key_inputs := cs_cache_inputs compile; cache_outputs := outputs |};
  mounts := [];
|}.

(** The exec limits with the process limit raised to the runtime's floor. *)
Definition with_process_floor (floor : option Z) (l : ResourceLimits) : ResourceLimits :=
  match floor with
  | None => l
  | Some floor => {|
      time_limit := time_limit l; wall_time_limit := wall_time_limit l; extra_time := extra_time l;
      memory_limit := memory_limit l; stack_limit := stack_limit l;
      open_files_limit := open_files_limit l; file_size_limit := file_size_limit l;
      process_limit := Some (Z.max (default 0%Z (process_limit l)) floor) |}
  end.

Definition exec_step (lang : ResolveLanguageOutput) (limits : ResourceLimits) : Step := {|
  step_id := u "exec"; step_kind := Testcase; env_ref := u "sandbox";
  argv := rs_command (lang_run lang);
  conf := run_with (with_process_floor (min_process_limit (lang_run lang)) limits);
  io := {| io_stdin := IoFile (u "input.txt"); io_stdout := IoFile (u "output.txt");
           io_stderr := IoFile (u "stderr.txt") |};
  collect := [u "output.txt"; u "stderr.txt"];
  depends_on := match lang_compile lang with Some _ => [u "compile"] | None => [] end;
  cache := None;
  mounts := [];
|}.

(** Dependencies added in order, none twice. *)
Definition add_deps (deps more : list ustring) : list ustring :=
  foldl (λ acc d, if decide (d ∈ acc) then acc else acc ++ [d]) deps more.

Definition splice_exec (mode : OutputMode) (exec : Step) : Step :=
  let out := match mode with Stream channel => IoPipe channel | File name => IoFile name end in
  with_wiring exec
    {| io_stdin := io_stdin (io exec); io_stdout := out; io_stderr := io_stderr (io exec) |}
    (filter (λ f, f ≠ u "output.txt") (collect exec)) (depends_on exec).

Definition splice_step (stage : CheckerStage) (exec_depends : list ustring) (step : Step) : Step :=
  if decide (step_id step = result_step_id stage) then
    with_wiring step (io step) (collect step)
      (add_deps (depends_on step)
         (match output_mode stage with Stream _ => exec_depends | File _ => [u "exec"] end))
  else step.

(** [splice_checker_stage], on the steps before exec, exec, and the single
    environment the caller has built. *)
Definition splice_checker_stage (before : list Step) (exec : Step) (envs : list Environment)
    (chans : list Channel) (stage : CheckerStage) : list Step * list Environment * list Channel :=
  (before ++ splice_exec (output_mode stage) exec
     :: (splice_step stage (depends_on exec) <$> stage_steps stage),
   envs ++ [checker_env stage],
   match output_mode stage with Stream channel => chans ++ [channel_named channel] | File _ => chans end).

Definition build_operation (req : BuildEvalOpsInput) (lang : ResolveLanguageOutput)
    (config : SandboxConfig) (checker_stage : option CheckerStage) : result ustring (list OperationTask) :=
  match be_solution_source req with
  | [] => Err (u "No source file provided")
  | _ =>
      let env := {| env_id := u "sandbox"; files_in := solution_files req |} in
      time_limit_ms ← ok_or (to_u32 (be_time_limit_ms req))
        (u "Invalid time_limit_ms: " ++ show (be_time_limit_ms req));
      memory_limit_kb ← ok_or (to_u32 (be_memory_limit_kb req))
        (u "Invalid memory_limit_kb: " ++ show (be_memory_limit_kb req));
      let time_limit_s := f_div (f_of_Z time_limit_ms) (f_of_Z 1000) in
      let before := option_list ((λ c, compile_step c config) <$> lang_compile lang) in
      let exec := exec_step lang (exec_limits config time_limit_s memory_limit_kb) in
      let '(steps, envs, chans) :=
        match checker_stage with
        | Some stage => splice_checker_stage before exec [env] [] stage
        | None => (before ++ [exec], [env], [])
        end in
      Ok [{| environments := envs; tasks := steps; channels := chans; priority := None;
             target_worker_id := be_target_worker_id req; evaluate_batch_id := None;
             op_test_case_id := None |}]
  end.

(** [(x).ceil().max(0.0) as u64] of a wall time in milliseconds. *)
Definition wall_ms (wall_s : f64) : Z :=
  match f_mul wall_s (f_of_Z 1000) with
  | S754_infinity false => u64_max
  | x => Z.min u64_max (Z.max 0 (f_ceil x))
  end.

Definition checker_stage_timeout_ms (stage : CheckerStage) : Z :=
  foldr Z.add 0%Z
    ((λ s, let limits := resource_limits (conf s) in
           wall_ms (default f_zero
             (match wall_time_limit limits with
              | Some w => Some w
              | None => (λ t, f_mul t (f_of_Z 3)) <$> time_limit limits
              end))) <$> stage_steps stage).

(** ** Preparing a case (lib.rs) *)

Definition checker_format_of (req : BuildEvalOpsInput) : ustring := default (u "exact") (be_checker_format req).

Definition checker_output_binding (format : ustring) : OutputMode :=
  if decide (format = u "testlib") then File (u "output.txt") else Stream (u "sol_out").

Record PreparedEvaluateCase := { pe_operations : list OperationTask; pe_result_timeout_ms : Z }.

(** [host.language.resolve] and [host.checker.resolve] are calls to other plugins. *)
Definition prepare_case
    (resolve_language : ResolveLanguageInput → result ustring ResolveLanguageOutput)
    (resolve_checker : ResolveCheckerInput → result ustring CheckerStage)
    (sandbox_config : SandboxConfig) (req : BuildEvalOpsInput) : result ustring PreparedEvaluateCase :=
  let additional_filenames := fr_filename <$> be_additional_file_refs req in
  let submitted_files :=
    src_filename <$> filter (λ f, src_filename f ∉ additional_filenames) (be_solution_source req) in
  resolved ← resolve_language {|
    rl_language_id := be_solution_language req; rl_submitted_files := submitted_files;
    rl_additional_files := be_additional_file_refs req; rl_problem_id := Some (be_problem_id req);
    rl_contest_id := be_contest_id req; rl_overrides := None |};
  let checker_format := checker_format_of req in
  checker_stage ←
    (if decide (checker_format = u "none") then Ok None
     else match resolve_checker {|
            rc_format := checker_format; rc_answer := be_expected_output req;
            rc_test_input := be_test_input req; rc_problem_id := Some (be_problem_id req);
            rc_config := be_checker_config req;
            rc_output_binding := checker_output_binding checker_format |} with
          | Ok stage => Ok (Some stage)
          | Err e => Err (u "checker resolve failed: " ++ e)
          end);
  operations ← build_operation req resolved sandbox_config checker_stage;
  Ok {| pe_operations := operations;
        pe_result_timeout_ms :=
          result_timeout_ms_for sandbox_config (be_time_limit_ms req)
            (if lang_compile resolved then 1 else 0)
          + default 0%Z (checker_stage_timeout_ms <$> checker_stage) |}.

(** ** The verdict of a result (interpret.rs) *)

Definition opt_nonempty (s : ustring) : option ustring := match s with [] => None | _ => Some s end.

Definition infra_fault_markers : list ustring :=
  [u "unable to create native thread"; u "failed to start thread"; u "failed to start the native thread";
   u "pthread_create failed"; u "error occurred during initialization of vm"; u "cannot create gc thread";
   u "insufficient memory for the java runtime environment"; u "cannot allocate memory";
   u "resource temporarily unavailable"; u "cannot fork"; u "out of system resources"].

Definition compile_output_is_infra_fault (output : ustring) : bool :=
  existsb (λ marker, contains marker (to_ascii_lowercase output)) infra_fault_markers.

Definition truncate_stderr (stderr fallback : ustring) : option ustring :=
  match stderr with [] => Some fallback | _ => Some (truncate stderr 4096) end.

Definition exec_task (r : OperationResult) : option TaskExecutionResult := task_results r !! u "exec".

Definition extract_time_used (r : OperationResult) : option Z :=
  exec ← exec_task r;
  let t := time_used (sandbox_result exec) in
  if f_ltb f_zero t && is_finite t && f_ltb t (f_div (f_of_Z i64_max) (f_of_Z 1000))
  then Some (f_to_i64 (f_mul t (f_of_Z 1000))) else None.

Definition extract_memory_used (r : OperationResult) : option Z :=
  exec ← exec_task r; memory_used (sandbox_result exec).

(** A verdict without a score. *)
Definition failed_verdict (test_case_id : Z) (v : Verdict) (time memory : option Z)
    (message out err : option ustring) : TestCaseVerdict := {|
  tv_test_case_id := test_case_id; tv_verdict := v; tv_score := f_zero; tv_time_used_ms := time;
  tv_memory_used_kb := memory; tv_message := message; tv_stdout := out; tv_stderr := err;
|}.

(** The verdict of a failed compile step. *)
Definition precheck_compile (test_case_id : Z) (compile : TaskExecutionResult) : option TestCaseVerdict :=
  let s := sandbox_result compile in
  let bare v message := Some (failed_verdict test_case_id v None None message None None) in
  if decide (status_kind s = InternalError) then
    bare SystemError (or_text (opt_nonempty (message s)) (u "Compilation sandbox reported an internal error"))
  else
    match exit_code s with
    | Some code =>
        if decide (code ≠ 0%Z) then
          match (match opt_nonempty (stderr s) with Some d => Some d | None => opt_nonempty (stdout s) end) with
          | None =>
              bare SystemError (Some (u "Compilation exited with status " ++ show code ++
                u " but produced no diagnostics (transient infrastructure fault)"))
          | Some diagnostics =>
              if compile_output_is_infra_fault diagnostics then
                bare SystemError (truncate_stderr diagnostics
                  (u "Compilation could not run (transient infrastructure fault)"))
              else bare CompileError (truncate_stderr diagnostics (u "Compilation failed"))
          end
        else None
    | None =>
        if task_success compile then None
        else bare SystemError (truncate_stderr (stderr s) (u "Compilation step failed (sandbox error)"))
    end.

(** The verdict of an exec step that did not end cleanly. *)
Definition precheck_exec (test_case_id : Z) (r : OperationResult) (exec : TaskExecutionResult)
    : option TestCaseVerdict :=
  let s := sandbox_result exec in
  let ran v message :=
    Some (failed_verdict test_case_id v (extract_time_used r) (extract_memory_used r) message
            (opt_nonempty (stdout s)) (opt_nonempty (stderr s))) in
  if negb (task_success exec) && bool_decide (status s = []) then
    Some (failed_verdict test_case_id SystemError None None (Some (u "Execution step was skipped")) None None)
  else if cg_oom_killed s then
    ran MemoryLimitExceeded
      (Some (u "Memory limit exceeded (" ++ show (default 0%Z (memory_used s)) ++ u "KB)"))
  else
    match status_kind s with
    | TimedOut =>
        ran TimeLimitExceeded
          (Some (u "Time limit exceeded (" ++
                 match extract_time_used r with Some t => show t | None => u "?" end ++ u "ms)"))
    | Signaled => ran RuntimeError (Some (message s))
    | NonZeroExit => ran RuntimeError (Some (u "Exit code: " ++ show (default (-1)%Z (exit_code s))))
    | InternalError =>
        ran SystemError (or_text (opt_nonempty (message s)) (u "Execution sandbox reported an internal error"))
    | StOk | StUnknown => None
    end.

Definition precheck_verdict (test_case_id : Z) (r : OperationResult) : option TestCaseVerdict :=
  let bare v message := Some (failed_verdict test_case_id v None None message None None) in
  if is_cancelled_by_host r then bare Cancelled (op_error r)
  else if negb (op_success r) && bool_decide (task_results r = ∅) then
    bare SystemError (or_text (op_error r)
      (u "Operation produced no step results (system fault; no error detail reported)"))
  else
    match task_results r !! u "compile" ≫= precheck_compile test_case_id with
    | Some v => Some v
    | None =>
        match exec_task r with
        | Some exec => precheck_exec test_case_id r exec
        | None => bare SystemError (Some (u "No exec result found"))
        end
    end.

(** A check step that has a result: it succeeded, or its sandbox said why not. *)
Definition check_task (r : OperationResult) (check_step_id : ustring) : option TaskExecutionResult :=
  c ← task_results r !! check_step_id;
  if task_success c || negb (bool_decide (status (sandbox_result c) = [])) then Some c else None.

(** [checker] is [host.checker.interpret], a call to the checker's plugin. *)
Definition interpret_fused_result
    (checker : ustring → CheckerRunOutcome → result SdkError CheckerVerdict)
    (test_case_id : Z) (r : OperationResult) (checker_format check_step_id : ustring) : TestCaseVerdict :=
  match precheck_verdict test_case_id r with
  | Some verdict => verdict
  | None =>
      let time_used_ms := extract_time_used r in
      let memory_used_kb := extract_memory_used r in
      (* [precheck_verdict] leaves only results with an exec step. *)
      let exec := from_option sandbox_result default_execution (exec_task r) in
      let exec_stdout := opt_nonempty (stdout exec) in
      let exec_stderr := opt_nonempty (stderr exec) in
      let fault message out :=
        failed_verdict test_case_id SystemError time_used_ms memory_used_kb (Some message) out exec_stderr in
      if decide (checker_format = u "none") then
        {| tv_test_case_id := test_case_id; tv_verdict := Accepted; tv_score := f_one;
           tv_time_used_ms := time_used_ms; tv_memory_used_kb := memory_used_kb; tv_message := None;
           tv_stdout := exec_stdout; tv_stderr := exec_stderr |}
      else
        match check_task r check_step_id with
        | None =>
            fault (u "checker step '" ++ check_step_id ++ u "' produced no result (infrastructure failure)")
                  exec_stdout
        | Some check =>
            let sandbox := sandbox_result check in
            if decide (status_kind sandbox = InternalError) then
              fault (u "checker step hit a sandbox internal error (infrastructure failure)") exec_stdout
            else
              let display_stdout :=
                match exec_stdout with Some _ => exec_stdout | None => opt_nonempty (stdout sandbox) end in
              let outcome := {| run_exit_code := exit_code sandbox; run_stderr := stderr sandbox;
                                run_sandbox_status := Some (status sandbox) |} in
              match checker checker_format outcome with
              | Ok v =>
                  {| tv_test_case_id := test_case_id; tv_verdict := cv_verdict v; tv_score := cv_score v;
                     tv_time_used_ms := time_used_ms; tv_memory_used_kb := memory_used_kb;
                     tv_message := cv_message v; tv_stdout := display_stdout; tv_stderr := exec_stderr |}
              | Err e => fault (u "Checker interpret failed: " ++ debug_error e) display_stdout
              end
        end
  end.

Definition interpret_case_result (checker : ustring → CheckerRunOutcome → result SdkError CheckerVerdict)
    (req : BuildEvalOpsInput) (r : OperationResult) : TestCaseVerdict :=
  interpret_fused_result checker (be_test_case_id req) r (checker_format_of req) CHECK_STEP_ID.

(** [on_operation_results]: one verdict per case. *)
Definition on_operation_results (checker : ustring → CheckerRunOutcome → result SdkError CheckerVerdict)
    (results : list (BuildEvalOpsInput * list OperationResult)) : list TestCaseVerdict :=
  (λ item, match item.2 with
           | r :: _ => interpret_case_result checker item.1 r
           | [] => failed_verdict (be_test_case_id item.1) SystemError None None
                     (Some (u "Operation produced no result")) None None
           end) <$> results.
