(* ===== verification/EvaluatorProofs.v ===== *)
(** The judge's chain for one case is right: the comparator is called as the
    problem says, the operation's steps are wired soundly, and a verdict against
    or for the contestant only comes from a clean run. *)

From Stdlib Require Import SpecFloat.
From stdpp Require Import base list gmap.
From S2P Require Import Prelude.
From S2P Require Import Text.
From S2P Require Import Float.
From S2P Require Import Json.
From S2P Require Import Compare.
From S2P Require Import CompareProofs.
From S2P Require Import CompareCli.
From S2P Require Import Verdict.
From S2P Require Import Sdk.
From S2P Require Import Judging.
From S2P Require Import Checkers.
From S2P Require Import Evaluator.

(** ** A clean run *)

(** The compile step, when there is one, succeeded. *)
Definition compiled_cleanly (r : OperationResult) : Prop :=
  ∀ t, task_results r !! u "compile" = Some t →
    status_kind (sandbox_result t) ≠ InternalError ∧
    match exit_code (sandbox_result t) with Some code => code = 0%Z | None => task_success t = true end.

(** The solution ran to its end within its limits. *)
Definition ran_cleanly (t : TaskExecutionResult) : Prop :=
  (task_success t = true ∨ status (sandbox_result t) ≠ []) ∧
  cg_oom_killed (sandbox_result t) = false ∧
  status_kind (sandbox_result t) ∈ [StOk; StUnknown].

Definition clean_run (r : OperationResult) : Prop :=
  compiled_cleanly r ∧ ∃ t, exec_task r = Some t ∧ ran_cleanly t.

Lemma precheck_compile_None id t :
  precheck_compile id t = None ↔
    status_kind (sandbox_result t) ≠ InternalError ∧
    match exit_code (sandbox_result t) with Some code => code = 0%Z | None => task_success t = true end.
Proof.
  unfold precheck_compile. cbv zeta. case_decide as Hk; [naive_solver|].
  destruct (exit_code _) as [code|]; [|destruct (task_success t); naive_solver].
  case_decide; [|naive_solver]. split; [|naive_solver].
  destruct (match opt_nonempty _ with Some _ => _ | None => _ end) as [d|]; [|done].
  by destruct (compile_output_is_infra_fault d).
Qed.

Lemma precheck_exec_None id r t : precheck_exec id r t = None ↔ ran_cleanly t.
Proof.
  unfold precheck_exec, ran_cleanly. cbv zeta.
  destruct (task_success t), (decide (status (sandbox_result t) = [])) as [E|E];
    rewrite ?(bool_decide_eq_true_2 _ E), ?(bool_decide_eq_false_2 _ E); simpl;
    destruct (cg_oom_killed _), (status_kind _); set_solver.
Qed.

Lemma precheck_verdict_None id r : precheck_verdict id r = None ↔ clean_run r.
Proof.
  unfold precheck_verdict, clean_run, compiled_cleanly. cbv zeta. split.
  - destruct (is_cancelled_by_host r); [done|]. destruct (_ && _); [done|].
    destruct (task_results r !! u "compile") as [c|] eqn:Ec; simpl.
    + destruct (precheck_compile id c) eqn:Ep; [done|]. apply precheck_compile_None in Ep.
      destruct (exec_task r) as [t|]; [|done]. intros Hx%precheck_exec_None. naive_solver.
    + destruct (exec_task r) as [t|]; [|done]. intros Hx%precheck_exec_None. naive_solver.
  - intros (Hc & t & Ht & Hrun).
    assert (task_results r ≠ ∅) as Hne.
    { intros Hemp. unfold exec_task in Ht. by rewrite Hemp, lookup_empty in Ht. }
    unfold is_cancelled_by_host. rewrite (bool_decide_eq_false_2 _ Hne), !andb_false_r. simpl.
    rewrite Ht. rewrite (proj2 (precheck_exec_None id r t) Hrun).
    destruct (task_results r !! u "compile") as [c|]; simpl; [|done].
    by rewrite (proj2 (precheck_compile_None id c) (Hc c eq_refl)).
Qed.

(** Before the checker there is no verdict of the output. *)
Definition no_output_verdict (v : TestCaseVerdict) : Prop :=
  tv_verdict v ≠ Accepted ∧ tv_verdict v ≠ WrongAnswer.

Lemma precheck_compile_rejects id t v : precheck_compile id t = Some v → no_output_verdict v.
Proof.
  unfold precheck_compile, no_output_verdict. cbv zeta. intros Hv.
  repeat (case_match; simplify_eq/=; try done).
Qed.

Lemma precheck_exec_rejects id r t v : precheck_exec id r t = Some v → no_output_verdict v.
Proof.
  unfold precheck_exec, no_output_verdict. cbv zeta. intros Hv.
  destruct (_ && _); [by simplify_eq/=|]. destruct (cg_oom_killed _); [by simplify_eq/=|].
  destruct (status_kind _); by simplify_eq/=.
Qed.

Lemma precheck_verdict_rejects id r v : precheck_verdict id r = Some v → no_output_verdict v.
Proof.
  unfold precheck_verdict. cbv zeta.
  destruct (is_cancelled_by_host r); [by intros [= <-]|]. destruct (_ && _); [by intros [= <-]|].
  destruct (_ ≫= _) as [w|] eqn:Ec.
  - intros [= <-]. apply bind_Some in Ec as (t & _ & Ec). by apply precheck_compile_rejects in Ec.
  - destruct (exec_task r) as [t|]; [apply precheck_exec_rejects|by intros [= <-]].
Qed.

(** ** The verdict *)

(** The check step has a result its sandbox vouches for. *)
Definition checked (r : OperationResult) (check_step_id : ustring) (s : ExecutionResult) : Prop :=
  ∃ c, check_task r check_step_id = Some c ∧ sandbox_result c = s ∧ status_kind s ≠ InternalError.

Definition outcome_of (s : ExecutionResult) : CheckerRunOutcome :=
  {| run_exit_code := exit_code s; run_stderr := stderr s; run_sandbox_status := Some (status s) |}.

Lemma interpret_clean checker id r format step s v :
  clean_run r → format ≠ u "none" → checked r step s → checker format (outcome_of s) = Ok v →
  tv_verdict (interpret_fused_result checker id r format step) = cv_verdict v ∧
  tv_score (interpret_fused_result checker id r format step) = cv_score v.
Proof.
  intros Hc Hf (c & Hct & <- & Hk) Hv. unfold interpret_fused_result.
  rewrite (proj2 (precheck_verdict_None id r) Hc), decide_False by done.
  rewrite Hct. rewrite decide_False by done. unfold outcome_of in Hv. by rewrite Hv.
Qed.

(** A case is accepted exactly when nothing went wrong before the checker
    and the checker said so: not cancelled, the compile step succeeded, the
    solution ended by itself within its limits, and either the format compares
    nothing or the check step has a trustworthy result that the checker's
    interpreter accepts. *)
Theorem accepted_iff_clean_and_checked checker id r format step :
  tv_verdict (interpret_fused_result checker id r format step) = Accepted ↔
    clean_run r ∧
    (format = u "none" ∨
     ∃ s v, checked r step s ∧ checker format (outcome_of s) = Ok v ∧ cv_verdict v = Accepted).
Proof.
  unfold interpret_fused_result. destruct (precheck_verdict id r) as [v|] eqn:Ep.
  - split; [by apply precheck_verdict_rejects in Ep as [? _]|].
    intros [Hc%(precheck_verdict_None id) _]. congruence.
  - apply precheck_verdict_None in Ep. cbv zeta. case_decide as Hf; [naive_solver|].
    unfold checked. destruct (check_task r step) as [c|] eqn:Ect; [|simpl; naive_solver].
    case_decide as Hk; [simpl; naive_solver|].
    destruct (checker format _) as [v|e] eqn:Ev; simpl.
    + split.
      * intros Ha. split; [done|]. right. exists (sandbox_result c), v. split_and!; [by exists c|exact Ev|done].
      * intros (_ & [?|(s & w & (c0 & [= <-] & <- & _) & Hw & Ha)]); [done|].
        unfold outcome_of in Hw. rewrite Ev in Hw. by injection Hw as <-.
    + split; [done|]. intros (_ & [?|(s & w & (c0 & [= <-] & <- & _) & Hw & Ha)]); [done|].
      unfold outcome_of in Hw. congruence.
Qed.

(** *** Faults of the machinery *)

(** What a toolchain says when the machine failed it, not the program: a JVM that
    cannot start its threads, no memory, no process. *)
Definition MACHINE_FAULTS : list ustring :=
  [u "unable to create native thread"; u "failed to start thread"; u "failed to start the native thread";
   u "pthread_create failed"; u "error occurred during initialization of vm"; u "cannot create gc thread";
   u "insufficient memory for the java runtime environment"; u "cannot allocate memory";
   u "resource temporarily unavailable"; u "cannot fork"; u "out of system resources"].

Definition blames_machine (output : ustring) : Prop :=
  ∃ m pre post, m ∈ MACHINE_FAULTS ∧ to_ascii_lowercase output = pre ++ m ++ post.

(** The compiler's messages: on stderr, else on stdout. *)
Definition diagnostics_of (s : ExecutionResult) : ustring :=
  match stderr s with [] => stdout s | d => d end.

(** The compile step failed, but not for the program's sake. *)
Definition compile_fault (t : TaskExecutionResult) : Prop :=
  let s := sandbox_result t in
  status_kind s = InternalError
  ∨ match exit_code s with
    | Some code => code ≠ 0%Z ∧ (diagnostics_of s = [] ∨ blames_machine (diagnostics_of s))
    | None => task_success t = false
    end.

(** The solution was not run, or its sandbox failed. *)
Definition exec_fault (t : TaskExecutionResult) : Prop :=
  task_success t = false ∧ status (sandbox_result t) = []
  ∨ cg_oom_killed (sandbox_result t) = false ∧ status_kind (sandbox_result t) = InternalError.

Inductive machine_fault (checker : ustring → CheckerRunOutcome → result SdkError CheckerVerdict)
    (r : OperationResult) (format step : ustring) : Prop :=
  | fault_compile t :
      task_results r !! u "compile" = Some t → compile_fault t → machine_fault checker r format step
  | fault_no_exec :
      compiled_cleanly r → exec_task r = None → machine_fault checker r format step
  | fault_exec t :
      compiled_cleanly r → exec_task r = Some t → exec_fault t → machine_fault checker r format step
  | fault_check :
      clean_run r → format ≠ u "none" →
      (∀ s, checked r step s → ∃ e, checker format (outcome_of s) = Err e) →
      machine_fault checker r format step.

Lemma starts_with_spec p s : starts_with p s = true ↔ ∃ post, s = p ++ post.
Proof.
  unfold starts_with. rewrite bool_decide_eq_true. split.
  - intros E. exists (drop (length p) s). by rewrite <-E at 1; rewrite take_drop.
  - intros [post ->]. by rewrite take_app_length.
Qed.

Lemma contains_spec p s : contains p s = true ↔ ∃ pre post, s = pre ++ p ++ post.
Proof.
  induction s as [|c s IH]; simpl; rewrite orb_true_iff, starts_with_spec.
  - split; [|intros (pre & post & E); left; destruct pre; [by exists post|done]].
    intros [[post E]|]; [by exists [], post|done].
  - rewrite IH. split.
    + intros [[post E]|(pre & post & ->)]; [by exists [], post|by exists (c :: pre), post].
    + intros ([|c' pre] & post & E); [left; by exists post|right]. simplify_eq/=. eauto.
Qed.

Lemma infra_fault_spec output : compile_output_is_infra_fault output = true ↔ blames_machine output.
Proof.
  unfold compile_output_is_infra_fault, blames_machine. rewrite existsb_exists.
  change infra_fault_markers with MACHINE_FAULTS. split.
  - intros (m & Hm%list_elem_of_In & (pre & post & E)%contains_spec). eauto.
  - intros (m & pre & post & Hm & E). exists m. rewrite <-list_elem_of_In, contains_spec. eauto.
Qed.

Lemma precheck_compile_fault id t :
  tv_verdict <$> precheck_compile id t = Some SystemError ↔ compile_fault t.
Proof.
  unfold precheck_compile, compile_fault, diagnostics_of. cbv zeta. case_decide as Hk; [by split; [left|]|].
  destruct (exit_code _) as [code|]; [|destruct (task_success t); naive_solver].
  case_decide as Hc; [|naive_solver]. rewrite <-infra_fault_spec.
  destruct (stderr _) as [|c d]; simpl; [destruct (stdout _) as [|c d]; simpl; [naive_solver|]|];
    (destruct (compile_output_is_infra_fault _); simpl; naive_solver).
Qed.

Lemma precheck_exec_fault id r t :
  tv_verdict <$> precheck_exec id r t = Some SystemError ↔ exec_fault t.
Proof.
  unfold precheck_exec, exec_fault. cbv zeta.
  destruct (task_success t), (decide (status (sandbox_result t) = [])) as [E|E];
    rewrite ?(bool_decide_eq_true_2 _ E), ?(bool_decide_eq_false_2 _ E); simpl;
    destruct (cg_oom_killed _), (status_kind _); simpl; naive_solver.
Qed.

(** Before the checker: compile, then exec. *)
Lemma precheck_verdict_fault checker id r format step v :
  is_cancelled_by_host r = false → precheck_verdict id r = Some v →
  tv_verdict v = SystemError ↔ machine_fault checker r format step.
Proof.
  intros Hcancel Hv. pose proof Hv as Hdirty.
  assert (¬ clean_run r) as Hnot by (by intros ?%(precheck_verdict_None id); congruence).
  unfold precheck_verdict in Hv. rewrite Hcancel in Hv. cbv zeta in Hv.
  assert (compiled_cleanly r ↔ task_results r !! u "compile" ≫= precheck_compile id = None) as Hcc.
  { unfold compiled_cleanly. destruct (task_results r !! u "compile") as [t|]; simpl; [|naive_solver].
    rewrite precheck_compile_None. naive_solver. }
  destruct (negb (op_success r) && _) eqn:Eempty.
  { injection Hv as <-. split; [|done]. intros _. apply andb_true_iff in Eempty as [_ He%bool_decide_eq_true].
    apply fault_no_exec; unfold compiled_cleanly, exec_task; rewrite He, lookup_empty; done. }
  destruct (task_results r !! u "compile" ≫= precheck_compile id) as [w|] eqn:Ec.
  - injection Hv as ->. apply bind_Some in Ec as (t & Ht & Ec). split.
    + intros Hs. apply (fault_compile _ _ _ _ t Ht), (precheck_compile_fault id). by rewrite Ec; cbn; rewrite Hs.
    + intros [t' Ht' Hf|Hok _|? Hok|? _ _]; [|by apply Hcc in Hok..|done].
      simplify_eq. apply (precheck_compile_fault id) in Hf. rewrite Ec in Hf. by injection Hf.
  - clear Ec. pose proof (proj2 Hcc eq_refl) as Ec. destruct (exec_task r) as [t|] eqn:Et.
    + split.
      * intros Hs. apply (fault_exec _ _ _ _ t Ec Et), (precheck_exec_fault id r). by rewrite Hv; cbn; rewrite Hs.
      * intros [t' Ht' Hf|_ ?|t' _ Et' Hf|? _ _]; [|congruence| |done].
        -- apply (precheck_compile_fault id) in Hf. destruct (Ec t' Ht') as [H1 H2].
           by rewrite (proj2 (precheck_compile_None id t') (conj H1 H2)) in Hf.
        -- simplify_eq. apply (precheck_exec_fault id r) in Hf. rewrite Hv in Hf. by injection Hf.
    + injection Hv as <-. split; [|done]. intros _. by apply fault_no_exec.
Qed.

(** C39. Faults of the machinery never blame the contestant, and nothing else is
    called one.  Unless the host cancelled it, a case ends as a system error (which
    the server judges again) exactly when the compile sandbox failed, the compiler
    died without a diagnostic or with one that blames the machine, the solution was
    not run, its sandbox failed (not by running out of memory), the check step left
    no result that can be trusted or the checker's interpreter failed - or the
    checker itself says so. *)
Theorem faults_are_system_errors checker id r format step :
  is_cancelled_by_host r = false →
  tv_verdict (interpret_fused_result checker id r format step) = SystemError
  ↔ machine_fault checker r format step
    ∨ clean_run r ∧ format ≠ u "none" ∧
      ∃ s v, checked r step s ∧ checker format (outcome_of s) = Ok v ∧ cv_verdict v = SystemError.
Proof.
  intros Hcancel. unfold interpret_fused_result. destruct (precheck_verdict id r) as [v|] eqn:Ep.
  - rewrite (precheck_verdict_fault checker id r format step v Hcancel Ep).
    assert (¬ clean_run r) by (by intros ?%(precheck_verdict_None id); congruence). naive_solver.
  - apply precheck_verdict_None in Ep. pose proof Ep as [Hcc (t & Et & Hran)].
    assert (machine_fault checker r format step ↔ format ≠ u "none" ∧
      ∀ s, checked r step s → ∃ e, checker format (outcome_of s) = Err e) as ->.
    { split; [|by intros [? ?]; apply fault_check].
      intros [t' Ht' Hf|_ ?|t' _ Et' Hf|_ ? ?]; [|congruence| |done].
      - apply (precheck_compile_fault id) in Hf. destruct (Hcc t' Ht') as [H1 H2].
        by rewrite (proj2 (precheck_compile_None id t') (conj H1 H2)) in Hf.
      - simplify_eq. apply (precheck_exec_fault id r) in Hf.
        by rewrite (proj2 (precheck_exec_None id r t) Hran) in Hf. }
    cbv zeta. case_decide as Hf; [simpl; naive_solver|]. unfold checked.
    destruct (check_task r step) as [c|] eqn:Ect; [|simpl; naive_solver].
    case_decide as Hk; [simpl; naive_solver|]. unfold outcome_of.
    destruct (checker format _) as [w|e] eqn:Ev; simpl.
    + split.
      * intros Hw. right. split_and!; [done..|]. exists (sandbox_result c), w. split_and!; [by exists c|done..].
      * intros [[_ Hall]|(_ & _ & s & w' & (c0 & [= <-] & <- & _) & Hw' & Hs)]; [|congruence].
        destruct (Hall (sandbox_result c)) as [e He]; [by exists c|congruence].
    + split; [|done]. intros _. left. split; [done|]. intros s (c0 & [= <-] & <- & _). eauto.
Qed.

(** ** The comparator is called as the problem says *)

Section builtin.
Context (display_f64 : f64 → ustring) (display_value : Value → ustring).

(** The tolerances of the problem survive being printed and parsed again. *)
Definition tolerances_displayed (config : option Value) : Prop :=
  ∀ abs rel, float_tolerances display_value config = Ok (abs, rel) →
    parse_f64 (display_f64 abs) = Some abs ∧ parse_f64 (display_f64 rel) = Some rel.

Lemma builtin_mode_known format mode :
  builtin_compare_mode format = Some mode → mode = format ∧ known_mode format.
Proof. unfold builtin_compare_mode, known_mode. case_decide; [|done]. set_solver. Qed.

Lemma resolve_builtin_step format input stage :
  resolve_builtin display_f64 display_value format input = Ok stage →
  ∃ args step, stage_steps stage = [step] ∧ known_mode format
    ∧ builtin_argv display_f64 display_value format format (rc_config input)
      = Ok (BROCCOLI_COMPARE_PATH :: args) ∧ argv step = BROCCOLI_COMPARE_PATH :: args.
Proof.
  unfold resolve_builtin. destruct (builtin_compare_mode format) as [mode|] eqn:Em; [|done].
  apply builtin_mode_known in Em as [-> Hk]. destruct (rc_output_binding input); [|done].
  intros (av & Hav & [= <-])%result_bind_Ok.
  assert (∃ args, av = BROCCOLI_COMPARE_PATH :: args) as [args ->].
  { unfold builtin_argv in Hav. case_decide; [apply result_bind_Ok in Hav as (? & _ & Hav)|];
      injection Hav as <-; by eexists. }
  by exists args; eexists.
Qed.

(** What the comparator's command line asks for. *)
Definition asks_for (format : ustring) (config : option Value) (args : Args) : Prop :=
  arg_mode args = format ∧ arg_answer args = ANSWER_FILE ∧
  (format = u "tokens-float" → ∃ abs rel, float_tolerances display_value config = Ok (abs, rel)
     ∧ epsilon args = Some abs ∧ rel_epsilon args = Some rel).

Lemma builtin_argv_parses format config args :
  tolerances_displayed config →
  builtin_argv display_f64 display_value format format config = Ok (BROCCOLI_COMPARE_PATH :: args) →
  ∃ parsed, parse_args args = Ok parsed ∧ asks_for format config parsed.
Proof.
  intros Hd. unfold builtin_argv, asks_for. case_decide as Hf.
  - intros ([abs rel] & Ht & Hargs)%result_bind_Ok. destruct (Hd _ _ Ht) as [Ha Hr].
    injection Hargs as <-. subst format. unfold parse_args.
    cbn -[u parse_f64]. unfold parse_value. rewrite Ha. cbn -[u parse_f64]. rewrite Hr. cbn -[u parse_f64].
    eexists. split; [done|]. cbn. naive_solver.
  - intros [= <-]. unfold parse_args. cbn -[u]. eexists. split; [done|]. cbn. naive_solver.
Qed.
End builtin.

(** The interpreter the standard checkers register. *)
Definition standard_interpret (format : ustring) (o : CheckerRunOutcome) : result SdkError CheckerVerdict :=
  Ok (interpret_checker format o).

Lemma interpret_builtin_format format o :
  known_mode format → interpret_checker format o = interpret_builtin o.
Proof.
  intros Hk. unfold interpret_checker, builtin_compare_mode, known_mode in *.
  assert (format ∈ [u "exact"; u "lines"; u "tokens"; u "tokens-case-insensitive"; u "tokens-float"]) as Hf
    by set_solver.
  rewrite (decide_True (P := format ∈ _)) by done. by rewrite decide_True.
Qed.

Section chain.
Context {R W Ans : Type} `{ReadLaws R, Write W, ReadLaws Ans} (to_lowercase : ustring → ustring).
Context (display_f64 : f64 → ustring) (display_value : Value → ustring).

(** The worker's part: the check step ran the comparator with its arguments, the
    solution's output on stdin and the answer file in place, and recorded its
    exit code. *)
Definition ran_comparator (n : nat) (step : Step) (stdin : R) (stdout : W) (answer : Ans)
    (s : ExecutionResult) : Prop :=
  ∃ open v w, open ANSWER_FILE = Ok answer ∧
    run to_lowercase n (tail (argv step)) open stdin stdout = Some (v, w) ∧
    exit_code s = Some (main v).

(** C36. From the problem to the verdict: for every built-in format, with the
    stage the checker plugin resolves, and a check step that, when the run was
    clean, ran the comparator as the stage says, the case is accepted exactly when
    the solution compiled and ran to its end within its limits and its whole output
    agrees with the answer file in the sense of the format (for tokens-float with
    the problem's tolerances, which read back as they were printed).  A run that was
    not clean gets neither of the two verdicts on its output; a clean one, against a
    readable UTF-8 answer, gets one of them, never a system error. *)
Theorem judged_as_compared n format input stage (stdin : R) (stdout : W) (answer : Ans) r s id :
  resolve_builtin display_f64 display_value format input = Ok stage →
  tolerances_displayed display_f64 display_value (rc_config input) →
  enough n stdin answer →
  (clean_run r → checked r (result_step_id stage) s ∧
     ∀ step, step ∈ stage_steps stage → ran_comparator n step stdin stdout answer s) →
  ∃ args, asks_for display_value format (rc_config input) args ∧
    let v := tv_verdict (interpret_fused_result standard_interpret id r format (result_step_id stage)) in
    (v = Accepted ↔ clean_run r ∧ accepts to_lowercase args (script stdin) (script answer)) ∧
    (¬ clean_run r → v ≠ Accepted ∧ v ≠ WrongAnswer) ∧
    (clean_run r → (content (script stdin)).2 = None → (∃ ca, clean_text (script answer) ca) →
     v = Accepted ∨ v = WrongAnswer).
Proof.
  intros Hstage Hd Hn Hworker.
  destruct (resolve_builtin_step _ _ _ _ _ Hstage) as (av & step & Hsteps & Hk & Hav & Hstep).
  destruct (builtin_argv_parses _ _ _ _ _ Hd Hav) as (args & Hargs & Hasks).
  exists args. split; [done|]. destruct (precheck_verdict id r) as [w|] eqn:Ep.
  { assert (¬ clean_run r) as Hnot by (by intros ?%(precheck_verdict_None id); congruence).
    unfold interpret_fused_result. rewrite Ep. destruct (precheck_verdict_rejects _ _ _ Ep). naive_solver. }
  apply precheck_verdict_None in Ep as Hrun. destruct (Hworker Hrun) as [Hchk Hran]. clear Hworker.
  destruct Hasks as (Hmode & Hans & _).
  destruct (Hran step) as (open & v & w & Hopen & Hr & Hexit); [rewrite Hsteps; set_solver|].
  rewrite Hstep in Hr. simpl in Hr. rewrite <-Hans in Hopen.
  destruct (run_spec to_lowercase n av open stdin stdout args answer Hargs Hopen Hn)
    as (v' & ? & d & ? & ok & ? & _ & _ & _ & Hr' & Hacc & Hfin).
  rewrite Hr' in Hr. injection Hr as <- _.
  assert (format ≠ u "none") as Hnone.
  { intros ->. revert Hk. unfold known_mode. by vm_compute (u _ ∈ _); set_solver. }
  destruct (interpret_clean standard_interpret id r format (result_step_id stage) s
    (interpret_builtin (outcome_of s)) Hrun Hnone Hchk) as [-> _].
  { unfold standard_interpret. by rewrite interpret_builtin_format. }
  unfold interpret_builtin, outcome_of. simpl. rewrite Hexit. rewrite <-Hmode in Hk. split_and!.
  - rewrite <-Hacc. destruct v' as [[]|e]; simpl; naive_solver.
  - done.
  - intros _ Hc Ha. destruct (Hfin Hk Hc Ha) as [[] ->]; auto.
Qed.
End chain.
