(* ===== verification/EvaluatorWiring.v ===== *)
(** The operation a case becomes is well formed for every language and every
    checker stage that is itself well formed, and the expected output reaches
    nothing but the checker's own environment. *)

From stdpp Require Import base list gmap.
From S2P Require Import Prelude.
From S2P Require Import Text.
From S2P Require Import Float.
From S2P Require Import Json.
From S2P Require Import Compare CompareProofs CompareCli.
From S2P Require Import Checkers.
From S2P Require Import Evaluator.

(** ** Steps in a runnable order *)

(** Every step has a fresh id and waits only for steps before it. *)
Fixpoint ordered (seen : list ustring) (steps : list Step) : Prop :=
  match steps with
  | [] => True
  | s :: steps =>
      step_id s ∉ seen ∧ (∀ d, d ∈ depends_on s → d ∈ seen) ∧ ordered (step_id s :: seen) steps
  end.

Lemma ordered_app seen xs ys :
  ordered seen (xs ++ ys) ↔ ordered seen xs ∧ ordered (reverse (step_id <$> xs) ++ seen) ys.
Proof.
  revert seen. induction xs as [|x xs IH]; intros seen; simpl; [naive_solver|].
  rewrite IH, reverse_cons, <-(assoc_L (++)). naive_solver.
Qed.

(** More steps may come before, when they are different ones. *)
Lemma ordered_weaken seen seen' steps :
  (∀ d, d ∈ seen → d ∈ seen') → (∀ s, s ∈ steps → step_id s ∈ seen' → step_id s ∈ seen) →
  ordered seen steps → ordered seen' steps.
Proof.
  revert seen seen'. induction steps as [|s steps IH]; intros seen seen' Hsub Hfresh; simpl; [done|].
  intros (Hid & Hd & Ho). split_and!.
  - intros Hin. apply Hid, Hfresh; set_solver.
  - auto.
  - apply (IH (step_id s :: seen)); [set_solver| |done].
    intros t Ht [Heq|Hin]%elem_of_cons; [set_solver|]. apply elem_of_cons. right. apply Hfresh; [set_solver|done].
Qed.

Lemma elem_of_add_deps d deps more : d ∈ add_deps deps more ↔ d ∈ deps ∨ d ∈ more.
Proof.
  unfold add_deps. revert deps. induction more as [|m more IH]; intros deps; simpl; [set_solver|].
  rewrite IH. case_decide; set_solver.
Qed.

(** ** Stages *)

(** The pipes a step uses on its standard streams. *)
Definition reads_pipe (c : ustring) (s : Step) : Prop := io_stdin (io s) = IoPipe c.
Definition writes_pipe (c : ustring) (s : Step) : Prop := io_stdout (io s) = IoPipe c ∨ io_stderr (io s) = IoPipe c.

#[global] Instance reads_pipe_dec c s : Decision (reads_pipe c s).
Proof. unfold reads_pipe. apply _. Defined.
#[global] Instance writes_pipe_dec c s : Decision (writes_pipe c s).
Proof. unfold writes_pipe. apply _. Defined.

(** Where a mount takes its file from. *)
Definition mounted_from (s : Step) (from : ustring) : Prop :=
  ∃ m f, m ∈ mounts s ∧ mount_source m = StepOutput from f.

(** What an evaluator relies on of a checker's stage, whichever plugin resolved it. *)
Record stage_ok (stage : CheckerStage) : Prop := {
  ok_env : env_id (checker_env stage) ≠ u "sandbox";
  ok_ids : ∀ s, s ∈ stage_steps stage → step_id s ≠ u "compile" ∧ step_id s ≠ u "exec";
  ok_order : ordered [] (stage_steps stage);
  ok_env_refs : ∀ s, s ∈ stage_steps stage → env_ref s = env_id (checker_env stage);
  ok_mounts : ∀ s from, s ∈ stage_steps stage → mounted_from s from →
    from ∈ depends_on s ∨
    (from = u "exec" ∧ step_id s = result_step_id stage ∧ ∃ name, output_mode stage = File name);
  ok_writes : ∀ s c, s ∈ stage_steps stage → ¬ writes_pipe c s;
  ok_reads : ∀ c,
    step_id <$> filter (reads_pipe c) (stage_steps stage) =
      (if decide (output_mode stage = Stream c) then [result_step_id stage] else []);
}.

(** ** Operations *)

(** A step is started only after the steps it depends on have ended. *)
Definition waits_for (steps : list Step) (a b : ustring) : Prop :=
  ∃ s, s ∈ steps ∧ step_id s = a ∧ b ∈ depends_on s.

Record operation_ok (op : OperationTask) : Prop := {
  (* ids are distinct and every dependency is an earlier step: the steps can be
     scheduled, in this order *)
  op_order : ordered [] (tasks op);
  (* every step runs in one environment of the operation *)
  op_envs : NoDup (env_id <$> environments op);
  op_env_refs : ∀ s, s ∈ tasks op → env_ref s ∈ env_id <$> environments op;
  (* a file taken from another step is there when the step starts *)
  op_mounts : ∀ s from, s ∈ tasks op → mounted_from s from → from ∈ depends_on s;
  (* every channel joins one writer to one reader, every pipe is a channel, and
     its two ends can run at the same time: neither waits for the other, directly
     or through other steps *)
  op_channels : NoDup (ch_name <$> channels op);
  op_pipes : ∀ c,
    if decide (c ∈ ch_name <$> channels op)
    then ∃ w r, step_id <$> filter (writes_pipe c) (tasks op) = [w]
           ∧ step_id <$> filter (reads_pipe c) (tasks op) = [r]
           ∧ (∀ s, s ∈ tasks op → w ∉ depends_on s)
           ∧ ¬ tc (waits_for (tasks op)) w r ∧ ¬ tc (waits_for (tasks op)) r w
    else filter (writes_pipe c) (tasks op) = [] ∧ filter (reads_pipe c) (tasks op) = [];
}.

Section splice.
Context (lang : ResolveLanguageOutput) (config : SandboxConfig) (limits : ResourceLimits) (files : list (ustring * SessionFile)).

Let before : list Step := option_list ((λ c, compile_step c config) <$> lang_compile lang).
Let exec : Step := exec_step lang limits.

Lemma before_ordered : ordered [] before.
Proof. unfold before. destruct (lang_compile lang); simpl; set_solver. Qed.

Lemma exec_ready d : d ∈ depends_on exec → d ∈ step_id <$> before.
Proof. unfold exec, before, exec_step. simpl. destruct (lang_compile lang); simpl; set_solver. Qed.

Lemma before_steps s : s ∈ before → step_id s = u "compile" ∧ env_ref s = u "sandbox" ∧ mounts s = []
  ∧ depends_on s = [] ∧ (∀ c, ¬ reads_pipe c s ∧ ¬ writes_pipe c s).
Proof.
  unfold before. destruct (lang_compile lang) as [cs|]; simpl; [|set_solver]. intros ->%list_elem_of_singleton.
  split_and!; try done. intros ch. split; [done|]. by intros [|].
Qed.

Lemma before_no_pipes c : filter (reads_pipe c) before = [] ∧ filter (writes_pipe c) before = [].
Proof. split; apply filter_none; intros s Hs; by apply before_steps. Qed.

Lemma plain_operation_ok target :
  operation_ok {| environments := [{| env_id := u "sandbox"; files_in := files |}];
                  tasks := before ++ [exec]; channels := []; priority := None;
                  target_worker_id := target; evaluate_batch_id := None; op_test_case_id := None |}.
Proof.
  split; simpl.
  - apply ordered_app. split; [apply before_ordered|]. simpl. split_and!; [|intros d Hd|done].
    + rewrite (right_id_L [] (++)), elem_of_reverse. intros (s & Heq & Hs%before_steps)%list_elem_of_fmap.
      destruct Hs as (Hs & _). rewrite Hs in Heq. vm_compute in Heq. done.
    + rewrite (right_id_L [] (++)), elem_of_reverse. by apply exec_ready.
  - apply NoDup_singleton.
  - intros s [Hs%before_steps| ->%list_elem_of_singleton]%elem_of_app; [|set_solver].
    destruct Hs as (_ & -> & _). set_solver.
  - intros s from [Hs%before_steps| ->%list_elem_of_singleton]%elem_of_app (m & f & Hm & _).
    + destruct Hs as (_ & _ & Hs & _). rewrite Hs in Hm. set_solver.
    + simpl in Hm. set_solver.
  - constructor.
  - intros c. destruct (before_no_pipes c) as [Hr Hw].
    rewrite !filter_app, Hr, Hw. split; apply filter_none; intros s ->%list_elem_of_singleton;
      [by intros [|]|done].
Qed.

(** The stage's steps as they are spliced in. *)
Definition spliced (stage : CheckerStage) : list Step :=
  splice_step stage (depends_on exec) <$> stage_steps stage.

Lemma splice_step_id stage deps s : step_id (splice_step stage deps s) = step_id s.
Proof. unfold splice_step. by case_decide. Qed.

Lemma splice_step_same stage deps s :
  let t := splice_step stage deps s in
  env_ref t = env_ref s ∧ io t = io s ∧ mounts t = mounts s ∧ ∀ d, d ∈ depends_on s → d ∈ depends_on t.
Proof.
  unfold splice_step. case_decide; [|done]. simpl. split_and!; try done.
  intros d Hd. apply elem_of_add_deps. by left.
Qed.

Lemma splice_step_deps stage s d :
  d ∈ depends_on (splice_step stage (depends_on exec) s) →
  d ∈ depends_on s ∨
  match output_mode stage with Stream _ => d ∈ step_id <$> before | File _ => d = u "exec" end.
Proof.
  unfold splice_step. case_decide; [|by left]. simpl. rewrite elem_of_add_deps.
  destruct (output_mode stage); [|set_solver]. intros [|Hd%exec_ready]; auto.
Qed.

Lemma fmap_filter_io (P : Step → Prop) `{!∀ s, Decision (P s)} stage :
  (∀ s t, io s = io t → P s → P t) →
  step_id <$> filter P (spliced stage) = step_id <$> filter P (stage_steps stage).
Proof.
  intros HP. unfold spliced. induction (stage_steps stage) as [|s ss IH]; [done|].
  rewrite fmap_cons. destruct (splice_step_same stage (depends_on exec) s) as (_ & Hio & _).
  destruct (decide (P s)) as [Hs|Hs].
  - rewrite !filter_cons_True; [|done|by apply (HP s)]. rewrite !fmap_cons, splice_step_id. by f_equal.
  - rewrite !filter_cons_False; [done|done|]. intros Ht. by apply Hs, (HP _ _ Hio).
Qed.

Lemma spliced_ordered stage :
  stage_ok stage → ordered [] (before ++ splice_exec (output_mode stage) exec :: spliced stage).
Proof.
  intros Hok. apply ordered_app. split; [apply before_ordered|]. rewrite (right_id_L [] (++)).
  cbn [ordered]. change (step_id (splice_exec (output_mode stage) exec)) with (u "exec").
  change (depends_on (splice_exec (output_mode stage) exec)) with (depends_on exec).
  split_and!.
  - rewrite elem_of_reverse. intros (s & Heq & Hs%before_steps)%list_elem_of_fmap.
    destruct Hs as (Hs & _). rewrite Hs in Heq. vm_compute in Heq. done.
  - intros d. rewrite elem_of_reverse. apply exec_ready.
  - unfold spliced.
    assert (∀ done_ steps, (∀ s, s ∈ steps → s ∈ stage_steps stage) → ordered done_ steps →
      ordered (done_ ++ u "exec" :: reverse (step_id <$> before))
        (splice_step stage (depends_on exec) <$> steps)) as Hgen.
    { intros done_ steps. revert done_. induction steps as [|s steps IH]; intros done_ Hin; [done|].
      cbn [ordered fmap list_fmap]. rewrite splice_step_id. intros (Hid & Hd & Ho). split_and!.
      - destruct (ok_ids _ Hok s) as [Hc He]; [set_solver|].
        rewrite elem_of_app, elem_of_cons, elem_of_reverse. intros [?|[?|Hx]]; [done|done|].
        apply list_elem_of_fmap in Hx as (t & Hx & Ht%before_steps). destruct Ht as [Ht _]. congruence.
      - intros d Hd'%splice_step_deps. rewrite elem_of_app, elem_of_cons, elem_of_reverse.
        destruct Hd' as [Hd'|Hd']; [by left; apply Hd|]. right. destruct (output_mode stage); auto.
      - apply (IH (step_id s :: done_)); [set_solver|done]. }
    apply (Hgen []); [done|]. apply (ok_order _ Hok).
Qed.

Lemma spliced_steps stage s :
  s ∈ before ++ splice_exec (output_mode stage) exec :: spliced stage →
  s ∈ before ∨ s = splice_exec (output_mode stage) exec
  ∨ ∃ t, t ∈ stage_steps stage ∧ s = splice_step stage (depends_on exec) t.
Proof. unfold spliced. set_solver. Qed.

Lemma spliced_pipes stage c :
  stage_ok stage →
  let steps := before ++ splice_exec (output_mode stage) exec :: spliced stage in
  step_id <$> filter (writes_pipe c) steps = (if decide (output_mode stage = Stream c) then [u "exec"] else [])
  ∧ step_id <$> filter (reads_pipe c) steps
    = (if decide (output_mode stage = Stream c) then [result_step_id stage] else []).
Proof.
  intros Hok. cbv zeta. destruct (before_no_pipes c) as [Hr Hw].
  rewrite !filter_app, Hr, Hw. change ([] ++ ?x) with x.
  assert (¬ reads_pipe c (splice_exec (output_mode stage) exec)) as Hnr by done.
  assert (writes_pipe c (splice_exec (output_mode stage) exec) ↔ output_mode stage = Stream c) as Hwr.
  { unfold writes_pipe, splice_exec. simpl. destruct (output_mode stage); naive_solver. }
  assert (step_id <$> filter (writes_pipe c) (spliced stage) = []) as Hws.
  { rewrite fmap_filter_io; [|intros s t Hio; unfold writes_pipe; by rewrite Hio].
    rewrite filter_none; [done|]. intros s Hs. by apply (ok_writes _ Hok). }
  split.
  - case_decide as Hm.
    + rewrite filter_cons_True by by apply Hwr. by rewrite fmap_cons, Hws.
    + by rewrite filter_cons_False by by rewrite Hwr.
  - rewrite filter_cons_False by done.
    rewrite fmap_filter_io; [|intros s t Hio; unfold reads_pipe; by rewrite Hio]. apply (ok_reads _ Hok).
Qed.

(** In a stream stage nothing waits for the solution to end. *)
Lemma stream_no_wait stage c s :
  stage_ok stage → output_mode stage = Stream c →
  s ∈ before ++ splice_exec (output_mode stage) exec :: spliced stage → u "exec" ∉ depends_on s.
Proof.
  intros Hok Hm [Hs| [-> |(t & Ht & ->)]]%spliced_steps Hd.
  - apply before_steps in Hs as (_ & _ & _ & Hs & _). rewrite Hs in Hd. set_solver.
  - change (depends_on (splice_exec _ exec)) with (depends_on exec) in Hd.
    apply exec_ready, list_elem_of_fmap in Hd as (s & Heq & Hs%before_steps).
    destruct Hs as (Hs & _). rewrite Hs in Heq. vm_compute in Heq. done.
  - apply splice_step_deps in Hd. rewrite Hm in Hd. destruct Hd as [Hd|Hd].
    + assert (∀ seen steps, (∀ s, s ∈ steps → step_id s ≠ u "exec") → u "exec" ∉ seen →
        ordered seen steps → ∀ s, s ∈ steps → u "exec" ∉ depends_on s) as Hgen.
      { clear. intros seen steps. revert seen. induction steps as [|x xs IH]; intros seen Hid Hseen; [set_solver|].
        simpl. intros (_ & Hx & Ho) s [-> |Hs]%elem_of_cons; [naive_solver|].
        apply (IH (step_id x :: seen)); [set_solver| |done|done].
        intros [Heq|?]%elem_of_cons; [|done]. apply (Hid x); [set_solver|done]. }
      apply (Hgen [] (stage_steps stage)) with t in Hd; try done; [|set_solver|apply (ok_order _ Hok)].
      intros x Hx. by apply (ok_ids _ Hok).
    + apply list_elem_of_fmap in Hd as (x & Heq & Hx%before_steps).
      destruct Hx as (Hx & _). rewrite Hx in Heq. vm_compute in Heq. done.
Qed.

Lemma tc_last {A} (R : relation A) x y : tc R x y → ∃ z, R z y.
Proof. induction 1; eauto. Qed.

(** The solution waits for the compile step at most. *)
Lemma exec_waits_only stage a b :
  stage_ok stage → a = u "exec" ∨ a = u "compile" →
  tc (waits_for (before ++ splice_exec (output_mode stage) exec :: spliced stage)) a b → b = u "compile".
Proof.
  intros Hok Ha Hw.
  assert (∀ a b, a = u "exec" ∨ a = u "compile" →
    waits_for (before ++ splice_exec (output_mode stage) exec :: spliced stage) a b → b = u "compile") as Hstep.
  { clear a b Ha Hw. intros a b Ha (s & Hs & Hid & Hd). apply spliced_steps in Hs as [Hs| [-> |(t & Ht & ->)]].
    - apply before_steps in Hs as (_ & _ & _ & Hs & _). rewrite Hs in Hd. set_solver.
    - change (depends_on (splice_exec _ exec)) with (depends_on exec) in Hd.
      apply exec_ready, list_elem_of_fmap in Hd as (x & -> & Hx%before_steps). by destruct Hx.
    - rewrite splice_step_id in Hid. destruct (ok_ids _ Hok t Ht). naive_solver. }
  induction Hw as [a b Hw|a b c Hw _ IH]; [eauto|]. apply IH. right. eauto.
Qed.

Lemma spliced_operation_ok stage target :
  stage_ok stage →
  operation_ok {| environments := [{| env_id := u "sandbox"; files_in := files |}; checker_env stage];
                  tasks := before ++ splice_exec (output_mode stage) exec :: spliced stage;
                  channels := match output_mode stage with Stream c => [channel_named c] | File _ => [] end;
                  priority := None; target_worker_id := target; evaluate_batch_id := None;
                  op_test_case_id := None |}.
Proof.
  intros Hok. split; simpl.
  - by apply spliced_ordered.
  - apply NoDup_cons. split; [|apply NoDup_singleton]. rewrite list_elem_of_singleton.
    intros Heq. by apply (ok_env _ Hok).
  - intros s [Hs| [-> |(t & Ht & ->)]]%spliced_steps.
    + apply before_steps in Hs as (_ & -> & _). set_solver.
    + set_solver.
    + destruct (splice_step_same stage (depends_on exec) t) as (-> & _). rewrite (ok_env_refs _ Hok t Ht). set_solver.
  - intros s from [Hs| [-> |(t & Ht & ->)]]%spliced_steps (m & f & Hm & Hf).
    + apply before_steps in Hs as (_ & _ & Hs & _). rewrite Hs in Hm. set_solver.
    + simpl in Hm. set_solver.
    + destruct (splice_step_same stage (depends_on exec) t) as (_ & _ & Hmt & Hdeps). rewrite Hmt in Hm.
      destruct (ok_mounts _ Hok t from Ht) as [Hd|(-> & Hres & name & Hmode)]; [by exists m, f|by apply Hdeps|].
      unfold splice_step. rewrite decide_True by done. simpl. apply elem_of_add_deps. right.
      rewrite Hmode. set_solver.
  - destruct (output_mode stage); [apply NoDup_singleton|constructor].
  - intros c. destruct (spliced_pipes stage c Hok) as [Hw Hr].
    destruct (output_mode stage) as [c'|name] eqn:Hm.
    + destruct (decide (c = c')) as [<-|Hne].
      * rewrite decide_True by set_solver. rewrite decide_True in Hw by done. rewrite decide_True in Hr by done.
        assert (result_step_id stage ≠ u "compile") as Hres.
        { pose proof (ok_reads _ Hok c) as Hf. rewrite decide_True in Hf by done.
          assert (result_step_id stage ∈ step_id <$> filter (reads_pipe c) (stage_steps stage))
            as (s & -> & [_ Hs]%list_elem_of_filter)%list_elem_of_fmap by (rewrite Hf; by left).
          by apply (ok_ids _ Hok). }
        assert (∀ s, s ∈ before ++ splice_exec (output_mode stage) exec :: spliced stage →
          u "exec" ∉ depends_on s) as Hno by (intros s; by apply (stream_no_wait stage c)).
        rewrite Hm in Hno. eexists _, _. split_and!; [exact Hw|exact Hr|done| |].
        -- intros Ht. apply Hres. apply (exec_waits_only stage (u "exec")); [done|by left|by rewrite Hm].
        -- intros [x (s & Hs & _ & Hd)]%tc_last. by apply (Hno s).
      * rewrite decide_False by set_solver. rewrite decide_False in Hw by congruence.
        rewrite decide_False in Hr by congruence. by apply fmap_nil_inv in Hw, Hr.
    + rewrite decide_False by set_solver. rewrite decide_False in Hw by done.
      rewrite decide_False in Hr by done. by apply fmap_nil_inv in Hw, Hr.
Qed.
End splice.

(** Whatever the request, the operation built around a well-formed stage, or none, is well formed. *)
Lemma build_operation_ok req lang config stage ops :
  (∀ st, stage = Some st → stage_ok st) →
  build_operation req lang config stage = Ok ops → ∃ op, ops = [op] ∧ operation_ok op.
Proof.
  intros Hok. unfold build_operation. destruct (be_solution_source req); [done|].
  intros (t & _ & (m & _ & Hops)%result_bind_Ok)%result_bind_Ok.
  destruct stage as [st|]; injection Hops as <-; eexists; (split; [done|]).
  - apply spliced_operation_ok. by apply Hok.
  - apply plain_operation_ok.
Qed.

(** ** The standard checkers' stages *)

Section standard.
Context (get_problem : Z → ustring → result ustring ConfigResult)
  (get_global : ustring → result ustring ConfigResult)
  (resolve_language : ResolveLanguageInput → result ustring ResolveLanguageOutput)
  (sources_of_value : Value → result ustring (list SourceFile))
  (testlib_config_of_value : Value → result ustring TestlibConfig)
  (display_f64 : f64 → ustring) (display_value : Value → ustring).

Definition standard_resolve : ResolveCheckerInput → result ustring CheckerStage :=
  resolve_stage get_problem get_global resolve_language sources_of_value testlib_config_of_value
    display_f64 display_value.

Definition standard_prepare : SandboxConfig → BuildEvalOpsInput → result ustring PreparedEvaluateCase :=
  prepare_case resolve_language standard_resolve.

Lemma builtin_stage_ok format input stage :
  resolve_builtin display_f64 display_value format input = Ok stage → stage_ok stage.
Proof.
  unfold resolve_builtin. destruct (builtin_compare_mode format); [|done].
  destruct (rc_output_binding input) as [channel|]; [|done].
  intros (av & _ & [= <-])%result_bind_Ok. split; simpl.
  - by vm_compute.
  - intros s ->%list_elem_of_singleton. by split; vm_compute.
  - set_solver.
  - by intros s ->%list_elem_of_singleton.
  - intros s from ->%list_elem_of_singleton (m & f & Hm & Hf). simpl in Hm.
    apply list_elem_of_singleton in Hm as ->. done.
  - intros s c ->%list_elem_of_singleton. by intros [|].
  - intros c. destruct (decide (channel = c)) as [-> |Hne].
    + rewrite decide_True by done. by rewrite filter_cons_True.
    + rewrite decide_False by congruence. rewrite filter_cons_False; [done|]. unfold reads_pipe. simpl. congruence.
Qed.

Lemma testlib_stage_ok sources test_input answer resolved config binding stage :
  build_testlib_checker_stage sources test_input answer resolved config binding = Ok stage → stage_ok stage.
Proof.
  unfold build_testlib_checker_stage. destruct binding as [|name]; [done|]. intros [= <-].
  unfold build_compile_checker_step. split; simpl.
  - by vm_compute.
  - destruct (lang_compile resolved); simpl; intros s Hs; repeat (apply elem_of_cons in Hs as [-> |Hs];
      [by split; vm_compute|]); set_solver.
  - destruct (lang_compile resolved) as [cs|]; simpl; [|set_solver].
    split_and!; [set_solver|set_solver| |intros d Hd; exact Hd|done].
    rewrite list_elem_of_singleton. by vm_compute.
  - destruct (lang_compile resolved); simpl; intros s Hs; repeat (apply elem_of_cons in Hs as [-> |Hs]; [done|]); set_solver.
  - destruct (lang_compile resolved); simpl; intros s from Hs (m & f & Hm & Hf);
      repeat (apply elem_of_cons in Hs as [-> |Hs]; [simpl in Hm|]); try set_solver;
      apply list_elem_of_singleton in Hm as ->; injection Hf as <- _; right; by eauto.
  - destruct (lang_compile resolved); simpl; intros s ch Hs; repeat (apply elem_of_cons in Hs as [-> |Hs];
      [by intros [|]|]); set_solver.
  - intros c. rewrite filter_none; [done|]. destruct (lang_compile resolved); simpl; intros s Hs;
      repeat (apply elem_of_cons in Hs as [-> |Hs]; [done|]); set_solver.
Qed.

Lemma standard_stage_ok req stage : standard_resolve req = Ok stage → stage_ok stage.
Proof.
  unfold standard_resolve, resolve_stage. case_decide; [apply builtin_stage_ok|].
  case_decide; [|by case_decide].
  intros (src & _ & (compiled & _ & Hs)%result_bind_Ok)%result_bind_Ok. by apply testlib_stage_ok in Hs.
Qed.

(** C37. Every prepared case is one operation a worker can run: step ids are
    distinct and every dependency is an earlier step (so the steps can be
    scheduled), each step's environment exists, a mounted output comes from a
    step that was waited for, and each channel has exactly one writer and one
    reader, which can run at the same time: no step waits for the writer, and
    neither end waits for the other, directly or through other steps; for every
    language, format, checker bundle and configuration. *)
Theorem prepared_operation_ok config req prepared :
  standard_prepare config req = Ok prepared →
  ∃ op, pe_operations prepared = [op] ∧ operation_ok op.
Proof.
  unfold standard_prepare, prepare_case.
  intros (lang & _ & (stage & Hst & (ops & Hops & [= <-])%result_bind_Ok)%result_bind_Ok)%result_bind_Ok.
  destruct (build_operation_ok req lang config stage ops) as (op & -> & Hop); [|done|by exists op].
  intros st ->. case_decide; [done|]. destruct (standard_resolve _) as [st'|] eqn:E; [|done].
  injection Hst as ->. by apply standard_stage_ok in E.
Qed.

(** The same case with another expected output. *)
Definition with_expected_output (e : JudgeFile) (req : BuildEvalOpsInput) : BuildEvalOpsInput := {|
  be_problem_id := be_problem_id req; be_test_case_id := be_test_case_id req;
  be_solution_source := be_solution_source req; be_solution_language := be_solution_language req;
  be_time_limit_ms := be_time_limit_ms req; be_memory_limit_kb := be_memory_limit_kb req;
  be_contest_id := be_contest_id req; be_evaluate_batch_id := be_evaluate_batch_id req;
  be_test_input := be_test_input req; be_expected_output := e;
  be_checker_format := be_checker_format req; be_checker_config := be_checker_config req;
  be_additional_file_refs := be_additional_file_refs req; be_target_worker_id := be_target_worker_id req;
|}.

(** Two stages that differ in the checker's files only. *)
Definition same_but_files (s s' : CheckerStage) : Prop :=
  env_id (checker_env s) = env_id (checker_env s') ∧ stage_steps s = stage_steps s'
  ∧ output_mode s = output_mode s' ∧ result_step_id s = result_step_id s'.

Lemma resolve_answer_only format test_input problem config binding a a' s :
  let req answer := {| rc_format := format; rc_answer := answer; rc_test_input := test_input;
                       rc_problem_id := problem; rc_config := config; rc_output_binding := binding |} in
  standard_resolve (req a) = Ok s → ∃ s', standard_resolve (req a') = Ok s' ∧ same_but_files s s'.
Proof.
  intros req. unfold standard_resolve, resolve_stage. simpl. case_decide.
  - unfold resolve_builtin. simpl. destruct (builtin_compare_mode format); [|done]. destruct binding; [|done].
    intros (av & -> & [= <-])%result_bind_Ok. by eexists.
  - case_decide; [|by case_decide].
    intros (src & -> & (compiled & Hc & Hs)%result_bind_Ok)%result_bind_Ok.
    unfold mbind, result_bind at 1. unfold mbind in Hc. rewrite Hc.
    unfold build_testlib_checker_stage in *. destruct binding; [done|]. injection Hs as <-. by eexists.
Qed.

(** C38. The expected output reaches the checker only: changing it changes, in
    the operation of the case, nothing but the files of the checker's
    environment; the steps (their arguments, mounts and limits) and the
    environment in which the solution is compiled and run stay the same. *)
Theorem answer_only_reaches_checker config req e prepared :
  standard_prepare config req = Ok prepared →
  ∃ prepared' op op', standard_prepare config (with_expected_output e req) = Ok prepared'
    ∧ pe_operations prepared = [op] ∧ pe_operations prepared' = [op']
    ∧ tasks op' = tasks op ∧ channels op' = channels op
    ∧ Forall2 (λ env env', env_id env' = env_id env ∧ (env_id env = u "sandbox" → env' = env))
        (environments op) (environments op').
Proof.
  unfold standard_prepare, prepare_case.
  intros (lang & Hl & (stage & Hst & (ops & Hops & [= <-])%result_bind_Ok)%result_bind_Ok)%result_bind_Ok.
  change (checker_format_of (with_expected_output e req)) with (checker_format_of req). cbn [be_solution_language
    be_solution_source be_additional_file_refs be_problem_id be_contest_id be_test_input be_checker_config
    be_expected_output be_time_limit_ms with_expected_output]. rewrite Hl.
  assert (∃ stage', (if decide (checker_format_of req = u "none") then Ok None
    else match standard_resolve {| rc_format := checker_format_of req; rc_answer := e;
                  rc_test_input := be_test_input req; rc_problem_id := Some (be_problem_id req);
                  rc_config := be_checker_config req;
                  rc_output_binding := checker_output_binding (checker_format_of req) |} with
         | Ok stage => Ok (Some stage) | Err e => Err (u "checker resolve failed: " ++ e) end) = Ok stage'
    ∧ option_Forall2 (λ st st', same_but_files st st' ∧ env_id (checker_env st) ≠ u "sandbox") stage stage')
    as (stage' & Hst' & Hsame).
  { case_decide; [injection Hst as <-; by exists None; split; [|constructor]|].
    destruct (standard_resolve _) as [s|] eqn:Es in Hst; [|done]. injection Hst as <-.
    destruct (resolve_answer_only _ _ _ _ _ _ e _ Es) as (s' & -> & Hs).
    exists (Some s'). split; [done|]. constructor. split; [done|]. by apply standard_stage_ok in Es as []. }
  unfold mbind, result_bind at 1. unfold mbind, result_bind at 1. rewrite Hst'.
  clear Hst Hst'. unfold build_operation in *. cbn [be_solution_source be_time_limit_ms be_memory_limit_kb
    with_expected_output]. destruct (be_solution_source req); [done|].
  apply result_bind_Ok in Hops as (t & -> & Hops). apply result_bind_Ok in Hops as (m & -> & Hops).
  destruct Hsame as [st st' [(Henv & Hsteps & Hmode & Hres) Hne]|]; injection Hops as <-.
  - eexists _, _, _. split; [reflexivity|]. split; [reflexivity|]. split; [reflexivity|].
    simpl. unfold splice_step. rewrite Hsteps, Hmode, Hres. split_and!; [done|done|].
    apply Forall2_cons. split; [done|]. apply Forall2_cons. split; [|constructor]. naive_solver.
  - eexists _, _, _. split; [reflexivity|]. split; [reflexivity|]. split; [reflexivity|].
    split_and!; [done|done|]. apply Forall2_cons. split; [done|constructor].
Qed.
End standard.

(** Concrete cases of the evaluator: the witnesses of its properties. *)

From Stdlib Require Import SpecFloat.
From S2P Require Import Verdict.
From S2P Require Import Sdk.
From S2P Require Import Judging.
From S2P Require Import EvaluatorProofs.

(** ** Results *)

Definition ex_sandbox (code : option Z) (st : SandboxStatus) (out err : ustring) : ExecutionResult := {|
  exit_code := code; signal := None; time_used := f_of_decimal false 25 (-2); wall_time_used := f_one;
  memory_used := Some 2048%Z; killed := false; cg_oom_killed := false; status := u "OK";
  sandbox_status := st; message := []; stdout := out; stderr := err;
|}.

Definition ex_task (id : ustring) (ok : bool) (s : ExecutionResult) : ustring * TaskExecutionResult :=
  (id, {| task_id := id; task_success := ok; sandbox_result := s; collected_outputs := ∅ |}).

Definition ex_operation (ts : list (ustring * TaskExecutionResult)) : OperationResult :=
  {| op_success := true; task_results := list_to_map ts; op_error := None |}.

Definition ex_check : ExecutionResult := ex_sandbox (Some 0%Z) StOk (u "preview") (u "Accepted").

Definition ex_result_ok : OperationResult := ex_operation
  [ex_task (u "compile") true (ex_sandbox (Some 0%Z) StOk [] []);
   ex_task (u "exec") true (ex_sandbox (Some 0%Z) StOk [] []);
   ex_task (u "check") true ex_check].

(** The Java compiler could not start its threads, and said so. *)
Definition ex_result_jvm : OperationResult := ex_operation
  [ex_task (u "compile") false
     (ex_sandbox (Some 1%Z) StOk [] (u "java.lang.OutOfMemoryError: Unable to create native thread: limits"))].

Lemma faults_are_system_errors_witness :
  tv_verdict (interpret_fused_result standard_interpret 7 ex_result_jvm (u "tokens") CHECK_STEP_ID) = SystemError
  ↔ machine_fault standard_interpret ex_result_jvm (u "tokens") CHECK_STEP_ID
    ∨ clean_run ex_result_jvm ∧ u "tokens" ≠ u "none" ∧
      ∃ s v, checked ex_result_jvm CHECK_STEP_ID s ∧ standard_interpret (u "tokens") (outcome_of s) = Ok v
             ∧ cv_verdict v = SystemError.
Proof.
  apply (faults_are_system_errors standard_interpret 7 ex_result_jvm (u "tokens") CHECK_STEP_ID).
  vm_compute. reflexivity.
Defined.

Example ex_jvm_fault : compile_fault (default (ex_task [] false (ex_sandbox None StOk [] [])).2
                         (task_results ex_result_jvm !! u "compile")).
Proof.
  right. split; [done|]. right.
  eexists (u "unable to create native thread"), (u "java.lang.outofmemoryerror: "), (u ": limits").
  split; [left|vm_compute; reflexivity].
Qed.

(** ** From a problem with its own tolerance to the verdict *)

Definition ex_tolerance : f64 := f_of_decimal false 1 (-3).

(** How the numbers of this example are printed. *)
Definition ex_display (x : f64) : ustring :=
  if decide (x = ex_tolerance) then u "0.001" else u "0.000001".

Definition ex_config : option Value := Some (VObject [(u "abs_tol", VFloat ex_tolerance)]).

Definition ex_resolve_input : ResolveCheckerInput := {|
  rc_format := u "tokens-float"; rc_answer := JInline (u "1.0"); rc_test_input := JMissing;
  rc_problem_id := Some 3%Z; rc_config := ex_config; rc_output_binding := Stream (u "sol_out");
|}.

Definition ex_stage : CheckerStage :=
  match resolve_builtin ex_display (λ _, []) (u "tokens-float") ex_resolve_input with
  | Ok stage => stage
  | Err _ => {| checker_env := {| env_id := []; files_in := [] |}; stage_steps := [];
                output_mode := File []; result_step_id := [] |}
  end.

Definition ex_stdin : list read_event := [Chunk (u "1.00"); Fails Compare.Interrupted; Chunk (u "05 ")].
Definition ex_answer : list read_event := [Chunk (u "1.0")].

Lemma ex_clean : clean_run ex_result_ok.
Proof.
  split.
  - intros t Ht. vm_compute in Ht. injection Ht as <-. by vm_compute.
  - eexists. split; [vm_compute; reflexivity|]. split; [by left|]. split; [done|]. simpl. set_solver.
Qed.

Lemma judged_as_compared_witness :
  clean_run ex_result_ok ∧ ∃ args, asks_for (λ _, []) (u "tokens-float") ex_config args ∧
    let v := tv_verdict (interpret_fused_result standard_interpret 7 ex_result_ok (u "tokens-float")
                           (result_step_id ex_stage)) in
    (v = Accepted ↔ clean_run ex_result_ok ∧ accepts lower_ascii args (script ex_stdin) (script ex_answer)) ∧
    (¬ clean_run ex_result_ok → v ≠ Accepted ∧ v ≠ WrongAnswer) ∧
    (clean_run ex_result_ok → (content (script ex_stdin)).2 = None → (∃ ca, clean_text (script ex_answer) ca) →
     v = Accepted ∨ v = WrongAnswer).
Proof.
  split; [exact ex_clean|].
  apply (judged_as_compared lower_ascii ex_display (λ _, []) 100 (u "tokens-float") ex_resolve_input
           ex_stage ex_stdin ([] : memory) ex_answer ex_result_ok ex_check 7).
  - vm_compute. reflexivity.
  - intros abs rel H. vm_compute in H. injection H as <- <-. split; vm_compute; reflexivity.
  - split; vm_compute; lia.
  - intros _. split.
    { eexists. split; [vm_compute; reflexivity|]. split; [vm_compute; reflexivity|]. vm_compute. discriminate. }
    intros step Hstep. assert (step ∈ stage_steps ex_stage) as Hs by exact Hstep. clear Hstep.
    assert (Forall (λ st, tail (argv st) = [u "--mode"; u "tokens-float"; u "--answer"; ANSWER_FILE;
      u "--epsilon"; u "0.001"; u "--rel-epsilon"; u "0.000001"]) (stage_steps ex_stage)) as Hall.
    { vm_compute. repeat constructor. }
    rewrite Forall_forall in Hall. exists (λ _, Ok ex_answer), (Ok Compare.Accepted), (Some (u "1.0005 ")).
    rewrite (Hall step Hs). split; [reflexivity|]. split; vm_compute; reflexivity.
Defined.

(** ** An operation *)

Definition ex_lang (i : ResolveLanguageInput) : result ustring ResolveLanguageOutput := Ok {|
  lang_compile := Some {| cs_command := [u "g++"]; cs_cache_inputs := []; cs_outputs := [OutFile (u "solution")];
                          cs_resource_limits := None |};
  lang_run := {| rs_command := [u "./solution"]; rs_extra_files := []; min_process_limit := None |};
|}.

Definition ex_request : BuildEvalOpsInput := {|
  be_problem_id := 3; be_test_case_id := 7;
  be_solution_source := [{| src_filename := u "main.cpp"; src_content := u "int main() {}" |}];
  be_solution_language := u "cpp"; be_time_limit_ms := 1000; be_memory_limit_kb := 262144;
  be_contest_id := None; be_evaluate_batch_id := None; be_test_input := JInline (u "1");
  be_expected_output := JInline (u "2"); be_checker_format := Some (u "tokens");
  be_checker_config := None; be_additional_file_refs := []; be_target_worker_id := None;
|}.

Definition ex_prepare (req : BuildEvalOpsInput) : result ustring PreparedEvaluateCase :=
  standard_prepare (λ _ _, Err []) (λ _, Err []) ex_lang (λ _, Err []) (λ _, Err []) ex_display (λ _, [])
    default_sandbox_config req.

Definition ex_prepared : PreparedEvaluateCase :=
  match ex_prepare ex_request with
  | Ok p => p
  | Err _ => {| pe_operations := []; pe_result_timeout_ms := 0 |}
  end.

(** Three steps, the check beside the solution. *)
Example ex_prepared_steps :
  (λ op, ((λ s, (step_id s, depends_on s)) <$> tasks op)) <$> pe_operations ex_prepared
  = [[(u "compile", []); (u "exec", [u "compile"]); (u "check", [u "compile"])]].
Proof. vm_compute. reflexivity. Qed.

Lemma prepared_operation_ok_witness : ∃ op, pe_operations ex_prepared = [op] ∧ operation_ok op.
Proof.
  apply (prepared_operation_ok (λ _ _, Err []) (λ _, Err []) ex_lang (λ _, Err []) (λ _, Err []) ex_display
           (λ _, []) default_sandbox_config ex_request ex_prepared).
  vm_compute. reflexivity.
Defined.

Lemma answer_only_reaches_checker_witness :
  ∃ prepared' op op', ex_prepare (with_expected_output (JInline (u "3")) ex_request) = Ok prepared'
    ∧ pe_operations ex_prepared = [op] ∧ pe_operations prepared' = [op']
    ∧ tasks op' = tasks op ∧ channels op' = channels op
    ∧ Forall2 (λ env env', env_id env' = env_id env ∧ (env_id env = u "sandbox" → env' = env))
        (environments op) (environments op').
Proof.
  apply (answer_only_reaches_checker (λ _ _, Err []) (λ _, Err []) ex_lang (λ _, Err []) (λ _, Err []) ex_display
           (λ _, []) default_sandbox_config ex_request (JInline (u "3")) ex_prepared).
  vm_compute. reflexivity.
Defined.
