(* ===== verification/Windowed.v ===== *)
(** * Windowed: the host's loop behind a detached session

    packages/server/src/services/windowed_session.rs. The host keeps up to
    [concurrency] single-item batches in flight, hands each result to the
    plugin's callback and acts on its reply. What differs between evaluate and
    operation sessions is the trait [WindowedSession], here a class over the
    world [W] it acts on: the driver's own state, the batches, the plugin. The
    channel the batches' waiters send their outcomes into is part of the world:
    [recv] takes the next outcome, and has none when every waiter has sent its
    own, which for the loop means to wait for ever. *)

From stdpp Require Import base list gmap.
From S2P Require Import Prelude.
From S2P Require Import Text.

Inductive SessionAction := Continue | Finish | Cancel.

#[global] Instance SessionAction_eq_dec : EqDecision SessionAction.
Proof. solve_decision. Defined.

Inductive SlotEvent (SlotId Final : Type) :=
  | SlotResult (slot_id : SlotId) (result : Final)
  | SlotTimeout (message : ustring)
  | SlotExhausted.
Arguments SlotResult {SlotId Final} _ _.
Arguments SlotTimeout {SlotId Final} _.
Arguments SlotExhausted {SlotId Final}.

Record SessionDecision (SlotId State : Type) := {
  sd_state : State;
  sd_action : SessionAction;
  sd_refill : bool;
  sd_cancel_ids : list SlotId;
}.
Arguments sd_state {SlotId State} _.
Arguments sd_action {SlotId State} _.
Arguments sd_refill {SlotId State} _.
Arguments sd_cancel_ids {SlotId State} _.

(** [Ok (Some raw)] delivered, [Ok None] timed out, [Err e] the wait failed. *)
Record SlotOutcome (SlotId BatchId Raw : Type) := {
  so_slot_id : SlotId;
  so_batch_id : BatchId;
  so_result : result ustring (option Raw);
}.
Arguments so_slot_id {SlotId BatchId Raw} _.
Arguments so_batch_id {SlotId BatchId Raw} _.
Arguments so_result {SlotId BatchId Raw} _.

Class WindowedSession (W Item Raw Final SlotId BatchId State : Type)
    `{Countable SlotId, Countable BatchId} := {
  slot_id : nat → Item → SlotId;
  start_slot : SlotId → Item → W → result ustring BatchId * W;
  recv : W → option (SlotOutcome SlotId BatchId Raw * W);
  decode : Raw → result ustring Final;
  timeout_message : SlotId → ustring;
  call_callback : SlotEvent SlotId Final → State → nat → nat → W →
                  result ustring (SessionDecision SlotId State) * W;
  cancel_active : list (SlotId * BatchId) → W → W;
  cancel_selected : list (SlotId * BatchId) → gset SlotId → W → list (SlotId * BatchId) * W;
  take_retry : SlotId → BatchId → W → option Item * W;
  note_retry : SlotId → BatchId → W → W;
  note_retry_failed : SlotId → ustring → W → W;
  on_terminal : SessionAction → W → W;
}.

(** How a session ends: returned, still waiting with nobody left to wake it, or
    out of fuel. *)
Inductive ending (W : Type) := Returned (w : W) | Blocked (w : W) | OutOfFuel.
Arguments Returned {W} _.
Arguments Blocked {W} _.
Arguments OutOfFuel {W}.

Section session.
Context `{WindowedSession W Item Raw Final SlotId BatchId State}.

Notation active_slots := (list (SlotId * BatchId)).
Notation pending_items := (list (SlotId * Item)).

(** [Vec::swap_remove]: the last element takes the place of the removed one. *)
Definition swap_remove {A} (i : nat) (l : list A) : list A :=
  match last l with
  | Some x => take (length l - 1) (<[i := x]> l)
  | None => l
  end.

Definition remove_active_slot (active : active_slots) (batch_id : BatchId) : option active_slots :=
  '(i, _) ← list_find (λ s, s.2 = batch_id) active;
  Some (swap_remove i active).

(** The callback with an event, then the session ends unless it goes on. *)
Definition stop_session (active : active_slots) (action : SessionAction) (w : W) : W :=
  on_terminal action (cancel_active active w).

(** The last event of a session that ran dry. *)
Definition exhaust (state : State) (completed total : nat) (w : W) : W :=
  match call_callback SlotExhausted state completed total w with
  | (Ok decision, w) => on_terminal (sd_action decision) w
  | (Err _, w) => w
  end.

(** Starts what fits in the window; pending items are taken in order. [inr]: the
    session is over. *)
Fixpoint initial_fill (concurrency total : nat) (state : State) (pending : pending_items)
    (active : active_slots) (w : W) : (pending_items * active_slots * W) + W :=
  match pending with
  | [] => inl ([], active, w)
  | (slot, item) :: pending' =>
      if decide (length active < concurrency) then
        match start_slot slot item w with
        | (Ok batch_id, w) => initial_fill concurrency total state pending' (active ++ [(slot, batch_id)]) w
        | (Err e, w) =>
            let '(r, w) := call_callback (SlotTimeout e) state 0 total w in
            inr (stop_session active (match r with Ok d => sd_action d | Err _ => Cancel end) w)
        end
      else inl (pending, active, w)
  end.

(** Refilling the window after a callback; an item that cannot be started is
    reported to the plugin and dropped. *)
Fixpoint refill_window (concurrency total completed : nat) (state : State) (pending : pending_items)
    (active : active_slots) (w : W) : (State * pending_items * active_slots * W) + W :=
  match pending with
  | [] => inl (state, [], active, w)
  | (slot, item) :: pending' =>
      if decide (length active < concurrency) then
        match start_slot slot item w with
        | (Ok batch_id, w) =>
            refill_window concurrency total completed state pending' (active ++ [(slot, batch_id)]) w
        | (Err e, w) =>
            match call_callback (SlotTimeout e) state completed total w with
            | (Err _, w) => inr (cancel_active active w)
            | (Ok decision, w) =>
                match sd_action decision with
                | Continue => refill_window concurrency total completed (sd_state decision) pending' active w
                | action => inr (stop_session active action w)
                end
            end
        end
      else inl (state, pending, active, w)
  end.

Definition is_timeout (r : result ustring (option Raw)) : bool :=
  match r with Ok (Some _) => false | _ => true end.

Definition event_of (o : SlotOutcome SlotId BatchId Raw) : SlotEvent SlotId Final :=
  match so_result o with
  | Ok (Some raw) =>
      match decode raw with
      | Ok result => SlotResult (so_slot_id o) result
      | Err message => SlotTimeout message
      end
  | Ok None => SlotTimeout (timeout_message (so_slot_id o))
  | Err e => SlotTimeout e
  end.

(** The server's own retry of a timed-out slot; [Some]: it is in flight again. *)
Definition try_retry (o : SlotOutcome SlotId BatchId Raw) (w : W) : option BatchId * W :=
  if is_timeout (so_result o) then
    match take_retry (so_slot_id o) (so_batch_id o) w with
    | (None, w) => (None, w)
    | (Some item, w) =>
        match start_slot (so_slot_id o) item w with
        | (Ok new_batch_id, w) => (Some new_batch_id, note_retry (so_slot_id o) (so_batch_id o) w)
        | (Err e, w) => (None, note_retry_failed (so_slot_id o) e w)
        end
    end
  else (None, w).

(** Cancels the slots a callback names, in flight or still pending. *)
Definition apply_cancels (ids : list SlotId) (pending : pending_items) (active : active_slots) (w : W)
    : active_slots * pending_items * W :=
  match ids with
  | [] => (active, pending, w)
  | _ =>
      let cancel_set := list_to_set ids : gset SlotId in
      let '(active, w) := cancel_selected active cancel_set w in
      (active, filter (λ p, p.1 ∉ cancel_set) pending, w)
  end.

(** What the loop does with one delivered outcome, [active] being the slots left. *)
Definition deliver (concurrency total completed : nat) (state : State) (pending : pending_items)
    (active : active_slots) (o : SlotOutcome SlotId BatchId Raw) (w : W)
    : (bool * State * pending_items * active_slots * W) + W :=
  match call_callback (event_of o) state completed total w with
  | (Err _, w) => inr (cancel_active active w)
  | (Ok decision, w) =>
      let '(active, pending, w) := apply_cancels (sd_cancel_ids decision) pending active w in
      match sd_action decision with
      | Continue =>
          if sd_refill decision then
            match refill_window concurrency total completed (sd_state decision) pending active w with
            | inl (state, pending, active, w) => inl (true, state, pending, active, w)
            | inr w => inr w
            end
          else inl (false, sd_state decision, pending, active, w)
      | action => inr (stop_session active action w)
      end
  end.

Fixpoint session_loop (fuel concurrency total completed : nat) (state : State) (pending : pending_items)
    (active : active_slots) (w : W) : ending W :=
  match fuel with
  | O => OutOfFuel
  | S fuel =>
      match recv w with
      | None => Blocked w
      | Some (o, w) =>
          match remove_active_slot active (so_batch_id o) with
          | None => session_loop fuel concurrency total completed state pending active w
          | Some active =>
              match try_retry o w with
              | (Some new_batch_id, w) =>
                  session_loop fuel concurrency total completed state pending
                    (active ++ [(so_slot_id o, new_batch_id)]) w
              | (None, w) =>
                  match deliver concurrency total (S completed) state pending active o w with
                  | inr w => Returned w
                  | inl (refill_enabled, state, pending, active, w) =>
                      if bool_decide (active = []) && (negb refill_enabled || bool_decide (pending = []))
                      then Returned (exhaust state (S completed) total w)
                      else session_loop fuel concurrency total (S completed) state pending active w
                  end
              end
          end
      end
  end.

Definition run_windowed_session (fuel : nat) (items : list Item) (concurrency : nat) (state : State) (w : W)
    : ending W :=
  let total := length items in
  let concurrency := 1 `max` concurrency in
  let pending := imap (λ index item, (slot_id index item, item)) items in
  match initial_fill concurrency total state pending [] w with
  | inr w => Returned w
  | inl (pending, active, w) =>
      match active with
      | [] => Returned (exhaust state 0 total w)
      | _ => session_loop fuel concurrency total 0 state pending active w
      end
  end.
End session.

(** The windowed session ends: against any driver that keeps its promises
    ([SessionLaws]) the loop never waits with nothing in flight, returns within a
    number of turns fixed by the items and the retry budget, dispatches each item
    once plus its own retries, and fires its completion hooks at most once. *)

From stdpp Require Import base list gmap fin_sets.

Lemma swap_remove_perm {A} (l : list A) i x : l !! i = Some x → l ≡ₚ x :: swap_remove i l.
Proof.
  intros Hi. unfold swap_remove. destruct (last l) as [y|] eqn:Hy.
  2: { apply last_None in Hy as ->. done. }
  apply last_Some in Hy as [l' ->]. rewrite length_app. simpl. rewrite Nat.add_sub.
  destruct (decide (i < length l')) as [Hlt|Hge].
  - rewrite lookup_app_l in Hi by done. rewrite insert_app_l by done.
    rewrite take_app_le by by rewrite length_insert. rewrite take_ge by by rewrite length_insert.
    rewrite insert_take_drop by done.
    rewrite <-(take_drop_middle l' i x Hi) at 1. rewrite <-(assoc_L (++)). simpl.
    rewrite <-Permutation_middle. apply perm_skip, Permutation_app_head. symmetry. apply Permutation_cons_append.
  - assert (i = length l') as -> by (apply lookup_lt_Some in Hi; rewrite length_app in Hi; simpl in Hi; lia).
    rewrite list_lookup_middle in Hi by done. injection Hi as ->.
    rewrite take_insert_ge by lia. rewrite take_app_length. by rewrite Permutation_app_comm.
Qed.

(** ** What a driver promises *)

Class SessionLaws (W Item Raw Final SlotId BatchId State : Type)
    `{WindowedSession W Item Raw Final SlotId BatchId State} := {
  (* batches whose waiter has not sent its outcome yet *)
  inflight : W → gset BatchId;
  (* server-side retries that may still happen *)
  budget : W → nat;
  (* the slot an item belongs to; the batches dispatched for a slot so far, and
     the retries it has left *)
  item_slot : Item → SlotId;
  started : SlotId → W → nat;
  retries : SlotId → W → nat;
  (* completion hooks fired so far *)
  terminals : W → nat;
  same_counts (w w' : W) : Prop :=
    inflight w' = inflight w ∧ budget w' = budget w
    ∧ (∀ k, started k w' = started k w ∧ retries k w' = retries k w) ∧ terminals w' = terminals w;
  (* a started batch is a fresh one, and its waiter will send one outcome *)
  start_ok s i w b w' : start_slot s i w = (Ok b, w') →
    b ∉ inflight w ∧ inflight w' = {[b]} ∪ inflight w ∧ budget w' = budget w
    ∧ (∀ k, started k w' = (if decide (item_slot i = k) then S (started k w) else started k w)
            ∧ retries k w' = retries k w)
    ∧ terminals w' = terminals w;
  start_failed s i w e w' : start_slot s i w = (Err e, w') →
    same_counts w w';
  recv_some w o w' : recv w = Some (o, w') →
    so_batch_id o ∈ inflight w ∧ inflight w' = inflight w ∖ {[so_batch_id o]} ∧ budget w' = budget w
    ∧ (∀ k, started k w' = started k w ∧ retries k w' = retries k w) ∧ terminals w' = terminals w;
  (* the channel stays empty only when no waiter is left *)
  recv_none w : recv w = None → inflight w = ∅;
  callback_counts ev st c t w r w' : call_callback ev st c t w = (r, w') → same_counts w w';
  cancel_active_counts active w : same_counts w (cancel_active active w);
  cancel_selected_spec active ids w active' w' : cancel_selected active ids w = (active', w') →
    active' = filter (λ s, s.1 ∉ ids) active ∧ same_counts w w';
  take_retry_counts s b w r w' : take_retry s b w = (r, w') → same_counts w w';
  note_retry_failed_counts s e w : same_counts w (note_retry_failed s e w);
  (* a retry uses up the budget, and one retry of its slot *)
  retry_budget s b w i w1 b' w2 :
    take_retry s b w = (Some i, w1) → start_slot s i w1 = (Ok b', w2) →
    budget (note_retry s b w2) < budget w ∧ inflight (note_retry s b w2) = inflight w2
    ∧ (∀ k, started k (note_retry s b w2) = started k w2
            ∧ retries k (note_retry s b w2) + (if decide (item_slot i = k) then 1 else 0) ≤ retries k w2)
    ∧ terminals (note_retry s b w2) = terminals w2;
  on_terminal_counts a w :
    inflight (on_terminal a w) = inflight w ∧ budget (on_terminal a w) = budget w
    ∧ (∀ k, started k (on_terminal a w) = started k w) ∧ terminals (on_terminal a w) ≤ S (terminals w);
}.

Lemma imap_snd {A B} (f : nat → A → B) (l : list A) : (imap (λ i x, (f i x, x)) l).*2 = l.
Proof.
  revert f. induction l as [|x l IH]; intros f; [done|]. rewrite imap_cons, fmap_cons. simpl. f_equal.
  apply (IH (f ∘ S)).
Qed.

Section session.
Context `{SessionLaws W Item Raw Final SlotId BatchId State}.

Notation active_slots := (list (SlotId * BatchId)).
Notation pending_items := (list (SlotId * Item)).

(** Every active slot's batch is in flight, and no two share one. *)
Definition live_slots (active : active_slots) (w : W) : Prop :=
  NoDup active.*2 ∧ ∀ b, b ∈ active.*2 → b ∈ inflight w.

(** Turns the loop can still take. *)
Definition turns (pending : pending_items) (w : W) : nat := size (inflight w) + length pending + budget w.

(** The items of a slot that are not started yet. *)
Definition waiting_items (k : SlotId) (items : list Item) : nat := length (filter (λ i, item_slot i = k) items).

(** Dispatches for a slot, the ones that can still happen included. *)
Definition dispatches (k : SlotId) (pending : pending_items) (w : W) : nat :=
  started k w + waiting_items k pending.*2 + retries k w.

Lemma waiting_items_cons k slot i (pending : pending_items) :
  waiting_items k ((slot, i) :: pending).*2
  = (if decide (item_slot i = k) then 1 else 0) + waiting_items k pending.*2.
Proof. unfold waiting_items. rewrite fmap_cons, filter_cons. simpl. by case_decide. Qed.

Lemma waiting_items_filter k (P : SlotId * Item → Prop) `{!∀ x, Decision (P x)} (pending : pending_items) :
  waiting_items k (filter P pending).*2 ≤ waiting_items k pending.*2.
Proof.
  induction pending as [|[s i] pending IH]; [done|]. rewrite filter_cons, (waiting_items_cons k s i pending).
  case_decide; [rewrite waiting_items_cons|]; lia.
Qed.

Lemma same_counts_refl w : same_counts w w.
Proof. done. Qed.

Lemma same_counts_trans w1 w2 w3 : same_counts w1 w2 → same_counts w2 w3 → same_counts w1 w3.
Proof.
  unfold same_counts. intros (-> & -> & Hs1 & ->) (-> & -> & Hs2 & ->). split_and!; [done..| |done].
  intros k. destruct (Hs1 k), (Hs2 k). lia.
Qed.

Lemma live_same active w w' : same_counts w w' → live_slots active w → live_slots active w'.
Proof. unfold live_slots. by intros (-> & _). Qed.

Lemma live_start active s i w b w' :
  start_slot s i w = (Ok b, w') → live_slots active w → live_slots (active ++ [(s, b)]) w'.
Proof.
  intros (Hb & Hin & _)%start_ok [Hnd Hl]. split.
  - rewrite fmap_app. simpl. apply NoDup_app. split_and!; [done| |apply NoDup_singleton].
    intros x Hx%Hl ->%list_elem_of_singleton. done.
  - intros x. rewrite fmap_app, Hin. set_solver.
Qed.

Lemma inflight_start s i w b w' :
  start_slot s i w = (Ok b, w') → size (inflight w') = S (size (inflight w)).
Proof.
  intros (Hb & -> & _)%start_ok. rewrite size_union by set_solver. by rewrite size_singleton.
Qed.

(** Removing the slot of a delivered batch. *)
Lemma remove_active_spec (active active' : active_slots) b :
  remove_active_slot active b = Some active' → ∃ s, active ≡ₚ (s, b) :: active'.
Proof.
  unfold remove_active_slot. intros ([i [s b']] & Hf & [= <-])%bind_Some.
  apply list_find_Some in Hf as (Hi & Heq & _). simpl in Heq. subst b'.
  exists s. by apply swap_remove_perm.
Qed.

Lemma remove_active_none (active : active_slots) b : remove_active_slot active b = None → b ∉ active.*2.
Proof.
  unfold remove_active_slot. destruct (list_find _ active) as [[i t]|] eqn:E; [done|].
  intros _ Hin. apply list_elem_of_fmap in Hin as ([s b'] & -> & Hin).
  apply list_find_None in E. rewrite Forall_forall in E. exact (E _ Hin eq_refl).
Qed.

Lemma live_removed active b active' w w' :
  live_slots active w → remove_active_slot active b = Some active' →
  inflight w' = inflight w ∖ {[b]} → live_slots active' w'.
Proof.
  intros [Hnd Hl] (s & Hp)%remove_active_spec Hin. rewrite Hp in Hnd. simpl in Hnd.
  apply NoDup_cons in Hnd as [Hb Hnd]. split; [done|]. intros x Hx. rewrite Hin.
  apply elem_of_difference. split; [apply Hl; rewrite Hp; set_solver|set_solver].
Qed.

Lemma live_kept active b w w' :
  live_slots active w → b ∉ active.*2 → inflight w' = inflight w ∖ {[b]} → live_slots active w'.
Proof. intros [Hnd Hl] Hb Hin. split; [done|]. intros x Hx. rewrite Hin. set_solver. Qed.

(** What a piece of the loop keeps: the live slots, the window, the turns left
    and the number of dispatches. *)
Record kept (concurrency : nat) (pending : pending_items) (w : W)
    (pending' : pending_items) (active' : active_slots) (w' : W) : Prop := {
  kept_live : live_slots active' w';
  kept_window : length active' ≤ concurrency;
  kept_turns : turns pending' w' ≤ turns pending w;
  kept_dispatches k : dispatches k pending' w' ≤ dispatches k pending w;
  kept_terminals : terminals w' = terminals w;
}.

Lemma same_kept concurrency pending active w w' :
  same_counts w w' → live_slots active w → length active ≤ concurrency → kept concurrency pending w pending active w'.
Proof.
  intros Hs Hl Hc. pose proof (live_same _ _ _ Hs Hl). destruct Hs as (Hi & Hb & Hst & Ht).
  split; [done|done|..|done].
  - unfold turns. rewrite Hi, Hb. lia.
  - intros k. unfold dispatches. destruct (Hst k). lia.
Qed.

Lemma kept_trans concurrency p1 w1 p2 a2 w2 p3 a3 w3 :
  kept concurrency p1 w1 p2 a2 w2 → kept concurrency p2 w2 p3 a3 w3 → kept concurrency p1 w1 p3 a3 w3.
Proof. intros [???? ?] [???? ?]. split; [done|done|lia|intros k; etrans; eauto|congruence]. Qed.

Lemma start_kept concurrency slot item pending active w b w' :
  start_slot slot item w = (Ok b, w') → live_slots active w → length active < concurrency →
  kept concurrency ((slot, item) :: pending) w pending (active ++ [(slot, b)]) w'.
Proof.
  intros Hs Hl Hc. pose proof (inflight_start _ _ _ _ _ Hs) as Hsize.
  pose proof (live_start _ _ _ _ _ _ Hs Hl). apply start_ok in Hs as (_ & _ & Hb & Hst & Ht).
  split; [done| | | |done].
  - rewrite length_app. simpl. lia.
  - unfold turns. rewrite Hsize, Hb. simpl. lia.
  - intros k. unfold dispatches. rewrite waiting_items_cons. destruct (Hst k) as [-> ->]. case_decide; lia.
Qed.

Lemma failed_kept concurrency slot item pending active w e w' :
  start_slot slot item w = (Err e, w') → live_slots active w → length active ≤ concurrency →
  kept concurrency ((slot, item) :: pending) w pending active w'.
Proof.
  intros (Hi & Hb & Hst & Ht)%start_failed [Hnd Hl] Hc.
  split; [by split; [|by rewrite Hi]|done| | |done].
  - unfold turns. rewrite Hi, Hb. simpl. lia.
  - intros k. unfold dispatches. rewrite waiting_items_cons. destruct (Hst k) as [-> ->]. lia.
Qed.

(** Ending a session: the terminal hook fires once at most. *)
Definition ended (pending : pending_items) (w w' : W) : Prop :=
  (∀ k, started k w' ≤ dispatches k pending w) ∧ terminals w' ≤ S (terminals w).

Lemma ended_kept concurrency p1 w1 p2 a2 w2 w3 :
  kept concurrency p1 w1 p2 a2 w2 → ended p2 w2 w3 → ended p1 w1 w3.
Proof. intros [???? ?] [? ?]. split; [intros k; etrans; eauto|lia]. Qed.

Lemma ended_same pending w w' : same_counts w w' → ended pending w w'.
Proof.
  intros (_ & _ & Hst & Ht). split; [|lia]. intros k. unfold dispatches. destruct (Hst k). lia.
Qed.

Lemma stop_session_ended pending active a w w1 : same_counts w w1 → ended pending w (stop_session active a w1).
Proof.
  intros (_ & _ & Hst & Ht). unfold stop_session. pose proof (cancel_active_counts active w1) as (_ & _ & H3 & H4).
  destruct (on_terminal_counts a (cancel_active active w1)) as (_ & _ & H5 & H6).
  split; [|lia]. intros k. unfold dispatches. rewrite H5. destruct (H3 k), (Hst k). lia.
Qed.

Lemma exhaust_ended pending st c t w : ended pending w (exhaust st c t w).
Proof.
  unfold exhaust. destruct (call_callback SlotExhausted st c t w) as [[d|e] w1] eqn:E;
    apply callback_counts in E; [|by apply ended_same].
  destruct E as (_ & _ & Hst & Ht). destruct (on_terminal_counts (sd_action d) w1) as (_ & _ & H5 & H6).
  split; [|lia]. intros k. unfold dispatches. rewrite H5. destruct (Hst k). lia.
Qed.

Lemma initial_fill_spec concurrency total st pending : ∀ active w,
  live_slots active w → length active ≤ concurrency →
  match initial_fill concurrency total st pending active w with
  | inl (pending', active', w') =>
      kept concurrency pending w pending' active' w' ∧ (length active' < concurrency → pending' = [])
  | inr w' => ended pending w w'
  end.
Proof.
  induction pending as [|[slot item] pending IH]; intros active w Hl Hc; simpl.
  { split; [by apply same_kept|done]. }
  case_decide as Hlt; [|split; [by apply same_kept|done]].
  destruct (start_slot slot item w) as [[b|e] w1] eqn:Es.
  - pose proof (start_kept concurrency slot item pending active w b w1 Es Hl Hlt) as Hk.
    specialize (IH (active ++ [(slot, b)]) w1 (kept_live _ _ _ _ _ _ Hk) (kept_window _ _ _ _ _ _ Hk)).
    destruct (initial_fill _ _ _ _ _ _) as [[[p a] w2]|w2].
    + destruct IH as [Hk2 Hp]. split; [by eapply kept_trans|done].
    + by eapply ended_kept.
  - pose proof (failed_kept concurrency slot item pending active w e w1 Es Hl Hc) as Hk.
    destruct (call_callback _ _ _ _ _) as [r w2] eqn:Ec. apply callback_counts in Ec.
    eapply ended_kept; [exact Hk|]. by apply stop_session_ended.
Qed.

Lemma refill_window_spec concurrency total completed pending : ∀ st active w,
  live_slots active w → length active ≤ concurrency →
  match refill_window concurrency total completed st pending active w with
  | inl (_, pending', active', w') =>
      kept concurrency pending w pending' active' w' ∧ (length active' < concurrency → pending' = [])
  | inr w' => ended pending w w'
  end.
Proof.
  induction pending as [|[slot item] pending IH]; intros st active w Hl Hc; simpl.
  { split; [by apply same_kept|done]. }
  case_decide as Hlt; [|split; [by apply same_kept|done]].
  destruct (start_slot slot item w) as [[b|e] w1] eqn:Es.
  - pose proof (start_kept concurrency slot item pending active w b w1 Es Hl Hlt) as Hk.
    specialize (IH st (active ++ [(slot, b)]) w1 (kept_live _ _ _ _ _ _ Hk) (kept_window _ _ _ _ _ _ Hk)).
    destruct (refill_window _ _ _ _ _ _ _) as [[[[s' p] a] w2]|w2].
    + destruct IH as [Hk2 Hp]. split; [by eapply kept_trans|done].
    + by eapply ended_kept.
  - pose proof (failed_kept concurrency slot item pending active w e w1 Es Hl Hc) as Hk.
    destruct (call_callback _ _ _ _ _) as [[d|e'] w2] eqn:Ec; apply callback_counts in Ec.
    2: { eapply ended_kept; [exact Hk|]. apply ended_same. eapply same_counts_trans; [exact Ec|].
         apply cancel_active_counts. }
    destruct (sd_action d); [|by eapply ended_kept, stop_session_ended..].
    assert (kept concurrency pending w1 pending active w2) as Hk2.
    { apply same_kept; [done|apply (kept_live _ _ _ _ _ _ Hk)|done]. }
    specialize (IH (sd_state d) active w2 (kept_live _ _ _ _ _ _ Hk2) Hc).
    destruct (refill_window _ _ _ _ _ _ _) as [[[[s' p] a] w3]|w3].
    + destruct IH as [Hk3 Hp]. split; [|done]. by eapply kept_trans; [|eapply kept_trans].
    + by eapply ended_kept; [|eapply ended_kept].
Qed.

Lemma live_filter active (P : SlotId * BatchId → Prop) `{!∀ x, Decision (P x)} w :
  live_slots active w → live_slots (filter P active) w.
Proof.
  intros [Hnd Hl]. split; [by apply NoDup_fmap_filter|].
  intros b (x & -> & Hx)%list_elem_of_fmap. apply Hl, list_elem_of_fmap. exists x. split; [done|].
  by apply list_elem_of_filter in Hx as [_ ?].
Qed.

Lemma cancels_kept concurrency ids pending active w :
  live_slots active w → length active ≤ concurrency →
  let '(active', pending', w') := apply_cancels ids pending active w in
  kept concurrency pending w pending' active' w'.
Proof.
  intros Hl Hc. unfold apply_cancels. destruct ids as [|id ids]; [by apply same_kept|].
  cbv zeta. set (cs := list_to_set (id :: ids) : gset SlotId).
  destruct (cancel_selected active cs w) as [active1 w2] eqn:Ecs.
  apply cancel_selected_spec in Ecs as [-> Hs].
  pose proof (length_filter (λ p : SlotId * Item, p.1 ∉ cs) pending) as Hlp.
  pose proof (length_filter (λ s : SlotId * BatchId, s.1 ∉ cs) active) as Hla.
  pose proof (live_same _ _ _ Hs (live_filter active (λ s, s.1 ∉ cs) w Hl)) as Hlf.
  destruct Hs as (Hi & Hb & Hst & Ht). split; [done|lia| | |done].
  - unfold turns. rewrite Hi, Hb. lia.
  - intros k. unfold dispatches. destruct (Hst k) as [-> ->].
    pose proof (waiting_items_filter k (λ p, p.1 ∉ cs) pending). lia.
Qed.

Lemma deliver_spec concurrency total completed st pending active o w :
  live_slots active w → length active ≤ concurrency →
  match deliver concurrency total completed st pending active o w with
  | inl (refill, _, pending', active', w') =>
      kept concurrency pending w pending' active' w'
      ∧ (refill = true → length active' < concurrency → pending' = [])
  | inr w' => ended pending w w'
  end.
Proof.
  intros Hl Hc. unfold deliver.
  destruct (call_callback _ _ _ _ _) as [[d|e] w1] eqn:Ec; apply callback_counts in Ec.
  2: { apply ended_same. eapply same_counts_trans; [exact Ec|]. apply cancel_active_counts. }
  pose proof (cancels_kept concurrency (sd_cancel_ids d) pending active w1 (live_same _ _ _ Ec Hl) Hc) as Hk.
  destruct (apply_cancels _ _ _ _) as [[active1 pending1] w2].
  pose proof (kept_trans _ _ _ _ _ _ _ _ _ (same_kept concurrency pending active _ _ Ec Hl Hc) Hk) as Hk1.
  clear Hk. rename Hk1 into Hk.
  destruct (sd_action d); [|by eapply ended_kept, stop_session_ended..].
  destruct (sd_refill d); [|by split].
  pose proof (refill_window_spec concurrency total completed pending1 (sd_state d) active1 w2
    (kept_live _ _ _ _ _ _ Hk) (kept_window _ _ _ _ _ _ Hk)) as Hr.
  destruct (refill_window _ _ _ _ _ _ _) as [[[[s' p] a] w3]|w3].
  - destruct Hr as [Hk2 Hp]. split; [by eapply kept_trans|done].
  - by eapply ended_kept.
Qed.

Lemma retry_spec concurrency pending active o w :
  live_slots active w → length active < concurrency →
  match try_retry o w with
  | (Some b, w') => kept concurrency pending w pending (active ++ [(so_slot_id o, b)]) w'
  | (None, w') => kept concurrency pending w pending active w'
  end.
Proof.
  intros Hl Hc. unfold try_retry. destruct (is_timeout _); [|apply same_kept; done || lia].
  destruct (take_retry _ _ _) as [[item|] w1] eqn:Et; pose proof (take_retry_counts _ _ _ _ _ Et) as Hs;
    [|apply same_kept; done || lia].
  destruct (start_slot _ _ _) as [[b|e] w2] eqn:Es.
  - destruct (retry_budget _ _ _ _ _ _ _ Et Es) as (Hb & Hi & Hst & Ht).
    pose proof (live_start _ _ _ _ _ _ Es (live_same _ _ _ Hs Hl)) as Hl2.
    pose proof (inflight_start _ _ _ _ _ Es) as Hsize. apply start_ok in Es as (_ & _ & Hb2 & Hst2 & Ht2).
    destruct Hs as (Hi1 & Hb1 & Hst1 & Ht1). split.
    + unfold live_slots in *. by rewrite Hi.
    + rewrite length_app. simpl. lia.
    + unfold turns. rewrite Hi, Hsize, Hi1. lia.
    + intros k. unfold dispatches. destruct (Hst k), (Hst2 k), (Hst1 k). case_decide; lia.
    + congruence.
  - apply start_failed in Es. apply same_kept; [|done|lia].
    eapply same_counts_trans; [exact Hs|]. eapply same_counts_trans; [exact Es|]. apply note_retry_failed_counts.
Qed.

(** A turn of the loop takes one outcome off the channel. *)
Lemma recv_turn pending w o w1 :
  recv w = Some (o, w1) →
  inflight w1 = inflight w ∖ {[so_batch_id o]} ∧ S (turns pending w1) = turns pending w
  ∧ (∀ k, dispatches k pending w1 = dispatches k pending w) ∧ terminals w1 = terminals w.
Proof.
  intros (Hin & Hi & Hb & Hst & Ht)%recv_some. split_and!; [done| | |done].
  - unfold turns. rewrite Hi, Hb, size_difference, size_singleton by set_solver.
    assert (size (inflight w) ≠ 0) by (rewrite size_non_empty_iff; set_solver). lia.
  - intros k. unfold dispatches. by destruct (Hst k) as [-> ->].
Qed.

Lemma session_loop_spec concurrency total : 1 ≤ concurrency → ∀ fuel completed st pending active w,
  live_slots active w → length active ≤ concurrency → active ≠ [] → turns pending w < fuel →
  ∃ w', session_loop fuel concurrency total completed st pending active w = Returned w' ∧ ended pending w w'.
Proof.
  intros Hconc. induction fuel as [|fuel IH]; intros completed st pending active w Hl Hc Hne Hf; [lia|].
  simpl. destruct (recv w) as [[o w1]|] eqn:Er.
  2: { exfalso. apply recv_none in Er. destruct active as [|[s b] l]; [done|].
       destruct Hl as [_ Hl]. specialize (Hl b). rewrite Er in Hl. set_solver. }
  destruct (recv_turn pending _ _ _ Er) as (Hi1 & Ht1 & Hd1 & Htm1).
  assert (∀ w', ended pending w1 w' → ended pending w w') as Hend.
  { intros w' [Hd' ?]. split; [|by rewrite <-Htm1]. intros k. rewrite <-Hd1. apply Hd'. }
  destruct (remove_active_slot active (so_batch_id o)) as [active1|] eqn:Erm.
  2: { destruct (IH completed st pending active w1) as (w' & -> & He); try done; [|lia|by exists w'; auto].
       eapply live_kept; [done| |done]. by apply remove_active_none. }
  pose proof (live_removed _ _ _ _ _ Hl Erm Hi1) as Hl1.
  assert (length active = S (length active1)) as Hlen.
  { apply remove_active_spec in Erm as (s & ->). done. }
  pose proof (retry_spec concurrency pending active1 o w1 Hl1 ltac:(lia)) as Hretry.
  destruct (try_retry o w1) as [[b|] w2].
  { destruct (IH completed st pending (active1 ++ [(so_slot_id o, b)]) w2) as (w' & -> & He).
    - apply (kept_live _ _ _ _ _ _ Hretry).
    - apply (kept_window _ _ _ _ _ _ Hretry).
    - by intros [_ ?]%app_nil.
    - pose proof (kept_turns _ _ _ _ _ _ Hretry). lia.
    - exists w'. split; [done|]. apply Hend. by eapply ended_kept. }
  pose proof (deliver_spec concurrency total (S completed) st pending active1 o w2
    (kept_live _ _ _ _ _ _ Hretry) (kept_window _ _ _ _ _ _ Hretry)) as Hdel.
  destruct (deliver _ _ _ _ _ _ _ _) as [[[[[refill st'] pending'] active'] w3]|w3].
  2: { exists w3. split; [done|]. apply Hend. by eapply ended_kept. }
  destruct Hdel as [Hk Hp]. pose proof (kept_trans _ _ _ _ _ _ _ _ _ Hretry Hk) as Hk3.
  destruct (bool_decide (active' = []) && (negb refill || bool_decide (pending' = []))) eqn:Eb.
  { eexists. split; [done|]. apply Hend. eapply ended_kept; [exact Hk3|]. apply exhaust_ended. }
  destruct (IH (S completed) st' pending' active' w3) as (w' & -> & He).
  - apply (kept_live _ _ _ _ _ _ Hk3).
  - apply (kept_window _ _ _ _ _ _ Hk3).
  - intros ->. rewrite bool_decide_eq_true_2 in Eb by done. simpl in Eb.
    apply orb_false_iff in Eb as [Er'%negb_false_iff Ep%bool_decide_eq_false]. apply Ep, Hp; [done|simpl; lia].
  - pose proof (kept_turns _ _ _ _ _ _ Hk3). lia.
  - exists w'. split; [done|]. apply Hend. by eapply ended_kept.
Qed.

(** A detached session always ends: whatever the plugin's callback answers,
    however batches succeed, time out or fail to start, the loop never waits with
    nothing in flight, and returns within a number of turns fixed by the batches
    already in flight, the items and the retry budget. By then it has dispatched
    for each slot at most one batch per item of the slot plus the slot's retries,
    and fired its completion hooks at most once. *)
Theorem windowed_session_returns fuel items concurrency st w :
  size (inflight w) + length items + budget w < fuel →
  ∃ w', run_windowed_session fuel items concurrency st w = Returned w'
    ∧ (∀ k, started k w' ≤ started k w + waiting_items k items + retries k w) ∧ terminals w' ≤ S (terminals w).
Proof.
  intros Hf. unfold run_windowed_session.
  set (pending := imap (λ index item, (slot_id index item, item)) items).
  assert (length pending = length items) as Hlen by apply length_imap.
  assert (pending.*2 = items) as Hit by apply imap_snd.
  pose proof (initial_fill_spec (1 `max` concurrency) (length items) st pending [] w) as Hfill.
  destruct (initial_fill _ _ _ _ _ _) as [[[p a] w1]|w1].
  - destruct Hfill as [Hk Hp]; [split; [constructor|set_solver]|simpl; lia|].
    assert (∃ w', match a with
      | [] => Returned (exhaust st 0 (length items) w1)
      | _ :: _ => session_loop fuel (1 `max` concurrency) (length items) 0 st p a w1
      end = Returned w' ∧ ended p w1 w') as (w' & -> & He).
    { destruct a as [|x a]; [eexists; split; [done|apply exhaust_ended]|].
      apply session_loop_spec; [lia|apply (kept_live _ _ _ _ _ _ Hk)|apply (kept_window _ _ _ _ _ _ Hk)|done|].
      pose proof (kept_turns _ _ _ _ _ _ Hk). unfold turns in *. lia. }
    exists w'. split; [done|]. destruct (ended_kept _ _ _ _ _ _ _ Hk He) as [Hd Ht].
    unfold dispatches in Hd. by rewrite Hit in Hd.
  - destruct Hfill as [Hd Ht]; [split; [constructor|set_solver]|simpl; lia|].
    exists w1. split; [done|]. unfold dispatches in Hd. by rewrite Hit in Hd.
Qed.
End session.
