(* ===== verification/EvaluateSession.v ===== *)
(** * EvaluateSession: the driver of a detached evaluate session

    packages/server/src/services/evaluate_batch/detached.rs: the evaluate domain
    of the loop of [Windowed], with the server-side retry of timed-out cases and
    the completion hooks. It keeps the promises of [SessionLaws], so that every
    evaluate session ends. *)

From stdpp Require Import base list gmap strings.
From S2P Require Import Prelude.
From S2P Require Import Text.
From S2P Require Import Float.
From S2P Require Import Verdict.
From S2P Require Import Host.
From S2P Require Import Judging.
From S2P Require Import Windowed.

Definition MAX_DETACHED_OP_RETRIES : nat := 2.
Definition INLINE_TEST_INPUT_BLOB_THRESHOLD_BYTES : Z := 1048576.

(** [str::len] counts bytes. *)
Definition body_cheap_to_retain (body : TestCaseBodyRef) : bool :=
  match body with
  | Blob _ | Missing => true
  | Inline text => bool_decide (Z.of_nat (length (encode text)) ≤ INLINE_TEST_INPUT_BLOB_THRESHOLD_BYTES)%Z
  end.

Definition test_case_cheap_to_retain (tc : StartEvaluateCaseInput) : bool :=
  body_cheap_to_retain (ec_input tc) && body_cheap_to_retain (ec_expected_output tc).

Definition detached_evaluate_completion (completion : option DetachedSubmissionCompletion)
    (action : DetachedEvaluateCallbackAction) : option DetachedSubmissionCompletion :=
  match action with
  | ActFinish | ActCancel =>
      match completion with
      | Some c => if dc_fire_after_judging c then Some c else None
      | None => None
      end
  | ActContinue => None
  end.

(** What the driver uses of the server: dispatching a batch and waiting for it,
    the plugin's callback, cancellation and the hooks. *)
Class EvaluateHost (X : Type) := {
  start_evaluate_batch : StartEvaluateBatchInput → X → result ustring ustring * X;
  next_outcome : X → option (SlotOutcome Z ustring TestCaseVerdict * X);
  call_detached_evaluate_callback :
    DetachedEvaluateCallbackInput → X → result ustring DetachedEvaluateCallbackOutput * X;
  set_evaluate_cancel_op_keys : ustring → option (gset Z) → X → X;
  cancel_evaluate_batch : ustring → X → X;
  ops_registry_remove_batch : ustring → X → X;
  fire_after_judging_hooks : DetachedSubmissionCompletion → X → X;
}.

Record EvaluateDriver (X : Type) := {
  dr_session_id : ustring;
  dr_problem_type : ustring;
  dr_submission_completion : option DetachedSubmissionCompletion;
  dr_retry_pool : gmap Z StartEvaluateCaseInput;
  dr_op_retries : gmap Z nat;
  dr_host : X;
}.
Arguments dr_session_id {X} _.
Arguments dr_problem_type {X} _.
Arguments dr_submission_completion {X} _.
Arguments dr_retry_pool {X} _.
Arguments dr_op_retries {X} _.
Arguments dr_host {X} _.

Section driver.
Context {X : Type} `{EvaluateHost X}.

Definition with_host (x : X) (d : EvaluateDriver X) : EvaluateDriver X := {|
  dr_session_id := dr_session_id d; dr_problem_type := dr_problem_type d;
  dr_submission_completion := dr_submission_completion d; dr_retry_pool := dr_retry_pool d;
  dr_op_retries := dr_op_retries d; dr_host := x;
|}.

Definition attempts (d : EvaluateDriver X) (slot : Z) : nat := default 0 (dr_op_retries d !! slot).

Definition driver_start (slot : Z) (item : StartEvaluateCaseInput) (d : EvaluateDriver X)
    : result ustring ustring * EvaluateDriver X :=
  let '(r, x) := start_evaluate_batch
    {| eb_problem_type := dr_problem_type d; eb_test_cases := [item] |} (dr_host d) in
  (r, with_host x d).

Definition driver_recv (d : EvaluateDriver X)
    : option (SlotOutcome Z ustring TestCaseVerdict * EvaluateDriver X) :=
  match next_outcome (dr_host d) with
  | Some (o, x) => Some (o, with_host x d)
  | None => None
  end.

Definition action_of (a : DetachedEvaluateCallbackAction) : SessionAction :=
  match a with ActContinue => Continue | ActFinish => Finish | ActCancel => Cancel end.

Definition callback_action (a : SessionAction) : DetachedEvaluateCallbackAction :=
  match a with Continue => ActContinue | Finish => ActFinish | Cancel => ActCancel end.

Definition driver_callback (event : SlotEvent Z TestCaseVerdict) (state : ustring) (completed total : nat)
    (d : EvaluateDriver X) : result ustring (SessionDecision Z ustring) * EvaluateDriver X :=
  let cb_event :=
    match event with
    | SlotResult _ result => EvResult result
    | SlotTimeout message => EvTimeout message
    | SlotExhausted => EvExhausted
    end in
  let '(r, x) := call_detached_evaluate_callback
    {| ci_session_id := dr_session_id d; ci_state := state; ci_event := cb_event;
       ci_completed := completed; ci_total := total |} (dr_host d) in
  (match r with
   | Ok output => Ok {| sd_state := out_state output; sd_action := action_of (out_action output);
                        sd_refill := out_refill output; sd_cancel_ids := out_cancel_test_case_ids output |}
   | Err e => Err e
   end, with_host x d).

(** [cancel_active_evaluate_slots]. *)
Definition driver_cancel_active (active : list (Z * ustring)) (d : EvaluateDriver X) : EvaluateDriver X :=
  with_host (foldl (λ x s, cancel_evaluate_batch s.2 (set_evaluate_cancel_op_keys s.2 None x))
               (dr_host d) active) d.

(** [cancel_evaluate_test_case_ids]: first the cancel keys, then the batches. *)
Definition driver_cancel_selected (active : list (Z * ustring)) (ids : gset Z) (d : EvaluateDriver X)
    : list (Z * ustring) * EvaluateDriver X :=
  let cancelled := filter (λ s, s.1 ∈ ids) active in
  let x := foldl (λ x s, set_evaluate_cancel_op_keys s.2 (Some ids) x) (dr_host d) cancelled in
  let x := foldl (λ x s, cancel_evaluate_batch s.2 x) x cancelled in
  (filter (λ s, s.1 ∉ ids) active, with_host x d).

Definition driver_take_retry (slot : Z) (batch : ustring) (d : EvaluateDriver X)
    : option StartEvaluateCaseInput * EvaluateDriver X :=
  (if decide (attempts d slot < MAX_DETACHED_OP_RETRIES) then dr_retry_pool d !! slot else None, d).

Definition driver_note_retry (slot : Z) (old_batch_id : ustring) (d : EvaluateDriver X) : EvaluateDriver X := {|
  dr_session_id := dr_session_id d; dr_problem_type := dr_problem_type d;
  dr_submission_completion := dr_submission_completion d; dr_retry_pool := dr_retry_pool d;
  dr_op_retries := <[slot := S (attempts d slot)]> (dr_op_retries d);
  dr_host := ops_registry_remove_batch old_batch_id (dr_host d);
|}.

Definition driver_on_terminal (action : SessionAction) (d : EvaluateDriver X) : EvaluateDriver X :=
  match detached_evaluate_completion (dr_submission_completion d) (callback_action action) with
  | Some completion => with_host (fire_after_judging_hooks completion (dr_host d)) d
  | None => d
  end.

#[export] Instance EvaluateDriver_session :
  WindowedSession (EvaluateDriver X) StartEvaluateCaseInput TestCaseVerdict TestCaseVerdict Z ustring ustring := {|
  slot_id _ item := ec_test_case_id item;
  start_slot := driver_start;
  recv := driver_recv;
  decode raw := Ok raw;
  timeout_message slot := u "Test case " ++ show slot ++ u " timed out";
  call_callback := driver_callback;
  cancel_active := driver_cancel_active;
  cancel_selected := driver_cancel_selected;
  take_retry := driver_take_retry;
  note_retry := driver_note_retry;
  note_retry_failed _ _ d := d;
  on_terminal := driver_on_terminal;
|}.

(** [run_detached_windowed_evaluate]. *)
Definition run_detached_windowed_evaluate (fuel : nat) (session_id : ustring)
    (input : StartDetachedWindowedEvaluateInput) (x : X) : ending (EvaluateDriver X) :=
  let test_cases := eb_test_cases (de_batch input) in
  run_windowed_session fuel test_cases (de_concurrency input) (de_state input)
    {| dr_session_id := session_id;
       dr_problem_type := eb_problem_type (de_batch input);
       dr_submission_completion := de_submission_completion input;
       dr_retry_pool := list_to_map (reverse ((λ tc, (ec_test_case_id tc, tc)) <$>
                          filter (λ tc, test_case_cheap_to_retain tc = true) test_cases));
       dr_op_retries := ∅; dr_host := x |}.
End driver.

(** ** The driver keeps the promises *)

(** How often a case is among some. *)
Definition copies (c : Z) (cases : list StartEvaluateCaseInput) : nat :=
  length (filter (λ tc, ec_test_case_id tc = c) cases).

(** What the server promises: a batch id is fresh, and the waiter of a batch
    delivers one outcome whatever else happens to the batch. *)
Class EvaluateHostLaws (X : Type) `{EvaluateHost X} := {
  waiting : X → gset ustring;
  (* how often a case was dispatched so far *)
  dispatched : Z → X → nat;
  hooks_fired : X → nat;
  unchanged (x x' : X) : Prop :=
    waiting x' = waiting x ∧ (∀ c, dispatched c x' = dispatched c x) ∧ hooks_fired x' = hooks_fired x;
  start_batch_ok b x id x' : start_evaluate_batch b x = (Ok id, x') →
    id ∉ waiting x ∧ waiting x' = {[id]} ∪ waiting x
    ∧ (∀ c, dispatched c x' = dispatched c x + copies c (eb_test_cases b))
    ∧ hooks_fired x' = hooks_fired x;
  start_batch_err b x e x' : start_evaluate_batch b x = (Err e, x') → unchanged x x';
  outcome_some x o x' : next_outcome x = Some (o, x') →
    so_batch_id o ∈ waiting x ∧ waiting x' = waiting x ∖ {[so_batch_id o]}
    ∧ (∀ c, dispatched c x' = dispatched c x) ∧ hooks_fired x' = hooks_fired x;
  outcome_none x : next_outcome x = None → waiting x = ∅;
  callback_unchanged i x r x' : call_detached_evaluate_callback i x = (r, x') → unchanged x x';
  keys_unchanged b ids x : unchanged x (set_evaluate_cancel_op_keys b ids x);
  cancel_unchanged b x : unchanged x (cancel_evaluate_batch b x);
  registry_unchanged b x : unchanged x (ops_registry_remove_batch b x);
  hooks_once c x : waiting (fire_after_judging_hooks c x) = waiting x
    ∧ (∀ case, dispatched case (fire_after_judging_hooks c x) = dispatched case x)
    ∧ hooks_fired (fire_after_judging_hooks c x) = S (hooks_fired x);
}.

Lemma sum_list_with_le {A} (f g : A → nat) l :
  (∀ y, y ∈ l → g y ≤ f y) → sum_list_with g l ≤ sum_list_with f l.
Proof.
  induction l as [|y l IH]; intros Hle; simpl; [lia|]. pose proof (Hle y ltac:(set_solver)).
  assert (sum_list_with g l ≤ sum_list_with f l); [|lia]. apply IH. intros z Hz. apply Hle. set_solver.
Qed.

Lemma sum_list_with_lt {A} (f g : A → nat) l x :
  (∀ y, y ∈ l → g y ≤ f y) → x ∈ l → g x < f x → sum_list_with g l < sum_list_with f l.
Proof.
  intros Hle (l1 & l2 & ->)%list_elem_of_split Hlt. rewrite !sum_list_with_app. simpl.
  pose proof (sum_list_with_le f g l1 ltac:(set_solver)). pose proof (sum_list_with_le f g l2 ltac:(set_solver)). lia.
Qed.

(** A map made of a list holds no more than the list. *)
Lemma sum_list_to_map_le {A} (f : Z * A → nat) (l : list (Z * A)) :
  sum_list_with f (map_to_list (list_to_map l : gmap Z A)) ≤ sum_list_with f l.
Proof.
  assert (∀ (m : gmap Z A) k, sum_list_with f (map_to_list (delete k m)) ≤ sum_list_with f (map_to_list m)) as Hdel.
  { intros m k. destruct (m !! k) as [v|] eqn:E; [|by rewrite delete_id].
    rewrite <-(insert_delete_id m k v E) at 2. rewrite map_to_list_insert by apply lookup_delete_eq. simpl. lia. }
  induction l as [|[k v] l IH]; simpl; [by rewrite map_to_list_empty|]. rewrite <-insert_delete_eq.
  rewrite map_to_list_insert by apply lookup_delete_eq. simpl. specialize (Hdel (list_to_map l) k). lia.
Qed.

Section laws.
Context {X : Type} `{EvaluateHostLaws X}.

(** Retries left of a case, and over all the cases kept for it. *)
Definition case_retries (c : Z) (d : EvaluateDriver X) : nat :=
  sum_list_with (λ kv, if decide (ec_test_case_id kv.2 = c) then MAX_DETACHED_OP_RETRIES - attempts d kv.1 else 0)
    (map_to_list (dr_retry_pool d)).

Definition retries_left (d : EvaluateDriver X) : nat :=
  sum_list_with (λ kv, MAX_DETACHED_OP_RETRIES - attempts d kv.1) (map_to_list (dr_retry_pool d)).

Lemma unchanged_trans (x y z : X) : unchanged x y → unchanged y z → unchanged x z.
Proof. intros (H1 & H2 & H3) (H4 & H5 & H6). split_and!; [congruence| |congruence]. intros c. by rewrite H5. Qed.

Lemma foldl_unchanged {A} (f : X → A → X) l x :
  (∀ x a, unchanged x (f x a)) → unchanged x (foldl f x l).
Proof.
  intros Hf. revert x. induction l as [|a l IH]; intros x; simpl; [done|]. eapply unchanged_trans; [apply Hf|apply IH].
Qed.

Lemma attempts_noted slot batch (d : EvaluateDriver X) s :
  attempts (driver_note_retry slot batch d) s = if decide (s = slot) then S (attempts d slot) else attempts d s.
Proof.
  unfold attempts at 1, driver_note_retry. simpl.
  case_decide as Hs; [by rewrite Hs, lookup_insert_eq|by rewrite lookup_insert_ne].
Qed.

(** A retry of a case uses up one of the retries of the slot it was kept for. *)
Lemma note_retry_lt slot batch (d : EvaluateDriver X) item :
  attempts d slot < MAX_DETACHED_OP_RETRIES → dr_retry_pool d !! slot = Some item →
  retries_left (driver_note_retry slot batch d) < retries_left d
  ∧ ∀ c, case_retries c (driver_note_retry slot batch d)
           + (if decide (ec_test_case_id item = c) then 1 else 0) ≤ case_retries c d.
Proof.
  intros Ha Hp%elem_of_map_to_list. unfold retries_left, case_retries. simpl. split; [|intros c; case_decide as Hc].
  - apply (sum_list_with_lt _ _ _ (slot, item)); [|done|]; simpl.
    + intros [s i] _. simpl. rewrite attempts_noted. case_decide; [subst|]; lia.
    + rewrite attempts_noted, decide_True by done. lia.
  - rewrite Nat.add_1_r. apply (sum_list_with_lt _ _ _ (slot, item)); [|done|]; simpl.
    + intros [s i] _. simpl. rewrite attempts_noted. repeat case_decide; subst; lia.
    + rewrite attempts_noted, !decide_True by done. lia.
  - rewrite Nat.add_0_r. apply sum_list_with_le. intros [s i] _. simpl. rewrite attempts_noted.
    repeat case_decide; subst; lia.
Qed.

#[export] Instance EvaluateDriver_laws :
  SessionLaws (EvaluateDriver X) StartEvaluateCaseInput TestCaseVerdict TestCaseVerdict Z ustring ustring.
Proof.
  refine {| inflight d := waiting (dr_host d); budget := retries_left; item_slot := ec_test_case_id;
            started c d := dispatched c (dr_host d); retries := case_retries;
            terminals d := hooks_fired (dr_host d) |}; simpl.
  - intros s i w b w'. unfold driver_start. destruct (start_evaluate_batch _ _) as [r x] eqn:E.
    intros [= -> <-]. apply start_batch_ok in E as (? & ? & Hd & ?). split_and!; try done.
    intros c. simpl. rewrite Hd. unfold copies. simpl. rewrite filter_cons, filter_nil.
    case_decide; simpl; split; done || lia.
  - intros s i w e w'. unfold driver_start. destruct (start_evaluate_batch _ _) as [r x] eqn:E.
    intros [= -> <-]. apply start_batch_err in E as (? & ? & ?). by split_and!.
  - intros w o w'. unfold driver_recv. destruct (next_outcome _) as [[o' x]|] eqn:E; [|done].
    intros [= -> <-]. apply outcome_some in E as (? & ? & ? & ?). by split_and!.
  - intros w. unfold driver_recv. destruct (next_outcome _) as [[o' x]|] eqn:E; [done|].
    intros _. by apply outcome_none.
  - intros ev st c t w r w'. unfold driver_callback.
    destruct (call_detached_evaluate_callback _ _) as [r' x] eqn:E.
    intros [= _ <-]. apply callback_unchanged in E as (? & ? & ?). by split_and!.
  - intros active w. unfold driver_cancel_active. simpl.
    destruct (foldl_unchanged (λ x s, cancel_evaluate_batch s.2 (set_evaluate_cancel_op_keys s.2 None x))
      active (dr_host w)) as (? & ? & ?); [|by split_and!].
    intros x a. eapply unchanged_trans; [apply keys_unchanged|apply cancel_unchanged].
  - intros active ids w active' w'. unfold driver_cancel_selected. intros [= <- <-]. split; [done|]. simpl.
    set (xs := filter _ active).
    destruct (unchanged_trans _ _ _
      (foldl_unchanged (λ x s, set_evaluate_cancel_op_keys s.2 (Some ids) x) xs (dr_host w)
         (λ x a, keys_unchanged a.2 (Some ids) x))
      (foldl_unchanged (λ x s, cancel_evaluate_batch s.2 x) xs _ (λ x a, cancel_unchanged a.2 x)))
      as (? & ? & ?). by split_and!.
  - by intros s b w r w' [= _ <-].
  - done.
  - intros s b w i w1 b' w2. unfold driver_take_retry. case_decide as Ha; [|done].
    intros [= Hi <-]. unfold driver_start. destruct (start_evaluate_batch _ _) as [r x] eqn:E.
    intros [= _ <-]. simpl. destruct (registry_unchanged b x) as (? & ? & ?).
    destruct (note_retry_lt s b (with_host x w) i Ha Hi) as [Hlt Hc].
    split_and!; [done|done| |done]. intros c. split; [done|apply Hc].
  - intros a w. unfold driver_on_terminal.
    destruct (detached_evaluate_completion _ _) as [c|]; simpl; [|by repeat split; lia].
    destruct (hooks_once c (dr_host w)) as (Hw & Hd & Hh). split_and!; [done|done|done|simpl; lia].
Defined.

Lemma retries_left_bound (d : EvaluateDriver X) :
  retries_left d ≤ MAX_DETACHED_OP_RETRIES * size (dr_retry_pool d).
Proof.
  unfold retries_left. rewrite <-length_map_to_list.
  induction (map_to_list (dr_retry_pool d)) as [|kv l IH]; simpl; [done|]. unfold MAX_DETACHED_OP_RETRIES in *. lia.
Qed.

(** A session starts with [MAX_DETACHED_OP_RETRIES] retries for each of its cases. *)
Lemma case_retries_start session_id problem_type completion (cases : list StartEvaluateCaseInput) (x : X) c :
  case_retries c {| dr_session_id := session_id; dr_problem_type := problem_type;
                    dr_submission_completion := completion;
                    dr_retry_pool := list_to_map (reverse ((λ tc, (ec_test_case_id tc, tc)) <$>
                                       filter (λ tc, test_case_cheap_to_retain tc = true) cases));
                    dr_op_retries := ∅; dr_host := x |}
  ≤ MAX_DETACHED_OP_RETRIES * copies c cases.
Proof.
  unfold case_retries. simpl. etrans; [apply sum_list_to_map_le|]. rewrite sum_list_with_reverse.
  unfold copies, attempts. simpl. induction cases as [|tc cases IH]; [done|].
  rewrite !filter_cons. repeat case_decide; rewrite ?fmap_cons; simpl; rewrite ?lookup_empty; simpl;
    repeat case_decide; unfold MAX_DETACHED_OP_RETRIES in *; simpl in *; done || lia.
Qed.

(** C5. Every detached evaluate session of the server ends, whatever the plugin
    answers and however its batches fare, having dispatched each case at most
    once plus [MAX_DETACHED_OP_RETRIES] retries - three times, for each time the
    case is in the request - and fired the after-judging hooks at most once; the
    driver of the source meets the interface the generic loop is verified
    against. *)
Theorem evaluate_session_returns fuel session_id input (x : X) :
  let cases := length (eb_test_cases (de_batch input)) in
  size (waiting x) + 3 * cases < fuel →
  ∃ d, run_detached_windowed_evaluate fuel session_id input x = Returned d
    ∧ (∀ c, dispatched c (dr_host d) ≤ dispatched c x + 3 * copies c (eb_test_cases (de_batch input)))
    ∧ hooks_fired (dr_host d) ≤ S (hooks_fired x).
Proof.
  intros cases Hf. unfold run_detached_windowed_evaluate.
  set (d0 := {| dr_session_id := session_id |}).
  assert (retries_left d0 ≤ 2 * cases) as Hb.
  { etrans; [apply retries_left_bound|]. unfold MAX_DETACHED_OP_RETRIES. simpl.
    set (kvs := reverse _). assert (size (list_to_map kvs : gmap Z StartEvaluateCaseInput) ≤ length kvs) as Hk.
    { clear. induction kvs as [|[k v] l IH]; simpl; [done|]. rewrite map_size_insert. destruct (_ !! k); simpl; lia. }
    assert (length kvs ≤ cases); [|lia]. unfold kvs. rewrite length_reverse, length_fmap. apply length_filter. }
  destruct (windowed_session_returns fuel (eb_test_cases (de_batch input)) (de_concurrency input) (de_state input) d0)
    as (w' & Hret & Hst & Ht).
  { simpl. fold cases. lia. }
  exists w'. split; [done|]. simpl in Hst, Ht. split; [|done]. intros c.
  pose proof (case_retries_start session_id (eb_problem_type (de_batch input)) (de_submission_completion input)
    (eb_test_cases (de_batch input)) x c) as Hr.
  specialize (Hst c). unfold d0, waiting_items in Hst. unfold MAX_DETACHED_OP_RETRIES, copies in *. simpl in *. lia.
Qed.
End laws.

(** ** A server in which every batch times out *)

Record ToyHost :=
  { th_waiting : gset ustring; th_dispatched : list Z; th_hooks : nat; th_events : nat }.

(** An id longer than every id in use. *)
Definition fresh_id (ids : gset ustring) : ustring :=
  replicate (S (foldr (λ i n, length i `max` n) 0 (elements ids))) 0%Z.

Lemma fresh_id_new ids : fresh_id ids ∉ ids.
Proof.
  intros Hin. apply elem_of_elements in Hin.
  assert (∀ l : list ustring, ∀ i, i ∈ l → length i ≤ foldr (λ i n, length i `max` n) 0 l) as Hmax.
  { induction l as [|j l IH]; intros i Hi; [by apply elem_of_nil in Hi|]. simpl.
    apply elem_of_cons in Hi as [-> |Hi]; [lia|]. specialize (IH i Hi). lia. }
  apply Hmax in Hin. unfold fresh_id in Hin. rewrite length_replicate in Hin. exact (Nat.nle_succ_diag_l _ Hin).
Qed.

#[export] Instance ToyHost_host : EvaluateHost ToyHost := {|
  start_evaluate_batch b x :=
    let id := fresh_id (th_waiting x) in
    (Ok id, {| th_waiting := {[id]} ∪ th_waiting x; th_dispatched := (ec_test_case_id <$> eb_test_cases b) ++ th_dispatched x;
               th_hooks := th_hooks x; th_events := th_events x |});
  next_outcome x :=
    match elements (th_waiting x) with
    | [] => None
    | id :: _ => Some ({| so_slot_id := 7%Z; so_batch_id := id; so_result := Ok None |},
                       {| th_waiting := th_waiting x ∖ {[id]}; th_dispatched := th_dispatched x;
                          th_hooks := th_hooks x; th_events := th_events x |})
    end;
  call_detached_evaluate_callback i x :=
    (Ok (match ci_event i with EvExhausted => finish_with (ci_state i) | _ => continue_with (ci_state i) true [] end),
     {| th_waiting := th_waiting x; th_dispatched := th_dispatched x; th_hooks := th_hooks x;
        th_events := S (th_events x) |});
  set_evaluate_cancel_op_keys _ _ x := x;
  cancel_evaluate_batch _ x := x;
  ops_registry_remove_batch _ x := x;
  fire_after_judging_hooks _ x :=
    {| th_waiting := th_waiting x; th_dispatched := th_dispatched x; th_hooks := S (th_hooks x);
       th_events := th_events x |};
|}.

#[export] Instance ToyHost_laws : EvaluateHostLaws ToyHost.
Proof.
  refine {| waiting := th_waiting; dispatched c x := length (filter (λ id, id = c) (th_dispatched x));
            hooks_fired := th_hooks |}; try done.
  - intros b x id x' [= <- <-]. simpl. split_and!; [apply fresh_id_new|done| |done]. intros c.
    unfold copies. rewrite filter_app, length_app, Nat.add_comm. f_equal.
    induction (eb_test_cases b) as [|tc l IH]; [done|]. rewrite fmap_cons, !filter_cons.
    case_decide; simpl; auto.
  - intros x o x'. simpl. destruct (elements (th_waiting x)) as [|id l] eqn:E; [done|].
    intros [= <- <-]. simpl. split_and!; [|done..]. apply elem_of_elements. rewrite E. set_solver.
  - intros x. simpl. destruct (elements (th_waiting x)) as [|id l] eqn:E; [|done].
    intros _. by apply elements_empty_inv, leibniz_equiv in E.
  - by intros i x r x' [= _ <-].
Defined.

Definition toy_case (id : Z) : StartEvaluateCaseInput := {|
  ec_problem_id := 1; ec_test_case_id := id; ec_solution_source := []; ec_solution_language := u "cpp";
  ec_time_limit_ms := 1000; ec_memory_limit_kb := 65536; ec_contest_id := None; ec_input := Missing;
  ec_expected_output := Missing; ec_is_custom := false; ec_target_worker_id := None;
|}.

Definition toy_input : StartDetachedWindowedEvaluateInput := {|
  de_batch := {| eb_problem_type := u "standard"; eb_test_cases := [toy_case 7] |};
  de_concurrency := 4; de_result_timeout_ms := 1000; de_callback_fn := u "on_result"; de_state := [];
  de_submission_completion := Some {| dc_submission_id := 1; dc_judgement_id := 2; dc_judge_epoch := 0;
                                      dc_fire_after_judging := true |};
|}.

Definition toy_start : ToyHost := {| th_waiting := ∅; th_dispatched := []; th_hooks := 0; th_events := 0 |}.

Lemma evaluate_session_returns_witness :
  ∃ d, run_detached_windowed_evaluate 10 (u "s") toy_input toy_start = Returned d
    ∧ (∀ c, dispatched c (dr_host d) ≤ dispatched c toy_start + 3 * copies c [toy_case 7])
    ∧ hooks_fired (dr_host d) ≤ S (hooks_fired toy_start).
Proof. apply (evaluate_session_returns 10 (u "s") toy_input toy_start). vm_compute. lia. Defined.

(** The case is dispatched three times, then the plugin hears of one timeout and
    of the end, and the hooks fire. *)
Example toy_session :
  match run_detached_windowed_evaluate 10 (u "s") toy_input toy_start with
  | Returned d => (th_dispatched (dr_host d), th_events (dr_host d), th_hooks (dr_host d)) = ([7%Z; 7%Z; 7%Z], 2, 1)
  | _ => False
  end.
Proof. vm_compute. reflexivity. Qed.
