(* ===== verification/Mask.v ===== *)
(** * Mask: decisions of the visibility kernel and the masking of documents

    packages/server/src/visibility/decision.rs and mask.rs.  A decision allows a
    resource, denies it, or lets it through with fields blanked; decisions are
    combined by [meet].  A field mask is a set of paths in a JSON document. *)

From stdpp Require Import base gmap sets list.
From S2P Require Import Prelude.
From S2P Require Import Text.
From S2P Require Import Json.

(** ** Masks (mask.rs) *)

(** [BTreeSet<String>]; the order in which the paths are applied does not matter
    ([blank_all_permutation]). *)
Definition FieldMask : Type := gset ustring.

Definition new_mask (fields : list ustring) : FieldMask := list_to_set fields.

Definition DOT : Z := 46.
Definition STAR : ustring := u "*".

(** [path.split('.')]: never empty. *)
Fixpoint split_dot (path : ustring) : list ustring :=
  match path with
  | [] => [[]]
  | c :: path =>
      if (c =? DOT)%Z then [] :: split_dot path
      else match split_dot path with
           | segment :: segments => (c :: segment) :: segments
           | [] => [[c]]
           end
  end.

Definition blank_in_place (target : Value) : Value :=
  match target with VArray _ => VArray [] | _ => VNull end.

(** [obj.get_mut(key)] and a change of what it finds. *)
Fixpoint alter_field (f : Value → Value) (key : ustring) (fields : list (ustring * Value))
    : list (ustring * Value) :=
  match fields with
  | [] => []
  | (k, v) :: fields =>
      if decide (key = k) then (k, f v) :: fields else (k, v) :: alter_field f key fields
  end.

Fixpoint blank_segments (segments : list ustring) (cursor : Value) : Value :=
  match segments with
  | [] => cursor
  | segment :: rest =>
      let next := match rest with [] => blank_in_place | _ => blank_segments rest end in
      if decide (segment = STAR) then
        match cursor with VArray elements => VArray (next <$> elements) | _ => cursor end
      else
        match cursor with VObject fields => VObject (alter_field next segment fields) | _ => cursor end
  end.

Definition blank_path (path : ustring) (value : Value) : Value :=
  blank_segments (split_dot path) value.

(** Paths applied one after the other. *)
Definition blank_all (paths : list ustring) (value : Value) : Value :=
  foldl (λ v path, blank_path path v) value paths.

Definition apply_mask (mask : FieldMask) (value : Value) : Value := blank_all (elements mask) value.

(** ** Decisions (decision.rs) *)

Module Kernel.

Inductive Decision := Allow | Redact (mask : FieldMask) | Deny.

Definition meet (a b : Decision) : Decision :=
  match a, b with
  | Deny, _ | _, Deny => Deny
  | Redact m, Redact m' => Redact (m ∪ m')
  | Redact m, Allow | Allow, Redact m => Redact m
  | Allow, Allow => Allow
  end.

Definition is_denied (d : Decision) : bool := match d with Deny => true | _ => false end.

(** What a viewer gets of a document. *)
Definition render (d : Decision) (value : Value) : option Value :=
  match d with
  | Allow => Some value
  | Redact mask => Some (apply_mask mask value)
  | Deny => None
  end.

End Kernel.

(** ** Fields *)

Lemma field_alter f k k' fs :
  field k (alter_field f k' fs) = if decide (k = k') then f <$> field k fs else field k fs.
Proof.
  induction fs as [|[k0 v] fs IH]; cbn [alter_field field]; [by case_decide|].
  destruct (decide (k' = k0)) as [-> |Hne]; cbn [field]; [by repeat case_decide|].
  rewrite IH. destruct (decide (k = k0)) as [-> |]; [by rewrite decide_False|done].
Qed.

Lemma alter_same f g k fs : alter_field f k (alter_field g k fs) = alter_field (f ∘ g) k fs.
Proof.
  induction fs as [|[k0 v] fs IH]; cbn [alter_field]; [done|].
  case_decide as E; cbn [alter_field]; [by rewrite decide_True|]. by rewrite decide_False, IH.
Qed.

Lemma alter_comm f g k k' fs :
  k ≠ k' → alter_field f k (alter_field g k' fs) = alter_field g k' (alter_field f k fs).
Proof.
  intros Hne. induction fs as [|[k0 v] fs IH]; cbn [alter_field]; [done|].
  destruct (decide (k' = k0)) as [-> |Hk']; cbn [alter_field].
  - rewrite !(decide_False (P := k = k0)) by done. cbn [alter_field]. by rewrite decide_True.
  - case_decide; cbn [alter_field]; rewrite decide_False by done; [done|by rewrite IH].
Qed.

Lemma alter_ext f g k fs : (∀ v, f v = g v) → alter_field f k fs = alter_field g k fs.
Proof.
  intros E. induction fs as [|[k0 v] fs IH]; cbn [alter_field]; [done|]. by rewrite E, IH.
Qed.

(** ** Masks commute *)

(** One step below a segment. *)
Definition blank_rest (rest : list ustring) : Value → Value :=
  match rest with [] => blank_in_place | _ => blank_segments rest end.

Lemma blank_cons segment rest v :
  blank_segments (segment :: rest) v =
  if decide (segment = STAR) then
    match v with VArray elements => VArray (blank_rest rest <$> elements) | _ => v end
  else
    match v with VObject fields => VObject (alter_field (blank_rest rest) segment fields) | _ => v end.
Proof. done. Qed.

Lemma blank_after_path segs v : blank_in_place (blank_segments segs v) = blank_in_place v.
Proof. destruct segs; [done|]. rewrite blank_cons. by case_decide; destruct v. Qed.

Lemma path_after_blank segs v : blank_segments segs (blank_in_place v) = blank_in_place v.
Proof. destruct segs; [done|]. rewrite blank_cons. by case_decide; destruct v. Qed.

Lemma blank_twice v : blank_in_place (blank_in_place v) = blank_in_place v.
Proof. by destruct v. Qed.

Lemma blank_rest_comm r r' :
  (∀ v, blank_segments r (blank_segments r' v) = blank_segments r' (blank_segments r v)) →
  ∀ v, blank_rest r (blank_rest r' v) = blank_rest r' (blank_rest r v).
Proof.
  intros E v. destruct r as [|a r], r' as [|b r']; unfold blank_rest;
    rewrite ?blank_after_path, ?path_after_blank; done.
Qed.

Lemma blank_segments_comm s s' v :
  blank_segments s (blank_segments s' v) = blank_segments s' (blank_segments s v).
Proof.
  revert s' v. induction s as [|a r IH]; intros [|b r'] v; try done.
  pose proof (blank_rest_comm r r' (IH r')) as E. rewrite !blank_cons.
  destruct (decide (a = STAR)) as [-> |Ha], (decide (b = STAR)) as [-> |Hb];
    destruct v as [| | | | |vs|fs]; try done.
  - f_equal. rewrite <- !list_fmap_compose. apply list_fmap_ext. intros ? x _. apply E.
  - f_equal. destruct (decide (a = b)) as [-> |Hne]; [|by apply alter_comm].
    rewrite !alter_same. apply alter_ext. apply E.
Qed.

Lemma blank_segments_twice s v : blank_segments s (blank_segments s v) = blank_segments s v.
Proof.
  revert v. induction s as [|a r IH]; intros v; [done|].
  assert (∀ x, blank_rest r (blank_rest r x) = blank_rest r x) as E.
  { intros x. destruct r; [apply blank_twice|apply IH]. }
  rewrite !blank_cons. case_decide; destruct v as [| | | | |vs|fs]; try done; f_equal.
  - rewrite <- list_fmap_compose. apply list_fmap_ext. intros ? x _. apply E.
  - rewrite alter_same. apply alter_ext. apply E.
Qed.

#[export] Instance blank_all_permutation : Proper ((≡ₚ) ==> (=) ==> (=)) blank_all.
Proof.
  intros l l' Hp v ? <-. unfold blank_all. revert v.
  induction Hp as [|x l l' _ IH|x y l|l1 l2 l3 _ IH1 _ IH2]; intros v; cbn.
  - done.
  - apply IH.
  - f_equal. apply blank_segments_comm.
  - by rewrite IH1, IH2.
Qed.

Lemma blank_all_app l l' v : blank_all (l ++ l') v = blank_all l' (blank_all l v).
Proof. apply foldl_app. Qed.

Lemma blank_all_comm l p v : blank_all l (blank_path p v) = blank_path p (blank_all l v).
Proof.
  change (blank_all l (blank_path p v)) with (blank_all (p :: l) v).
  change (blank_path p (blank_all l v)) with (blank_all [p] (blank_all l v)).
  rewrite <- blank_all_app. by rewrite (Permutation_cons_append l p).
Qed.

(** A path applied already. *)
Lemma blank_all_again l p v : p ∈ l → blank_all l (blank_path p v) = blank_all l v.
Proof.
  intros (l1 & l2 & ->)%list_elem_of_split. rewrite <- Permutation_middle. cbn. f_equal.
  apply blank_segments_twice.
Qed.

Lemma apply_mask_empty v : apply_mask ∅ v = v.
Proof. unfold apply_mask. by rewrite elements_empty. Qed.

Lemma apply_mask_add p m v : apply_mask ({[p]} ∪ m) v = apply_mask m (blank_path p v).
Proof.
  unfold apply_mask. destruct (decide (p ∈ m)) as [Hp|Hp].
  - rewrite subseteq_union_1_L by set_solver. symmetry. apply blank_all_again. by apply elem_of_elements.
  - by rewrite (elements_union_singleton m p Hp).
Qed.

(** Masks add up. *)
Lemma apply_mask_union m m' v : apply_mask (m ∪ m') v = apply_mask m (apply_mask m' v).
Proof.
  revert v. induction m as [|p m Hp IH] using set_ind_L; intros v.
  - by rewrite union_empty_l_L, apply_mask_empty.
  - rewrite <- union_assoc_L, !apply_mask_add, IH. f_equal. apply blank_all_comm.
Qed.

(** * A mask hides what it names and nothing else

    Paths read a document ([reach]); after [apply_mask] what the paths of the
    mask reach is blank, what other paths reach is unchanged, and the document
    has gained nothing.  [meet] is the greatest lower bound of what decisions
    show. *)

(** ** Reading along a path *)

(** The values at a path: [*] reaches every element of an array. *)
Fixpoint reach (segments : list ustring) (v : Value) : list Value :=
  match segments with
  | [] => [v]
  | segment :: rest =>
      if decide (segment = STAR) then
        match v with VArray elements => elements ≫= reach rest | _ => [] end
      else
        match v with
        | VObject fields => match field segment fields with Some w => reach rest w | None => [] end
        | _ => []
        end
  end.

Definition blank (v : Value) : Prop := v = VNull ∨ v = VArray [].

(** Neither path is the beginning of the other. *)
Fixpoint apart (p q : list ustring) : Prop :=
  match p, q with
  | a :: p, b :: q => if decide (a = b) then apart p q else True
  | _, _ => False
  end.

(** [hides v' v]: [v'] is [v] with some values blanked. *)
Inductive hides : Value → Value → Prop :=
  | hides_refl v : hides v v
  | hides_null v : hides VNull v
  | hides_empty vs : hides (VArray []) (VArray vs)
  | hides_array vs' vs : Forall2 hides vs' vs → hides (VArray vs') (VArray vs)
  | hides_object fs' fs :
      Forall2 (λ a b, a.1 = b.1 ∧ hides a.2 b.2) fs' fs → hides (VObject fs') (VObject fs).

Lemma split_dot_nonempty p : split_dot p ≠ [].
Proof. destruct p as [|c p]; cbn; [done|]. case_match; [done|]. by case_match. Qed.

Lemma blank_in_place_blank v : blank (blank_in_place v).
Proof. destruct v; (by left) || by right. Qed.

Lemma reach_blanked segments v w :
  segments ≠ [] → w ∈ reach segments (blank_segments segments v) → blank w.
Proof.
  revert v w. induction segments as [|a rest IH]; intros v w Hne; [done|]. clear Hne.
  assert (∀ x, w ∈ reach rest (blank_rest rest x) → blank w) as Hrest.
  { intros x. destruct rest as [|b rest]; [|by apply IH]. cbn.
    intros ->%list_elem_of_singleton. apply blank_in_place_blank. }
  rewrite blank_cons. cbn [reach]. case_decide; destruct v as [| | | | |vs|fs];
    try by intros ?%not_elem_of_nil.
  - intros (x & Hw & (y & -> & _)%list_elem_of_fmap)%list_elem_of_bind. by eapply Hrest.
  - rewrite field_alter, decide_True by done. destruct (field a fs) as [x|]; [|by intros ?%not_elem_of_nil].
    apply Hrest.
Qed.

Lemma reach_apart p q v : apart p q → reach q (blank_segments p v) = reach q v.
Proof.
  revert q v. induction p as [|a p IH]; intros [|b q] v Ha; try done.
  assert (a = b → ∀ x, reach q (blank_rest p x) = reach q x) as Hrest.
  { intros ->. cbn in Ha. rewrite decide_True in Ha by done. intros x. destruct p; [done|by apply IH]. }
  rewrite blank_cons. cbn [reach].
  destruct (decide (a = STAR)) as [Ea|Hna], (decide (b = STAR)) as [Eb|Hnb];
    destruct v as [| | | | |vs|fs]; try done.
  - induction vs as [|x vs IHvs]; cbn; [done|]. rewrite Hrest by congruence. by f_equal.
  - rewrite field_alter. case_decide as E; [|done]. destruct (field b fs); [|done]. cbn. by apply Hrest.
Qed.

Lemma apply_mask_blank m p v w :
  p ∈ m → w ∈ reach (split_dot p) (apply_mask m v) → blank w.
Proof.
  intros Hp. assert (m = {[p]} ∪ m ∖ {[p]}) as -> by (apply union_difference_L; set_solver).
  unfold apply_mask. rewrite elements_union_singleton by set_solver. cbn.
  change (foldl _ (blank_path p v) ?l) with (blank_all l (blank_path p v)). rewrite blank_all_comm.
  apply reach_blanked, split_dot_nonempty.
Qed.

Lemma apply_mask_apart m q v :
  (∀ p, p ∈ m → apart (split_dot p) q) → reach q (apply_mask m v) = reach q v.
Proof.
  revert v. induction m as [|p m Hp IH] using set_ind_L; intros v Hq; [by rewrite apply_mask_empty|].
  rewrite apply_mask_add, IH by set_solver. apply reach_apart, Hq. set_solver.
Qed.

(** A mask hides exactly what it names.  After masking, every value a path of
    the mask reaches is blank, and a path that is apart from all of them reaches
    what it reached before. *)
Theorem apply_mask_exact (mask : FieldMask) (v : Value) :
  (∀ p w, p ∈ mask → w ∈ reach (split_dot p) (apply_mask mask v) → blank w) ∧
  (∀ q, (∀ p, p ∈ mask → apart (split_dot p) q) → reach q (apply_mask mask v) = reach q v).
Proof. split; intros; [by eapply apply_mask_blank|by apply apply_mask_apart]. Qed.

(** ** Nothing is added *)

Lemma hides_blank v : hides (blank_in_place v) v.
Proof. destruct v; constructor. Qed.

Lemma Forall2_hides_refl vs : Forall2 hides vs vs.
Proof. induction vs; constructor; [constructor|done]. Qed.

Lemma hides_alter f k fs :
  (∀ v, hides (f v) v) → Forall2 (λ a b, a.1 = b.1 ∧ hides a.2 b.2) (alter_field f k fs) fs.
Proof.
  intros Hf. induction fs as [|[k0 v] fs IH]; cbn; [done|]. case_decide; constructor; try done.
  - split; [done|apply Hf].
  - clear. induction fs; constructor; [split; [done|constructor]|done].
  - split; [done|constructor].
Qed.

Lemma hides_blank_segments segments v : hides (blank_segments segments v) v.
Proof.
  revert v. induction segments as [|a rest IH]; intros v; [constructor|].
  assert (∀ x, hides (blank_rest rest x) x) as Hrest.
  { intros x. destruct rest; [apply hides_blank|apply IH]. }
  rewrite blank_cons. case_decide; destruct v as [| | | | |vs|fs]; try constructor.
  - clear -Hrest. induction vs; constructor; auto.
  - by apply hides_alter.
Qed.

Lemma Forall2_trans_pointwise {A} (R : A → A → Prop) l1 l2 l3 :
  Forall (λ z, ∀ x y, R x y → R y z → R x z) l3 →
  Forall2 R l1 l2 → Forall2 R l2 l3 → Forall2 R l1 l3.
Proof.
  intros Ht H12 H23. revert l1 H12. induction H23 as [|y z l2 l3 Hyz _ IH]; intros l1 H12.
  - by inversion H12.
  - apply Forall_cons in Ht as [Hz Ht]. inversion H12; subst. constructor; [by eapply Hz|by apply IH].
Qed.

Lemma hides_trans v1 v2 v3 : hides v1 v2 → hides v2 v3 → hides v1 v3.
Proof.
  revert v1 v2. induction v3 as [| | | | |vs3 IH|fs3 IH] using Value_induction; intros v1 v2 H12 H23;
    inversion H23 as [| | |vs2 ? Hvs|fs2 ? Hfs]; subst; try done;
    try (by inversion H12; subst; constructor).
  - inversion H12 as [| | |vs1 ? Hn|]; subst; [constructor..|]. inversion Hn; subst. constructor.
  - inversion H12; subst; [done|constructor..|]. constructor.
    by eapply (Forall2_trans_pointwise hides).
  - inversion H12; subst; [done|constructor|]. constructor.
    eapply (Forall2_trans_pointwise (λ a b, a.1 = b.1 ∧ hides a.2 b.2)); [|done..].
    eapply Forall_impl; [exact IH|]. intros z Hz x y [] []. split; [congruence|by eapply Hz].
Qed.

(** Masking is destructive only: the masked document is the document with some
    values blanked, whatever paths a plugin asked for. *)
Lemma apply_mask_hides (mask : FieldMask) (v : Value) : hides (apply_mask mask v) v.
Proof.
  revert v. induction mask as [|p m _ IH] using set_ind_L; intros v.
  { rewrite apply_mask_empty. constructor. }
  rewrite apply_mask_add. eapply hides_trans; [apply IH|]. apply hides_blank_segments.
Qed.

(** ** Decisions *)

Import Kernel.

#[export] Instance meet_assoc : Assoc (=) meet.
Proof.
  intros [|m|] [|m'|] [|m''|]; cbn; try done. by rewrite union_assoc_L.
Qed.

#[export] Instance meet_comm : Comm (=) meet.
Proof. intros [|m|] [|m'|]; cbn; try done. by rewrite union_comm_L. Qed.

#[export] Instance meet_idemp : IdemP (=) meet.
Proof. intros [|m|]; cbn; [done| |done]. by rewrite union_idemp_L. Qed.

#[export] Instance meet_left_id : LeftId (=) Allow meet.
Proof. by intros []. Qed.

#[export] Instance meet_right_id : RightId (=) Allow meet.
Proof. by intros []. Qed.

(** [below a b]: [a] shows at most what [b] shows. *)
Definition below (a b : Decision) : Prop := meet a b = a.

#[export] Instance below_preorder : PreOrder below.
Proof.
  split; [intros a; apply (idemp meet)|]. unfold below. intros a b c Hab Hbc.
  rewrite <- Hab at 1. by rewrite <- (assoc_L meet), Hbc.
Qed.

Lemma render_meet a b v : render (meet a b) v = (w ← render b v; render a w).
Proof.
  destruct a as [|m|], b as [|m'|]; cbn; try done. by rewrite apply_mask_union.
Qed.

Lemma below_meet_l a b : below (meet a b) a.
Proof. unfold below. by rewrite (comm_L meet), (assoc_L meet), (idemp_L meet). Qed.

Lemma below_meet_r a b : below (meet a b) b.
Proof. unfold below. by rewrite <- (assoc_L meet), (idemp_L meet). Qed.

Lemma below_greatest a b c : below c a → below c b → below c (meet a b).
Proof. unfold below. intros Ha Hb. by rewrite (assoc_L meet), Ha. Qed.
