(* ===== verification/HostRules.v ===== *)
(** * HostRules: what the server itself allows

    packages/server/src/visibility/subject.rs and host_rules.rs.  A batch of
    resources is decided from a few queries: the rows the batch needs are
    fetched first ([host_decide]) and each resource is then decided from them
    ([decide_one]).  A query ends with the rows of its table that match, or with
    an error. *)

From stdpp Require Import base gmap sets list.
From S2P Require Import Prelude.
From S2P Require Import Text Sdk VisibilityApi Mask.

(** ** Who asks, and for what (subject.rs) *)

Record Subject := {
  sj_user_id : option Z;
  sj_authenticated : bool;
  sj_permissions : list ustring;
  sj_admin_override : bool;
}.

(** The user and the permissions of a session. *)
Definition from_auth_user (user_id : Z) (permissions : list ustring) : Subject := {|
  sj_user_id := Some user_id; sj_authenticated := true; sj_permissions := permissions;
  sj_admin_override := false |}.

Definition anonymous : Subject := {|
  sj_user_id := None; sj_authenticated := false; sj_permissions := [];
  sj_admin_override := false |}.

Definition admin_override : Subject := {|
  sj_user_id := None; sj_authenticated := true; sj_permissions := [];
  sj_admin_override := true |}.

Definition subject_has (s : Subject) (permission : ustring) : bool :=
  existsb (λ p, bool_decide (p = permission)) (sj_permissions s).

Inductive Action := ActRead | ActSubmit | ActClarify | ActDownload.

#[global] Instance Action_eq_dec : EqDecision Action.
Proof. solve_decision. Defined.

Definition action_as_wire (a : Action) : ustring :=
  match a with
  | ActRead => u "read" | ActSubmit => u "submit"
  | ActClarify => u "clarify" | ActDownload => u "download"
  end.

(** An attachment is named by a UUID of 128 bits. *)
Inductive Resource :=
  | RContest (id : Z)
  | RProblem (contest_id : option Z) (problem_id : Z)
  | RSample (contest_id : option Z) (problem_id : Z)
  | RAttachment (problem_id : Z) (attachment_id : Z)
  | RSubmission (id : Z)
  | RClarification (id : Z).

#[global] Instance Resource_eq_dec : EqDecision Resource.
Proof. solve_decision. Defined.

#[global] Instance Resource_countable : Countable Resource.
Proof.
  apply (inj_countable'
    (λ r, match r with
          | RContest i => (0, None, i, 0) | RProblem c p => (1, c, p, 0)
          | RSample c p => (2, c, p, 0) | RAttachment p a => (3, None, p, a)
          | RSubmission i => (4, None, i, 0) | RClarification i => (5, None, i, 0)
          end)%Z
    (λ t, let '(k, c, p, a) := t in
          match k with
          | 0 => RContest p | 1 => RProblem c p | 2 => RSample c p
          | 3 => RAttachment p a | 4 => RSubmission p | _ => RClarification p
          end)%Z).
  by intros [].
Defined.

#[global] Instance Action_countable : Countable Action.
Proof.
  apply (inj_countable'
    (λ a, match a with ActRead => 0 | ActSubmit => 1 | ActClarify => 2 | ActDownload => 3 end)%Z
    (λ z, match z with 0 => ActRead | 1 => ActSubmit | 2 => ActClarify | _ => ActDownload end)%Z).
  by intros [].
Defined.

Definition wire_kind (r : Resource) : ustring :=
  match r with
  | RContest _ => u "contest" | RProblem _ _ => u "problem" | RSample _ _ => u "sample"
  | RAttachment _ _ => u "attachment" | RSubmission _ => u "submission"
  | RClarification _ => u "clarification"
  end.

(** [uuid_text] prints a UUID. *)
Definition wire_id (uuid_text : Z → ustring) (r : Resource) : ustring :=
  match r with
  | RContest id | RSubmission id | RClarification id => show id
  | RProblem _ problem_id | RSample _ problem_id => show problem_id
  | RAttachment _ attachment_id => uuid_text attachment_id
  end.

Definition wire_problem_id (r : Resource) : option Z :=
  match r with
  | RProblem _ problem_id | RSample _ problem_id | RAttachment problem_id _ => Some problem_id
  | RContest _ | RSubmission _ | RClarification _ => None
  end.

(** ** Tables

    The columns the rules read; times are instants on one scale. *)

Record ContestRow := {
  ct_id : Z;
  ct_activate_time : option Z;
  ct_deactivate_time : option Z;
  ct_start_time : Z;
  ct_is_public : bool;
  ct_submissions_visible : bool;
  ct_deleted : bool;
}.

Record SubmissionRow := { sb_id : Z; sb_user_id : Z; sb_contest_id : option Z }.
Record ProblemRow := { pb_id : Z; pb_is_public : bool; pb_deleted : bool }.

Record ClarificationRow := {
  cl_id : Z;
  cl_contest_id : Z;
  cl_author_id : Z;
  cl_recipient_id : option Z;
  cl_is_public : bool;
}.

Record ReplyRow := { rp_clarification_id : Z; rp_is_public : bool; rp_created_at : Z }.

Definition AppError : Type := ustring.

(** What a query of each table answers: its rows, or an error.  A row of
    [contest_user] and [contest_problem] is a pair of a contest and a user, a
    contest and a problem. *)
Record Db := {
  db_submissions : result AppError (list SubmissionRow);
  db_problems : result AppError (list ProblemRow);
  db_contest_problems : result AppError (list (Z * Z));
  db_clarifications : result AppError (list ClarificationRow);
  db_replies : result AppError (list ReplyRow);
  db_contests : result AppError (list ContestRow);
  db_contest_users : result AppError (list (Z * Z));
}.

(** [.into_iter().map(|r| (r.id, r)).collect()]. *)
Definition by_id {A} (key : A → Z) (rows : list A) : gmap Z A :=
  foldl (λ m r, <[key r := r]> m) ∅ rows.

(** The rows with one of the ids; no query when there are none. *)
Definition find_in {A} (table : result AppError (list A)) (key : A → Z) (ids : gset Z)
    : result AppError (gmap Z A) :=
  if decide (ids = ∅) then Ok ∅
  else rows ← table; Ok (by_id key (filter (λ r, key r ∈ ids) rows)).

(** ** One resource *)

Import Kernel.

(** The rows a batch has fetched. *)
Record Fetched := {
  ft_contests : gmap Z ContestRow;
  ft_member_of : gset Z;
  ft_problem_in_contest : gset (Z * Z);
  ft_submissions : gmap Z SubmissionRow;
  ft_problems : gmap Z ProblemRow;
  ft_problem_contest_ids : gmap Z (list Z);
  ft_clarifications : gmap Z ClarificationRow;
  ft_latest_reply_public : gmap Z bool;
}.

Definition window_is_closed (contest : ContestRow) (now : Z) : bool :=
  match ct_activate_time contest with None => true | Some at_ => (now <? at_)%Z end
  || match ct_deactivate_time contest with None => false | Some dt => (dt <=? now)%Z end.

Definition check_contest_access_decision (s : Subject) (contest : ContestRow) (now : Z)
    (member_of : gset Z) : Kernel.Decision :=
  if subject_has s CONTEST_MANAGE then Allow
  else if window_is_closed contest now then Deny
  else if ct_is_public contest then Allow
  else if decide (ct_id contest ∈ member_of) then Allow
  else Deny.

Definition require_contest_started_window_decision (s : Subject) (contest : ContestRow) (now : Z)
    : Kernel.Decision :=
  if subject_has s CONTEST_MANAGE then Allow
  else if window_is_closed contest now then Deny
  else Allow.

Definition decide_contest (s : Subject) (now : Z) (id : Z) (f : Fetched) : Kernel.Decision :=
  match ft_contests f !! id with
  | None => Deny
  | Some c => check_contest_access_decision s c now (ft_member_of f)
  end.

Definition decide_standalone_problem_access (s : Subject) (now : Z) (problem_id : Z) (f : Fetched)
    : Kernel.Decision :=
  match ft_problems f !! problem_id with
  | None => Deny
  | Some problem =>
      if subject_has s PROBLEM_CREATE || subject_has s PROBLEM_EDIT then Allow
      else if pb_is_public problem then Allow
      else
        let candidates := default [] (ft_problem_contest_ids f !! problem_id) in
        if decide (candidates = []) then Deny
        else if subject_has s CONTEST_MANAGE then Allow
        else
          let open_and_started :=
            filter (λ c, negb (window_is_closed c now) && (ct_start_time c <=? now)%Z = true)
              (omap (λ cid, ft_contests f !! cid) candidates) in
          if existsb ct_is_public open_and_started then Allow
          else if existsb (λ c, bool_decide (ct_id c ∈ ft_member_of f)) open_and_started then Allow
          else Deny
  end.

Definition decide_problem_or_sample (s : Subject) (now : Z) (contest_id : option Z)
    (problem_id : Z) (f : Fetched) : Kernel.Decision :=
  match contest_id with
  | None => decide_standalone_problem_access s now problem_id f
  | Some cid =>
      match ft_contests f !! cid with
      | None => Deny
      | Some c =>
          if is_denied (check_contest_access_decision s c now (ft_member_of f)) then Deny
          else if is_denied (require_contest_started_window_decision s c now) then Deny
          else if decide ((cid, problem_id) ∈ ft_problem_in_contest f) then Allow
          else Deny
      end
  end.

Definition decide_submission (s : Subject) (now : Z) (id : Z) (f : Fetched) : Kernel.Decision :=
  match ft_submissions f !! id with
  | None => Deny
  | Some sub =>
      if subject_has s SUBMISSION_VIEW_ALL then Allow
      else if decide (sj_user_id s = Some (sb_user_id sub)) then Allow
      else
        match sb_contest_id sub with
        | None => Deny
        | Some cid =>
            match ft_contests f !! cid with
            | None => Deny
            | Some c =>
                if is_denied (check_contest_access_decision s c now (ft_member_of f)) then Deny
                else if negb (bool_decide (cid ∈ ft_member_of f)) || negb (ct_submissions_visible c)
                then Deny
                else Allow
            end
        end
  end.

(** The fields of a reply. *)
Definition reply_mask : FieldMask :=
  new_mask [u "reply_content"; u "reply_author_id"; u "reply_author_name"; u "replied_at"].

Definition decide_clarification (s : Subject) (id : Z) (f : Fetched) : Kernel.Decision :=
  match ft_clarifications f !! id with
  | None => Deny
  | Some c =>
      let is_participant :=
        subject_has s CONTEST_MANAGE
        || bool_decide (sj_user_id s = Some (cl_author_id c))
        || (bool_decide (is_Some (sj_user_id s)) && bool_decide (cl_recipient_id c = sj_user_id s)) in
      if negb is_participant && negb (cl_is_public c) then Deny
      else if is_participant then Allow
      else if default false (ft_latest_reply_public f !! id) then Allow
      else Redact reply_mask
  end.

Definition decide_one (s : Subject) (now : Z) (f : Fetched) (r : Resource) : Kernel.Decision :=
  match r with
  | RContest id => decide_contest s now id f
  | RProblem contest_id problem_id | RSample contest_id problem_id =>
      decide_problem_or_sample s now contest_id problem_id f
  | RSubmission id => decide_submission s now id f
  | RAttachment problem_id _ => decide_standalone_problem_access s now problem_id f
  | RClarification id => decide_clarification s id f
  end.

(** ** The batch *)

Definition submission_ids (rs : list Resource) : gset Z :=
  list_to_set (omap (λ r, match r with RSubmission id => Some id | _ => None end) rs).

Definition clarification_ids (rs : list Resource) : gset Z :=
  list_to_set (omap (λ r, match r with RClarification id => Some id | _ => None end) rs).

Definition standalone_problem_ids (rs : list Resource) : gset Z :=
  list_to_set (omap (λ r, match r with
    | RProblem None problem_id | RSample None problem_id | RAttachment problem_id _ => Some problem_id
    | _ => None
    end) rs).

Definition contest_problem_pairs (rs : list Resource) : list (Z * Z) :=
  omap (λ r, match r with
    | RProblem (Some cid) problem_id | RSample (Some cid) problem_id => Some (cid, problem_id)
    | _ => None
    end) rs.

(** [entry(problem_id).or_default().push(contest_id)]. *)
Definition contests_by_problem (rows : list (Z * Z)) : gmap Z (list Z) :=
  foldl (λ m '(cid, pid), <[pid := default [] (m !! pid) ++ [cid]]> m) ∅ rows.

(** In the order of creation, the latest reply stays. *)
Definition latest_replies (rows : list ReplyRow) : gmap Z bool :=
  foldl (λ m r, <[rp_clarification_id r := rp_is_public r]> m) ∅ (sort_by_key rp_created_at rows).

(** The contests of the batch: named directly, of submissions of others, and of
    standalone problems. *)
Definition needed_contests (s : Subject) (rs : list Resource) (submissions : gmap Z SubmissionRow)
    (problem_contests : gmap Z (list Z)) : gset Z :=
  list_to_set (omap (λ r, match r with
    | RContest id => Some id
    | RProblem (Some cid) _ | RSample (Some cid) _ => Some cid
    | _ => None
    end) rs)
  ∪ list_to_set (omap (λ p : Z * SubmissionRow,
      if negb (subject_has s SUBMISSION_VIEW_ALL)
         && negb (bool_decide (sj_user_id s = Some (sb_user_id p.2)))
      then sb_contest_id p.2 else None) (map_to_list submissions))
  ∪ list_to_set (mjoin (snd <$> map_to_list problem_contests)).

Definition fetch (db : Db) (s : Subject) (rs : list Resource) : result AppError Fetched :=
  submissions ← find_in (db_submissions db) sb_id (submission_ids rs);
  let problem_ids := standalone_problem_ids rs in
  problems ← (if decide (problem_ids = ∅) then Ok ∅
              else rows ← db_problems db;
                   Ok (by_id pb_id (filter (λ p, pb_deleted p = false ∧ pb_id p ∈ problem_ids) rows)));
  problem_contests ← (if decide (problem_ids = ∅) then Ok ∅
                      else rows ← db_contest_problems db;
                           Ok (contests_by_problem (filter (λ cp, cp.2 ∈ problem_ids) rows)));
  clarifications ← find_in (db_clarifications db) cl_id (clarification_ids rs);
  latest ← (if decide (clarifications = ∅) then Ok ∅
            else rows ← db_replies db;
                 Ok (latest_replies (filter (λ r, rp_clarification_id r ∈ dom clarifications) rows)));
  let contest_ids := needed_contests s rs submissions problem_contests in
  contests ← (if decide (contest_ids = ∅) then Ok ∅
              else rows ← db_contests db;
                   Ok (by_id ct_id (filter (λ c, ct_deleted c = false ∧ ct_id c ∈ contest_ids) rows)));
  member_of ← match sj_user_id s with
              | Some uid =>
                  if decide (contests = ∅) then Ok ∅
                  else rows ← db_contest_users db;
                       Ok (list_to_set (fst <$> filter (λ cu, cu.2 = uid ∧ cu.1 ∈ dom contests) rows))
              | None => Ok ∅
              end;
  let pairs := contest_problem_pairs rs in
  in_contest ← (if decide (pairs = []) then Ok ∅
                else rows ← db_contest_problems db;
                     Ok (list_to_set (filter (λ cp, cp.1 ∈ pairs.*1 ∧ cp.2 ∈ pairs.*2) rows)));
  Ok {| ft_contests := contests; ft_member_of := member_of; ft_problem_in_contest := in_contest;
        ft_submissions := submissions; ft_problems := problems;
        ft_problem_contest_ids := problem_contests; ft_clarifications := clarifications;
        ft_latest_reply_public := latest |}.

(** The decisions, and the contests of the submissions and clarifications. *)
Definition host_decide (db : Db) (s : Subject) (now : Z) (rs : list Resource)
    : result AppError (list Kernel.Decision * gmap Z (option Z) * gmap Z Z) :=
  if sj_admin_override s then Ok ((λ _, Allow) <$> rs, ∅, ∅)
  else
    f ← fetch db s rs;
    Ok (decide_one s now f <$> rs, sb_contest_id <$> ft_submissions f,
        cl_contest_id <$> ft_clarifications f).
