(* ===== verification/HostRulesProofs.v ===== *)
(** * HostRulesProofs: the batch decides what the rules say

    The rules are stated once, on the tables ([readable], [shown_in_full]);
    [host_decide] gives each resource of a batch the decision of the rules,
    whatever else is in the batch and with the few rows it fetches. *)

From stdpp Require Import base gmap sets list.
From S2P Require Import Prelude.
From S2P Require Import Text Sdk VisibilityApi Mask HostRules.

(** ** Tables *)

Record Tables := {
  t_submissions : list SubmissionRow;
  t_problems : list ProblemRow;
  t_contest_problems : list (Z * Z);
  t_clarifications : list ClarificationRow;
  t_replies : list ReplyRow;
  t_contests : list ContestRow;
  t_contest_users : list (Z * Z);
}.

Definition db_of (t : Tables) : Db := {|
  db_submissions := Ok (t_submissions t);
  db_problems := Ok (t_problems t);
  db_contest_problems := Ok (t_contest_problems t);
  db_clarifications := Ok (t_clarifications t);
  db_replies := Ok (t_replies t);
  db_contests := Ok (t_contests t);
  db_contest_users := Ok (t_contest_users t) |}.

(** Primary keys are keys, and the replies to one clarification have different
    times. *)
Record tables_ok (t : Tables) : Prop := {
  tk_submissions : NoDup (sb_id <$> t_submissions t);
  tk_problems : NoDup (pb_id <$> t_problems t);
  tk_clarifications : NoDup (cl_id <$> t_clarifications t);
  tk_contests : NoDup (ct_id <$> t_contests t);
  tk_replies : NoDup ((λ r, (rp_clarification_id r, rp_created_at r)) <$> t_replies t);
}.

(** ** The rules *)

Section rules.
Context (t : Tables) (s : Subject) (now : Z).

Definition active_contest (cid : Z) (c : ContestRow) : Prop :=
  c ∈ t_contests t ∧ ct_id c = cid ∧ ct_deleted c = false.

Definition is_open (c : ContestRow) : Prop :=
  (∃ a, ct_activate_time c = Some a ∧ (a ≤ now)%Z) ∧
  (∀ d, ct_deactivate_time c = Some d → (now < d)%Z).

Definition is_member (cid : Z) : Prop :=
  ∃ uid, sj_user_id s = Some uid ∧ (cid, uid) ∈ t_contest_users t.

Definition holds (permission : ustring) : Prop := permission ∈ sj_permissions s.

Definition may_enter (cid : Z) : Prop :=
  ∃ c, active_contest cid c ∧
    (holds CONTEST_MANAGE ∨ is_open c ∧ (ct_is_public c = true ∨ is_member cid)).

(** Outside of a contest, a hidden problem is read through a contest that holds it. *)
Definition may_read_problem (pid : Z) : Prop :=
  ∃ p, p ∈ t_problems t ∧ pb_id p = pid ∧ pb_deleted p = false ∧
    (holds PROBLEM_CREATE ∨ holds PROBLEM_EDIT ∨ pb_is_public p = true ∨
     ∃ cid, (cid, pid) ∈ t_contest_problems t ∧
       (holds CONTEST_MANAGE ∨
        ∃ c, active_contest cid c ∧ is_open c ∧ (ct_start_time c ≤ now)%Z ∧
          (ct_is_public c = true ∨ is_member cid))).

(** Another's submission is read by participants of its contest, where the
    contest shows submissions. *)
Definition may_read_submission (id : Z) : Prop :=
  ∃ sub, sub ∈ t_submissions t ∧ sb_id sub = id ∧
    (holds SUBMISSION_VIEW_ALL ∨ sj_user_id s = Some (sb_user_id sub) ∨
     ∃ cid c, sb_contest_id sub = Some cid ∧ active_contest cid c ∧ may_enter cid ∧
       is_member cid ∧ ct_submissions_visible c = true).

Definition takes_part (cl : ClarificationRow) : Prop :=
  holds CONTEST_MANAGE ∨ sj_user_id s = Some (cl_author_id cl) ∨
  (∃ uid, sj_user_id s = Some uid ∧ cl_recipient_id cl = Some uid).

Definition latest_reply (id : Z) (r : ReplyRow) : Prop :=
  r ∈ t_replies t ∧ rp_clarification_id r = id ∧
  ∀ r', r' ∈ t_replies t → rp_clarification_id r' = id → (rp_created_at r' ≤ rp_created_at r)%Z.

Definition readable (r : Resource) : Prop :=
  match r with
  | RContest id => may_enter id
  | RProblem (Some cid) pid | RSample (Some cid) pid =>
      may_enter cid ∧ (cid, pid) ∈ t_contest_problems t
  | RProblem None pid | RSample None pid | RAttachment pid _ => may_read_problem pid
  | RSubmission id => may_read_submission id
  | RClarification id =>
      ∃ cl, cl ∈ t_clarifications t ∧ cl_id cl = id ∧ (takes_part cl ∨ cl_is_public cl = true)
  end.

(** The reply to a public question is shown to others when the latest reply is public. *)
Definition shown_in_full (r : Resource) : Prop :=
  match r with
  | RClarification id =>
      (∃ cl, cl ∈ t_clarifications t ∧ cl_id cl = id ∧ takes_part cl) ∨
      (∃ reply, latest_reply id reply ∧ rp_is_public reply = true)
  | _ => True
  end.

Definition rules (r : Resource) (d : Kernel.Decision) : Prop :=
  match d with
  | Kernel.Allow => readable r ∧ shown_in_full r
  | Kernel.Redact m => readable r ∧ ¬ shown_in_full r ∧ m = reply_mask
  | Kernel.Deny => ¬ readable r
  end.
End rules.

(** ** What a batch has fetched *)

Lemma by_id_lookup {A} (key : A → Z) (rows : list A) i r :
  NoDup (key <$> rows) → by_id key rows !! i = Some r ↔ r ∈ rows ∧ key r = i.
Proof.
  unfold by_id. induction rows as [|x rows IH] using rev_ind; intros Hnd.
  { cbn. rewrite lookup_empty. split; [done|]. by intros [?%not_elem_of_nil _]. }
  rewrite fmap_app in Hnd. apply NoDup_app in Hnd as (Hnd & Hx & _). cbn in Hx.
  rewrite foldl_snoc, elem_of_app, list_elem_of_singleton. destruct (decide (key x = i)) as [<-|Hne].
  - rewrite lookup_insert_eq. split; [intros [= ->]; auto|]. intros [[Hr| ->] E]; [|done].
    exfalso. apply (Hx (key r)); [by apply list_elem_of_fmap_2|]. rewrite E. by left.
  - rewrite lookup_insert_ne by done. rewrite IH by done. naive_solver.
Qed.

Lemma contests_by_problem_lookup rows pid cid :
  cid ∈ default [] (contests_by_problem rows !! pid) ↔ (cid, pid) ∈ rows.
Proof.
  unfold contests_by_problem. induction rows as [|[c p] rows IH] using rev_ind.
  { cbn. rewrite lookup_empty. split; by intros ?%not_elem_of_nil. }
  rewrite foldl_snoc, elem_of_app, list_elem_of_singleton. destruct (decide (p = pid)) as [-> |Hne].
  - rewrite lookup_insert_eq. cbn. rewrite elem_of_app, IH, list_elem_of_singleton. naive_solver.
  - rewrite lookup_insert_ne by done. rewrite IH. naive_solver.
Qed.

Lemma latest_replies_lookup rows id b :
  latest_replies rows !! id = Some b →
  ∃ r, r ∈ rows ∧ rp_clarification_id r = id ∧ rp_is_public r = b ∧
    ∀ r', r' ∈ rows → rp_clarification_id r' = id → (rp_created_at r' ≤ rp_created_at r)%Z.
Proof.
  unfold latest_replies. setoid_rewrite <- (elem_of_sort_by_key rp_created_at).
  pose proof (sort_by_key_sorted rp_created_at rows) as Hs.
  generalize dependent (sort_by_key rp_created_at rows). clear. intros l Hs.
  induction l as [|x l IH] using rev_ind; [done|]. rewrite foldl_snoc.
  apply StronglySorted_app in Hs as (Hx & Hl & _).
  destruct (decide (rp_clarification_id x = id)) as [E|Hne].
  - rewrite E, lookup_insert_eq. intros [= <-]. exists x. split_and!; [set_solver|done|done|].
    intros r' [Hr'| ->%list_elem_of_singleton]%elem_of_app _; [|done].
    apply (Hx r' x) in Hr'; [|set_solver]. by apply Z.leb_le.
  - rewrite lookup_insert_ne by done. intros (r & Hr & Eid & Hb & Hmax)%IH; [|done].
    exists r. split_and!; [set_solver|done|done|].
    intros r' [?| ->%list_elem_of_singleton]%elem_of_app E; [by apply Hmax|done].
Qed.

Lemma latest_replies_none rows id r :
  latest_replies rows !! id = None → r ∈ rows → rp_clarification_id r ≠ id.
Proof.
  unfold latest_replies. rewrite <- (elem_of_sort_by_key rp_created_at).
  induction (sort_by_key rp_created_at rows) as [|x l IH] using rev_ind; [by intros _ ?%not_elem_of_nil|].
  rewrite foldl_snoc. destruct (decide (rp_clarification_id x = id)) as [<-|Hne].
  { by rewrite lookup_insert_eq. }
  rewrite lookup_insert_ne by done. intros Hn [?| ->%list_elem_of_singleton]%elem_of_app; auto.
Qed.

Record fetched_ok (t : Tables) (s : Subject) (rs : list Resource) (f : Fetched) : Prop := {
  fo_submission id x :
    ft_submissions f !! id = Some x ↔ (x ∈ t_submissions t ∧ sb_id x = id) ∧ id ∈ submission_ids rs;
  fo_problem pid p :
    ft_problems f !! pid = Some p ↔
    (p ∈ t_problems t ∧ pb_id p = pid ∧ pb_deleted p = false) ∧ pid ∈ standalone_problem_ids rs;
  fo_problem_contest pid cid :
    cid ∈ default [] (ft_problem_contest_ids f !! pid) ↔
    (cid, pid) ∈ t_contest_problems t ∧ pid ∈ standalone_problem_ids rs;
  fo_clarification id cl :
    ft_clarifications f !! id = Some cl ↔
    (cl ∈ t_clarifications t ∧ cl_id cl = id) ∧ id ∈ clarification_ids rs;
  fo_latest id cl :
    ft_clarifications f !! id = Some cl →
    default false (ft_latest_reply_public f !! id) = true ↔
    ∃ r, latest_reply t id r ∧ rp_is_public r = true;
  fo_contest cid c :
    ft_contests f !! cid = Some c ↔
    active_contest t cid c ∧
    cid ∈ needed_contests s rs (ft_submissions f) (ft_problem_contest_ids f);
  fo_member cid c :
    ft_contests f !! cid = Some c → cid ∈ ft_member_of f ↔ is_member t s cid;
  fo_pair cid pid :
    (cid, pid) ∈ ft_problem_in_contest f ↔
    (cid, pid) ∈ t_contest_problems t ∧
    cid ∈ (contest_problem_pairs rs).*1 ∧ pid ∈ (contest_problem_pairs rs).*2;
}.

Lemma skip_query {E B} (P : Prop) `{Decision P} (x y : B) :
  (P → x = y) → (if decide P then Ok x else Ok y) = Ok (E := E) y.
Proof. intros E'. case_decide; [f_equal; auto|done]. Qed.

Lemma filter_empty {A} (key : A → Z) (ids : gset Z) (Q : A → Prop) `{!∀ x, Decision (Q x)} rows :
  ids = ∅ → (∀ x, Q x → key x ∈ ids) → filter Q rows = [].
Proof. intros -> HQ. apply filter_none. intros x _ Hx. apply HQ in Hx. set_solver. Qed.

Lemma query_by_id {A} (key : A → Z) (ids : gset Z) (Q : A → Prop) `{!∀ x, Decision (Q x)} rows :
  (∀ x, Q x → key x ∈ ids) →
  (if decide (ids = ∅) then Ok ∅ else Ok (by_id key (filter Q rows)))
  = Ok (E := AppError) (by_id key (filter Q rows)).
Proof. intros HQ. apply skip_query. intros ->. by rewrite (filter_empty key ∅). Qed.

Lemma latest_public t (ids : gset Z) id :
  NoDup ((λ r, (rp_clarification_id r, rp_created_at r)) <$> t_replies t) → id ∈ ids →
  default false (latest_replies (filter (λ r, rp_clarification_id r ∈ ids) (t_replies t)) !! id) = true ↔
  ∃ r, latest_reply t id r ∧ rp_is_public r = true.
Proof.
  intros Hnd Hid. set (rows := filter _ _).
  assert (∀ r, rp_clarification_id r = id → r ∈ rows ↔ r ∈ t_replies t) as Hrows.
  { intros r E. unfold rows. rewrite list_elem_of_filter, E. tauto. }
  destruct (latest_replies rows !! id) as [b|] eqn:E; cbn.
  - apply latest_replies_lookup in E as (r & Hr & Eid & <- & Hmax).
    assert (latest_reply t id r) as Hl.
    { split_and!; [by apply Hrows|done|]. intros r' Hr' E'. apply Hmax; [by apply Hrows|done]. }
    split; [by exists r|]. intros (r2 & (Hr2 & E2 & Hmax2) & Hp).
    assert (r2 = r) as ->; [|done].
    apply (NoDup_fmap_elem _ _ r2 r Hnd); [done|by apply Hrows|]. f_equal; [congruence|].
    apply Z.le_antisymm; [by apply Hl|]. apply Hmax2; [by apply Hrows|done].
  - split; [done|]. intros (r & (Hr & Eid & _) & _).
    exfalso. by apply (latest_replies_none _ _ r E); [apply Hrows|].
Qed.

Lemma fetch_ok t s rs :
  tables_ok t → ∃ f, fetch (db_of t) s rs = Ok f ∧ fetched_ok t s rs f.
Proof.
  intros [Hs Hp Hc Hct Hr]. unfold fetch, find_in. cbn [db_submissions db_problems db_contest_problems
    db_clarifications db_replies db_contests db_contest_users db_of mbind result_bind].
  rewrite (query_by_id sb_id) by done. cbn [mbind result_bind].
  set (subs := by_id sb_id _).
  rewrite (query_by_id pb_id) by (by intros ? []).
  cbn [mbind result_bind]. set (probs := by_id pb_id _).
  rewrite (skip_query (standalone_problem_ids rs = ∅)) by (intros ->; by rewrite (filter_empty snd ∅)).
  cbn [mbind result_bind]. set (pcs := contests_by_problem _).
  rewrite (query_by_id cl_id) by done.
  cbn [mbind result_bind]. set (cls := by_id cl_id _).
  rewrite (skip_query (cls = ∅)).
  2: { intros ->. rewrite dom_empty_L. by rewrite (filter_empty rp_clarification_id ∅). }
  cbn [mbind result_bind].
  rewrite (query_by_id ct_id) by (by intros ? []).
  cbn [mbind result_bind]. set (cts := by_id ct_id _).
  set (members := match sj_user_id s with
                  | Some uid => list_to_set (fst <$> filter (λ cu, cu.2 = uid ∧ cu.1 ∈ dom cts) (t_contest_users t))
                  | None => ∅ end : gset Z).
  assert (match sj_user_id s with
          | Some uid => if decide (cts = ∅) then Ok ∅
              else Ok (list_to_set (fst <$> filter (λ cu, cu.2 = uid ∧ cu.1 ∈ dom cts) (t_contest_users t)))
          | None => Ok ∅ end = Ok (E := AppError) members) as ->.
  { subst members. destruct (sj_user_id s); [|done]. apply skip_query. intros ->.
    rewrite dom_empty_L. rewrite (filter_empty fst ∅); [done..|]. by intros ? []. }
  cbn [mbind result_bind].
  rewrite (skip_query (contest_problem_pairs rs = [])).
  2: { intros ->. rewrite filter_none; [done|]. by intros x _ [?%not_elem_of_nil _]. }
  cbn [mbind result_bind]. eexists. split; [reflexivity|]. split; cbn.
  - intros id x. unfold subs. rewrite by_id_lookup by by apply NoDup_fmap_filter.
    rewrite list_elem_of_filter. naive_solver.
  - intros pid p. unfold probs. rewrite by_id_lookup by by apply NoDup_fmap_filter.
    rewrite list_elem_of_filter. naive_solver.
  - intros pid cid. unfold pcs. rewrite contests_by_problem_lookup, list_elem_of_filter. naive_solver.
  - intros id cl. unfold cls. rewrite by_id_lookup by by apply NoDup_fmap_filter.
    rewrite list_elem_of_filter. naive_solver.
  - intros id cl Hcl. apply latest_public; [done|]. by eapply elem_of_dom_2.
  - intros cid c. unfold cts, active_contest. rewrite by_id_lookup by by apply NoDup_fmap_filter.
    rewrite list_elem_of_filter. naive_solver.
  - intros cid c Hcid. apply elem_of_dom_2 in Hcid. unfold members, is_member.
    destruct (sj_user_id s) as [uid|]; [|split; [set_solver|by intros (? & ? & _)]].
    rewrite elem_of_list_to_set, list_elem_of_fmap. setoid_rewrite list_elem_of_filter. split.
    + intros ([c' u'] & -> & [[Eu _] Hin]). cbn in *. subst u'. by exists uid.
    + intros (uid' & [= <-] & Hin). exists (cid, uid). auto.
  - intros cid pid. rewrite elem_of_list_to_set, list_elem_of_filter. cbn. tauto.
Qed.

(** ** Each resource *)

(** A decision without masks that answers a question. *)
Definition decides (d : Kernel.Decision) (P : Prop) : Prop :=
  match d with Kernel.Allow => P | Kernel.Redact _ => False | Kernel.Deny => ¬ P end.

Lemma decides_iff d P Q : (P ↔ Q) → decides d P → decides d Q.
Proof. destruct d; cbn; tauto. Qed.

#[export] Instance decides_proper d : Proper (iff ==> iff) (decides d).
Proof. intros P Q E. split; apply decides_iff; by rewrite E. Qed.

Lemma decides_not_denied d P : decides d P → Kernel.is_denied d = false ↔ P.
Proof. destruct d; cbn; naive_solver. Qed.

Lemma subject_has_spec s p : subject_has s p = true ↔ holds s p.
Proof.
  unfold subject_has, holds. rewrite existsb_exists. setoid_rewrite <- list_elem_of_In.
  setoid_rewrite bool_decide_eq_true. naive_solver.
Qed.

Lemma window_spec c now : window_is_closed c now = false ↔ is_open now c.
Proof.
  unfold window_is_closed, is_open. rewrite orb_false_iff. f_equiv.
  - destruct (ct_activate_time c) as [a|]; [|naive_solver]. rewrite Z.ltb_ge. naive_solver.
  - destruct (ct_deactivate_time c) as [d|]; [|naive_solver]. rewrite Z.leb_gt. naive_solver.
Qed.

Section decisions.
Context (t : Tables) (s : Subject) (now : Z) (rs : list Resource) (f : Fetched).
Context (Hf : fetched_ok t s rs f).

Local Notation fetched_contest cid c :=
  (ft_contests f !! cid = Some c).

Lemma check_access_spec cid c :
  fetched_contest cid c →
  decides (check_contest_access_decision s c now (ft_member_of f))
    (holds s CONTEST_MANAGE ∨ is_open now c ∧ (ct_is_public c = true ∨ is_member t s cid)).
Proof.
  intros Hc. rewrite <- (fo_member _ _ _ _ Hf cid c Hc), <- window_spec, <- subject_has_spec.
  apply (fo_contest _ _ _ _ Hf) in Hc as [(_ & <- & _) _].
  unfold check_contest_access_decision.
  destruct (subject_has s CONTEST_MANAGE); [by left|]. destruct (window_is_closed c now); [cbn; naive_solver|].
  destruct (ct_is_public c); [cbn; tauto|]. case_decide; cbn; naive_solver.
Qed.

(** A contest the batch needs is fetched when it is there. *)
Lemma contest_decided cid :
  cid ∈ needed_contests s rs (ft_submissions f) (ft_problem_contest_ids f) →
  decides (decide_contest s now cid f) (may_enter t s now cid).
Proof.
  intros Hneed. unfold decide_contest, may_enter. destruct (ft_contests f !! cid) as [c|] eqn:E.
  - eapply decides_iff; [|by apply (check_access_spec cid)].
    pose proof E as [Ha _]%(fo_contest _ _ _ _ Hf). split; [by exists c|].
    intros (c' & Ha' & Hc'). assert (ft_contests f !! cid = Some c') as E' by by apply (fo_contest _ _ _ _ Hf).
    congruence.
  - cbn. intros (c & Ha & _). assert (ft_contests f !! cid = Some c) by by apply (fo_contest _ _ _ _ Hf).
    congruence.
Qed.

Lemma contest_found cid c :
  cid ∈ needed_contests s rs (ft_submissions f) (ft_problem_contest_ids f) →
  active_contest t cid c ↔ fetched_contest cid c.
Proof. intros Hneed. rewrite (fo_contest _ _ _ _ Hf). tauto. Qed.

Lemma needed_directly r cid :
  r ∈ rs → match r with RContest i => i = cid | RProblem (Some i) _ | RSample (Some i) _ => i = cid | _ => False end →
  cid ∈ needed_contests s rs (ft_submissions f) (ft_problem_contest_ids f).
Proof.
  intros Hr Hcid. unfold needed_contests. do 2 apply elem_of_union_l.
  apply elem_of_list_to_set, list_elem_of_omap. exists r. split; [done|].
  by destruct r as [|[|] ?|[|] ?| | |]; subst.
Qed.

Lemma needed_for_problem pid cid :
  cid ∈ default [] (ft_problem_contest_ids f !! pid) →
  cid ∈ needed_contests s rs (ft_submissions f) (ft_problem_contest_ids f).
Proof.
  intros Hcid. unfold needed_contests. apply elem_of_union_r, elem_of_list_to_set.
  destruct (ft_problem_contest_ids f !! pid) as [l|] eqn:E; [|by apply not_elem_of_nil in Hcid].
  apply list_elem_of_join. exists l. split; [done|]. apply list_elem_of_fmap. exists (pid, l).
  split; [done|]. by apply elem_of_map_to_list.
Qed.

Lemma needed_for_submission id sub cid :
  ft_submissions f !! id = Some sub → sb_contest_id sub = Some cid →
  subject_has s SUBMISSION_VIEW_ALL = false → sj_user_id s ≠ Some (sb_user_id sub) →
  cid ∈ needed_contests s rs (ft_submissions f) (ft_problem_contest_ids f).
Proof.
  intros Hsub Hcid Hview Hown. unfold needed_contests. apply elem_of_union_l, elem_of_union_r.
  apply elem_of_list_to_set, list_elem_of_omap. exists (id, sub).
  split; [by apply elem_of_map_to_list|]. cbn [snd]. by rewrite Hview, bool_decide_eq_false_2.
Qed.

Lemma in_contest_decided cid pid :
  RProblem (Some cid) pid ∈ rs ∨ RSample (Some cid) pid ∈ rs →
  decides (decide_problem_or_sample s now (Some cid) pid f)
    (may_enter t s now cid ∧ (cid, pid) ∈ t_contest_problems t).
Proof.
  intros Hr.
  assert (cid ∈ needed_contests s rs (ft_submissions f) (ft_problem_contest_ids f)) as Hneed
    by (destruct Hr as [Hr|Hr]; by apply (needed_directly _ _ Hr)).
  assert ((cid, pid) ∈ contest_problem_pairs rs) as Hpair.
  { unfold contest_problem_pairs. apply list_elem_of_omap. destruct Hr as [Hr|Hr]; eauto. }
  assert ((cid, pid) ∈ ft_problem_in_contest f ↔ (cid, pid) ∈ t_contest_problems t) as Hin.
  { rewrite (fo_pair _ _ _ _ Hf). split; [tauto|]. intros Ht. split_and!; [done|..].
    - apply (list_elem_of_fmap_2 fst _ _ Hpair).
    - apply (list_elem_of_fmap_2 snd _ _ Hpair). }
  pose proof (contest_decided cid Hneed) as Henter. unfold decide_contest in Henter.
  unfold decide_problem_or_sample. destruct (ft_contests f !! cid) as [c|] eqn:E; [|cbn in *; tauto].
  destruct (Kernel.is_denied (check_contest_access_decision s c now (ft_member_of f))) eqn:Ed.
  { cbn. intros [He _]. apply (decides_not_denied _ _ Henter) in He. congruence. }
  apply (decides_not_denied _ _ Henter) in Ed as He.
  assert (Kernel.is_denied (require_contest_started_window_decision s c now) = false) as ->.
  { unfold require_contest_started_window_decision. unfold check_contest_access_decision in Ed.
    destruct (subject_has _ _); [done|]. by destruct (window_is_closed _ _). }
  case_decide; cbn; tauto.
Qed.

Lemma open_contests_spec pid (P : ContestRow → bool) :
  existsb P (filter (λ c, negb (window_is_closed c now) && (ct_start_time c <=? now)%Z = true)
               (omap (λ cid, ft_contests f !! cid) (default [] (ft_problem_contest_ids f !! pid)))) = true
  ↔ ∃ cid c, cid ∈ default [] (ft_problem_contest_ids f !! pid) ∧ active_contest t cid c ∧
      is_open now c ∧ (ct_start_time c ≤ now)%Z ∧ P c = true.
Proof.
  rewrite existsb_exists. setoid_rewrite <- list_elem_of_In. setoid_rewrite list_elem_of_filter.
  setoid_rewrite list_elem_of_omap. setoid_rewrite andb_true_iff. setoid_rewrite negb_true_iff.
  setoid_rewrite window_spec. setoid_rewrite Z.leb_le. split.
  - intros (c & ((Ho & Hst) & (cid & Hcid & Hc)) & HP). exists cid, c. split_and!; try done.
    apply contest_found; [by eapply needed_for_problem|done].
  - intros (cid & c & Hcid & Ha & Ho & Hst & HP). exists c. split_and!; try done.
    exists cid. split; [done|]. apply contest_found; [by eapply needed_for_problem|done].
Qed.

Lemma member_fetched cid c : fetched_contest cid c → cid ∈ ft_member_of f ↔ is_member t s cid.
Proof. apply (fo_member _ _ _ _ Hf). Qed.

(** A contest of a hidden problem lets the subject read it. *)
Lemma open_contest_decided pid :
  pid ∈ standalone_problem_ids rs →
  let open := filter (λ c, negb (window_is_closed c now) && (ct_start_time c <=? now)%Z = true)
                (omap (λ cid, ft_contests f !! cid) (default [] (ft_problem_contest_ids f !! pid))) in
  existsb ct_is_public open = true ∨
  existsb (λ c, bool_decide (ct_id c ∈ ft_member_of f)) open = true ↔
  ∃ cid c, (cid, pid) ∈ t_contest_problems t ∧ active_contest t cid c ∧ is_open now c ∧
    (ct_start_time c ≤ now)%Z ∧ (ct_is_public c = true ∨ is_member t s cid).
Proof.
  intros Hpid. cbv zeta. rewrite !open_contests_spec. setoid_rewrite (fo_problem_contest _ _ _ _ Hf).
  assert (∀ cid c, (cid, pid) ∈ t_contest_problems t → active_contest t cid c →
    bool_decide (ct_id c ∈ ft_member_of f) = true ↔ is_member t s cid) as Hm.
  { intros cid c Hcp Ha. rewrite bool_decide_eq_true. rewrite (proj1 (proj2 Ha)). apply (member_fetched cid c).
    apply contest_found; [|done]. eapply needed_for_problem. by apply (fo_problem_contest _ _ _ _ Hf). }
  split.
  - intros [(cid & c & [Hcp _] & Ha & Ho & Hst & HP)|(cid & c & [Hcp _] & Ha & Ho & Hst & HP)];
      exists cid, c; split_and!; try done; [by left|right; by apply (Hm cid c)].
  - intros (cid & c & Hcp & Ha & Ho & Hst & [HP|HP]); [left|right]; exists cid, c; split_and!; try done.
    by apply (Hm cid c).
Qed.

Lemma standalone_decided pid :
  pid ∈ standalone_problem_ids rs →
  decides (decide_standalone_problem_access s now pid f) (may_read_problem t s now pid).
Proof.
  intros Hpid. unfold decide_standalone_problem_access, may_read_problem.
  destruct (ft_problems f !! pid) as [p|] eqn:E.
  2: { cbn. intros (p & Hp & Hid & Hd & _).
       assert (ft_problems f !! pid = Some p) by by apply (fo_problem _ _ _ _ Hf). congruence. }
  assert (∀ Q : ProblemRow → Prop,
    (∃ p, p ∈ t_problems t ∧ pb_id p = pid ∧ pb_deleted p = false ∧ Q p) ↔ Q p) as Hp.
  { intros Q. pose proof E as [(? & ? & ?) _]%(fo_problem _ _ _ _ Hf). split; [|eauto].
    intros (p' & ? & ? & ? & HQ).
    assert (ft_problems f !! pid = Some p') by by apply (fo_problem _ _ _ _ Hf). congruence. }
  rewrite Hp. clear Hp E. setoid_rewrite <- subject_has_spec.
  destruct (subject_has s PROBLEM_CREATE); [by left|]. destruct (subject_has s PROBLEM_EDIT); [cbn; auto|].
  destruct (pb_is_public p); [cbn; auto|]. cbn [orb].
  assert ((∃ cid, (cid, pid) ∈ t_contest_problems t) ↔ default [] (ft_problem_contest_ids f !! pid) ≠ [])
    as Hsome.
  { setoid_rewrite <- (λ cid, iff_trans (fo_problem_contest _ _ _ _ Hf pid cid)
                           (conj (λ h, proj1 h) (λ h, conj h Hpid))).
    split; [intros (cid & Hcid) E; rewrite E in Hcid; by apply not_elem_of_nil in Hcid|].
    destruct (default [] _) as [|cid l]; [done|]. intros _. exists cid. by left. }
  pose proof (open_contest_decided pid Hpid) as Hopen. cbv zeta in Hopen.
  case_decide as Hnil.
  { cbn. intros [?|[?|[?|(cid & Hcid & _)]]]; [done..|]. by apply Hsome; [exists cid|]. }
  destruct (subject_has s CONTEST_MANAGE).
  { cbn. apply Hsome in Hnil as (cid & Hcid). right. right. right. exists cid. auto. }
  destruct (existsb ct_is_public _) eqn:E1.
  { cbn. destruct Hopen as [(cid & c & ? & Hrest) _]; [by left|]. do 3 right. exists cid. eauto. }
  destruct (existsb (λ c, bool_decide (ct_id c ∈ ft_member_of f)) _) eqn:E2.
  { cbn. destruct Hopen as [(cid & c & ? & Hrest) _]; [by right|]. do 3 right. exists cid. eauto. }
  cbn. intros [?|[?|[?|(cid & Hcid & [?|(c & Hrest)])]]]; try done.
  destruct Hopen as [_ [?|?]]; [by exists cid, c|congruence..].
Qed.

Lemma submission_decided id :
  RSubmission id ∈ rs → decides (decide_submission s now id f) (may_read_submission t s now id).
Proof.
  intros Hr. assert (id ∈ submission_ids rs) as Hid.
  { apply elem_of_list_to_set, list_elem_of_omap. eauto. }
  unfold decide_submission, may_read_submission. destruct (ft_submissions f !! id) as [sub|] eqn:E.
  2: { cbn. intros (x & Hx & Ex & _).
       assert (ft_submissions f !! id = Some x) by by apply (fo_submission _ _ _ _ Hf). congruence. }
  assert (∀ Q : SubmissionRow → Prop, (∃ x, x ∈ t_submissions t ∧ sb_id x = id ∧ Q x) ↔ Q sub) as Hs.
  { intros Q. pose proof E as [[? ?] _]%(fo_submission _ _ _ _ Hf). split; [|eauto].
    intros (x & ? & ? & HQ).
    assert (ft_submissions f !! id = Some x) by by apply (fo_submission _ _ _ _ Hf). congruence. }
  rewrite Hs. clear Hs. setoid_rewrite <- subject_has_spec.
  destruct (subject_has s SUBMISSION_VIEW_ALL) eqn:Ev; [by left|].
  case_decide as Hown; [cbn; auto|].
  destruct (sb_contest_id sub) as [cid|] eqn:Ec; [|cbn; naive_solver].
  pose proof (needed_for_submission _ _ _ E Ec Ev Hown) as Hneed.
  pose proof (contest_decided cid Hneed) as Henter. unfold decide_contest in Henter.
  destruct (ft_contests f !! cid) as [c|] eqn:Efc.
  2: { cbn. intros [?|[?|(cid' & c & [= <-] & Ha & _)]]; [done..|].
       apply (contest_found cid c Hneed) in Ha. congruence. }
  pose proof (member_fetched cid c Efc) as Hm.
  assert (∀ c', active_contest t cid c' → c' = c) as Huniq.
  { intros c' Ha%(contest_found cid c' Hneed). congruence. }
  pose proof Efc as Ha%(contest_found cid c Hneed).
  destruct (Kernel.is_denied (check_contest_access_decision s c now (ft_member_of f))) eqn:Ed.
  { cbn. intros [?|[?|(cid' & c' & [= <-] & _ & He & _)]]; [done..|].
    apply (decides_not_denied _ _ Henter) in He. congruence. }
  apply (decides_not_denied _ _ Henter) in Ed as He.
  destruct (bool_decide (cid ∈ ft_member_of f)) eqn:Eb; cbn [negb orb].
  2: { apply bool_decide_eq_false in Eb. cbn. naive_solver. }
  apply bool_decide_eq_true in Eb. destruct (ct_submissions_visible c) eqn:Evis; cbn [negb orb].
  - cbn. right. right. exists cid, c. tauto.
  - cbn. intros [?|[?|(cid' & c' & [= <-] & Ha'%Huniq & _ & _ & Hv)]]; [done..|]. congruence.
Qed.

Lemma clarification_decided id :
  RClarification id ∈ rs → rules t s now (RClarification id) (decide_clarification s id f).
Proof.
  intros Hr. assert (id ∈ clarification_ids rs) as Hid.
  { apply elem_of_list_to_set, list_elem_of_omap. eauto. }
  unfold decide_clarification. destruct (ft_clarifications f !! id) as [cl|] eqn:E.
  2: { cbn. intros (x & Hx & Ex & _).
       assert (ft_clarifications f !! id = Some x) by by apply (fo_clarification _ _ _ _ Hf). congruence. }
  assert (∀ Q : ClarificationRow → Prop, (∃ x, x ∈ t_clarifications t ∧ cl_id x = id ∧ Q x) ↔ Q cl) as Hc.
  { intros Q. pose proof E as [[? ?] _]%(fo_clarification _ _ _ _ Hf). split; [|eauto].
    intros (x & ? & ? & HQ).
    assert (ft_clarifications f !! id = Some x) by by apply (fo_clarification _ _ _ _ Hf). congruence. }
  pose proof (fo_latest _ _ _ _ Hf id cl E) as Hlatest.
  set (part := subject_has s CONTEST_MANAGE || _ || _).
  assert (part = true ↔ takes_part s cl) as Hpart.
  { subst part. unfold takes_part. rewrite !orb_true_iff, andb_true_iff, !bool_decide_eq_true, subject_has_spec.
    destruct (sj_user_id s) as [uid|]; naive_solver. }
  destruct part; cbn [negb andb].
  - cbn. rewrite !Hc. naive_solver.
  - assert (¬ takes_part s cl) as Hno by (intros H%Hpart; done).
    destruct (cl_is_public cl) eqn:Ep; cbn [negb]; [|cbn; rewrite Hc, Ep; naive_solver].
    destruct (default false _) eqn:El; cbn; rewrite !Hc, Ep, <- Hlatest; naive_solver.
Qed.

Lemma rules_of_decides r d :
  match r with RClarification _ => False | _ => True end →
  decides d (readable t s now r) → rules t s now r d.
Proof. destruct r, d; cbn; naive_solver. Qed.

Lemma decide_one_rules r : r ∈ rs → rules t s now r (decide_one s now f r).
Proof.
  intros Hr. assert (∀ pid, match r with RProblem None i | RSample None i | RAttachment i _ => i = pid | _ => False end →
    pid ∈ standalone_problem_ids rs) as Hpid.
  { intros pid E. apply elem_of_list_to_set, list_elem_of_omap. exists r. split; [done|].
    by destruct r as [|[|] ?|[|] ?| | |]; subst. }
  destruct r as [id|[cid|] pid|[cid|] pid|pid a|id|id]; cbn [decide_one decide_problem_or_sample];
    [..|by apply clarification_decided]; (apply rules_of_decides; [done|]); cbn [readable].
  - apply contest_decided. by apply (needed_directly _ _ Hr).
  - apply in_contest_decided. by left.
  - by apply standalone_decided, Hpid.
  - apply in_contest_decided. by right.
  - by apply standalone_decided, Hpid.
  - by apply standalone_decided, Hpid.
  - by apply submission_decided.
Qed.
End decisions.

(** The contests of the submissions asked about come with the decisions. *)
Definition submission_contests (t : Tables) (rs : list Resource) (subs : gmap Z (option Z)) : Prop :=
  ∀ sub, sub ∈ t_submissions t → RSubmission (sb_id sub) ∈ rs → subs !! sb_id sub = Some (sb_contest_id sub).

Lemma host_decide_rules t s now rs :
  tables_ok t → sj_admin_override s = false →
  ∃ ds subs clars, host_decide (db_of t) s now rs = Ok (ds, subs, clars) ∧
    Forall2 (rules t s now) rs ds ∧ submission_contests t rs subs.
Proof.
  intros Ht Hs. unfold host_decide. rewrite Hs.
  destruct (fetch_ok t s rs Ht) as (f & -> & Hf). cbn [mbind result_bind].
  do 3 eexists. split_and!; [done| |].
  - apply Forall2_fmap_r, Forall_Forall2_diag, Forall_forall. intros r Hr. by eapply decide_one_rules.
  - intros sub Hsub Hr. rewrite lookup_fmap. apply fmap_Some. exists sub. split; [|done].
    apply (fo_submission t s rs f Hf). split; [done|].
    apply elem_of_list_to_set, list_elem_of_omap. by exists (RSubmission (sb_id sub)).
Qed.

(** C32. The server's own rules, in a batch.  Whatever the batch, every resource gets
    the decision of the rules as they are stated on the tables: the few rows that
    are fetched, shared by all resources, are enough, and no resource of the batch
    changes the decision of another.  An administrative reader is allowed
    everything. *)
Theorem host_decide_refines (t : Tables) (s : Subject) (now : Z) (rs : list Resource) :
  tables_ok t →
  ∃ ds submissions clarifications,
    host_decide (db_of t) s now rs = Ok (ds, submissions, clarifications) ∧
    if sj_admin_override s then ds = (λ _, Kernel.Allow) <$> rs
    else Forall2 (rules t s now) rs ds.
Proof.
  intros Ht. destruct (sj_admin_override s) eqn:Es; [unfold host_decide; rewrite Es; by eauto|].
  destruct (host_decide_rules t s now rs Ht Es) as (ds & subs & clars & -> & Hds & _). by eauto.
Qed.
