(* ===== verification/Visibility.v ===== *)
(** * Visibility: the visibility kernel of the server

    packages/server/src/visibility/plugin_query.rs, mod.rs and visible.rs: the
    server decides a batch of resources by its own rules ([HostRules]), asks the
    plugins about what it did not deny, keeps the meet of all answers for the
    time of the request, and renders what a viewer gets.

    The plugins, the tables and the clock belong to a world [W] that calls may
    change: [call] runs a function of a plugin, an error being any failure of the
    call or an answer that cannot be read. *)

From stdpp Require Import base gmap sets list.
From S2P Require Import Prelude.
From S2P Require Import Text Float Verdict Sdk Host Json VisibilityApi Mask HostRules.

Import Kernel.

(** ** The answers of the plugins (plugin_query.rs) *)

Inductive PluginStatus := Unloaded | Loaded | Failed (message : ustring).

#[global] Instance PluginStatus_eq_dec : EqDecision PluginStatus.
Proof. solve_decision. Defined.

Record ServerQuery := { sq_topic : ustring; sq_function : ustring }.

(** What the registry knows of a plugin; a plugin without a server part has no
    queries. *)
Record PluginEntry := {
  pe_id : ustring;
  pe_status : PluginStatus;
  pe_queries : option (list ServerQuery);
}.

Record VisibilityQuerier := { qr_plugin_id : ustring; qr_function : ustring }.

(** The registry in the order its map is read, or nothing when its lock is
    poisoned. *)
Definition visibility_queriers (registry : option (list PluginEntry))
    : option (list VisibilityQuerier) :=
  (λ entries, entries ≫= λ entry,
     match pe_queries entry with
     | None => []
     | Some queries =>
         if decide (pe_status entry ≠ Loaded) then []
         else (λ q, {| qr_plugin_id := pe_id entry; qr_function := sq_function q |})
                <$> filter (λ q, sq_topic q = u "visibility") queries
     end) <$> registry.

Definition MAX_MASK_PATH_SEGMENTS : nat := 32.
Definition MAX_MASK_PATH_BYTES : nat := 256.
Definition MAX_MASK_FIELDS : nat := 64.

Definition validate_path (path : ustring) : result ustring unit :=
  if MAX_MASK_PATH_BYTES <? length (encode path) then Err (u "mask path exceeds max byte length")
  else if MAX_MASK_PATH_SEGMENTS <? length (split_dot path)
  then Err (u "mask path exceeds max segment count")
  else Ok tt.

Fixpoint validate_paths (fields : list ustring) : result ustring unit :=
  match fields with
  | [] => Ok tt
  | path :: fields => _ ← validate_path path; validate_paths fields
  end.

Definition validate_redact_fields (fields : list ustring) : result ustring unit :=
  if MAX_MASK_FIELDS <? length fields then Err (u "too many fields in one Redact decision")
  else validate_paths fields.

Definition valid_answer (d : WireDecision) : bool :=
  match d with VisibilityApi.Redact fields => is_Ok (validate_redact_fields fields) | _ => true end.

Definition of_wire (d : WireDecision) : Kernel.Decision :=
  match d with
  | VisibilityApi.Allow => Allow
  | VisibilityApi.Deny => Deny
  | VisibilityApi.Redact fields => Redact (new_mask fields)
  end.

Definition decisions_from_output (output : result ustring VisibilityQueryOutput)
    (expected_len : nat) : list Kernel.Decision :=
  match output with
  | Err _ => replicate expected_len Deny
  | Ok out =>
      if negb (length (vo_decisions out) =? expected_len) then replicate expected_len Deny
      else if forallb valid_answer (vo_decisions out) then of_wire <$> vo_decisions out
      else replicate expected_len Deny
  end.

Definition meet_positionally (acc next : list Kernel.Decision) : list Kernel.Decision :=
  zip_with meet acc next.

Definition enforce_mask_cap_post_union (decisions : list Kernel.Decision) : list Kernel.Decision :=
  (λ d, match d with
        | Redact mask => if MAX_MASK_FIELDS <? size mask then Deny else d
        | _ => d
        end) <$> decisions.

(** ** The scope of a resource (mod.rs) *)

(** The contest a batch is about, when its resources name exactly one. *)
Definition contest_scope (rs : list Resource) : option Z :=
  let ids : gset Z := list_to_set (omap (λ r, match r with
    | RContest id => Some id
    | RProblem (Some cid) _ | RSample (Some cid) _ => Some cid
    | _ => None
    end) rs) in
  if decide (size ids = 1) then head (elements ids) else None.

Definition resource_contest_id (r : Resource) (submission_contest_ids : gmap Z (option Z))
    (clarification_contest_ids : gmap Z Z) : option Z :=
  match r with
  | RContest id => Some id
  | RProblem contest_id _ | RSample contest_id _ => contest_id
  | RSubmission id => default None (submission_contest_ids !! id)
  | RClarification id => clarification_contest_ids !! id
  | RAttachment _ _ => None
  end.

(** ** Feedback that plugins hold back (services/submission_feedback.rs) *)

Inductive Feedback := Pending | Published (result : SubmissionFeedbackResult).

Definition set_if_present (key : ustring) (x : Value) (v : Value) : Value :=
  match v with
  | VObject fields => VObject (alter_field (λ _, x) key fields)
  | _ => v
  end.

Definition apply_public_result (result : SubmissionFeedbackResult) (value : Value) : Value :=
  set_if_present (u "score") (VFloat (fr_score result))
    (set_if_present (u "verdict") (VString (serialize_verdict (fr_verdict result))) value).

(** A status is written into an object, or into a new one in place of null; any
    other document panics: [None]. *)
Definition project (feedback : Feedback) (value : Value) : option Value :=
  match feedback with
  | Pending =>
      let withhold fields :=
        foldl (λ v key, set_if_present key VNull v)
          (VObject (set_field (u "status") (VString (u "Running")) fields))
          [u "result"; u "verdict"; u "score"; u "time_used"; u "memory_used"; u "judged_at"] in
      match value with
      | VObject fields => Some (withhold fields)
      | VNull => Some (withhold [])
      | _ => None
      end
  | Published result =>
      Some (match apply_public_result result value with
            | VObject fields =>
                VObject (alter_field (λ v, match v with
                                           | VObject _ => apply_public_result result v
                                           | _ => v
                                           end) (u "result") fields)
            | v => v
            end)
  end.

Section kernel.
(** The text of a UUID. *)
Context (uuid_text : Z → ustring).

Context {W : Type}.
Context (registry : W → option (list PluginEntry)).
Context (call : VisibilityQuerier → VisibilityQueryInput → W → result ustring VisibilityQueryOutput * W).
Context (tables : W → Db) (clock : W → Z).
(** What plugins hold back of some submissions. *)
Context (load_feedback : list Z → W → result AppError (gmap Z Feedback)).

Definition query_resource (r : Resource) (contest_id : option Z) : QueryResource := {|
  vr_kind := wire_kind r; vr_id := wire_id uuid_text r; vr_contest_id := contest_id;
  vr_problem_id := wire_problem_id r |}.

Definition query_input (s : Subject) (action : Action) (contest_id : option Z) (rs : list Resource)
    (resource_contest_ids : list (option Z)) : VisibilityQueryInput := {|
  vq_subject := {| qs_user_id := sj_user_id s; qs_authenticated := sj_authenticated s;
                   qs_permissions := sj_permissions s |};
  vq_action := action_as_wire action;
  vq_context := contest_id;
  vq_resources := zip_with query_resource rs resource_contest_ids |}.

Fixpoint ask_queriers (queriers : list VisibilityQuerier) (input : VisibilityQueryInput) (n : nat)
    (combined : list Kernel.Decision) (w : W) : list Kernel.Decision * W :=
  match queriers with
  | [] => (combined, w)
  | querier :: queriers =>
      let '(output, w) := call querier input w in
      ask_queriers queriers input n (meet_positionally combined (decisions_from_output output n)) w
  end.

Definition query_plugins (s : Subject) (action : Action) (contest_id : option Z)
    (rs : list Resource) (resource_contest_ids : list (option Z)) (w : W)
    : list Kernel.Decision * W :=
  let n := length rs in
  if decide (rs = []) then ([], w)
  else
    match visibility_queriers (registry w) with
    | None => (replicate n Deny, w)
    | Some [] => (replicate n Allow, w)
    | Some queriers =>
        let input := query_input s action contest_id rs resource_contest_ids in
        let '(combined, w) := ask_queriers queriers input n (replicate n Allow) w in
        (enforce_mask_cap_post_union combined, w)
    end.

(** ** The kernel of a request (mod.rs) *)

Record VisibilityKernel := {
  vk_subject : Subject;
  vk_memo : gmap (Action * Resource) Kernel.Decision;
}.

Definition new_kernel (s : Subject) : VisibilityKernel := {| vk_subject := s; vk_memo := ∅ |}.

Definition with_memo (memo : gmap (Action * Resource) Kernel.Decision) (k : VisibilityKernel)
    : VisibilityKernel := {| vk_subject := vk_subject k; vk_memo := memo |}.

(** The first occurrence of each resource. *)
Fixpoint first_seen (seen : gset Resource) (rs : list Resource) : list Resource :=
  match rs with
  | [] => []
  | r :: rs => if decide (r ∈ seen) then first_seen seen rs else r :: first_seen ({[r]} ∪ seen) rs
  end.

(** The answer at each position is met with the decision of its target; [None]
    where an index is out of range. *)
Fixpoint meet_at (targets : list nat) (answers : list Kernel.Decision)
    (decisions : list Kernel.Decision) : option (list Kernel.Decision) :=
  match targets with
  | [] => Some decisions
  | i :: targets =>
      d ← decisions !! i;
      match answers with
      | [] => None
      | a :: answers => meet_at targets answers (<[i := meet d a]> decisions)
      end
  end.

(** Positions the server did not deny. *)
Definition targets_of (host_decisions : list Kernel.Decision) : list nat :=
  fst <$> filter (λ p, is_denied p.2 = false) (imap pair host_decisions).

(** The final decisions of the resources that were not known yet. *)
Definition decide_misses (s : Subject) (action : Action) (misses : list Resource) (w : W)
    : option (result AppError (list Kernel.Decision) * W) :=
  match host_decide (tables w) s (clock w) misses with
  | Err e => Some (Err e, w)
  | Ok (host_decisions, submission_contest_ids, clarification_contest_ids) =>
      if sj_admin_override s then Some (Ok host_decisions, w)
      else
        let indices := targets_of host_decisions in
        plugin_targets ← mapM (λ i, misses !! i) indices;
        if decide (plugin_targets = []) then Some (Ok host_decisions, w)
        else
          let contest_ids :=
            (λ r, resource_contest_id r submission_contest_ids clarification_contest_ids)
              <$> plugin_targets in
          let '(plugin_decisions, w) :=
            query_plugins s action (contest_scope plugin_targets) plugin_targets contest_ids w in
          final ← meet_at indices plugin_decisions host_decisions;
          Some (Ok final, w)
  end.

Definition remember (action : Action) (decided : list (Resource * Kernel.Decision))
    (memo : gmap (Action * Resource) Kernel.Decision) : gmap (Action * Resource) Kernel.Decision :=
  foldl (λ m p, <[(action, p.1) := p.2]> m) memo decided.

(** [None] where the code panics. *)
Definition decide_batch (action : Action) (rs : list Resource) (k : VisibilityKernel) (w : W)
    : option (result AppError (list Kernel.Decision) * VisibilityKernel * W) :=
  if decide (rs = []) then Some (Ok [], k, w)
  else
    let misses := filter (λ r, vk_memo k !! (action, r) = None) (first_seen ∅ rs) in
    '(r, k, w) ← (if decide (misses = []) then Some (Ok tt, k, w)
                  else
                    '(r, w) ← decide_misses (vk_subject k) action misses w;
                    match r with
                    | Err e => Some (Err e, k, w)
                    | Ok final =>
                        Some (Ok tt, with_memo (remember action (zip misses final) (vk_memo k)) k, w)
                    end);
    match r with
    | Err e => Some (Err e, k, w)
    | Ok _ => ds ← mapM (λ r, vk_memo k !! (action, r)) rs; Some (Ok ds, k, w)
    end.

Definition decide_single (action : Action) (r : Resource) (k : VisibilityKernel) (w : W)
    : option (result AppError Kernel.Decision * VisibilityKernel * W) :=
  '(ds, k, w) ← decide_batch action [r] k w;
  match ds with
  | Err e => Some (Err e, k, w)
  | Ok ds => d ← head ds; Some (Ok d, k, w)
  end.

(** ** What the viewer gets (visible.rs) *)

(** The entity, as its JSON. *)
Record Visible := {
  vs_inner : Value;
  vs_decision : Kernel.Decision;
  vs_feedback : option Feedback;
}.

(** Nothing is held back from a reader of all submissions. *)
Definition submission_feedback (s : Subject) (rs : list Resource) (w : W)
    : result AppError (gmap Z Feedback) :=
  if subject_has s SUBMISSION_VIEW_ALL then Ok ∅
  else
    let ids := omap (λ r, match r with RSubmission id => Some id | _ => None end) rs in
    if decide (ids = []) then Ok ∅ else load_feedback ids w.

Definition feedback_of (feedback : gmap Z Feedback) (r : Resource) : option Feedback :=
  match r with RSubmission id => feedback !! id | _ => None end.

Definition visible (feedback : gmap Z Feedback) (item : Resource * Value) (d : Kernel.Decision)
    : option Visible :=
  match d with
  | Deny => None
  | d => Some {| vs_inner := item.2; vs_decision := d; vs_feedback := feedback_of feedback item.1 |}
  end.

Definition fetch_visible (action : Action) (r : Resource) (entity : Value) (k : VisibilityKernel) (w : W)
    : option (result AppError (option Visible) * VisibilityKernel * W) :=
  '(d, k, w) ← decide_single action r k w;
  Some (match d with
        | Err e => Err e
        | Ok d =>
            feedback ← (if is_denied d then Ok ∅ else submission_feedback (vk_subject k) [r] w);
            Ok (visible feedback (r, entity) d)
        end, k, w).

Definition fetch_visible_batch (action : Action) (items : list (Resource * Value))
    (k : VisibilityKernel) (w : W)
    : option (result AppError (list (option Visible)) * VisibilityKernel * W) :=
  '(ds, k, w) ← decide_batch action items.*1 k w;
  Some (match ds with
        | Err e => Err e
        | Ok ds =>
            let allowed := fst <$> filter (λ p, is_denied p.2 = false) (zip items.*1 ds) in
            feedback ← submission_feedback (vk_subject k) allowed w;
            Ok (zip_with (visible feedback) items ds)
        end, k, w).

(** *** Long texts (packages/server-sdk/src/visibility.rs) *)

Definition DETAIL_TEXT_RESPONSE_LIMIT_BYTES : nat := 65536.

(** The characters whose bytes end by [limit]. *)
Fixpoint cap_chars (limit : nat) (text : ustring) : ustring :=
  match text with
  | [] => []
  | c :: text =>
      let n := length (encode_char c) in
      if n <=? limit then c :: cap_chars (limit - n) text else []
  end.

Definition cap_detail_text (text : ustring) : ustring :=
  if length (encode text) <=? DETAIL_TEXT_RESPONSE_LIMIT_BYTES then text
  else cap_chars DETAIL_TEXT_RESPONSE_LIMIT_BYTES text.

Definition cap_json_string_field (key : ustring) (fields : list (ustring * Value))
    : list (ustring * Value) :=
  alter_field (λ v, match v with VString text => VString (cap_detail_text text) | _ => v end) key fields.

Definition cap_case (case : Value) : Value :=
  match case with
  | VObject fields =>
      VObject (foldl (λ fs key, cap_json_string_field key fs) fields
        [u "input"; u "expected_output"; u "stdout"; u "stderr"; u "checker_output"])
  | _ => case
  end.

Definition cap_result (result : Value) : Value :=
  match result with
  | VObject fields =>
      let fields := foldl (λ fs key, cap_json_string_field key fs) fields
                      [u "compile_output"; u "error_message"] in
      VObject (alter_field (λ v, match v with VArray cases => VArray (cap_case <$> cases) | _ => v end)
                 (u "test_case_results") fields)
  | _ => result
  end.

Definition cap_submission_detail_texts (submission : Value) : Value :=
  match submission with
  | VObject fields => VObject (alter_field cap_result (u "result") fields)
  | _ => submission
  end.

(** [None] where the code panics. *)
Definition into_masked_json (v : Visible) : option Value :=
  value ← match vs_feedback v with Some feedback => project feedback (vs_inner v) | None => Some (vs_inner v) end;
  let value := match vs_decision v with Redact mask => apply_mask mask value | _ => value end in
  Some (cap_submission_detail_texts value).

End kernel.
