(* ===== verification/VisibilityProofs.v ===== *)
(** * VisibilityProofs: nothing is shown that the rules of the server deny

    Plugins can only take away: a decision of the kernel is below the decision of
    the server's rules and below the answer of every plugin, a plugin that fails
    denies, and what a viewer is sent is blank wherever a decision says so. *)

From stdpp Require Import base gmap sets list.
From S2P Require Import Prelude.
From S2P Require Import Text Float Verdict Sdk Host Json VisibilityApi.
From S2P Require Import Mask HostRules HostRulesProofs Visibility.

Import Kernel.

(** ** The answer of one plugin *)

(** An answer the server accepts: one decision for each resource, and every mask
    within bounds. *)
Definition accepted (n : nat) (output : result ustring VisibilityQueryOutput) : Prop :=
  ∃ out, output = Ok out ∧ length (vo_decisions out) = n ∧ forallb valid_answer (vo_decisions out) = true.

Lemma length_from_output output n : length (decisions_from_output output n) = n.
Proof.
  unfold decisions_from_output. destruct output as [out|]; [|apply length_replicate].
  destruct (Nat.eqb_spec (length (vo_decisions out)) n) as [E|]; cbn; [|apply length_replicate].
  destruct (forallb _ _); [by rewrite length_fmap|apply length_replicate].
Qed.

Lemma from_output_refused output n : ¬ accepted n output → decisions_from_output output n = replicate n Deny.
Proof.
  intros Hno. unfold decisions_from_output. destruct output as [out|]; [|done].
  destruct (Nat.eqb_spec (length (vo_decisions out)) n) as [E|]; cbn; [|done].
  destruct (forallb _ _) eqn:Ef; [|done]. destruct Hno. by exists out.
Qed.

Lemma from_output_accepted out n :
  accepted n (Ok out) → decisions_from_output (Ok out) n = of_wire <$> vo_decisions out.
Proof.
  intros (? & [= <-] & E & Ef). unfold decisions_from_output. by rewrite E, Nat.eqb_refl, Ef.
Qed.

(** The paths of a mask a plugin may ask for. *)
Definition path_ok (p : ustring) : Prop :=
  length (encode p) ≤ MAX_MASK_PATH_BYTES ∧ length (split_dot p) ≤ MAX_MASK_PATH_SEGMENTS.

Definition paths_ok (d : Kernel.Decision) : Prop :=
  match d with Redact m => ∀ p, p ∈ m → path_ok p | _ => True end.

Lemma validate_path_ok p : validate_path p = Ok tt → path_ok p.
Proof.
  unfold validate_path, path_ok. destruct (Nat.ltb_spec MAX_MASK_PATH_BYTES (length (encode p))); [done|].
  by destruct (Nat.ltb_spec MAX_MASK_PATH_SEGMENTS (length (split_dot p))).
Qed.

Lemma validate_paths_ok fields : validate_paths fields = Ok tt → ∀ p, p ∈ fields → path_ok p.
Proof.
  induction fields as [|p fields IH]; cbn; [by intros _ p ?%not_elem_of_nil|].
  destruct (validate_path p) as [[]|] eqn:E; [|done]. cbn. intros Hr q [-> |Hq]%elem_of_cons; [|by apply IH].
  by apply validate_path_ok.
Qed.

Lemma wire_paths_ok d : valid_answer d = true → paths_ok (of_wire d).
Proof.
  destruct d as [| |fields]; cbn; try done. unfold validate_redact_fields.
  destruct (Nat.ltb_spec MAX_MASK_FIELDS (length fields)); [done|]. destruct (validate_paths fields) as [[]|] eqn:E; [|done].
  intros _ p Hp%elem_of_list_to_set. by eapply validate_paths_ok.
Qed.

Lemma from_output_paths output n d : d ∈ decisions_from_output output n → paths_ok d.
Proof.
  unfold decisions_from_output. destruct output as [out|]; [|by intros [-> _]%elem_of_replicate].
  destruct (Nat.eqb_spec (length (vo_decisions out)) n); cbn; [|by intros [-> _]%elem_of_replicate].
  destruct (forallb _ _) eqn:Ef; [|by intros [-> _]%elem_of_replicate].
  intros (x & -> & Hx)%list_elem_of_fmap. apply wire_paths_ok.
  rewrite forallb_forall in Ef. by apply Ef, list_elem_of_In.
Qed.

Lemma from_output_lookup output n i d :
  decisions_from_output output n !! i = Some d →
  d = Deny ∨ ∃ out x, output = Ok out ∧ vo_decisions out !! i = Some x ∧ d = of_wire x.
Proof.
  unfold decisions_from_output. destruct output as [out|]; [|intros [-> _]%lookup_replicate; auto].
  destruct (_ =? _); cbn; [|intros [-> _]%lookup_replicate; auto].
  destruct (forallb _ _); [|intros [-> _]%lookup_replicate; auto].
  rewrite list_lookup_fmap. intros (x & Hx & ->)%fmap_Some. right. by exists out, x.
Qed.

(** ** The answers of all plugins *)

Lemma below_deny d : below d Deny → d = Deny.
Proof. unfold below. by destruct d. Qed.

Lemma deny_below d : below Deny d.
Proof. by destruct d. Qed.

Lemma meet_paths_ok a b : paths_ok a → paths_ok b → paths_ok (meet a b).
Proof. destruct a, b; cbn; try done. intros ? ? p [?|?]%elem_of_union; auto. Qed.

Lemma length_meet_positionally acc next :
  length acc = length next → length (meet_positionally acc next) = length acc.
Proof. intros E. unfold meet_positionally. rewrite length_zip_with. lia. Qed.

(** The decision left after the limit on the union of masks. *)
Definition capped (d : Kernel.Decision) : Kernel.Decision :=
  match d with Redact mask => if MAX_MASK_FIELDS <? size mask then Deny else d | _ => d end.

Lemma capped_below d : below (capped d) d.
Proof. destruct d as [|m|]; unfold capped; [done| |done].
  destruct (Nat.ltb_spec MAX_MASK_FIELDS (size m)); [apply deny_below|apply (idemp meet)].
Qed.

Section plugins.
Context {W : Type} (call : VisibilityQuerier → VisibilityQueryInput → W → result ustring VisibilityQueryOutput * W).

(** What the plugins answer, one after the other. *)
Fixpoint answers (queriers : list VisibilityQuerier) (input : VisibilityQueryInput) (w : W)
    : list (result ustring VisibilityQueryOutput) :=
  match queriers with
  | [] => []
  | q :: queriers => (call q input w).1 :: answers queriers input (call q input w).2
  end.

Definition combine (n : nat) (acc : list Kernel.Decision)
    (outputs : list (result ustring VisibilityQueryOutput)) : list Kernel.Decision :=
  foldl (λ acc output, meet_positionally acc (decisions_from_output output n)) acc outputs.

Lemma ask_queriers_combine queriers input n acc w :
  (ask_queriers call queriers input n acc w).1 = combine n acc (answers queriers input w).
Proof.
  revert acc w. induction queriers as [|q queriers IH]; intros acc w; cbn; [done|].
  destruct (call q input w) as [output w']. cbn. apply IH.
Qed.

Lemma combine_spec n outputs acc :
  length acc = n →
  length (combine n acc outputs) = n ∧
  ∀ i d, combine n acc outputs !! i = Some d →
    ∃ a, acc !! i = Some a ∧ below d a ∧ (paths_ok a → paths_ok d) ∧
      ∀ output, output ∈ outputs →
        ∃ b, decisions_from_output output n !! i = Some b ∧ below d b.
Proof.
  revert acc. induction outputs as [|output outputs IH]; intros acc Hlen; cbn.
  { split; [done|]. intros i d Hd. exists d. split_and!; [done|apply (idemp meet)|done|].
    by intros ? ?%not_elem_of_nil. }
  pose proof (length_from_output output n) as Ho.
  destruct (IH (meet_positionally acc (decisions_from_output output n))) as [Hl Hi].
  { rewrite length_meet_positionally; congruence. }
  split; [done|]. intros i d (a & Ha & Hda & Hpaths & Hall)%Hi.
  unfold meet_positionally in Ha. apply lookup_zip_with_Some in Ha as (x & y & -> & Hx & Hy).
  exists x. split_and!; [done|by etrans; [exact Hda|apply below_meet_l]| |].
  - intros Hpx. apply Hpaths, meet_paths_ok; [done|].
    eapply from_output_paths, list_elem_of_lookup_2, Hy.
  - intros o [-> |Ho']%elem_of_cons; [|by apply Hall].
    exists y. split; [done|]. etrans; [exact Hda|apply below_meet_r].
Qed.
End plugins.

Lemma enforce_capped ds : enforce_mask_cap_post_union ds = capped <$> ds.
Proof. done. Qed.

Section queries.
Context (uuid_text : Z → ustring) {W : Type}.
Context (registry : W → option (list PluginEntry)).
Context (call : VisibilityQuerier → VisibilityQueryInput → W → result ustring VisibilityQueryOutput * W).

(** What the plugins are asked about. *)
Local Notation input s action scope rs ids := (query_input uuid_text s action scope rs ids).

Lemma query_plugins_spec s action scope rs ids w :
  let ds := (query_plugins uuid_text registry call s action scope rs ids w).1 in
  length ds = length rs ∧ (∀ d, d ∈ ds → paths_ok d) ∧
  (∀ m, Redact m ∈ ds → size m ≤ MAX_MASK_FIELDS) ∧
  (visibility_queriers (registry w) = None → ∀ d, d ∈ ds → d = Deny) ∧
  ∀ queriers output i d,
    visibility_queriers (registry w) = Some queriers →
    output ∈ answers call queriers (input s action scope rs ids) w → ds !! i = Some d →
    ∃ b, decisions_from_output output (length rs) !! i = Some b ∧ below d b.
Proof.
  unfold query_plugins. case_decide as Hrs.
  { subst rs. cbn. split_and!; [done|by intros ? ?%not_elem_of_nil|by intros ? ?%not_elem_of_nil|
      by intros _ ? ?%not_elem_of_nil|done]. }
  destruct (visibility_queriers (registry w)) as [[|q queriers]|] eqn:Eq.
  - cbn [fst]. split_and!; [apply length_replicate|by intros d [-> _]%elem_of_replicate|
      by intros m [? _]%elem_of_replicate|done|].
    intros ? output i d [= <-]. by intros ?%not_elem_of_nil.
  - rewrite (surjective_pairing (ask_queriers _ _ _ _ _ _)). cbv zeta beta iota. cbn [fst].
    rewrite ask_queriers_combine, enforce_capped.
    set (outputs := answers call (q :: queriers) _ w).
    destruct (combine_spec (length rs) outputs (replicate (length rs) Allow)) as [Hlen Hall];
      [apply length_replicate|].
    assert (∀ i d, (capped <$> combine (length rs) (replicate (length rs) Allow) outputs) !! i = Some d →
      ∃ c, d = capped c ∧ paths_ok c ∧ ∀ output, output ∈ outputs →
        ∃ b, decisions_from_output output (length rs) !! i = Some b ∧ below c b) as Hd.
    { intros i d. rewrite list_lookup_fmap. intros (c & Hc & ->)%fmap_Some.
      destruct (Hall i c Hc) as (a & Ha & _ & Hp & Hout). exists c. split_and!; [done| |done].
      apply Hp. apply lookup_replicate in Ha as [-> _]. done. }
    split_and!; [by rewrite length_fmap| | |done|].
    + intros d (i & (c & -> & Hp & _)%Hd)%list_elem_of_lookup. destruct c as [|m|]; [done| |done].
      unfold capped. by destruct (MAX_MASK_FIELDS <? size m).
    + intros m (i & (c & E & _)%Hd)%list_elem_of_lookup. destruct c as [|m'|]; unfold capped in E; try done.
      destruct (Nat.ltb_spec MAX_MASK_FIELDS (size m')); [done|]. by injection E as ->.
    + intros ? output i d [= <-] Hout (c & -> & _ & Hall')%Hd.
      destruct (Hall' output Hout) as (b & Hb & Hcb). exists b. split; [done|].
      etrans; [apply capped_below|done].
  - cbn [fst]. split_and!; [apply length_replicate|by intros d [-> _]%elem_of_replicate|
      by intros m [? _]%elem_of_replicate|by intros _ d [-> _]%elem_of_replicate|done].
Qed.

(** C34. The answers of plugins fail closed.  Every resource asked about gets one
    decision; it is below the answer of every plugin asked; a plugin that fails,
    answers for the wrong number of resources or asks for a mask out of bounds
    denies them all, as does a poisoned registry; and a mask that is let through
    names at most 64 paths, each of at most 256 bytes and 32 segments. *)
Theorem plugin_answers_fail_closed (s : Subject) action scope rs ids w :
  let ds := (query_plugins uuid_text registry call s action scope rs ids w).1 in
  length ds = length rs ∧
  (∀ d, d ∈ ds → paths_ok d) ∧ (∀ m, Redact m ∈ ds → size m ≤ MAX_MASK_FIELDS) ∧
  (visibility_queriers (registry w) = None → ∀ d, d ∈ ds → d = Deny) ∧
  ∀ queriers output,
    visibility_queriers (registry w) = Some queriers →
    output ∈ answers call queriers (input s action scope rs ids) w →
    (¬ accepted (length rs) output → ∀ d, d ∈ ds → d = Deny) ∧
    ∀ i d, ds !! i = Some d →
      ∃ b, decisions_from_output output (length rs) !! i = Some b ∧ below d b.
Proof.
  destruct (query_plugins_spec s action scope rs ids w) as (Hlen & Hp & Hcap & Hnone & Hall).
  cbv zeta. split_and!; [done..|]. intros queriers output Hq Hout. split; [|by intros; eapply Hall].
  intros Hno d (i & Hi)%list_elem_of_lookup. destruct (Hall _ _ _ _ Hq Hout Hi) as (b & Hb & Hdb).
  rewrite from_output_refused in Hb by done. apply lookup_replicate in Hb as [-> _].
  by apply below_deny.
Qed.
End queries.

(** ** One batch *)

Lemma targets_spec ds i :
  i ∈ targets_of ds ↔ ∃ d, ds !! i = Some d ∧ is_denied d = false.
Proof.
  unfold targets_of. rewrite list_elem_of_fmap. setoid_rewrite list_elem_of_filter. split.
  - intros ([j d] & -> & Hd & (k & Hk)%list_elem_of_lookup). cbn in *.
    rewrite list_lookup_imap in Hk. apply fmap_Some in Hk as (d' & Hd' & [= -> ->]). by exists d'.
  - intros (d & Hi & Hd). exists (i, d). split_and!; [done|done|].
    apply list_elem_of_lookup. exists i. by rewrite list_lookup_imap, Hi.
Qed.

Lemma NoDup_targets ds : NoDup (targets_of ds).
Proof.
  unfold targets_of. apply NoDup_fmap_filter.
  assert ((imap pair ds).*1 = seq 0 (length ds)) as ->; [|apply NoDup_seq].
  rewrite fmap_imap. apply list_eq. intros i. rewrite list_lookup_imap.
  destruct (ds !! i) as [d|] eqn:E; cbn.
  - symmetry. apply lookup_seq. split; [lia|]. by apply lookup_lt_Some in E.
  - symmetry. apply lookup_ge_None. rewrite length_seq. by apply lookup_ge_None.
Qed.

Lemma meet_at_spec targets answers ds :
  NoDup targets → length answers = length targets → (∀ i, i ∈ targets → i < length ds) →
  ∃ final, meet_at targets answers ds = Some final ∧ length final = length ds ∧
    ∀ i d, ds !! i = Some d →
      (i ∉ targets → final !! i = Some d) ∧
      ∀ pos a, targets !! pos = Some i → answers !! pos = Some a → final !! i = Some (meet d a).
Proof.
  revert answers ds. induction targets as [|t targets IH]; intros [|a answers] ds Hnd Hlen Hin; try done.
  { cbn. exists ds. split_and!; [done..|]. intros i d Hi. split; [done|]. by intros [] ?. }
  apply NoDup_cons in Hnd as [Ht Hnd]. cbn [meet_at].
  destruct (lookup_lt_is_Some_2 ds t) as [d0 Hd0]; [apply Hin; by left|]. rewrite Hd0. cbn [mbind option_bind].
  destruct (IH answers (<[t := meet d0 a]> ds)) as (final & Hf & Hl & Hall); [done|cbn in Hlen; lia| |].
  { intros i Hi. rewrite length_insert. apply Hin. by right. }
  rewrite length_insert in Hl. exists final. split_and!; [done..|]. intros i d Hi.
  destruct (decide (i = t)) as [-> |Hne].
  - assert (<[t:=meet d0 a]> ds !! t = Some (meet d0 a)) as Hnew
      by (apply list_lookup_insert_eq; by eapply lookup_lt_Some).
    destruct (Hall t _ Hnew) as [Hkeep _]. split; [intros []%not_elem_of_cons; done|].
    intros [|pos] a' Hp Ha'; cbn in *.
    + injection Ha' as <-. rewrite Hkeep by done. congruence.
    + by destruct Ht; eapply list_elem_of_lookup_2.
  - assert (<[t:=meet d0 a]> ds !! i = Some d) as Hnew by by rewrite list_lookup_insert_ne.
    destruct (Hall i _ Hnew) as [Hkeep Hmeet]. split; [intros [_ ?]%not_elem_of_cons; auto|].
    intros [|pos] a' Hp Ha'; cbn in *; [congruence|]. by eapply Hmeet.
Qed.

Lemma mapM_targets {A} (l : list A) js :
  (∀ i, i ∈ js → i < length l) → ∃ xs, mapM (λ i, l !! i) js = Some xs ∧ length xs = length js ∧
    ∀ pos i, js !! pos = Some i → xs !! pos = l !! i.
Proof.
  induction js as [|i js IH]; intros Hin; [by exists []|].
  destruct (lookup_lt_is_Some_2 l i) as [x Hx]; [apply Hin; by left|].
  destruct IH as (xs & Hxs & Hl & Hall); [intros; apply Hin; by right|].
  exists (x :: xs). cbn. rewrite Hx. cbn. rewrite Hxs. cbn. split_and!; [done|by rewrite Hl|].
  intros [|pos] j Hj; cbn in *; [congruence|by apply Hall].
Qed.

Section kernels.
Context (uuid_text : Z → ustring) {W : Type}.
Context (registry : W → option (list PluginEntry)).
Context (call : VisibilityQuerier → VisibilityQueryInput → W → result ustring VisibilityQueryOutput * W).
Context (ts : W → Tables) (clock : W → Z).
Context (tables_good : ∀ w, tables_ok (ts w)).

Local Notation tables := (λ w, db_of (ts w)).
Local Notation ask s a rs ids w :=
  (query_plugins uuid_text registry call s a (contest_scope rs) rs ids w).1.
Local Notation decide_batch := (decide_batch uuid_text registry call tables clock).
Local Notation decide_misses := (decide_misses uuid_text registry call tables clock).

(** How a decision comes about: the rules of the server and, where they do not
    deny, the plugins, asked about the resource with the contest it belongs to. *)
Definition answered (s : Subject) (a : Action) (r : Resource) (w : W) (h d : Kernel.Decision) : Prop :=
  h = Deny ∧ d = Deny ∨
  h ≠ Deny ∧ ∃ targets ids pos contest x,
    targets !! pos = Some r ∧ ids !! pos = Some contest ∧ length ids = length targets ∧
    (∀ sub, sub ∈ t_submissions (ts w) → r = RSubmission (sb_id sub) → contest = sb_contest_id sub) ∧
    ask s a targets ids w !! pos = Some x ∧ d = meet h x.

Definition decided (s : Subject) (a : Action) (r : Resource) (d : Kernel.Decision) : Prop :=
  if sj_admin_override s then d = Allow
  else ∃ w h, rules (ts w) s (clock w) r h ∧ answered s a r w h d.

Lemma length_ask s a targets ids w : length (ask s a targets ids w) = length targets.
Proof. by destruct (query_plugins_spec uuid_text registry call s a (contest_scope targets) targets ids w). Qed.

Lemma contest_of_submission t targets subs clars pos r :
  submission_contests t targets subs → targets !! pos = Some r →
  ∀ sub, sub ∈ t_submissions t → r = RSubmission (sb_id sub) →
    resource_contest_id r subs clars = sb_contest_id sub.
Proof.
  intros Hsubs Hr sub Hsub ->. cbn. rewrite Hsubs; [done|done|]. by eapply list_elem_of_lookup_2.
Qed.

Lemma decide_misses_spec s a misses w :
  ∃ ds w', decide_misses s a misses w = Some (Ok ds, w') ∧ Forall2 (decided s a) misses ds.
Proof.
  unfold decide_misses, decided. destruct (sj_admin_override s) eqn:Es.
  { unfold host_decide. rewrite Es. do 2 eexists. split; [done|].
    apply Forall2_fmap_r, Forall_Forall2_diag, Forall_forall. done. }
  destruct (host_decide_rules (ts w) s (clock w) misses (tables_good w) Es)
    as (hs & subs & clars & -> & Hhs & Hsubs). pose proof (Forall2_length _ _ _ Hhs) as Hlen.
  assert (∀ i, i ∈ targets_of hs → i < length misses) as Hin.
  { intros i (d & Hd%lookup_lt_Some & _)%targets_spec. lia. }
  destruct (mapM_targets misses (targets_of hs) Hin) as (targets & -> & Hlt & Htargets). cbn [mbind option_bind].
  assert (∀ i r h, misses !! i = Some r → hs !! i = Some h → i ∉ targets_of hs →
    ∃ w h', rules (ts w) s (clock w) r h' ∧ answered s a r w h' h) as Hdenied.
  { intros i r h Hr Hh Hi. exists w, h. split; [by eapply Forall2_lookup_lr|].
    left. destruct h as [|m|]; [..|done]; destruct Hi; apply targets_spec; by eexists. }
  case_decide as Ht.
  { do 2 eexists. split; [done|]. apply Forall2_same_length_lookup_2; [done|]. intros i r h Hr Hh.
    eapply Hdenied; [done..|]. subst targets. destruct (targets_of hs); [by apply not_elem_of_nil|done]. }
  set (ids := _ <$> targets).
  assert (length ids = length targets) as Hids by by unfold ids; rewrite length_fmap.
  rewrite (surjective_pairing (query_plugins _ _ _ _ _ _ _ _ _)). cbv zeta beta iota.
  destruct (meet_at_spec (targets_of hs) (ask s a targets ids w) hs) as (final & -> & Hlf & Hall).
  { apply NoDup_targets. } { by rewrite length_ask. } { intros i Hi%Hin. lia. }
  cbn [mbind option_bind]. do 2 eexists. split; [done|].
  apply Forall2_same_length_lookup_2; [congruence|]. intros i r d Hr Hd.
  destruct (lookup_lt_is_Some_2 hs i) as [h Hh]; [apply lookup_lt_Some in Hr; lia|].
  destruct (Hall i h Hh) as [Hkeep Hmeet]. destruct (decide (i ∈ targets_of hs)) as [Hi|Hi].
  - pose proof Hi as (h' & Hh' & Hnd)%targets_spec. rewrite Hh in Hh'. injection Hh' as <-.
    apply list_elem_of_lookup in Hi as [pos Hpos]. pose proof (Htargets pos i Hpos) as Hr'. rewrite Hr in Hr'.
    destruct (lookup_lt_is_Some_2 (ask s a targets ids w) pos) as [x Hx].
    { rewrite length_ask, Hlt. by eapply lookup_lt_Some. }
    rewrite (Hmeet pos x Hpos Hx) in Hd. injection Hd as <-.
    exists w, h. split; [by eapply Forall2_lookup_lr|]. right. split; [by intros ->|].
    exists targets, ids, pos, (resource_contest_id r subs clars), x. split_and!; [done| |done| |done|done].
    + unfold ids. by rewrite list_lookup_fmap, Hr'.
    + intros sub Hsub ->. cbn. rewrite Hsubs; [done|done|]. by eapply list_elem_of_lookup_2.
  - rewrite (Hkeep Hi) in Hd. injection Hd as <-. by eapply Hdenied.
Qed.

(** *** The memory of a request *)

Definition memo_ok (k : VisibilityKernel) : Prop :=
  ∀ a r d, vk_memo k !! (a, r) = Some d → decided (vk_subject k) a r d.

Lemma remember_lookup a decided' memo r :
  NoDup decided'.*1 →
  (∀ d, (r, d) ∈ decided' → remember a decided' memo !! (a, r) = Some d) ∧
  (r ∉ decided'.*1 → ∀ b, remember a decided' memo !! (b, r) = memo !! (b, r)).
Proof.
  unfold remember. revert memo. induction decided' as [|[r' d'] l IH]; intros memo Hnd; cbn.
  { split; [by intros d ?%not_elem_of_nil|done]. }
  apply NoDup_cons in Hnd as [Hr' Hnd]. destruct (IH (<[(a, r') := d']> memo) Hnd) as [Hin Hout]. split.
  - intros d [[= <- <-]|Hd]%elem_of_cons; [|by apply Hin]. rewrite Hout by done. by rewrite lookup_insert_eq.
  - intros [Hne Hr]%not_elem_of_cons b. rewrite Hout by done. rewrite lookup_insert_ne; [done|]. by intros [= _ ->].
Qed.

Lemma remember_action a b decided' memo r : b ≠ a → remember a decided' memo !! (b, r) = memo !! (b, r).
Proof.
  intros Hb. unfold remember. revert memo. induction decided' as [|[r' d'] l IH]; intros memo; cbn; [done|].
  rewrite IH. rewrite lookup_insert_ne; [done|]. by intros [= -> _].
Qed.

Lemma first_seen_spec seen rs :
  NoDup (first_seen seen rs) ∧ ∀ r, r ∈ first_seen seen rs ↔ r ∈ rs ∧ r ∉ seen.
Proof.
  revert seen. induction rs as [|x rs IH]; intros seen; cbn.
  { split; [constructor|]. intros r. rewrite elem_of_nil. tauto. }
  case_decide as Hx.
  - destruct (IH seen) as [Hnd Hin]. split; [done|]. intros r. rewrite Hin, elem_of_cons. naive_solver.
  - destruct (IH ({[x]} ∪ seen)) as [Hnd Hin]. split.
    + apply NoDup_cons. split; [|done]. rewrite Hin. set_solver.
    + intros r. rewrite !elem_of_cons, Hin, not_elem_of_union, not_elem_of_singleton.
      destruct (decide (r = x)) as [-> |]; naive_solver.
Qed.

(** What is new is remembered beside what was known. *)
Lemma remember_ok a misses ds k :
  NoDup misses → (∀ r, r ∈ misses → vk_memo k !! (a, r) = None) → memo_ok k →
  Forall2 (decided (vk_subject k) a) misses ds →
  let k' := with_memo (remember a (zip misses ds) (vk_memo k)) k in
  memo_ok k' ∧ vk_memo k ⊆ vk_memo k' ∧ ∀ r, r ∈ misses → is_Some (vk_memo k' !! (a, r)).
Proof.
  intros Hnd Hnew Hk Hds. cbv zeta.
  assert ((zip misses ds).*1 = misses) as Hfst by by rewrite fst_zip by by rewrite (Forall2_length _ _ _ Hds).
  assert (∀ r, r ∈ misses → ∃ d, (r, d) ∈ zip misses ds ∧ decided (vk_subject k) a r d) as Hin.
  { intros r [i Hi]%list_elem_of_lookup. destruct (Forall2_lookup_l _ _ _ _ _ Hds Hi) as (d & Hd & Hdec).
    exists d. split; [|done]. apply (list_elem_of_lookup_2 _ i). apply lookup_zip_Some. done. }
  assert (NoDup (zip misses ds).*1) as Hz by by rewrite Hfst.
  split_and!; cbn.
  - intros b r d Hd. cbn in *. destruct (decide (b = a)) as [-> |Hb]; [|rewrite remember_action in Hd by done; by apply Hk].
    destruct (decide (r ∈ misses)) as [Hr|Hr].
    + destruct (Hin r Hr) as (d' & Hz' & Hdec). rewrite (proj1 (remember_lookup _ _ _ _ Hz) _ Hz') in Hd. congruence.
    + rewrite (proj2 (remember_lookup _ _ _ _ Hz)) in Hd by by rewrite Hfst. by apply Hk.
  - apply map_subseteq_spec. intros [b r] d Hd. destruct (decide (b = a)) as [-> |Hb]; [|by rewrite remember_action].
    rewrite (proj2 (remember_lookup _ _ _ _ Hz)); [done|]. rewrite Hfst. intros Hr%Hnew. congruence.
  - intros r Hr. destruct (Hin r Hr) as (d & Hz' & _). exists d. by apply (remember_lookup _ _ _ _ Hz).
Qed.

Lemma mapM_known {A} (f : A → option Kernel.Decision) l :
  (∀ x, x ∈ l → is_Some (f x)) → ∃ ds, mapM f l = Some ds ∧ Forall2 (λ x d, f x = Some d) l ds.
Proof.
  intros Hl. destruct (proj2 (mapM_is_Some f l)) as [ds Hds].
  { apply Forall_forall. intros x Hx. by apply Hl. }
  exists ds. split; [done|]. by apply mapM_Some.
Qed.

Lemma decide_batch_spec a rs k w :
  memo_ok k →
  ∃ ds k' w', decide_batch a rs k w = Some (Ok ds, k', w') ∧
    vk_subject k' = vk_subject k ∧ memo_ok k' ∧ vk_memo k ⊆ vk_memo k' ∧
    Forall2 (λ r d, vk_memo k' !! (a, r) = Some d) rs ds.
Proof.
  intros Hk. unfold decide_batch. case_decide as Hrs; [subst rs; by exists [], k, w|].
  destruct (first_seen_spec ∅ rs) as [Hnd Hfirst]. set (misses := filter _ _).
  assert (∀ r, r ∈ misses ↔ r ∈ rs ∧ vk_memo k !! (a, r) = None) as Hmiss.
  { intros r. unfold misses. rewrite list_elem_of_filter, Hfirst. set_solver. }
  assert (∀ k' (w' : W), vk_subject k' = vk_subject k → memo_ok k' → vk_memo k ⊆ vk_memo k' →
    (∀ r, r ∈ misses → is_Some (vk_memo k' !! (a, r))) →
    ∃ ds k'' w'', (ds ← mapM (λ r : Resource, vk_memo k' !! (a, r)) rs; Some (Ok (E := AppError) ds, k', w'))
        = Some (Ok ds, k'', w'') ∧
      vk_subject k'' = vk_subject k ∧ memo_ok k'' ∧ vk_memo k ⊆ vk_memo k'' ∧
      Forall2 (λ (r : Resource) d, vk_memo k'' !! (a, r) = Some d) rs ds) as Hdone.
  { intros k' w' Hsub Hk' Hle Hall. destruct (mapM_known (λ r : Resource, vk_memo k' !! (a, r)) rs) as (ds & Hds & Hds2).
    - intros r Hr. destruct (vk_memo k !! (a, r)) as [d|] eqn:E; [|by apply Hall, Hmiss].
      exists d. by eapply lookup_weaken.
    - rewrite Hds. by exists ds, k', w'. }
  case_decide as Hm; cbn [mbind option_bind].
  { apply Hdone; [done..|]. rewrite Hm. by intros r ?%not_elem_of_nil. }
  destruct (decide_misses_spec (vk_subject k) a misses w) as (ds & w' & -> & Hds). cbn [mbind option_bind].
  destruct (remember_ok a misses ds k) as (Hok & Hle & Hall); [by apply NoDup_filter|by intros r [_ ?]%Hmiss|done|done|].
  by apply Hdone.
Qed.

(** C33. The kernel never widens the rules.  Whatever the plugins do, a batch is
    answered, one decision for each resource; each decision comes from the rules of
    the server, which a plugin can only narrow, and a resource the rules deny stays
    denied; what the request has decided before is repeated, and what it decides
    now is kept. *)
Theorem kernel_never_widens a rs k w :
  memo_ok k →
  ∃ ds k' w', decide_batch a rs k w = Some (Ok ds, k', w') ∧
    vk_subject k' = vk_subject k ∧ memo_ok k' ∧
    length ds = length rs ∧
    (∀ i r d, rs !! i = Some r → ds !! i = Some d →
       decided (vk_subject k) a r d ∧ vk_memo k' !! (a, r) = Some d ∧
       (sj_admin_override (vk_subject k) = false →
        ∃ w h, rules (ts w) (vk_subject k) (clock w) r h ∧ below d h)) ∧
    (∀ b r d, vk_memo k !! (b, r) = Some d → vk_memo k' !! (b, r) = Some d).
Proof.
  intros Hk. destruct (decide_batch_spec a rs k w Hk) as (ds & k' & w' & E & Hs & Hk' & Hle & Hds).
  exists ds, k', w'. split_and!; [done..|symmetry; by eapply Forall2_length| |by intros; eapply lookup_weaken].
  intros i r d Hr Hd. pose proof (Forall2_lookup_lr _ _ _ _ _ _ Hds Hr Hd) as Hmem. cbn in Hmem.
  pose proof (Hk' _ _ _ Hmem) as Hdec. rewrite Hs in Hdec. split_and!; [done..|]. intros Hno.
  unfold decided in Hdec. rewrite Hno in Hdec.
  destruct Hdec as (w0 & h & Hrules & [[-> ->]|(_ & ? & ? & ? & ? & x & _ & _ & _ & _ & _ & ->)]); exists w0;
    [by exists Deny|]. exists h. split; [done|]. apply below_meet_l.
Qed.
End kernels.
