(* ===== verification/VisibilityFrozen.v ===== *)
(** * VisibilityMasked: what a plugin masks is never sent

    A plugin that answers with a mask for a submission, as one of the plugins the
    kernel of the server asks ([Visibility]): the masked fields are blank in the JSON
    of every submission that is sent. *)

From stdpp Require Import base gmap sets list.
From S2P Require Import Prelude.
From S2P Require Import Text Float Verdict Sdk Host Json VisibilityApi.
From S2P Require Import BracketPacing BracketExamples Icpc IcpcProofs.
From S2P Require Import Mask HostRules HostRulesProofs Visibility VisibilityProofs.

Import Kernel.

(** ** Long texts are cut after masking *)

(** Along every path [v'] reaches what [v] reaches, and what is blank stays blank. *)
Definition blanks_kept (v v' : Value) : Prop :=
  ∀ p x, x ∈ reach p v' → ∃ y, y ∈ reach p v ∧ (blank y → blank x).

#[global] Instance blanks_kept_refl : Reflexive blanks_kept.
Proof. intros v p x Hx. by exists x. Qed.

#[global] Instance blanks_kept_trans : Transitive blanks_kept.
Proof.
  intros v1 v2 v3 H12 H23 p x (y & Hy & Hyx)%H23. apply H12 in Hy as (z & Hz & Hzy). exists z. auto.
Qed.

Lemma kept_alter f k fs :
  (∀ v, blanks_kept v (f v)) → blanks_kept (VObject fs) (VObject (alter_field f k fs)).
Proof.
  intros Hf [|a p] x; cbn.
  - intros ->%list_elem_of_singleton. exists (VObject fs). split; [by left|]. by intros [|].
  - case_decide; [by intros ?%not_elem_of_nil|]. rewrite field_alter.
    destruct (field a fs) as [w|]; cbn; [|by case_decide; intros ?%not_elem_of_nil].
    case_decide; cbn; [apply Hf|]. intros Hx. by exists x.
Qed.

Lemma kept_array f vs :
  (∀ v, blanks_kept v (f v)) → blanks_kept (VArray vs) (VArray (f <$> vs)).
Proof.
  intros Hf [|a p] x; cbn.
  - intros ->%list_elem_of_singleton. exists (VArray vs). split; [by left|].
    intros [|[= ->]]; [done|by right].
  - case_decide; [|by intros ?%not_elem_of_nil].
    intros (y & Hx & (w & -> & Hw)%list_elem_of_fmap)%list_elem_of_bind.
    apply Hf in Hx as (z & Hz & Hzx). exists z. split; [|done]. apply list_elem_of_bind. by exists w.
Qed.

Lemma kept_string f : (∀ v, (∃ text text', v = VString text ∧ f v = VString text') ∨ f v = v) →
  ∀ v, blanks_kept v (f v).
Proof.
  intros Hf v. destruct (Hf v) as [(text & text' & -> & ->)| ->]; [|done].
  intros [|a p] x; cbn; [|by case_decide; intros ?%not_elem_of_nil].
  intros ->%list_elem_of_singleton. exists (VString text). split; [by left|]. by intros [|].
Qed.

Lemma kept_text k fs : blanks_kept (VObject fs) (VObject (cap_json_string_field k fs)).
Proof.
  apply kept_alter, kept_string. intros [| | | |text| |]; eauto.
Qed.

Lemma kept_texts keys fs :
  blanks_kept (VObject fs) (VObject (foldl (λ fs key, cap_json_string_field key fs) fs keys)).
Proof.
  revert fs. induction keys as [|k keys IH]; intros fs; [done|]. cbn [foldl].
  etrans; [apply kept_text|apply IH].
Qed.

Lemma cap_keeps_blanks v : blanks_kept v (cap_submission_detail_texts v).
Proof.
  assert (∀ c, blanks_kept c (cap_case c)) as Hcase by by intros [| | | | | |fs]; [..|apply kept_texts].
  destruct v as [| | | | | |fs]; try done. apply kept_alter. intros r. destruct r as [| | | | | |fields]; try done.
  etrans; [apply kept_texts|]. apply kept_alter. intros cs.
  destruct cs as [| | | | |cs|]; try done. by apply kept_array.
Qed.

Lemma below_redact d m : below d (Redact m) → d = Deny ∨ ∃ m', d = Redact m' ∧ m ⊆ m'.
Proof.
  unfold below. destruct d as [|m'|]; cbn; [done| |auto]. intros [= E]. right. exists m'. set_solver.
Qed.

(** Where a decision is below a mask, what the mask names is blank in the JSON. *)
Lemma masked_json_blank m v j p x :
  vs_decision v ≠ Deny → below (vs_decision v) (Redact m) → into_masked_json v = Some j →
  p ∈ m → x ∈ reach (split_dot p) j → blank x.
Proof.
  intros Hd [?|(m' & E & Hm)]%below_redact Hj Hp; [done|]. unfold into_masked_json in Hj. rewrite E in Hj.
  apply bind_Some in Hj as (value & _ & [= <-]). intros (y & Hy & Hb)%cap_keeps_blanks.
  eapply Hb, apply_mask_blank; [|exact Hy]. auto.
Qed.

(** ** Up to the viewer *)

Section masked.
Context (uuid_text : Z → ustring) {W : Type}.
Context (registry : W → option (list PluginEntry)).
Context (call : VisibilityQuerier → VisibilityQueryInput → W → result ustring VisibilityQueryOutput * W).
Context (ts : W → Tables) (clock : W → Z).
Context (load_feedback : list Z → W → result AppError (gmap Z Feedback)).
Context (fields : list ustring).

Definition contestant (s : Subject) : Prop :=
  sj_admin_override s = false ∧ SUBMISSION_VIEW_ALL ∉ sj_permissions s ∧ CONTEST_MANAGE ∉ sj_permissions s.

(** The plugin [q], whenever it is asked on behalf of [s] about a submission of a
    contest, fails or answers with the mask. *)
Definition answers_mask (q : VisibilityQuerier) (s : Subject) (sub : SubmissionRow) (cid : Z) : Prop :=
  (∀ w, ∃ qs, visibility_queriers (registry w) = Some qs ∧ q ∈ qs) ∧
  ∀ a targets ids w out pos,
    (call q (query_input uuid_text s a (contest_scope targets) targets ids) w).1 = Ok out →
    targets !! pos = Some (RSubmission (sb_id sub)) → ids !! pos = Some (Some cid) →
    vo_decisions out !! pos = Some (VisibilityApi.Redact fields).

Lemma asked_of_answers qs input w q :
  q ∈ qs → ∃ output w', output ∈ answers call qs input w ∧ output = (call q input w').1.
Proof.
  revert w. induction qs as [|q' qs IH]; intros w; [by intros ?%not_elem_of_nil|].
  intros [-> |Hq]%elem_of_cons; cbn; [exists (call q' input w).1, w; split; [by left|done]|].
  destruct (IH (call q' input w).2 Hq) as (output & w' & Ho & E). exists output, w'. split; [by right|done].
Qed.

Lemma masked_decided q s sub cid a d :
  sj_admin_override s = false → sb_contest_id sub = Some cid → (∀ w, sub ∈ t_submissions (ts w)) →
  answers_mask q s sub cid →
  decided uuid_text registry call ts clock s a (RSubmission (sb_id sub)) d →
  below d (Redact (new_mask fields)).
Proof.
  intros Hadm Hcid Hrow [Hq Hcall]. unfold decided. rewrite Hadm.
  intros (w & h & _ & [[-> ->]|(_ & targets & ids & pos & contest & x & Ht & Hids & Hlen & Hcontest & Hx & ->)]).
  { apply deny_below. }
  rewrite (Hcontest sub (Hrow w) eq_refl), Hcid in Hids.
  etrans; [apply below_meet_r|].
  destruct (query_plugins_spec uuid_text registry call s a (contest_scope targets) targets ids w)
    as (_ & _ & _ & _ & Hall).
  destruct (Hq w) as (qs & Eqs & Hin).
  destruct (asked_of_answers qs (query_input uuid_text s a (contest_scope targets) targets ids) w q Hin)
    as (output & w' & Hout & Eout).
  destruct (Hall _ _ _ _ Eqs Hout Hx) as (b & Hb & Hxb). etrans; [exact Hxb|].
  apply from_output_lookup in Hb as [-> |(out & ans & -> & Hans & ->)]; [apply deny_below|].
  rewrite (Hcall _ _ _ _ _ _ (eq_sym Eout) Ht Hids) in Hans. injection Hans as <-. apply (idemp meet).
Qed.

(** In every batch of submissions the server sends to [s], whatever the other
    plugins answer and the request remembers, the submission is absent or the masked
    fields are blank in the JSON. *)
Lemma masked_never_sent q sub cid a items k w vs k' w' :
  (∀ w, tables_ok (ts w)) → sj_admin_override (vk_subject k) = false →
  sb_contest_id sub = Some cid → (∀ w, sub ∈ t_submissions (ts w)) →
  answers_mask q (vk_subject k) sub cid → memo_ok uuid_text registry call ts clock k →
  fetch_visible_batch uuid_text registry call (λ w, db_of (ts w)) clock load_feedback a items k w
    = Some (Ok vs, k', w') →
  length vs = length items ∧
  ∀ i entity v j p x,
    items !! i = Some (RSubmission (sb_id sub), entity) → vs !! i = Some (Some v) →
    into_masked_json v = Some j → p ∈ fields → x ∈ reach (split_dot p) j → blank x.
Proof.
  intros Hts Hadm Hcid Hrow Hq Hk. unfold fetch_visible_batch.
  destruct (decide_batch_spec uuid_text registry call ts clock Hts a items.*1 k w Hk)
    as (ds & k1 & w1 & -> & Es & Hk1 & _ & Hds). cbn [mbind option_bind].
  destruct (submission_feedback _ _ _ _) as [feedback|]; cbn [mbind result_bind]; [|done]. intros [= <- <- <-].
  pose proof (Forall2_length _ _ _ Hds) as Hlen. rewrite length_fmap in Hlen.
  split; [rewrite length_zip_with; lia|]. intros i entity v j p x Hi Hv Hj Hp Hx.
  apply lookup_zip_with_Some in Hv as (item & d & Ev & Hi' & Hd). rewrite Hi in Hi'. injection Hi' as <-.
  assert (vk_memo k1 !! (a, RSubmission (sb_id sub)) = Some d) as Hmem.
  { eapply (Forall2_lookup_lr _ _ _ i _ _ Hds); [|done]. by rewrite list_lookup_fmap, Hi. }
  apply Hk1 in Hmem. rewrite Es in Hmem. pose proof (masked_decided _ _ _ _ _ _ Hadm Hcid Hrow Hq Hmem) as Hbelow.
  assert (d ≠ Deny ∧ vs_decision v = d) as [Hnd <-] by (destruct d; by simplify_eq/=).
  eapply masked_json_blank; [exact Hnd|exact Hbelow|exact Hj| |exact Hx].
  by apply elem_of_list_to_set.
Qed.
End masked.

(** The resource of a query names the submission. *)
Lemma query_input_resource uuid_text s a targets ids pos sub cid :
  targets !! pos = Some (RSubmission sub) → ids !! pos = Some (Some cid) →
  vq_resources (query_input uuid_text s a (contest_scope targets) targets ids) !! pos
  = Some (query_resource uuid_text (RSubmission sub) (Some cid)).
Proof. intros Ht Hi. cbn. apply lookup_zip_with_Some. do 2 eexists. split_and!; [done|exact Ht|exact Hi]. Qed.

(** * The freeze of an ICPC contest, up to what a viewer is sent

    The ICPC plugin ([Icpc.decide_visibility_decisions]) as one of the plugins the
    kernel of the server asks ([Visibility]): what the freeze hides is blank in the
    JSON of every submission that is sent to another contestant. *)

Import Kernel.

(** ** The answer of the ICPC plugin *)

Lemma load_configs_lookup db contests acc configs c :
  load_configs db contests acc = Ok configs → c ∈ contests →
  ∃ config, id_config db c = Ok config ∧ configs !! c = Some config.
Proof.
  assert (∀ contests acc configs, load_configs db contests acc = Ok configs → c ∉ contests →
    configs !! c = acc !! c) as Hout.
  { clear. intros contests. induction contests as [|c' contests IH]; intros acc configs; cbn; [by intros [= ->]|].
    destruct (id_config db c') as [config|]; [|done]. cbn. intros Hl [Hne Hc]%not_elem_of_cons.
    rewrite (IH _ _ Hl Hc). by apply lookup_insert_ne. }
  revert acc. induction contests as [|c' contests IH]; intros acc; cbn; [by intros _ ?%not_elem_of_nil|].
  destruct (id_config db c') as [config|] eqn:E; [|done]. cbn. intros Hl Hc.
  destruct (decide (c ∈ contests)) as [Hin|Hn]; [by eapply IH|].
  apply elem_of_cons in Hc as [-> |]; [|done]. exists config. split; [done|].
  rewrite (Hout _ _ _ Hl Hn). by apply lookup_insert_eq.
Qed.

Lemma reveal_flags_lookup h contests c :
  c ∈ contests → reveal_flags h contests !! c = Some (bool_decide (h_data h !! reveal_key c = Some (u "1"))).
Proof.
  intros Hc. unfold reveal_flags. apply elem_of_list_to_map_1'.
  - intros b (c' & [= -> ->] & _)%list_elem_of_fmap. done.
  - apply list_elem_of_fmap. by exists c.
Qed.

(** The freeze, or the privacy of the standings, hides the submission [sub] of the
    contest [cid] from [viewer], whatever row the database has for it. *)
Definition hidden_from (db : IcpcDb) (h : Host) (viewer : option Z) (sub cid : Z) : Prop :=
  ∀ ids rows row, id_freeze_rows db ids = Ok rows → row ∈ rows → sf_submission_id row = sub →
    sf_contest_type row = Some ICPC ∧ viewer ≠ Some (sf_user_id row) ∧
    ∀ config, id_config db cid = Ok config →
      must_hide_other_submission (public_standings config) (freeze_minutes config) (sf_phase row)
        (bool_decide (h_data h !! reveal_key cid = Some (u "1")))
        (ms_of (sf_duration_ms row)) (ms_of (sf_now_elapsed_ms row))
        (elapsed_of (sf_submission_elapsed_ms row)) = true.

Lemma rows_by_id rows sub :
  match foldl (λ m row, <[sf_submission_id row := row]> m) (∅ : gmap Z SubmissionFreezeRow) rows !! sub with
  | Some row => row ∈ rows ∧ sf_submission_id row = sub
  | None => True
  end.
Proof.
  induction rows as [|x rows IH] using rev_ind; [done|]. rewrite foldl_snoc.
  destruct (decide (sf_submission_id x = sub)) as [<-|Hne].
  - rewrite lookup_insert_eq. split; [|done]. apply elem_of_app. right. by left.
  - rewrite lookup_insert_ne by done. case_match; [|done]. destruct IH as [Hr E]. split; [|done].
    apply elem_of_app. by left.
Qed.

Lemma icpc_hides db req h ds h' i r sub cid :
  (SUBMISSION_VIEW_ALL ∉ vq_permissions req) → (CONTEST_MANAGE ∉ vq_permissions req) →
  hidden_from db h (vq_user_id req) sub cid →
  vq_resources req !! i = Some r → submission_of r = Some sub → vr_contest_id r = Some cid →
  decide_visibility_decisions db req h = Some (Ok ds, h') →
  ds !! i = Some (VisibilityApi.Redact hidden_result_mask_fields).
Proof.
  intros Hva Hcm Hhid Hr Hsub Hcid. unfold decide_visibility_decisions.
  assert (existsb (λ p, bool_decide (p = SUBMISSION_VIEW_ALL) || bool_decide (p = CONTEST_MANAGE))
    (vq_permissions req) = false) as ->.
  { apply not_true_iff_false. intros (p & Hp%list_elem_of_In & Heq)%existsb_exists.
    apply orb_true_iff in Heq as [->%bool_decide_eq_true| ->%bool_decide_eq_true]; done. }
  pose proof (list_elem_of_lookup_2 _ _ _ Hr) as Hin.
  rewrite decide_False.
  2: { intros E. assert (sub ∈ omap submission_of (vq_resources req)) as Hs by (apply list_elem_of_omap; eauto).
       rewrite E in Hs. by apply not_elem_of_nil in Hs. }
  destruct (id_freeze_rows db _) as [rows|] eqn:Erows; [|done]. set (byid := foldl _ _ rows).
  destruct (load_configs db _ ∅) as [configs|] eqn:Ec; [|done]. intros [= <- <-].
  rewrite list_lookup_fmap, Hr. cbn. f_equal. unfold decide_resource. rewrite Hsub, Hcid.
  pose proof (rows_by_id rows sub) as Hrow. fold byid in Hrow. destruct (byid !! sub) as [row|] eqn:Erow; [|done].
  destruct Hrow as [Hrow Eid]. destruct (Hhid _ _ _ Erows Hrow Eid) as (Htype & Hother & Hmust).
  assert (icpc_contest byid r = Some cid) as Hicpc.
  { unfold icpc_contest. rewrite Hsub. cbn. rewrite Erow. cbn. by rewrite decide_True. }
  match type of Ec with load_configs _ ?cs _ = _ => assert (cid ∈ cs) as Hc end.
  { apply elem_of_remove_dups, elem_of_sort_by_key, list_elem_of_omap. by exists r. }
  destruct (load_configs_lookup _ _ _ _ _ Ec Hc) as (config & Econf & ->).
  rewrite (reveal_flags_lookup _ _ _ Hc). cbn [default from_option id]. unfold decide_row.
  rewrite decide_False by tauto. rewrite decide_False by done. by rewrite Hmust.
Qed.

(** ** Up to the viewer *)

Lemma submission_resource uuid_text sub cid :
  in_i32 sub → submission_of (query_resource uuid_text (RSubmission sub) (Some cid)) = Some sub.
Proof. intros Hi. unfold submission_of. rewrite decide_True by (split; [done|by eexists]). by apply parse_i32_show. Qed.

Section viewer.
Context (uuid_text : Z → ustring) {W : Type}.
Context (registry : W → option (list PluginEntry)).
Context (call : VisibilityQuerier → VisibilityQueryInput → W → result ustring VisibilityQueryOutput * W).
Context (ts : W → Tables) (clock : W → Z).
Context (load_feedback : list Z → W → result AppError (gmap Z Feedback)).
Context (db : IcpcDb) (host : W → Host).

(** The plugin [q] runs the decision of ICPC; whatever else it answers is a
    failure. *)
Definition runs_icpc (q : VisibilityQuerier) : Prop :=
  (∀ w, ∃ qs, visibility_queriers (registry w) = Some qs ∧ q ∈ qs) ∧
  (∀ input w out, (call q input w).1 = Ok out →
    ∃ h', decide_visibility_decisions db input (host w) = Some (Ok (vo_decisions out), h')).

(** A submission of a contest is hidden from [s] all along. *)
Definition stays_hidden (s : Subject) (sub : SubmissionRow) (cid : Z) : Prop :=
  in_i32 (sb_id sub) ∧ sb_contest_id sub = Some cid ∧
  (∀ w, sub ∈ t_submissions (ts w)) ∧
  (∀ w, hidden_from db (host w) (sj_user_id s) (sb_id sub) cid).

Lemma icpc_answers_mask q s sub cid :
  runs_icpc q → contestant s → stays_hidden s sub cid →
  answers_mask uuid_text registry call hidden_result_mask_fields q s sub cid.
Proof.
  intros [Hq Hcall] (_ & Hva & Hcm) (Hi & Hcid & _ & Hhid). split; [exact Hq|].
  intros a targets ids w out pos Hout Ht Hids. destruct (Hcall _ _ _ Hout) as (h' & Hdec).
  eapply (icpc_hides _ _ _ _ _ pos (query_resource uuid_text (RSubmission (sb_id sub)) (Some cid))) in Hdec;
    [exact Hdec|done|done|by apply Hhid|by apply query_input_resource|by apply submission_resource|done].
Qed.

(** C7. What the freeze hides is never sent.  While the freeze (or the privacy of
    the standings) of an ICPC contest hides a submission from a contestant, in every
    batch of submissions the server sends them, whatever the other plugins answer
    and the request remembers, that submission is absent or the fields of its result
    (verdict, score, resources, output, cases) are blank in the JSON. *)
Theorem hidden_result_never_sent q sub cid a items k w vs k' w' :
  (∀ w, tables_ok (ts w)) → runs_icpc q → contestant (vk_subject k) → stays_hidden (vk_subject k) sub cid →
  memo_ok uuid_text registry call ts clock k →
  fetch_visible_batch uuid_text registry call (λ w, db_of (ts w)) clock load_feedback a items k w
    = Some (Ok vs, k', w') →
  length vs = length items ∧
  ∀ i entity v j p x,
    items !! i = Some (RSubmission (sb_id sub), entity) → vs !! i = Some (Some v) →
    into_masked_json v = Some j → p ∈ hidden_result_mask_fields → x ∈ reach (split_dot p) j → blank x.
Proof.
  intros Hts Hq Hs Hsub Hk. destruct Hs as [Hadm Hs]. destruct (Hsub) as (_ & Hcid & Hrow & _).
  eapply masked_never_sent; [done..|by apply icpc_answers_mask|done].
Qed.
End viewer.

(** * A frozen contest seen by a rival

    The contest of [IcpcProofs] during its freeze, with the tables of the server:
    contestant 1 asks for the submission of contestant 2.  One instance of each
    theorem of [HostRulesProofs], [VisibilityProofs] and [VisibilityFrozen] that
    has hypotheses. *)

Import Kernel.

Definition ex_contest : ContestRow := {|
  ct_id := 9; ct_activate_time := Some 0%Z; ct_deactivate_time := None; ct_start_time := 0;
  ct_is_public := true; ct_submissions_visible := true; ct_deleted := false |}.

Definition ex_submission : SubmissionRow := {| sb_id := 3; sb_user_id := 2; sb_contest_id := Some 9%Z |}.

Definition ex_tables : Tables := {|
  t_submissions := [ex_submission];
  t_problems := [{| pb_id := 5; pb_is_public := false; pb_deleted := false |}];
  t_contest_problems := [(9, 5)]%Z;
  t_clarifications := []; t_replies := [];
  t_contests := [ex_contest];
  t_contest_users := [(9, 1); (9, 2)]%Z |}.

Lemma ex_tables_ok : tables_ok ex_tables.
Proof. split; by_decide. Qed.

Definition ex_subject : Subject := from_auth_user 1 [].

(** The rules alone let contestant 1 read the submission. *)
Lemma host_decide_refines_witness :
  ∃ ds submissions clarifications,
    host_decide (db_of ex_tables) ex_subject 10 [RSubmission 3; RProblem (Some 9%Z) 5; RContest 8]
      = Ok (ds, submissions, clarifications) ∧
    if sj_admin_override ex_subject then ds = (λ _, Allow) <$> [RSubmission 3; RProblem (Some 9%Z) 5; RContest 8]
    else Forall2 (rules ex_tables ex_subject 10) [RSubmission 3; RProblem (Some 9%Z) 5; RContest 8] ds.
Proof. apply (host_decide_refines ex_tables ex_subject 10 _). apply ex_tables_ok. Defined.

Example ex_rules_read :
  (λ r, r.1.1) <$> (host_decide (db_of ex_tables) ex_subject 10 [RSubmission 3; RProblem (Some 9%Z) 5; RContest 8])
  = Ok [Allow; Allow; Deny].
Proof. by_vm. Qed.

(** ** The kernel with the ICPC plugin *)

Definition ex_freeze_row : SubmissionFreezeRow := {|
  sf_submission_id := 3; sf_user_id := 2; sf_contest_type := Some ICPC; sf_phase := DURING;
  sf_duration_ms := ex_minutes 300; sf_now_elapsed_ms := ex_minutes 260;
  sf_submission_elapsed_ms := ex_minutes 250 |}.

Definition ex_freeze_db : IcpcDb := {|
  id_contest := id_contest ex_db; id_config := id_config ex_db; id_problems := id_problems ex_db;
  id_participants := id_participants ex_db; id_submissions := id_submissions ex_db;
  id_times := id_times ex_db;
  id_freeze_rows ids := Ok (filter (λ row, sf_submission_id row ∈ ids) [ex_freeze_row]) |}.

Definition ex_querier : VisibilityQuerier := {| qr_plugin_id := u "icpc"; qr_function := u "visibility" |}.

Definition ex_registry (w : unit) : option (list PluginEntry) := Some [{|
  pe_id := u "icpc"; pe_status := Loaded;
  pe_queries := Some [{| sq_topic := u "visibility"; sq_function := u "visibility" |}] |}].

(** The plugin answers, and fails where its decision does. *)
Definition ex_call (q : VisibilityQuerier) (input : VisibilityQueryInput) (w : unit)
    : result ustring VisibilityQueryOutput * unit :=
  match decide_visibility_decisions ex_freeze_db input (ex_host 0) with
  | Some (Ok ds, _) => (Ok {| vo_decisions := ds |}, tt)
  | _ => (Err (u "failed"), tt)
  end.

Lemma ex_runs_icpc : runs_icpc ex_registry ex_call ex_freeze_db (λ _, ex_host 0) ex_querier.
Proof.
  split; [intros w; eexists; split; [reflexivity|by left]|]. intros input w out. unfold ex_call.
  destruct (decide_visibility_decisions _ _ _) as [[[ds|] h']|] eqn:E; [|done..]. intros [= <-]. by exists h'.
Qed.

Lemma ex_hidden : hidden_from ex_freeze_db (ex_host 0) (sj_user_id ex_subject) 3 9.
Proof.
  intros ids rows row [= <-] [_ ->%list_elem_of_singleton]%list_elem_of_filter _.
  split_and!; [done|by intros [=]|]. intros config [= <-]. by_vm.
Qed.

Lemma ex_stays_hidden :
  stays_hidden (λ _ : unit, ex_tables) ex_freeze_db (λ _, ex_host 0) ex_subject ex_submission 9.
Proof.
  split_and!; [by_decide|done|by left|]. intros _. exact ex_hidden.
Qed.

(** What the server would send of the submission. *)
Definition ex_entity : Value := VObject [
  (u "id", VString (u "3")); (u "verdict", VString (u "WrongAnswer"));
  (u "result", VObject [(u "score", VString (u "0")); (u "judged_at", VString (u "later"));
                        (u "test_case_results", VArray [VObject []])])].

Definition ex_batch := fetch_visible_batch show ex_registry ex_call (λ _, db_of ex_tables) (λ _, 10%Z)
  (λ _ _, Ok ∅) ActRead [(RSubmission 3, ex_entity)] (new_kernel ex_subject) tt.

Example ex_batch_sent :
  match ex_batch with
  | Some (Ok vs, _, _) => (λ v, v ≫= into_masked_json) <$> vs
  | _ => []
  end
  = [Some (VObject [
      (u "id", VString (u "3")); (u "verdict", VNull);
      (u "result", VObject [(u "score", VNull); (u "judged_at", VString (u "later"));
                            (u "test_case_results", VArray [])])])].
Proof. by_vm. Qed.

Lemma ex_memo_ok a s : memo_ok show ex_registry ex_call (λ _, ex_tables) (λ _, a) (new_kernel s).
Proof. intros b r d. cbn. by rewrite lookup_empty. Qed.

Lemma kernel_never_widens_witness :
  let rs := [RSubmission 3; RContest 8; RSubmission 3] in
  ∃ ds k' w', decide_batch show ex_registry ex_call (λ _, db_of ex_tables) (λ _, 10%Z) ActRead rs
      (new_kernel ex_subject) tt = Some (Ok ds, k', w') ∧
    vk_subject k' = ex_subject ∧ memo_ok show ex_registry ex_call (λ _, ex_tables) (λ _, 10%Z) k' ∧
    length ds = 3 ∧
    (∀ i r d, rs !! i = Some r → ds !! i = Some d →
       decided show ex_registry ex_call (λ _, ex_tables) (λ _, 10%Z) ex_subject ActRead r d ∧
       vk_memo k' !! (ActRead, r) = Some d ∧
       (sj_admin_override ex_subject = false →
        ∃ (w : unit) h, rules ex_tables ex_subject 10 r h ∧ below d h)) ∧
    (∀ b (r : Resource) d, vk_memo (new_kernel ex_subject) !! (b, r) = Some d → vk_memo k' !! (b, r) = Some d).
Proof.
  exact (kernel_never_widens show ex_registry ex_call (λ _, ex_tables) (λ _, 10%Z) (λ _, ex_tables_ok)
           ActRead [RSubmission 3; RContest 8; RSubmission 3] (new_kernel ex_subject) tt (ex_memo_ok 10 ex_subject)).
Defined.

Lemma hidden_result_never_sent_witness :
  match ex_batch with
  | Some (Ok vs, _, _) =>
      length vs = 1 ∧
      ∀ i entity v j p x,
        [(RSubmission 3, ex_entity)] !! i = Some (RSubmission 3, entity) → vs !! i = Some (Some v) →
        into_masked_json v = Some j → p ∈ hidden_result_mask_fields → x ∈ reach (split_dot p) j → blank x
  | _ => False
  end.
Proof.
  destruct ex_batch as [[[[vs|e] k'] w']|] eqn:E; [|by vm_compute in E..].
  apply (hidden_result_never_sent show ex_registry ex_call (λ _, ex_tables) (λ _, 10%Z) (λ _ _, Ok ∅)
           ex_freeze_db (λ _, ex_host 0) ex_querier ex_submission 9 ActRead [(RSubmission 3, ex_entity)]
           (new_kernel ex_subject) tt vs k' w').
  - intros _. apply ex_tables_ok.
  - apply ex_runs_icpc.
  - split_and!; by_decide.
  - apply ex_stays_hidden.
  - apply ex_memo_ok.
  - exact E.
Defined.
