(* ===== verification/JudgingDb.v ===== *)
(** * JudgingDb: the rows behind judging, and the statements that change them

    The tables submission, submission_judgement, test_case_result, code_run,
    code_run_result and dead_letter_message of the server, with the columns that
    judging reads and writes (packages/server/src/entity), and the statements the
    dispatchers share: the lease a server stamps on a row, the output columns that
    are cleared together, and the entries of the dead letter queue.

    A statement is a function of the database; a transaction that fails or is
    rolled back is [None].  Times are in one unit, and [now] is the clock of the
    statement. *)

From S2P Require Import Prelude.
From S2P Require Import Text Float Verdict Sdk Host Judging.

(** ** Rows *)

(** The output columns of a judged row ([entity/judgement_reset.rs] clears them
    together); [oc_at] is judged_at or finalized_at. *)
Record Outcome := {
  oc_verdict : option Verdict;
  oc_compile_output : option ustring;
  oc_error_code : option ustring;
  oc_error_message : option ustring;
  oc_score : option f64;
  oc_time_used : option Z;
  oc_memory_used : option Z;
  oc_at : option Z;
}.

Definition no_outcome : Outcome := {|
  oc_verdict := None; oc_compile_output := None; oc_error_code := None; oc_error_message := None;
  oc_score := None; oc_time_used := None; oc_memory_used := None; oc_at := None |}.

(** Who judges the row: the owner, its heartbeat, and the time of dispatch. *)
Record Lease := {
  ls_owner : option ustring;
  ls_heartbeat : option Z;
  ls_leased_at : option Z;
}.

Definition no_lease : Lease := {| ls_owner := None; ls_heartbeat := None; ls_leased_at := None |}.

Definition lease_of (server : ustring) (now : Z) : Lease := {|
  ls_owner := Some server; ls_heartbeat := Some now; ls_leased_at := Some now |}.

(** A row of submission, and of code_run, which has the same columns. *)
Record JobRow := {
  jb_id : Z;
  jb_status : SubmissionLifecycle;
  jb_outcome : Outcome;
  jb_epoch : Z;
  jb_lease : Lease;
  jb_retry_count : Z;
  jb_created_at : Z;
  jb_target_worker : option ustring;
}.

#[global] Instance Outcome_eq_dec : EqDecision Outcome.
Proof. solve_decision. Defined.
#[global] Instance Lease_eq_dec : EqDecision Lease.
Proof. solve_decision. Defined.
#[global] Instance JobRow_eq_dec : EqDecision JobRow.
Proof. solve_decision. Defined.

Record JudgementRow := {
  jd_id : Z;
  jd_submission : Z;
  jd_version : Z;
  jd_current : bool;
  jd_finalized : bool;
  jd_triggered_by : option Z;
  jd_target_worker : option ustring;
  jd_status : SubmissionLifecycle;
  jd_outcome : Outcome;
  jd_epoch : Z;
  jd_lease : Lease;
  jd_retry_count : Z;
  jd_created_at : Z;
}.

Inductive DlqMessageType := OperationTask | StuckSubmission | StuckCodeRun | StuckSubmissionJudgement.

#[global] Instance DlqMessageType_eq_dec : EqDecision DlqMessageType.
Proof. solve_decision. Defined.

Record DlqRow := {
  dl_message_id : ustring;
  dl_type : DlqMessageType;
  dl_submission : option Z;
  dl_error_code : ustring;
  dl_error_message : ustring;
  dl_resolved : bool;
}.

(** [db_uuids] counts the UUIDs drawn so far. *)
Record JudgingDb := {
  db_submissions : gmap Z JobRow;
  db_judgements : gmap Z JudgementRow;
  db_results : list TestCaseResultRow;
  db_code_runs : gmap Z JobRow;
  db_run_results : list (Z * TestCaseResultRow);
  db_dlq : list DlqRow;
  db_next_judgement : Z;
  db_uuids : nat;
}.

Definition with_submissions (t : gmap Z JobRow) (d : JudgingDb) : JudgingDb := {|
  db_submissions := t; db_judgements := db_judgements d; db_results := db_results d;
  db_code_runs := db_code_runs d; db_run_results := db_run_results d; db_dlq := db_dlq d;
  db_next_judgement := db_next_judgement d; db_uuids := db_uuids d |}.

Definition with_judgements (t : gmap Z JudgementRow) (d : JudgingDb) : JudgingDb := {|
  db_submissions := db_submissions d; db_judgements := t; db_results := db_results d;
  db_code_runs := db_code_runs d; db_run_results := db_run_results d; db_dlq := db_dlq d;
  db_next_judgement := db_next_judgement d; db_uuids := db_uuids d |}.

Definition with_test_results (t : list TestCaseResultRow) (d : JudgingDb) : JudgingDb := {|
  db_submissions := db_submissions d; db_judgements := db_judgements d; db_results := t;
  db_code_runs := db_code_runs d; db_run_results := db_run_results d; db_dlq := db_dlq d;
  db_next_judgement := db_next_judgement d; db_uuids := db_uuids d |}.

Definition with_code_runs (t : gmap Z JobRow) (d : JudgingDb) : JudgingDb := {|
  db_submissions := db_submissions d; db_judgements := db_judgements d; db_results := db_results d;
  db_code_runs := t; db_run_results := db_run_results d; db_dlq := db_dlq d;
  db_next_judgement := db_next_judgement d; db_uuids := db_uuids d |}.

Definition with_run_results (t : list (Z * TestCaseResultRow)) (d : JudgingDb) : JudgingDb := {|
  db_submissions := db_submissions d; db_judgements := db_judgements d; db_results := db_results d;
  db_code_runs := db_code_runs d; db_run_results := t; db_dlq := db_dlq d;
  db_next_judgement := db_next_judgement d; db_uuids := db_uuids d |}.

Definition with_dlq (t : list DlqRow) (d : JudgingDb) : JudgingDb := {|
  db_submissions := db_submissions d; db_judgements := db_judgements d; db_results := db_results d;
  db_code_runs := db_code_runs d; db_run_results := db_run_results d; db_dlq := t;
  db_next_judgement := db_next_judgement d; db_uuids := db_uuids d |}.

Definition with_uuids (n : nat) (d : JudgingDb) : JudgingDb := {|
  db_submissions := db_submissions d; db_judgements := db_judgements d; db_results := db_results d;
  db_code_runs := db_code_runs d; db_run_results := db_run_results d; db_dlq := db_dlq d;
  db_next_judgement := db_next_judgement d; db_uuids := n |}.

Definition with_next_judgement (n : Z) (d : JudgingDb) : JudgingDb := {|
  db_submissions := db_submissions d; db_judgements := db_judgements d; db_results := db_results d;
  db_code_runs := db_code_runs d; db_run_results := db_run_results d; db_dlq := db_dlq d;
  db_next_judgement := n; db_uuids := db_uuids d |}.

(** ** Statements *)

Section statements.
Context {A : Type}.

(** [UPDATE t SET f WHERE P]. *)
Definition set_where (P : A → bool) (f : A → A) (t : gmap Z A) : gmap Z A :=
  (λ r, if P r then f r else r) <$> t.

(** [SELECT * FROM t WHERE P], in some order. *)
Definition rows_where (P : A → bool) (t : gmap Z A) : list A :=
  filter (λ r, P r = true) (map_to_list t).*2.

(** An [UPDATE] whose expressions may leave the range of a column, which fails the
    statement. *)
Definition checked_set_where (P : A → bool) (fits : A → bool) (f : A → A) (t : gmap Z A)
    : option (gmap Z A) :=
  if forallb fits (rows_where P t) then Some (set_where P f t) else None.
End statements.

Definition update_submissions (P : JobRow → bool) (f : JobRow → JobRow) (d : JudgingDb) : JudgingDb :=
  with_submissions (set_where P f (db_submissions d)) d.

Definition update_judgements (P : JudgementRow → bool) (f : JudgementRow → JudgementRow)
    (d : JudgingDb) : JudgingDb :=
  with_judgements (set_where P f (db_judgements d)) d.

Definition update_code_runs (P : JobRow → bool) (f : JobRow → JobRow) (d : JudgingDb) : JudgingDb :=
  with_code_runs (set_where P f (db_code_runs d)) d.

(** [col + 1] of an integer column, and [saturating_add(1)] of an [i32]. *)
Definition fits_add (z : Z) : bool := (z <? i32_max)%Z.
Definition saturating_succ (z : Z) : Z := Z.min i32_max (z + 1).

(** *** Columns *)

(** The columns of a job that a statement sets together. *)
Definition set_job (status : SubmissionLifecycle) (outcome : Outcome) (epoch : Z) (lease : Lease)
    (retry_count : Z) (r : JobRow) : JobRow := {|
  jb_id := jb_id r; jb_status := status; jb_outcome := outcome; jb_epoch := epoch; jb_lease := lease;
  jb_retry_count := retry_count; jb_created_at := jb_created_at r;
  jb_target_worker := jb_target_worker r |}.

Definition job_with_lease (lease : Lease) (r : JobRow) : JobRow :=
  set_job (jb_status r) (jb_outcome r) (jb_epoch r) lease (jb_retry_count r) r.

Definition job_with_retry (retry_count : Z) (r : JobRow) : JobRow :=
  set_job (jb_status r) (jb_outcome r) (jb_epoch r) (jb_lease r) retry_count r.

Definition job_with_outcome (status : SubmissionLifecycle) (outcome : Outcome) (r : JobRow) : JobRow :=
  set_job status outcome (jb_epoch r) (jb_lease r) (jb_retry_count r) r.

(** The columns of a judgement that a statement sets together. *)
Definition set_judgement (finalized : bool) (status : SubmissionLifecycle) (outcome : Outcome)
    (epoch : Z) (lease : Lease) (retry_count : Z) (r : JudgementRow) : JudgementRow := {|
  jd_id := jd_id r; jd_submission := jd_submission r; jd_version := jd_version r;
  jd_current := jd_current r; jd_finalized := finalized; jd_triggered_by := jd_triggered_by r;
  jd_target_worker := jd_target_worker r; jd_status := status; jd_outcome := outcome;
  jd_epoch := epoch; jd_lease := lease; jd_retry_count := retry_count;
  jd_created_at := jd_created_at r |}.

Definition judgement_with_current (current : bool) (r : JudgementRow) : JudgementRow := {|
  jd_id := jd_id r; jd_submission := jd_submission r; jd_version := jd_version r;
  jd_current := current; jd_finalized := jd_finalized r; jd_triggered_by := jd_triggered_by r;
  jd_target_worker := jd_target_worker r; jd_status := jd_status r; jd_outcome := jd_outcome r;
  jd_epoch := jd_epoch r; jd_lease := jd_lease r; jd_retry_count := jd_retry_count r;
  jd_created_at := jd_created_at r |}.

Definition judgement_with_lease (lease : Lease) (r : JudgementRow) : JudgementRow :=
  set_judgement (jd_finalized r) (jd_status r) (jd_outcome r) (jd_epoch r) lease (jd_retry_count r) r.

Definition judgement_with_retry (retry_count : Z) (r : JudgementRow) : JudgementRow :=
  set_judgement (jd_finalized r) (jd_status r) (jd_outcome r) (jd_epoch r) (jd_lease r) retry_count r.

Definition outcome_with_error (code message : ustring) (o : Outcome) : Outcome := {|
  oc_verdict := oc_verdict o; oc_compile_output := oc_compile_output o; oc_error_code := Some code;
  oc_error_message := Some message; oc_score := oc_score o; oc_time_used := oc_time_used o;
  oc_memory_used := oc_memory_used o; oc_at := oc_at o |}.

Definition outcome_at (now : option Z) (o : Outcome) : Outcome := {|
  oc_verdict := oc_verdict o; oc_compile_output := oc_compile_output o;
  oc_error_code := oc_error_code o; oc_error_message := oc_error_message o; oc_score := oc_score o;
  oc_time_used := oc_time_used o; oc_memory_used := oc_memory_used o; oc_at := now |}.

(** A judgement that ends as a system error. *)
Definition fail_judgement (code message : ustring) (now : Z) (r : JudgementRow) : JudgementRow :=
  set_judgement true SystemErrorStatus
    (outcome_at (Some now) (outcome_with_error code message (jd_outcome r)))
    (jd_epoch r) (jd_lease r) (jd_retry_count r) r.

(** *** Status filters *)

Definition is_leased (s : SubmissionLifecycle) : bool :=
  match s with PendingSubmission | Compiling | Running => true | _ => false end.

(** [status NOT IN ('Judged', 'CompilationError', 'SystemError')]. *)
Definition not_terminal (s : SubmissionLifecycle) : bool := negb (status_is_terminal s).

(** *** Judgements *)

Definition judgements_of (sub : Z) (d : JudgingDb) : list JudgementRow :=
  rows_where (λ j, jd_submission j =? sub)%Z (db_judgements d).

(** [order_by_desc(Version).one()]. *)
Definition max_version (sub : Z) (d : JudgingDb) : option Z :=
  match jd_version <$> judgements_of sub d with
  | [] => None
  | v :: vs => Some (foldr Z.max v vs)
  end.

(** The unique indexes of the table: a version, and a current judgement, for each
    submission (seed.rs). *)
Definition insert_allowed (j : JudgementRow) (d : JudgingDb) : bool :=
  forallb (λ j', negb (jd_version j' =? jd_version j)%Z && negb (jd_current j' && jd_current j))
    (judgements_of (jd_submission j) d).

(** The new row gets the next id. *)
Definition insert_judgement (j : JudgementRow) (d : JudgingDb) : option (JudgementRow * JudgingDb) :=
  let id := db_next_judgement d in
  let j := {| jd_id := id; jd_submission := jd_submission j; jd_version := jd_version j;
              jd_current := jd_current j; jd_finalized := jd_finalized j;
              jd_triggered_by := jd_triggered_by j; jd_target_worker := jd_target_worker j;
              jd_status := jd_status j; jd_outcome := jd_outcome j; jd_epoch := jd_epoch j;
              jd_lease := jd_lease j; jd_retry_count := jd_retry_count j;
              jd_created_at := jd_created_at j |} in
  if insert_allowed j d then
    Some (j, with_next_judgement (id + 1) (with_judgements (<[id := j]> (db_judgements d)) d))
  else None.

(** A judgement about to be inserted, without output. *)
Definition fresh_judgement (sub version epoch : Z) (current : bool) (status : SubmissionLifecycle)
    (triggered_by : option Z) (target : option ustring) (lease : Lease) (created_at : Z)
    : JudgementRow := {|
  jd_id := 0; jd_submission := sub; jd_version := version; jd_current := current;
  jd_finalized := false; jd_triggered_by := triggered_by; jd_target_worker := target;
  jd_status := status; jd_outcome := no_outcome; jd_epoch := epoch; jd_lease := lease;
  jd_retry_count := 0; jd_created_at := created_at |}.

Definition next_version (sub : Z) (d : JudgingDb) : Z := saturating_succ (default 0%Z (max_version sub d)).

(** [DELETE FROM test_case_result WHERE judgement_id IN ids]. *)
Definition delete_results_of (ids : list Z) (d : JudgingDb) : JudgingDb :=
  with_test_results (filter (λ r, tr_judgement_id r ∉ ids) (db_results d)) d.

(** *** The dead letter queue (dlq/service.rs) *)

(** [create_entry]: an entry whose message id exists, resolved or not, is not
    inserted again. *)
Definition create_entry (e : DlqRow) (d : JudgingDb) : JudgingDb :=
  if decide (dl_message_id e ∈ dl_message_id <$> db_dlq d) then d else with_dlq (db_dlq d ++ [e]) d.

(** ** System errors (consumers/mod.rs) *)

(** The submission ends as a system error; with an epoch, only at that epoch, and
    only while it has no result. *)
Definition mark_submission_row (id : Z) (code message : ustring) (epoch : option Z) (d : JudgingDb)
    : JudgingDb :=
  update_submissions
    (λ s, (jb_id s =? id)%Z
          && match epoch with Some e => (jb_epoch s =? e)%Z && not_terminal (jb_status s) | None => true end)
    (λ s, job_with_outcome SystemErrorStatus
            (outcome_with_error (sanitize_text_field code) (sanitize_text_field message) (jb_outcome s)) s) d.

(** And its current judgement. *)
Definition mark_current_judgement (id : Z) (code message : ustring) (epoch : option Z) (now : Z)
    (d : JudgingDb) : JudgingDb :=
  update_judgements
    (λ j, (jd_submission j =? id)%Z && jd_current j && negb (jd_finalized j)
          && match epoch with Some e => (jd_epoch j =? e)%Z | None => true end)
    (fail_judgement (sanitize_text_field code) (sanitize_text_field message) now) d.

Definition mark_submission_system_error_with_epoch (id : Z) (code message : ustring)
    (epoch : option Z) (now : Z) (d : JudgingDb) : JudgingDb :=
  mark_current_judgement id code message epoch now (mark_submission_row id code message epoch d).

Definition mark_code_run_system_error_with_epoch (id : Z) (code message : ustring)
    (epoch : option Z) (d : JudgingDb) : JudgingDb :=
  let code := sanitize_text_field code in
  let message := sanitize_text_field message in
  update_code_runs
    (λ s, (jb_id s =? id)%Z
          && match epoch with Some e => (jb_epoch s =? e)%Z && not_terminal (jb_status s) | None => true end)
    (λ s, job_with_outcome SystemErrorStatus (outcome_with_error code message (jb_outcome s)) s) d.

(** ** What a plugin writes (host_funcs/submissions.rs) *)

Definition set_column {A} (column : A) (update : option A) : A := default column update.

(** [push_judge_sets]; a terminal status stamps [oc_at]. *)
Definition judge_sets (up : SubmissionUpdate) (now : Z) (o : Outcome) : Outcome := {|
  oc_verdict := set_column (oc_verdict o) (su_verdict up);
  oc_compile_output :=
    set_column (oc_compile_output o) (option_map (option_map sanitize_result_text_field) (su_compile_output up));
  oc_error_code := set_column (oc_error_code o) (option_map (option_map sanitize_result_text_field) (su_error_code up));
  oc_error_message :=
    set_column (oc_error_message o) (option_map (option_map sanitize_result_text_field) (su_error_message up));
  oc_score :=
    set_column (oc_score o) (option_map (λ x, Some (if is_finite x then x else f_zero)) (su_score up));
  oc_time_used := set_column (oc_time_used o) (su_time_used up);
  oc_memory_used := set_column (oc_memory_used o) (su_memory_used up);
  oc_at := match su_status up with
           | Some status => if status_is_terminal status then Some now else oc_at o
           | None => oc_at o
           end |}.

(** The states a plugin can name (types/persistence.rs); any other does not
    deserialize. *)
Definition guest_status (up : SubmissionUpdate) : bool :=
  match su_status up with
  | None | Some (Compiling | Running | Judged | CompilationError) => true
  | Some _ => false
  end.

(** An update that names no column is not sent. *)
Definition names_no_column (up : SubmissionUpdate) : bool :=
  match su_status up, su_verdict up, su_score up, su_time_used up, su_memory_used up,
        su_compile_output up, su_error_code up, su_error_message up with
  | None, None, None, None, None, None, None, None => true
  | _, _, _, _, _, _, _, _ => false
  end.

(** The judgement a plugin writes to: at its epoch, not finalized, and current or
    the latest version. *)
Definition writable (up : SubmissionUpdate) (d : JudgingDb) (j : JudgementRow) : bool :=
  (jd_id j =? su_judgement_id up)%Z && (jd_epoch j =? su_judge_epoch up)%Z && negb (jd_finalized j)
  && (jd_current j || bool_decide (max_version (su_submission_id up) d = Some (jd_version j))).

Definition is_terminal_marker (up : SubmissionUpdate) : bool :=
  match su_status up with Some (Judged | CompilationError) => true | _ => false end.

Definition write_judgement (up : SubmissionUpdate) (now : Z) (j : JudgementRow) : JudgementRow :=
  set_judgement (is_terminal_marker up || jd_finalized j) (default (jd_status j) (su_status up))
    (judge_sets up now (jd_outcome j)) (jd_epoch j) (jd_lease j) (jd_retry_count j) j.

(** The first statement of an update, and the number of judgements it wrote. *)
Definition update_judgement_row (up : SubmissionUpdate) (now : Z) (d : JudgingDb) : nat * JudgingDb :=
  (length (rows_where (writable up d) (db_judgements d)),
   update_judgements (writable up d) (write_judgement up now) d).

(** The second: the row of the submission caches its current judgement. *)
Definition update_submission_row (up : SubmissionUpdate) (now : Z) (d : JudgingDb) : JudgingDb :=
  update_submissions
    (λ s, (jb_id s =? su_submission_id up)%Z && (jb_epoch s =? su_judge_epoch up)%Z
          && not_terminal (jb_status s)
          && negb (bool_decide (rows_where (λ j, (jd_id j =? su_judgement_id up)%Z
               && (jd_submission j =? jb_id s)%Z && (jd_epoch j =? jb_epoch s)%Z && jd_current j)
               (db_judgements d) = [])))
    (λ s, job_with_outcome (default (jb_status s) (su_status up)) (judge_sets up now (jb_outcome s)) s) d.

(** The number of judgements written is the answer. *)
Definition submission_update (up : SubmissionUpdate) (now : Z) (d : JudgingDb) : option (nat * JudgingDb) :=
  if negb (guest_status up) then None
  else if names_no_column up then Some (1, d)
  else
    let '(n, d) := update_judgement_row up now d in
    if n =? 0 then Some (0, d) else Some (n, update_submission_row up now d).

(** Results are kept for a judgement at their epoch that is not finalized. *)
Definition accepts_result (d : JudgingDb) (r : TestCaseResultRow) : bool :=
  match db_judgements d !! tr_judgement_id r with
  | Some j => (jd_submission j =? tr_submission_id r)%Z && (jd_epoch j =? tr_judge_epoch r)%Z
              && negb (jd_finalized j)
  | None => false
  end.

Definition stored_result (r : TestCaseResultRow) : TestCaseResultRow := {|
  tr_submission_id := tr_submission_id r; tr_judgement_id := tr_judgement_id r;
  tr_judge_epoch := tr_judge_epoch r; tr_test_case_id := tr_test_case_id r;
  tr_run_index := tr_run_index r; tr_verdict := tr_verdict r;
  tr_score := if is_finite (tr_score r) then tr_score r else f_zero;
  tr_time_used := tr_time_used r; tr_memory_used := tr_memory_used r;
  tr_message := sanitize_result_text_field <$> tr_message r;
  tr_stdout := sanitize_result_text_field <$> tr_stdout r;
  tr_stderr := sanitize_result_text_field <$> tr_stderr r |}.

Definition submission_insert_results (rows : list TestCaseResultRow) (d : JudgingDb) : JudgingDb :=
  with_test_results (db_results d ++ (stored_result <$> filter (λ r, accepts_result d r = true) rows)) d.

Definition submission_delete_results (sub judgement epoch : Z) (d : JudgingDb) : JudgingDb :=
  with_test_results (filter (λ r, ¬ (tr_submission_id r = sub ∧ tr_judgement_id r = judgement
                                      ∧ tr_judge_epoch r = epoch)) (db_results d)) d.
