(* ===== verification/Dispatch.v ===== *)
(** * Dispatch: the dispatchers that claim, steal, retry and repair judging

    packages/server/src/dispatcher (claim.rs, steal.rs, lease.rs,
    system_error_retry.rs), services/submission_dispatch.rs, dlq/stuck and
    handlers/submission/rejudge.rs, each operation a transaction on [JudgingDb].
    A row locked by another transaction is skipped by a scan; [locked] says which.
    Rows created at the same time come in some order. *)

From S2P Require Import Prelude.
From S2P Require Import Text Float Verdict Sdk Host Judging JudgingDb.

(** ** Scans (steal.rs, claim.rs) *)

Record ClaimedRow := { cr_id : Z; cr_epoch : Z; cr_retry_count : Z }.

(** [FOR UPDATE SKIP LOCKED], in the order of creation. *)
Definition scan {A} (key created : A → Z) (P : A → bool) (locked : Z → bool) (limit : nat)
    (t : gmap Z A) : list A :=
  take limit (sort_by_key created (rows_where (λ r, P r && negb (locked (key r))) t)).

(** The lease ran out: an unowned row by its age, an owned one by its heartbeat. *)
Definition lease_expired (threshold : Z) (l : Lease) (created_at : Z) : bool :=
  match ls_owner l with
  | None => (created_at <? threshold)%Z
  | Some _ => match ls_heartbeat l with None => true | Some h => (h <? threshold)%Z end
  end.

Definition stale_job (threshold : Z) (r : JobRow) : bool :=
  is_leased (jb_status r) && lease_expired threshold (jb_lease r) (jb_created_at r).

Definition stale_judgement (threshold : Z) (r : JudgementRow) : bool :=
  jd_current r && negb (jd_finalized r) && is_leased (jd_status r)
  && lease_expired threshold (jd_lease r) (jd_created_at r).

Definition claim_rows (locked : Z → bool) (now lease_ttl : Z) (batch_size : nat) (t : gmap Z JobRow)
    : list ClaimedRow :=
  (λ r, {| cr_id := jb_id r; cr_epoch := jb_epoch r; cr_retry_count := jb_retry_count r |})
    <$> scan jb_id jb_created_at (stale_job (now - lease_ttl)) locked batch_size t.

Definition claim_deferred_judgement_rows (locked : Z → bool) (now lease_ttl : Z) (batch_size : nat)
    (t : gmap Z JudgementRow) : list ClaimedRow :=
  (λ r, {| cr_id := jd_id r; cr_epoch := jd_epoch r; cr_retry_count := jd_retry_count r |})
    <$> scan jd_id jd_created_at (stale_judgement (now - lease_ttl)) locked batch_size t.

Record ClaimPlan := { cp_redispatch_ids : list Z; cp_exhausted_rows : list ClaimedRow }.

Definition exhausted (max_dispatch_retries : Z) (r : ClaimedRow) : bool :=
  (Z.min max_dispatch_retries i32_max <? saturating_succ (cr_retry_count r))%Z.

Definition from_rows (rows : list ClaimedRow) (max_dispatch_retries : Z) : ClaimPlan := {|
  cp_redispatch_ids := cr_id <$> filter (λ r, exhausted max_dispatch_retries r = false) rows;
  cp_exhausted_rows := filter (λ r, exhausted max_dispatch_retries r = true) rows |}.

Definition DISPATCH_RETRY_EXHAUSTED : ustring := u "DISPATCH_RETRY_EXHAUSTED".
Definition STUCK_JOB : ustring := u "STUCK_JOB".

Definition exhausted_message (what : ustring) (max : Z) : ustring :=
  what ++ u " dispatch retry limit exhausted after " ++ show max ++ u " attempts".

(** A job back to [Pending], without output, under a new epoch and lease. *)
Definition redispatch_job (epoch : Z) (lease : Lease) (retry_count : Z) : JobRow → JobRow :=
  set_job PendingSubmission no_outcome epoch lease retry_count.

Definition redispatch_judgement (epoch : Z) (lease : Lease) (retry_count : Z) (j : JudgementRow)
    : JudgementRow :=
  set_judgement (jd_finalized j) PendingSubmission no_outcome epoch lease retry_count j.

Definition in_ids (ids : list Z) (id : Z) : bool := bool_decide (id ∈ ids).

Definition job_fits (r : JobRow) : bool := fits_add (jb_retry_count r) && fits_add (jb_epoch r).
Definition judgement_fits (r : JudgementRow) : bool :=
  fits_add (jd_retry_count r) && fits_add (jd_epoch r).

(** The next attempt of a job that is stolen. *)
Definition steal_job (server : ustring) (now : Z) (r : JobRow) : JobRow :=
  redispatch_job (jb_epoch r + 1) (lease_of server now) (jb_retry_count r + 1) r.

Definition steal_judgement (server : ustring) (now : Z) (j : JudgementRow) : JudgementRow :=
  redispatch_judgement (jd_epoch j + 1) (lease_of server now) (jd_retry_count j + 1) j.

(** *** Submissions *)

(** The current judgement is demoted, and a new one opened. *)
Fixpoint open_judgements (server : ustring) (now : Z) (subs : list JobRow) (d : JudgingDb)
    : option JudgingDb :=
  match subs with
  | [] => Some d
  | sub :: subs =>
      '(_, d) ← insert_judgement
        (fresh_judgement (jb_id sub) (next_version (jb_id sub) d) (saturating_succ (jb_epoch sub)) true
           PendingSubmission None (jb_target_worker sub) (lease_of server now) now) d;
      open_judgements server now subs d
  end.

Definition demote (ids : list Z) (d : JudgingDb) : JudgingDb :=
  update_judgements (λ j, in_ids ids (jd_submission j) && jd_current j) (judgement_with_current false) d.

Definition open_stolen_submission_judgements (server : ustring) (now : Z) (ids : list Z) (d : JudgingDb)
    : option JudgingDb :=
  open_judgements server now (rows_where (λ s, in_ids ids (jb_id s)) (db_submissions d)) (demote ids d).

Definition clear_current_submission_results (ids : list Z) (d : JudgingDb) : JudgingDb :=
  delete_results_of
    (jd_id <$> rows_where (λ j, in_ids ids (jd_submission j) && jd_current j && negb (jd_finalized j))
                 (db_judgements d)) d.

(** [retry_count + 1 WHERE id AND judge_epoch]. *)
Definition count_exhausted (row : ClaimedRow) (t : gmap Z JobRow) : option (gmap Z JobRow) :=
  checked_set_where (λ r, (jb_id r =? cr_id row)%Z && (jb_epoch r =? cr_epoch row)%Z)
    (λ r, fits_add (jb_retry_count r)) (λ r, job_with_retry (jb_retry_count r + 1) r) t.

Section dispatch.
(** The UUIDs that are drawn. *)
Context (uuid : nat → ustring).

Definition exhaust_submission (now max_dispatch_retries : Z) (row : ClaimedRow) (d : JudgingDb)
    : option JudgingDb :=
  let message := exhausted_message (u "Submission") max_dispatch_retries in
  let d := create_entry {|
    dl_message_id := u "dispatch-retry-exhausted-submission-" ++ show (cr_id row) ++ u "-" ++ uuid (db_uuids d);
    dl_type := StuckSubmission; dl_submission := Some (cr_id row);
    dl_error_code := DISPATCH_RETRY_EXHAUSTED; dl_error_message := message; dl_resolved := false |}
    (with_uuids (S (db_uuids d)) d) in
  let d := mark_submission_system_error_with_epoch (cr_id row) DISPATCH_RETRY_EXHAUSTED message
             (Some (cr_epoch row)) now d in
  t ← count_exhausted row (db_submissions d);
  Some (with_submissions t d).

Fixpoint exhaust_submissions (now max_dispatch_retries : Z) (rows : list ClaimedRow) (d : JudgingDb)
    : option JudgingDb :=
  match rows with
  | [] => Some d
  | row :: rows => d ← exhaust_submission now max_dispatch_retries row d;
                   exhaust_submissions now max_dispatch_retries rows d
  end.

Definition steal_submissions (server : ustring) (now : Z) (ids : list Z) (d : JudgingDb)
    : option JudgingDb :=
  d ← open_stolen_submission_judgements server now ids d;
  let d := clear_current_submission_results ids d in
  t ← checked_set_where (λ s, in_ids ids (jb_id s)) job_fits (steal_job server now) (db_submissions d);
  Some (with_submissions t d).

(** The stolen submissions to dispatch, and the database after the commit. *)
Definition claim_submissions (server : ustring) (locked : Z → bool) (now lease_ttl : Z)
    (batch_size : nat) (max_dispatch_retries : Z) (d : JudgingDb) : option (list JobRow * JudgingDb) :=
  let plan := from_rows (claim_rows locked now lease_ttl batch_size (db_submissions d)) max_dispatch_retries in
  let ids := cp_redispatch_ids plan in
  d ← (if decide (ids = []) then Some d else steal_submissions server now ids d);
  d ← exhaust_submissions now max_dispatch_retries (cp_exhausted_rows plan) d;
  Some (rows_where (λ s, in_ids ids (jb_id s)) (db_submissions d), d).

(** *** Deferred judgements *)

Definition exhaust_judgement (now max_dispatch_retries : Z) (row : ClaimedRow) (d : JudgingDb)
    : option JudgingDb :=
  let message := exhausted_message (u "Deferred judgement") max_dispatch_retries in
  t ← checked_set_where (λ j, (jd_id j =? cr_id row)%Z && (jd_epoch j =? cr_epoch row)%Z)
        (λ j, fits_add (jd_retry_count j))
        (λ j, judgement_with_retry (jd_retry_count j + 1)
                (fail_judgement DISPATCH_RETRY_EXHAUSTED message now j)) (db_judgements d);
  Some (with_judgements t d).

Fixpoint exhaust_judgements (now max_dispatch_retries : Z) (rows : list ClaimedRow) (d : JudgingDb)
    : option JudgingDb :=
  match rows with
  | [] => Some d
  | row :: rows => d ← exhaust_judgement now max_dispatch_retries row d;
                   exhaust_judgements now max_dispatch_retries rows d
  end.

(** The submissions of exhausted judgements end too, at their own epoch. *)
Definition fail_parents (now max_dispatch_retries : Z) (rows : list ClaimedRow) (d : JudgingDb)
    : JudgingDb :=
  let parents := jd_submission
    <$> rows_where (λ j, in_ids (cr_id <$> rows) (jd_id j)) (db_judgements d) in
  foldl (λ d s, mark_submission_system_error_with_epoch (jb_id s) DISPATCH_RETRY_EXHAUSTED
                  (exhausted_message (u "Deferred judgement") max_dispatch_retries)
                  (Some (jb_epoch s)) now d) d
    (rows_where (λ s, in_ids parents (jb_id s)) (db_submissions d)).

(** The submission follows its judgement: epoch, lease and status; its own count
    of attempts never goes down. *)
Definition follow_judgement (server : ustring) (now : Z) (j : JudgementRow) (d : JudgingDb) : JudgingDb :=
  update_submissions (λ s, (jb_id s =? jd_submission j)%Z)
    (λ s, redispatch_job (jd_epoch j) (lease_of server now)
            (Z.max (jb_retry_count s) (jd_retry_count j)) s) d.

Definition steal_judgements (server : ustring) (now : Z) (ids : list Z) (d : JudgingDb)
    : option JudgingDb :=
  t ← checked_set_where (λ j, in_ids ids (jd_id j)) judgement_fits (steal_judgement server now)
        (db_judgements d);
  Some (delete_results_of ids (with_judgements t d)).

(** A submission as it is dispatched for a judgement. *)
Definition dispatched_for (server : ustring) (j : JudgementRow) (sub : JobRow) : JobRow := {|
  jb_id := jb_id sub; jb_status := PendingSubmission; jb_outcome := jb_outcome sub;
  jb_epoch := jd_epoch j;
  jb_lease := {| ls_owner := Some server; ls_heartbeat := ls_heartbeat (jd_lease j);
                 ls_leased_at := ls_leased_at (jd_lease j) |};
  jb_retry_count := jd_retry_count j; jb_created_at := jb_created_at sub;
  jb_target_worker := match jd_target_worker j with Some t => Some t | None => jb_target_worker sub end |}.

(** The judgements to dispatch, each with its submission as it was read. *)
Definition claim_deferred_judgements (server : ustring) (locked : Z → bool) (now lease_ttl : Z)
    (batch_size : nat) (max_dispatch_retries : Z) (d : JudgingDb)
    : option (list (JobRow * Z * bool) * JudgingDb) :=
  let plan := from_rows (claim_deferred_judgement_rows locked now lease_ttl batch_size (db_judgements d))
                max_dispatch_retries in
  let ids := cp_redispatch_ids plan in
  d ← (if decide (ids = []) then Some d else steal_judgements server now ids d);
  d ← exhaust_judgements now max_dispatch_retries (cp_exhausted_rows plan) d;
  let d := if decide (cp_exhausted_rows plan = []) then d
           else fail_parents now max_dispatch_retries (cp_exhausted_rows plan) d in
  let judgements := rows_where (λ j, in_ids ids (jd_id j)) (db_judgements d) in
  let dispatches := omap (λ j, (λ sub, (dispatched_for server j sub, jd_id j, jd_current j))
                                 <$> db_submissions d !! jd_submission j) judgements in
  Some (dispatches, foldl (λ d j, follow_judgement server now j d) d judgements).

(** *** Code runs *)

Definition exhaust_code_run (max_dispatch_retries : Z) (row : ClaimedRow) (d : JudgingDb)
    : option JudgingDb :=
  let d := mark_code_run_system_error_with_epoch (cr_id row) DISPATCH_RETRY_EXHAUSTED
             (exhausted_message (u "Code run") max_dispatch_retries) (Some (cr_epoch row)) d in
  t ← count_exhausted row (db_code_runs d);
  Some (with_code_runs t d).

Fixpoint exhaust_code_runs (max_dispatch_retries : Z) (rows : list ClaimedRow) (d : JudgingDb)
    : option JudgingDb :=
  match rows with
  | [] => Some d
  | row :: rows => d ← exhaust_code_run max_dispatch_retries row d;
                   exhaust_code_runs max_dispatch_retries rows d
  end.

Definition claim_code_runs (server : ustring) (locked : Z → bool) (now lease_ttl : Z)
    (batch_size : nat) (max_dispatch_retries : Z) (d : JudgingDb) : option (list JobRow * JudgingDb) :=
  let plan := from_rows (claim_rows locked now lease_ttl batch_size (db_code_runs d)) max_dispatch_retries in
  let ids := cp_redispatch_ids plan in
  d ← (if decide (ids = []) then Some d
       else t ← checked_set_where (λ s, in_ids ids (jb_id s)) job_fits (steal_job server now)
                  (db_code_runs d);
            Some (with_code_runs t d));
  d ← exhaust_code_runs max_dispatch_retries (cp_exhausted_rows plan) d;
  Some (rows_where (λ s, in_ids ids (jb_id s)) (db_code_runs d), d).

End dispatch.

(** ** Queued rows (claim.rs) *)

Definition IN_FLIGHT_PER_WORKER_SLOT : Z := 8.

Definition effective_cap (configured live_worker_slots : Z) : Z :=
  if (configured =? 0)%Z then 0
  else
    let scaled := Z.min u64_max (live_worker_slots * IN_FLIGHT_PER_WORKER_SLOT) in
    let cap := Z.max scaled configured in
    if (cap <=? u32_max)%Z then cap else u32_max.

Definition claim_budget (batch_size max_in_flight in_flight : Z) : Z :=
  if (max_in_flight =? 0)%Z then batch_size
  else
    let room := Z.max 0 (max_in_flight - in_flight) in
    Z.min batch_size (if (room <=? u32_max)%Z then room else u32_max).

Definition count_in_flight (server : ustring) (d : JudgingDb) : nat :=
  length (rows_where (λ s, bool_decide (ls_owner (jb_lease s) = Some server) && is_leased (jb_status s))
            (db_submissions d)).

Definition is_queued (s : SubmissionLifecycle) : bool := bool_decide (s = Queued).

(** A queued row is leased and becomes pending; its count of attempts grows. *)
Definition claim_job (server : ustring) (now : Z) (r : JobRow) : JobRow :=
  set_job PendingSubmission (jb_outcome r) (jb_epoch r) (lease_of server now) (jb_retry_count r + 1) r.

Definition claim_judgement (server : ustring) (now : Z) (j : JudgementRow) : JudgementRow :=
  set_judgement (jd_finalized j) PendingSubmission (jd_outcome j) (jd_epoch j) (lease_of server now)
    (jd_retry_count j + 1) j.

Definition select_queued_rows {A} (key created : A → Z) (status : A → SubmissionLifecycle)
    (locked : Z → bool) (batch_size : nat) (t : gmap Z A) : list Z :=
  key <$> scan key created (λ r, is_queued (status r)) locked (Nat.max batch_size 1) t.

Definition claim_queued_jobs (server : ustring) (now : Z) (ids : list Z) (t : gmap Z JobRow)
    : option (gmap Z JobRow) :=
  checked_set_where (λ r, in_ids ids (jb_id r) && is_queued (jb_status r))
    (λ r, fits_add (jb_retry_count r)) (claim_job server now) t.

Definition claim_queued_submissions (server : ustring) (locked : Z → bool) (now : Z) (batch_size : nat)
    (d : JudgingDb) : option (list JobRow * JudgingDb) :=
  let ids := select_queued_rows jb_id jb_created_at jb_status locked batch_size (db_submissions d) in
  if decide (ids = []) then Some ([], d)
  else
    t ← claim_queued_jobs server now ids (db_submissions d);
    Some (rows_where (λ r, in_ids ids (jb_id r)) t, with_submissions t d).

Definition claim_queued_code_runs (server : ustring) (locked : Z → bool) (now : Z) (batch_size : nat)
    (d : JudgingDb) : option (list JobRow * JudgingDb) :=
  let ids := select_queued_rows jb_id jb_created_at jb_status locked batch_size (db_code_runs d) in
  if decide (ids = []) then Some ([], d)
  else
    t ← claim_queued_jobs server now ids (db_code_runs d);
    Some (rows_where (λ r, in_ids ids (jb_id r)) t, with_code_runs t d).

Definition job_with_epoch (epoch : Z) (r : JobRow) : JobRow :=
  set_job (jb_status r) (jb_outcome r) epoch (jb_lease r) (jb_retry_count r) r.

(** A deferred rejudge runs at the epoch of its judgement; the submission is not
    touched. *)
Definition claim_queued_judgements (server : ustring) (locked : Z → bool) (now : Z) (batch_size : nat)
    (d : JudgingDb) : option (list (JobRow * JudgementRow) * JudgingDb) :=
  let ids := select_queued_rows jd_id jd_created_at jd_status locked batch_size (db_judgements d) in
  if decide (ids = []) then Some ([], d)
  else
    t ← checked_set_where (λ j, in_ids ids (jd_id j) && is_queued (jd_status j))
          (λ j, fits_add (jd_retry_count j)) (claim_judgement server now) (db_judgements d);
    let judgements := rows_where (λ j, in_ids ids (jd_id j)) t in
    Some (omap (λ j, (λ s, (job_with_epoch (jd_epoch j) s, j)) <$> db_submissions d !! jd_submission j)
            judgements, with_judgements t d).

(** ** Leases (lease.rs, steal.rs) *)

Definition owned_by (server : ustring) (l : Lease) : bool := bool_decide (ls_owner l = Some server).

Definition heartbeat (now : Z) (l : Lease) : Lease := {|
  ls_owner := ls_owner l; ls_heartbeat := Some now; ls_leased_at := ls_leased_at l |}.

(** A judgement keeps its lease while it is the latest version, current and not
    finalized. *)
Definition refreshable (server : ustring) (d : JudgingDb) (j : JudgementRow) : bool :=
  owned_by server (jd_lease j) && jd_current j && negb (jd_finalized j) && is_leased (jd_status j)
  && bool_decide (max_version (jd_submission j) d = Some (jd_version j)).

Definition refresh_owned_leases (server : ustring) (now : Z) (d : JudgingDb) : JudgingDb :=
  let owned s := owned_by server (jb_lease s) && is_leased (jb_status s) in
  let refresh r := job_with_lease (heartbeat now (jb_lease r)) r in
  let d := update_code_runs owned refresh (update_submissions owned refresh d) in
  update_judgements (refreshable server d) (λ j, judgement_with_lease (heartbeat now (jd_lease j)) j) d.

(** At startup a server hands its own leases to the scans. *)
Definition orphan_lease (server : ustring) : Lease := {|
  ls_owner := Some (server ++ u "#orphaned"); ls_heartbeat := None; ls_leased_at := None |}.

Definition recover_orphaned_leases (server : ustring) (d : JudgingDb) : JudgingDb :=
  let owned s := owned_by server (jb_lease s) && is_leased (jb_status s) in
  let d := update_code_runs owned (job_with_lease (orphan_lease server))
             (update_submissions owned (job_with_lease (orphan_lease server)) d) in
  update_judgements (λ j, owned_by server (jd_lease j) && negb (jd_finalized j) && is_leased (jd_status j))
    (judgement_with_lease (orphan_lease server)) d.

(** ** Dispatch (submission_dispatch.rs) *)

(** The current judgement of the submission that is not finalized. *)
Definition active_judgement (sub : Z) (d : JudgingDb) : option JudgementRow :=
  head (rows_where (λ j, (jd_submission j =? sub)%Z && jd_current j && negb (jd_finalized j))
          (db_judgements d)).

Definition adopted_lease (owner : option ustring) (now : Z) : Lease := {|
  ls_owner := owner; ls_heartbeat := Some now; ls_leased_at := Some now |}.

(** A judgement to write to: the active one, adopted, or a new one; 0 when it
    cannot be inserted. *)
Definition ensure_active_judgement_id (sub : JobRow) (now : Z) (d : JudgingDb) : Z * JudgingDb :=
  match active_judgement (jb_id sub) d with
  | Some j =>
      if decide (ls_owner (jd_lease j) ≠ ls_owner (jb_lease sub) ∨ ls_heartbeat (jd_lease j) = None)
      then (jd_id j, update_judgements (λ j', jd_id j' =? jd_id j)%Z
                       (judgement_with_lease (adopted_lease (ls_owner (jb_lease sub)) now)) d)
      else (jd_id j, d)
  | None =>
      let version := match max_version (jb_id sub) d with Some v => saturating_succ v | None => 1%Z end in
      let j := fresh_judgement (jb_id sub) version (jb_epoch sub) true (jb_status sub) None
                 (jb_target_worker sub) (adopted_lease (ls_owner (jb_lease sub)) now) (jb_created_at sub) in
      let j := set_judgement false (jb_status sub) (outcome_at None (jb_outcome sub)) (jb_epoch sub)
                 (jd_lease j) 0 j in
      match insert_judgement j d with
      | Some (j, d) => (jd_id j, d)
      | None => (0%Z, d)
      end
  end.

(** A failed dispatch ends its own judgement, and the submission at that epoch. *)
Definition mark_dispatched_judgement (judgement : Z) (code message : ustring) (epoch now : Z)
    (d : JudgingDb) : JudgingDb :=
  if (judgement >? 0)%Z then
    update_judgements (λ j, (jd_id j =? judgement)%Z && (jd_epoch j =? epoch)%Z && negb (jd_finalized j))
      (fail_judgement (sanitize_text_field code) (sanitize_text_field message) now) d
  else d.

Definition mark_submission_dispatch_system_error (sub judgement : Z) (code message : ustring)
    (epoch now : Z) (d : JudgingDb) : JudgingDb :=
  mark_submission_system_error_with_epoch sub code message (Some epoch) now
    (mark_dispatched_judgement judgement code message epoch now d).

(** ** Retries of system errors (submission_dispatch.rs, system_error_retry.rs) *)

Definition system_error_outcome (j : JudgementRow) : bool :=
  bool_decide (jd_status j = Judged ∧ oc_verdict (jd_outcome j) = Some SystemError)
  || bool_decide (jd_status j = SystemErrorStatus).

(** [Ok None] of the source is [Some (None, d)] with the database unchanged. *)
Definition requeue_judgement_for_system_error_retry (sub judgement expected_epoch : Z)
    (server : ustring) (max_retries now : Z) (d : JudgingDb) : option JobRow * JudgingDb :=
  if (judgement <=? 0)%Z then (None, d)
  else
    match db_judgements d !! judgement with
    | None => (None, d)
    | Some j =>
        if negb (jd_current j && jd_finalized j && (jd_epoch j =? expected_epoch)%Z
                 && system_error_outcome j) then (None, d)
        else if (Z.min max_retries i32_max <? saturating_succ (jd_retry_count j))%Z then (None, d)
        else
          let epoch := saturating_succ expected_epoch in
          let retry := saturating_succ (jd_retry_count j) in
          let job (s : JobRow) := ((jb_id s =? sub)%Z && (jb_epoch s =? expected_epoch)%Z) in
          if decide (rows_where job (db_submissions d) = []) then (None, d)
          else
            let d := update_judgements
              (λ j', (jd_id j' =? judgement)%Z && (jd_epoch j' =? expected_epoch)%Z)
              (set_judgement false PendingSubmission no_outcome epoch (lease_of server now) retry) d in
            let d := delete_results_of [judgement]
              (update_submissions job (redispatch_job epoch (lease_of server now) retry) d) in
            (db_submissions d !! sub, d)
    end.

Definition retryable (max_retry_count : Z) (j : JudgementRow) : bool :=
  jd_current j && jd_finalized j && system_error_outcome j && (jd_retry_count j <? max_retry_count)%Z.

Definition find_retryable_system_errors (max_retry_count : Z) (batch_size : nat) (d : JudgingDb)
    : list JudgementRow :=
  take batch_size (sort_by_key jd_id (rows_where (retryable max_retry_count) (db_judgements d))).
