(* ===== verification/Recovery.v ===== *)
(** * Recovery: rows that are stuck, and what staff change

    packages/server/src/dlq/stuck (the detector of rows nobody judges any more),
    handlers/dlq.rs (the retry of a dead letter) and
    handlers/submission/rejudge.rs, dispatch.rs (rejudging, applying and
    discarding a judgement), each a transaction on [JudgingDb]. *)

From S2P Require Import Prelude.
From S2P Require Import Text Float Verdict Sdk Host Judging JudgingDb Dispatch.

(** ** Which rows are stuck (dlq/stuck/mod.rs) *)

Definition QUEUED_OBSERVABILITY_THRESHOLD_SECS : Z := 5 * 60.
Definition PENDING_ORPHAN_TIMEOUT_SECS : Z := 5 * 60.
Definition RECONCILE_FINALIZED_GRACE_SECS : Z := 60.

Inductive StuckDisposition := Ignore | ObserveQueued | Recover.

#[global] Instance StuckDisposition_eq_dec : EqDecision StuckDisposition.
Proof. solve_decision. Defined.

Definition should_recover_directly (lease_steal_enabled : bool) (judgement_is_current : option bool) : bool :=
  negb lease_steal_enabled || bool_decide (judgement_is_current = Some false).

Definition inflight_capped (leased_at cap : option Z) : bool :=
  match leased_at, cap with Some leased, Some cap => (leased <? cap)%Z | _, _ => false end.

Definition stuck_disposition (status : SubmissionLifecycle) (lease : Lease) (created_at : Z)
    (queued_threshold pending_threshold stale_threshold : Z) (cap : option Z) : StuckDisposition :=
  if decide (status = Queued) then
    if bool_decide (ls_owner lease = None) && (created_at <? queued_threshold)%Z then ObserveQueued
    else Ignore
  else if negb (is_leased status) then Ignore
  else
    match ls_owner lease with
    | None =>
        if bool_decide (status = PendingSubmission) && (created_at <? pending_threshold)%Z then Recover
        else Ignore
    | Some _ =>
        if match ls_heartbeat lease with None => true | Some h => (h <? stale_threshold)%Z end
           || inflight_capped (ls_leased_at lease) cap
        then Recover else Ignore
    end.

Definition stuck_retry_budget_exhausted (retry_count max_stuck_retries : Z) : bool :=
  (Z.min max_stuck_retries i32_max <? retry_count)%Z.

Definition stuck_retries_exceeded_message (max_stuck_retries : Z) : ustring :=
  u "Exceeded " ++ show max_stuck_retries ++ u " retries".

Definition stuck_code_run_message_id (id : Z) : ustring := u "stuck-code-run-" ++ show id.
Definition stuck_submission_judgement_message_id (id : Z) : ustring :=
  u "stuck-submission-judgement-" ++ show id.

(** What is dispatched after the commit. *)
Inductive StuckRecovery :=
  | RedispatchSubmission (model : JobRow) (retry_count : Z)
  | RedispatchCodeRun (model : JobRow) (retry_count : Z)
  | RedispatchJudgement (submission : JobRow) (judgement_id : Z) (fire_after_judging : bool) (retry_count : Z)
  | Terminal
  | Skip.

(** ** Recovery (dlq/stuck/recovery.rs) *)

(** The row, at the epoch it was read with, still in a leased state. *)
Definition still_stuck (r s : JobRow) : bool :=
  (jb_id s =? jb_id r)%Z && (jb_epoch s =? jb_epoch r)%Z && is_leased (jb_status s).

Definition next_attempt (server : ustring) (now : Z) (r : JobRow) : JobRow → JobRow :=
  redispatch_job (saturating_succ (jb_epoch r)) (lease_of server now) (saturating_succ (jb_retry_count r)).

Definition SUPERSEDED : ustring := u "Superseded by stuck-job retry".

(** The abandoned judgement ends, and a fresh one is opened. *)
Definition open_retry_submission_judgement (server : ustring) (now : Z) (sub : JobRow) (epoch : Z)
    (d : JudgingDb) : option JudgingDb :=
  let d := update_judgements
    (λ j, (jd_submission j =? jb_id sub)%Z && jd_current j && negb (jd_finalized j))
    (λ j, judgement_with_current false (fail_judgement STUCK_JOB SUPERSEDED now j)) d in
  '(_, d) ← insert_judgement
    (fresh_judgement (jb_id sub) (next_version (jb_id sub) d) epoch true PendingSubmission None
       (jb_target_worker sub) (lease_of server now) now) d;
  Some d.

Definition recover_stuck_submission_without_steal (server : ustring) (now : Z) (sub : JobRow)
    (d : JudgingDb) : option (StuckRecovery * JudgingDb) :=
  if decide (rows_where (still_stuck sub) (db_submissions d) = []) then Some (Skip, d)
  else
    let d := update_submissions (still_stuck sub) (next_attempt server now sub) d in
    d ← open_retry_submission_judgement server now sub (saturating_succ (jb_epoch sub)) d;
    Some (RedispatchSubmission (next_attempt server now sub sub) (saturating_succ (jb_retry_count sub)), d).

Definition recover_stuck_code_run_without_steal (server : ustring) (now : Z) (run : JobRow)
    (d : JudgingDb) : StuckRecovery * JudgingDb :=
  if decide (rows_where (still_stuck run) (db_code_runs d) = []) then (Skip, d)
  else
    let d := update_code_runs (still_stuck run) (next_attempt server now run) d in
    let d := with_run_results (filter (λ r, r.1 ≠ jb_id run) (db_run_results d)) d in
    (RedispatchCodeRun (next_attempt server now run run) (saturating_succ (jb_retry_count run)), d).

Definition recover_stuck_judgement_without_steal (server : ustring) (now : Z) (j : JudgementRow)
    (d : JudgingDb) : option (StuckRecovery * JudgingDb) :=
  let epoch := saturating_succ (jd_epoch j) in
  let retry := saturating_succ (jd_retry_count j) in
  match db_submissions d !! jd_submission j with
  | None => Some (Skip, d)
  | Some sub =>
      let parent s := (jb_id s =? jb_id sub)%Z && (jb_epoch s =? jd_epoch j)%Z && is_leased (jb_status s) in
      if jd_current j && bool_decide (rows_where parent (db_submissions d) = []) then Some (Skip, d)
      else
        let d := if jd_current j
                 then update_submissions parent (redispatch_job epoch (lease_of server now) retry) d
                 else d in
        let d := delete_results_of [jd_id j] d in
        let stuck j' := (jd_id j' =? jd_id j)%Z && (jd_epoch j' =? jd_epoch j)%Z
                        && is_leased (jd_status j') && negb (jd_finalized j') in
        if decide (rows_where stuck (db_judgements d) = []) then None
        else
          let d := update_judgements stuck (redispatch_judgement epoch (lease_of server now) retry) d in
          Some (RedispatchJudgement
                  (set_job PendingSubmission (jb_outcome sub) epoch (lease_of server now) retry
                     {| jb_id := jb_id sub; jb_status := jb_status sub; jb_outcome := jb_outcome sub;
                        jb_epoch := jb_epoch sub; jb_lease := jb_lease sub;
                        jb_retry_count := jb_retry_count sub; jb_created_at := jb_created_at sub;
                        jb_target_worker :=
                          match jd_target_worker j with Some t => Some t | None => jb_target_worker sub end |})
                  (jd_id j) (jd_current j) retry, d)
  end.

(** ** The detector (dlq/stuck/handlers.rs, scan.rs) *)

Record DetectorConfig := {
  dc_server : ustring;
  dc_lease_steal_enabled : bool;
  dc_max_stuck_retries : Z;
  dc_stuck_job_timeout_secs : Z;
  dc_max_inflight_secs : Z;
}.

Section detector.
Context (uuid : nat → ustring) (config : DetectorConfig).

(** An entry for operators unless one is unresolved; whether one was created. *)
Definition create_unresolved_stuck_dlq_entry (id : ustring) (type : DlqMessageType)
    (submission : option Z) (message : ustring) (d : JudgingDb) : bool * JudgingDb :=
  if existsb (λ e, bool_decide (dl_message_id e = id) && negb (dl_resolved e)) (db_dlq d) then (false, d)
  else (true, create_entry {| dl_message_id := id; dl_type := type; dl_submission := submission;
                              dl_error_code := STUCK_JOB; dl_error_message := message;
                              dl_resolved := false |} d).

(** The text for operators: what was stuck, in which state, for how long. *)
Definition stuck_entry_message (what : ustring) (status : SubmissionLifecycle) (retry_count : Z) : ustring :=
  stuck_retries_exceeded_message (dc_max_stuck_retries config) ++ u ": " ++ what ++ u " stuck in "
  ++ status_as_str status ++ u " for over " ++ show (dc_stuck_job_timeout_secs config)
  ++ u " seconds (retry " ++ show retry_count ++ u "/" ++ show (dc_max_stuck_retries config) ++ u ")".

Definition disposition (now : Z) (status : SubmissionLifecycle) (lease : Lease) (created_at : Z)
    (stale_threshold : Z) (cap : option Z) : StuckDisposition :=
  stuck_disposition status lease created_at (now - QUEUED_OBSERVABILITY_THRESHOLD_SECS)
    (now - PENDING_ORPHAN_TIMEOUT_SECS) stale_threshold cap.

Definition handle_stuck_submission (id now stale_threshold : Z) (cap : option Z) (d : JudgingDb)
    : option (StuckRecovery * JudgingDb) :=
  match db_submissions d !! id with
  | None => Some (Skip, d)
  | Some sub =>
      if status_is_terminal (jb_status sub)
         || negb (bool_decide (disposition now (jb_status sub) (jb_lease sub) (jb_created_at sub)
                                 stale_threshold cap = Recover))
      then Some (Skip, d)
      else if stuck_retry_budget_exhausted (jb_retry_count sub) (dc_max_stuck_retries config) then
        let message := stuck_retries_exceeded_message (dc_max_stuck_retries config) in
        let d :=
          if existsb (λ e, bool_decide (dl_submission e = Some id) && bool_decide (dl_type e = StuckSubmission)
                           && negb (dl_resolved e)) (db_dlq d) then d
          else create_entry {|
                 dl_message_id := u "stuck-submission-" ++ show (jb_id sub) ++ u "-" ++ uuid (db_uuids d);
                 dl_type := StuckSubmission; dl_submission := Some (jb_id sub); dl_error_code := STUCK_JOB;
                 dl_error_message := stuck_entry_message (u "submission") (jb_status sub) (jb_retry_count sub);
                 dl_resolved := false |} (with_uuids (S (db_uuids d)) d) in
        Some (Terminal, mark_submission_system_error_with_epoch (jb_id sub) STUCK_JOB message
                          (Some (jb_epoch sub)) now d)
      else if should_recover_directly (dc_lease_steal_enabled config) None
              || inflight_capped (ls_leased_at (jb_lease sub)) cap
      then recover_stuck_submission_without_steal (dc_server config) now sub d
      else Some (Skip, d)
  end.

Definition handle_stuck_code_run (id now stale_threshold : Z) (cap : option Z) (d : JudgingDb)
    : StuckRecovery * JudgingDb :=
  match db_code_runs d !! id with
  | None => (Skip, d)
  | Some run =>
      if status_is_terminal (jb_status run)
         || negb (bool_decide (disposition now (jb_status run) (jb_lease run) (jb_created_at run)
                                 stale_threshold cap = Recover))
      then (Skip, d)
      else if stuck_retry_budget_exhausted (jb_retry_count run) (dc_max_stuck_retries config) then
        let message := stuck_retries_exceeded_message (dc_max_stuck_retries config) in
        let d := (create_unresolved_stuck_dlq_entry (stuck_code_run_message_id (jb_id run)) StuckCodeRun None
                    (stuck_entry_message (u "code run") (jb_status run) (jb_retry_count run)) d).2 in
        (Terminal, mark_code_run_system_error_with_epoch (jb_id run) STUCK_JOB message None d)
      else if should_recover_directly (dc_lease_steal_enabled config) None
              || inflight_capped (ls_leased_at (jb_lease run)) cap
      then recover_stuck_code_run_without_steal (dc_server config) now run d
      else (Skip, d)
  end.

Definition handle_stuck_submission_judgement (id now stale_threshold : Z) (cap : option Z)
    (d : JudgingDb) : option (StuckRecovery * JudgingDb) :=
  match db_judgements d !! id with
  | None => Some (Skip, d)
  | Some j =>
      if status_is_terminal (jd_status j) || jd_finalized j
         || negb (bool_decide (disposition now (jd_status j) (jd_lease j) (jd_created_at j)
                                 stale_threshold cap = Recover))
      then Some (Skip, d)
      else if stuck_retry_budget_exhausted (jd_retry_count j) (dc_max_stuck_retries config) then
        let message := stuck_retries_exceeded_message (dc_max_stuck_retries config) in
        let d := (create_unresolved_stuck_dlq_entry (stuck_submission_judgement_message_id (jd_id j))
                    StuckSubmissionJudgement (Some (jd_submission j))
                    (stuck_entry_message (u "submission judgement") (jd_status j) (jd_retry_count j)) d).2 in
        Some (Terminal,
          update_judgements (λ j', (jd_id j' =? jd_id j)%Z && is_leased (jd_status j') && negb (jd_finalized j'))
            (fail_judgement STUCK_JOB message now) d)
      else if should_recover_directly (dc_lease_steal_enabled config) (Some (jd_current j))
              || inflight_capped (ls_leased_at (jd_lease j)) cap
      then recover_stuck_judgement_without_steal (dc_server config) now j d
      else Some (Skip, d)
  end.

(** A row the detector looks at. *)
Definition stuck_candidate (now stale_threshold : Z) (cap : option Z) (status : SubmissionLifecycle)
    (lease : Lease) (created_at : Z) : bool :=
  is_leased status
  && (bool_decide (status = PendingSubmission) && bool_decide (ls_owner lease = None)
        && (created_at <? now - PENDING_ORPHAN_TIMEOUT_SECS)%Z
      || bool_decide (ls_owner lease ≠ None)
         && (match ls_heartbeat lease with None => true | Some h => (h <? stale_threshold)%Z end
             || inflight_capped (ls_leased_at lease) cap)).

(** A submission takes over the result of its finalized judgement. *)
Definition finished_judgement (now : Z) (d : JudgingDb) (s : JobRow) : option JudgementRow :=
  head (rows_where (λ j, (jd_submission j =? jb_id s)%Z && jd_current j && jd_finalized j
          && (jd_epoch j =? jb_epoch s)%Z
          && match oc_at (jd_outcome j) with
             | Some t => (t <? now - RECONCILE_FINALIZED_GRACE_SECS)%Z
             | None => false
             end) (db_judgements d)).

Definition reconcile_finalized_submissions (now : Z) (d : JudgingDb) : JudgingDb :=
  with_submissions
    ((λ s, match finished_judgement now d s with
           | Some j => if not_terminal (jb_status s)
                       then job_with_outcome (jd_status j) (jd_outcome j) s else s
           | None => s
           end) <$> db_submissions d) d.
End detector.

(** ** Staff (handlers/submission/rejudge.rs, dispatch.rs, handlers/dlq.rs) *)

(** A submission is accepted before it is judged: the row waits in [Queued]. *)
Definition new_submission (id : Z) (target : option ustring) (now : Z) : JobRow := {|
  jb_id := id; jb_status := Queued; jb_outcome := no_outcome; jb_epoch := 0; jb_lease := no_lease;
  jb_retry_count := 0; jb_created_at := now; jb_target_worker := target |}.

Definition create_submission (id : Z) (target : option ustring) (now : Z) (d : JudgingDb) : JudgingDb :=
  with_submissions (<[id := new_submission id target now]> (db_submissions d)) d.

Definition open_rejudge_judgement (sub : JobRow) (user : Z) (target : option ustring) (epoch : Z)
    (apply_immediately : bool) (now : Z) (d : JudgingDb) : option JudgingDb :=
  let version := next_version (jb_id sub) d in
  let d := if apply_immediately
           then update_judgements (λ j, (jd_submission j =? jb_id sub)%Z && jd_current j)
                  (judgement_with_current false) d
           else d in
  '(_, d) ← insert_judgement
    (fresh_judgement (jb_id sub) version epoch apply_immediately
       (if apply_immediately then PendingSubmission else Queued) (Some user) target no_lease now) d;
  Some d.

Definition requeue_job (epoch : Z) (s : JobRow) : JobRow :=
  set_job Queued no_outcome epoch (jb_lease s) (jb_retry_count s) s.

Definition job_with_target (target : option ustring) (r : JobRow) : JobRow := {|
  jb_id := jb_id r; jb_status := jb_status r; jb_outcome := jb_outcome r; jb_epoch := jb_epoch r;
  jb_lease := jb_lease r; jb_retry_count := jb_retry_count r; jb_created_at := jb_created_at r;
  jb_target_worker := target |}.

(** [new_target] is the worker to pin to, the pin to clear, or no change. *)
Definition rejudge_submission (id user : Z) (new_target : option (option ustring))
    (apply_immediately : bool) (now : Z) (d : JudgingDb) : option JudgingDb :=
  sub ← db_submissions d !! id;
  let epoch := saturating_succ (jb_epoch sub) in
  d ← open_rejudge_judgement sub user (default (jb_target_worker sub) new_target) epoch
        apply_immediately now d;
  Some (if apply_immediately
        then with_submissions
               (<[id := job_with_target (default (jb_target_worker sub) new_target) (requeue_job epoch sub)]>
                  (db_submissions d)) d
        else d).

(** A finalized judgement becomes the result of its submission. *)
Definition apply_submission_judgement (id judgement : Z) (d : JudgingDb) : option JudgingDb :=
  sub ← db_submissions d !! id;
  j ← db_judgements d !! judgement;
  if negb (jd_submission j =? id)%Z || negb (jd_finalized j) then None
  else
    let d := update_judgements (λ j', jd_submission j' =? id)%Z (judgement_with_current false) d in
    let d := update_judgements (λ j', jd_id j' =? judgement)%Z (judgement_with_current true) d in
    Some (with_submissions
      (<[id := job_with_target (jd_target_worker j)
                 (set_job (jd_status j) (jd_outcome j) (jd_epoch j) (jb_lease sub) (jb_retry_count sub) sub)]>
         (db_submissions d)) d).

Definition discard_submission_judgement (id judgement : Z) (d : JudgingDb) : option JudgingDb :=
  _ ← db_submissions d !! id;
  j ← db_judgements d !! judgement;
  if negb (jd_submission j =? id)%Z || jd_current j || negb (jd_finalized j) then None
  else
    let d := delete_results_of [judgement] d in
    Some (with_judgements (delete judgement (db_judgements d)) d).

Inductive StuckRetryOutcome := Requeued (submission_id : Z) | Skipped.

(** The dead letter with index [i] is resolved and its submission judged again. *)
Definition retry_stuck_submission (i : nat) (user now : Z) (d : JudgingDb)
    : option (StuckRetryOutcome * JudgingDb) :=
  e ← db_dlq d !! i;
  if dl_resolved e || negb (bool_decide (dl_type e = StuckSubmission)) then Some (Skipped, d)
  else
    match dl_submission e with
    | None => Some (Skipped, d)
    | Some id =>
        match db_submissions d !! id with
        | None => Some (Skipped, d)
        | Some sub =>
            if negb (bool_decide (jb_status sub = SystemErrorStatus ∨ jb_status sub = PendingSubmission))
            then Some (Skipped, d)
            else
              let epoch := saturating_succ (jb_epoch sub) in
              d ← open_rejudge_judgement sub user (jb_target_worker sub) epoch true now d;
              let d := update_submissions (λ s, jb_id s =? id)%Z (requeue_job epoch) d in
              Some (Requeued id,
                with_dlq (alter (λ e, {| dl_message_id := dl_message_id e; dl_type := dl_type e;
                                         dl_submission := dl_submission e;
                                         dl_error_code := dl_error_code e;
                                         dl_error_message := dl_error_message e;
                                         dl_resolved := true |}) i (db_dlq d)) d)
        end
    end.
