(* ===== verification/DispatchInvariant.v ===== *)
(** * DispatchInvariant: what every dispatcher keeps true of the judging rows

    Each submission has at most one current judgement, at the epoch of the
    submission: [consistent].  The operations of [JudgingDb], [Dispatch] and
    [Recovery] are steps of a world in which any of them runs at any time; the
    invariant holds in every reachable world. *)

From S2P Require Import Prelude.
From S2P Require Import Text Float Verdict Sdk Host Judging JudgingDb Dispatch Recovery.

(** ** Statements *)

Section tables.
Context {A : Type}.
Implicit Types (P : A → bool) (f : A → A) (t : gmap Z A).

Lemma set_where_lookup P f t k : set_where P f t !! k = (λ r, if P r then f r else r) <$> t !! k.
Proof. unfold set_where. apply lookup_fmap. Qed.

Lemma rows_where_elem P t r : r ∈ rows_where P t ↔ P r = true ∧ ∃ k, t !! k = Some r.
Proof.
  unfold rows_where. rewrite list_elem_of_filter, list_elem_of_fmap. f_equiv. split.
  - intros ([k r'] & -> & E%elem_of_map_to_list). eauto.
  - intros (k & E). exists (k, r). by rewrite elem_of_map_to_list.
Qed.

Lemma rows_where_nil P t : rows_where P t = [] ↔ ∀ k r, t !! k = Some r → P r = false.
Proof.
  split.
  - intros E k r Hk. destruct (P r) eqn:EP; [|done].
    assert (r ∈ rows_where P t) as Hr by (apply rows_where_elem; eauto).
    rewrite E in Hr. by apply not_elem_of_nil in Hr.
  - intros HP. destruct (rows_where P t) as [|r l] eqn:E; [done|].
    assert (r ∈ rows_where P t) as [HPr (k & Hk)]%rows_where_elem by (rewrite E; left).
    by rewrite (HP k r) in HPr.
Qed.

Lemma checked_set_where_Some P fits f t t' :
  checked_set_where P fits f t = Some t' ↔
  (∀ k r, t !! k = Some r → P r = true → fits r = true) ∧ t' = set_where P f t.
Proof.
  unfold checked_set_where. destruct (forallb fits _) eqn:E.
  - rewrite forallb_forall in E. split; [intros [= <-]; split; [|done]|by intros [_ ->]].
    intros k r Hk HP. apply E, list_elem_of_In, rows_where_elem. eauto.
  - split; [done|]. intros [HP _]. exfalso. apply not_true_iff_false in E. apply E.
    apply forallb_forall. intros r Hr%list_elem_of_In%rows_where_elem. naive_solver.
Qed.
End tables.

Lemma in_ids_spec ids id : in_ids ids id = true ↔ id ∈ ids.
Proof. unfold in_ids. apply bool_decide_eq_true. Qed.

(** Two versions of a table, row by row. *)
Definition rowwise {A} (R : A → A → Prop) (t t' : gmap Z A) : Prop :=
  ∀ k, option_Forall2 R (t !! k) (t' !! k).

Section rowwise.
Context {A : Type} (R : A → A → Prop).

#[export] Instance rowwise_preorder `{!PreOrder R} : PreOrder (rowwise R).
Proof.
  split; [intros t k; reflexivity|]. intros t1 t2 t3 H1 H2 k. etransitivity; [apply H1 | apply H2].
Qed.

Lemma set_where_rowwise P f t :
  Reflexive R → (∀ r, P r = true → R r (f r)) → rowwise R t (set_where P f t).
Proof.
  intros Hr Hf k. rewrite set_where_lookup. destruct (t !! k) as [r|]; simpl; constructor.
  destruct (P r) eqn:E; auto.
Qed.

Lemma rowwise_lookup t t' k r :
  rowwise R t t' → t' !! k = Some r → ∃ r0, t !! k = Some r0 ∧ R r0 r.
Proof. intros H Hk. specialize (H k). rewrite Hk in H. inversion H; eauto. Qed.

Lemma rowwise_lookup_l t t' k r :
  rowwise R t t' → t !! k = Some r → ∃ r', t' !! k = Some r' ∧ R r r'.
Proof. intros H Hk. specialize (H k). rewrite Hk in H. inversion H; eauto. Qed.
End rowwise.

(** ** The invariant *)

Definition judgement_at (d : JudgingDb) (k : Z) (j : JudgementRow) : Prop :=
  db_judgements d !! k = Some j.

Definition has_current (id : Z) (d : JudgingDb) : Prop :=
  ∃ k j, db_judgements d !! k = Some j ∧ jd_submission j = id ∧ jd_current j = true.

(** [want id epoch] is the epoch that the current judgement of a submission has;
    [opening] are the submissions between two judgements; [seen] are the models of
    submissions that are dispatched without a judgement. *)
Record consistent (want : Z → Z → Z) (opening : Z → bool) (seen : list JobRow) (d : JudgingDb) : Prop := {
  cs_submission : ∀ k s, db_submissions d !! k = Some s → jb_id s = k;
  cs_judgement : ∀ k j, db_judgements d !! k = Some j → jd_id j = k ∧ (k < db_next_judgement d)%Z;
  cs_current : ∀ k1 k2 j1 j2,
    db_judgements d !! k1 = Some j1 → db_judgements d !! k2 = Some j2 →
    jd_submission j1 = jd_submission j2 → jd_current j1 = true → jd_current j2 = true → k1 = k2;
  cs_version : ∀ k1 k2 j1 j2,
    db_judgements d !! k1 = Some j1 → db_judgements d !! k2 = Some j2 →
    jd_submission j1 = jd_submission j2 → jd_version j1 = jd_version j2 → k1 = k2;
  cs_lockstep : ∀ k j s,
    db_judgements d !! k = Some j → jd_current j = true →
    db_submissions d !! jd_submission j = Some s → jd_epoch j = want (jd_submission j) (jb_epoch s);
  cs_judged : ∀ k s, db_submissions d !! k = Some s →
    has_current k d ∨ opening k = true ∨ want k (jb_epoch s) = 0%Z;
  cs_finalized : ∀ k j, db_judgements d !! k = Some j → jd_finalized j = true →
    status_is_terminal (jd_status j) = true;
  cs_seen : ∀ s, s ∈ seen → has_current (jb_id s) d ∨ opening (jb_id s) = true ∨ jb_epoch s = 0%Z;
}.

Definition own_epoch (_ epoch : Z) : Z := epoch.
Definition none_opening (_ : Z) : bool := false.

(** Between transactions. *)
Notation lockstep := (consistent own_epoch none_opening).

(** The same attempt of a submission; a result is not taken back. *)
Definition same_job (r r' : JobRow) : Prop :=
  jb_id r' = jb_id r ∧ jb_epoch r' = jb_epoch r
  ∧ (status_is_terminal (jb_status r) = true → status_is_terminal (jb_status r') = true).

(** The same judgement, epoch aside. *)
Definition same_shape (r r' : JudgementRow) : Prop :=
  jd_id r' = jd_id r ∧ jd_submission r' = jd_submission r ∧ jd_version r' = jd_version r
  ∧ jd_current r' = jd_current r.

(** A judgement that is finalized has a result. *)
Definition closed (r : JudgementRow) : Prop :=
  jd_finalized r = true → status_is_terminal (jd_status r) = true.

Definition stays_closed (r r' : JudgementRow) : Prop := closed r → closed r'.

(** A statement that leaves a judgement in its place; what is finalized stays so. *)
Definition same_judgement (r r' : JudgementRow) : Prop :=
  same_shape r r' ∧ jd_epoch r' = jd_epoch r ∧ (jd_finalized r = true → jd_finalized r' = true)
  ∧ stays_closed r r'.

#[export] Instance same_job_preorder : PreOrder same_job.
Proof.
  split; unfold same_job; [naive_solver|]. intros ??? (? & ? & ?) (? & ? & ?). split_and!; [congruence..|auto].
Qed.
#[export] Instance stays_closed_preorder : PreOrder stays_closed.
Proof. split; unfold stays_closed; [naive_solver|]. intros ???. auto. Qed.
#[export] Instance same_shape_preorder : PreOrder same_shape.
Proof. split; unfold same_shape; [done|]. intros ???. intuition congruence. Qed.
#[export] Instance same_judgement_preorder : PreOrder same_judgement.
Proof.
  split; unfold same_judgement, stays_closed; [intros ?; by split_and!|]. intros ??? (? & ? & ? & ?) (? & ? & ? & ?).
  split_and!; [by etransitivity|congruence|auto..].
Qed.

Lemma has_current_shape id d d' :
  rowwise same_shape (db_judgements d) (db_judgements d') → has_current id d ↔ has_current id d'.
Proof.
  intros H. split; intros (k & j & Hk & Hid & Hc).
  - destruct (rowwise_lookup_l _ _ _ _ _ H Hk) as (j' & ? & (? & ? & ? & ?)).
    exists k, j'. split_and!; congruence.
  - destruct (rowwise_lookup _ _ _ _ _ H Hk) as (j' & ? & (? & ? & ? & ?)).
    exists k, j'. split_and!; congruence.
Qed.

(** Rows keep their identity; what the epochs have to satisfy. *)
Lemma consistent_shape want want' opening seen d d' :
  consistent want opening seen d →
  rowwise (λ s s', jb_id s' = jb_id s) (db_submissions d) (db_submissions d') →
  rowwise same_shape (db_judgements d) (db_judgements d') →
  rowwise stays_closed (db_judgements d) (db_judgements d') →
  db_next_judgement d' = db_next_judgement d →
  (∀ k j j' s s', db_judgements d !! k = Some j → db_judgements d' !! k = Some j' →
     jd_current j = true → db_submissions d !! jd_submission j = Some s →
     db_submissions d' !! jd_submission j = Some s' →
     jd_epoch j = want (jd_submission j) (jb_epoch s) →
     jd_epoch j' = want' (jd_submission j) (jb_epoch s')) →
  (∀ k s s', db_submissions d !! k = Some s → db_submissions d' !! k = Some s' →
     ¬ has_current k d → want k (jb_epoch s) = 0%Z → want' k (jb_epoch s') = 0%Z) →
  consistent want' opening seen d'.
Proof.
  intros [Hs Hj Hc Hv Hl Hg Hfi Hsn] Rs Rj Rc Hn HL HG.
  split.
  - intros k s' Hk. destruct (rowwise_lookup _ _ _ _ _ Rs Hk) as (s & Hk' & ->). eauto.
  - intros k j' Hk. destruct (rowwise_lookup _ _ _ _ _ Rj Hk) as (j & Hk' & (-> & _)).
    rewrite Hn. eauto.
  - intros k1 k2 j1 j2 H1 H2 ???.
    destruct (rowwise_lookup _ _ _ _ _ Rj H1) as (j1' & ? & (? & ? & ? & ?)).
    destruct (rowwise_lookup _ _ _ _ _ Rj H2) as (j2' & ? & (? & ? & ? & ?)).
    apply (Hc k1 k2 j1' j2'); congruence.
  - intros k1 k2 j1 j2 H1 H2 ??.
    destruct (rowwise_lookup _ _ _ _ _ Rj H1) as (j1' & ? & (? & ? & ? & ?)).
    destruct (rowwise_lookup _ _ _ _ _ Rj H2) as (j2' & ? & (? & ? & ? & ?)).
    apply (Hv k1 k2 j1' j2'); congruence.
  - intros k j' s' Hk Hcur Hs'.
    destruct (rowwise_lookup _ _ _ _ _ Rj Hk) as (j & Hk' & (? & Ej & ? & ?)). rewrite Ej in *.
    destruct (rowwise_lookup _ _ _ _ _ Rs Hs') as (s & Hs'' & _).
    apply (HL k j j' s s'); [done..|congruence|done|done|]. apply (Hl k j s); congruence.
  - intros k s' Hk. destruct (rowwise_lookup _ _ _ _ _ Rs Hk) as (s & Hk' & _).
    destruct (decide (opening k = true)) as [|Ho]; [by right; left|].
    destruct (rows_where (λ j, (jd_submission j =? k)%Z && jd_current j) (db_judgements d)) as [|j l] eqn:E.
    + right; right. apply (HG k s s'); [done..| |].
      * intros (k' & j & Hk'' & <- & Hcur). rewrite rows_where_nil in E. specialize (E _ _ Hk'').
        by rewrite Z.eqb_refl, Hcur in E.
      * destruct (Hg k s Hk') as [(k' & j & Hk'' & <- & Hcur)|[?|?]]; [|done..].
        rewrite rows_where_nil in E. specialize (E _ _ Hk''). by rewrite Z.eqb_refl, Hcur in E.
    + left. apply (has_current_shape _ d d' Rj).
      assert (j ∈ j :: l) as Hin by left. rewrite <- E in Hin.
      apply rows_where_elem in Hin as [[?%Z.eqb_eq ?]%andb_true_iff (k' & ?)]. by exists k', j.
  - intros k j' Hk. destruct (rowwise_lookup _ _ _ _ _ Rc Hk) as (j & Hk' & Hcl). apply Hcl. intros ?. eauto.
  - intros s Hin. rewrite <- (has_current_shape _ d d' Rj). auto.
Qed.

(** Only the epochs of submissions change. *)
Lemma consistent_transport want want' opening seen d d' :
  consistent want opening seen d →
  rowwise (λ s s', jb_id s' = jb_id s ∧ want' (jb_id s) (jb_epoch s') = want (jb_id s) (jb_epoch s))
    (db_submissions d) (db_submissions d') →
  rowwise same_judgement (db_judgements d) (db_judgements d') →
  db_next_judgement d' = db_next_judgement d →
  consistent want' opening seen d'.
Proof.
  intros Hd Rs Rj Hn. eapply consistent_shape; [exact Hd|..|done| |].
  - intros k. specialize (Rs k). inversion Rs as [?? []|]; by constructor.
  - intros k. specialize (Rj k). inversion Rj as [?? []|]; by constructor.
  - intros k. specialize (Rj k). inversion Rj as [?? (_ & _ & _ & ?)|]; by constructor.
  - intros k j j' s s' Hj Hj' Hcur Hs Hs' Ee.
    destruct (rowwise_lookup_l _ _ _ _ _ Rs Hs) as (? & ? & _ & E). simplify_eq.
    destruct (rowwise_lookup_l _ _ _ _ _ Rj Hj) as (? & ? & _ & E' & _). simplify_eq.
    rewrite (cs_submission _ _ _ _ Hd _ _ Hs) in E. congruence.
  - intros k s s' Hs Hs' _ <-.
    destruct (rowwise_lookup_l _ _ _ _ _ Rs Hs) as (? & ? & _ & E). simplify_eq.
    by rewrite (cs_submission _ _ _ _ Hd _ _ Hs) in E.
Qed.

(** ** Statements that leave the invariant alone *)

Definition frame (d d' : JudgingDb) : Prop :=
  rowwise same_job (db_submissions d) (db_submissions d')
  ∧ rowwise same_judgement (db_judgements d) (db_judgements d')
  ∧ db_next_judgement d' = db_next_judgement d.

#[export] Instance frame_preorder : PreOrder frame.
Proof.
  split; [intros d; split_and!; reflexivity|].
  intros d1 d2 d3 (? & ? & ?) (? & ? & ?). split_and!; [by etransitivity..|congruence].
Qed.

Lemma consistent_frame want opening seen d d' :
  frame d d' → consistent want opening seen d → consistent want opening seen d'.
Proof.
  intros (Hs & Hj & Hn) Hd. eapply consistent_transport; [exact Hd| |done|done].
  intros k. specialize (Hs k). inversion Hs as [s s' (Ei & Ee & _)|]; constructor. by rewrite Ee.
Qed.

(** The two parts of a frame that a statement leaves as they are. *)
Lemma frame_eq d d' :
  db_submissions d' = db_submissions d → db_judgements d' = db_judgements d →
  db_next_judgement d' = db_next_judgement d → frame d d'.
Proof. intros Es Ej En. unfold frame. rewrite Es, Ej. split_and!; [reflexivity..|done]. Qed.

Lemma frame_then d d1 d2 : frame d1 d2 → frame d d1 → frame d d2.
Proof. intros. by transitivity d1. Qed.

Lemma frame_submissions P f d d1 :
  (∀ s, P s = true → same_job s (f s)) → frame d d1 → frame d (update_submissions P f d1).
Proof.
  intros Hf. apply frame_then. split_and!; [|reflexivity..].
  apply set_where_rowwise; [apply _|done].
Qed.

Lemma frame_judgements P f d d1 :
  (∀ j, P j = true → same_judgement j (f j)) → frame d d1 → frame d (update_judgements P f d1).
Proof.
  intros Hf. apply frame_then. split_and!; [reflexivity| |reflexivity].
  apply set_where_rowwise; [apply _|done].
Qed.

Lemma frame_checked_submissions P fits f d d1 t :
  checked_set_where P fits f (db_submissions d1) = Some t →
  (∀ s, P s = true → same_job s (f s)) → frame d d1 → frame d (with_submissions t d1).
Proof. intros [_ ->]%checked_set_where_Some. apply frame_submissions. Qed.

Lemma frame_checked_judgements P fits f d d1 t :
  checked_set_where P fits f (db_judgements d1) = Some t →
  (∀ j, P j = true → same_judgement j (f j)) → frame d d1 → frame d (with_judgements t d1).
Proof. intros [_ ->]%checked_set_where_Some. apply frame_judgements. Qed.

Lemma frame_code_runs t d d1 : frame d d1 → frame d (with_code_runs t d1).
Proof. apply frame_then, frame_eq; done. Qed.
Lemma frame_run_results t d d1 : frame d d1 → frame d (with_run_results t d1).
Proof. apply frame_then, frame_eq; done. Qed.
Lemma frame_update_code_runs P f d d1 : frame d d1 → frame d (update_code_runs P f d1).
Proof. apply frame_then, frame_eq; done. Qed.
Lemma frame_test_results t d d1 : frame d d1 → frame d (with_test_results t d1).
Proof. apply frame_then, frame_eq; done. Qed.
Lemma frame_delete_results ids d d1 : frame d d1 → frame d (delete_results_of ids d1).
Proof. apply frame_then, frame_eq; done. Qed.
Lemma frame_dlq t d d1 : frame d d1 → frame d (with_dlq t d1).
Proof. apply frame_then, frame_eq; done. Qed.
Lemma frame_uuids n d d1 : frame d d1 → frame d (with_uuids n d1).
Proof. apply frame_then, frame_eq; done. Qed.
Lemma frame_create_entry e d d1 : frame d d1 → frame d (create_entry e d1).
Proof. apply frame_then. unfold create_entry. case_decide; by apply frame_eq. Qed.

Lemma frame_self d : frame d d.
Proof. done. Qed.

Create HintDb frame.
#[export] Hint Resolve frame_self frame_submissions frame_judgements frame_code_runs frame_run_results
  frame_update_code_runs frame_test_results frame_delete_results frame_dlq frame_uuids
  frame_create_entry : frame.

(** Statements that set a result, or that look at rows without one. *)
Ltac same_job_tac :=
  intros ? HP; unfold same_job; simpl; split_and!; [done|done|]; intros; try done;
  unfold not_terminal in HP; simpl in HP; repeat (apply andb_true_iff in HP as [HP ?]);
  repeat match goal with H : negb _ = true |- _ => apply negb_true_iff in H end; congruence.
Ltac same_judgement_tac :=
  intros ? HP; unfold same_judgement, stays_closed, closed; simpl; split_and!;
  [done|done|by (intros; rewrite ?orb_true_iff; auto)|by auto].
#[export] Hint Extern 1 (∀ _, _ → same_job _ _) => same_job_tac : frame.
#[export] Hint Extern 1 (∀ _, _ → same_judgement _ _) => same_judgement_tac : frame.

Lemma frame_mark_row id code message epoch d d1 :
  frame d d1 → frame d (mark_submission_row id code message epoch d1).
Proof. unfold mark_submission_row. destruct epoch; auto with frame. Qed.

Lemma frame_mark_current id code message epoch now d d1 :
  frame d d1 → frame d (mark_current_judgement id code message epoch now d1).
Proof. unfold mark_current_judgement. auto with frame. Qed.

Lemma frame_mark_submission id code message epoch now d d1 :
  frame d d1 → frame d (mark_submission_system_error_with_epoch id code message epoch now d1).
Proof. intros. by apply frame_mark_current, frame_mark_row. Qed.

Lemma frame_mark_code_run id code message epoch d d1 :
  frame d d1 → frame d (mark_code_run_system_error_with_epoch id code message epoch d1).
Proof. unfold mark_code_run_system_error_with_epoch. auto with frame. Qed.
#[export] Hint Resolve frame_mark_submission frame_mark_code_run : frame.

(** What a driver writes. *)
Lemma write_judgement_same up now d j :
  writable up d j = true → same_judgement j (write_judgement up now j).
Proof.
  unfold writable, same_judgement, stays_closed, closed. rewrite !andb_true_iff, negb_true_iff.
  intros [[_ Hf] _]. simpl. split_and!; [done|done|by intros ->; rewrite orb_true_r|].
  rewrite Hf, orb_false_r. intros _. unfold is_terminal_marker. by destruct (su_status up) as [[]|].
Qed.

Lemma frame_update_judgement_row up now d : frame d (update_judgement_row up now d).2.
Proof. apply frame_judgements; [|done]. intros j. apply write_judgement_same. Qed.

Lemma frame_update_submission_row up now d d1 : frame d d1 → frame d (update_submission_row up now d1).
Proof. unfold update_submission_row. auto with frame. Qed.

Lemma frame_update up now d n d' : submission_update up now d = Some (n, d') → frame d d'.
Proof.
  unfold submission_update. pose proof (frame_update_judgement_row up now d) as Hf.
  destruct (update_judgement_row up now d) as [m d1]. simpl in Hf.
  repeat case_match; intros; simplify_eq; auto using frame_update_submission_row with frame.
Qed.

Lemma frame_insert_results rows d : frame d (submission_insert_results rows d).
Proof. unfold submission_insert_results. auto with frame. Qed.

Lemma frame_mark_dispatched judgement code message epoch now d :
  frame d (mark_dispatched_judgement judgement code message epoch now d).
Proof. unfold mark_dispatched_judgement. case_match; auto with frame. Qed.

Lemma frame_refresh server now d : frame d (refresh_owned_leases server now d).
Proof. unfold refresh_owned_leases. auto 6 with frame. Qed.

Lemma frame_orphans server d : frame d (recover_orphaned_leases server d).
Proof. unfold recover_orphaned_leases. auto 6 with frame. Qed.

(** Budgets that run out. *)
Lemma frame_exhaust_submissions uuid now max rows d d' :
  exhaust_submissions uuid now max rows d = Some d' → frame d d'.
Proof.
  revert d. induction rows as [|row rows IH]; intros d; simpl; [by intros [= ->]|].
  intros (d1 & E & E')%bind_Some. transitivity d1; [|eauto].
  revert E. unfold exhaust_submission, count_exhausted. intros (t & Et & [= <-])%bind_Some.
  eapply frame_checked_submissions; [exact Et|auto with frame..].
Qed.

Lemma frame_exhaust_judgements now max rows d d' :
  exhaust_judgements now max rows d = Some d' → frame d d'.
Proof.
  revert d. induction rows as [|row rows IH]; intros d; simpl; [by intros [= ->]|].
  intros (d1 & E & E')%bind_Some. transitivity d1; [|eauto].
  revert E. unfold exhaust_judgement. intros (t & Et & [= <-])%bind_Some.
  eapply frame_checked_judgements; [exact Et|auto with frame..].
Qed.

Lemma frame_exhaust_code_runs max rows d d' : exhaust_code_runs max rows d = Some d' → frame d d'.
Proof.
  revert d. induction rows as [|row rows IH]; intros d; simpl; [by intros [= ->]|].
  intros (d1 & E & E')%bind_Some. transitivity d1; [|eauto].
  revert E. unfold exhaust_code_run. intros (t & Et & [= <-])%bind_Some. auto with frame.
Qed.

Lemma frame_fail_parents now max rows d : frame d (fail_parents now max rows d).
Proof.
  unfold fail_parents. generalize (rows_where (λ s, in_ids (jd_submission <$>
    rows_where (λ j, in_ids (cr_id <$> rows) (jd_id j)) (db_judgements d)) (jb_id s)) (db_submissions d)).
  intros l. assert (frame d d) as H by done. revert H. generalize d at 2 4. induction l as [|s l IH]; simpl; [done|].
  intros d1 H. apply IH. auto with frame.
Qed.

Lemma frame_claim_code_runs server locked now ttl n max d rows d' :
  claim_code_runs server locked now ttl n max d = Some (rows, d') → frame d d'.
Proof.
  unfold claim_code_runs. intros (d1 & E & (d2 & E2 & [= _ <-])%bind_Some)%bind_Some.
  transitivity d1; [|by eapply frame_exhaust_code_runs]. revert E. case_decide; [by intros [= <-]|].
  intros (t & _ & [= <-])%bind_Some. auto with frame.
Qed.

Lemma is_queued_not_terminal s : is_queued s = true → status_is_terminal s = false.
Proof. by intros ->%bool_decide_eq_true. Qed.

Lemma claim_job_same server now r : is_queued (jb_status r) = true → same_job r (claim_job server now r).
Proof. intros H%is_queued_not_terminal. unfold same_job. simpl. split_and!; [done..|congruence]. Qed.

Lemma claim_judgement_same server now j :
  is_queued (jd_status j) = true → same_judgement j (claim_judgement server now j).
Proof.
  intros H%is_queued_not_terminal. unfold same_judgement, stays_closed, closed. simpl.
  split_and!; [done..|]. intros Hc Hf. specialize (Hc Hf). congruence.
Qed.

Lemma frame_claim_queued_submissions server locked now n d rows d' :
  claim_queued_submissions server locked now n d = Some (rows, d') → frame d d'.
Proof.
  unfold claim_queued_submissions. case_decide; [by intros [= _ <-]|].
  intros (t & E & [= _ <-])%bind_Some. eapply frame_checked_submissions; [exact E| |done].
  intros s [_ Hq]%andb_true_iff. by apply claim_job_same.
Qed.

Lemma frame_claim_queued_code_runs server locked now n d rows d' :
  claim_queued_code_runs server locked now n d = Some (rows, d') → frame d d'.
Proof.
  unfold claim_queued_code_runs. case_decide; [by intros [= _ <-]|].
  intros (t & E & [= _ <-])%bind_Some. auto with frame.
Qed.

Lemma frame_claim_queued_judgements server locked now n d rows d' :
  claim_queued_judgements server locked now n d = Some (rows, d') → frame d d'.
Proof.
  unfold claim_queued_judgements. case_decide; [by intros [= _ <-]|].
  intros (t & E & [= _ <-])%bind_Some. eapply frame_checked_judgements; [exact E| |done].
  intros j [_ Hq]%andb_true_iff. by apply claim_judgement_same.
Qed.

Lemma frame_reconcile now d : frame d (reconcile_finalized_submissions now d).
Proof.
  split_and!; [|reflexivity..]. intros k. simpl. rewrite lookup_fmap.
  destruct (db_submissions d !! k) as [s|]; simpl; constructor.
  case_match; [|done]. unfold not_terminal. case_match eqn:Et; [|done]. apply negb_true_iff in Et.
  unfold same_job. simpl. split_and!; [done..|congruence].
Qed.

(** ** Demoting and opening judgements *)

Lemma demoted_judgement b j :
  same_shape (judgement_with_current b j) (judgement_with_current b j)
  ∧ jd_epoch (judgement_with_current b j) = jd_epoch j ∧ stays_closed j (judgement_with_current b j).
Proof. split_and!; [done|done|]. intros H. exact H. Qed.

Lemma failed_judgement code message now j :
  same_shape (judgement_with_current false j) (judgement_with_current false (fail_judgement code message now j))
  ∧ jd_epoch (judgement_with_current false (fail_judgement code message now j)) = jd_epoch j
  ∧ stays_closed j (judgement_with_current false (fail_judgement code message now j)).
Proof. split_and!; [done|done|]. intros _ _. done. Qed.

(** Every current judgement of the submissions in [Q] is demoted; their epochs are
    then free. *)
Lemma demote_consistent P f Q want want' opening seen d :
  consistent want opening seen d →
  (∀ j, P j = true → same_shape (judgement_with_current false j) (f j) ∧ jd_epoch (f j) = jd_epoch j
                     ∧ stays_closed j (f j)) →
  (∀ k j, db_judgements d !! k = Some j → jd_current j = true → P j = Q (jd_submission j)) →
  (∀ id epoch, Q id = false → want' id epoch = want id epoch) →
  consistent want' (λ id, Q id || opening id) seen (update_judgements P f d).
Proof.
  intros [Hs Hj Hc Hv Hl Hg Hfi Hsn] Hf HP Hw.
  assert (∀ k j', db_judgements (update_judgements P f d) !! k = Some j' →
    ∃ j, db_judgements d !! k = Some j ∧ jd_id j' = jd_id j ∧ jd_submission j' = jd_submission j
      ∧ jd_version j' = jd_version j ∧ jd_epoch j' = jd_epoch j
      ∧ jd_current j' = jd_current j && negb (P j) ∧ stays_closed j j') as Hrow.
  { intros k j' Hk. simpl in Hk. rewrite set_where_lookup in Hk.
    destruct (db_judgements d !! k) as [j|]; [|done]. simpl in Hk. simplify_eq. exists j.
    split; [done|]. destruct (P j) eqn:EP; [|rewrite andb_true_r; by split_and!].
    destruct (Hf j EP) as ((? & ? & ? & ?) & ? & ?). rewrite andb_false_r. done. }
  assert (∀ id, has_current id d → Q id = true ∨ has_current id (update_judgements P f d)) as Hcur.
  { intros id (k & j & Hk & <- & Hcj). destruct (Q (jd_submission j)) eqn:EQ; [by left|right].
    exists k, j. simpl. by rewrite set_where_lookup, Hk; simpl; rewrite (HP k j Hk Hcj), EQ. }
  split.
  - done.
  - intros k j' Hk. destruct (Hrow k j' Hk) as (j & Hk' & -> & _). eauto.
  - intros k1 k2 j1 j2 H1 H2 E C1 C2.
    destruct (Hrow _ _ H1) as (i1 & ? & _ & ? & _ & _ & Ec1 & _), (Hrow _ _ H2) as (i2 & ? & _ & ? & _ & _ & Ec2 & _).
    rewrite Ec1 in C1. rewrite Ec2 in C2. apply andb_true_iff in C1 as [? _], C2 as [? _].
    apply (Hc k1 k2 i1 i2); congruence.
  - intros k1 k2 j1 j2 H1 H2 E Ev.
    destruct (Hrow _ _ H1) as (i1 & ? & _ & ? & ? & _), (Hrow _ _ H2) as (i2 & ? & _ & ? & ? & _).
    apply (Hv k1 k2 i1 i2); congruence.
  - intros k j' s Hk C Hs'. destruct (Hrow _ _ Hk) as (j & Hk' & _ & Ei & _ & Ee & Ec & _).
    rewrite Ec in C. apply andb_true_iff in C as [C HPj%negb_true_iff].
    rewrite Ee, Ei in *. rewrite Hw; [eauto|]. by rewrite <- (HP k j).
  - intros k s Hk. destruct (Q k) eqn:EQ; [by right; left|]. rewrite Hw by done. simpl.
    destruct (Hg k s Hk) as [Hh|[?|?]]; [|by auto..].
    destruct (Hcur _ Hh) as [?|?]; [congruence|auto].
  - intros k j' Hk. destruct (Hrow _ _ Hk) as (j & Hk' & _ & _ & _ & _ & _ & Hcl). apply Hcl. intros ?. eauto.
  - intros s Hin. simpl. destruct (Hsn s Hin) as [Hh|[->|?]]; [|right; left; by destruct (Q _)|by auto].
    destruct (Hcur _ Hh) as [->|?]; auto.
Qed.

Lemma insert_judgement_Some j d j' d' :
  insert_judgement j d = Some (j', d') →
  insert_allowed j d = true ∧ jd_id j' = db_next_judgement d ∧ jd_submission j' = jd_submission j
  ∧ jd_version j' = jd_version j ∧ jd_current j' = jd_current j
  ∧ (jd_epoch j' = jd_epoch j ∧ jd_finalized j' = jd_finalized j)
  ∧ d' = with_next_judgement (db_next_judgement d + 1)
           (with_judgements (<[db_next_judgement d := j']> (db_judgements d)) d).
Proof. unfold insert_judgement. case_match; [|done]. intros [= <- <-]. done. Qed.

Lemma insert_allowed_spec j d :
  insert_allowed j d = true ↔
  ∀ k i, db_judgements d !! k = Some i → jd_submission i = jd_submission j →
    jd_version i ≠ jd_version j ∧ (jd_current i && jd_current j) = false.
Proof.
  unfold insert_allowed, judgements_of. rewrite forallb_forall. split.
  - intros H k i Hk Hi. specialize (H i). rewrite <- list_elem_of_In, rows_where_elem in H.
    rewrite Z.eqb_eq in H. specialize (H (conj Hi (ex_intro _ k Hk))).
    apply andb_true_iff in H as [?%negb_true_iff%Z.eqb_neq ?%negb_true_iff]. done.
  - intros H i [Hi%Z.eqb_eq (k & Hk)]%list_elem_of_In%rows_where_elem.
    destruct (H k i Hk Hi) as [?%Z.eqb_neq ->]. apply andb_true_iff. split; [by apply negb_true_iff|done].
Qed.

(** A new judgement, current or not. *)
Lemma insert_consistent want opening opening' seen j d j' d' :
  consistent want opening seen d →
  insert_judgement j d = Some (j', d') → jd_finalized j = false →
  (jd_current j = true → ∀ s, db_submissions d !! jd_submission j = Some s →
     jd_epoch j = want (jd_submission j) (jb_epoch s)) →
  (∀ id, opening id = true → opening' id = true ∨ jd_current j = true ∧ jd_submission j = id) →
  consistent want opening' seen d'.
Proof.
  intros [Hs Hj Hc Hv Hl Hg Hfi Hsn] (Ha & Eid & Es & Ev & Ec & [Ee Ef] & ->)%insert_judgement_Some Hnf Hw Ho.
  rewrite insert_allowed_spec in Ha. set (n := db_next_judgement d) in *.
  assert (db_judgements d !! n = None) as Hn.
  { destruct (db_judgements d !! n) eqn:E; [|done]. destruct (Hj _ _ E). lia. }
  assert (∀ id, has_current id d ∨ opening id = true →
    has_current id (with_next_judgement (n + 1) (with_judgements (<[n := j']> (db_judgements d)) d))
    ∨ opening' id = true) as Hcur.
  { intros id [(k & i & Hk & ? & ?)|[?|[? ?]]%Ho]; [left|by right|left].
    - exists k, i. simpl. split; [|done]. rewrite lookup_insert_ne; [done|congruence].
    - exists n, j'. simpl. rewrite lookup_insert_eq. split_and!; congruence. }
  split; simpl.
  - done.
  - intros k i Hk. apply lookup_insert_Some in Hk as [[<- <-]|[? Hk]]; [split; [done|lia]|].
    destruct (Hj _ _ Hk). split; [done|lia].
  - intros k1 k2 j1 j2 H1 H2 E C1 C2.
    apply lookup_insert_Some in H1 as [[<- <-]|[? H1]], H2 as [[<- <-]|[? H2]]; [done| | |eauto].
    + exfalso. destruct (Ha k2 j2 H2) as [_ Hf]; [congruence|]. by rewrite C2, <- Ec, C1 in Hf.
    + exfalso. destruct (Ha k1 j1 H1) as [_ Hf]; [congruence|]. by rewrite C1, <- Ec, C2 in Hf.
  - intros k1 k2 j1 j2 H1 H2 E EV.
    apply lookup_insert_Some in H1 as [[<- <-]|[? H1]], H2 as [[<- <-]|[? H2]]; [done| | |eauto].
    + exfalso. destruct (Ha k2 j2 H2); congruence.
    + exfalso. destruct (Ha k1 j1 H1); congruence.
  - intros k i s Hk C Hs'. apply lookup_insert_Some in Hk as [[<- <-]|[? Hk]]; [|eauto].
    rewrite Ee, Es in *. apply Hw; congruence.
  - intros k s Hk. destruct (Hg k s Hk) as [Hh|[Hh|Hh]]; [| |auto];
      (destruct (Hcur k) as [?|?]; [tauto|by left|by right; left]).
  - intros k i Hk Hfin. apply lookup_insert_Some in Hk as [[<- <-]|[? Hk]]; [congruence|eauto].
  - intros s Hin. destruct (Hsn s Hin) as [Hh|[Hh|Hh]]; [| |auto];
      (destruct (Hcur (jb_id s)) as [?|?]; [tauto|by left|by right; left]).
Qed.

Lemma consistent_opening want opening opening' seen d :
  (∀ id, opening id = true → opening' id = true) →
  consistent want opening seen d → consistent want opening' seen d.
Proof.
  intros Ho [Hs Hj Hc Hv Hl Hg Hfi Hsn]. split; [done|done|done|done|done| |done|].
  - intros k s Hk. destruct (Hg k s Hk) as [|[|]]; auto.
  - intros s Hin. destruct (Hsn s Hin) as [|[|]]; auto.
Qed.

(** Models read from the database, or of submissions with a judgement. *)
Lemma consistent_seen want opening seen seen' d :
  consistent want opening seen d →
  (∀ s, s ∈ seen' → s ∈ seen ∨ has_current (jb_id s) d ∨ jb_epoch s = 0%Z) →
  consistent want opening seen' d.
Proof.
  intros [Hs Hj Hc Hv Hl Hg Hfi Hsn] Ho. split; [done..|].
  intros s Hin. destruct (Ho s Hin) as [|[|]]; auto.
Qed.

Lemma lockstep_seen seen rows d :
  lockstep seen d → (∀ s, s ∈ rows → ∃ k, db_submissions d !! k = Some s) → lockstep (rows ++ seen) d.
Proof.
  intros Hd Hr. apply (consistent_seen _ _ seen); [done|].
  intros s [Hs|?]%elem_of_app; [right|by left]. destruct (Hr s Hs) as (k & Hk).
  rewrite (cs_submission _ _ _ _ Hd _ _ Hk).
  destruct (cs_judged _ _ _ _ Hd _ _ Hk) as [?|[?|?]]; [by left|done|by right].
Qed.

(** ** Stealing (steal.rs) *)

Lemma open_judgements_consistent server now want opening seen subs d d' :
  consistent want opening seen d →
  (∀ s, s ∈ subs → db_submissions d !! jb_id s = Some s) →
  (∀ s, s ∈ subs → want (jb_id s) (jb_epoch s) = saturating_succ (jb_epoch s)) →
  open_judgements server now subs d = Some d' →
  db_submissions d' = db_submissions d ∧
  consistent want (λ id, opening id && negb (in_ids (jb_id <$> subs) id)) seen d'.
Proof.
  revert opening d. induction subs as [|sub subs IH]; intros opening d Hd Hs Hw; simpl.
  { intros [= <-]. split; [done|]. eapply consistent_opening; [|done]. intros id ->. done. }
  intros ([j' d1] & E & E')%bind_Some.
  pose proof (insert_judgement_Some _ _ _ _ E) as (_ & _ & _ & _ & _ & _ & Ed1).
  assert (consistent want (λ id, opening id && negb (id =? jb_id sub)%Z) seen d1) as Hd1.
  { eapply insert_consistent; [exact Hd|exact E|done| |].
    - simpl. intros _ s Hk. rewrite (Hs sub) in Hk by left. injection Hk as <-.
      symmetry. apply Hw. left.
    - intros id ->. simpl. destruct (Z.eqb_spec id (jb_id sub)); auto. }
  assert (db_submissions d1 = db_submissions d) as Es by (by subst).
  destruct (IH _ d1 Hd1) as [-> H2]; [| |done|].
  - intros s Hin. rewrite Es. apply Hs. by right.
  - intros s Hin. apply Hw. by right.
  - split; [done|]. eapply consistent_opening; [|exact H2]. intros id.
    unfold in_ids. rewrite !andb_true_iff, !negb_true_iff, !bool_decide_eq_false, Z.eqb_neq.
    intros [[-> Hn] Hi]. split; [done|]. intros [?|?]%elem_of_cons; tauto.
Qed.

Definition stolen_epoch (ids : list Z) (id epoch : Z) : Z :=
  if in_ids ids id then saturating_succ epoch else epoch.

Lemma saturating_succ_fits z : fits_add z = true → saturating_succ z = (z + 1)%Z.
Proof. unfold fits_add, saturating_succ. rewrite Z.ltb_lt. lia. Qed.

Lemma steal_submissions_consistent server now ids seen d d' :
  lockstep seen d → (∀ id, id ∈ ids → is_Some (db_submissions d !! id)) →
  steal_submissions server now ids d = Some d' → lockstep seen d'.
Proof.
  intros Hd Hids. unfold steal_submissions, open_stolen_submission_judgements.
  intros (d1 & E1 & (t & [Hfit ->]%checked_set_where_Some & [= <-])%bind_Some)%bind_Some.
  assert (consistent (stolen_epoch ids) (λ id, in_ids ids id || none_opening id) seen (demote ids d)) as H0.
  { eapply demote_consistent; [exact Hd|intros; apply demoted_judgement| |].
    - intros k j _ Hc. by rewrite Hc, andb_true_r.
    - intros id e E. unfold stolen_epoch. by rewrite E. }
  eapply open_judgements_consistent in E1 as [Es H1]; [|exact H0|..].
  - simpl in Es. eapply consistent_transport with (d := d1) (want := stolen_epoch ids); [| |done|done].
    + eapply consistent_opening; [|exact H1]. intros id.
      rewrite !andb_true_iff, orb_true_iff, negb_true_iff. intros [[Hin|?] Hn]; [|done].
      rewrite in_ids_spec in Hin. destruct (Hids id Hin) as [s Hk].
      apply not_true_iff_false in Hn as []. apply in_ids_spec, list_elem_of_fmap. exists s.
      rewrite (cs_submission _ _ _ _ Hd _ _ Hk). split; [done|]. apply rows_where_elem. split; [|eauto].
      rewrite (cs_submission _ _ _ _ Hd _ _ Hk). by apply in_ids_spec.
    + simpl. rewrite Es. intros k. rewrite set_where_lookup.
      destruct (db_submissions d !! k) as [s|] eqn:Hk; simpl; constructor.
      unfold own_epoch, stolen_epoch. destruct (in_ids ids (jb_id s)) eqn:Ei; [|done].
      split; [done|]. simpl in *. rewrite Es in Hfit. specialize (Hfit k s Hk Ei).
      unfold job_fits in Hfit. apply andb_true_iff in Hfit as [_ Hfit].
      by rewrite saturating_succ_fits.
  - simpl. intros s [_ (k & Hk)]%rows_where_elem. by rewrite (cs_submission _ _ _ _ Hd _ _ Hk).
  - simpl. intros s [Hi _]%rows_where_elem. unfold stolen_epoch. by rewrite Hi.
Qed.

(** What the scans claim is in the table. *)
Lemma scan_elem {A} (key created : A → Z) P locked limit t r :
  r ∈ scan key created P locked limit t →
  (∃ k, t !! k = Some r) ∧ P r = true ∧ locked (key r) = false.
Proof.
  unfold scan. intros (i & Hr%list_elem_of_lookup_2 & _)%elem_of_take.
  rewrite elem_of_sort_by_key, rows_where_elem, andb_true_iff, negb_true_iff in Hr. tauto.
Qed.

Lemma from_rows_redispatch rows max id :
  id ∈ cp_redispatch_ids (from_rows rows max) ↔
  ∃ r, r ∈ rows ∧ cr_id r = id ∧ exhausted max r = false.
Proof.
  simpl. rewrite list_elem_of_fmap. setoid_rewrite list_elem_of_filter. naive_solver.
Qed.

Lemma claimed_id locked now ttl n max t id :
  (∀ k s, t !! k = Some s → jb_id s = k) →
  id ∈ cp_redispatch_ids (from_rows (claim_rows locked now ttl n t) max) →
  ∃ s, t !! id = Some s ∧ stale_job (now - ttl) s = true ∧ locked id = false
    ∧ (saturating_succ (jb_retry_count s) ≤ Z.min max i32_max)%Z.
Proof.
  intros Hk (r & Hr & <- & Hx%Z.ltb_ge)%from_rows_redispatch.
  apply list_elem_of_fmap in Hr as (s & -> & ((k & Hs) & Hst & Hl)%scan_elem). simpl in *.
  rewrite (Hk k s Hs) in *. eauto.
Qed.

Lemma claim_submissions_consistent uuid server locked now ttl n max seen d rows d' :
  lockstep seen d →
  claim_submissions uuid server locked now ttl n max d = Some (rows, d') →
  lockstep (rows ++ seen) d'.
Proof.
  intros Hd. unfold claim_submissions. set (ids := cp_redispatch_ids _).
  intros (d1 & E & (d2 & E2 & [= <- <-])%bind_Some)%bind_Some.
  apply lockstep_seen; [|by intros s [_ ?]%rows_where_elem].
  eapply consistent_frame; [by eapply frame_exhaust_submissions|].
  revert E. case_decide; [by intros [= <-]|]. intros E. eapply steal_submissions_consistent; [exact Hd| |exact E].
  intros id Hid. apply claimed_id in Hid as (s & ? & _); [eauto|]. apply (cs_submission _ _ _ _ Hd).
Qed.

(** *** Deferred judgements *)

(** The submissions of the judgements [js] are about to take over their epochs. *)
Definition follows (want : Z → Z → Z) (js : list JudgementRow) : Prop :=
  (∀ j epoch, j ∈ js → want (jd_submission j) epoch = jd_epoch j)
  ∧ (∀ id epoch, (∀ j, j ∈ js → jd_submission j ≠ id) → want id epoch = epoch).

Lemma follows_exists js :
  (∀ j1 j2, j1 ∈ js → j2 ∈ js → jd_submission j1 = jd_submission j2 → jd_epoch j1 = jd_epoch j2) →
  ∃ want, follows want js.
Proof.
  intros Hu.
  exists (λ id e, default e (jd_epoch <$> head (filter (λ j, jd_submission j = id) js))). split.
  - intros j e Hj. destruct (filter _ _) as [|j' l] eqn:E; simpl.
    + assert (j ∈ filter (λ j', jd_submission j' = jd_submission j) js) as Hf
        by (by apply list_elem_of_filter). rewrite E in Hf. by apply not_elem_of_nil in Hf.
    + assert (j' ∈ filter (λ j', jd_submission j' = jd_submission j) js) as [? ?]%list_elem_of_filter
        by (rewrite E; left). auto.
  - intros id e Hn. rewrite filter_none; [done|]. auto.
Qed.

Definition judgements_in (ids : list Z) (d : JudgingDb) : list JudgementRow :=
  rows_where (λ j, in_ids ids (jd_id j)) (db_judgements d).

Lemma judgements_in_frame ids d d' j' :
  frame d d' → j' ∈ judgements_in ids d' → ∃ j, j ∈ judgements_in ids d ∧ same_judgement j j'.
Proof.
  intros (_ & Hj & _) [Hin (k & Hk)]%rows_where_elem.
  destruct (rowwise_lookup _ _ _ _ _ Hj Hk) as (j & Hk' & Hs). exists j. split; [|done].
  apply rows_where_elem. split; [|eauto]. destruct Hs as [(<- & _) _]. done.
Qed.

Lemma judgements_in_frame_l ids d d' j :
  frame d d' → j ∈ judgements_in ids d → ∃ j', j' ∈ judgements_in ids d' ∧ same_judgement j j'.
Proof.
  intros (_ & Hj & _) [Hin (k & Hk)]%rows_where_elem.
  destruct (rowwise_lookup_l _ _ _ _ _ Hj Hk) as (j' & Hk' & Hs). exists j'. split; [|done].
  apply rows_where_elem. split; [|eauto]. destruct Hs as [(-> & _) _]. done.
Qed.

Lemma follows_frame want ids d d' :
  frame d d' → follows want (judgements_in ids d) → follows want (judgements_in ids d').
Proof.
  intros Hf [H1 H2]. split.
  - intros j' e Hj'. destruct (judgements_in_frame _ _ _ _ Hf Hj') as (j & ? & (? & -> & _) & -> & _). auto.
  - intros id e Hn. apply H2. intros j Hj.
    destruct (judgements_in_frame_l _ _ _ _ Hf Hj) as (j' & ? & (? & <- & _) & _ & _). auto.
Qed.

Lemma follow_all_rows server now js d :
  let d' := foldl (λ d j, follow_judgement server now j d) d js in
  db_judgements d' = db_judgements d ∧ db_next_judgement d' = db_next_judgement d ∧
  rowwise (λ s s', jb_id s' = jb_id s
             ∧ (jb_epoch s' = jb_epoch s ∧ (∀ j, j ∈ js → jd_submission j ≠ jb_id s)
                ∨ ∃ j, j ∈ js ∧ jd_submission j = jb_id s ∧ jb_epoch s' = jd_epoch j))
    (db_submissions d) (db_submissions d').
Proof.
  revert d. induction js as [|j js IH]; intros d; simpl.
  { split_and!; [done..|]. intros k. destruct (db_submissions d !! k); constructor.
    split; [done|]. left. split; [done|]. by intros ? ?%not_elem_of_nil. }
  destruct (IH (follow_judgement server now j d)) as (-> & -> & Hr). split_and!; [done..|].
  intros k. specialize (Hr k). simpl in Hr. rewrite set_where_lookup in Hr.
  destruct (db_submissions d !! k) as [s|]; simpl in Hr; inversion Hr as [? s' [Ei He] E1 E2|];
    constructor.
  destruct (Z.eqb_spec (jb_id s) (jd_submission j)) as [Es|Hne]; simpl in *; (split; [done|]).
  - destruct He as [[Ee _]|(i & Hi & ? & ?)].
    + right. exists j. split; [left|]. auto.
    + right. exists i. split; [by right|]. auto.
  - destruct He as [[Ee Hn]|(i & Hi & ? & ?)].
    + left. split; [done|]. intros i [->|Hi]%elem_of_cons; auto.
    + right. exists i. split; [by right|]. auto.
Qed.

Lemma follow_all_consistent server now want seen js d :
  consistent want none_opening seen d → follows want js →
  lockstep seen (foldl (λ d j, follow_judgement server now j d) d js).
Proof.
  intros Hd [H1 H2]. destruct (follow_all_rows server now js d) as (Ej & En & Hr).
  eapply consistent_transport; [exact Hd| |by rewrite Ej|done].
  intros k. specialize (Hr k). inversion Hr as [s s' [Ei He]|]; constructor. split; [done|].
  unfold own_epoch. destruct He as [[-> Hn]|(j & Hj & <- & ->)]; [|by rewrite H1].
  by rewrite H2.
Qed.

Lemma stolen_rows server now ids d d' i :
  (∀ k j, db_judgements d !! k = Some j → jd_id j = k) →
  (∀ id, id ∈ ids → ∃ j, db_judgements d !! id = Some j ∧ jd_current j = true ∧ jd_finalized j = false) →
  steal_judgements server now ids d = Some d' → i ∈ judgements_in ids d' →
  ∃ k j, k ∈ ids ∧ db_judgements d !! k = Some j ∧ jd_current j = true ∧ i = steal_judgement server now j.
Proof.
  intros Hk Hids (t & [_ ->]%checked_set_where_Some & [= <-])%bind_Some [Hi (k & Hr)]%rows_where_elem.
  simpl in Hr. rewrite set_where_lookup in Hr.
  destruct (db_judgements d !! k) as [j|] eqn:Ek; [|done]. simpl in Hr. rewrite (Hk k j Ek) in Hr.
  assert (jd_id i = k) as Eid by (rewrite <- (Hk k j Ek); by case_match; simplify_eq).
  rewrite Eid in Hi. rewrite Hi in Hr. simplify_eq. apply in_ids_spec in Hi.
  destruct (Hids _ Hi) as (j' & Ek' & Hc & _). simplify_eq. eauto 6.
Qed.

Lemma steal_judgements_consistent server now ids want seen d d' :
  lockstep seen d →
  (∀ id, id ∈ ids → ∃ j, db_judgements d !! id = Some j ∧ jd_current j = true ∧ jd_finalized j = false) →
  steal_judgements server now ids d = Some d' → follows want (judgements_in ids d') →
  consistent want none_opening seen d'.
Proof.
  intros Hd Hids E [H1 H2].
  pose proof (λ i, stolen_rows server now ids d d' i
                (λ k j Hk, proj1 (cs_judgement _ _ _ _ Hd k j Hk)) Hids E) as Hin.
  apply bind_Some in E as (t & [_ ->]%checked_set_where_Some & [= <-]).
  eapply consistent_shape; [exact Hd|simpl; intros k; by destruct (_ !! k); constructor| | |done| |].
  - apply set_where_rowwise; [apply _|done].
  - simpl. intros k. rewrite set_where_lookup. destruct (db_judgements d !! k) as [j|] eqn:Hk; simpl; constructor.
    case_match eqn:Ei; [|done]. intros _ Hf. simpl in Hf. apply in_ids_spec in Ei.
    rewrite (proj1 (cs_judgement _ _ _ _ Hd _ _ Hk)) in Ei.
    destruct (Hids _ Ei) as (j' & Hk' & _ & Hnf). simplify_eq. congruence.
  - simpl. intros k j j' s s' Hk Hk' Hc Hs Hs' Ee. rewrite set_where_lookup, Hk in Hk'. simpl in Hk'.
    destruct (in_ids ids (jd_id j)) eqn:Ei; simplify_eq.
    + change (jd_submission j) with (jd_submission (steal_judgement server now j)). symmetry. apply H1.
      apply rows_where_elem. split; [done|]. exists k. simpl. by rewrite set_where_lookup, Hk; simpl; rewrite Ei.
    + rewrite H2; [done|]. intros i (k' & i0 & Hk0 & Hi0 & Hc0 & ->)%Hin Es. simpl in Es.
      assert (k' = k) as -> by (by eapply (cs_current _ _ _ _ Hd)).
      apply not_true_iff_false in Ei. apply Ei, in_ids_spec.
      by destruct (cs_judgement _ _ _ _ Hd _ _ Hk) as [-> _].
  - intros k s s' Hs Hs' Hn E. simpl in Hs'. rewrite H2; [unfold own_epoch in E; congruence|].
    intros i (k' & i0 & Hk0 & Hi0 & Hc0 & ->)%Hin <-. simpl in Hn. destruct Hn. exists k', i0. auto.
Qed.

(** The judgements that a scan claims. *)
Lemma deferred_ids_current locked now ttl n max seen d :
  lockstep seen d →
  ∀ id, id ∈ cp_redispatch_ids (from_rows (claim_deferred_judgement_rows locked now ttl n (db_judgements d)) max) →
  ∃ j, db_judgements d !! id = Some j ∧ jd_current j = true ∧ jd_finalized j = false.
Proof.
  intros Hd id (r & Hr & <- & _)%from_rows_redispatch.
  apply list_elem_of_fmap in Hr as (j & -> & ((k & Hk) & Hst & _)%scan_elem). simpl.
  destruct (cs_judgement _ _ _ _ Hd _ _ Hk) as [-> _]. exists j. split; [done|].
  unfold stale_judgement in Hst. rewrite !andb_true_iff, negb_true_iff in Hst. tauto.
Qed.

Lemma claim_deferred_consistent server locked now ttl n max seen d rows d' :
  lockstep seen d →
  claim_deferred_judgements server locked now ttl n max d = Some (rows, d') → lockstep seen d'.
Proof.
  intros Hd. unfold claim_deferred_judgements. set (ids := cp_redispatch_ids _).
  intros (d1 & E & (d2 & E2 & [= _ <-])%bind_Some)%bind_Some.
  match goal with |- lockstep seen (foldl _ ?x _) => set (d3 := x) end.
  assert (frame d1 d3) as Hf.
  { transitivity d2; [by eapply frame_exhaust_judgements|]. clear E. unfold d3. case_decide; [done|].
    apply frame_fail_parents. }
  pose proof (deferred_ids_current locked now ttl n max seen d Hd) as Hids. fold ids in Hids.
  assert (∃ want, follows want (judgements_in ids d1) ∧ consistent want none_opening seen d1) as (want & Hw & H1).
  { revert E. case_decide as Ei.
    - intros [= <-]. exists own_epoch. split; [|done]. rewrite Ei. split.
      + by intros j e [?%in_ids_spec%not_elem_of_nil _]%rows_where_elem.
      + done.
    - intros E. destruct (follows_exists (judgements_in ids d1)) as [want Hw].
      + intros i1 i2 Hi1 Hi2.
        eapply stolen_rows in Hi1 as (k1 & j1 & _ & Hk1 & Hc1 & ->), Hi2 as (k2 & j2 & _ & Hk2 & Hc2 & ->);
          [simpl|try exact E; try done; apply (cs_judgement _ _ _ _ Hd)..].
        intros Es. assert (k1 = k2) as -> by (by eapply (cs_current _ _ _ _ Hd)). by simplify_eq.
      + exists want. split; [done|]. by eapply steal_judgements_consistent. }
  apply (follow_all_consistent _ _ want); [by eapply consistent_frame|].
  exact (follows_frame _ _ _ _ Hf Hw).
Qed.

(** ** Retries *)

(** A submission and its current judgement go to a new epoch together. *)
Lemma bump_pair_consistent seen d d' k0 j0 epoch :
  lockstep seen d → db_judgements d !! k0 = Some j0 → jd_current j0 = true →
  rowwise (λ j j', same_shape j j' ∧ stays_closed j j'
             ∧ jd_epoch j' = if (jd_id j =? k0)%Z then epoch else jd_epoch j)
    (db_judgements d) (db_judgements d') →
  rowwise (λ s s', jb_id s' = jb_id s
             ∧ jb_epoch s' = if (jb_id s =? jd_submission j0)%Z then epoch else jb_epoch s)
    (db_submissions d) (db_submissions d') →
  db_next_judgement d' = db_next_judgement d → lockstep seen d'.
Proof.
  intros Hd Hj0 Hc0 Rj Rs En. unfold own_epoch. eapply consistent_shape; [exact Hd| | | |done|..].
  - intros k. specialize (Rs k). inversion Rs as [?? []|]; by constructor.
  - intros k. specialize (Rj k). inversion Rj as [?? []|]; by constructor.
  - intros k. specialize (Rj k). inversion Rj as [?? (_ & ? & _)|]; by constructor.
  - intros k j j' s s' Hj Hj' Hc Hs Hs' Ee.
    destruct (rowwise_lookup_l _ _ _ _ _ Rj Hj) as (j1 & Ej & _ & _ & E1).
    destruct (rowwise_lookup_l _ _ _ _ _ Rs Hs) as (s1 & Es' & _ & E2).
    assert (j1 = j') as -> by congruence. assert (s1 = s') as -> by congruence. rewrite E1, E2.
    rewrite (cs_submission _ _ _ _ Hd _ _ Hs), (proj1 (cs_judgement _ _ _ _ Hd _ _ Hj)).
    destruct (Z.eqb_spec k k0) as [->|Hk].
    + simplify_eq. by rewrite Z.eqb_refl.
    + destruct (Z.eqb_spec (jd_submission j) (jd_submission j0)) as [Es|]; [|done].
      destruct Hk. by eapply (cs_current _ _ _ _ Hd).
  - intros k s s' Hs Hs' Hn Ee. destruct (rowwise_lookup_l _ _ _ _ _ Rs Hs) as (s1 & Es' & _ & E2).
    assert (s1 = s') as -> by congruence. rewrite E2.
    rewrite (cs_submission _ _ _ _ Hd _ _ Hs). destruct (Z.eqb_spec k (jd_submission j0)) as [->|]; [|done].
    destruct Hn. by exists k0, j0.
Qed.

Lemma requeue_consistent sub judgement epoch server max now seen d s d' :
  lockstep seen d →
  (∀ j, db_judgements d !! judgement = Some j → jd_submission j = sub) →
  requeue_judgement_for_system_error_retry sub judgement epoch server max now d = (s, d') →
  lockstep seen d'.
Proof.
  intros Hd Hj. unfold requeue_judgement_for_system_error_retry.
  case_match; [by intros [= _ <-]|]. destruct (db_judgements d !! judgement) as [j|] eqn:Ej; [|by intros [= _ <-]].
  destruct (negb _) eqn:Eg; [by intros [= _ <-]|]. case_match; [by intros [= _ <-]|].
  case_decide as Er; [by intros [= _ <-]|]. intros [= _ <-].
  rewrite negb_false_iff, !andb_true_iff, Z.eqb_eq in Eg. destruct Eg as [[[Hc _] He] _].
  eapply bump_pair_consistent with (epoch := saturating_succ epoch);
    [exact Hd|exact Ej|done| | |done]; simpl; intros k; rewrite set_where_lookup.
  - destruct (db_judgements d !! k) as [j'|] eqn:Ek; simpl; constructor.
    destruct (Z.eqb_spec (jd_id j') judgement) as [E|]; [|done].
    rewrite (proj1 (cs_judgement _ _ _ _ Hd _ _ Ek)) in E. simplify_eq. rewrite Z.eqb_refl.
    split_and!; [done| |done]. by intros _ ?.
  - destruct (db_submissions d !! k) as [s'|] eqn:Ek; simpl; constructor.
    rewrite (Hj j eq_refl). destruct (Z.eqb_spec (jb_id s') sub) as [E|]; [|done]. simpl.
    rewrite (cs_submission _ _ _ _ Hd _ _ Ek) in E. subst k.
    rewrite <- (Hj j eq_refl) in Ek. pose proof (cs_lockstep _ _ _ _ Hd _ _ _ Ej Hc Ek) as El.
    unfold own_epoch in El. rewrite <- El, He, Z.eqb_refl. done.
Qed.

Lemma recover_stuck_judgement_consistent server now j seen d r d' :
  lockstep seen d → db_judgements d !! jd_id j = Some j →
  recover_stuck_judgement_without_steal server now j d = Some (r, d') → lockstep seen d'.
Proof.
  intros Hd Hj. unfold recover_stuck_judgement_without_steal.
  destruct (db_submissions d !! jd_submission j) as [sub|] eqn:Es; [|by intros [= _ <-]].
  pose proof (cs_submission _ _ _ _ Hd _ _ Es) as Ei.
  destruct (jd_current j) eqn:Hc; simpl.
  - case_bool_decide as En; [by intros [= _ <-]|]. case_decide as Er; [done|]. intros [= _ <-].
    eapply bump_pair_consistent with (epoch := saturating_succ (jd_epoch j));
      [exact Hd|exact Hj|done| | |done]; simpl; intros k; rewrite set_where_lookup.
    + destruct (db_judgements d !! k) as [j'|] eqn:Ek; simpl; constructor.
      destruct (Z.eqb_spec (jd_id j') (jd_id j)) as [E|]; [|done]. simpl.
      rewrite (proj1 (cs_judgement _ _ _ _ Hd _ _ Ek)) in E. simplify_eq.
      case_match eqn:Em.
      { split_and!; [done| |done]. intros _ Hf. rewrite !andb_true_iff, negb_true_iff in Em.
        destruct Em as [_ Em]. simpl in Hf. congruence. }
      exfalso. apply Er. apply rows_where_nil. intros k' i Hr. simpl in Hr.
      destruct (Z.eqb_spec (jd_id i) (jd_id j)) as [E|]; [|done].
      rewrite (proj1 (cs_judgement _ _ _ _ Hd _ _ Hr)) in E. by simplify_eq.
    + destruct (db_submissions d !! k) as [s'|] eqn:Ek; simpl; constructor.
      rewrite Ei. destruct (Z.eqb_spec (jb_id s') (jd_submission j)) as [E|]; [|done]. simpl.
      rewrite (cs_submission _ _ _ _ Hd _ _ Ek) in E. simplify_eq.
      case_match eqn:Em; [done|]. exfalso. apply En. apply rows_where_nil. intros k' i Hr.
      destruct (Z.eqb_spec (jb_id i) (jb_id sub)) as [E|]; [|done].
      rewrite (cs_submission _ _ _ _ Hd _ _ Hr), Ei in E. by simplify_eq.
  - case_decide as Er; [done|]. intros [= _ <-].
    eapply consistent_shape; [exact Hd|simpl; intros k; by destruct (_ !! k); constructor| | |done|..].
    + apply set_where_rowwise; [apply _|done].
    + apply set_where_rowwise; [apply _|]. intros i Em _ Hf. rewrite !andb_true_iff, negb_true_iff in Em.
      destruct Em as [_ Em]. simpl in Hf. congruence.
    + simpl. intros k j1 j1' s s' H1 H1' C1 Hs Hs' Ee. assert (s' = s) as -> by congruence.
      rewrite set_where_lookup, H1 in H1'. simpl in H1'.
      destruct (Z.eqb_spec (jd_id j1) (jd_id j)) as [E|]; [|simpl in H1'; by simplify_eq].
      rewrite (proj1 (cs_judgement _ _ _ _ Hd _ _ H1)) in E. subst k. simplify_eq. congruence.
    + simpl. intros; by simplify_eq.
Qed.

(** A submission whose judgement is replaced. *)
Definition replaced_epoch (id epoch : Z) (id' epoch' : Z) : Z := if (id' =? id)%Z then epoch else epoch'.

Lemma open_retry_consistent server now sub epoch old seen d d' :
  consistent (replaced_epoch (jb_id sub) old) none_opening seen d →
  is_Some (db_submissions d !! jb_id sub) →
  open_retry_submission_judgement server now sub epoch d = Some d' →
  consistent (replaced_epoch (jb_id sub) epoch) none_opening seen d'
  ∧ db_submissions d' = db_submissions d.
Proof.
  intros Hd Hs ([j' d1] & E & [= <-])%bind_Some. split; [|].
  2:{ apply insert_judgement_Some in E as (_ & _ & _ & _ & _ & _ & ->). done. }
  eapply insert_consistent; [|exact E|done| |].
  - apply (demote_consistent _ _ (λ id, id =? jb_id sub)%Z (replaced_epoch (jb_id sub) old)); [done|intros; apply failed_judgement| |].
    + intros k j Hk Hc. rewrite Hc, andb_true_r. destruct (Z.eqb_spec (jd_submission j) (jb_id sub)) as [Es|]; [|done].
      destruct (jd_finalized j) eqn:Ef; [|done]. exfalso.
      apply insert_judgement_Some in E as (Ha & _). rewrite insert_allowed_spec in Ha.
      destruct (Ha k j) as [_ Hx]; [|done|by rewrite Hc in Hx].
      simpl. by rewrite set_where_lookup, Hk; simpl; rewrite Ef, andb_false_r.
    + intros id e En. unfold replaced_epoch. by rewrite En.
  - simpl. intros _ s _. unfold replaced_epoch. by rewrite Z.eqb_refl.
  - simpl. intros id. rewrite orb_false_r, Z.eqb_eq. auto.
Qed.

Lemma recover_stuck_submission_consistent server now sub seen d r d' :
  lockstep seen d → db_submissions d !! jb_id sub = Some sub →
  recover_stuck_submission_without_steal server now sub d = Some (r, d') →
  lockstep (match r with RedispatchSubmission model _ => model :: seen | _ => seen end) d'.
Proof.
  intros Hd Hs. unfold recover_stuck_submission_without_steal.
  case_decide as En; [by intros [= <- <-]|]. intros (d1 & E & [= <- <-])%bind_Some.
  assert (still_stuck sub sub = true) as Hst.
  { apply not_false_iff_true. intros Hf. apply En, rows_where_nil. intros k s Hk.
    destruct (still_stuck sub s) eqn:E'; [|done]. pose proof E' as E2. unfold still_stuck in E'.
    rewrite !andb_true_iff, !Z.eqb_eq in E'. destruct E' as [[Ei _] _].
    rewrite (cs_submission _ _ _ _ Hd _ _ Hk) in Ei. simplify_eq. congruence. }
  assert (∀ k s, db_submissions d !! k = Some s → still_stuck sub s = (jb_id s =? jb_id sub)%Z) as Hall.
  { intros k s Hk. destruct (Z.eqb_spec (jb_id s) (jb_id sub)) as [E'|?].
    - rewrite (cs_submission _ _ _ _ Hd _ _ Hk) in E'. by simplify_eq.
    - unfold still_stuck. rewrite (proj2 (Z.eqb_neq _ _)); [done|congruence]. }
  eapply open_retry_consistent with (old := jb_epoch sub) (seen := seen) in E as [H1 Es].
  - assert (db_submissions d1 !! jb_id sub = Some (next_attempt server now sub sub)) as Hrow.
    { rewrite Es. simpl. rewrite set_where_lookup, Hs. simpl. by rewrite Hst. }
    assert (lockstep seen d1) as H2.
    { eapply consistent_transport; [exact H1| |intros k; reflexivity|done].
      intros k. rewrite Es. simpl. rewrite set_where_lookup.
      destruct (db_submissions d !! k) as [s|] eqn:Ek; simpl; constructor. rewrite (Hall k s Ek).
      unfold own_epoch, replaced_epoch. destruct (Z.eqb_spec (jb_id s) (jb_id sub)) as [Ei|?].
      - simpl. by rewrite (proj2 (Z.eqb_eq _ _) Ei).
      - by rewrite (proj2 (Z.eqb_neq _ _)). }
    apply (lockstep_seen seen [_]); [done|]. intros s ->%list_elem_of_singleton. eauto.
  - eapply consistent_transport; [exact Hd| |simpl; intros k; reflexivity|done].
    simpl. intros k. rewrite set_where_lookup.
    destruct (db_submissions d !! k) as [s|] eqn:Ek; simpl; constructor. rewrite (Hall k s Ek).
    unfold own_epoch, replaced_epoch. destruct (Z.eqb_spec (jb_id s) (jb_id sub)) as [Ei|?]; [|done].
    simpl. split; [done|]. rewrite (cs_submission _ _ _ _ Hd _ _ Ek) in Ei. by simplify_eq.
  - simpl. rewrite set_where_lookup, Hs. by eexists.
Qed.

(** ** Staff *)

Lemma open_rejudge_immediate_consistent sub user target epoch now seen d d' :
  lockstep seen d →
  open_rejudge_judgement sub user target epoch true now d = Some d' →
  consistent (replaced_epoch (jb_id sub) epoch) none_opening seen d'
  ∧ db_submissions d' = db_submissions d.
Proof.
  intros Hd ([j' d1] & E & [= <-])%bind_Some. split.
  - eapply insert_consistent; [|exact E|done| |].
    + apply (demote_consistent _ _ (λ id, id =? jb_id sub)%Z own_epoch); [done|intros; apply demoted_judgement| |].
      * intros k j Hk Hc. by rewrite Hc, andb_true_r.
      * intros id e En. unfold replaced_epoch. by rewrite En.
    + simpl. intros _ s _. unfold replaced_epoch. by rewrite Z.eqb_refl.
    + simpl. intros id. rewrite orb_false_r, Z.eqb_eq. auto.
  - apply insert_judgement_Some in E as (_ & _ & _ & _ & _ & _ & ->). done.
Qed.

Lemma open_rejudge_deferred_consistent sub user target epoch now seen d d' :
  lockstep seen d →
  open_rejudge_judgement sub user target epoch false now d = Some d' → lockstep seen d'.
Proof.
  intros Hd ([j' d1] & E & [= <-])%bind_Some. eapply insert_consistent; [exact Hd|exact E|done|done|]. auto.
Qed.

(** The submission takes the epoch of its new judgement. *)
Lemma take_epoch_consistent id epoch seen t d :
  consistent (replaced_epoch id epoch) none_opening seen d →
  rowwise (λ s s', jb_id s' = jb_id s ∧ jb_epoch s' = if (jb_id s =? id)%Z then epoch else jb_epoch s)
    (db_submissions d) t →
  lockstep seen (with_submissions t d).
Proof.
  intros Hd Ht. eapply consistent_transport; [exact Hd| |intros k; reflexivity|done].
  simpl. intros k. specialize (Ht k). inversion Ht as [s s' [Ei Ee]|]; constructor. done.
Qed.

Lemma insert_rowwise {A} (R : A → A → Prop) t k r r' :
  Reflexive R → t !! k = Some r → R r r' → rowwise R t (<[k := r']> t).
Proof.
  intros HR Hk H i. destruct (decide (k = i)) as [<-|Hne].
  - rewrite Hk, lookup_insert_eq. by constructor.
  - rewrite lookup_insert_ne by done. reflexivity.
Qed.

Lemma insert_row_epoch id epoch t s s' :
  (∀ k r, t !! k = Some r → jb_id r = k) → t !! id = Some s →
  jb_id s' = jb_id s → jb_epoch s' = epoch →
  rowwise (λ s s', jb_id s' = jb_id s ∧ jb_epoch s' = if (jb_id s =? id)%Z then epoch else jb_epoch s)
    t (<[id := s']> t).
Proof.
  intros Ht Hs Ei Ee k. destruct (decide (id = k)) as [<-|Hne].
  - rewrite Hs, lookup_insert_eq. constructor. rewrite (Ht _ _ Hs), Z.eqb_refl.
    split; [|done]. by rewrite Ei, (Ht _ _ Hs).
  - rewrite lookup_insert_ne by done. destruct (t !! k) as [r|] eqn:Hk; constructor.
    rewrite (Ht _ _ Hk), (proj2 (Z.eqb_neq _ _)); done.
Qed.

Lemma rejudge_consistent id user target immediately now seen d d' :
  lockstep seen d →
  rejudge_submission id user target immediately now d = Some d' → lockstep seen d'.
Proof.
  intros Hd (sub & Hs & (d1 & E & [= <-])%bind_Some)%bind_Some.
  destruct immediately; [|by eapply open_rejudge_deferred_consistent].
  eapply open_rejudge_immediate_consistent in E as [H1 Es]; [|done].
  rewrite (cs_submission _ _ _ _ Hd _ _ Hs) in H1. eapply take_epoch_consistent; [done|].
  eapply insert_row_epoch; [apply (cs_submission _ _ _ _ H1)|by rewrite Es|done|done].
Qed.

Lemma retry_stuck_consistent i user now seen d r d' :
  lockstep seen d → retry_stuck_submission i user now d = Some (r, d') → lockstep seen d'.
Proof.
  intros Hd (e & _ & E)%bind_Some. revert E. case_match; [by intros [= _ <-]|].
  destruct (dl_submission e) as [id|]; [|by intros [= _ <-]].
  destruct (db_submissions d !! id) as [sub|] eqn:Hs; [|by intros [= _ <-]].
  case_match; [by intros [= _ <-]|]. intros (d1 & E & [= _ <-])%bind_Some.
  eapply open_rejudge_immediate_consistent in E as [H1 Es]; [|done].
  rewrite (cs_submission _ _ _ _ Hd _ _ Hs) in H1.
  eapply consistent_frame; [apply frame_dlq, frame_self|]. eapply take_epoch_consistent; [exact H1|].
  intros k. rewrite set_where_lookup. destruct (db_submissions d1 !! k); simpl; constructor. by case_match.
Qed.

(** A judgement of a submission without a current one becomes current. *)
Lemma promote_consistent want seen k0 j0 d :
  consistent want (λ id, (id =? jd_submission j0)%Z || none_opening id) seen d →
  db_judgements d !! k0 = Some j0 →
  ¬ has_current (jd_submission j0) d →
  (∀ epoch, want (jd_submission j0) epoch = jd_epoch j0) →
  consistent want none_opening seen
    (update_judgements (λ j, jd_id j =? k0)%Z (judgement_with_current true) d).
Proof.
  intros [Hs Hj Hc Hv Hl Hg Hfi Hsn] Hk0 Hn Hw.
  set (d' := update_judgements _ _ d).
  assert (∀ k j', db_judgements d' !! k = Some j' → ∃ j, db_judgements d !! k = Some j
    ∧ jd_id j' = jd_id j ∧ jd_submission j' = jd_submission j ∧ jd_version j' = jd_version j
    ∧ jd_epoch j' = jd_epoch j ∧ (k ≠ k0 → jd_current j' = jd_current j)) as Hrow.
  { intros k j' Hk. simpl in Hk. rewrite set_where_lookup in Hk.
    destruct (db_judgements d !! k) as [j|] eqn:Ek; [|done]. simpl in Hk. exists j. split; [done|].
    destruct (Hj _ _ Ek) as [Ei _]. destruct (Z.eqb_spec (jd_id j) k0); simplify_eq; done. }
  assert (∀ id, has_current id d ∨ id = jd_submission j0 → has_current id d') as Hcur.
  { intros id [(k & j & Hk & <- & Hcj)| ->]; [exists k|exists k0]; simpl; rewrite set_where_lookup, ?Hk, ?Hk0; simpl.
    - eexists. split; [done|]. by case_match.
    - destruct (Hj _ _ Hk0) as [-> _]. rewrite Z.eqb_refl. eexists. split; done. }
  split.
  - done.
  - intros k j' Hk. destruct (Hrow k j' Hk) as (j & Hk' & -> & _). eauto.
  - intros k1 k2 j1 j2 H1 H2 E C1 C2.
    destruct (Hrow _ _ H1) as (i1 & Hi1 & _ & E1 & _ & _ & Ec1), (Hrow _ _ H2) as (i2 & Hi2 & _ & E2 & _ & _ & Ec2).
    destruct (decide (k1 = k0)) as [->|N1], (decide (k2 = k0)) as [->|N2]; [done|..].
    + exfalso. apply Hn. exists k2, i2. rewrite <- Ec2 by done. simplify_eq. split_and!; congruence.
    + exfalso. apply Hn. exists k1, i1. rewrite <- Ec1 by done. simplify_eq. split_and!; congruence.
    + apply (Hc k1 k2 i1 i2); [done..|congruence| |]; [by rewrite <- Ec1|by rewrite <- Ec2].
  - intros k1 k2 j1 j2 H1 H2 E Ev.
    destruct (Hrow _ _ H1) as (i1 & ? & _ & ? & ? & _), (Hrow _ _ H2) as (i2 & ? & _ & ? & ? & _).
    apply (Hv k1 k2 i1 i2); congruence.
  - intros k j' s Hk C Hs'. destruct (Hrow _ _ Hk) as (j & Hk' & _ & Ei & _ & Ee & Ec).
    rewrite Ee, Ei in *. destruct (decide (k = k0)) as [->|N].
    + simplify_eq. by rewrite Hw.
    + apply (Hl k j s); [done| |done]. by rewrite <- Ec.
  - intros k s Hk. destruct (Hg k s Hk) as [Hh|[Hh|Hh]]; [left; auto| |auto].
    rewrite orb_true_iff, Z.eqb_eq in Hh. destruct Hh as [->|?]; [left; auto|done].
  - intros k j' Hk. simpl in Hk. rewrite set_where_lookup in Hk.
    destruct (db_judgements d !! k) as [j|] eqn:Ek; [|done]. simpl in Hk.
    specialize (Hfi _ _ Ek). by case_match; simplify_eq.
  - intros s Hin. destruct (Hsn s Hin) as [Hh|[Hh|Hh]]; [left; auto| |auto].
    rewrite orb_true_iff, Z.eqb_eq in Hh. destruct Hh as [->|?]; [left; auto|done].
Qed.

Lemma apply_consistent id judgement seen d d' :
  lockstep seen d → apply_submission_judgement id judgement d = Some d' → lockstep seen d'.
Proof.
  intros Hd (sub & Hs & (j & Hj & E)%bind_Some)%bind_Some. revert E.
  destruct (Z.eqb_spec (jd_submission j) id) as [<-|]; [|done]. simpl. case_match; [done|].
  intros [= <-]. set (d1 := update_judgements (λ j', (jd_submission j' =? jd_submission j)%Z) _ d).
  assert (consistent (replaced_epoch (jd_submission j) (jd_epoch j))
            (λ id, (id =? jd_submission j)%Z || none_opening id) seen d1) as H1.
  { apply (demote_consistent _ _ _ own_epoch); [done|intros; apply demoted_judgement|done|].
    intros id e En. unfold replaced_epoch. by rewrite En. }
  assert (∀ k i, db_judgements d1 !! k = Some i → jd_submission i = jd_submission j → jd_current i = false) as H0.
  { intros k i Hk Ei. simpl in Hk. rewrite set_where_lookup in Hk.
    destruct (db_judgements d !! k) as [i0|]; [|done]. simpl in Hk.
    destruct (Z.eqb_spec (jd_submission i0) (jd_submission j)); simplify_eq; done. }
  eapply take_epoch_consistent.
  - eapply (promote_consistent _ _ judgement (judgement_with_current false j)); [exact H1|..].
    + simpl. rewrite set_where_lookup, Hj. simpl. by rewrite Z.eqb_refl.
    + intros (k & i & Hk & Ei & Hc). by rewrite (H0 k i Hk Ei) in Hc.
    + intros e. simpl. unfold replaced_epoch. by rewrite Z.eqb_refl.
  - eapply insert_row_epoch; [apply (cs_submission _ _ _ _ Hd)|done|done|done].
Qed.

Lemma discard_consistent id judgement seen d d' :
  lockstep seen d → discard_submission_judgement id judgement d = Some d' → lockstep seen d'.
Proof.
  intros Hd (sub & _ & (j & Hj & E)%bind_Some)%bind_Some. revert E. case_match eqn:Eg; [done|].
  intros [= <-]. rewrite !orb_false_iff in Eg. destruct Eg as [[_ Hc] _].
  set (d' := with_judgements _ _).
  assert (∀ i, has_current i d → has_current i d') as Hcur.
  { intros i (k & j' & Hk & ? & ?). exists k, j'. simpl. rewrite lookup_delete_ne; [done|]. congruence. }
  assert (∀ k i, db_judgements d' !! k = Some i → db_judgements d !! k = Some i) as Hsub.
  { simpl. intros k i Hk. by apply lookup_delete_Some in Hk as [_ ?]. }
  destruct Hd as [Hs Hjd Hcu Hv Hl Hg Hfi Hsn]. split; simpl; try by eauto.
  - intros k s Hk. destruct (Hg k s Hk) as [|[|]]; auto.
  - intros s Hin. destruct (Hsn s Hin) as [|[|]]; auto.
Qed.

(** ** Accepting and dispatching *)

Lemma create_consistent id target now seen d :
  lockstep seen d → (∀ k j, db_judgements d !! k = Some j → jd_submission j ≠ id) →
  lockstep seen (create_submission id target now d).
Proof.
  intros [Hs Hjd Hcu Hv Hl Hg Hfi Hsn] Hnew. split; simpl; try done.
  - intros k s Hk. apply lookup_insert_Some in Hk as [[<- <-]|[? Hk]]; [done|eauto].
  - intros k j s Hk Hc Hs'. apply lookup_insert_Some in Hs' as [[E _]|[_ Hs']]; [|eauto].
    destruct (Hnew k j Hk). done.
  - intros k s Hk. apply lookup_insert_Some in Hk as [[<- <-]|[? Hk]]; [by right; right|].
    destruct (Hg k s Hk) as [Hh|[|]]; auto.
Qed.

Lemma active_judgement_elem id d j :
  active_judgement id d = Some j →
  (∃ k, db_judgements d !! k = Some j) ∧ jd_submission j = id ∧ jd_current j = true ∧ jd_finalized j = false.
Proof.
  unfold active_judgement. intros Hj%head_Some_elem_of. apply rows_where_elem in Hj as [E ?].
  rewrite !andb_true_iff, Z.eqb_eq, negb_true_iff in E. tauto.
Qed.

Lemma ensure_consistent sub now seen d id d' :
  lockstep seen d → sub ∈ seen → ensure_active_judgement_id sub now d = (id, d') → lockstep seen d'.
Proof.
  intros Hd Hin. unfold ensure_active_judgement_id. destruct (active_judgement _ d) as [j|] eqn:Ea.
  - case_decide; intros [= _ <-]; [|done]. eapply consistent_frame; [|done]. auto with frame.
  - destruct (insert_judgement _ d) as [[j' d1]|] eqn:E; intros [= _ <-]; [|done].
    eapply insert_consistent; [exact Hd|exact E|done| |auto]. simpl. intros _ s Hs.
    assert (¬ has_current (jb_id sub) d) as Hn.
    { intros (k & i & Hk & Ei & Hc). apply insert_judgement_Some in E as (Ha & _).
      rewrite insert_allowed_spec in Ha. destruct (Ha k i Hk Ei) as [_ Hx]. by rewrite Hc in Hx. }
    destruct (cs_seen _ _ _ _ Hd sub Hin) as [?|[?| ->]]; [done..|].
    destruct (cs_judged _ _ _ _ Hd _ _ Hs) as [?|[?|E0]]; done.
Qed.
