(* ===== verification/DispatchProofs.v ===== *)
(** * DispatchProofs: judging survives lost servers, late writers and impatient staff

    The transactions of [JudgingDb], [Dispatch] and [Recovery] as the steps of a
    world: any server, driver, detector or member of staff acts at any time, on
    whatever it read before.  A driver writes with the judgement and epoch that it
    was given; the statements of an update ([submission_update]) and of an error
    are steps of their own, and nothing orders the writes of different drivers. *)

From S2P Require Import Prelude.
From S2P Require Import Text Float Verdict Sdk Host Judging JudgingDb Dispatch Recovery.
From S2P Require Import DispatchInvariant.

(** ** The world *)

(** [w_seen] are the submissions that dispatchers hold without a judgement. *)
Record World := { w_db : JudgingDb; w_seen : list JobRow }.

Definition empty_world : World := {|
  w_db := {| db_submissions := ∅; db_judgements := ∅; db_results := []; db_code_runs := ∅;
             db_run_results := []; db_dlq := []; db_next_judgement := 1; db_uuids := 0 |};
  w_seen := [] |}.

(** The submission that a detector hands to a dispatcher. *)
Definition redispatched (r : StuckRecovery) : list JobRow :=
  match r with RedispatchSubmission model _ => [model] | _ => [] end.

Section world.
Context (uuid : nat → ustring).

Inductive step : World → World → Prop :=
  | step_create id target now d seen :
      db_submissions d !! id = None →
      (∀ k j, db_judgements d !! k = Some j → jd_submission j ≠ id) →
      step {| w_db := d; w_seen := seen |} {| w_db := create_submission id target now d; w_seen := seen |}
  | step_claim_queued server locked now n d seen rows d' :
      claim_queued_submissions server locked now n d = Some (rows, d') →
      step {| w_db := d; w_seen := seen |} {| w_db := d'; w_seen := rows ++ seen |}
  | step_claim_queued_runs server locked now n d seen rows d' :
      claim_queued_code_runs server locked now n d = Some (rows, d') →
      step {| w_db := d; w_seen := seen |} {| w_db := d'; w_seen := seen |}
  | step_claim_queued_judgements server locked now n d seen rows d' :
      claim_queued_judgements server locked now n d = Some (rows, d') →
      step {| w_db := d; w_seen := seen |} {| w_db := d'; w_seen := seen |}
  | step_steal server locked now ttl n max d seen rows d' :
      claim_submissions uuid server locked now ttl n max d = Some (rows, d') →
      step {| w_db := d; w_seen := seen |} {| w_db := d'; w_seen := rows ++ seen |}
  | step_steal_judgements server locked now ttl n max d seen rows d' :
      claim_deferred_judgements server locked now ttl n max d = Some (rows, d') →
      step {| w_db := d; w_seen := seen |} {| w_db := d'; w_seen := seen |}
  | step_steal_runs server locked now ttl n max d seen rows d' :
      claim_code_runs server locked now ttl n max d = Some (rows, d') →
      step {| w_db := d; w_seen := seen |} {| w_db := d'; w_seen := seen |}
  | step_refresh server now d seen :
      step {| w_db := d; w_seen := seen |} {| w_db := refresh_owned_leases server now d; w_seen := seen |}
  | step_orphans server d seen :
      step {| w_db := d; w_seen := seen |} {| w_db := recover_orphaned_leases server d; w_seen := seen |}
  | step_ensure sub now d seen id d' :
      sub ∈ seen → ensure_active_judgement_id sub now d = (id, d') →
      step {| w_db := d; w_seen := seen |} {| w_db := d'; w_seen := seen |}
  | step_write_judgement up now d seen :
      step {| w_db := d; w_seen := seen |} {| w_db := (update_judgement_row up now d).2; w_seen := seen |}
  | step_write_submission up now d seen :
      step {| w_db := d; w_seen := seen |} {| w_db := update_submission_row up now d; w_seen := seen |}
  | step_insert_results rows d seen :
      step {| w_db := d; w_seen := seen |} {| w_db := submission_insert_results rows d; w_seen := seen |}
  | step_delete_results sub judgement epoch d seen :
      step {| w_db := d; w_seen := seen |}
           {| w_db := submission_delete_results sub judgement epoch d; w_seen := seen |}
  | step_mark_dispatched judgement code message epoch now d seen :
      step {| w_db := d; w_seen := seen |}
           {| w_db := mark_dispatched_judgement judgement code message epoch now d; w_seen := seen |}
  | step_mark_submission id code message epoch d seen :
      step {| w_db := d; w_seen := seen |}
           {| w_db := mark_submission_row id code message epoch d; w_seen := seen |}
  | step_mark_current id code message epoch now d seen :
      step {| w_db := d; w_seen := seen |}
           {| w_db := mark_current_judgement id code message epoch now d; w_seen := seen |}
  | step_requeue sub judgement epoch server max now d seen s d' :
      (∀ j, db_judgements d !! judgement = Some j → jd_submission j = sub) →
      requeue_judgement_for_system_error_retry sub judgement epoch server max now d = (s, d') →
      step {| w_db := d; w_seen := seen |} {| w_db := d'; w_seen := seen |}
  | step_stuck_submission config id now threshold cap d seen r d' :
      handle_stuck_submission uuid config id now threshold cap d = Some (r, d') →
      step {| w_db := d; w_seen := seen |} {| w_db := d'; w_seen := redispatched r ++ seen |}
  | step_stuck_code_run config id now threshold cap d seen r d' :
      handle_stuck_code_run config id now threshold cap d = (r, d') →
      step {| w_db := d; w_seen := seen |} {| w_db := d'; w_seen := seen |}
  | step_stuck_judgement config id now threshold cap d seen r d' :
      handle_stuck_submission_judgement config id now threshold cap d = Some (r, d') →
      step {| w_db := d; w_seen := seen |} {| w_db := d'; w_seen := seen |}
  | step_reconcile now d seen :
      step {| w_db := d; w_seen := seen |}
           {| w_db := reconcile_finalized_submissions now d; w_seen := seen |}
  | step_rejudge id user target immediately now d seen d' :
      rejudge_submission id user target immediately now d = Some d' →
      step {| w_db := d; w_seen := seen |} {| w_db := d'; w_seen := seen |}
  | step_apply id judgement d seen d' :
      apply_submission_judgement id judgement d = Some d' →
      step {| w_db := d; w_seen := seen |} {| w_db := d'; w_seen := seen |}
  | step_discard id judgement d seen d' :
      discard_submission_judgement id judgement d = Some d' →
      step {| w_db := d; w_seen := seen |} {| w_db := d'; w_seen := seen |}
  | step_retry_stuck i user now d seen r d' :
      retry_stuck_submission i user now d = Some (r, d') →
      step {| w_db := d; w_seen := seen |} {| w_db := d'; w_seen := seen |}.

(** ** The detector *)

Lemma frame_unresolved_entry id type sub message d :
  frame d (create_unresolved_stuck_dlq_entry id type sub message d).2.
Proof. unfold create_unresolved_stuck_dlq_entry. case_match; simpl; auto with frame. Qed.

Lemma stuck_submission_consistent config id now threshold cap seen d r d' :
  lockstep seen d →
  handle_stuck_submission uuid config id now threshold cap d = Some (r, d') →
  lockstep (redispatched r ++ seen) d'.
Proof.
  intros Hd. unfold handle_stuck_submission.
  destruct (db_submissions d !! id) as [sub|] eqn:Hs; [|by intros [= <- <-]].
  case_match; [by intros [= <- <-]|]. case_match.
  - intros [= <- <-]. eapply consistent_frame; [|exact Hd]. apply frame_mark_submission.
    case_match; auto with frame.
  - case_match; [|by intros [= <- <-]]. intros E.
    eapply recover_stuck_submission_consistent in E; [|exact Hd|by rewrite (cs_submission _ _ _ _ Hd _ _ Hs)].
    by destruct r.
Qed.

Lemma stuck_judgement_consistent config id now threshold cap seen d r d' :
  lockstep seen d →
  handle_stuck_submission_judgement config id now threshold cap d = Some (r, d') → lockstep seen d'.
Proof.
  intros Hd. unfold handle_stuck_submission_judgement.
  destruct (db_judgements d !! id) as [j|] eqn:Hj; [|by intros [= _ <-]].
  case_match; [by intros [= _ <-]|]. case_match.
  - intros [= _ <-]. eapply consistent_frame; [|exact Hd].
    etransitivity; [apply frame_unresolved_entry|]. auto with frame.
  - case_match; [|by intros [= _ <-]]. intros E. eapply recover_stuck_judgement_consistent; [exact Hd| |exact E].
    by rewrite (proj1 (cs_judgement _ _ _ _ Hd _ _ Hj)).
Qed.

Lemma frame_stuck_code_run config id now threshold cap d r d' :
  handle_stuck_code_run config id now threshold cap d = (r, d') → frame d d'.
Proof.
  unfold handle_stuck_code_run, recover_stuck_code_run_without_steal.
  pose proof (frame_unresolved_entry (stuck_code_run_message_id id)).
  repeat case_match; intros; simplify_eq; auto with frame.
  apply frame_mark_code_run, frame_unresolved_entry.
Qed.

(** ** Every step keeps the invariant *)

Lemma claimed_rows server locked now n d rows d' :
  claim_queued_submissions server locked now n d = Some (rows, d') →
  ∀ s, s ∈ rows → ∃ k, db_submissions d' !! k = Some s.
Proof.
  unfold claim_queued_submissions. case_decide; [by intros [= <- _] s ?%not_elem_of_nil|].
  by intros (t & _ & [= <- <-])%bind_Some s [_ ?]%rows_where_elem.
Qed.

Lemma step_lockstep w w' : step w w' → lockstep (w_seen w) (w_db w) → lockstep (w_seen w') (w_db w').
Proof.
  intros Hstep. destruct Hstep; simpl; intros Hd.
  - by apply create_consistent.
  - apply lockstep_seen; [by eapply consistent_frame; [eapply frame_claim_queued_submissions|]|].
    by eapply claimed_rows.
  - by eapply consistent_frame; [eapply frame_claim_queued_code_runs|].
  - by eapply consistent_frame; [eapply frame_claim_queued_judgements|].
  - by eapply claim_submissions_consistent.
  - by eapply claim_deferred_consistent.
  - by eapply consistent_frame; [eapply frame_claim_code_runs|].
  - by eapply consistent_frame; [apply frame_refresh|].
  - by eapply consistent_frame; [apply frame_orphans|].
  - by eapply ensure_consistent.
  - by eapply consistent_frame; [apply frame_update_judgement_row|].
  - by eapply consistent_frame; [apply frame_update_submission_row, frame_self|].
  - by eapply consistent_frame; [apply frame_insert_results|].
  - by eapply consistent_frame; [apply frame_test_results, frame_self|].
  - by eapply consistent_frame; [apply frame_mark_dispatched|].
  - by eapply consistent_frame; [apply frame_mark_row, frame_self|].
  - by eapply consistent_frame; [apply frame_mark_current, frame_self|].
  - by eapply requeue_consistent.
  - by eapply stuck_submission_consistent.
  - by eapply consistent_frame; [eapply frame_stuck_code_run|].
  - by eapply stuck_judgement_consistent.
  - by eapply consistent_frame; [apply frame_reconcile|].
  - by eapply rejudge_consistent.
  - by eapply apply_consistent.
  - by eapply discard_consistent.
  - by eapply retry_stuck_consistent.
Qed.

(** ** Fencing *)

(** The submission has a result, or is gone. *)
Definition has_result (id : Z) (d : JudgingDb) : Prop :=
  ∀ s, db_submissions d !! id = Some s → status_is_terminal (jb_status s) = true.

(** A driver with this epoch of the judgement has been overtaken: the judgement is
    past the epoch, or is not current, or both it and its submission have their
    result.  Within a transaction, [Q] are the submissions that are about to lose
    their result. *)
Definition overtaken (Q : Z → bool) (d : JudgingDb) (epoch : Z) (j : JudgementRow) : Prop :=
  (epoch < jd_epoch j)%Z
  ∨ jd_epoch j = epoch
    ∧ (jd_current j = false
       ∨ jd_finalized j = true ∧ Q (jd_submission j) = false ∧ has_result (jd_submission j) d).

(** Judgement [k] exists no more, or is past [epoch]. *)
Definition fenced_in (Q : Z → bool) (epoch k : Z) (d : JudgingDb) : Prop :=
  (k < db_next_judgement d)%Z
  ∧ ∀ j, db_judgements d !! k = Some j → overtaken Q d epoch j.

Notation fenced := (fenced_in none_opening).

Section fencing.
Context (epoch k : Z).

Lemma fenced_weaken Q d : fenced_in Q epoch k d → fenced epoch k d.
Proof.
  intros [Hk Hj]. split; [done|]. intros j E.
  destruct (Hj j E) as [?|[? [?|(? & ? & ?)]]]; [by left|right; by auto..].
Qed.

(** Only the results of submissions in [Q] change. *)
Lemma fenced_submissions Q d t :
  (∀ id s', t !! id = Some s' → Q id = false → db_submissions d !! id = Some s') →
  fenced_in Q epoch k d → fenced_in Q epoch k (with_submissions t d).
Proof.
  intros Ht [Hk Hj]. split; [done|]. intros j E.
  destruct (Hj j E) as [?|[? [?|(? & HQ & Hr)]]]; [by left|right; by auto..|].
  right. split; [done|]. right. split_and!; [done..|]. intros s Hs. apply Hr. by apply Ht.
Qed.

Lemma fenced_same Q d d' :
  db_submissions d' = db_submissions d → db_judgements d' = db_judgements d →
  db_next_judgement d' = db_next_judgement d →
  fenced_in Q epoch k d → fenced_in Q epoch k d'.
Proof. unfold fenced_in, overtaken, has_result. by intros -> -> ->. Qed.

Lemma fenced_update_judgements Q Q' (P : JudgementRow → bool) (f : JudgementRow → JudgementRow) d :
  (∀ j, db_judgements d !! k = Some j → overtaken Q d epoch j →
     overtaken Q' d epoch (if P j then f j else j)) →
  fenced_in Q epoch k d → fenced_in Q' epoch k (update_judgements P f d).
Proof.
  intros Hf [Hk Hj]. split; [done|]. simpl. intros j' E. rewrite set_where_lookup in E.
  destruct (db_judgements d !! k) as [j|] eqn:Ek; [|done]. simpl in E. simplify_eq. apply Hf; auto.
Qed.

Lemma fenced_frame Q d d' : frame d d' → fenced_in Q epoch k d → fenced_in Q epoch k d'.
Proof.
  intros (Rs & Rj & En) [Hk Hj]. unfold fenced_in. rewrite En. split; [done|]. intros j' Hj'.
  destruct (rowwise_lookup _ _ _ _ _ Rj Hj') as (j & Ej & (_ & Es & _ & Ec) & Ee & Ef & _).
  unfold overtaken. rewrite Ee, Ec, Es.
  destruct (Hj j Ej) as [?|[? [?|(? & ? & Hr)]]]; [by left|right; by auto..|].
  right. split; [done|]. right. split_and!; [by apply Ef|done|]. intros s' Hs'.
  destruct (rowwise_lookup _ _ _ _ _ Rs Hs') as (s & Hs & _ & _ & Ht). apply Ht. by apply Hr.
Qed.

Lemma fenced_insert Q j d j' d' :
  insert_judgement j d = Some (j', d') → fenced_in Q epoch k d → fenced_in Q epoch k d'.
Proof.
  intros (_ & _ & _ & _ & _ & _ & ->)%insert_judgement_Some [Hk Hj]. split; simpl; [lia|].
  intros i. rewrite lookup_insert_ne by lia. apply Hj.
Qed.

Lemma overtaken_epoch Q Q' d d' j j' :
  overtaken Q d epoch j → (epoch < i32_max)%Z → jd_epoch j' = saturating_succ (jd_epoch j) →
  overtaken Q' d' epoch j'.
Proof. unfold overtaken, saturating_succ. intros H ? ->. left. destruct H as [|[]]; lia. Qed.

(** Demoting the current judgements of the submissions in [Q]. *)
Lemma fenced_demote_where (P : JudgementRow → bool) (f : JudgementRow → JudgementRow) Q d :
  (∀ j, P j = true → jd_epoch (f j) = jd_epoch j ∧ jd_current (f j) = false) →
  (∀ j, db_judgements d !! k = Some j → jd_finalized j = true → jd_current j = true →
     Q (jd_submission j) = true → P j = true) →
  fenced epoch k d → fenced_in Q epoch k (update_judgements P f d).
Proof.
  intros Hf HP. apply fenced_update_judgements. intros j Hj Ho. unfold overtaken.
  destruct (P j) eqn:EP; [destruct (Hf j EP) as [-> ->]|].
  - destruct Ho as [?|[? _]]; auto.
  - destruct Ho as [?|[? [?|(Hfi & _ & ?)]]]; [auto..|]. right. split; [done|].
    destruct (jd_current j) eqn:Hc; [right|by left].
    split_and!; [done| |done]. destruct (Q (jd_submission j)) eqn:EQ; [|done].
    by rewrite (HP j Hj Hfi Hc EQ) in EP.
Qed.

Lemma fenced_open_judgements Q server now subs d d' :
  open_judgements server now subs d = Some d' → fenced_in Q epoch k d → fenced_in Q epoch k d'.
Proof.
  revert d. induction subs as [|sub subs IH]; intros d; simpl; [by intros [= ->]|].
  intros ([j' d1] & E & E')%bind_Some Hf. eauto using fenced_insert.
Qed.

Lemma fenced_demote ids d : fenced epoch k d → fenced_in (in_ids ids) epoch k (demote ids d).
Proof. apply fenced_demote_where; [done|]. intros j _ _ Hc HQ. by rewrite HQ, Hc. Qed.

Lemma open_judgements_submissions server now subs d d' :
  open_judgements server now subs d = Some d' → db_submissions d' = db_submissions d.
Proof.
  revert d. induction subs as [|s l IH]; intros d; simpl; [by intros [= ->]|].
  intros ([j d2] & (_ & _ & _ & _ & _ & _ & Ed)%insert_judgement_Some & E')%bind_Some.
  rewrite (IH _ E'). by subst.
Qed.

(** The rest of a steal, after the demotion. *)
Lemma fenced_steal_submissions server now ids d d' :
  (∀ i s, db_submissions d !! i = Some s → jb_id s = i) →
  steal_submissions server now ids d = Some d' →
  fenced_in (in_ids ids) epoch k (demote ids d) → fenced epoch k d'.
Proof.
  intros Hid (d1 & E & (t & [_ ->]%checked_set_where_Some & [= <-])%bind_Some)%bind_Some Hf.
  apply (fenced_weaken (in_ids ids)), fenced_submissions.
  - simpl. intros i s'. rewrite set_where_lookup.
    rewrite (open_judgements_submissions _ _ _ _ _ E). simpl.
    destruct (db_submissions d !! i) as [s|] eqn:Hs; [|done]. simpl.
    intros [= <-] Hn. by rewrite (Hid _ _ Hs), Hn.
  - apply (fenced_same _ d1); [done..|]. by eapply fenced_open_judgements.
Qed.

Lemma fenced_claim_submissions server locked now ttl n max d rows d' :
  (∀ i s, db_submissions d !! i = Some s → jb_id s = i) →
  claim_submissions uuid server locked now ttl n max d = Some (rows, d') →
  fenced epoch k d → fenced epoch k d'.
Proof.
  intros Hid. unfold claim_submissions. intros (d1 & E & (d2 & E2 & [= _ <-])%bind_Some)%bind_Some Hf.
  eapply fenced_frame; [by eapply frame_exhaust_submissions|]. revert E. case_decide; [by intros [= <-]|].
  intros E. eapply fenced_steal_submissions; [done|exact E|]. by apply fenced_demote.
Qed.

(** *** Deferred judgements *)

Definition followed (js : list JudgementRow) (id : Z) : bool :=
  bool_decide (id ∈ jd_submission <$> js).

Lemma followed_false js id : followed js id = false ↔ ∀ j, j ∈ js → jd_submission j ≠ id.
Proof.
  unfold followed. rewrite bool_decide_eq_false, list_elem_of_fmap. naive_solver.
Qed.

Lemma fenced_steal_judgements server now ids seen d d' :
  lockstep seen d →
  (∀ id, id ∈ ids → ∃ j, db_judgements d !! id = Some j ∧ jd_current j = true ∧ jd_finalized j = false) →
  steal_judgements server now ids d = Some d' →
  fenced epoch k d → fenced_in (followed (judgements_in ids d')) epoch k d'.
Proof.
  intros Hd Hids E [Hk Hf].
  pose proof (λ i, stolen_rows server now ids d d' i
                (λ k j Hk, proj1 (cs_judgement _ _ _ _ Hd k j Hk)) Hids E) as Hin.
  apply bind_Some in E as (t & [_ ->]%checked_set_where_Some & [= <-]).
  split; [done|]. simpl. intros j'. rewrite set_where_lookup.
  destruct (db_judgements d !! k) as [j|] eqn:Ej; [|done]. simpl. intros [= <-].
  specialize (Hf j eq_refl). destruct (in_ids ids (jd_id j)) eqn:Ei.
  { left. simpl. destruct Hf as [|[]]; lia. }
  destruct Hf as [?|[He [?|(? & _ & ?)]]]; [by left|right; by auto|]. right. split; [done|].
  destruct (jd_current j) eqn:Hc; [right|by left]. split_and!; [done| |done].
  apply followed_false. intros i (k' & i0 & Hk' & Hi0 & Hc0 & ->)%Hin. simpl. intros Es.
  assert (k' = k) as -> by (by eapply (cs_current _ _ _ _ Hd)).
  apply not_true_iff_false in Ei. apply Ei, in_ids_spec.
  by destruct (cs_judgement _ _ _ _ Hd _ _ Ej) as [-> _].
Qed.

Lemma fenced_follow_all server now js d :
  (∀ i s, db_submissions d !! i = Some s → jb_id s = i) →
  fenced_in (followed js) epoch k d →
  fenced epoch k (foldl (λ d j, follow_judgement server now j d) d js).
Proof.
  intros Hid Hf. apply (fenced_weaken (followed js)). clear -Hid Hf. revert d Hid Hf.
  assert (∀ js0 d, (∀ j, j ∈ js0 → j ∈ js) → (∀ i s, db_submissions d !! i = Some s → jb_id s = i) →
    fenced_in (followed js) epoch k d →
    fenced_in (followed js) epoch k (foldl (λ d j, follow_judgement server now j d) d js0)) as H; [|by eauto].
  intros js0. induction js0 as [|j js0 IH]; intros d Hin Hid Hf; [done|]. simpl. apply IH.
  - intros i Hi. apply Hin. by right.
  - simpl. intros i s'. rewrite set_where_lookup. destruct (db_submissions d !! i) as [s|] eqn:Hs; [|done].
    simpl. intros [= <-]. rewrite <- (Hid _ _ Hs). by case_match.
  - apply fenced_submissions; [|done]. intros i s'. rewrite set_where_lookup.
    destruct (db_submissions d !! i) as [s|] eqn:Hs; [|done]. simpl. intros [= <-] Hn.
    rewrite followed_false in Hn. specialize (Hn j (Hin _ (list_elem_of_here _ _))).
    rewrite (Hid _ _ Hs). by rewrite (proj2 (Z.eqb_neq _ _) (not_eq_sym Hn)).
Qed.

Lemma fenced_claim_deferred server locked now ttl n max seen d rows d' :
  lockstep seen d →
  claim_deferred_judgements server locked now ttl n max d = Some (rows, d') →
  fenced epoch k d → fenced epoch k d'.
Proof.
  intros Hd. unfold claim_deferred_judgements. set (ids := cp_redispatch_ids _).
  intros (d1 & E & (d2 & E2 & [= _ <-])%bind_Some)%bind_Some Hf.
  match goal with |- context [foldl (λ d j, follow_judgement server now j d) ?x ?js] =>
    set (d3 := x) end.
  assert (frame d1 d3) as Hfr.
  { transitivity d2; [by eapply frame_exhaust_judgements|]. clear E. unfold d3. case_decide; [done|].
    apply frame_fail_parents. }
  pose proof (deferred_ids_current locked now ttl n max seen d Hd) as Hids. fold ids in Hids.
  assert (fenced_in (followed (judgements_in ids d1)) epoch k d1) as H1.
  { revert E. case_decide as Hn.
    - intros [= <-]. destruct Hf as [Hk Hj]. split; [done|]. intros j Ej.
      destruct (Hj j Ej) as [?|[? [?|(? & _ & ?)]]]; [by left|right; by auto|]. right. split; [done|].
      right. split_and!; [done| |done]. apply followed_false. rewrite Hn.
      by intros i [?%in_ids_spec%not_elem_of_nil _]%rows_where_elem.
    - intros E. by eapply fenced_steal_judgements. }
  apply fenced_follow_all.
  - intros i s'. destruct Hfr as (Rs & _ & _). intros Hs'.
    destruct (rowwise_lookup _ _ _ _ _ Rs Hs') as (s & Hs & -> & _).
    assert (db_submissions d1 = db_submissions d) as E1.
    { revert E. case_decide; [by intros [= <-]|]. by intros (t & _ & [= <-])%bind_Some. }
    rewrite E1 in Hs. by apply (cs_submission _ _ _ _ Hd).
  - eapply fenced_frame; [exact Hfr|]. destruct H1 as [Hk Hj]. split; [done|]. intros j Ej.
    destruct (Hj j Ej) as [?|[? [?|(? & HQ & ?)]]]; [by left|right; by auto|]. right. split; [done|].
    right. split_and!; [done| |done]. rewrite followed_false in HQ |- *.
    intros i Hi. destruct (judgements_in_frame ids d1 d3 i Hfr Hi) as (i0 & Hi0 & (_ & -> & _) & _). auto.
Qed.


(** *** Retries *)

(** The submission of a row that is judged has no result to lose. *)
Lemma fenced_unfinished id d :
  (∀ j, db_judgements d !! k = Some j → jd_submission j = id → ¬ has_result id d) →
  fenced epoch k d → fenced_in (λ i, i =? id)%Z epoch k d.
Proof.
  intros Hs [Hk Hj]. split; [done|]. intros j Ej.
  destruct (Hj j Ej) as [?|[? [?|(? & _ & Hr)]]]; [by left|right; by auto|]. right. split; [done|].
  right. split_and!; [done| |done]. apply Z.eqb_neq. intros E. apply (Hs j Ej E). by rewrite <- E.
Qed.

Lemma leased_no_result id d s :
  db_submissions d !! id = Some s → is_leased (jb_status s) = true → ¬ has_result id d.
Proof. intros Hs Hl Hr. specialize (Hr s Hs). by destruct (jb_status s). Qed.

(** One submission is reset. *)
Lemma fenced_reset id P f d :
  (∀ i s, db_submissions d !! i = Some s → jb_id s = i) →
  (∀ s, P s = true → jb_id s = id) →
  fenced_in (λ i, i =? id)%Z epoch k d → fenced_in (λ i, i =? id)%Z epoch k (update_submissions P f d).
Proof.
  intros Hid HP. apply fenced_submissions. intros i s'. rewrite set_where_lookup.
  destruct (db_submissions d !! i) as [s|] eqn:Hs; [|done]. simpl. intros [= <-] Hn%Z.eqb_neq.
  destruct (P s) eqn:EP; [|done]. apply HP in EP. rewrite (Hid _ _ Hs) in EP. congruence.
Qed.

Lemma fenced_requeue sub judgement expected server max now seen d s d' :
  (epoch < i32_max)%Z → lockstep seen d →
  (∀ j, db_judgements d !! judgement = Some j → jd_submission j = sub) →
  requeue_judgement_for_system_error_retry sub judgement expected server max now d = (s, d') →
  fenced epoch k d → fenced epoch k d'.
Proof.
  intros Hm Hd Hj. unfold requeue_judgement_for_system_error_retry.
  case_match; [by intros [= _ <-]|]. destruct (db_judgements d !! judgement) as [j|] eqn:Ej; [|by intros [= _ <-]].
  destruct (negb _) eqn:Eg; [by intros [= _ <-]|]. case_match; [by intros [= _ <-]|].
  case_decide as Er; [by intros [= _ <-]|]. intros [= _ <-] Hf.
  rewrite negb_false_iff, !andb_true_iff, Z.eqb_eq in Eg. destruct Eg as [[[Hc _] He] _].
  apply (fenced_weaken (λ i, i =? sub)%Z).
  match goal with |- fenced_in _ _ _ (delete_results_of _ ?x) => apply (fenced_same _ x); [done..|] end.
  apply fenced_reset; [apply (cs_submission _ _ _ _ Hd)|by intros ? [?%Z.eqb_eq _]%andb_true_iff|].
  eapply fenced_update_judgements; [|exact Hf]. simpl. intros i Ei Ho.
  destruct (_ && _) eqn:EP.
  - apply andb_true_iff in EP as [_ E%Z.eqb_eq]. eapply overtaken_epoch; [exact Ho|done|]. simpl. by rewrite E.
  - destruct Ho as [?|[? [?|(? & _ & Hr)]]]; [by left|right; by auto|]. right. split; [done|].
    destruct (jd_current i) eqn:Hci; [right|by left]. split_and!; [done| |done].
    apply Z.eqb_neq. intros E. assert (judgement = k) as <-.
    { eapply (cs_current _ _ _ _ Hd); [exact Ej|exact Ei| |done|done]. by rewrite (Hj j eq_refl). }
    rewrite (proj1 (cs_judgement _ _ _ _ Hd _ _ Ei)), Z.eqb_refl in EP. simpl in EP.
    apply Z.eqb_neq in EP. congruence.
Qed.

Lemma recovered_epoch Q Q' d d' j i server now retry (P : bool) :
  (epoch < i32_max)%Z → overtaken Q d epoch i → (P = true → jd_epoch i = jd_epoch j) →
  (P = false → overtaken Q' d' epoch i) →
  overtaken Q' d' epoch
    (if P then redispatch_judgement (saturating_succ (jd_epoch j)) (lease_of server now) retry i else i).
Proof.
  intros Hm Ho HP HQ. destruct P; [|auto]. eapply overtaken_epoch; [exact Ho|done|]. simpl. by rewrite HP.
Qed.

Lemma fenced_recover_judgement server now j d r d' :
  (epoch < i32_max)%Z → (∀ i s, db_submissions d !! i = Some s → jb_id s = i) →
  recover_stuck_judgement_without_steal server now j d = Some (r, d') →
  fenced epoch k d → fenced epoch k d'.
Proof.
  intros Hm Hid. unfold recover_stuck_judgement_without_steal.
  destruct (db_submissions d !! jd_submission j) as [sub|] eqn:Es; [|by intros [= _ <-]].
  assert (∀ (i : JudgementRow), (jd_id i =? jd_id j)%Z && (jd_epoch i =? jd_epoch j)%Z
    && is_leased (jd_status i) && negb (jd_finalized i) = true → jd_epoch i = jd_epoch j) as HP.
  { intros i E. rewrite !andb_true_iff, !Z.eqb_eq in E. tauto. }
  destruct (jd_current j) eqn:Hc; simpl.
  - case_bool_decide as En; [by intros [= _ <-]|]. case_decide; [done|]. intros [= _ <-] Hf.
    apply (fenced_weaken (λ i, i =? jb_id sub)%Z).
    apply (fenced_update_judgements (λ i, i =? jb_id sub)%Z).
    { intros i _ Ho. apply (recovered_epoch _ _ _ _ _ _ _ _ _ _ Hm Ho (HP i)). done. }
    match goal with |- fenced_in _ _ _ (delete_results_of _ ?x) => apply (fenced_same _ x); [done..|] end.
    apply fenced_reset; [done|by intros ? [[?%Z.eqb_eq _]%andb_true_iff _]%andb_true_iff|].
    apply fenced_unfinished; [|done]. intros _ _ _.
    destruct (rows_where _ (db_submissions d)) as [|p l] eqn:Er; [done|].
    assert (p ∈ p :: l) as Hp by left. rewrite <- Er in Hp.
    apply rows_where_elem in Hp as [[[Ep%Z.eqb_eq _]%andb_true_iff Hl]%andb_true_iff (i & Hi)].
    apply (leased_no_result _ _ p); [|done]. rewrite <- Ep, (Hid _ _ Hi). done.
  - case_decide; [done|]. intros [= _ <-] Hf.
    apply (fenced_update_judgements none_opening).
    { intros i _ Ho. apply (recovered_epoch _ _ _ _ _ _ _ _ _ _ Hm Ho (HP i)). done. }
    by apply (fenced_same _ d).
Qed.

Lemma overtaken_demoted Q Q' d d' j j' :
  overtaken Q d epoch j → jd_epoch j' = jd_epoch j → jd_current j' = false → overtaken Q' d' epoch j'.
Proof. unfold overtaken. intros H -> ->. destruct H as [|[]]; auto. Qed.

Lemma fenced_recover_submission server now sub d r d' :
  (∀ i s, db_submissions d !! i = Some s → jb_id s = i) →
  recover_stuck_submission_without_steal server now sub d = Some (r, d') →
  fenced epoch k d → fenced epoch k d'.
Proof.
  intros Hid. unfold recover_stuck_submission_without_steal.
  destruct (rows_where (still_stuck sub) (db_submissions d)) as [|p l] eqn:Er; simpl; [by intros [= _ <-]|].
  intros (d1 & ([j' d2] & E & [= <-])%bind_Some & [= _ <-])%bind_Some Hf.
  apply (fenced_weaken (λ i, i =? jb_id sub)%Z). eapply fenced_insert; [exact E|].
  eapply (fenced_update_judgements (λ i, i =? jb_id sub)%Z).
  { intros i _ Ho. destruct (_ && _); [by eapply overtaken_demoted|exact Ho]. }
  apply fenced_reset; [done|by intros ? [[?%Z.eqb_eq _]%andb_true_iff _]%andb_true_iff|].
  apply fenced_unfinished; [|done]. intros _ _ _.
  assert (p ∈ p :: l) as Hp by left. rewrite <- Er in Hp.
  apply rows_where_elem in Hp as [[[Ep%Z.eqb_eq _]%andb_true_iff Hl]%andb_true_iff (i & Hi)].
  apply (leased_no_result _ _ p); [|done]. rewrite <- Ep, (Hid _ _ Hi). done.
Qed.

(** *** Staff *)

Lemma fenced_open_rejudge sub user target e now d d' :
  open_rejudge_judgement sub user target e true now d = Some d' →
  fenced epoch k d → fenced_in (λ i, i =? jb_id sub)%Z epoch k d'.
Proof.
  intros ([j' d1] & E & [= <-])%bind_Some Hf. eapply fenced_insert; [exact E|].
  apply fenced_demote_where; [done| |done]. intros j _ _ Hc HQ. by rewrite HQ, Hc.
Qed.

Lemma fenced_open_deferred sub user target e now d d' :
  open_rejudge_judgement sub user target e false now d = Some d' → fenced epoch k d → fenced epoch k d'.
Proof. intros ([j' d1] & E & [= <-])%bind_Some. by eapply fenced_insert. Qed.

Lemma fenced_insert_row id s d :
  fenced_in (λ i, i =? id)%Z epoch k d →
  fenced_in (λ i, i =? id)%Z epoch k (with_submissions (<[id := s]> (db_submissions d)) d).
Proof.
  apply fenced_submissions. intros i s' Hs Hn%Z.eqb_neq. by rewrite lookup_insert_ne in Hs.
Qed.

Lemma fenced_rejudge id user target immediately now seen d d' :
  lockstep seen d →
  rejudge_submission id user target immediately now d = Some d' → fenced epoch k d → fenced epoch k d'.
Proof.
  intros Hd (sub & Hs & (d1 & E & [= <-])%bind_Some)%bind_Some Hf.
  destruct immediately; [|by eapply fenced_open_deferred].
  apply (fenced_weaken (λ i, i =? id)%Z), fenced_insert_row.
  rewrite <- (cs_submission _ _ _ _ Hd _ _ Hs). by eapply fenced_open_rejudge.
Qed.

Lemma fenced_retry_stuck i user now seen d r d' :
  lockstep seen d →
  retry_stuck_submission i user now d = Some (r, d') → fenced epoch k d → fenced epoch k d'.
Proof.
  intros Hd (e & _ & E)%bind_Some. revert E. case_match; [by intros [= _ <-]|].
  destruct (dl_submission e) as [id|]; [|by intros [= _ <-]].
  destruct (db_submissions d !! id) as [sub|] eqn:Hs; [|by intros [= _ <-]].
  case_match; [by intros [= _ <-]|]. intros (d1 & E & [= _ <-])%bind_Some Hf.
  pose proof (cs_submission _ _ _ _ Hd _ _ Hs) as Ei.
  pose proof (open_rejudge_immediate_consistent _ _ _ _ _ _ _ _ Hd E) as [_ Esub].
  apply (fenced_weaken (λ i, i =? id)%Z).
  eapply fenced_frame; [apply frame_dlq, frame_self|]. apply fenced_reset.
  - rewrite Esub. apply (cs_submission _ _ _ _ Hd).
  - by intros s ?%Z.eqb_eq.
  - rewrite <- Ei. by eapply fenced_open_rejudge.
Qed.

Lemma fenced_apply id judgement seen d d' :
  lockstep seen d →
  apply_submission_judgement id judgement d = Some d' → fenced epoch k d → fenced epoch k d'.
Proof.
  intros Hd (sub & _ & (j & Hj & E)%bind_Some)%bind_Some [Hk Hf]. revert E.
  destruct (negb _ || _) eqn:Eg; [done|]. intros [= <-].
  rewrite orb_false_iff, !negb_false_iff, Z.eqb_eq in Eg. destruct Eg as [Ej Hfin].
  split; [done|]. simpl. intros i'. rewrite !set_where_lookup.
  destruct (db_judgements d !! k) as [i|] eqn:Hi; [|done]. simpl.
  specialize (Hf i eq_refl). destruct (cs_judgement _ _ _ _ Hd _ _ Hi) as [Eid _].
  destruct (Z.eqb_spec (jd_submission i) id) as [Es|Hne]; simpl.
  - rewrite Eid. destruct (Z.eqb_spec k judgement) as [->|_]; intros [= <-]; [|by eapply overtaken_demoted].
    simplify_eq. destruct Hf as [?|[? _]]; [by left|right]. simpl. split; [done|]. right.
    split_and!; [done..|]. intros s. simpl. rewrite lookup_insert_eq. intros [= <-]. simpl.
    by eapply (cs_finalized _ _ _ _ Hd).
  - rewrite Eid. destruct (Z.eqb_spec k judgement) as [->|_]; intros [= <-]; [congruence|].
    destruct Hf as [?|[? [?|(? & ? & Hr)]]]; [by left|right; by auto|]. right. split; [done|]. right.
    split_and!; [done..|]. intros s. simpl. rewrite lookup_insert_ne by done. apply Hr.
Qed.

Lemma fenced_discard id judgement d d' :
  discard_submission_judgement id judgement d = Some d' → fenced epoch k d → fenced epoch k d'.
Proof.
  intros (sub & _ & (j & Hj & E)%bind_Some)%bind_Some [Hk Hf]. revert E. case_match; [done|].
  intros [= <-]. split; [done|]. simpl. intros i Hi. apply lookup_delete_Some in Hi as [_ ?].
  destruct (Hf i) as [?|[? [?|(? & ? & Hr)]]]; [done|by left|right; by auto..].
Qed.

Lemma fenced_ensure sub now d id d' :
  ensure_active_judgement_id sub now d = (id, d') → fenced epoch k d → fenced epoch k d'.
Proof.
  unfold ensure_active_judgement_id. destruct (active_judgement _ d) as [j|].
  - case_decide; intros [= _ <-]; [|done]. apply fenced_frame. auto with frame.
  - destruct (insert_judgement _ d) as [[j' d1]|] eqn:E; intros [= _ <-]; [|done]. by eapply fenced_insert.
Qed.

Lemma fenced_create id target now d :
  (∀ i j, db_judgements d !! i = Some j → jd_submission j ≠ id) →
  fenced epoch k d → fenced epoch k (create_submission id target now d).
Proof.
  intros Hnew [Hk Hf]. split; [done|]. simpl. intros j Hj.
  destruct (Hf j Hj) as [?|[? [?|(? & ? & Hr)]]]; [by left|right; by auto|]. right. split; [done|]. right.
  split_and!; [done..|]. intros s. simpl. rewrite lookup_insert_ne; [apply Hr|].
  intros E. by apply (Hnew k j).
Qed.

(** Once overtaken, overtaken for good. *)
Lemma step_fenced w w' :
  (epoch < i32_max)%Z → step w w' → lockstep (w_seen w) (w_db w) →
  fenced epoch k (w_db w) → fenced epoch k (w_db w').
Proof.
  intros Hmax Hstep. destruct Hstep; simpl; intros Hd; pose proof (cs_submission _ _ _ _ Hd) as Hid.
  - by apply fenced_create.
  - eapply fenced_frame, frame_claim_queued_submissions; eassumption.
  - eapply fenced_frame, frame_claim_queued_code_runs; eassumption.
  - eapply fenced_frame, frame_claim_queued_judgements; eassumption.
  - by eapply fenced_claim_submissions.
  - by eapply fenced_claim_deferred.
  - eapply fenced_frame, frame_claim_code_runs; eassumption.
  - apply fenced_frame, frame_refresh.
  - apply fenced_frame, frame_orphans.
  - by eapply fenced_ensure.
  - apply fenced_frame, frame_update_judgement_row.
  - apply fenced_frame, frame_update_submission_row, frame_self.
  - apply fenced_frame, frame_insert_results.
  - apply fenced_frame, frame_test_results, frame_self.
  - apply fenced_frame, frame_mark_dispatched.
  - apply fenced_frame, frame_mark_row, frame_self.
  - apply fenced_frame, frame_mark_current, frame_self.
  - by eapply fenced_requeue.
  - unfold handle_stuck_submission in *. repeat case_match; simplify_eq; try done.
    1-2: apply fenced_frame, frame_mark_submission; auto with frame.
    by eapply fenced_recover_submission.
  - eapply fenced_frame, frame_stuck_code_run; eassumption.
  - unfold handle_stuck_submission_judgement in *. repeat case_match; simplify_eq; try done.
    + apply fenced_frame. etransitivity; [apply frame_unresolved_entry|]. auto with frame.
    + by eapply fenced_recover_judgement.
  - apply fenced_frame, frame_reconcile.
  - by eapply fenced_rejudge.
  - by eapply fenced_apply.
  - by eapply fenced_discard.
  - by eapply fenced_retry_stuck.
Qed.
End fencing.

(** ** Takeovers *)

(** What hands a submission to a new driver. *)
Inductive takeover (id : Z) (d d' : JudgingDb) : Prop :=
  | takeover_steal server locked now ttl n max rows s :
      claim_submissions uuid server locked now ttl n max d = Some (rows, d') →
      s ∈ rows → jb_id s = id → takeover id d d'
  | takeover_detector server now sub model retry :
      recover_stuck_submission_without_steal server now sub d
        = Some (RedispatchSubmission model retry, d') →
      jb_id sub = id → takeover id d d'
  | takeover_rejudge user target now :
      rejudge_submission id user target true now d = Some d' → takeover id d d'
  | takeover_dead_letter i user now :
      retry_stuck_submission i user now d = Some (Requeued id, d') → takeover id d d'.

(** A judgement that is demoted. *)
Lemma demoted_fenced Q seen k j P f d :
  lockstep seen d → db_judgements d !! k = Some j → P j = true →
  (∀ j, P j = true → jd_epoch (f j) = jd_epoch j ∧ jd_current (f j) = false) →
  fenced_in Q (jd_epoch j) k (update_judgements P f d).
Proof.
  intros Hd Hj HP Hf. split; [by apply (cs_judgement _ _ _ _ Hd _ _ Hj)|].
  simpl. intros j'. rewrite set_where_lookup, Hj. simpl. rewrite HP. intros [= <-].
  right. destruct (Hf j HP) as [-> ->]. auto.
Qed.

Lemma open_rejudge_fences seen k j sub user target e now d d' :
  lockstep seen d → db_judgements d !! k = Some j → jd_submission j = jb_id sub → jd_current j = true →
  open_rejudge_judgement sub user target e true now d = Some d' →
  fenced_in (λ i, i =? jb_id sub)%Z (jd_epoch j) k d'.
Proof.
  intros Hd Hj Es Hc ([j' d1] & E & [= <-])%bind_Some. eapply fenced_insert; [exact E|].
  eapply demoted_fenced; [exact Hd|done| |done]. by rewrite Es, Z.eqb_refl, Hc.
Qed.

Lemma steal_fences id seen k j server locked now ttl n max rows s d d' :
  lockstep seen d → claim_submissions uuid server locked now ttl n max d = Some (rows, d') →
  s ∈ rows → jb_id s = id →
  db_judgements d !! k = Some j → jd_submission j = id → jd_current j = true →
  fenced (jd_epoch j) k d'.
Proof.
  intros Hd E Hs Hi Hj Es Hc. unfold claim_submissions in E. set (ids := cp_redispatch_ids _) in E.
  apply bind_Some in E as (d1 & E & (d2 & E2 & [= <- <-])%bind_Some).
  apply rows_where_elem in Hs as [Hin _]. rewrite Hi in Hin.
  eapply fenced_frame; [by eapply frame_exhaust_submissions|].
  revert E. case_decide as Hids.
  - rewrite Hids in Hin. by apply in_ids_spec, not_elem_of_nil in Hin.
  - intros E. eapply fenced_steal_submissions; [apply (cs_submission _ _ _ _ Hd)|exact E|].
    eapply demoted_fenced; [exact Hd|done| |done]. by rewrite Es, Hin, Hc.
Qed.

Lemma detector_fences seen k j server now sub model retry d d' :
  lockstep seen d →
  recover_stuck_submission_without_steal server now sub d = Some (RedispatchSubmission model retry, d') →
  db_judgements d !! k = Some j → jd_submission j = jb_id sub → jd_current j = true →
  fenced (jd_epoch j) k d'.
Proof.
  intros Hd E Hj Es Hc. revert E. unfold recover_stuck_submission_without_steal. case_decide; [done|].
  intros (d1 & ([j' d2] & E & [= <-])%bind_Some & [= _ _ <-])%bind_Some.
  eapply fenced_insert; [exact E|]. split; [by apply (cs_judgement _ _ _ _ Hd _ _ Hj)|].
  simpl. intros i. rewrite set_where_lookup, Hj. simpl. intros [= <-]. right.
  rewrite Es, Z.eqb_refl, Hc. destruct (jd_finalized j) eqn:Ef; simpl; [exfalso|auto].
  apply insert_judgement_Some in E as (Ha & _). rewrite insert_allowed_spec in Ha.
  destruct (Ha k j) as [_ Hx]; [|done|by rewrite Hc in Hx].
  simpl. by rewrite set_where_lookup, Hj; simpl; rewrite Ef, andb_false_r.
Qed.

Lemma takeover_fences id seen k j d d' :
  lockstep seen d → takeover id d d' →
  db_judgements d !! k = Some j → jd_submission j = id → jd_current j = true →
  fenced (jd_epoch j) k d'.
Proof.
  intros Hd Ht Hj Es Hc.
  destruct Ht as [server locked now ttl n max rows s E Hs Hi | server now sub model retry E Hi
                 | user target now E | i user now E].
  - by eapply steal_fences.
  - eapply detector_fences; [exact Hd|exact E|done|congruence|done].
  - apply bind_Some in E as (sub & Hs & (d1 & E & [= <-])%bind_Some).
    pose proof (cs_submission _ _ _ _ Hd _ _ Hs) as Ei.
    apply (fenced_weaken _ _ (λ i, i =? id)%Z), fenced_insert_row.
    rewrite <- Ei. eapply open_rejudge_fences; [exact Hd|done|congruence|done|exact E].
  - apply bind_Some in E as (e & _ & E). revert E. case_match; [done|].
    destruct (dl_submission e) as [id'|]; [|done].
    destruct (db_submissions d !! id') as [sub|] eqn:Hs; [|done].
    case_match; [done|]. intros (d1 & E & [= -> <-])%bind_Some.
    pose proof (cs_submission _ _ _ _ Hd _ _ Hs) as Ei.
    pose proof (open_rejudge_immediate_consistent _ _ _ _ _ _ _ _ Hd E) as [_ Esub].
    apply (fenced_weaken _ _ (λ i, i =? id)%Z).
    eapply fenced_frame; [apply frame_dlq, frame_self|]. apply fenced_reset.
    + rewrite Esub. apply (cs_submission _ _ _ _ Hd).
    + by intros s ?%Z.eqb_eq.
    + rewrite <- Ei. eapply open_rejudge_fences; [exact Hd|done|congruence|done|exact E].
Qed.

Lemma set_where_none {A} (P : A → bool) f (t : gmap Z A) :
  (∀ k r, t !! k = Some r → P r = false) → set_where P f t = t.
Proof.
  intros HP. apply map_eq. intros k. rewrite set_where_lookup.
  destruct (t !! k) as [r|] eqn:Hk; simpl; [by rewrite (HP k r Hk)|done].
Qed.

(** The second statement of an update misses when its driver is overtaken. *)
Lemma fenced_write_submission up now seen d :
  lockstep seen d → fenced (su_judge_epoch up) (su_judgement_id up) d →
  db_submissions (update_submission_row up now d) = db_submissions d.
Proof.
  intros Hd [_ Hf]. apply set_where_none. intros i s Hs. apply not_true_iff_false.
  rewrite !andb_true_iff, !Z.eqb_eq, negb_true_iff, bool_decide_eq_false.
  intros [[[Ei Ee] Hnt] Hex]. apply Hex, rows_where_nil. intros k' j Hj.
  apply not_true_iff_false. rewrite !andb_true_iff, !Z.eqb_eq. intros [[[Ej Es] Eep] Hc].
  rewrite (proj1 (cs_judgement _ _ _ _ Hd _ _ Hj)) in Ej. subst k'.
  destruct (Hf j Hj) as [?|[_ [?|(_ & _ & Hr)]]]; [lia|congruence|].
  rewrite Es, (cs_submission _ _ _ _ Hd _ _ Hs) in Hr. specialize (Hr s Hs).
  unfold not_terminal in Hnt. by rewrite Hr in Hnt.
Qed.

(** The first reaches its own judgement at most. *)
Lemma write_judgement_other up now seen d k :
  lockstep seen d → k ≠ su_judgement_id up →
  db_judgements (update_judgement_row up now d).2 !! k = db_judgements d !! k.
Proof.
  intros Hd Hk. simpl. rewrite set_where_lookup. destruct (db_judgements d !! k) as [j|] eqn:Ej; [|done].
  simpl. unfold writable. rewrite (proj1 (cs_judgement _ _ _ _ Hd _ _ Ej)).
  by rewrite (proj2 (Z.eqb_neq _ _)).
Qed.

(** ** Claims *)

Lemma reachable_consistent w : rtc step empty_world w → lockstep (w_seen w) (w_db w).
Proof.
  intros H. remember empty_world as w0 eqn:E.
  assert (lockstep (w_seen w0) (w_db w0)) as H0.
  { subst. split; simpl; intros *; rewrite ?lookup_empty; try done. by intros ?%not_elem_of_nil. }
  clear E. induction H as [|w1 w2 w3 H _ IH]; eauto using step_lockstep.
Qed.

Lemma steps_fenced epoch k w w' :
  (epoch < i32_max)%Z → rtc step w w' → lockstep (w_seen w) (w_db w) →
  fenced epoch k (w_db w) → fenced epoch k (w_db w') ∧ lockstep (w_seen w') (w_db w').
Proof. intros Hm H. induction H; eauto using step_fenced, step_lockstep. Qed.

(** C3. However servers, drivers, detectors and staff interleave, a submission has
    at most one current judgement, and that judgement is at the epoch of the
    submission; no two judgements of a submission share a version, and a judgement
    that is finalized has a result. *)
Theorem reachable_lockstep w :
  rtc step empty_world w →
  (∀ k1 k2 j1 j2, db_judgements (w_db w) !! k1 = Some j1 → db_judgements (w_db w) !! k2 = Some j2 →
     jd_submission j1 = jd_submission j2 →
     (jd_current j1 = true ∧ jd_current j2 = true ∨ jd_version j1 = jd_version j2) → k1 = k2)
  ∧ (∀ k j s, db_judgements (w_db w) !! k = Some j → jd_current j = true →
       db_submissions (w_db w) !! jd_submission j = Some s → jd_epoch j = jb_epoch s)
  ∧ (∀ k j, db_judgements (w_db w) !! k = Some j → jd_finalized j = true →
       status_is_terminal (jd_status j) = true).
Proof.
  intros H%reachable_consistent. split_and!.
  - intros k1 k2 j1 j2 H1 H2 E [[C1 C2]|Ev].
    + by apply (cs_current _ _ _ _ H k1 k2 j1 j2).
    + by apply (cs_version _ _ _ _ H k1 k2 j1 j2).
  - apply (cs_lockstep _ _ _ _ H).
  - apply (cs_finalized _ _ _ _ H).
Qed.

(** A failure of a dispatch misses a submission that is at another epoch, and so
    its current judgement; it reaches its own judgement at most. *)
Lemma dispatch_failure_misses sub k code message epoch now seen d s :
  lockstep seen d → db_submissions d !! sub = Some s → jb_epoch s ≠ epoch →
  let d' := mark_submission_dispatch_system_error sub k code message epoch now d in
  db_submissions d' = db_submissions d
  ∧ ∀ k', k' ≠ k → db_judgements d' !! k' = db_judgements d !! k'.
Proof.
  intros Hd Hs He. simpl.
  set (d1 := mark_dispatched_judgement k code message epoch now d).
  assert (db_submissions d1 = db_submissions d ∧ ∀ k', k' ≠ k → db_judgements d1 !! k' = db_judgements d !! k')
    as [Es Ej].
  { unfold d1, mark_dispatched_judgement. destruct (_ >? _)%Z; [|done]. split; [done|]. intros k' Hk.
    simpl. rewrite set_where_lookup. destruct (db_judgements d !! k') as [j|] eqn:E; [|done]. simpl.
    rewrite (proj1 (cs_judgement _ _ _ _ Hd _ _ E)). by rewrite (proj2 (Z.eqb_neq _ _)). }
  split.
  - simpl. rewrite Es. apply set_where_none. intros i s' Hs'. rewrite (cs_submission _ _ _ _ Hd _ _ Hs').
    destruct (i =? sub)%Z eqn:Ei; [|done]. apply Z.eqb_eq in Ei. simplify_eq. by rewrite (proj2 (Z.eqb_neq _ _)).
  - intros k' Hk. rewrite <- (Ej k' Hk). simpl. rewrite set_where_lookup.
    destruct (db_judgements d1 !! k') as [j|] eqn:E; [|done]. simpl.
    destruct (jd_submission j =? sub)%Z eqn:Esub; [|done]. destruct (jd_current j) eqn:Ec; [|done].
    apply Z.eqb_eq in Esub. rewrite Ej in E by done. subst sub.
    rewrite (cs_lockstep _ _ _ _ Hd _ _ _ E Ec Hs). rewrite (proj2 (Z.eqb_neq _ _)) by done.
    by rewrite andb_false_r.
Qed.

(** C2. Once a submission is taken over - stolen, recovered by the detector,
    rejudged, or retried from the dead letters - no update of results
    ([submission_update]) by the driver it had changes the submission, or any
    judgement but its own: neither of the two statements of an update, however long
    that driver lives on and whatever happens meanwhile.  A failure of its dispatch
    ([mark_submission_dispatch_system_error]) is matched by submission and epoch
    only: it misses both as long as the submission is not at that epoch again. *)
Theorem late_writes_never_land id w1 w2 w3 k j up now :
  rtc step empty_world w1 →
  step w1 w2 → takeover id (w_db w1) (w_db w2) →
  rtc step w2 w3 →
  db_judgements (w_db w1) !! k = Some j → jd_submission j = id → jd_current j = true →
  (jd_epoch j < i32_max)%Z →
  su_judgement_id up = k → su_judge_epoch up = jd_epoch j →
  db_submissions (update_submission_row up now (w_db w3)) = db_submissions (w_db w3)
  ∧ db_submissions (update_judgement_row up now (w_db w3)).2 = db_submissions (w_db w3)
  ∧ (∀ k', k' ≠ k → db_judgements (update_judgement_row up now (w_db w3)).2 !! k'
                      = db_judgements (w_db w3) !! k')
  ∧ ∀ s code message,
      db_submissions (w_db w3) !! id = Some s → jb_epoch s ≠ jd_epoch j →
      let d := mark_submission_dispatch_system_error id k code message (jd_epoch j) now (w_db w3) in
      db_submissions d = db_submissions (w_db w3)
      ∧ ∀ k', k' ≠ k → db_judgements d !! k' = db_judgements (w_db w3) !! k'.
Proof.
  intros H1%reachable_consistent Hs Ht H3 Hj Es Hc Hm <- Ee.
  pose proof (takeover_fences _ _ _ _ _ _ H1 Ht Hj Es Hc) as Hf.
  destruct (steps_fenced _ _ _ _ Hm H3 (step_lockstep _ _ Hs H1) Hf) as [Hf3 H4].
  rewrite <- Ee in *. split_and!; [by eapply fenced_write_submission|done|..].
  - intros k' Hk. by eapply write_judgement_other.
  - intros s code message. by eapply dispatch_failure_misses.
Qed.
End world.
