(* ===== verification/RecoveryProofs.v ===== *)
(** * StealProofs: what a scan for expired leases does to each submission

    [claim_submissions] row by row: the submissions it dispatches again, the ones
    whose attempts are used up, and the rest. *)

From S2P Require Import Prelude.
From S2P Require Import Text Float Verdict Sdk Host Judging JudgingDb Dispatch Recovery.
From S2P Require Import DispatchInvariant DispatchProofs.

(** A submission whose attempts are used up. *)
Definition exhausted_job (max : Z) (s : JobRow) : JobRow :=
  job_with_retry (jb_retry_count s + 1)
    (job_with_outcome SystemErrorStatus
       (outcome_with_error (sanitize_text_field DISPATCH_RETRY_EXHAUSTED)
          (sanitize_text_field (exhausted_message (u "Submission") max)) (jb_outcome s)) s).

(** [row] was read from [s]. *)
Definition claimed_from (s : JobRow) (row : ClaimedRow) : Prop :=
  cr_id row = jb_id s ∧ cr_epoch row = jb_epoch s ∧ cr_retry_count row = jb_retry_count s.

Lemma leased_not_terminal s : is_leased s = true → not_terminal s = true.
Proof. by destruct s. Qed.

Lemma stale_not_terminal t s : stale_job t s = true → not_terminal (jb_status s) = true.
Proof. unfold stale_job. intros [? _]%andb_true_iff. by apply leased_not_terminal. Qed.

Section exhaust.
Context (uuid : nat → ustring).

Lemma exhaust_submission_rows now max row d d' :
  exhaust_submission uuid now max row d = Some d' →
  (∀ k s, db_submissions d !! k = Some s → jb_id s ≠ cr_id row → db_submissions d' !! k = Some s)
  ∧ (∀ k s, db_submissions d !! k = Some s → claimed_from s row → not_terminal (jb_status s) = true →
       db_submissions d' !! k = Some (exhausted_job max s))
  ∧ (∀ k j, db_judgements d !! k = Some j → jd_submission j ≠ cr_id row → db_judgements d' !! k = Some j)
  ∧ (∃ e m, e ∈ db_dlq d' ∧ dl_message_id e
       = u "dispatch-retry-exhausted-submission-" ++ show (cr_id row) ++ u "-" ++ uuid m)
  ∧ (∀ e, e ∈ db_dlq d → e ∈ db_dlq d').
Proof.
  unfold exhaust_submission, count_exhausted. set (e := {| dl_message_id := _ |}).
  set (d0 := create_entry e _).
  assert (db_submissions d0 = db_submissions d ∧ db_judgements d0 = db_judgements d) as [Es Ej]
    by (unfold d0, create_entry; by case_decide).
  assert ((∃ e', e' ∈ db_dlq d0 ∧ dl_message_id e' = dl_message_id e)
          ∧ ∀ e', e' ∈ db_dlq d → e' ∈ db_dlq d0) as [Hd0 Hd1].
  { unfold d0, create_entry. simpl. case_decide as Hin; simpl.
    - apply list_elem_of_fmap in Hin as (e' & ? & ?). eauto.
    - split; [exists e|]; set_solver. }
  intros (t & [_ ->]%checked_set_where_Some & [= <-])%bind_Some. simpl.
  split_and!.
  - intros k s Hk Hne. rewrite !set_where_lookup, Es, Hk. simpl.
    rewrite (proj2 (Z.eqb_neq _ _) Hne). simpl. by rewrite (proj2 (Z.eqb_neq _ _) Hne).
  - intros k s Hk (Ei & Ee & _) Hn. rewrite !set_where_lookup, Es, Hk. simpl.
    rewrite Ei, Ee, !Z.eqb_refl, Hn. simpl. rewrite !Z.eqb_refl. done.
  - intros k j Hk Hne. rewrite set_where_lookup, Ej, Hk. simpl. by rewrite (proj2 (Z.eqb_neq _ _) Hne).
  - destruct Hd0 as (e' & Hin & Ee). exists e', (db_uuids d). split; [done|]. by rewrite Ee.
  - done.
Qed.

Lemma exhaust_submissions_rows now max rows d d' :
  exhaust_submissions uuid now max rows d = Some d' → NoDup (cr_id <$> rows) →
  (∀ k s, db_submissions d !! k = Some s → jb_id s = k) →
  (∀ k s, db_submissions d !! k = Some s → k ∉ cr_id <$> rows → db_submissions d' !! k = Some s)
  ∧ (∀ k s row, row ∈ rows → db_submissions d !! k = Some s → claimed_from s row →
       not_terminal (jb_status s) = true → db_submissions d' !! k = Some (exhausted_job max s))
  ∧ (∀ k j, db_judgements d !! k = Some j → jd_submission j ∉ cr_id <$> rows →
       db_judgements d' !! k = Some j)
  ∧ (∀ row, row ∈ rows → ∃ e m, e ∈ db_dlq d' ∧ dl_message_id e
       = u "dispatch-retry-exhausted-submission-" ++ show (cr_id row) ++ u "-" ++ uuid m)
  ∧ (∀ e, e ∈ db_dlq d → e ∈ db_dlq d').
Proof.
  revert d. induction rows as [|row rows IH]; intros d; simpl.
  { intros [= <-] _ _. split_and!; [done|by intros ??? ?%not_elem_of_nil|done|by intros ? ?%not_elem_of_nil|done]. }
  intros (d1 & E & E')%bind_Some [Hnin Hnd]%NoDup_cons Hid.
  pose proof (exhaust_submission_rows _ _ _ _ _ E) as (H1 & H2 & H3 & H4 & H5).
  assert (∀ k s, db_submissions d1 !! k = Some s → jb_id s = k) as Hid1.
  { intros k s1 Hk. assert (frame d d1) as (Rs & _ & _).
    { apply (frame_exhaust_submissions uuid now max [row]). simpl. by rewrite E. }
    destruct (rowwise_lookup _ _ _ _ _ Rs Hk) as (s & Hs & [-> _]). eauto. }
  destruct (IH d1 E' Hnd Hid1) as (I1 & I2 & I3 & I4 & I5). split_and!.
  - intros k s Hk Hn. rewrite not_elem_of_cons in Hn. destruct Hn as [Hne Hn].
    apply I1; [|done]. apply H1; [done|]. by rewrite (Hid _ _ Hk).
  - intros k s r [->|Hr]%elem_of_cons Hk Hc Hnt.
    + apply I1; [by apply H2|]. destruct Hc as (Ei & _). by rewrite <- (Hid _ _ Hk), <- Ei.
    + apply (I2 k s r Hr); [|done..]. apply H1; [done|]. rewrite <- (proj1 Hc).
      intros E1. apply Hnin. rewrite <- E1. apply list_elem_of_fmap. eauto.
  - intros k j Hk Hn. rewrite not_elem_of_cons in Hn. destruct Hn as [Hne Hn]. auto.
  - intros r [->|Hr]%elem_of_cons; [|by apply I4]. destruct H4 as (e & m & ? & ?). exists e, m. auto.
  - auto.
Qed.
End exhaust.

(** Distinct rows. *)
Lemma rows_where_NoDup {A} (key : A → Z) P (t : gmap Z A) :
  (∀ k r, t !! k = Some r → key r = k) → NoDup (key <$> rows_where P t).
Proof.
  intros Hk. unfold rows_where. apply NoDup_fmap_filter.
  assert (key <$> (map_to_list t).*2 = (map_to_list t).*1) as ->; [|apply NoDup_fst_map_to_list].
  rewrite <- list_fmap_compose. apply list_fmap_ext. intros i [k r] Hi. simpl.
  apply Hk, elem_of_map_to_list. by eapply list_elem_of_lookup_2.
Qed.

Lemma scan_NoDup {A} (key created : A → Z) P locked limit (t : gmap Z A) :
  (∀ k r, t !! k = Some r → key r = k) → NoDup (key <$> scan key created P locked limit t).
Proof.
  intros Hk. unfold scan. rewrite fmap_take. eapply sublist_NoDup; [|apply sublist_take].
  rewrite sort_by_key_perm. by apply rows_where_NoDup.
Qed.

(** ** Stolen submissions *)

(** The judgement that a steal opens. *)
Definition opened_for (server : ustring) (now : Z) (s : JobRow) (j : JudgementRow) : Prop :=
  jd_submission j = jb_id s ∧ jd_current j = true ∧ jd_finalized j = false
  ∧ jd_status j = PendingSubmission ∧ jd_outcome j = no_outcome
  ∧ jd_epoch j = saturating_succ (jb_epoch s) ∧ jd_lease j = lease_of server now.

Lemma open_judgements_rows server now subs d d' :
  open_judgements server now subs d = Some d' →
  (∀ k j, db_judgements d !! k = Some j → (k < db_next_judgement d)%Z) →
  (∀ k j, db_judgements d !! k = Some j → db_judgements d' !! k = Some j)
  ∧ (∀ s, s ∈ subs → ∃ k j, (db_next_judgement d ≤ k)%Z ∧ db_judgements d' !! k = Some j
                            ∧ opened_for server now s j).
Proof.
  revert d. induction subs as [|sub subs IH]; intros d; simpl.
  { intros [= <-] _. split; [done|]. by intros ? ?%not_elem_of_nil. }
  intros ([j d1] & E & E')%bind_Some Hk.
  assert (opened_for server now sub j) as Hj.
  { revert E. unfold insert_judgement. case_match; [|done]. by intros [= <- <-]. }
  pose proof (insert_judgement_Some _ _ _ _ E) as (_ & _ & _ & _ & _ & _ & Ed1).
  destruct (IH d1 E') as [I1 I2].
  { subst. simpl. intros k i Hi. apply lookup_insert_Some in Hi as [[<- _]|[_ Hi]]; [lia|].
    specialize (Hk k i Hi). lia. }
  split.
  - intros k i Hi. apply I1. subst. simpl. rewrite lookup_insert_ne; [done|].
    intros <-. specialize (Hk _ _ Hi). lia.
  - intros s [->|Hs]%elem_of_cons.
    + exists (db_next_judgement d), j. split_and!; [lia| |done..]. apply I1. subst. simpl.
      by rewrite lookup_insert_eq.
    + destruct (I2 s Hs) as (k & i & Hle & ?). exists k, i. split; [|done]. subst. simpl in Hle. lia.
Qed.

Lemma steal_submissions_rows server now ids seen d d' :
  lockstep seen d → steal_submissions server now ids d = Some d' →
  ∀ k s, db_submissions d !! k = Some s →
    db_submissions d' !! k = Some (if in_ids ids k then steal_job server now s else s)
    ∧ (in_ids ids k = true → job_fits s = true ∧
       ∃ kj j, db_judgements d !! kj = None ∧ db_judgements d' !! kj = Some j ∧ opened_for server now s j).
Proof.
  intros Hd (d1 & E & (t & [Hfit ->]%checked_set_where_Some & [= <-])%bind_Some)%bind_Some.
  pose proof (open_judgements_submissions _ _ _ _ _ E) as Es.
  apply open_judgements_rows in E as [_ H2].
  - simpl in *. rewrite Es in *. intros k s Hk. split.
    + rewrite set_where_lookup, Hk. simpl. by rewrite (cs_submission _ _ _ _ Hd _ _ Hk).
    + intros Hin. split; [apply (Hfit k); [done|by rewrite (cs_submission _ _ _ _ Hd _ _ Hk)]|].
      destruct (H2 s) as (kj & j & Hle & Hj & Ho).
      { apply rows_where_elem. rewrite (cs_submission _ _ _ _ Hd _ _ Hk). eauto. }
      exists kj, j. split_and!; [|done..]. destruct (db_judgements d !! kj) eqn:E'; [|done].
      apply (cs_judgement _ _ _ _ Hd) in E' as [_ ?]. lia.
  - simpl. intros k j. rewrite set_where_lookup. destruct (db_judgements d !! k) eqn:Ek; [|done].
    intros _. by apply (cs_judgement _ _ _ _ Hd) in Ek as [_ ?].
Qed.

Section claim.
Context (uuid : nat → ustring).

(** The submissions that a scan claims. *)
Definition scanned (locked : Z → bool) (now ttl : Z) (n : nat) (d : JudgingDb) : list JobRow :=
  scan jb_id jb_created_at (stale_job (now - ttl)) locked n (db_submissions d).

Definition as_claimed (s : JobRow) : ClaimedRow :=
  {| cr_id := jb_id s; cr_epoch := jb_epoch s; cr_retry_count := jb_retry_count s |}.

Section plan.
Context (S0 : list JobRow) (t : gmap Z JobRow) (max : Z).
Hypothesis Hid : ∀ k s, t !! k = Some s → jb_id s = k.
Hypothesis HS : ∀ s, s ∈ S0 → ∃ k, t !! k = Some s.
Let plan := from_rows (as_claimed <$> S0) max.

(** What is dispatched again, and what is given up. *)
Lemma plan_redispatch id s : t !! id = Some s →
  in_ids (cp_redispatch_ids plan) id = true ↔ s ∈ S0 ∧ exhausted max (as_claimed s) = false.
Proof.
  intros Hs. rewrite in_ids_spec. unfold plan. rewrite from_rows_redispatch. split.
  - intros (r & (s' & -> & Hs')%list_elem_of_fmap & Ei & Hx). destruct (HS s' Hs') as (k & Hk).
    simpl in Ei. rewrite (Hid _ _ Hk) in Ei. by simplify_eq.
  - intros [Hs' Hx]. exists (as_claimed s). split_and!; [by apply list_elem_of_fmap_2|by apply Hid|done].
Qed.

Lemma plan_redispatch_row id : id ∈ cp_redispatch_ids plan → is_Some (t !! id).
Proof.
  unfold plan. rewrite from_rows_redispatch.
  intros (r & (s & -> & Hs)%list_elem_of_fmap & <- & _). destruct (HS s Hs) as (k & Hk). simpl.
  rewrite (Hid _ _ Hk). eauto.
Qed.

Lemma plan_exhausted row :
  row ∈ cp_exhausted_rows plan ↔ ∃ s, s ∈ S0 ∧ row = as_claimed s ∧ exhausted max row = true.
Proof. unfold plan. simpl. rewrite list_elem_of_filter, list_elem_of_fmap. naive_solver. Qed.

Lemma plan_exhausted_id id s : t !! id = Some s →
  id ∈ cr_id <$> cp_exhausted_rows plan ↔ s ∈ S0 ∧ exhausted max (as_claimed s) = true.
Proof.
  intros Hs. rewrite list_elem_of_fmap. setoid_rewrite plan_exhausted. split.
  - intros (r & -> & s' & Hs' & -> & Hx). destruct (HS s' Hs') as (k & Hk).
    simpl in Hs. rewrite (Hid _ _ Hk) in Hs. by simplify_eq.
  - intros [Hs' Hx]. exists (as_claimed s). split; [symmetry; by apply Hid|]. eauto.
Qed.

Lemma plan_NoDup : NoDup (jb_id <$> S0) → NoDup (cr_id <$> cp_exhausted_rows plan).
Proof. intros H. unfold plan. simpl. apply NoDup_fmap_filter. by rewrite <- list_fmap_compose. Qed.
End plan.

(** The first half of the claim. *)
Lemma claim_steal_rows server now ids seen d d1 :
  lockstep seen d → (∀ id, id ∈ ids → is_Some (db_submissions d !! id)) →
  (if decide (ids = []) then Some d else steal_submissions server now ids d) = Some d1 →
  lockstep seen d1 ∧
  ∀ k s, db_submissions d !! k = Some s →
    db_submissions d1 !! k = Some (if in_ids ids k then steal_job server now s else s)
    ∧ (in_ids ids k = true → job_fits s = true ∧
       ∃ kj j, db_judgements d !! kj = None ∧ db_judgements d1 !! kj = Some j ∧ opened_for server now s j).
Proof.
  intros Hd Hs. case_decide as Hn.
  - intros [= <-]. split; [done|]. intros k s Hk. rewrite Hn. unfold in_ids.
    rewrite bool_decide_eq_false_2 by apply not_elem_of_nil. done.
  - intros E. split; [by eapply steal_submissions_consistent|].
    by apply (steal_submissions_rows _ _ _ _ _ _ Hd E).
Qed.

Lemma not_exhausted_budget max s :
  exhausted max (as_claimed s) = false → job_fits s = true → (jb_retry_count s + 1 ≤ max)%Z.
Proof.
  unfold exhausted, job_fits, fits_add, saturating_succ. simpl.
  rewrite Z.ltb_ge, andb_true_iff, Z.ltb_lt. lia.
Qed.

Lemma claim_submissions_rows server locked now ttl n max seen d rows d' :
  lockstep seen d →
  claim_submissions uuid server locked now ttl n max d = Some (rows, d') →
  ∀ id s, db_submissions d !! id = Some s →
    (s ∉ scanned locked now ttl n d →
       db_submissions d' !! id = Some s ∧ ∀ s', s' ∈ rows → jb_id s' ≠ id)
    ∧ (s ∈ scanned locked now ttl n d → exhausted max (as_claimed s) = true →
       db_submissions d' !! id = Some (exhausted_job max s) ∧ (∀ s', s' ∈ rows → jb_id s' ≠ id)
       ∧ ∃ e m, e ∈ db_dlq d' ∧ dl_message_id e
            = u "dispatch-retry-exhausted-submission-" ++ show id ++ u "-" ++ uuid m)
    ∧ (s ∈ scanned locked now ttl n d → exhausted max (as_claimed s) = false →
       db_submissions d' !! id = Some (steal_job server now s) ∧ steal_job server now s ∈ rows
       ∧ (jb_retry_count s + 1 ≤ max)%Z
       ∧ ∃ k j, db_judgements d !! k = None ∧ db_judgements d' !! k = Some j ∧ opened_for server now s j).
Proof.
  intros Hd. pose proof (cs_submission _ _ _ _ Hd) as Hid. unfold claim_submissions.
  change (claim_rows locked now ttl n (db_submissions d)) with (as_claimed <$> scanned locked now ttl n d).
  set (S0 := scanned locked now ttl n d). set (plan := from_rows _ max).
  intros (d1 & E & (d2 & E2 & [= <- <-])%bind_Some)%bind_Some id s Hs.
  assert (∀ s, s ∈ S0 → ∃ k, db_submissions d !! k = Some s) as HS by (by intros s' [? _]%scan_elem).
  assert (NoDup (jb_id <$> S0)) as HndS by (by apply scan_NoDup).
  apply (claim_steal_rows _ _ _ _ _ _ Hd) in E as [Hd1 H1];
    [|intros i Hi; by eapply (plan_redispatch_row S0 _ max Hid HS)].
  destruct (H1 id s Hs) as [Hs1 Hj1]. clear H1.
  pose proof (plan_redispatch S0 _ max Hid HS id s Hs) as Hids. fold plan in Hids.
  pose proof (plan_exhausted_id S0 _ max Hid HS id s Hs) as Hxid. fold plan in Hxid.
  destruct (exhaust_submissions_rows uuid _ _ _ _ _ E2 (plan_NoDup S0 max HndS) (cs_submission _ _ _ _ Hd1))
    as (I1 & I2 & I3 & I4 & _).
  assert (∀ s', in_ids (cp_redispatch_ids plan) id = false →
    s' ∈ rows_where (λ s, in_ids (cp_redispatch_ids plan) (jb_id s)) (db_submissions d2) → jb_id s' ≠ id) as Hno.
  { intros s' Hf [Hin _]%rows_where_elem <-. congruence. }
  assert (s ∉ S0 ∨ exhausted max (as_claimed s) = true → in_ids (cp_redispatch_ids plan) id = false) as Hf.
  { intros H. apply not_true_iff_false. rewrite Hids. intros [? ?]. destruct H; congruence. }
  split_and!.
  - intros Hn. specialize (Hf (or_introl Hn)). rewrite Hf in Hs1. split; [|auto].
    apply (I1 _ _ Hs1). rewrite Hxid. tauto.
  - intros Hin Hx. specialize (Hf (or_intror Hx)). rewrite Hf in Hs1. split_and!; [|auto|].
    + apply (I2 _ _ (as_claimed s)); [apply plan_exhausted; eauto|done|done|].
      apply (stale_not_terminal (now - ttl)). by apply scan_elem in Hin as (_ & ? & _).
    + destruct (I4 (as_claimed s)) as (e & m & He & Em); [apply plan_exhausted; eauto|].
      rewrite <- (Hid _ _ Hs). exists e, m. split; [done|exact Em].
  - intros Hin Hx. assert (in_ids (cp_redispatch_ids plan) id = true) as Hi by (by apply Hids).
    rewrite Hi in Hs1. destruct (Hj1 Hi) as (Hfit & kj & j & Hnone & Hj & Ho).
    assert (id ∉ cr_id <$> cp_exhausted_rows plan) as Hnx by (rewrite Hxid; intros [_ ?]; congruence).
    split_and!.
    + by apply (I1 _ _ Hs1).
    + apply rows_where_elem. simpl. rewrite (Hid _ _ Hs). split; [done|]. exists id. by apply (I1 _ _ Hs1).
    + by apply not_exhausted_budget.
    + exists kj, j. split_and!; [done| |done]. apply I3; [done|]. destruct Ho as (-> & _). by rewrite (Hid _ _ Hs).
Qed.

(** ** A scan never fails while the counters are in range *)

(** Room for one more attempt in every counter. *)
Definition in_range (d : JudgingDb) : Prop :=
  (∀ k s, db_submissions d !! k = Some s → job_fits s = true)
  ∧ (∀ k j, db_judgements d !! k = Some j → (jd_version j < i32_max)%Z).

Lemma max_version_spec id d k j :
  db_judgements d !! k = Some j → jd_submission j = id →
  ∃ v, max_version id d = Some v ∧ (jd_version j ≤ v)%Z.
Proof.
  intros Hj Hs. assert (j ∈ judgements_of id d) as Hin.
  { apply rows_where_elem. split; [by apply Z.eqb_eq|eauto]. }
  unfold max_version. destruct (judgements_of id d) as [|j0 l]; [by apply not_elem_of_nil in Hin|]. simpl.
  eexists. split; [done|]. apply elem_of_cons in Hin as [->|Hin].
  - clear. induction l; simpl; lia.
  - induction l as [|i l IH]; [by apply not_elem_of_nil in Hin|]. simpl.
    apply elem_of_cons in Hin as [->|?]; [lia|]. specialize (IH H). lia.
Qed.

Lemma max_version_bound id d v b :
  (∀ k j, db_judgements d !! k = Some j → jd_submission j = id → (jd_version j < b)%Z) →
  max_version id d = Some v → (v < b)%Z.
Proof.
  intros Hb. assert (∀ j, j ∈ judgements_of id d → (jd_version j < b)%Z) as Hl.
  { intros j [?%Z.eqb_eq (k & ?)]%rows_where_elem. eauto. }
  unfold max_version. destruct (judgements_of id d) as [|j0 l]; [done|]. simpl. intros [= <-].
  assert (jd_version j0 < b)%Z as H0 by (apply Hl; left).
  assert (∀ j, j ∈ l → (jd_version j < b)%Z) as H1 by (intros; apply Hl; by right). clear Hl.
  induction l as [|i l IH]; simpl; [done|].
  apply Z.max_lub_lt; [apply H1; left|]. apply IH. intros; apply H1; by right.
Qed.

Lemma next_version_fresh id d k j :
  (∀ k j, db_judgements d !! k = Some j → jd_submission j = id → (jd_version j < i32_max)%Z) →
  db_judgements d !! k = Some j → jd_submission j = id → jd_version j ≠ next_version id d.
Proof.
  intros Hb Hj Hs. destruct (max_version_spec id d k j Hj Hs) as (v & Hv & Hle).
  pose proof (max_version_bound id d v _ Hb Hv). unfold next_version. rewrite Hv.
  unfold saturating_succ. simpl. lia.
Qed.

Lemma insert_judgement_total j d : insert_allowed j d = true → is_Some (insert_judgement j d).
Proof.
  intros E. unfold insert_judgement.
  match goal with |- is_Some (if insert_allowed ?i d then _ else _) =>
    change (insert_allowed i d) with (insert_allowed j d) end.
  rewrite E. eauto.
Qed.

Lemma open_judgements_total server now subs d :
  NoDup (jb_id <$> subs) →
  (∀ s k j, s ∈ subs → db_judgements d !! k = Some j → jd_submission j = jb_id s →
     jd_current j = false ∧ (jd_version j < i32_max)%Z) →
  is_Some (open_judgements server now subs d).
Proof.
  revert d. induction subs as [|s subs IH]; intros d; simpl; [eauto|].
  intros [Hn Hnd]%NoDup_cons Hj.
  match goal with |- context [insert_judgement ?x d] => set (j := x) end.
  destruct (insert_judgement_total j d) as [[j' d1] E].
  { apply insert_allowed_spec. intros k i Hi Ei. simpl in Ei. split.
    - eapply next_version_fresh; [|exact Hi|done]. intros k' i' ? ?. eapply Hj; [left|done|done].
    - destruct (Hj s k i) as [-> _]; [left|done..]. }
  rewrite E. simpl. apply IH; [done|]. intros s' k i Hs' Hi Ei.
  apply insert_judgement_Some in E as (_ & _ & Es & _ & _ & _ & ->). simpl in Hi.
  apply lookup_insert_Some in Hi as [[<- <-]|[_ Hi]].
  - rewrite Es in Ei. simpl in Ei. exfalso. apply Hn. rewrite Ei. by apply list_elem_of_fmap_2.
  - eapply Hj; [by right|done|done].
Qed.

Lemma steal_submissions_total server now ids seen d :
  lockstep seen d → in_range d → is_Some (steal_submissions server now ids d).
Proof.
  intros Hd [Hs Hv]. unfold steal_submissions.
  destruct (open_judgements_total server now
              (rows_where (λ s, in_ids ids (jb_id s)) (db_submissions d)) (demote ids d)) as [d1 E].
  - apply rows_where_NoDup, (cs_submission _ _ _ _ Hd).
  - intros s k j [Hin _]%rows_where_elem. simpl. rewrite set_where_lookup.
    destruct (db_judgements d !! k) as [j0|] eqn:Hk; [|done]. simpl. intros [= <-].
    destruct (in_ids ids (jd_submission j0) && jd_current j0) eqn:EP; simpl; intros Ej.
    + split; [done|]. by eapply Hv.
    + rewrite Ej, Hin in EP. split; [done|]. by eapply Hv.
  - unfold open_stolen_submission_judgements. rewrite E. simpl.
    assert (∃ t, checked_set_where (λ s, in_ids ids (jb_id s)) job_fits (steal_job server now)
                   (db_submissions d1) = Some t) as [t Et].
    { eexists. apply checked_set_where_Some. split; [|done]. intros k r Hk _.
      rewrite (open_judgements_submissions _ _ _ _ _ E) in Hk. by eapply Hs. }
    change (db_submissions (clear_current_submission_results ids d1)) with (db_submissions d1).
    rewrite Et. simpl. eauto.
Qed.

Lemma exhaust_submissions_total now max rows d :
  NoDup (cr_id <$> rows) →
  (∀ row k s, row ∈ rows → db_submissions d !! k = Some s → jb_id s = cr_id row → fits_add (jb_retry_count s) = true) →
  is_Some (exhaust_submissions uuid now max rows d).
Proof.
  revert d. induction rows as [|row rows IH]; intros d; simpl; [eauto|]. intros [Hn Hnd]%NoDup_cons Hf.
  assert (∃ d1, exhaust_submission uuid now max row d = Some d1) as [d1 E].
  { unfold exhaust_submission, count_exhausted. eexists. apply bind_Some. eexists. split; [|done].
    apply checked_set_where_Some. split; [|done]. intros k r. simpl. rewrite set_where_lookup.
    assert (∀ e d, db_submissions (create_entry e d) = db_submissions d) as ->
      by (intros; unfold create_entry; by case_decide). simpl.
    destruct (db_submissions d !! k) as [s|] eqn:Hk; [|done]. simpl. intros [= <-] [Ei%Z.eqb_eq _]%andb_true_iff.
    assert (fits_add (jb_retry_count s) = true) as Hfs.
    { apply (Hf row k); [left|done|]. by case_match. }
    by case_match. }
  rewrite E. simpl. apply IH; [done|]. intros r k s1 Hr Hk Ei.
  assert (frame d d1) as (Rs & _ & _).
  { apply (frame_exhaust_submissions uuid now max [row]). simpl. by rewrite E. }
  destruct (rowwise_lookup _ _ _ _ _ Rs Hk) as (s & Hs & [Eid _]).
  destruct (exhaust_submission_rows uuid _ _ _ _ _ E) as (H1 & _).
  assert (jb_id s ≠ cr_id row) as Hne.
  { intros E'. apply Hn. rewrite <- E', <- Eid, Ei. by apply list_elem_of_fmap_2. }
  rewrite (H1 _ _ Hs Hne) in Hk. simplify_eq. by eapply Hf; [right|..].
Qed.

Lemma claim_submissions_total server locked now ttl n max seen d :
  lockstep seen d → in_range d →
  is_Some (claim_submissions uuid server locked now ttl n max d).
Proof.
  intros Hd Hr. pose proof (cs_submission _ _ _ _ Hd) as Hid. unfold claim_submissions.
  change (claim_rows locked now ttl n (db_submissions d)) with (as_claimed <$> scanned locked now ttl n d).
  set (S0 := scanned locked now ttl n d). set (plan := from_rows _ max).
  assert (∀ s, s ∈ S0 → ∃ k, db_submissions d !! k = Some s) as HS by (by intros s' [? _]%scan_elem).
  assert (∃ d1, (if decide (cp_redispatch_ids plan = []) then Some d
                 else steal_submissions server now (cp_redispatch_ids plan) d) = Some d1) as [d1 E].
  { case_decide; [eauto|]. destruct (steal_submissions_total server now (cp_redispatch_ids plan) seen d Hd Hr).
    eauto. }
  rewrite E. simpl.
  apply (claim_steal_rows _ _ _ _ _ _ Hd) in E as [Hd1 H1];
    [|intros i Hi; by eapply (plan_redispatch_row S0 _ max Hid HS)].
  destruct (exhaust_submissions_total now max (cp_exhausted_rows plan) d1) as [d2 E2];
    [| |eexists; apply bind_Some; exists d2; split; [exact E2|done]].
  - apply plan_NoDup. by apply scan_NoDup.
  - intros row k s1 Hrow Hk Ei. apply plan_exhausted in Hrow as (s & Hs & -> & Hx). simpl in Ei.
    destruct (HS s Hs) as (k' & Hk'). rewrite (Hid _ _ Hk') in Ei.
    pose proof (cs_submission _ _ _ _ Hd1 _ _ Hk) as Ek. assert (k = k') as -> by congruence.
    destruct (H1 _ _ Hk') as [H2 _].
    destruct (in_ids (cp_redispatch_ids plan) k') eqn:Ein.
    + apply (plan_redispatch S0 _ max Hid HS _ _ Hk') in Ein as [_ ?]. congruence.
    + simplify_eq. destruct Hr as [Hr _]. specialize (Hr _ _ Hk').
      unfold job_fits in Hr. by apply andb_true_iff in Hr as [? _].
Qed.

(** ** Claims *)

(** C26. A scan for expired leases treats every submission in exactly one of three
    ways.  One whose lease expired and that has attempts left is dispatched again:
    one epoch and one attempt on, never beyond the limit, without output, and with
    a new current judgement of that epoch.  One without attempts left ends as a
    system error, with a dead letter.  Every other one is left alone. *)
Theorem steal_outcome server locked now ttl n max w rows d' :
  rtc (step uuid) empty_world w →
  claim_submissions uuid server locked now ttl n max (w_db w) = Some (rows, d') →
  ∀ id s, db_submissions (w_db w) !! id = Some s →
    (s ∉ scanned locked now ttl n (w_db w) ∧
       db_submissions d' !! id = Some s ∧ ∀ s', s' ∈ rows → jb_id s' ≠ id)
    ∨ (s ∈ scanned locked now ttl n (w_db w) ∧ (Z.min max i32_max ≤ jb_retry_count s)%Z ∧
       db_submissions d' !! id = Some (exhausted_job max s) ∧ (∀ s', s' ∈ rows → jb_id s' ≠ id)
       ∧ ∃ e m, e ∈ db_dlq d' ∧ dl_message_id e
            = u "dispatch-retry-exhausted-submission-" ++ show id ++ u "-" ++ uuid m)
    ∨ (s ∈ scanned locked now ttl n (w_db w) ∧ (jb_retry_count s + 1 ≤ max)%Z ∧
       db_submissions d' !! id = Some (steal_job server now s) ∧ steal_job server now s ∈ rows
       ∧ ∃ k j, db_judgements (w_db w) !! k = None ∧ db_judgements d' !! k = Some j
                ∧ opened_for server now s j).
Proof.
  intros Hw%reachable_consistent E id s Hs.
  destruct (claim_submissions_rows _ _ _ _ _ _ _ _ _ _ Hw E id s Hs) as (H1 & H2 & H3).
  destruct (decide (s ∈ scanned locked now ttl n (w_db w))) as [Hin|Hn]; [|by left; auto].
  right. destruct (exhausted max (as_claimed s)) eqn:Ex; [left|right].
  - destruct (H2 Hin eq_refl) as (? & ? & ?). split_and!; [done| |done..].
    unfold exhausted, saturating_succ in Ex. simpl in Ex. apply Z.ltb_lt in Ex. lia.
  - destruct (H3 Hin eq_refl) as (? & ? & ? & ?). done.
Qed.

Lemma orphaned_in_range server d : in_range d → in_range (recover_orphaned_leases server d).
Proof.
  intros [Hs Hj]. split; simpl; intros k r; rewrite set_where_lookup.
  - destruct (db_submissions d !! k) as [s|] eqn:E; [|done]. simpl. intros [= <-].
    specialize (Hs _ _ E). by case_match.
  - destruct (db_judgements d !! k) as [j|] eqn:E; [|done]. simpl. intros [= <-].
    specialize (Hj _ _ E). by case_match.
Qed.

(** The rows a scan takes up to the age of [s]. *)
Definition as_old (locked : Z → bool) (now ttl : Z) (s : JobRow) (d : JudgingDb) : list JobRow :=
  filter (λ r, (jb_created_at r ≤ jb_created_at s)%Z)
    (rows_where (λ r, stale_job (now - ttl) r && negb (locked (jb_id r))) (db_submissions d)).

(** A scan takes the oldest rows, so it reaches a row when no more than a batch are
    as old. *)
Lemma scanned_reaches locked now ttl n d k s :
  db_submissions d !! k = Some s → stale_job (now - ttl) s = true → locked (jb_id s) = false →
  length (as_old locked now ttl s d) ≤ n → s ∈ scanned locked now ttl n d.
Proof.
  intros Hs Hst Hl Hn. unfold scanned, scan. unfold as_old in Hn. set (rows := rows_where _ _) in *.
  assert (s ∈ rows) as Hin by (apply rows_where_elem; rewrite Hst, Hl; eauto). clearbody rows. clear Hs.
  rewrite <-(sort_by_key_perm jb_created_at rows) in Hin, Hn. pose proof (sort_by_key_sorted jb_created_at rows) as Hsort.
  revert Hin Hn Hsort. generalize (sort_by_key jb_created_at rows) as l. clear. intros l Hin Hn Hsort.
  revert n Hn. induction l as [|r l IH]; intros n Hn; [by apply elem_of_nil in Hin|].
  apply StronglySorted_inv in Hsort as [Hsort Hr]. rewrite Forall_forall in Hr.
  assert (jb_created_at r ≤ jb_created_at s)%Z as Hle.
  { apply elem_of_cons in Hin as [->|Hin]; [lia|]. apply Z.leb_le, (Hr _ Hin). }
  rewrite filter_cons, decide_True in Hn by done. destruct n as [|n]; simpl in Hn; [lia|]. simpl.
  apply elem_of_cons in Hin as [->|Hin]; [left|right; apply IH; [done|done|lia]].
Qed.

(** C27. No submission is lost with its server.  Once its lease has expired, or the
    server came back after a crash and gave it up, the scan of any server that
    reaches the submission - its row is not locked, and no more than a batch of
    expired submissions that are not locked are as old - dispatches it again or
    reports it as a dead letter.  The scan cannot fail while epochs, versions and
    attempts are in range. *)
Theorem lost_server_recovered w d dead server locked now ttl n max id s :
  rtc (step uuid) empty_world w → in_range (w_db w) →
  db_submissions (w_db w) !! id = Some s →
  ls_owner (jb_lease s) = Some dead → is_leased (jb_status s) = true →
  d = recover_orphaned_leases dead (w_db w)
  ∨ d = w_db w ∧ lease_expired (now - ttl) (jb_lease s) (jb_created_at s) = true →
  locked id = false → length (as_old locked now ttl s d) ≤ n →
  ∃ rows d' s',
    claim_submissions uuid server locked now ttl n max d = Some (rows, d')
    ∧ db_submissions d' !! id = Some s'
    ∧ (s' ∈ rows ∧ jb_status s' = PendingSubmission ∧ jb_lease s' = lease_of server now
         ∧ jb_epoch s' = (jb_epoch s + 1)%Z ∧ jb_outcome s' = no_outcome
       ∨ jb_status s' = SystemErrorStatus ∧ ∃ e m, e ∈ db_dlq d' ∧ dl_message_id e
            = u "dispatch-retry-exhausted-submission-" ++ show id ++ u "-" ++ uuid m).
Proof.
  intros Hw%reachable_consistent Hr Hs Ho Hl Hd Hlk Hn.
  assert (∃ l, lockstep (w_seen w) d ∧ in_range d ∧ db_submissions d !! id = Some (job_with_lease l s)
    ∧ stale_job (now - ttl) (job_with_lease l s) = true) as (l & Hw' & Hr' & Hs1 & Hst).
  { destruct Hd as [-> | [-> Hx]].
    - exists (orphan_lease dead). split_and!; [|by apply orphaned_in_range| |].
      + eapply consistent_frame in Hw; [exact Hw|apply (frame_orphans dead)].
      + simpl. rewrite set_where_lookup, Hs. simpl. unfold owned_by. rewrite Ho, bool_decide_eq_true_2, Hl; done.
      + unfold stale_job. simpl. by rewrite Hl.
    - exists (jb_lease s). split_and!; [done|done|by destruct s|]. unfold stale_job. simpl. by rewrite Hl. }
  destruct (claim_submissions_total server locked now ttl n max _ _ Hw' Hr') as [[rows d'] E].
  pose proof (scanned_reaches locked now ttl n d id _ Hs1 Hst) as Hin.
  rewrite (cs_submission _ _ _ _ Hw' _ _ Hs1) in Hin. specialize (Hin Hlk Hn).
  destruct (claim_submissions_rows _ _ _ _ _ _ _ _ _ _ Hw' E id _ Hs1) as (_ & H2 & H3).
  exists rows, d'. destruct (exhausted max (as_claimed (job_with_lease l s))) eqn:Ex.
  - destruct (H2 Hin eq_refl) as (? & ? & ?). eexists. split_and!; [done..|]. by right.
  - destruct (H3 Hin eq_refl) as (? & ? & ? & ?). eexists. split_and!; [done..|]. left. done.
Qed.
End claim.

(** * What drivers write, and which rows the detector recovers *)

(** ** One row of a table *)

Lemma rows_where_single {A} (P : A → bool) (t : gmap Z A) k r :
  t !! k = Some r → P r = true → (∀ k' r', t !! k' = Some r' → P r' = true → k' = k) →
  rows_where P t = [r].
Proof.
  intros Hk HP Hu. unfold rows_where.
  assert ((map_to_list t).*2 ≡ₚ r :: (map_to_list (delete k t)).*2) as Hp.
  { rewrite <- (insert_delete_id t k r Hk) at 1. rewrite map_to_list_insert by apply lookup_delete_eq. done. }
  apply Permutation_singleton_r. rewrite Hp, filter_cons_True by done. rewrite filter_none; [done|].
  intros r' ([k' r2] & -> & Hin%elem_of_map_to_list)%list_elem_of_fmap HP'. simpl in *.
  apply lookup_delete_Some in Hin as [Hne Hin]. by specialize (Hu _ _ Hin HP').
Qed.

Lemma set_where_only {A} (P : A → bool) f (t : gmap Z A) k r :
  t !! k = Some r → P r = true → (∀ k' r', t !! k' = Some r' → P r' = true → k' = k) →
  set_where P f t = <[k := f r]> t.
Proof.
  intros Hk HP Hu. apply map_eq. intros i. rewrite set_where_lookup. destruct (decide (i = k)) as [->|Hne].
  - rewrite Hk, lookup_insert_eq. simpl. by rewrite HP.
  - rewrite lookup_insert_ne by done. destruct (t !! i) as [r'|] eqn:Hi; [|done]. simpl.
    destruct (P r') eqn:HP'; [|done]. destruct Hne. eauto.
Qed.

(** The submission shows what its judgement says. *)
Definition cached (j : JudgementRow) (s : JobRow) : Prop :=
  jb_status s = jd_status j ∧ jb_outcome s = jd_outcome j.

Section recovery.
Context (uuid : nat → ustring).

(** The driver of the current judgement is heard: an update whose two statements
    nothing separates is written to the judgement and to the submission that caches
    it, so that the two agree before and after; a terminal status closes the
    judgement.  No other row changes. *)
Theorem update_keeps_cache w j s up now :
  rtc (step uuid) empty_world w →
  db_judgements (w_db w) !! su_judgement_id up = Some j →
  db_submissions (w_db w) !! su_submission_id up = Some s →
  jd_submission j = su_submission_id up → jd_epoch j = su_judge_epoch up →
  jd_current j = true → jd_finalized j = false → not_terminal (jb_status s) = true → cached j s →
  guest_status up = true → names_no_column up = false →
  ∃ d' j' s', submission_update up now (w_db w) = Some (1, d')
    ∧ d' = with_submissions (<[su_submission_id up := s']> (db_submissions (w_db w)))
             (with_judgements (<[su_judgement_id up := j']> (db_judgements (w_db w))) (w_db w))
    ∧ cached j' s' ∧ jb_status s' = default (jb_status s) (su_status up)
    ∧ jb_outcome s' = judge_sets up now (jb_outcome s) ∧ jb_epoch s' = jb_epoch s
    ∧ jd_finalized j' = is_terminal_marker up ∧ jd_current j' = true ∧ jd_epoch j' = jd_epoch j.
Proof.
  intros Hw%reachable_consistent Hj Hs Esub Ee Hc Hf Hnt [Est Eo] Hg Hcol. set (d := w_db w) in *.
  destruct (cs_judgement _ _ _ _ Hw _ _ Hj) as [Ej _].
  pose proof (cs_submission _ _ _ _ Hw _ _ Hs) as Es.
  assert (jb_epoch s = su_judge_epoch up) as Eep.
  { rewrite <- Ee, (cs_lockstep _ _ _ _ Hw _ _ s Hj Hc); [done|by rewrite Esub]. }
  assert (writable up d j = true) as Hwr.
  { unfold writable. by rewrite Ej, Ee, !Z.eqb_refl, Hf, Hc. }
  assert (∀ k i, db_judgements d !! k = Some i → writable up d i = true → k = su_judgement_id up) as Hwo.
  { intros k i Hi Hwi. unfold writable in Hwi. rewrite !andb_true_iff, !Z.eqb_eq in Hwi.
    destruct (cs_judgement _ _ _ _ Hw _ _ Hi). destruct Hwi as [[[? _] _] _]. congruence. }
  set (j' := write_judgement up now j).
  set (s' := job_with_outcome (default (jb_status s) (su_status up)) (judge_sets up now (jb_outcome s)) s).
  exists (with_submissions (<[su_submission_id up := s']> (db_submissions d))
            (with_judgements (<[su_judgement_id up := j']> (db_judgements d)) d)), j', s'.
  split; [|unfold cached; simpl; rewrite Est, Eo, Hf, orb_false_r; done].
  unfold submission_update. rewrite Hg, Hcol. simpl. unfold update_judgement_row.
  rewrite (rows_where_single _ _ _ _ Hj Hwr Hwo). simpl.
  unfold update_submission_row, update_judgements, update_submissions. simpl.
  rewrite (set_where_only _ _ _ _ _ Hj Hwr Hwo). fold j'.
  rewrite (set_where_only _ _ _ _ _ Hs); [done| |].
  - rewrite Es, Eep, !Z.eqb_refl, Hnt. simpl.
    rewrite (rows_where_single _ _ (su_judgement_id up) j'); [done|by rewrite lookup_insert_eq| |].
    + unfold j'. simpl. by rewrite Ej, Esub, Ee, !Z.eqb_refl, Hc.
    + intros k' i Hi E. rewrite !andb_true_iff, Z.eqb_eq in E. destruct E as [[[E _] _] _].
      apply lookup_insert_Some in Hi as [[? _]|[_ Hi]]; [done|].
      destruct (cs_judgement _ _ _ _ Hw _ _ Hi). congruence.
  - intros k r Hr E. rewrite !andb_true_iff, Z.eqb_eq in E. destruct E as [[[E _] _] _].
    by rewrite (cs_submission _ _ _ _ Hw _ _ Hr) in E.
Qed.

(** The query of the stuck-row detector and the check it repeats under the lock
    are the same condition: a row that the scan finds is recovered unless someone
    touched it in between, and a row it does not find is never recovered. *)
Theorem stuck_scan_exact now stale_threshold cap status lease created_at :
  stuck_candidate now stale_threshold cap status lease created_at = true
  ↔ disposition now status lease created_at stale_threshold cap = Recover.
Proof.
  unfold stuck_candidate, disposition, stuck_disposition, inflight_capped.
  destruct lease as [owner heartbeat leased_at]. simpl.
  destruct status; simpl; repeat (case_decide; try done);
    destruct owner; repeat (case_bool_decide; try done); simpl; repeat case_match; simplify_eq; try done;
    rewrite ?orb_true_r, ?orb_false_r in *; simpl in *; try congruence.
Qed.
End recovery.

(** ** A submission whose server is lost, and runs that go wrong
    One run of the world - accepted, claimed by server a, judged, stolen by server
    b while a still writes - at which the claims are applied, and runs that show
    where an error path reaches further than the judgement it is about. *)

Definition uuid0 (n : nat) : ustring := u "uuid-" ++ show (Z.of_nat n).

Definition no_lock (_ : Z) : bool := false.

Definition db_of {A} (o : option (A * JudgingDb)) : JudgingDb :=
  match o with Some (_, d) => d | None => w_db empty_world end.

Definition rows_of {A} (o : option (list A * JudgingDb)) : list A :=
  match o with Some (rows, _) => rows | None => [] end.

Lemma db_of_Some {A} (o : option (list A * JudgingDb)) :
  bool_decide (is_Some o) = true → o = Some (rows_of o, db_of o).
Proof. destruct o as [[]|]; [done|]. by vm_compute. Qed.

(** ** A run *)

Definition world_with (d : JudgingDb) (seen : list JobRow) : World := {| w_db := d; w_seen := seen |}.

Definition server_a : ustring := u "a".
Definition server_b : ustring := u "b".

Definition d1 : JudgingDb := create_submission 1 None 0 (w_db empty_world).
Definition claim_a := claim_queued_submissions server_a no_lock 10 5 d1.
Definition d2 : JudgingDb := db_of claim_a.
Definition seen2 : list JobRow := rows_of claim_a.
Definition sub2 : JobRow := new_submission 1 None 0.
Definition ensure_a := ensure_active_judgement_id (hd sub2 seen2) 11 d2.
Definition d3 : JudgingDb := ensure_a.2.
Definition steal_b := claim_submissions uuid0 server_b no_lock 100 5 5 3 d3.
Definition d4 : JudgingDb := db_of steal_b.
Definition seen4 : list JobRow := rows_of steal_b.

Lemma step_d2 : step uuid0 (world_with d1 []) (world_with d2 (seen2 ++ [])).
Proof. refine (step_claim_queued _ server_a no_lock 10 5 d1 _ _ _ (db_of_Some claim_a _)). by_vm. Qed.

Lemma steal_b_Some : steal_b = Some (seen4, d4).
Proof. refine (db_of_Some steal_b _). by_vm. Qed.

Lemma step_d4 : step uuid0 (world_with d3 (seen2 ++ [])) (world_with d4 (seen4 ++ seen2 ++ [])).
Proof. exact (step_steal _ server_b no_lock 100 5 5 3 _ _ _ _ steal_b_Some). Qed.

Lemma reach_d3 : rtc (step uuid0) empty_world (world_with d3 (seen2 ++ [])).
Proof.
  eapply rtc_l; [apply (step_create _ 1 None 0); [done|intros k j H; simpl in H; by rewrite lookup_empty in H]|].
  eapply rtc_l; [exact step_d2|].
  eapply rtc_l; [|apply rtc_refl].
  apply (step_ensure _ (hd sub2 seen2) 11 d2 _ ensure_a.1); [left|reflexivity].
Qed.

(** The update that ends a judgement. *)
Definition accepted_by (judgement epoch : Z) : SubmissionUpdate := {|
  su_submission_id := 1; su_judgement_id := judgement; su_judge_epoch := epoch; su_status := Some Judged;
  su_verdict := Some (Some Accepted); su_score := None; su_time_used := None; su_memory_used := None;
  su_compile_output := None; su_error_code := None; su_error_message := None |}.

Example run_statuses :
  (jb_status <$> db_submissions d3 !! 1%Z, jb_epoch <$> db_submissions d3 !! 1%Z,
   jb_epoch <$> db_submissions d4 !! 1%Z, jd_current <$> db_judgements d4 !! 1%Z,
   (λ j, (jd_current j, jd_epoch j)) <$> db_judgements d4 !! 2%Z)
  = (Some PendingSubmission, Some 0%Z, Some 1%Z, Some false, Some (true, 1%Z)).
Proof. by_vm. Qed.

(** ** Witnesses *)

Definition judgement_a : JudgementRow :=
  default (fresh_judgement 0 0 0 false Queued None None no_lease 0) (db_judgements d3 !! 1%Z).
Definition job_a : JobRow := default sub2 (db_submissions d3 !! 1%Z).

Lemma reachable_lockstep_witness : jd_epoch judgement_a = jb_epoch job_a.
Proof.
  apply (proj1 (proj2 (reachable_lockstep uuid0 (world_with d3 (seen2 ++ [])) reach_d3)) 1%Z judgement_a job_a);
    by_vm.
Defined.

Lemma late_writes_never_land_witness :
  db_submissions (update_submission_row (accepted_by 1 0) 200 d4) = db_submissions d4
  ∧ db_submissions (update_judgement_row (accepted_by 1 0) 200 d4).2 = db_submissions d4
  ∧ (∀ k', k' ≠ 1%Z → db_judgements (update_judgement_row (accepted_by 1 0) 200 d4).2 !! k'
                        = db_judgements d4 !! k')
  ∧ ∀ s code message,
      db_submissions d4 !! 1%Z = Some s → jb_epoch s ≠ 0%Z →
      db_submissions (mark_submission_dispatch_system_error 1 1 code message 0 200 d4) = db_submissions d4
      ∧ ∀ k', k' ≠ 1%Z → db_judgements (mark_submission_dispatch_system_error 1 1 code message 0 200 d4) !! k'
                         = db_judgements d4 !! k'.
Proof.
  apply (late_writes_never_land uuid0 1 (world_with d3 (seen2 ++ [])) (world_with d4 (seen4 ++ seen2 ++ []))
    (world_with d4 (seen4 ++ seen2 ++ [])) 1 judgement_a (accepted_by 1 0) 200).
  - exact reach_d3.
  - exact step_d4.
  - eapply (takeover_steal uuid0 1 d3 d4 server_b no_lock 100 5 5 3 seen4 (hd sub2 seen4)).
    + exact steal_b_Some.
    + left.
    + by_vm.
  - apply rtc_refl.
  - by_vm.
  - by_vm.
  - by_vm.
  - by_vm.
  - by_vm.
  - by_vm.
Defined.

Lemma update_keeps_cache_witness :
  ∃ d' j' s', submission_update (accepted_by 1 0) 20 d3 = Some (1, d')
    ∧ d' = with_submissions (<[1%Z := s']> (db_submissions d3))
             (with_judgements (<[1%Z := j']> (db_judgements d3)) d3)
    ∧ cached j' s' ∧ jb_status s' = Judged
    ∧ jb_outcome s' = judge_sets (accepted_by 1 0) 20 (jb_outcome job_a) ∧ jb_epoch s' = jb_epoch job_a
    ∧ jd_finalized j' = true ∧ jd_current j' = true ∧ jd_epoch j' = jd_epoch judgement_a.
Proof.
  apply (update_keeps_cache uuid0 (world_with d3 (seen2 ++ [])) judgement_a job_a (accepted_by 1 0) 20);
    [exact reach_d3|by_vm..| |by_vm|by_vm].
  split; by_vm.
Defined.

Lemma steal_outcome_witness :
    (job_a ∉ scanned no_lock 100 5 5 d3 ∧
       db_submissions d4 !! 1%Z = Some job_a ∧ ∀ s', s' ∈ seen4 → jb_id s' ≠ 1%Z)
    ∨ (job_a ∈ scanned no_lock 100 5 5 d3 ∧ (3 ≤ jb_retry_count job_a)%Z ∧
       db_submissions d4 !! 1%Z = Some (exhausted_job 3 job_a) ∧ (∀ s', s' ∈ seen4 → jb_id s' ≠ 1%Z)
       ∧ ∃ e m, e ∈ db_dlq d4 ∧ dl_message_id e
            = u "dispatch-retry-exhausted-submission-" ++ show 1%Z ++ u "-" ++ uuid0 m)
    ∨ (job_a ∈ scanned no_lock 100 5 5 d3 ∧ (jb_retry_count job_a + 1 ≤ 3)%Z ∧
       db_submissions d4 !! 1%Z = Some (steal_job server_b 100 job_a) ∧ steal_job server_b 100 job_a ∈ seen4
       ∧ ∃ k j, db_judgements d3 !! k = None ∧ db_judgements d4 !! k = Some j
                ∧ opened_for server_b 100 job_a j).
Proof.
  apply (steal_outcome uuid0 server_b no_lock 100 5 5 3 (world_with d3 (seen2 ++ [])) seen4 d4).
  - exact reach_d3.
  - exact steal_b_Some.
  - by_vm.
Defined.

Lemma d3_in_range : in_range d3.
Proof.
  split.
  - intros k s Hk. assert (map_Forall (λ _ s, job_fits s = true) (db_submissions d3)) as H by by_decide.
    by eapply H.
  - intros k j Hk. assert (map_Forall (λ _ j, (jd_version j < i32_max)%Z) (db_judgements d3)) as H by by_decide.
    by eapply (H k).
Qed.

Lemma lost_server_recovered_witness :
  ∃ rows d' s',
    claim_submissions uuid0 server_b no_lock 50 5 5 3 (recover_orphaned_leases server_a d3)
      = Some (rows, d')
    ∧ db_submissions d' !! 1%Z = Some s'
    ∧ (s' ∈ rows ∧ jb_status s' = PendingSubmission ∧ jb_lease s' = lease_of server_b 50
         ∧ jb_epoch s' = (jb_epoch job_a + 1)%Z ∧ jb_outcome s' = no_outcome
       ∨ jb_status s' = SystemErrorStatus ∧ ∃ e m, e ∈ db_dlq d' ∧ dl_message_id e
            = u "dispatch-retry-exhausted-submission-" ++ show 1%Z ++ u "-" ++ uuid0 m).
Proof.
  apply (lost_server_recovered uuid0 (world_with d3 (seen2 ++ [])) (recover_orphaned_leases server_a d3) server_a
    server_b no_lock 50 5 5 3 1 job_a).
  - exact reach_d3.
  - exact d3_in_range.
  - by_vm.
  - by_vm.
  - by_vm.
  - by left.
  - done.
  - apply Nat.leb_le. by_vm.
Defined.

(** ** Runs that go wrong *)

(** A judgement that is rejudged without being applied, claimed, and overtaken by
    a steal of the submission. *)
Definition e1 : JudgingDb := default d3 (rejudge_submission 1 7 None false 12 d3).
Definition e2 : JudgingDb := db_of (claim_queued_judgements server_a no_lock 13 5 e1).
Definition e3 : JudgingDb := db_of (claim_submissions uuid0 server_b no_lock 100 5 5 3 e2).

(** The dispatch of the deferred judgement, number 2 at epoch 1, fails. *)
Definition e4 : JudgingDb :=
  mark_submission_dispatch_system_error 1 2 (u "DISPATCH_FAILED") (u "no worker") 1 101 e3.

(** Judgements of one submission can share an epoch, and the errors of a dispatch
    are matched by submission and epoch: the failure of a deferred rejudge ends the
    current judgement, another one, that server b is working on. *)
Theorem deferred_failure_ends_current_judgement :
  (λ j, (jd_current j, jd_epoch j, jd_finalized j, jd_status j)) <$> db_judgements e3 !! 2%Z
    = Some (false, 1%Z, false, PendingSubmission)
  ∧ (λ j, (jd_current j, jd_epoch j, jd_finalized j, jd_status j)) <$> db_judgements e3 !! 3%Z
    = Some (true, 1%Z, false, PendingSubmission)
  ∧ (λ j, (jd_current j, jd_epoch j, jd_finalized j, jd_status j)) <$> db_judgements e4 !! 3%Z
    = Some (true, 1%Z, true, SystemErrorStatus)
  ∧ jb_status <$> db_submissions e4 !! 1%Z = Some SystemErrorStatus
  ∧ (λ o, o.1) <$> submission_update (accepted_by 3 1) 102 e4 = Some 0.
Proof. split_and!; by_vm. Qed.

(** The steal clears the results of the judgement it just opened: those of the
    abandoned one stay. *)
Definition result_of (judgement epoch : Z) : TestCaseResultRow := {|
  tr_submission_id := 1; tr_judgement_id := judgement; tr_judge_epoch := epoch; tr_test_case_id := Some 1%Z;
  tr_run_index := Some 0%Z; tr_verdict := Accepted; tr_score := f_zero; tr_time_used := None;
  tr_memory_used := None; tr_message := None; tr_stdout := None; tr_stderr := None |}.

Definition f3 : JudgingDb := submission_insert_results [result_of 1 0] d3.
Definition f4 : JudgingDb := db_of (claim_submissions uuid0 server_b no_lock 100 5 5 3 f3).

Theorem stolen_results_stay :
  tr_judgement_id <$> db_results f3 = [1%Z] ∧ tr_judgement_id <$> db_results f4 = [1%Z].
Proof. split; by_vm. Qed.

(** A dead letter with a fixed message id is written once: when operators resolved
    it, the next time the row is given up the detector reports a new entry, but
    there is none. *)
Theorem resolved_dead_letter_hides_the_next id type sub message d e :
  e ∈ db_dlq d → dl_message_id e = id →
  (∀ e', e' ∈ db_dlq d → dl_message_id e' = id → dl_resolved e' = true) →
  create_unresolved_stuck_dlq_entry id type sub message d = (true, d).
Proof.
  intros He Eid Hr. unfold create_unresolved_stuck_dlq_entry.
  destruct (existsb _ _) eqn:Ex.
  - apply existsb_exists in Ex as (e' & Hin%list_elem_of_In & Hb).
    apply andb_true_iff in Hb as [Hid%bool_decide_eq_true Hn%negb_true_iff].
    rewrite (Hr e') in Hn; done.
  - unfold create_entry. rewrite decide_True; [done|]. simpl. rewrite <- Eid. by apply list_elem_of_fmap_2.
Qed.

Lemma resolved_dead_letter_hides_the_next_witness :
  create_unresolved_stuck_dlq_entry (stuck_code_run_message_id 4) StuckCodeRun None (u "again")
    (with_dlq [{| dl_message_id := stuck_code_run_message_id 4; dl_type := StuckCodeRun; dl_submission := None;
                  dl_error_code := STUCK_JOB; dl_error_message := u "first"; dl_resolved := true |}] d3)
  = (true, with_dlq [{| dl_message_id := stuck_code_run_message_id 4; dl_type := StuckCodeRun;
                        dl_submission := None; dl_error_code := STUCK_JOB; dl_error_message := u "first";
                        dl_resolved := true |}] d3).
Proof.
  eapply (resolved_dead_letter_hides_the_next (stuck_code_run_message_id 4)); [left|reflexivity|].
  intros e' ->%list_elem_of_singleton _. reflexivity.
Defined.
