(* ===== verification/IoiTokens.v ===== *)
(** * IoiTokens: tokens and feedback of IOI contests

    plugins/ioi/src/tokens.rs, feedback.rs and [load_token_state] of lib.rs: how
    many tokens a contestant has, and what of a submission a viewer may see.  What
    the database answers is an argument. *)

From S2P Require Import Prelude Text Float Verdict Sdk Host VisibilityApi BracketGate Icpc Ioi.

Open Scope machine_scope.

(** ** Unsigned integers *)

Definition wrap_u32 (z : Z) : Z := (z mod 2 ^ 32)%Z.
Definition wrap_u64 (z : Z) : Z := (z mod 2 ^ 64)%Z.

(** [saturating_sub] of unsigned integers. *)
Definition sat_sub (x y : Z) : Z := Z.max 0 (x - y).

(** [x as u64]: towards zero, saturating, and 0 for NaN. *)
Definition f_to_u64 (x : f64) : Z :=
  match x with
  | SpecFloat.S754_finite false m e =>
      Z.min u64_max (if (0 <=? e)%Z then Z.pos m * 2 ^ e else Z.pos m / 2 ^ (- e))
  | SpecFloat.S754_infinity false => u64_max
  | _ => 0%Z
  end.

(** ** Tokens (tokens.rs) *)

Record TokenState := {
  ts_used : Z;
  ts_tokened_submission_ids : list Z;
}.

(** [TokenState::default()]. *)
Definition token_state_default : TokenState := {| ts_used := 0; ts_tokened_submission_ids := [] |}.

Definition regen_interval (config : TokenConfig) : Z := Z.max 1 (tk_regen_interval_min config).

(** The tokens handed out after [elapsed_minutes], before the cap. *)
Definition regenerated (config : TokenConfig) (elapsed_minutes : Z) : Z :=
  elapsed_minutes / regen_interval config.

Definition regenerated_total (config : TokenConfig) (elapsed_minutes : Z) : Z :=
  Z.min (wrap_u64 (tk_initial config + regenerated config elapsed_minutes)) (tk_max config).

Definition available_tokens (config : TokenConfig) (state : TokenState) (elapsed_minutes : Z) : Z :=
  match tk_mode config with
  | NoTokens => u32_max
  | FixedBudget => sat_sub (tk_initial config) (ts_used state)
  | Regenerating => sat_sub (wrap_u32 (regenerated_total config elapsed_minutes)) (ts_used state)
  end.

Definition next_regen_elapsed_min (config : TokenConfig) (elapsed_minutes : Z) : option Z :=
  match tk_mode config with
  | NoTokens | FixedBudget => None
  | Regenerating =>
      if (tk_max config <=? regenerated_total config elapsed_minutes)%Z then None
      else Some (wrap_u64 (wrap_u64 (regenerated config elapsed_minutes + 1) * regen_interval config))
  end.

Definition token_key (contest_id user_id : Z) : ustring :=
  u "tokens:" ++ show contest_id ++ [58%Z] ++ show user_id.

(** [serde_json::from_str(json).unwrap_or_default()]. *)
Definition parse_token_state `{Serde TokenState} (json : ustring) : TokenState :=
  match from_json json with Ok state => state | Err _ => token_state_default end.

(** The tokens of a contestant, as the storage has them. *)
Definition token_state_in `{Serde TokenState} (h : Host) (contest_id user : Z) : TokenState :=
  match h_data h !! token_key contest_id user with
  | Some json => parse_token_state json
  | None => token_state_default
  end.

Definition load_token_state `{Serde TokenState} (contest_id user : Z) : M TokenState :=
  json ← Storage.get_one (token_key contest_id user);
  mret match json with
       | Some json => parse_token_state json
       | None => token_state_default
       end.

(** ** Feedback (feedback.rs) *)

Definition can_view_privileged_submission_feedback (req : PluginHttpRequest) : bool :=
  has_permission req CONTEST_MANAGE || has_permission req SUBMISSION_VIEW_ALL.

Definition viewer_has_token_feedback_for_submission `{Serde TokenState} (req : PluginHttpRequest)
    (contest_id submission_id : Z) : M bool :=
  match user_id req with
  | None => mret false
  | Some user =>
      state ← load_token_state contest_id user;
      mret (bool_decide (submission_id ∈ ts_tokened_submission_ids state))
  end.

Definition full_scoreboard_visible_for_phase (phase : ustring) (can_view_all : bool)
    (visibility : ScoreboardVisibility) : bool :=
  can_view_all || bool_decide (phase = AFTER)
  || (bool_decide (phase = DURING) && bool_decide (visibility = AllContestViewers)).

Definition per_test_case_mask_fields : list ustring := [
  u "result.test_case_results.*.verdict"; u "result.test_case_results.*.score";
  u "result.test_case_results.*.time_used"; u "result.test_case_results.*.memory_used";
  u "result.test_case_results.*.input"; u "result.test_case_results.*.expected_output";
  u "result.test_case_results.*.stdout"; u "result.test_case_results.*.stderr";
  u "result.test_case_results.*.checker_output"].

Definition none_level_mask_fields : list ustring := [
  u "verdict"; u "score"; u "time_used"; u "memory_used";
  u "result.verdict"; u "result.score"; u "result.time_used"; u "result.memory_used";
  u "result.compile_output"; u "result.error_message";
  u "result.test_case_results"; u "result.test_case_pagination"].

Definition mask_for_level (level : FeedbackLevel) : WireDecision :=
  match level with
  | Full => Allow
  | SubtaskScores | TotalOnly => Redact per_test_case_mask_fields
  | NoFeedback => Redact none_level_mask_fields
  end.

Record SubmissionVisibilityRow := {
  sv_submission_id : Z;
  sv_user_id : Z;
  sv_contest_type : option ustring;
  sv_phase : ustring;
}.

Definition IOI : ustring := u "ioi".

(** The answers the visibility query needs: the rows of the submissions, and the
    configuration of a contest. *)
Record IoiVisibilityDb := {
  iv_config : Z → sdk ContestConfig;
  iv_rows : list Z → sdk (list SubmissionVisibilityRow);
}.

(** The decision for the row of a submission that was found. *)
Definition decide_ioi_row (viewer : option Z) (config : ContestConfig) (tokened : bool)
    (row : SubmissionVisibilityRow) : WireDecision :=
  if decide (viewer = Some (sv_user_id row)) then
    if tokened then Allow else mask_for_level (feedback_level config)
  else if negb (full_scoreboard_visible_for_phase (sv_phase row) false (scoreboard_visibility config))
  then mask_for_level NoFeedback
  else mask_for_level (feedback_level config).

Definition decide_ioi_resource (viewer : option Z) (rows : gmap Z SubmissionVisibilityRow)
    (configs : gmap Z ContestConfig) (states : gmap Z TokenState) (r : QueryResource) : WireDecision :=
  match submission_of r with
  | None => Allow
  | Some sub_id =>
      match rows !! sub_id with
      | None => mask_for_level NoFeedback
      | Some row =>
          if decide (sv_contest_type row ≠ Some IOI) then Allow
          else
            match vr_contest_id r with
            | None => Allow
            | Some contest_id =>
                let tokened := match states !! contest_id with
                               | Some s => bool_decide (sub_id ∈ ts_tokened_submission_ids s)
                               | None => false
                               end in
                decide_ioi_row viewer (default config_default (configs !! contest_id)) tokened row
            end
      end
  end.

(** The IOI contests of a batch. *)
Definition ioi_contest (rows : gmap Z SubmissionVisibilityRow) (r : QueryResource) : option Z :=
  sub_id ← submission_of r;
  row ← rows !! sub_id;
  if decide (sv_contest_type row = Some IOI) then vr_contest_id r else None.

Fixpoint load_ioi_configs (db : IoiVisibilityDb) (contests : list Z) (acc : gmap Z ContestConfig)
    : sdk (gmap Z ContestConfig) :=
  match contests with
  | [] => Ok acc
  | c :: contests => config ← iv_config db c; load_ioi_configs db contests (<[c := config]> acc)
  end.

(** The tokens of the viewer in each contest that has any. *)
Definition viewer_token_states `{Serde TokenState} (h : Host) (viewer : option Z) (contests : list Z)
    : gmap Z TokenState :=
  match viewer with
  | None => ∅
  | Some viewer =>
      foldl (λ m c, match h_data h !! token_key c viewer with
                    | Some json => <[c := parse_token_state json]> m
                    | None => m
                    end) ∅ contests
  end.

Definition decide_visibility `{Serde TokenState} (db : IoiVisibilityDb) (req : VisibilityQueryInput)
    : M (list WireDecision) := λ h,
  if existsb (λ p, bool_decide (p = SUBMISSION_VIEW_ALL) || bool_decide (p = CONTEST_MANAGE))
       (vq_permissions req)
  then Some (Ok ((λ _, Allow) <$> vq_resources req), h)
  else
    let submission_ids := omap submission_of (vq_resources req) in
    if decide (submission_ids = []) then Some (Ok ((λ _, Allow) <$> vq_resources req), h)
    else
      match iv_rows db (remove_dups (sort_by_key id submission_ids)) with
      | Err e => Some (Err e, h)
      | Ok rows =>
          let rows := foldl (λ m row, <[sv_submission_id row := row]> m) ∅ rows in
          let contests := remove_dups (sort_by_key id (omap (ioi_contest rows) (vq_resources req))) in
          match load_ioi_configs db contests ∅ with
          | Err e => Some (Err e, h)
          | Ok configs =>
              let states := viewer_token_states h (vq_user_id req) contests in
              Some (Ok (decide_ioi_resource (vq_user_id req) rows configs states
                          <$> vq_resources req), h)
          end
      end.

(** ** Access to the subtask scores (api.rs) *)

Inductive SubtaskScoresAccess :=
  | Denied (status : Z) (message : ustring)
  | Allowed (can_view_subtask_scores : bool).

Definition subtask_scores_access_decision (phase : ustring) (viewer_id : option Z)
    (submission_owner_id : Z) (can_view_all_submissions tokened_feedback : bool)
    (level : FeedbackLevel) : SubtaskScoresAccess :=
  let allowed :=
    Allowed (can_view_all_submissions || bool_decide (phase = AFTER) || tokened_feedback
             || bool_decide (level ∈ [Full; SubtaskScores])) in
  if decide (phase = AFTER) then allowed
  else
    match viewer_id with
    | Some uid =>
        if (uid =? submission_owner_id)%Z || can_view_all_submissions then allowed
        else Denied 403 (u "Cannot view another user's subtask scores")
    | None => Denied 401 (u "Authentication required")
    end.
