(* ===== verification/IoiBoard.v ===== *)
(** * IoiBoard: the official scores of an IOI contest and its scoreboard

    plugins/ioi/src/scoring.rs, score.rs and scoreboard.rs: the score of a task
    across the submissions of a contestant in each of the three scoring modes, as
    the token endpoint computes it and as the cells of the scoreboard hold it.

    The queries run on the tables of [JudgingDb]; [IoiTables] adds the columns of
    submission and contest that judging never writes.  Times are microseconds. *)

From S2P Require Import Prelude Text Float Verdict Sdk Host Judging JudgingDb.
From S2P Require Import Ioi IoiTokens.

Open Scope machine_scope.

(** ** Scores across submissions (scoring.rs) *)

Definition score_max_submission (current historical_best : f64) : f64 :=
  round_score (f_max current historical_best).

(** The scores of one more submission; the list of bests is as long as the longest
    list of scores. *)
Fixpoint keep_bests (bests scores : list f64) : list f64 :=
  match bests, scores with
  | b :: bests, s :: scores => keep_better b s :: keep_bests bests scores
  | _, _ => bests
  end.

Definition score_sum_best_subtask (all_scores : list (list f64)) : f64 :=
  if decide (all_scores = []) then f_zero
  else
    let num_subtasks := foldr Nat.max 0 (length <$> all_scores) in
    round_score (f_sum (foldl keep_bests (replicate num_subtasks f_zero) all_scores)).

Definition score_best_tokened_or_last (tokened_best last_score : f64) : f64 :=
  round_score (f_max tokened_best last_score).

(** ** Tables *)

Record SubmissionColumns := {
  sc_user_id : Z;
  sc_problem_id : Z;
  sc_contest_id : option Z;
}.

(** The queries the plugin sends, for the errors they may return. *)
Inductive IoiQuery := QSubmission | QElapsed | QMaxScore | QTokenedMax | QLastScore | QResults
  | QTestCases | QSubmissionResults | QProblems | QParticipants | QMaxCells | QLastCells
  | QTokenedCells | QResultCells | QStatus | QNextRegen.

Record IoiTables := {
  it_judging : JudgingDb;
  it_columns : gmap Z SubmissionColumns;
  it_contest_start : gmap Z Z;
  it_test_cases : Z → list TestCaseRow;
  it_problems : Z → list Z;
  it_participants : Z → list UserIdentity;
  it_now : Z;
  it_ioi : IoiDb;
  it_error : IoiQuery → option SdkError;
  (* submission.contest_id is a foreign key *)
  it_contest_fk id columns contest :
    it_columns !! id = Some columns → sc_contest_id columns = Some contest →
    is_Some (it_contest_start !! contest);
}.

(** A query that succeeds, unless the database refuses it. *)
Definition ask {A} (t : IoiTables) (q : IoiQuery) (answer : A) : sdk A :=
  match it_error t q with Some e => Err e | None => Ok answer end.

(** A submission joined with one of its judgements; the time since the start of its
    contest, where it has one and the contest is there. *)
Record JudgedRow := {
  jr_id : Z;
  jr_user_id : Z;
  jr_problem_id : Z;
  jr_contest_id : option Z;
  jr_created_at : Z;
  jr_elapsed_seconds : option Z;
  jr_judgement_id : Z;
  jr_status : SubmissionLifecycle;
  jr_finalized : bool;
  jr_verdict : option Verdict;
  jr_score : option f64;
}.

(** [EXTRACT(EPOCH FROM d)::bigint]: to the nearest integer, half away from zero. *)
Definition seconds_of (microseconds : Z) : Z :=
  let half_up d := ((d + 500000) / 1000000)%Z in
  if (0 <=? microseconds)%Z then half_up microseconds else (- half_up (- microseconds))%Z.

(** [GREATEST(..., 0)] of the time since the start of the contest. *)
Definition elapsed_seconds (start created_at : Z) : Z := Z.max (seconds_of (created_at - start)) 0.

Definition elapsed_in (t : IoiTables) (contest : option Z) (created_at : Z) : option Z :=
  contest ← contest; start ← it_contest_start t !! contest; Some (elapsed_seconds start created_at).

Definition joined (t : IoiTables) (s : JobRow) (j : JudgementRow) : option JudgedRow :=
  columns ← it_columns t !! jb_id s;
  Some {| jr_id := jb_id s; jr_user_id := sc_user_id columns; jr_problem_id := sc_problem_id columns;
          jr_contest_id := sc_contest_id columns; jr_created_at := jb_created_at s;
          jr_elapsed_seconds := elapsed_in t (sc_contest_id columns) (jb_created_at s);
          jr_judgement_id := jd_id j; jr_status := jb_status s; jr_finalized := jd_finalized j;
          jr_verdict := oc_verdict (jd_outcome j); jr_score := oc_score (jd_outcome j) |}.

(** submission JOIN submission_judgement ON the current judgement at the epoch of the
    submission. *)
Definition judged_rows (t : IoiTables) : list JudgedRow :=
  s ← (map_to_list (db_submissions (it_judging t))).*2;
  omap (joined t s)
    (filter (λ j, jd_current j = true ∧ jd_epoch j = jb_epoch s)
       (judgements_of (jb_id s) (it_judging t))).

(** The rows of a contestant for a problem of a contest. *)
Definition rows_of (contest user problem : Z) (rows : list JudgedRow) : list JudgedRow :=
  filter (λ r, jr_contest_id r = Some contest ∧ jr_user_id r = user ∧ jr_problem_id r = problem) rows.

Definition finalized_rows (t : IoiTables) : list JudgedRow :=
  filter (λ r, jr_finalized r = true) (judged_rows t).

(** JOIN contest, as the queries of the scoreboard have it. *)
Definition with_contest (rows : list JudgedRow) : list JudgedRow :=
  filter (λ r, is_Some (jr_elapsed_seconds r)) rows.

(** [f64::max] as the operator of a [reduce], and the aggregate [MAX]; scores in
    the database are finite. *)
Definition reduce_max (l : list f64) : option f64 :=
  match l with [] => None | x :: l => Some (foldl f_max x l) end.

(** [ORDER BY created_at DESC, id DESC]. *)
Definition newest_key (r : JudgedRow) : reversed Z * reversed Z :=
  (Reverse (jr_created_at r), Reverse (jr_id r)).

Definition newest (rows : list JudgedRow) : option JudgedRow := head (sort_by_key newest_key rows).

(** [COALESCE(sj.score, 0.0)]. *)
Definition score_of (r : JudgedRow) : f64 := default f_zero (jr_score r).

(** A result of a test case joined with its judgement. *)
Record TcResultRow := {
  tcr_user_id : Z;
  tcr_problem_id : Z;
  tcr_contest_id : Z;
  tcr_submission_id : Z;
  tcr_test_case_id : Z;
  tcr_score : f64;
  tcr_verdict : Verdict;
  tcr_created_at : Z;
  tcr_elapsed_seconds : option Z;
}.

(** The judgement a result belongs to: it is current and finalized. *)
Definition result_judgement (d : JudgingDb) (r : TestCaseResultRow) : option JudgementRow :=
  j ← db_judgements d !! tr_judgement_id r;
  if decide (jd_submission j = tr_submission_id r ∧ jd_epoch j = tr_judge_epoch r
             ∧ jd_current j = true ∧ jd_finalized j = true)
  then Some j else None.

Definition joined_result (t : IoiTables) (r : TestCaseResultRow) : option TcResultRow :=
  _ ← result_judgement (it_judging t) r;
  test_case ← tr_test_case_id r;
  s ← db_submissions (it_judging t) !! tr_submission_id r;
  columns ← it_columns t !! tr_submission_id r;
  contest ← sc_contest_id columns;
  Some {| tcr_user_id := sc_user_id columns; tcr_problem_id := sc_problem_id columns;
          tcr_contest_id := contest; tcr_submission_id := tr_submission_id r;
          tcr_test_case_id := test_case; tcr_score := tr_score r; tcr_verdict := tr_verdict r;
          tcr_created_at := jb_created_at s;
          tcr_elapsed_seconds := elapsed_in t (Some contest) (jb_created_at s) |}.

(** The results that count, in the order of the table. *)
Definition result_rows (t : IoiTables) : list TcResultRow :=
  omap (joined_result t) (db_results (it_judging t)).

(** JOIN contest, as the query of the scoreboard has it. *)
Definition results_with_contest (rows : list TcResultRow) : list TcResultRow :=
  filter (λ r, is_Some (tcr_elapsed_seconds r)) rows.

(** ** The score of a task (score.rs) *)

Definition normalized_raw_score (verdict : Verdict) (score tc_max : f64) : f64 :=
  if decide (verdict = Accepted) then f_one
  else if f_ltb f_zero tc_max then f_clamp f_zero f_one (f_div score tc_max)
  else f_zero.

(** [collect] into a map: a later row of the same id wins. *)
Definition max_map (test_cases : list TestCaseRow) : gmap Z f64 :=
  foldl (λ m tc, <[tc_id tc := tc_score tc]> m) ∅ test_cases.

Definition id_to_label (test_cases : list TestCaseRow) : gmap Z ustring :=
  foldl (λ m tc, <[tc_id tc := resolve_tc_label tc]> m) ∅ test_cases.

Definition row_raw_score (maxes : gmap Z f64) (r : TcResultRow) : f64 :=
  normalized_raw_score (tcr_verdict r) (tcr_score r) (default f_zero (maxes !! tcr_test_case_id r)).

Record SubtaskScoreDetail := {
  de_name : ustring;
  de_scoring_method : SubtaskScoringMethod;
  de_score : f64;
  de_max_score : f64;
}.

(** The scores of one submission by label; results of other cases are left out. *)
Definition submission_tc_scores (test_cases : list TestCaseRow) (rows : list TcResultRow)
    : gmap ustring f64 :=
  foldl (λ m r, match id_to_label test_cases !! tcr_test_case_id r with
                | Some label => <[label := row_raw_score (max_map test_cases) r]> m
                | None => m
                end) ∅ rows.

Definition score_submission_subtask_details (test_cases : list TestCaseRow)
    (subtask_defs : list SubtaskDef) (rows : list TcResultRow) : list SubtaskScoreDetail :=
  zip_with (λ score def, {| de_name := sr_name score; de_scoring_method := sd_scoring_method def;
                            de_score := round_score (sr_score score);
                            de_max_score := sr_max_score score |})
    (score_all_subtasks subtask_defs test_cases (submission_tc_scores test_cases rows)) subtask_defs.

Definition load_current_submission_test_case_results (t : IoiTables) (contest_id submission_id : Z)
    : sdk (list TcResultRow) :=
  ask t QSubmissionResults
    (filter (λ r, tcr_submission_id r = submission_id ∧ tcr_contest_id r = contest_id) (result_rows t)).

(** One more result, into the scores of its submission. *)
Definition add_result (maxes : gmap Z f64) (labels : gmap Z ustring)
    (m : gmap Z (gmap ustring f64)) (r : TcResultRow) : gmap Z (gmap ustring f64) :=
  let label := default (show (tcr_test_case_id r)) (labels !! tcr_test_case_id r) in
  <[tcr_submission_id r := <[label := row_raw_score maxes r]> (default ∅ (m !! tcr_submission_id r))]> m.

(** The subtask scores of submissions with these scores, added up over the best of
    each subtask. *)
Definition sum_best_subtask_score (subtask_defs : list SubtaskDef) (test_cases : list TestCaseRow)
    (per_submission_scores : list (gmap ustring f64)) : f64 :=
  score_sum_best_subtask
    ((λ tc_scores, sr_score <$> score_all_subtasks subtask_defs test_cases tc_scores)
       <$> per_submission_scores).

Definition recompute_sum_best_subtask (t : IoiTables) (contest_id problem_id user : Z)
    (test_cases : list TestCaseRow) (subtask_defs : list SubtaskDef) : sdk f64 :=
  tc_results ← ask t QResults
    (filter (λ r, tcr_user_id r = user ∧ tcr_problem_id r = problem_id ∧ tcr_contest_id r = contest_id)
       (result_rows t));
  maxes ← ask t QTestCases (max_map (it_test_cases t problem_id));
  let by_submission := foldl (add_result maxes (id_to_label test_cases)) ∅ tc_results in
  Ok (sum_best_subtask_score subtask_defs test_cases (map_to_list by_submission).*2).

Definition load_effective_subtasks (t : IoiTables) (problem_id : Z) (config : TaskConfig)
    : sdk (list TestCaseRow * list SubtaskDef) :=
  test_cases ← ask t QTestCases (it_test_cases t problem_id);
  Ok (test_cases, effective_subtasks test_cases config).

Definition compute_official_task_score `{Serde TokenState} (t : IoiTables) (config : ContestConfig)
    (contest_id problem_id user : Z) (given : option (list TestCaseRow * list SubtaskDef)) (h : Host)
    : sdk f64 :=
  match scoring_mode config with
  | MaxSubmission =>
      max ← ask t QMaxScore
        (reduce_max (omap jr_score (rows_of contest_id user problem_id (judged_rows t))));
      Ok (default f_zero max)
  | SumBestSubtask =>
      cases ← match given with
              | Some cases => Ok cases
              | None =>
                  task_config ← io_task_config (it_ioi t) contest_id problem_id;
                  load_effective_subtasks t problem_id task_config
              end;
      recompute_sum_best_subtask t contest_id problem_id user cases.1 cases.2
  | BestTokenedOrLast =>
      let ids := ts_tokened_submission_ids (token_state_in h contest_id user) in
      tokened_best ← (if decide (ids = []) then Ok f_zero
                      else
                        max ← ask t QTokenedMax
                          (reduce_max (omap jr_score
                             (filter (λ r, jr_id r ∈ ids ∧ jr_problem_id r = problem_id) (finalized_rows t))));
                        Ok (default f_zero max));
      last ← ask t QLastScore (newest (rows_of contest_id user problem_id (finalized_rows t)));
      Ok (score_best_tokened_or_last tokened_best (default f_zero (score_of <$> last)))
  end.

(** ** The cells of the scoreboard (scoreboard.rs) *)

(** [1e-9]. *)
Definition SCORE_EPSILON : f64 := f_of_decimal false 1 (-9).

Definition f_abs (x : f64) : f64 := SpecFloat.SFabs x.

Record ScoreboardCell := { sc_cell_score : f64; sc_time_seconds : Z }.

Definition cell_default : ScoreboardCell := {| sc_cell_score := f_zero; sc_time_seconds := 0 |}.

Abbreviation cells := (gmap (Z * Z) ScoreboardCell).

(** The pairs of a contestant and a problem. *)
Definition cell_keys (user_ids problem_ids : list Z) : list (Z * Z) :=
  user ← user_ids; (λ problem, (user, problem)) <$> problem_ids.

(** [iter().min()], and [MIN] of a column. *)
Definition min_of (l : list Z) : option Z := min_by_key id l.

Definition max_of (l : list Z) : option Z := max_by_key id l.

(** [MIN(elapsed) FILTER (WHERE best > 0 AND score >= best - epsilon)], at least 0. *)
Definition earliest_at (best : f64) (rows : list (f64 * Z)) : Z :=
  if f_ltb f_zero best
  then default 0%Z (min_of (snd <$> filter (λ r, f_leb (f_sub best SCORE_EPSILON) r.1 = true) rows))
  else 0.

(** The best score of a group of rows, and the time it was reached. *)
Definition max_cell (rows : list (f64 * Z)) : option ScoreboardCell :=
  best ← reduce_max (fst <$> rows);
  Some {| sc_cell_score := best; sc_time_seconds := earliest_at best rows |}.

(** The score and the time of a row that has a score. *)
Definition scored (r : JudgedRow) : option (f64 * Z) :=
  elapsed ← jr_elapsed_seconds r; score ← jr_score r; Some (score, elapsed).

Definition load_max_submission_scoreboard_cells (t : IoiTables) (contest_id : Z)
    (user_ids problem_ids : list Z) : sdk cells :=
  if decide (user_ids = [] ∨ problem_ids = []) then Ok ∅
  else
    let cell key := max_cell (omap scored (rows_of contest_id key.1 key.2 (with_contest (judged_rows t)))) in
    ask t QMaxCells
      (foldl (λ m key, match cell key with Some c => <[key := c]> m | None => m end) ∅
         (cell_keys user_ids problem_ids)).

(** The tokens of the contestants of a board: sorted, without repetitions. *)
Definition all_tokened_ids `{Serde TokenState} (h : Host) (contest_id : Z) (user_ids : list Z) : list Z :=
  remove_dups (sort_by_key id
    (user_ids ≫= λ user, match h_data h !! token_key contest_id user with
                         | Some json => ts_tokened_submission_ids (parse_token_state json)
                         | None => []
                         end)).

(** The score and the time of a row, 0 where there is no score. *)
Definition with_time (r : JudgedRow) : f64 * Z := (score_of r, default 0%Z (jr_elapsed_seconds r)).

(** The cell from the tokened rows and the last row. *)
Definition tokened_cell (tokened_rows : list JudgedRow) (last_row : option JudgedRow) : ScoreboardCell :=
  let tokened_best := default f_zero (reduce_max (score_of <$> tokened_rows)) in
  let last_score := default f_zero (score_of <$> last_row) in
  let score := score_best_tokened_or_last tokened_best last_score in
  let rows := with_time <$> (tokened_rows ++ option_list last_row) in
  {| sc_cell_score := score; sc_time_seconds := earliest_at score rows |}.

Definition load_best_tokened_or_last_scoreboard_cells `{Serde TokenState} (t : IoiTables)
    (contest_id : Z) (user_ids problem_ids : list Z) (h : Host) : sdk cells :=
  if decide (user_ids = [] ∨ problem_ids = []) then Ok ∅
  else
    let ids := all_tokened_ids h contest_id user_ids in
    let group key := rows_of contest_id key.1 key.2 (with_contest (finalized_rows t)) in
    last_by_cell ← ask t QLastCells (λ key : Z * Z, newest (group key));
    tokened_by_cell ← (if decide (ids = []) then Ok (λ _, [])
                       else ask t QTokenedCells (λ key : Z * Z, filter (λ r, jr_id r ∈ ids) (group key)));
    Ok (foldl (λ m key, <[key := tokened_cell (tokened_by_cell key) (last_by_cell key)]> m) ∅
          (cell_keys user_ids problem_ids)).

(** The test cases and subtasks of each problem of a board. *)
Fixpoint load_problem_subtasks (t : IoiTables) (contest_id : Z) (problem_ids : list Z)
    (acc : gmap Z (list TestCaseRow * list SubtaskDef))
    : sdk (gmap Z (list TestCaseRow * list SubtaskDef)) :=
  match problem_ids with
  | [] => Ok acc
  | problem :: problem_ids =>
      task_config ← io_task_config (it_ioi t) contest_id problem;
      cases ← load_effective_subtasks t problem task_config;
      load_problem_subtasks t contest_id problem_ids (<[problem := cases]> acc)
  end.

(** The label and the points of a test case; a later row of the same id wins. *)
Definition test_case_meta (test_cases : list TestCaseRow) : gmap Z (ustring * f64) :=
  foldl (λ m tc, <[tc_id tc := (resolve_tc_label tc, tc_score tc)]> m) ∅ test_cases.

Definition tcr_cell (r : TcResultRow) : Z * Z := (tcr_user_id r, tcr_problem_id r).

(** One more result: the earliest time of the submission and its scores. *)
Definition add_board_result (problems : gmap Z (list TestCaseRow * list SubtaskDef))
    (m : gmap (Z * Z * Z) (Z * gmap ustring f64)) (r : TcResultRow)
    : gmap (Z * Z * Z) (Z * gmap ustring f64) :=
  match cases ← problems !! tcr_problem_id r; test_case_meta cases.1 !! tcr_test_case_id r with
  | None => m
  | Some (label, max_score) =>
      let key := (tcr_user_id r, tcr_problem_id r, tcr_submission_id r) in
      let raw_score := normalized_raw_score (tcr_verdict r) (tcr_score r) max_score in
      let at_ := default 0%Z (tcr_elapsed_seconds r) in
      let '(elapsed, scores) := default (at_, ∅) (m !! key) in
      <[key := (Z.min elapsed at_, <[label := raw_score]> scores)]> m
  end.

Definition group_submissions (by_submission : gmap (Z * Z * Z) (Z * gmap ustring f64)) (key : Z * Z)
    : list (Z * gmap ustring f64) :=
  (filter (λ e, (e.1.1.1, e.1.1.2) = key) (map_to_list by_submission)).*2.

(** The best score of a subtask so far with its time, and one more score. *)
Definition better_subtask (elapsed : Z) (best : f64 * option Z) (score : f64) : f64 * option Z :=
  if f_ltb (f_add best.1 SCORE_EPSILON) score then (score, Some elapsed)
  else if f_ltb (f_abs (f_sub score best.1)) SCORE_EPSILON && f_ltb f_zero score
          && match best.2 with Some e => (elapsed <? e)%Z | None => true end
  then (best.1, Some elapsed)
  else best.

(** The same for each subtask; a subtask seen for the first time starts at 0. *)
Fixpoint better_subtasks (elapsed : Z) (bests : list (f64 * option Z)) (scores : list f64)
    : list (f64 * option Z) :=
  match scores, bests with
  | [], _ => bests
  | s :: scores, [] => better_subtask elapsed (f_zero, None) s :: better_subtasks elapsed [] scores
  | s :: scores, b :: bests => better_subtask elapsed b s :: better_subtasks elapsed bests scores
  end.

Definition best_by_subtask (cases : list TestCaseRow * list SubtaskDef)
    (submissions : list (Z * gmap ustring f64)) : list (f64 * option Z) :=
  foldl (λ bests s, better_subtasks s.1 bests
                      (sr_score <$> score_all_subtasks cases.2 cases.1 s.2)) [] submissions.

(** The latest of the times the best subtasks were reached. *)
Definition latest_best (bests : list (f64 * option Z)) : Z :=
  default 0%Z (max_of (omap snd (filter (λ b, f_ltb f_zero b.1 = true) bests))).

Definition sum_best_cell (cases : list TestCaseRow * list SubtaskDef)
    (submissions : list (Z * gmap ustring f64)) : ScoreboardCell :=
  let score := sum_best_subtask_score cases.2 cases.1 submissions.*2 in
  {| sc_cell_score := score;
     sc_time_seconds := if f_ltb f_zero score then latest_best (best_by_subtask cases submissions) else 0 |}.

Definition load_sum_best_subtask_scoreboard_cells (t : IoiTables) (contest_id : Z)
    (user_ids problem_ids : list Z) : sdk cells :=
  if decide (user_ids = [] ∨ problem_ids = []) then Ok ∅
  else
    problems ← load_problem_subtasks t contest_id problem_ids ∅;
    rows ← ask t QResultCells
      (sort_by_key tcr_created_at
         (filter (λ r, tcr_contest_id r = contest_id ∧ tcr_user_id r ∈ user_ids
                       ∧ tcr_problem_id r ∈ problem_ids) (results_with_contest (result_rows t))));
    let by_submission := foldl (add_board_result problems) ∅ rows in
    Ok (foldl (λ m key, match problems !! key.2 with
                        | Some cases => <[key := sum_best_cell cases (group_submissions by_submission key)]> m
                        | None => m
                        end) ∅ (cell_keys user_ids problem_ids)).

Definition load_scoreboard_cells `{Serde TokenState} (t : IoiTables) (config : ContestConfig)
    (contest_id : Z) (user_ids problem_ids : list Z) (h : Host) : sdk cells :=
  match scoring_mode config with
  | MaxSubmission => load_max_submission_scoreboard_cells t contest_id user_ids problem_ids
  | SumBestSubtask => load_sum_best_subtask_scoreboard_cells t contest_id user_ids problem_ids
  | BestTokenedOrLast => load_best_tokened_or_last_scoreboard_cells t contest_id user_ids problem_ids h
  end.

(** ** The order of the scoreboard *)

Definition combined_score_time_seconds (tiebreaker : ScoreboardTiebreaker) (times : list Z) : Z :=
  match tiebreaker with
  | EqualRank => 0%Z
  | SumScoreTime => foldl (λ a x, wrap64 (a + x)%Z) 0%Z times
  | MaxScoreTime => default 0%Z (max_of times)
  end.

(** [a.partial_cmp(b)]. *)
Definition f_compare (x y : f64) : option comparison := SpecFloat.SFcompare x y.

Definition then_with (c : comparison) (d : comparison) : comparison :=
  match c with Eq => d | _ => c end.

Definition ustring_compare (x y : ustring) : comparison :=
  if ustring_leb x y then (if ustring_leb y x then Eq else Lt) else Gt.

Definition compare_scoreboard_entries (a_score : f64) (a_time : Z) (a_username : ustring)
    (b_score : f64) (b_time : Z) (b_username : ustring) (tiebreaker : ScoreboardTiebreaker) : comparison :=
  then_with
    (then_with (default Eq (f_compare b_score a_score))
       (match tiebreaker with
        | EqualRank => Eq
        | SumScoreTime | MaxScoreTime => Z.compare a_time b_time
        end))
    (ustring_compare a_username b_username).

Definition scoreboard_entries_tied (a_score : f64) (a_time : Z) (b_score : f64) (b_time : Z)
    (tiebreaker : ScoreboardTiebreaker) : bool :=
  f_ltb (f_abs (f_sub a_score b_score)) SCORE_EPSILON
  && match tiebreaker with
     | EqualRank => true
     | SumScoreTime | MaxScoreTime => (a_time =? b_time)%Z
     end.
