(* ===== verification/IoiApi.v ===== *)
(** * IoiApi: the requests to the IOI plugin

    plugins/ioi/src/api.rs: spending a token, the configuration of contests and
    tasks, the state of a submission, the tokens left, the scoreboard and the
    subtask scores of a submission.  A handler reads the tables ([IoiTables]) and
    the storage of the host, and answers or fails ([Handler]). *)

From S2P Require Import Prelude Text Float Verdict Sdk Host VisibilityApi BracketGate Icpc.
From S2P Require Import Judging JudgingDb Ioi IoiTokens IoiBoard.

Open Scope machine_scope.

(** ** Handlers *)

Definition Handler (A B : Type) : Type := Host → option (api A B * Host).

#[export] Instance Handler_ret A : MRet (Handler A) := λ B b h, Some (Ok b, h).
#[export] Instance Handler_bind A : MBind (Handler A) := λ B C f m h,
  match m h with
  | Some (Ok b, h') => f b h'
  | Some (Err e, h') => Some (Err e, h')
  | None => None
  end.

(** [?] on a check of the request and on a call of the host. *)
Definition check {A B} (r : api A B) : Handler A B := λ h, Some (r, h).
Definition query {A B} (r : sdk B) : Handler A B := check (api_of r).
Definition host_call {A B} (m : M B) : Handler A B := λ h,
  (λ rh, (api_of rh.1, rh.2)) <$> m h.

Definition respond {A} (document : A) : Handler A (PluginHttpResponse A) :=
  mret (ok_response document).
Definition refuse {A} (status : Z) (message : ustring) : Handler A (PluginHttpResponse A) :=
  mret (error_response status message).

Definition authenticated {A} (req : PluginHttpRequest) : Handler A Z :=
  check (match user_id req with
         | Some user => Ok user
         | None => api_error 401 (u "Authentication required")
         end).

(** The tables and the answers about contests. *)
Record IoiEnv := {
  ie_tables : IoiTables;
  ie_contest : ContestDb;
}.

Definition ie_config (env : IoiEnv) (contest_id : Z) : sdk ContestConfig :=
  io_config (it_ioi (ie_tables env)) contest_id.

Definition load_task_config (env : IoiEnv) (contest_id problem_id : Z) : sdk TaskConfig :=
  io_task_config (it_ioi (ie_tables env)) contest_id problem_id.

Definition tokens_enabled (config : ContestConfig) : bool :=
  bool_decide (tk_mode (tokens config) ≠ NoTokens).

(** [SELECT EXTRACT(EPOCH FROM (NOW() - start_time)) / 60], the nearest [f64] of the
    minutes since the start of the contest. *)
Definition elapsed_minutes (t : IoiTables) (contest_id : Z) : option f64 :=
  (λ start, f_div (f_of_Z (it_now t - start)) (f_of_Z 60000000)) <$> it_contest_start t !! contest_id.

(** [.unwrap_or(0.0).max(0.0) as u64]. *)
Definition query_elapsed_min (t : IoiTables) (contest_id : Z) : sdk Z :=
  minutes ← ask t QElapsed (elapsed_minutes t contest_id);
  Ok (f_to_u64 (f_max (default f_zero minutes) f_zero)).

(** ** Spending a token *)

Definition NO_TOKENS_AVAILABLE : ustring := u "NO_TOKENS_AVAILABLE".
Definition ALREADY_TOKENED : ustring := u "ALREADY_TOKENED".

(** The closure of [host.storage.modify]. *)
Definition spend_token (config : TokenConfig) (elapsed_min submission_id : Z) (state : TokenState)
    : sdk TokenState :=
  if (available_tokens config state elapsed_min =? 0)%Z then Err (Other NO_TOKENS_AVAILABLE)
  else if decide (submission_id ∈ ts_tokened_submission_ids state) then Err (Other ALREADY_TOKENED)
  else Ok {| ts_used := wrap_u32 (ts_used state + 1);
             ts_tokened_submission_ids := ts_tokened_submission_ids state ++ [submission_id] |}.

Section handlers.
Context `{Serde TokenState} (env : IoiEnv).

Record UseTokenBody := { ut_remaining_tokens : Z; ut_task_score : f64 }.

Definition modify_tokens (config : TokenConfig) (contest_id user elapsed_min submission_id : Z)
    : M TokenState :=
  Storage.modify (token_key contest_id user) token_state_default
    (λ state, lift (spend_token config elapsed_min submission_id state)).

(** The answer once the token is spent. *)
Definition token_spent (config : ContestConfig) (contest_id problem_id user elapsed_min : Z)
    (state : TokenState) : Handler UseTokenBody (PluginHttpResponse UseTokenBody) := λ h,
  match compute_official_task_score (ie_tables env) config contest_id problem_id user None h with
  | Err e => Some (Err (ApiSdk e), h)
  | Ok task_score =>
      respond {| ut_remaining_tokens := available_tokens (tokens config) state elapsed_min;
                 ut_task_score := round_score task_score |} h
  end.

Definition token_outcome (config : ContestConfig) (contest_id problem_id user elapsed_min submission_id : Z)
    : Handler UseTokenBody (PluginHttpResponse UseTokenBody) := λ h,
  match modify_tokens (tokens config) contest_id user elapsed_min submission_id h with
  | None => None
  | Some (Ok state, h) => token_spent config contest_id problem_id user elapsed_min state h
  | Some (Err e, h) =>
      if decide (e = Other NO_TOKENS_AVAILABLE) then refuse 400 (u "No tokens available") h
      else if decide (e = Other ALREADY_TOKENED) then refuse 400 (u "Submission already has a token") h
      else Some (Err (ApiSdk e), h)
  end.

Definition handle_use_token (req : PluginHttpRequest)
    : Handler UseTokenBody (PluginHttpResponse UseTokenBody) :=
  user ← authenticated req;
  contest_id ← query (param_i32 req (u "contest_id"));
  submission_id ← query (param_i32 req (u "submission_id"));
  found ← query (ask (ie_tables env) QSubmission (it_columns (ie_tables env) !! submission_id));
  info ← query (ok_or found (Other (u "Submission not found")));
  if negb (sc_user_id info =? user)%Z then refuse 403 (u "Submission does not belong to you")
  else if decide (sc_contest_id info ≠ Some contest_id)
  then refuse 400 (u "Submission does not belong to this contest")
  else
    contest ← check (check_access (ie_contest env) req contest_id);
    _ ← check (require_type contest IOI);
    if decide (ci_phase contest ≠ DURING)
    then refuse 403 (u "Tokens can only be used while the contest is running")
    else
      config ← query (ie_config env contest_id);
      if negb (tokens_enabled config) then refuse 400 (u "Tokens are disabled for this contest")
      else
        elapsed_min ← query (query_elapsed_min (ie_tables env) contest_id);
        token_outcome config contest_id (sc_problem_id info) user elapsed_min submission_id.

(** ** Configuration *)

Record ContestInfoBody := {
  cb_scoring_mode : ScoringMode;
  cb_feedback_level : FeedbackLevel;
  cb_scoreboard_visibility : ScoreboardVisibility;
  cb_scoreboard_tiebreaker : ScoreboardTiebreaker;
  cb_token_mode : TokenMode;
}.

Definition handle_contest_info (req : PluginHttpRequest)
    : Handler ContestInfoBody (PluginHttpResponse ContestInfoBody) :=
  contest_id ← query (param_i32 req (u "contest_id"));
  contest ← check (check_access (ie_contest env) req contest_id);
  _ ← check (require_type contest IOI);
  config ← query (ie_config env contest_id);
  respond {| cb_scoring_mode := scoring_mode config; cb_feedback_level := feedback_level config;
             cb_scoreboard_visibility := scoreboard_visibility config;
             cb_scoreboard_tiebreaker := scoreboard_tiebreaker config;
             cb_token_mode := tk_mode (tokens config) |}.

(** A subtask in an answer: the labels only where all feedback is given. *)
Record SubtaskBody := {
  sb_name : ustring;
  sb_scoring_method : SubtaskScoringMethod;
  sb_max_score : f64;
  sb_test_cases : option (list ustring);
}.

Record TaskConfigBody := {
  tb_scoring_mode : ScoringMode;
  tb_feedback_level : FeedbackLevel;
  tb_subtasks : option (list SubtaskBody);
  tb_label_map : option (gmap ustring Z);
  tb_test_case_max_scores : option (gmap ustring f64);
}.

Definition subtask_body (with_cases : bool) (def : SubtaskDef) : SubtaskBody := {|
  sb_name := sd_name def; sb_scoring_method := sd_scoring_method def; sb_max_score := sd_max_score def;
  sb_test_cases := if with_cases then Some (sd_test_cases def) else None |}.

(** [collect] of labelled values into a map. *)
Definition by_label {A} (f : TestCaseRow → A) (test_cases : list TestCaseRow) : gmap ustring A :=
  foldl (λ m tc, <[resolve_tc_label tc := f tc]> m) ∅ test_cases.

(** The answer about a task, with or without what feedback reveals. *)
Definition task_config_body (config : ContestConfig) (test_cases : list TestCaseRow)
    (subtasks : list SubtaskDef) (expose_full : bool) : TaskConfigBody := {|
  tb_scoring_mode := scoring_mode config;
  tb_feedback_level := feedback_level config;
  tb_subtasks :=
    if expose_full then Some (subtask_body true <$> subtasks)
    else match feedback_level config with
         | SubtaskScores => Some (subtask_body false <$> subtasks)
         | _ => None
         end;
  tb_label_map := if expose_full then Some (by_label tc_id test_cases) else None;
  tb_test_case_max_scores := if expose_full then Some (by_label tc_score test_cases) else None |}.

Definition handle_task_config (req : PluginHttpRequest)
    : Handler TaskConfigBody (PluginHttpResponse TaskConfigBody) :=
  contest_id ← query (param_i32 req (u "contest_id"));
  problem_id ← query (param_i32 req (u "problem_id"));
  contest ← check (check_access (ie_contest env) req contest_id);
  _ ← check (require_type contest IOI);
  known ← query (db_has_problem (ie_contest env) contest_id problem_id);
  if negb known then refuse 404 (u "Contest problem not found")
  else if decide (ci_phase contest ≠ AFTER ∧ user_id req = None)
  then refuse 401 (u "Authentication required during contest")
  else
    config ← query (ie_config env contest_id);
    task_config ← query (load_task_config env contest_id problem_id);
    cases ← query (load_effective_subtasks (ie_tables env) problem_id task_config);
    let expose_full := can_view_privileged_submission_feedback req
                       || (tokens_enabled config && bool_decide (is_Some (user_id req)))
                       || bool_decide (feedback_level config = Full) in
    respond (task_config_body config cases.1 cases.2 expose_full).

(** ** The state of a submission *)

Record SubmissionStatusBody := {
  st_last_submission_verdict : option Verdict;
  st_last_submission_score : option f64;
}.

(** [ORDER BY created_at DESC LIMIT 1]; of submissions of one instant the table
    decides. *)
Definition last_judged (contest user problem : Z) (rows : list JudgedRow) : option JudgedRow :=
  head (sort_by_key (λ r, Reverse (jr_created_at r))
          (filter (λ r, jr_status r = Judged ∧ is_Some (jr_verdict r)) (rows_of contest user problem rows))).

Definition handle_submission_status (req : PluginHttpRequest)
    : Handler SubmissionStatusBody (PluginHttpResponse SubmissionStatusBody) :=
  user ← authenticated req;
  contest_id ← query (param_i32 req (u "contest_id"));
  problem_id ← query (param_i32 req (u "problem_id"));
  last ← query (ask (ie_tables env) QStatus
                  (last_judged contest_id user problem_id (judged_rows (ie_tables env))));
  config ← query (ie_config env contest_id);
  tokened ← (if can_view_privileged_submission_feedback req then mret true
             else match last with
                  | Some row =>
                      if tokens_enabled config
                      then host_call (viewer_has_token_feedback_for_submission req contest_id (jr_id row))
                      else mret false
                  | None => mret false
                  end);
  let visible := (tokened : bool) || bool_decide (feedback_level config ≠ NoFeedback) in
  respond (if visible
           then {| st_last_submission_verdict := last ≫= jr_verdict;
                   st_last_submission_score := last ≫= jr_score |}
           else {| st_last_submission_verdict := None; st_last_submission_score := None |}).

(** ** The tokens left *)

Record TokenStatusBody := {
  to_mode : TokenMode;
  to_available : Z;
  to_used : Z;
  to_total : Z;
  to_next_regen_at : option Z;
  to_tokened_submission_ids : list Z;
}.

(** The time of an answer is microseconds rather than its text. *)
Definition token_status (config : TokenConfig) (state : TokenState) (elapsed_min : Z)
    (next_regen_at : option Z) : TokenStatusBody :=
  let avail := available_tokens config state elapsed_min in {|
  to_mode := tk_mode config;
  to_available := if decide (tk_mode config = NoTokens) then 0 else avail;
  to_used := ts_used state;
  to_total := if decide (tk_mode config = NoTokens) then 0 else wrap_u32 (avail + ts_used state);
  to_next_regen_at := next_regen_at;
  to_tokened_submission_ids := ts_tokened_submission_ids state |}.

Definition handle_token_status (req : PluginHttpRequest)
    : Handler TokenStatusBody (PluginHttpResponse TokenStatusBody) :=
  user ← authenticated req;
  contest_id ← query (param_i32 req (u "contest_id"));
  config ← query (ie_config env contest_id);
  state ← host_call (load_token_state contest_id user);
  elapsed_min ← query (query_elapsed_min (ie_tables env) contest_id);
  next_regen_at ← query
    (match next_regen_elapsed_min (tokens config) elapsed_min with
     | Some minutes =>
         ask (ie_tables env) QNextRegen
           ((λ start, (start + minutes * 60000000)%Z) <$> it_contest_start (ie_tables env) !! contest_id)
     | None => Ok None
     end);
  respond (token_status (tokens config) state elapsed_min next_regen_at).

(** ** The scoreboard *)

Record ProblemScore := { pr_problem_id : Z; pr_score : f64 }.

Record RankEntry := {
  re_rank : nat;
  re_user_id : Z;
  re_username : ustring;
  re_display_name : ustring;
  re_total_score : f64;
  re_total_time_seconds : Z;
  re_problems : option (list ProblemScore);
}.

Record ScoreboardBody := {
  bo_phase : ustring;
  bo_config : ContestConfig;
  bo_max_scores : gmap Z f64;
  bo_rankings : list RankEntry;
}.

(** The points of a task: of its subtasks, or of all its cases. *)
Definition max_score_of (problem_id : Z) (task_config : TaskConfig) : sdk f64 :=
  if decide (task_config = []) then
    ask (ie_tables env) QTestCases (f_sum (tc_score <$> it_test_cases (ie_tables env) problem_id))
  else Ok (f_sum (sd_max_score <$> task_config)).

Fixpoint load_max_scores (contest_id : Z) (problem_ids : list Z) (acc : gmap Z f64) : sdk (gmap Z f64) :=
  match problem_ids with
  | [] => Ok acc
  | pid :: problem_ids =>
      task_config ← load_task_config env contest_id pid;
      max ← max_score_of pid task_config;
      load_max_scores contest_id problem_ids (<[pid := max]> acc)
  end.

Definition cell_of (board : cells) (user pid : Z) : ScoreboardCell :=
  default cell_default (board !! (user, pid)).

Definition rank_entry (config : ContestConfig) (board : cells) (problem_ids : list Z) (p : UserIdentity)
    : RankEntry :=
  let row := cell_of board (id_user_id p) <$> problem_ids in {|
  re_rank := 0;
  re_user_id := id_user_id p;
  re_username := id_username p;
  re_display_name := display_label p;
  re_total_score := round_score (foldl f_add f_zero (sc_cell_score <$> row));
  re_total_time_seconds :=
    combined_score_time_seconds (scoreboard_tiebreaker config) (sc_time_seconds <$> row);
  re_problems :=
    match feedback_level config with
    | NoFeedback | TotalOnly => None
    | SubtaskScores | Full =>
        Some (zip_with (λ pid cell, {| pr_problem_id := pid; pr_score := round_score (sc_cell_score cell) |})
                problem_ids row)
    end |}.

(** [a] does not come after [b]. *)
Definition entry_leb (tiebreaker : ScoreboardTiebreaker) (a b : RankEntry) : bool :=
  match compare_scoreboard_entries (re_total_score a) (re_total_time_seconds a) (re_username a)
          (re_total_score b) (re_total_time_seconds b) (re_username b) tiebreaker with
  | Gt => false
  | _ => true
  end.

(** The stable [sort_by]. *)
Fixpoint insert_entry (tiebreaker : ScoreboardTiebreaker) (e : RankEntry) (entries : list RankEntry)
    : list RankEntry :=
  match entries with
  | [] => [e]
  | x :: rest => if entry_leb tiebreaker e x then e :: entries else x :: insert_entry tiebreaker e rest
  end.

Definition sort_entries (tiebreaker : ScoreboardTiebreaker) (entries : list RankEntry) : list RankEntry :=
  foldr (insert_entry tiebreaker) [] entries.

Definition with_entry_rank (rank : nat) (e : RankEntry) : RankEntry := {|
  re_rank := rank; re_user_id := re_user_id e; re_username := re_username e;
  re_display_name := re_display_name e; re_total_score := re_total_score e;
  re_total_time_seconds := re_total_time_seconds e; re_problems := re_problems e |}.

Definition tied (tiebreaker : ScoreboardTiebreaker) (e p : RankEntry) : bool :=
  scoreboard_entries_tied (re_total_score e) (re_total_time_seconds e)
    (re_total_score p) (re_total_time_seconds p) tiebreaker.

(** The rank of the entry at position [i], after [prev]. *)
Fixpoint rank_entries (tiebreaker : ScoreboardTiebreaker) (i : nat) (prev : option RankEntry)
    (entries : list RankEntry) : list RankEntry :=
  match entries with
  | [] => []
  | e :: entries =>
      let rank := match prev with
                  | Some p => if tied tiebreaker e p then re_rank p else S i
                  | None => S i
                  end in
      let e := with_entry_rank rank e in
      e :: rank_entries tiebreaker (S i) (Some e) entries
  end.

Definition visible_participants (req : PluginHttpRequest) (full_visible : bool)
    (participants : list UserIdentity) : list UserIdentity :=
  filter (λ p, full_visible = true ∨ user_id req = Some (id_user_id p)) participants.

Definition rankings_of (config : ContestConfig) (board : cells) (problem_ids : list Z)
    (participants : list UserIdentity) : list RankEntry :=
  rank_entries (scoreboard_tiebreaker config) 0 None
    (sort_entries (scoreboard_tiebreaker config) (rank_entry config board problem_ids <$> participants)).

Definition handle_scoreboard (req : PluginHttpRequest)
    : Handler ScoreboardBody (PluginHttpResponse ScoreboardBody) :=
  contest_id ← query (param_i32 req (u "contest_id"));
  config ← query (ie_config env contest_id);
  contest ← check (check_access (ie_contest env) req contest_id);
  problem_ids ← query (ask (ie_tables env) QProblems (it_problems (ie_tables env) contest_id));
  max_scores ← query (load_max_scores contest_id problem_ids ∅);
  participants ← query (ask (ie_tables env) QParticipants (it_participants (ie_tables env) contest_id));
  let full_visible := full_scoreboard_visible_for_phase (ci_phase contest)
                        (has_permission req CONTEST_MANAGE) (scoreboard_visibility config) in
  let visible := visible_participants req full_visible participants in
  h ← host_call (gets id);
  board ← query (load_scoreboard_cells (ie_tables env) config contest_id (id_user_id <$> visible)
                   problem_ids h);
  respond {| bo_phase := ci_phase contest; bo_config := config; bo_max_scores := max_scores;
             bo_rankings := rankings_of config board problem_ids visible |}.

(** ** The subtask scores of a submission *)

Definition handle_submission_subtask_scores (req : PluginHttpRequest)
    : Handler (option (list SubtaskScoreDetail)) (PluginHttpResponse (option (list SubtaskScoreDetail))) :=
  contest_id ← query (param_i32 req (u "contest_id"));
  submission_id ← query (param_i32 req (u "submission_id"));
  config ← query (ie_config env contest_id);
  contest ← check (check_access (ie_contest env) req contest_id);
  _ ← check (require_type contest IOI);
  found ← query (ask (ie_tables env) QSubmission
                   (columns ← it_columns (ie_tables env) !! submission_id;
                    if decide (sc_contest_id columns = Some contest_id) then Some columns else None));
  info ← query (ok_or found (Other (u "Submission not found")));
  let privileged := can_view_privileged_submission_feedback req in
  tokened ← (if negb privileged && negb (bool_decide (ci_phase contest = AFTER)) && tokens_enabled config
             then host_call (viewer_has_token_feedback_for_submission req contest_id submission_id)
             else mret false);
  match subtask_scores_access_decision (ci_phase contest) (user_id req) (sc_user_id info) privileged
          tokened (feedback_level config) with
  | Denied status message => refuse status message
  | Allowed false => respond None
  | Allowed true =>
      task_config ← query (load_task_config env contest_id (sc_problem_id info));
      cases ← query (load_effective_subtasks (ie_tables env) (sc_problem_id info) task_config);
      rows ← query (load_current_submission_test_case_results (ie_tables env) contest_id submission_id);
      respond (if decide (rows = []) then None
               else Some (score_submission_subtask_details cases.1 cases.2 rows))
  end.

End handlers.
