(* ===== verification/IoiBoardProofs.v ===== *)
(** * IoiBoardProofs: the official scores of an IOI contest

    The score of a task does not depend on the order in which the submissions are
    met (the source iterates over hash maps), and the scoreboard shows the score
    the token endpoint computes. *)

From stdpp Require Import base gmap sets list.
From S2P Require Import Prelude.
From S2P Require Import Text Float Verdict Sdk Host Judging JudgingDb.
From S2P Require Import DispatchInvariant Ioi IoiTokens IoiBoard.

(** ** The best of each subtask *)

Lemma keep_bests_lookup bests scores i :
  keep_bests bests scores !! i =
  match bests !! i, scores !! i with
  | Some b, Some s => Some (keep_better b s)
  | b, _ => b
  end.
Proof.
  revert scores i. induction bests as [|b bests IH]; intros [|s scores] [|i]; cbn; try done.
  by destruct (bests !! i).
Qed.

Lemma keep_bests_ok bests scores : Forall best_ok bests → Forall best_ok (keep_bests bests scores).
Proof.
  rewrite !Forall_lookup. intros Hb i x. rewrite keep_bests_lookup.
  destruct (bests !! i) as [b|] eqn:E, (scores !! i) as [s|]; [|naive_solver..].
  intros [= <-]. eapply keep_better_ok, Hb, E.
Qed.

Lemma keep_bests_comm bests s t : Forall best_ok bests →
  keep_bests (keep_bests bests s) t = keep_bests (keep_bests bests t) s.
Proof.
  rewrite Forall_lookup. intros Hb. apply list_eq. intros i. rewrite !keep_bests_lookup.
  destruct (bests !! i) as [b|] eqn:E, (s !! i) as [x|], (t !! i) as [y|]; try done.
  f_equal. eapply keep_better_comm, Hb, E.
Qed.

Lemma score_sum_best_subtask_perm all all' :
  all ≡ₚ all' → score_sum_best_subtask all = score_sum_best_subtask all'.
Proof.
  intros Hp. unfold score_sum_best_subtask. destruct (decide (all = [])) as [-> |Hne].
  { by rewrite Permutation_nil_l in Hp; subst. }
  rewrite decide_False by (intros ->; apply Hne; by rewrite Permutation_nil_r in Hp).
  assert (foldr Nat.max 0 (length <$> all) = foldr Nat.max 0 (length <$> all')) as ->.
  { clear Hne. induction Hp; cbn; lia. }
  do 2 f_equal. eapply (foldl_perm_inv _ (Forall best_ok)); [| |done|].
  - intros; by apply keep_bests_ok.
  - intros; by apply keep_bests_comm.
  - apply Forall_replicate, best_ok_zero.
Qed.

Lemma sum_best_subtask_score_perm defs test_cases scores scores' :
  scores ≡ₚ scores' →
  sum_best_subtask_score defs test_cases scores = sum_best_subtask_score defs test_cases scores'.
Proof. intros Hp. unfold sum_best_subtask_score. by apply score_sum_best_subtask_perm, fmap_Permutation. Qed.

(** ** Grouping results *)

(** A fold that changes one entry at a time, seen at one key. *)
Lemma foldl_group {K V R} `{Countable K} (step : gmap K V → R → gmap K V) (i : K)
    (here : R → Prop) `{∀ r, Decision (here r)} (f : option V → R → V) rows m :
  (∀ m r, step m r !! i = if decide (here r) then Some (f (m !! i) r) else m !! i) →
  foldl step m rows !! i = foldl (λ acc r, Some (f acc r)) (m !! i) (filter here rows).
Proof.
  intros Hstep. revert m. induction rows as [|r rows IH]; intros m; [done|].
  cbn [foldl]. rewrite IH, Hstep, filter_cons. by destruct (decide (here r)).
Qed.

(** Elements with one key keep their order when a list is sorted by it. *)
Lemma filter_sort_by_key {A K} `{OrdLaws K} (key : A → K) (P : A → Prop) `{∀ x, Decision (P x)} l :
  (∀ x y, x ∈ l → y ∈ l → P x → P y → key x = key y) → filter P (sort_by_key key l) = filter P l.
Proof.
  induction l as [|x l IH]; intros Hk; [done|]. cbn [sort_by_key foldr].
  change (foldr _ _ l) with (sort_by_key key l).
  assert (∀ l', (∀ y, y ∈ l' → y ∈ l) →
    filter P (insert_by_key key x l') = filter P (x :: l')) as Hins.
  { induction l' as [|y l' IH']; intros Hl'; [done|]. cbn [insert_by_key].
    destruct (kle (key x) (key y)) eqn:E; [done|].
    rewrite filter_cons, IH' by (intros; apply Hl'; by right). rewrite !filter_cons.
    destruct (decide (P x)) as [Hx|], (decide (P y)) as [Hy|]; try done.
    rewrite (Hk x y) in E by (done || (by left) || (right; apply Hl'; by left)). by rewrite kle_refl in E. }
  rewrite Hins by (intros y Hy; by apply elem_of_sort_by_key in Hy).
  rewrite !filter_cons, IH by (intros; apply Hk; by try right). done.
Qed.

Lemma foldl_grouped {V W R} (pr : V → W) (f : option V → R → V) (g : option W → R → W) rows acc :
  (∀ acc r, r ∈ rows → pr (f acc r) = g (pr <$> acc) r) →
  pr <$> foldl (λ acc r, Some (f acc r)) acc rows = foldl (λ acc r, Some (g acc r)) (pr <$> acc) rows.
Proof.
  revert acc. induction rows as [|r rows IH]; intros acc Hf; [done|]. cbn [foldl].
  rewrite IH by (intros; apply Hf; by right). cbn [fmap option_fmap option_map].
  by rewrite Hf by left.
Qed.

(** The scores of a submission with these results. *)
Definition add_score (maxes : gmap Z f64) (labels : gmap Z ustring)
    (acc : option (gmap ustring f64)) (r : TcResultRow) : gmap ustring f64 :=
  <[default (show (tcr_test_case_id r)) (labels !! tcr_test_case_id r) := row_raw_score maxes r]>
    (default ∅ acc).

Definition scores_of (maxes : gmap Z f64) (labels : gmap Z ustring) (rows : list TcResultRow)
    : option (gmap ustring f64) :=
  foldl (λ acc r, Some (add_score maxes labels acc r)) None rows.

Lemma official_group maxes labels rows s :
  foldl (add_result maxes labels) ∅ rows !! s
  = scores_of maxes labels (filter (λ r, tcr_submission_id r = s) rows).
Proof.
  unfold scores_of. erewrite foldl_group; [by rewrite lookup_empty|]. intros m r. unfold add_result. cbn.
  case_decide as Hs; [subst s; by rewrite lookup_insert_eq|]. by rewrite lookup_insert_ne.
Qed.

(** A map built from rows, and the map built from the rows' pairs. *)
Lemma meta_lookup test_cases id :
  test_case_meta test_cases !! id =
  label ← id_to_label test_cases !! id; max ← max_map test_cases !! id; Some (label, max).
Proof.
  unfold test_case_meta, id_to_label, max_map.
  induction test_cases as [|tc test_cases IH] using rev_ind; [done|]. rewrite !foldl_snoc.
  destruct (decide (tc_id tc = id)) as [<-|Hne]; [by rewrite !lookup_insert_eq|].
  by rewrite !lookup_insert_ne.
Qed.

Definition known_case (test_cases : list TestCaseRow) (r : TcResultRow) : Prop :=
  tcr_test_case_id r ∈ tc_id <$> test_cases.

Lemma id_map_known {A} (f : TestCaseRow → A) test_cases id :
  id ∈ tc_id <$> test_cases →
  is_Some (foldl (λ m tc, <[tc_id tc := f tc]> m) (∅ : gmap Z A) test_cases !! id).
Proof.
  induction test_cases as [|tc test_cases IH] using rev_ind; [by intros ?%not_elem_of_nil|].
  rewrite fmap_app, elem_of_app, foldl_snoc. intros Hid.
  destruct (decide (tc_id tc = id)) as [<-|Hne]; [rewrite lookup_insert_eq; by eexists|].
  rewrite lookup_insert_ne by done. apply IH. destruct Hid as [|Hid]; [done|].
  apply list_elem_of_singleton in Hid. by subst.
Qed.

Definition row_key (r : TcResultRow) : Z * Z * Z := (tcr_user_id r, tcr_problem_id r, tcr_submission_id r).

Lemma board_group problems cases rows user problem s :
  problems !! problem = Some cases →
  (∀ r, r ∈ rows → tcr_problem_id r = problem → known_case cases.1 r) →
  snd <$> foldl (add_board_result problems) ∅ rows !! (user, problem, s)
  = scores_of (max_map cases.1) (id_to_label cases.1) (filter (λ r, row_key r = (user, problem, s)) rows).
Proof.
  intros Hp Hknown. unfold scores_of.
  set (f := λ (acc : option (Z * gmap ustring f64)) r,
    let '(label, max) := default ([], f_zero) (test_case_meta cases.1 !! tcr_test_case_id r) in
    let at_ := default 0%Z (tcr_elapsed_seconds r) in
    let '(elapsed, scores) := default (at_, ∅) acc in
    (Z.min elapsed at_,
     <[label := normalized_raw_score (tcr_verdict r) (tcr_score r) max]> scores)).
  rewrite (foldl_group _ (user, problem, s)
    (λ r, row_key r = (user, problem, s) ∧ is_Some (test_case_meta cases.1 !! tcr_test_case_id r)) f).
  - rewrite lookup_empty. replace (filter _ rows) with (filter (λ r, row_key r = (user, problem, s)) rows).
    2: { apply filter_ext_elem. intros r Hr. split; [|by intros []]. intros Hk. split; [done|].
         rewrite meta_lookup. pose proof (Hknown r Hr ltac:(by injection Hk)) as Hc.
         destruct (id_map_known resolve_tc_label _ _ Hc) as [l El], (id_map_known tc_score _ _ Hc) as [x Ex].
         unfold id_to_label, max_map. rewrite El, Ex. by eexists. }
    apply (foldl_grouped snd _ _ _ None). intros acc r [Hk Hr]%list_elem_of_filter. unfold f, add_score, row_raw_score.
    rewrite meta_lookup. pose proof (Hknown r Hr ltac:(by injection Hk)) as Hc.
    destruct (id_map_known resolve_tc_label _ _ Hc) as [l El], (id_map_known tc_score _ _ Hc) as [x Ex].
    unfold id_to_label, max_map. rewrite El, Ex. cbn. by destruct acc as [[]|].
  - intros m r. unfold add_board_result, f. fold (row_key r).
    destruct (decide (row_key r = (user, problem, s))) as [Hk|Hk].
    + injection Hk as <- <- <-. rewrite Hp. cbn [mbind option_bind].
      destruct (test_case_meta cases.1 !! tcr_test_case_id r) as [[label max]|]; cbn [default from_option id].
      * rewrite decide_True by (split; [done|by eexists]). destruct (default _ _). by rewrite lookup_insert_eq.
      * rewrite decide_False by (intros [_ [? ?]]; done). done.
    + rewrite decide_False by tauto. case_match; [|done]. case_match. case_match. by rewrite lookup_insert_ne.
Qed.

(** The scores of a cell are those of the submissions, in some order. *)
Lemma group_submissions_perm (by_submission : gmap (Z * Z * Z) (Z * gmap ustring f64)) (key : Z * Z) (official : gmap Z (gmap ustring f64)) :
  (∀ s, snd <$> by_submission !! (key, s) = official !! s) →
  (group_submissions by_submission key).*2 ≡ₚ (map_to_list official).*2.
Proof.
  intros Heq. unfold group_submissions.
  set (l := filter _ (map_to_list by_submission)).
  assert (((λ e, (e.1.2, e.2.2)) <$> l) ≡ₚ map_to_list official) as <-.
  { apply NoDup_Permutation.
    - apply NoDup_fmap_2_strong; [|apply NoDup_filter, NoDup_map_to_list].
      intros [[[u p] s] [e sc]] [[[u' p'] s'] [e' sc']] [Hk Hx]%list_elem_of_filter [Hk' Hx']%list_elem_of_filter.
      cbn in *. intros [= -> ->]. subst key. injection Hk' as -> ->.
      apply elem_of_map_to_list in Hx, Hx'. congruence.
    - apply NoDup_map_to_list.
    - intros [s sc]. rewrite list_elem_of_fmap, elem_of_map_to_list, <- Heq, fmap_Some. split.
      + intros ([[[u p] s'] [e sc']] & [= -> ->] & [<- Hx]%list_elem_of_filter). cbn.
        exists (e, sc'). split; [|done]. by apply elem_of_map_to_list.
      + intros ([e sc'] & Hx & ->). exists ((key, s), (e, sc')). split; [done|].
        apply list_elem_of_filter. split; [by destruct key|]. by apply elem_of_map_to_list. }
  by rewrite <- !list_fmap_compose.
Qed.

(** A map collected from keys. *)
Lemma collect_lookup {K V} `{Countable K} (step : gmap K V → K → gmap K V) (c : K → option V) keys k :
  (∀ m key, step m key = match c key with Some x => <[key := x]> m | None => m end) →
  foldl step ∅ keys !! k = if decide (k ∈ keys) then c k else None.
Proof.
  intros Hstep. induction keys as [|key keys IH] using rev_ind; [done|].
  rewrite foldl_snoc, Hstep. destruct (decide (k = key)) as [<-|Hne].
  - rewrite decide_True by (apply elem_of_app; right; by left).
    destruct (c k) eqn:E; [by rewrite lookup_insert_eq|]. rewrite IH. by case_decide.
  - assert (k ∈ keys ++ [key] ↔ k ∈ keys) as Hiff.
    { rewrite elem_of_app, list_elem_of_singleton. tauto. }
    rewrite (decide_ext _ _ _ _ Hiff), <- IH. destruct (c key); [by rewrite lookup_insert_ne|done].
Qed.

Lemma elem_of_cell_keys users problems user problem :
  (user, problem) ∈ cell_keys users problems ↔ user ∈ users ∧ problem ∈ problems.
Proof.
  unfold cell_keys. rewrite list_elem_of_bind. setoid_rewrite list_elem_of_fmap. naive_solver.
Qed.

(** ** Maxima of scores *)

Definition nonneg (x : f64) : Prop := is_nan x = false ∧ f_leb f_zero x = true.

Lemma nonneg_key x : nonneg x → kle (f_key f_zero) (f_key x) = true.
Proof. intros [Hn Hx]. rewrite <- Hx. symmetry. by apply f_leb_key. Qed.

Lemma foldl_f_max_key x l : is_nan x = false → Forall nonneg l →
  is_nan (foldl f_max x l) = false ∧ f_key (foldl f_max x l) = foldl key_max (f_key x) (f_key <$> l).
Proof.
  intros Hx Hl. revert x Hx. induction Hl as [|y l [Hy _] _ IH]; intros x Hx; cbn; [done|].
  destruct (IH (f_max x y)) as [Hn ->]; [by apply f_max_nan|]. by rewrite f_max_key.
Qed.

Lemma key_max_l a b : kle a b = true → key_max a b = b.
Proof. unfold key_max, klt. by intros ->. Qed.

Lemma key_max_r a b : kle b a = true → key_max a b = a.
Proof.
  unfold key_max. intros Hba. destruct (klt b a) eqn:E; [done|]. apply klt_false in E. by apply kle_antisym.
Qed.

Lemma reduce_max_key l : Forall nonneg l →
  is_nan (default f_zero (reduce_max l)) = false ∧
  f_key (default f_zero (reduce_max l)) = foldl key_max (f_key f_zero) (f_key <$> l).
Proof.
  destruct 1 as [|x l [Hx Hpos] Hl]; [done|]. cbn [reduce_max default from_option].
  destruct (foldl_f_max_key x l Hx Hl) as [Hn Hk]. split; [done|]. unfold id. rewrite Hk.
  cbn [fmap list_fmap foldl]. by rewrite (key_max_l _ _ (nonneg_key x (conj Hx Hpos))).
Qed.

(** Rows without a score do not matter to a maximum that is at least 0. *)
Lemma default_scores_key rows a : kle (f_key f_zero) a = true →
  Forall nonneg (omap jr_score rows) →
  foldl key_max a (f_key <$> (score_of <$> rows)) = foldl key_max a (f_key <$> omap jr_score rows).
Proof.
  revert a. induction rows as [|r rows IH]; intros a Ha Hnn; [done|]. cbn in *. unfold score_of at 1.
  destruct (jr_score r) as [x|]; cbn [default from_option fmap list_fmap foldl] in *.
  - apply Forall_cons in Hnn as [[Hx Hpos] Hnn]. rewrite IH; [done| |done].
    unfold key_max. case_match; [done|]. by apply nonneg_key.
  - rewrite key_max_r by done. by apply IH.
Qed.

Lemma omap_nonneg rows :
  Forall nonneg (omap jr_score rows) → Forall nonneg (score_of <$> rows).
Proof.
  rewrite !Forall_forall. intros Hn x (r & -> & Hr)%list_elem_of_fmap. unfold score_of.
  destruct (jr_score r) as [s|] eqn:E; [|done]. cbn. apply Hn, list_elem_of_omap. by exists r.
Qed.

Lemma reduce_max_default rows : Forall nonneg (omap jr_score rows) →
  f_same (default f_zero (reduce_max (score_of <$> rows))) (default f_zero (reduce_max (omap jr_score rows))).
Proof.
  intros Hn. destruct (reduce_max_key _ (omap_nonneg _ Hn)) as [Hx Hkx], (reduce_max_key _ Hn) as [Hy Hky].
  apply f_key_same; [done..|]. rewrite Hkx, Hky. by apply default_scores_key.
Qed.

#[global] Instance f_same_max : Proper (f_same ==> f_same ==> f_same) f_max.
Proof. unfold Proper, respectful. same_cases. Qed.

#[global] Instance f_same_round_score : Proper (f_same ==> f_same) round_score.
Proof. intros x y Hxy. unfold round_score. by rewrite Hxy. Qed.

(** ** Rows of a contestant *)

Lemma judged_row_columns t r : r ∈ judged_rows t →
  ∃ c, it_columns t !! jr_id r = Some c ∧ sc_user_id c = jr_user_id r ∧
       sc_problem_id c = jr_problem_id r ∧ sc_contest_id c = jr_contest_id r ∧
       jr_elapsed_seconds r = elapsed_in t (jr_contest_id r) (jr_created_at r).
Proof.
  unfold judged_rows. intros (s & Hr & _)%list_elem_of_bind.
  apply list_elem_of_omap in Hr as (j & _ & Hj). unfold joined in Hj.
  apply bind_Some in Hj as (c & Hc & Hj). injection Hj as <-. by exists c.
Qed.

(** The foreign key: joining the contest leaves no row of a contest out. *)
Lemma elapsed_in_contest t id c contest created_at :
  it_columns t !! id = Some c → sc_contest_id c = Some contest →
  is_Some (elapsed_in t (Some contest) created_at).
Proof. intros Hc Hk. destruct (it_contest_fk t id c contest Hc Hk) as [start E]. cbn. rewrite E. by eexists. Qed.

Lemma rows_with_contest t contest user problem rows :
  rows ⊆ judged_rows t →
  rows_of contest user problem (with_contest rows) = rows_of contest user problem rows.
Proof.
  intros Hrows. unfold rows_of, with_contest. rewrite list_filter_filter. apply filter_ext_elem. intros r Hr.
  destruct (judged_row_columns t r (Hrows r Hr)) as (c & Hc & _ & _ & Hk & He).
  split; [by intros []|]. intros (E & Hu & Hp). split_and!; [done..|]. rewrite He, E.
  eapply elapsed_in_contest; [done|congruence].
Qed.

Lemma result_row_columns t r : r ∈ result_rows t →
  ∃ c s, it_columns t !! tcr_submission_id r = Some c ∧ sc_user_id c = tcr_user_id r ∧
       sc_problem_id c = tcr_problem_id r ∧ sc_contest_id c = Some (tcr_contest_id r) ∧
       db_submissions (it_judging t) !! tcr_submission_id r = Some s ∧ jb_created_at s = tcr_created_at r ∧
       tcr_elapsed_seconds r = elapsed_in t (Some (tcr_contest_id r)) (jb_created_at s).
Proof.
  intros (x & _ & Hr)%list_elem_of_omap. unfold joined_result in Hr.
  repeat (apply bind_Some in Hr as (? & ? & Hr)). injection Hr as <-. cbn. do 2 eexists. split_and!; done.
Qed.

Lemma all_results_with_contest t : results_with_contest (result_rows t) = result_rows t.
Proof.
  apply filter_all. intros r (c & s & Hc & _ & _ & Hk & _ & _ & ->)%result_row_columns.
  by eapply elapsed_in_contest.
Qed.

Lemma result_rows_same_submission t r r' :
  r ∈ result_rows t → r' ∈ result_rows t → tcr_submission_id r = tcr_submission_id r' →
  row_key r = row_key r' ∧ tcr_contest_id r = tcr_contest_id r' ∧ tcr_created_at r = tcr_created_at r'.
Proof.
  intros (c & s & Hc & Hu & Hp & Hk & Hs & Ht & _)%result_row_columns
         (c' & s' & Hc' & Hu' & Hp' & Hk' & Hs' & Ht' & _)%result_row_columns E.
  rewrite E in *. simplify_eq. unfold row_key. split_and!; congruence.
Qed.

(** The tokened submissions of these contestants are their own, in this contest. *)
Definition tokens_owned `{Serde TokenState} (t : IoiTables) (h : Host) (contest : Z) (users : list Z) : Prop :=
  ∀ user id, user ∈ users → id ∈ ts_tokened_submission_ids (token_state_in h contest user) →
    ∃ c, it_columns t !! id = Some c ∧ sc_user_id c = user ∧ sc_contest_id c = Some contest.

Lemma all_tokened_ids_spec `{Serde TokenState} h contest users id :
  id ∈ all_tokened_ids h contest users ↔
  ∃ user, user ∈ users ∧ id ∈ ts_tokened_submission_ids (token_state_in h contest user).
Proof.
  unfold all_tokened_ids, token_state_in. rewrite elem_of_remove_dups, elem_of_sort_by_key, list_elem_of_bind.
  split; intros (user & ? & ?); exists user; split; try done; by case_match.
Qed.

Section agreement.
Context `{Serde TokenState} (t : IoiTables) (config : ContestConfig) (contest : Z) (h : Host).
Context (users problems : list Z) (user problem : Z).
Hypothesis Huser : user ∈ users.
Hypothesis Hproblem : problem ∈ problems.

Abbreviation cell_score board := (sc_cell_score (default cell_default (board !! (user, problem)))).

Lemma board_not_empty : ¬ (users = [] ∨ problems = []).
Proof. by intros [E|E]; rewrite E in *; [apply not_elem_of_nil in Huser|apply not_elem_of_nil in Hproblem]. Qed.

Lemma max_submission_agrees s board :
  ask t QMaxScore (reduce_max (omap jr_score (rows_of contest user problem (judged_rows t)))) = Ok s →
  load_max_submission_scoreboard_cells t contest users problems = Ok board →
  cell_score board = default f_zero s.
Proof.
  unfold ask, load_max_submission_scoreboard_cells. destruct (it_error t QMaxScore); [done|]. intros [= <-].
  rewrite (decide_False (P := users = [] ∨ problems = [])) by apply board_not_empty.
  destruct (ask t QMaxCells _) as [b|e] eqn:E; [|done]. intros [= <-]. unfold ask in E.
  destruct (it_error t QMaxCells); [done|]. injection E as <-. erewrite collect_lookup; [|done].
  rewrite decide_True by by apply elem_of_cell_keys. cbn [fst snd].
  unfold max_cell. set (rows := rows_of _ _ _ (with_contest _)).
  assert ((omap scored rows).*1 = omap jr_score rows) as ->.
  { assert (∀ r, r ∈ rows → is_Some (jr_elapsed_seconds r)) as Hrows.
    { unfold rows, rows_of, with_contest. rewrite list_filter_filter. by intros r [[? ?] _]%list_elem_of_filter. }
    clearbody rows. induction rows as [|r rows IH]; [done|]. cbn. unfold scored at 1.
    destruct (Hrows r ltac:(by left)) as [e ->]. cbn.
    destruct (jr_score r); cbn; rewrite IH; auto; intros r' Hr'; apply Hrows; by right. }
  unfold rows. rewrite (rows_with_contest t) by done.
  by destruct (reduce_max _).
Qed.

Lemma tokened_or_last_agrees s board :
  scoring_mode config = BestTokenedOrLast → tokens_owned t h contest users →
  (∀ r x, r ∈ finalized_rows t → jr_score r = Some x → nonneg x) →
  compute_official_task_score t config contest problem user None h = Ok s →
  load_best_tokened_or_last_scoreboard_cells t contest users problems h = Ok board →
  f_same (cell_score board) s.
Proof.
  intros Hmode Hown Hnn. unfold compute_official_task_score. rewrite Hmode.
  unfold load_best_tokened_or_last_scoreboard_cells.
  rewrite (decide_False (P := users = [] ∨ problems = [])) by apply board_not_empty.
  set (ids := ts_tokened_submission_ids (token_state_in h contest user)).
  set (group := rows_of contest user problem (finalized_rows t)).
  assert (filter (λ r, jr_id r ∈ ids ∧ jr_problem_id r = problem) (finalized_rows t)
    = filter (λ r, jr_id r ∈ all_tokened_ids h contest users) group) as Hrows.
  { unfold group, rows_of. rewrite list_filter_filter. apply filter_ext_elem. intros r Hr.
    rewrite all_tokened_ids_spec. apply list_elem_of_filter in Hr as [_ Hr].
    destruct (judged_row_columns _ _ Hr) as (c & Hc & Hu & Hp & Hk & _). split.
    - intros [Hid <-]. destruct (Hown user _ Huser Hid) as (c' & Hc' & Hu' & Hk').
      assert (c' = c) as -> by congruence. split; [exists user; by split|]. split_and!; congruence.
    - intros [(user' & Huser' & Hid) (_ & <- & <-)]. split; [|done].
      destruct (Hown user' _ Huser' Hid) as (c' & Hc' & Hu' & _).
      assert (c' = c) as -> by congruence. unfold ids. by rewrite <- Hu, Hu'. }
  assert (rows_of contest user problem (with_contest (finalized_rows t)) = group) as Hgroup.
  { apply (rows_with_contest t). by intros r [_ ?]%list_elem_of_filter. }
  intros Hoff Hboard.
  assert (s = score_best_tokened_or_last
    (default f_zero (reduce_max (omap jr_score (filter (λ r, jr_id r ∈ ids ∧ jr_problem_id r = problem) (finalized_rows t)))))
    (default f_zero (score_of <$> newest group))) as ->.
  { revert Hoff. unfold ask. fold ids. destruct (decide (ids = [])) as [E|E].
    - cbn. destruct (it_error t QLastScore); cbn; [done|]. intros [= <-]. f_equal.
      rewrite filter_none; [done|]. intros r _ [Hr _]. rewrite E in Hr. by apply not_elem_of_nil in Hr.
    - destruct (it_error t QTokenedMax); cbn; [done|]. destruct (it_error t QLastScore); cbn; [done|]. by intros [= <-]. }
  revert Hboard. unfold ask. destruct (it_error t QLastCells); [done|]. cbn [mbind result_bind].
  intros Hboard. rewrite Hrows. set (tokened := filter _ group).
  assert (∃ by_cell : Z * Z → list JudgedRow, by_cell (user, problem) = tokened ∧
    board = foldl (λ m key, <[key := tokened_cell (by_cell key)
      (newest (rows_of contest key.1 key.2 (with_contest (finalized_rows t))))]> m) ∅ (cell_keys users problems)) as (by_cell & Hcell & ->).
  { revert Hboard. destruct (decide (all_tokened_ids h contest users = [])) as [E|E]; cbn [mbind result_bind].
    - intros [= <-]. exists (λ _, []). split; [|done]. symmetry. apply filter_none. intros r _ Hr.
      rewrite E in Hr. by apply not_elem_of_nil in Hr.
    - destruct (it_error t QTokenedCells); cbn [mbind result_bind]; [done|]. intros [= <-].
      exists (λ key, filter (λ r, jr_id r ∈ all_tokened_ids h contest users)
                       (rows_of contest key.1 key.2 (with_contest (finalized_rows t)))). split; [|done].
      cbn [fst snd]. by rewrite Hgroup. }
  rewrite (collect_lookup _ (λ key, Some (tokened_cell (by_cell key)
    (newest (rows_of contest key.1 key.2 (with_contest (finalized_rows t))))))) by done.
  rewrite decide_True by by apply elem_of_cell_keys. cbn [default from_option id tokened_cell sc_cell_score fst snd].
  rewrite Hcell, Hgroup. unfold score_best_tokened_or_last. do 2 f_equiv.
  apply reduce_max_default, Forall_forall. intros x (r & Hr & Hx)%list_elem_of_omap.
  apply list_elem_of_filter in Hr as [_ [_ Hr]%list_elem_of_filter]. by eapply Hnn.
Qed.

Lemma load_problem_subtasks_lookup ps acc loaded : load_problem_subtasks t contest ps acc = Ok loaded →
  ∀ p, p ∈ ps → ∃ task_config cases,
    io_task_config (it_ioi t) contest p = Ok task_config ∧
    load_effective_subtasks t p task_config = Ok cases ∧ loaded !! p = Some cases.
Proof.
  assert (∀ ps acc loaded p, load_problem_subtasks t contest ps acc = Ok loaded → p ∉ ps →
    loaded !! p = acc !! p) as Hout.
  { clear. induction ps as [|p' ps IH]; intros acc loaded p; cbn; [by intros [= ->]|].
    destruct (io_task_config (it_ioi t) contest p') as [tc|]; cbn; [|done].
    destruct (load_effective_subtasks t p' tc) as [cases|]; cbn; [|done]. intros Hl [Hne Hp]%not_elem_of_cons.
    rewrite (IH _ _ _ Hl Hp). by apply lookup_insert_ne. }
  revert acc. induction ps as [|p' ps IH]; intros acc; cbn; [by intros _ p ?%not_elem_of_nil|].
  destruct (io_task_config (it_ioi t) contest p') as [tc|] eqn:Ec; cbn; [|done].
  destruct (load_effective_subtasks t p' tc) as [cases|] eqn:El; cbn; [|done]. intros Hl p Hp.
  destruct (decide (p ∈ ps)) as [Hin|Hn]; [by eapply IH|].
  apply elem_of_cons in Hp as [-> |]; [|done]. exists tc, cases. split_and!; [done..|].
  rewrite (Hout _ _ _ _ Hl Hn). by apply lookup_insert_eq.
Qed.

(** The results that count are results of the cases of their problem. *)
Definition results_known : Prop :=
  ∀ r, r ∈ result_rows t → tcr_problem_id r = problem → known_case (it_test_cases t problem) r.

Lemma effective_cases task_config cases :
  load_effective_subtasks t problem task_config = Ok cases → cases.1 = it_test_cases t problem.
Proof.
  unfold load_effective_subtasks, ask. destruct (it_error t QTestCases); cbn; [done|]. by intros [= <-].
Qed.

Lemma sum_best_agrees s board :
  scoring_mode config = SumBestSubtask → results_known →
  compute_official_task_score t config contest problem user None h = Ok s →
  load_sum_best_subtask_scoreboard_cells t contest users problems = Ok board →
  cell_score board = s.
Proof.
  intros Hmode Hknown. unfold compute_official_task_score. rewrite Hmode.
  unfold load_sum_best_subtask_scoreboard_cells.
  rewrite (decide_False (P := users = [] ∨ problems = [])) by apply board_not_empty.
  intros Hoff Hboard. destruct (load_problem_subtasks _ _ _ _) as [loaded|] eqn:El; cbn [mbind result_bind] in Hboard; [|done].
  destruct (load_problem_subtasks_lookup _ _ _ El problem Hproblem) as (tc & cases & Htc & Hcases & Hl).
  pose proof (effective_cases _ _ Hcases) as Ecases.
  revert Hoff. rewrite Htc. cbn [mbind result_bind]. rewrite Hcases. cbn [mbind result_bind].
  rewrite all_results_with_contest in Hboard. unfold recompute_sum_best_subtask, ask in *. revert Hboard.
  destruct (it_error t QResultCells); [done|]. cbn [mbind result_bind]. intros [= <-].
  destruct (it_error t QResults); [done|]. cbn [mbind result_bind].
  destruct (it_error t QTestCases); [done|]. cbn [mbind result_bind]. intros [= <-].
  erewrite (collect_lookup _ (λ key, cases ← loaded !! key.2; Some (sum_best_cell cases (group_submissions _ key)))).
  2: { intros m key. by destruct (loaded !! key.2). }
  rewrite decide_True by by apply elem_of_cell_keys. cbn [fst snd]. rewrite Hl.
  cbn [mbind option_bind default from_option id sum_best_cell sc_cell_score].
  apply sum_best_subtask_score_perm, group_submissions_perm. intros x. rewrite official_group, <- Ecases.
  rewrite board_group with (cases := cases); [|done|].
  - f_equal. rewrite filter_sort_by_key.
    + rewrite !list_filter_filter. apply filter_ext_elem. intros r Hr. unfold row_key. split.
      * intros [[= -> -> ->] [-> _]]. done.
      * intros [-> (-> & -> & ->)]. done.
    + intros r r' [_ Hr]%list_elem_of_filter [_ Hr']%list_elem_of_filter Hk Hk'.
      apply (result_rows_same_submission t); [done..|]. unfold row_key in *. congruence.
  - intros r Hr Hp. apply elem_of_sort_by_key, list_elem_of_filter in Hr as [_ Hr]. rewrite Ecases. by apply Hknown.
Qed.
End agreement.

(** C21. The scoreboard shows the score the token endpoint computes, in each scoring
    mode: for a contestant and a problem of the board, the two agree (up to the sign
    of a zero), although one asks about one contestant and the other about all of
    them and neither fixes the order of the submissions.  Tokened submissions belong
    to their contestants, scores are not negative, and results are results of the
    cases of the problem. *)
Theorem board_shows_official_score `{Serde TokenState} (t : IoiTables) (config : ContestConfig)
    (contest : Z) (h : Host) (users problems : list Z) (user problem : Z) s board :
  user ∈ users → problem ∈ problems →
  (scoring_mode config = BestTokenedOrLast →
     tokens_owned t h contest users ∧
     ∀ r x, r ∈ finalized_rows t → jr_score r = Some x → nonneg x) →
  (scoring_mode config = SumBestSubtask → results_known t problem) →
  compute_official_task_score t config contest problem user None h = Ok s →
  load_scoreboard_cells t config contest users problems h = Ok board →
  f_same (sc_cell_score (default cell_default (board !! (user, problem)))) s.
Proof.
  intros Hu Hp Htok Hknown Hoff Hboard. unfold load_scoreboard_cells in Hboard.
  destruct (scoring_mode config) eqn:Emode.
  - unfold compute_official_task_score in Hoff. rewrite Emode in Hoff.
    destruct (ask t QMaxScore _) as [m|] eqn:Eask; cbn in Hoff; [|done]. injection Hoff as <-.
    left. by eapply max_submission_agrees.
  - left. eapply sum_best_agrees; eauto.
  - destruct (Htok eq_refl). eapply tokened_or_last_agrees; eauto.
Qed.

(** * The order and the ranks of an IOI scoreboard

    The comparator of the source is the order of a key, so that the rows of the
    board are sorted; ranks are competition ranks; the board shows the scores of
    the token endpoint, and only the rows a viewer may see. *)

From Stdlib Require Import SpecFloat.
From stdpp Require Import base gmap sets list sorting.
From S2P Require Import IoiApi.

(** ** The comparator *)

Definition tie_time (tiebreaker : ScoreboardTiebreaker) (e : RankEntry) : Z :=
  match tiebreaker with
  | EqualRank => 0%Z
  | SumScoreTime | MaxScoreTime => re_total_time_seconds e
  end.

(** What decides a place: the score, and the time where it breaks ties. *)
Definition place_key (tiebreaker : ScoreboardTiebreaker) (e : RankEntry) : reversed (Z * (Z * Z)) * Z :=
  (Reverse (f_key (re_total_score e)), tie_time tiebreaker e).

Definition board_key (tiebreaker : ScoreboardTiebreaker) (e : RankEntry)
    : reversed (Z * (Z * Z)) * Z * ustring :=
  (place_key tiebreaker e, re_username e).

Definition finite_total (e : RankEntry) : Prop := is_finite (re_total_score e) = true.

Lemma finite_not_nan x : is_finite x = true → is_nan x = false.
Proof. by destruct x. Qed.

Lemma f_compare_key x y : is_nan x = false → is_nan y = false →
  f_compare x y = Some (if kle (f_key x) (f_key y) then (if kle (f_key y) (f_key x) then Eq else Lt) else Gt).
Proof.
  intros Hx Hy. rewrite <- (f_leb_key x y), <- (f_leb_key y x) by done. unfold f_compare, f_leb, SFleb.
  destruct x as [?|[]| |[] m e], y as [?|[]| |[] n k]; try done; unfold SFcompare;
    rewrite !pos_compare_cont, (Z.compare_antisym (Z.pos m) (Z.pos n)), (Z.compare_antisym e k);
    by destruct (e ?= k)%Z, (Z.pos m ?= Z.pos n)%Z.
Qed.

(** The comparator is the order of the key. *)
Lemma entry_leb_key tiebreaker a b : finite_total a → finite_total b →
  entry_leb tiebreaker a b = kle (board_key tiebreaker a) (board_key tiebreaker b).
Proof.
  intros Ha%finite_not_nan Hb%finite_not_nan. unfold entry_leb, compare_scoreboard_entries.
  rewrite f_compare_key by done. cbn [default from_option id].
  unfold board_key, place_key, kle, Ord_prod, kle, Ord_reverse. cbn [unreverse fst snd]. unfold kle at 1 3.
  change (@kle (Z * (Z * Z)) _) with (@kle (Z * (Z * Z)) Ord_prod).
  assert (match tiebreaker with EqualRank => Eq | _ => re_total_time_seconds a ?= re_total_time_seconds b end
    = (tie_time tiebreaker a ?= tie_time tiebreaker b))%Z as -> by by destruct tiebreaker.
  unfold ustring_compare, kle, Ord_ustring, Ord_Z, Ord_prod, kle.
  destruct (Z.compare_spec (tie_time tiebreaker a) (tie_time tiebreaker b)),
    (Z.leb_spec (tie_time tiebreaker a) (tie_time tiebreaker b)),
    (Z.leb_spec (tie_time tiebreaker b) (tie_time tiebreaker a)); try lia;
    repeat case_match; cbn in *; congruence.
Qed.

(** ** Sorting *)

Lemma insert_entry_key tiebreaker e entries :
  finite_total e → Forall finite_total entries →
  insert_entry tiebreaker e entries = insert_by_key (board_key tiebreaker) e entries.
Proof.
  intros He. induction 1 as [|x entries Hx _ IH]; [done|]. cbn [insert_entry insert_by_key].
  by rewrite entry_leb_key, IH.
Qed.

Lemma sort_entries_key tiebreaker entries :
  Forall finite_total entries → sort_entries tiebreaker entries = sort_by_key (board_key tiebreaker) entries.
Proof.
  induction 1 as [|e entries He Hes IH]; [done|]. cbn [sort_entries foldr].
  change (foldr _ _ entries) with (sort_entries tiebreaker entries). rewrite IH.
  apply insert_entry_key; [done|]. rewrite Forall_forall in *.
  intros x Hx%elem_of_sort_by_key. by apply Hes.
Qed.

(** ** Ranks *)

(** Two scores closer than the tolerance of the board are one score. *)
Definition separated (entries : list RankEntry) : Prop :=
  ∀ a b, a ∈ entries → b ∈ entries →
    f_ltb (f_abs (f_sub (re_total_score a) (re_total_score b))) SCORE_EPSILON = true →
    f_key (re_total_score a) = f_key (re_total_score b).

Lemma f_sub_same x y : is_finite x = true → f_same x y → is_zero (f_sub x y).
Proof.
  intros Hx [<- |[Hz Hz']].
  - destruct x as [[]|[]| |s m e]; try done. unfold f_sub, SFsub. rewrite Z.sub_diag.
    unfold binary_normalize. by destruct s.
  - by destruct x as [[]| | |], y as [[]| | |].
Qed.

Lemma tied_place tiebreaker entries a b :
  Forall finite_total entries → separated entries → a ∈ entries → b ∈ entries →
  tied tiebreaker a b = true ↔ place_key tiebreaker a = place_key tiebreaker b.
Proof.
  rewrite Forall_forall. intros Hfin Hsep Ha Hb. unfold tied, scoreboard_entries_tied, place_key.
  rewrite andb_true_iff. split.
  - intros [Hs Ht]. rewrite (Hsep a b Ha Hb Hs). f_equal. destruct tiebreaker; cbn; [done|lia..].
  - intros [= Hs Ht]. split.
    + pose proof (f_key_same _ _ (finite_not_nan _ (Hfin a Ha)) (finite_not_nan _ (Hfin b Hb)) Hs) as Hsame.
      pose proof (f_sub_same _ _ (Hfin a Ha) Hsame) as Hz. by destruct (f_sub _ _).
    + destruct tiebreaker; cbn in *; [done|lia..].
Qed.

Lemma board_key_place tiebreaker x y :
  key_le (board_key tiebreaker) x y → key_le (place_key tiebreaker) x y.
Proof.
  unfold key_le, board_key. generalize (place_key tiebreaker x), (place_key tiebreaker y).
  intros p q. unfold kle at 1, Ord_prod. cbn [fst snd]. by destruct (kle p q).
Qed.

Lemma rank_entries_ranked tiebreaker i prev entries :
  rank_entries tiebreaker i prev entries = ranked re_rank with_entry_rank (tied tiebreaker) i prev entries.
Proof.
  revert i prev. induction entries as [|e entries IH]; intros i prev; [done|]. cbn [rank_entries ranked].
  by rewrite IH.
Qed.

Lemma rank_entries_map {B} (f : RankEntry → B) tiebreaker i prev entries :
  (∀ n e, f (with_entry_rank n e) = f e) → f <$> rank_entries tiebreaker i prev entries = f <$> entries.
Proof.
  intros Hf. revert i prev. induction entries as [|e entries IH]; intros i prev; [done|].
  cbn [rank_entries fmap list_fmap]. by rewrite Hf, IH.
Qed.

(** The scoreboard ranks contestants as a competition does.  Where the total
    scores are finite and two that differ do so by more than the tolerance of the
    board, everybody has one row, rows come by score, time (if it breaks ties) and
    name, and the rank of a row is one more than the number of rows with a strictly
    better place, so that ties share a rank. *)
Theorem scoreboard_ranked (config : ContestConfig) (board : cells) (problem_ids : list Z)
    (participants : list UserIdentity) :
  let tiebreaker := scoreboard_tiebreaker config in
  let entries := rank_entry config board problem_ids <$> participants in
  let rows := rankings_of config board problem_ids participants in
  Forall finite_total entries → separated entries →
  re_user_id <$> rows ≡ₚ id_user_id <$> participants ∧
  StronglySorted (key_le (board_key tiebreaker)) rows ∧
  Forall (λ e, re_rank e = competition_rank (place_key tiebreaker) rows e) rows.
Proof.
  intros tiebreaker entries rows Hfin Hsep. unfold rows, rankings_of.
  fold tiebreaker entries. rewrite sort_entries_key by done.
  set (sorted := sort_by_key (board_key tiebreaker) entries).
  pose proof (sort_by_key_sorted (board_key tiebreaker) entries) as Hs. fold sorted in Hs.
  assert (∀ e, e ∈ sorted → e ∈ entries) as Hin by by intros e ?%elem_of_sort_by_key.
  split_and!.
  - rewrite rank_entries_map by done. unfold sorted. rewrite (sort_by_key_perm _ entries).
    unfold entries. by rewrite <- list_fmap_compose.
  - apply (sorted_by_keys (board_key tiebreaker) _ sorted); [|done].
    by apply (rank_entries_map (board_key tiebreaker)).
  - rewrite rank_entries_ranked. apply (ranked_spec (place_key tiebreaker)); [done|by destruct tiebreaker|done| |].
    + eapply StronglySorted_weaken; [|exact Hs]. intros x y. apply board_key_place.
    + intros a b Ha Hb. eapply tied_place; eauto.
Qed.
