(* ===== verification/IoiTokensProofs.v ===== *)
(** * IoiTokensProofs: tokens are spent once, and never more than there are

    Contestants spend tokens at the same time, in several windows: each request
    reads the state of the tokens, decides, and writes it back on condition that
    nobody wrote in between.  [TokenWorld] is the storage with the requests under
    way; a step reads, writes, lets time pass or is a change of something else. *)

From stdpp Require Import base gmap sets list.
From S2P Require Import Prelude.
From S2P Require Import Text Float Verdict Sdk Host BracketGate.
From S2P Require Import Icpc JudgingDb Ioi IoiTokens IoiBoard IoiApi.

Open Scope machine_scope.

(** ** How many tokens there are *)

Definition in_u32 (z : Z) : Prop := (0 ≤ z ≤ u32_max)%Z.

(** The configuration is made of [u32]s; minutes fit 63 bits. *)
Definition config_fits (config : TokenConfig) : Prop :=
  in_u32 (tk_initial config) ∧ in_u32 (tk_max config) ∧ in_u32 (tk_regen_interval_min config).

Definition in_time (minutes : Z) : Prop := (0 ≤ minutes < 2 ^ 63)%Z.

#[global] Instance config_fits_dec config : Decision (config_fits config).
Proof. unfold config_fits, in_u32. apply _. Defined.
#[global] Instance in_time_dec minutes : Decision (in_time minutes).
Proof. unfold in_time. apply _. Defined.

(** The tokens handed out so far, spent or not. *)
Definition granted (config : TokenConfig) (elapsed_minutes : Z) : Z :=
  match tk_mode config with
  | NoTokens => u32_max
  | FixedBudget => tk_initial config
  | Regenerating =>
      Z.min (tk_initial config + regenerated config elapsed_minutes) (tk_max config)
  end.

Lemma regen_interval_pos config : (1 ≤ regen_interval config)%Z.
Proof. unfold regen_interval. lia. Qed.

Lemma regenerated_bounds config e : in_time e → (0 ≤ regenerated config e ≤ e)%Z.
Proof.
  intros [H0 _]. unfold regenerated. pose proof (regen_interval_pos config).
  split; [apply Z.div_pos; lia|]. apply Z.div_le_upper_bound; [lia|]. nia.
Qed.

Lemma regenerated_mono config e e' : (e ≤ e')%Z → (regenerated config e ≤ regenerated config e')%Z.
Proof. intros He. unfold regenerated. apply Z.div_le_mono; [|done]. pose proof (regen_interval_pos config). lia. Qed.

Lemma regenerated_total_eq config e : config_fits config → in_time e →
  regenerated_total config e = Z.min (tk_initial config + regenerated config e) (tk_max config).
Proof.
  intros (Hi & _ & _) He. pose proof (regenerated_bounds config e He). unfold in_u32, in_time in *.
  unfold regenerated_total, wrap_u64. rewrite Z.mod_small; [done|]. mlia.
Qed.

Lemma granted_mono config e e' : (e ≤ e')%Z → (granted config e ≤ granted config e')%Z.
Proof.
  intros He. unfold granted. pose proof (regenerated_mono config e e' He). destruct (tk_mode config); lia.
Qed.

Lemma granted_u32 config e : config_fits config → in_time e → in_u32 (granted config e).
Proof.
  intros (Hi & Hm & _) He. pose proof (regenerated_bounds config e He). unfold in_u32, granted in *.
  destruct (tk_mode config); mlia.
Qed.

Lemma available_granted config state e : config_fits config → in_time e → tk_mode config ≠ NoTokens →
  available_tokens config state e = sat_sub (granted config e) (ts_used state).
Proof.
  intros Hc He Hm. pose proof (granted_u32 config e Hc He) as Hg. unfold available_tokens.
  unfold granted, in_u32 in *. destruct (tk_mode config); [done..|]. rewrite regenerated_total_eq by done.
  unfold wrap_u32. rewrite Z.mod_small; [done|]. mlia.
Qed.

(** The regeneration announced to a contestant is exact: until the announced
    minute no token is added, and at that minute one is; where none is announced,
    there will never be more tokens than now. *)
Theorem next_regeneration_exact (config : TokenConfig) (elapsed : Z) :
  config_fits config → in_time elapsed → tk_mode config = Regenerating →
  match next_regen_elapsed_min config elapsed with
  | Some m => (elapsed < m)%Z ∧
      (∀ e, (elapsed ≤ e < m)%Z → granted config e = granted config elapsed) ∧
      granted config m = (granted config elapsed + 1)%Z
  | None => ∀ e, (elapsed ≤ e)%Z → granted config e = granted config elapsed
  end.
Proof.
  intros Hc He Hm. unfold next_regen_elapsed_min. rewrite Hm, regenerated_total_eq by done.
  unfold granted. rewrite Hm. pose proof (regenerated_bounds config elapsed He) as Hb.
  pose proof (regen_interval_pos config) as Hi. set (k := regen_interval config) in *.
  destruct (Z.leb_spec (tk_max config) (Z.min (tk_initial config + regenerated config elapsed) (tk_max config))).
  - intros e Hle. pose proof (regenerated_mono config _ _ Hle). lia.
  - assert (regenerated config elapsed * k ≤ elapsed < (regenerated config elapsed + 1) * k)%Z as Hdiv.
    { unfold regenerated. fold k. pose proof (Z.mod_pos_bound elapsed k). pose proof (Z.div_mod elapsed k). lia. }
    assert (k ≤ u32_max)%Z as Hk.
    { destruct Hc as (_ & _ & Hk). unfold k, regen_interval, in_u32 in *. mlia. }
    assert (wrap_u64 (wrap_u64 (regenerated config elapsed + 1) * k)
      = (regenerated config elapsed + 1) * k)%Z as ->.
    { unfold wrap_u64, in_time in *. rewrite (Z.mod_small (_ + 1)) by mlia. apply Z.mod_small.
      assert ((regenerated config elapsed + 1) * k = regenerated config elapsed * k + k)%Z as -> by lia. mlia. }
    split_and!; [lia| |].
    + intros e He'. assert (regenerated config e = regenerated config elapsed) as ->; [|done].
      apply Z.le_antisymm; [|apply regenerated_mono; lia]. apply Z.lt_succ_r. unfold regenerated at 1. fold k.
      apply Z.div_lt_upper_bound; lia.
    + unfold regenerated at 1. fold k. rewrite Z.div_mul by lia. lia.
Qed.

(** ** Requests at the same time *)

(** A request that has read the tokens of its contestant. *)
Record TokenAttempt := {
  ta_user : Z;
  ta_submission : Z;
  ta_elapsed : Z;
  ta_snapshot : option StorageSnapshot;
}.

Record TokenWorld := {
  tw_host : Host;
  tw_elapsed : Z;
  tw_attempts : list TokenAttempt;
}.

Lemma token_key_inj contest user user' : token_key contest user = token_key contest user' → user = user'.
Proof.
  unfold token_key. intros E%app_inv_head%app_inv_head%app_inv_head.
  apply (show_inj (Z.min 0 (Z.min user user')) (Z.max user user')) in E; lia.
Qed.

Section tokens.
Context `{Serde TokenState} (config : TokenConfig) (contest : Z) (columns : gmap Z SubmissionColumns).
Hypothesis Hconfig : config_fits config.
Hypothesis Hmode : tk_mode config ≠ NoTokens.

(** The submission is the contestant's, in this contest. *)
Definition owned (user id : Z) : Prop :=
  ∃ c, columns !! id = Some c ∧ sc_user_id c = user ∧ sc_contest_id c = Some contest.

(** The value a request works on. *)
Definition value_read (snapshot : option StorageSnapshot) : result ustring TokenState :=
  match snapshot with
  | Some s => from_json (sn_value s)
  | None => Ok token_state_default
  end.

Inductive token_step (w : TokenWorld) : TokenWorld → Prop :=
  (** time passes *)
  | step_later e : (tw_elapsed w ≤ e)%Z → in_time e →
      token_step w {| tw_host := tw_host w; tw_elapsed := e; tw_attempts := tw_attempts w |}
  (** a request reads the clock and the tokens *)
  | step_read user id e : owned user id → (0 ≤ e ≤ tw_elapsed w)%Z →
      token_step w {| tw_host := tw_host w; tw_elapsed := tw_elapsed w;
        tw_attempts := {| ta_user := user; ta_submission := id; ta_elapsed := e;
                          ta_snapshot := Storage.snapshot_of (tw_host w) (token_key contest user) |}
                       :: tw_attempts w |}
  (** a request writes, or learns that somebody else did *)
  | step_write a state state' ok h : a ∈ tw_attempts w →
      value_read (ta_snapshot a) = Ok state →
      spend_token config (ta_elapsed a) (ta_submission a) state = Ok state' →
      Storage.compare_and_set_snapshot (token_key contest (ta_user a)) (ta_snapshot a) (to_json state')
        (tw_host w) = Some (Ok ok, h) →
      token_step w {| tw_host := h; tw_elapsed := tw_elapsed w; tw_attempts := tw_attempts w |}
  (** anything that leaves the tokens of the contest alone *)
  | step_other h :
      (∀ user, h_data h !! token_key contest user = h_data (tw_host w) !! token_key contest user) →
      token_step w {| tw_host := h; tw_elapsed := tw_elapsed w; tw_attempts := tw_attempts w |}.

(** The state of a contestant's tokens is sound. *)
Definition state_ok (user elapsed : Z) (state : TokenState) : Prop :=
  NoDup (ts_tokened_submission_ids state) ∧
  Z.of_nat (length (ts_tokened_submission_ids state)) = ts_used state ∧
  (ts_used state ≤ granted config elapsed)%Z ∧
  ∀ id, id ∈ ts_tokened_submission_ids state → owned user id.

(** What is stored is the text of a sound state. *)
Definition stored_ok (h : Host) (user elapsed : Z) : Prop :=
  ∃ state, value_read (Storage.snapshot_of h (token_key contest user)) = Ok state ∧
           state_ok user elapsed state.

Definition world_ok (w : TokenWorld) : Prop :=
  in_time (tw_elapsed w) ∧ (∀ user, stored_ok (tw_host w) user (tw_elapsed w)) ∧
  Forall (λ a, owned (ta_user a) (ta_submission a) ∧ (0 ≤ ta_elapsed a ≤ tw_elapsed w)%Z) (tw_attempts w).

(** Before the first token is spent. *)
Definition world_start (w : TokenWorld) : Prop :=
  in_time (tw_elapsed w) ∧ tw_attempts w = [] ∧
  ∀ user, h_data (tw_host w) !! token_key contest user = None.

Lemma state_ok_later user e e' state : (e ≤ e')%Z → state_ok user e state → state_ok user e' state.
Proof. intros He (? & ? & ? & ?). pose proof (granted_mono config e e' He). split_and!; [done..|lia|done]. Qed.

Lemma spend_token_ok user id e elapsed state state' :
  in_time elapsed → (0 ≤ e ≤ elapsed)%Z → owned user id → state_ok user elapsed state →
  spend_token config e id state = Ok state' → state_ok user elapsed state' ∧
  ts_used state' = (ts_used state + 1)%Z ∧
  ts_tokened_submission_ids state' = ts_tokened_submission_ids state ++ [id].
Proof.
  intros Ht He Hown (Hnd & Hlen & Hle & Hall). unfold spend_token.
  assert (in_time e) as Hte by (unfold in_time in *; lia).
  rewrite available_granted by done. destruct (Z.eqb_spec (sat_sub (granted config e) (ts_used state)) 0); [done|].
  destruct (decide _) as [|Hnew]; [done|]. intros [= <-]. cbn.
  pose proof (granted_mono config e elapsed ltac:(lia)). pose proof (granted_u32 config elapsed Hconfig Ht) as Hg.
  assert (wrap_u32 (ts_used state + 1) = ts_used state + 1)%Z as ->.
  { unfold wrap_u32, sat_sub, in_u32 in *. apply Z.mod_small. mlia. }
  split_and!; [|done..]. unfold sat_sub in *. split_and!; cbn.
  - apply NoDup_app. split_and!; [done| |apply NoDup_singleton].
    intros x Hx ->%list_elem_of_singleton. done.
  - rewrite length_app. cbn. lia.
  - lia.
  - intros x [Hx| ->%list_elem_of_singleton]%elem_of_app; auto.
Qed.

Lemma stored_ok_same h h' user e :
  h_data h' !! token_key contest user = h_data h !! token_key contest user →
  stored_ok h user e → stored_ok h' user e.
Proof.
  unfold stored_ok, Storage.snapshot_of. intros ->. by destruct (h_data h !! _).
Qed.

Lemma token_step_ok w w' : token_step w w' → world_ok w → world_ok w'.
Proof.
  intros Hstep (Ht & Hs & Ha). destruct Hstep as [e He Hte|user id e Hown He|a state state' ok h Hin Hv Hsp Hcas|h Hh];
    unfold world_ok; cbn.
  - split_and!; [done| |].
    + intros user. destruct (Hs user) as (state & Hv & Hok). exists state. split; [done|]. by eapply state_ok_later.
    + eapply Forall_impl; [exact Ha|]. intros a [? ?]. split; [done|lia].
  - split_and!; [done..|]. constructor; [by split|done].
  - rewrite Forall_forall in Ha. destruct (Ha a Hin) as [Hown He]. rewrite cas_snapshot_spec in Hcas.
    split_and!; [done| |by apply Forall_forall]. destruct (decide _) as [E|]; injection Hcas as <- <-; [|done].
    intros user. destruct (decide (user = ta_user a)) as [-> |Hne].
    + destruct (Hs (ta_user a)) as (state0 & Hv0 & Hok). rewrite E, Hv in Hv0. injection Hv0 as <-.
      exists state'. split.
      * unfold Storage.snapshot_of. cbn [h_data with_storage]. rewrite lookup_insert_eq. apply from_to_json.
      * by eapply spend_token_ok.
    + eapply stored_ok_same; [|apply Hs]. cbn. apply lookup_insert_ne.
      intros E'%token_key_inj. done.
  - split_and!; [done| |done]. intros user. eapply stored_ok_same; [|apply Hs]. apply Hh.
Qed.

Lemma world_start_ok w : world_start w → world_ok w.
Proof.
  intros (Ht & Ha & Hn). destruct (granted_u32 config (tw_elapsed w) Hconfig Ht) as [Hg _]. split_and!; [done| |by rewrite Ha; constructor].
  intros user. exists token_state_default. unfold Storage.snapshot_of. rewrite Hn. split; [done|].
  split_and!; cbn; [constructor|done|done|by intros id ?%not_elem_of_nil].
Qed.
End tokens.

(** C8. A contestant never spends more tokens than have been handed out, however
    many requests run at the same time: in every world reached by requests that read,
    decide and write in any order, with time passing and other writes in between,
    the submissions with a token are distinct submissions of the contestant in the
    contest, as many as the tokens spent, and what is available is what was handed
    out less what was spent. *)
Theorem tokens_never_overspent `{Serde TokenState} (config : TokenConfig) (contest : Z)
    (columns : gmap Z SubmissionColumns) (w0 w : TokenWorld) (user : Z) :
  config_fits config → tk_mode config ≠ NoTokens → world_start contest w0 →
  rtc (token_step config contest columns) w0 w →
  let state := token_state_in (tw_host w) contest user in
  NoDup (ts_tokened_submission_ids state) ∧
  (∀ id, id ∈ ts_tokened_submission_ids state → owned contest columns user id) ∧
  Z.of_nat (length (ts_tokened_submission_ids state)) = ts_used state ∧
  (available_tokens config state (tw_elapsed w) + ts_used state = granted config (tw_elapsed w))%Z.
Proof.
  intros Hc Hm Hstart Hsteps. assert (world_ok config contest columns w) as (Ht & Hs & _).
  { apply (world_start_ok config contest columns Hc) in Hstart.
    induction Hsteps as [|w1 w2 w3 Hstep _ IH]; [done|]. eapply IH, token_step_ok; eauto. }
  destruct (Hs user) as (state & Hv & Hnd & Hlen & Hle & Hown). unfold token_state_in.
  unfold Storage.snapshot_of in Hv. destruct (h_data _ !! _) as [json|]; cbn in Hv |- *.
  - unfold parse_token_state. rewrite Hv. split_and!; [done..|].
    rewrite available_granted by done. unfold sat_sub. lia.
  - injection Hv as <-. split_and!; [done..|]. rewrite available_granted by done. unfold sat_sub.
    cbn [ts_used token_state_default] in *. lia.
Qed.

(** ** A request on its own *)

Lemma modify_atomic {T} `{Serde T} key (dflt value : T) (f : T → sdk T) h :
  match h_data h !! key with Some json => from_json json = Ok value | None => value = dflt end →
  Storage.modify key dflt (λ v, lift (f v)) h =
  match f value with
  | Ok v => Some (Ok v, with_storage (<[key := to_json v]> (h_data h)) (Storage.bump key h) h)
  | Err e => Some (Err e, h)
  end.
Proof.
  intros Hv. unfold Storage.modify. change 100 with (S 99). cbn [Storage.modify_loop].
  rewrite (bind_Some_Ok _ _ _ _ _ (snapshot_run key h)).
  assert (match Storage.snapshot_of h key with
          | Some s => parse_json (sn_value s) | None => mret dflt end h = Some (Ok value, h)) as Hp.
  { unfold Storage.snapshot_of. destruct (h_data h !! key); cbn in *; [|by subst].
    unfold parse_json. by rewrite Hv. }
  rewrite (bind_Some_Ok _ _ _ _ _ Hp). unfold mbind, M_bind, lift.
  destruct (f value) as [v|e]; [|done]. by rewrite cas_snapshot_spec, decide_True by done.
Qed.

Lemma check_run {A B C} (r : api A B) (f : B → Handler A C) h :
  (check r ≫= f) h = match r with Ok b => f b h | Err e => Some (Err e, h) end.
Proof. by destruct r. Qed.

(** Run the checks whose results are known. *)
Ltac check_steps := repeat (rewrite check_run; cbn [api_of ok_or]); cbn [api_of ok_or].

(** An answer that leaves everything as it was. *)
Ltac refused :=
  unfold refuse, mret, Handler_ret; intros E; apply (inj Some) in E; injection E as <- <-;
  left; split; [done|by intros ? ?].

(** What a request to spend a token does.  Either nothing is written and the
    answer is not a success, or the submission asked for, which is the caller's in
    this contest, joins those with a token, one more token is spent and nothing else
    of the storage changes; then the answer is the tokens that are left, or an error
    of the query for the score. *)
Theorem use_token_spends_one `{Serde TokenState} (env : IoiEnv) (req : PluginHttpRequest)
    (config : ContestConfig) (contest user submission elapsed : Z) (state : TokenState) (h h' : Host) r :
  user_id req = Some user → param_i32 req (u "contest_id") = Ok contest →
  param_i32 req (u "submission_id") = Ok submission →
  ie_config env contest = Ok config → query_elapsed_min (ie_tables env) contest = Ok elapsed →
  value_read (Storage.snapshot_of h (token_key contest user)) = Ok state →
  handle_use_token env req h = Some (r, h') →
  (h' = h ∧ ∀ body, r ≠ Ok (ok_response body)) ∨
  (owned contest (it_columns (ie_tables env)) user submission ∧
   available_tokens (tokens config) state elapsed ≠ 0%Z ∧
   (submission ∉ ts_tokened_submission_ids state) ∧
   let state' := {| ts_used := wrap_u32 (ts_used state + 1);
                    ts_tokened_submission_ids := ts_tokened_submission_ids state ++ [submission] |} in
   h_data h' = <[token_key contest user := to_json state']> (h_data h) ∧
   ((∃ e, r = Err (ApiSdk e)) ∨
    ∃ score, r = Ok (ok_response {| ut_remaining_tokens := available_tokens (tokens config) state' elapsed;
                                    ut_task_score := score |}))).
Proof.
  intros Huser Hcontest Hsub Hconfig Helapsed Hstate. unfold handle_use_token, authenticated, query.
  rewrite Huser, Hcontest, Hsub. check_steps.
  destruct (ask _ QSubmission _) as [found|e] eqn:Efound; [|refused]. check_steps.
  destruct found as [info|]; [|refused]. check_steps.
  destruct (sc_user_id info =? user)%Z eqn:Eu; cbn [negb]; [|refused]. apply Z.eqb_eq in Eu.
  case_decide as Ek; [refused|]. check_steps.
  destruct (check_access _ _ _) as [info'|]; [|refused]. check_steps.
  destruct (require_type _ _) as [[]|]; [|refused]. case_decide; [refused|]. check_steps.
  rewrite Hconfig. check_steps. destruct (tokens_enabled config); cbn [negb]; [|refused].
  rewrite Helapsed. check_steps. unfold token_outcome, modify_tokens.
  assert (match h_data h !! token_key contest user with
          | Some json => from_json json = Ok state | None => state = token_state_default end) as Hread.
  { revert Hstate. unfold Storage.snapshot_of. destruct (h_data h !! _); cbn; [done|by intros [= <-]]. }
  rewrite (modify_atomic _ _ state) by done.
  assert (owned contest (it_columns (ie_tables env)) user submission) as Hown.
  { unfold ask in Efound. destruct (it_error _ _); [done|]. injection Efound as Efound.
    exists info. split_and!; done. }
  unfold spend_token. destruct (Z.eqb_spec (available_tokens (tokens config) state elapsed) 0) as [|Hav].
  { rewrite decide_True by done. refused. }
  destruct (decide (submission ∈ _)) as [|Hnew].
  { rewrite decide_False, decide_True by done. refused. }
  unfold token_spent. destruct (compute_official_task_score _ _ _ _ _ _ _) as [score|e]; intros [= <- <-]; right;
    split_and!; try done; [right|left]; eauto.
Qed.
