(* ===== verification/IoiRecompute.v ===== *)
(** * IoiRecompute: scoring again what was stored

    The subtask scores of a submission are computed when it is judged, from the raw
    scores of its cases, and again whenever they are shown, from the stored rows.
    With a checker that is all or nothing the two agree; the raw score of a partial
    result cannot be read back from its rounded points. *)

From Stdlib Require Import SpecFloat.
From stdpp Require Import base gmap sets list.
From S2P Require Import Prelude.
From S2P Require Import Text Float Verdict Sdk Host Judging JudgingContests JudgingDb.
From S2P Require Import Ioi IoiProofs IoiTokens IoiBoard IoiBoardProofs.

(** ** Scores by label *)

Lemma or_insert_lookup keys x m k :
  or_insert_keys keys x m !! k =
  match m !! k with Some y => Some y | None => if decide (k ∈ keys) then Some x else None end.
Proof.
  unfold or_insert_keys. revert m. induction keys as [|k' keys IH]; intros m; cbn.
  { destruct (m !! k); [done|]. by rewrite decide_False by by apply not_elem_of_nil. }
  rewrite IH. destruct (m !! k') as [y'|] eqn:Ek'.
  - destruct (m !! k) as [y|] eqn:Ek; [done|]. apply decide_ext. rewrite elem_of_cons.
    split; [by right|]. intros [-> |]; [congruence|done].
  - destruct (decide (k = k')) as [-> |Hne].
    + rewrite lookup_insert_eq, Ek'. by rewrite decide_True by by left.
    + rewrite lookup_insert_ne by done. destruct (m !! k); [done|]. apply decide_ext.
      rewrite elem_of_cons. tauto.
Qed.

Section labels.
Context (all : list TestCaseRow) (Hdistinct : keys_distinct all).

(** A table that has scores by label only. *)
Definition by_labels (m : gmap ustring f64) : Prop :=
  ∀ k, is_Some (m !! k) → ∃ tc, tc ∈ all ∧ k = resolve_tc_label tc.

Lemma collected_elem {A} (f : TestCaseRow → A) tcs i x :
  foldl (λ m tc, <[tc_id tc := f tc]> m) (∅ : gmap Z A) tcs !! i = Some x →
  ∃ tc, tc ∈ tcs ∧ x = f tc.
Proof.
  induction tcs as [|tc tcs IH] using rev_ind; [done|]. rewrite foldl_snoc.
  setoid_rewrite elem_of_app. destruct (decide (tc_id tc = i)) as [<-|Hne].
  - rewrite lookup_insert_eq. intros [= <-]. exists tc. split; [right; by left|done].
  - rewrite lookup_insert_ne by done. intros (t & Ht & ->)%IH. exists t. auto.
Qed.

(** Under every key of a case is what stands under its label. *)
Lemma scores_by_label m tc k : by_labels m → tc ∈ all → k ∈ test_case_reference_keys tc →
  scores_by_all_keys all m !! k = m !! resolve_tc_label tc.
Proof.
  intros Hm Htc Hk. unfold scores_by_all_keys.
  assert (∀ l out, (∀ tc, tc ∈ l → tc ∈ all) →
    (out !! k = m !! resolve_tc_label tc ∨ (out !! k = None ∧ tc ∈ l)) →
    foldl (λ out tc, match m !! resolve_tc_label tc with
                     | Some score => or_insert_keys (test_case_reference_keys tc) score out
                     | None => out
                     end) out l !! k = m !! resolve_tc_label tc) as Hfold.
  { induction l as [|t l IH]; intros out Hl Hout; cbn.
    { destruct Hout as [Hout|[_ Hin]]; [done|by apply not_elem_of_nil in Hin]. }
    apply IH; [by intros; apply Hl; right|].
    assert (k ∈ test_case_reference_keys t → t = tc) as Ht.
    { intros Hkt. apply (keys_distinct_eq all t tc k); [done|apply Hl; by left|done..]. }
    destruct Hout as [Hout|[Hout Hin]].
    - left. destruct (m !! resolve_tc_label t) as [x|] eqn:Ex; [|done]. rewrite or_insert_lookup, Hout.
      destruct (m !! resolve_tc_label tc) eqn:Etc; [done|].
      case_decide as Hkt; [|done]. rewrite (Ht Hkt) in Ex. congruence.
    - apply elem_of_cons in Hin as [<- |Hin]; [|].
      + left. destruct (m !! resolve_tc_label tc) as [x|] eqn:Ex; [|done].
        rewrite or_insert_lookup, Hout. by rewrite decide_True.
      + destruct (m !! resolve_tc_label t) as [x|] eqn:Ex; [|by right]. rewrite or_insert_lookup, Hout.
        case_decide as Hkt; [|by right]. rewrite (Ht Hkt) in Ex. by left. }
  apply Hfold; [done|]. destruct (m !! k) as [x|] eqn:Ex; [|by right]. left.
  destruct (Hm k) as (tc' & Htc' & ->); [by eexists|]. rewrite <- Ex.
  by rewrite (keys_distinct_eq all tc' tc _ Hdistinct Htc' Htc (label_key tc') Hk).
Qed.

Lemma scores_unknown m k : by_labels m → (∀ tc, tc ∈ all → k ∉ test_case_reference_keys tc) →
  scores_by_all_keys all m !! k = None.
Proof.
  intros Hm Hk. unfold scores_by_all_keys.
  assert (∀ l out, (∀ tc, tc ∈ l → tc ∈ all) → out !! k = None →
    foldl (λ out tc, match m !! resolve_tc_label tc with
                     | Some score => or_insert_keys (test_case_reference_keys tc) score out
                     | None => out
                     end) out l !! k = None) as Hfold.
  { induction l as [|t l IH]; intros out Hl Hout; cbn; [done|].
    apply IH; [by intros; apply Hl; right|]. destruct (m !! resolve_tc_label t); [|done].
    rewrite or_insert_lookup, Hout, decide_False; [done|]. apply Hk, Hl. by left. }
  apply Hfold; [done|]. destruct (m !! k) as [x|] eqn:Ex; [|done].
  destruct (Hm k) as (tc & Htc & ->); [by eexists|]. by destruct (Hk tc Htc (label_key tc)).
Qed.

(** ** The stored rows *)

(** The row the session stores for an outcome. *)
Definition stored (o : CaseOutcome) (r : TcResultRow) : Prop :=
  ∃ tc, tc ∈ all ∧ tc_id tc = co_test_case_id o ∧ tcr_test_case_id r = tc_id tc ∧
    tcr_verdict r = co_verdict o ∧ tcr_score r = round_score (f_mul (co_score o) (tc_score tc)).

(** What a checker without partial scores gives. *)
Definition all_or_nothing (o : CaseOutcome) : Prop :=
  co_score o = if decide (co_verdict o = Accepted) then f_one else f_zero.

Hypothesis Hfinite : ∀ tc, tc ∈ all → is_finite (tc_score tc) = true.

(** A map collected from the cases holds the value of each. *)
Lemma collected_of {A} (f : TestCaseRow → A) tc : tc ∈ all →
  foldl (λ m tc, <[tc_id tc := f tc]> m) (∅ : gmap Z A) all !! tc_id tc = Some (f tc).
Proof.
  intros Htc. destruct (id_map_known f all (tc_id tc)) as [l El]; [by apply list_elem_of_fmap_2|].
  rewrite El. f_equal.
  assert (∀ tcs, (∀ t, t ∈ tcs → t ∈ all) →
    foldl (λ m tc, <[tc_id tc := f tc]> m) (∅ : gmap Z A) tcs !! tc_id tc = Some l → l = f tc) as Hall;
    [|by eapply Hall].
  clear El. induction tcs as [|t tcs IH] using rev_ind; intros Hin; [done|]. rewrite foldl_snoc.
  destruct (decide (tc_id t = tc_id tc)) as [E|Hne].
  - rewrite E, lookup_insert_eq. intros [= <-]. f_equal.
    eapply (keys_distinct_id all); [done|apply Hin, elem_of_app; right; by left|done|done].
  - rewrite lookup_insert_ne by done. apply IH. intros x Hx. apply Hin, elem_of_app. by left.
Qed.

(** A case without points keeps its zero. *)
Lemma zero_points x : is_finite x = true → f_ltb f_zero x = true →
  f_clamp f_zero f_one (f_div (round_score (f_mul f_zero x)) x) = f_zero.
Proof. by destruct x as [| | |[] m e]. Qed.

Lemma stored_raw o r : stored o r → all_or_nothing o →
  row_raw_score (max_map all) r = co_score o.
Proof.
  intros (tc & Htc & Hid & Hr & Hv & Hs) Hall. unfold row_raw_score, max_map.
  rewrite Hr, (collected_of tc_score tc Htc), Hv, Hs. cbn [default from_option id]. unfold normalized_raw_score.
  unfold all_or_nothing in Hall. destruct (decide (co_verdict o = Accepted)) as [Ha|Ha]; [done|].
  rewrite Hall. destruct (f_ltb f_zero (tc_score tc)) eqn:Epos; [|done]. by apply zero_points; [apply Hfinite|].
Qed.

(** The raw score of a case, read from its row or from its outcome. *)
Lemma rows_score outcomes rows tc :
  tc ∈ all → Forall2 stored outcomes rows → Forall all_or_nothing outcomes →
  submission_tc_scores all rows !! resolve_tc_label tc
  = co_score <$> last (filter (λ o, co_test_case_id o = tc_id tc) outcomes).
Proof.
  intros Htc Hrows Hall. unfold submission_tc_scores.
  revert rows Hrows. induction outcomes as [|o outcomes IH] using rev_ind; intros rows Hrows;
    [by apply Forall2_nil_inv_l in Hrows as ->|].
  apply Forall2_app_inv_l in Hrows as (rows' & rest & Hrows & (r & rest' & Hr & Hrest & ->)%Forall2_cons_inv_l & ->).
  apply Forall2_nil_inv_l in Hrest as ->. apply Forall_app in Hall as [Hall [Ho _]%Forall_cons].
  rewrite foldl_snoc, last_snoc_filter. pose proof (stored_raw _ _ Hr Ho) as Hraw.
  destruct Hr as (tc' & Htc' & Hid & Hrid & _).
  assert (id_to_label all !! tcr_test_case_id r = Some (resolve_tc_label tc')) as -> by
    (rewrite Hrid; by apply collected_of). cbn. case_decide as Hc.
  - assert (tc' = tc) as -> by (eapply (keys_distinct_id all); try done; congruence).
    rewrite lookup_insert_eq. cbn. f_equal. exact Hraw.
  - rewrite lookup_insert_ne; [by apply IH|]. intros E.
    pose proof (label_key tc') as Hl. rewrite E in Hl.
    assert (tc' = tc) as -> by (eapply (keys_distinct_eq all); [done..|exact Hl|apply label_key]). congruence.
Qed.

Lemma rows_by_labels rows : by_labels (submission_tc_scores all rows).
Proof.
  unfold submission_tc_scores. induction rows as [|r rows IH] using rev_ind; [by intros k [x Hx]|].
  rewrite foldl_snoc. destruct (id_to_label all !! tcr_test_case_id r) as [label|] eqn:E; [|done].
  intros k. destruct (decide (k = label)) as [-> |Hne]; [|rewrite lookup_insert_ne by done; apply IH].
  intros _. by apply collected_elem in E.
Qed.
End labels.

