(* ===== verification/IoiApiExamples.v ===== *)
(** * IoiApiExamples: a small IOI contest

    Two contestants, a problem with two cases in two subtasks, and tokens.  One
    instance of each theorem on tokens, scores, the scoreboard and feedback that has
    hypotheses, and what the source does where its documentation says otherwise. *)

From Stdlib Require Import SpecFloat.
From stdpp Require Import base gmap sets list.
From S2P Require Import Prelude.
From S2P Require Import Text Float Verdict Sdk Host VisibilityApi BracketGate.
From S2P Require Import BracketExamples Judging JudgingContests JudgingExamples JudgingDb.
From S2P Require Import Icpc Ioi IoiProofs IoiExamples IoiTokens IoiBoard IoiApi.
From S2P Require Import IoiTokensProofs IoiBoardProofs IoiRecompute.

(** ** An encoding of token states *)

#[export] Instance Wire_TokenState : Wire TokenState.
Proof.
  apply (wire_iso (λ s, (ts_used s, ts_tokened_submission_ids s))
    (λ p, {| ts_used := p.1; ts_tokened_submission_ids := p.2 |})).
  by intros [].
Defined.

#[export] Instance ex_token_serde : Serde TokenState.
Proof.
  refine {| to_json := put;
            from_json t := match take_one t with
                           | Some (s, []) => Ok s
                           | _ => Err (u "invalid document")
                           end |}.
  intros s. pose proof (take_put s []) as E. rewrite app_nil_r in E. by rewrite E.
Defined.

(** ** The contest *)

Definition ioi_case (i : Z) (points : Z) (label : ustring) : TestCaseRow := {|
  tc_id := i; tc_score := f_of_Z points; tc_is_sample := false; tc_position := i; tc_description := None;
  tc_label := Some label; tc_input := Missing; tc_expected_output := Missing; tc_is_custom := false |}.

Definition ioi_cases : list TestCaseRow := [ioi_case 11 60 (u "a"); ioi_case 12 40 (u "b")].

Definition ioi_subtask (name label : ustring) (points : Z) : SubtaskDef := {|
  sd_name := name; sd_scoring_method := GroupMin; sd_max_score := f_of_Z points; sd_test_cases := [label] |}.

Definition ioi_subtasks : list SubtaskDef := [ioi_subtask (u "X") (u "a") 60; ioi_subtask (u "Y") (u "b") 40].

Definition ioi_token_config : TokenConfig := {|
  tk_mode := FixedBudget; tk_initial := 2; tk_max := 0; tk_regen_interval_min := 30 |}.

Definition ioi_config (mode : ScoringMode) (level : FeedbackLevel) : ContestConfig := {|
  scoring_mode := mode; feedback_level := level; scoreboard_visibility := AdminsOnly;
  scoreboard_tiebreaker := MaxScoreTime; tokens := ioi_token_config |}.

(** Submissions 1 and 3 of contestant 1 pass one case each; 2 is of contestant 2. *)
Definition ioi_job (i minute : Z) : JobRow := {|
  jb_id := i; jb_status := Judged; jb_outcome := no_outcome; jb_epoch := 0; jb_lease := no_lease;
  jb_retry_count := 0; jb_created_at := minute * 60000000; jb_target_worker := None |}.

Definition ioi_judgement (i points : Z) : JudgementRow := {|
  jd_id := 10 + i; jd_submission := i; jd_version := 1; jd_current := true; jd_finalized := true;
  jd_triggered_by := None; jd_target_worker := None; jd_status := Judged;
  jd_outcome := {| oc_verdict := Some WrongAnswer; oc_compile_output := None; oc_error_code := None;
                   oc_error_message := None; oc_score := Some (f_of_Z points); oc_time_used := None;
                   oc_memory_used := None; oc_at := Some 0%Z |};
  jd_epoch := 0; jd_lease := no_lease; jd_retry_count := 0; jd_created_at := 0 |}.

Definition ioi_result (i case : Z) (v : Verdict) (points : Z) : TestCaseResultRow := {|
  tr_submission_id := i; tr_judgement_id := 10 + i; tr_judge_epoch := 0; tr_test_case_id := Some case;
  tr_run_index := None; tr_verdict := v; tr_score := f_of_Z points; tr_time_used := None;
  tr_memory_used := None; tr_message := None; tr_stdout := None; tr_stderr := None |}.

Definition ioi_judging : JudgingDb := {|
  db_submissions := list_to_map ((λ j, (jb_id j, j)) <$> [ioi_job 1 10; ioi_job 2 20; ioi_job 3 30]);
  db_judgements := list_to_map ((λ j, (jd_id j, j)) <$> [ioi_judgement 1 60; ioi_judgement 2 60; ioi_judgement 3 40]);
  db_results := [ioi_result 1 11 Accepted 60; ioi_result 1 12 WrongAnswer 0; ioi_result 2 11 Accepted 60;
                 ioi_result 3 11 WrongAnswer 0; ioi_result 3 12 Accepted 40];
  db_code_runs := ∅; db_run_results := []; db_dlq := []; db_next_judgement := 20; db_uuids := 0 |}.

Definition ioi_columns : gmap Z SubmissionColumns :=
  list_to_map ((λ p, (p.1, {| sc_user_id := p.2; sc_problem_id := 5; sc_contest_id := Some 9%Z |}))
                 <$> [(1, 1); (2, 2); (3, 1)]%Z).

Lemma ioi_contest_fk id columns contest :
  ioi_columns !! id = Some columns → sc_contest_id columns = Some contest →
  is_Some (({[ 9%Z := 0%Z ]} : gmap Z Z) !! contest).
Proof.
  assert (map_Forall (λ _ c, sc_contest_id c = Some 9%Z) ioi_columns) as H by by_decide.
  intros Hc. rewrite (H _ _ Hc). by intros [= <-].
Qed.

Definition ioi_tables (mode : ScoringMode) (level : FeedbackLevel) : IoiTables := {|
  it_judging := ioi_judging; it_columns := ioi_columns; it_contest_start := {[ 9%Z := 0%Z ]};
  it_test_cases _ := ioi_cases; it_problems _ := [5%Z];
  it_participants _ := [{| id_user_id := 1; id_username := u "ann"; id_display_name := None |};
                        {| id_user_id := 2; id_username := u "bob"; id_display_name := None |}];
  it_now := 3600000000;
  it_ioi := {| io_config _ := Ok (ioi_config mode level); io_task_config _ _ := Ok ioi_subtasks |};
  it_error _ := None; it_contest_fk := ioi_contest_fk |}.

Definition ioi_env (mode : ScoringMode) (level : FeedbackLevel) : IoiEnv := {|
  ie_tables := ioi_tables mode level;
  ie_contest := {| db_info _ := Ok (Some {| ci_contest_type := Some IOI; ci_is_public := true;
                                            ci_is_active := true; ci_phase := DURING |});
                   db_is_participant _ _ := Ok true; db_has_problem _ _ := Ok true |} |}.

Definition ioi_request (user : Z) (permissions : list ustring) (submission : Z) : PluginHttpRequest := {|
  rq_method := u "POST"; rq_path := [];
  rq_params := {[ u "contest_id" := u "9"; u "submission_id" := show submission; u "problem_id" := u "5" ]};
  rq_query := ∅; rq_headers := ∅; rq_body := None;
  rq_auth := Some {| pa_user_id := user; pa_username := show user; pa_roles := [];
                     pa_permissions := permissions |} |}.

(** Contestant 1 spends a token on submission 1, then asks again. *)
Definition ioi_spend (user submission : Z) (h : Host) :=
  handle_use_token (ioi_env BestTokenedOrLast NoFeedback) (ioi_request user [] submission) h.

Definition spent_host : Host :=
  match ioi_spend 1 1 (ex_host 0) with Some (_, h) => h | None => ex_host 0 end.

Definition status_of {A B} (r : option (api A (PluginHttpResponse B) * Host)) : option Z :=
  match r with Some (Ok resp, _) => Some (rs_status resp) | _ => None end.

Example ioi_spending :
  (status_of (ioi_spend 1 1 (ex_host 0)), status_of (ioi_spend 1 1 spent_host),
   status_of (ioi_spend 1 2 spent_host), ts_tokened_submission_ids (token_state_in spent_host 9 1))
  = (Some 200, Some 400, Some 403, [1])%Z.
Proof. by_vm. Qed.

(** ** The scoreboard in each mode *)

Definition ioi_board (mode : ScoringMode) : cells :=
  match load_scoreboard_cells (ioi_tables mode Full) (ioi_config mode Full) 9 [1; 2]%Z [5%Z] spent_host with
  | Ok board => board
  | Err _ => ∅
  end.

Definition ioi_rows (mode : ScoringMode) : list (Z * nat * f64 * Z) :=
  (λ e, (re_user_id e, re_rank e, re_total_score e, re_total_time_seconds e))
    <$> rankings_of (ioi_config mode Full) (ioi_board mode) [5%Z] (it_participants (ioi_tables mode Full) 9).

Example ioi_boards :
  ioi_rows MaxSubmission = [(1, 1%nat, f_of_Z 60, 600); (2, 2%nat, f_of_Z 60, 1200)]%Z ∧
  ioi_rows SumBestSubtask = [(1, 1%nat, f_of_Z 100, 1800); (2, 2%nat, f_of_Z 60, 1200)]%Z ∧
  ioi_rows BestTokenedOrLast = [(1, 1%nat, f_of_Z 60, 600); (2, 2%nat, f_of_Z 60, 1200)]%Z.
Proof. split_and!; by_vm. Qed.

(** ** Witnesses *)

Definition ex_regenerating : TokenConfig := {|
  tk_mode := Regenerating; tk_initial := 1; tk_max := 3; tk_regen_interval_min := 30 |}.

Lemma next_regeneration_exact_witness :
  match next_regen_elapsed_min ex_regenerating 45 with
  | Some m => (45 < m)%Z ∧
      (∀ e, (45 ≤ e < m)%Z → granted ex_regenerating e = granted ex_regenerating 45) ∧
      granted ex_regenerating m = (granted ex_regenerating 45 + 1)%Z
  | None => ∀ e, (45 ≤ e)%Z → granted ex_regenerating e = granted ex_regenerating 45
  end.
Proof. apply (next_regeneration_exact ex_regenerating 45); [by_decide|by_decide|reflexivity]. Defined.

(** Two requests of contestant 1 read before either writes; one of them wins. *)
Definition tw_start : TokenWorld := {| tw_host := ex_host 0; tw_elapsed := 60; tw_attempts := [] |}.
Definition attempt_on (i : Z) : TokenAttempt := {|
  ta_user := 1; ta_submission := i; ta_elapsed := 60;
  ta_snapshot := Storage.snapshot_of (ex_host 0) (token_key 9 1) |}.
Definition spent_one : TokenState := {| ts_used := 1; ts_tokened_submission_ids := [1%Z] |}.
Definition write_of (i : Z) (h : Host) : Host :=
  match Storage.compare_and_set_snapshot (token_key 9 1) (ta_snapshot (attempt_on i))
          (to_json {| ts_used := 1; ts_tokened_submission_ids := [i] |}) h with
  | Some (_, h) => h
  | None => h
  end.
Definition tw_with (h : Host) (attempts : list TokenAttempt) : TokenWorld := {|
  tw_host := h; tw_elapsed := 60; tw_attempts := attempts |}.
Definition tw_both : TokenWorld :=
  tw_with (write_of 3 (write_of 1 (ex_host 0))) [attempt_on 3; attempt_on 1].

Lemma owned_1 : owned 9 ioi_columns 1 1.
Proof. exists {| sc_user_id := 1; sc_problem_id := 5; sc_contest_id := Some 9%Z |}. by split_and!. Qed.
Lemma owned_3 : owned 9 ioi_columns 1 3.
Proof. exists {| sc_user_id := 1; sc_problem_id := 5; sc_contest_id := Some 9%Z |}. by split_and!. Qed.

Lemma tw_read_1 : token_step ioi_token_config 9 ioi_columns tw_start (tw_with (ex_host 0) [attempt_on 1]).
Proof. apply (step_read _ _ _ tw_start 1 1 60); [exact owned_1|by vm_compute]. Qed.

Lemma tw_read_3 : token_step ioi_token_config 9 ioi_columns
  (tw_with (ex_host 0) [attempt_on 1]) (tw_with (ex_host 0) [attempt_on 3; attempt_on 1]).
Proof. apply (step_read _ _ _ (tw_with _ [attempt_on 1]) 1 3 60); [exact owned_3|by vm_compute]. Qed.

Lemma tw_write_1 : token_step ioi_token_config 9 ioi_columns
  (tw_with (ex_host 0) [attempt_on 3; attempt_on 1]) (tw_with (write_of 1 (ex_host 0)) [attempt_on 3; attempt_on 1]).
Proof.
  apply (step_write _ _ _ (tw_with (ex_host 0) [attempt_on 3; attempt_on 1]) (attempt_on 1)
           token_state_default spent_one true); [right; by left|by_vm..].
Qed.

Lemma tw_write_3 : token_step ioi_token_config 9 ioi_columns
  (tw_with (write_of 1 (ex_host 0)) [attempt_on 3; attempt_on 1]) tw_both.
Proof.
  apply (step_write _ _ _ (tw_with (write_of 1 (ex_host 0)) [attempt_on 3; attempt_on 1]) (attempt_on 3)
           token_state_default {| ts_used := 1; ts_tokened_submission_ids := [3%Z] |} false);
    [by left|by_vm..].
Qed.

Lemma tw_race : rtc (token_step ioi_token_config 9 ioi_columns) tw_start tw_both.
Proof.
  exact (rtc_l _ _ _ _ tw_read_1 (rtc_l _ _ _ _ tw_read_3 (rtc_l _ _ _ _ tw_write_1 (rtc_once _ _ tw_write_3)))).
Qed.

Lemma tokens_never_overspent_witness :
  let state := token_state_in (tw_host tw_both) 9 1 in
  ts_tokened_submission_ids state = [1%Z] ∧ NoDup (ts_tokened_submission_ids state) ∧
  (∀ id, id ∈ ts_tokened_submission_ids state → owned 9 ioi_columns 1 id) ∧
  Z.of_nat (length (ts_tokened_submission_ids state)) = ts_used state ∧
  (available_tokens ioi_token_config state 60 + ts_used state = granted ioi_token_config 60)%Z.
Proof.
  split; [by_vm|].
  apply (tokens_never_overspent ioi_token_config 9 ioi_columns tw_start tw_both 1).
  - by_decide.
  - done.
  - split_and!; [by_decide|done|]. intros user. exact eq_refl.
  - exact tw_race.
Defined.

Definition spend_result := ioi_spend 1 1 (ex_host 0).

Lemma use_token_spends_one_witness :
  match spend_result with
  | Some (r, h') =>
      (h' = ex_host 0 ∧ ∀ body, r ≠ Ok (ok_response body)) ∨
      (owned 9 ioi_columns 1 1 ∧
       available_tokens ioi_token_config token_state_default 60 ≠ 0%Z ∧
       (1%Z ∉ ts_tokened_submission_ids token_state_default) ∧
       let state' := {| ts_used := wrap_u32 (0 + 1); ts_tokened_submission_ids := [] ++ [1%Z] |} in
       h_data h' = <[token_key 9 1 := to_json state']> (h_data (ex_host 0)) ∧
       ((∃ e, r = Err (ApiSdk e)) ∨
        ∃ score, r = Ok (ok_response {| ut_remaining_tokens := available_tokens ioi_token_config state' 60;
                                        ut_task_score := score |})))
  | None => False
  end.
Proof.
  destruct spend_result as [[r h']|] eqn:E; [|by vm_compute in E].
  apply (use_token_spends_one (ioi_env BestTokenedOrLast NoFeedback) (ioi_request 1 [] 1)
           (ioi_config BestTokenedOrLast NoFeedback) 9 1 1 60 token_state_default (ex_host 0) h' r).
  1-6: by_vm.
  exact E.
Defined.

(** Contestant 1 in the third scoring mode: the tokened first submission counts. *)
Lemma ex_finalized :
  Forall (λ r, match jr_score r with Some x => bool_decide (is_nan x = false) && f_leb f_zero x | None => true end = true)
    (finalized_rows (ioi_tables BestTokenedOrLast Full)).
Proof. by_decide. Qed.

Lemma ex_tokens_owned : tokens_owned (ioi_tables BestTokenedOrLast Full) spent_host 9 [1; 2]%Z.
Proof.
  intros user id Hu. assert (user = 1 ∨ user = 2)%Z as [-> | ->] by set_solver.
  - assert (ts_tokened_submission_ids (token_state_in spent_host 9 1) = [1%Z]) as -> by by_vm.
    intros ->%list_elem_of_singleton. exact owned_1.
  - assert (ts_tokened_submission_ids (token_state_in spent_host 9 2) = []) as -> by by_vm.
    by intros ?%not_elem_of_nil.
Qed.

Lemma board_shows_official_score_witness :
  f_same (sc_cell_score (default cell_default (ioi_board BestTokenedOrLast !! (1, 5)%Z))) (f_of_Z 60).
Proof.
  apply (board_shows_official_score (ioi_tables BestTokenedOrLast Full) (ioi_config BestTokenedOrLast Full) 9
           spent_host [1; 2]%Z [5%Z] 1 5 (f_of_Z 60) (ioi_board BestTokenedOrLast)).
  - by left.
  - by left.
  - intros _. split; [exact ex_tokens_owned|]. intros r x Hr Hx.
    pose proof ex_finalized as Hf. rewrite Forall_forall in Hf. specialize (Hf r Hr). rewrite Hx in Hf.
    apply andb_true_iff in Hf as [Hn Hp]. split; [by apply bool_decide_eq_true in Hn|done].
  - intros [=].
  - by_vm.
  - by_vm.
Defined.

Definition ex_entries : list RankEntry :=
  rank_entry (ioi_config SumBestSubtask Full) (ioi_board SumBestSubtask) [5%Z]
    <$> it_participants (ioi_tables SumBestSubtask Full) 9.

Lemma scoreboard_ranked_witness :
  let rows := rankings_of (ioi_config SumBestSubtask Full) (ioi_board SumBestSubtask) [5%Z]
                (it_participants (ioi_tables SumBestSubtask Full) 9) in
  re_user_id <$> rows ≡ₚ id_user_id <$> it_participants (ioi_tables SumBestSubtask Full) 9 ∧
  StronglySorted (key_le (board_key MaxScoreTime)) rows ∧
  Forall (λ e, re_rank e = competition_rank (place_key MaxScoreTime) rows e) rows.
Proof.
  apply (scoreboard_ranked (ioi_config SumBestSubtask Full) (ioi_board SumBestSubtask) [5%Z]
           (it_participants (ioi_tables SumBestSubtask Full) 9)).
  - apply (bool_decide_unpack _). vm_compute. exact I.
  - assert (Forall (λ a, Forall (λ b,
      f_ltb (f_abs (f_sub (re_total_score a) (re_total_score b))) SCORE_EPSILON = true →
      f_key (re_total_score a) = f_key (re_total_score b)) ex_entries) ex_entries) as Hall by by_decide.
    intros a b Ha Hb. rewrite Forall_forall in Hall. specialize (Hall a Ha). rewrite Forall_forall in Hall.
    by apply Hall.
Defined.

(** Submission 1 as it was judged, and as it is stored. *)
Definition ioi_outcome (case : Z) (v : Verdict) (raw : f64) : CaseOutcome := {|
  co_test_case_id := case; co_verdict := v; co_score := raw; co_time_used := None; co_memory_used := None;
  co_message := None; co_stdout := None; co_stderr := None |}.

Definition ioi_outcomes : list CaseOutcome :=
  [ioi_outcome 11 Accepted f_one; ioi_outcome 12 WrongAnswer f_zero].

Definition rows_of_submission (i : Z) : list TcResultRow :=
  filter (λ r, tcr_submission_id r = i) (result_rows (ioi_tables SumBestSubtask Full)).


(** ** Where the source and its documentation differ *)

(** A case worth one point gets 0.996 of it: the subtask is lost when the submission
    is judged, and won when it is scored again from the stored rows. *)
Definition almost : f64 := f_of_decimal false 996 (-3).
Definition one_point : list TestCaseRow := [ioi_case 11 1 (u "a")].
Definition one_subtask : list SubtaskDef := [ioi_subtask (u "X") (u "a") 60].

Lemma partial_score_opens_subtask :
  let judged := [ioi_outcome 11 WrongAnswer almost] in
  let stored_row := {| tcr_user_id := 1; tcr_problem_id := 5; tcr_contest_id := 9; tcr_submission_id := 1;
    tcr_test_case_id := 11; tcr_score := round_score (f_mul almost (f_of_Z 1)); tcr_verdict := WrongAnswer;
    tcr_created_at := 0; tcr_elapsed_seconds := Some 0%Z |} in
  sr_score <$> score_all_subtasks one_subtask one_point (outcome_scores (id_to_keys one_point) judged)
    = [f_of_Z 0] ∧
  sr_score <$> score_all_subtasks one_subtask one_point (submission_tc_scores one_point [stored_row])
    = [f_of_Z 60].
Proof. split; by_vm. Qed.

(** Without feedback, a contestant still reads the score of a submission off their
    row of the scoreboard. *)
Definition own_row (level : FeedbackLevel) : option (list (Z * f64)) :=
  match handle_scoreboard (ioi_env MaxSubmission level) (ioi_request 2 [] 2) (ex_host 0) with
  | Some (Ok {| rs_body := Some (Body body) |}, _) =>
      Some ((λ e, (re_user_id e, re_total_score e)) <$> bo_rankings body)
  | _ => None
  end.

Lemma no_feedback_shows_total : own_row NoFeedback = Some [(2%Z, f_of_Z 60)].
Proof. by_vm. Qed.

(** The status of the last submission is withheld meanwhile. *)
Example no_feedback_hides_status :
  (λ r, match r.1 with Ok {| rs_body := Some (Body b) |} => Some (st_last_submission_score b) | _ => None end)
    <$> handle_submission_status (ioi_env MaxSubmission NoFeedback) (ioi_request 2 [] 2) (ex_host 0)
  = Some (Some None).
Proof. by_vm. Qed.

(** The maximum the scoreboard announces counts the samples, which the default
    subtask leaves out. *)
Definition with_sample : list TestCaseRow :=
  {| tc_id := 10; tc_score := f_of_Z 10; tc_is_sample := true; tc_position := 0; tc_description := None;
     tc_label := Some (u "s"); tc_input := Missing; tc_expected_output := Missing; tc_is_custom := false |}
  :: ioi_cases.

Definition sample_env : IoiEnv := {|
  ie_tables := {| it_judging := ioi_judging; it_columns := ioi_columns; it_contest_start := {[ 9%Z := 0%Z ]};
                  it_test_cases _ := with_sample; it_problems _ := [5%Z]; it_participants _ := [];
                  it_now := 0; it_ioi := {| io_config _ := Ok (ioi_config MaxSubmission Full);
                                            io_task_config _ _ := Ok [] |};
                  it_error _ := None; it_contest_fk := ioi_contest_fk |};
  ie_contest := ie_contest (ioi_env MaxSubmission Full) |}.

Lemma announced_maximum_counts_samples :
  max_score_of sample_env 5 [] = Ok (f_of_Z 110) ∧
  f_sum (sd_max_score <$> effective_subtasks with_sample []) = f_of_Z 100.
Proof. split; by_vm. Qed.
