(* ===== verification/IoiVisibility.v ===== *)
(** * IoiVisibility: feedback of an IOI contest, up to what a viewer is sent

    The IOI plugin ([IoiTokens.decide_visibility]) as one of the plugins the kernel of
    the server asks: a result that is withheld, from a rival because the scoreboard is
    not public or from the contestant because the contest gives no feedback, is blank
    in the JSON of every submission that is sent. *)

From stdpp Require Import base gmap sets list.
From S2P Require Import Prelude.
From S2P Require Import Text Float Verdict Sdk Host Json VisibilityApi.
From S2P Require Import BracketPacing BracketExamples Icpc Ioi IoiTokens IoiApiExamples.
From S2P Require Import Mask HostRules HostRulesProofs Visibility VisibilityProofs VisibilityFrozen.

Import Kernel.

Section plugin.
Context `{Serde TokenState} (db : IoiVisibilityDb).

Lemma load_ioi_configs_lookup contests acc configs c :
  load_ioi_configs db contests acc = Ok configs → c ∈ contests →
  ∃ config, iv_config db c = Ok config ∧ configs !! c = Some config.
Proof.
  assert (∀ contests acc configs, load_ioi_configs db contests acc = Ok configs → c ∉ contests →
    configs !! c = acc !! c) as Hout.
  { clear. intros contests. induction contests as [|c' contests IH]; intros acc configs; cbn; [by intros [= ->]|].
    destruct (iv_config db c') as [config|]; [|done]. cbn. intros Hl [Hne Hc]%not_elem_of_cons.
    rewrite (IH _ _ Hl Hc). by apply lookup_insert_ne. }
  revert acc. induction contests as [|c' contests IH]; intros acc; cbn; [by intros _ ?%not_elem_of_nil|].
  destruct (iv_config db c') as [config|] eqn:E; [|done]. cbn. intros Hl Hc.
  destruct (decide (c ∈ contests)) as [Hin|Hn]; [by eapply IH|].
  apply elem_of_cons in Hc as [-> |]; [|done]. exists config. split; [done|].
  rewrite (Hout _ _ _ Hl Hn). by apply lookup_insert_eq.
Qed.

(** The viewer spent a token on the submission. *)
Definition tokened_in (h : Host) (viewer : option Z) (cid sub : Z) : bool :=
  match viewer with
  | Some v => bool_decide (sub ∈ ts_tokened_submission_ids (token_state_in h cid v))
  | None => false
  end.

Lemma viewer_token_states_lookup h viewer contests cid sub :
  cid ∈ contests →
  match viewer_token_states h viewer contests !! cid with
  | Some s => bool_decide (sub ∈ ts_tokened_submission_ids s)
  | None => false
  end = tokened_in h viewer cid sub.
Proof.
  unfold viewer_token_states, tokened_in. destruct viewer as [v|]; [|by rewrite lookup_empty].
  intros Hc. unfold token_state_in.
  assert (foldl (λ m c, match h_data h !! token_key c v with
                        | Some json => <[c := parse_token_state json]> m
                        | None => m
                        end) (∅ : gmap Z TokenState) contests !! cid
    = parse_token_state <$> h_data h !! token_key cid v) as ->.
  2: { destruct (h_data h !! _); cbn; [done|]. symmetry. apply bool_decide_eq_false. apply not_elem_of_nil. }
  induction contests as [|c contests IH] using rev_ind; [by apply not_elem_of_nil in Hc|].
  rewrite foldl_snoc. destruct (decide (c = cid)) as [-> |Hne].
  - destruct (h_data h !! token_key cid v) as [json|] eqn:E;
      cbn [fmap option_fmap option_map]; [by rewrite lookup_insert_eq|].
    clear IH Hc. induction contests as [|c contests IH] using rev_ind; [done|]. rewrite foldl_snoc.
    destruct (decide (c = cid)) as [-> |Hne]; [by rewrite E|].
    destruct (h_data h !! token_key c v); [by rewrite lookup_insert_ne|done].
  - assert (cid ∈ contests) as Hin.
    { apply elem_of_app in Hc as [|E%list_elem_of_singleton]; [done|]. by subst. }
    rewrite <- (IH Hin). by destruct (h_data h !! token_key c v); [rewrite lookup_insert_ne|].
Qed.

(** The result of the submission [sub] of the contest [cid] is withheld from
    [viewer], whatever row the database has for it. *)
Definition withheld_from (h : Host) (viewer : option Z) (sub cid : Z) : Prop :=
  ∀ ids rows row, iv_rows db ids = Ok rows → row ∈ rows → sv_submission_id row = sub →
    sv_contest_type row = Some IOI ∧
    ∀ config, iv_config db cid = Ok config →
      decide_ioi_row viewer config (tokened_in h viewer cid sub) row
      = VisibilityApi.Redact none_level_mask_fields.

Lemma ioi_rows_by_id rows sub :
  match foldl (λ m row, <[sv_submission_id row := row]> m) (∅ : gmap Z SubmissionVisibilityRow) rows !! sub with
  | Some row => row ∈ rows ∧ sv_submission_id row = sub
  | None => True
  end.
Proof.
  induction rows as [|x rows IH] using rev_ind; [done|]. rewrite foldl_snoc.
  destruct (decide (sv_submission_id x = sub)) as [<-|Hne].
  - rewrite lookup_insert_eq. split; [|done]. apply elem_of_app. right. by left.
  - rewrite lookup_insert_ne by done. case_match; [|done]. destruct IH as [Hr E]. split; [|done].
    apply elem_of_app. by left.
Qed.

Lemma ioi_withholds req h ds h' i r sub cid :
  (SUBMISSION_VIEW_ALL ∉ vq_permissions req) → (CONTEST_MANAGE ∉ vq_permissions req) →
  withheld_from h (vq_user_id req) sub cid →
  vq_resources req !! i = Some r → submission_of r = Some sub → vr_contest_id r = Some cid →
  decide_visibility db req h = Some (Ok ds, h') →
  ds !! i = Some (VisibilityApi.Redact none_level_mask_fields).
Proof.
  intros Hva Hcm Hheld Hr Hsub Hcid. unfold decide_visibility.
  assert (existsb (λ p, bool_decide (p = SUBMISSION_VIEW_ALL) || bool_decide (p = CONTEST_MANAGE))
    (vq_permissions req) = false) as ->.
  { apply not_true_iff_false. intros (p & Hp%list_elem_of_In & Heq)%existsb_exists.
    apply orb_true_iff in Heq as [->%bool_decide_eq_true| ->%bool_decide_eq_true]; done. }
  pose proof (list_elem_of_lookup_2 _ _ _ Hr) as Hin.
  rewrite decide_False.
  2: { intros E. assert (sub ∈ omap submission_of (vq_resources req)) as Hs by (apply list_elem_of_omap; eauto).
       rewrite E in Hs. by apply not_elem_of_nil in Hs. }
  destruct (iv_rows db _) as [rows|] eqn:Erows; [|done]. set (byid := foldl _ _ rows).
  destruct (load_ioi_configs db _ ∅) as [configs|] eqn:Ec; [|done]. intros [= <- <-].
  rewrite list_lookup_fmap, Hr. cbn. f_equal. unfold decide_ioi_resource. rewrite Hsub.
  pose proof (ioi_rows_by_id rows sub) as Hrow. fold byid in Hrow. destruct (byid !! sub) as [row|] eqn:Erow; [|done].
  destruct Hrow as [Hrow Eid]. destruct (Hheld _ _ _ Erows Hrow Eid) as (Htype & Hdec).
  rewrite decide_False by tauto. rewrite Hcid.
  assert (ioi_contest byid r = Some cid) as Hioi.
  { unfold ioi_contest. rewrite Hsub. cbn. rewrite Erow. cbn. by rewrite decide_True. }
  match type of Ec with load_ioi_configs _ ?cs _ = _ => assert (cid ∈ cs) as Hc end.
  { apply elem_of_remove_dups, elem_of_sort_by_key, list_elem_of_omap. by exists r. }
  destruct (load_ioi_configs_lookup _ _ _ _ Ec Hc) as (config & Econf & ->).
  cbv zeta. rewrite viewer_token_states_lookup by done. by apply Hdec.
Qed.
End plugin.

Section viewer.
Context (uuid_text : Z → ustring) {W : Type}.
Context (registry : W → option (list PluginEntry)).
Context (call : VisibilityQuerier → VisibilityQueryInput → W → result ustring VisibilityQueryOutput * W).
Context (ts : W → Tables) (clock : W → Z).
Context (load_feedback : list Z → W → result AppError (gmap Z Feedback)).
Context `{Serde TokenState} (db : IoiVisibilityDb) (host : W → Host).

(** The plugin [q] runs the decision of IOI; whatever else it answers is a failure. *)
Definition runs_ioi (q : VisibilityQuerier) : Prop :=
  (∀ w, ∃ qs, visibility_queriers (registry w) = Some qs ∧ q ∈ qs) ∧
  (∀ input w out, (call q input w).1 = Ok out →
    ∃ h', decide_visibility db input (host w) = Some (Ok (vo_decisions out), h')).

(** A result is withheld from [s] all along. *)
Definition stays_withheld (s : Subject) (sub : SubmissionRow) (cid : Z) : Prop :=
  in_i32 (sb_id sub) ∧ sb_contest_id sub = Some cid ∧
  (∀ w, sub ∈ t_submissions (ts w)) ∧
  (∀ w, withheld_from db (host w) (sj_user_id s) (sb_id sub) cid).

Lemma ioi_answers_mask q s sub cid :
  runs_ioi q → contestant s → stays_withheld s sub cid →
  answers_mask uuid_text registry call none_level_mask_fields q s sub cid.
Proof.
  intros [Hq Hcall] (_ & Hva & Hcm) (Hi & Hcid & _ & Hheld). split; [exact Hq|].
  intros a targets ids w out pos Hout Ht Hids. destruct (Hcall _ _ _ Hout) as (h' & Hdec).
  eapply (ioi_withholds _ _ _ _ _ pos (query_resource uuid_text (RSubmission (sb_id sub)) (Some cid))) in Hdec;
    [exact Hdec|done|done|by apply Hheld|by apply query_input_resource|by apply submission_resource|done].
Qed.

(** What IOI feedback withholds is never sent.  While a result is withheld from a
    contestant (a rival's before the scoreboard is public, or their own without
    feedback and without a token), in every batch of submissions the server sends
    them, whatever the other plugins answer and the request remembers, the submission
    is absent or its verdict, score, resources, output and cases are blank. *)
Theorem withheld_result_never_sent q sub cid a items k w vs k' w' :
  (∀ w, tables_ok (ts w)) → runs_ioi q → contestant (vk_subject k) → stays_withheld (vk_subject k) sub cid →
  memo_ok uuid_text registry call ts clock k →
  fetch_visible_batch uuid_text registry call (λ w, db_of (ts w)) clock load_feedback a items k w
    = Some (Ok vs, k', w') →
  length vs = length items ∧
  ∀ i entity v j p x,
    items !! i = Some (RSubmission (sb_id sub), entity) → vs !! i = Some (Some v) →
    into_masked_json v = Some j → p ∈ none_level_mask_fields → x ∈ reach (split_dot p) j → blank x.
Proof.
  intros Hts Hq Hs Hsub Hk. destruct Hs as [Hadm Hs]. destruct (Hsub) as (_ & Hcid & Hrow & _).
  eapply masked_never_sent; [done..|by apply ioi_answers_mask|done].
Qed.
End viewer.

(** A rival's result is withheld before the scoreboard is public. *)
Lemma rival_withheld viewer config tokened row :
  viewer ≠ Some (sv_user_id row) →
  full_scoreboard_visible_for_phase (sv_phase row) false (scoreboard_visibility config) = false →
  decide_ioi_row viewer config tokened row = VisibilityApi.Redact none_level_mask_fields.
Proof. intros Hv Hf. unfold decide_ioi_row. rewrite decide_False by done. by rewrite Hf. Qed.

(** * A rival's submission during an IOI contest

    The tables of [VisibilityFrozen] with the IOI plugin: contestant 1 asks for the
    submission of contestant 2 while only organisers see the scoreboard. *)

Import Kernel.

Definition ioi_rival_row : SubmissionVisibilityRow := {|
  sv_submission_id := 3; sv_user_id := 2; sv_contest_type := Some IOI; sv_phase := DURING |}.

Definition ioi_visibility_db : IoiVisibilityDb := {|
  iv_config _ := Ok (ioi_config MaxSubmission Full);
  iv_rows ids := Ok (filter (λ row, sv_submission_id row ∈ ids) [ioi_rival_row]) |}.

Definition ioi_querier : VisibilityQuerier := {|
  qr_plugin_id := u "ioi"; qr_function := u "decide_visibility" |}.

Definition ioi_registry (w : unit) : option (list PluginEntry) := Some [{|
  pe_id := u "ioi"; pe_status := Loaded;
  pe_queries := Some [{| sq_topic := u "visibility"; sq_function := u "decide_visibility" |}] |}].

Definition ioi_call (q : VisibilityQuerier) (input : VisibilityQueryInput) (w : unit)
    : result ustring VisibilityQueryOutput * unit :=
  match decide_visibility ioi_visibility_db input (ex_host 0) with
  | Some (Ok ds, _) => (Ok {| vo_decisions := ds |}, tt)
  | _ => (Err (u "failed"), tt)
  end.

Lemma ioi_runs : runs_ioi ioi_registry ioi_call ioi_visibility_db (λ _, ex_host 0) ioi_querier.
Proof.
  split; [intros w; eexists; split; [reflexivity|by left]|]. intros input w out. unfold ioi_call.
  destruct (decide_visibility _ _ _) as [[[ds|] h']|] eqn:E; [|done..]. intros [= <-]. by exists h'.
Qed.

Lemma ioi_withheld : withheld_from ioi_visibility_db (ex_host 0) (sj_user_id ex_subject) 3 9.
Proof.
  intros ids rows row [= <-] [_ ->%list_elem_of_singleton]%list_elem_of_filter _.
  split; [done|]. intros config [= <-]. apply rival_withheld; [by intros [=]|by_vm].
Qed.

Lemma ioi_stays_withheld :
  stays_withheld (λ _ : unit, ex_tables) ioi_visibility_db (λ _, ex_host 0) ex_subject ex_submission 9.
Proof. split_and!; [by_decide|done|by left|]. intros _. exact ioi_withheld. Qed.

Lemma ioi_memo_ok a s : memo_ok show ioi_registry ioi_call (λ _, ex_tables) (λ _, a) (new_kernel s).
Proof. intros b r d. cbn. by rewrite lookup_empty. Qed.

Definition ioi_batch := fetch_visible_batch show ioi_registry ioi_call (λ _, db_of ex_tables) (λ _, 10%Z)
  (λ _ _, Ok ∅) ActRead [(RSubmission 3, ex_entity)] (new_kernel ex_subject) tt.

Lemma withheld_result_never_sent_witness :
  match ioi_batch with
  | Some (Ok vs, _, _) =>
      length vs = 1 ∧
      ∀ i entity v j p x,
        [(RSubmission 3, ex_entity)] !! i = Some (RSubmission 3, entity) → vs !! i = Some (Some v) →
        into_masked_json v = Some j → p ∈ none_level_mask_fields → x ∈ reach (split_dot p) j → blank x
  | _ => False
  end.
Proof.
  destruct ioi_batch as [[[[vs|e] k'] w']|] eqn:E; [|by vm_compute in E..].
  apply (withheld_result_never_sent show ioi_registry ioi_call (λ _, ex_tables) (λ _, 10%Z) (λ _ _, Ok ∅)
           ioi_visibility_db (λ _, ex_host 0) ioi_querier ex_submission 9 ActRead [(RSubmission 3, ex_entity)]
           (new_kernel ex_subject) tt vs k' w').
  - intros _. apply ex_tables_ok.
  - apply ioi_runs.
  - split_and!; by_decide.
  - apply ioi_stays_withheld.
  - apply ioi_memo_ok.
  - exact E.
Defined.

(** What is sent of the submission: the time it was judged stays. *)
Example ioi_batch_sent :
  match ioi_batch with
  | Some (Ok vs, _, _) => (λ v, v ≫= into_masked_json) <$> vs
  | _ => []
  end
  = [Some (VObject [
      (u "id", VString (u "3")); (u "verdict", VNull);
      (u "result", VObject [(u "score", VNull); (u "judged_at", VString (u "later"));
                            (u "test_case_results", VArray [])])])].
Proof. by_vm. Qed.
