(* ===== verification/PluginConfig.v ===== *)
(** * PluginConfig: the configuration of plugins

    The table plugin_config, its keys (models/plugin_config.rs), the host functions
    config_get and config_set (packages/server/src/host_funcs/config.rs), the defaults
    of a manifest (packages/plugin-core/src/manifest.rs), and the cascade of the SDK
    from the problem of a contest to the contest and the problem
    (packages/server-sdk/src/sdk/config.rs). *)

From stdpp Require Import gmap.
From S2P Require Import Prelude Text Float Json Sdk Judging.

(** ** The table *)

(** The primary key is (scope, ref_id, namespace). *)
Abbreviation ConfigKey := (ustring * ustring * ustring)%type.

Record ConfigRow := {
  pc_config : Value;
  pc_enabled : option bool;
  pc_position : Z;
}.

Abbreviation ConfigTable := (gmap ConfigKey ConfigRow).

Module ConfigKeys.
Definition problem (problem_id : Z) : ustring := show problem_id.
Definition contest_problem (contest_id problem_id : Z) : ustring :=
  show contest_id ++ u ":" ++ show problem_id.
Definition contest (contest_id : Z) : ustring := show contest_id.
End ConfigKeys.

(** ** Namespaces *)

(** [str::split_once(':')]. *)
Fixpoint split_once (c : Z) (s : ustring) : option (ustring * ustring) :=
  match s with
  | [] => None
  | x :: s => if decide (x = c) then Some ([], s)
              else '(a, b) ← split_once c s; Some (x :: a, b)
  end.

Definition COLON : Z := 58.

Definition resolve_namespace (scope plugin_id namespace : ustring) : ustring :=
  if decide (scope = u "plugin") then namespace else plugin_id ++ u ":" ++ namespace.

Definition strip_namespace_prefix (composite : ustring) : ustring :=
  default composite (snd <$> split_once COLON composite).

Definition extract_plugin_id (composite : ustring) : ustring :=
  default composite (fst <$> split_once COLON composite).

Definition is_ascii_alphanumeric (c : Z) : bool :=
  is_digit c || ((65 <=? c) && (c <=? 90))%Z || ((97 <=? c) && (c <=? 122))%Z.

Definition VALID_SCOPES : list ustring :=
  [u "problem"; u "contest_problem"; u "contest"; u "plugin"].

(** The bytes of a character in UTF-8, and [str::len]. *)
Definition utf8_len (c : Z) : nat :=
  if (c <? 128)%Z then 1 else if (c <? 2048)%Z then 2 else if (c <? 65536)%Z then 3 else 4.
Definition str_len (s : ustring) : nat := sum_list_with utf8_len s.

Definition validate_raw_namespace (namespace : ustring) : result ustring () :=
  if decide (namespace = []) then Err (u "namespace must be 1-128 characters")
  else if (128 <? str_len namespace)%nat then Err (u "namespace must be 1-128 characters")
  else if negb (forallb (λ c, is_ascii_alphanumeric c || (c =? 45)%Z || (c =? 95)%Z) namespace) then
    Err (u "namespace must contain only alphanumeric, hyphen, or underscore characters")
  else Ok tt.

Definition validate_config_input (scope ref_id namespace : ustring) : result ustring () :=
  if negb (bool_decide (scope ∈ VALID_SCOPES)) then
    Err (u "Invalid scope '" ++ scope ++ u "': must be one of " ++ join (u ", ") VALID_SCOPES)
  else if decide (ref_id = []) then Err (u "ref_id must not be empty")
  else if decide (namespace = []) then Err (u "namespace must be 1-256 characters")
  else if (256 <? str_len namespace)%nat then Err (u "namespace must be 1-256 characters")
  else if negb (forallb (λ c, is_ascii_alphanumeric c || (c =? 45)%Z || (c =? 95)%Z || (c =? COLON)%Z)
                  namespace) then
    Err (u "namespace must contain only alphanumeric, hyphen, underscore, or colon characters")
  else Ok tt.

(** ** The defaults a manifest declares *)

Inductive SchemaProperty := mkProperty {
  sp_type : ustring;
  sp_default : option Value;
  sp_properties : list (ustring * SchemaProperty);
}.

(** The properties are a map, so each key is met once. *)
Fixpoint default_value (p : SchemaProperty) : option Value :=
  match sp_default p with
  | Some d => Some d
  | None =>
      if decide (sp_type p = u "object") then
        let obj :=
          (fix go ps := match ps with
            | [] => []
            | (key, prop) :: ps =>
                match default_value prop with Some val => (key, val) :: go ps | None => go ps end
            end) (sp_properties p) in
        if decide (length obj = 0) then None else Some (VObject obj)
      else None
  end.

Definition namespace_defaults (properties : list (ustring * SchemaProperty)) : Value :=
  VObject (omap (λ kp, (kp.1,.) <$> default_value kp.2) properties).

(** ** The host functions *)

(** Equal keys after the replacement of NUL: the later entry of the map stays. *)
Fixpoint sanitize_db_json (v : Value) : Value :=
  match v with
  | VString s => VString (sanitize_text_field s)
  | VArray items => VArray (sanitize_db_json <$> items)
  | VObject entries =>
      VObject (foldl (λ acc kv, set_field (sanitize_text_field kv.1) kv.2 acc) []
        ((λ kv, (kv.1, sanitize_db_json kv.2)) <$> entries))
  | other => other
  end.

Record ConfigResult := {
  cr_config : Value;
  cr_is_default : bool;
  cr_enabled : option bool;
}.

Section host.
(** The namespaces of the manifest of each loaded plugin. *)
Context (manifests : gmap ustring (gmap ustring (list (ustring * SchemaProperty)))).

Definition config_key (plugin_id scope ref_id raw_namespace : ustring) : result ustring ConfigKey :=
  let ref_id := if decide (scope = u "plugin") then plugin_id else ref_id in
  validate_raw_namespace raw_namespace;;
  let namespace := resolve_namespace scope plugin_id raw_namespace in
  validate_config_input scope ref_id namespace;;
  Ok (scope, ref_id, namespace).

Definition manifest_defaults (plugin_id raw_namespace : ustring) : Value :=
  default (VObject [])
    (namespaces ← manifests !! plugin_id; namespace_defaults <$> namespaces !! raw_namespace).

(** The document config_get answers with; [db] is what the table answers. *)
Definition config_get_fn (plugin_id scope ref_id raw_namespace : ustring)
    (db : result ustring ConfigTable) : result ustring Value :=
  key ← config_key plugin_id scope ref_id raw_namespace;
  match db with
  | Err e => Err (u "DB error in config_get: " ++ e)
  | Ok t =>
      Ok match t !! key with
         | Some row => VObject [(u "config", pc_config row); (u "is_default", VBool false);
             (u "enabled", match pc_enabled row with Some b => VBool b | None => VNull end)]
         | None => VObject [(u "config", manifest_defaults plugin_id raw_namespace);
             (u "is_default", VBool true); (u "enabled", VNull)]
         end
  end.

(** A new row has no enablement and position 0; an old one keeps both. *)
Definition config_set_fn (plugin_id scope ref_id raw_namespace : ustring) (config : Value)
    (t : ConfigTable) : result ustring ConfigTable :=
  key ← config_key plugin_id scope ref_id raw_namespace;
  let config := sanitize_db_json config in
  Ok (<[key := match t !! key with
       | Some row => {| pc_config := config; pc_enabled := pc_enabled row;
                        pc_position := pc_position row |}
       | None => {| pc_config := config; pc_enabled := None; pc_position := 0 |}
       end]> t).
End host.

(** ** The SDK *)

(** [Config::get], from the document of the host. *)
Definition read_config_result (doc : Value) : ConfigResult := {|
  cr_config := default (VObject []) (get (u "config") doc);
  cr_is_default := default false (get (u "is_default") doc ≫= as_bool);
  cr_enabled := get (u "enabled") doc ≫= as_bool |}.

Inductive ConfigSource := SrcContestProblem | SrcContest | SrcProblem | SrcDefault | SrcDisabled.

#[global] Instance ConfigSource_eq_dec : EqDecision ConfigSource.
Proof. solve_decision. Defined.

Record CascadeLevels := {
  cl_contest_problem : option ConfigResult;
  cl_contest : option ConfigResult;
  cl_problem : ConfigResult;
}.

Record EffectiveConfig := {
  ec_config : Value;
  ec_source : ConfigSource;
  ec_is_enabled : bool;
  ec_levels : CascadeLevels;
}.

Definition explicit (r : option ConfigResult) : bool :=
  match r with Some r => negb (cr_is_default r) | None => false end.

Definition resolve_cascade (cp c : option ConfigResult) (p : ConfigResult) : EffectiveConfig :=
  let levels := {| cl_contest_problem := cp; cl_contest := c; cl_problem := p |} in
  let ordered := [(cp, SrcContestProblem); (c, SrcContest); (Some p, SrcProblem)] in
  match head (filter (λ rs, explicit rs.1) ordered) with
  | Some (Some most_specific, source) =>
      let resolved_enabled :=
        head (omap (λ rs, r ← rs.1; if cr_is_default r then None else cr_enabled r) ordered) in
      {| ec_config := cr_config most_specific;
         ec_source := match resolved_enabled with Some false => SrcDisabled | _ => source end;
         ec_is_enabled := match resolved_enabled with Some true => true | _ => false end;
         ec_levels := levels |}
  | _ => {| ec_config := cr_config p; ec_source := SrcDefault; ec_is_enabled := false;
            ec_levels := levels |}
  end.

Section sdk.
(** [raw scope ref_id ns]: the answer of the host to config_get. *)
Context (raw : ustring → ustring → ustring → result ustring Value).

Definition config_get (scope ref_id ns : ustring) : sdk ConfigResult :=
  match raw scope ref_id ns with
  | Ok doc => Ok (read_config_result doc)
  | Err e => Err (HostCall e)
  end.

Definition get_problem (problem_id : Z) (ns : ustring) : sdk ConfigResult :=
  config_get (u "problem") (show problem_id) ns.
Definition get_contest (contest_id : Z) (ns : ustring) : sdk ConfigResult :=
  config_get (u "contest") (show contest_id) ns.
Definition get_contest_problem (contest_id problem_id : Z) (ns : ustring) : sdk ConfigResult :=
  config_get (u "contest_problem") (show contest_id ++ u ":" ++ show problem_id) ns.

Definition get_effective (ns : ustring) (problem_id : Z) (contest_id : option Z) : sdk EffectiveConfig :=
  '(cp, c) ← (match contest_id with
    | Some cid =>
        cp ← get_contest_problem cid problem_id ns;
        c ← get_contest cid ns;
        Ok (Some cp, Some c)
    | None => Ok (None, None)
    end);
  p ← get_problem problem_id ns;
  Ok (resolve_cascade cp c p).
End sdk.
