(* ===== verification/Hooks.v ===== *)
(** * AppErrors: what a request of the server fails with

    packages/server/src/error.rs: the errors of the handlers, and the status, the body
    and the hint to retry they become. *)

From stdpp Require Import base list.
From S2P Require Import Prelude Text Float Json.

Inductive AppError :=
  | Validation (msg : ustring)
  | PayloadTooLarge (msg : ustring)
  | TokenMissing
  | TokenInvalid
  | InvalidCredentials
  | PermissionDenied
  | NotFound (msg : ustring)
  | MethodNotAllowed
  | Conflict (msg : ustring)
  | UsernameTaken
  | PluginNotReady (msg : ustring)
  | RateLimited (retry_after : Z)
  | Overloaded (retry_after : Z)
  | PluginRejection (code message : ustring) (status_code : Z) (details : option Value)
  | IdempotencyKeyInProgress
  | IdempotencyKeyMismatch (msg : ustring)
  | IdempotencyResponseTooLarge
  | Internal (message : ustring).

(** [From<DbErr>]. *)
Definition db_error (e : ustring) : AppError := Internal e.

Record ErrorBody := {
  eb_code : ustring;
  eb_message : ustring;
  eb_details : option Value;
}.

Definition simple (code message : ustring) : ErrorBody := {|
  eb_code := code; eb_message := message; eb_details := None |}.

(** [StatusCode::from_u16] takes 100 to 999. *)
Definition rejection_status (status_code : Z) : Z :=
  if decide (100 ≤ status_code ≤ 999 ∧ 400 ≤ status_code < 500)%Z then status_code else 400.

Definition status_and_body (e : AppError) : Z * ErrorBody :=
  match e with
  | Validation msg => (400%Z, simple (u "VALIDATION_ERROR") msg)
  | PayloadTooLarge msg => (413%Z, simple (u "PAYLOAD_TOO_LARGE") msg)
  | TokenMissing => (401%Z, simple (u "TOKEN_MISSING") (u "Authentication required"))
  | TokenInvalid => (401%Z, simple (u "TOKEN_INVALID") (u "Invalid or expired token"))
  | InvalidCredentials => (401%Z, simple (u "INVALID_CREDENTIALS") (u "Invalid username or password"))
  | PermissionDenied => (403%Z, simple (u "PERMISSION_DENIED") (u "Insufficient permissions"))
  | NotFound msg => (404%Z, simple (u "NOT_FOUND") msg)
  | MethodNotAllowed => (405%Z, simple (u "METHOD_NOT_ALLOWED") (u "HTTP method not allowed for this endpoint"))
  | Conflict msg => (409%Z, simple (u "CONFLICT") msg)
  | UsernameTaken => (409%Z, simple (u "USERNAME_TAKEN") (u "Username is already taken"))
  | PluginNotReady msg => (400%Z, simple (u "PLUGIN_NOT_READY") msg)
  | RateLimited retry_after =>
      (429%Z, simple (u "RATE_LIMITED")
        (u "Rate limit exceeded. Try again in " ++ show retry_after ++ u " seconds"))
  | Overloaded retry_after =>
      (503%Z, simple (u "QUEUE_OVERLOADED")
        (u "Server is temporarily overloaded; retry in " ++ show retry_after ++ u " seconds"))
  | PluginRejection code message status_code details =>
      (rejection_status status_code, {| eb_code := code; eb_message := message; eb_details := details |})
  | IdempotencyKeyInProgress =>
      (409%Z, simple (u "IDEMPOTENCY_KEY_IN_PROGRESS")
        (u "A request with this idempotency key is already being processed"))
  | IdempotencyKeyMismatch msg => (422%Z, simple (u "IDEMPOTENCY_KEY_MISMATCH") msg)
  | IdempotencyResponseTooLarge =>
      (409%Z, simple (u "CONFLICT")
        (u "Idempotent response too large to replay; original request succeeded but cannot be safely re-issued"))
  | Internal _ => (500%Z, simple (u "INTERNAL_ERROR") (u "An unexpected error occurred"))
  end.

(** The Retry-After header. *)
Definition retry_after (e : AppError) : option Z :=
  match e with RateLimited n | Overloaded n => Some n | _ => None end.

(** A plugin cannot answer for the server: whatever status it refuses with, the answer
    is an error of the client. *)
Lemma rejection_is_client_error status_code : (400 ≤ rejection_status status_code < 500)%Z.
Proof. unfold rejection_status. case_decide; lia. Qed.

(** The detail of an internal error does not leave the server. *)
Lemma internal_detail_hidden e e' : status_and_body (Internal e) = status_and_body (Internal e').
Proof. done. Qed.

(** * The plugins asked about an event

    packages/server/src/hooks.rs, over the hooks of packages/common/src/hook.rs and
    their implementation by a plugin (packages/plugin-core/src/hook.rs,
    packages/broccoli-types/src/types/hook.rs): which plugins are enabled for a
    resource, in which order their hooks run, and what an answer means.

    A hook is a function of a world ([W]: the tables and the plugins); the text of a
    document and its parser are arguments, as [serde_json] is a library. *)

From stdpp Require Import gmap.
From S2P Require Import Host PluginConfig.

(** ** Which plugins are enabled ([merge_resource_enablements]) *)

Abbreviation ResourceEnablements := (gmap ustring Z).

Definition scope_priority (scope : ustring) : Z :=
  if decide (scope = u "contest_problem") then 3
  else if decide (scope = u "contest") then 2
  else if decide (scope = u "problem") then 1
  else 0.

Record Agg := {
  ag_pos_pri : Z;
  ag_pos : Z;
  ag_enabled_pri : option Z;
  ag_enabled : option bool;
}.

Definition no_agg : Agg := {|
  ag_pos_pri := 0; ag_pos := 0; ag_enabled_pri := None; ag_enabled := None |}.

(** A row: namespace, scope, enabled, position. *)
Record EnablementRow := {
  er_namespace : ustring;
  er_scope : ustring;
  er_enabled : option bool;
  er_position : Z;
}.

Definition merge_position (pri position : Z) (a : Agg) : Agg :=
  match (pri ?= ag_pos_pri a)%Z with
  | Gt => {| ag_pos_pri := pri; ag_pos := position;
             ag_enabled_pri := ag_enabled_pri a; ag_enabled := ag_enabled a |}
  | Eq => {| ag_pos_pri := ag_pos_pri a; ag_pos := Z.min (ag_pos a) position;
             ag_enabled_pri := ag_enabled_pri a; ag_enabled := ag_enabled a |}
  | Lt => a
  end.

Definition with_enabled (pri : Z) (e : bool) (a : Agg) : Agg := {|
  ag_pos_pri := ag_pos_pri a; ag_pos := ag_pos a;
  ag_enabled_pri := Some pri; ag_enabled := Some e |}.

Definition merge_enabled (pri : Z) (enabled : option bool) (a : Agg) : Agg :=
  match enabled with
  | None => a
  | Some e =>
      match ag_enabled_pri a with
      | None => with_enabled pri e a
      | Some cur =>
          match (pri ?= cur)%Z with
          | Gt => with_enabled pri e a
          | Eq => with_enabled cur (bool_decide (ag_enabled a = Some true) || e) a
          | Lt => a
          end
      end
  end.

Definition merge_row (r : EnablementRow) (a : Agg) : Agg :=
  let pri := scope_priority (er_scope r) in
  merge_enabled pri (er_enabled r) (merge_position pri (er_position r) a).

Definition merge_step (best : gmap ustring Agg) (r : EnablementRow) : gmap ustring Agg :=
  let pid := extract_plugin_id (er_namespace r) in
  <[pid := merge_row r (default no_agg (best !! pid))]> best.

Definition merge_resource_enablements (rows : list EnablementRow) : ResourceEnablements :=
  omap (λ agg, if decide (ag_enabled agg = Some true) then Some (ag_pos agg) else None)
    (foldl merge_step ∅ rows).

Definition CONTEST_TYPE_OWNER_POSITION : Z := i32_min.

Definition add_contest_type_owner (enablements : ResourceEnablements) (owner : option ustring)
    : ResourceEnablements :=
  match owner with
  | Some owner => <[owner := default CONTEST_TYPE_OWNER_POSITION (enablements !! owner)]> enablements
  | None => enablements
  end.

(** The rows of the problem, of the contest and of the problem in the contest. *)
Definition applies (problem_id : Z) (contest_id : option Z) (key : ConfigKey) : bool :=
  let '(scope, ref_id, _) := key in
  bool_decide (scope = u "problem" ∧ ref_id = ConfigKeys.problem problem_id)
  || match contest_id with
     | Some cid =>
         bool_decide (scope = u "contest" ∧ ref_id = ConfigKeys.contest cid)
         || bool_decide (scope = u "contest_problem" ∧ ref_id = ConfigKeys.contest_problem cid problem_id)
     | None => false
     end.

Definition enablement_row (kr : ConfigKey * ConfigRow) : EnablementRow := {|
  er_namespace := kr.1.2; er_scope := kr.1.1.1;
  er_enabled := pc_enabled kr.2; er_position := pc_position kr.2 |}.

Definition fetch_resource_enablements (problem_id : Z) (contest_id : option Z) (t : ConfigTable)
    : ResourceEnablements :=
  merge_resource_enablements
    (enablement_row <$> filter (λ kr, applies problem_id contest_id kr.1) (map_to_list t)).

(** What a contest type registers (packages/server/src/registry.rs). *)
Record ContestTypeHandlers := {
  ch_plugin_id : ustring;
  ch_submission_admission : bool;
}.

(** [contest_type]: the column of a contest, if there is the contest. *)
Definition resource_enablements (contest_types : gmap ustring ContestTypeHandlers)
    (contest_type : Z → option ustring) (t : ConfigTable) (problem_id : Z) (contest_id : option Z)
    : ResourceEnablements :=
  let enablements := fetch_resource_enablements problem_id contest_id t in
  match contest_id with
  | None => enablements
  | Some cid =>
      match contest_type cid with
      | Some ty => add_contest_type_owner enablements (ch_plugin_id <$> contest_types !! ty)
      | None => enablements
      end
  end.

(** ** Hooks *)

Inductive HookScope := ResourceScope | GlobalScope.
Inductive HookMode := Blocking | Notify.

#[global] Instance HookMode_eq_dec : EqDecision HookMode.
Proof. solve_decision. Defined.

(** The derived order of the modes. *)
Definition mode_rank (m : HookMode) : Z := match m with Blocking => 0 | Notify => 1 end.

Record GenericEvent := { ev_topic : ustring; ev_payload : Value }.

Inductive HookAction :=
  | Pass
  | Stop
  | Modified (e : GenericEvent)
  | Reject (reason : ustring)
  | Chain (events : list GenericEvent).

(** [None]: no answer within 30 seconds. *)
Definition GenericHook (W : Type) : Type :=
  GenericEvent → W → option (result ustring HookAction) * W.

Record HookEntry (W : Type) := mkEntry {
  he_plugin_id : ustring;
  he_scope : HookScope;
  he_mode : HookMode;
  he_hook : GenericHook W;
}.
Arguments mkEntry {W} _ _ _ _.
Arguments he_plugin_id {W} _.
Arguments he_scope {W} _.
Arguments he_mode {W} _.
Arguments he_hook {W} _.

(** [ServerHookRegistry]: the hooks of a topic in the order of registration. *)
Definition HookRegistry (W : Type) : Type := gmap ustring (list (HookEntry W)).

Definition register {W} (topics : list ustring) (entry : HookEntry W) (r : HookRegistry W)
    : HookRegistry W :=
  foldl (λ r topic, <[topic := default [] (r !! topic) ++ [entry]]> r) r topics.

Definition unregister_plugin {W} (plugin_id : ustring) (r : HookRegistry W) : HookRegistry W :=
  fmap (M := gmap ustring) (λ es : list (HookEntry W), filter (λ e, he_plugin_id e ≠ plugin_id) es) r.

(** ** The answer of a plugin (packages/plugin-core/src/hook.rs) *)

Definition PLUGIN_RUNTIME_ERROR_CODE : ustring := u "__BROCCOLI_PLUGIN_RUNTIME_ERROR".
Definition PLUGIN_REJECTED : ustring := u "PLUGIN_REJECTED".
Definition DEFAULT_REJECT_MESSAGE : ustring := u "Request rejected by plugin".

Definition u16_max : Z := 65535.

Inductive HookResponse :=
  | RPass
  | RStop
  | RReject (code : ustring) (details : option Value) (message : ustring) (status_code : Z)
  | RModified (event : Value).

Definition within_u16 (z : Z) : option Z := if decide (0 ≤ z ≤ u16_max)%Z then Some z else None.

(** A field of the derived decoder: absent, or read by [read]. *)
Definition defaulted {A} (dflt : A) (read : Value → option A) (v : option Value) : option A :=
  match v with Some v => read v | None => Some dflt end.

Definition as_u16 (v : Value) : option Z := match v with VInt z => within_u16 z | _ => None end.

Definition opt_value (v : Value) : option (option Value) :=
  Some (match v with VNull => None | v => Some v end).

Definition reject_of (code details message status_code : option Value) : option HookResponse :=
  code ← defaulted PLUGIN_REJECTED as_str code;
  details ← defaulted None opt_value details;
  message ← defaulted DEFAULT_REJECT_MESSAGE as_str message;
  status_code ← defaulted 400%Z as_u16 status_code;
  Some (RReject code details message status_code).

(** The derived decoder of an internally tagged enum: an object with the tag
    "action", or an array that starts with it. *)
Definition decode_response (v : Value) : option HookResponse :=
  match v with
  | VObject fs =>
      tag ← field (u "action") fs ≫= as_str;
      if decide (tag = u "pass") then Some RPass
      else if decide (tag = u "stop") then Some RStop
      else if decide (tag = u "reject") then
        reject_of (field (u "code") fs) (field (u "details") fs) (field (u "message") fs)
          (field (u "status_code") fs)
      else if decide (tag = u "modified") then RModified <$> field (u "event") fs
      else None
  | VArray (tag :: vs) =>
      tag ← as_str tag;
      if decide (tag = u "pass") then Some RPass
      else if decide (tag = u "stop") then Some RStop
      else if decide (tag = u "reject") then
        if (length vs <=? 4)%nat then reject_of (vs !! 0) (vs !! 1) (vs !! 2) (vs !! 3) else None
      else if decide (tag = u "modified") then
        match vs with [event] => Some (RModified event) | _ => None end
      else None
  | _ => None
  end.

Record BeforeSubmissionEvent := {
  bs_user_id : Z;
  bs_problem_id : Z;
  bs_contest_id : option Z;
  bs_language : ustring;
  bs_file_count : Z;
  bs_contest_type : ustring;
}.

#[global] Instance BeforeSubmissionEvent_eq_dec : EqDecision BeforeSubmissionEvent.
Proof. solve_decision. Defined.

Definition as_int (lo hi : Z) (v : Value) : option Z :=
  match v with VInt z => if decide (lo ≤ z ≤ hi)%Z then Some z else None | _ => None end.
Definition as_i32 : Value → option Z := as_int i32_min i32_max.
Definition as_usize : Value → option Z := as_int 0 u64_max.
Definition opt_i32 (v : Value) : option (option Z) :=
  match v with VNull => Some None | v => Some <$> as_i32 v end.

Definition event_of (user_id problem_id contest_id language file_count contest_type : option Value)
    : option BeforeSubmissionEvent :=
  user_id ← user_id ≫= as_i32;
  problem_id ← problem_id ≫= as_i32;
  contest_id ← defaulted None opt_i32 contest_id;
  language ← language ≫= as_str;
  file_count ← file_count ≫= as_usize;
  contest_type ← contest_type ≫= as_str;
  Some {| bs_user_id := user_id; bs_problem_id := problem_id; bs_contest_id := contest_id;
          bs_language := language; bs_file_count := file_count; bs_contest_type := contest_type |}.

(** The derived decoder of a struct: an object, or an array of its fields. *)
Definition decode_event (v : Value) : option BeforeSubmissionEvent :=
  match v with
  | VObject fs =>
      event_of (field (u "user_id") fs) (field (u "problem_id") fs) (field (u "contest_id") fs)
        (field (u "language") fs) (field (u "file_count") fs) (field (u "contest_type") fs)
  | VArray [user_id; problem_id; contest_id; language; file_count; contest_type] =>
      event_of (Some user_id) (Some problem_id) (Some contest_id) (Some language)
        (Some file_count) (Some contest_type)
  | _ => None
  end.

(** [contest_id] is left out when there is none. *)
Definition encode_event (e : BeforeSubmissionEvent) : Value :=
  VObject ([(u "user_id", VInt (bs_user_id e)); (u "problem_id", VInt (bs_problem_id e))]
    ++ match bs_contest_id e with Some cid => [(u "contest_id", VInt cid)] | None => [] end
    ++ [(u "language", VString (bs_language e)); (u "file_count", VInt (bs_file_count e));
        (u "contest_type", VString (bs_contest_type e))]).

Section text.
(** [to_string] and [from_slice] of [serde_json]. *)
Context (to_text : Value → ustring) (of_text : ustring → result ustring Value).

Definition reject_detail (code message : ustring) (status_code : Z) : Value :=
  VObject [(u "code", VString code); (u "message", VString message);
           (u "status_code", VInt status_code)].

Definition into_hook_action (response : HookResponse) (original_topic : ustring) : HookAction :=
  match response with
  | RPass => Pass
  | RStop => Stop
  | RReject code details message status_code =>
      let detail := reject_detail code message status_code in
      Reject (to_text (match details, detail with
                       | Some d, VObject fs => VObject (set_field (u "details") d fs)
                       | _, _ => detail
                       end))
  | RModified event =>
      Modified {| ev_topic := default original_topic (get (u "topic") event ≫= as_str);
                  ev_payload := event |}
  end.

(** Bytes that are no JSON are refused; a document of another shape passes. *)
Definition interpret_hook_output (output topic plugin_id function_name : ustring) : HookAction :=
  match of_text output with
  | Err _ =>
      Reject (to_text (reject_detail PLUGIN_RUNTIME_ERROR_CODE
        (u "Plugin '" ++ plugin_id ++ u "' hook '" ++ function_name
           ++ u "' returned a non-JSON response") 500))
  | Ok value =>
      match decode_response value with
      | Some response => into_hook_action response topic
      | None => Pass
      end
  end.

(** [PluginHook::on_event]; [call] runs the function of the plugin, with the retries
    of its pool. *)
Definition plugin_hook {W} (call : ustring → ustring → ustring → W → option (result ustring ustring) * W)
    (plugin_id function_name : ustring) : GenericHook W := λ event w,
  let '(answer, w') := call plugin_id function_name (to_text (ev_payload event)) w in
  (match answer with
   | None => None
   | Some (Ok output) => Some (Ok (interpret_hook_output output (ev_topic event) plugin_id function_name))
   | Some (Err e) =>
       Some (Ok (Reject (to_text (reject_detail PLUGIN_RUNTIME_ERROR_CODE
         (u "Plugin '" ++ plugin_id ++ u "' hook '" ++ function_name ++ u "' failed: " ++ e) 500))))
   end, w').

(** ** Dispatch *)

Inductive HookOutcome :=
  | Allowed (payload : Value)
  | Rejected (code message : ustring) (status_code : Z) (details : option Value)
  | Stopped.

Definition parse_reject_detail (reason : ustring) : ustring * ustring * Z * option Value :=
  match of_text reason with
  | Ok v =>
      (default PLUGIN_REJECTED (c ← get (u "code") v; as_str c),
       default DEFAULT_REJECT_MESSAGE (m ← get (u "message") v; as_str m),
       default 400%Z (s ← get (u "status_code") v; n ← as_u64 s; within_u16 n),
       get (u "details") v)
  | Err _ => (PLUGIN_REJECTED, reason, 400%Z, None)
  end.

Definition MAX_CHAIN_DEPTH : nat := 3.

Definition BEFORE_SUBMISSION : ustring := u "before_submission".
Definition ADMISSION : ustring := u "submission_admission".

(** The body of [dispatch_hooks_inner] for a payload that a hook replaced: a hook
    of before_submission keeps the request, and only the owner of the contest
    changes its admission. *)
Definition accept_modified (topic : ustring) (admission_owner : option ustring) (plugin_id : ustring)
    (payload modified : Value) : result AppError Value :=
  if decide (topic = BEFORE_SUBMISSION) then
    match decode_event payload, decode_event modified with
    | Some event, Some event' =>
        if decide (event = event') then
          if decide (admission_owner = Some plugin_id) then Ok modified
          else
            let effects := get ADMISSION payload in
            match modified with
            | VObject fs =>
                if match field ADMISSION fs with
                   | Some value => negb (match effects with Some e => value_eqb value e | None => false end)
                   | None => false
                   end
                then Err (Internal (u "Only the contest owner may change submission admission"))
                else Ok (match effects with
                         | Some effects => VObject (set_field ADMISSION effects fs)
                         | None => modified
                         end)
            | _ => Err (Internal (u "Invalid before-submission event"))
            end
        else Err (Internal (u "Submission hooks cannot rewrite request attributes"))
    | _, _ => Err (Internal (u "Invalid before-submission event"))
    end
  else Ok modified.

Section dispatch.
Context {W : Type} (registry : HookRegistry W) (enabled_plugins : option ResourceEnablements).
Context (admission_owner : option ustring).

Record DispatchEntry := mkDispatch {
  de_plugin_id : ustring;
  de_position : Z;
  de_is_global : bool;
  de_mode : HookMode;
  de_hook : GenericHook W;
}.

Definition dispatch_entry (entry : HookEntry W) : option DispatchEntry :=
  match he_scope entry with
  | GlobalScope =>
      Some (mkDispatch (he_plugin_id entry) i32_min true (he_mode entry) (he_hook entry))
  | ResourceScope =>
      enabled ← enabled_plugins;
      pos ← enabled !! he_plugin_id entry;
      Some (mkDispatch (he_plugin_id entry) pos false (he_mode entry) (he_hook entry))
  end.

(** The order of the modes, global hooks first, then by position. *)
Definition dispatch_key (e : DispatchEntry) : Z * (Z * Z) :=
  (mode_rank (de_mode e), (if de_is_global e then 0%Z else 1%Z, de_position e)).

Definition dispatch_list (topic : ustring) : list DispatchEntry :=
  sort_by_key dispatch_key (omap dispatch_entry (default [] (registry !! topic))).

Definition Dispatch : Type := result AppError HookOutcome * W.

(** The events of a [Chain], until one is not allowed. *)
Fixpoint dispatch_chained (inner : ustring → Value → W → Dispatch) (events : list GenericEvent)
    (payload : Value) (w : W) : Dispatch :=
  match events with
  | [] => (Ok (Allowed payload), w)
  | chained :: events =>
      let '(result, w) := inner (ev_topic chained) (ev_payload chained) w in
      match result with
      | Ok (Allowed _) => dispatch_chained inner events payload w
      | _ => (result, w)
      end
  end.

Fixpoint dispatch_entries (inner : ustring → Value → W → Dispatch) (topic : ustring)
    (entries : list DispatchEntry) (payload : Value) (w : W) : Dispatch :=
  match entries with
  | [] => (Ok (Allowed payload), w)
  | entry :: entries =>
      let '(answer, w) := de_hook entry {| ev_topic := topic; ev_payload := payload |} w in
      match de_mode entry with
      | Notify => dispatch_entries inner topic entries payload w
      | Blocking =>
          match answer with
          | None => (Err (Internal (u "Hook execution timed out")), w)
          | Some (Err e) => (Err (Internal (u "Hook execution failed: " ++ e)), w)
          | Some (Ok Pass) => dispatch_entries inner topic entries payload w
          | Some (Ok (Modified new_event)) =>
              match accept_modified topic admission_owner (de_plugin_id entry) payload
                      (ev_payload new_event) with
              | Ok payload => dispatch_entries inner topic entries payload w
              | Err e => (Err e, w)
              end
          | Some (Ok Stop) =>
              if decide (topic = BEFORE_SUBMISSION) then (Ok (Allowed payload), w)
              else (Ok Stopped, w)
          | Some (Ok (Reject reason)) =>
              let '(code, message, status_code, details) := parse_reject_detail reason in
              if decide (code = PLUGIN_RUNTIME_ERROR_CODE) then (Err (Internal message), w)
              else (Ok (Rejected code message status_code details), w)
          | Some (Ok (Chain events)) => dispatch_chained inner events payload w
          end
      end
  end.

(** [depth] levels of chained events are left. *)
Fixpoint dispatch_hooks_inner (depth : nat) (topic : ustring) (payload : Value) (w : W) : Dispatch :=
  match depth with
  | 0 => (Ok (Allowed payload), w)
  | S depth => dispatch_entries (dispatch_hooks_inner depth) topic (dispatch_list topic) payload w
  end.
End dispatch.

Definition dispatch_hooks {W} (registry : HookRegistry W) (enabled_plugins : option ResourceEnablements)
    (topic : ustring) (payload : Value) (w : W) : Dispatch (W := W) :=
  dispatch_hooks_inner registry enabled_plugins None MAX_CHAIN_DEPTH topic payload w.

Definition dispatch_submission_hooks {W} (registry : HookRegistry W)
    (enabled_plugins : option ResourceEnablements) (admission_owner : option ustring)
    (event : BeforeSubmissionEvent) (w : W) : Dispatch (W := W) :=
  dispatch_hooks_inner registry enabled_plugins admission_owner MAX_CHAIN_DEPTH
    BEFORE_SUBMISSION (encode_event event) w.

(** [dispatch_hooks_background]: an event is dispatched once per id; the cache holds
    the last 10000 ids, the most recent first, and a hit is a use. *)
Definition DISPATCHED_EVENTS_CAPACITY : nat := 10000.

Definition seen_event (id : ustring) (cache : list ustring) : bool * list ustring :=
  if decide (id ∈ cache) then (true, id :: filter (λ x, x ≠ id) cache)
  else (false, take DISPATCHED_EVENTS_CAPACITY (id :: cache)).

(** The cache and the task that is spawned, if one is. *)
Definition dispatch_hooks_background {W} (registry : HookRegistry W)
    (enabled_plugins : option ResourceEnablements) (topic : ustring) (payload : Value)
    (event_id : option ustring) (cache : list ustring) : list ustring * option (W → W) :=
  let task := λ w, (dispatch_hooks registry enabled_plugins topic payload w).2 in
  match event_id with
  | Some id =>
      let '(seen, cache) := seen_event id cache in
      (cache, if seen : bool then None else Some task)
  | None => (cache, Some task)
  end.
End text.
