(* ===== verification/HooksProofs.v ===== *)
(** * HooksProofs: what hooks decide

    The merge of enablements does not depend on the order of the rows and agrees with
    the cascade a plugin sees; an event that is allowed passed every gate asked, with
    the request it came with, and an admission comes from the owner of the contest;
    a plugin that breaks refuses, and a refusal arrives as it was given. *)

From stdpp Require Import gmap.
From S2P Require Import Prelude Text Float Json Host Hooks PluginConfig.

(** ** The merge *)

Definition agg_ok (a : Agg) : Prop := is_Some (ag_enabled_pri a) ↔ is_Some (ag_enabled a).

Lemma no_agg_ok : agg_ok no_agg.
Proof. split; intros [? [=]]. Qed.

Lemma merge_row_ok r a : agg_ok a → agg_ok (merge_row r a).
Proof.
  unfold agg_ok, merge_row, merge_position, merge_enabled, with_enabled. intros Ha.
  destruct (er_enabled r); repeat case_match; cbn in *; naive_solver.
Qed.

Ltac compare_cases :=
  repeat match goal with
  | H : (_ ?= _)%Z = Eq |- _ => apply Z.compare_eq in H
  | H : (_ ?= _)%Z = Lt |- _ => rewrite Z.compare_lt_iff in H
  | H : (_ ?= _)%Z = Gt |- _ => rewrite Z.compare_gt_iff in H
  | |- context [(?x ?= ?y)%Z] => destruct (x ?= y)%Z eqn:?; cbn in *
  end.

Lemma merge_position_comm p x q y a :
  merge_position p x (merge_position q y a) = merge_position q y (merge_position p x a).
Proof.
  destruct a as [pp pos ep e]. unfold merge_position; cbn. compare_cases; subst; try lia; try done; f_equal; lia.
Qed.

Lemma merge_enabled_position p x q e a :
  merge_enabled q e (merge_position p x a) = merge_position p x (merge_enabled q e a).
Proof.
  destruct a as [pp pos ep e']. unfold merge_enabled, merge_position, with_enabled.
  destruct e as [e|]; [|done]. cbn. destruct ep as [cur|]; cbn; compare_cases; try done; lia.
Qed.

Lemma merge_enabled_comm p d q e a :
  agg_ok a → merge_enabled p d (merge_enabled q e a) = merge_enabled q e (merge_enabled p d a).
Proof.
  destruct a as [pp pos ep e']. unfold agg_ok, merge_enabled, with_enabled. cbn. intros Ha.
  destruct d as [d|], e as [e|]; try done.
  - destruct ep as [cur|]; cbn.
    + destruct e' as [e'|]; [|by destruct (proj1 Ha); eauto].
      compare_cases; subst; try lia; try done;
        destruct d, e, e'; done.
    + compare_cases; subst; try lia; try done; destruct d, e; done.
Qed.

Lemma merge_row_comm r s a : agg_ok a → merge_row r (merge_row s a) = merge_row s (merge_row r a).
Proof.
  intros Ha. unfold merge_row. rewrite !merge_enabled_position, merge_enabled_comm by done.
  apply merge_position_comm.
Qed.

Definition aggs_ok (best : gmap ustring Agg) : Prop := map_Forall (λ _, agg_ok) best.

Lemma lookup_agg_ok best pid : aggs_ok best → agg_ok (default no_agg (best !! pid)).
Proof. intros Hb. destruct (best !! pid) eqn:E; [exact (Hb _ _ E)|apply no_agg_ok]. Qed.

Lemma merge_step_ok best r : aggs_ok best → aggs_ok (merge_step best r).
Proof. intros Hb. apply map_Forall_insert_2; [by apply merge_row_ok, lookup_agg_ok|done]. Qed.

Lemma merge_step_comm best r s :
  aggs_ok best → merge_step (merge_step best r) s = merge_step (merge_step best s) r.
Proof.
  intros Hb. unfold merge_step.
  destruct (decide (extract_plugin_id (er_namespace r) = extract_plugin_id (er_namespace s))) as [E|E].
  - rewrite E, !lookup_insert_eq, !insert_insert_eq. cbn. f_equal.
    by apply merge_row_comm, lookup_agg_ok.
  - rewrite !lookup_insert_ne by done. by apply insert_insert_ne.
Qed.

(** The enablement of the plugins of a resource does not depend on the order in which
    the database returns the rows, which the query leaves open. *)
Theorem merge_order_independent rows rows' :
  rows ≡ₚ rows' → merge_resource_enablements rows = merge_resource_enablements rows'.
Proof.
  intros Hp. unfold merge_resource_enablements. f_equal.
  apply (foldl_perm_inv merge_step aggs_ok); [|exact (λ _ _ _, merge_step_comm _ _ _)|done|].
  - intros; by apply merge_step_ok.
  - apply map_Forall_empty.
Qed.

(** The rows of a plugin, merged. *)
Definition rows_of (pid : ustring) (rows : list EnablementRow) : list EnablementRow :=
  filter (λ r, extract_plugin_id (er_namespace r) = pid) rows.

Lemma foldl_merge_lookup pid rows best :
  foldl merge_step best rows !! pid
  = match rows_of pid rows with
    | [] => best !! pid
    | _ => Some (foldl (λ a r, merge_row r a) (default no_agg (best !! pid)) (rows_of pid rows))
    end.
Proof.
  revert best. induction rows as [|r rows IH]; intros best; [done|]. cbn [foldl]. rewrite IH.
  unfold rows_of. rewrite filter_cons. unfold merge_step at 1 2.
  destruct (decide (extract_plugin_id (er_namespace r) = pid)) as [<- |E].
  - rewrite lookup_insert_eq. by destruct (filter _ rows).
  - by rewrite lookup_insert_ne.
Qed.

Definition row_pri (r : EnablementRow) : Z := scope_priority (er_scope r).

(** The enablement that wins: set, of the highest priority, [true] if any is. *)
Definition enabled_by (rows : list EnablementRow) : Prop :=
  ∃ r, r ∈ rows ∧ er_enabled r = Some true
       ∧ ∀ r', r' ∈ rows → is_Some (er_enabled r') → (row_pri r' ≤ row_pri r)%Z.

(** What a prefix of the rows has left in the aggregate. *)
Definition enabled_inv (rows : list EnablementRow) (a : Agg) : Prop :=
  match ag_enabled_pri a, ag_enabled a with
  | None, None => ∀ r, r ∈ rows → er_enabled r = None
  | Some p, Some b =>
      (∃ r, r ∈ rows ∧ er_enabled r = Some b ∧ row_pri r = p)
      ∧ (∀ r, r ∈ rows → is_Some (er_enabled r) → (row_pri r ≤ p)%Z)
      ∧ (b = false → ∀ r, r ∈ rows → row_pri r = p → er_enabled r ≠ Some true)
  | _, _ => False
  end.

Lemma merge_position_enabled p x a :
  ag_enabled_pri (merge_position p x a) = ag_enabled_pri a
  ∧ ag_enabled (merge_position p x a) = ag_enabled a.
Proof. unfold merge_position. by destruct (_ ?= _)%Z. Qed.

Lemma elem_of_app_l {A} (x : A) l l' : x ∈ l → x ∈ l ++ l'.
Proof. intros. apply elem_of_app. by left. Qed.
Lemma elem_of_app_r {A} (x : A) l l' : x ∈ l' → x ∈ l ++ l'.
Proof. intros. apply elem_of_app. by right. Qed.

Lemma enabled_inv_step rows r a :
  enabled_inv rows a → enabled_inv (rows ++ [r]) (merge_row r a).
Proof.
  intros Ha. unfold merge_row. destruct (merge_position_enabled (scope_priority (er_scope r)) (er_position r) a) as [E1 E2].
  revert Ha E1 E2. generalize (merge_position (scope_priority (er_scope r)) (er_position r) a) as b.
  intros b Ha E1 E2. fold (row_pri r). unfold enabled_inv in *. rewrite <- E1, <- E2 in Ha.
  unfold merge_enabled, with_enabled. clear E1 E2. destruct b as [pp pos ep eb]. cbn in Ha |- *.
  destruct (er_enabled r) as [e|] eqn:Er.
  2:{ cbn. destruct ep as [p|], eb as [x|]; try done.
      - destruct Ha as ((r0 & Hr0 & He0 & Hp0) & Hmax & Hf). split_and!.
        + exists r0. auto using elem_of_app_l.
        + intros r' [Hr'| ->%list_elem_of_singleton]%elem_of_app Hs; [by apply Hmax|].
          rewrite Er in Hs. by destruct Hs.
        + intros Hx r' [Hr'| ->%list_elem_of_singleton]%elem_of_app Hp'; [by apply Hf|by rewrite Er].
      - intros r' [Hr'| ->%list_elem_of_singleton]%elem_of_app; auto. }
  destruct ep as [p|], eb as [x|]; try done; cbn.
  - destruct Ha as ((r0 & Hr0 & He0 & Hp0) & Hmax & Hf).
    destruct (row_pri r ?= p)%Z eqn:E; compare_cases; cbn.
    + split_and!.
      * destruct x; [exists r0; split_and!; auto using elem_of_app_l|].
        exists r. split_and!; [apply elem_of_app_r; by left|done..].
      * intros r' [Hr'| ->%list_elem_of_singleton]%elem_of_app Hs; [by apply Hmax|lia].
      * intros Hx r' [Hr'| ->%list_elem_of_singleton]%elem_of_app Hp'.
        -- apply Hf; try done. by destruct x.
        -- rewrite Er. destruct x, e; try done.
    + split_and!.
      * exists r0. split_and!; auto using elem_of_app_l.
      * intros r' [Hr'| ->%list_elem_of_singleton]%elem_of_app Hs; [by apply Hmax|lia].
      * intros Hx r' [Hr'| ->%list_elem_of_singleton]%elem_of_app Hp'; [by apply Hf|lia].
    + split_and!.
      * exists r. split_and!; [apply elem_of_app_r; by left|done..].
      * intros r' [Hr'| ->%list_elem_of_singleton]%elem_of_app Hs; [|lia].
        specialize (Hmax r' Hr' Hs). lia.
      * intros -> r' [Hr'| ->%list_elem_of_singleton]%elem_of_app Hp' ?; [|congruence].
        assert (is_Some (er_enabled r')) as Hs by eauto. specialize (Hmax r' Hr' Hs). lia.
  - split_and!.
    + exists r. split_and!; [apply elem_of_app_r; by left|done..].
    + intros r' [Hr'| ->%list_elem_of_singleton]%elem_of_app Hs; [|lia].
      rewrite (Ha r' Hr') in Hs. by destruct Hs.
    + intros -> r' [Hr'| ->%list_elem_of_singleton]%elem_of_app Hp'; [|congruence].
      by rewrite (Ha r' Hr').
Qed.

Lemma enabled_inv_foldl rows : enabled_inv rows (foldl (λ a r, merge_row r a) no_agg rows).
Proof.
  induction rows as [|r rows IH] using rev_ind; [cbn; set_solver|].
  rewrite foldl_app. by apply enabled_inv_step.
Qed.

Lemma enabled_inv_true rows a : enabled_inv rows a → ag_enabled a = Some true ↔ enabled_by rows.
Proof.
  unfold enabled_inv, enabled_by. intros Ha.
  destruct (ag_enabled_pri a) as [p|], (ag_enabled a) as [b|]; try done.
  - destruct Ha as ((r & Hr & He & Hp) & Hmax & Hf). split.
    + intros [= ->]. exists r. split_and!; [done..|]. intros r' Hr' Hs. rewrite Hp. by apply Hmax.
    + intros (r1 & Hr1 & He1 & Hmax1). destruct b; [done|]. exfalso.
      apply (Hf eq_refl r1 Hr1); [|done].
      pose proof (Hmax r1 Hr1 ltac:(eauto)). pose proof (Hmax1 r Hr ltac:(eauto)). lia.
  - split; [done|]. intros (r1 & Hr1 & He1 & _). by rewrite (Ha r1 Hr1) in He1.
Qed.

Lemma merged_plugin_enabled pid rows :
  is_Some (merge_resource_enablements rows !! pid) ↔ enabled_by (rows_of pid rows).
Proof.
  unfold merge_resource_enablements. rewrite lookup_omap, foldl_merge_lookup, lookup_empty. cbn [default].
  pose proof (enabled_inv_foldl (rows_of pid rows)) as Hinv.
  destruct (rows_of pid rows) as [|r l] eqn:E.
  - cbn. split; [by intros [? [=]]|]. intros (r & Hr & _). set_solver.
  - rewrite <- E in *. cbn. rewrite <- (enabled_inv_true _ _ Hinv). case_decide; split; try done; eauto.
Qed.

(** ** The cascade of the SDK *)

Definition plugin_namespace (plugin_id ns : ustring) : ustring := plugin_id ++ u ":" ++ ns.

Lemma extract_plugin_namespace plugin_id ns :
  COLON ∉ plugin_id → extract_plugin_id (plugin_namespace plugin_id ns) = plugin_id.
Proof.
  unfold extract_plugin_id, plugin_namespace. intros Hc.
  assert (split_once COLON (plugin_id ++ u ":" ++ ns) = Some (plugin_id, ns)) as ->; [|done].
  induction plugin_id as [|c s IH]; [done|]. apply not_elem_of_cons in Hc as [Hc Hs].
  cbn [app split_once]. rewrite decide_False by congruence. by rewrite IH.
Qed.

Lemma first_set_wins (l : list (Z * option bool)) :
  StronglySorted (λ a b, b.1 < a.1)%Z l →
  head (omap snd l) = Some true
  ↔ ∃ p, (p, Some true) ∈ l ∧ ∀ p' b, (p', Some b) ∈ l → (p' ≤ p)%Z.
Proof.
  induction 1 as [|[p [b|]] l Hl IH Hp]; cbn.
  - split; [done|]. intros (p & []%not_elem_of_nil & _).
  - rewrite Forall_forall in Hp. split.
    + intros [= ->]. exists p. split; [by left|].
      intros p' b' [[= -> _]|Hin]%elem_of_cons; [done|]. specialize (Hp _ Hin). cbn in Hp. lia.
    + intros (p0 & [[= -> <-]|Hin]%elem_of_cons & Hmax); [done|].
      specialize (Hp _ Hin). specialize (Hmax p b (list_elem_of_here _ _)). cbn in Hp. lia.
  - change (omap snd ((p, None) :: l)) with (omap (snd (A := Z)) l). rewrite IH. split.
    + intros (p0 & Hin & Hmax). exists p0. split; [by right|].
      intros p' b [[=]|Hin']%elem_of_cons. eauto.
    + intros (p0 & [[=]|Hin]%elem_of_cons & Hmax). exists p0. split; [done|].
      intros p' b Hin'. apply (Hmax p' b). by right.
Qed.

Lemma show_ne z : show z ≠ [].
Proof.
  unfold show, show_unsigned. case_match; [done|apply show_digits_nonempty].
Qed.

Section cascade.
Context (manifests : gmap ustring (gmap ustring (list (ustring * SchemaProperty)))).
Context (plugin_id ns : ustring) (t : ConfigTable) (problem_id : Z) (contest_id : option Z).

(** The plugin reads its rows in one namespace. *)
Definition valid_namespace : Prop :=
  COLON ∉ plugin_id ∧ validate_raw_namespace ns = Ok tt
  ∧ ∀ scope ref_id, scope ∈ VALID_SCOPES → ref_id ≠ [] →
      validate_config_input scope ref_id (plugin_namespace plugin_id ns) = Ok tt.

Definition one_namespace : Prop :=
  ∀ scope ref_id n row, t !! (scope, ref_id, n) = Some row →
    extract_plugin_id n = plugin_id → n = plugin_namespace plugin_id ns.

Definition row_at (scope ref_id : ustring) : option ConfigRow :=
  t !! (scope, ref_id, plugin_namespace plugin_id ns).

Definition result_of (scope ref_id : ustring) : ConfigResult :=
  match row_at scope ref_id with
  | Some row => {| cr_config := pc_config row; cr_is_default := false; cr_enabled := pc_enabled row |}
  | None => {| cr_config := manifest_defaults manifests plugin_id ns; cr_is_default := true;
               cr_enabled := None |}
  end.

Lemma config_get_row scope ref_id :
  valid_namespace → scope ∈ VALID_SCOPES → scope ≠ u "plugin" → ref_id ≠ [] →
  config_get (λ s r n, config_get_fn manifests plugin_id s r n (Ok t)) scope ref_id ns
  = Ok (result_of scope ref_id).
Proof.
  intros (_ & Hraw & Hin) Hs Hp Hr. unfold config_get, config_get_fn, config_key.
  rewrite Hraw. cbn [mbind result_bind]. rewrite decide_False by done.
  unfold resolve_namespace. rewrite decide_False by done. fold (plugin_namespace plugin_id ns).
  rewrite (Hin _ _ Hs Hr). cbn [mbind result_bind]. unfold result_of, row_at.
  destruct (t !! _) as [row|] eqn:E; [|done].
  unfold read_config_result. cbn -[u]. by destruct (pc_enabled row) as [[]|].
Qed.

(** The rows that apply, from the most specific one. *)
Definition own_rows : list (ustring * option ConfigRow) :=
  match contest_id with
  | Some cid => [(u "contest_problem", row_at (u "contest_problem") (ConfigKeys.contest_problem cid problem_id));
                 (u "contest", row_at (u "contest") (ConfigKeys.contest cid))]
  | None => []
  end ++ [(u "problem", row_at (u "problem") (ConfigKeys.problem problem_id))].

Definition fetched : list EnablementRow :=
  enablement_row <$> filter (λ kr, applies problem_id contest_id kr.1) (map_to_list t).

Lemma elem_of_fetched r :
  r ∈ fetched ↔ ∃ key row, t !! key = Some row ∧ applies problem_id contest_id key = true
                           ∧ r = enablement_row (key, row).
Proof.
  unfold fetched. rewrite list_elem_of_fmap. split.
  - intros ([key row] & -> & [Ha Hin%elem_of_map_to_list]%list_elem_of_filter). cbn in Ha.
    apply Is_true_true in Ha. eauto.
  - intros (key & row & Hk & Ha & ->). exists (key, row). split; [done|].
    apply list_elem_of_filter. split; [by apply Is_true_true|by apply elem_of_map_to_list].
Qed.

Lemma elem_of_own_rows r :
  valid_namespace → one_namespace →
  r ∈ rows_of plugin_id fetched
  ↔ ∃ scope row, (scope, Some row) ∈ own_rows
      ∧ r = {| er_namespace := plugin_namespace plugin_id ns; er_scope := scope;
               er_enabled := pc_enabled row; er_position := pc_position row |}.
Proof.
  intros (Hc & _) Hone. unfold rows_of. rewrite list_elem_of_filter, elem_of_fetched. split.
  - intros (Hpid & [[scope ref_id] n] & row & Hk & Ha & ->). cbn in Hpid.
    pose proof (Hone _ _ _ _ Hk Hpid) as ->. exists scope, row. split; [|done].
    unfold applies in Ha. unfold own_rows, row_at.
    apply orb_prop in Ha as [[-> ->]%bool_decide_eq_true|Ha].
    { rewrite Hk. apply elem_of_app. right. by left. }
    destruct contest_id as [cid|]; [|done].
    apply orb_prop in Ha as [[-> ->]%bool_decide_eq_true|[-> ->]%bool_decide_eq_true];
      rewrite Hk; apply elem_of_app; left; [right; by left|by left].
  - intros (scope & row & Hin & ->). split; [by apply extract_plugin_namespace|].
    unfold own_rows in Hin. apply elem_of_app in Hin as [Hin|Hin].
    + destruct contest_id as [cid|]; [|by apply not_elem_of_nil in Hin].
      apply elem_of_cons in Hin as [[= -> Hr]|[[= -> Hr]| []%not_elem_of_nil]%elem_of_cons];
        symmetry in Hr; (eexists (_, _), row; split; [exact Hr|]; split; [|done]);
        unfold applies; rewrite !orb_true_iff, !bool_decide_eq_true; auto.
    + apply list_elem_of_singleton in Hin as [= -> Hr]. symmetry in Hr.
      eexists (_, _), row; split; [exact Hr|]; split; [|done].
      unfold applies. rewrite !orb_true_iff, !bool_decide_eq_true. auto.
Qed.

Definition enablements : list (Z * option bool) :=
  (λ sr, (scope_priority sr.1, sr.2 ≫= pc_enabled)) <$> own_rows.

Lemma enablements_sorted : StronglySorted (λ a b, b.1 < a.1)%Z enablements.
Proof. unfold enablements, own_rows. destruct contest_id; cbn; repeat constructor. Qed.

Lemma elem_of_enablements p e :
  (p, Some e) ∈ enablements
  ↔ ∃ scope row, (scope, Some row) ∈ own_rows ∧ p = scope_priority scope ∧ pc_enabled row = Some e.
Proof.
  unfold enablements. rewrite list_elem_of_fmap. split.
  - intros ([scope [row|]] & [= -> He] & Hin). eauto 6.
  - intros (scope & row & Hin & -> & He). exists (scope, Some row). cbn. by rewrite He.
Qed.

(** The first row that sets an enablement decides. *)
Lemma enabled_by_first :
  valid_namespace → one_namespace →
  enabled_by (rows_of plugin_id fetched) ↔ head (omap snd enablements) = Some true.
Proof.
  intros Hv Hone. rewrite (first_set_wins _ enablements_sorted). split.
  - intros (r & Hr & He & Hmax).
    apply elem_of_own_rows in Hr as (scope & row & Hin & ->); [|done..]. cbn in He.
    exists (scope_priority scope). split; [apply elem_of_enablements; eauto|].
    intros p' b (scope' & row' & Hin' & -> & He')%elem_of_enablements.
    assert ({| er_namespace := plugin_namespace plugin_id ns; er_scope := scope';
      er_enabled := pc_enabled row'; er_position := pc_position row' |} ∈ rows_of plugin_id fetched)
      as Hr by (apply elem_of_own_rows; eauto).
    specialize (Hmax _ Hr). unfold row_pri in Hmax. cbn in Hmax. rewrite He' in Hmax. eauto.
  - intros (p & (scope & row & Hin & -> & He)%elem_of_enablements & Hmax).
    eexists. split; [apply elem_of_own_rows; eauto|]. split; [exact He|].
    intros r' Hr' [b Hb]. apply elem_of_own_rows in Hr' as (scope' & row' & Hin' & ->); [|done..].
    apply (Hmax _ b), elem_of_enablements. eauto.
Qed.

Lemma resolve_cascade_enabled cp c p :
  ec_is_enabled (resolve_cascade cp c p)
  = bool_decide (head (omap (λ r : option ConfigResult,
      r ← r; if cr_is_default r then None else cr_enabled r) [cp; c; Some p]) = Some true).
Proof.
  unfold resolve_cascade. cbn.
  destruct cp as [[? [] [[]|]]|], c as [[? [] [[]|]]|], p as [? [] [[]|]]; done.
Qed.

(** The configuration of the server and the cascade of the SDK agree. *)
Lemma fetched_as_configured :
  valid_namespace → one_namespace →
  ∃ e, get_effective (λ s r n, config_get_fn manifests plugin_id s r n (Ok t)) ns problem_id contest_id = Ok e
       ∧ (ec_is_enabled e = true
          ↔ is_Some (fetch_resource_enablements problem_id contest_id t !! plugin_id)).
Proof.
  intros Hv Hone. change (fetch_resource_enablements problem_id contest_id t)
    with (merge_resource_enablements fetched).
  setoid_rewrite merged_plugin_enabled. setoid_rewrite (enabled_by_first Hv Hone).
  unfold get_effective, get_contest_problem, get_contest, get_problem, enablements, own_rows.
  destruct contest_id as [cid|]; cbn [mbind result_bind];
    rewrite !config_get_row by (done || by_decide || apply show_ne || by intros [? _]%app_eq_nil; eapply show_ne);
    cbn [mbind result_bind]; (eexists; split; [reflexivity|]);
    rewrite resolve_cascade_enabled, bool_decide_eq_true; cbn; unfold result_of, ConfigKeys.contest_problem.
  - by destruct (row_at _ _) as [[? [] ?]|], (row_at _ _) as [[? [] ?]|], (row_at _ _) as [[? [] ?]|].
  - by destruct (row_at _ _) as [[? [] ?]|].
Qed.
(** The plugin registered the type of the contest. *)
Definition owns_contest_type (contest_types : gmap ustring ContestTypeHandlers)
    (contest_type : Z → option ustring) : Prop :=
  ∃ cid ty h, contest_id = Some cid ∧ contest_type cid = Some ty ∧ contest_types !! ty = Some h
    ∧ ch_plugin_id h = plugin_id.

Lemma owner_added contest_types contest_type :
  is_Some (resource_enablements contest_types contest_type t problem_id contest_id !! plugin_id)
  ↔ is_Some (fetch_resource_enablements problem_id contest_id t !! plugin_id)
    ∨ owns_contest_type contest_types contest_type.
Proof.
  unfold resource_enablements, owns_contest_type. set (fe := fetch_resource_enablements problem_id contest_id t).
  destruct contest_id as [cid|]; [|naive_solver].
  destruct (contest_type cid) as [ty|] eqn:Ety; [|naive_solver].
  destruct (contest_types !! ty) as [h|] eqn:Eh; cbn [option_fmap option_map fmap]; [|naive_solver].
  unfold add_contest_type_owner. destruct (decide (ch_plugin_id h = plugin_id)) as [Ho|Ho].
  - rewrite Ho, lookup_insert_eq. split; [intros _; right; by exists cid, ty, h|done].
  - rewrite lookup_insert_ne by done. naive_solver.
Qed.

Lemma elem_of_dispatch_list {W} (registry : HookRegistry W) enabled topic d :
  d ∈ dispatch_list registry enabled topic
  ↔ ∃ entry, entry ∈ default [] (registry !! topic) ∧ dispatch_entry enabled entry = Some d.
Proof. unfold dispatch_list. by rewrite elem_of_sort_by_key, list_elem_of_omap. Qed.

(** C29. Which hooks of a plugin a submission meets.  A registered hook is among
    those dispatched exactly when it is a global one, or the cascade of the SDK
    tells the plugin that it is enabled for the problem (in the contest, if there is
    one), or the plugin registered the type of the contest.  The plugin's rows are in
    the one namespace that it reads. *)
Theorem enabled_as_configured {W} (registry : HookRegistry W) topic entry contest_types contest_type :
  valid_namespace → one_namespace →
  entry ∈ default [] (registry !! topic) → he_plugin_id entry = plugin_id →
  let enabled := resource_enablements contest_types contest_type t problem_id contest_id in
  ∃ e, get_effective (λ s r n, config_get_fn manifests plugin_id s r n (Ok t)) ns problem_id contest_id = Ok e
       ∧ ((∃ d, dispatch_entry (Some enabled) entry = Some d ∧ d ∈ dispatch_list registry (Some enabled) topic)
          ↔ he_scope entry = GlobalScope ∨ ec_is_enabled e = true ∨ owns_contest_type contest_types contest_type).
Proof.
  intros Hv Hone Hin Hpid enabled. destruct (fetched_as_configured Hv Hone) as (e & He & Hiff).
  exists e. split; [done|]. rewrite Hiff, <-owner_added. fold enabled. unfold dispatch_entry. rewrite Hpid.
  setoid_rewrite elem_of_dispatch_list. split.
  - intros (d & Hd & _). revert Hd. destruct (he_scope entry); [|by left].
    cbn. intros (pos & Hp & _)%bind_Some. right. eauto.
  - destruct (he_scope entry) eqn:Es.
    + intros [|[pos Hp]]; [done|]. cbn. rewrite Hp. cbn. eexists. split; [done|].
      exists entry. split; [done|]. unfold dispatch_entry. rewrite Es, Hpid. cbn. by rewrite Hp.
    + intros _. eexists. split; [done|]. exists entry. split; [done|]. unfold dispatch_entry. by rewrite Es, Hpid.
Qed.
End cascade.

(** ** Dispatch *)

Lemma field_here {A} k (v : A) fs : field k ((k, v) :: fs) = Some v.
Proof. cbn. by rewrite decide_True. Qed.

Lemma field_there {A} k k' (v : A) fs : k ≠ k' → field k ((k', v) :: fs) = field k fs.
Proof. intros. cbn. by rewrite decide_False. Qed.

(** The fields of a document, looked up. *)
Ltac fields := repeat first [rewrite field_here | rewrite field_there by by_decide].

Lemma as_int_VInt lo hi z : (lo ≤ z ≤ hi)%Z → as_int lo hi (VInt z) = Some z.
Proof. intros. unfold as_int. by rewrite decide_True. Qed.

(** The server sends well-formed events. *)
Definition event_fits (e : BeforeSubmissionEvent) : Prop :=
  in_i32 (bs_user_id e) ∧ in_i32 (bs_problem_id e)
  ∧ (∀ cid, bs_contest_id e = Some cid → in_i32 cid) ∧ (0 ≤ bs_file_count e ≤ u64_max)%Z.

Lemma decode_encode_event e : event_fits e → decode_event (encode_event e) = Some e.
Proof.
  intros (Hu & Hp & Hc & Hf). destruct e as [us pr cid la fc ty]. cbn in Hu, Hp, Hc, Hf.
  unfold encode_event, decode_event. cbn [bs_user_id bs_problem_id bs_contest_id bs_language bs_file_count bs_contest_type].
  assert (as_i32 (VInt us) = Some us) as Eu by by apply as_int_VInt.
  assert (as_i32 (VInt pr) = Some pr) as Ep by by apply as_int_VInt.
  assert (as_usize (VInt fc) = Some fc) as Ef by by apply as_int_VInt.
  destruct cid as [cid|]; cbn [app]; fields; unfold event_of; cbn [mbind option_bind]; rewrite Eu, Ep, Ef.
  - assert (as_i32 (VInt cid) = Some cid) as Ec by (apply as_int_VInt, (Hc _ eq_refl)).
    cbn [mbind option_bind defaulted opt_i32]. by rewrite Ec.
  - done.
Qed.

Lemma decode_set_admission v fs : decode_event (VObject (set_field ADMISSION v fs)) = decode_event (VObject fs).
Proof. cbn [decode_event]. by rewrite !field_set_field. Qed.

Lemma dispatch_chained_allowed {W} (inner : ustring → Value → W → Dispatch) events payload payload' w w' :
  dispatch_chained inner events payload w = (Ok (Allowed payload'), w') → payload' = payload.
Proof.
  revert w. induction events as [|ev events IH]; intros w; cbn; [by intros [= -> _]|].
  destruct (inner _ _ _) as [[[]|] w2]; try done. apply IH.
Qed.

Section invariant.
Context (of_text : ustring → result ustring Value).
Context {W : Type} (registry : HookRegistry W) (enabled_plugins : option ResourceEnablements).
Context (admission_owner : option ustring) (topic : ustring).

(** The answers a gate of this dispatch may give. *)
Definition answers (entry : DispatchEntry (W := W)) (payload modified : Value) : Prop :=
  ∃ w w' event, de_hook entry {| ev_topic := topic; ev_payload := payload |} w
    = (Some (Ok (Modified event)), w') ∧ ev_payload event = modified.

(** What the replacements of a payload keep holds of the payload that is allowed. *)
Lemma dispatch_invariant (P : Value → Prop) inner entries payload w payload' w' :
  (∀ entry payload modified payload', entry ∈ entries → de_mode entry = Blocking →
     answers entry payload modified → P payload →
     accept_modified topic admission_owner (de_plugin_id entry) payload modified = Ok payload' →
     P payload') →
  P payload →
  dispatch_entries of_text admission_owner inner topic entries payload w = (Ok (Allowed payload'), w') →
  P payload'.
Proof.
  revert payload w. induction entries as [|entry entries IH]; intros payload w Hacc HP; cbn [dispatch_entries].
  { by intros [= <- _]. }
  assert (∀ p w, P p → dispatch_entries of_text admission_owner inner topic entries p w
            = (Ok (Allowed payload'), w') → P payload') as IH'.
  { intros p w0 Hp. apply IH; [|done]. intros e p1 m p2 He. apply Hacc. by right. }
  destruct (de_hook entry _ w) as [answer w1] eqn:E.
  destruct (de_mode entry) eqn:Hm; [|by apply IH'].
  destruct answer as [[[| |event|reason|events]|]|]; try done.
  - by apply IH'.
  - case_decide; [by intros [= <- _]|done].
  - destruct (accept_modified _ _ _ _ _) eqn:Ea; [|done]. apply IH'.
    refine (Hacc entry payload _ _ (list_elem_of_here _ _) Hm _ HP Ea). unfold answers. eauto.
  - destruct (parse_reject_detail of_text reason) as [[[code m] st] d]. by case_decide.
  - by intros ->%dispatch_chained_allowed.
Qed.
End invariant.

Section submission.
Context (of_text : ustring → result ustring Value).
Context {W : Type} (registry : HookRegistry W) (enabled_plugins : option ResourceEnablements).
Context (admission_owner : option ustring).

Abbreviation gates := (dispatch_list registry enabled_plugins BEFORE_SUBMISSION).

Lemma accept_modified_request plugin_id payload modified payload' e :
  decode_event payload = Some e →
  accept_modified BEFORE_SUBMISSION admission_owner plugin_id payload modified = Ok payload' →
  decode_event payload' = Some e.
Proof.
  intros He. unfold accept_modified. rewrite decide_True by done. rewrite He.
  destruct (decode_event modified) as [e'|] eqn:Hm; [|done].
  case_decide as Heq; [|done]. subst e'. case_decide; [by intros [= <-]|].
  destruct modified as [| | | | | |fs]; try done.
  repeat case_match; try done; intros [= <-]; try done; by rewrite decode_set_admission.
Qed.

(** The admission in a payload was given by a hook of the owner. *)
Definition given_by_owner (v : Value) : Prop :=
  ∃ entry payload modified, entry ∈ gates ∧ de_mode entry = Blocking
    ∧ admission_owner = Some (de_plugin_id entry)
    ∧ answers BEFORE_SUBMISSION entry payload modified ∧ get ADMISSION modified = Some v.

Lemma accept_modified_admission entry payload modified payload' :
  entry ∈ gates → de_mode entry = Blocking → answers BEFORE_SUBMISSION entry payload modified →
  (∀ v, get ADMISSION payload = Some v → given_by_owner v) →
  accept_modified BEFORE_SUBMISSION admission_owner (de_plugin_id entry) payload modified = Ok payload' →
  ∀ v, get ADMISSION payload' = Some v → given_by_owner v.
Proof.
  intros Hin Hm Ha Hp. unfold accept_modified. rewrite decide_True by done.
  destruct (decode_event payload), (decode_event modified); try done.
  case_decide; [|done]. case_decide as Ho.
  { intros [= <-] v Hv. exists entry, payload, modified. done. }
  destruct modified as [| | | | | |fs]; try done.
  destruct (field ADMISSION fs) as [value|] eqn:Hf.
  - destruct (get ADMISSION payload) as [effects|] eqn:Hg; cbn.
    + destruct (value_eqb value effects); cbn; [|done]. intros [= <-] v. cbn.
      rewrite field_set_field, decide_True by done. intros [= <-]. by apply Hp.
    + done.
  - destruct (get ADMISSION payload) as [effects|] eqn:Hg; intros [= <-] v; cbn.
    + rewrite field_set_field, decide_True by done. intros [= <-]. by apply Hp.
    + intros Hv. exfalso. change (field ADMISSION fs = Some v) in Hv. congruence.
Qed.

Lemma get_admission_encode e : get ADMISSION (encode_event e) = None.
Proof. unfold encode_event. cbn [get]. destruct (bs_contest_id e); cbn [app]; by fields. Qed.

(** C18. Whatever the hooks of before_submission answer, a submission that is allowed is
    the one the user sent, and an admission in it was given by a gate of the plugin
    that owns the contest. *)
Theorem allowed_submission_genuine e w payload w' :
  event_fits e →
  dispatch_submission_hooks of_text registry enabled_plugins admission_owner e w = (Ok (Allowed payload), w') →
  decode_event payload = Some e ∧ ∀ v, get ADMISSION payload = Some v → given_by_owner v.
Proof.
  intros He Hd. unfold dispatch_submission_hooks, MAX_CHAIN_DEPTH in Hd. cbn [dispatch_hooks_inner] in Hd. split.
  - refine (dispatch_invariant of_text _ _ (λ p, decode_event p = Some e) _ _ _ _ _ _ _ _ Hd);
      [|by apply decode_encode_event].
    intros entry p m p' _ _ _ Hp Ha. by apply (accept_modified_request _ _ _ _ _ Hp Ha).
  - refine (dispatch_invariant of_text _ _ (λ p, ∀ v, get ADMISSION p = Some v → given_by_owner v)
              _ _ _ _ _ _ _ _ Hd); [|by rewrite get_admission_encode].
    intros entry p m p' Hin Hm Ha Hp. by apply (accept_modified_admission entry p m).
Qed.

(** ** The gates that were passed *)

(** The hooks of a list ran and none refused. *)
Inductive GateRun : list DispatchEntry → Value → W → Value → W → Prop :=
  | gates_done p w : GateRun [] p w p w
  | gate_notified entry entries answer p w w1 p' w' :
      de_mode entry = Notify →
      de_hook entry {| ev_topic := BEFORE_SUBMISSION; ev_payload := p |} w = (answer, w1) →
      GateRun entries p w1 p' w' → GateRun (entry :: entries) p w p' w'
  | gate_passed entry entries p w w1 p' w' :
      de_mode entry = Blocking →
      de_hook entry {| ev_topic := BEFORE_SUBMISSION; ev_payload := p |} w = (Some (Ok Pass), w1) →
      GateRun entries p w1 p' w' → GateRun (entry :: entries) p w p' w'
  | gate_modified entry entries event p w w1 p1 p' w' :
      de_mode entry = Blocking →
      de_hook entry {| ev_topic := BEFORE_SUBMISSION; ev_payload := p |} w
        = (Some (Ok (Modified event)), w1) →
      accept_modified BEFORE_SUBMISSION admission_owner (de_plugin_id entry) p (ev_payload event) = Ok p1 →
      GateRun entries p1 w1 p' w' → GateRun (entry :: entries) p w p' w'.

Abbreviation run := (dispatch_entries of_text admission_owner
  (dispatch_hooks_inner of_text registry enabled_plugins admission_owner 2) BEFORE_SUBMISSION).

(** What the dispatch does after gates that passed. *)
Lemma run_after passed rest p w p1 w1 :
  GateRun passed p w p1 w1 → run (passed ++ rest) p w = run rest p1 w1.
Proof.
  induction 1 as [|entry entries answer ? ? ? ? ? Hm Hh _ IH|entry entries ? ? ? ? ? Hm Hh _ IH
    |entry entries event ? ? ? ? ? ? Hm Hh Ha _ IH]; cbn [app dispatch_entries]; [done|..];
    rewrite Hh, Hm; [done|done|by rewrite Ha].
Qed.

(** An answer that accepts the submission without the gates that follow. *)
Definition stops (entry : DispatchEntry) (p : Value) (w w' : W) : Prop :=
  de_mode entry = Blocking
  ∧ de_hook entry {| ev_topic := BEFORE_SUBMISSION; ev_payload := p |} w = (Some (Ok Stop), w').

Definition never_chains (entry : DispatchEntry (W := W)) : Prop :=
  ∀ event w events w', de_hook entry event w ≠ (Some (Ok (Chain events)), w').

Lemma run_allowed entries p w p' w' :
  Forall never_chains entries →
  run entries p w = (Ok (Allowed p'), w') →
  ∃ passed rest w1, entries = passed ++ rest ∧ GateRun passed p w p' w1
    ∧ ((rest = [] ∧ w' = w1) ∨ ∃ entry rest', rest = entry :: rest' ∧ stops entry p' w1 w').
Proof.
  intros Hch. revert p w. induction Hch as [|entry entries Hc _ IH]; intros p w; cbn [dispatch_entries].
  { intros [= -> ->]. exists [], [], w'. split_and!; [done|constructor|by left]. }
  destruct (de_hook entry _ w) as [answer w1] eqn:Hh.
  destruct (de_mode entry) eqn:Hm.
  - destruct answer as [[[| |event|reason|events]|]|]; try done.
    + intros (passed & rest & w2 & -> & Hg & Hr)%IH.
      exists (entry :: passed), rest, w2. split_and!; [done|by eapply gate_passed|done].
    + rewrite decide_True by done. intros [= -> ->].
      exists [], (entry :: entries), w. split_and!; [done|constructor|right; eexists _, _; done].
    + destruct (accept_modified _ _ _ _ _) eqn:Ha; [|done].
      intros (passed & rest & w2 & -> & Hg & Hr)%IH.
      exists (entry :: passed), rest, w2. split_and!; [done|by eapply gate_modified|done].
    + destruct (parse_reject_detail of_text reason) as [[[code m] st] d]. by case_decide.
    + by apply Hc in Hh.
  - intros (passed & rest & w2 & -> & Hg & Hr)%IH.
    exists (entry :: passed), rest, w2. split_and!; [done|by eapply gate_notified|done].
Qed.

(** A submission is allowed exactly when every gate passes it, in their order, or
    one of them accepts it for those that follow. *)
Theorem allowed_iff_gates_pass e w payload w' :
  Forall never_chains gates →
  dispatch_submission_hooks of_text registry enabled_plugins admission_owner e w = (Ok (Allowed payload), w')
  ↔ ∃ passed rest w1, gates = passed ++ rest ∧ GateRun passed (encode_event e) w payload w1
      ∧ ((rest = [] ∧ w' = w1) ∨ ∃ entry rest', rest = entry :: rest' ∧ stops entry payload w1 w').
Proof.
  intros Hc. unfold dispatch_submission_hooks, MAX_CHAIN_DEPTH. cbn [dispatch_hooks_inner]. split.
  - by apply run_allowed.
  - intros (passed & rest & w1 & -> & Hg & Hr). rewrite (run_after _ _ _ _ _ _ Hg).
    destruct Hr as [[-> ->]|(entry & rest' & -> & Hm & Hh)]; [done|].
    cbn [dispatch_entries]. by rewrite Hh, Hm, decide_True.
Qed.
End submission.

(** ** Documents that JSON text keeps *)

(** Integers of 64 bits, no number with a fraction, and each key once. *)
Fixpoint exact_json (v : Value) : bool :=
  match v with
  | VNull | VBool _ | VString _ => true
  | VInt z => bool_decide (i64_min ≤ z ≤ u64_max)%Z
  | VFloat _ => false
  | VArray vs => forallb exact_json vs
  | VObject fs => bool_decide (NoDup (fst <$> fs)) && forallb (λ kv, exact_json kv.2) fs
  end.

Lemma value_eqb_field fs gs k v :
  value_eqb (VObject fs) (VObject gs) = true → field k fs = Some v →
  ∃ w, field k gs = Some w ∧ value_eqb v w = true.
Proof.
  cbn. intros [_ Hall]%andb_prop. revert Hall.
  induction fs as [|[k0 v0] fs IH]; [done|].
  destruct (field k0 gs) as [w0|] eqn:E; [|done]. intros [Hv Hr]%andb_prop. cbn [field].
  destruct (decide (k = k0)) as [-> |]; [intros [= <-]; eauto|by apply IH].
Qed.

Lemma field_elem {A} k (fs : list (ustring * A)) : is_Some (field k fs) ↔ k ∈ fst <$> fs.
Proof.
  induction fs as [|[k0 v] fs IH]; cbn [field fmap list_fmap].
  - split; [by intros [? ?]|by intros ?%not_elem_of_nil].
  - rewrite elem_of_cons. cbn. destruct (decide (k = k0)) as [-> |Hne]; [naive_solver|].
    rewrite IH. naive_solver.
Qed.

Lemma value_eqb_no_field fs gs k :
  NoDup (fst <$> fs) → value_eqb (VObject fs) (VObject gs) = true →
  field k fs = None → field k gs = None.
Proof.
  intros Hnd He Hk. destruct (field k gs) as [w|] eqn:Hg; [|done]. exfalso.
  assert (k :: (fst <$> fs) ⊆ fst <$> gs) as Hsub.
  { intros x [-> |Hx]%elem_of_cons; [apply field_elem; eauto|].
    apply field_elem in Hx as [v Hv]. destruct (value_eqb_field _ _ _ _ He Hv) as (w' & Hw & _).
    apply field_elem. eauto. }
  assert (NoDup (k :: (fst <$> fs))) as Hnd'.
  { constructor; [|done]. intros [v Hv]%field_elem. congruence. }
  apply NoDup_submseteq in Hsub; [|done]. apply submseteq_length in Hsub.
  cbn in He. apply andb_prop in He as [Hl%Nat.eqb_eq _]. cbn in Hsub.
  rewrite !length_fmap in Hsub. lia.
Qed.

(** [serde_json] reads back what it wrote, up to the order of the entries. *)
Definition text_roundtrip (to_text : Value → ustring) (of_text : ustring → result ustring Value) : Prop :=
  ∀ v, exact_json v = true → ∃ v', of_text (to_text v) = Ok v' ∧ value_eqb v v' = true.

Definition same_details (d d' : option Value) : Prop :=
  match d, d' with
  | None, None => True
  | Some v, Some v' => value_eqb v v' = true
  | _, _ => False
  end.

Section text.
Context (to_text : Value → ustring) (of_text : ustring → result ustring Value).
Context (Htext : text_roundtrip to_text of_text).

Lemma value_eqb_object fs v : value_eqb (VObject fs) v = true → ∃ gs, v = VObject gs.
Proof. destruct v; try done. eauto. Qed.

Lemma value_eqb_string s w : value_eqb (VString s) w = true → w = VString s.
Proof. destruct w; try done. cbn. by intros ->%bool_decide_eq_true. Qed.

Lemma value_eqb_int z w : value_eqb (VInt z) w = true → w = VInt z.
Proof. destruct w; try done. cbn. by intros ->%Z.eqb_eq. Qed.

(** The document of a refusal, with its details. *)
Definition detail_fields (code message : ustring) (status_code : Z) (details : option Value)
    : list (ustring * Value) :=
  [(u "code", VString code); (u "message", VString message); (u "status_code", VInt status_code)]
  ++ match details with Some d => [(u "details", d)] | None => [] end.

Lemma parse_detail code message status_code details :
  (0 ≤ status_code ≤ u16_max)%Z → (∀ d, details = Some d → exact_json d = true) →
  ∃ details', parse_reject_detail of_text (to_text (VObject (detail_fields code message status_code details)))
              = (code, message, status_code, details')
            ∧ same_details details details'.
Proof.
  intros Hs Hd. set (fs := detail_fields _ _ _ _).
  assert (NoDup (fst <$> fs)) as Hnd by (destruct details; by_decide).
  assert (exact_json (VObject fs) = true) as He.
  { cbn [exact_json]. rewrite bool_decide_eq_true_2 by done. unfold fs, detail_fields.
    assert (bool_decide (i64_min ≤ status_code ≤ u64_max)%Z = true) as Hr.
    { apply bool_decide_eq_true. unfold u16_max, i64_min, u64_max in *. lia. }
    destruct details as [d|]; cbn [forallb app exact_json fst snd]; rewrite Hr; [by rewrite (Hd d)|done]. }
  destruct (Htext _ He) as (v' & Hv & Heq). destruct (value_eqb_object _ _ Heq) as [gs ->].
  unfold parse_reject_detail. rewrite Hv. cbn [get].
  assert (∀ k v, field k fs = Some v → ∃ w, field k gs = Some w ∧ value_eqb v w = true) as Hf
    by (intros; by apply (value_eqb_field fs)).
  destruct (Hf (u "code") (VString code)) as (w1 & -> & ->%value_eqb_string);
    [unfold fs, detail_fields; cbn [app]; by fields|].
  destruct (Hf (u "message") (VString message)) as (w2 & -> & ->%value_eqb_string);
    [unfold fs, detail_fields; cbn [app]; by fields|].
  destruct (Hf (u "status_code") (VInt status_code)) as (w3 & -> & ->%value_eqb_int);
    [unfold fs, detail_fields; cbn [app]; by fields|].
  cbn [mbind option_bind as_str as_u64 default]. rewrite decide_True by lia.
  cbn [mbind option_bind]. unfold within_u16. rewrite decide_True by done. cbn [default].
  eexists. split; [reflexivity|]. destruct details as [d|].
  - destruct (Hf (u "details") d) as (w4 & -> & Hw);
      [unfold fs, detail_fields; cbn [app]; by fields|done].
  - rewrite (value_eqb_no_field fs gs); [done..|]. unfold fs, detail_fields. cbn [app]. by fields.
Qed.

Lemma into_reject code details message status_code topic :
  into_hook_action to_text (RReject code details message status_code) topic
  = Reject (to_text (VObject (detail_fields code message status_code details))).
Proof.
  unfold into_hook_action, reject_detail, detail_fields. by destruct details.
Qed.

Section gate.
Context {W : Type} (call : ustring → ustring → ustring → W → option (result ustring ustring) * W).
Context (admission_owner : option ustring) (inner : ustring → Value → W → Dispatch (W := W)).
Context (topic plugin_id function_name : ustring) (entry : DispatchEntry (W := W)).
Context (Hhook : de_hook entry = plugin_hook to_text of_text call plugin_id function_name).
Context (Hmode : de_mode entry = Blocking).

(** What a plugin answers to refuse arrives at the dispatcher as it was given: the
    code, the message, the status and the details; the hooks that follow do not run. *)
Theorem refusal_arrives rest payload w w' output doc code details message status_code :
  call plugin_id function_name (to_text payload) w = (Some (Ok output), w') →
  of_text output = Ok doc → decode_response doc = Some (RReject code details message status_code) →
  (0 ≤ status_code ≤ u16_max)%Z → (∀ d, details = Some d → exact_json d = true) →
  code ≠ PLUGIN_RUNTIME_ERROR_CODE →
  ∃ details', dispatch_entries of_text admission_owner inner topic (entry :: rest) payload w
              = (Ok (Rejected code message status_code details'), w')
            ∧ same_details details details'.
Proof.
  intros Hc Ho Hd Hs He Hne. destruct (parse_detail code message status_code details Hs He) as (details' & Hp & Hsame).
  exists details'. split; [|done]. cbn [dispatch_entries]. rewrite Hhook. unfold plugin_hook. cbn [ev_payload].
  rewrite Hc, Hmode. unfold interpret_hook_output. rewrite Ho, Hd, into_reject, Hp. by rewrite decide_False.
Qed.

(** The call failed, gave no JSON, or did not end in time. *)
Definition broken (answer : option (result ustring ustring)) : Prop :=
  match answer with
  | None => True
  | Some (Err _) => True
  | Some (Ok output) => is_Ok (of_text output) = false
  end.

(** A gate whose plugin breaks refuses the event with an internal error, whatever
    the hooks that follow it would have said. *)
Theorem broken_gate_refuses rest payload w w' answer :
  call plugin_id function_name (to_text payload) w = (answer, w') → broken answer →
  ∃ message, dispatch_entries of_text admission_owner inner topic (entry :: rest) payload w
             = (Err (Internal message), w').
Proof.
  intros Hc Hb. cbn [dispatch_entries]. rewrite Hhook. unfold plugin_hook. cbn [ev_payload]. rewrite Hc, Hmode.
  assert (∀ message, ∃ d, parse_reject_detail of_text
    (to_text (reject_detail PLUGIN_RUNTIME_ERROR_CODE message 500)) = (PLUGIN_RUNTIME_ERROR_CODE, message, 500%Z, d)) as Hp.
  { intros message. destruct (parse_detail PLUGIN_RUNTIME_ERROR_CODE message 500 None) as (d & Hp & _);
      [unfold u16_max; lia|done|]. exists d. exact Hp. }
  destruct answer as [[output|e]|]; [| |eauto].
  - unfold interpret_hook_output. cbn in Hb. destruct (of_text output) as [doc|e]; [done|].
    edestruct Hp as [d ->]. rewrite decide_True by done. eauto.
  - edestruct Hp as [d ->]. rewrite decide_True by done. eauto.
Qed.
End gate.

Lemma plugin_hook_never_chains {W} (call : ustring → ustring → ustring → W → option (result ustring ustring) * W)
    plugin_id function_name event w events w' :
  plugin_hook to_text of_text call plugin_id function_name event w ≠ (Some (Ok (Chain events)), w').
Proof.
  unfold plugin_hook, interpret_hook_output. destruct (call _ _ _ _) as [[[output|e]|] w1]; try done.
  destruct (of_text output) as [doc|]; [|done]. by destruct (decode_response doc) as [[]|].
Qed.
End text.

(** ** Hooks that are only told *)

Section notify.
Context (of_text : ustring → result ustring Value).
Context {W : Type} (admission_owner : option ustring) (inner : ustring → Value → W → Dispatch (W := W)).

(** A hook in the notify mode never decides: whatever it answers, the event is
    allowed as it was when the gates had passed. *)
Theorem notified_never_decide topic entries payload w :
  Forall (λ e, de_mode e = Notify) entries →
  ∃ w', dispatch_entries of_text admission_owner inner topic entries payload w = (Ok (Allowed payload), w').
Proof.
  intros Hn. revert w. induction Hn as [|entry entries Hm _ IH]; intros w; cbn [dispatch_entries]; [eauto|].
  destruct (de_hook entry _ w) as [answer w1]. rewrite Hm. apply IH.
Qed.

(** The gates come first. *)
Lemma gates_before_notified registry enabled_plugins topic :
  ∃ gates told, dispatch_list (W := W) registry enabled_plugins topic = gates ++ told
    ∧ Forall (λ e, de_mode e = Blocking) gates ∧ Forall (λ e, de_mode e = Notify) told.
Proof.
  unfold dispatch_list. pose proof (sort_by_key_sorted dispatch_key
    (omap (dispatch_entry enabled_plugins) (default [] (registry !! topic)))) as Hs.
  revert Hs. generalize (sort_by_key dispatch_key (omap (dispatch_entry enabled_plugins) (default [] (registry !! topic)))).
  intros l. induction 1 as [|e l Hl (gates & told & -> & Hg & Ht) He]; [by exists [], []|].
  destruct (de_mode e) eqn:Hm.
  - exists (e :: gates), told. split_and!; [done|by constructor|done].
  - exists [], (e :: gates ++ told). split_and!; [done|constructor|constructor; [done|]].
    apply Forall_app. split; [|done]. destruct gates as [|g gates]; [constructor|].
    apply Forall_cons in Hg as [Hg _]. apply Forall_app in He as [He _]. apply Forall_cons in He as [He _].
    unfold key_le, kle, Ord_prod, dispatch_key in He. cbn in He. rewrite Hm, Hg in He. done.
Qed.
End notify.

(** ** Events that are dispatched in the background *)

(** An event whose id is still in the cache is not dispatched again. *)
Lemma background_once {W} of_text (registry : HookRegistry W) enabled topic payload id cache cache' task :
  dispatch_hooks_background of_text registry enabled topic payload (Some id) cache = (cache', task) →
  (task = None ↔ id ∈ cache) ∧ head cache' = Some id.
Proof.
  unfold dispatch_hooks_background, seen_event. case_decide; intros [= <- <-]; done.
Qed.
