(* ===== verification/Statements.v ===== *)
(** * Statements: programs that run one database statement at a time

    A plugin talks to the database in single statements, each a transaction of its
    own, between which other requests run.  A [Program] is the tree of its
    statements; [exec] runs one alone, and [step] is a world of requests at any
    points of their programs.  A statement is atomic, at the clock it reads, and
    every request ends within [latency] of its start. *)

From stdpp Require Import gmap relations.
From S2P Require Import Prelude Text Sdk.

Section program.
Context {Db : Type}.

(** A statement reads the clock, in microseconds. *)
Definition Stmt (R : Type) : Type := Z → Db → sdk R * Db.

Inductive Program (A : Type) :=
  | Return (a : A)
  | Query {R : Type} (stmt : Stmt R) (k : sdk R → Program A).

#[global] Arguments Return {A} _.
#[global] Arguments Query {A R} _ _.

Fixpoint bind_program {A B} (f : A → Program B) (p : Program A) : Program B :=
  match p with
  | Return a => f a
  | Query stmt k => Query stmt (λ r, bind_program f (k r))
  end.

(** Alone, at one clock. *)
Fixpoint exec {A} (p : Program A) (now : Z) (db : Db) : A * Db :=
  match p with
  | Return a => (a, db)
  | Query stmt k => let '(r, db) := stmt now db in exec (k r) now db
  end.

(** One statement. *)
Definition run_statement {A} (p : Program A) (now : Z) (db : Db) : Program A * Db :=
  match p with
  | Return a => (p, db)
  | Query stmt k => let '(r, db) := stmt now db in (k r, db)
  end.

Lemma exec_run_statement {A} (p : Program A) now db :
  exec p now db = exec (run_statement p now db).1 now (run_statement p now db).2.
Proof. destruct p as [a|R stmt k]; cbn; [done|]. by destruct (stmt now db). Qed.
End program.

#[global] Arguments Program : clear implicits.
#[global] Arguments Stmt : clear implicits.

#[export] Instance Program_ret {Db} : MRet (Program Db) := λ A, Return.
#[export] Instance Program_bind {Db} : MBind (Program Db) := λ A B, bind_program.

Lemma exec_bind {D A B} (f : A → Program D B) (p : Program D A) now db :
  exec (bind_program f p) now db = exec (f (exec p now db).1) now (exec p now db).2.
Proof.
  revert db. induction p as [a|R stmt k IH]; intros db; cbn; [done|]. destruct (stmt now db) as [r db']. apply IH.
Qed.

(** ** Requests at once *)

Section world.
Context {Db E A : Type}.
(** The program of a request, what its end does to the tables, and the longest a
    request takes. *)
Context (program : E → Program Db A) (commit : Z → Z → E → A → Db → Db) (latency : Z).

Record Request := mkRequest { rq_event : E; rq_start : Z; rq_program : Program Db A }.

Record World := mkWorld { w_now : Z; w_db : Db; w_requests : gmap nat Request }.

Definition in_time (now : Z) (r : Request) : Prop := (now ≤ rq_start r + latency)%Z.

Inductive step (w : World) : World → Prop :=
  | step_tick now :
      (w_now w ≤ now)%Z → map_Forall (λ _, in_time now) (w_requests w) →
      step w (mkWorld now (w_db w) (w_requests w))
  | step_begin i e :
      w_requests w !! i = None →
      step w (mkWorld (w_now w) (w_db w) (<[i := mkRequest e (w_now w) (program e)]> (w_requests w)))
  | step_statement i r :
      w_requests w !! i = Some r →
      step w (mkWorld (w_now w) (run_statement (rq_program r) (w_now w) (w_db w)).2
        (<[i := mkRequest (rq_event r) (rq_start r)
                  (run_statement (rq_program r) (w_now w) (w_db w)).1]> (w_requests w)))
  | step_commit i r a :
      w_requests w !! i = Some r → rq_program r = Return a →
      step w (mkWorld (w_now w) (commit (rq_start r) (w_now w) (rq_event r) a (w_db w))
        (delete i (w_requests w)))
  | step_drop i :
      step w (mkWorld (w_now w) (w_db w) (delete i (w_requests w))).

(** The steps as a function, to run a world. *)
Inductive Action := Tick (now : Z) | Begin (i : nat) (e : E) | Run (i : nat) | Commit (i : nat) | Drop (i : nat).

Definition act (a : Action) (w : World) : option World :=
  match a with
  | Tick now =>
      if decide ((w_now w ≤ now)%Z ∧ map_Forall (λ _ r, (now ≤ rq_start r + latency)%Z) (w_requests w))
      then Some (mkWorld now (w_db w) (w_requests w)) else None
  | Begin i e =>
      match w_requests w !! i with
      | None => Some (mkWorld (w_now w) (w_db w) (<[i := mkRequest e (w_now w) (program e)]> (w_requests w)))
      | Some _ => None
      end
  | Run i =>
      r ← w_requests w !! i;
      let '(p, db) := run_statement (rq_program r) (w_now w) (w_db w) in
      Some (mkWorld (w_now w) db (<[i := mkRequest (rq_event r) (rq_start r) p]> (w_requests w)))
  | Commit i =>
      r ← w_requests w !! i;
      match rq_program r with
      | Return a => Some (mkWorld (w_now w) (commit (rq_start r) (w_now w) (rq_event r) a (w_db w))
                            (delete i (w_requests w)))
      | _ => None
      end
  | Drop i => Some (mkWorld (w_now w) (w_db w) (delete i (w_requests w)))
  end.

Fixpoint acts (l : list Action) (w : World) : option World :=
  match l with [] => Some w | a :: l => w ← act a w; acts l w end.

Lemma act_step a w w' : act a w = Some w' → step w w'.
Proof.
  destruct a as [now|i e|i|i|i]; cbn.
  - destruct (decide _) as [[Hn Ht]|]; [|done]. intros [= <-]. by apply step_tick.
  - destruct (w_requests w !! i) eqn:E0; [done|]. intros [= <-]. by apply step_begin.
  - destruct (w_requests w !! i) as [r|] eqn:E0; [|done]. cbn. pose proof (step_statement w i r E0) as Hs.
    destruct (run_statement _ _ _) as [p db]. by intros [= <-].
  - destruct (w_requests w !! i) as [r|] eqn:E0; [|done]. cbn.
    destruct (rq_program r) as [a|] eqn:Ep; [|done]. intros [= <-]. by apply step_commit.
  - intros [= <-]. apply step_drop.
Qed.

Lemma acts_steps l w w' : acts l w = Some w' → rtc step w w'.
Proof.
  revert w. induction l as [|a l IH]; intros w; cbn; [intros [= <-]; constructor|].
  destruct (act a w) as [w1|] eqn:E0; [|done]. intros Hl. exact (rtc_l _ _ _ _ (act_step _ _ _ E0) (IH _ Hl)).
Qed.

(** What holds of the tables, and of each request beside them. *)
Context (Inv : Z → Db → Prop) (Local : Z → Db → Request → Prop) (Apart : Z → Request → Request → Prop).

Definition world_ok (w : World) : Prop :=
  Inv (w_now w) (w_db w)
  ∧ (∀ i r, w_requests w !! i = Some r →
       Local (w_now w) (w_db w) r ∧ (rq_start r ≤ w_now w)%Z ∧ in_time (w_now w) r)
  ∧ (∀ i j r s, i ≠ j → w_requests w !! i = Some r → w_requests w !! j = Some s → Apart (w_now w) r s).

Record Preserved := {
  pr_tick now now' db : (now ≤ now')%Z → Inv now db → Inv now' db;
  pr_tick_local now now' db r :
    (now ≤ now')%Z → Local now db r → Local now' db r;
  pr_tick_apart now now' r s : (now ≤ now')%Z → Apart now r s → Apart now' r s;
  pr_begin now db e : Inv now db → Local now db (mkRequest e now (program e));
  pr_begin_apart now db e r : Inv now db → Local now db r →
    Apart now (mkRequest e now (program e)) r ∧ Apart now r (mkRequest e now (program e));
  pr_statement now db r p' db' :
    Inv now db → Local now db r → (rq_start r ≤ now)%Z → in_time now r →
    run_statement (rq_program r) now db = (p', db') →
    Inv now db' ∧ Local now db' (mkRequest (rq_event r) (rq_start r) p')
    ∧ ∀ s, Local now db s → (rq_start s ≤ now)%Z → in_time now s → Apart now r s → Apart now s r →
        Local now db' s
        ∧ Apart now (mkRequest (rq_event r) (rq_start r) p') s
        ∧ Apart now s (mkRequest (rq_event r) (rq_start r) p');
  pr_commit now db r a :
    Inv now db → Local now db r → (rq_start r ≤ now)%Z → in_time now r → rq_program r = Return a →
    Inv now (commit (rq_start r) now (rq_event r) a db)
    ∧ ∀ s, Local now db s → (rq_start s ≤ now)%Z → in_time now s → Apart now r s → Apart now s r →
        Local now (commit (rq_start r) now (rq_event r) a db) s;
}.

Lemma world_step_ok w w' : (0 ≤ latency)%Z → Preserved → world_ok w → step w w' → world_ok w'.
Proof.
  intros Hl HP (Hi & Hr & Ha) Hs. unfold world_ok. destruct Hs as [now Hn Ht|i e Hf|i r Hr0|i r a Hr0 Hret|i]; cbn.
  - split_and!; [by eapply (pr_tick HP)| |].
    + intros i r Hir. destruct (Hr i r Hir) as (H1 & H2 & _).
      split_and!; [by eapply (pr_tick_local HP)|lia|by apply (Ht i r)].
    + intros i j r s Hij Hir Hjs. by eapply (pr_tick_apart HP), Ha.
  - split_and!; [done| |].
    + intros j r [[<- <-]|[Hne Hj]]%lookup_insert_Some; [|eauto].
      split_and!; [by apply (pr_begin HP)|cbn; lia|unfold in_time; cbn; lia].
    + intros j k r s Hjk Hj Hk.
      apply lookup_insert_Some in Hj as [[<- <-]|[Hne Hj]], Hk as [[<- <-]|[Hne' Hk]]; try done.
      * exact (proj1 (pr_begin_apart HP _ _ e s Hi (proj1 (Hr k s Hk)))).
      * exact (proj2 (pr_begin_apart HP _ _ e r Hi (proj1 (Hr j r Hj)))).
      * exact (Ha _ _ _ _ Hjk Hj Hk).
  - destruct (Hr i r Hr0) as (H1 & H2 & H3).
    destruct (run_statement (rq_program r) (w_now w) (w_db w)) as [p1 db1] eqn:Es.
    destruct (pr_statement HP _ _ _ _ _ Hi H1 H2 H3 Es) as (Hi' & Hl' & Ho). cbn. split_and!; [done| |].
    + intros j s [[<- <-]|[Hne Hj]]%lookup_insert_Some; [done|].
      destruct (Hr j s Hj) as (H4 & H5 & H6). split_and!; [|done..]. apply Ho; eauto.
    + intros j k s s' Hjk Hj Hk.
      apply lookup_insert_Some in Hj as [[<- <-]|[Hne Hj]], Hk as [[<- <-]|[Hne' Hk]]; [done|..|exact (Ha _ _ _ _ Hjk Hj Hk)].
      * destruct (Hr k s' Hk) as (H4 & H5 & H6). eapply Ho; eauto.
      * destruct (Hr j s Hj) as (H4 & H5 & H6). eapply Ho; eauto.
  - destruct (Hr i r Hr0) as (H1 & H2 & H3).
    destruct (pr_commit HP _ _ _ _ Hi H1 H2 H3 Hret) as (Hi' & Ho). split_and!; [done| |].
    + intros j s [Hne Hj]%lookup_delete_Some. destruct (Hr j s Hj) as (H4 & H5 & H6).
      split_and!; [|done..]. apply Ho; eauto.
    + intros j k s s' Hjk [_ Hj]%lookup_delete_Some [_ Hk]%lookup_delete_Some. exact (Ha _ _ _ _ Hjk Hj Hk).
  - split_and!; [done| |].
    + intros j s [_ Hj]%lookup_delete_Some. eauto.
    + intros j k s s' Hjk [_ Hj]%lookup_delete_Some [_ Hk]%lookup_delete_Some. exact (Ha _ _ _ _ Hjk Hj Hk).
Qed.

Lemma world_reachable_ok w w' : (0 ≤ latency)%Z → Preserved → world_ok w → rtc step w w' → world_ok w'.
Proof. intros Hl HP. induction 2; [done|]. eauto using world_step_ok. Qed.
End world.

(** ** Programs that keep an invariant *)

(** What holds of the tables whatever the others do: a program keeps [Inv] at each of its
    statements and changes the tables only as [Guar] says, while the others do so too. *)
Section guarded.
Context {Db : Type} (Inv : Db → Prop) (Guar : Db → Db → Prop) `{!PreOrder Guar}.

Fixpoint safe {A} (Q : A → Db → Prop) (p : Program Db A) (db : Db) : Prop :=
  match p with
  | Return a => Q a db
  | Query stmt k => ∀ now db', Guar db db' → Inv db' →
      Inv (stmt now db').2 ∧ Guar db' (stmt now db').2 ∧ safe Q (k (stmt now db').1) (stmt now db').2
  end.

Definition stable {A} (Q : A → Db → Prop) : Prop := ∀ a db db', Guar db db' → Q a db → Q a db'.

Lemma safe_later {A} (Q : A → Db → Prop) p db db' : stable Q → Guar db db' → safe Q p db → safe Q p db'.
Proof using All.
  intros HQ Hg. destruct p as [a|R stmt k]; cbn; [by apply HQ|]. intros H now db1 Hg1. apply H. by etrans.
Qed.

Lemma safe_bind {A B} (Q : A → Db → Prop) (Q' : B → Db → Prop) (p : Program Db A) f db :
  safe Q p db → (∀ a db', Guar db db' → Q a db' → safe Q' (f a) db') → safe Q' (p ≫= f) db.
Proof using All.
  revert db. induction p as [a|R stmt k IH]; intros db Hp Hf; cbn in *; [by apply Hf|].
  intros now db' Hg Hi. destruct (Hp now db' Hg Hi) as (H1 & H2 & H3). split_and!; [done|done|].
  apply IH; [done|]. intros a db2 Hg2. apply Hf. etrans; [exact Hg|]. by etrans.
Qed.

Lemma safe_mono {A} (Q Q' : A → Db → Prop) p db : (∀ a db', Guar db db' → Q a db' → Q' a db') → safe Q p db → safe Q' p db.
Proof using All.
  revert db. induction p as [a|R stmt k IH]; intros db HQ Hp; cbn in *; [by apply HQ|].
  intros now db' Hg Hi. destruct (Hp now db' Hg Hi) as (H1 & H2 & H3). split_and!; [done|done|].
  apply IH; [|done]. intros a db2 Hg2. apply HQ. etrans; [exact Hg|]. by etrans.
Qed.

Context {E A : Type} (program : E → Program Db A) (commit : Z → Z → E → A → Db → Db) (latency : Z).

(** Requests that are safe keep the invariant together. *)
Lemma safe_reachable (w w' : World (Db := Db) (E := E) (A := A)) :
  (0 ≤ latency)%Z → (∀ e db, Inv db → safe (λ _ _, True) (program e) db) →
  (∀ start now e a db, commit start now e a db = db) →
  Inv (w_db w) → w_requests w = ∅ → rtc (step program commit latency) w w' → Inv (w_db w').
Proof using All.
  intros Hl Hsafe Hcommit Hi He Hsteps.
  pose (Local := λ (_ : Z) (db : Db) (r : Request (Db := Db) (E := E) (A := A)), safe (λ _ _, True) (rq_program r) db).
  assert (world_ok latency (λ _, Inv) Local (λ _ _ _, True) w') as H; [|by destruct H].
  eapply (world_reachable_ok program commit); [done| |split_and!; [exact Hi|..]|exact Hsteps].
  - constructor; try done.
    + intros now db e Hdb. by apply Hsafe.
    + intros now db r p' db' Hdb Hr _ _ Hrun. unfold Local in *. destruct (rq_program r) as [a|R stmt k] eqn:Ep; cbn in *.
      * injection Hrun as <- <-. done.
      * destruct (Hr now db ltac:(done) Hdb) as (H1 & H2 & H3). destruct (stmt now db) as [x db1]. cbn in *.
        injection Hrun as <- <-. split_and!; [done|done|]. intros s Hs _ _ _ _. split; [|done]. by eapply safe_later.
    + intros now db r a Hdb Hr _ _ _. rewrite Hcommit. done.
  - intros i r. by rewrite He.
  - intros i j r s _. by rewrite He.
Qed.
End guarded.

#[global] Arguments Request : clear implicits.
#[global] Arguments World : clear implicits.
#[global] Arguments Action : clear implicits.
#[global] Arguments Tick {E} _.
#[global] Arguments Begin {E} _ _.
#[global] Arguments Run {E} _.
#[global] Arguments Commit {E} _.
#[global] Arguments Drop {E} _.
