(* ===== verification/Cooldown.v ===== *)
(** * Cooldown: the pause between two submissions

    plugins/cooldown/src/lib.rs: the hook before a submission, which reads the last
    submission and claims a slot in one statement, and the status a contestant is
    shown.  Times are in microseconds; [cast_int] is the cast of PostgreSQL from
    numeric to integer, which rounds half away from zero. *)

From stdpp Require Import gmap.
From S2P Require Import Prelude Text Float Json Sdk PluginConfig Hooks Statements.

Definition u32_of (v : Value) : option Z := as_int 0 u32_max v.

(** ** Configuration *)

(** [CooldownConfig]: one optional field, from an object or an array. *)
Definition opt_u32 (v : Value) : option (option Z) :=
  match v with VNull => Some None | v => Some <$> u32_of v end.

Definition parse_single (key : ustring) (v : Value) : option (option Z) :=
  match v with
  | VObject fs => defaulted None opt_u32 (field key fs)
  | VArray [] => Some None
  | VArray [v] => opt_u32 v
  | _ => None
  end.

(** [parse_config().unwrap_or_default()], and 0 for no value. *)
Definition configured (key : ustring) (eff : EffectiveConfig) : Z :=
  default 0%Z (default None (parse_single key (ec_config eff))).

(** ** The tables *)

Abbreviation SlotKey := (Z * Z * Z)%type.

Record SubmissionRow := {
  sm_user : Z;
  sm_problem : Z;
  sm_contest : option Z;
  sm_created_at : Z;
}.

(** The claims, when their table exists. *)
Record CooldownDb := mkCooldown {
  cd_claims : option (gmap SlotKey Z);
  cd_submissions : list SubmissionRow;
}.

Definition SECOND : Z := 1000000.

Definition round_seconds (us : Z) : Z :=
  if (us <? 0)%Z then (- ((- us + 500000) / SECOND))%Z else ((us + 500000) / SECOND)%Z.

Definition ceil_seconds (us : Z) : Z := (- ((- us) / SECOND))%Z.

Definition cast_int (z : Z) : sdk Z :=
  if decide (in_i32 z) then Ok z else Err (Database (u "integer out of range")).

Definition missing_table : SdkError := Database (u "relation does not exist").

(** ** Statements *)

Definition ensure_schema : Stmt CooldownDb () := λ _ db,
  (Ok tt, mkCooldown (Some (default ∅ (cd_claims db))) (cd_submissions db)).

Definition CLAIM_GRACE_SECS : Z := 15.

Definition try_claim (user_id problem_id contest_key claim_window : Z) : Stmt CooldownDb bool := λ now db,
  match cd_claims db with
  | None => (Err missing_table, db)
  | Some claims =>
      let key := (user_id, problem_id, contest_key) in
      let free := match claims !! key with
                  | Some last => (last <=? now - claim_window * SECOND)%Z
                  | None => true
                  end in
      if free then (Ok true, mkCooldown (Some (<[key := now]> claims)) (cd_submissions db))
      else (Ok false, db)
  end.

Definition remaining_from_claim (user_id problem_id contest_key cooldown : Z) : Stmt CooldownDb Z := λ now db,
  (match cd_claims db with
   | None => Err missing_table
   | Some claims =>
       Ok match claims !! (user_id, problem_id, contest_key) with
          | Some last => (Z.max 1 (Z.min cooldown (ceil_seconds (last + cooldown * SECOND - now))))%Z
          | None => 1%Z
          end
   end, db).

Definition in_slot (user_id problem_id : Z) (contest_id : option Z) (s : SubmissionRow) : bool :=
  bool_decide (sm_user s = user_id ∧ sm_problem s = problem_id ∧ sm_contest s = contest_id).

(** [MAX(created_at)]. *)
Definition max_created (rows : list SubmissionRow) : option Z :=
  foldr (λ s acc, Some (match acc with Some m => Z.max (sm_created_at s) m | None => sm_created_at s end))
    None rows.

Definition query_submission_elapsed (user_id problem_id : Z) (contest_id : option Z)
    : Stmt CooldownDb (option Z) := λ now db,
  (match max_created (filter (λ s, in_slot user_id problem_id contest_id s) (cd_submissions db)) with
   | Some last => Some <$> cast_int (round_seconds (now - last))
   | None => Ok None
   end, db).

Definition query_claim_elapsed (user_id problem_id : Z) (contest_id : option Z)
    : Stmt CooldownDb (option Z) := λ now db,
  (match cd_claims db with
   | None => Err missing_table
   | Some claims =>
       match claims !! (user_id, problem_id, default 0%Z contest_id) with
       | Some last => Some <$> cast_int (round_seconds (now - last))
       | None => Ok None
       end
   end, db).

(** ** The hook before a submission *)

Definition reject_response (remaining cooldown : Z) : HookResponse :=
  RReject (u "COOLDOWN_ACTIVE")
    (Some (VObject [(u "remaining_seconds", VInt remaining); (u "cooldown_seconds", VInt cooldown)]))
    (u "Please wait " ++ show remaining ++ u " more second" ++ (if decide (remaining = 1%Z) then [] else u "s"))
    429.

(** The checks of the status requests of both plugins: the user, the contest, if one is
    named, and the problem. *)
Definition checked_request {A} (contests : ContestDb) (req : PluginHttpRequest)
    : api A (Z * option Z * Z) :=
  user_id ← (match user_id req with Some user => Ok user | None => api_error 401 (u "Authentication required") end);
  let contest_id := rq_params req !! (u "contest_id" : ustring) ≫= parse_i32 in
  problem_id ← api_of (param_i32 req (u "problem_id"));
  (match contest_id with
   | Some cid => check_problem_access contests req cid user_id problem_id
   | None => Ok tt
   end);;
  Ok (user_id, contest_id, problem_id).

Section plugin.
(** What config_get answers, and the error for a document that is no event. *)
Context (raw : ustring → ustring → ustring → result ustring Value) (bad_event : SdkError).

Abbreviation Hook := (Program CooldownDb (sdk HookResponse)).

Definition finish_claim (event : BeforeSubmissionEvent) (cooldown : Z) (claimed : sdk bool) : Hook :=
  match claimed with
  | Err e => Return (Err e)
  | Ok true => Return (Ok RPass)
  | Ok false =>
      Query (remaining_from_claim (bs_user_id event) (bs_problem_id event)
               (default 0%Z (bs_contest_id event)) cooldown)
        (λ r, let remaining := match r with Ok r => r | Err _ => 1%Z end in
              Return (Ok (reject_response remaining cooldown)))
  end.

Definition claim_slot (event : BeforeSubmissionEvent) (cooldown : Z) : Hook :=
  let claim_window := Z.min cooldown CLAIM_GRACE_SECS in
  let claim := try_claim (bs_user_id event) (bs_problem_id event) (default 0%Z (bs_contest_id event)) claim_window in
  Query claim (λ r,
    match r with
    | Ok _ => finish_claim event cooldown r
    | Err _ =>
        Query ensure_schema (λ r,
          match r with
          | Err e => Return (Err e)
          | Ok _ => Query claim (finish_claim event cooldown)
          end)
    end).

Definition check_cooldown (input : Value) : Hook :=
  match decode_event input with
  | None => Return (Err bad_event)
  | Some event =>
      match get_effective raw (u "cooldown") (bs_problem_id event) (bs_contest_id event) with
      | Err _ => Return (Ok RPass)
      | Ok eff =>
          if negb (ec_is_enabled eff) then Return (Ok RPass)
          else
            let cooldown := configured (u "cooldown_seconds") eff in
            if (cooldown =? 0)%Z then Return (Ok RPass)
            else
              Query (query_submission_elapsed (bs_user_id event) (bs_problem_id event) (bs_contest_id event))
                (λ r, match r with
                 | Err e => Return (Err e)
                 | Ok seconds_since_last =>
                     match (λ s, Z.max s 0) <$> seconds_since_last with
                     | Some elapsed =>
                         if (elapsed <? cooldown)%Z
                         then Return (Ok (reject_response (cooldown - elapsed) cooldown))
                         else claim_slot event cooldown
                     | None => claim_slot event cooldown
                     end
                 end)
      end
  end.

(** ** The status *)

Record CooldownStatusResponse := {
  cs_enabled : bool;
  cs_cooldown_seconds : Z;
  cs_seconds_since_last : option Z;
  cs_can_submit : bool;
  cs_source : ConfigSource;
}.

Definition can_submit (cooldown : Z) (submission_elapsed claim_elapsed : option Z) : bool :=
  if (cooldown =? 0)%Z then true
  else
    let claim_window := Z.min cooldown CLAIM_GRACE_SECS in
    let durable_ok := match submission_elapsed with Some s => (cooldown <=? Z.max s 0)%Z | None => true end in
    let claim_ok := match claim_elapsed with Some s => (claim_window <=? Z.max s 0)%Z | None => true end in
    durable_ok && claim_ok.

Abbreviation Status := (Program CooldownDb (api CooldownStatusResponse (PluginHttpResponse CooldownStatusResponse))).

(** [?] in a handler. *)
Definition try_query {R} (stmt : Stmt CooldownDb R) (k : R → Status) : Status :=
  Query stmt (λ r, match r with Ok x => k x | Err e => Return (Err (ApiSdk e)) end).

Definition status_body (eff : EffectiveConfig) (cooldown : Z) (submission_elapsed claim_elapsed : option Z)
    : CooldownStatusResponse := {|
  cs_enabled := true; cs_cooldown_seconds := cooldown; cs_seconds_since_last := submission_elapsed;
  cs_can_submit := can_submit cooldown submission_elapsed claim_elapsed; cs_source := ec_source eff |}.

Definition read_status (eff : EffectiveConfig) (user_id problem_id : Z) (contest_id : option Z) : Status :=
  let cooldown := configured (u "cooldown_seconds") eff in
  try_query (query_submission_elapsed user_id problem_id contest_id) (λ submission_elapsed,
    let finish := λ claim_elapsed,
      Return (Ok (ok_response (status_body eff cooldown submission_elapsed claim_elapsed))) in
    Query (query_claim_elapsed user_id problem_id contest_id) (λ r,
      match r with
      | Ok v => finish v
      | Err _ =>
          try_query ensure_schema (λ _,
            try_query (query_claim_elapsed user_id problem_id contest_id) finish)
      end)).

Definition handle_cooldown_status (contests : ContestDb) (req : PluginHttpRequest) : Status :=
  match checked_request contests req with
  | Err e => Return (Err e)
  | Ok (user_id, contest_id, problem_id) =>
      match get_effective raw (u "cooldown") problem_id contest_id with
      | Err e => Return (Err (ApiSdk e))
      | Ok eff =>
          if negb (ec_is_enabled eff) then
            Return (Ok (ok_response {| cs_enabled := false; cs_cooldown_seconds := 0;
              cs_seconds_since_last := None; cs_can_submit := true; cs_source := ec_source eff |}))
          else read_status eff user_id problem_id contest_id
      end
  end.
End plugin.
