(* ===== verification/CooldownProofs.v ===== *)
(** * CooldownProofs: submissions are a cooldown apart

    In any interleaving of requests, each of which ends within a latency that is less
    than half of the window of the claim, two submissions of a user to a problem are
    the cooldown apart, up to the rounding of a second and the latency. *)

From stdpp Require Import gmap.
From S2P Require Import Prelude Text Float Json Sdk PluginConfig Hooks HooksProofs Statements Cooldown.

Lemma decode_encode_same e e' : decode_event (encode_event e) = Some e' → e' = e.
Proof.
  destruct e as [us pr cid la fc ty]. unfold encode_event, decode_event.
  cbn [bs_user_id bs_problem_id bs_contest_id bs_language bs_file_count bs_contest_type].
  assert (∀ lo hi z z', as_int lo hi (VInt z) = Some z' → z' = z) as Hint.
  { intros lo hi z z'. unfold as_int. case_decide; congruence. }
  destruct cid as [cid|]; cbn [app]; fields; unfold event_of; cbn [mbind option_bind defaulted opt_i32].
  - destruct (as_i32 (VInt us)) eqn:E1; [|done]. destruct (as_i32 (VInt pr)) eqn:E2; [|done].
    destruct (as_i32 (VInt cid)) eqn:E3; [|done]. destruct (as_usize (VInt fc)) eqn:E4; [|done].
    apply Hint in E1 as ->, E2 as ->, E3 as ->, E4 as ->. by intros [= <-].
  - destruct (as_i32 (VInt us)) eqn:E1; [|done]. destruct (as_i32 (VInt pr)) eqn:E2; [|done].
    destruct (as_usize (VInt fc)) eqn:E4; [|done].
    apply Hint in E1 as ->, E2 as ->, E4 as ->. by intros [= <-].
Qed.

Lemma round_seconds_ge us n : (0 < n)%Z → (n ≤ Z.max (round_seconds us) 0)%Z → (n * SECOND - 500000 ≤ us)%Z.
Proof.
  unfold round_seconds, SECOND. intros Hn. destruct (Z.ltb_spec us 0); intros H1.
  - assert (0 ≤ (- us + 500000) / 1000000)%Z by (apply Z.div_pos; lia). lia.
  - pose proof (Z.mul_div_le (us + 500000) 1000000). lia.
Qed.

Lemma max_created_ge rows s : s ∈ rows → ∃ m, max_created rows = Some m ∧ (sm_created_at s ≤ m)%Z.
Proof.
  induction rows as [|r rows IH]; [by intros ?%not_elem_of_nil|].
  intros [-> |Hs]%elem_of_cons; cbn [max_created foldr].
  - eexists. split; [done|]. case_match; lia.
  - destruct (IH Hs) as (m & Hm & Hle). unfold max_created in Hm. rewrite Hm. eexists. split; [done|]. lia.
Qed.

Section slot.
Context (raw : ustring → ustring → ustring → result ustring Value) (bad_event : SdkError).
Context (user problem : Z) (contest : option Z) (cooldown latency : Z).

(** The configuration of the slot. *)
Definition cooldown_is : Prop :=
  ∃ eff, get_effective raw (u "cooldown") problem contest = Ok eff
         ∧ ec_is_enabled eff = true ∧ configured (u "cooldown_seconds") eff = cooldown.

Context (Hcfg : cooldown_is) (Hpos : (0 < cooldown)%Z).

Definition window : Z := Z.min cooldown CLAIM_GRACE_SECS * SECOND.

Context (Hlat : (0 ≤ latency)%Z) (Hwin : (2 * latency < window)%Z).

(** The least time between two submissions. *)
Definition gap : Z := cooldown * SECOND - 500000 - latency.

Definition key : SlotKey := (user, problem, default 0%Z contest).

Definition slot_event (e : BeforeSubmissionEvent) : bool :=
  bool_decide (bs_user_id e = user ∧ bs_problem_id e = problem ∧ bs_contest_id e = contest).

Definition slot_rows (db : CooldownDb) : list SubmissionRow :=
  filter (λ s, in_slot user problem contest s) (cd_submissions db).

Definition claimed_at (db : CooldownDb) : option Z := cd_claims db ≫= (.!! key).

(** The handler stamps a submission with the clock it read before the hooks, and
    inserts it when they passed. *)
Definition insert_submission (start now : Z) (e : BeforeSubmissionEvent) (a : sdk HookResponse)
    (db : CooldownDb) : CooldownDb :=
  match a with
  | Ok RPass => mkCooldown (cd_claims db) (cd_submissions db ++ [{|
      sm_user := bs_user_id e; sm_problem := bs_problem_id e; sm_contest := bs_contest_id e;
      sm_created_at := start |}])
  | _ => db
  end.

Definition program (e : BeforeSubmissionEvent) : Program CooldownDb (sdk HookResponse) :=
  check_cooldown raw bad_event (encode_event e).

Abbreviation Req := (Request CooldownDb BeforeSubmissionEvent (sdk HookResponse)).

Definition Inv (now : Z) (db : CooldownDb) : Prop :=
  (∀ l, claimed_at db = Some l → (l ≤ now)%Z)
  ∧ (∀ s, s ∈ slot_rows db → ∃ l, claimed_at db = Some l ∧ (sm_created_at s ≤ l)%Z)
  ∧ StronglySorted (λ a b, sm_created_at a + gap ≤ sm_created_at b)%Z (slot_rows db).

(** Statements that leave the submissions, and at most renew the claim of the slot. *)
Definition tame_result (now : Z) (db db' : CooldownDb) : Prop :=
  cd_submissions db' = cd_submissions db
  ∧ (claimed_at db' = claimed_at db ∨ claimed_at db' = Some now).

Inductive tame : Program CooldownDb (sdk HookResponse) → Prop :=
  | tame_return a : tame (Return a)
  | tame_query {R} (stmt : Stmt CooldownDb R) k :
      (∀ now db, tame_result now db (stmt now db).2) → (∀ r, tame (k r)) → tame (Query stmt k).

Inductive refuses : Program CooldownDb (sdk HookResponse) → Prop :=
  | refuses_return a : a ≠ Ok RPass → refuses (Return a)
  | refuses_query {R} (stmt : Stmt CooldownDb R) k :
      (∀ now db, (stmt now db).2 = db) → (∀ r, refuses (k r)) → refuses (Query stmt k).

(** A request that has read, and may claim. *)
Definition may_claim (db : CooldownDb) (start : Z) : Prop :=
  ∀ s, s ∈ slot_rows db → (sm_created_at s + gap ≤ start ∨ start ≤ sm_created_at s + latency)%Z.

(** A request that has claimed. *)
Definition has_claimed (db : CooldownDb) (start : Z) : Prop :=
  (∃ l, claimed_at db = Some l ∧ (start ≤ l)%Z)
  ∧ ∀ s, s ∈ slot_rows db → (sm_created_at s + gap ≤ start)%Z.

Definition claim_stmt : Stmt CooldownDb bool :=
  try_claim user problem (default 0%Z contest) (Z.min cooldown CLAIM_GRACE_SECS).

Inductive point (db : CooldownDb) (start : Z) (e : BeforeSubmissionEvent)
    : Program CooldownDb (sdk HookResponse) → Prop :=
  | point_start : point db start e (program e)
  | point_claim : may_claim db start → point db start e (claim_slot e cooldown)
  | point_schema : may_claim db start → point db start e (Query ensure_schema (λ r,
      match r with Err err => Return (Err err) | Ok _ => Query claim_stmt (finish_claim e cooldown) end))
  | point_retry : may_claim db start → point db start e (Query claim_stmt (finish_claim e cooldown))
  | point_claimed : has_claimed db start → point db start e (Return (Ok RPass))
  | point_refused p : refuses p → point db start e p.

Definition Local (now : Z) (db : CooldownDb) (r : Req) : Prop :=
  if slot_event (rq_event r) then point db (rq_start r) (rq_event r) (rq_program r)
  else tame (rq_program r).

Definition passed (r : Req) : Prop := slot_event (rq_event r) = true ∧ rq_program r = Return (Ok RPass).

Definition Apart (now : Z) (r s : Req) : Prop := ¬ (passed r ∧ passed s).

(** ** Statements are tame *)

Lemma claim_tame u p c w now db : tame_result now db (try_claim u p c w now db).2.
Proof.
  unfold try_claim. destruct (cd_claims db) as [claims|] eqn:E; [|split; auto].
  set (free := match _ with Some _ => _ | None => _ end). destruct free; [|split; auto].
  split; [done|]. unfold claimed_at. cbn. rewrite E. cbn.
  destruct (decide ((u, p, c) = key)) as [-> |]; [right; by rewrite lookup_insert_eq|].
  left. by rewrite lookup_insert_ne.
Qed.

Lemma schema_tame now db : tame_result now db (ensure_schema now db).2.
Proof. split; [done|]. left. unfold claimed_at. cbn. by destruct (cd_claims db). Qed.

Lemma read_tame u p c now db : tame_result now db (query_submission_elapsed u p c now db).2.
Proof. split; auto. Qed.

Lemma remaining_tame u p c w now db : tame_result now db (remaining_from_claim u p c w now db).2.
Proof. split; auto. Qed.

Lemma finish_tame e cd r : tame (finish_claim e cd r).
Proof.
  destruct r as [[]|]; cbn; [constructor| |constructor].
  constructor; [apply remaining_tame|constructor].
Qed.

Lemma claim_slot_tame e cd : tame (claim_slot e cd).
Proof.
  unfold claim_slot. constructor; [apply claim_tame|]. intros [b|err]; [apply finish_tame|].
  constructor; [apply schema_tame|]. intros [?|?]; [|constructor].
  constructor; [apply claim_tame|]. intros r. apply finish_tame.
Qed.

Lemma program_tame e : tame (program e).
Proof.
  unfold program, check_cooldown. destruct (decode_event _) as [e'|]; [|constructor].
  destruct (get_effective _ _ _ _) as [eff|]; [|constructor].
  destruct (ec_is_enabled eff); [|constructor]. cbn [negb]. case_match; [constructor|].
  constructor; [apply read_tame|]. intros [[s|]|]; cbn; [|apply claim_slot_tame|constructor].
  case_match; [constructor|apply claim_slot_tame].
Qed.

Lemma slot_rows_tame now db db' : tame_result now db db' → slot_rows db' = slot_rows db.
Proof. intros [E _]. unfold slot_rows. by rewrite E. Qed.

Lemma claimed_mono now db db' l :
  Inv now db → tame_result now db db' → claimed_at db = Some l →
  ∃ l', claimed_at db' = Some l' ∧ (l ≤ l' ≤ now)%Z.
Proof.
  intros (Hl & _) [_ [E|E]] Hc; rewrite E; [exists l|exists now]; specialize (Hl _ Hc); split; try done; lia.
Qed.

Lemma tame_inv now db db' : Inv now db → tame_result now db db' → Inv now db'.
Proof.
  intros HI Ht. pose proof HI as (Hl & Hs & Hst). unfold Inv. rewrite (slot_rows_tame _ _ _ Ht). split_and!.
  - intros l Hc. destruct Ht as [_ [E|E]]; rewrite E in Hc; [by apply Hl|injection Hc; lia].
  - intros s Hin. destruct (Hs s Hin) as (l & Hc & Hle).
    destruct (claimed_mono _ _ _ _ HI Ht Hc) as (l' & Hc' & ?). exists l'. split; [done|lia].
  - done.
Qed.

Lemma tame_point now db db' start e p :
  Inv now db → tame_result now db db' → point db start e p → point db' start e p.
Proof.
  intros HI Ht. assert (may_claim db start → may_claim db' start) as Hm.
  { unfold may_claim. by rewrite (slot_rows_tame _ _ _ Ht). }
  destruct 1 as [ | | | |[(l & Hc & Hle) Hs]|]; try (constructor; by auto).
  apply point_claimed. split; [|by rewrite (slot_rows_tame _ _ _ Ht)].
  destruct (claimed_mono _ _ _ _ HI Ht Hc) as (l' & Hc' & ?). exists l'. split; [done|lia].
Qed.

(** ** The points of a request of the slot *)

Lemma refuses_run now db p p' db' :
  refuses p → run_statement p now db = (p', db') → refuses p' ∧ db' = db.
Proof.
  destruct 1 as [a Ha|R stmt k Hdb Hk]; cbn.
  - intros [= <- <-]. split; [by constructor|done].
  - pose proof (Hdb now db). destruct (stmt now db) as [r db1]. intros [= <- <-]. auto.
Qed.

Lemma finish_refuses e r : r ≠ Ok true → refuses (finish_claim e cooldown r).
Proof.
  destruct r as [[]|]; intros Hr; cbn; [done| |by constructor].
  constructor; [done|]. by constructor.
Qed.

Lemma slot_event_spec e :
  slot_event e = true ↔ bs_user_id e = user ∧ bs_problem_id e = problem ∧ bs_contest_id e = contest.
Proof. apply bool_decide_eq_true. Qed.

Lemma try_claim_true u p c w now db :
  (try_claim u p c w now db).1 = Ok true →
  ∃ claims, cd_claims db = Some claims
    ∧ (∀ l, claims !! (u, p, c) = Some l → (l ≤ now - w * SECOND)%Z)
    ∧ (try_claim u p c w now db).2 = mkCooldown (Some (<[(u, p, c) := now]> claims)) (cd_submissions db).
Proof.
  unfold try_claim. destruct (cd_claims db) as [claims|]; [|done].
  destruct (claims !! (u, p, c)) as [last|] eqn:El.
  - destruct (last <=? now - w * SECOND)%Z eqn:Ew; [|done]. apply Z.leb_le in Ew. intros _.
    exists claims. split_and!; [done| |done]. intros l Hl. congruence.
  - intros _. exists claims. split_and!; [done| |done]. intros l Hl. congruence.
Qed.

(** A claim that wins. *)
Lemma claim_wins now db start :
  Inv now db → may_claim db start → (now ≤ start + latency)%Z → (start ≤ now)%Z →
  (claim_stmt now db).1 = Ok true →
  has_claimed (claim_stmt now db).2 start
  ∧ ∀ l, claimed_at db = Some l → (l + window ≤ now)%Z.
Proof.
  intros (_ & Hs & _) Hm Hn Hst Hw. pose proof (claim_tame user problem (default 0%Z contest)
    (Z.min cooldown CLAIM_GRACE_SECS) now db) as Ht. fold claim_stmt in Ht.
  assert (claimed_at (claim_stmt now db).2 = Some now
          ∧ ∀ l, claimed_at db = Some l → (l + window ≤ now)%Z) as [Hnow Hold].
  { destruct (try_claim_true _ _ _ _ _ _ Hw) as (claims & E & Hl & E'). unfold claim_stmt.
    rewrite E'. unfold claimed_at. rewrite E. cbn. fold key. rewrite lookup_insert_eq. split; [done|].
    intros l Hc. specialize (Hl l Hc). unfold window. lia. }
  split; [|done]. split; [exists now; auto|]. rewrite (slot_rows_tame _ _ _ Ht). intros s Hin.
  destruct (Hs s Hin) as (l & Hc & Hle). specialize (Hold l Hc).
  destruct (Hm s Hin); [done|]. lia.
Qed.

Lemma read_passes now db start elapsed :
  Inv now db → (start ≤ now)%Z → (now ≤ start + latency)%Z →
  (query_submission_elapsed user problem contest now db).1 = Ok elapsed →
  (match (λ s, Z.max s 0) <$> elapsed with Some x => (cooldown ≤ x)%Z | None => True end) →
  may_claim db start.
Proof.
  intros _ Hst Hn Hq Hx s Hin. left.
  destruct (max_created_ge _ _ Hin) as (m & Hm & Hle).
  unfold query_submission_elapsed in Hq. cbn in Hq. fold (slot_rows db) in Hq. rewrite Hm in Hq.
  unfold cast_int in Hq. case_decide; [|done]. injection Hq as <-. cbn in Hx.
  apply round_seconds_ge in Hx; [|done]. unfold gap. lia.
Qed.

Definition claims_now (now : Z) (db : CooldownDb) (p' : Program CooldownDb (sdk HookResponse)) : Prop :=
  p' = Return (Ok RPass) → ∀ l, claimed_at db = Some l → (l + window ≤ now)%Z.

(** What a statement of a request of the slot leads to. *)
Lemma point_run now db start e p p' db' :
  slot_event e = true → Inv now db → (start ≤ now)%Z → (now ≤ start + latency)%Z →
  point db start e p → run_statement p now db = (p', db') →
  tame_result now db db' ∧ point db' start e p'
  ∧ (p = Return (Ok RPass) ∨ claims_now now db p').
Proof.
  intros He HI Hst Hn Hp. apply slot_event_spec in He as (Hu & Hpr & Hc).
  assert (tame_result now db db) as Hself by (split; auto).
  assert (∀ r db1, claim_stmt now db = (r, db1) → may_claim db start →
    tame_result now db db1 ∧ point db1 start e (finish_claim e cooldown r)
    ∧ claims_now now db (finish_claim e cooldown r)) as Hclaim.
  { intros r db1 Er Hm. assert (db1 = (claim_stmt now db).2) as -> by by rewrite Er.
    assert (r = (claim_stmt now db).1) as -> by by rewrite Er.
    split; [apply claim_tame|].
    assert ((claim_stmt now db).1 = Ok true ∨ (claim_stmt now db).1 ≠ Ok true) as [Ew|Ew].
    { destruct (claim_stmt now db).1 as [[]|]; auto. }
    - destruct (claim_wins now db start HI Hm Hn Hst Ew) as [Hh Hw]. rewrite Ew.
      split; [by apply point_claimed|]. by intros _.
    - pose proof (finish_refuses e _ Ew) as Hr. split; [by apply point_refused|].
      intros Eq. rewrite Eq in Hr. by inversion Hr. }
  destruct Hp as [|Hm|Hm|Hm|Hcl|p Hr].
  - unfold program, check_cooldown. destruct (decode_event (encode_event e)) as [e'|] eqn:Ed.
    2:{ intros [= <- <-]. split_and!; [done|by apply point_refused; constructor|right; unfold claims_now; discriminate]. }
    apply decode_encode_same in Ed as ->. destruct Hcfg as (eff & Hg & Hen & Hcd).
    rewrite Hpr, Hc, Hg, Hen, Hcd, Hu. cbn [negb]. rewrite (proj2 (Z.eqb_neq _ _)) by lia.
    cbn [run_statement]. destruct (query_submission_elapsed user problem contest now db) as [r db1] eqn:Eq.
    assert (db1 = db) as -> by (by unfold query_submission_elapsed in Eq; injection Eq).
    intros [= <- <-]. split; [done|].
    destruct r as [elapsed|err].
    2:{ split; [by apply point_refused; constructor|right; unfold claims_now; discriminate]. }
    assert ((query_submission_elapsed user problem contest now db).1 = Ok elapsed) as Eq' by by rewrite Eq.
    destruct ((λ s, Z.max s 0) <$> elapsed) as [x|] eqn:Ex.
    + destruct (Z.ltb_spec x cooldown) as [Hlt|Hge].
      { split; [by apply point_refused; constructor|right; unfold claims_now; discriminate]. }
      split; [|right; unfold claims_now; discriminate]. apply point_claim, (read_passes now db start elapsed); try done. by rewrite Ex.
    + split; [|right; unfold claims_now; discriminate]. apply point_claim, (read_passes now db start elapsed); try done. by rewrite Ex.
  - unfold claim_slot. rewrite Hu, Hpr, Hc. fold claim_stmt. cbn [run_statement].
    destruct (claim_stmt now db) as [r db1] eqn:Er. intros [= <- <-].
    destruct (Hclaim _ _ eq_refl Hm) as (Ht & Hpt & Hcn). split; [done|].
    destruct r as [b|err]; [split; [done|by right]|].
    split; [|right; unfold claims_now; discriminate]. apply point_schema. unfold may_claim. by rewrite (slot_rows_tame _ _ _ Ht).
  - cbn [run_statement ensure_schema]. intros [= <- <-].
    pose proof (schema_tame now db) as Ht. split; [done|]. split; [|right; unfold claims_now; discriminate].
    apply point_retry. exact Hm.
  - cbn [run_statement]. destruct (claim_stmt now db) as [r db1] eqn:Er. intros [= <- <-].
    destruct (Hclaim _ _ eq_refl Hm) as (Ht & Hpt & Hcn). split_and!; [done..|by right].
  - cbn. intros [= <- <-]. split_and!; [done|by apply point_claimed|by left].
  - intros Hrun. destruct (refuses_run _ _ _ _ _ Hr Hrun) as [Hr' ->].
    split_and!; [done|by apply point_refused|right]. intros ->. by inversion Hr'.
Qed.

Lemma tame_run now db p p' db' :
  tame p → run_statement p now db = (p', db') → tame p' ∧ tame_result now db db'.
Proof.
  destruct 1 as [a|R stmt k Hdb Hk]; cbn.
  - intros [= <- <-]. split; [constructor|split; auto].
  - pose proof (Hdb now db). destruct (stmt now db) as [r db1]. intros [= <- <-]. auto.
Qed.

Lemma slot_program e : slot_event e = true → program e ≠ Return (Ok RPass).
Proof.
  intros (Hu & Hpr & Hc)%slot_event_spec. unfold program, check_cooldown.
  destruct (decode_event (encode_event e)) as [e'|] eqn:Ed; [|done].
  apply decode_encode_same in Ed as ->. destruct Hcfg as (eff & Hg & Hen & Hcd).
  rewrite Hpr, Hc, Hg, Hen, Hcd. cbn [negb]. by rewrite (proj2 (Z.eqb_neq _ _)) by lia.
Qed.

Lemma passed_claimed now db r : Local now db r → passed r → has_claimed db (rq_start r).
Proof.
  unfold Local. intros HL [He Hp]. rewrite He, Hp in HL. inversion HL as [E|? E|? E|? E|Hcl|p Hr]; subst; try done.
  - by destruct (slot_program _ He).
  - by inversion Hr.
Qed.

(** ** The invariant of the world *)

Lemma point_mono db db' start e p :
  (∀ s, s ∈ slot_rows db' → s ∈ slot_rows db ∨ (start ≤ sm_created_at s + latency)%Z) →
  claimed_at db' = claimed_at db → ¬ (p = Return (Ok RPass)) → slot_event e = true →
  point db start e p → point db' start e p.
Proof.
  intros Hrows Hc Hp He. assert (may_claim db start → may_claim db' start) as Hm.
  { intros Hm s Hin. destruct (Hrows s Hin); auto. }
  destruct 1; try (constructor; by auto).
Qed.

Lemma insert_rows start now e a db :
  slot_event e = true → a = Ok RPass →
  slot_rows (insert_submission start now e a db) = slot_rows db ++ [{|
    sm_user := bs_user_id e; sm_problem := bs_problem_id e; sm_contest := bs_contest_id e;
    sm_created_at := start |}].
Proof.
  intros (Hu & Hpr & Hc)%slot_event_spec ->. unfold slot_rows, insert_submission. cbn [cd_submissions].
  rewrite filter_app, filter_cons, decide_True; [done|]. cbn. apply Is_true_true, bool_decide_eq_true. auto.
Qed.

Lemma insert_other start now e a db :
  slot_event e = false ∨ a ≠ Ok RPass →
  slot_rows (insert_submission start now e a db) = slot_rows db.
Proof.
  intros Ho. unfold slot_rows, insert_submission. destruct a as [[]|]; try done. cbn [cd_submissions].
  rewrite filter_app, filter_cons, decide_False; [by rewrite app_nil_r|]. cbn.
  destruct Ho as [He|]; [|done]. unfold slot_event in He. apply bool_decide_eq_false in He.
  by intros ?%Is_true_true%bool_decide_eq_true.
Qed.

Lemma insert_claims start now e a db : claimed_at (insert_submission start now e a db) = claimed_at db.
Proof. by destruct a as [[]|]. Qed.

Lemma sorted_snoc {A} (R : A → A → Prop) l x :
  StronglySorted R l → (∀ y, y ∈ l → R y x) → StronglySorted R (l ++ [x]).
Proof.
  induction 1 as [|y l Hl IH Hy]; cbn; intros Hx; [repeat constructor|]. constructor.
  - apply IH. intros z Hz. apply Hx. by right.
  - apply Forall_app. split; [done|]. constructor; [|constructor]. apply Hx. by left.
Qed.

Lemma commit_inv now db r a :
  Inv now db → Local now db r → rq_program r = Return a →
  Inv now (insert_submission (rq_start r) now (rq_event r) a db).
Proof.
  intros HI HL Hp. pose proof HI as (Hl & Hs & Hst).
  assert ((slot_event (rq_event r) = true ∧ a = Ok RPass) ∨ (slot_event (rq_event r) = false ∨ a ≠ Ok RPass)) as [[He ->]|Ho].
  { destruct (slot_event (rq_event r)); [|auto]. destruct a as [[]|]; auto. }
  - destruct (passed_claimed now db r HL (conj He Hp)) as [(l & Hc & Hle) Hgap].
    unfold Inv. rewrite insert_claims, insert_rows by done. split_and!; [done| |].
    + intros s [Hin| ->%list_elem_of_singleton]%elem_of_app; [by apply Hs|exists l; auto].
    + by apply sorted_snoc.
  - unfold Inv. by rewrite insert_claims, insert_other.
Qed.

Lemma commit_local now db r s a :
  Local now db s → (rq_start s ≤ now)%Z → in_time latency now r → rq_program r = Return a →
  Apart now r s → Local now (insert_submission (rq_start r) now (rq_event r) a db) s.
Proof.
  intros HL Hs Hr Hp Ha. unfold Local in *. destruct (slot_event (rq_event s)) eqn:Hes; [|done].
  assert ((slot_event (rq_event r) = true ∧ a = Ok RPass) ∨ (slot_event (rq_event r) = false ∨ a ≠ Ok RPass)) as [[He ->]|Ho].
  { destruct (slot_event (rq_event r)); [|auto]. destruct a as [[]|]; auto. }
  - apply (point_mono db); [|by rewrite insert_claims| |done|done].
    + rewrite insert_rows by done. intros x [Hin| ->%list_elem_of_singleton]%elem_of_app; [by left|right].
      unfold in_time in Hr. cbn. lia.
    + intros Hps. by apply Ha.
  - assert (∀ start e p, point db start e p →
      point (insert_submission (rq_start r) now (rq_event r) a db) start e p) as Hm; [|by apply Hm].
    intros start e p Hpt.
    assert (may_claim db start → may_claim (insert_submission (rq_start r) now (rq_event r) a db) start).
    { unfold may_claim. by rewrite insert_other. }
    destruct Hpt as [ | | | |[Hcl Hrows]|]; try (constructor; by auto).
    apply point_claimed. split; [by rewrite insert_claims|by rewrite insert_other].
Qed.

Lemma cooldown_preserved : Preserved program insert_submission latency Inv Local Apart.
Proof.
  constructor.
  - intros now now' db Hn (Hl & Hs & Hst). split_and!; [|done..]. intros l Hc. specialize (Hl l Hc). lia.
  - intros now now' db r _ HL. exact HL.
  - intros now now' r s _ HA. exact HA.
  - intros now db e _. unfold Local. cbn. destruct (slot_event e); [constructor|apply program_tame].
  - intros now db e r _ HL. unfold Apart, passed. cbn.
    split; [intros [[He Hp] _]|intros [_ [He Hp]]]; by apply slot_program in Hp.
  - intros now db r p' db' HI HL Hst Hn Hrun.
    assert (tame_result now db db' ∧ Local now db' (mkRequest (rq_event r) (rq_start r) p')
      ∧ (passed (mkRequest (rq_event r) (rq_start r) p') →
         passed r ∨ ∀ l, claimed_at db = Some l → (l + window ≤ now)%Z)) as (Ht & HL' & Hcl).
    { unfold Local, passed in *. cbn. destruct (slot_event (rq_event r)) eqn:He.
      - destruct (point_run _ _ _ _ _ _ _ He HI Hst Hn HL Hrun) as (Ht & Hpt & Hor).
        split_and!; [done..|]. intros [_ Hp]. destruct Hor as [Hr|Hc]; [by left|right]. by apply Hc.
      - destruct (tame_run _ _ _ _ _ HL Hrun) as [Htm Ht]. split_and!; [done..|]. by intros [? _]. }
    split; [by eapply tame_inv|]. split; [done|]. intros s HLs Hss Hsn Hrs Hsr.
    assert (passed (mkRequest (rq_event r) (rq_start r) p') → ¬ passed s) as Hno.
    { intros Hp Hps. destruct (Hcl Hp) as [Hr|Hold]; [by apply Hrs|].
      destruct (passed_claimed _ _ _ HLs Hps) as [(l & Hc & Hle) _].
      specialize (Hold l Hc). unfold in_time in Hsn. lia. }
    split_and!.
    + unfold Local in *. destruct (slot_event (rq_event s)); [|done]. by eapply tame_point.
    + intros [H1 H2]. by apply Hno.
    + intros [H1 H2]. by apply Hno.
  - intros now db r a HI HL Hst Hn Hp. split; [by apply commit_inv|].
    intros s HLs Hss Hsn Hrs Hsr. by apply commit_local.
Qed.

(** A world before any submission of the slot, and before any request. *)
Definition fresh (w : World CooldownDb BeforeSubmissionEvent (sdk HookResponse)) : Prop :=
  w_requests w = ∅ ∧ slot_rows (w_db w) = [] ∧ ∀ l, claimed_at (w_db w) = Some l → (l ≤ w_now w)%Z.

End slot.

(** ** The status *)

Lemma round_seconds_le us n : (0 ≤ n)%Z → (n * SECOND ≤ us)%Z → (n ≤ round_seconds us)%Z.
Proof.
  unfold round_seconds, SECOND. intros Hn Hle. rewrite (proj2 (Z.ltb_ge us 0)) by lia.
  apply Z.div_le_lower_bound; lia.
Qed.

Lemma claim_slot_pass e cooldown now db :
  is_Some (cd_claims db) → (exec (claim_slot e cooldown) now db).1 = Ok RPass →
  (try_claim (bs_user_id e) (bs_problem_id e) (default 0%Z (bs_contest_id e))
     (Z.min cooldown CLAIM_GRACE_SECS) now db).1 = Ok true.
Proof.
  intros [claims Hc]. unfold claim_slot. cbn [exec].
  assert ((try_claim (bs_user_id e) (bs_problem_id e) (default 0%Z (bs_contest_id e))
    (Z.min cooldown CLAIM_GRACE_SECS) now db).1 = Ok true ∨ ∃ db', try_claim (bs_user_id e) (bs_problem_id e)
    (default 0%Z (bs_contest_id e)) (Z.min cooldown CLAIM_GRACE_SECS) now db = (Ok false, db')) as [E|[db' E]].
  { unfold try_claim. rewrite Hc; cbv zeta. destruct (match _ with Some _ => _ | None => _ end); eauto. }
  - done.
  - rewrite E. unfold finish_claim. cbn [exec]. by destruct (remaining_from_claim _ _ _ _ _ _).
Qed.

(** When the gate would let a submission through, the status says so.  The converse
    fails by the rounding of the database. *)
Theorem gate_implies_status raw bad_event e cooldown now db submission_elapsed claim_elapsed :
  cooldown_is raw (bs_problem_id e) (bs_contest_id e) cooldown → (0 < cooldown)%Z →
  event_fits e → is_Some (cd_claims db) →
  (exec (check_cooldown raw bad_event (encode_event e)) now db).1 = Ok RPass →
  query_submission_elapsed (bs_user_id e) (bs_problem_id e) (bs_contest_id e) now db = (Ok submission_elapsed, db) →
  query_claim_elapsed (bs_user_id e) (bs_problem_id e) (bs_contest_id e) now db = (Ok claim_elapsed, db) →
  can_submit cooldown submission_elapsed claim_elapsed = true.
Proof.
  intros (eff & Hg & Hen & Hcd) Hpos Hf Hcl Hpass Hse Hce. unfold check_cooldown in Hpass.
  rewrite decode_encode_event, Hg, Hen, Hcd in Hpass by done. cbn [negb] in Hpass.
  rewrite (proj2 (Z.eqb_neq cooldown 0)) in Hpass by lia. cbn [exec] in Hpass. rewrite Hse in Hpass.
  unfold can_submit. rewrite (proj2 (Z.eqb_neq cooldown 0)) by lia.
  assert ((exec (claim_slot e cooldown) now db).1 = Ok RPass
          ∧ match submission_elapsed with Some s => (cooldown <=? Z.max s 0)%Z = true | None => True end) as [Hp Hs].
  { destruct submission_elapsed as [s|]; cbn [fmap option_fmap option_map] in Hpass; [|done].
    destruct (Z.ltb_spec (Z.max s 0) cooldown); [done|]. split; [done|]. by apply Z.leb_le. }
  apply claim_slot_pass, try_claim_true in Hp as (claims & Hc & Hl & _); [|done].
  apply andb_true_intro. split; [by destruct submission_elapsed|].
  unfold query_claim_elapsed in Hce. rewrite Hc in Hce. destruct (claims !! _) as [last|] eqn:El.
  - unfold cast_int in Hce. case_decide; [|done]. injection Hce as <-. cbn.
    apply Z.leb_le. specialize (Hl last eq_refl).
    pose proof (round_seconds_le (now - last) (Z.min cooldown CLAIM_GRACE_SECS)). unfold CLAIM_GRACE_SECS in *. lia.
  - by injection Hce as <-.
Qed.
