(* ===== verification/SubmissionLimit.v ===== *)
(** * SubmissionLimit: at most so many submissions

    plugins/submission-limit/src/lib.rs: the hook before a submission, which claims a
    slot in one statement, the hook after a submission, which confirms the claim, and
    the status a contestant is shown.  Times are in microseconds. *)

From stdpp Require Import gmap.
From S2P Require Import Prelude Text Float Json Sdk PluginConfig Hooks Statements Cooldown.

(** ** The table *)

(** A row of submission_limit_claim. *)
Record LimitRow := {
  lr_confirmed : Z;
  lr_pending : Z;
  lr_oldest_pending_at : option Z;
}.

(** The rows, when the table exists. *)
Definition LimitDb : Type := option (gmap SlotKey LimitRow).

Definition ensure_limit_schema : Stmt LimitDb () := λ _ db, (Ok tt, Some (default ∅ db)).

Definition PENDING_GRACE_SECS : Z := 30.

Definition contest_key (contest_id : option Z) : Z := default 0%Z contest_id.

(** [oldest_pending_at > NOW() - 30 seconds]. *)
Definition pending_lives (now : Z) (r : LimitRow) : bool :=
  match lr_oldest_pending_at r with
  | Some oldest => (now - PENDING_GRACE_SECS * SECOND <? oldest)%Z
  | None => false
  end.

Definition active (now : Z) (r : LimitRow) : Z :=
  lr_confirmed r + (if pending_lives now r then lr_pending r else 0).

Definition claim_row (now : Z) (r : LimitRow) : LimitRow :=
  if pending_lives now r then
    {| lr_confirmed := lr_confirmed r; lr_pending := lr_pending r + 1;
       lr_oldest_pending_at := lr_oldest_pending_at r |}
  else
    {| lr_confirmed := lr_confirmed r; lr_pending := 1; lr_oldest_pending_at := Some now |}.

Definition out_of_range : SdkError := Database (u "integer out of range").

(** A column is an [INTEGER]. *)
Definition row_fits (r : LimitRow) : bool :=
  bool_decide (in_i32 (lr_confirmed r) ∧ in_i32 (lr_pending r)).

Definition try_limit_claim (user_id problem_id contest max : Z) : Stmt LimitDb bool := λ now db,
  match db with
  | None => (Err missing_table, db)
  | Some rows =>
      let key := (user_id, problem_id, contest) in
      match rows !! key with
      | None =>
          (Ok true, Some (<[key := {| lr_confirmed := 0; lr_pending := 1; lr_oldest_pending_at := Some now |}]> rows))
      | Some r =>
          if (active now r <? max)%Z then
            if row_fits (claim_row now r) then (Ok true, Some (<[key := claim_row now r]> rows))
            else (Err out_of_range, db)
          else (Ok false, db)
      end
  end.

Definition confirm_row (r : LimitRow) : LimitRow :=
  let pending := Z.max (lr_pending r - 1) 0 in
  {| lr_confirmed := lr_confirmed r + 1; lr_pending := pending;
     lr_oldest_pending_at := if (pending =? 0)%Z then None else lr_oldest_pending_at r |}.

Definition confirm_claim (user_id problem_id contest : Z) : Stmt LimitDb () := λ _ db,
  match db with
  | None => (Err missing_table, db)
  | Some rows =>
      let key := (user_id, problem_id, contest) in
      let r := match rows !! key with
               | Some r => confirm_row r
               | None => {| lr_confirmed := 1; lr_pending := 0; lr_oldest_pending_at := None |}
               end in
      if row_fits r then (Ok tt, Some (<[key := r]> rows)) else (Err out_of_range, db)
  end.

(** [as u32]. *)
Definition wrap_u32 (z : Z) : Z := (z mod 2 ^ 32)%Z.

Definition active_count (user_id problem_id contest : Z) : Stmt LimitDb Z := λ now db,
  (match db with
   | None => Err missing_table
   | Some rows =>
       Ok (wrap_u32 match rows !! (user_id, problem_id, contest) with Some r => active now r | None => 0%Z end)
   end, db).

(** ** The hooks *)

Definition limit_response (count max : Z) : HookResponse :=
  RReject (u "SUBMISSION_LIMIT_EXCEEDED")
    (Some (VObject [(u "submissions_made", VInt count); (u "max_submissions", VInt max)]))
    (u "Submission limit reached (" ++ show count ++ u "/" ++ show max ++ u ")") 429.

Record AfterSubmissionEvent := {
  as_submission_id : Z;
  as_user_id : Z;
  as_problem_id : Z;
  as_contest_id : option Z;
  as_language : ustring;
}.

Definition after_event_of (submission_id user_id problem_id contest_id language : option Value)
    : option AfterSubmissionEvent :=
  submission_id ← submission_id ≫= as_i32;
  user_id ← user_id ≫= as_i32;
  problem_id ← problem_id ≫= as_i32;
  contest_id ← defaulted None opt_i32 contest_id;
  language ← language ≫= as_str;
  Some {| as_submission_id := submission_id; as_user_id := user_id; as_problem_id := problem_id;
          as_contest_id := contest_id; as_language := language |}.

Definition decode_after_event (v : Value) : option AfterSubmissionEvent :=
  match v with
  | VObject fs =>
      after_event_of (field (u "submission_id") fs) (field (u "user_id") fs) (field (u "problem_id") fs)
        (field (u "contest_id") fs) (field (u "language") fs)
  | VArray [submission_id; user_id; problem_id; contest_id; language] =>
      after_event_of (Some submission_id) (Some user_id) (Some problem_id) (Some contest_id) (Some language)
  | _ => None
  end.

Section plugin.
(** What config_get answers, and the error for a document that is no event. *)
Context (raw : ustring → ustring → ustring → result ustring Value) (bad_event : SdkError).

Abbreviation Hook := (Program LimitDb (sdk HookResponse)).

(** [?] on a statement. *)
Definition try_stmt {R} (stmt : Stmt LimitDb R) (k : R → Hook) : Hook :=
  Query stmt (λ r, match r with Ok x => k x | Err e => Return (Err e) end).

Definition limit_gate (event : BeforeSubmissionEvent) (max : Z) : Hook :=
  let ck := contest_key (bs_contest_id event) in
  try_stmt (try_limit_claim (bs_user_id event) (bs_problem_id event) ck max) (λ claimed,
    if claimed : bool then Return (Ok RPass)
    else
      try_stmt (active_count (bs_user_id event) (bs_problem_id event) ck) (λ count,
        Return (Ok (limit_response count max)))).

Definition check_limit (input : Value) : Hook :=
  match decode_event input with
  | None => Return (Err bad_event)
  | Some event =>
      match get_effective raw (u "limits") (bs_problem_id event) (bs_contest_id event) with
      | Err _ => Return (Ok RPass)
      | Ok eff =>
          if negb (ec_is_enabled eff) then Return (Ok RPass)
          else
            let max := configured (u "max_submissions") eff in
            if (max =? 0)%Z then Return (Ok RPass) else limit_gate event max
      end
  end.

Definition on_submission_created (input : Value) : Hook :=
  match decode_after_event input with
  | None => Return (Err bad_event)
  | Some event =>
      match get_effective raw (u "limits") (as_problem_id event) (as_contest_id event) with
      | Err _ => Return (Ok RPass)
      | Ok eff =>
          if negb (ec_is_enabled eff) then Return (Ok RPass)
          else if (configured (u "max_submissions") eff =? 0)%Z then Return (Ok RPass)
          else
            try_stmt (confirm_claim (as_user_id event) (as_problem_id event)
                        (contest_key (as_contest_id event))) (λ _, Return (Ok RPass))
      end
  end.

(** ** The status *)

Record LimitStatusResponse := {
  ls_enabled : bool;
  ls_submissions_made : Z;
  ls_max_submissions : Z;
  ls_remaining : option Z;
  ls_unlimited : bool;
  ls_source : ConfigSource;
}.

Definition limit_status (eff : EffectiveConfig) (count : Z) : LimitStatusResponse :=
  let max := configured (u "max_submissions") eff in
  let unlimited := (max =? 0)%Z in
  {| ls_enabled := true; ls_submissions_made := count; ls_max_submissions := max;
     ls_remaining := if unlimited then None else Some (Z.max (max - count) 0)%Z;
     ls_unlimited := unlimited; ls_source := ec_source eff |}.

Definition handle_limit_status (contests : ContestDb) (req : PluginHttpRequest)
    : Program LimitDb (api LimitStatusResponse (PluginHttpResponse LimitStatusResponse)) :=
  match checked_request contests req with
  | Err e => Return (Err e)
  | Ok (user_id, contest_id, problem_id) =>
      match get_effective raw (u "limits") problem_id contest_id with
      | Err e => Return (Err (ApiSdk e))
      | Ok eff =>
          if negb (ec_is_enabled eff) then
            Return (Ok (ok_response {| ls_enabled := false; ls_submissions_made := 0;
              ls_max_submissions := 0; ls_remaining := None; ls_unlimited := true; ls_source := ec_source eff |}))
          else
            Query (active_count user_id problem_id (contest_key contest_id)) (λ r,
              match r with
              | Err e => Return (Err (ApiSdk e))
              | Ok count => Return (Ok (ok_response (limit_status eff count)))
              end)
      end
  end.
End plugin.
