(* ===== verification/LimitProofs.v ===== *)
(** * LimitProofs: the cap on submissions

    The submissions of a user to a problem as a world in which attempts claim, are
    inserted, confirmed, or abandoned, in any order.  The cap holds as long as no
    claim is in flight when the pending claims are reclaimed; [cap_exceeded] is a run
    in which one is, although every claim is confirmed within a few seconds.  And the
    statuses of both plugins, beside what their gates do. *)

From stdpp Require Import gmap.
From S2P Require Import Prelude Text Float Json Sdk PluginConfig Hooks HooksProofs Statements.
From S2P Require Import Cooldown CooldownProofs SubmissionLimit.

Definition encode_after_event (e : AfterSubmissionEvent) : Value :=
  VObject ([(u "submission_id", VInt (as_submission_id e)); (u "user_id", VInt (as_user_id e));
            (u "problem_id", VInt (as_problem_id e))]
    ++ match as_contest_id e with Some cid => [(u "contest_id", VInt cid)] | None => [] end
    ++ [(u "language", VString (as_language e))]).

Section slot.
Context (raw : ustring → ustring → ustring → result ustring Value) (bad_event : SdkError).
Context (event : BeforeSubmissionEvent) (max : Z).

(** The configuration of the slot of the event. *)
Definition limit_is : Prop :=
  ∃ eff, get_effective raw (u "limits") (bs_problem_id event) (bs_contest_id event) = Ok eff
         ∧ ec_is_enabled eff = true ∧ configured (u "max_submissions") eff = max.

Definition slot : SlotKey := (bs_user_id event, bs_problem_id event, contest_key (bs_contest_id event)).

Definition after_event (submission_id : Z) : AfterSubmissionEvent := {|
  as_submission_id := submission_id; as_user_id := bs_user_id event;
  as_problem_id := bs_problem_id event; as_contest_id := bs_contest_id event;
  as_language := bs_language event |}.

(** ** The world of a slot *)

Record LimitWorld := mkLimitWorld {
  lw_now : Z;
  lw_db : LimitDb;
  lw_claimed : gset nat;
  lw_inserted : gset nat;
  lw_committed : nat;
}.

(** An attempt claims; its submission is inserted, or the attempt is abandoned, when a
    later hook refuses it; the insertion is confirmed, or the confirmation is lost.
    [LOther] is a statement for another slot. *)
Inductive LimitLabel :=
  | LTick (now : Z)
  | LClaim (i : nat)
  | LAbandon (i : nat)
  | LInsert (i : nat)
  | LConfirm (i : nat) (submission_id : Z)
  | LLose (i : nat)
  | LOther (key : SlotKey) (r : LimitRow).

Definition limit_act (l : LimitLabel) (w : LimitWorld) : option LimitWorld :=
  match l with
  | LTick now =>
      if (lw_now w <=? now)%Z
      then Some (mkLimitWorld now (lw_db w) (lw_claimed w) (lw_inserted w) (lw_committed w)) else None
  | LClaim i =>
      if decide (i ∈ lw_claimed w ∪ lw_inserted w) then None
      else
        match exec (check_limit raw bad_event (encode_event event)) (lw_now w) (lw_db w) with
        | (Ok RPass, db) =>
            Some (mkLimitWorld (lw_now w) db ({[i]} ∪ lw_claimed w) (lw_inserted w) (lw_committed w))
        | (_, db) => Some (mkLimitWorld (lw_now w) db (lw_claimed w) (lw_inserted w) (lw_committed w))
        end
  | LAbandon i =>
      Some (mkLimitWorld (lw_now w) (lw_db w) (lw_claimed w ∖ {[i]}) (lw_inserted w) (lw_committed w))
  | LInsert i =>
      if decide (i ∈ lw_claimed w ∖ lw_inserted w)
      then Some (mkLimitWorld (lw_now w) (lw_db w) (lw_claimed w ∖ {[i]}) ({[i]} ∪ lw_inserted w) (S (lw_committed w)))
      else None
  | LConfirm i submission_id =>
      if decide (i ∈ lw_inserted w) then
        match exec (on_submission_created raw bad_event (encode_after_event (after_event submission_id)))
                (lw_now w) (lw_db w) with
        | (Ok RPass, db) =>
            Some (mkLimitWorld (lw_now w) db (lw_claimed w) (lw_inserted w ∖ {[i]}) (lw_committed w))
        | _ => None
        end
      else None
  | LLose i =>
      Some (mkLimitWorld (lw_now w) (lw_db w) (lw_claimed w) (lw_inserted w ∖ {[i]}) (lw_committed w))
  | LOther key r =>
      if decide (key = slot) then None
      else Some (mkLimitWorld (lw_now w) (<[key := r]> <$> lw_db w) (lw_claimed w) (lw_inserted w) (lw_committed w))
  end.

Definition slot_row (db : LimitDb) : LimitRow :=
  default {| lr_confirmed := 0; lr_pending := 0; lr_oldest_pending_at := None |} (db ≫= (.!! slot)).

(** No claim is in flight when the pending claims of the slot are reclaimed, and no
    confirmation is lost. *)
Definition careful (l : LimitLabel) (w : LimitWorld) : bool :=
  match l with
  | LClaim _ => pending_lives (lw_now w) (slot_row (lw_db w)) || bool_decide (lw_claimed w ∪ lw_inserted w = ∅)
  | LLose _ => false
  | _ => true
  end.

Fixpoint careful_run (ls : list LimitLabel) (w : LimitWorld) : option LimitWorld :=
  match ls with
  | [] => Some w
  | l :: ls => if careful l w then w ← limit_act l w; careful_run ls w else None
  end.

Fixpoint limit_run (ls : list LimitLabel) (w : LimitWorld) : option LimitWorld :=
  match ls with [] => Some w | l :: ls => w ← limit_act l w; limit_run ls w end.

Context (Hcfg : limit_is) (Hmax : (0 < max)%Z).

(** ** What the hooks do *)

Lemma check_limit_exec now db :
  event_fits event →
  exec (check_limit raw bad_event (encode_event event)) now db = exec (limit_gate event max) now db.
Proof.
  intros Hf. unfold check_limit. rewrite decode_encode_event by done.
  destruct Hcfg as (eff & -> & -> & ->). cbn [negb]. by rewrite (proj2 (Z.eqb_neq _ _)) by lia.
Qed.

Definition after_fits (e : AfterSubmissionEvent) : Prop :=
  in_i32 (as_submission_id e) ∧ in_i32 (as_user_id e) ∧ in_i32 (as_problem_id e)
  ∧ ∀ cid, as_contest_id e = Some cid → in_i32 cid.

Lemma decode_encode_after e : after_fits e → decode_after_event (encode_after_event e) = Some e.
Proof.
  intros (Hs & Hu & Hp & Hc). destruct e as [su us pr cid la]. cbn in Hs, Hu, Hp, Hc.
  unfold encode_after_event, decode_after_event.
  cbn [as_submission_id as_user_id as_problem_id as_contest_id as_language].
  assert (as_i32 (VInt su) = Some su) as Es by by apply as_int_VInt.
  assert (as_i32 (VInt us) = Some us) as Eu by by apply as_int_VInt.
  assert (as_i32 (VInt pr) = Some pr) as Ep by by apply as_int_VInt.
  destruct cid as [cid|]; cbn [app]; fields; unfold after_event_of; cbn [mbind option_bind]; rewrite Es, Eu, Ep.
  - assert (as_i32 (VInt cid) = Some cid) as Ec by (apply as_int_VInt, (Hc _ eq_refl)).
    cbn [mbind option_bind defaulted opt_i32]. by rewrite Ec.
  - done.
Qed.

Lemma limit_gate_pass now db db' :
  exec (limit_gate event max) now db = (Ok RPass, db') →
  (active now (slot_row db) < max)%Z ∧ slot_row db' = claim_row now (slot_row db).
Proof.
  unfold limit_gate, try_stmt. cbn [exec]. unfold try_limit_claim; cbv zeta. destruct db as [rows|]; [|done].
  unfold slot_row. cbn [mbind option_bind]. fold slot. destruct (rows !! slot) as [r|] eqn:E.
  - destruct (Z.ltb_spec (active now r) max); [|by cbn]. destruct (row_fits (claim_row now r)); [|by cbn].
    cbn. intros [= <-]. cbn. by rewrite lookup_insert_eq.
  - cbn. intros [= <-]. cbn. by rewrite lookup_insert_eq.
Qed.

Lemma limit_gate_other now db r db' :
  exec (limit_gate event max) now db = (r, db') → r ≠ Ok RPass → db' = db.
Proof.
  unfold limit_gate, try_stmt. cbn [exec]. unfold try_limit_claim; cbv zeta. destruct db as [rows|]; cbn; [|congruence].
  destruct (rows !! _) as [row|].
  - destruct (active now row <? max)%Z; [destruct (row_fits _)|]; cbn; intros [= <- <-]; done.
  - cbn. by intros [= <- <-].
Qed.

Lemma confirm_exec now db submission_id db' :
  after_fits (after_event submission_id) →
  exec (on_submission_created raw bad_event (encode_after_event (after_event submission_id))) now db
  = (Ok RPass, db') →
  slot_row db' = confirm_row (slot_row db).
Proof.
  intros Hf. unfold on_submission_created. rewrite decode_encode_after by done.
  cbn [as_problem_id as_contest_id after_event as_user_id].
  destruct Hcfg as (eff & -> & -> & ->). cbn [negb]. rewrite (proj2 (Z.eqb_neq _ _)) by lia.
  unfold try_stmt. cbn [exec]. unfold confirm_claim; cbv zeta. destruct db as [rows|]; [|done].
  fold slot. unfold slot_row. cbn [mbind option_bind]. destruct (rows !! slot) as [r|] eqn:E.
  - destruct (row_fits (confirm_row r)); [|by cbn]. cbn. intros [= <-]. cbn. by rewrite lookup_insert_eq.
  - cbn. intros [= <-]. cbn. by rewrite lookup_insert_eq.
Qed.

(** ** The invariant *)

Definition in_flight (w : LimitWorld) : Z := Z.of_nat (size (lw_claimed w) + size (lw_inserted w)).

Definition limit_inv (w : LimitWorld) : Prop :=
  let r := slot_row (lw_db w) in
  lw_claimed w ## lw_inserted w
  ∧ (lr_confirmed r + in_flight w ≤ max)%Z
  ∧ (in_flight w ≤ lr_pending r)%Z
  ∧ (lr_oldest_pending_at r = None → lr_pending r = 0%Z)
  ∧ (Z.of_nat (lw_committed w) ≤ lr_confirmed r + Z.of_nat (size (lw_inserted w)))%Z.

Lemma size_remove (s : gset nat) i : i ∈ s → size s = S (size (s ∖ {[i]})).
Proof.
  intros Hi. rewrite size_difference by set_solver. rewrite size_singleton.
  assert (size s ≠ 0) by (intros E%size_empty_inv; set_solver). lia.
Qed.

Lemma size_add (s : gset nat) i : i ∉ s → size ({[i]} ∪ s) = S (size s).
Proof. intros Hi. rewrite size_union by set_solver. by rewrite size_singleton. Qed.

Lemma size_shrink (s : gset nat) i : size (s ∖ {[i]}) ≤ size s.
Proof. apply subseteq_size. set_solver. Qed.

Arguments slot_row : simpl never.

Lemma claim_inv w db i :
  limit_inv w → careful (LClaim i) w = true → i ∉ lw_claimed w ∪ lw_inserted w →
  (active (lw_now w) (slot_row (lw_db w)) < max)%Z →
  slot_row db = claim_row (lw_now w) (slot_row (lw_db w)) →
  limit_inv (mkLimitWorld (lw_now w) db ({[i]} ∪ lw_claimed w) (lw_inserted w) (lw_committed w)).
Proof.
  unfold limit_inv, in_flight, careful. cbn. intros (Hd & Hcap & Hpend & Hnone & Hcom) Hcare Hi Hact ->.
  rewrite size_add by set_solver. unfold active, claim_row in *.
  destruct (pending_lives (lw_now w) (slot_row (lw_db w))) eqn:Hlive; cbn.
  - split_and!; [set_solver|lia|lia|intros E|lia]. unfold pending_lives in Hlive. by rewrite E in Hlive.
  - apply bool_decide_eq_true in Hcare.
    assert (size (lw_claimed w) = 0) as E1 by (apply size_empty_iff; set_solver).
    assert (size (lw_inserted w) = 0) as E2 by (apply size_empty_iff; set_solver).
    split_and!; [set_solver|lia|lia|done|lia].
Qed.

Lemma limit_act_inv l w w' :
  event_fits event → (∀ i id, l = LConfirm i id → in_i32 id) →
  limit_inv w → careful l w = true → limit_act l w = Some w' → limit_inv w'.
Proof.
  intros He Hid HI Hcare Hact. pose proof HI as (Hd & Hcap & Hpend & Hnone & Hcom).
  destruct l as [now|i|i|i|i id|i|key r]; cbn in Hact; try done.
  - case_match; [|done]. injection Hact as <-. exact HI.
  - case_decide as Hi; [done|]. rewrite check_limit_exec in Hact by done.
    destruct (exec (limit_gate event max) (lw_now w) (lw_db w)) as [r db] eqn:E.
    assert (r = Ok RPass ∨ r ≠ Ok RPass) as [-> |Hr] by (destruct r as [[]|]; auto).
    + injection Hact as <-. apply limit_gate_pass in E as [Ha Hrow]. by apply claim_inv.
    + apply limit_gate_other in E as ->; [|done].
      destruct r as [[]|]; try done; injection Hact as <-; by destruct w.
  - injection Hact as <-. unfold limit_inv, in_flight in *. cbn in *.
    pose proof (size_shrink (lw_claimed w) i). split_and!; [set_solver|lia|lia|done|done].
  - case_decide as Hi; [|done]. injection Hact as <-. unfold limit_inv, in_flight in *. cbn in *.
    rewrite size_add by set_solver. rewrite (size_remove (lw_claimed w) i) in Hcap, Hpend by set_solver.
    split_and!; [set_solver|lia|lia|done|lia].
  - case_decide as Hi; [|done].
    destruct (exec (on_submission_created _ _ _) (lw_now w) (lw_db w)) as [r db] eqn:E.
    destruct r as [[]|]; try done. injection Hact as <-.
    apply confirm_exec in E; [|destruct He as (Hu & Hpr & Hc & _); exact (conj (Hid _ _ eq_refl) (conj Hu (conj Hpr Hc)))].
    unfold limit_inv, in_flight in *. cbn. rewrite E. unfold confirm_row. cbn.
    rewrite (size_remove (lw_inserted w) i) in Hcap, Hpend, Hcom by done.
    split_and!; [set_solver|lia|lia| |lia].
    destruct (Z.eqb_spec (Z.max (lr_pending (slot_row (lw_db w)) - 1) 0) 0) as [Ez|Ez]; [by intros _|].
    intros Hn. specialize (Hnone Hn). lia.
  - case_decide as Hk; [done|]. injection Hact as <-. unfold limit_inv, in_flight in *. cbn.
    assert (slot_row (<[key := r]> <$> lw_db w) = slot_row (lw_db w)) as ->; [|done].
    unfold slot_row. destruct (lw_db w) as [rows|]; [|done]. cbn. by rewrite lookup_insert_ne.
Qed.

(** The confirmations name submissions of the database. *)
Definition ids_fit (ls : list LimitLabel) : Prop :=
  Forall (λ l, match l with LConfirm _ id => in_i32 id | _ => True end) ls.

Definition no_attempts (w : LimitWorld) : Prop :=
  slot_row (lw_db w) = {| lr_confirmed := 0; lr_pending := 0; lr_oldest_pending_at := None |}
  ∧ lw_claimed w = ∅ ∧ lw_inserted w = ∅ ∧ lw_committed w = 0.

(** C20. However the attempts of a user at a problem interleave, and whichever of them
    are abandoned, at most [max] submissions are inserted, as long as no claim is in
    flight when the pending ones are reclaimed and no confirmation is lost. *)
Theorem limit_holds ls w w' :
  event_fits event → ids_fit ls → no_attempts w → careful_run ls w = Some w' →
  (Z.of_nat (lw_committed w') ≤ max)%Z.
Proof.
  intros He Hids Hw Hrun.
  assert (limit_inv w) as HI.
  { destruct Hw as (Er & E1 & E2 & E3). unfold limit_inv, in_flight. rewrite Er, E1, E2, E3. cbn.
    rewrite size_empty. split_and!; [set_solver|lia|lia|done|lia]. }
  assert (limit_inv w') as HI'.
  { clear Hw. revert w HI Hrun. induction Hids as [|l ls Hl _ IH]; intros w HI; cbn [careful_run].
    - by intros [= <-].
    - destruct (careful l w) eqn:Hc; [|done]. destruct (limit_act l w) as [w1|] eqn:Ha; [|done].
      cbn. apply IH. eapply (limit_act_inv l w); try done. by intros i id ->. }
  destruct HI' as (_ & Hcap & _ & _ & Hcom). unfold in_flight in Hcap. lia.
Qed.
End slot.

(** ** The statuses *)

(** The status of the limit says that something is left exactly when an attempt at
    that time would be let through. *)
Theorem limit_status_exact event max eff now db count body :
  (0 < max)%Z → configured (u "max_submissions") eff = max →
  (∀ rows r, db = Some rows → rows !! slot event = Some r →
     row_fits (claim_row now r) = true ∧ (0 ≤ lr_confirmed r)%Z ∧ (0 ≤ lr_pending r)%Z) →
  active_count (bs_user_id event) (bs_problem_id event) (contest_key (bs_contest_id event)) now db = (Ok count, db) →
  body = limit_status eff count →
  ls_remaining body ≠ Some 0%Z ↔ (exec (limit_gate event max) now db).1 = Ok RPass.
Proof.
  intros Hmax Hcfg Hfit Hcount ->. unfold limit_status. rewrite Hcfg. cbn.
  rewrite (proj2 (Z.eqb_neq _ _)) by lia.
  unfold active_count in Hcount. destruct db as [rows|]; [|done].
  injection Hcount as <-. unfold limit_gate, try_stmt. cbn [exec]. unfold try_limit_claim; cbv zeta. fold (slot event).
  destruct (rows !! slot event) as [r|] eqn:E.
  - destruct (Hfit rows r eq_refl E) as (Hf & Hc & Hp). rewrite Hf.
    assert (0 ≤ active now r < 2 ^ 32)%Z as Hact.
    { unfold active, row_fits, claim_row in *. apply bool_decide_eq_true in Hf. unfold in_i32, i32_min, i32_max in Hf.
      destruct (pending_lives now r); cbn in Hf; lia. }
    unfold wrap_u32. rewrite Z.mod_small by done.
    destruct (Z.ltb_spec (active now r) max); cbn; split; try done; intros Hx; try congruence.
    + intros [= Hz]. lia.
    + exfalso. apply Hx. f_equal. lia.
  - unfold wrap_u32. rewrite Z.mod_0_l by lia. cbn. split; [done|]. intros _ [= Hz]. lia.
Qed.

(** ** Runs of the cooldown and of the limit
    Concrete runs: two submissions a cooldown apart beside one that is refused, the
    half second that rounding gives away, the status that is ahead of the gate, and a
    cap of two that lets three submissions in. *)

(** Both plugins are enabled for problem 7: a minute between submissions, two at most. *)
Definition ex_raw (scope ref_id ns : ustring) : result ustring Value :=
  Ok (if decide (scope = u "problem") then
        VObject [(u "config", VObject [(u "cooldown_seconds", VInt 60); (u "max_submissions", VInt 2)]);
                 (u "is_default", VBool false); (u "enabled", VBool true)]
      else VObject [(u "config", VObject []); (u "is_default", VBool true); (u "enabled", VNull)]).

Definition ex_error : SdkError := Other (u "event").

Definition ex_event : BeforeSubmissionEvent := {|
  bs_user_id := 3; bs_problem_id := 7; bs_contest_id := None; bs_language := u "cpp";
  bs_file_count := 1; bs_contest_type := u "ioi" |}.

Lemma ex_event_fits : event_fits ex_event.
Proof. unfold event_fits. cbn. unfold in_i32, i32_min, i32_max, u64_max. split_and!; try lia. done. Qed.

Lemma ex_cooldown_is : cooldown_is ex_raw 7 None 60.
Proof. eexists. split_and!; [vm_compute; reflexivity|reflexivity|reflexivity]. Qed.

Lemma ex_limit_is : limit_is ex_raw ex_event 2.
Proof. eexists. split_and!; [vm_compute; reflexivity|reflexivity|reflexivity]. Qed.

(** ** The cooldown *)

Abbreviation ex_world := (World CooldownDb BeforeSubmissionEvent (sdk HookResponse)).

Definition ex_start : ex_world := mkWorld 1000000 (mkCooldown None []) ∅.

(** Two requests at once, of which one is refused by the claim; the table is made on
    the way.  A minute later there is another submission. *)
Definition ex_script : list (Action BeforeSubmissionEvent) :=
  [Begin 0 ex_event; Begin 1 ex_event; Run 0; Run 1; Run 0; Run 0; Run 0; Run 1; Run 1; Commit 1;
   Tick 3000000; Commit 0; Tick 61000000; Begin 2 ex_event; Run 2; Run 2; Commit 2].

Definition ex_acts := acts (program ex_raw ex_error) insert_submission 5000000 ex_script ex_start.

Lemma ex_start_fresh : fresh 3 7 None ex_start.
Proof. split_and!; done. Qed.


(** A submission one minute less half a second after the last one. *)
Definition ex_submitted : CooldownDb := mkCooldown (Some ∅) [{|
  sm_user := 3; sm_problem := 7; sm_contest := None; sm_created_at := 0 |}].

Lemma cooldown_ends_half_a_second_early :
  (exec (check_cooldown ex_raw ex_error (encode_event ex_event)) 59500000 ex_submitted).1 = Ok RPass
  ∧ (exec (check_cooldown ex_raw ex_error (encode_event ex_event)) 59499999 ex_submitted).1 ≠ Ok RPass.
Proof. split; [by vm_compute|by vm_compute]. Qed.

Lemma gate_implies_status_witness :
  can_submit 60 (Some 60%Z) None = true.
Proof.
  apply (gate_implies_status ex_raw ex_error ex_event 60 59500000 ex_submitted);
    [exact ex_cooldown_is|lia|exact ex_event_fits|by eexists|by vm_compute|by vm_compute|by vm_compute].
Defined.

(** An attempt claimed the slot and was refused by a later hook. *)
Definition ex_claimed : CooldownDb := mkCooldown (Some {[ (3%Z, 7%Z, 0%Z) := 0%Z ]}) [].

(** The status says "can submit", and the gate refuses. *)
Lemma status_ahead_of_gate :
  let now := 14500000%Z in
  ∃ elapsed, query_claim_elapsed 3 7 None now ex_claimed = (Ok (Some elapsed), ex_claimed)
    ∧ can_submit 60 None (Some elapsed) = true
    ∧ (exec (check_cooldown ex_raw ex_error (encode_event ex_event)) now ex_claimed).1
      = Ok (reject_response 46 60).
Proof. exists 15%Z. split_and!; by vm_compute. Qed.

(** ** The limit *)

Definition ex_limit_start : LimitWorld := mkLimitWorld 0 (Some ∅) ∅ ∅ 0.

(** Three attempts, one of which is abandoned, and two submissions. *)
Definition ex_careful : list LimitLabel :=
  [LClaim 0; LClaim 1; LClaim 2; LInsert 0; LAbandon 1; LConfirm 0 100; LTick 31000000;
   LClaim 3; LClaim 4; LInsert 3; LConfirm 3 101; LClaim 5].

Lemma limit_holds_witness :
  ∃ w', careful_run ex_raw ex_error ex_event ex_careful ex_limit_start = Some w'
        ∧ lw_committed w' = 2 ∧ (Z.of_nat (lw_committed w') ≤ 2)%Z.
Proof.
  destruct (careful_run ex_raw ex_error ex_event ex_careful ex_limit_start) as [w'|] eqn:E;
    [|exfalso; revert E; vm_compute; discriminate].
  exists w'. split; [done|]. split; [revert E; vm_compute; by intros [= <-]|].
  refine (limit_holds ex_raw ex_error ex_event 2 ex_limit_is _ ex_careful ex_limit_start w' ex_event_fits _ _ E).
  - lia.
  - repeat constructor; cbn; unfold in_i32, i32_min, i32_max; lia.
  - split_and!; done.
Defined.

(** The first attempt is abandoned; 29 seconds later another one claims.  At 31 seconds
    the pending claims are reclaimed, with the one that is in flight: two more claims
    pass, and all three submissions are inserted and confirmed within three seconds
    of their claims. *)
Definition ex_reclaim : list LimitLabel :=
  [LClaim 0; LAbandon 0; LTick 29000000; LClaim 1; LTick 31000000; LClaim 2; LTick 32000000; LClaim 3;
   LInsert 1; LConfirm 1 100; LInsert 2; LConfirm 2 101; LInsert 3; LConfirm 3 102].

Lemma cap_exceeded :
  ∃ w', limit_run ex_raw ex_error ex_event ex_reclaim ex_limit_start = Some w' ∧ lw_committed w' = 3.
Proof.
  destruct (limit_run ex_raw ex_error ex_event ex_reclaim ex_limit_start) as [w'|] eqn:E;
    [|exfalso; revert E; vm_compute; discriminate].
  exists w'. split; [done|]. revert E; vm_compute; by intros [= <-].
Qed.

Definition ex_effective : EffectiveConfig := {|
  ec_config := VObject [(u "max_submissions", VInt 2)]; ec_source := SrcProblem; ec_is_enabled := true;
  ec_levels := {| cl_contest_problem := None; cl_contest := None;
    cl_problem := {| cr_config := VNull; cr_is_default := false; cr_enabled := Some true |} |} |}.

Definition ex_rows : LimitDb := Some {[ slot ex_event := {|
  lr_confirmed := 1; lr_pending := 1; lr_oldest_pending_at := Some 0%Z |} ]}.

Lemma ex_rows_fit rows r :
  ex_rows = Some rows → rows !! slot ex_event = Some r →
  row_fits (claim_row 5 r) = true ∧ (0 ≤ lr_confirmed r)%Z ∧ (0 ≤ lr_pending r)%Z.
Proof. intros [= <-] Hr. rewrite lookup_singleton_eq in Hr. injection Hr as <-. by vm_compute. Qed.

(** One submission is confirmed and one attempt is pending: nothing is left. *)
Lemma limit_status_exact_witness :
  ls_remaining (limit_status ex_effective 2) ≠ Some 0%Z
  ↔ (exec (limit_gate ex_event 2) 5 ex_rows).1 = Ok RPass.
Proof.
  refine (limit_status_exact ex_event 2 ex_effective 5 ex_rows 2 (limit_status ex_effective 2)
            _ _ ex_rows_fit _ eq_refl).
  - lia.
  - by vm_compute.
  - vm_compute. reflexivity.
Defined.
