(* ===== verification/PluginStorage.v ===== *)
(** * PluginStorage: what plugins store on the server

    The table plugin_storage: the host functions store_get, store_set, store_delete,
    store_compare_and_set and store_scan (packages/server/src/host_funcs/storage.rs),
    the compare-and-set of packages/server/src/services/plugin_storage.rs, and the
    calls of the SDK over them (packages/server-sdk/src/sdk/storage.rs).  A row is the
    row of a plugin in the collection "default"; a transaction is atomic. *)

From stdpp Require Import gmap.
From S2P Require Import Prelude Text Float Json Sdk Host Judging.

Record StorageRow := { ps_data : Value; ps_revision : Z }.

(** By plugin and key. *)
Abbreviation StorageTable := (gmap (ustring * ustring) StorageRow).

Definition revision_overflow : ustring := u "Storage revision overflow".

Section text.
(** [Value::to_string]. *)
Context (to_text : Value → ustring).

(** [plugin_storage_text]. *)
Definition plugin_storage_text (v : Value) : ustring :=
  match v with VString text => text | other => to_text other end.

Section plugin.
Context (plugin_id : ustring).

(** ** Host functions *)

Definition row_text (row : StorageRow) : ustring := plugin_storage_text (ps_data row).

(** The values and the versions of the keys that have a row. *)
Definition store_get (keys : list ustring) (t : StorageTable) : gmap ustring (ustring * Z) :=
  foldl (λ acc key, match t !! (plugin_id, key) with
                    | Some row => <[key := (row_text row, ps_revision row)]> acc
                    | None => acc
                    end) ∅ (sanitize_text_field <$> keys).

(** A new row starts at 0; an old one counts the write. *)
Definition store_set_entry (t : StorageTable) (entry : ustring * ustring) : option StorageTable :=
  let key := sanitize_text_field entry.1 in
  let value := VString (sanitize_text_field entry.2) in
  match t !! (plugin_id, key) with
  | None => Some (<[(plugin_id, key) := {| ps_data := value; ps_revision := 0 |}]> t)
  | Some row =>
      if (ps_revision row <? i64_max)%Z
      then Some (<[(plugin_id, key) := {| ps_data := value; ps_revision := ps_revision row + 1 |}]> t)
      else None
  end.

Definition store_set (entries : list (ustring * ustring)) (t : StorageTable) : option StorageTable :=
  foldl (λ t entry, t ← t; store_set_entry t entry) (Some t) entries.

Definition store_delete (keys : list ustring) (t : StorageTable) : StorageTable :=
  foldl (λ t key, delete (plugin_id, sanitize_text_field key) t) t keys.

(** [services::plugin_storage::compare_and_set]. *)
Definition compare_and_set (key : ustring) (expected : option ustring) (new : ustring)
    (expected_revision : option Z) (t : StorageTable) : result ustring (bool * StorageTable) :=
  match expected with
  | None =>
      match t !! (plugin_id, key) with
      | None => Ok (true, <[(plugin_id, key) := {| ps_data := VString new; ps_revision := 0 |}]> t)
      | Some _ => Ok (false, t)
      end
  | Some expected =>
      match t !! (plugin_id, key) with
      | None => Ok (false, t)
      | Some row =>
          if negb (bool_decide (row_text row = expected))
             || match expected_revision with
                | Some revision => negb (revision =? ps_revision row)%Z
                | None => false
                end
          then Ok (false, t)
          else
            match checked64 (ps_revision row + 1) with
            | None => Err revision_overflow
            | Some revision =>
                Ok (true, <[(plugin_id, key) := {| ps_data := VString new; ps_revision := revision |}]> t)
            end
      end
  end.

Definition store_compare_and_set (key : ustring) (expected : option ustring) (new : ustring)
    (expected_revision : option Z) (t : StorageTable) : result ustring (bool * StorageTable) :=
  compare_and_set (sanitize_text_field key) (sanitize_text_field <$> expected)
    (sanitize_text_field new) expected_revision t.

(** The first hundred keys of the page, in order. *)
Definition own_keys (t : StorageTable) : list ustring :=
  omap (λ kr : ustring * ustring * StorageRow, if decide (kr.1.1 = plugin_id) then Some kr.1.2 else None)
    (map_to_list t).

Definition store_scan (prefix : ustring) (after : option ustring) (t : StorageTable)
    : list (ustring * ustring) :=
  let keys := take 100 (sort_by_key id (filter (λ key, Storage.in_page prefix after key = true) (own_keys t))) in
  omap (λ key, (λ row, (key, row_text row)) <$> t !! (plugin_id, key)) keys.

(** ** The SDK *)

Definition sdk_get_one (key : ustring) (t : StorageTable) : option ustring :=
  fst <$> store_get [key] t !! key.

Definition sdk_snapshot (key : ustring) (t : StorageTable) : option StorageSnapshot :=
  (λ vr, {| sn_value := vr.1; sn_revision := vr.2 |}) <$> store_get [key] t !! key.

Definition sdk_compare_and_set_snapshot (key : ustring) (expected : option StorageSnapshot)
    (new : ustring) (t : StorageTable) : result ustring (bool * StorageTable) :=
  store_compare_and_set key (sn_value <$> expected) new (sn_revision <$> expected) t.
End plugin.
End text.

(** ** The native implementation of the SDK is what the server does *)

(** Texts without NUL are stored as they are. *)
Definition storable (s : ustring) : Prop := 0%Z ∉ s.

Lemma sanitize_storable s : storable s → sanitize_text_field s = s.
Proof.
  unfold storable, sanitize_text_field. induction s as [|c s IH]; [done|].
  intros [Hc Hs]%not_elem_of_cons. cbn. rewrite (IH Hs). destruct (Z.eqb_spec c 0); [congruence|done].
Qed.

Section refinement.
Context (to_text : Value → ustring) (plugin_id : ustring).

(** The storage of the native SDK and the rows of the plugin.  The native revision of
    a key counts its first write, the revision of the server does not. *)
Definition same_storage (h : Host) (t : StorageTable) : Prop :=
  ∀ key, storable key →
    match t !! (plugin_id, key) with
    | Some row => h_data h !! key = Some (row_text to_text row)
                  ∧ h_revisions h !! key = Some (ps_revision row + 1)%Z
    | None => h_data h !! key = None ∧ h_revisions h !! key = None
    end.

Lemma store_get_one key t :
  storable key →
  store_get to_text plugin_id [key] t !! key
  = (λ row, (row_text to_text row, ps_revision row)) <$> t !! (plugin_id, key).
Proof.
  intros Hk. unfold store_get. cbn [fmap list_fmap foldl]. rewrite sanitize_storable by done.
  destruct (t !! _); [by rewrite lookup_insert_eq|done].
Qed.

Lemma sdk_get_one_same h t key :
  same_storage h t → storable key → sdk_get_one to_text plugin_id key t = h_data h !! key.
Proof.
  intros Hs Hk. unfold sdk_get_one. rewrite store_get_one by done. specialize (Hs key Hk).
  by destruct (t !! _) as [row|]; destruct Hs as [-> _].
Qed.

(** The snapshots differ in their revisions, by one. *)
Definition same_snapshot (a b : option StorageSnapshot) : Prop :=
  match a, b with
  | Some a, Some b => sn_value a = sn_value b ∧ sn_revision b = (sn_revision a + 1)%Z
  | None, None => True
  | _, _ => False
  end.

Lemma sdk_snapshot_same h t key :
  same_storage h t → storable key →
  same_snapshot (sdk_snapshot to_text plugin_id key t) (Storage.snapshot_of h key).
Proof.
  intros Hs Hk. unfold sdk_snapshot, Storage.snapshot_of. rewrite store_get_one by done. specialize (Hs key Hk).
  destruct (t !! _) as [row|]; destruct Hs as [-> Hr]; cbn; [|done]. by rewrite Hr.
Qed.

(** A write of the same value to both. *)
Lemma write_same h t key new row' :
  same_storage h t → storable key → storable new →
  ps_data row' = VString new →
  ps_revision row' = match t !! (plugin_id, key) with Some row => (ps_revision row + 1)%Z | None => 0%Z end →
  same_storage (with_storage (<[key := new]> (h_data h)) (Storage.bump key h) h)
    (<[(plugin_id, key) := row']> t).
Proof.
  intros Hs Hk Hn Hd Hr key' Hk'. unfold Storage.bump. cbn.
  destruct (decide (key = key')) as [<- |Hne].
  - rewrite !lookup_insert_eq. specialize (Hs key Hk). unfold row_text. rewrite Hd, Hr. split; [done|].
    f_equal. destruct (t !! _) as [row|]; destruct Hs as [_ ->]; done.
  - rewrite !lookup_insert_ne by congruence. by apply Hs.
Qed.

Lemma sdk_set_same h t key value t' :
  same_storage h t → storable key → storable value →
  store_set plugin_id [(key, value)] t = Some t' →
  ∃ h', Storage.set [(key, value)] h = Some (Ok tt, h') ∧ same_storage h' t'.
Proof.
  intros Hs Hk Hv. unfold store_set, store_set_entry. cbn. rewrite !sanitize_storable by done.
  intros Ht. eexists. split; [reflexivity|].
  destruct (t !! (plugin_id, key)) as [row|] eqn:E.
  - destruct (ps_revision row <? i64_max)%Z; [|done]. injection Ht as <-.
    apply write_same; try done. cbn. by rewrite E.
  - injection Ht as <-. apply write_same; try done. cbn. by rewrite E.
Qed.

(** C30. The storage of the native SDK, over which the plugins are verified, behaves as
    the tables of the server: reads return the same texts, and a compare-and-set with
    the snapshot that each returned swaps on both or on neither. *)
Theorem storage_refines h t key expected expected' new swapped t' :
  same_storage h t → storable key → storable new →
  (∀ s, expected' = Some s → storable (sn_value s)) →
  same_snapshot expected' expected →
  sdk_compare_and_set_snapshot to_text plugin_id key expected' new t = Ok (swapped, t') →
  ∃ h', Storage.compare_and_set_snapshot key expected new h = Some (Ok swapped, h')
        ∧ same_storage h' t'
        ∧ sdk_get_one to_text plugin_id key t' = h_data h' !! key.
Proof.
  intros Hs Hk Hn He Hsame Hcas.
  assert (∃ h', Storage.compare_and_set_snapshot key expected new h = Some (Ok swapped, h')
                ∧ same_storage h' t') as (h' & Hh & Hs').
  { unfold sdk_compare_and_set_snapshot, store_compare_and_set, compare_and_set in Hcas.
    rewrite !sanitize_storable in Hcas by done.
    unfold Storage.compare_and_set_snapshot, Storage.snapshot, gets, mbind, M_bind.
    pose proof (Hs key Hk) as Hrow. unfold Storage.snapshot_of.
    destruct expected' as [e'|], expected as [e|]; try done; cbn [fmap option_fmap option_map] in Hcas.
    - destruct Hsame as [Hv Hrev]. rewrite sanitize_storable in Hcas by by apply He.
      destruct (t !! (plugin_id, key)) as [row|] eqn:E; destruct Hrow as [Hd Hr].
      + rewrite Hd, Hr. cbn. destruct (decide (row_text to_text row = sn_value e')) as [Et|Et].
        * rewrite bool_decide_eq_true_2 in Hcas by done. cbn in Hcas.
          destruct (Z.eqb_spec (sn_revision e') (ps_revision row)) as [Er|Er]; cbn in Hcas.
          -- destruct (checked64 (ps_revision row + 1)) as [revision|] eqn:Ec; [|done].
             injection Hcas as <- <-. unfold checked64 in Ec. case_decide; [|done]. injection Ec as <-.
             rewrite decide_True by (destruct e as [v r]; cbn in *; f_equal; f_equal; [congruence|lia]).
             unfold Storage.compare_and_set, Storage.get_one, gets, mbind, M_bind. cbn.
             rewrite decide_True by (rewrite Hd; f_equal; congruence).
             eexists. split; [reflexivity|]. apply write_same; try done. cbn. by rewrite E.
          -- injection Hcas as <- <-. rewrite decide_False by (intros [= Ee]; subst e; cbn in *; lia).
             by eexists.
        * rewrite bool_decide_eq_false_2 in Hcas by done. cbn in Hcas. injection Hcas as <- <-.
          rewrite decide_False by (intros [= Ee]; subst e; cbn in *; congruence). by eexists.
      + injection Hcas as <- <-. rewrite Hd. cbn. by eexists.
    - destruct (t !! (plugin_id, key)) as [row|] eqn:E; destruct Hrow as [Hd Hr].
      + injection Hcas as <- <-. rewrite Hd. cbn. by eexists.
      + injection Hcas as <- <-. rewrite Hd. cbn.
        unfold Storage.compare_and_set, Storage.get_one, gets, mbind, M_bind. cbn.
        case_decide; [|done]. case_decide; [|congruence]. eexists. split; [reflexivity|].
        apply write_same; try done. cbn. by rewrite E. }
  exists h'. split_and!; [done|done|by apply sdk_get_one_same].
Qed.
End refinement.
