(* ===== verification/HooksExamples.v ===== *)
(** * HooksExamples: hooks and configuration at concrete inputs

    A contest whose owner admits submissions beside a plugin that passes them and one
    that refuses them, the rows that enable a plugin, and a text of documents that is
    read back, at which the theorems of [HooksProofs] and [PluginStorage] apply. *)

From stdpp Require Import gmap strings.
From S2P Require Import Prelude Text Float Json Sdk Host Judging Hooks PluginConfig HooksProofs PluginStorage.

(** ** A text of documents *)

(** A document as a tree, whose encoding as one number is the text. *)
Fixpoint to_tree (v : Value) : gen_tree (list Z) :=
  match v with
  | VNull | VFloat _ => GenNode 0 []
  | VBool b => GenNode (if b then 2 else 1) []
  | VInt z => GenNode 3 [GenLeaf [z]]
  | VString s => GenNode 4 [GenLeaf s]
  | VArray vs => GenNode 5 (to_tree <$> vs)
  | VObject fs => GenNode 6 ((λ kv, GenNode 7 [GenLeaf kv.1; to_tree kv.2]) <$> fs)
  end.

Fixpoint of_tree (t : gen_tree (list Z)) : Value :=
  match t with
  | GenNode 1 _ => VBool false
  | GenNode 2 _ => VBool true
  | GenNode 3 [GenLeaf [z]] => VInt z
  | GenNode 4 [GenLeaf s] => VString s
  | GenNode 5 ts => VArray (of_tree <$> ts)
  | GenNode 6 ts =>
      VObject ((λ t, match t with
                     | GenNode _ [GenLeaf k; v] => (k, of_tree v)
                     | _ => ([], VNull)
                     end) <$> ts)
  | _ => VNull
  end.

Definition ex_to_text (v : Value) : ustring := [Zpos (countable.encode (to_tree v))].

Definition ex_of_text (s : ustring) : result ustring Value :=
  match s with
  | [Zpos p] => match countable.decode p with Some t => Ok (of_tree t) | None => Err (u "no JSON") end
  | _ => Err (u "no JSON")
  end.

Lemma of_to_tree v : exact_json v = true → of_tree (to_tree v) = v.
Proof.
  induction v as [|b|z|x|s|vs IH|fs IH] using Value_induction; cbn; try done.
  - by destruct b.
  - intros Hall%Is_true_true_2%forallb_True. f_equal. induction IH as [|v vs Hv _ IH]; [done|].
    apply Forall_cons in Hall as [H1 H2]. cbn. rewrite Hv, IH; [done|done|by apply Is_true_true].
  - intros [_ Hall%Is_true_true_2%forallb_True]%andb_prop. f_equal. induction IH as [|[k v] fs Hv _ IH]; [done|].
    apply Forall_cons in Hall as [H1 H2]. cbn in *. rewrite Hv, IH; [done|done|by apply Is_true_true].
Qed.

Lemma exact_json_eqb v : exact_json v = true → value_eqb v v = true.
Proof.
  induction v as [|b|z|x|s|vs IH|fs IH] using Value_induction; cbn; try done.
  - intros _. by destruct b.
  - intros _. by apply Z.eqb_refl.
  - intros _. by apply bool_decide_eq_true.
  - intros Hall%Is_true_true_2%forallb_True. induction IH as [|v vs Hv _ IH]; [done|].
    apply Forall_cons in Hall as [H1 H2]. rewrite Hv, IH; [done|done|by apply Is_true_true].
  - intros [Hnd%bool_decide_eq_true Hall%Is_true_true_2%forallb_True]%andb_prop. rewrite Nat.eqb_refl. cbn.
    assert (∀ k v, (k, v) ∈ fs → field k fs = Some v) as Hf.
    { clear IH Hall. induction fs as [|[k0 v0] fs IH]; intros k v; [by intros ?%not_elem_of_nil|].
      apply NoDup_cons in Hnd as [Hk Hnd]. intros [[= -> ->]|Hin]%elem_of_cons; cbn [field].
      - by rewrite decide_True.
      - rewrite decide_False; [by apply IH|]. intros ->. apply Hk. by apply (list_elem_of_fmap_2 fst) in Hin. }
    revert Hf Hall. generalize fs at 2 4 as gs. intros gs. clear Hnd.
    induction IH as [|[k v] fs Hv _ IH]; intros Hf Hall; [done|].
    apply Forall_cons in Hall as [H1 H2]. rewrite (Hf k v) by by left. cbn in *.
    rewrite Hv, IH; [done|intros ???; apply Hf; by right|done|by apply Is_true_true].
Qed.

Lemma ex_text_roundtrip : text_roundtrip ex_to_text ex_of_text.
Proof.
  intros v Hv. exists v. split; [|by apply exact_json_eqb].
  unfold ex_of_text, ex_to_text. by rewrite decode_encode, of_to_tree.
Qed.

Lemma ex_of_to_text v : exact_json v = true → ex_of_text (ex_to_text v) = Ok v.
Proof. intros Hv. unfold ex_of_text, ex_to_text. by rewrite decode_encode, of_to_tree. Qed.

(** ** A contest with an owner *)

(** The world counts the calls. *)
Definition ex_answering (answer : GenericEvent → HookAction) : GenericHook nat := λ event w,
  (Some (Ok (answer event)), S w).

Definition ex_admit (event : GenericEvent) : HookAction :=
  match ev_payload event with
  | VObject fs => Modified {| ev_topic := BEFORE_SUBMISSION; ev_payload := VObject (set_field ADMISSION VNull fs) |}
  | _ => Pass
  end.

Definition ex_registry : HookRegistry nat :=
  register [BEFORE_SUBMISSION] (mkEntry (u "audit") GlobalScope Notify (ex_answering (λ _, Reject [])))
    (register [BEFORE_SUBMISSION] (mkEntry (u "cooldown") ResourceScope Blocking (ex_answering (λ _, Pass)))
      (register [BEFORE_SUBMISSION] (mkEntry (u "ioi") ResourceScope Blocking (ex_answering ex_admit)) ∅)).

Definition ex_enabled : option ResourceEnablements :=
  Some (add_contest_type_owner {[ u "cooldown" := 1%Z ]} (Some (u "ioi"))).

Definition ex_request : BeforeSubmissionEvent := {|
  bs_user_id := 3; bs_problem_id := 7; bs_contest_id := Some 5%Z; bs_language := u "cpp";
  bs_file_count := 1; bs_contest_type := u "ioi" |}.

Lemma ex_request_fits : event_fits ex_request.
Proof.
  unfold event_fits, ex_request, in_i32, i32_min, i32_max, u64_max. cbn [bs_user_id bs_problem_id bs_contest_id bs_file_count].
  split_and!; try lia. intros cid [= <-]. lia.
Qed.

Definition ex_admitted : Value :=
  match encode_event ex_request with VObject fs => VObject (set_field ADMISSION VNull fs) | v => v end.

Definition ex_dispatch :=
  dispatch_submission_hooks ex_of_text ex_registry ex_enabled (Some (u "ioi")) ex_request 0.

Lemma ex_dispatch_eq : ex_dispatch = (Ok (Allowed ex_admitted), 3).
Proof. by vm_compute. Qed.

(** The gate of the owner runs first, at its position, and the hook that is only told last. *)
Lemma ex_order :
  de_plugin_id <$> dispatch_list ex_registry ex_enabled BEFORE_SUBMISSION = [u "ioi"; u "cooldown"; u "audit"].
Proof. by vm_compute. Qed.

Lemma allowed_submission_genuine_witness :
  get ADMISSION ex_admitted = Some VNull
  ∧ decode_event ex_admitted = Some ex_request
  ∧ ∀ v, get ADMISSION ex_admitted = Some v → given_by_owner ex_registry ex_enabled (Some (u "ioi")) v.
Proof.
  split; [by vm_compute|].
  exact (allowed_submission_genuine ex_of_text ex_registry ex_enabled (Some (u "ioi")) ex_request 0
           ex_admitted 3 ex_request_fits ex_dispatch_eq).
Defined.

Lemma ex_entries :
  dispatch_list ex_registry ex_enabled BEFORE_SUBMISSION
  = [mkDispatch (u "ioi") CONTEST_TYPE_OWNER_POSITION false Blocking (ex_answering ex_admit);
     mkDispatch (u "cooldown") 1 false Blocking (ex_answering (λ _, Pass));
     mkDispatch (u "audit") i32_min true Notify (ex_answering (λ _, Reject []))].
Proof. by vm_compute. Qed.

Lemma ex_never_chains : Forall never_chains (dispatch_list ex_registry ex_enabled BEFORE_SUBMISSION).
Proof.
  rewrite ex_entries. unfold never_chains. repeat constructor; try done.
  intros event w events w'. cbn [de_hook]. unfold ex_answering, ex_admit. by destruct (ev_payload event).
Qed.

Lemma allowed_iff_gates_pass_witness :
  ∃ passed rest w1, dispatch_list ex_registry ex_enabled BEFORE_SUBMISSION = passed ++ rest
    ∧ GateRun (Some (u "ioi")) passed (encode_event ex_request) 0 ex_admitted w1
    ∧ ((rest = [] ∧ 3 = w1) ∨ ∃ entry rest', rest = entry :: rest' ∧ stops entry ex_admitted w1 3).
Proof.
  apply (allowed_iff_gates_pass ex_of_text ex_registry ex_enabled (Some (u "ioi")) ex_request 0
           ex_admitted 3 ex_never_chains).
  exact ex_dispatch_eq.
Defined.

(** ** Answers of a plugin *)

Definition ex_refusal : Value :=
  VObject [(u "action", VString (u "reject")); (u "code", VString (u "COOLDOWN"));
           (u "message", VString (u "Wait")); (u "status_code", VInt 429);
           (u "details", VObject [(u "remaining_seconds", VInt 12)])].

(** A plugin that refuses, and one that traps. *)
Definition ex_call (plugin_id function_name input : ustring) (w : nat) : option (result ustring ustring) * nat :=
  (Some (if decide (plugin_id = u "cooldown") then Ok (ex_to_text ex_refusal) else Err (u "wasm trap")), S w).

Definition ex_entry (plugin_id : ustring) : DispatchEntry (W := nat) :=
  mkDispatch plugin_id 0 false Blocking (plugin_hook ex_to_text ex_of_text ex_call plugin_id (u "on_submit")).

Definition ex_inner (topic : ustring) (payload : Value) (w : nat) : Dispatch := (Ok (Allowed payload), w).

Lemma refusal_arrives_witness :
  ∃ details', dispatch_entries ex_of_text None ex_inner BEFORE_SUBMISSION
                [ex_entry (u "cooldown"); ex_entry (u "broken")] VNull 0
              = (Ok (Rejected (u "COOLDOWN") (u "Wait") 429 details'), 1)
            ∧ same_details (Some (VObject [(u "remaining_seconds", VInt 12)])) details'.
Proof.
  apply (refusal_arrives ex_to_text ex_of_text ex_text_roundtrip ex_call None ex_inner BEFORE_SUBMISSION
           (u "cooldown") (u "on_submit") (ex_entry (u "cooldown")) eq_refl eq_refl
           [ex_entry (u "broken")] VNull 0 1 (ex_to_text ex_refusal) ex_refusal).
  - by vm_compute.
  - by apply ex_of_to_text.
  - by vm_compute.
  - unfold u16_max. lia.
  - by intros d [= <-].
  - by vm_compute.
Defined.

Lemma broken_gate_refuses_witness :
  ∃ message, dispatch_entries ex_of_text None ex_inner BEFORE_SUBMISSION [ex_entry (u "broken")] VNull 0
             = (Err (Internal message), 1).
Proof.
  apply (broken_gate_refuses ex_to_text ex_of_text ex_text_roundtrip ex_call None ex_inner BEFORE_SUBMISSION
           (u "broken") (u "on_submit") (ex_entry (u "broken")) eq_refl eq_refl [] VNull 0 1
           (Some (Err (u "wasm trap")))); [by vm_compute|done].
Defined.

Lemma notified_never_decide_witness :
  ∃ w', dispatch_entries ex_of_text None ex_inner BEFORE_SUBMISSION
          [mkDispatch (u "audit") 0 true Notify (ex_answering (λ _, Reject []))] VNull 0
        = (Ok (Allowed VNull), w').
Proof.
  apply (notified_never_decide ex_of_text None ex_inner BEFORE_SUBMISSION
           [mkDispatch (u "audit") 0 true Notify (ex_answering (λ _, Reject []))] VNull 0).
  by repeat constructor.
Defined.

(** ** Rows that enable a plugin *)

Definition ex_namespace : ustring := plugin_namespace (u "cooldown") (u "config").

(** The contest turns on what the problem turns off. *)
Definition ex_table : ConfigTable :=
  <[(u "contest", ConfigKeys.contest 5, ex_namespace) :=
      {| pc_config := VNull; pc_enabled := Some true; pc_position := 4 |}]>
  {[ (u "problem", ConfigKeys.problem 7, ex_namespace) :=
      {| pc_config := VNull; pc_enabled := Some false; pc_position := 1 |} ]}.

Lemma ex_valid_namespace : valid_namespace (u "cooldown") (u "config").
Proof.
  unfold valid_namespace. split_and!; [by_decide|by vm_compute|].
  intros scope ref_id Hs Hr. unfold validate_config_input.
  rewrite (bool_decide_eq_true_2 _ Hs), (decide_False (P := ref_id = [])) by done. by vm_compute.
Qed.

Lemma ex_one_namespace : one_namespace (u "cooldown") (u "config") ex_table.
Proof.
  intros scope ref_id n row Hk _. unfold ex_table in Hk.
  apply lookup_insert_Some in Hk as [[[= _ _ <-] _]|[_ [[= _ _ <-] _]%lookup_singleton_Some]]; reflexivity.
Qed.

(** Plugin [contest] owns the type of contest 5; plugin [cooldown] is turned on by it. *)
Definition ex_types : gmap ustring ContestTypeHandlers :=
  {[ u "ioi" := {| ch_plugin_id := u "ioi-plugin"; ch_submission_admission := false |} ]}.

Definition ex_cooldown_hook : HookEntry nat := {|
  he_plugin_id := u "cooldown"; he_scope := ResourceScope; he_mode := Blocking; he_hook := ex_answering (λ _, Pass) |}.

Definition ex_with_owner : ResourceEnablements :=
  resource_enablements ex_types (λ _, Some (u "ioi")) ex_table 7 (Some 5%Z).

Lemma enabled_as_configured_witness :
  ex_with_owner = {[ u "cooldown" := 4%Z; u "ioi-plugin" := i32_min ]}
  ∧ ∃ e, get_effective (λ s r n, config_get_fn ∅ (u "cooldown") s r n (Ok ex_table)) (u "config") 7 (Some 5%Z) = Ok e
       ∧ ((∃ d, dispatch_entry (Some ex_with_owner) ex_cooldown_hook = Some d
              ∧ d ∈ dispatch_list {[ BEFORE_SUBMISSION := [ex_cooldown_hook] ]} (Some ex_with_owner) BEFORE_SUBMISSION)
          ↔ he_scope ex_cooldown_hook = GlobalScope ∨ ec_is_enabled e = true
            ∨ owns_contest_type (u "cooldown") (Some 5%Z) ex_types (λ _, Some (u "ioi"))).
Proof.
  split; [by vm_compute|].
  apply (enabled_as_configured ∅ (u "cooldown") (u "config") ex_table 7 (Some 5%Z)
           {[ BEFORE_SUBMISSION := [ex_cooldown_hook] ]} BEFORE_SUBMISSION ex_cooldown_hook ex_types (λ _, Some (u "ioi"))
           ex_valid_namespace ex_one_namespace); [by left|done].
Defined.

Definition ex_row (scope : ustring) (e : option bool) (position : Z) : EnablementRow := {|
  er_namespace := ex_namespace; er_scope := scope; er_enabled := e; er_position := position |}.

Definition ex_rows : list EnablementRow :=
  [ex_row (u "problem") (Some false) 1; ex_row (u "contest") (Some true) 4; ex_row (u "contest_problem") None 2].

Lemma merge_order_independent_witness :
  merge_resource_enablements ex_rows = merge_resource_enablements (rev ex_rows)
  ∧ merge_resource_enablements ex_rows = {[ u "cooldown" := 2%Z ]}.
Proof.
  split; [|by vm_compute].
  apply (merge_order_independent ex_rows (rev ex_rows)). apply Permutation_rev.
Defined.

(** ** The storage of a plugin *)

Definition ex_stored : StorageTable :=
  {[ (u "ioi", u "slot") := {| ps_data := VString (u "one"); ps_revision := 4 |} ]}.

Definition ex_host : Host := {|
  h_data := {[ u "slot" := u "one" ]}; h_revisions := {[ u "slot" := 5%Z ]}; h_timers := ∅; h_cancelled := [];
  h_now := 0; h_contests := ∅; h_submissions := []; h_feedback := []; h_feedback_actions := [];
  h_feedback_errors := []; h_feedback_query_errors := []; h_updates := []; h_update_results := [];
  h_log := []; h_results := []; h_insert_errors := []; h_detached := []; h_start_errors := [] |}.

Lemma ex_same_storage : same_storage ex_to_text (u "ioi") ex_host ex_stored.
Proof.
  intros key Hk. unfold ex_host, ex_stored. cbn [h_data h_revisions].
  destruct (decide (key = u "slot")) as [-> |Hne].
  - by rewrite !lookup_singleton_eq.
  - rewrite !lookup_singleton_ne by congruence. done.
Qed.

Lemma storage_refines_witness :
  ∃ h', Storage.compare_and_set_snapshot (u "slot") (Some {| sn_value := u "one"; sn_revision := 5 |})
          (u "two") ex_host = Some (Ok true, h')
        ∧ same_storage ex_to_text (u "ioi") h'
            {[ (u "ioi", u "slot") := {| ps_data := VString (u "two"); ps_revision := 5 |} ]}
        ∧ sdk_get_one ex_to_text (u "ioi") (u "slot")
            {[ (u "ioi", u "slot") := {| ps_data := VString (u "two"); ps_revision := 5 |} ]} = h_data h' !! u "slot".
Proof.
  apply (storage_refines ex_to_text (u "ioi") ex_host ex_stored (u "slot")
           (Some {| sn_value := u "one"; sn_revision := 5 |}) (Some {| sn_value := u "one"; sn_revision := 4 |})
           (u "two") true _ ex_same_storage).
  - unfold storable. by_decide.
  - unfold storable. by_decide.
  - intros s [= <-]. unfold storable. by_decide.
  - done.
  - by vm_compute.
Defined.
