(* ===== verification/Admission.v ===== *)
(** * Admission: submissions that the plugin of a contest admits

    packages/server/src/services/submission_feedback.rs: a submission is inserted
    together with the feedback its plugin holds back, when the document the plugin
    decided by and the slot of the contestant are still as it saw them.  A function
    here is one transaction or, for [observe_slot], two statements; the locks of the
    code (of the slot, of the guarded row, of the feedback row) make the transactions
    that share a slot, a document or a record atomic to each other. *)

From stdpp Require Import gmap.
From S2P Require Import Prelude Text Float Json Verdict Sdk Host BracketGate Visibility PluginConfig Hooks PluginStorage.

(** ** Tables *)

Inductive FeedbackOutcome := FbPending | FbRetired | FbReleased.

#[global] Instance FeedbackOutcome_eq_dec : EqDecision FeedbackOutcome.
Proof. solve_decision. Defined.

(** A row of submission_feedback.  The metadata is opaque. *)
Record FeedbackRow := mkFeedback {
  fw_submission_id : Z;
  fw_contest_id : Z;
  fw_user_id : Z;
  fw_plugin_id : ustring;
  fw_state_key : ustring;
  fw_metadata : ustring;
  fw_slot_key : option ustring;
  fw_outcome : FeedbackOutcome;
  fw_public_result : option SubmissionFeedbackResult;
}.

(** The columns of a submission that intake and feedback touch. *)
Record Submitted := {
  sd_user_id : Z;
  sd_problem_id : Z;
  sd_contest_id : option Z;
  sd_contest_type : ustring;
  sd_language : ustring;
  sd_files : list (ustring * ustring);
  sd_created_at : Z;
  sd_status : SubmissionLifecycle;
  sd_verdict : option Verdict;
}.

Definition with_created_at (now : Z) (s : Submitted) : Submitted := {|
  sd_user_id := sd_user_id s; sd_problem_id := sd_problem_id s; sd_contest_id := sd_contest_id s;
  sd_contest_type := sd_contest_type s; sd_language := sd_language s; sd_files := sd_files s;
  sd_created_at := now; sd_status := sd_status s; sd_verdict := sd_verdict s |}.

Record AdmissionDb := mkAdmission {
  adb_storage : StorageTable;
  adb_submissions : gmap Z Submitted;
  adb_feedback : gmap Z FeedbackRow;
  adb_next_id : Z;
}.

Definition in_flight : AppError :=
  PluginRejection (u "SUBMISSION_IN_FLIGHT") (u "Submission slot changed; refresh and retry.") 409 None.
Definition state_changed : AppError :=
  PluginRejection (u "SUBMISSION_STATE_CHANGED") (u "Admission state changed; refresh and retry.") 409 None.
Definition too_late : AppError :=
  PluginRejection (u "SUBMISSION_TOO_LATE") (u "Submission admission window has closed.") 409 None.

(** PostgreSQL has no text with a NUL. *)
Definition pg_text (s : ustring) : result AppError () :=
  if decide (0%Z ∈ s) then Err (db_error (u "invalid byte sequence for encoding")) else Ok tt.

(** [new.insert]: the next id of the sequence. *)
Definition insert_submission (new : Submitted) (db : AdmissionDb) : result AppError (Z * AdmissionDb) :=
  let id := adb_next_id db in
  if (id <=? i32_max)%Z then
    Ok (id, mkAdmission (adb_storage db) (<[id := new]> (adb_submissions db)) (adb_feedback db) (id + 1))
  else Err (db_error (u "reached maximum value of sequence")).

(** ** Slots *)

Definition slot_rows (plugin_id key : ustring) (db : AdmissionDb) : list FeedbackRow :=
  filter (λ f, fw_plugin_id f = plugin_id ∧ fw_slot_key f = Some key) (snd <$> map_to_list (adb_feedback db)).

(** The newest submission that ever had the slot, and one that holds it. *)
Definition slot_state (plugin_id key : ustring) (db : AdmissionDb) : option Z * option Z :=
  let rows := slot_rows plugin_id key db in
  (max_by_key id (fw_submission_id <$> rows),
   head (fw_submission_id <$> filter (λ f, fw_outcome f = FbPending) rows)).

Section text.
(** [Value::to_string]. *)
Context (to_text : Value → ustring).

(** ** Admission *)

Definition check_slot (plugin_id : ustring) (slot : option SubmissionSlotToken) (db : AdmissionDb)
    : result AppError () :=
  match slot with
  | Some slot =>
      pg_text (tok_key slot);;
      let '(generation, pending) := slot_state plugin_id (tok_key slot) db in
      if decide (generation = tok_generation slot ∧ pending = None) then Ok tt else Err in_flight
  | None => Ok tt
  end.

(** The row of the guard, with its revision advanced. *)
Definition guarded_row (plugin_id : ustring) (admission : SubmissionAdmission) (db : AdmissionDb)
    : result AppError StorageRow :=
  pg_text (ad_guard_key admission);;
  row ← ok_or (adb_storage db !! (plugin_id, ad_guard_key admission)) state_changed;
  if decide (row_text to_text row = ad_guard_expected_value admission) then
    revision ← ok_or (checked64 (ps_revision row + 1)) (Internal revision_overflow);
    Ok {| ps_data := ps_data row; ps_revision := revision |}
  else Err state_changed.

(** [now]: the clock of the database, in microseconds. *)
Definition insert_admitted (plugin_id : ustring) (now : Z) (new : Submitted)
    (admission : SubmissionAdmission) (db : AdmissionDb) : result AppError (Z * AdmissionDb) :=
  check_slot plugin_id (ad_slot admission) db;;
  row ← guarded_row plugin_id admission db;
  if match ad_latest_arrival_ms admission with Some end_ => (end_ * 1000 <=? now)%Z | None => false end
  then Err too_late
  else
    '(id, db) ← insert_submission (with_created_at now new) db;
    contest_id ← ok_or (sd_contest_id new) (db_error (u "null value in column contest_id"));
    pg_text (ad_feedback_key admission);;
    Ok (id, mkAdmission (<[(plugin_id, ad_guard_key admission) := row]> (adb_storage db))
              (adb_submissions db)
              (<[id := {| fw_submission_id := id; fw_contest_id := contest_id; fw_user_id := sd_user_id new;
                          fw_plugin_id := plugin_id; fw_state_key := ad_feedback_key admission;
                          fw_metadata := ad_metadata admission;
                          fw_slot_key := tok_key <$> ad_slot admission; fw_outcome := FbPending;
                          fw_public_result := None |}]> (adb_feedback db))
              (adb_next_id db)).
End text.

(** ** Records *)

Definition record_of (f : FeedbackRow) (s : Submitted) : SubmissionFeedbackRecord := {|
  fb_submission_id := fw_submission_id f; fb_contest_id := fw_contest_id f; fb_user_id := fw_user_id f;
  fb_problem_id := sd_problem_id s; fb_submitted_at_us := sd_created_at s; fb_status := sd_status s;
  fb_verdict := sd_verdict s; fb_key := fw_state_key f; fb_metadata := fw_metadata f;
  fb_withheld := bool_decide (fw_outcome f ≠ FbReleased);
  fb_slot_held := bool_decide (fw_outcome f = FbPending ∧ is_Some (fw_slot_key f));
  fb_slot_key := fw_slot_key f; fb_result := fw_public_result f |}.

(** The rows of a plugin in the order of the submissions. *)
Definition plugin_rows (plugin_id : ustring) (db : AdmissionDb) : list FeedbackRow :=
  sort_by_key fw_submission_id
    (filter (λ f, fw_plugin_id f = plugin_id) (snd <$> map_to_list (adb_feedback db))).

(** The conditions of the WHERE clause. *)
Definition row_matches (q : SubmissionFeedbackQuery) (f : FeedbackRow) : Prop :=
  match q_key q with Some k => fw_state_key f = k | None => True end
  ∧ match q_slot_key q with Some k => fw_slot_key f = Some k | None => True end
  ∧ (q_unpublished_only q = false ∨ fw_outcome f ≠ FbReleased)
  ∧ (q_after_id q < fw_submission_id f)%Z
  ∧ match q_submission_ids q with Some ids => fw_submission_id f ∈ ids | None => True end.

#[global] Instance row_matches_dec q f : Decision (row_matches q f).
Proof. unfold row_matches. repeat case_match; apply _. Defined.

Definition joined (db : AdmissionDb) (f : FeedbackRow) : option SubmissionFeedbackRecord :=
  record_of f <$> adb_submissions db !! fw_submission_id f.

Definition query (plugin_id : ustring) (q : SubmissionFeedbackQuery) (db : AdmissionDb)
    : result AppError (list SubmissionFeedbackRecord) :=
  (match q_key q with Some k => pg_text k | None => Ok tt end);;
  (match q_slot_key q with Some k => pg_text k | None => Ok tt end);;
  Ok (take (page_size q) (omap (joined db) (filter (row_matches q) (plugin_rows plugin_id db)))).

(** The record of one submission. *)
Definition by_submission (id : Z) : SubmissionFeedbackQuery := {|
  q_key := None; q_slot_key := None; q_submission_ids := Some [id]; q_unpublished_only := false;
  q_after_id := 0; q_limit := 1 |}.

(** [db'] is the state at the second statement. *)
Definition observe_slot (plugin_id key : ustring) (db db' : AdmissionDb)
    : result AppError SubmissionSlotObservation :=
  pg_text key;;
  let '(generation, pending) := slot_state plugin_id key db in
  pending ← (match pending with
    | Some id =>
        records ← query plugin_id (by_submission id) db';
        Ok (snd <$> list_find (λ r, fb_slot_held r = true) records)
    | None => Ok None
    end);
  Ok {| so_token := {| tok_key := key; tok_generation := generation |}; so_pending := pending |}.

Definition with_outcome (outcome : FeedbackOutcome) (result : option SubmissionFeedbackResult)
    (f : FeedbackRow) : FeedbackRow := {|
  fw_submission_id := fw_submission_id f; fw_contest_id := fw_contest_id f; fw_user_id := fw_user_id f;
  fw_plugin_id := fw_plugin_id f; fw_state_key := fw_state_key f; fw_metadata := fw_metadata f;
  fw_slot_key := fw_slot_key f; fw_outcome := outcome; fw_public_result := result |}.

Definition update (plugin_id : ustring) (id : Z) (action : SubmissionFeedbackAction) (db : AdmissionDb)
    : result AppError (FeedbackUpdateOutcome * AdmissionDb) :=
  f ← ok_or (f ← adb_feedback db !! id; if decide (fw_plugin_id f = plugin_id) then Some f else None)
        (db_error (u "Feedback record not found for this plugin"));
  records ← query plugin_id (by_submission id) db;
  record ← ok_or (last records) (db_error (u "Feedback record not found"));
  match apply_action action record with
  | Err e => Err (db_error e)
  | Ok (AlreadyApplied, _) => Ok (AlreadyApplied, db)
  | Ok (Applied, record) =>
      let outcome := if negb (fb_withheld record) then FbReleased else FbRetired in
      Ok (Applied, mkAdmission (adb_storage db) (adb_submissions db)
                     (<[id := with_outcome outcome (fb_result record) f]> (adb_feedback db)) (adb_next_id db))
  end.

(** ** What others are shown *)

Definition is_withheld (f : FeedbackRow) : bool := bool_decide (fw_outcome f = FbPending ∨ fw_outcome f = FbRetired).

Definition public_status (can_view_all : bool) (status : SubmissionLifecycle) (id : Z) (db : AdmissionDb)
    : SubmissionLifecycle :=
  if can_view_all then status
  else match adb_feedback db !! id with
       | Some f => if is_withheld f then Running else status
       | None => status
       end.

Definition feedback_shown (f : FeedbackRow) : option Feedback :=
  match fw_outcome f with
  | FbReleased => Published <$> fw_public_result f
  | _ => Some Pending
  end.

Definition load (ids : list Z) (db : AdmissionDb) : gmap Z Feedback :=
  omap (λ f, feedback_shown f) (filter (λ kf, kf.1 ∈ ids) (adb_feedback db)).

(** ** The world: transactions of anybody, in any order *)

Inductive AdmissionLabel :=
  | LAdmit (plugin_id : ustring) (now : Z) (new : Submitted) (admission : SubmissionAdmission)
  | LPlain (new : Submitted)
  | LFeedback (plugin_id : ustring) (id : Z) (action : SubmissionFeedbackAction)
  | LStoreSet (plugin_id : ustring) (entries : list (ustring * ustring))
  | LStoreCas (plugin_id key : ustring) (expected : option ustring) (new : ustring) (revision : option Z)
  | LStoreDelete (plugin_id : ustring) (keys : list ustring)
  | LJudge (id : Z) (status : SubmissionLifecycle) (verdict : option Verdict)
  | LRemove (id : Z).

Definition with_storage_table (t : StorageTable) (db : AdmissionDb) : AdmissionDb :=
  mkAdmission t (adb_submissions db) (adb_feedback db) (adb_next_id db).

Definition judged (status : SubmissionLifecycle) (verdict : option Verdict) (s : Submitted) : Submitted := {|
  sd_user_id := sd_user_id s; sd_problem_id := sd_problem_id s; sd_contest_id := sd_contest_id s;
  sd_contest_type := sd_contest_type s; sd_language := sd_language s; sd_files := sd_files s;
  sd_created_at := sd_created_at s; sd_status := status; sd_verdict := verdict |}.

(** A transaction that fails changes nothing.  Removing a submission removes its
    feedback, by the foreign key. *)
Definition admission_act (to_text : Value → ustring) (l : AdmissionLabel) (db : AdmissionDb) : AdmissionDb :=
  match l with
  | LAdmit plugin_id now new admission =>
      match insert_admitted to_text plugin_id now new admission db with Ok (_, db) => db | Err _ => db end
  | LPlain new => match insert_submission new db with Ok (_, db) => db | Err _ => db end
  | LFeedback plugin_id id action =>
      match update plugin_id id action db with Ok (_, db) => db | Err _ => db end
  | LStoreSet plugin_id entries =>
      match store_set plugin_id entries (adb_storage db) with
      | Some t => with_storage_table t db
      | None => db
      end
  | LStoreCas plugin_id key expected new revision =>
      match store_compare_and_set to_text plugin_id key expected new revision (adb_storage db) with
      | Ok (_, t) => with_storage_table t db
      | Err _ => db
      end
  | LStoreDelete plugin_id keys => with_storage_table (store_delete plugin_id keys (adb_storage db)) db
  | LJudge id status verdict =>
      mkAdmission (adb_storage db) (alter (judged status verdict) id (adb_submissions db))
        (adb_feedback db) (adb_next_id db)
  | LRemove id =>
      mkAdmission (adb_storage db) (delete id (adb_submissions db)) (delete id (adb_feedback db)) (adb_next_id db)
  end.

Definition admission_run (to_text : Value → ustring) (ls : list AdmissionLabel) (db : AdmissionDb) : AdmissionDb :=
  foldl (λ db l, admission_act to_text l db) db ls.
