(* ===== verification/AdmissionProofs.v ===== *)
(** * AdmissionProofs: what admission guarantees

    In any order of transactions, a slot is held by one submission at a time, a token
    admits once, an admission makes every earlier snapshot of its document stale, what
    is admitted stays hidden until its plugin releases it, and the tables behave as
    the native SDK, over which the bracket is verified. *)

From stdpp Require Import gmap.
From S2P Require Import Prelude Text Float Json Verdict Sdk Host Judging BracketGate Visibility PluginConfig Hooks PluginStorage.
From S2P Require Import Admission.

Lemma pg_text_Ok s x : pg_text s = Ok x → storable s.
Proof. unfold pg_text, storable. by case_decide. Qed.

Lemma pg_text_storable s : storable s → pg_text s = Ok tt.
Proof. unfold pg_text, storable. intros. by rewrite decide_False. Qed.

(** ** Slots *)

Lemma elem_of_feedback_rows (f : FeedbackRow) (m : gmap Z FeedbackRow) :
  f ∈ snd <$> map_to_list m ↔ ∃ i, m !! i = Some f.
Proof.
  rewrite list_elem_of_fmap. split.
  - intros ([i g] & -> & Hin%elem_of_map_to_list). eauto.
  - intros [i Hi]. exists (i, f). split; [done|]. by apply elem_of_map_to_list.
Qed.

Lemma elem_of_slot_rows plugin key f db :
  f ∈ slot_rows plugin key db
  ↔ fw_plugin_id f = plugin ∧ fw_slot_key f = Some key ∧ ∃ i, adb_feedback db !! i = Some f.
Proof. unfold slot_rows. rewrite list_elem_of_filter, elem_of_feedback_rows. tauto. Qed.

Record db_ok (db : AdmissionDb) : Prop := {
  ok_feedback i f : adb_feedback db !! i = Some f →
    fw_submission_id f = i ∧ is_Some (adb_submissions db !! i);
  ok_ids i s : adb_submissions db !! i = Some s → (0 < i < adb_next_id db)%Z;
  ok_next : (0 < adb_next_id db)%Z;
  ok_slot i j f g key : adb_feedback db !! i = Some f → adb_feedback db !! j = Some g →
    fw_plugin_id f = fw_plugin_id g → fw_slot_key f = Some key → fw_slot_key g = Some key →
    fw_outcome f = FbPending → fw_outcome g = FbPending → i = j;
}.

Lemma feedback_id_bound db i f : db_ok db → adb_feedback db !! i = Some f → (0 < i < adb_next_id db)%Z.
Proof. intros Hok Hf. destruct (ok_feedback _ Hok _ _ Hf) as [_ [s Hs]]. by eapply (ok_ids _ Hok). Qed.

Section text.
Context (to_text : Value → ustring).

(** What an admission found and wrote. *)
Lemma insert_admitted_inv plugin now new admission db id db' :
  insert_admitted to_text plugin now new admission db = Ok (id, db') →
  ∃ row cid,
    (∀ slot, ad_slot admission = Some slot →
       storable (tok_key slot) ∧ slot_state plugin (tok_key slot) db = (tok_generation slot, None))
    ∧ storable (ad_guard_key admission)
    ∧ adb_storage db !! (plugin, ad_guard_key admission) = Some row
    ∧ row_text to_text row = ad_guard_expected_value admission
    ∧ (∀ end_, ad_latest_arrival_ms admission = Some end_ → (now < end_ * 1000)%Z)
    ∧ sd_contest_id new = Some cid
    ∧ id = adb_next_id db
    ∧ db' = mkAdmission
        (<[(plugin, ad_guard_key admission) := {| ps_data := ps_data row; ps_revision := ps_revision row + 1 |}]>
           (adb_storage db))
        (<[id := with_created_at now new]> (adb_submissions db))
        (<[id := {| fw_submission_id := id; fw_contest_id := cid; fw_user_id := sd_user_id new;
                    fw_plugin_id := plugin; fw_state_key := ad_feedback_key admission;
                    fw_metadata := ad_metadata admission; fw_slot_key := tok_key <$> ad_slot admission;
                    fw_outcome := FbPending; fw_public_result := None |}]> (adb_feedback db))
        (id + 1).
Proof.
  unfold insert_admitted. intros H.
  apply result_bind_Ok in H as (x & Hslot & H). apply result_bind_Ok in H as (row' & Hrow & H).
  unfold guarded_row in Hrow. apply result_bind_Ok in Hrow as (y & Hg%pg_text_Ok & Hrow).
  apply result_bind_Ok in Hrow as (row & Hlk & Hrow). case_decide as Htext; [|done].
  apply result_bind_Ok in Hrow as (rev & Hrev & [= <-]).
  unfold ok_or in Hlk, Hrev. destruct (adb_storage db !! _) as [row0|] eqn:E; [|done]. injection Hlk as ->.
  destruct (checked64 _) as [r|] eqn:Ec; [|done]. injection Hrev as ->. apply checked64_Some in Ec as [-> _].
  assert (∀ end_, ad_latest_arrival_ms admission = Some end_ → (now < end_ * 1000)%Z) as Hlate.
  { intros end_ He. rewrite He in H. destruct (Z.leb_spec (end_ * 1000) now); [done|lia]. }
  destruct (match ad_latest_arrival_ms admission with Some end_ => _ | None => _ end); [done|].
  apply result_bind_Ok in H as ([id1 db1] & Hins & H). unfold insert_submission in Hins.
  destruct (adb_next_id db <=? i32_max)%Z; [|done]. injection Hins as <- <-.
  apply result_bind_Ok in H as (cid & Hcid & H). unfold ok_or in Hcid.
  destruct (sd_contest_id new) as [cid0|] eqn:Ecid; [|done]. injection Hcid as ->.
  apply result_bind_Ok in H as (z & _ & [= <- <-]). cbn [adb_storage adb_submissions adb_feedback adb_next_id].
  exists row, cid. split_and!; try done.
  intros slot Hs. rewrite Hs in Hslot. unfold check_slot in Hslot.
  apply result_bind_Ok in Hslot as (w & Hpg%pg_text_Ok & Hslot). destruct (slot_state _ _ _) as [g p].
  case_decide as Hd; [|done]. by destruct Hd as [-> ->].
Qed.

Lemma no_pending plugin key db g i f :
  slot_state plugin key db = (g, None) → adb_feedback db !! i = Some f →
  fw_plugin_id f = plugin → fw_slot_key f = Some key → fw_outcome f ≠ FbPending.
Proof.
  unfold slot_state. intros [= _ Hn] Hi Hp Hk Ho.
  assert (f ∈ filter (λ f, fw_outcome f = FbPending) (slot_rows plugin key db)) as Hin.
  { apply list_elem_of_filter. split; [done|]. apply elem_of_slot_rows. eauto. }
  destruct (filter _ _) as [|h l]; [by apply not_elem_of_nil in Hin|done].
Qed.

(** ** The invariant *)

Lemma insert_admitted_ok plugin now new admission db id db' :
  db_ok db → insert_admitted to_text plugin now new admission db = Ok (id, db') → db_ok db'.
Proof.
  intros Hok (row & cid & Hslot & _ & _ & _ & _ & _ & -> & ->)%insert_admitted_inv.
  set (n := adb_next_id db) in *. assert (adb_feedback db !! n = None) as Hn.
  { destruct (adb_feedback db !! n) eqn:E; [|done]. apply feedback_id_bound in E; [|done]. subst n. lia. }
  pose proof (ok_next _ Hok). constructor; cbn [adb_feedback adb_submissions adb_next_id].
  - intros i f [[<- <-]|[Hne Hf]]%lookup_insert_Some.
    + split; [done|]. rewrite lookup_insert_eq. eauto.
    + rewrite lookup_insert_ne by done. by apply (ok_feedback _ Hok).
  - intros i s [[<- <-]|[Hne Hs]]%lookup_insert_Some; [lia|]. apply (ok_ids _ Hok) in Hs. lia.
  - lia.
  - intros i j f g key Hi Hj Hp Hkf Hkg Hof Hog.
    apply lookup_insert_Some in Hi as [[<- <-]|[Hne Hi]], Hj as [[<- <-]|[Hne' Hj]];
      cbn [fw_plugin_id fw_slot_key fw_outcome] in *; [done| | |by eapply (ok_slot _ Hok)].
    + destruct (ad_slot admission) as [slot|]; [|done]. injection Hkf as <-.
      destruct (no_pending _ _ _ _ _ _ (proj2 (Hslot slot eq_refl)) Hj); done.
    + destruct (ad_slot admission) as [slot|]; [|done]. injection Hkg as <-.
      destruct (no_pending _ _ _ _ _ _ (proj2 (Hslot slot eq_refl)) Hi); done.
Qed.

Lemma insert_submission_ok new db id db' :
  db_ok db → insert_submission new db = Ok (id, db') → db_ok db'.
Proof.
  intros Hok. unfold insert_submission. destruct (_ <=? _)%Z; [|done]. intros [= <- <-].
  pose proof (ok_next _ Hok). constructor; cbn [adb_feedback adb_submissions adb_next_id].
  - intros i f Hf. destruct (ok_feedback _ Hok _ _ Hf) as [? Hs]. split; [done|].
    destruct (decide (adb_next_id db = i)) as [<- |]; [rewrite lookup_insert_eq; eauto|by rewrite lookup_insert_ne].
  - intros i s [[<- <-]|[Hne Hs]]%lookup_insert_Some; [lia|]. apply (ok_ids _ Hok) in Hs. lia.
  - lia.
  - apply (ok_slot _ Hok).
Qed.

(** An update changes the outcome and the result of one row, and leaves none pending. *)
Lemma update_inv plugin id action db outcome db' :
  update plugin id action db = Ok (outcome, db') →
  db' = db ∨ ∃ f o r, adb_feedback db !! id = Some f ∧ fw_plugin_id f = plugin ∧ o ≠ FbPending
    ∧ db' = mkAdmission (adb_storage db) (adb_submissions db)
              (<[id := with_outcome o r f]> (adb_feedback db)) (adb_next_id db).
Proof.
  unfold update. intros (f & Hf & H)%result_bind_Ok. unfold ok_or in Hf.
  destruct (adb_feedback db !! id) as [f0|] eqn:E; [|done]. cbn [mbind option_bind] in Hf.
  destruct (decide (fw_plugin_id f0 = plugin)); [|done]. injection Hf as ->.
  apply result_bind_Ok in H as (records & _ & H). apply result_bind_Ok in H as (record & _ & H).
  destruct (apply_action action record) as [[[] record']|]; [| |done].
  - injection H as _ <-. right. eexists f, _, _. split_and!; [done..| |reflexivity].
    by destruct (negb (fb_withheld record')).
  - injection H as _ <-. by left.
Qed.

Lemma update_ok plugin id action db outcome db' :
  db_ok db → update plugin id action db = Ok (outcome, db') → db_ok db'.
Proof.
  intros Hok [-> |(f & o & r & Hf & _ & Ho & ->)]%update_inv; [done|].
  constructor; cbn [adb_feedback adb_submissions adb_next_id].
  - intros i g [[<- <-]|[Hne Hg]]%lookup_insert_Some; [cbn; by apply (ok_feedback _ Hok)|by apply (ok_feedback _ Hok)].
  - apply (ok_ids _ Hok).
  - apply (ok_next _ Hok).
  - intros i j g h key Hi Hj Hp Hkg Hkh Hog Hoh.
    apply lookup_insert_Some in Hi as [[<- <-]|[Hne Hi]], Hj as [[<- <-]|[Hne' Hj]]; cbn in *;
      [done..|by eapply (ok_slot _ Hok)].
Qed.

Lemma remove_ok id db :
  db_ok db → db_ok (mkAdmission (adb_storage db) (delete id (adb_submissions db))
                      (delete id (adb_feedback db)) (adb_next_id db)).
Proof.
  intros Hok. constructor; cbn [adb_feedback adb_submissions adb_next_id].
  - intros i f [Hne Hf]%lookup_delete_Some. rewrite lookup_delete_ne by done. by apply (ok_feedback _ Hok).
  - intros i s [Hne Hs]%lookup_delete_Some. by eapply (ok_ids _ Hok).
  - apply (ok_next _ Hok).
  - intros i j f g key [_ Hi]%lookup_delete_Some [_ Hj]%lookup_delete_Some. by apply (ok_slot _ Hok).
Qed.

Lemma judge_ok id status verdict db :
  db_ok db → db_ok (mkAdmission (adb_storage db) (alter (judged status verdict) id (adb_submissions db))
                      (adb_feedback db) (adb_next_id db)).
Proof.
  intros Hok. constructor; cbn [adb_feedback adb_submissions adb_next_id].
  - intros i f Hf. destruct (ok_feedback _ Hok _ _ Hf) as [? [s Hs]]. split; [done|].
    destruct (decide (id = i)) as [-> |]; [rewrite lookup_alter_eq, Hs; eauto|rewrite lookup_alter_ne; eauto].
  - intros i s [(<- & s0 & Hs & _)|[Hne Hs]]%lookup_alter_Some; by eapply (ok_ids _ Hok).
  - apply (ok_next _ Hok).
  - apply (ok_slot _ Hok).
Qed.

Lemma storage_ok t db : db_ok db → db_ok (with_storage_table t db).
Proof. intros [H1 H2 H3 H4]. by constructor. Qed.

Lemma admission_act_ok l db : db_ok db → db_ok (admission_act to_text l db).
Proof.
  intros Hok. destruct l; cbn [admission_act].
  - destruct (insert_admitted _ _ _ _ _ _) as [[id db']|] eqn:E; [by eapply insert_admitted_ok|done].
  - destruct (insert_submission _ _) as [[id db']|] eqn:E; [by eapply insert_submission_ok|done].
  - destruct (update _ _ _ _) as [[o db']|] eqn:E; [by eapply update_ok|done].
  - destruct (store_set _ _ _); [by apply storage_ok|done].
  - destruct (store_compare_and_set _ _ _ _ _ _ _) as [[? ?]|]; [by apply storage_ok|done].
  - by apply storage_ok.
  - by apply judge_ok.
  - by apply remove_ok.
Qed.

Lemma admission_run_ok ls db : db_ok db → db_ok (admission_run to_text ls db).
Proof. revert db. induction ls as [|l ls IH]; intros db Hok; [done|]. apply IH. by apply admission_act_ok. Qed.

(** However admissions, releases, judgements and writes of plugins interleave, a slot
    is held by one submission at a time. *)
Theorem slot_held_once ls db i j f g key :
  db_ok db →
  adb_feedback (admission_run to_text ls db) !! i = Some f →
  adb_feedback (admission_run to_text ls db) !! j = Some g →
  fw_plugin_id f = fw_plugin_id g → fw_slot_key f = Some key → fw_slot_key g = Some key →
  fw_outcome f = FbPending → fw_outcome g = FbPending → i = j.
Proof. intros Hok. apply (ok_slot _ (admission_run_ok ls db Hok)). Qed.

(** ** Tokens *)

(** A row of the feedback stays with its submission, its plugin and its slot. *)
Definition same_slot (f g : FeedbackRow) : Prop :=
  fw_submission_id g = fw_submission_id f ∧ fw_plugin_id g = fw_plugin_id f ∧ fw_slot_key g = fw_slot_key f.

Lemma admission_act_keeps l db i f :
  db_ok db → l ≠ LRemove i → adb_feedback db !! i = Some f →
  ∃ g, adb_feedback (admission_act to_text l db) !! i = Some g ∧ same_slot f g.
Proof.
  intros Hok Hl Hf. assert (∃ g, adb_feedback db !! i = Some g ∧ same_slot f g) as Hsame by (exists f; done).
  destruct l; cbn [admission_act]; try done.
  - destruct (insert_admitted _ _ _ _ _ _) as [[id db']|] eqn:E; [|done].
    apply insert_admitted_inv in E as (row & cid & _ & _ & _ & _ & _ & _ & -> & ->). cbn [adb_feedback].
    rewrite lookup_insert_ne; [done|]. apply feedback_id_bound in Hf; [|done]. lia.
  - unfold insert_submission. by destruct (_ <=? _)%Z.
  - destruct (update _ _ _ _) as [[o db']|] eqn:E; [|done].
    apply update_inv in E as [-> |(h & o' & r & Hh & _ & _ & ->)]; [done|]. cbn [adb_feedback].
    destruct (decide (id = i)) as [-> |]; [rewrite lookup_insert_eq|by rewrite lookup_insert_ne].
    simplify_eq. eexists. split; [done|]. done.
  - by destruct (store_set _ _ _).
  - by destruct (store_compare_and_set _ _ _ _ _ _ _) as [[? ?]|].
  - cbn [adb_feedback]. rewrite lookup_delete_ne; [done|congruence].
Qed.

Lemma admission_run_keeps ls db i f :
  db_ok db → LRemove i ∉ ls → adb_feedback db !! i = Some f →
  ∃ g, adb_feedback (admission_run to_text ls db) !! i = Some g ∧ same_slot f g.
Proof.
  revert db f. induction ls as [|l ls IH]; intros db f Hok [Hl Hls]%not_elem_of_cons Hf || intros db f Hok Hl Hf;
    [by exists f|].
  destruct (admission_act_keeps l db i f Hok ltac:(congruence) Hf) as (g & Hg & Hs1 & Hs2 & Hs3).
  destruct (IH (admission_act to_text l db) g (admission_act_ok l db Hok) Hls Hg) as (h & Hh & Hs).
  exists h. split; [done|]. unfold same_slot in *. destruct Hs as (-> & -> & ->). done.
Qed.

Lemma generation_ge plugin key db i f :
  adb_feedback db !! i = Some f → fw_plugin_id f = plugin → fw_slot_key f = Some key → fw_submission_id f = i →
  ∃ g, (slot_state plugin key db).1 = Some g ∧ (i ≤ g)%Z.
Proof.
  intros Hf Hp Hk <-. cbn.
  assert (fw_submission_id f ∈ fw_submission_id <$> slot_rows plugin key db) as Hin.
  { apply list_elem_of_fmap_2, elem_of_slot_rows. eauto. }
  destruct (max_by_key id (fw_submission_id <$> slot_rows plugin key db)) as [g|] eqn:E.
  - apply max_by_key_Some in E as [_ Hmax]. exists g. split; [done|].
    specialize (Hmax _ Hin). cbn in Hmax. by apply Z.leb_le in Hmax.
  - apply max_by_key_None in E. rewrite E in Hin. by apply not_elem_of_nil in Hin.
Qed.

Lemma generation_bound plugin key db g :
  db_ok db → (slot_state plugin key db).1 = Some g → (g < adb_next_id db)%Z.
Proof.
  intros Hok [Hin _]%max_by_key_Some. apply list_elem_of_fmap in Hin as (f & -> & (_ & _ & i & Hf)%elem_of_slot_rows).
  destruct (ok_feedback _ Hok _ _ Hf) as [-> _]. apply (feedback_id_bound db i f Hok Hf).
Qed.

(** C10. The token of a slot admits once: after an admission with it, whatever happens,
    another submission with the same token is told that the slot has changed, unless
    the admitted submission was removed. *)
Theorem token_admits_once plugin now new admission db id db1 ls now' new' admission' token :
  db_ok db → insert_admitted to_text plugin now new admission db = Ok (id, db1) →
  ad_slot admission = Some token → ad_slot admission' = Some token → LRemove id ∉ ls →
  insert_admitted to_text plugin now' new' admission' (admission_run to_text ls db1) = Err in_flight.
Proof.
  intros Hok H1 Ht Ht' Hls. pose proof (insert_admitted_ok _ _ _ _ _ _ _ Hok H1) as Hok1.
  apply insert_admitted_inv in H1 as (row & cid & Hslot & _ & _ & _ & _ & _ & Hid & Hdb).
  destruct (Hslot token Ht) as [Hpg Hstate].
  assert (∃ f, adb_feedback db1 !! id = Some f ∧ fw_submission_id f = id ∧ fw_plugin_id f = plugin
            ∧ fw_slot_key f = Some (tok_key token)) as (f & Hf & Hi & Hp & Hk).
  { rewrite Hdb. cbn [adb_feedback]. rewrite lookup_insert_eq. eexists. split; [done|]. by rewrite Ht. }
  destruct (admission_run_keeps ls db1 id f Hok1 Hls Hf) as (g & Hg & Hg1 & Hg2 & Hg3).
  destruct (generation_ge plugin (tok_key token) (admission_run to_text ls db1) id g Hg) as (gen & Hgen & Hle);
    [congruence..|].
  unfold insert_admitted, check_slot. rewrite Ht', (pg_text_storable _ Hpg). cbn [mbind result_bind].
  destruct (slot_state plugin (tok_key token) (admission_run to_text ls db1)) as [gen' pending] eqn:E.
  cbn in Hgen. subst gen'. rewrite decide_False; [done|]. intros [Heq _].
  assert ((slot_state plugin (tok_key token) db).1 = Some gen) as Hold by by rewrite Hstate.
  apply generation_bound in Hold; [|done]. lia.
Qed.

(** ** Snapshots *)

(** A row that stays, with a revision that never goes back. *)
Definition revision_reached (x : ustring * ustring) (n : Z) (t : StorageTable) : Prop :=
  ∃ row, t !! x = Some row ∧ (n ≤ ps_revision row)%Z.

Lemma reached_insert x n t k row :
  revision_reached x n t →
  (∀ old, t !! k = Some old → (ps_revision old ≤ ps_revision row)%Z) →
  revision_reached x n (<[k := row]> t).
Proof.
  intros (old & Ho & Hle) Hrow. destruct (decide (k = x)) as [-> |Hne].
  - exists row. rewrite lookup_insert_eq. split; [done|]. specialize (Hrow _ Ho). lia.
  - exists old. by rewrite lookup_insert_ne.
Qed.

Lemma store_set_reached plugin entries t t' x n :
  revision_reached x n t → store_set plugin entries t = Some t' → revision_reached x n t'.
Proof.
  unfold store_set. revert t. induction entries as [|e entries IH]; intros t Hr; [by intros [= <-]|].
  cbn [foldl mbind option_bind]. intros H.
  destruct (store_set_entry plugin t e) as [t1|] eqn:E.
  - apply (IH t1); [|done]. unfold store_set_entry in E.
    destruct (t !! (plugin, sanitize_text_field e.1)) as [row|] eqn:El.
    + destruct (ps_revision row <? i64_max)%Z; [|done]. injection E as <-.
      apply reached_insert; [done|]. intros old Ho. cbn. simplify_eq. lia.
    + injection E as <-. apply reached_insert; [done|]. intros old Ho. congruence.
  - exfalso. revert H. clear. by induction entries.
Qed.

Lemma store_cas_reached plugin key expected new rev t swapped t' x n :
  revision_reached x n t →
  store_compare_and_set to_text plugin key expected new rev t = Ok (swapped, t') → revision_reached x n t'.
Proof.
  intros Hr. unfold store_compare_and_set, compare_and_set.
  destruct (sanitize_text_field <$> expected) as [e|];
    destruct (t !! (plugin, sanitize_text_field key)) as [row|] eqn:E; try by intros [= _ <-].
  - destruct (_ || _); [by intros [= _ <-]|]. destruct (checked64 _) as [r|] eqn:Ec; [|done].
    apply checked64_Some in Ec as [-> _]. intros [= _ <-]. apply reached_insert; [done|].
    intros old Ho. cbn. simplify_eq. lia.
  - intros [= _ <-]. apply reached_insert; [done|]. intros old Ho. congruence.
Qed.

Lemma store_delete_reached plugin keys t x n :
  revision_reached x n t → (plugin = x.1 → x.2 ∉ sanitize_text_field <$> keys) →
  revision_reached x n (store_delete plugin keys t).
Proof.
  unfold store_delete. revert t. induction keys as [|k keys IH]; intros t Hr Hk; [done|]. cbn [foldl].
  apply IH.
  - destruct Hr as (row & Hrow & Hle). exists row. split; [|done]. rewrite lookup_delete_ne; [done|].
    intros <-. cbn in Hk. by destruct (proj1 (not_elem_of_cons _ _ _) (Hk eq_refl)).
  - intros Hp. specialize (Hk Hp). cbn in Hk. by apply not_elem_of_cons in Hk as [_ ?].
Qed.

(** The label does not delete the row. *)
Definition keeps_row (x : ustring * ustring) (l : AdmissionLabel) : Prop :=
  match l with LStoreDelete plugin keys => plugin = x.1 → x.2 ∉ sanitize_text_field <$> keys | _ => True end.

Lemma admission_act_reached l db x n :
  keeps_row x l → revision_reached x n (adb_storage db) →
  revision_reached x n (adb_storage (admission_act to_text l db)).
Proof.
  intros Hl Hr. destruct l; cbn [admission_act].
  - destruct (insert_admitted _ _ _ _ _ _) as [[id db']|] eqn:E; [|done].
    apply insert_admitted_inv in E as (row & cid & _ & _ & Hrow & _ & _ & _ & _ & ->). cbn [adb_storage].
    apply reached_insert; [done|]. intros old Ho. cbn. simplify_eq. lia.
  - unfold insert_submission. by destruct (_ <=? _)%Z.
  - destruct (update _ _ _ _) as [[o db']|] eqn:E; [|done].
    by apply update_inv in E as [-> |(h & o' & r & _ & _ & _ & ->)].
  - destruct (store_set _ _ _) eqn:E; [by eapply store_set_reached|done].
  - destruct (store_compare_and_set _ _ _ _ _ _ _) as [[? ?]|] eqn:E; [by eapply store_cas_reached|done].
  - by apply store_delete_reached.
  - done.
  - done.
Qed.

Lemma admission_run_reached ls db x n :
  Forall (keeps_row x) ls → revision_reached x n (adb_storage db) →
  revision_reached x n (adb_storage (admission_run to_text ls db)).
Proof.
  intros Hls. revert db. induction Hls as [|l ls Hl _ IH]; intros db Hr; [done|].
  apply IH. by apply admission_act_reached.
Qed.

(** C11. An admission and a change of the document it was decided by exclude each other:
    the document is as the plugin read it when the submission is admitted, and a
    write from a snapshot taken before fails ever after, unless the document was
    deleted in between. *)
Theorem admission_guards_document plugin db ls db0 snapshot now new admission id db1 ls' new' :
  sdk_snapshot to_text plugin (ad_guard_key admission) (adb_storage db0) = Some snapshot →
  Forall (keeps_row (plugin, ad_guard_key admission)) ls → admission_run to_text ls db0 = db →
  insert_admitted to_text plugin now new admission db = Ok (id, db1) →
  Forall (keeps_row (plugin, ad_guard_key admission)) ls' →
  sdk_get_one to_text plugin (ad_guard_key admission) (adb_storage db) = Some (ad_guard_expected_value admission)
  ∧ sdk_compare_and_set_snapshot to_text plugin (ad_guard_key admission) (Some snapshot) new'
      (adb_storage (admission_run to_text ls' db1))
    = Ok (false, adb_storage (admission_run to_text ls' db1)).
Proof.
  intros Hsn Hls Hdb H Hls'. apply insert_admitted_inv in H as (row & cid & _ & Hkey & Hrow & Htext & _ & _ & _ & Hdb1).
  unfold sdk_snapshot in Hsn. rewrite store_get_one in Hsn by done.
  destruct (adb_storage db0 !! (plugin, ad_guard_key admission)) as [row0|] eqn:E0; [|done].
  injection Hsn as Hsn. split.
  - unfold sdk_get_one. rewrite store_get_one by done. rewrite Hrow. cbn. by rewrite Htext.
  - destruct (admission_run_reached ls db0 (plugin, ad_guard_key admission) (ps_revision row0) Hls) as (row1 & Hrow1 & Hle).
    { exists row0. split; [done|lia]. }
    rewrite Hdb, Hrow in Hrow1. injection Hrow1 as <-.
    destruct (admission_run_reached ls' db1 (plugin, ad_guard_key admission) (ps_revision row + 1) Hls') as (row2 & Hrow2 & Hle2).
    { rewrite Hdb1. eexists. cbn [adb_storage]. rewrite lookup_insert_eq. split; [done|]. cbn. lia. }
    unfold sdk_compare_and_set_snapshot, store_compare_and_set, compare_and_set.
    rewrite sanitize_storable by done. cbn [fmap option_fmap option_map]. rewrite Hrow2. rewrite <- Hsn. cbn [sn_revision].
    destruct (Z.eqb_spec (ps_revision row0) (ps_revision row2)) as [Heq|Hne]; [lia|].
    by rewrite orb_true_r.
Qed.

(** ** Records *)

Lemma plugin_rows_elem plugin db f :
  f ∈ plugin_rows plugin db ↔ fw_plugin_id f = plugin ∧ ∃ i, adb_feedback db !! i = Some f.
Proof. unfold plugin_rows. rewrite elem_of_sort_by_key, list_elem_of_filter, elem_of_feedback_rows. done. Qed.

Lemma all_ids_NoDup db : db_ok db → NoDup (fw_submission_id <$> (snd <$> map_to_list (adb_feedback db))).
Proof.
  intros Hok. rewrite <- list_fmap_compose.
  assert ((fw_submission_id ∘ snd) <$> map_to_list (adb_feedback db) = fst <$> map_to_list (adb_feedback db)) as ->.
  { apply list_fmap_ext. intros _ [i f] Hin%list_elem_of_lookup_2%elem_of_map_to_list. cbn.
    by apply (ok_feedback _ Hok). }
  apply NoDup_fst_map_to_list.
Qed.

Lemma plugin_rows_NoDup plugin db : db_ok db → NoDup (fw_submission_id <$> plugin_rows plugin db).
Proof.
  intros Hok. unfold plugin_rows. rewrite sort_by_key_perm. by apply NoDup_fmap_filter, all_ids_NoDup.
Qed.

(** The rows of a plugin are known from their members and their order. *)
Lemma plugin_rows_unique plugin db l :
  db_ok db → NoDup (fw_submission_id <$> l) → StronglySorted (key_le fw_submission_id) l →
  (∀ f, f ∈ l ↔ fw_plugin_id f = plugin ∧ ∃ i, adb_feedback db !! i = Some f) →
  plugin_rows plugin db = l.
Proof.
  intros Hok Hnd Hs Hl. pose proof (plugin_rows_NoDup plugin db Hok) as Hnd'.
  apply (sorted_perm_unique fw_submission_id); [|apply sort_by_key_sorted|done|].
  - intros f g Hf Hg. by apply (NoDup_fmap_elem fw_submission_id (plugin_rows plugin db)).
  - apply NoDup_Permutation; [by eapply NoDup_fmap_1|by eapply NoDup_fmap_1|].
    intros f. by rewrite plugin_rows_elem, Hl.
Qed.

Lemma rows_by_submission plugin db id f :
  db_ok db → adb_feedback db !! id = Some f → fw_plugin_id f = plugin →
  filter (row_matches (by_submission id)) (plugin_rows plugin db) = [f].
Proof.
  intros Hok Hf Hp. destruct (ok_feedback _ Hok _ _ Hf) as [Hid _].
  pose proof (feedback_id_bound _ _ _ Hok Hf) as Hb.
  apply Permutation_singleton_r, NoDup_Permutation.
  - apply NoDup_filter. eapply NoDup_fmap_1, plugin_rows_NoDup, Hok.
  - apply NoDup_singleton.
  - intros g. rewrite list_elem_of_filter, plugin_rows_elem, list_elem_of_singleton. split.
    + intros ((_ & _ & _ & _ & Hin) & _ & j & Hg). cbn in Hin. apply list_elem_of_singleton in Hin.
      destruct (ok_feedback _ Hok _ _ Hg) as [Hj _]. assert (j = id) as -> by congruence. congruence.
    + intros ->. split; [|eauto]. unfold row_matches, by_submission; cbn. split_and!; try done; [by left|lia|].
      apply list_elem_of_singleton. congruence.
Qed.

Lemma query_one plugin db id f s :
  db_ok db → adb_feedback db !! id = Some f → fw_plugin_id f = plugin → adb_submissions db !! id = Some s →
  query plugin (by_submission id) db = Ok [record_of f s].
Proof.
  intros Hok Hf Hp Hs. unfold query. cbn [q_key q_slot_key by_submission mbind result_bind].
  rewrite (rows_by_submission plugin db id f Hok Hf Hp). destruct (ok_feedback _ Hok _ _ Hf) as [Hid _].
  cbn. unfold joined. by rewrite Hid, Hs.
Qed.

(** An update is the transition of the record. *)
Lemma update_eq plugin db id f s action :
  db_ok db → adb_feedback db !! id = Some f → fw_plugin_id f = plugin → adb_submissions db !! id = Some s →
  update plugin id action db
  = match apply_action action (record_of f s) with
    | Err e => Err (db_error e)
    | Ok (AlreadyApplied, _) => Ok (AlreadyApplied, db)
    | Ok (Applied, record) =>
        Ok (Applied, mkAdmission (adb_storage db) (adb_submissions db)
          (<[id := with_outcome (if negb (fb_withheld record) then FbReleased else FbRetired) (fb_result record) f]>
             (adb_feedback db)) (adb_next_id db))
    end.
Proof.
  intros Hok Hf Hp Hs. unfold update. rewrite Hf. cbn [mbind option_bind]. rewrite decide_True by done.
  cbn [ok_or mbind result_bind]. rewrite (query_one plugin db id f s) by done. cbn [mbind result_bind last ok_or].
  done.
Qed.

(** ** What is admitted stays hidden *)

(** The label does not publish the submission. *)
Definition keeps_hidden (plugin : ustring) (id : Z) (l : AdmissionLabel) : Prop :=
  match l with
  | LRemove i => i ≠ id
  | LFeedback p i (Release _) => p ≠ plugin ∨ i ≠ id
  | _ => True
  end.

Definition hidden (plugin : ustring) (id : Z) (db : AdmissionDb) : Prop :=
  ∃ f, adb_feedback db !! id = Some f ∧ fw_plugin_id f = plugin ∧ fw_outcome f ≠ FbReleased.

Lemma hidden_insert plugin id i g (m : gmap Z FeedbackRow) :
  (∃ f, m !! id = Some f ∧ fw_plugin_id f = plugin ∧ fw_outcome f ≠ FbReleased) →
  (i = id → fw_plugin_id g = plugin ∧ fw_outcome g ≠ FbReleased) →
  ∃ f, <[i := g]> m !! id = Some f ∧ fw_plugin_id f = plugin ∧ fw_outcome f ≠ FbReleased.
Proof.
  intros (f & Hf & Hp & Ho) Hg. destruct (decide (i = id)) as [-> |Hne].
  - exists g. rewrite lookup_insert_eq. split; [done|]. by apply Hg.
  - exists f. by rewrite lookup_insert_ne.
Qed.

Lemma feedback_act_hidden plugin id p i action db :
  db_ok db → keeps_hidden plugin id (LFeedback p i action) → hidden plugin id db →
  hidden plugin id (admission_act to_text (LFeedback p i action) db).
Proof.
  intros Hok Hk Hh. cbn [admission_act].
  destruct (update p i action db) as [[o db']|] eqn:E; [|done].
  destruct (adb_feedback db !! i) as [f|] eqn:Hf.
  2:{ unfold update in E. rewrite Hf in E. done. }
  destruct (decide (fw_plugin_id f = p)) as [Hp|Hp].
  2:{ unfold update in E. rewrite Hf in E. cbn [mbind option_bind] in E. by rewrite decide_False in E. }
  destruct (ok_feedback _ Hok _ _ Hf) as [_ [s Hs]]. rewrite (update_eq p db i f s action) in E by done.
  destruct (apply_action action (record_of f s)) as [[[] record]|] eqn:Ea; [|by injection E as _ <-|done].
  injection E as _ <-. unfold hidden in *. cbn [adb_feedback]. apply hidden_insert; [done|].
  intros ->. destruct Hh as (f0 & Hf0 & Hp0 & Ho0). assert (f0 = f) as -> by congruence. cbn. split; [done|].
  destruct action as [release|]; cbn in Hk; [naive_solver|]. cbn in Ea.
  destruct (bool_decide (fw_outcome f = FbPending ∧ is_Some (fw_slot_key f))); cbn in Ea; [|done].
  injection Ea as <-. cbn. rewrite bool_decide_eq_true_2 by done. done.
Qed.

Lemma admission_act_hidden plugin id l db :
  db_ok db → keeps_hidden plugin id l → hidden plugin id db → hidden plugin id (admission_act to_text l db).
Proof.
  intros Hok Hk Hh. destruct l; [..|]; try by apply feedback_act_hidden.
  all: cbn [admission_act].
  - destruct (insert_admitted _ _ _ _ _ _) as [[n db']|] eqn:E; [|done].
    apply insert_admitted_inv in E as (row & cid & _ & _ & _ & _ & _ & _ & -> & ->).
    unfold hidden in *. cbn [adb_feedback]. apply hidden_insert; [done|].
    intros <-. destruct Hh as (f & Hf & _). apply feedback_id_bound in Hf; [|done]. lia.
  - unfold insert_submission. by destruct (_ <=? _)%Z.
  - by destruct (store_set _ _ _).
  - by destruct (store_compare_and_set _ _ _ _ _ _ _) as [[? ?]|].
  - done.
  - done.
  - unfold hidden in *. cbn [adb_feedback]. destruct Hh as (f & Hf & Hr). exists f.
    rewrite lookup_delete_ne by done. done.
Qed.

Lemma hidden_shown plugin id db ids status :
  hidden plugin id db → id ∈ ids →
  load ids db !! id = Some Pending ∧ public_status false status id db = Running.
Proof.
  intros (f & Hf & _ & Ho) Hin. split.
  - unfold load. rewrite lookup_omap. rewrite (map_lookup_filter_Some_2 _ _ _ f); [|done|done]. cbn.
    unfold feedback_shown. by destruct (fw_outcome f).
  - unfold public_status. rewrite Hf. unfold is_withheld.
    rewrite bool_decide_eq_true_2; [done|]. destruct (fw_outcome f); [by left|by right|done].
Qed.

(** Until its plugin releases it, a submission that was admitted is shown to others as
    one that is running, whatever the judgement says. *)
Theorem admitted_stays_hidden plugin now new admission db id db1 ls ids status :
  db_ok db → insert_admitted to_text plugin now new admission db = Ok (id, db1) →
  Forall (keeps_hidden plugin id) ls → id ∈ ids →
  load ids (admission_run to_text ls db1) !! id = Some Pending
  ∧ public_status false status id (admission_run to_text ls db1) = Running.
Proof.
  intros Hok H Hls Hin. pose proof (insert_admitted_ok _ _ _ _ _ _ _ Hok H) as Hok1.
  apply (hidden_shown plugin); [|done].
  assert (hidden plugin id db1) as Hh.
  { apply insert_admitted_inv in H as (row & cid & _ & _ & _ & _ & _ & _ & -> & ->).
    eexists. cbn [adb_feedback]. rewrite lookup_insert_eq. done. }
  clear H. revert db1 Hok1 Hh. induction Hls as [|l ls Hl _ IH]; intros db1 Hok1 Hh; [done|].
  apply IH; [by apply admission_act_ok|by apply admission_act_hidden].
Qed.
End text.
