(* ===== verification/AdmissionRefines.v ===== *)
(** * AdmissionRefines: the native SDK behaves as the tables of admission

    The feedback of the native SDK ([Host]), over which the bracket is verified, is a
    list of records; the server keeps rows ([Admission]).  Queries, the observation of
    a slot and updates agree, so what is proved over the list holds over the rows. *)

From stdpp Require Import gmap.
From S2P Require Import Prelude Text Float Json Verdict Sdk Host Judging BracketGate Visibility PluginConfig Hooks PluginStorage.
From S2P Require Import Admission AdmissionProofs.

(** ** Lists *)

Lemma omap_filter {A B} (g : A → option B) (P : A → Prop) (Q : B → Prop)
    `{!∀ x, Decision (P x)} `{!∀ y, Decision (Q y)} (l : list A) :
  (∀ x y, x ∈ l → g x = Some y → P x ↔ Q y) → omap g (filter P l) = filter Q (omap g l).
Proof.
  induction l as [|x l IH]; intros HPQ; [done|]. rewrite filter_cons. cbn [omap list_omap].
  assert (omap g (filter P l) = filter Q (omap g l)) as IH' by (apply IH; intros; apply HPQ; [by right|done]).
  destruct (g x) as [y|] eqn:E.
  - rewrite filter_cons. destruct (HPQ x y ltac:(by left) E) as [H1 H2].
    destruct (decide (P x)) as [Hp|Hp].
    + rewrite decide_True by auto. cbn [omap list_omap]. by rewrite E, IH'.
    + rewrite decide_False by auto. done.
  - destruct (decide (P x)); [cbn [omap list_omap]; by rewrite E|done].
Qed.

Lemma max_perm (l l' : list Z) : l ≡ₚ l' → max_by_key id l = max_by_key id l'.
Proof.
  intros Hp. destruct (max_by_key id l) as [m|] eqn:E, (max_by_key id l') as [m'|] eqn:E'.
  - apply max_by_key_Some in E as [Hm Hmax], E' as [Hm' Hmax'].
    rewrite Hp in Hm. rewrite <- Hp in Hm'. specialize (Hmax _ Hm'). specialize (Hmax' _ Hm).
    cbn in Hmax, Hmax'. apply Z.leb_le in Hmax, Hmax'. f_equal. lia.
  - apply max_by_key_None in E'. subst. apply max_by_key_Some in E as [Hm _].
    rewrite Hp in Hm. by apply not_elem_of_nil in Hm.
  - apply max_by_key_None in E. subst. apply max_by_key_Some in E' as [Hm _].
    rewrite <- Hp in Hm. by apply not_elem_of_nil in Hm.
  - done.
Qed.

(** An update at the index of a key that occurs once. *)
Lemma insert_by_id {A} (key : A → Z) (l : list A) i n x y :
  NoDup (key <$> l) → list_find (λ z, key z = n) l = Some (i, x) →
  <[i := y]> l = (λ z, if decide (key z = n) then y else z) <$> l.
Proof.
  intros Hnd (Hi & Hx & _)%list_find_Some. apply list_eq. intros j.
  rewrite list_lookup_fmap. destruct (decide (i = j)) as [<- |Hne].
  - rewrite list_lookup_insert_eq by (by eapply lookup_lt_Some). rewrite Hi. cbn. by rewrite decide_True.
  - rewrite list_lookup_insert_ne by done. destruct (l !! j) as [z|] eqn:Hj; [|done]. cbn.
    rewrite decide_False; [done|]. intros Hz. apply Hne.
    apply (NoDup_fmap_lookup key l i j x z); congruence.
Qed.

Section refinement.
Context (plugin : ustring) (db : AdmissionDb) (Hok : db_ok db).

Definition same_feedback (db : AdmissionDb) (h : Host) : Prop :=
  h_feedback h = omap (joined db) (plugin_rows plugin db)
  ∧ h_feedback_errors h = [] ∧ h_feedback_query_errors h = [].

Lemma joined_row f :
  f ∈ plugin_rows plugin db →
  ∃ s, adb_submissions db !! fw_submission_id f = Some s ∧ joined db f = Some (record_of f s)
       ∧ adb_feedback db !! fw_submission_id f = Some f ∧ fw_plugin_id f = plugin.
Proof.
  intros (Hp & i & Hf)%plugin_rows_elem. destruct (ok_feedback _ Hok _ _ Hf) as [Hi [s Hs]].
  exists s. unfold joined. rewrite Hi, Hs. done.
Qed.

Lemma joined_ids (l : list FeedbackRow) :
  (∀ f, f ∈ l → is_Some (joined db f)) →
  fb_submission_id <$> omap (joined db) l = fw_submission_id <$> l.
Proof.
  induction l as [|f l IH]; intros H; [done|]. cbn [omap list_omap].
  destruct (H f ltac:(by left)) as [r Hr]. rewrite Hr. cbn. rewrite IH by (intros; apply H; by right).
  f_equal. unfold joined in Hr. destruct (adb_submissions db !! _); [|done]. by injection Hr as <-.
Qed.

Lemma joined_matches q f r : joined db f = Some r → row_matches q f ↔ matches_query q r.
Proof.
  unfold joined. destruct (adb_submissions db !! _) as [s|]; [|done]. intros [= <-].
  unfold row_matches, matches_query; cbn. rewrite bool_decide_eq_true.
  assert ((q_unpublished_only q = false ∨ fw_outcome f ≠ FbReleased)
          ↔ (q_unpublished_only q = true → fw_outcome f ≠ FbReleased)) as ->.
  { destruct (q_unpublished_only q); naive_solver. }
  destruct (q_key q), (q_slot_key q), (q_submission_ids q); naive_solver.
Qed.

Lemma row_of_record r :
  r ∈ omap (joined db) (plugin_rows plugin db) →
  ∃ f s, f ∈ plugin_rows plugin db ∧ r = record_of f s ∧ adb_submissions db !! fw_submission_id f = Some s
         ∧ adb_feedback db !! fw_submission_id f = Some f.
Proof.
  intros (f & Hf & Hr)%list_elem_of_omap. destruct (joined_row f Hf) as (s & Hs & Hj & Hfb & _).
  exists f, s. rewrite Hr in Hj. injection Hj as ->. done.
Qed.

Context (h : Host) (Hsame : same_feedback db h).

Lemma query_same q :
  (∀ k, q_key q = Some k → storable k) → (∀ k, q_slot_key q = Some k → storable k) →
  ∃ rs, query plugin q db = Ok rs ∧ Submissions.feedback q h = Some (Ok rs, h).
Proof.
  intros H1 H2. destruct Hsame as (Hf & _ & Hq). eexists. split.
  - unfold query. destruct (q_key q) as [k|]; [rewrite (pg_text_storable k) by auto|];
      cbn [mbind result_bind]; (destruct (q_slot_key q) as [k'|]; [rewrite (pg_text_storable k') by auto|]);
      cbn [mbind result_bind]; reflexivity.
  - unfold Submissions.feedback. rewrite Hq, Hf.
    rewrite (omap_filter (joined db) (row_matches q) (matches_query q)); [done|].
    intros f r _. apply joined_matches.
Qed.

Lemma slot_records_same key :
  Submissions.slot_records key h
  = omap (joined db) (filter (λ f, fw_slot_key f = Some key) (plugin_rows plugin db)).
Proof.
  unfold Submissions.slot_records. destruct Hsame as (-> & _). symmetry. apply omap_filter.
  intros f r _. unfold joined. destruct (adb_submissions db !! _); [|done]. by intros [= <-].
Qed.

Lemma slot_rows_perm key :
  filter (λ f, fw_slot_key f = Some key) (plugin_rows plugin db) ≡ₚ slot_rows plugin key db.
Proof.
  unfold plugin_rows. rewrite sort_by_key_perm, list_filter_filter. unfold slot_rows.
  apply reflexive_eq, list_filter_iff. naive_solver.
Qed.

Lemma held_record r key :
  r ∈ Submissions.slot_records key h → fb_slot_held r = true →
  ∃ f s, f ∈ slot_rows plugin key db ∧ fw_outcome f = FbPending ∧ r = record_of f s
         ∧ adb_submissions db !! fw_submission_id f = Some s.
Proof.
  rewrite slot_records_same. intros (f & [Hk Hf]%list_elem_of_filter & Hj)%list_elem_of_omap Hh.
  destruct (joined_row f Hf) as (s & Hs & Hj' & Hfb & Hp). rewrite Hj in Hj'. injection Hj' as ->.
  cbn in Hh. apply bool_decide_eq_true in Hh as [Ho _]. exists f, s. split_and!; try done.
  apply elem_of_slot_rows. eauto.
Qed.

Lemma record_held f s key :
  f ∈ slot_rows plugin key db → fw_outcome f = FbPending → adb_submissions db !! fw_submission_id f = Some s →
  record_of f s ∈ Submissions.slot_records key h ∧ fb_slot_held (record_of f s) = true.
Proof.
  intros Hf Ho Hs. pose proof Hf as (Hp & Hk & i & Hi)%elem_of_slot_rows. split.
  - rewrite slot_records_same. apply list_elem_of_omap. exists f. split.
    + by rewrite slot_rows_perm.
    + unfold joined. by rewrite Hs.
  - cbn. rewrite Ho, Hk. by rewrite bool_decide_eq_true.
Qed.

Lemma observe_same key :
  storable key →
  ∃ o, observe_slot plugin key db db = Ok o ∧ Submissions.observe_slot key h = Some (Ok o, h).
Proof.
  intros Hk. unfold observe_slot, Submissions.observe_slot, gets. rewrite pg_text_storable by done.
  cbn [mbind result_bind].
  assert (max_by_key id (fb_submission_id <$> Submissions.slot_records key h)
          = (slot_state plugin key db).1) as ->.
  { rewrite slot_records_same, joined_ids.
    - cbn. by apply max_perm, fmap_Permutation, slot_rows_perm.
    - intros f [_ Hf]%list_elem_of_filter. destruct (joined_row f Hf) as (s & _ & -> & _). eauto. }
  destruct (slot_state plugin key db) as [g pending] eqn:E. cbn [fst].
  destruct pending as [id|].
  - assert (∃ f, f ∈ slot_rows plugin key db ∧ fw_outcome f = FbPending ∧ id = fw_submission_id f) as (f & Hf & Ho & ->).
    { unfold slot_state in E. injection E as _ E. rewrite head_lookup in E.
      apply list_elem_of_lookup_2 in E. apply list_elem_of_fmap in E as (f & -> & [Ho Hf]%list_elem_of_filter). eauto. }
    pose proof Hf as (Hp & Hks & i & Hi)%elem_of_slot_rows. destruct (ok_feedback _ Hok _ _ Hi) as [Hid [s Hs]].
    rewrite Hid. rewrite (query_one plugin db i f s) by done. cbn [mbind result_bind].
    destruct (record_held f s key Hf Ho ltac:(congruence)) as [Hin Hheld].
    eexists. split; [reflexivity|]. f_equal. f_equal. f_equal. f_equal.
    destruct (list_find (λ r, fb_slot_held r = true) (Submissions.slot_records key h)) as [[j r]|] eqn:Ef.
    + apply list_find_Some in Ef as (Hj & Hr & _). apply list_elem_of_lookup_2 in Hj.
      destruct (held_record r key Hj Hr) as (f' & s' & Hf' & Ho' & -> & Hs').
      pose proof Hf' as (Hp' & Hks' & i' & Hi')%elem_of_slot_rows. destruct (ok_feedback _ Hok _ _ Hi') as [Hid' _].
      assert (i' = i) as -> by (eapply (ok_slot _ Hok); [exact Hi'|exact Hi|congruence|done..]).
      assert (f' = f) as -> by congruence. assert (s' = s) as -> by congruence.
      cbn [list_find]. by rewrite decide_True.
    + exfalso. apply list_find_None in Ef. rewrite Forall_forall in Ef. by apply (Ef _ Hin).
  - cbn [mbind result_bind]. eexists. split; [reflexivity|]. f_equal. f_equal. f_equal. f_equal.
    destruct (list_find _ _) as [[j r]|] eqn:Ef; [|done]. exfalso.
    apply list_find_Some in Ef as (Hj & Hr & _). apply list_elem_of_lookup_2 in Hj.
    destruct (held_record r key Hj Hr) as (f & s & Hf & Ho & _).
    pose proof Hf as (Hp & Hks & i & Hi)%elem_of_slot_rows. by apply (no_pending _ _ _ _ _ _ E Hi).
Qed.

(** ** Updates *)

Section applied.
Context (id : Z) (f : FeedbackRow) (s : Submitted) (o : FeedbackOutcome) (res : option SubmissionFeedbackResult).
Context (Hf : adb_feedback db !! id = Some f) (Hp : fw_plugin_id f = plugin).
Context (Hs : adb_submissions db !! id = Some s) (Ho : o ≠ FbPending).

Definition updated : AdmissionDb :=
  mkAdmission (adb_storage db) (adb_submissions db) (<[id := with_outcome o res f]> (adb_feedback db)) (adb_next_id db).

Lemma updated_ok : db_ok updated.
Proof.
  constructor; cbn [updated adb_feedback adb_submissions adb_next_id].
  - intros i g [[<- <-]|[Hne Hg]]%lookup_insert_Some; [cbn; by apply (ok_feedback _ Hok)|by apply (ok_feedback _ Hok)].
  - apply (ok_ids _ Hok).
  - apply (ok_next _ Hok).
  - intros i j g k key [[<- <-]|[Hne Hi]]%lookup_insert_Some [[<- <-]|[Hne' Hj]]%lookup_insert_Some;
      cbn; try done. by apply (ok_slot _ Hok).
Qed.

Definition replace_row (g : FeedbackRow) : FeedbackRow :=
  if decide (fw_submission_id g = id) then with_outcome o res f else g.

Lemma replace_row_id g : fw_submission_id (replace_row g) = fw_submission_id g.
Proof.
  unfold replace_row. case_decide as He; [|done]. cbn.
  destruct (ok_feedback _ Hok _ _ Hf) as [Hi _]. congruence.
Qed.

Lemma replace_row_member g : g ∈ plugin_rows plugin db → fw_submission_id g = id → g = f.
Proof.
  intros Hg Hi. destruct (joined_row g Hg) as (_ & _ & _ & Hfb & _). rewrite Hi in Hfb. congruence.
Qed.

Lemma updated_rows : plugin_rows plugin updated = replace_row <$> plugin_rows plugin db.
Proof.
  destruct (ok_feedback _ Hok _ _ Hf) as [Hid _]. apply plugin_rows_unique.
  - apply updated_ok.
  - rewrite <- list_fmap_compose.
    rewrite (list_fmap_ext (fw_submission_id ∘ replace_row) fw_submission_id (plugin_rows plugin db)).
    + by apply plugin_rows_NoDup.
    + intros i g _. apply replace_row_id.
  - pose proof (sort_by_key_sorted fw_submission_id
      (filter (λ f, fw_plugin_id f = plugin) (snd <$> map_to_list (adb_feedback db)))) as Hsort.
    fold (plugin_rows plugin db) in Hsort. induction Hsort as [|g l Hl IH Hg]; [constructor|].
    cbn. constructor; [exact IH|]. apply Forall_fmap. eapply Forall_impl; [exact Hg|].
    intros g' Hle. unfold key_le in *. cbn. by rewrite !replace_row_id.
  - intros g. rewrite list_elem_of_fmap. split.
    + intros (g0 & -> & Hg0). unfold replace_row. case_decide as He.
      * split; [done|]. exists id. cbn [updated adb_feedback]. by rewrite lookup_insert_eq.
      * apply plugin_rows_elem in Hg0 as (Hp0 & i & Hi). split; [done|]. exists i. cbn [updated adb_feedback].
        rewrite lookup_insert_ne; [done|]. intros <-. apply He. by apply (ok_feedback _ Hok).
    + intros (Hpg & i & Hi). cbn [updated adb_feedback] in Hi. unfold replace_row.
      apply lookup_insert_Some in Hi as [[<- <-]|[Hne Hi]].
      * exists f. rewrite decide_True by done. split; [done|]. apply plugin_rows_elem. eauto.
      * exists g. destruct (ok_feedback _ Hok _ _ Hi) as [Hgi _]. rewrite decide_False by congruence.
        split; [done|]. apply plugin_rows_elem. eauto.
Qed.

Lemma updated_records :
  omap (joined updated) (plugin_rows plugin updated)
  = (λ r, if decide (fb_submission_id r = id) then record_of (with_outcome o res f) s else r)
      <$> omap (joined db) (plugin_rows plugin db).
Proof.
  rewrite updated_rows. pose proof replace_row_member as Hrep.
  assert (∀ g, g ∈ plugin_rows plugin db → is_Some (joined db g)) as Htot.
  { intros g Hg. destruct (joined_row g Hg) as (sg & _ & -> & _). eauto. }
  revert Hrep Htot. induction (plugin_rows plugin db) as [|g l IH]; intros Hrep Htot; [done|].
  cbn [fmap list_fmap omap list_omap].
  assert (omap (joined updated) (replace_row <$> l)
          = (λ r, if decide (fb_submission_id r = id) then record_of (with_outcome o res f) s else r)
              <$> omap (joined db) l) as Hl.
  { apply IH; intros g' Hg'; [intros; apply Hrep|apply Htot]; try done; by right. }
  destruct (Htot g ltac:(by left)) as [r Hr]. rewrite Hr. unfold joined in Hr.
  destruct (adb_submissions db !! fw_submission_id g) as [sg|] eqn:Esg; [|done]. injection Hr as <-.
  unfold joined at 1. rewrite replace_row_id. cbn [updated adb_submissions]. rewrite Esg. cbn [fmap option_fmap option_map list_fmap].
  change (fb_submission_id (record_of g sg)) with (fw_submission_id g).
  unfold replace_row at 1. destruct (decide (fw_submission_id g = id)) as [He|He].
  - f_equal; [|exact Hl]. congruence.
  - f_equal. exact Hl.
Qed.
End applied.

Lemma record_ids_NoDup : NoDup (fb_submission_id <$> h_feedback h).
Proof.
  destruct Hsame as (-> & _). rewrite joined_ids; [by apply plugin_rows_NoDup|].
  intros f Hf. destruct (joined_row f Hf) as (s & _ & -> & _). eauto.
Qed.

(** The record of an applied action is the one of the row that is written. *)
Lemma applied_record action f s record :
  apply_action action (record_of f s) = Ok (Applied, record) →
  record = record_of (with_outcome (if negb (fb_withheld record) then FbReleased else FbRetired)
                        (fb_result record) f) s
  ∧ (if negb (fb_withheld record) then FbReleased else FbRetired) ≠ FbPending.
Proof.
  destruct action as [release|]; cbn [apply_action].
  - intros (x & _ & H)%result_bind_Ok. destruct (negb (fb_withheld (record_of f s))) eqn:E.
    + by destruct (same_result _ _).
    + injection H as <-. split; [|done]. unfold record_of, with_feedback_state; cbn.
      by rewrite bool_decide_eq_false_2 by naive_solver.
  - destruct (negb (fb_slot_held (record_of f s))) eqn:E; [done|]. intros [= <-].
    apply negb_false_iff in E. cbn in E. apply bool_decide_eq_true in E as [Ho Hk].
    cbn. rewrite Ho. cbn. split; [|done]. done.
Qed.

Lemma update_same i action :
  match update plugin i action db with
  | Ok (outcome, db') =>
      ∃ h', Submissions.update_feedback i action h = Some (Ok outcome, h') ∧ same_feedback db' h'
  | Err _ => ∃ e, Submissions.update_feedback i action h = Some (Err e, h)
  end.
Proof.
  pose proof Hsame as (Hfb & Herr & Hqe). unfold Submissions.update_feedback. rewrite Herr.
  destruct (list_find (λ r, fb_submission_id r = i) (h_feedback h)) as [[n r]|] eqn:Ef.
  - pose proof Ef as (Hn & Hri & _)%list_find_Some. apply list_elem_of_lookup_2 in Hn.
    rewrite Hfb in Hn. apply row_of_record in Hn as (f & s & Hrow & -> & Hs & Hfw). cbn in Hri. rewrite Hri in Hs, Hfw.
    pose proof Hrow as (Hp & _)%plugin_rows_elem. rewrite (update_eq plugin db i f s action) by done.
    destruct (apply_action action (record_of f s)) as [[[] record]|e] eqn:Ea; [| |eauto].
    + destruct (applied_record _ _ _ _ Ea) as [Hrec Hne].
      eexists. split; [reflexivity|]. split_and!; [|done..]. cbn [with_feedback h_feedback].
      rewrite (insert_by_id fb_submission_id (h_feedback h) n i _ record record_ids_NoDup Ef).
      symmetry. change (omap (joined (updated i f (if negb (fb_withheld record) then FbReleased else FbRetired) (fb_result record)))
        (plugin_rows plugin (updated i f (if negb (fb_withheld record) then FbReleased else FbRetired) (fb_result record)))
        = (λ z, if decide (fb_submission_id z = i) then record else z) <$> h_feedback h).
      rewrite (updated_records i f s _ _ Hfw Hp Hs Hne), <- Hrec. by rewrite Hfb.
    + eexists. split; [reflexivity|]. split_and!; [|done..]. cbn [with_feedback h_feedback].
      assert (record = record_of f s) as ->.
      { destruct action as [release|]; cbn [apply_action] in Ea.
        - apply result_bind_Ok in Ea as (x & _ & Ea). destruct (negb _); [|done].
          destruct (same_result _ _); [|done]. by injection Ea.
        - destruct (negb _); [|done]. by injection Ea. }
      pose proof Ef as (Hn' & _)%list_find_Some. by rewrite list_insert_id.
  - assert (update plugin i action db = Err (db_error (u "Feedback record not found for this plugin"))) as ->; [|eauto].
    unfold update. destruct (adb_feedback db !! i) as [f|] eqn:Hf; [|done]. cbn [mbind option_bind].
    destruct (decide (fw_plugin_id f = plugin)) as [Hp|]; [|done]. exfalso.
    assert (f ∈ plugin_rows plugin db) as Hrow by (apply plugin_rows_elem; eauto).
    destruct (joined_row f Hrow) as (s & _ & Hj & _). destruct (ok_feedback _ Hok _ _ Hf) as [Hi _].
    apply list_find_None in Ef. rewrite Forall_forall in Ef. rewrite Hfb in Ef.
    apply (Ef (record_of f s)); [apply list_elem_of_omap; eauto|done].
Qed.
End refinement.

(** C25. The native SDK behaves as the tables of the server: its queries, its observations
    of slots and its updates of feedback give what the rows of the plugin give, and
    fail when they fail. *)
Theorem feedback_refines plugin db h :
  db_ok db → same_feedback plugin db h →
  (∀ q, (∀ k, q_key q = Some k → storable k) → (∀ k, q_slot_key q = Some k → storable k) →
     ∃ rs, query plugin q db = Ok rs ∧ Submissions.feedback q h = Some (Ok rs, h))
  ∧ (∀ key, storable key →
     ∃ o, observe_slot plugin key db db = Ok o ∧ Submissions.observe_slot key h = Some (Ok o, h))
  ∧ (∀ i action,
     match update plugin i action db with
     | Ok (outcome, db') =>
         ∃ h', Submissions.update_feedback i action h = Some (Ok outcome, h') ∧ same_feedback plugin db' h'
     | Err _ => ∃ e, Submissions.update_feedback i action h = Some (Err e, h)
     end).
Proof.
  intros Hok Hs. split_and!.
  - intros. by apply query_same.
  - intros. by apply observe_same.
  - intros. by apply update_same.
Qed.

(** ** A match with two players *)

Definition ad_to_text (v : Value) : ustring := u "null".

Definition ad_plugin : ustring := u "bracket".

Definition ad_start : AdmissionDb :=
  mkAdmission {[ (ad_plugin, u "match:1") := {| ps_data := VString (u "open"); ps_revision := 3 |} ]} ∅ ∅ 1.

Lemma ad_start_ok : db_ok ad_start.
Proof. constructor; cbn; try lia; intros ? ?; rewrite lookup_empty; done. Qed.

Definition ad_new (user : Z) : Submitted := {|
  sd_user_id := user; sd_problem_id := 7; sd_contest_id := Some 5%Z; sd_contest_type := u "bracket";
  sd_language := u "cpp"; sd_files := []; sd_created_at := 0; sd_status := Queued; sd_verdict := None |}.

Definition ad_token (user generation : option Z) : SubmissionSlotToken := {|
  tok_key := u "slot:" ++ match user with Some z => show z | None => [] end; tok_generation := generation |}.

Definition ad_admission (user : Z) (generation : option Z) : SubmissionAdmission := {|
  ad_guard_key := u "match:1"; ad_guard_expected_value := u "open"; ad_feedback_key := u "match:1";
  ad_metadata := u "{}"; ad_slot := Some (ad_token (Some user) generation); ad_latest_arrival_ms := Some 9000%Z |}.

(** Player 3 submits, player 4 submits, player 3 loses the slot and submits again. *)
Definition ad_script : list AdmissionLabel :=
  [LAdmit ad_plugin 1000 (ad_new 3) (ad_admission 3 None);
   LAdmit ad_plugin 2000 (ad_new 4) (ad_admission 4 None);
   LAdmit ad_plugin 3000 (ad_new 3) (ad_admission 3 (Some 1%Z));
   LFeedback ad_plugin 1 ReleaseSlot;
   LAdmit ad_plugin 4000 (ad_new 3) (ad_admission 3 (Some 1%Z));
   LJudge 1 Judged (Some Accepted)].

Abbreviation ad_end := (admission_run ad_to_text ad_script ad_start).

Definition ad_row (user : Z) (outcome : FeedbackOutcome) (id : Z) : FeedbackRow := {|
  fw_submission_id := id; fw_contest_id := 5; fw_user_id := user; fw_plugin_id := ad_plugin;
  fw_state_key := u "match:1"; fw_metadata := u "{}"; fw_slot_key := Some (tok_key (ad_token (Some user) None));
  fw_outcome := outcome; fw_public_result := None |}.

(** The third attempt was refused: its token was that of the slot before it was lost. *)
Lemma ad_end_feedback :
  adb_feedback ad_end = list_to_map [(1%Z, ad_row 3 FbRetired 1); (2%Z, ad_row 4 FbPending 2); (3%Z, ad_row 3 FbPending 3)].
Proof. by vm_compute. Qed.

Lemma ad_end_third : adb_feedback ad_end !! 3%Z = Some (ad_row 3 FbPending 3).
Proof. by rewrite ad_end_feedback. Qed.

Lemma slot_held_once_witness :
  adb_feedback ad_end !! 3%Z = Some (ad_row 3 FbPending 3) ∧ 3%Z = 3%Z.
Proof.
  split; [exact ad_end_third|].
  exact (slot_held_once ad_to_text ad_script ad_start 3 3 (ad_row 3 FbPending 3) (ad_row 3 FbPending 3) _
           ad_start_ok ad_end_third ad_end_third eq_refl eq_refl eq_refl eq_refl eq_refl).
Defined.

Definition ad_first : AdmissionDb :=
  admission_act ad_to_text (LAdmit ad_plugin 1000 (ad_new 3) (ad_admission 3 None)) ad_start.

Lemma ad_first_eq :
  insert_admitted ad_to_text ad_plugin 1000 (ad_new 3) (ad_admission 3 None) ad_start = Ok (1%Z, ad_first).
Proof. vm_compute. reflexivity. Qed.

(** Player 3 submits again with the token of the first submission. *)
Lemma token_admits_once_witness :
  insert_admitted ad_to_text ad_plugin 5000 (ad_new 3) (ad_admission 3 None)
    (admission_run ad_to_text (tail ad_script) ad_first) = Err in_flight.
Proof.
  refine (token_admits_once ad_to_text ad_plugin 1000 (ad_new 3) (ad_admission 3 None) ad_start 1 ad_first
            (tail ad_script) 5000 (ad_new 3) (ad_admission 3 None) (ad_token (Some 3%Z) None)
            ad_start_ok ad_first_eq eq_refl eq_refl _).
  apply not_elem_of_cons. split; [done|]. repeat (apply not_elem_of_cons; split; [done|]). apply not_elem_of_nil.
Defined.

Definition ad_snapshot : StorageSnapshot := {| sn_value := u "open"; sn_revision := 3 |}.

(** A match that was read before the first submission cannot be written after it. *)
Lemma admission_guards_document_witness :
  sdk_get_one ad_to_text ad_plugin (u "match:1") (adb_storage ad_start) = Some (u "open")
  ∧ sdk_compare_and_set_snapshot ad_to_text ad_plugin (u "match:1") (Some ad_snapshot) (u "closed")
      (adb_storage (admission_run ad_to_text (tail ad_script) ad_first))
    = Ok (false, adb_storage (admission_run ad_to_text (tail ad_script) ad_first)).
Proof.
  refine (admission_guards_document ad_to_text ad_plugin ad_start [] ad_start ad_snapshot 1000 (ad_new 3)
            (ad_admission 3 None) 1 ad_first (tail ad_script) (u "closed") _ _ eq_refl ad_first_eq _).
  - by vm_compute.
  - constructor.
  - by repeat constructor.
Defined.

(** The judgement of the first submission says accepted, and nobody is shown it. *)
Lemma admitted_stays_hidden_witness :
  load [1%Z] (admission_run ad_to_text (tail ad_script) ad_first) !! 1%Z = Some Pending
  ∧ public_status false Judged 1 (admission_run ad_to_text (tail ad_script) ad_first) = Running.
Proof.
  refine (admitted_stays_hidden ad_to_text ad_plugin 1000 (ad_new 3) (ad_admission 3 None) ad_start 1 ad_first
            (tail ad_script) [1%Z] Judged ad_start_ok ad_first_eq _ _).
  - by repeat constructor.
  - by left.
Defined.

Definition ad_host (records : list SubmissionFeedbackRecord) : Host := {|
  h_data := ∅; h_revisions := ∅; h_timers := ∅; h_cancelled := []; h_now := 0; h_contests := ∅;
  h_submissions := []; h_feedback := records; h_feedback_actions := []; h_feedback_errors := [];
  h_feedback_query_errors := []; h_updates := []; h_update_results := []; h_log := []; h_results := [];
  h_insert_errors := []; h_detached := []; h_start_errors := [] |}.

Lemma ad_end_ok : db_ok ad_end.
Proof. apply admission_run_ok, ad_start_ok. Qed.

Definition ad_end_host : Host := ad_host (omap (joined ad_end) (plugin_rows ad_plugin ad_end)).

Lemma ad_end_same : same_feedback ad_plugin ad_end ad_end_host.
Proof. by split_and!. Qed.

(** Losing the slot of the first submission again. *)
Lemma feedback_refines_witness :
  (∃ o, observe_slot ad_plugin (u "slot:3") ad_end ad_end = Ok o
     ∧ Submissions.observe_slot (u "slot:3") ad_end_host = Some (Ok o, ad_end_host))
  ∧ match update ad_plugin 1 ReleaseSlot ad_end with
     | Ok (outcome, db') =>
         ∃ h', Submissions.update_feedback 1 ReleaseSlot ad_end_host = Some (Ok outcome, h') ∧ same_feedback ad_plugin db' h'
     | Err _ => ∃ e, Submissions.update_feedback 1 ReleaseSlot ad_end_host = Some (Err e, ad_end_host)
     end.
Proof.
  destruct (feedback_refines ad_plugin ad_end ad_end_host ad_end_ok ad_end_same) as (_ & Ho & Hu).
  split; [refine (Ho (u "slot:3") _)|exact (Hu 1%Z ReleaseSlot)]. by unfold storable; apply (bool_decide_unpack _); vm_compute.
Defined.
