(* ===== verification/Intake.v ===== *)
(** * Intake: how the server accepts a submission

    packages/server/src/handlers/submission/mod.rs ([create_submission],
    [create_contest_submission]) with its checks: the payload and its contract
    (utils/judging.rs, utils/filename.rs), the rate of a user (utils/rate_limit.rs), the
    depth of the queue (dispatcher/queue_depth.rs), the contest and its participants
    (utils/contest.rs), and the hooks (handlers/submission/dispatch.rs).

    The tables and the plugins are a world [W], which the hooks change; times are in
    microseconds. *)

From stdpp Require Import gmap.
From S2P Require Import Prelude Text Float Json Verdict Sdk Host Judging BracketGate Visibility HostRules PluginConfig Hooks.
From S2P Require Import PluginStorage Admission.

(** ** The payload *)

(** [validate_flat_filename]: the name without the white space around it. *)
Definition is_ascii_control (c : Z) : bool := ((0 <=? c) && (c <? 32))%Z || (c =? 127)%Z.

Definition starts_with_char (c : Z) (s : ustring) : bool :=
  match s with x :: _ => (x =? c)%Z | [] => false end.

Definition validate_flat_filename (filename : ustring) : result ustring ustring :=
  let trimmed := trim filename in
  if decide (trimmed = []) then Err (u "Filename cannot be empty")
  else if bool_decide (0%Z ∈ trimmed) then Err (u "Invalid filename: null bytes are not allowed")
  else if existsb is_ascii_control trimmed then Err (u "Invalid filename: control characters are not allowed")
  else if bool_decide (47%Z ∈ trimmed) || bool_decide (92%Z ∈ trimmed) then
    Err (u "Invalid filename: path separators are not allowed")
  else if decide (trimmed = u "..") then Err (u "Invalid filename: '..' is not allowed")
  else if starts_with_char 46 trimmed then
    Err (u "Invalid filename: hidden files (starting with '.') are not allowed")
  else if starts_with_char 45 trimmed then Err (u "Invalid filename: cannot start with '-'")
  else Ok trimmed.

Definition byte_len (s : ustring) : Z := Z.of_nat (str_len s).

Definition sat_usize (z : Z) : Z := Z.min u64_max z.

(** The loop over the files: the size of those before, and the names seen. *)
Fixpoint check_files (files : list (ustring * ustring)) (total : Z) (seen : list ustring) : result AppError Z :=
  match files with
  | [] => Ok total
  | (filename, content) :: files =>
      match validate_flat_filename filename with
      | Err e => Err (Validation e)
      | Ok name =>
          if decide (name ∈ seen) then Err (Validation (u "Duplicate filename: '" ++ name ++ u "'"))
          else if decide (content = []) then Err (Validation (u "File '" ++ name ++ u "' cannot be empty"))
          else check_files files (sat_usize (total + byte_len content)) (name :: seen)
      end
  end.

Definition validate_code_payload (files : list (ustring * ustring)) (language : ustring) (max_size : Z)
    : result AppError () :=
  if decide (files = []) then Err (Validation (u "At least one file is required"))
  else if decide (trim language = []) then Err (Validation (u "Language is required"))
  else
    total ← check_files files 0 [];
    if (max_size <? total)%Z then
      Err (Validation (u "Total code size (" ++ show total ++ u " bytes) exceeds maximum (" ++ show max_size
                         ++ u " bytes)"))
    else Ok tt.

Definition validate_submission_contract (files : list (ustring * ustring)) (language : ustring)
    (submission_format : option (gmap ustring (list ustring))) (known_languages : gset ustring)
    : result AppError () :=
  let language := trim language in
  if decide (known_languages ≠ ∅ ∧ language ∉ known_languages) then
    Err (Validation (u "Unsupported language: " ++ language))
  else
    match submission_format with
    | None => Ok tt
    | Some format =>
        if decide (format = ∅) then Ok tt
        else
          expected ← ok_or (format !! language)
            (Validation (u "Language '" ++ language ++ u "' is not allowed for this problem"));
          let expected := sort_by_key id expected in
          let actual := sort_by_key id ((λ f, trim f.1) <$> files) in
          if decide (actual = expected) then Ok tt
          else Err (Validation (u "Files for language '" ++ language ++ u "' must exactly match: "
                                  ++ join (u ", ") expected))
    end.

Definition files_to_json (files : list (ustring * ustring)) : list (ustring * ustring) :=
  (λ f, (sanitize_text_field (trim f.1), sanitize_text_field f.2)) <$> files.

(** ** The rate of a user *)

Definition MINUTE : Z := 60000000.

(** [Duration::num_seconds]: toward zero. *)
Definition num_seconds (us : Z) : Z := Z.quot us 1000000.

(** The times of the rows of the user in the last minute. *)
Definition recent (now : Z) (times : list Z) : list Z := filter (λ t, (now - MINUTE < t)%Z) times.

Definition check_rate_limit (submissions code_runs : list Z) (limit_per_minute now : Z) : result AppError () :=
  if (limit_per_minute =? 0)%Z then Ok tt
  else
    let subs := recent now submissions in
    let runs := recent now code_runs in
    let count := Z.of_nat (length subs + length runs) in
    if (limit_per_minute <=? count)%Z then
      let oldest_created_at :=
        match min_by_key id subs, min_by_key id runs with
        | Some a, Some b => Some (Z.min a b)
        | Some a, None => Some a
        | None, b => b
        end in
      let retry_after :=
        match oldest_created_at with
        | Some t => Z.max (num_seconds (t + MINUTE - now)) 1
        | None => 60%Z
        end in
      Err (RateLimited retry_after)
    else Ok tt.

(** ** The depth of the queue *)

Definition RETRY_AFTER_SECS : Z := 2.

Definition enforce_queue_depth_admission (cap depth : Z) : result AppError () :=
  if (cap =? 0)%Z then Ok tt
  else if (cap <=? depth)%Z then Err (Overloaded RETRY_AFTER_SECS)
  else Ok tt.

(** ** The contest *)

Record AuthUser := {
  au_user_id : Z;
  au_permissions : list ustring;
}.

Definition has_permission (user : AuthUser) (permission : ustring) : bool :=
  existsb (λ p, bool_decide (p = permission)) (au_permissions user).

Definition require_permission (user : AuthUser) (permission : ustring) : result AppError () :=
  if has_permission user permission then Ok tt else Err PermissionDenied.

Definition SUBMISSION_SUBMIT : ustring := u "submission:submit".

Record Contest := {
  cn_activate_time : option Z;
  cn_deactivate_time : option Z;
  cn_start_time : Z;
  cn_end_time : Z;
  cn_is_public : bool;
  cn_contest_type : option ustring;
}.

Definition required_contest_type (contest : Contest) : result AppError ustring :=
  ok_or (cn_contest_type contest)
    (Conflict (u "This contest has no contest type. An admin must set one before it accepts submissions.")).

Definition is_inactive (contest : Contest) (now : Z) : bool :=
  match cn_activate_time contest with None => true | Some at_ => (now <? at_)%Z end
  || match cn_deactivate_time contest with None => false | Some dt => (dt <=? now)%Z end.

Definition require_contest_running (user : AuthUser) (contest : Contest) (now : Z) : result AppError () :=
  if has_permission user CONTEST_MANAGE then Ok tt
  else if is_inactive contest now then Err (NotFound (u "Contest not found"))
  else if (now <? cn_start_time contest)%Z then Err (Validation (u "Contest has not started yet"))
  else if (cn_end_time contest <=? now)%Z then Err (Validation (u "Contest has already ended"))
  else Ok tt.

Definition require_contest_participant (user : AuthUser) (contest : Contest) (is_participant : bool)
    : result AppError () :=
  if has_permission user CONTEST_MANAGE then Ok tt
  else if is_participant then Ok tt
  else if cn_is_public contest then Err PermissionDenied
  else Err (NotFound (u "Contest not found")).

(** ** The admission a hook gives *)

(** A text with a default of none. *)
Definition opt_i64 (v : Value) : option (option Z) :=
  match v with VNull => Some None | v => Some <$> as_int i64_min i64_max v end.

Definition decode_token (v : Value) : option SubmissionSlotToken :=
  let token := λ key generation : option Value,
    key ← key ≫= as_str; generation ← defaulted None opt_i32 generation;
    Some {| tok_key := key; tok_generation := generation |} in
  match v with
  | VObject fs => token (field (u "key") fs) (field (u "generation") fs)
  | VArray [key; generation] => token (Some key) (Some generation)
  | _ => None
  end.

Definition opt_token (v : Value) : option (option SubmissionSlotToken) :=
  match v with VNull => Some None | v => Some <$> decode_token v end.

(** The key and the value of the guard. *)
Definition decode_guard (v : Value) : option (ustring * ustring) :=
  let guard := λ key value : option Value, key ← key ≫= as_str; value ← value ≫= as_str; Some (key, value) in
  match v with
  | VObject fs => guard (field (u "key") fs) (field (u "expected_value") fs)
  | VArray [key; value] => guard (Some key) (Some value)
  | _ => None
  end.

Section text.
(** [to_string] and [from_slice] of [serde_json]. *)
Context (to_text : Value → ustring) (of_text : ustring → result ustring Value).

Definition admission_of (guard feedback_key metadata slot latest_arrival_ms : option Value)
    : option SubmissionAdmission :=
  guard ← guard ≫= decode_guard;
  feedback_key ← feedback_key ≫= as_str;
  metadata ← metadata;
  slot ← defaulted None opt_token slot;
  latest_arrival_ms ← defaulted None opt_i64 latest_arrival_ms;
  Some {| ad_guard_key := guard.1; ad_guard_expected_value := guard.2; ad_feedback_key := feedback_key;
          ad_metadata := to_text metadata; ad_slot := slot; ad_latest_arrival_ms := latest_arrival_ms |}.

Definition decode_admission (v : Value) : option SubmissionAdmission :=
  match v with
  | VObject fs =>
      admission_of (field (u "guard") fs) (field (u "feedback_key") fs) (field (u "metadata") fs)
        (field (u "slot") fs) (field (u "latest_arrival_ms") fs)
  | VArray [guard; feedback_key; metadata; slot; latest_arrival_ms] =>
      admission_of (Some guard) (Some feedback_key) (Some metadata) (Some slot) (Some latest_arrival_ms)
  | _ => None
  end.

Definition dispatch_before_submission_hooks {W} (registry : HookRegistry W)
    (enabled_plugins : option ResourceEnablements) (admission_owner : option ustring)
    (event : BeforeSubmissionEvent) (w : W) : result AppError (option SubmissionAdmission) * W :=
  let '(outcome, w) := dispatch_submission_hooks of_text registry enabled_plugins admission_owner event w in
  (match outcome with
   | Err e => Err e
   | Ok (Allowed payload) =>
       match get ADMISSION payload with
       | None => Ok None
       | Some v => Some <$> ok_or (decode_admission v) (Internal (u "Invalid submission admission"))
       end
   | Ok Stopped => Ok None
   | Ok (Rejected code message status_code details) => Err (PluginRejection code message status_code details)
   end, w).

(** ** The handlers *)

Record CreateSubmissionRequest := {
  cr_files : list (ustring * ustring);
  cr_language : ustring;
  cr_contest_type : option ustring;
}.

Record Problem := {
  pr_submission_format : option (gmap ustring (list ustring));
  pr_default_contest_type : ustring;
}.

(** What a request reads besides the tables of [Admission]. *)
Record IntakeTables := {
  it_code_runs : gmap Z (Z * Z);
  it_queued : Z;
  it_contests : gmap Z Contest;
  it_participants : gset (Z * Z);
  it_problems : gmap Z Problem;
  it_config : ConfigTable;
}.

Record IntakeConfig := {
  ic_max_size : Z;
  ic_rate_limit_per_minute : Z;
  ic_max_queued_submissions : Z;
}.

Section handlers.
Context {W : Type} (tables : W → IntakeTables) (adm : W → AdmissionDb) (set_adm : AdmissionDb → W → W).
Context (clock : W → Z).
(** The decision of the visibility kernel: whether the problem is denied. *)
Context (denied : AuthUser → option Z → Z → W → result AppError bool).
Context (config : IntakeConfig) (known_languages : gset ustring).
Context (contest_types : gmap ustring ContestTypeHandlers) (registry : HookRegistry W).

Definition user_submissions (user_id : Z) (w : W) : list Z :=
  omap (λ x : Z * Submitted, if decide (sd_user_id x.2 = user_id) then Some (sd_created_at x.2) else None)
    (map_to_list (adb_submissions (adm w))).

Definition user_code_runs (user_id : Z) (w : W) : list Z :=
  omap (λ ir : Z * (Z * Z), if decide (ir.2.1 = user_id) then Some ir.2.2 else None)
    (map_to_list (it_code_runs (tables w))).

(** The queued submissions and judgements and code runs. *)
Definition queue_depth (w : W) : Z :=
  Z.of_nat (length (filter (λ x : Z * Submitted, sd_status x.2 = Queued)
    (map_to_list (adb_submissions (adm w))))) + it_queued (tables w).

(** The checks both handlers begin with. *)
Definition admit_request (user : AuthUser) (req : CreateSubmissionRequest) (w : W) : result AppError () :=
  require_permission user SUBMISSION_SUBMIT;;
  validate_code_payload (cr_files req) (cr_language req) (ic_max_size config);;
  check_rate_limit (user_submissions (au_user_id user) w) (user_code_runs (au_user_id user) w)
    (ic_rate_limit_per_minute config) (clock w);;
  enforce_queue_depth_admission (ic_max_queued_submissions config) (queue_depth w).

Definition new_submission (user : AuthUser) (problem_id : Z) (contest_id : option Z) (contest_type : ustring)
    (req : CreateSubmissionRequest) (now : Z) : Submitted := {|
  sd_user_id := au_user_id user; sd_problem_id := problem_id; sd_contest_id := contest_id;
  sd_contest_type := contest_type; sd_language := trim (cr_language req); sd_files := files_to_json (cr_files req);
  sd_created_at := now; sd_status := Queued; sd_verdict := None |}.

Definition before_event (user : AuthUser) (problem_id : Z) (contest_id : option Z) (contest_type : ustring)
    (req : CreateSubmissionRequest) : BeforeSubmissionEvent := {|
  bs_user_id := au_user_id user; bs_problem_id := problem_id; bs_contest_id := contest_id;
  bs_language := trim (cr_language req); bs_file_count := Z.of_nat (length (cr_files req));
  bs_contest_type := contest_type |}.

(** Store what a transaction returned. *)
Definition stored (r : result AppError (Z * AdmissionDb)) (w : W) : result AppError Z * W :=
  match r with
  | Ok (id, db) => (Ok id, set_adm db w)
  | Err e => (Err e, w)
  end.

(** Everything that is checked before the hooks: the type of the contest, and the clock
    at the time. *)
Definition check_contest_request (user : AuthUser) (contest_id problem_id : Z) (req : CreateSubmissionRequest)
    (w : W) : result AppError (ustring * Z) :=
  admit_request user req w;;
  contest ← ok_or (it_contests (tables w) !! contest_id) (NotFound (u "Contest not found"));
  problem ← ok_or (it_problems (tables w) !! problem_id) (NotFound (u "Problem not found"));
  is_denied ← denied user (Some contest_id) problem_id w;
  if is_denied : bool then Err (NotFound (u "Problem not found in this contest"))
  else
    let now := clock w in
    require_contest_running user contest now;;
    require_contest_participant user contest (bool_decide ((contest_id, au_user_id user) ∈ it_participants (tables w)));;
    validate_submission_contract (cr_files req) (cr_language req) (pr_submission_format problem) known_languages;;
    contest_type ← required_contest_type contest;
    Ok (contest_type, now).

Definition column_of (w : W) (contest_id : Z) : option ustring :=
  it_contests (tables w) !! contest_id ≫= cn_contest_type.

(** [db_now]: the clock of the database at the insertion.  The reads before the hooks
    see one state; the hooks may change it, and so may others during them. *)
Definition create_contest_submission (user : AuthUser) (contest_id problem_id : Z) (req : CreateSubmissionRequest)
    (w : W) : result AppError Z * W :=
  match check_contest_request user contest_id problem_id req w with
  | Err e => (Err e, w)
  | Ok (contest_type, now) =>
      let enabled_plugins :=
        resource_enablements contest_types (column_of w) (it_config (tables w)) problem_id (Some contest_id) in
      let handler := contest_types !! contest_type in
      let admission_owner :=
        match handler with
        | Some h => if ch_submission_admission h then Some (ch_plugin_id h) else None
        | None => None
        end in
      let '(admission, w) := dispatch_before_submission_hooks registry (Some enabled_plugins) admission_owner
        (before_event user problem_id (Some contest_id) contest_type req) w in
      match admission with
      | Err e => (Err e, w)
      | Ok admission =>
          let new := new_submission user problem_id (Some contest_id) contest_type req now in
          match admission_owner, admission with
          | Some plugin_id, Some admission =>
              stored (insert_admitted to_text plugin_id (clock w) new admission (adm w)) w
          | Some _, None => (Err (Internal (u "Contest plugin did not provide submission admission")), w)
          | None, Some _ => (Err (Internal (u "Unexpected submission admission")), w)
          | None, None => stored (insert_submission new (adm w)) w
          end
      end
  end.

Definition validate_contest_type (contest_type : ustring) : result AppError () :=
  if decide (is_Some (contest_types !! contest_type)) then Ok tt
  else Err (Validation (u "contest_type must be one of: "
              ++ join (u ", ") (sort_by_key id ((map_to_list contest_types).*1)))).

Definition check_practice_request (user : AuthUser) (problem_id : Z) (req : CreateSubmissionRequest) (w : W)
    : result AppError ustring :=
  admit_request user req w;;
  problem ← ok_or (it_problems (tables w) !! problem_id) (NotFound (u "Problem not found"));
  is_denied ← denied user None problem_id w;
  if is_denied : bool then Err (NotFound (u "Problem not found"))
  else
    validate_submission_contract (cr_files req) (cr_language req) (pr_submission_format problem) known_languages;;
    match cr_contest_type req with
    | Some ct => validate_contest_type ct;; Ok ct
    | None => Ok (pr_default_contest_type problem)
    end.

(** The admission a hook gives is dropped: there is no owner. *)
Definition create_submission (user : AuthUser) (problem_id : Z) (req : CreateSubmissionRequest) (w : W)
    : result AppError Z * W :=
  match check_practice_request user problem_id req w with
  | Err e => (Err e, w)
  | Ok contest_type =>
      let enabled_plugins :=
        resource_enablements contest_types (column_of w) (it_config (tables w)) problem_id None in
      let '(admission, w) := dispatch_before_submission_hooks registry (Some enabled_plugins) None
        (before_event user problem_id None contest_type req) w in
      match admission with
      | Err e => (Err e, w)
      | Ok _ => stored (insert_submission (new_submission user problem_id None contest_type req (clock w)) (adm w)) w
      end
  end.
End handlers.
End text.
