(* ===== verification/IntakeProofs.v ===== *)
(** * IntakeProofs: what a stored submission has passed

    A submission that a contest stores passed every check of its handler, and where the
    type of the contest admits submissions the admission is one the plugin that owns it
    gave; its files have flat names of their own; and what the limit of a user's rate
    answers is when trying again is worth it. *)

From stdpp Require Import strings.
From stdpp Require Import gmap.
From S2P Require Import Prelude Text Float Json Verdict Sdk Host Judging BracketGate Visibility HostRules PluginConfig Hooks.
From S2P Require Import PluginStorage HooksProofs Admission AdmissionProofs Intake.
From S2P Require Import HooksExamples AdmissionRefines.

(** ** Files *)

(** A name that is a file of the directory it is put in. *)
Definition flat_name (name : ustring) : Prop :=
  name ≠ [] ∧ (∀ c, c ∈ name → is_ascii_control c = false ∧ c ≠ 47%Z ∧ c ≠ 92%Z)
  ∧ head name ≠ Some 46%Z ∧ head name ≠ Some 45%Z.

Lemma validate_flat_filename_Ok filename name :
  validate_flat_filename filename = Ok name → name = trim filename ∧ flat_name name.
Proof.
  unfold validate_flat_filename. case_decide as H1; [done|]. case_bool_decide as H2; [done|].
  destruct (existsb _ _) eqn:H3; [done|]. do 2 case_bool_decide; try done. cbn [orb].
  case_decide; [done|]. destruct (starts_with_char 46 _) eqn:H7; [done|].
  destruct (starts_with_char 45 _) eqn:H8; [done|]. intros [= <-]. split; [done|]. split_and!; [done|..].
  - intros c Hc. split_and!; [|congruence..]. destruct (is_ascii_control c) eqn:E; [|done].
    rewrite <- H3. symmetry. apply existsb_exists. exists c. split; [by apply list_elem_of_In|done].
  - intros Hh. destruct (trim filename); [done|]. injection Hh as ->. done.
  - intros Hh. destruct (trim filename); [done|]. injection Hh as ->. done.
Qed.

Lemma flat_name_sanitized name : flat_name name → sanitize_text_field name = name.
Proof.
  intros (_ & Hc & _). unfold sanitize_text_field. rewrite <- (list_fmap_id name) at 2.
  apply list_fmap_ext. intros i c Hi. destruct (Hc c) as (Hz & _); [by eapply list_elem_of_lookup_2|].
  destruct (c =? 0)%Z eqn:E; [|done]. apply Z.eqb_eq in E as ->. done.
Qed.

Definition total_len (files : list (ustring * ustring)) : Z := Z.of_nat (sum_list_with (λ f, str_len f.2) files).

Lemma sat_usize_add a b : (0 ≤ b)%Z → sat_usize (sat_usize a + b) = sat_usize (a + b).
Proof. unfold sat_usize. lia. Qed.

Lemma check_files_Ok files total seen total' :
  check_files files (sat_usize total) seen = Ok total' →
  (∀ name, name ∈ trim ∘ fst <$> files → flat_name name ∧ name ∉ seen)
  ∧ NoDup (trim ∘ fst <$> files) ∧ Forall (λ f, f.2 ≠ []) files
  ∧ total' = sat_usize (total + total_len files).
Proof.
  revert total seen. induction files as [|[filename content] files IH]; intros total seen; cbn [check_files].
  { intros [= <-]. split_and!; [by intros ? ?%not_elem_of_nil|constructor..|]. unfold total_len. cbn. f_equal. lia. }
  destruct (validate_flat_filename filename) as [name|] eqn:Hv; [|done].
  apply validate_flat_filename_Ok in Hv as [-> Hflat].
  case_decide as Hseen; [done|]. case_decide as Hne; [done|].
  rewrite sat_usize_add by (unfold byte_len; lia). intros (Hin & Hnd & Hall & ->)%IH. split_and!.
  - intros name [->|Hn]%elem_of_cons; [done|]. destruct (Hin name Hn) as [? Hs]. split; [done|].
    intros Hs'. apply Hs. by right.
  - cbn. constructor; [|done]. intros Hn. destruct (Hin _ Hn) as [_ Hs]. apply Hs. by left.
  - by constructor.
  - unfold total_len, byte_len. cbn [sum_list_with snd]. f_equal. lia.
Qed.

Lemma files_to_json_names files :
  (∀ name, name ∈ trim ∘ fst <$> files → flat_name name) → fst <$> files_to_json files = trim ∘ fst <$> files.
Proof.
  intros Hin. unfold files_to_json. rewrite <- list_fmap_compose. apply list_fmap_ext. intros i f Hi. cbn.
  apply flat_name_sanitized, Hin. apply list_elem_of_fmap. exists f. split; [done|]. by eapply list_elem_of_lookup_2.
Qed.

Definition payload_ok (files : list (ustring * ustring)) (language : ustring) (max_size : Z) : Prop :=
  files ≠ [] ∧ trim language ≠ [] ∧ NoDup (fst <$> files_to_json files)
  ∧ Forall flat_name (fst <$> files_to_json files) ∧ Forall (λ f, f.2 ≠ []) files
  ∧ (total_len files ≤ max_size)%Z.

Lemma accepted_payload files language max_size :
  (max_size < u64_max)%Z → validate_code_payload files language max_size = Ok tt →
  payload_ok files language max_size.
Proof.
  intros Hmax. unfold validate_code_payload. case_decide; [done|]. case_decide; [done|].
  rewrite result_bind_Ok. change 0%Z with (sat_usize 0). intros (total & (Hin & Hnd & Hall & ->)%check_files_Ok & Hle).
  rewrite Z.add_0_l in Hle. destruct (_ <? _)%Z eqn:E; [done|]. apply Z.ltb_ge in E. unfold payload_ok.
  rewrite files_to_json_names by (intros; by apply Hin). split_and!; try done.
  - apply Forall_forall. intros name Hn. by apply Hin.
  - unfold sat_usize in E. lia.
Qed.

(** A payload that is accepted has at least one file, a language, and within the
    size that is allowed files that are not empty; and each is stored under a name that
    is its own, is not hidden and leads to no other directory. *)
Theorem accepted_payload_stored files language max_size :
  (max_size < u64_max)%Z → validate_code_payload files language max_size = Ok tt →
  payload_ok files language max_size.
Proof. apply accepted_payload. Qed.

(** ** The rate of a user *)

(** The rows of a user in the last minute. *)
Definition recent_count (submissions code_runs : list Z) (now : Z) : Z :=
  Z.of_nat (length (recent now submissions) + length (recent now code_runs)).

Lemma check_rate_limit_Ok submissions code_runs limit now :
  check_rate_limit submissions code_runs limit now = Ok tt ↔
  limit = 0%Z ∨ (recent_count submissions code_runs now < limit)%Z.
Proof.
  unfold check_rate_limit, recent_count. destruct (limit =? 0)%Z eqn:E; [apply Z.eqb_eq in E; tauto|]. apply Z.eqb_neq in E.
  destruct (limit <=? _)%Z eqn:El; [apply Z.leb_le in El|apply Z.leb_gt in El]; (split; [|]); try done; intros; lia.
Qed.

Lemma recent_fewer now now' t times :
  t ∈ recent now times → (now ≤ now')%Z → ¬ (now' - MINUTE < t)%Z →
  length (recent now' times) < length (recent now times).
Proof.
  intros Hin Hle Hgone. unfold recent in *. apply list_elem_of_filter in Hin as [Hrec Hin].
  apply list_elem_of_split in Hin as (l1 & l2 & ->). rewrite !filter_app, !filter_cons, !length_app.
  rewrite decide_False, decide_True by done.
  assert (∀ l, length (filter (λ t, (now' - MINUTE < t)%Z) l) ≤ length (filter (λ t, (now - MINUTE < t)%Z) l)) as Hm.
  { intros l. induction l as [|x l IH]; [done|]. rewrite !filter_cons. repeat case_decide; cbn; lia. }
  pose proof (Hm l1). pose proof (Hm l2). cbn. lia.
Qed.

Lemma recent_fewer_le now now' times :
  (now ≤ now')%Z → length (recent now' times) ≤ length (recent now times).
Proof.
  intros Hle. unfold recent. induction times as [|x l IH]; [done|]. rewrite !filter_cons. repeat case_decide; cbn; lia.
Qed.

Lemma min_recent now times t : min_by_key id (recent now times) = Some t → t ∈ recent now times.
Proof. by intros [? _]%min_by_key_Some. Qed.

(** The oldest row, from either table. *)
Lemma check_rate_limit_Err submissions code_runs limit now e :
  (0 < limit)%Z → check_rate_limit submissions code_runs limit now = Err e →
  ∃ t, t ∈ recent now submissions ++ recent now code_runs
    ∧ e = RateLimited (Z.max (num_seconds (t + MINUTE - now)) 1).
Proof.
  intros Hlim. unfold check_rate_limit. rewrite (proj2 (Z.eqb_neq _ _)) by lia.
  destruct (limit <=? _)%Z eqn:El; [|done]. apply Z.leb_le in El. intros [= <-].
  destruct (min_by_key id (recent now submissions)) as [a|] eqn:Ea;
    destruct (min_by_key id (recent now code_runs)) as [b|] eqn:Eb.
  - exists (Z.min a b). split; [|done]. apply min_recent in Ea, Eb. apply elem_of_app.
    destruct (Z.min_spec a b) as [[_ ->]|[_ ->]]; tauto.
  - exists a. split; [|done]. apply elem_of_app. left. by apply min_recent.
  - exists b. split; [|done]. apply elem_of_app. right. by apply min_recent.
  - apply min_by_key_None in Ea, Eb. rewrite Ea, Eb in El. cbn in El. lia.
Qed.

(** C40. A user is limited exactly when as many rows of the last minute are theirs as the
    limit allows; the answer is a wait of one to sixty seconds, and a second after it
    ends one of those rows counts no more. *)
Theorem rate_limit_frees submissions code_runs limit now :
  (0 < limit)%Z → Forall (λ t, (t ≤ now)%Z) (submissions ++ code_runs) →
  if (recent_count submissions code_runs now <? limit)%Z
  then check_rate_limit submissions code_runs limit now = Ok tt
  else ∃ wait, check_rate_limit submissions code_runs limit now = Err (RateLimited wait)
    ∧ (1 ≤ wait ≤ 60)%Z
    ∧ ∀ now', (now + (wait + 1) * 1000000 ≤ now')%Z →
        (recent_count submissions code_runs now' < recent_count submissions code_runs now)%Z.
Proof.
  intros Hlim Hpast. destruct (_ <? _)%Z eqn:E.
  { apply Z.ltb_lt in E. apply check_rate_limit_Ok. by right. }
  destruct (check_rate_limit submissions code_runs limit now) as [[]|e] eqn:Hc.
  { apply check_rate_limit_Ok in Hc. apply Z.ltb_ge in E. lia. }
  apply check_rate_limit_Err in Hc as (t & Ht & ->); [|done]. eexists. split; [done|].
  assert (now - MINUTE < t ≤ now)%Z as [Hr1 Hr2].
  { apply elem_of_app in Ht. rewrite Forall_forall in Hpast.
    destruct Ht as [[? ?]%list_elem_of_filter|[? ?]%list_elem_of_filter];
      (split; [done|apply Hpast, elem_of_app; tauto]). }
  unfold num_seconds, MINUTE in *.
  pose proof (Z.quot_rem' (t + 60000000 - now) 1000000) as Hq.
  pose proof (Z.rem_bound_pos (t + 60000000 - now) 1000000 ltac:(lia) ltac:(lia)) as Hb.
  split; [lia|]. intros now' Hnow'. unfold recent_count. apply elem_of_app in Ht as [Ht|Ht].
  - pose proof (recent_fewer now now' t submissions Ht ltac:(lia) ltac:(unfold MINUTE; lia)).
    pose proof (recent_fewer_le now now' code_runs ltac:(lia)). lia.
  - pose proof (recent_fewer now now' t code_runs Ht ltac:(lia) ltac:(unfold MINUTE; lia)).
    pose proof (recent_fewer_le now now' submissions ltac:(lia)). lia.
Qed.

(** Waiting as long as the answer says may not be enough: it is cut to whole seconds. *)
Lemma retry_too_early :
  check_rate_limit [1500000%Z] [] 1 30000000 = Err (RateLimited 31)
  ∧ check_rate_limit [1500000%Z] [] 1 61000000 = Err (RateLimited 1).
Proof. split; by vm_compute. Qed.

(** ** The handler of a contest *)

Lemma ok_or_Ok {E A} (o : option A) (e : E) a : ok_or o e = Ok a ↔ o = Some a.
Proof. destruct o; cbn; naive_solver. Qed.

Section handler.
Context (to_text : Value → ustring) (of_text : ustring → result ustring Value).
Context {W : Type} (tables : W → IntakeTables) (adm : W → AdmissionDb) (set_adm : AdmissionDb → W → W).
Context (clock : W → Z) (denied : AuthUser → option Z → Z → W → result AppError bool).
Context (config : IntakeConfig) (known_languages : gset ustring).
Context (contest_types : gmap ustring ContestTypeHandlers) (registry : HookRegistry W).
(** The tables are a part of the world. *)
Context (adm_set : ∀ db w, adm (set_adm db w) = db).

Abbreviation check_request := (check_contest_request tables adm clock denied config known_languages).
Abbreviation submit :=
  (create_contest_submission to_text of_text tables adm set_adm clock denied config known_languages contest_types registry).

(** The owner of a type of contest that admits submissions. *)
Definition owner_of (contest_type : ustring) : option ustring :=
  h ← contest_types !! contest_type; if ch_submission_admission h then Some (ch_plugin_id h) else None.

(** The contest is open to the user. *)
Definition may_submit (user : AuthUser) (contest_id : Z) (contest : Contest) (w : W) : Prop :=
  has_permission user CONTEST_MANAGE = true
  ∨ is_inactive contest (clock w) = false
    ∧ (cn_start_time contest ≤ clock w < cn_end_time contest)%Z
    ∧ (contest_id, au_user_id user) ∈ it_participants (tables w).

(** The limits on the load. *)
Definition within_limits (user : AuthUser) (w : W) : Prop :=
  (ic_rate_limit_per_minute config = 0
   ∨ recent_count (user_submissions adm (au_user_id user) w) (user_code_runs tables (au_user_id user) w) (clock w)
     < ic_rate_limit_per_minute config)%Z
  ∧ (ic_max_queued_submissions config = 0 ∨ queue_depth tables adm w < ic_max_queued_submissions config)%Z.

Lemma admit_request_Ok user req w :
  admit_request tables adm clock config user req w = Ok tt →
  has_permission user SUBMISSION_SUBMIT = true
  ∧ validate_code_payload (cr_files req) (cr_language req) (ic_max_size config) = Ok tt
  ∧ within_limits user w.
Proof.
  unfold admit_request, require_permission, enforce_queue_depth_admission.
  destruct (has_permission _ _); [|done]. cbn [mbind result_bind].
  intros ([] & Hp & ([] & Hr & Hq)%result_bind_Ok)%result_bind_Ok. split_and!; [done|done|].
  apply check_rate_limit_Ok in Hr. split; [done|].
  destruct (ic_max_queued_submissions config =? 0)%Z eqn:E0; [apply Z.eqb_eq in E0; tauto|].
  destruct (_ <=? _)%Z eqn:E1; [done|]. apply Z.leb_gt in E1. tauto.
Qed.

Lemma may_submit_Ok user contest_id contest w :
  require_contest_running user contest (clock w) = Ok tt →
  require_contest_participant user contest
    (bool_decide ((contest_id, au_user_id user) ∈ it_participants (tables w))) = Ok tt →
  may_submit user contest_id contest w.
Proof.
  unfold require_contest_running, require_contest_participant, may_submit.
  destruct (has_permission _ _); [tauto|]. destruct (is_inactive _ _); [done|].
  destruct (_ <? _)%Z eqn:E1; [done|]. destruct (_ <=? _)%Z eqn:E2; [done|]. intros _.
  case_bool_decide; [|by destruct (cn_is_public contest)]. intros _. right. split_and!; [done|lia|lia|done].
Qed.

Lemma check_contest_request_Ok user contest_id problem_id req w ct now :
  check_request user contest_id problem_id req w = Ok (ct, now) →
  now = clock w ∧ has_permission user SUBMISSION_SUBMIT = true
  ∧ validate_code_payload (cr_files req) (cr_language req) (ic_max_size config) = Ok tt
  ∧ within_limits user w ∧ denied user (Some contest_id) problem_id w = Ok false
  ∧ ∃ contest, it_contests (tables w) !! contest_id = Some contest ∧ cn_contest_type contest = Some ct
      ∧ may_submit user contest_id contest w.
Proof.
  unfold check_contest_request. intros ([] & Ha & Hc)%result_bind_Ok. apply admit_request_Ok in Ha as (? & ? & ?).
  apply result_bind_Ok in Hc as (contest & Hct%ok_or_Ok & Hc).
  apply result_bind_Ok in Hc as (problem & _ & Hc). apply result_bind_Ok in Hc as (is_denied & Hd & Hc).
  destruct is_denied; [done|]. apply result_bind_Ok in Hc as ([] & Hrun & Hc).
  apply result_bind_Ok in Hc as ([] & Hpart & Hc). apply result_bind_Ok in Hc as ([] & _ & Hc).
  apply result_bind_Ok in Hc as (ct' & Hty%ok_or_Ok & [= -> <-]).
  split_and!; try done. exists contest. split_and!; [done|done|]. by apply may_submit_Ok.
Qed.

Lemma insert_submission_row new db id db' :
  insert_submission new db = Ok (id, db') → adb_submissions db' !! id = Some new.
Proof.
  unfold insert_submission. repeat case_match; try done; intros [= <- <-]; cbn; by rewrite lookup_insert_eq.
Qed.

(** What the hooks are asked, and the row that is stored when they pass. *)
Abbreviation hooks ct user contest_id problem_id req w :=
  (dispatch_before_submission_hooks to_text of_text registry
     (Some (resource_enablements contest_types (column_of tables w) (it_config (tables w)) problem_id (Some contest_id)))
     (owner_of ct) (before_event user problem_id (Some contest_id) ct req) w).

Definition stores (owner : option ustring) (admission : option SubmissionAdmission) (now : Z) (new : Submitted)
    (db : AdmissionDb) (id : Z) (db' : AdmissionDb) : Prop :=
  match owner, admission with
  | Some plugin_id, Some admission => insert_admitted to_text plugin_id now new admission db = Ok (id, db')
  | None, None => insert_submission new db = Ok (id, db')
  | _, _ => False
  end.

Lemma submit_eq user contest_id problem_id req w ct now :
  check_request user contest_id problem_id req w = Ok (ct, now) →
  submit user contest_id problem_id req w =
  let '(admission, w1) := hooks ct user contest_id problem_id req w in
  match admission with
  | Err e => (Err e, w1)
  | Ok admission =>
      let new := new_submission user problem_id (Some contest_id) ct req now in
      match owner_of ct, admission with
      | Some plugin_id, Some admission =>
          stored set_adm (insert_admitted to_text plugin_id (clock w1) new admission (adm w1)) w1
      | Some _, None => (Err (Internal (u "Contest plugin did not provide submission admission")), w1)
      | None, Some _ => (Err (Internal (u "Unexpected submission admission")), w1)
      | None, None => stored set_adm (insert_submission new (adm w1)) w1
      end
  end.
Proof.
  intros Hc. unfold create_contest_submission. rewrite Hc. unfold owner_of.
  destruct (contest_types !! ct); done.
Qed.

Lemma submit_Ok user contest_id problem_id req w id w' :
  submit user contest_id problem_id req w = (Ok id, w') →
  ∃ ct now admission w1,
    check_request user contest_id problem_id req w = Ok (ct, now)
    ∧ hooks ct user contest_id problem_id req w = (Ok admission, w1)
    ∧ stores (owner_of ct) admission (clock w1) (new_submission user problem_id (Some contest_id) ct req now)
        (adm w1) id (adm w').
Proof.
  intros H. destruct (check_request user contest_id problem_id req w) as [[ct now]|] eqn:Hc.
  2: { unfold create_contest_submission in H. by rewrite Hc in H. }
  rewrite (submit_eq _ _ _ _ _ _ _ Hc) in H. destruct (hooks ct user contest_id problem_id req w) as [[admission|] w1] eqn:Hh; [|done].
  exists ct, now, admission, w1. split_and!; [done|done|]. unfold stores.
  destruct (owner_of ct), admission; try done; unfold stored in H;
    repeat case_match; try done; injection H as <- <-; simplify_eq; by rewrite adm_set.
Qed.

Lemma stores_row owner admission now new db id db' :
  stores owner admission now new db id db' →
  ∃ s, adb_submissions db' !! id = Some s ∧ ∃ at_, s = with_created_at at_ new.
Proof.
  unfold stores. destruct owner, admission; try done.
  - intros (row & cid & _ & _ & _ & _ & _ & _ & _ & ->)%insert_admitted_inv. cbn [adb_submissions].
    rewrite lookup_insert_eq. eauto.
  - intros Hi%insert_submission_row. exists new. split; [done|]. exists (sd_created_at new). by destruct new.
Qed.

(** What a contest stores has passed: its user may submit and is within the limits,
    the problem is shown to them, and the contest runs and they take part in it, unless
    they manage it.  The row is theirs, waits to be judged and holds the files that
    were checked. *)
Theorem contest_submission_gated user contest_id problem_id req w id w' :
  (ic_max_size config < u64_max)%Z →
  submit user contest_id problem_id req w = (Ok id, w') →
  has_permission user SUBMISSION_SUBMIT = true
  ∧ within_limits user w
  ∧ denied user (Some contest_id) problem_id w = Ok false
  ∧ payload_ok (cr_files req) (cr_language req) (ic_max_size config)
  ∧ (∃ contest, it_contests (tables w) !! contest_id = Some contest ∧ may_submit user contest_id contest w)
  ∧ ∃ s, adb_submissions (adm w') !! id = Some s ∧ sd_user_id s = au_user_id user
      ∧ sd_problem_id s = problem_id ∧ sd_contest_id s = Some contest_id ∧ sd_status s = Queued
      ∧ sd_files s = files_to_json (cr_files req).
Proof.
  intros Hmax (ct & now & admission & w1 & Hc & _ & Hs)%submit_Ok.
  apply check_contest_request_Ok in Hc as (_ & Hp & Hv & Hl & Hd & contest & Hct & _ & Hm).
  apply stores_row in Hs as (s & Hrow & at_ & ->). split_and!; try done.
  - by apply accepted_payload.
  - eauto.
  - eexists. split; [exact Hrow|]. by split_and!.
Qed.

(** An admission that the hooks give was given by a gate of the owner. *)
Lemma hooks_given enabled owner event w given w1 :
  dispatch_before_submission_hooks to_text of_text registry enabled owner event w = (Ok (Some given), w1) →
  ∃ v, given_by_owner registry enabled owner v ∧ decode_admission to_text v = Some given.
Proof.
  unfold dispatch_before_submission_hooks.
  destruct (dispatch_submission_hooks _ _ _ _ _ _) as [outcome w2] eqn:Hd.
  destruct outcome as [[payload| |]|]; try done. destruct (get ADMISSION payload) as [v|] eqn:Hg; [|done].
  destruct (decode_admission to_text v) as [given'|] eqn:Hdec; [|done]. intros [= <- <-]. exists v. split; [|done].
  unfold dispatch_submission_hooks, MAX_CHAIN_DEPTH in Hd. cbn [dispatch_hooks_inner] in Hd. revert v Hg Hdec.
  enough (∀ v, get ADMISSION payload = Some v → given_by_owner registry enabled owner v) as He by eauto.
  refine (dispatch_invariant of_text _ _ (λ p, ∀ v, get ADMISSION p = Some v → given_by_owner registry enabled owner v)
            _ _ _ _ _ _ _ _ Hd); [|by rewrite get_admission_encode].
  intros entry p m p' Hin Hm Ha Hp. by apply (accept_modified_admission registry enabled owner entry p m).
Qed.

(** C12. Where the type of the contest is owned by a plugin that admits submissions, what is
    stored was admitted by a gate of that plugin, in the transaction that spends its
    token and its guard; elsewhere nothing is withheld. *)
Theorem stored_as_owner_admits user contest_id problem_id req w id w' contest ct :
  it_contests (tables w) !! contest_id = Some contest → cn_contest_type contest = Some ct →
  submit user contest_id problem_id req w = (Ok id, w') →
  ∃ w1 admission, hooks ct user contest_id problem_id req w = (Ok admission, w1) ∧
  let new := new_submission user problem_id (Some contest_id) ct req (clock w) in
  let enabled := resource_enablements contest_types (column_of tables w) (it_config (tables w)) problem_id
                   (Some contest_id) in
  match owner_of ct with
  | Some plugin_id =>
      ∃ v given, admission = Some given ∧ given_by_owner registry (Some enabled) (Some plugin_id) v
        ∧ decode_admission to_text v = Some given
        ∧ insert_admitted to_text plugin_id (clock w1) new given (adm w1) = Ok (id, adm w')
  | None => admission = None ∧ insert_submission new (adm w1) = Ok (id, adm w')
      ∧ adb_feedback (adm w') = adb_feedback (adm w1)
  end.
Proof.
  intros Hct Hty (ct' & now & admission & w1 & Hc & Hh & Hs)%submit_Ok.
  apply check_contest_request_Ok in Hc as (-> & _ & _ & _ & _ & contest' & Hct' & Hty' & _).
  assert (ct' = ct) as -> by congruence. exists w1, admission. split; [done|]. cbn zeta. unfold stores in Hs.
  destruct (owner_of ct) as [plugin_id|], admission as [given|]; try done.
  - destruct (hooks_given _ _ _ _ _ _ Hh) as (v & Hv & Hdec). exists v, given. done.
  - split_and!; [done|done|]. unfold insert_submission in Hs. repeat case_match; try done. by injection Hs as _ <-.
Qed.

(** A request that is refused stores nothing: the world is as it was, or as the hooks
    left it. *)
Lemma refused_stores_nothing user contest_id problem_id req w e w' :
  submit user contest_id problem_id req w = (Err e, w') →
  w' = w ∨ ∃ ct, w' = (hooks ct user contest_id problem_id req w).2.
Proof.
  intros H. destruct (check_request user contest_id problem_id req w) as [[ct now]|] eqn:Hc.
  2: { left. unfold create_contest_submission in H. rewrite Hc in H. by injection H. }
  right. exists ct. rewrite (submit_eq _ _ _ _ _ _ _ Hc) in H.
  destruct (hooks ct user contest_id problem_id req w) as [[admission|] w1]; [|by injection H].
  destruct (owner_of ct), admission; try (by injection H); unfold stored in H;
    repeat case_match; try done; by injection H.
Qed.
End handler.

(** ** Examples *)

Lemma rate_limit_frees_witness :
  ∃ wait, check_rate_limit [1500000%Z; 20000000%Z] [2000000%Z] 3 30000000 = Err (RateLimited wait)
    ∧ (1 ≤ wait ≤ 60)%Z
    ∧ ∀ now', (30000000 + (wait + 1) * 1000000 ≤ now')%Z →
        (recent_count [1500000; 20000000] [2000000] now'
         < recent_count [1500000; 20000000] [2000000] 30000000)%Z.
Proof. refine (rate_limit_frees [1500000%Z; 20000000%Z] [2000000%Z] 3 30000000 _ _); [lia|by repeat constructor]. Defined.

Lemma accepted_payload_stored_witness :
  payload_ok [(u " main.cpp ", u "int main(){}"); (u "lib.h", u "#pragma once")] (u "cpp") 100.
Proof.
  refine (accepted_payload_stored _ (u "cpp") 100 _ _); [by unfold u64_max|by vm_compute].
Defined.

(** ** A submission to a contest that admits
    A contest whose type is owned by a plugin that admits submissions, and a player who
    submits to it, at which the theorems of [IntakeProofs] apply. *)

(** The time and the tables. *)
Abbreviation IxWorld := (Z * AdmissionDb)%type.

Definition ix_contest : Contest := {|
  cn_activate_time := Some 0%Z; cn_deactivate_time := None; cn_start_time := 1000000; cn_end_time := 9000000;
  cn_is_public := false; cn_contest_type := Some (u "bracket") |}.

Definition ix_problem : Problem := {|
  pr_submission_format := Some {[ u "cpp" := [u "main.cpp"] ]}; pr_default_contest_type := u "bracket" |}.

Definition ix_tables (w : IxWorld) : IntakeTables := {|
  it_code_runs := {[ 1%Z := (3%Z, 500000%Z) ]}; it_queued := 2; it_contests := {[ 5%Z := ix_contest ]};
  it_participants := {[ (5%Z, 3%Z) ]}; it_problems := {[ 7%Z := ix_problem ]}; it_config := ∅ |}.

Definition ix_config : IntakeConfig := {|
  ic_max_size := 1000; ic_rate_limit_per_minute := 3; ic_max_queued_submissions := 100 |}.

Definition ix_user : AuthUser := {| au_user_id := 3; au_permissions := [SUBMISSION_SUBMIT] |}.

Definition ix_request : CreateSubmissionRequest := {|
  cr_files := [(u " main.cpp", u "int main(){}")]; cr_language := u "cpp "; cr_contest_type := None |}.

Definition ix_admission : Value :=
  VObject [(u "guard", VObject [(u "key", VString (u "match:1")); (u "expected_value", VString (u "open"))]);
           (u "feedback_key", VString (u "match:1")); (u "metadata", VObject []);
           (u "slot", VObject [(u "key", VString (u "slot:3"))]); (u "latest_arrival_ms", VInt 9000)].

(** The gate of the owner admits. *)
Definition ix_gate : GenericHook IxWorld := λ event w,
  match ev_payload event with
  | VObject fs =>
      (Some (Ok (Modified {| ev_topic := BEFORE_SUBMISSION;
                             ev_payload := VObject (set_field ADMISSION ix_admission fs) |})), w)
  | _ => (Some (Ok Pass), w)
  end.

Definition ix_registry : HookRegistry IxWorld :=
  register [BEFORE_SUBMISSION] (mkEntry ad_plugin ResourceScope Blocking ix_gate) ∅.

Definition ix_types : gmap ustring ContestTypeHandlers :=
  {[ u "bracket" := {| ch_plugin_id := ad_plugin; ch_submission_admission := true |} ]}.

Definition ix_set (db : AdmissionDb) (w : IxWorld) : IxWorld := (w.1, db).

Definition ix_denied (_ : AuthUser) (_ : option Z) (_ : Z) (_ : IxWorld) : result AppError bool := Ok false.

Abbreviation ix_submit :=
  (create_contest_submission ad_to_text ex_of_text ix_tables snd ix_set fst ix_denied ix_config {[ u "cpp" ]}
     ix_types ix_registry ix_user 5 7 ix_request).

Definition ix_start : IxWorld := (3000000%Z, ad_start).

Definition ix_end : IxWorld := (ix_submit ix_start).2.

Lemma ix_submit_eq : ix_submit ix_start = (Ok 1%Z, ix_end).
Proof. by vm_compute. Qed.

Lemma ix_set_law (db : AdmissionDb) (w : IxWorld) : snd (ix_set db w) = db.
Proof. done. Qed.

(** The second submission finds the document of the match at a revision of its own, and
    the slot taken. *)
Lemma ix_again : (ix_submit ix_end).1 = Err in_flight.
Proof. by vm_compute. Qed.

(** After the contest ends nothing is stored. *)
Lemma ix_late : ix_submit (9000000%Z, ad_start) = (Err (Validation (u "Contest has already ended")), (9000000%Z, ad_start)).
Proof. by vm_compute. Qed.

Lemma contest_submission_gated_witness :
  within_limits ix_tables snd fst ix_config ix_user ix_start
  ∧ ∃ s, adb_submissions ix_end.2 !! 1%Z = Some s ∧ sd_user_id s = 3%Z ∧ sd_status s = Queued
      ∧ sd_files s = files_to_json (cr_files ix_request).
Proof.
  destruct (contest_submission_gated ad_to_text ex_of_text ix_tables snd ix_set fst ix_denied ix_config {[ u "cpp" ]}
    ix_types ix_registry ix_set_law ix_user 5 7 ix_request ix_start 1 ix_end ltac:(done) ix_submit_eq)
    as (_ & Hl & _ & _ & _ & s & H1 & H2 & _ & _ & H3 & H4).
  split; [exact Hl|]. exists s. exact (conj H1 (conj H2 (conj H3 H4))).
Defined.

Lemma stored_as_owner_admits_witness :
  ∃ w1 given v, decode_admission ad_to_text v = Some given
    ∧ insert_admitted ad_to_text ad_plugin w1.1
        (new_submission ix_user 7 (Some 5%Z) (u "bracket") ix_request 3000000) given w1.2 = Ok (1%Z, ix_end.2).
Proof.
  destruct (stored_as_owner_admits ad_to_text ex_of_text ix_tables snd ix_set fst ix_denied ix_config {[ u "cpp" ]}
    ix_types ix_registry ix_set_law ix_user 5 7 ix_request ix_start 1 ix_end ix_contest (u "bracket")
    eq_refl eq_refl ix_submit_eq) as (w1 & admission & _ & v & given & _ & _ & Hdec & Hins).
  exists w1, given, v. exact (conj Hdec Hins).
Defined.
