(* ===== verification/Idempotency.v ===== *)
(** * Idempotency: a request that is sent again is answered as before

    packages/server/src/middleware/idempotency.rs.  The middleware and the handler it
    wraps are programs of single statements; the handler is an argument, over tables of
    its own.  Times are in microseconds. *)

From stdpp Require Import gmap.
From S2P Require Import Prelude Text Float Json Sdk PluginConfig Hooks Statements.

(** ** The table *)

Record IdemRow := {
  ik_request_path : ustring;
  ik_request_method : ustring;
  ik_status : ustring;
  ik_response_status : option Z;
  ik_response_body : option ustring;
  ik_created_at : Z;
  ik_completed_at : option Z;
}.

(** The key and the user. *)
Abbreviation IdemKey := (ustring * Z)%type.

Definition PENDING : ustring := u "pending".
Definition COMPLETED : ustring := u "completed".
Definition COMPLETED_TOO_LARGE : ustring := u "completed_too_large".

Definition MAX_RESPONSE_BODY_SIZE : Z := 4 * 1048576.

Definition STALE_PENDING_SECS : Z := 120.

Definition SECOND_US : Z := 1000000.

Definition HOURS_24 : Z := 24 * 3600 * SECOND_US.

(** A response; the body may fail to be read. *)
Record Reply := { rp_status : Z; rp_body : option (list Z) }.

(** The header with the key may be absent or no text; the user is that of the token. *)
Record IdemRequest := {
  ir_method : ustring;
  ir_path : ustring;
  ir_key : option (option ustring);
  ir_user_id : option Z;
}.

(** What a request is answered, and where it comes from: [Passed] without a claim of the
    key, [Executed] with one. *)
Inductive Answer :=
  | Passed (reply : Reply)
  | Executed (reply : Reply)
  | Replayed (status : Z) (body : list Z)
  | Refused (e : AppError)
  | CleanedUp.

Definition pending_row (path method : ustring) (now : Z) : IdemRow := {|
  ik_request_path := path; ik_request_method := method; ik_status := PENDING; ik_response_status := None;
  ik_response_body := None; ik_created_at := now; ik_completed_at := None |}.

Definition finished_row (status : ustring) (response_status : Z) (body : option ustring) (now : Z) (r : IdemRow)
    : IdemRow := {|
  ik_request_path := ik_request_path r; ik_request_method := ik_request_method r; ik_status := status;
  ik_response_status := Some response_status; ik_response_body := body; ik_created_at := ik_created_at r;
  ik_completed_at := Some now |}.

Section middleware.
Context {App : Type}.

Record IdemDb := mkIdem { idb_keys : gmap IdemKey IdemRow; idb_app : App }.

Definition with_keys (keys : gmap IdemKey IdemRow) (db : IdemDb) : IdemDb := mkIdem keys (idb_app db).

Definition statement {R} (stmt : Stmt IdemDb R) : Program IdemDb (sdk R) := Query stmt Return.

(** [Utc::now]. *)
Definition clock : Program IdemDb Z :=
  Query (λ now db, (Ok now, db)) (λ r, Return (match r with Ok now => now | Err _ => 0%Z end)).

(** The statements of the handler leave the keys alone. *)
Fixpoint lift {A} (p : Program App A) : Program IdemDb A :=
  match p with
  | Return a => Return a
  | Query stmt k =>
      Query (λ now db, let '(r, app) := stmt now (idb_app db) in (r, mkIdem (idb_keys db) app)) (λ r, lift (k r))
  end.

(** ** Statements *)

Definition insert_pending (key : IdemKey) (path method : ustring) (created_at : Z) : Stmt IdemDb bool := λ _ db,
  match idb_keys db !! key with
  | Some _ => (Ok false, db)
  | None => (Ok true, with_keys (<[key := pending_row path method created_at]> (idb_keys db)) db)
  end.

Definition find_key (key : IdemKey) : Stmt IdemDb (option IdemRow) := λ _ db, (Ok (idb_keys db !! key), db).

Definition is_stale (cutoff : Z) (r : IdemRow) : bool :=
  bool_decide (ik_status r = PENDING) && (ik_created_at r <? cutoff)%Z.

Definition update_stale (key : IdemKey) (path method : ustring) (created_at : Z) : Stmt IdemDb bool := λ _ db,
  match idb_keys db !! key with
  | Some r =>
      if is_stale (created_at - STALE_PENDING_SECS * SECOND_US) r
      then (Ok true, with_keys (<[key := pending_row path method created_at]> (idb_keys db)) db)
      else (Ok false, db)
  | None => (Ok false, db)
  end.

Definition finish_pending (key : IdemKey) (f : IdemRow → IdemRow) (db : IdemDb) : IdemDb :=
  with_keys (alter (λ r, if decide (ik_status r = PENDING) then f r else r) key (idb_keys db)) db.

Definition mark_too_large (key : IdemKey) (response_status : Z) : Stmt IdemDb () := λ now db,
  (Ok tt, finish_pending key (finished_row COMPLETED_TOO_LARGE response_status None now) db).

(** A text of the database has no null character. *)
Definition mark_completed (key : IdemKey) (response_status : Z) (body : ustring) : Stmt IdemDb () := λ now db,
  if decide (0%Z ∈ body) then (Err (Database (u "invalid byte sequence for encoding")), db)
  else (Ok tt, finish_pending key (finished_row COMPLETED response_status (Some body) now) db).

Definition delete_key (key : IdemKey) : Stmt IdemDb () := λ _ db,
  (Ok tt, with_keys (delete key (idb_keys db)) db).

Definition delete_expired (cutoff : Z) : Stmt IdemDb () := λ _ db,
  (Ok tt, with_keys (filter (λ kr, ¬ (ik_created_at kr.2 < cutoff)%Z) (idb_keys db)) db).

(** ** The middleware *)

Inductive ClaimResult := Claimed | AlreadyExists (existing : IdemRow).

Definition try_claim_key (key : IdemKey) (path method : ustring) : Program IdemDb (sdk ClaimResult) :=
  now ← clock;
  inserted ← statement (insert_pending key path method now);
  match inserted with
  | Err e => mret (Err e)
  | Ok true => mret (Ok Claimed)
  | Ok false =>
      existing ← statement (find_key key);
      mret (match existing with
            | Ok (Some row) => Ok (AlreadyExists row)
            | Ok None => Err (Database (u "Idempotency key vanished between INSERT and SELECT"))
            | Err e => Err e
            end)
  end.

Definition reclaim_stale_key (key : IdemKey) (path method : ustring) : Program IdemDb (sdk bool) :=
  now ← clock;
  statement (update_stale key path method now).

Definition is_success (status : Z) : bool := (200 <=? status)%Z && (status <? 300)%Z.

(** Failures of the statements are only logged. *)
Definition complete_key (key : IdemKey) (reply : Reply) : Program IdemDb Answer :=
  if is_success (rp_status reply) then
    match rp_body reply with
    | Some bytes =>
        if (Z.of_nat (length bytes) <=? MAX_RESPONSE_BODY_SIZE)%Z then
          match from_utf8 bytes with
          | Ok body => _ ← statement (mark_completed key (rp_status reply) body); mret (Executed reply)
          | Err _ => _ ← statement (delete_key key); mret (Executed reply)
          end
        else _ ← statement (mark_too_large key (rp_status reply)); mret (Executed reply)
    | None => _ ← statement (delete_key key); mret (Executed {| rp_status := 500; rp_body := Some [] |})
    end
  else _ ← statement (delete_key key); mret (Executed reply).

Context (handler : IdemRequest → Program App Reply).

Definition pass_through (request : IdemRequest) : Program IdemDb Answer :=
  reply ← lift (handler request);
  mret (Passed reply).

Definition key_mismatch (existing : IdemRow) (request : IdemRequest) : AppError :=
  IdempotencyKeyMismatch (u "This key was used with " ++ ik_request_method existing ++ u " "
    ++ ik_request_path existing ++ u " but this request is " ++ ir_method request ++ u " " ++ ir_path request).

Definition other_request (existing : IdemRow) (request : IdemRequest) : bool :=
  bool_decide (ik_request_path existing ≠ ir_path request)
  || bool_decide (ik_request_method existing ≠ ir_method request).

(** [StatusCode::from_u16] takes 100 to 999. *)
Definition replayed_status (response_status : option Z) : Z :=
  match response_status with
  | Some s => if decide (100 ≤ s ≤ 999)%Z then s else 200%Z
  | None => 200%Z
  end.

Definition handle_existing_key (existing : IdemRow) (key : IdemKey) (request : IdemRequest)
    : Program IdemDb Answer :=
  if decide (ik_status existing = COMPLETED) then
    if other_request existing request then mret (Refused (key_mismatch existing request))
    else mret (Replayed (replayed_status (ik_response_status existing)) (encode (default [] (ik_response_body existing))))
  else if decide (ik_status existing = COMPLETED_TOO_LARGE) then
    if other_request existing request then mret (Refused (key_mismatch existing request))
    else mret (Refused IdempotencyResponseTooLarge)
  else if decide (ik_status existing = PENDING) then
    now ← clock;
    if (Z.quot (now - ik_created_at existing) SECOND_US <? STALE_PENDING_SECS)%Z
    then mret (Refused IdempotencyKeyInProgress)
    else
      reclaimed ← reclaim_stale_key key (ir_path request) (ir_method request);
      match reclaimed with
      | Ok true => reply ← lift (handler request); complete_key key reply
      | Ok false => mret (Refused IdempotencyKeyInProgress)
      | Err _ => pass_through request
      end
  else pass_through request.

Definition key_char (c : Z) : bool := is_ascii_alphanumeric c || (c =? 45)%Z || (c =? 95)%Z.

Definition bad_length (key : ustring) : bool := bool_decide (key = []) || (255 <? str_len key)%nat.

Definition idempotency_middleware (request : IdemRequest) : Program IdemDb Answer :=
  if decide (ir_method request ≠ u "POST") then pass_through request
  else
    match ir_key request with
    | None => pass_through request
    | Some None => mret (Refused (Validation (u "Idempotency-Key header is not valid UTF-8")))
    | Some (Some key) =>
        if bad_length key then
          mret (Refused (Validation (u "Idempotency-Key must be 1-255 characters")))
        else if negb (forallb key_char key) then
          mret (Refused (Validation
            (u "Idempotency-Key must contain only alphanumeric characters, hyphens, and underscores")))
        else
          match ir_user_id request with
          | None => pass_through request
          | Some user_id =>
              claim ← try_claim_key (key, user_id) (ir_path request) (ir_method request);
              match claim with
              | Ok Claimed => reply ← lift (handler request); complete_key (key, user_id) reply
              | Ok (AlreadyExists existing) => handle_existing_key existing (key, user_id) request
              | Err _ => pass_through request
              end
          end
    end.

Definition cleanup_expired_keys : Program IdemDb Answer :=
  now ← clock;
  _ ← statement (delete_expired (now - HOURS_24));
  mret CleanedUp.

(** ** The world: requests and the task that cleans up *)

Inductive IdemEvent := Post (request : IdemRequest) | CleanUp.

Definition idem_program (e : IdemEvent) : Program IdemDb Answer :=
  match e with Post request => idempotency_middleware request | CleanUp => cleanup_expired_keys end.

(** The end of a request changes nothing more. *)
Definition idem_commit (_ _ : Z) (_ : IdemEvent) (_ : Answer) (db : IdemDb) : IdemDb := db.

Definition idem_step (latency : Z) : relation (World IdemDb IdemEvent Answer) := step idem_program idem_commit latency.

(** The key a request uses. *)
Definition idem_key (request : IdemRequest) : option IdemKey :=
  if decide (ir_method request = u "POST") then
    key ← ir_key request ≫= id;
    if negb (bad_length key) && forallb key_char key
    then user_id ← ir_user_id request; Some (key, user_id) else None
  else None.
End middleware.

Arguments IdemDb : clear implicits.
