(* ===== verification/IdempotencyProofs.v ===== *)
(** * IdempotencyProofs: a key is executed once

    While every request ends within two minutes, requests that claim one key never
    execute at once, and a key that is completed stays so for a day, in which the
    request is answered as before and not executed again. *)

From stdpp Require Import gmap relations.
From S2P Require Import Prelude Text Float Json Sdk PluginConfig Hooks Statements Idempotency.

(** ** Text *)

(** One continuation byte. *)
Lemma decode_within n lo hi acc bs cs :
  (1 ≤ n ≤ 3)%nat → decode (Within n lo hi acc) bs = (cs, Complete) →
  ∃ b rest, bs = b :: rest ∧ (lo ≤ b ≤ hi)%Z
    ∧ (n = 1%nat ∧ (∃ cs', cs = (acc * 64 + (b - 128))%Z :: cs' ∧ decode Boundary rest = (cs', Complete))
       ∨ (1 < n)%nat ∧ decode (Within (pred n) 128 191 (acc * 64 + (b - 128))) rest = (cs, Complete)).
Proof.
  intros Hn H. destruct bs as [|b rest]; [by cbn in H|]. exists b, rest. split; [done|].
  cbn [decode utf8_byte] in H. unfold between in H. destruct (_ && _) eqn:E; [|done].
  apply andb_prop in E as [E1 E2]. apply Z.leb_le in E1, E2. split; [lia|].
  destruct n as [|[|n]]; [lia|left|right].
  - split; [done|]. destruct (decode Boundary rest) as [cs' e]. injection H as <- <-. by exists cs'.
  - split; [lia|]. cbn [pred]. by destruct (decode _ rest) as [cs' e].
Qed.

Ltac encoded := unfold encode_char, between in *;
  repeat (case_match; Z.div_mod_to_equations; try lia); cbn [app]; repeat f_equal; Z.div_mod_to_equations; lia.

(** What the first byte of a longer character says. *)
Definition lead (n : nat) (lo hi acc b : Z) : Prop :=
  (n = 1%nat ∧ lo = 128 ∧ hi = 191 ∧ 194 ≤ b ≤ 223 ∧ acc = b - 192
   ∨ n = 2%nat ∧ 224 ≤ b ≤ 239 ∧ acc = b - 224 ∧ hi ≤ 191 ∧ (if b =? 224 then lo = 160 else lo = 128)
   ∨ n = 3%nat ∧ 240 ≤ b ≤ 244 ∧ acc = b - 240 ∧ hi ≤ 191 ∧ (if b =? 240 then lo = 144 else lo = 128))%Z.

(** The bytes of a character that was decoded are those it is encoded as. *)
Lemma decode_boundary_inv b bs cs :
  decode Boundary (b :: bs) = (cs, Complete) →
  ∃ c rest cs', cs = c :: cs' ∧ b :: bs = encode_char c ++ rest ∧ decode Boundary rest = (cs', Complete)
    ∧ (length rest ≤ length bs)%nat.
Proof.
  cbn [decode]. destruct (utf8_byte Boundary b) as [[s oc]|] eqn:Hb; [|done]. intros H.
  cbn [utf8_byte] in Hb.
  destruct (between 0 127 b) eqn:E1.
  { injection Hb as <- <-. destruct (decode Boundary bs) as [cs' e] eqn:Hd. injection H as <- <-.
    exists b, bs, cs'. split_and!; [done| |done|done]. encoded. }
  assert (∃ n lo hi acc, s = Within n lo hi acc ∧ oc = None ∧ (1 ≤ n ≤ 3)%nat ∧ lead n lo hi acc b)
    as (n & lo & hi & acc & -> & -> & Hn & Hlead).
  { unfold lead, between in *. repeat case_match; simplify_eq; eexists _, _, _, _; split_and!; try done; lia. }
  assert (decode (Within n lo hi acc) bs = (cs, Complete)) as Hd by by destruct (decode _ bs).
  clear H Hb. apply decode_within in Hd as (b2 & r2 & -> & H2 & Hd); [|done].
  destruct Hd as [(-> & cs' & -> & Hd)|[Hn2 Hd]].
  { exists (acc * 64 + (b2 - 128))%Z, r2, cs'. split_and!; [done| |done|cbn; lia]. unfold lead in Hlead. encoded. }
  apply decode_within in Hd as (b3 & r3 & -> & H3 & Hd); [|lia].
  destruct Hd as [(Hn3 & cs' & -> & Hd)|[Hn3 Hd]].
  { exists ((acc * 64 + (b2 - 128)) * 64 + (b3 - 128))%Z, r3, cs'. split_and!; [done| |done|cbn; lia].
    unfold lead in Hlead. encoded. }
  apply decode_within in Hd as (b4 & r4 & -> & H4 & Hd); [|lia].
  destruct Hd as [(Hn4 & cs' & -> & Hd)|[Hn4 Hd]]; [|lia].
  exists (((acc * 64 + (b2 - 128)) * 64 + (b3 - 128)) * 64 + (b4 - 128))%Z, r4, cs'.
  split_and!; [done| |done|cbn; lia]. unfold lead in Hlead. encoded.
Qed.

Lemma valid_text_encode bs cs : valid_text bs cs → encode cs = bs.
Proof.
  unfold valid_text. remember (length bs) as n eqn:Hn. revert bs cs Hn.
  induction (lt_wf n) as [n _ IH]. intros bs cs -> H. destruct bs as [|b bs].
  { cbn in H. injection H as <-. done. }
  destruct (decode_boundary_inv _ _ _ H) as (c & rest & cs' & -> & E & Hrest & Hlen).
  assert (length rest < length (b :: bs)) as Hlt by (cbn; lia). rewrite E in Hlt |- *.
  unfold encode. rewrite fmap_cons. change (mjoin (?x :: ?y)) with (x ++ mjoin y). f_equal.
  rewrite E in IH. by apply (IH (length rest) Hlt).
Qed.

(** ** The points of a request *)

Section middleware.
Context {App : Type} (handler : IdemRequest → Program App Reply).

Abbreviation Db := (IdemDb App).
Abbreviation Prog := (Program Db Answer).

Definition claimed_program (k : IdemKey) (p : Program App Reply) : Prog :=
  bind_program (complete_key k) (lift p).

(** What is left neither changes keys nor answers by a claim. *)
Fixpoint quiet (p : Prog) : Prop :=
  match p with
  | Return a => ∀ reply, a ≠ Executed reply
  | Query stmt k => (∀ now db, idb_keys (stmt now db).2 = idb_keys db) ∧ ∀ r, quiet (k r)
  end.

Lemma quiet_bind_lift {A} (f : A → Prog) (p : Program App A) :
  (∀ a, quiet (f a)) → quiet (bind_program f (lift p)).
Proof.
  intros Hf. induction p as [a|R stmt k IH]; cbn; [done|]. split; [|done].
  intros now db. by destruct (stmt now (idb_app db)).
Qed.

Lemma quiet_pass request : quiet (pass_through handler request).
Proof. apply quiet_bind_lift. by intros a reply. Qed.

Lemma quiet_answers p now db reply : quiet p → (exec p now db).1 ≠ Executed reply.
Proof.
  revert db. induction p as [a|R stmt k IH]; intros db; cbn; [done|]. intros [_ Hk].
  destruct (stmt now db) as [r db']. by apply IH.
Qed.

Lemma claimed_answers k p now db : ∃ reply, (exec (claimed_program k p) now db).1 = Executed reply.
Proof.
  unfold claimed_program. revert db. induction p as [reply|R stmt f IH]; intros db; cbn.
  - unfold complete_key. repeat case_match; cbn; repeat case_match; eauto.
  - destruct (stmt now (idb_app db)) as [r app]. apply IH.
Qed.

Lemma finish_other k j f (db : Db) : j ≠ k → idb_keys (finish_pending k f db) !! j = idb_keys db !! j.
Proof. intros Hj. cbn. by rewrite lookup_alter_ne. Qed.

(** The end of an execution is one statement on its key. *)
Lemma complete_shape k reply :
  ∃ (stmt : Stmt Db ()) answer, complete_key k reply = Query stmt (λ _, Return (Executed answer))
    ∧ ∀ now db j, j ≠ k → idb_keys (stmt now db).2 !! j = idb_keys db !! j.
Proof.
  assert (∀ answer, ∃ (stmt : Stmt Db ()) answer',
    bind_program (λ _, Return (Executed answer)) (statement (delete_key k)) = Query stmt (λ _, Return (Executed answer'))
    ∧ ∀ now db j, j ≠ k → idb_keys (stmt now db).2 !! j = idb_keys db !! j) as Hdel.
  { intros answer. exists (delete_key k), answer. split; [done|]. intros now db j Hj. cbn. by rewrite lookup_delete_ne. }
  unfold complete_key. destruct (is_success _); [|apply Hdel]. destruct (rp_body reply) as [bytes|]; [|apply Hdel].
  destruct (_ <=? _)%Z.
  - destruct (from_utf8 bytes) as [body|]; [|apply Hdel].
    exists (mark_completed k (rp_status reply) body), reply. split; [done|]. intros now db j Hj.
    unfold mark_completed. case_decide; [done|]. by apply finish_other.
  - exists (mark_too_large k (rp_status reply)), reply. split; [done|]. intros now db j Hj. by apply finish_other.
Qed.

Lemma claimed_not_return k p a : claimed_program k p ≠ Return a.
Proof.
  unfold claimed_program. destruct p as [reply|R stmt f]; cbn; [|done].
  destruct (complete_shape k reply) as (stmt & answer & -> & _). done.
Qed.

Section request.
Context (request : IdemRequest) (k : IdemKey).

Abbreviation path := (ir_path request).
Abbreviation method := (ir_method request).

Definition after_claim (claim : sdk ClaimResult) : Prog :=
  match claim with
  | Ok Claimed => claimed_program k (handler request)
  | Ok (AlreadyExists existing) => handle_existing_key handler existing k request
  | Err _ => pass_through handler request
  end.

Definition start_program : Prog := try_claim_key k path method ≫= after_claim.

Definition find_program : Prog :=
  Query (find_key k) (λ existing, after_claim
    (match existing with
     | Ok (Some row) => Ok (AlreadyExists row)
     | Ok None => Err (Database (u "Idempotency key vanished between INSERT and SELECT"))
     | Err e => Err e
     end)).

Definition insert_program (t : Z) : Prog :=
  Query (insert_pending k path method t) (λ inserted, bind_program after_claim
    (match inserted with
     | Err e => Return (Err e)
     | Ok true => Return (Ok Claimed)
     | Ok false =>
         Query (find_key k) (λ existing, Return
           (match existing with
            | Ok (Some row) => Ok (AlreadyExists row)
            | Ok None => Err (Database (u "Idempotency key vanished between INSERT and SELECT"))
            | Err e => Err e
            end))
     end)).

Definition after_reclaim (reclaimed : sdk bool) : Prog :=
  match reclaimed with
  | Ok true => claimed_program k (handler request)
  | Ok false => Return (Refused IdempotencyKeyInProgress)
  | Err _ => pass_through handler request
  end.

Definition reclaim_program : Prog := reclaim_stale_key k path method ≫= after_reclaim.

Definition stale_program (t : Z) : Prog := Query (update_stale k path method t) after_reclaim.

Lemma start_run now (db : Db) : run_statement start_program now db = (insert_program now, db).
Proof. reflexivity. Qed.

Lemma reclaim_run now (db : Db) : run_statement reclaim_program now db = (stale_program now, db).
Proof. reflexivity. Qed.

Lemma find_run now (db : Db) :
  run_statement find_program now db
  = (match idb_keys db !! k with
     | Some row => handle_existing_key handler row k request
     | None => pass_through handler request
     end, db).
Proof. cbn. by destruct (idb_keys db !! k). Qed.

Lemma insert_run t now (db : Db) :
  run_statement (insert_program t) now db
  = match idb_keys db !! k with
    | Some _ => (find_program, db)
    | None => (claimed_program k (handler request), with_keys (<[k := pending_row path method t]> (idb_keys db)) db)
    end.
Proof. cbn. unfold insert_pending. by destruct (idb_keys db !! k). Qed.

Lemma existing_pending row : ik_status row = PENDING →
  handle_existing_key handler row k request =
  bind_program (λ now,
    if (Z.quot (now - ik_created_at row) SECOND_US <? STALE_PENDING_SECS)%Z
    then Return (Refused IdempotencyKeyInProgress) else reclaim_program) clock.
Proof. unfold handle_existing_key. intros ->. reflexivity. Qed.

Lemma existing_quiet row : ik_status row ≠ PENDING → quiet (handle_existing_key handler row k request).
Proof.
  intros Hp. unfold handle_existing_key. do 2 (case_decide; [by case_match|]).
  rewrite decide_False by done. apply quiet_pass.
Qed.

(** ** Where a request may be *)

Inductive At (start now : Z) (db : Db) : Prog → Prop :=
  | at_quiet p : quiet p → At start now db p
  | at_start : At start now db start_program
  | at_insert t : (start ≤ t ≤ now)%Z → At start now db (insert_program t)
  | at_find : At start now db find_program
  | at_existing row : ik_status row = PENDING → At start now db (handle_existing_key handler row k request)
  | at_reclaim : At start now db reclaim_program
  | at_stale t : (start ≤ t ≤ now)%Z → At start now db (stale_program t)
  | at_claimed p row :
      idb_keys db !! k = Some row → ik_status row = PENDING → (start ≤ ik_created_at row ≤ now)%Z →
      At start now db (claimed_program k p)
  | at_answer reply : At start now db (Return (Executed reply)).

Definition done_row : IdemRow := finished_row COMPLETED 200 (Some []) 0 (pending_row path method 0).

Lemma other_request_same row :
  ik_request_path row = path → ik_request_method row = method → other_request row request = false.
Proof. unfold other_request. intros -> ->. rewrite !bool_decide_eq_false_2; [done|tauto..]. Qed.

Lemma existing_done row : ik_status row = COMPLETED →
  ik_request_path row = path → ik_request_method row = method →
  handle_existing_key handler row k request
  = Return (Replayed (replayed_status (ik_response_status row)) (encode (default [] (ik_response_body row)))).
Proof.
  intros Hs Hp Hm. unfold handle_existing_key. rewrite decide_True by done. by rewrite (other_request_same row Hp Hm).
Qed.

Lemma find_exec row now (db : Db) : idb_keys db !! k = Some row →
  exec find_program now db = exec (handle_existing_key handler row k request) now db.
Proof. intros Hk. rewrite exec_run_statement, find_run, Hk. done. Qed.

Lemma insert_exec row t now (db : Db) : idb_keys db !! k = Some row →
  exec (insert_program t) now db = exec (handle_existing_key handler row k request) now db.
Proof. intros Hk. rewrite exec_run_statement, insert_run, Hk. cbn [fst snd]. by apply find_exec. Qed.

Lemma start_exec row now (db : Db) : idb_keys db !! k = Some row →
  exec start_program now db = exec (handle_existing_key handler row k request) now db.
Proof. intros Hk. rewrite exec_run_statement, start_run. cbn [fst snd]. by apply insert_exec. Qed.

(** A request at a claimed point holds its row: no other point is the same program. *)
Lemma at_claimed_inv start now (db : Db) p :
  At start now db (claimed_program k p) →
  ∃ row, idb_keys db !! k = Some row ∧ ik_status row = PENDING ∧ (start ≤ ik_created_at row ≤ now)%Z.
Proof.
  remember (claimed_program k p) as q eqn:E. intros HAt.
  assert (∀ now db, ∃ reply, (exec q now db).1 = Executed reply) as Hans by (rewrite E; apply claimed_answers). pose (done := mkIdem {[ k := done_row ]} (idb_app db) : Db).
  pose (none := mkIdem ∅ (idb_app db) : Db).
  assert (idb_keys done !! k = Some done_row) as Hdone by apply lookup_singleton_eq.
  destruct HAt as [q Hq| |t Ht| |row Hrow| |t Ht|p' row Hk Hs Hc|reply].
  - destruct (Hans 0%Z db) as [reply Hr]. by destruct (quiet_answers q 0 db reply Hq).
  - destruct (Hans 0%Z done) as [reply Hr]. by rewrite (start_exec _ _ _ Hdone), existing_done in Hr.
  - destruct (Hans 0%Z done) as [reply Hr]. by rewrite (insert_exec _ _ _ _ Hdone), existing_done in Hr.
  - destruct (Hans 0%Z done) as [reply Hr]. by rewrite (find_exec _ _ _ Hdone), existing_done in Hr.
  - destruct (Hans (ik_created_at row) db) as [reply Hr]. rewrite existing_pending in Hr by done.
    cbn in Hr. by rewrite Z.sub_diag in Hr.
  - by destruct (Hans 0%Z none) as [reply Hr].
  - by destruct (Hans 0%Z none) as [reply Hr].
  - exists row. done.
  - by destruct (claimed_not_return k p (Executed reply)).
Qed.

Lemma quiet_not_claimed (db : Db) p q : quiet p → p ≠ claimed_program k q.
Proof.
  intros Hq ->. destruct (claimed_answers k q 0 db) as [reply Hr]. by destruct (quiet_answers _ 0 db reply Hq).
Qed.

Lemma quiet_run p now (db : Db) :
  quiet p → quiet (run_statement p now db).1 ∧ idb_keys (run_statement p now db).2 = idb_keys db.
Proof.
  destruct p as [a|R stmt f]; cbn; [intros; by split|]. intros [Hs Hf]. pose proof (Hs now db) as Hk.
  destruct (stmt now db) as [r db']. split; [apply Hf|done].
Qed.

(** What a statement does: nothing to the keys, a claim, or the end of a claim. *)
Inductive Effect (start now : Z) (db : Db) (p : Prog) : Prog → Db → Prop :=
  | effect_none p' db' :
      idb_keys db' = idb_keys db → At start now db' p' →
      (∀ q', p' = claimed_program k q' → ∃ q, p = claimed_program k q) →
      Effect start now db p p' db'
  | effect_claim t db' :
      (start ≤ t ≤ now)%Z → idb_keys db' = <[k := pending_row path method t]> (idb_keys db) →
      (∀ row, idb_keys db !! k = Some row → is_stale (t - STALE_PENDING_SECS * SECOND_US) row = true) →
      Effect start now db p (claimed_program k (handler request)) db'
  | effect_end q p' db' answer :
      p = claimed_program k q → (∀ j, j ≠ k → idb_keys db' !! j = idb_keys db !! j) → p' = Return (Executed answer) →
      Effect start now db p p' db'.

Lemma effect_quiet start now (db : Db) p p' db' :
  quiet p' → idb_keys db' = idb_keys db → Effect start now db p p' db'.
Proof.
  intros Hq Hk. apply effect_none; [done|by apply at_quiet|]. intros q' E. by destruct (quiet_not_claimed db p' q' Hq).
Qed.

Lemma effect_moved start now (db : Db) p p' db' :
  idb_keys db' = idb_keys db → At start now db' p' → (∃ now db, ∀ reply, (exec p' now db).1 ≠ Executed reply) →
  Effect start now db p p' db'.
Proof.
  intros Hk Hp (now' & db1 & Hne). apply effect_none; [done|done|]. intros q' ->.
  destruct (claimed_answers k q' now' db1) as [reply Hr]. by destruct (Hne reply).
Qed.

Lemma complete_run reply start now (db : Db) :
  Effect start now db (claimed_program k (Return reply))
    (run_statement (claimed_program k (Return reply)) now db).1
    (run_statement (claimed_program k (Return reply)) now db).2.
Proof.
  destruct (complete_shape k reply) as (stmt & answer & E & Hj). unfold claimed_program. cbn [lift bind_program].
  rewrite E. cbn [run_statement]. destruct (stmt now db) as [r db'] eqn:Es. cbn [fst snd].
  refine (effect_end _ _ _ _ (Return reply) _ _ answer (eq_sym E) _ eq_refl). intros j Hne.
  specialize (Hj now db j Hne). by rewrite Es in Hj.
Qed.

Lemma at_run start now (db : Db) p :
  (start ≤ now)%Z → At start now db p →
  Effect start now db p (run_statement p now db).1 (run_statement p now db).2.
Proof.
  intros Hst HAt. destruct HAt as [p Hq| |t Ht| |row Hrow| |t Ht|q row Hk Hs Hc|reply].
  - destruct (quiet_run p now db Hq) as [Hq' Hk]. by apply effect_quiet.
  - rewrite start_run. cbn [fst snd]. apply effect_moved; [done|by apply at_insert|].
    exists 0%Z, (mkIdem {[ k := done_row ]} (idb_app db)). intros reply.
    rewrite (insert_exec done_row) by apply lookup_singleton_eq. by rewrite existing_done.
  - rewrite insert_run. destruct (idb_keys db !! k) as [row|] eqn:Hk; cbn [fst snd].
    + apply effect_moved; [done|by apply at_find|]. exists 0%Z, (mkIdem {[ k := done_row ]} (idb_app db)). intros reply.
      rewrite (find_exec done_row) by apply lookup_singleton_eq. by rewrite existing_done.
    + eapply effect_claim; [exact Ht|done|]. intros row. by rewrite Hk.
  - rewrite find_run. destruct (idb_keys db !! k) as [row|] eqn:Hk; cbn [fst snd]; [|by apply effect_quiet; [apply quiet_pass|]].
    destruct (decide (ik_status row = PENDING)) as [Hp|Hp]; [|by apply effect_quiet; [apply existing_quiet|]].
    apply effect_moved; [done|by apply at_existing|]. exists (ik_created_at row), db. intros reply.
    rewrite existing_pending by done. cbn. by rewrite Z.sub_diag.
  - rewrite existing_pending by done. cbn [run_statement clock bind_program fst snd].
    destruct (_ <? _)%Z; [by apply effect_quiet|]. apply effect_moved; [done|by apply at_reclaim|].
    by exists 0%Z, (mkIdem ∅ (idb_app db)).
  - rewrite reclaim_run. cbn [fst snd]. apply effect_moved; [done|by apply at_stale|]. by exists 0%Z, (mkIdem ∅ (idb_app db)).
  - cbn [run_statement stale_program]. unfold update_stale. destruct (idb_keys db !! k) as [row|] eqn:Hk; [|by apply effect_quiet].
    destruct (is_stale _ row) eqn:Hstale; [|by apply effect_quiet].
    cbn [fst snd after_reclaim]. eapply effect_claim; [exact Ht|done|]. intros row'. rewrite Hk. by intros [= <-].
  - destruct q as [reply|R stmt f]; [apply complete_run|].
    unfold claimed_program. cbn [lift bind_program run_statement]. destruct (stmt now (idb_app db)) as [r app]. cbn [fst snd].
    apply effect_none; [done| |].
    + by apply (at_claimed _ _ _ (f r) row).
    + intros _ _. by exists (Query stmt f).
  - by apply effect_none; [done|apply at_answer|]; intros q' E; destruct (claimed_not_return k q' (Executed reply)).
Qed.

(** Only a claim depends on the table, and only on its row. *)
Lemma at_or_holds start now (db : Db) p :
  At start now db p →
  (∀ db', At start now db' p)
  ∨ ∃ row, idb_keys db !! k = Some row ∧ ik_status row = PENDING ∧ (start ≤ ik_created_at row ≤ now)%Z
      ∧ (∃ q, p = claimed_program k q) ∧ ∀ db', idb_keys db' !! k = Some row → At start now db' p.
Proof.
  intros HAt. destruct HAt as [p Hq| |t Ht| |row Hrow| |t Ht|q row Hk Hs Hc|reply];
    [left; intros db'..|right|left; intros db'];
    [by apply at_quiet|by apply at_start|by apply at_insert|by apply at_find|by apply at_existing
    |by apply at_reclaim|by apply at_stale| |by apply at_answer].
  exists row. split_and!; try done; try apply Hc; [by exists q|]. intros db' Hk'. by apply (at_claimed _ _ _ _ row).
Qed.

Lemma at_later start now now' (db : Db) p : (now ≤ now')%Z → At start now db p → At start now' db p.
Proof.
  intros Hn HAt. destruct HAt as [p Hq| |t Ht| |row Hrow| |t Ht|q row Hk Hs Hc|reply];
    [by apply at_quiet|by apply at_start|apply at_insert; lia|by apply at_find|by apply at_existing
    |by apply at_reclaim|apply at_stale; lia|apply (at_claimed _ _ _ _ row); [done|done|lia]|by apply at_answer].
Qed.
End request.

(** ** The world *)

Lemma quiet_refused e : quiet (Return (Refused e)).
Proof. by intros reply. Qed.

Lemma middleware_eq request :
  match idem_key request with
  | Some k => idempotency_middleware handler request = start_program request k
  | None => quiet (idempotency_middleware handler request)
  end.
Proof.
  unfold idem_key, idempotency_middleware.
  destruct (decide (ir_method request = u "POST")) as [Hm|Hm]; [|rewrite decide_True by done; apply quiet_pass].
  rewrite decide_False by tauto.
  destruct (ir_key request) as [[key|]|]; cbn [mbind option_bind id]; [|apply quiet_refused|apply quiet_pass].
  destruct (bad_length key); cbn [negb andb]; [apply quiet_refused|].
  destruct (forallb key_char key); cbn [negb]; [|apply quiet_refused].
  destruct (ir_user_id request) as [user_id|]; cbn [mbind option_bind]; [reflexivity|apply quiet_pass].
Qed.

Definition expire_program (t : Z) : Prog := Query (delete_expired (t - HOURS_24)) (λ _, Return CleanedUp).

Definition Local (now : Z) (db : Db) (r : Request Db IdemEvent Answer) : Prop :=
  match rq_event r with
  | Post request =>
      match idem_key request with
      | Some k => At request k (rq_start r) now db (rq_program r)
      | None => quiet (rq_program r)
      end
  | CleanUp =>
      rq_program r = cleanup_expired_keys ∨ (∃ t, (t ≤ now)%Z ∧ rq_program r = expire_program t)
      ∨ rq_program r = Return CleanedUp
  end.

(** The request claimed the key, and executes or is about to end. *)
Definition claimed (k : IdemKey) (r : Request Db IdemEvent Answer) : Prop :=
  ∃ request p, rq_event r = Post request ∧ idem_key request = Some k ∧ rq_program r = claimed_program k p.

Definition Apart (_ : Z) (r s : Request Db IdemEvent Answer) : Prop := ∀ k, claimed k r → claimed k s → False.

Lemma claimed_holds now db r k :
  Local now db r → claimed k r →
  ∃ row, idb_keys db !! k = Some row ∧ ik_status row = PENDING ∧ (rq_start r ≤ ik_created_at row ≤ now)%Z.
Proof.
  intros HL (request & p & He & Hk & Hp). unfold Local in HL. rewrite He, Hk, Hp in HL. by eapply at_claimed_inv.
Qed.

(** What a statement of a request does to the keys. *)
Inductive KeysEffect (now : Z) (db db' : Db) (r : Request Db IdemEvent Answer) : Prop :=
  | keys_same : idb_keys db' = idb_keys db → KeysEffect now db db' r
  | keys_claimed k row t :
      (t ≤ now)%Z → idb_keys db' = <[k := row]> (idb_keys db) →
      (∀ row, idb_keys db !! k = Some row → is_stale (t - STALE_PENDING_SECS * SECOND_US) row = true) →
      KeysEffect now db db' r
  | keys_ended k : claimed k r → (∀ j, j ≠ k → idb_keys db' !! j = idb_keys db !! j) → KeysEffect now db db' r
  | keys_expired cutoff :
      (cutoff ≤ now - HOURS_24)%Z →
      idb_keys db' = filter (λ kr, ¬ (ik_created_at kr.2 < cutoff)%Z) (idb_keys db) →
      KeysEffect now db db' r.

Lemma local_run now db r p' db' :
  Local now db r → (rq_start r ≤ now)%Z → run_statement (rq_program r) now db = (p', db') →
  let r' := mkRequest (rq_event r) (rq_start r) p' in
  Local now db' r' ∧ KeysEffect now db db' r
  ∧ ∀ k, claimed k r' → claimed k r
      ∨ ∃ t, (t ≤ now)%Z ∧ ∀ row, idb_keys db !! k = Some row → is_stale (t - STALE_PENDING_SECS * SECOND_US) row = true.
Proof.
  intros HL Hst Hrun. cbv zeta. destruct r as [e start p]. unfold Local in HL |- *. cbn [rq_event rq_start rq_program] in *.
  destruct e as [request|].
  - destruct (idem_key request) as [k|] eqn:Hk.
    + pose proof (at_run request k start now db p Hst HL) as He. rewrite Hrun in He. cbn [fst snd] in He.
      destruct He as [p' db' Hkeys HAt Hc|t db' Ht Hkeys Hstale|q p' db' answer Hp Hj Hp'].
      * split_and!; [done|by apply keys_same|]. intros j (request' & q' & [= <-] & Hj & Hq'). left.
        assert (j = k) as -> by congruence. destruct (Hc q' Hq') as [q Hq]. by exists request, q.
      * split_and!; [|by eapply (keys_claimed _ _ _ _ k _ t); [lia|..]|].
        -- apply (at_claimed request k start now db' (handler request)
             (pending_row (ir_path request) (ir_method request) t)); [|done|cbn; lia].
           by rewrite Hkeys, lookup_insert_eq.
        -- intros j (request' & q' & [= <-] & Hj & _). right. exists t. split; [lia|]. by simplify_eq.
      * subst p'. split_and!; [apply at_answer|apply (keys_ended _ _ _ _ k); [by exists request, q|done]|].
        intros j (request' & q' & _ & _ & Hq'). by destruct (claimed_not_return j q' (Executed answer)).
    + destruct (quiet_run p now db HL) as [Hq Hkeys]. rewrite Hrun in Hq, Hkeys. cbn [fst snd] in *.
      split_and!; [done|by apply keys_same|]. intros j (request' & q' & [= <-] & Hj & _). congruence.
  - assert (∀ j, ¬ claimed j (mkRequest CleanUp start p')) as Hno by (by intros j (request' & q' & He & _)).
    destruct HL as [->|[(t & Ht & ->)| ->]]; cbn in Hrun; injection Hrun as <- <-.
    + split_and!; [right; left; by exists now|by apply keys_same|]. intros j Hj. by destruct (Hno j).
    + split_and!; [by right; right|by apply (keys_expired _ _ _ _ (t - HOURS_24)); [lia|]|]. intros j Hj. by destruct (Hno j).
    + split_and!; [by right; right|by apply keys_same|]. intros j Hj. by destruct (Hno j).
Qed.

(** ** No two at once *)

Section safety.
Context (latency : Z) (latency_ok : (0 ≤ latency ≤ STALE_PENDING_SECS * SECOND_US)%Z).
(** Rows that are finished, which are kept for a day. *)
Context (kept : gmap IdemKey IdemRow) (kept_finished : map_Forall (λ _ row, ik_status row ≠ PENDING) kept).

Definition Inv (now : Z) (db : Db) : Prop :=
  ∀ k row, kept !! k = Some row → (now ≤ ik_created_at row + HOURS_24)%Z → idb_keys db !! k = Some row.

(** The row of a claim is young. *)
Lemma holds_not_stale now db s k row t :
  Local now db s → in_time latency now s → claimed k s → idb_keys db !! k = Some row → (t ≤ now)%Z →
  is_stale (t - STALE_PENDING_SECS * SECOND_US) row = false.
Proof.
  intros HL Hin Hc Hk Ht. destruct (claimed_holds _ _ _ _ HL Hc) as (row' & Hk' & _ & Hcr). simplify_eq.
  unfold is_stale, in_time in *. rewrite (proj2 (Z.ltb_ge _ _)) by lia. apply andb_false_r.
Qed.

(** What others do leaves the row of a claim as it is. *)
Lemma effect_keeps_claim now db db' r s k row :
  KeysEffect now db db' r → Local now db s → in_time latency now s → Apart now r s →
  claimed k s → idb_keys db !! k = Some row → idb_keys db' !! k = Some row.
Proof.
  intros He HL Hin Ha Hc Hk. destruct He as [Hkeys|j row' t Ht Hkeys Hstale|j Hj Hkeys|cutoff Hcut Hkeys].
  - by rewrite Hkeys.
  - rewrite Hkeys. rewrite lookup_insert_ne; [done|]. intros ->.
    by rewrite (holds_not_stale now db s k row t HL Hin Hc Hk Ht) in Hstale || (specialize (Hstale row Hk);
      rewrite (holds_not_stale now db s k row t HL Hin Hc Hk Ht) in Hstale).
  - rewrite Hkeys; [done|]. intros ->. by destruct (Ha j).
  - rewrite Hkeys. apply map_lookup_filter_Some_2; [done|].
    destruct (claimed_holds _ _ _ _ HL Hc) as (row' & Hk' & _ & Hcr). simplify_eq.
    unfold in_time, HOURS_24, STALE_PENDING_SECS, SECOND_US in *. cbn. lia.
Qed.

(** What requests do leaves a finished row as it is. *)
Lemma effect_keeps_finished now db db' r :
  KeysEffect now db db' r → Local now db r → Inv now db → Inv now db'.
Proof.
  intros He HL HI k row Hk Hnow. pose proof (HI k row Hk Hnow) as Hrow. pose proof (kept_finished k row Hk) as Hfin.
  destruct He as [Hkeys|j row' t Ht Hkeys Hstale|j Hj Hkeys|cutoff Hcut Hkeys].
  - by rewrite Hkeys.
  - rewrite Hkeys, lookup_insert_ne; [done|]. intros ->. specialize (Hstale row Hrow).
    unfold is_stale in Hstale. by rewrite bool_decide_eq_false_2 in Hstale.
  - rewrite Hkeys; [done|]. intros ->. destruct (claimed_holds _ _ _ _ HL Hj) as (row' & Hk' & Hp & _). congruence.
  - rewrite Hkeys. apply map_lookup_filter_Some_2; [done|]. cbn. lia.
Qed.

Lemma local_frame now db db' r s :
  KeysEffect now db db' r → Local now db s → in_time latency now s → Apart now r s → Local now db' s.
Proof.
  intros He HL Hin Ha. unfold Local in HL |- *. destruct (rq_event s) as [request|] eqn:Hev; [|done].
  destruct (idem_key request) as [k|] eqn:Hk; [|done].
  destruct (at_or_holds _ _ _ _ _ _ HL) as [Hany|(row & Hrow & _ & _ & [q Hq] & Hkeep)]; [done|].
  apply Hkeep. apply (effect_keeps_claim now db db' r s k row He); try done; [|by exists request, q].
  unfold Local. by rewrite Hev, Hk.
Qed.

Lemma idem_preserved : Preserved (idem_program handler) idem_commit latency Inv Local Apart.
Proof.
  constructor.
  - intros now now' db Hn HI k row Hk Hle. apply HI; [done|lia].
  - intros now now' db r Hn HL. unfold Local in *. destruct (rq_event r) as [request|].
    + destruct (idem_key request); [by eapply at_later|done].
    + destruct HL as [HL|[(t & Ht & HL)|HL]]; [by left| |by right; right]. right; left. exists t. split; [lia|done].
  - intros now now' r s _ HA. exact HA.
  - intros now db e _. unfold Local. cbn [rq_event rq_start rq_program]. destruct e as [request|]; [|by left].
    pose proof (middleware_eq request) as Hm. cbn [idem_program]. destruct (idem_key request); [|done].
    rewrite Hm. apply at_start.
  - intros now db e r HI HL.
    assert (∀ k, ¬ claimed k (mkRequest e now (idem_program handler e))) as Hno.
    { intros k (request & q & He & Hk & Hq). cbn in He, Hq. subst e. cbn in Hq.
      pose proof (middleware_eq request) as Hm. rewrite Hk, Hq in Hm.
      pose (done := mkIdem {[ k := done_row request ]} (idb_app db) : Db).
      destruct (claimed_answers k q 0 done) as [reply Hr]. rewrite Hm in Hr.
      by rewrite (start_exec request k (done_row request)), existing_done in Hr by (try done; apply lookup_singleton_eq). }
    split; intros k H1 H2; by eapply Hno.
  - intros now db r p' db' HI HL Hst Hin Hrun. destruct (local_run _ _ _ _ _ HL Hst Hrun) as (HL' & He & Hcl).
    split; [by eapply effect_keeps_finished|]. split; [done|]. intros s HLs Hss Hins Hrs Hsr.
    assert (∀ k, claimed k (mkRequest (rq_event r) (rq_start r) p') → claimed k s → False) as Hno.
    { intros k Hk Hs. destruct (Hcl k Hk) as [Hr|(t & Ht & Hstale)]; [by apply (Hrs k)|].
      destruct (claimed_holds _ _ _ _ HLs Hs) as (row & Hrow & _). specialize (Hstale row Hrow).
      by rewrite (holds_not_stale now db s k row t) in Hstale. }
    split_and!; [by eapply local_frame| |]; intros k H1 H2; by eapply Hno.
  - intros now db r a HI HL Hst Hin Hp. done.
Qed.
End safety.

Section theorems.
Context (latency : Z) (latency_ok : (0 ≤ latency ≤ STALE_PENDING_SECS * SECOND_US)%Z).

Abbreviation IdemWorld := (World Db IdemEvent Answer).

Lemma started_ok (w : IdemWorld) : w_requests w = ∅ → world_ok latency (Inv ∅) Local Apart w.
Proof.
  intros Hr. unfold world_ok. rewrite Hr. split_and!.
  - intros k row Hk. by rewrite lookup_empty in Hk.
  - by intros i r Hi.
  - by intros i j r s _ Hi.
Qed.

Lemma idem_reachable_ok (w w' : IdemWorld) :
  w_requests w = ∅ → rtc (idem_step handler latency) w w' → world_ok latency (Inv ∅) Local Apart w'.
Proof.
  intros Hr Hs. refine (world_reachable_ok _ idem_commit latency (Inv ∅) Local Apart w w' _ _ (started_ok w Hr) Hs); [lia|].
  apply idem_preserved; [done|]. apply map_Forall_empty.
Qed.

(** C13. While every request ends within two minutes, two requests never execute for one
    claim of a key: whatever requests come, are dropped and clean up, at most one is at
    the statements of its handler or at the end of its claim. *)
Theorem claimed_executions_exclusive (w w' : IdemWorld) i j r s k :
  w_requests w = ∅ → rtc (idem_step handler latency) w w' →
  w_requests w' !! i = Some r → w_requests w' !! j = Some s → claimed k r → claimed k s → i = j.
Proof.
  intros Hr Hs Hi Hj Hcr Hcs. destruct (idem_reachable_ok w w' Hr Hs) as (_ & _ & Ha).
  destruct (decide (i = j)) as [|Hij]; [done|]. by destruct (Ha i j r s Hij Hi Hj k Hcr Hcs).
Qed.

Lemma replay_exec (db : Db) request k row now :
  idem_key request = Some k → idb_keys db !! k = Some row → ik_status row = COMPLETED →
  ik_request_path row = ir_path request → ik_request_method row = ir_method request →
  exec (idempotency_middleware handler request) now db
  = (Replayed (replayed_status (ik_response_status row)) (encode (default [] (ik_response_body row))), db).
Proof.
  intros Hk Hrow Hst Hp Hm. pose proof (middleware_eq request) as He. rewrite Hk in He.
  by rewrite He, (start_exec request k row), existing_done.
Qed.

End theorems.

(** ** The same answer *)

Lemma exec_lift {A} (p : Program App A) now (db : Db) :
  exec (lift p) now db = ((exec p now (idb_app db)).1, mkIdem (idb_keys db) (exec p now (idb_app db)).2).
Proof.
  revert db. induction p as [a|R stmt k IH]; intros [keys app]; cbn; [done|].
  destruct (stmt now app) as [r app']. by rewrite IH.
Qed.

(** A request that succeeds is executed once: sent again, it is answered with the
    status and the bytes of the first answer, and changes nothing. *)
Theorem retry_answered_the_same request k (db : Db) now status bytes text later :
  idem_key request = Some k → idb_keys db !! k = None →
  (exec (handler request) now (idb_app db)).1 = {| rp_status := status; rp_body := Some bytes |} →
  is_success status = true → (Z.of_nat (length bytes) ≤ MAX_RESPONSE_BODY_SIZE)%Z →
  from_utf8 bytes = Ok text → 0%Z ∉ text →
  let first := exec (idempotency_middleware handler request) now db in
  first.1 = Executed {| rp_status := status; rp_body := Some bytes |}
  ∧ idb_app first.2 = (exec (handler request) now (idb_app db)).2
  ∧ exec (idempotency_middleware handler request) later first.2 = (Replayed status bytes, first.2).
Proof.
  intros Hk Hnone Hreply Hok Hlen Htext Hnul. cbv zeta.
  assert (exec (idempotency_middleware handler request) now db
    = (Executed {| rp_status := status; rp_body := Some bytes |},
       mkIdem (<[k := finished_row COMPLETED status (Some text) now (pending_row (ir_path request) (ir_method request) now)]>
                 (idb_keys db)) (exec (handler request) now (idb_app db)).2)) as He.
  { pose proof (middleware_eq request) as He. rewrite Hk in He. rewrite He, exec_run_statement, start_run. cbn [fst snd].
    rewrite exec_run_statement, insert_run, Hnone. cbn [fst snd]. unfold claimed_program.
    rewrite exec_bind, exec_lift. cbn [fst snd idb_app with_keys]. rewrite Hreply. unfold complete_key. cbn [rp_status rp_body].
    rewrite Hok, (proj2 (Z.leb_le _ _) Hlen), Htext.
    cbn [statement mbind Program_bind bind_program exec]. unfold mark_completed. rewrite decide_False by done.
    unfold finish_pending, with_keys. cbn [exec idb_keys idb_app]. by rewrite alter_insert_eq. }
  rewrite He. split_and!; [done|done|]. cbn [snd].
  rewrite (replay_exec _ request k _ later Hk (lookup_insert_eq _ _ _)) by done.
  change (default [] _) with text. change (replayed_status _) with (if decide (100 ≤ status ≤ 999)%Z then status else 200%Z).
  assert (valid_text bytes text) as Hv by (pose proof (from_utf8_spec bytes) as Hs; by rewrite Htext in Hs).
  rewrite (valid_text_encode bytes text Hv). repeat f_equal. unfold is_success in Hok.
  apply andb_prop in Hok as [H1 H2]. apply Z.leb_le in H1. apply Z.ltb_lt in H2. by rewrite decide_True by lia.
Qed.
End middleware.

(** ** Requests that are sent again
    A handler that counts its calls and fails the first, at which the theorems of
    [IdempotencyProofs] apply, and the one way to execute without a claim. *)

(** The answer to each call. *)
Definition ie_reply (calls : nat) : Reply :=
  {| rp_status := if decide (calls = 0) then 500 else 201; rp_body := Some (encode (u "{}")) |}.

Definition ie_handler (_ : IdemRequest) : Program nat Reply :=
  Query (λ _ calls, (Ok calls, S calls)) (λ r, Return (match r with Ok calls => ie_reply calls | Err _ => ie_reply 0 end)).

Definition ie_request : IdemRequest := {|
  ir_method := u "POST"; ir_path := u "/v1/problems/7/submissions"; ir_key := Some (Some (u "k-1"));
  ir_user_id := Some 3%Z |}.

Definition ie_key : IdemKey := (u "k-1", 3%Z).

Abbreviation IeWorld := (World (IdemDb nat) IdemEvent Answer).

(** [calls]: how often the handler was called before. *)
Definition ie_start (calls : nat) : IeWorld := mkWorld 0 (mkIdem ∅ calls) ∅.

Definition ie_latency : Z := 60 * SECOND_US.

Abbreviation ie_acts := (acts (idem_program ie_handler) idem_commit ie_latency).

Definition ie_after (l : list (Action IdemEvent)) (calls : nat) : IeWorld :=
  default (ie_start calls) (ie_acts l (ie_start calls)).

Lemma ie_reached l calls :
  is_Some (ie_acts l (ie_start calls)) → rtc (idem_step ie_handler ie_latency) (ie_start calls) (ie_after l calls).
Proof. intros [w Hw]. unfold ie_after. rewrite Hw. by apply (acts_steps _ _ _ l). Qed.

Lemma acts_app l l' (w : IeWorld) : ie_acts (l ++ l') w = ie_acts l w ≫= ie_acts l'.
Proof.
  revert w. induction l as [|a l IH]; intros w; [done|]. cbn [app acts].
  destruct (act (idem_program ie_handler) idem_commit ie_latency a w); cbn [mbind option_bind]; [apply IH|done].
Qed.

Lemma ie_then l l' calls :
  is_Some (ie_acts (l ++ l') (ie_start calls)) →
  rtc (idem_step ie_handler ie_latency) (ie_after l calls) (ie_after (l ++ l') calls).
Proof.
  intros [w Hw]. unfold ie_after. rewrite Hw. rewrite acts_app in Hw.
  destruct (ie_acts l (ie_start calls)) as [w1|]; [|done]. by apply (acts_steps _ _ _ l').
Qed.

Lemma ie_latency_ok : (0 ≤ ie_latency ≤ STALE_PENDING_SECS * SECOND_US)%Z.
Proof. done. Qed.

(** A request begins, reads the clock and inserts its key. *)
Definition ie_claim (i : nat) : list (Action IdemEvent) := [Begin i (Post ie_request); Run i; Run i].

Definition ie_claiming : Request (IdemDb nat) IdemEvent Answer :=
  mkRequest (Post ie_request) 0 (claimed_program ie_key (ie_handler ie_request)).

Lemma ie_claiming_claimed : claimed ie_key ie_claiming.
Proof. exists ie_request, (ie_handler ie_request). by split_and!. Qed.

Lemma ie_claiming_in : w_requests (ie_after (ie_claim 0) 1) !! 0 = Some ie_claiming.
Proof. reflexivity. Qed.

Lemma claimed_executions_exclusive_witness :
  w_requests (ie_after (ie_claim 0) 1) !! 0 = Some ie_claiming ∧ 0 = 0.
Proof.
  split; [exact ie_claiming_in|].
  refine (claimed_executions_exclusive ie_handler ie_latency ie_latency_ok (ie_start 1) (ie_after (ie_claim 0) 1) 0 0
           ie_claiming ie_claiming ie_key eq_refl _ ie_claiming_in ie_claiming_in ie_claiming_claimed ie_claiming_claimed).
  apply ie_reached. by_decide.
Defined.

(** The handler, the end of the claim, and a second request an hour later. *)
Definition ie_done : list (Action IdemEvent) := ie_claim 0 ++ [Run 0; Run 0; Commit 0].
Definition ie_again : list (Action IdemEvent) :=
  [Tick (3600 * SECOND_US); Begin 1 (Post ie_request); Run 1; Run 1; Run 1; Begin 2 CleanUp; Run 2; Run 2; Commit 2].

Definition ie_row : IdemRow :=
  finished_row COMPLETED 201 (Some (u "{}")) 0 (pending_row (ir_path ie_request) (ir_method ie_request) 0).


Lemma retry_answered_the_same_witness :
  (exec (idempotency_middleware ie_handler ie_request) 100
     (exec (idempotency_middleware ie_handler ie_request) 0 (mkIdem ∅ 1)).2).1 = Replayed 201 (encode (u "{}")).
Proof.
  destruct (retry_answered_the_same ie_handler ie_request ie_key (mkIdem ∅ 1) 0 201 (encode (u "{}")) (u "{}") 100
    eq_refl (lookup_empty ie_key) eq_refl eq_refl ltac:(by vm_compute) ltac:(by vm_compute)
    ltac:(apply (bool_decide_unpack _); vm_compute; exact I)) as (_ & _ & He).
  exact (f_equal fst He).
Defined.

Definition ie_answer (i : nat) (w : IeWorld) : option Answer :=
  r ← w_requests w !! i; match rq_program r with Return a => Some a | _ => None end.

(** The first request fails and deletes its key between the two statements of the
    second, which then executes without a claim, beside a third that claims. *)
Definition ie_vanish : list (Action IdemEvent) :=
  ie_claim 0 ++ [Begin 1 (Post ie_request); Run 1; Run 1; Run 0; Run 0; Run 1] ++ ie_claim 2 ++ [Run 1; Run 2; Run 2].

Lemma vanished_key_executes_twice :
  (λ w, (idb_app (w_db w), ie_answer 1 w, ie_answer 2 w)) <$> ie_acts ie_vanish (ie_start 0)
  = Some (3, Some (Passed (ie_reply 1)), Some (Executed (ie_reply 2))).
Proof. by vm_compute. Qed.
