(* ===== verification/OperationBatch.v ===== *)
(** * OperationBatch: operations on their way to the workers and back

    packages/server/src/services/operation_batch.rs, registry.rs (the batches and the
    reaper) and consumers/operation_result.rs: an operation is published to a queue, its
    result comes back by its id, a task of its own forwards it into the channel of its
    batch, and a wait takes it from there, with a ceiling.

    The server is a world in which all of these act at any time, a label at a time.
    Times are in milliseconds.  The channel and the count of a batch are shared by
    reference: they outlive its entry in the registry. *)

From stdpp Require Import gmap.
From S2P Require Import Prelude Text Float Json PluginConfig Checkers.

(** ** Where an operation goes *)

Definition is_valid_server_id (id : ustring) : bool :=
  negb (bool_decide (id = [])) && (str_len id <=? 128)%nat
  && negb (ends_with (u "_processing") id) && negb (ends_with (u "_failed") id)
  && negb (ends_with (u "_fairness_set") id)
  && forallb (λ c, is_ascii_alphanumeric c || (c =? 45) || (c =? 95) || (c =? 46))%Z id.

Definition worker_private_queue_name (shared_queue worker_id : ustring) : ustring :=
  shared_queue ++ u ":worker:" ++ worker_id.

Definition WORKER_HEARTBEAT_KEY_PREFIX : ustring := u "broccoli:worker:heartbeat:".

Definition target_operation_queue (shared_queue : ustring) (target_worker_id : option ustring) : ustring :=
  match target_worker_id with
  | Some worker_id =>
      if is_valid_server_id worker_id then worker_private_queue_name shared_queue worker_id else shared_queue
  | None => shared_queue
  end.

(** [EXISTS] answers a number or fails. *)
Inductive Redis := NoRedis | NoConnection | Connected (exists_key : ustring → option Z).

Definition target_worker_is_live (redis : Redis) (worker_id : ustring) : bool :=
  match redis with
  | NoRedis | NoConnection => true
  | Connected exists_key =>
      match exists_key (WORKER_HEARTBEAT_KEY_PREFIX ++ worker_id) with
      | Some n => (0 <? n)%Z
      | None => true
      end
  end.

Definition effective_target (redis : Redis) (op : OperationTask) : option ustring :=
  match target_worker_id op with
  | Some worker_id =>
      if negb (is_valid_server_id worker_id) then None
      else if negb (target_worker_is_live redis worker_id) then None
      else Some worker_id
  | None => None
  end.

(** A priority of the queue is 1 to 5. *)
Definition normalize_publish_priority (priority : option Z) : option Z :=
  (λ p, Z.max 1 (Z.min 5 p)) <$> priority.

(** ** Large files *)

Definition INLINE_FILE_BLOB_THRESHOLD_BYTES : Z := 1048576.

Section blobs.
(** The store of blobs. *)
Context {B : Type} (put : ustring → B → result ustring ustring * B).

Definition externalize_file (file : SessionFile) (b : B) : result ustring SessionFile * B :=
  match file with
  | SfContent content =>
      if (Z.of_nat (str_len content) <? INLINE_FILE_BLOB_THRESHOLD_BYTES)%Z then (Ok file, b)
      else let '(r, b) := put content b in (SfBlob <$> r, b)
  | _ => (Ok file, b)
  end.

Fixpoint externalize_files (files : list (ustring * SessionFile)) (b : B)
    : result ustring (list (ustring * SessionFile)) * B :=
  match files with
  | [] => (Ok [], b)
  | (path, file) :: files =>
      match externalize_file file b with
      | (Ok file, b) =>
          let '(r, b) := externalize_files files b in (cons (path, file) <$> r, b)
      | (Err e, b) => (Err e, b)
      end
  end.

Fixpoint externalize_environments (envs : list Environment) (b : B) : result ustring (list Environment) * B :=
  match envs with
  | [] => (Ok [], b)
  | env :: envs =>
      match externalize_files (files_in env) b with
      | (Ok files, b) =>
          let '(r, b) := externalize_environments envs b in
          (cons {| env_id := env_id env; files_in := files |} <$> r, b)
      | (Err e, b) => (Err e, b)
      end
  end.

Definition with_environments (envs : list Environment) (op : OperationTask) : OperationTask := {|
  environments := envs; tasks := tasks op; channels := channels op; priority := priority op;
  target_worker_id := target_worker_id op; evaluate_batch_id := evaluate_batch_id op;
  op_test_case_id := op_test_case_id op |}.

Definition externalize_large_inline_files (op : OperationTask) (b : B) : result ustring OperationTask * B :=
  let '(r, b) := externalize_environments (environments op) b in
  ((λ envs, with_environments envs op) <$> r, b).
End blobs.

(** ** Messages *)

(** The payload is the operation as a document; the constant fields and the trace are
    left out. *)
Record Task := {
  tk_id : ustring;
  tk_payload : OperationTask;
  tk_result_queue : ustring;
  tk_reply_queue : option ustring;
  tk_priority : option Z;
}.

Record TaskResult := {
  tr_task_id : ustring;
  tr_success : bool;
  tr_output : Value;
  tr_error : option ustring;
  tr_worker_id : option ustring;
}.

(** What a forwarder sends when its waiter is dropped. *)
Definition cancelled_result (correlation_id : ustring) : TaskResult := {|
  tr_task_id := correlation_id; tr_success := false; tr_output := VObject [];
  tr_error := Some (u "Operation cancelled or timed out"); tr_worker_id := None |}.

Section decode.
(** [serde_json::from_value]. *)
Context (operation_result_of : Value → option OperationResult).

Definition operation_result_from_task_result (r : TaskResult) : result ustring OperationResult :=
  match operation_result_of (tr_output r) with
  | Some o => Ok o
  | None => Err (default (u "Worker did not return an OperationResult") (tr_error r))
  end.
End decode.

(** ** The server *)

(** The task that waits for one result: its oneshot is open, resolved (by the result, or
    by the drop of the waiter), its result sent, the count decremented, its sender
    dropped. *)
Inductive ForwarderState :=
  | FwWaiting
  | FwReady (r : TaskResult)
  | FwSent (r : TaskResult)
  | FwCounted (r : TaskResult)
  | FwDone (r : TaskResult).

Record Forwarder := mkForwarder { fd_batch : ustring; fd_state : ForwarderState }.

Record BatchState := {
  bt_created_at : Z;
  bt_cleanup_keys : list ustring;
  bt_poisoned : bool;
}.

Record SharedBatch := mkShared { sb_keys : list ustring; sb_results : list TaskResult; sb_pending : Z }.

(** An operation of a batch that is being started. *)
Inductive OpPhase := OpFresh | OpInserted | OpPublished.

#[global] Instance OpPhase_eq_dec : EqDecision OpPhase.
Proof. solve_decision. Defined.

(** How a wait ends. *)
Inductive WaitOutcome := WoResult (r : TaskResult) | WoNothing | WoDisconnected | WoNotFound.

(** [WpGivingUp]: about to drain, at the ceiling or because nothing is pending. *)
Inductive WaitPhase :=
  | WpReceiving
  | WpTicked
  | WpGivingUp (ceiling : bool)
  | WpDelivered (r : TaskResult)
  | WpEnded (outcome : WaitOutcome) (ceiling : bool).

Record Wait := mkWait { wt_batch : ustring; wt_deadline : Z; wt_phase : WaitPhase }.

Record OpWorld := mkOw {
  ow_now : Z;
  ow_batches : gmap ustring BatchState;
  ow_waiters : gset ustring;
  ow_shared : gmap ustring SharedBatch;
  ow_forwarders : gmap ustring Forwarder;
  ow_starting : gmap ustring (gmap ustring (OperationTask * OpPhase));
  ow_published : list (ustring * Task);
  ow_waits : gmap nat Wait;
  ow_dead_letters : list ustring;
}.

Definition with_batches (x : gmap ustring BatchState) (w : OpWorld) : OpWorld :=
  mkOw (ow_now w) x (ow_waiters w) (ow_shared w) (ow_forwarders w) (ow_starting w) (ow_published w) (ow_waits w) (ow_dead_letters w).
Definition with_shared (x : gmap ustring SharedBatch) (w : OpWorld) : OpWorld :=
  mkOw (ow_now w) (ow_batches w) (ow_waiters w) x (ow_forwarders w) (ow_starting w) (ow_published w) (ow_waits w) (ow_dead_letters w).
Definition with_starting (x : gmap ustring (gmap ustring (OperationTask * OpPhase))) (w : OpWorld) : OpWorld :=
  mkOw (ow_now w) (ow_batches w) (ow_waiters w) (ow_shared w) (ow_forwarders w) x (ow_published w) (ow_waits w) (ow_dead_letters w).
Definition with_forwarder (key : ustring) (f : Forwarder) (w : OpWorld) : OpWorld :=
  mkOw (ow_now w) (ow_batches w) (ow_waiters w) (ow_shared w) (<[key := f]> (ow_forwarders w)) (ow_starting w) (ow_published w) (ow_waits w) (ow_dead_letters w).
Definition with_wait (i : nat) (x : Wait) (w : OpWorld) : OpWorld :=
  mkOw (ow_now w) (ow_batches w) (ow_waiters w) (ow_shared w) (ow_forwarders w) (ow_starting w) (ow_published w) (<[i := x]> (ow_waits w)) (ow_dead_letters w).

(** The oneshot of a forwarder resolves. *)
Definition resolve (r : TaskResult) (f : Forwarder) : Forwarder :=
  match fd_state f with FwWaiting => mkForwarder (fd_batch f) (FwReady r) | _ => f end.

(** Removing a waiter drops its sender. *)
Definition drop_waiter (key : ustring) (w : OpWorld) : OpWorld :=
  if decide (key ∈ ow_waiters w) then
    mkOw (ow_now w) (ow_batches w) (ow_waiters w ∖ {[ key ]}) (ow_shared w)
      (alter (resolve (cancelled_result key)) key (ow_forwarders w))
      (ow_starting w) (ow_published w) (ow_waits w) (ow_dead_letters w)
  else w.

Definition drop_waiters (keys : list ustring) (w : OpWorld) : OpWorld := foldl (λ w key, drop_waiter key w) w keys.

(** *** Starting a batch *)

Section server.
Context (queue_name result_queue_name : ustring) (redis : Redis) (batch_max_age : Z).

(** The ids of a batch and of its operations are fresh. *)
Definition unused (batch_id : ustring) (keys : list ustring) (w : OpWorld) : Prop :=
  ow_shared w !! batch_id = None ∧ NoDup keys
  ∧ Forall (λ key, ow_forwarders w !! key = None ∧ key ∉ ow_waiters w
      ∧ map_Forall (λ _ sh, key ∉ sb_keys sh) (ow_shared w)) keys.

#[global] Instance unused_dec batch_id keys w : Decision (unused batch_id keys w).
Proof. unfold unused. apply _. Defined.

Definition begin_batch (batch_id : ustring) (ops : list (ustring * OperationTask)) (w : OpWorld) : OpWorld :=
  mkOw (ow_now w)
    (<[batch_id := {| bt_created_at := ow_now w; bt_cleanup_keys := ops.*1; bt_poisoned := false |}]> (ow_batches w))
    (ow_waiters w)
    (<[batch_id := mkShared ops.*1 [] (Z.of_nat (length ops))]> (ow_shared w))
    (ow_forwarders w)
    (<[batch_id := list_to_map ((λ o, (o.1, (o.2, OpFresh))) <$> ops)]> (ow_starting w))
    (ow_published w) (ow_waits w) (ow_dead_letters w).

(** The waiter is there, and the forwarder, before the operation is published. *)
Definition insert_waiter (batch_id key : ustring) (w : OpWorld) : option OpWorld :=
  ops ← ow_starting w !! batch_id;
  '(op, phase) ← ops !! key;
  match phase with
  | OpFresh => Some (mkOw (ow_now w) (ow_batches w) ({[ key ]} ∪ ow_waiters w) (ow_shared w)
                      (<[key := mkForwarder batch_id FwWaiting]> (ow_forwarders w))
                      (<[batch_id := <[key := (op, OpInserted)]> ops]> (ow_starting w))
                      (ow_published w) (ow_waits w) (ow_dead_letters w))
  | _ => None
  end.

Definition operation_task (key : ustring) (op : OperationTask) : Task := {|
  tk_id := key; tk_payload := op; tk_result_queue := result_queue_name;
  tk_reply_queue := Some result_queue_name; tk_priority := normalize_publish_priority (priority op) |}.

(** [op']: the operation with its large files in the store. *)
Definition publish_operation (batch_id key : ustring) (op' : OperationTask) (w : OpWorld) : option OpWorld :=
  ops ← ow_starting w !! batch_id;
  '(op, phase) ← ops !! key;
  match phase with
  | OpInserted => Some (mkOw (ow_now w) (ow_batches w) (ow_waiters w) (ow_shared w) (ow_forwarders w)
                    (<[batch_id := <[key := (op, OpPublished)]> ops]> (ow_starting w))
                    (ow_published w ++ [(target_operation_queue queue_name (effective_target redis op), operation_task key op')])
                    (ow_waits w) (ow_dead_letters w))
  | _ => None
  end.

Definition cleanup_failed_operation_batch (batch_id : ustring) (keys : list ustring) (w : OpWorld) : OpWorld :=
  drop_waiters keys (with_batches (delete batch_id (ow_batches w)) w).

(** A failure of one drops the others. *)
Definition fail_batch (batch_id : ustring) (w : OpWorld) : option OpWorld :=
  _ ← ow_starting w !! batch_id;
  shared ← ow_shared w !! batch_id;
  Some (cleanup_failed_operation_batch batch_id (sb_keys shared) (with_starting (delete batch_id (ow_starting w)) w)).

Definition end_start (batch_id : ustring) (w : OpWorld) : option OpWorld :=
  ops ← (ow_starting w !! batch_id : option (gmap ustring (OperationTask * OpPhase)));
  if decide (map_Forall (λ _ o, o.2 = OpPublished) ops)
  then Some (with_starting (delete batch_id (ow_starting w)) w) else None.

(** *** Results *)

(** The consumer of the result queue: the first result of an operation takes its waiter;
    one without a waiter is dropped. *)
Definition consume_result (r : TaskResult) (w : OpWorld) : OpWorld :=
  if decide (tr_task_id r ∈ ow_waiters w) then
    mkOw (ow_now w) (ow_batches w) (ow_waiters w ∖ {[ tr_task_id r ]}) (ow_shared w)
      (alter (resolve r) (tr_task_id r) (ow_forwarders w))
      (ow_starting w) (ow_published w) (ow_waits w) (ow_dead_letters w)
  else w.

(** [spawn_waiter_forwarder]: send, then count, then drop the sender. *)
Definition forward (key : ustring) (w : OpWorld) : option OpWorld :=
  f ← ow_forwarders w !! key;
  match fd_state f with
  | FwReady r =>
      let send := λ sh, mkShared (sb_keys sh) (sb_results sh ++ [r]) (sb_pending sh) in
      Some (with_forwarder key (mkForwarder (fd_batch f) (FwSent r))
              (with_shared (alter send (fd_batch f) (ow_shared w)) w))
  | FwSent r =>
      let count := λ sh, mkShared (sb_keys sh) (sb_results sh) (sb_pending sh - 1) in
      Some (with_forwarder key (mkForwarder (fd_batch f) (FwCounted r))
              (with_shared (alter count (fd_batch f) (ow_shared w)) w))
  | FwCounted r => Some (with_forwarder key (mkForwarder (fd_batch f) (FwDone r)) w)
  | _ => None
  end.

(** *** Waits *)

Definition operation_infra_floor : Z := 30 * 60 * 1000.

Definition begin_wait (i : nat) (batch_id : ustring) (timeout : Z) (w : OpWorld) : option OpWorld :=
  if decide (ow_waits w !! i = None) then
    let phase := if decide (is_Some (ow_batches w !! batch_id)) then WpReceiving else WpEnded WoNotFound false in
    Some (with_wait i (mkWait batch_id (ow_now w + Z.max timeout operation_infra_floor) phase) w)
  else None.

(** Senders: the call that starts the batch, and the forwarders that are not done. *)
Definition sends_to (batch_id : ustring) (f : Forwarder) : bool :=
  bool_decide (fd_batch f = batch_id) && match fd_state f with FwDone _ => false | _ => true end.

Definition disconnected (batch_id : ustring) (w : OpWorld) : bool :=
  bool_decide (ow_starting w !! batch_id = None)
  && forallb (λ kf, negb (sends_to batch_id kf.2)) (map_to_list (ow_forwarders w)).

(** The channel as a wait sees it. *)
Definition results_of (batch_id : ustring) (w : OpWorld) : list TaskResult :=
  match ow_shared w !! batch_id with Some sh => sb_results sh | None => [] end.

Definition pending_of (batch_id : ustring) (w : OpWorld) : Z :=
  match ow_shared w !! batch_id with Some sh => sb_pending sh | None => 0 end.

Definition take_result (batch_id : ustring) (w : OpWorld) : option (TaskResult * OpWorld) :=
  sh ← ow_shared w !! batch_id;
  match sb_results sh with
  | r :: rs => Some (r, with_shared (<[batch_id := mkShared (sb_keys sh) rs (sb_pending sh)]> (ow_shared w)) w)
  | [] => None
  end.

(** The bookkeeping of a delivery: the batch is removed when nothing is left of it. *)
Definition finish_operation_delivered (batch_id : ustring) (w : OpWorld) : OpWorld :=
  if bool_decide (pending_of batch_id w = 0%Z) && bool_decide (results_of batch_id w = [])
  then with_batches (delete batch_id (ow_batches w)) w else w.

(** What a wait does next: at the head of the loop, [tick] says that the time of the
    receive is up although the channel may not be empty. *)
Definition wait_step (i : nat) (tick : bool) (w : OpWorld) : option OpWorld :=
  x ← ow_waits w !! i;
  let batch_id := wt_batch x in
  let enter := λ phase, with_wait i (mkWait batch_id (wt_deadline x) phase) in
  match wt_phase x with
  | WpReceiving =>
      if (wt_deadline x <=? ow_now w)%Z then Some (enter (WpGivingUp true) w)
      else if tick then Some (enter WpTicked w)
      else
        match take_result batch_id w with
        | Some (r, w) => Some (enter (WpDelivered r) w)
        | None => if disconnected batch_id w then Some (enter (WpEnded WoDisconnected false) w) else None
        end
  | WpTicked =>
      if (0 <? pending_of batch_id w)%Z then Some (enter WpReceiving w) else Some (enter (WpGivingUp false) w)
  | WpGivingUp ceiling =>
      match take_result batch_id w with
      | Some (r, w) => Some (enter (WpDelivered r) w)
      | None => Some (enter (WpEnded WoNothing ceiling) w)
      end
  | WpDelivered r => Some (enter (WpEnded (WoResult r) false) (finish_operation_delivered batch_id w))
  | WpEnded _ _ => None
  end.

(** *** Cancellation and the reaper *)

Definition cancel_operation_batch (batch_id : ustring) (w : OpWorld) : OpWorld :=
  match ow_batches w !! batch_id with
  | Some b => drop_waiters (bt_cleanup_keys b) (with_batches (delete batch_id (ow_batches w)) w)
  | None => w
  end.

(** A batch that is too old is first poisoned: its waiters are dropped, and its
    operations reported dead; the next time it is removed. *)
Definition reap_batch (batch_id : ustring) (w : OpWorld) : OpWorld :=
  match ow_batches w !! batch_id with
  | Some b =>
      if (ow_now w - bt_created_at b <=? batch_max_age)%Z then w
      else if bt_poisoned b then with_batches (delete batch_id (ow_batches w)) w
      else
        let w := drop_waiters (bt_cleanup_keys b) w in
        mkOw (ow_now w)
          (<[batch_id := {| bt_created_at := bt_created_at b; bt_cleanup_keys := bt_cleanup_keys b;
                            bt_poisoned := true |}]> (ow_batches w))
          (ow_waiters w) (ow_shared w) (ow_forwarders w) (ow_starting w) (ow_published w) (ow_waits w)
          (ow_dead_letters w ++ bt_cleanup_keys b)
  | None => w
  end.

(** ** The world *)

Inductive OpLabel :=
  | OTick (now : Z)
  | OStart (batch_id : ustring) (ops : list (ustring * OperationTask))
  | OInsert (batch_id key : ustring)
  | OPublish (batch_id key : ustring) (op' : OperationTask)
  | OFail (batch_id : ustring)
  | OStarted (batch_id : ustring)
  | OResult (r : TaskResult)
  | OForward (key : ustring)
  | OWait (i : nat) (batch_id : ustring) (timeout : Z)
  | OWaitStep (i : nat) (tick : bool)
  | OCancel (batch_id : ustring)
  | OReap (batch_id : ustring).

(** A label that cannot act now has no successor. *)
Definition op_act (l : OpLabel) (w : OpWorld) : option OpWorld :=
  match l with
  | OTick now =>
      if (ow_now w <=? now)%Z
      then Some (mkOw now (ow_batches w) (ow_waiters w) (ow_shared w) (ow_forwarders w) (ow_starting w)
                   (ow_published w) (ow_waits w) (ow_dead_letters w)) else None
  | OStart batch_id ops => if decide (unused batch_id ops.*1 w) then Some (begin_batch batch_id ops w) else None
  | OInsert batch_id key => insert_waiter batch_id key w
  | OPublish batch_id key op' => publish_operation batch_id key op' w
  | OFail batch_id => fail_batch batch_id w
  | OStarted batch_id => end_start batch_id w
  | OResult r => Some (consume_result r w)
  | OForward key => forward key w
  | OWait i batch_id timeout => begin_wait i batch_id timeout w
  | OWaitStep i tick => wait_step i tick w
  | OCancel batch_id => Some (cancel_operation_batch batch_id w)
  | OReap batch_id => Some (reap_batch batch_id w)
  end.

Fixpoint op_run (ls : list OpLabel) (w : OpWorld) : option OpWorld :=
  match ls with [] => Some w | l :: ls => w ← op_act l w; op_run ls w end.
End server.

(** The server when it starts. *)
Definition op_start (now : Z) : OpWorld := mkOw now ∅ ∅ ∅ ∅ ∅ [] ∅ [].
