(* ===== verification/OperationBatchProofs.v ===== *)
(** * OperationBatchProofs: no result of an operation is lost

    Whatever the consumer, the forwarders, the waits, cancellations and the reaper do in
    turn, a wait that gives up because nothing is pending has nothing to receive: every
    result of its batch was received; a result is received once; and the first result
    that comes back of an operation is the one that is received. *)

From stdpp Require Import gmap.
From S2P Require Import Prelude Text Float Json PluginConfig Checkers OperationBatch.

(** ** The ledger of results *)

(** The result a wait has taken. *)
Definition holds (p : WaitPhase) : option TaskResult :=
  match p with
  | WpDelivered r | WpEnded (WoResult r) _ => Some r
  | _ => None
  end.

(** The wait saw that nothing was pending. *)
Definition saw_none (p : WaitPhase) : bool :=
  match p with WpGivingUp ceiling => negb ceiling | WpEnded WoNothing ceiling => negb ceiling | _ => false end.

Record ledger_ok (shared : gmap ustring SharedBatch) (sent : ustring → option (ustring * TaskResult))
    (counted : ustring → bool) (waits : gmap nat Wait) : Prop := {
  l_keys b sh : shared !! b = Some sh → NoDup (sb_keys sh);
  l_apart b b' sh sh' k : shared !! b = Some sh → shared !! b' = Some sh' → k ∈ sb_keys sh → k ∈ sb_keys sh' → b = b';
  l_pending b sh : shared !! b = Some sh →
    sb_pending sh = Z.of_nat (length (filter (λ k, counted k = false) (sb_keys sh)));
  l_counted k : counted k = true → is_Some (sent k);
  l_sent k b r : sent k = Some (b, r) → tr_task_id r = k ∧ ∃ sh, shared !! b = Some sh ∧ k ∈ sb_keys sh
    ∧ (r ∈ sb_results sh ∨ ∃ i x, waits !! i = Some x ∧ wt_batch x = b ∧ holds (wt_phase x) = Some r);
  l_buffer b sh : shared !! b = Some sh → NoDup (tr_task_id <$> sb_results sh)
    ∧ ∀ r, r ∈ sb_results sh → sent (tr_task_id r) = Some (b, r);
  l_held i x r : waits !! i = Some x → holds (wt_phase x) = Some r →
    sent (tr_task_id r) = Some (wt_batch x, r)
    ∧ ∀ sh, shared !! wt_batch x = Some sh → tr_task_id r ∉ tr_task_id <$> sb_results sh;
  l_once i j x y r r' : waits !! i = Some x → waits !! j = Some y →
    holds (wt_phase x) = Some r → holds (wt_phase y) = Some r' → tr_task_id r = tr_task_id r' → i = j;
  l_none i x : waits !! i = Some x → saw_none (wt_phase x) = true →
    ∃ sh, shared !! wt_batch x = Some sh ∧ ∀ k, k ∈ sb_keys sh → counted k = true;
  l_nothing i x sh k : waits !! i = Some x → wt_phase x = WpEnded WoNothing false → shared !! wt_batch x = Some sh →
    k ∈ sb_keys sh → ∃ j y r, waits !! j = Some y ∧ wt_batch y = wt_batch x ∧ holds (wt_phase y) = Some r
      ∧ tr_task_id r = k;
}.

Section ledger.
Context (shared : gmap ustring SharedBatch) (sent : ustring → option (ustring * TaskResult)).
Context (counted : ustring → bool) (waits : gmap nat Wait).
Context (ok : ledger_ok shared sent counted waits).

Lemma ledger_ext sent' counted' :
  (∀ k, sent' k = sent k) → (∀ k, counted' k = counted k) → ledger_ok shared sent' counted' waits.
Proof.
  intros Hs Hc. destruct ok. constructor; try done; intros *; rewrite ?Hs, ?Hc; eauto.
  - intros Hb. rewrite (l_pending0 b sh Hb). do 2 f_equal. apply filter_ext_elem. intros k _. by rewrite Hc.
  - intros Hb. destruct (l_buffer0 b sh Hb) as [H1 H2]. split; [done|]. intros r Hr. rewrite Hs. by apply H2.
  - intros Hi Hn. destruct (l_none0 i x Hi Hn) as (sh & H1 & H2). exists sh. split; [done|]. intros k Hk. rewrite Hc. by apply H2.
Qed.

(** A batch begins. *)
Lemma ledger_begin b keys :
  shared !! b = None → NoDup keys →
  (∀ k, k ∈ keys → sent k = None ∧ ∀ b' sh, shared !! b' = Some sh → k ∉ sb_keys sh) →
  ledger_ok (<[b := mkShared keys [] (Z.of_nat (length keys))]> shared) sent counted waits.
Proof.
  intros Hb Hnd Hnew. destruct ok.
  assert (∀ k, k ∈ keys → counted k = false) as Hcnt.
  { intros k Hk. destruct (counted k) eqn:E; [|done]. apply l_counted0 in E as [? E]. destruct (Hnew k Hk). congruence. }
  constructor.
  - intros b' sh [[<- <-]|[_ H]]%lookup_insert_Some; [done|eauto].
  - intros b1 b2 s1 s2 k [[<- <-]|[Hn1 H1]]%lookup_insert_Some [[<- <-]|[Hn2 H2]]%lookup_insert_Some Hk1 Hk2; try done.
    + by destruct (proj2 (Hnew k Hk1) b2 s2 H2).
    + by destruct (proj2 (Hnew k Hk2) b1 s1 H1).
    + eauto.
  - intros b' sh [[<- <-]|[_ H]]%lookup_insert_Some; [|eauto]. cbn. rewrite filter_all; [done|]. by intros k Hk; apply Hcnt.
  - done.
  - intros k b' r Hs. destruct (l_sent0 k b' r Hs) as (Ht & sh & Hsh & Hk & Hor). split; [done|]. exists sh.
    split_and!; [|done..]. rewrite lookup_insert_ne; [done|congruence].
  - intros b' sh [[<- <-]|[_ H]]%lookup_insert_Some; [|eauto]. split; [constructor|]. by intros r ?%not_elem_of_nil.
  - intros i x r Hi Hh. destruct (l_held0 i x r Hi Hh) as [Hs Hn]. split; [done|].
    intros sh [[E <-]|[_ H]]%lookup_insert_Some; [|eauto]. by apply not_elem_of_nil.
  - done.
  - intros i x Hi Hn. destruct (l_none0 i x Hi Hn) as (sh & Hsh & Hk). exists sh. split; [|done].
    rewrite lookup_insert_ne; [done|congruence].
  - intros i x sh k Hi Hp Hsh. rewrite lookup_insert_ne in Hsh; [eauto|].
    intros E. destruct (l_none0 i x Hi) as (sh' & Hsh' & _); [by rewrite Hp|congruence].
Qed.

(** A forwarder sends its result. *)
Lemma ledger_send b sh k r :
  shared !! b = Some sh → k ∈ sb_keys sh → tr_task_id r = k → sent k = None →
  ledger_ok (<[b := mkShared (sb_keys sh) (sb_results sh ++ [r]) (sb_pending sh)]> shared)
    (λ j, if decide (j = k) then Some (b, r) else sent j) counted waits.
Proof.
  intros Hb Hk Hr Hnone. destruct ok.
  assert (∀ j, j ∈ tr_task_id <$> sb_results sh → j ≠ k) as Hnew.
  { intros j (r' & -> & Hr')%list_elem_of_fmap E. destruct (l_buffer0 b sh Hb) as [_ H]. specialize (H r' Hr'). congruence. }
  assert (∀ b' sh', <[b := mkShared (sb_keys sh) (sb_results sh ++ [r]) (sb_pending sh)]> shared !! b' = Some sh' →
            ∃ sh0, shared !! b' = Some sh0 ∧ sb_keys sh' = sb_keys sh0 ∧ sb_pending sh' = sb_pending sh0) as Hold.
  { intros b' sh' [[<- <-]|[_ H]]%lookup_insert_Some; eauto. }
  assert (∀ i x r', waits !! i = Some x → holds (wt_phase x) = Some r' → tr_task_id r' ≠ k) as Hheld.
  { intros i x r' Hi Hh E. destruct (l_held0 i x r' Hi Hh) as [H _]. congruence. }
  constructor.
  - intros b' sh' (sh0 & H0 & -> & _)%Hold. eauto.
  - intros b1 b2 s1 s2 j (t1 & H1 & -> & _)%Hold (t2 & H2 & -> & _)%Hold. eauto.
  - intros b' sh' (sh0 & H0 & -> & ->)%Hold. eauto.
  - intros j Hj. case_decide; [by eexists|eauto].
  - intros j b' r'. case_decide as Hj.
    + intros [= <- <-]. split; [congruence|]. eexists. rewrite lookup_insert_eq. split_and!; [done|by subst|left; cbn; set_solver].
    + intros Hs. destruct (l_sent0 j b' r' Hs) as (Ht & sh' & Hsh' & Hj' & Hor). split; [done|].
      destruct (decide (b' = b)) as [->|Hne].
      * simplify_eq. eexists. rewrite lookup_insert_eq. split_and!; [done|done|]. destruct Hor; [left; cbn; set_solver|by right].
      * exists sh'. by rewrite lookup_insert_ne by done.
  - intros b' sh' [[<- <-]|[Hne H]]%lookup_insert_Some.
    + destruct (l_buffer0 b sh Hb) as [Hnd Hin]. cbn [sb_results]. split.
      * rewrite fmap_app. apply NoDup_app. split_and!; [done| |apply NoDup_singleton].
        intros j Hj. cbn. rewrite list_elem_of_singleton. intros ->. by destruct (Hnew _ Hj).
      * intros r' [Hr'| ->%list_elem_of_singleton]%elem_of_app; [|by rewrite decide_True].
        rewrite decide_False; [by apply Hin|]. apply Hnew. by apply list_elem_of_fmap_2.
    + destruct (l_buffer0 b' sh' H) as [Hnd Hin]. split; [done|]. intros r' Hr'. specialize (Hin r' Hr').
      rewrite decide_False; [done|congruence].
  - intros i x r' Hi Hh. destruct (l_held0 i x r' Hi Hh) as [Hs Hn]. rewrite decide_False by by eapply Hheld. split; [done|].
    intros sh' [[E <-]|[_ H]]%lookup_insert_Some; [|eauto]. cbn [sb_results]. rewrite fmap_app, elem_of_app. cbn.
    rewrite list_elem_of_singleton. intros [Hin| E']; [|by eapply Hheld; [..|congruence]].
    subst b. by apply (Hn sh Hb).
  - done.
  - intros i x Hi Hn. destruct (l_none0 i x Hi Hn) as (sh' & Hsh' & Hall).
    destruct (decide (wt_batch x = b)) as [E|Hne].
    + rewrite E in *. simplify_eq. eexists. rewrite lookup_insert_eq. split; [done|]. exact Hall.
    + exists sh'. by rewrite lookup_insert_ne by done.
  - intros i x sh' j Hi Hp (sh0 & H0 & -> & _)%Hold Hj. eauto.
Qed.

(** A forwarder counts its result. *)
Lemma ledger_count b sh k r :
  shared !! b = Some sh → k ∈ sb_keys sh → sent k = Some (b, r) → counted k = false →
  ledger_ok (<[b := mkShared (sb_keys sh) (sb_results sh) (sb_pending sh - 1)]> shared) sent
    (λ j, if decide (j = k) then true else counted j) waits.
Proof.
  intros Hb Hk Hs Hc. destruct ok.
  assert (∀ b' sh', <[b := mkShared (sb_keys sh) (sb_results sh) (sb_pending sh - 1)]> shared !! b' = Some sh' →
            ∃ sh0, shared !! b' = Some sh0 ∧ sb_keys sh' = sb_keys sh0 ∧ sb_results sh' = sb_results sh0) as Hold.
  { intros b' sh' [[<- <-]|[_ H]]%lookup_insert_Some; eauto. }
  assert (∀ b' sh', shared !! b' = Some sh' →
            ∃ sh1, <[b := mkShared (sb_keys sh) (sb_results sh) (sb_pending sh - 1)]> shared !! b' = Some sh1
              ∧ sb_keys sh1 = sb_keys sh' ∧ sb_results sh1 = sb_results sh') as Hnow.
  { intros b' sh' H. destruct (decide (b' = b)) as [->|Hne].
    - simplify_eq. eexists. by rewrite lookup_insert_eq.
    - exists sh'. by rewrite lookup_insert_ne by done. }
  assert (∀ keys, NoDup keys → length (filter (λ j, counted j = false) keys)
     = length (filter (λ j, (if decide (j = k) then true else counted j) = false) keys) + (if decide (k ∈ keys) then 1 else 0)) as Hlen.
  { induction 1 as [|j keys Hj _ IH]; [done|]. rewrite !filter_cons. destruct (decide (j = k)) as [->|Hne].
    - rewrite (decide_True (P := k ∈ k :: keys)) by by left. rewrite (decide_False (P := k ∈ keys)) in IH by done.
      rewrite (decide_False (P := true = false)) by done. rewrite (decide_True (P := counted k = false)) by done. cbn. lia.
    - assert ((if decide (k ∈ j :: keys) then 1 else 0) = (if decide (k ∈ keys) then 1 else 0)) as ->.
      { destruct (decide (k ∈ j :: keys)), (decide (k ∈ keys)); set_solver. }
      destruct (counted j); [rewrite !decide_False by done|rewrite !decide_True by done]; cbn; lia. }
  constructor.
  - intros b' sh' (sh0 & H0 & -> & _)%Hold. eauto.
  - intros b1 b2 s1 s2 j (t1 & H1 & -> & _)%Hold (t2 & H2 & -> & _)%Hold. eauto.
  - intros b' sh' [[<- <-]|[Hne H]]%lookup_insert_Some.
    + cbn. rewrite (l_pending0 b sh Hb), (Hlen _ (l_keys0 b sh Hb)), decide_True by done. lia.
    + rewrite (l_pending0 b' sh' H), (Hlen _ (l_keys0 b' sh' H)), (decide_False (P := k ∈ sb_keys sh')); [f_equal; lia|].
      intros Hk'. apply Hne. by apply (l_apart0 b b' sh sh' k).
  - intros j Hj. case_decide as E; [subst; by eexists|eauto].
  - intros j b' r' Hs'. destruct (l_sent0 j b' r' Hs') as (Ht & sh' & Hsh' & Hj & Hor). split; [done|].
    destruct (Hnow b' sh' Hsh') as (sh1 & H1 & E1 & E2). exists sh1. by rewrite E1, E2.
  - intros b' sh' (sh0 & H0 & _ & ->)%Hold. eauto.
  - intros i x r' Hi Hh. destruct (l_held0 i x r' Hi Hh) as [Hs' Hn]. split; [done|].
    intros sh' (sh0 & H0 & _ & ->)%Hold. eauto.
  - done.
  - intros i x Hi Hn. destruct (l_none0 i x Hi Hn) as (sh' & Hsh' & Hall).
    destruct (Hnow _ sh' Hsh') as (sh1 & H1 & E1 & _). exists sh1. rewrite E1. split; [done|]. intros j Hj.
    case_decide; [done|]. by apply Hall.
  - intros i x sh' j Hi Hp (sh0 & H0 & -> & _)%Hold Hj. eauto.
Qed.

(** The waits change but none takes or drops a result. *)
Lemma ledger_waits i b deadline p :
  (∀ x, waits !! i = Some x → wt_batch x = b ∧ holds (wt_phase x) = holds p) →
  (waits !! i = None → holds p = None) →
  (saw_none p = true → ∃ sh, shared !! b = Some sh ∧ ∀ k, k ∈ sb_keys sh → counted k = true) →
  (p = WpEnded WoNothing false → ∀ sh, shared !! b = Some sh → sb_results sh = []) →
  ledger_ok shared sent counted (<[i := mkWait b deadline p]> waits).
Proof.
  intros Hold Hnew Hsaw Hempty. destruct ok.
  assert (∀ j y r, <[i := mkWait b deadline p]> waits !! j = Some y → holds (wt_phase y) = Some r →
            ∃ y', waits !! j = Some y' ∧ wt_batch y' = wt_batch y ∧ holds (wt_phase y') = Some r) as Hback.
  { intros j y r [[<- <-]|[Hne H]]%lookup_insert_Some Hh; [|eauto]. cbn in Hh |- *.
    destruct (waits !! i) as [x|] eqn:E; [|by rewrite Hnew in Hh]. exists x. destruct (Hold x eq_refl) as [? ->]. done. }
  assert (∀ j y r, waits !! j = Some y → holds (wt_phase y) = Some r →
            ∃ y', <[i := mkWait b deadline p]> waits !! j = Some y' ∧ wt_batch y' = wt_batch y
              ∧ holds (wt_phase y') = Some r) as Hforth.
  { intros j y r Hy Hh. destruct (decide (i = j)) as [<-|Hne].
    - destruct (Hold y Hy) as [Hb E]. eexists. rewrite lookup_insert_eq. split_and!; [done|done|]. cbn. congruence.
    - exists y. by rewrite lookup_insert_ne. }
  constructor; try done.
  - intros k b' r Hs. destruct (l_sent0 k b' r Hs) as (Ht & sh & Hsh & Hk & Hor). split; [done|]. exists sh.
    split_and!; [done|done|]. destruct Hor as [?|(j & y & Hy & Hb & Hh)]; [by left|right].
    destruct (Hforth j y r Hy Hh) as (y' & Hy' & Hb' & Hh'). exists j, y'. split_and!; [done|congruence|done].
  - intros j y r Hy Hh. destruct (Hback j y r Hy Hh) as (y' & Hy' & <- & Hh'). eauto.
  - intros j j' y y' r r' Hy Hy' Hh Hh' Ht.
    destruct (Hback j y r Hy Hh) as (z & Hz & _ & Hhz), (Hback j' y' r' Hy' Hh') as (z' & Hz' & _ & Hhz'). eauto.
  - intros j y [[<- <-]|[Hne H]]%lookup_insert_Some Hn; [by apply Hsaw|eauto].
  - intros j y sh k Hy Hp Hsh Hk.
    assert (∃ j' y' r, waits !! j' = Some y' ∧ wt_batch y' = wt_batch y ∧ holds (wt_phase y') = Some r ∧ tr_task_id r = k)
      as (j' & y' & r & Hy' & Hb' & Hh' & Ht).
    { apply lookup_insert_Some in Hy as [[<- <-]|[Hne H]]; [|eauto]. cbn in Hp, Hsh |- *. subst p.
      destruct (Hsaw eq_refl) as (sh' & Hsh' & Hall). simplify_eq.
      destruct (l_counted0 k (Hall k Hk)) as [[b' r] Hs]. destruct (l_sent0 k b' r Hs) as (Ht & sh' & Hsh' & Hk' & Hor).
      assert (b' = b) as -> by eauto. simplify_eq. destruct Hor as [Hr|(j & y & Hy & Hb & Hh)].
      - rewrite (Hempty eq_refl sh) in Hr by done. by apply not_elem_of_nil in Hr.
      - by exists j, y, r. }
    destruct (Hforth j' y' r Hy' Hh') as (z & Hz & Hbz & Hhz). exists j', z, r. split_and!; [done|congruence|done|done].
Qed.

(** A wait takes the next result. *)
Lemma ledger_take b sh r rs i x :
  shared !! b = Some sh → sb_results sh = r :: rs → waits !! i = Some x → wt_batch x = b → holds (wt_phase x) = None →
  ledger_ok (<[b := mkShared (sb_keys sh) rs (sb_pending sh)]> shared) sent counted
    (<[i := mkWait b (wt_deadline x) (WpDelivered r)]> waits).
Proof.
  intros Hb Hrs Hi Hbx Hx. destruct ok.
  assert (∀ b' sh', <[b := mkShared (sb_keys sh) rs (sb_pending sh)]> shared !! b' = Some sh' →
            ∃ sh0, shared !! b' = Some sh0 ∧ sb_keys sh' = sb_keys sh0 ∧ sb_pending sh' = sb_pending sh0) as Hold.
  { intros b' sh' [[<- <-]|[_ H]]%lookup_insert_Some; eauto. }
  assert (∀ b' sh', shared !! b' = Some sh' →
            ∃ sh1, <[b := mkShared (sb_keys sh) rs (sb_pending sh)]> shared !! b' = Some sh1 ∧ sb_keys sh1 = sb_keys sh'
              ∧ ∀ r', r' ∈ sb_results sh' → r' ∈ sb_results sh1 ∨ b' = b ∧ r' = r) as Hnow.
  { intros b' sh' H. destruct (decide (b' = b)) as [->|Hne].
    - simplify_eq. eexists. rewrite lookup_insert_eq. split_and!; [done|done|]. intros r' Hr'. rewrite Hrs in Hr'.
      apply elem_of_cons in Hr' as [->|Hr']; [by right|by left].
    - exists sh'. rewrite lookup_insert_ne by done. eauto. }
  destruct (l_buffer0 b sh Hb) as [Hnd Hin]. rewrite Hrs in Hnd, Hin. cbn in Hnd. apply NoDup_cons in Hnd as [Hr Hnd].
  assert (sent (tr_task_id r) = Some (b, r)) as Hsr by (apply Hin; by left).
  assert (∀ j y r', waits !! j = Some y → holds (wt_phase y) = Some r' → tr_task_id r' ≠ tr_task_id r) as Hother.
  { intros j y r' Hy Hh E. destruct (l_held0 j y r' Hy Hh) as [Hs Hn]. rewrite E, Hsr in Hs. injection Hs as Hbb <-.
    apply (Hn sh); [congruence|]. rewrite Hrs. by left. }
  assert (∀ j y, waits !! j = Some y → ∃ y', <[i := mkWait b (wt_deadline x) (WpDelivered r)]> waits !! j = Some y'
            ∧ wt_batch y' = wt_batch y ∧ ∀ r', holds (wt_phase y) = Some r' → holds (wt_phase y') = Some r') as Hforth.
  { intros j y Hy. destruct (decide (i = j)) as [<-|Hne].
    - simplify_eq. eexists. rewrite lookup_insert_eq. split_and!; [done|done|]. by rewrite Hx.
    - exists y. by rewrite lookup_insert_ne. }
  constructor.
  - intros b' sh' (sh0 & H0 & -> & _)%Hold. eauto.
  - intros b1 b2 s1 s2 j (t1 & H1 & -> & _)%Hold (t2 & H2 & -> & _)%Hold. eauto.
  - intros b' sh' (sh0 & H0 & -> & ->)%Hold. eauto.
  - done.
  - intros k b' r' Hs. destruct (l_sent0 k b' r' Hs) as (Ht & sh' & Hsh' & Hk & Hor). split; [done|].
    destruct (Hnow b' sh' Hsh') as (sh1 & H1 & E1 & E2). exists sh1. rewrite E1. split_and!; [done|done|].
    destruct Hor as [Hr'|(j & y & Hy & Hbj & Hh)].
    + destruct (E2 r' Hr') as [?|[-> ->]]; [by left|right]. exists i. eexists. rewrite lookup_insert_eq. done.
    + right. destruct (Hforth j y Hy) as (y' & Hy' & Hb' & Hh'). exists j, y'. split_and!; [done|congruence|eauto].
  - intros b' sh' [[<- <-]|[Hne H]]%lookup_insert_Some; [|eauto]. cbn. split; [done|]. intros r' Hr'. apply Hin. by right.
  - intros j y r' [[<- <-]|[Hne Hy]]%lookup_insert_Some Hh; cbn in Hh |- *.
    + injection Hh as <-. split; [done|]. rewrite lookup_insert_eq. by intros sh' [= <-].
    + destruct (l_held0 j y r' Hy Hh) as [Hs Hn]. split; [done|]. intros sh' [[E <-]|[_ H]]%lookup_insert_Some; [|eauto].
      cbn. intros Hr'. apply (Hn sh); [congruence|]. rewrite Hrs. by right.
  - intros j j' y y' r1 r2 [[<- <-]|[Hne Hy]]%lookup_insert_Some [[<- <-]|[Hne' Hy']]%lookup_insert_Some Hh Hh' Ht; cbn in Hh, Hh'.
    + done.
    + simplify_eq. by destruct (Hother j' y' r2 Hy' Hh').
    + simplify_eq. by destruct (Hother j y r1 Hy Hh).
    + eauto.
  - intros j y [[<- <-]|[Hne Hy]]%lookup_insert_Some Hn; [done|].
    destruct (l_none0 j y Hy Hn) as (sh' & Hsh' & Hall). destruct (Hnow _ sh' Hsh') as (sh1 & H1 & E1 & _).
    exists sh1. by rewrite E1.
  - intros j y sh' k [[<- <-]|[Hne Hy]]%lookup_insert_Some Hp; [done|]. intros (sh0 & H0 & -> & _)%Hold Hk.
    destruct (l_nothing0 j y sh0 k Hy Hp H0 Hk) as (j' & y' & r' & Hy' & Hb' & Hh' & Ht).
    destruct (Hforth j' y' Hy') as (z & Hz & Hbz & Hhz). exists j', z, r'. split_and!; [done|congruence|eauto|done].
Qed.
End ledger.

(** ** The world *)

Definition fd_result (f : Forwarder) : option TaskResult :=
  match fd_state f with FwWaiting => None | FwReady r | FwSent r | FwCounted r | FwDone r => Some r end.

Definition sent_by (f : Forwarder) : option (ustring * TaskResult) :=
  match fd_state f with FwSent r | FwCounted r | FwDone r => Some (fd_batch f, r) | _ => None end.

Definition counted_by (f : Forwarder) : bool :=
  match fd_state f with FwCounted _ | FwDone _ => true | _ => false end.

Definition sent_of (w : OpWorld) (k : ustring) : option (ustring * TaskResult) := ow_forwarders w !! k ≫= sent_by.

Definition counted_of (w : OpWorld) (k : ustring) : bool :=
  match ow_forwarders w !! k with Some f => counted_by f | None => false end.

Record op_ok (w : OpWorld) : Prop := {
  o_ledger : ledger_ok (ow_shared w) (sent_of w) (counted_of w) (ow_waits w);
  o_forwarder k f : ow_forwarders w !! k = Some f →
    (∃ sh, ow_shared w !! fd_batch f = Some sh ∧ k ∈ sb_keys sh) ∧ ∀ r, fd_result f = Some r → tr_task_id r = k;
  o_waiter k : k ∈ ow_waiters w ↔ ∃ f, ow_forwarders w !! k = Some f ∧ fd_state f = FwWaiting;
  o_starting b ops k op ph : ow_starting w !! b = Some ops → ops !! k = Some (op, ph) →
    (∃ sh, ow_shared w !! b = Some sh ∧ k ∈ sb_keys sh) ∧ (ph = OpFresh ↔ ow_forwarders w !! k = None);
  o_published q t : (q, t) ∈ ow_published w → is_Some (ow_forwarders w !! tk_id t);
  o_batches b bt : ow_batches w !! b = Some bt → is_Some (ow_shared w !! b);
  o_waits i x : ow_waits w !! i = Some x → wt_phase x ≠ WpEnded WoNotFound false → is_Some (ow_shared w !! wt_batch x);
}.

Lemma op_start_ok now : op_ok (op_start now).
Proof.
  constructor; cbn; try (intros *; by rewrite lookup_empty).
  - constructor; intros *; cbn; rewrite ?lookup_empty; try done.
  - intros k. split; [set_solver|]. intros (f & H & _). by rewrite lookup_empty in H.
  - by intros q t ?%not_elem_of_nil.
Qed.

(** Only the registry, the starts and what is not modelled further change. *)
Lemma op_frame w w' :
  op_ok w → ow_shared w' = ow_shared w → ow_forwarders w' = ow_forwarders w → ow_waiters w' = ow_waiters w →
  ow_waits w' = ow_waits w → ow_published w' = ow_published w →
  (∀ b ops, ow_starting w' !! b = Some ops → ow_starting w !! b = Some ops) →
  (∀ b bt, ow_batches w' !! b = Some bt → is_Some (ow_shared w !! b)) → op_ok w'.
Proof.
  intros [Hl Hf Hw Hs Hp Hb Hx] Esh Ef Ew Ex Ep Hst Hbt. constructor; rewrite ?Esh, ?Ef, ?Ew, ?Ex, ?Ep; try done.
  - unfold sent_of, counted_of. by rewrite Ef.
  - intros b ops k op ph H. by apply Hs, Hst.
Qed.

Lemma sent_resolve r f : sent_by (resolve r f) = sent_by f.
Proof. unfold resolve, sent_by. by destruct (fd_state f) eqn:E; rewrite ?E. Qed.

Lemma counted_resolve r f : counted_by (resolve r f) = counted_by f.
Proof. unfold resolve, counted_by. by destruct (fd_state f) eqn:E; rewrite ?E. Qed.

(** A oneshot resolves, and its waiter is gone. *)
Lemma resolve_ok w w' k r :
  op_ok w → k ∈ ow_waiters w → tr_task_id r = k →
  w' = mkOw (ow_now w) (ow_batches w) (ow_waiters w ∖ {[ k ]}) (ow_shared w) (alter (resolve r) k (ow_forwarders w))
         (ow_starting w) (ow_published w) (ow_waits w) (ow_dead_letters w) → op_ok w'.
Proof.
  intros Hok Hk Hr ->. pose proof Hok as [Hl Hf Hw Hs Hp Hb Hx]. apply Hw in Hk as (f & Hkf & Hst).
  assert (∀ j g, alter (resolve r) k (ow_forwarders w) !! j = Some g →
            ∃ f, ow_forwarders w !! j = Some f ∧ fd_batch g = fd_batch f ∧ sent_by g = sent_by f ∧ counted_by g = counted_by f
              ∧ (j ≠ k ∧ g = f ∨ j = k ∧ fd_result g = Some r)) as Hback.
  { intros j g [(<- & f' & Hj & ->)|[Hne Hj]]%lookup_alter_Some.
    - exists f'. rewrite sent_resolve, counted_resolve. simplify_eq. split_and!; [done|by unfold resolve; rewrite Hst|done|done|].
      right. split; [done|]. unfold resolve. by rewrite Hst.
    - exists g. split_and!; try done. left. done. }
  assert (∀ j, is_Some (alter (resolve r) k (ow_forwarders w) !! j) ↔ is_Some (ow_forwarders w !! j)) as Hdom.
  { intros j. by rewrite lookup_alter_is_Some. }
  constructor; cbn; try done.
  - apply (ledger_ext _ _ _ _ Hl).
    + intros j. unfold sent_of. cbn. destruct (decide (k = j)) as [<-|Hne].
      * rewrite lookup_alter_eq, Hkf. cbn. apply sent_resolve.
      * by rewrite lookup_alter_ne.
    + intros j. unfold counted_of. cbn. destruct (decide (k = j)) as [<-|Hne].
      * rewrite lookup_alter_eq, Hkf. cbn. apply counted_resolve.
      * by rewrite lookup_alter_ne.
  - intros j g (f' & Hj & Eb & _ & _ & Hor)%Hback. destruct (Hf j f' Hj) as [Hsh Hres]. rewrite Eb. split; [done|].
    destruct Hor as [[_ ->]|[-> Eg]]; [done|]. rewrite Eg. by intros r' [= <-].
  - intros j. rewrite elem_of_difference, not_elem_of_singleton, Hw. split.
    + intros ((f' & Hj & Hst') & Hne). exists f'. by rewrite lookup_alter_ne.
    + intros (g & Hj & Hst'). destruct (Hback j g Hj) as (f' & Hj' & _ & _ & _ & [[Hne ->]|[-> Eg]]); [eauto|].
      unfold fd_result in Eg. by rewrite Hst' in Eg.
  - intros b ops j op ph H1 H2. destruct (Hs b ops j op ph H1 H2) as [H3 H4]. split; [done|].
    rewrite H4, !eq_None_not_Some, Hdom. done.
  - intros q t Hin. apply Hdom. by apply (Hp q t).
Qed.

Lemma drop_waiter_ok w k : op_ok w → op_ok (drop_waiter k w).
Proof. intros Hok. unfold drop_waiter. case_decide; [|done]. by apply (resolve_ok w _ k (cancelled_result k)). Qed.

Lemma drop_waiters_ok w keys : op_ok w → op_ok (drop_waiters keys w).
Proof. unfold drop_waiters. revert w. induction keys as [|k keys IH]; intros w Hok; [done|]. cbn. by apply IH, drop_waiter_ok. Qed.

Lemma consume_ok w r : op_ok w → op_ok (consume_result r w).
Proof. intros Hok. unfold consume_result. case_decide; [|done]. by apply (resolve_ok w _ (tr_task_id r) r). Qed.

Lemma no_forwarder_sent w k : ow_forwarders w !! k = None → sent_of w k = None.
Proof. unfold sent_of. by intros ->. Qed.

Lemma begin_batch_ok b ops w : op_ok w → unused b ops.*1 w → op_ok (begin_batch b ops w).
Proof.
  intros [Hl Hf Hw Hs Hp Hb Hx] (Hnone & Hnd & Hall). rewrite Forall_forall in Hall.
  assert (∀ b' sh, ow_shared w !! b' = Some sh → b' ≠ b) as Hne by congruence.
  constructor; cbn; try done.
  - replace (length ops) with (length ops.*1) by by rewrite length_fmap.
    apply (ledger_begin _ _ _ _ Hl); [done|done|]. intros k Hk. destruct (Hall k Hk) as (H1 & _ & H2).
    split; [by apply no_forwarder_sent|]. intros b' sh H. by apply (H2 b' sh).
  - intros k f Hk. destruct (Hf k f Hk) as [(sh & Hsh & Hin) Hr]. split; [|done]. exists sh.
    rewrite lookup_insert_ne; [done|congruence].
  - intros b' ops' k op ph [[<- <-]|[Hn H]]%lookup_insert_Some Hk.
    + apply elem_of_list_to_map_2, list_elem_of_fmap in Hk as ([k' op'] & [= -> -> ->] & Hin).
      assert (k' ∈ ops.*1) as Hk' by (by apply (list_elem_of_fmap_2 fst) in Hin).
      split; [eexists; by rewrite lookup_insert_eq|]. destruct (Hall k' Hk') as (H1 & _). done.
    + destruct (Hs b' ops' k op ph H Hk) as [(sh & Hsh & Hin) Hiff]. split; [|done]. exists sh.
      by rewrite lookup_insert_ne.
  - intros b' bt [[<- <-]|[Hn H]]%lookup_insert_Some; [by rewrite lookup_insert_eq|].
    rewrite lookup_insert_ne by done. eauto.
  - intros i x Hi Hph. destruct (Hx i x Hi Hph) as [sh Hsh]. rewrite lookup_insert_ne; [eauto|congruence].
Qed.

Lemma insert_waiter_ok b k w w' : op_ok w → insert_waiter b k w = Some w' → op_ok w'.
Proof.
  intros [Hl Hf Hw Hs Hp Hb Hx] H. unfold insert_waiter in H.
  destruct (ow_starting w !! b) as [ops|] eqn:Hops; [|done]. cbn in H.
  destruct (ops !! k) as [[op ph]|] eqn:Hk; [|done]. cbn in H. destruct ph; try done. injection H as <-.
  destruct (Hs b ops k op OpFresh Hops Hk) as [(sh & Hsh & Hin) Hiff]. pose proof (proj1 Hiff eq_refl) as Hnone.
  constructor; cbn; try done.
  - apply (ledger_ext _ _ _ _ Hl).
    + intros j. unfold sent_of. cbn. destruct (decide (k = j)) as [<-|Hne]; [by rewrite lookup_insert_eq, Hnone|].
      by rewrite lookup_insert_ne.
    + intros j. unfold counted_of. cbn. destruct (decide (k = j)) as [<-|Hne]; [by rewrite lookup_insert_eq, Hnone|].
      by rewrite lookup_insert_ne.
  - intros j f [[<- <-]|[Hne Hj]]%lookup_insert_Some; [|eauto]. split; [by exists sh|done].
  - intros j. rewrite elem_of_union, list_elem_of_singleton || rewrite elem_of_union, elem_of_singleton. rewrite Hw. split.
    + intros [->|(f & Hj & Hst)]; [eexists; by rewrite lookup_insert_eq|].
      destruct (decide (k = j)) as [<-|Hne]; [congruence|]. exists f. by rewrite lookup_insert_ne.
    + intros (f & [[<- <-]|[Hne Hj]]%lookup_insert_Some & Hst); [by left|right; eauto].
  - intros b' ops' j op' ph' [[<- <-]|[Hn H]]%lookup_insert_Some Hj.
    + apply lookup_insert_Some in Hj as [[<- [= <- <-]]|[Hne Hj]].
      * split; [by exists sh|]. by rewrite lookup_insert_eq.
      * destruct (Hs b ops j op' ph' Hops Hj) as [H1 H2]. split; [done|]. by rewrite lookup_insert_ne.
    + destruct (Hs b' ops' j op' ph' H Hj) as [(sh' & Hsh' & Hin') H2]. split; [by exists sh'|].
      rewrite lookup_insert_ne; [done|]. intros <-. by apply Hn, (l_apart _ _ _ _ Hl b b' sh sh' k).
  - intros q t Ht. destruct (decide (k = tk_id t)) as [<-|Hne]; [by rewrite lookup_insert_eq|].
    rewrite lookup_insert_ne by done. eauto.
Qed.

Lemma publish_ok qn rq redis b k op' w w' : op_ok w → publish_operation qn rq redis b k op' w = Some w' → op_ok w'.
Proof.
  intros [Hl Hf Hw Hs Hp Hb Hx] H. unfold publish_operation in H.
  destruct (ow_starting w !! b) as [ops|] eqn:Hops; [|done]. cbn in H.
  destruct (ops !! k) as [[op ph]|] eqn:Hk; [|done]. cbn in H. destruct ph; try done. injection H as <-.
  destruct (Hs b ops k op OpInserted Hops Hk) as [Hsh Hiff].
  assert (is_Some (ow_forwarders w !! k)) as Hsome.
  { apply not_eq_None_Some. intros E. by apply Hiff in E. }
  constructor; cbn; try done.
  - intros b' ops' j op0 ph' [[<- <-]|[Hn H]]%lookup_insert_Some Hj; [|eauto].
    apply lookup_insert_Some in Hj as [[<- [= <- <-]]|[Hne Hj]]; [|eauto]. split; [done|]. split; [done|].
    intros E. by rewrite E in Hsome; destruct Hsome.
  - intros q t [Ht|[= -> ->]%list_elem_of_singleton]%elem_of_app; [eauto|]. done.
Qed.

Lemma with_starting_ok b w : op_ok w → op_ok (with_starting (delete b (ow_starting w)) w).
Proof.
  intros Hok. apply (op_frame w); try done; cbn.
  - intros b' ops [_ H]%lookup_delete_Some. done.
  - intros b' bt Hb. by apply (o_batches _ Hok b' bt).
Qed.

Lemma remove_batch_ok b w : op_ok w → op_ok (with_batches (delete b (ow_batches w)) w).
Proof.
  intros Hok. apply (op_frame w); try done; cbn.
  intros b' bt [_ Hb]%lookup_delete_Some. by apply (o_batches _ Hok b' bt).
Qed.

Lemma drop_waiters_shared keys w : ow_shared (drop_waiters keys w) = ow_shared w.
Proof.
  unfold drop_waiters. revert w. induction keys as [|k keys IH]; intros w; [done|]. cbn. rewrite IH.
  unfold drop_waiter. by case_decide.
Qed.

Lemma cancel_ok b w : op_ok w → op_ok (cancel_operation_batch b w).
Proof. intros Hok. unfold cancel_operation_batch. destruct (ow_batches w !! b); [|done]. by apply drop_waiters_ok, remove_batch_ok. Qed.

Lemma reap_ok age b w : op_ok w → op_ok (reap_batch age b w).
Proof.
  intros Hok. unfold reap_batch. destruct (ow_batches w !! b) as [bt|] eqn:Hb; [|done].
  destruct (_ <=? _)%Z; [done|]. destruct (bt_poisoned bt); [by apply remove_batch_ok|].
  pose proof (drop_waiters_ok w (bt_cleanup_keys bt) Hok) as Hok'. apply (op_frame _ _ Hok'); try done; cbn.
  intros b' bt' [[<- <-]|[_ H]]%lookup_insert_Some; [|by apply (o_batches _ Hok' b' bt')].
  rewrite drop_waiters_shared. by apply (o_batches _ Hok b bt).
Qed.

Lemma alter_as_insert {A} (g : A → A) (b : ustring) (m : gmap ustring A) x : m !! b = Some x → alter g b m = <[b := g x]> m.
Proof.
  intros Hb. apply map_eq. intros j. destruct (decide (b = j)) as [<-|Hne].
  - by rewrite lookup_alter_eq, lookup_insert_eq, Hb.
  - by rewrite lookup_alter_ne, lookup_insert_ne.
Qed.

(** A forwarder moves on, and the ledger with it. *)
Lemma with_forwarder_ok w shared k f f' sent counted :
  op_ok w → ow_forwarders w !! k = Some f → fd_batch f' = fd_batch f → fd_state f ≠ FwWaiting →
  fd_state f' ≠ FwWaiting → fd_result f' = fd_result f →
  (∀ b sh, ow_shared w !! b = Some sh → ∃ sh', shared !! b = Some sh' ∧ sb_keys sh' = sb_keys sh) →
  ledger_ok shared sent counted (ow_waits w) →
  (∀ j, sent j = (if decide (j = k) then sent_by f' else sent_of w j)) →
  (∀ j, counted j = (if decide (j = k) then counted_by f' else counted_of w j)) →
  op_ok (with_forwarder k f' (with_shared shared w)).
Proof.
  intros [Hl Hf Hw Hs Hp Hb Hx] Hk Eb Hst Hst' Er Hsh Hled Hsent Hcount.
  assert (∀ j, is_Some (<[k := f']> (ow_forwarders w) !! j) ↔ is_Some (ow_forwarders w !! j)) as Hdom.
  { intros j. destruct (decide (k = j)) as [<-|Hne]; [by rewrite lookup_insert_eq, Hk|by rewrite lookup_insert_ne]. }
  assert (∀ b, is_Some (ow_shared w !! b) → is_Some (shared !! b)) as Hsome.
  { intros b [sh H]. destruct (Hsh b sh H) as (sh' & H' & _). by eexists. }
  constructor; cbn; try done.
  - apply (ledger_ext _ _ _ _ Hled); intros j; [rewrite Hsent|rewrite Hcount]; unfold sent_of, counted_of; cbn.
    + case_decide as E; [subst j; by rewrite lookup_insert_eq|by rewrite lookup_insert_ne].
    + case_decide as E; [subst j; by rewrite lookup_insert_eq|by rewrite lookup_insert_ne].
  - assert (∀ j g, ow_forwarders w !! j = Some g → ∃ sh, shared !! fd_batch g = Some sh ∧ j ∈ sb_keys sh) as Hin.
    { intros j g Hj. destruct (Hf j g Hj) as [(sh & H1 & H2) _]. destruct (Hsh _ _ H1) as (sh' & H1' & E). exists sh'. by rewrite E. }
    intros j g [[<- <-]|[Hne Hj]]%lookup_insert_Some; [|by split; [apply Hin|apply Hf]].
    rewrite Eb, Er. split; [by apply Hin|by apply (Hf k f)].
  - intros j. rewrite Hw. split.
    + intros (g & Hj & Hg). destruct (decide (k = j)) as [<-|Hne]; [by simplify_eq|]. exists g. by rewrite lookup_insert_ne.
    + intros (g & [[<- <-]|[Hne Hj]]%lookup_insert_Some & Hg); [done|eauto].
  - intros b ops j op ph H1 H2. destruct (Hs b ops j op ph H1 H2) as [(sh & H3 & H4) H5].
    split; [destruct (Hsh _ _ H3) as (sh' & H3' & E); exists sh'; by rewrite E|].
    rewrite H5, !eq_None_not_Some, Hdom. done.
  - intros q t Ht. apply Hdom. eauto.
  - intros b bt H. apply Hsome. eauto.
  - intros i x Hi Hph. apply Hsome. eauto.
Qed.

Lemma with_shared_same w : with_shared (ow_shared w) w = w.
Proof. by destruct w. Qed.

Lemma forward_ok k w w' : op_ok w → forward k w = Some w' → op_ok w'.
Proof.
  intros Hok H. pose proof Hok as [Hl Hf _ _ _ _ _]. unfold forward in H.
  destruct (ow_forwarders w !! k) as [f|] eqn:Hk; [|done]. cbn in H.
  destruct (Hf k f Hk) as [(sh & Hsh & Hin) Hres].
  assert (∀ g : SharedBatch → SharedBatch, (∀ sh, sb_keys (g sh) = sb_keys sh) →
            ∀ b s, ow_shared w !! b = Some s → ∃ s', alter g (fd_batch f) (ow_shared w) !! b = Some s' ∧ sb_keys s' = sb_keys s)
    as Halter.
  { intros g Hg b s Hb. destruct (decide (fd_batch f = b)) as [<-|Hne].
    - exists (g s). by rewrite lookup_alter_eq, Hb.
    - exists s. by rewrite lookup_alter_ne. }
  destruct (fd_state f) as [|r|r|r|r] eqn:Hst; try done; injection H as <-.
  - assert (tr_task_id r = k) as Hr by (apply Hres; unfold fd_result; by rewrite Hst).
    eapply (with_forwarder_ok w _ k f _ (λ j, if decide (j = k) then Some (fd_batch f, r) else sent_of w j) (counted_of w));
      try done; [by rewrite Hst|by unfold fd_result; rewrite Hst|by apply Halter| |].
    + rewrite (alter_as_insert _ _ _ _ Hsh). apply (ledger_send _ _ _ _ Hl (fd_batch f) sh k r Hsh Hin Hr).
      unfold sent_of. rewrite Hk. cbn. unfold sent_by. by rewrite Hst.
    + intros j. case_decide as E; [|done]. subst j. unfold counted_of, counted_by. rewrite Hk. by rewrite Hst.
  - eapply (with_forwarder_ok w _ k f _ (sent_of w) (λ j, if decide (j = k) then true else counted_of w j));
      try done; [by rewrite Hst|by unfold fd_result; rewrite Hst|by apply Halter| |].
    + rewrite (alter_as_insert _ _ _ _ Hsh). apply (ledger_count _ _ _ _ Hl (fd_batch f) sh k r Hsh Hin).
      * unfold sent_of. rewrite Hk. cbn. unfold sent_by. by rewrite Hst.
      * unfold counted_of, counted_by. rewrite Hk. by rewrite Hst.
    + intros j. case_decide as E; [|done]. subst j. unfold sent_of. rewrite Hk. cbn. unfold sent_by. by rewrite Hst.
  - rewrite <- (with_shared_same w). eapply (with_forwarder_ok w (ow_shared w) k f); try done.
    + by rewrite Hst.
    + by unfold fd_result; rewrite Hst.
    + by eauto.
    + intros j. case_decide as E; [|done]. subst j. unfold sent_of. rewrite Hk. cbn. unfold sent_by. by rewrite Hst.
    + intros j. case_decide as E; [|done]. subst j. unfold counted_of, counted_by. rewrite Hk. by rewrite Hst.
Qed.

(** ** Waits *)

(** A wait moves on, with the ledger. *)
Lemma with_wait_ok w shared i b deadline p :
  op_ok w → (∀ b sh, ow_shared w !! b = Some sh → ∃ sh', shared !! b = Some sh' ∧ sb_keys sh' = sb_keys sh) →
  (p ≠ WpEnded WoNotFound false → is_Some (ow_shared w !! b)) →
  ledger_ok shared (sent_of w) (counted_of w) (<[i := mkWait b deadline p]> (ow_waits w)) →
  op_ok (with_wait i (mkWait b deadline p) (with_shared shared w)).
Proof.
  intros [Hl Hf Hw Hs Hp Hb Hx] Hsh Hphase Hled.
  assert (∀ b, is_Some (ow_shared w !! b) → is_Some (shared !! b)) as Hsome.
  { intros b' [sh H]. destruct (Hsh b' sh H) as (sh' & H' & _). by eexists. }
  assert (∀ b (k : ustring), (∃ sh, ow_shared w !! b = Some sh ∧ k ∈ sb_keys sh) → ∃ sh, shared !! b = Some sh ∧ k ∈ sb_keys sh) as Hin.
  { intros b' k (sh & H1 & H2). destruct (Hsh _ _ H1) as (sh' & H1' & E). exists sh'. by rewrite E. }
  constructor; cbn; try done.
  - intros k f Hk. destruct (Hf k f Hk) as [H1 H2]. split; [by apply Hin|done].
  - intros b' ops k op ph H1 H2. destruct (Hs b' ops k op ph H1 H2) as [H3 H4]. split; [by apply Hin|done].
  - intros b' bt H. apply Hsome. eauto.
  - intros j x [[<- <-]|[Hne H]]%lookup_insert_Some Hph; cbn in *; apply Hsome; eauto.
Qed.

(** A wait moves on that takes nothing. *)
Lemma wait_phase_ok w i b deadline p :
  op_ok w → (p ≠ WpEnded WoNotFound false → is_Some (ow_shared w !! b)) →
  (∀ x, ow_waits w !! i = Some x → wt_batch x = b ∧ holds (wt_phase x) = holds p) →
  (ow_waits w !! i = None → holds p = None) →
  (saw_none p = true → ∃ sh, ow_shared w !! b = Some sh ∧ ∀ k, k ∈ sb_keys sh → counted_of w k = true) →
  (p = WpEnded WoNothing false → ∀ sh, ow_shared w !! b = Some sh → sb_results sh = []) →
  op_ok (with_wait i (mkWait b deadline p) w).
Proof.
  intros Hok Hsh Hold Hnew Hsaw Hempty.
  pose proof (with_wait_ok w (ow_shared w) i b deadline p Hok) as H. rewrite with_shared_same in H.
  apply H; [by eauto|done|]. by apply (ledger_waits _ _ _ _ (o_ledger _ Hok)).
Qed.

Lemma begin_wait_ok i b timeout w w' : op_ok w → begin_wait i b timeout w = Some w' → op_ok w'.
Proof.
  intros Hok H. unfold begin_wait in H. case_decide as Hi; [|done]. injection H as <-.
  apply wait_phase_ok; [done| |congruence|by case_decide|by case_decide|by case_decide].
  case_decide as Hb; [|done]. intros _. destruct Hb as [bt Hb]. by apply (o_batches _ Hok b bt).
Qed.

Lemma take_result_inv b w r w' :
  take_result b w = Some (r, w') →
  ∃ sh rs, ow_shared w !! b = Some sh ∧ sb_results sh = r :: rs
    ∧ w' = with_shared (<[b := mkShared (sb_keys sh) rs (sb_pending sh)]> (ow_shared w)) w.
Proof.
  unfold take_result. destruct (ow_shared w !! b) as [sh|] eqn:E; [|done]. cbn.
  destruct (sb_results sh) as [|r' rs] eqn:Er; [done|]. intros [= <- <-]. by exists sh, rs.
Qed.

Lemma take_result_none b w sh : take_result b w = None → ow_shared w !! b = Some sh → sb_results sh = [].
Proof. unfold take_result. intros H Hb. rewrite Hb in H. cbn in H. by destruct (sb_results sh). Qed.

(** A wait that takes a result. *)
Lemma deliver_ok i x w r w' :
  op_ok w → ow_waits w !! i = Some x → holds (wt_phase x) = None → take_result (wt_batch x) w = Some (r, w') →
  op_ok (with_wait i (mkWait (wt_batch x) (wt_deadline x) (WpDelivered r)) w').
Proof.
  intros Hok Hi Hh (sh & rs & Hsh & Hrs & ->)%take_result_inv. apply with_wait_ok; [done| |by eexists|].
  - intros b s Hb. destruct (decide (wt_batch x = b)) as [<-|Hne].
    + simplify_eq. eexists. by rewrite lookup_insert_eq.
    + exists s. by rewrite lookup_insert_ne.
  - by apply (ledger_take _ _ _ _ (o_ledger _ Hok) (wt_batch x) sh r rs i x).
Qed.

(** ** Every label *)

Lemma fail_batch_ok b w w' : op_ok w → fail_batch b w = Some w' → op_ok w'.
Proof.
  intros Hok H. unfold fail_batch in H. destruct (ow_starting w !! b) as [ops|]; [|done]. cbn in H.
  destruct (ow_shared w !! b) as [sh|]; [|done]. injection H as <-. unfold cleanup_failed_operation_batch.
  by apply drop_waiters_ok, remove_batch_ok, with_starting_ok.
Qed.

Lemma end_start_ok b w w' : op_ok w → end_start b w = Some w' → op_ok w'.
Proof.
  intros Hok H. unfold end_start in H. destruct (ow_starting w !! b) as [ops|]; [|done]. cbn in H.
  case_decide; [|done]. injection H as <-. by apply with_starting_ok.
Qed.

(** Nothing is pending: the forwarders of the batch have all counted. *)
Lemma none_pending w b sh : op_ok w → ow_shared w !! b = Some sh → (sb_pending sh ≤ 0)%Z → ∀ k, k ∈ sb_keys sh → counted_of w k = true.
Proof.
  intros Hok Hsh Hle k Hk. rewrite (l_pending _ _ _ _ (o_ledger _ Hok) b sh Hsh) in Hle.
  destruct (counted_of w k) eqn:E; [done|]. assert (k ∈ filter (λ k, counted_of w k = false) (sb_keys sh)) as Hin by by apply list_elem_of_filter.
  apply list_elem_of_lookup in Hin as [n Hn]. apply lookup_lt_Some in Hn. lia.
Qed.

Lemma finish_ok b w : op_ok w → op_ok (finish_operation_delivered b w).
Proof. intros Hok. unfold finish_operation_delivered. case_match; [by apply remove_batch_ok|done]. Qed.

Lemma finish_frame b w :
  ow_waits (finish_operation_delivered b w) = ow_waits w ∧ ow_shared (finish_operation_delivered b w) = ow_shared w
  ∧ ow_forwarders (finish_operation_delivered b w) = ow_forwarders w ∧ ow_waiters (finish_operation_delivered b w) = ow_waiters w.
Proof. unfold finish_operation_delivered. by case_match. Qed.

Lemma wait_step_ok i tick w w' : op_ok w → wait_step i tick w = Some w' → op_ok w'.
Proof.
  intros Hok H. unfold wait_step in H. destruct (ow_waits w !! i) as [x|] eqn:Hi; [|done]. cbn in H.
  assert (wt_phase x ≠ WpEnded WoNotFound false → is_Some (ow_shared w !! wt_batch x)) as Hsh by by apply (o_waits _ Hok i).
  assert (∀ p, holds (wt_phase x) = holds p → wt_phase x ≠ WpEnded WoNotFound false →
            (saw_none p = true → ∃ sh, ow_shared w !! wt_batch x = Some sh ∧ ∀ k, k ∈ sb_keys sh → counted_of w k = true) →
            (p = WpEnded WoNothing false → ∀ sh, ow_shared w !! wt_batch x = Some sh → sb_results sh = []) →
            op_ok (with_wait i (mkWait (wt_batch x) (wt_deadline x) p) w)) as Hmove.
  { intros p Hh Hne Hsaw Hempty. apply wait_phase_ok; try done; [auto| |congruence]. intros y Hy. by simplify_eq. }
  destruct (wt_phase x) as [| |ceiling|r|outcome ceiling] eqn:Hp; [| | | |done].
  - case_match; [injection H as <-; by apply Hmove|]. destruct tick; [injection H as <-; by apply Hmove|].
    destruct (take_result (wt_batch x) w) as [[r w1]|] eqn:Ht.
    + injection H as <-. apply (deliver_ok i x w); [done|done|by rewrite Hp|done].
    + case_match; [|done]. injection H as <-. by apply Hmove.
  - case_match eqn:Hpend; injection H as <-; apply Hmove; try done. intros _.
    destruct (Hsh ltac:(done)) as [sh Hs]. exists sh. split; [done|]. apply (none_pending w (wt_batch x)); [done|done|].
    unfold pending_of in Hpend. rewrite Hs in Hpend. lia.
  - destruct (take_result (wt_batch x) w) as [[r w1]|] eqn:Ht; injection H as <-.
    + apply (deliver_ok i x w); [done|done|by rewrite Hp|done].
    + apply Hmove; [done|done| |].
      * intros Hs. apply (l_none _ _ _ _ (o_ledger _ Hok) i x Hi). by rewrite Hp.
      * intros _ sh. by apply take_result_none.
  - injection H as <-. destruct (finish_frame (wt_batch x) w) as (Ew & Es & _).
    apply wait_phase_ok; rewrite ?Ew, ?Es; [by apply finish_ok|auto| |congruence|done|done].
    intros y Hy. simplify_eq. by rewrite Hp.
Qed.

Section run.
Context (queue_name result_queue_name : ustring) (redis : Redis) (max_age : Z).
Notation op_act := (op_act queue_name result_queue_name redis max_age).
Notation op_run := (op_run queue_name result_queue_name redis max_age).

Lemma op_act_ok l w w' : op_ok w → op_act l w = Some w' → op_ok w'.
Proof.
  intros Hok H. destruct l; cbn in H.
  - case_match; [|done]. injection H as <-. apply (op_frame w); try done. intros b bt. by apply (o_batches _ Hok).
  - case_decide; [|done]. injection H as <-. by apply begin_batch_ok.
  - by apply (insert_waiter_ok batch_id key w).
  - eapply (publish_ok _ _ _ batch_id key op' w w'); [done|exact H].
  - by apply (fail_batch_ok batch_id w).
  - by apply (end_start_ok batch_id w).
  - injection H as <-. by apply consume_ok.
  - by apply (forward_ok key w).
  - by apply (begin_wait_ok i batch_id timeout w).
  - by apply (wait_step_ok i tick w).
  - injection H as <-. by apply cancel_ok.
  - injection H as <-. by apply reap_ok.
Qed.

Lemma op_run_ok ls w w' : op_ok w → op_run ls w = Some w' → op_ok w'.
Proof.
  revert w. induction ls as [|l ls IH]; intros w Hok H; cbn in H; [by injection H as <-|].
  destruct (op_act l w) as [w1|] eqn:E; [|done]. cbn in H. apply (IH w1); [|done]. by apply (op_act_ok l w).
Qed.

(** *** A result is fixed *)

(** The oneshot of a forwarder resolves once. *)
Definition same_results (w w' : OpWorld) : Prop :=
  ∀ k f r, ow_forwarders w !! k = Some f → fd_result f = Some r →
    ∃ f', ow_forwarders w' !! k = Some f' ∧ fd_result f' = Some r.

Lemma same_results_refl w w' : ow_forwarders w' = ow_forwarders w → same_results w w'.
Proof. intros E k f r. rewrite E. eauto. Qed.

Lemma same_results_trans w1 w2 w3 : same_results w1 w2 → same_results w2 w3 → same_results w1 w3.
Proof. intros H1 H2 k f r Hk Hr. destruct (H1 k f r Hk Hr) as (f' & Hk' & Hr'). by apply (H2 k f'). Qed.

Lemma same_results_resolve w w' k r : ow_forwarders w' = alter (resolve r) k (ow_forwarders w) → same_results w w'.
Proof.
  intros E j f r' Hj Hr. rewrite E. destruct (decide (k = j)) as [<-|Hne]; [|rewrite lookup_alter_ne by done; eauto].
  exists (resolve r f). rewrite lookup_alter_eq, Hj. split; [done|]. unfold resolve. unfold fd_result in Hr |- *.
  by destruct (fd_state f) eqn:Hst; rewrite ?Hst.
Qed.

Lemma same_results_drop keys w : same_results w (drop_waiters keys w).
Proof.
  unfold drop_waiters. revert w. induction keys as [|k keys IH]; intros w; [by apply same_results_refl|]. cbn.
  eapply same_results_trans; [|apply IH]. unfold drop_waiter. case_decide; [|by apply same_results_refl].
  by eapply same_results_resolve.
Qed.

Lemma same_results_insert w w' k f : ow_forwarders w' = <[k := f]> (ow_forwarders w) →
  (∀ f0, ow_forwarders w !! k = Some f0 → fd_result f0 ≠ None → fd_result f = fd_result f0) → same_results w w'.
Proof.
  intros E Hf j f0 r Hj Hr. rewrite E. destruct (decide (k = j)) as [<-|Hne]; [|rewrite lookup_insert_ne by done; eauto].
  exists f. rewrite lookup_insert_eq, (Hf f0 Hj) by congruence. done.
Qed.

Lemma forward_results k w w' : forward k w = Some w' → same_results w w'.
Proof.
  unfold forward. destruct (ow_forwarders w !! k) as [f|] eqn:Hk; [|done]. cbn.
  destruct (fd_state f) eqn:Hst; intros [= <-]; (eapply same_results_insert; [done|]); intros f0 H0 _;
    simplify_eq; unfold fd_result; by rewrite Hst.
Qed.

Lemma wait_step_forwarders i tick w w' : wait_step i tick w = Some w' → ow_forwarders w' = ow_forwarders w.
Proof.
  unfold wait_step. destruct (ow_waits w !! i) as [x|]; [|done]. cbn.
  assert (∀ r w1, take_result (wt_batch x) w = Some (r, w1) → ow_forwarders w1 = ow_forwarders w) as Htake.
  { intros r w1 (sh & rs & _ & _ & ->)%take_result_inv. done. }
  destruct (wt_phase x); [| | | |done].
  - case_match; [by intros [= <-]|]. destruct tick; [by intros [= <-]|].
    destruct (take_result (wt_batch x) w) as [[r w1]|] eqn:Ht; [intros [= <-]; exact (Htake r w1 eq_refl)|]. case_match; [by intros [= <-]|done].
  - case_match; by intros [= <-].
  - destruct (take_result (wt_batch x) w) as [[r w1]|] eqn:Ht; intros [= <-]; [exact (Htake r w1 eq_refl)|done].
  - intros [= <-]. apply (finish_frame (wt_batch x) w).
Qed.

Lemma insert_results b k w w' : op_ok w → insert_waiter b k w = Some w' → same_results w w'.
Proof.
  intros Hok H. unfold insert_waiter in H. destruct (ow_starting w !! b) as [ops|] eqn:Hops; [|done]. cbn in H.
  destruct (ops !! k) as [[op ph]|] eqn:Hk; [|done]. cbn in H. destruct ph; try done. injection H as <-.
  destruct (o_starting _ Hok b ops k op OpFresh Hops Hk) as [_ Hiff]. pose proof (proj1 Hiff eq_refl) as Hnone.
  eapply same_results_insert; [done|]. congruence.
Qed.

Lemma op_act_results l w w' : op_ok w → op_act l w = Some w' → same_results w w'.
Proof.
  intros Hok H. destruct l; cbn in H.
  - case_match; [|done]. injection H as <-. by apply same_results_refl.
  - case_decide; [|done]. injection H as <-. by apply same_results_refl.
  - by apply (insert_results batch_id key).
  - apply same_results_refl. unfold publish_operation in H.
    destruct (ow_starting w !! batch_id) as [ops|]; [|done]. cbn in H. destruct (ops !! key) as [[op ph]|]; [|done]. cbn in H.
    destruct ph; try done. by injection H as <-.
  - unfold fail_batch in H. destruct (ow_starting w !! batch_id) as [ops|]; [|done]. cbn in H.
    destruct (ow_shared w !! batch_id) as [sh|]; [|done]. injection H as <-. unfold cleanup_failed_operation_batch.
    eapply same_results_trans; [|apply same_results_drop]. by apply same_results_refl.
  - unfold end_start in H. destruct (ow_starting w !! batch_id) as [ops|]; [|done]. cbn in H.
    case_decide; [|done]. injection H as <-. by apply same_results_refl.
  - injection H as <-. unfold consume_result. case_decide; [by eapply same_results_resolve|by apply same_results_refl].
  - by apply (forward_results key).
  - unfold begin_wait in H. case_decide; [|done]. injection H as <-. by apply same_results_refl.
  - apply same_results_refl. by apply (wait_step_forwarders i tick).
  - injection H as <-. unfold cancel_operation_batch. destruct (ow_batches w !! batch_id); [|by apply same_results_refl].
    eapply same_results_trans; [|apply same_results_drop]. by apply same_results_refl.
  - injection H as <-. unfold reap_batch. destruct (ow_batches w !! batch_id) as [bt|]; [|by apply same_results_refl].
    case_match; [by apply same_results_refl|]. case_match; [by apply same_results_refl|].
    eapply same_results_trans; [apply (same_results_drop (bt_cleanup_keys bt))|]. by apply same_results_refl.
Qed.

Lemma op_run_results ls w w' : op_ok w → op_run ls w = Some w' → same_results w w'.
Proof.
  revert w. induction ls as [|l ls IH]; intros w Hok H; cbn in H; [injection H as <-; by apply same_results_refl|].
  destruct (op_act l w) as [w1|] eqn:E; [|done]. cbn in H. apply (same_results_trans _ w1); [by apply (op_act_results l)|].
  apply IH; [|done]. by apply (op_act_ok l w).
Qed.

Lemma held_result w i x r : op_ok w → ow_waits w !! i = Some x → holds (wt_phase x) = Some r →
  ∃ f, ow_forwarders w !! tr_task_id r = Some f ∧ fd_result f = Some r ∧ fd_batch f = wt_batch x.
Proof.
  intros Hok Hi Hh. destruct (l_held _ _ _ _ (o_ledger _ Hok) i x r Hi Hh) as [Hs _]. unfold sent_of in Hs.
  destruct (ow_forwarders w !! tr_task_id r) as [f|]; [|done]. cbn in Hs. exists f. split; [done|].
  unfold sent_by in Hs. unfold fd_result. destruct (fd_state f); by simplify_eq.
Qed.

(** *** The promises *)

(** C14. Whatever the consumer, the forwarders, the waits, cancellations and the reaper do
    in turn, a wait that gives up because nothing is pending has missed nothing: for each
    operation of its batch, some wait on the batch received its result, or the word that
    the operation was cancelled. *)
Theorem nothing_lost now ls w i x b deadline sh k :
  op_run ls (op_start now) = Some w →
  ow_waits w !! i = Some x → x = mkWait b deadline (WpEnded WoNothing false) →
  ow_shared w !! b = Some sh → k ∈ sb_keys sh →
  ∃ j y r, ow_waits w !! j = Some y ∧ wt_batch y = b ∧ holds (wt_phase y) = Some r ∧ tr_task_id r = k.
Proof.
  intros Hrun Hi -> Hsh Hk. pose proof (op_run_ok _ _ _ (op_start_ok now) Hrun) as Hok.
  by apply (l_nothing _ _ _ _ (o_ledger _ Hok) i (mkWait b deadline (WpEnded WoNothing false)) sh k).
Qed.

(** C15. The first result that comes back for an operation is the one that is received,
    and one wait receives it: results after it, cancellations and the reaper change
    nothing. *)
Theorem first_result_kept now ls1 ls2 w w' r i j x y r1 r2 :
  op_run ls1 (op_start now) = Some w → tr_task_id r ∈ ow_waiters w →
  op_run (OResult r :: ls2) w = Some w' →
  ow_waits w' !! i = Some x → holds (wt_phase x) = Some r1 → tr_task_id r1 = tr_task_id r →
  ow_waits w' !! j = Some y → holds (wt_phase y) = Some r2 → tr_task_id r2 = tr_task_id r →
  r1 = r ∧ r2 = r ∧ i = j.
Proof.
  intros Hrun Hin Hrun' Hi Hh1 Ht1 Hj Hh2 Ht2.
  pose proof (op_run_ok _ _ _ (op_start_ok now) Hrun) as Hok. pose proof (op_run_ok _ _ _ Hok Hrun') as Hok'.
  destruct (proj1 (o_waiter _ Hok _) Hin) as (f & Hf & Hst).
  assert (same_results (consume_result r w) w') as Hsame.
  { cbn in Hrun'. apply (op_run_results ls2); [by apply consume_ok|done]. }
  destruct (Hsame (tr_task_id r) (resolve r f) r) as (f' & Hf' & Hr').
  { unfold consume_result. rewrite decide_True by done. cbn. by rewrite lookup_alter_eq, Hf. }
  { unfold resolve, fd_result. by rewrite Hst. }
  destruct (held_result w' i x r1 Hok' Hi Hh1) as (f1 & H1 & E1 & _), (held_result w' j y r2 Hok' Hj Hh2) as (f2 & H2 & E2 & _).
  rewrite Ht1, Hf' in H1. rewrite Ht2, Hf' in H2. simplify_eq. split_and!; [done|done|].
  by eapply (l_once _ _ _ _ (o_ledger _ Hok') i j x y).
Qed.

(** An operation is published when its waiter is there already: its result, however soon
    it comes, is not the result of nobody. *)
Theorem published_has_waiter now ls w q t :
  op_run ls (op_start now) = Some w → (q, t) ∈ ow_published w →
  tk_id t ∈ ow_waiters w ∨ ∃ f r, ow_forwarders w !! tk_id t = Some f ∧ fd_result f = Some r.
Proof.
  intros Hrun Hin. pose proof (op_run_ok _ _ _ (op_start_ok now) Hrun) as Hok.
  destruct (o_published _ Hok q t Hin) as [f Hf]. destruct (fd_result f) as [r|] eqn:Hr; [right; eauto|left].
  apply (o_waiter _ Hok). exists f. split; [done|]. unfold fd_result in Hr. by destruct (fd_state f).
Qed.

(** A result that comes for an operation whose waiter is there reaches the wait on its
    batch: four steps deliver it. *)
Theorem result_delivered now ls w b f k i x r :
  op_run ls (op_start now) = Some w →
  k ∈ ow_waiters w → ow_forwarders w !! k = Some f → fd_batch f = b → tr_task_id r = k →
  ow_waits w !! i = Some x → wt_batch x = b → wt_phase x = WpReceiving → (ow_now w < wt_deadline x)%Z →
  results_of b w = [] →
  ∃ w', op_run [OResult r; OForward k; OWaitStep i false; OWaitStep i false] w = Some w'
    ∧ ow_waits w' !! i = Some (mkWait b (wt_deadline x) (WpEnded (WoResult r) false))
    ∧ k ∉ ow_waiters w' ∧ results_of b w' = [].
Proof.
  intros Hrun Hk Hf Hb Hr Hi Hxb Hph Hdl Hres. pose proof (op_run_ok _ _ _ (op_start_ok now) Hrun) as Hok.
  destruct (proj1 (o_waiter _ Hok _) Hk) as (f' & Hf' & Hst). simplify_eq. destruct (o_forwarder _ Hok _ f Hf) as [(sh & Hsh & _) _].
  unfold results_of in Hres. rewrite Hsh in Hres.
  assert (forward (tr_task_id r) (consume_result r w)
    = Some (with_forwarder (tr_task_id r) (mkForwarder (fd_batch f) (FwSent r))
        (with_shared (<[fd_batch f := mkShared (sb_keys sh) [r] (sb_pending sh)]> (ow_shared w)) (consume_result r w)))) as Hfw.
  { unfold forward, consume_result. rewrite decide_True by done. cbn. rewrite lookup_alter_eq, Hf. cbn.
    unfold resolve at 1. rewrite Hst. cbn. f_equal. f_equal; [unfold resolve; by rewrite Hst|]. f_equal.
    unfold resolve. rewrite Hst. cbn. rewrite (alter_as_insert _ _ _ _ Hsh). by rewrite Hres. }
  assert (ow_waits (consume_result r w) = ow_waits w ∧ ow_now (consume_result r w) = ow_now w
    ∧ tr_task_id r ∉ ow_waiters (consume_result r w)) as (Ew & En & Hnot).
  { unfold consume_result. rewrite decide_True by done. cbn. split_and!; [done|done|set_solver]. }
  cbn [op_run OperationBatch.op_run op_act OperationBatch.op_act]. cbn. rewrite Hfw. cbn.
  set (w1 := with_forwarder _ _ _).
  assert (wait_step i false w1 = Some (with_wait i (mkWait (fd_batch f) (wt_deadline x) (WpDelivered r))
     (with_shared (<[fd_batch f := mkShared (sb_keys sh) [] (sb_pending sh)]> (ow_shared w1)) w1))) as Hs1.
  { unfold wait_step. subst w1. cbn. rewrite Ew, Hi. cbn. rewrite Hph, En. destruct (Z.leb_spec (wt_deadline x) (ow_now w)); [lia|].
    unfold take_result. cbn. rewrite Hxb, lookup_insert_eq. done. }
  rewrite Hs1. cbn. unfold wait_step at 1. cbn. rewrite lookup_insert_eq. cbn. eexists. split; [done|]. cbn.
  rewrite lookup_insert_eq. split; [done|].
  set (w2 := with_wait _ _ _). assert (ow_waiters (finish_operation_delivered (fd_batch f) w2) = ow_waiters (consume_result r w)) as ->.
  { destruct (finish_frame (fd_batch f) w2) as (_ & _ & _ & E). by rewrite E. }
  split; [done|]. unfold results_of. cbn. destruct (finish_frame (fd_batch f) w2) as (_ & -> & _). subst w2. cbn. by rewrite lookup_insert_eq.
Qed.
End run.

(** ** Large files of operations, and runs
    An operation whose large files went to the store is the operation it was; the
    properties of [OperationBatchProofs] at runs; and two runs that show what the waits
    and the reaper do. *)

(** ** Large files *)

Section blobs.
Context {B : Type} (put : ustring → B → result ustring ustring * B) (get : ustring → B → option ustring).

Definition file_content (b : B) (f : SessionFile) : option ustring :=
  match f with
  | SfPath _ => None
  | SfContent content => Some content
  | SfBlob hash => get hash b
  end.

Definition is_small (f : SessionFile) : Prop :=
  match f with SfContent c => (Z.of_nat (str_len c) < INLINE_FILE_BLOB_THRESHOLD_BYTES)%Z | _ => True end.

(** What the worker reads of a file is what the plugin put there. *)
Definition same_file (b b' : B) (f f' : SessionFile) : Prop :=
  is_small f' ∧ (is_small f → f' = f) ∧ ∀ c, file_content b f = Some c → file_content b' f' = Some c.

Definition same_files (b b' : B) : list (ustring * SessionFile) → list (ustring * SessionFile) → Prop :=
  Forall2 (λ x y, x.1 = y.1 ∧ same_file b b' x.2 y.2).

Definition same_environments (b b' : B) : list Environment → list Environment → Prop :=
  Forall2 (λ e e', env_id e = env_id e' ∧ same_files b b' (files_in e) (files_in e')).

(** What is in the store stays there. *)
Definition kept (b b' : B) : Prop := ∀ h c, get h b = Some c → get h b' = Some c.

Lemma kept_refl b : kept b b.
Proof. by intros h c. Qed.

Context (put_get : ∀ c b h b', put c b = (Ok h, b') → get h b' = Some c).
Context (put_keeps : ∀ c b r b', put c b = (r, b') → kept b b').

Lemma file_content_kept b b' f c : kept b b' → file_content b f = Some c → file_content b' f = Some c.
Proof. intros Hk. destruct f; cbn; auto. Qed.

Lemma same_file_kept b b1 b2 f f' : kept b1 b2 → same_file b b1 f f' → same_file b b2 f f'.
Proof. intros Hk (H1 & H2 & H3). split_and!; [done|done|]. intros c Hc. by apply (file_content_kept b1), H3. Qed.

Lemma same_file_earlier b0 b b' f f' : kept b0 b → same_file b b' f f' → same_file b0 b' f f'.
Proof. intros Hk (H1 & H2 & H3). split_and!; [done|done|]. intros c Hc. by apply H3, (file_content_kept b0). Qed.

Lemma same_file_refl b f : is_small f → same_file b b f f.
Proof. done. Qed.

Lemma externalize_file_spec f b r b' : externalize_file put f b = (r, b') →
  kept b b' ∧ ∀ f', r = Ok f' → same_file b b' f f'.
Proof using All.
  unfold externalize_file.
  destruct f as [path|content|hash];
    try (intros [= <- <-]; split; [apply kept_refl|]; intros f' [= <-]; apply same_file_refl; exact I).
  destruct (Z.ltb_spec (Z.of_nat (str_len content)) INLINE_FILE_BLOB_THRESHOLD_BYTES) as [Hlt|Hge].
  - intros [= <- <-]. split; [apply kept_refl|]. intros f' [= <-]. by apply same_file_refl.
  - destruct (put content b) as [[h|e] b1] eqn:Hput; intros [= <- <-]; (split; [by eapply put_keeps|]); [|done].
    intros f' [= <-]. split_and!; [done|cbn; lia|]. intros c [= <-]. cbn. by eapply put_get.
Qed.

Lemma externalize_files_spec fs b r b' : externalize_files put fs b = (r, b') →
  kept b b' ∧ ∀ fs', r = Ok fs' → same_files b b' fs fs'.
Proof using All.
  revert b r b'. induction fs as [|[path f] fs IH]; intros b r b'; cbn.
  - intros [= <- <-]. split; [apply kept_refl|]. intros fs' [= <-]. constructor.
  - destruct (externalize_file put f b) as [[f1|e] b1] eqn:Hf; apply externalize_file_spec in Hf as [Hk1 Hf]; [|by intros [= <- <-]].
    destruct (externalize_files put fs b1) as [[fs1|e] b2] eqn:Hfs; apply IH in Hfs as [Hk2 Hfs]; intros [= <- <-];
      (split; [intros h c Hc; by apply Hk2, Hk1|]); [|done]. intros fs' [= <-]. constructor.
    + split; [done|]. by apply (same_file_kept b b1), Hf.
    + eapply Forall2_impl; [by apply Hfs|]. intros x y [H1 H2]. split; [done|]. by apply (same_file_earlier b b1).
Qed.

Lemma same_files_kept b b1 b2 fs fs' : kept b1 b2 → same_files b b1 fs fs' → same_files b b2 fs fs'.
Proof. intros Hk H. eapply Forall2_impl; [exact H|]. intros x y [H1 H2]. split; [done|]. by apply (same_file_kept b b1). Qed.

Lemma same_files_earlier b0 b b' fs fs' : kept b0 b → same_files b b' fs fs' → same_files b0 b' fs fs'.
Proof. intros Hk H. eapply Forall2_impl; [exact H|]. intros x y [H1 H2]. split; [done|]. by apply (same_file_earlier b0 b). Qed.

Lemma externalize_environments_spec es b r b' : externalize_environments put es b = (r, b') →
  kept b b' ∧ ∀ es', r = Ok es' → same_environments b b' es es'.
Proof using All.
  revert b r b'. induction es as [|e es IH]; intros b r b'; cbn.
  - intros [= <- <-]. split; [apply kept_refl|]. intros es' [= <-]. constructor.
  - destruct (externalize_files put (files_in e) b) as [[fs|x] b1] eqn:Hf; apply externalize_files_spec in Hf as [Hk1 Hf]; [|by intros [= <- <-]].
    destruct (externalize_environments put es b1) as [[es1|x] b2] eqn:Hes; apply IH in Hes as [Hk2 Hes]; intros [= <- <-];
      (split; [intros h c Hc; by apply Hk2, Hk1|]); [|done]. intros es' [= <-]. constructor.
    + split; [done|]. by apply (same_files_kept b b1), Hf.
    + eapply Forall2_impl; [by apply Hes|]. intros x y [H1 H2]. split; [done|]. by apply (same_files_earlier b b1).
Qed.

(** An operation whose large files were put into the store is the operation it was:
    each file reads as before, no file that is small was touched, none that is large is
    left in the message, and nothing else changed. *)
Theorem externalized_same op b op' b' :
  externalize_large_inline_files put op b = (Ok op', b') →
  same_environments b b' (environments op) (environments op')
  ∧ op' = with_environments (environments op') op.
Proof using All.
  unfold externalize_large_inline_files.
  destruct (externalize_environments put (environments op) b) as [[es|e] b1] eqn:H; intros [= <- <-].
  apply externalize_environments_spec in H as [_ H]. split; [by apply H|done].
Qed.
End blobs.

(** A store that names a file by how many it has. *)
Definition count_put (c : ustring) (b : list ustring) : result ustring ustring * list ustring :=
  (Ok (replicate (length b) 48%Z), b ++ [c]).

Definition count_get (h : ustring) (b : list ustring) : option ustring := b !! length h.

Lemma count_put_get c b h b' : count_put c b = (Ok h, b') → count_get h b' = Some c.
Proof.
  intros [= <- <-]. unfold count_get. rewrite length_replicate, lookup_app_r, Nat.sub_diag by lia. done.
Qed.

Lemma count_put_keeps c b r b' : count_put c b = (r, b') → kept count_get b b'.
Proof. intros [= <- <-] h x Hh. unfold count_get in *. rewrite lookup_app_l; [done|]. by eapply lookup_lt_Some. Qed.

Definition ex_op : OperationTask := {|
  environments := [{| env_id := u "main"; files_in := [(u "main.cpp", SfContent (u "int main(){}"))] |}];
  tasks := []; channels := []; priority := Some 9%Z; target_worker_id := Some (u "w1");
  evaluate_batch_id := None; op_test_case_id := None |}.

Lemma externalized_same_witness :
  externalize_large_inline_files count_put ex_op [] = (Ok ex_op, [])
  ∧ same_environments count_get [] [] (environments ex_op) (environments ex_op)
  ∧ ex_op = with_environments (environments ex_op) ex_op.
Proof.
  split; [reflexivity|].
  exact (externalized_same count_put count_get count_put_get count_put_keeps ex_op [] ex_op [] eq_refl).
Defined.

(** ** Runs *)

Definition ex_run (ls : list OpLabel) : OpWorld :=
  default (op_start 0) (op_run (u "ops") (u "results") NoRedis 60000 ls (op_start 0)).

Definition ex_result (key : ustring) : TaskResult := {|
  tr_task_id := key; tr_success := true; tr_output := VObject []; tr_error := None; tr_worker_id := Some (u "w1") |}.

Definition ex_started : list OpLabel :=
  [OStart (u "b") [(u "k", ex_op)]; OInsert (u "b") (u "k"); OPublish (u "b") (u "k") ex_op; OStarted (u "b");
   OWait 0 (u "b") 1000; OWait 1 (u "b") 1000].

(** Two waits on a batch of one operation: one takes the result, the other gives up. *)
Definition ex_gave_up : list OpLabel :=
  ex_started ++
  [OResult (ex_result (u "k")); OForward (u "k"); OWaitStep 0 false; OForward (u "k"); OWaitStep 0 false;
   OWaitStep 1 true; OWaitStep 1 false; OWaitStep 1 false].

Definition ex_deadline : Z := 1800000.

Lemma nothing_lost_witness :
  op_run (u "ops") (u "results") NoRedis 60000 ex_gave_up (op_start 0) = Some (ex_run ex_gave_up)
  ∧ ow_waits (ex_run ex_gave_up) !! 1 = Some (mkWait (u "b") ex_deadline (WpEnded WoNothing false))
  ∧ ∃ j y r, ow_waits (ex_run ex_gave_up) !! j = Some y ∧ wt_batch y = u "b" ∧ holds (wt_phase y) = Some r ∧ tr_task_id r = u "k".
Proof.
  split; [by vm_compute|]. split; [by vm_compute|].
  refine (nothing_lost (u "ops") (u "results") NoRedis 60000 0 ex_gave_up (ex_run ex_gave_up) 1 (mkWait (u "b") ex_deadline (WpEnded WoNothing false))
    (u "b") ex_deadline (mkShared [u "k"] [] 0) (u "k") _ _ eq_refl _ _).
  - by vm_compute.
  - by vm_compute.
  - by vm_compute.
  - by left.
Defined.

(** A second result, a cancellation and the reaper after the first result. *)
Definition ex_more : list OpLabel :=
  [OResult (cancelled_result (u "k")); OCancel (u "b"); OForward (u "k"); OTick 100000; OReap (u "b"); OWaitStep 0 false].

Lemma first_result_kept_witness :
  u "k" ∈ ow_waiters (ex_run ex_started)
  ∧ op_run (u "ops") (u "results") NoRedis 60000 (OResult (ex_result (u "k")) :: ex_more) (ex_run ex_started)
    = Some (ex_run (ex_started ++ OResult (ex_result (u "k")) :: ex_more))
  ∧ ex_result (u "k") = ex_result (u "k") ∧ ex_result (u "k") = ex_result (u "k") ∧ 0 = 0.
Proof.
  split; [by vm_compute|]. split; [by vm_compute|].
  refine (first_result_kept (u "ops") (u "results") NoRedis 60000 0 ex_started ex_more (ex_run ex_started)
    (ex_run (ex_started ++ OResult (ex_result (u "k")) :: ex_more)) (ex_result (u "k")) 0 0
    (mkWait (u "b") ex_deadline (WpDelivered (ex_result (u "k")))) (mkWait (u "b") ex_deadline (WpDelivered (ex_result (u "k"))))
    (ex_result (u "k")) (ex_result (u "k")) _ _ _ _ eq_refl eq_refl _ eq_refl eq_refl); by vm_compute.
Defined.

Lemma result_delivered_witness :
  u "k" ∈ ow_waiters (ex_run ex_started)
  ∧ ∃ w', op_run (u "ops") (u "results") NoRedis 60000
            [OResult (ex_result (u "k")); OForward (u "k"); OWaitStep 1 false; OWaitStep 1 false] (ex_run ex_started) = Some w'
    ∧ ow_waits w' !! 1 = Some (mkWait (u "b") ex_deadline (WpEnded (WoResult (ex_result (u "k"))) false))
    ∧ u "k" ∉ ow_waiters w' ∧ results_of (u "b") w' = [].
Proof.
  split; [by vm_compute|].
  refine (result_delivered (u "ops") (u "results") NoRedis 60000 0 ex_started (ex_run ex_started) (u "b")
    (mkForwarder (u "b") FwWaiting) (u "k") 1 (mkWait (u "b") ex_deadline WpReceiving) (ex_result (u "k"))
    _ _ _ eq_refl eq_refl _ eq_refl eq_refl _ _); by vm_compute.
Defined.

(** A wait on a batch that is cancelled is answered with a result that says so, and is
    not disconnected. *)
Example cancelled_wait_gets_a_result :
  ow_waits (ex_run (ex_started ++ [OCancel (u "b"); OForward (u "k"); OWaitStep 0 false; OWaitStep 0 false])) !! 0
  = Some (mkWait (u "b") ex_deadline (WpEnded (WoResult (cancelled_result (u "k"))) false)).
Proof. by vm_compute. Qed.

(** A result that is received before its forwarder has counted it leaves its batch in the
    registry, and the reaper reports the operation as dead although it was delivered. *)
Definition ex_late_count : list OpLabel :=
  ex_started ++
  [OResult (ex_result (u "k")); OForward (u "k"); OWaitStep 0 false; OWaitStep 0 false; OForward (u "k"); OForward (u "k");
   OTick 70000; OReap (u "b")].

Example finished_operation_reported :
  ow_waits (ex_run ex_late_count) !! 0 = Some (mkWait (u "b") ex_deadline (WpEnded (WoResult (ex_result (u "k"))) false))
  ∧ ow_dead_letters (ex_run ex_late_count) = [u "k"].
Proof. by vm_compute. Qed.

(** Where operations go. *)
Example ex_routes :
  target_operation_queue (u "ops") (effective_target NoRedis ex_op) = u "ops:worker:w1"
  ∧ target_operation_queue (u "ops") (effective_target (Connected (λ _, Some 0%Z)) ex_op) = u "ops"
  ∧ target_operation_queue (u "ops") (effective_target (Connected (λ _, None)) ex_op) = u "ops:worker:w1"
  ∧ is_valid_server_id (u "a_failed") = false ∧ normalize_publish_priority (Some 9%Z) = Some 5%Z.
Proof. by vm_compute. Qed.
