(* ===== verification/OperationQueue.v ===== *)
(** * OperationQueue: the queue between the server and the workers, and its reaper

    The keys of Redis that operations travel through: the commands of the broker
    (third_party/broccoli_queue/src/brokers/redis), a worker that takes an operation
    (packages/worker/src/consumer.rs, dedup.rs, task_runner.rs, runtime.rs, heartbeat.rs)
    and the reaper that takes back the operations of workers that died
    (packages/server/src/dispatcher/operation_reaper.rs).

    Each is a program of single commands, between which the others run.  Times are in
    microseconds.  The random ids of messages are numbers in the order they are drawn. *)

From stdpp Require Import gmap.
From S2P Require Import Prelude Text Float Json Sdk Checkers Statements OperationBatch.

(** ** The keys *)

Definition QSECOND : Z := 1000000.

(** Why a worker acknowledged an operation. *)
Inductive AckReason := AckDone | AckExhausted | AckCancelled | AckHeldByOther.

#[global] Instance AckReason_eq_dec : EqDecision AckReason.
Proof. solve_decision. Defined.

(** *** How long a claim lasts *)

Definition OPERATION_DEDUP_SLACK_SECS : Z := 300.

(** A time limit that counts: finite and positive. *)
Definition positive_limit (x : option f64) : option f64 :=
  x ← x; if is_finite x && f_ltb f_zero x then Some x else None.

Definition add_step_limit (acc : f64 * bool) (s : Step) : f64 * bool :=
  let limits := resource_limits (conf s) in
  match positive_limit (match wall_time_limit limits with Some w => Some w | None => time_limit limits end) with
  | Some base => (f_add acc.1 (f_add base (default f_zero (positive_limit (extra_time limits)))), true)
  | None => acc
  end.

Definition u64_max : Z := 2 ^ 64 - 1.

(** [as u64] saturates; the sum wraps. *)
Definition operation_dedup_ttl_secs (op : OperationTask) : option Z :=
  let '(total, saw_explicit_limit) := foldl add_step_limit (f_zero, false) (tasks op) in
  if negb saw_explicit_limit then None
  else
    let secs := if is_finite total then Z.min (f_ceil total) u64_max else u64_max in
    Some ((secs + OPERATION_DEDUP_SLACK_SECS) mod 2 ^ 64)%Z.

Definition task_dedup_ttl_secs (task : Task) (minimum_ttl_secs : Z) : Z :=
  Z.max (default minimum_ttl_secs (operation_dedup_ttl_secs (tk_payload task))) minimum_ttl_secs.

Definition reply_queue_name (task : Task) : ustring := default (tk_result_queue task) (tk_reply_queue task).

Definition attach_worker_metadata (r : TaskResult) (worker_id : ustring) : TaskResult := {|
  tr_task_id := tr_task_id r; tr_success := tr_success r; tr_output := tr_output r; tr_error := tr_error r;
  tr_worker_id := Some worker_id |}.

Section queue.
(** The text of an operation in its message. *)
Context {Payload : Type} (task_of : Payload → option Task) (payload_of : Task → Payload).

(** The hash of a message. *)
Record Message := { mg_payload : Payload; mg_attempts : Z; mg_priority : Z }.

(** The keys, with the time at which they expire.  [qd_written], [qd_queued] and [qd_acked]
    are the past, not keys: what each message held, which messages were put into a queue,
    and what was acknowledged. *)
Record QueueDb := mkQueue {
  qd_next : nat;
  qd_hashes : gmap nat Message;
  qd_zsets : gmap ustring (list (Z * nat));
  qd_lists : gmap ustring (list nat);
  qd_heartbeats : gmap ustring Z;
  qd_dead_since : gmap ustring (Z * Z);
  qd_dedup : gmap ustring (ustring * Z);
  qd_cancelled : gset ustring;
  qd_results : list (ustring * TaskResult);
  qd_dead_letters : list Task;
  qd_written : gmap nat Payload;
  qd_queued : gset nat;
  qd_acked : list (Task * AckReason);
}.

Abbreviation Cmd := (Program QueueDb).

(** A command of Redis does not fail here: a connection that is lost ends the request. *)
Definition command {R} (d : R) (c : Z → QueueDb → R * QueueDb) : Cmd R :=
  Query (λ now db, let '(r, db) := c now db in (Ok r, db)) (λ r, Return (match r with Ok r => r | Err _ => d end)).

Definition update (f : Z → QueueDb → QueueDb) : Cmd () := command () (λ now db, ((), f now db)).

Definition now_us : Cmd Z := command 0%Z (λ now db, (now, db)).

(** *** Commands *)

Definition set_hashes (x : gmap nat Message) (db : QueueDb) : QueueDb :=
  mkQueue (qd_next db) x (qd_zsets db) (qd_lists db) (qd_heartbeats db) (qd_dead_since db) (qd_dedup db)
    (qd_cancelled db) (qd_results db) (qd_dead_letters db) (qd_written db) (qd_queued db) (qd_acked db).
Definition set_zsets (x : gmap ustring (list (Z * nat))) (db : QueueDb) : QueueDb :=
  mkQueue (qd_next db) (qd_hashes db) x (qd_lists db) (qd_heartbeats db) (qd_dead_since db) (qd_dedup db)
    (qd_cancelled db) (qd_results db) (qd_dead_letters db) (qd_written db) (qd_queued db) (qd_acked db).
Definition set_lists (x : gmap ustring (list nat)) (db : QueueDb) : QueueDb :=
  mkQueue (qd_next db) (qd_hashes db) (qd_zsets db) x (qd_heartbeats db) (qd_dead_since db) (qd_dedup db)
    (qd_cancelled db) (qd_results db) (qd_dead_letters db) (qd_written db) (qd_queued db) (qd_acked db).
Definition set_heartbeats (x : gmap ustring Z) (db : QueueDb) : QueueDb :=
  mkQueue (qd_next db) (qd_hashes db) (qd_zsets db) (qd_lists db) x (qd_dead_since db) (qd_dedup db)
    (qd_cancelled db) (qd_results db) (qd_dead_letters db) (qd_written db) (qd_queued db) (qd_acked db).
Definition set_dead_since (x : gmap ustring (Z * Z)) (db : QueueDb) : QueueDb :=
  mkQueue (qd_next db) (qd_hashes db) (qd_zsets db) (qd_lists db) (qd_heartbeats db) x (qd_dedup db)
    (qd_cancelled db) (qd_results db) (qd_dead_letters db) (qd_written db) (qd_queued db) (qd_acked db).
Definition set_dedup (x : gmap ustring (ustring * Z)) (db : QueueDb) : QueueDb :=
  mkQueue (qd_next db) (qd_hashes db) (qd_zsets db) (qd_lists db) (qd_heartbeats db) (qd_dead_since db) x
    (qd_cancelled db) (qd_results db) (qd_dead_letters db) (qd_written db) (qd_queued db) (qd_acked db).
Definition set_cancelled (x : gset ustring) (db : QueueDb) : QueueDb :=
  mkQueue (qd_next db) (qd_hashes db) (qd_zsets db) (qd_lists db) (qd_heartbeats db) (qd_dead_since db) (qd_dedup db)
    x (qd_results db) (qd_dead_letters db) (qd_written db) (qd_queued db) (qd_acked db).
Definition put_result (r : ustring * TaskResult) (db : QueueDb) : QueueDb :=
  mkQueue (qd_next db) (qd_hashes db) (qd_zsets db) (qd_lists db) (qd_heartbeats db) (qd_dead_since db) (qd_dedup db)
    (qd_cancelled db) (qd_results db ++ [r]) (qd_dead_letters db) (qd_written db) (qd_queued db) (qd_acked db).
Definition add_dead_letter (t : Task) (db : QueueDb) : QueueDb :=
  mkQueue (qd_next db) (qd_hashes db) (qd_zsets db) (qd_lists db) (qd_heartbeats db) (qd_dead_since db) (qd_dedup db)
    (qd_cancelled db) (qd_results db) (qd_dead_letters db ++ [t]) (qd_written db) (qd_queued db) (qd_acked db).
Definition note_queued (id : nat) (db : QueueDb) : QueueDb :=
  mkQueue (qd_next db) (qd_hashes db) (qd_zsets db) (qd_lists db) (qd_heartbeats db) (qd_dead_since db) (qd_dedup db)
    (qd_cancelled db) (qd_results db) (qd_dead_letters db) (qd_written db) ({[ id ]} ∪ qd_queued db) (qd_acked db).
Definition note_acked (x : Task * AckReason) (db : QueueDb) : QueueDb :=
  mkQueue (qd_next db) (qd_hashes db) (qd_zsets db) (qd_lists db) (qd_heartbeats db) (qd_dead_since db) (qd_dedup db)
    (qd_cancelled db) (qd_results db) (qd_dead_letters db) (qd_written db) (qd_queued db) (x :: qd_acked db).

Definition zset (q : ustring) (db : QueueDb) : list (Z * nat) := default [] (qd_zsets db !! q).
Definition rlist (q : ustring) (db : QueueDb) : list nat := default [] (qd_lists db !! q).

(** A sorted set, the least first. *)
Fixpoint zinsert (x : Z * nat) (l : list (Z * nat)) : list (Z * nat) :=
  match l with
  | [] => [x]
  | y :: l => if ((x.1 <? y.1) || ((x.1 =? y.1) && (Z.of_nat x.2 <=? Z.of_nat y.2)))%Z then x :: y :: l else y :: zinsert x l
  end.

Definition zwithout (id : nat) (l : list (Z * nat)) : list (Z * nat) := filter (λ x, x.2 ≠ id) l.

Definition zadd (q : ustring) (score : Z) (id : nat) (db : QueueDb) : QueueDb :=
  set_zsets (<[q := zinsert (score, id) (zwithout id (zset q db))]> (qd_zsets db)) db.

Definition zrem (q : ustring) (id : nat) (db : QueueDb) : QueueDb :=
  set_zsets (<[q := zwithout id (zset q db)]> (qd_zsets db)) db.

Definition lpush (q : ustring) (id : nat) (db : QueueDb) : QueueDb :=
  set_lists (<[q := id :: rlist q db]> (qd_lists db)) db.

(** [LREM key 1 id]. *)
Fixpoint remove_first (id : nat) (l : list nat) : list nat :=
  match l with [] => [] | x :: l => if decide (x = id) then l else x :: remove_first id l end.

Definition lrem (q : ustring) (id : nat) (db : QueueDb) : QueueDb :=
  set_lists (<[q := remove_first id (rlist q db)]> (qd_lists db)) db.

Definition del_hash (id : nat) (db : QueueDb) : QueueDb := set_hashes (delete id (qd_hashes db)) db.

(** *** The broker *)

(** Where the connection breaks while a message is published, if it does. *)
Inductive PublishFault := NoFault | BeforeHset | BeforeZadd | AfterZadd.

(** A new id, and the hash under it; the score is the time before. *)
Definition hset_new (payload : Payload) (priority : Z) (now : Z) (db : QueueDb) : (nat * Z) * QueueDb :=
  let id := qd_next db in
  ((id, now),
   mkQueue (S id) (<[id := {| mg_payload := payload; mg_attempts := 0; mg_priority := priority |}]> (qd_hashes db))
     (qd_zsets db) (qd_lists db) (qd_heartbeats db) (qd_dead_since db) (qd_dedup db) (qd_cancelled db)
     (qd_results db) (qd_dead_letters db) (<[id := payload]> (qd_written db)) (qd_queued db) (qd_acked db)).

Definition publish_message (queue : ustring) (priority : option Z) (payload : Payload) (fault : PublishFault) : Cmd bool :=
  let priority := default 5%Z priority in
  if negb ((1 <=? priority) && (priority <=? 5))%Z then mret false
  else
    match fault with
    | BeforeHset => mret false
    | _ =>
        '(id, score) ← command (0, 0%Z) (hset_new payload priority);
        match fault with
        | BeforeZadd => mret false
        | _ =>
            update (λ _ db, note_queued id (zadd queue (priority * score)%Z id db)) ≫= λ _,
            mret (match fault with AfterZadd => false | _ => true end)
        end
    end.

Definition processing (queue : ustring) : ustring := queue ++ u "_processing".

(** The script that takes a message: the least, unless it is scheduled for later. *)
Definition pop (queue : ustring) (now : Z) (db : QueueDb) : option nat * QueueDb :=
  match zset queue db with
  | [] => (None, db)
  | (score, id) :: rest =>
      if (5 * now <? score)%Z then (None, db)
      else (Some id, lpush (processing queue) id (set_zsets (<[queue := rest]> (qd_zsets db)) db))
  end.

Definition hgetall (id : nat) : Cmd (option Message) := command None (λ _ db, (qd_hashes db !! id, db)).

Definition acknowledge (queue : ustring) (id : nat) (task : Task) (reason : AckReason) : Cmd () :=
  update (λ _ db, note_acked (task, reason) (lrem (processing queue) id db)) ≫= λ _,
  update (λ _ db, del_hash id db).

(** ** The reaper *)

Definition WORKER_DEAD_SINCE_TTL : Z := 86400 * QSECOND.

Definition BROKER_SUFFIXES : list ustring := [u "_processing"; u "_failed"; u "_fairness_set"; []].

(** The worker whose queue a key belongs to. *)
Definition extract_worker_id (key shared_queue : ustring) : option ustring :=
  let prefix := shared_queue ++ u ":worker:" in
  suffix ← head (filter (λ s, ends_with s key = true) BROKER_SUFFIXES);
  base ← strip_suffix suffix key;
  id ← strip_prefix prefix base;
  if decide (id = []) then None
  else if decide (prefix ++ id ++ suffix = key) then Some id else None.

Record ReaperConfig := {
  rc_shared_queue : ustring;
  rc_grace_secs : Z;
  rc_max_requeues_per_tick : nat;
  rc_dry_run : bool;
}.

Record ReapStats := mkStats {
  rs_requeued : nat; rs_dangling : nat; rs_unattributable : nat; rs_dead_lettered : nat; rs_failed : nat;
  rs_over_budget : nat;
}.

Definition no_stats : ReapStats := mkStats 0 0 0 0 0 0.

Definition count_requeued (s : ReapStats) : ReapStats :=
  mkStats (S (rs_requeued s)) (rs_dangling s) (rs_unattributable s) (rs_dead_lettered s) (rs_failed s) (rs_over_budget s).
Definition count_dangling (s : ReapStats) : ReapStats :=
  mkStats (rs_requeued s) (S (rs_dangling s)) (rs_unattributable s) (rs_dead_lettered s) (rs_failed s) (rs_over_budget s).
Definition count_unattributable (s : ReapStats) : ReapStats :=
  mkStats (rs_requeued s) (rs_dangling s) (S (rs_unattributable s)) (rs_dead_lettered s) (rs_failed s) (rs_over_budget s).
Definition count_dead_lettered (s : ReapStats) : ReapStats :=
  mkStats (rs_requeued s) (rs_dangling s) (rs_unattributable s) (S (rs_dead_lettered s)) (rs_failed s) (rs_over_budget s).
Definition count_failed (s : ReapStats) : ReapStats :=
  mkStats (rs_requeued s) (rs_dangling s) (rs_unattributable s) (rs_dead_lettered s) (S (rs_failed s)) (rs_over_budget s).
Definition count_over_budget (s : ReapStats) : ReapStats :=
  mkStats (rs_requeued s) (rs_dangling s) (rs_unattributable s) (rs_dead_lettered s) (rs_failed s) (S (rs_over_budget s)).

(** What the reaper carries through a tick: who may be reaped, the budget and the counts. *)
Record Tally := mkTally { tl_decisions : gmap ustring bool; tl_budget : nat; tl_stats : ReapStats }.

Definition count (f : ReapStats → ReapStats) (t : Tally) : Tally :=
  mkTally (tl_decisions t) (tl_budget t) (f (tl_stats t)).
Definition spend (t : Tally) : Tally := mkTally (tl_decisions t) (pred (tl_budget t)) (tl_stats t).
Definition decided (owner : ustring) (ready : bool) (t : Tally) : Tally :=
  mkTally (<[owner := ready]> (tl_decisions t)) (tl_budget t) (tl_stats t).

Definition alive (now : Z) (id : ustring) (db : QueueDb) : bool :=
  match qd_heartbeats db !! id with Some expires => (now <? expires)%Z | None => false end.

(** [SCAN]: the workers with a heartbeat, unless there are none. *)
Definition scan_live_workers : Cmd (option (gset ustring)) :=
  command None (λ now db,
    let live := dom (filter (λ x, (now <? x.2)%Z = true ∧ x.1 ≠ []) (qd_heartbeats db)) in
    (if decide (live = ∅) then None else Some live, db)).

(** The keys that exist under a prefix: an empty queue has none. *)
Definition queue_keys (prefix : ustring) (db : QueueDb) : list ustring :=
  filter (λ k, is_Some (strip_prefix prefix k))
    ((map_to_list (filter (λ x, x.2 ≠ []) (qd_zsets db))).*1 ++ (map_to_list (filter (λ x, x.2 ≠ []) (qd_lists db))).*1).

Section tick.
(** The order in which a [HashSet] is gone through, and where each publish breaks. *)
Context (order : gset ustring → list ustring) (faults : nat → PublishFault) (config : ReaperConfig).
Notation dry_run := (rc_dry_run config).
Notation shared := (rc_shared_queue config).

(** Nothing is changed in a dry run. *)
Definition unless_dry (f : Z → QueueDb → QueueDb) : Cmd () := if dry_run then mret () else update f.

Definition get_dead_since (owner : ustring) : Cmd (option Z) :=
  command None (λ now db,
    (match qd_dead_since db !! owner with
     | Some (since, expires) => if (now <? expires)%Z then Some since else None
     | None => None
     end, db)).

Definition reapable_now (live : gset ustring) (owner : ustring) (t : Tally) : Cmd (bool * Tally) :=
  match tl_decisions t !! owner with
  | Some ready => mret (ready, t)
  | None =>
      if decide (owner ∈ live) then
        unless_dry (λ _ db, set_dead_since (delete owner (qd_dead_since db)) db) ≫= λ _,
        mret (false, decided owner false t)
      else
        dead_since ← get_dead_since owner;
        now ← now_us;
        match dead_since with
        | None =>
            unless_dry (λ at_ db, set_dead_since (<[owner := (now, (at_ + WORKER_DEAD_SINCE_TTL)%Z)]> (qd_dead_since db)) db)
              ≫= λ _, mret (false, decided owner false t)
        | Some since =>
            let ready := (rc_grace_secs config <=? Z.quot (now - since) QSECOND)%Z in
            mret (ready, decided owner ready t)
        end
  end.

Inductive StrandSource := SourceList | SourceZset.

Definition remove_from_list (source : ustring) (id : nat) : Cmd () := unless_dry (λ _ db, lrem source id db).

Definition dead_letter (source : ustring) (kind : StrandSource) (id : nat) : Cmd () :=
  if dry_run then mret ()
  else
    update (λ _ db, match kind with SourceList => lrem source id db | SourceZset => zrem source id db end) ≫= λ _,
    update (λ _ db, lpush (shared ++ u "_failed") id db).

(** Publishes the operation again and forgets the message. *)
Definition requeue_task (id : nat) (task : Task) (t : Tally) : Cmd (bool * Tally) :=
  if dry_run then mret (false, t)
  else
    published ← publish_message shared None (payload_of task) (faults id);
    if (published : bool) then
      update (λ _ db, del_hash id db) ≫= λ _, mret (true, count count_requeued t)
    else mret (false, count count_failed t).

Inductive RequeueOutcome := Requeued | Dangling | Poison | LeftInPlace | DryRun.

Definition requeue_one (id : nat) (t : Tally) : Cmd (RequeueOutcome * Tally) :=
  fields ← hgetall id;
  match fields with
  | None => mret (Dangling, count count_dangling t)
  | Some m =>
      match task_of (mg_payload m) with
      | None => mret (Poison, t)
      | Some task =>
          '(requeued, t) ← requeue_task id task t;
          mret (if (requeued : bool) then Requeued else if dry_run then DryRun else LeftInPlace, t)
      end
  end.

(** Each strand of a source; the answer says that the source was drained. *)
Fixpoint requeue_from (kind : StrandSource) (source : ustring) (ids : list nat) (drained : bool) (t : Tally) : Cmd (bool * Tally) :=
  match ids with
  | [] => mret (drained, t)
  | id :: ids =>
      if decide (tl_budget t = 0) then requeue_from kind source ids false (count count_over_budget t)
      else
        '(outcome, t) ← requeue_one id t;
        let remove := unless_dry (λ _ db, match kind with SourceList => lrem source id db | SourceZset => zrem source id db end) in
        match outcome with
        | Requeued => remove ≫= λ _, requeue_from kind source ids drained (spend t)
        | Dangling => remove ≫= λ _, requeue_from kind source ids drained t
        | Poison => dead_letter source kind id ≫= λ _, requeue_from kind source ids drained (count count_dead_lettered t)
        | LeftInPlace | DryRun => requeue_from kind source ids false t
        end
  end.

Definition lrange (q : ustring) : Cmd (list nat) := command [] (λ _ db, (rlist q db, db)).
Definition zrange (q : ustring) : Cmd (list nat) := command [] (λ _ db, ((zset q db).*2, db)).

Definition reap_owner (live : gset ustring) (owner : ustring) (t : Tally) : Cmd Tally :=
  '(ready, t) ← reapable_now live owner t;
  if negb ready then mret t
  else
    let main_queue := shared ++ u ":worker:" ++ owner in
    in_flight ← lrange (processing main_queue);
    '(drained_processing, t) ← requeue_from SourceList (processing main_queue) in_flight true t;
    queued ← zrange main_queue;
    '(drained_main, t) ← requeue_from SourceZset main_queue queued true t;
    if (drained_processing && drained_main : bool)
    then unless_dry (λ _ db, set_dead_since (delete owner (qd_dead_since db)) db) ≫= λ _, mret t
    else mret t.

Fixpoint reap_owners (live : gset ustring) (owners : list ustring) (t : Tally) : Cmd Tally :=
  match owners with
  | [] => mret t
  | owner :: owners => if decide (tl_budget t = 0) then mret t else t ← reap_owner live owner t; reap_owners live owners t
  end.

Definition reap_private_queues (live : gset ustring) (t : Tally) : Cmd Tally :=
  keys ← command [] (λ _ db, (queue_keys (shared ++ u ":worker:") db, db));
  reap_owners live (order (list_to_set (omap (λ key, extract_worker_id key shared) keys))) t.

Definition get_owner (task : Task) : Cmd (option ustring) :=
  command None (λ now db,
    (match qd_dedup db !! tk_id task with
     | Some (owner, expires) => if (now <? expires)%Z then Some owner else None
     | None => None
     end, db)).

Definition reap_shared_one (live : gset ustring) (id : nat) (t : Tally) : Cmd Tally :=
  if decide (tl_budget t = 0) then mret (count count_over_budget t)
  else
    fields ← hgetall id;
    match fields with
    | None => remove_from_list (processing shared) id ≫= λ _, mret (count count_dangling t)
    | Some m =>
        match task_of (mg_payload m) with
        | None => dead_letter (processing shared) SourceList id ≫= λ _, mret (count count_dead_lettered t)
        | Some task =>
            owner ← get_owner task;
            match owner with
            | None => mret (count count_unattributable t)
            | Some owner =>
                if decide (owner = []) then mret (count count_unattributable t)
                else
                  '(ready, t) ← reapable_now live owner t;
                  if negb ready then mret t
                  else
                    '(requeued, t) ← requeue_task id task t;
                    if (requeued : bool) then remove_from_list (processing shared) id ≫= λ _, mret (spend t)
                    else mret t
            end
        end
    end.

Fixpoint reap_shared (live : gset ustring) (ids : list nat) (t : Tally) : Cmd Tally :=
  match ids with [] => mret t | id :: ids => t ← reap_shared_one live id t; reap_shared live ids t end.

Definition reap_shared_processing (live : gset ustring) (t : Tally) : Cmd Tally :=
  ids ← lrange (processing shared); reap_shared live ids t.

Definition reap_once : Cmd ReapStats :=
  live ← scan_live_workers;
  match live with
  | None => mret no_stats
  | Some live =>
      t ← reap_private_queues live (mkTally ∅ (rc_max_requeues_per_tick config) no_stats);
      t ← reap_shared_processing live t;
      mret (tl_stats t)
  end.
End tick.

(** ** A worker *)

Definition KEY_TTL_SECS : Z := 15.

Definition write_heartbeat (worker_id : ustring) : Cmd () :=
  update (λ now db, set_heartbeats (<[worker_id := (now + KEY_TTL_SECS * QSECOND)%Z]> (qd_heartbeats db)) db).

Definition clear_heartbeat (worker_id : ustring) : Cmd () :=
  update (λ _ db, set_heartbeats (delete worker_id (qd_heartbeats db)) db).

Inductive ClaimOutcome := Claimed | Stolen | HeldByOther.

(** The owner of a claim that has not expired. *)
Definition claim_owner (now : Z) (task_id : ustring) (db : QueueDb) : option ustring :=
  match qd_dedup db !! task_id with
  | Some (owner, expires) => if (now <? expires)%Z then Some owner else None
  | None => None
  end.

(** The script of a claim, which looks at the heartbeat of the owner. *)
Definition claim_script (worker_id task_id : ustring) (ttl : Z) (now : Z) (db : QueueDb) : ClaimOutcome * QueueDb :=
  let hold := set_dedup (<[task_id := (worker_id, (now + Z.max 1 ttl * QSECOND)%Z)]> (qd_dedup db)) db in
  match claim_owner now task_id db with
  | None => (Claimed, hold)
  | Some current =>
      if decide (current = worker_id) then (Claimed, hold)
      else if negb (alive now current db) then (Stolen, hold)
      else (HeldByOther, db)
  end.

Definition release_script (worker_id task_id : ustring) (now : Z) (db : QueueDb) : QueueDb :=
  if decide (claim_owner now task_id db = Some worker_id) then set_dedup (delete task_id (qd_dedup db)) db else db.

(** Each run of the executor, with its end, and where the publish of its result breaks. *)
Inductive Attempt := Failed (error : ustring) | Succeeded (r : TaskResult) (fault : PublishFault) (error : ustring).

(** A service may not be configured, or not be reached. *)
Inductive Service := Off | Down | Up.

Record WorkRun := {
  wr_dedup : Service;
  wr_cancel : Service;
  wr_attempts : list Attempt;
  wr_reply_fault : PublishFault;
  wr_dlq_fault : PublishFault;
  wr_minimum_ttl : Z;
  wr_max_retries : Z;
}.

Section worker.
Context (worker_id : ustring) (run : WorkRun).

Definition try_claim_with_ttl (task_id : ustring) (ttl : Z) : Cmd ClaimOutcome :=
  match wr_dedup run with
  | Up => command Claimed (claim_script worker_id task_id ttl)
  | _ => mret Claimed
  end.

Definition release (task_id : ustring) : Cmd () :=
  match wr_dedup run with Up => update (release_script worker_id task_id) | _ => mret () end.

(** A failure to ask counts as no. *)
Definition is_cancelled (task_id : ustring) : Cmd bool :=
  match wr_cancel run with
  | Up => command false (λ _ db, (bool_decide (task_id ∈ qd_cancelled db), db))
  | _ => mret false
  end.

(** Publishing to the queue of replies and to that of dead letters. *)
Definition publish_reply (task : Task) (r : TaskResult) (fault : PublishFault) : Cmd bool :=
  match fault with
  | BeforeHset | BeforeZadd => mret false
  | _ => update (λ _ db, put_result (reply_queue_name task, r) db) ≫= λ _,
         mret (match fault with AfterZadd => false | _ => true end)
  end.

Definition publish_dead_letter (task : Task) : Cmd () :=
  match wr_dlq_fault run with
  | BeforeHset | BeforeZadd => mret ()
  | _ => update (λ _ db, add_dead_letter task db)
  end.

Definition exhausted_result (task : Task) (retries : Z) (error : ustring) : TaskResult := {|
  tr_task_id := tk_id task; tr_success := false; tr_output := VObject [];
  tr_error := Some (u "Operation failed after " ++ show retries ++ u " retries: " ++ error);
  tr_worker_id := Some worker_id |}.

(** Neither publish is retried. *)
Definition finish_exhausted (task : Task) (retries : Z) (error : ustring) : Cmd () :=
  publish_reply task (exhausted_result task retries error) (wr_reply_fault run) ≫= λ _,
  publish_dead_letter task ≫= λ _, release (tk_id task).

(** The retries, while the executor ends; [attempt] is a u8. *)
Fixpoint retry_loop (task : Task) (attempt : Z) (attempts : list Attempt) : Cmd (option AckReason) :=
  let failed error rest :=
    let attempt := wrap_u8 (attempt + 1) in
    if (attempt <=? wr_max_retries run)%Z then rest attempt
    else finish_exhausted task attempt error ≫= λ _, mret (Some AckExhausted) in
  match attempts with
  | [] => mret None
  | Failed error :: attempts => failed error (λ attempt, retry_loop task attempt attempts)
  | Succeeded r fault error :: attempts =>
      published ← publish_reply task (attach_worker_metadata r worker_id) fault;
      if (published : bool) then mret (Some AckDone)
      else failed (u "MQ error: " ++ error) (λ attempt, retry_loop task attempt attempts)
  end.

(** What becomes of an operation that was taken; [None] while it runs. *)
Definition process_message (task : Task) : Cmd (option AckReason) :=
  claim ← try_claim_with_ttl (tk_id task) (task_dedup_ttl_secs task (wr_minimum_ttl run));
  match claim with
  | HeldByOther => mret (Some AckHeldByOther)
  | _ =>
      cancelled ← is_cancelled (tk_id task);
      if (cancelled : bool) then mret (Some AckCancelled)
      else retry_loop task 0 (wr_attempts run)
  end.

(** One round of the consume loop: a message without a hash is passed over, one that is
    no operation stays where it is. *)
Definition consume (queue : ustring) : Cmd (option AckReason) :=
  id ← command None (pop queue);
  match id with
  | None => mret None
  | Some id =>
      fields ← hgetall id;
      match fields ≫= λ m, task_of (mg_payload m) with
      | None => mret None
      | Some task =>
          outcome ← process_message task;
          match outcome with
          | Some reason => acknowledge queue id task reason ≫= λ _, mret (Some reason)
          | None => mret None
          end
      end
  end.
End worker.

(** ** Everything at once *)

Inductive QueueEvent :=
  | EvPublish (queue : ustring) (priority : option Z) (task : Task) (fault : PublishFault)
  | EvWork (worker_id queue : ustring) (run : WorkRun)
  | EvReap (order : gset ustring → list ustring) (faults : nat → PublishFault) (config : ReaperConfig)
  | EvHeartbeat (worker_id : ustring)
  | EvClearHeartbeat (worker_id : ustring)
  | EvCancel (task_ids : list ustring).

Definition queue_program (e : QueueEvent) : Cmd () :=
  match e with
  | EvPublish queue priority task fault => publish_message queue priority (payload_of task) fault ≫= λ _, mret ()
  | EvWork worker_id queue run => consume worker_id run queue ≫= λ _, mret ()
  | EvReap order faults config => reap_once order faults config ≫= λ _, mret ()
  | EvHeartbeat worker_id => write_heartbeat worker_id
  | EvClearHeartbeat worker_id => clear_heartbeat worker_id
  | EvCancel task_ids => update (λ _ db, set_cancelled (list_to_set task_ids ∪ qd_cancelled db) db)
  end.

Definition queue_commit (_ _ : Z) (_ : QueueEvent) (_ : ()) (db : QueueDb) : QueueDb := db.

Definition empty_queue : QueueDb := mkQueue 0 ∅ ∅ ∅ ∅ ∅ ∅ ∅ [] [] ∅ ∅ [].
End queue.
