(* ===== verification/OperationQueueProofs.v ===== *)
(** * OperationQueueProofs: no operation is lost between the server and the workers

    However publishers, workers and reapers interleave between their commands, break off
    and publish twice, an operation that was queued is in some queue with its message, or
    a worker has acknowledged it; and a reaper alone puts the operations of a dead worker
    back. *)

From stdpp Require Import gmap relations.
From S2P Require Import Prelude Text Float Json Sdk Checkers Statements OperationBatch OperationQueue.

Section queue.
Context {Payload : Type} (task_of : Payload → option Task) (payload_of : Task → Payload).
Context (payload_roundtrip : ∀ t, task_of (payload_of t) = Some t).
Notation QueueDb := (QueueDb (Payload := Payload)).

(** ** The invariant *)

(** A message is in a queue, waiting or taken or failed. *)
Definition anchored (id : nat) (db : QueueDb) : Prop :=
  (∃ q s, (s, id) ∈ zset q db) ∨ ∃ q, id ∈ rlist q db.

Definition holds_task (id : nat) (t : Task) (db : QueueDb) : Prop :=
  ∃ m, qd_hashes db !! id = Some m ∧ task_of (mg_payload m) = Some t.

Definition acked (t : Task) (db : QueueDb) : Prop := ∃ reason, (t, reason) ∈ qd_acked db.

Definition wrote (id : nat) (t : Task) (db : QueueDb) : Prop :=
  ∃ p, qd_written db !! id = Some p ∧ task_of p = Some t.

(** The operation was acknowledged, or a later message of it was queued. *)
Definition above (id : nat) (t : Task) (db : QueueDb) : Prop :=
  acked t db ∨ ∃ id', id < id' ∧ id' ∈ qd_queued db ∧ wrote id' t db.

(** The message may go. *)
Definition spare (id : nat) (db : QueueDb) : Prop := ∀ t, wrote id t db → above id t db.

Definition gone (id : nat) (db : QueueDb) : Prop := id < qd_next db ∧ qd_hashes db !! id = None.

Record queue_ok (db : QueueDb) : Prop := {
  q_next id p : qd_written db !! id = Some p → id < qd_next db;
  q_hash id m : qd_hashes db !! id = Some m → qd_written db !! id = Some (mg_payload m);
  q_anchored id : anchored id db → id ∈ qd_queued db;
  q_queued id : id ∈ qd_queued db → is_Some (qd_written db !! id);
  q_fresh id p : qd_written db !! id = Some p → id ∉ qd_queued db → is_Some (qd_hashes db !! id);
  q_kept id t : id ∈ qd_queued db → wrote id t db →
    acked t db ∨ ∃ id', id ≤ id' ∧ anchored id' db ∧ holds_task id' t db;
  q_done t : (t, AckDone) ∈ qd_acked db → ∃ r, (reply_queue_name t, r) ∈ qd_results db;
}.

Record grows (db db' : QueueDb) : Prop := {
  g_next : qd_next db ≤ qd_next db';
  g_written : qd_written db ⊆ qd_written db';
  g_queued : qd_queued db ⊆ qd_queued db';
  g_acked : ∀ x, x ∈ qd_acked db → x ∈ qd_acked db';
  g_gone : ∀ id, gone id db → gone id db';
  g_results : ∀ x, x ∈ qd_results db → x ∈ qd_results db';
}.

#[local] Instance grows_preorder : PreOrder grows.
Proof.
  split; [by intros db|]. intros d1 d2 d3 [] []. constructor; [lia|by etrans|by etrans|auto..].
Qed.

Lemma wrote_grows id t db db' : grows db db' → wrote id t db → wrote id t db'.
Proof. intros Hg (p & Hp & Ht). exists p. split; [|done]. by eapply lookup_weaken, g_written. Qed.

Lemma acked_grows t db db' : grows db db' → acked t db → acked t db'.
Proof. intros Hg [r Hr]. exists r. by eapply g_acked. Qed.

Lemma above_grows id t db db' : grows db db' → above id t db → above id t db'.
Proof.
  intros Hg [Ha|(id' & Hlt & Hq & Hw)]; [left; by eapply acked_grows|right]. exists id'.
  split_and!; [done|by eapply g_queued|by eapply wrote_grows].
Qed.

(** What a message held does not change. *)
Lemma wrote_back id t db db' : grows db db' → is_Some (qd_written db !! id) → wrote id t db' → wrote id t db.
Proof.
  intros Hg [p Hp] (p' & Hp' & Ht). exists p. split; [done|].
  pose proof (lookup_weaken _ _ _ _ Hp (g_written _ _ Hg)). congruence.
Qed.

Lemma spare_grows id db db' : grows db db' → is_Some (qd_written db !! id) → spare id db → spare id db'.
Proof. intros Hg Hw Hs t Ht. eapply above_grows, Hs, wrote_back; eauto. Qed.

Lemma held_above db id t : queue_ok db → id ∈ qd_queued db → wrote id t db → spare id db →
  acked t db ∨ ∃ id', id < id' ∧ anchored id' db ∧ holds_task id' t db.
Proof.
  intros Hok Hq Hw Hs. destruct (Hs t Hw) as [Ha|(id' & Hlt & Hq' & Hw')]; [by left|].
  destruct (q_kept _ Hok id' t Hq' Hw') as [Ha|(id2 & Hle & H1 & H2)]; [by left|right]. exists id2. split; [lia|done].
Qed.

Lemma holds_wrote db id t : queue_ok db → holds_task id t db → wrote id t db.
Proof. intros Hok (m & Hm & Ht). exists (mg_payload m). split; [by apply (q_hash _ Hok)|done]. Qed.

(** ** Commands *)

(** Nothing of this is touched. *)
Definition same_queues (db db' : QueueDb) : Prop :=
  qd_next db' = qd_next db ∧ qd_hashes db' = qd_hashes db ∧ qd_zsets db' = qd_zsets db ∧ qd_lists db' = qd_lists db
  ∧ qd_written db' = qd_written db ∧ qd_queued db' = qd_queued db ∧ qd_acked db' = qd_acked db
  ∧ ∀ x, x ∈ qd_results db → x ∈ qd_results db'.

Lemma same_queues_ok db db' : same_queues db db' → queue_ok db → queue_ok db' ∧ grows db db'.
Proof.
  destruct db, db'. unfold same_queues. cbn. intros (-> & -> & -> & -> & -> & -> & -> & Hr) Hok. split.
  - destruct Hok; constructor; try done. intros t Ht. destruct (q_done0 t Ht) as [r Hin]. exists r. by apply Hr.
  - by constructor.
Qed.

(** Pointers move: no message is anchored that was not queued, and one that is no longer
    anchored is spare, or gone. *)
Lemma pointers_ok db db' :
  queue_ok db → qd_next db' = qd_next db → qd_hashes db' = qd_hashes db → qd_written db' = qd_written db →
  qd_queued db' = qd_queued db → qd_acked db' = qd_acked db → qd_results db' = qd_results db →
  (∀ id, anchored id db' → id ∈ qd_queued db) →
  (∀ id, anchored id db → anchored id db' ∨ gone id db ∨ spare id db) → queue_ok db' ∧ grows db db'.
Proof.
  intros Hok En Eh Ew Eq Ea Er Hnew Hold.
  assert (grows db db') as Hg.
  { constructor; rewrite ?En, ?Ew, ?Eq, ?Ea, ?Er; try done. unfold gone. by rewrite En, Eh. }
  split; [|done]. constructor; rewrite ?En, ?Eh, ?Ew, ?Eq, ?Ea, ?Er; try apply Hok; [done|].
  intros id t Hq Hw. assert (wrote id t db) as Hw0 by (unfold wrote in *; by rewrite Ew in Hw).
  unfold acked, holds_task. rewrite Ea, Eh.
  (* the newest message that holds the operation *)
  assert (∀ n id, qd_next db - id ≤ n → id ∈ qd_queued db → wrote id t db →
            acked t db ∨ ∃ id', id ≤ id' ∧ anchored id' db' ∧ holds_task id' t db) as Hall; [|by eapply Hall].
  clear id Hq Hw Hw0. induction n as [|n IH]; intros id Hn Hq Hw.
  { destruct (q_queued _ Hok id Hq) as [p Hp]. pose proof (q_next _ Hok id p Hp). lia. }
  destruct (q_kept _ Hok id t Hq Hw) as [Ha|(id1 & Hle & H1 & H2)]; [by left|].
  destruct (Hold id1 H1) as [H1'|[[_ Hgone]|Hspare]].
  - right. by exists id1.
  - destruct H2 as (m & Hm & _). congruence.
  - pose proof (q_anchored _ Hok id1 H1) as Hq1. pose proof (holds_wrote _ _ _ Hok H2) as Hw1.
    destruct (Hspare t Hw1) as [Ha|(id2 & Hlt & Hq2 & Hw2)]; [by left|].
    destruct (IH id2) as [Ha|(id3 & Hle3 & H3)]; [lia|done|done|by left|right]. exists id3. split; [lia|done].
Qed.

(** An acknowledged operation needs no message. *)
Lemma note_acked_ok x db : (x.2 = AckDone → ∃ r, (reply_queue_name x.1, r) ∈ qd_results db) → queue_ok db → queue_ok (note_acked x db) ∧ grows db (note_acked x db).
Proof.
  intros Hx Hok. assert (grows db (note_acked x db)) as Hg by (constructor; try done; cbn; by right).
  split; [|done]. destruct Hok. constructor; cbn; try done.
  - intros id t Hq Hw. destruct (q_kept0 id t Hq Hw) as [Ha|?]; [left; by eapply acked_grows|by right].
  - intros t [<-|Ht]%elem_of_cons; [by apply Hx|eauto].
Qed.

(** The hash of a spare message goes. *)
Lemma del_hash_ok id db : queue_ok db → id ∈ qd_queued db → spare id db →
  queue_ok (del_hash id db) ∧ grows db (del_hash id db) ∧ gone id (del_hash id db).
Proof.
  intros Hok Hq Hs. destruct (q_queued _ Hok id Hq) as [p Hp].
  assert (gone id (del_hash id db)) as Hgone.
  { split; cbn; [by apply (q_next _ Hok id p)|apply lookup_delete_eq]. }
  split_and!; [|constructor; try done|done].
  - constructor; cbn; try apply Hok.
    + intros j m [Hne Hm]%lookup_delete_Some. by apply (q_hash _ Hok).
    + intros j p' Hj Hnq. assert (id ≠ j) by congruence. rewrite lookup_delete_ne by done. by apply (q_fresh _ Hok j p').
    + intros j t Hqj Hwj. destruct (q_kept _ Hok j t Hqj Hwj) as [Ha|(i & Hle & Hi & m & Hm & Ht)]; [by left|].
      destruct (decide (id = i)) as [<-|Hne].
      * destruct (held_above db id t Hok Hq) as [Ha|(i & Hlt & Hi' & m' & Hm' & Ht')]; [|done|by left|right].
        { apply (holds_wrote db id t Hok). by exists m. }
        exists i. split_and!; [lia|done|]. exists m'. cbn. rewrite lookup_delete_ne by lia. done.
      * right. exists i. split_and!; [done|done|]. exists m. cbn. by rewrite lookup_delete_ne.
  - intros j [H1 H2]. split; [done|]. cbn. rewrite lookup_delete_None. by right.
Qed.

(** A new message is not in a queue yet. *)
Lemma hset_new_ok p prio now db : queue_ok db →
  let '((id, _), db') := hset_new p prio now db in
  queue_ok db' ∧ grows db db' ∧ qd_written db' !! id = Some p ∧ ∀ j, is_Some (qd_written db !! j) → j < id.
Proof.
  intros Hok. cbn. set (id := qd_next db).
  assert (qd_written db !! id = None) as Hnone.
  { destruct (qd_written db !! id) as [p'|] eqn:E; [|done]. pose proof (q_next _ Hok id p' E). lia. }
  assert (id ∉ qd_queued db) as Hnq.
  { intros H. destruct (q_queued _ Hok id H). congruence. }
  split_and!; [constructor|constructor|by rewrite lookup_insert_eq|]; cbn.
  - intros j p' [[<- <-]|[_ H]]%lookup_insert_Some; [subst id; lia|]. pose proof (q_next _ Hok j p' H). lia.
  - intros j m [[<- <-]|[Hne H]]%lookup_insert_Some; cbn; [by rewrite lookup_insert_eq|].
    rewrite lookup_insert_ne by done. by apply (q_hash _ Hok).
  - apply (q_anchored _ Hok).
  - intros j Hj. apply (q_queued _ Hok) in Hj. destruct (decide (id = j)) as [<-|Hne]; [by rewrite lookup_insert_eq|].
    by rewrite lookup_insert_ne.
  - intros j p' [[<- <-]|[Hne H]]%lookup_insert_Some Hq; [by rewrite lookup_insert_eq|].
    rewrite lookup_insert_ne by done. by apply (q_fresh _ Hok j p').
  - intros j t Hq (p' & Hp' & Ht). assert (wrote j t db) as Hw.
    { cbn in Hp'. apply lookup_insert_Some in Hp' as [[<- _]|[_ Hp']]; [done|by exists p']. }
    destruct (q_kept _ Hok j t Hq Hw) as [Ha|(i & Hle & Hi & m & Hm & Ht')]; [by left|right].
    exists i. split_and!; [done|done|]. exists m. cbn. rewrite lookup_insert_ne; [done|].
    pose proof (q_anchored _ Hok i Hi). congruence.
  - apply (q_done _ Hok).
  - lia.
  - by apply insert_subseteq.
  - done.
  - done.
  - intros j [H1 H2]. split; cbn; [lia|]. rewrite lookup_insert_ne; [done|]. subst id. lia.
  - done.
  - intros j [p' Hj]. by apply (q_next _ Hok j p').
Qed.

(** ** Queues *)

Lemma elem_of_zinsert x y l : x ∈ zinsert y l ↔ x = y ∨ x ∈ l.
Proof.
  induction l as [|z l IH]; cbn; [set_solver|]. case_match; [set_solver|]. rewrite !elem_of_cons, IH. naive_solver.
Qed.

Lemma elem_of_zwithout x id l : x ∈ zwithout id l ↔ x ∈ l ∧ x.2 ≠ id.
Proof. unfold zwithout. rewrite list_elem_of_filter. naive_solver. Qed.

Lemma elem_of_remove_first j id l : j ∈ l → j = id ∨ j ∈ remove_first id l.
Proof.
  induction l as [|x l IH]; cbn; [by intros ?%not_elem_of_nil|]. intros [->|Hj]%elem_of_cons; case_decide as E.
  - by left.
  - right. by left.
  - by right.
  - destruct (IH Hj); [by left|right; by right].
Qed.

Lemma remove_first_subset id l j : j ∈ remove_first id l → j ∈ l.
Proof. induction l as [|x l IH]; cbn; [done|]. case_decide; set_solver. Qed.

Lemma zset_set q x (db : QueueDb) q' : zset q' (set_zsets (<[q := x]> (qd_zsets db)) db) = if decide (q' = q) then x else zset q' db.
Proof.
  unfold zset. cbn. case_decide as E; [subst; by rewrite lookup_insert_eq|by rewrite lookup_insert_ne].
Qed.

Lemma rlist_set q x (db : QueueDb) q' : rlist q' (set_lists (<[q := x]> (qd_lists db)) db) = if decide (q' = q) then x else rlist q' db.
Proof.
  unfold rlist. cbn. case_decide as E; [subst; by rewrite lookup_insert_eq|by rewrite lookup_insert_ne].
Qed.

Lemma anchored_zset q x (db : QueueDb) id :
  anchored id (set_zsets (<[q := x]> (qd_zsets db)) db) ↔
  (∃ s, (s, id) ∈ x) ∨ (∃ q' s, q' ≠ q ∧ (s, id) ∈ zset q' db) ∨ ∃ q', id ∈ rlist q' db.
Proof.
  unfold anchored. split.
  - intros [(q' & s & H)|H]; [|by right; right]. rewrite zset_set in H. case_decide; naive_solver.
  - intros [(s & H)|[(q' & s & Hne & H)|H]].
    + left. exists q, s. by rewrite zset_set, decide_True.
    + left. exists q', s. by rewrite zset_set, decide_False.
    + by right.
Qed.

Lemma anchored_list q x (db : QueueDb) id :
  anchored id (set_lists (<[q := x]> (qd_lists db)) db) ↔
  id ∈ x ∨ (∃ q' s, (s, id) ∈ zset q' db) ∨ ∃ q', q' ≠ q ∧ id ∈ rlist q' db.
Proof.
  unfold anchored. split.
  - intros [H|(q' & H)]; [by right; left|]. rewrite rlist_set in H. case_decide; naive_solver.
  - intros [H|[H|(q' & Hne & H)]].
    + right. exists q. by rewrite rlist_set, decide_True.
    + by left.
    + right. exists q'. by rewrite rlist_set, decide_False.
Qed.

Lemma lrem_ok q id db : queue_ok db → gone id db ∨ spare id db → queue_ok (lrem q id db) ∧ grows db (lrem q id db).
Proof.
  intros Hok Hid. apply pointers_ok; try done; unfold lrem.
  - intros j Hj. apply (q_anchored _ Hok). apply anchored_list in Hj as [Hj|[Hj|(q' & _ & Hj)]].
    + right. exists q. by eapply remove_first_subset.
    + by left.
    + right. by exists q'.
  - intros j Hj. rewrite anchored_list. destruct Hj as [Hj|(q' & Hj)]; [left; by right; left|].
    destruct (decide (q' = q)) as [->|Hne]; [|left; right; right; eauto].
    apply (elem_of_remove_first _ id) in Hj as [->|Hj]; [by right|left; by left].
Qed.

Lemma zrem_ok q id db : queue_ok db → gone id db ∨ spare id db → queue_ok (zrem q id db) ∧ grows db (zrem q id db).
Proof.
  intros Hok Hid. apply pointers_ok; try done; unfold zrem.
  - intros j Hj. apply (q_anchored _ Hok). apply anchored_zset in Hj as [(s & [Hj _]%elem_of_zwithout)|[(q' & s & _ & Hj)|Hj]].
    + left. eauto.
    + left. eauto.
    + by right.
  - intros j Hj. rewrite anchored_zset. destruct Hj as [(q' & s & Hj)|Hj]; [|left; by right; right].
    destruct (decide (q' = q)) as [->|Hne]; [|left; right; left; eauto].
    destruct (decide (j = id)) as [->|Hne]; [by right|]. left. left. exists s. by apply elem_of_zwithout.
Qed.

Lemma lpush_ok q id db : queue_ok db → id ∈ qd_queued db → queue_ok (lpush q id db) ∧ grows db (lpush q id db).
Proof.
  intros Hok Hq. apply pointers_ok; try done; unfold lpush.
  - intros j [Hj|[Hj|(q' & _ & Hj)]]%anchored_list.
    + apply elem_of_cons in Hj as [->|Hj]; [done|]. apply (q_anchored _ Hok). right. eauto.
    + apply (q_anchored _ Hok). by left.
    + apply (q_anchored _ Hok). right. eauto.
  - intros j Hj. left. rewrite anchored_list. destruct Hj as [Hj|(q' & Hj)]; [by right; left|].
    destruct (decide (q' = q)) as [->|Hne]; [left; by right|right; right; eauto].
Qed.

(** The script of the broker moves a message. *)
Lemma pop_ok q now db : queue_ok db →
  queue_ok (pop q now db).2 ∧ grows db (pop q now db).2 ∧ ∀ id, (pop q now db).1 = Some id → id ∈ qd_queued (pop q now db).2.
Proof.
  intros Hok. unfold pop. destruct (zset q db) as [|[s id] rest] eqn:Hz; [done|]. case_match; [done|]. cbn.
  assert (id ∈ qd_queued db) as Hid.
  { apply (q_anchored _ Hok). left. exists q, s. rewrite Hz. by left. }
  assert (∀ j, anchored j (lpush (processing q) id (set_zsets (<[q := rest]> (qd_zsets db)) db))
     ↔ j = id ∨ (∃ s, (s, j) ∈ rest) ∨ (∃ q' s, q' ≠ q ∧ (s, j) ∈ zset q' db) ∨ ∃ q', j ∈ rlist q' db) as Han.
  { intros j. unfold lpush. rewrite anchored_list. cbn. split.
    - intros [[->|Hj]%elem_of_cons|[(q' & s' & Hj)|(q' & _ & Hj)]]; [by left|right..].
      + right. right. eauto.
      + rewrite zset_set in Hj. case_decide; [left; eauto|right; left; eauto].
      + right. right. eauto.
    - intros [->|[(s' & Hj)|[(q' & s' & Hne & Hj)|(q' & Hj)]]].
      + left. by left.
      + right. left. exists q, s'. by rewrite zset_set, decide_True.
      + right. left. exists q', s'. by rewrite zset_set, decide_False.
      + destruct (decide (q' = processing q)) as [->|Hne]; [left; by right|]. right. right. by exists q'. }
  assert (∀ j, anchored j db ↔ anchored j (lpush (processing q) id (set_zsets (<[q := rest]> (qd_zsets db)) db))) as Hsame.
  { intros j. rewrite Han. split.
    - intros [(q' & s' & Hj)|Hj]; [|by right; right; right]. destruct (decide (q' = q)) as [->|Hne].
      + rewrite Hz in Hj. apply elem_of_cons in Hj as [[= -> ->]|Hj]; [by left|right; left; eauto].
      + right. right. left. eauto.
    - intros [->|[(s' & Hj)|[(q' & s' & _ & Hj)|Hj]]]; [left|left|left|by right].
      + exists q, s. rewrite Hz. by left.
      + exists q, s'. rewrite Hz. by right.
      + eauto. }
  assert (queue_ok (lpush (processing q) id (set_zsets (<[q := rest]> (qd_zsets db)) db))
    ∧ grows db (lpush (processing q) id (set_zsets (<[q := rest]> (qd_zsets db)) db))) as [H1 H2].
  { apply pointers_ok; try done; intros j Hj; [by apply (q_anchored _ Hok), Hsame|left; by apply Hsame]. }
  split_and!; [done|done|]. by intros j [= <-].
Qed.

(** A message enters a queue. *)
Lemma queue_message_ok q score id p db : queue_ok db → qd_written db !! id = Some p →
  queue_ok (note_queued id (zadd q score id db)) ∧ grows db (note_queued id (zadd q score id db)).
Proof.
  intros Hok Hp. set (db' := note_queued id (zadd q score id db)).
  assert (∀ j, anchored j db' ↔ j = id ∨ anchored j db) as Han.
  { intros j. change (anchored j db') with (anchored j (zadd q score id db)). unfold zadd. rewrite anchored_zset. unfold anchored. split.
    - intros [(s & [[= -> ->]|[Hj _]%elem_of_zwithout]%elem_of_zinsert)|[(q' & s & _ & Hj)|Hj]]; [by left|right; left; eauto|right; left; eauto|].
      right. by right.
    - intros [->|[(q' & s & Hj)|Hj]]; [left; exists score; apply elem_of_zinsert; by left| |by right; right].
      destruct (decide (q' = q)) as [->|Hne]; [|right; left; eauto]. left. destruct (decide (j = id)) as [->|Hne].
      + exists score. apply elem_of_zinsert. by left.
      + exists s. apply elem_of_zinsert. right. by apply elem_of_zwithout. }
  assert (grows db db') as Hg by (constructor; try done; cbn; set_solver).
  split; [|done]. constructor; try apply Hok.
  - intros j [->|Hj]%Han; cbn; [set_solver|]. apply (q_anchored _ Hok) in Hj. set_solver.
  - cbn. intros j. rewrite elem_of_union, elem_of_singleton. intros [->|Hj]; [by eexists|by apply (q_queued _ Hok)].
  - cbn. intros j p' Hj Hnq. apply (q_fresh _ Hok j p' Hj). set_solver.
  - intros j t Hqj Hwj. change (wrote j t db) in Hwj.
    assert (j ∈ qd_queued db → acked t db' ∨ ∃ i, j ≤ i ∧ anchored i db' ∧ holds_task i t db') as Hold.
    { intros Hq. destruct (q_kept _ Hok j t Hq Hwj) as [Ha|(i & Hle & Hi & Ht)]; [by left|right].
      exists i. split_and!; [done|apply Han; by right|done]. }
    destruct (decide (j ∈ qd_queued db)) as [Hq|Hq]; [by apply Hold|].
    assert (j = id) as -> by (cbn in Hqj; set_solver). right. exists id. split_and!; [done|apply Han; by left|].
    destruct (q_fresh _ Hok id p Hp Hq) as [m Hm]. exists m. split; [done|]. destruct Hwj as (p' & Hp' & Ht).
    pose proof (q_hash _ Hok id m Hm). congruence.
Qed.

(** ** Programs *)

Notation safe := (safe queue_ok grows).

Lemma safe_command {R} (Q : R → QueueDb → Prop) d c db :
  (∀ now db', grows db db' → queue_ok db' →
     queue_ok (c now db').2 ∧ grows db' (c now db').2 ∧ Q (c now db').1 (c now db').2) → safe Q (command d c) db.
Proof.
  intros H now db' Hg Hok. destruct (H now db' Hg Hok) as (H1 & H2 & H3). cbn. by destruct (c now db').
Qed.

Lemma safe_read {R} (Q : R → QueueDb → Prop) d (f : Z → QueueDb → R) db :
  (∀ now db', grows db db' → queue_ok db' → Q (f now db') db') → safe Q (command d (λ now db, (f now db, db))) db.
Proof. intros H. apply safe_command. intros now db' Hg Hok. split_and!; [done|done|]. by apply H. Qed.

Lemma safe_update (Q : () → QueueDb → Prop) f db :
  (∀ now db', grows db db' → queue_ok db' → queue_ok (f now db') ∧ grows db' (f now db') ∧ Q () (f now db')) →
  safe Q (update f) db.
Proof. intros H. by apply safe_command. Qed.

Lemma safe_then {A B} (Q : A → QueueDb → Prop) (Q' : B → QueueDb → Prop) (p : Program QueueDb A) f db :
  safe Q p db → (∀ a db', grows db db' → Q a db' → safe Q' (f a) db') → safe Q' (p ≫= f) db.
Proof. apply safe_bind, _. Qed.

(** A command that leaves the queues alone. *)
Lemma safe_aside (f : Z → QueueDb → QueueDb) db : (∀ now db', same_queues db' (f now db')) → safe (λ _ _, True) (update f) db.
Proof.
  intros Hf. apply safe_update. intros now db' _ Hok. destruct (same_queues_ok db' (f now db') (Hf now db') Hok). done.
Qed.

Lemma safe_hgetall id db :
  safe (λ m db', id ∈ qd_queued db →
          match m with
          | None => gone id db'
          | Some m => qd_written db' !! id = Some (mg_payload m)
          end) (hgetall id) db.
Proof.
  apply safe_read. intros now db' Hg Hok Hq. destruct (qd_hashes db' !! id) as [m|] eqn:E; [by apply (q_hash _ Hok)|].
  split; [|done]. apply (g_queued _ _ Hg) in Hq. destruct (q_queued _ Hok id Hq) as [p Hp]. by apply (q_next _ Hok id p).
Qed.

(** A message is published: a later one than those there are. *)
Lemma safe_publish queue prio payload fault db :
  safe (λ published db', published = true →
          ∃ id', id' ∈ qd_queued db' ∧ qd_written db' !! id' = Some payload ∧ ∀ id, is_Some (qd_written db !! id) → id < id')
    (publish_message queue prio payload fault) db.
Proof.
  unfold publish_message. case_match; [done|].
  assert (safe (λ x db', qd_written db' !! x.1 = Some payload ∧ ∀ id, is_Some (qd_written db !! id) → id < x.1)
            (command (0, 0%Z) (hset_new payload (default 5%Z prio))) db) as Hset.
  { apply safe_command. intros now db' Hg Hok. pose proof (hset_new_ok payload (default 5%Z prio) now db' Hok) as Hnew.
    destruct (hset_new _ _ _ _) as [[id' sc] db2]. destruct Hnew as (H1 & H2 & H3 & H4). split_and!; [done|done|done|].
    intros id [p Hp]. apply H4. exists p. by eapply lookup_weaken, g_written. }
  assert (∀ published : bool, safe (λ (_ : bool) db', published = true →
            ∃ id', id' ∈ qd_queued db' ∧ qd_written db' !! id' = Some payload ∧ ∀ id, is_Some (qd_written db !! id) → id < id')
     (command (0, 0%Z) (hset_new payload (default 5%Z prio)) ≫= λ '(id', score),
        update (λ _ db, note_queued id' (zadd queue (default 5%Z prio * score)%Z id' db)) ≫= λ _, mret published) db) as Hadd.
  { intros published. eapply safe_then; [exact Hset|]. intros [id' sc] db1 Hg1 [Hw Hlt]. cbn in Hw, Hlt.
    eapply safe_then.
    - apply (safe_update (λ _ db', id' ∈ qd_queued db' ∧ qd_written db' !! id' = Some payload)). intros now db2 Hg2 Hok.
      pose proof (lookup_weaken _ _ _ _ Hw (g_written _ _ Hg2)) as Hw2.
      destruct (queue_message_ok queue (default 5%Z prio * sc)%Z id' payload db2 Hok Hw2) as [H1 H2].
      split_and!; [done|done|cbn; set_solver|done].
    - intros [] db2 Hg2 [Hq Hw2] _. by exists id'. }
  destruct fault; [exact (Hadd true)|done| |exact (Hadd false)].
  eapply safe_then; [exact Hset|]. by intros [id' sc] db1 _ _.
Qed.

(** ** The reaper is safe *)

Definition poison (id : nat) (db : QueueDb) : Prop := ∃ p, qd_written db !! id = Some p ∧ task_of p = None.

Lemma poison_grows id db db' : grows db db' → poison id db → poison id db'.
Proof. intros Hg (p & Hp & Ht). exists p. split; [|done]. by eapply lookup_weaken, g_written. Qed.

Lemma poison_spare id db : poison id db → spare id db.
Proof. intros (p & Hp & Ht) t (p' & Hp' & Ht'). congruence. Qed.

Lemma gone_grows id db db' : grows db db' → gone id db → gone id db'.
Proof. intros Hg. by apply g_gone. Qed.

Section tick.
Context (order : gset ustring → list ustring) (faults : nat → PublishFault) (config : ReaperConfig).

Lemma safe_unless_dry f db :
  (∀ now db', grows db db' → queue_ok db' → queue_ok (f now db') ∧ grows db' (f now db')) →
  safe (λ _ _, True) (unless_dry config f) db.
Proof.
  intros H. unfold unless_dry. case_match; [done|]. apply safe_update. intros now db' Hg Hok.
  by destruct (H now db' Hg Hok).
Qed.

Lemma safe_unless_dry_aside f db : (∀ now db', same_queues db' (f now db')) → safe (λ _ _, True) (unless_dry config f) db.
Proof. intros Hf. apply safe_unless_dry. intros now db' _ Hok. by apply same_queues_ok. Qed.

Lemma safe_reapable live owner t db : safe (λ _ _, True) (reapable_now config live owner t) db.
Proof.
  unfold reapable_now. case_match; [done|]. case_decide.
  - eapply safe_then; [by apply safe_unless_dry_aside|done].
  - eapply safe_then; [by apply (safe_read (λ _ _, True))|]. intros since db1 _ _.
    eapply safe_then; [by apply (safe_read (λ _ _, True))|]. intros now db2 _ _. destruct since; [done|].
    eapply safe_then; [by apply safe_unless_dry_aside|done].
Qed.

(** A source loses a message that is gone or poison. *)
Lemma safe_remove kind source id db : gone id db ∨ poison id db →
  safe (λ _ _, True) (unless_dry config (λ _ db, match kind with SourceList => lrem source id db | SourceZset => zrem source id db end)) db.
Proof.
  intros Hid. apply safe_unless_dry. intros now db' Hg Hok.
  assert (gone id db' ∨ spare id db').
  { destruct Hid as [H|H]; [left; by eapply gone_grows|right]. by eapply poison_spare, poison_grows. }
  destruct kind; [by apply lrem_ok|by apply zrem_ok].
Qed.

Lemma safe_dead_letter source kind id db : id ∈ qd_queued db → poison id db →
  safe (λ _ _, True) (dead_letter config source kind id) db.
Proof.
  intros Hq Hp. unfold dead_letter. case_match eqn:Hd; [done|]. eapply safe_then.
  - pose proof (safe_remove kind source id db (or_intror Hp)) as H1. unfold unless_dry in H1. rewrite Hd in H1. exact H1.
  - intros [] db1 Hg1 _. apply safe_update. intros now db2 Hg2 Hok.
    assert (id ∈ qd_queued db2) as Hq2 by (apply (g_queued db); [by etrans|done]).
    by destruct (lpush_ok (rc_shared_queue config ++ u "_failed") id db2 Hok Hq2).
Qed.

Lemma safe_requeue_task id p task t db :
  id ∈ qd_queued db → qd_written db !! id = Some p → task_of p = Some task →
  safe (λ x db', x.1 = true → gone id db') (requeue_task payload_of faults config id task t) db.
Proof using payload_roundtrip.
  intros Hq Hp Ht. unfold requeue_task. case_match; [done|]. eapply safe_then; [apply safe_publish|].
  intros published db1 Hg1 Hpub. destruct published; [|done]. destruct (Hpub eq_refl) as (id' & Hq' & Hw' & Hlt).
  eapply safe_then; [apply (safe_update (λ _ db', gone id db'))|by intros [] db2 _ Hgone _].
  intros now db2 Hg2 Hok. assert (grows db db2) as Hg by by etrans. apply del_hash_ok; [done|by apply (g_queued _ _ Hg)|].
  intros t' (p' & Hp2 & Ht'). pose proof (lookup_weaken _ _ _ _ Hp (g_written _ _ Hg)). right. exists id'.
  split_and!; [apply Hlt; by eexists|by apply (g_queued _ _ Hg2)|]. exists (payload_of task).
  split; [by eapply lookup_weaken, g_written|]. rewrite payload_roundtrip. congruence.
Qed.

Lemma safe_requeue_one id t db :
  id ∈ qd_queued db →
  safe (λ x db', match x.1 with Requeued | Dangling => gone id db' | Poison => poison id db' | _ => True end)
    (requeue_one task_of payload_of faults config id t) db.
Proof using payload_roundtrip.
  intros Hq. unfold requeue_one. eapply safe_then; [apply safe_hgetall|]. intros fields db1 Hg1 Hf.
  specialize (Hf Hq). pose proof (g_queued _ _ Hg1 id Hq) as Hq1. destruct fields as [m|]; [|done].
  destruct (task_of (mg_payload m)) as [task|] eqn:Ht; [|by exists (mg_payload m)].
  eapply safe_then; [by eapply safe_requeue_task|]. intros [requeued t'] db2 Hg2 Hgone. cbn in Hgone |- *.
  destruct requeued; [by apply Hgone|]. cbn. by destruct (rc_dry_run config).
Qed.

Lemma safe_requeue_from kind source ids drained t db :
  (∀ id, id ∈ ids → id ∈ qd_queued db) →
  safe (λ _ _, True) (requeue_from task_of payload_of faults config kind source ids drained t) db.
Proof using payload_roundtrip.
  revert drained t db. induction ids as [|id ids IH]; intros drained t db Hids; cbn [requeue_from]; [done|].
  assert (∀ drained t db', grows db db' → safe (λ _ _, True) (requeue_from task_of payload_of faults config kind source ids drained t) db') as Hrest.
  { intros drained' t' db' Hg. apply IH. intros j Hj. eapply g_queued; [exact Hg|]. apply Hids. by right. }
  case_decide; [by apply Hrest|]. assert (id ∈ qd_queued db) as Hq by (apply Hids; by left).
  eapply safe_then; [by apply safe_requeue_one|]. intros [outcome t'] db1 Hg1 Hout. cbn in Hout.
  destruct outcome; [| | |by apply Hrest|by apply Hrest].
  - eapply safe_then; [apply safe_remove; by left|]. intros [] db2 Hg2 _. apply Hrest. by etrans.
  - eapply safe_then; [apply safe_remove; by left|]. intros [] db2 Hg2 _. apply Hrest. by etrans.
  - eapply safe_then; [apply safe_dead_letter; [by eapply g_queued|done]|]. intros [] db2 Hg2 _. apply Hrest. by etrans.
Qed.

Lemma safe_lrange q db : safe (λ ids db', ∀ id, id ∈ ids → id ∈ qd_queued db') (lrange q) db.
Proof. apply safe_read. intros now db' Hg Hok id Hid. apply (q_anchored _ Hok). right. by exists q. Qed.

Lemma safe_zrange q db : safe (λ ids db', ∀ id, id ∈ ids → id ∈ qd_queued db') (zrange q) db.
Proof.
  apply safe_read. intros now db' Hg Hok id Hid. apply (q_anchored _ Hok). left.
  apply list_elem_of_fmap in Hid as ([s id'] & -> & Hid). by exists q, s.
Qed.

Lemma safe_reap_owner live owner t db : safe (λ _ _, True) (reap_owner task_of payload_of faults config live owner t) db.
Proof using payload_roundtrip.
  unfold reap_owner. eapply safe_then; [apply safe_reapable|]. intros [ready t1] db1 _ _. case_match; [done|].
  eapply safe_then; [apply safe_lrange|]. intros in_flight db2 _ H2.
  eapply safe_then; [by apply safe_requeue_from|]. intros [drained1 t2] db3 _ _.
  eapply safe_then; [apply safe_zrange|]. intros queued db4 _ H4.
  eapply safe_then; [by apply safe_requeue_from|]. intros [drained2 t3] db5 _ _. case_match; [|done].
  eapply safe_then; [by apply safe_unless_dry_aside|done].
Qed.

Lemma safe_reap_owners live owners t db : safe (λ _ _, True) (reap_owners task_of payload_of faults config live owners t) db.
Proof using payload_roundtrip.
  revert t db. induction owners as [|owner owners IH]; intros t db; cbn [reap_owners]; [done|]. case_decide; [done|].
  eapply safe_then; [apply safe_reap_owner|]. intros t1 db1 _ _. apply IH.
Qed.

Lemma safe_reap_shared_one live id t db : id ∈ qd_queued db →
  safe (λ _ _, True) (reap_shared_one task_of payload_of faults config live id t) db.
Proof using payload_roundtrip.
  intros Hq. unfold reap_shared_one. case_decide; [done|]. eapply safe_then; [apply safe_hgetall|].
  intros fields db1 Hg1 Hf. specialize (Hf Hq). pose proof (g_queued _ _ Hg1 id Hq) as Hq1. destruct fields as [m|].
  - destruct (task_of (mg_payload m)) as [task|] eqn:Ht.
    + eapply safe_then; [by apply (safe_read (λ _ _, True))|]. intros [owner|] db2 Hg2 _; [|done]. case_decide; [done|].
      eapply safe_then; [apply safe_reapable|]. intros [ready t1] db3 Hg3 _. case_match; [done|].
      assert (grows db1 db3) as Hg by by etrans.
      eapply safe_then.
      { eapply safe_requeue_task; [by apply (g_queued _ _ Hg)|by eapply lookup_weaken, g_written|exact Ht]. }
      intros [requeued t2] db4 _ Hgone. cbn in Hgone. destruct requeued; [|done].
      eapply safe_then; [apply (safe_remove SourceList); left; by apply Hgone|done].
    + eapply safe_then; [apply safe_dead_letter; [done|by exists (mg_payload m)]|done].
  - eapply safe_then; [apply (safe_remove SourceList); by left|done].
Qed.

Lemma safe_reap_shared live ids t db : (∀ id, id ∈ ids → id ∈ qd_queued db) →
  safe (λ _ _, True) (reap_shared task_of payload_of faults config live ids t) db.
Proof using payload_roundtrip.
  revert t db. induction ids as [|id ids IH]; intros t db Hids; cbn [reap_shared]; [done|].
  eapply safe_then; [apply safe_reap_shared_one, Hids; by left|]. intros t1 db1 Hg1 _. apply IH. intros j Hj.
  eapply g_queued; [exact Hg1|]. apply Hids. by right.
Qed.

Lemma safe_reap_once db : safe (λ _ _, True) (reap_once task_of payload_of order faults config) db.
Proof using payload_roundtrip.
  unfold reap_once. eapply safe_then; [by apply (safe_read (λ _ _, True))|]. intros [live|] db1 _ _; [|done].
  eapply safe_then.
  { unfold reap_private_queues. eapply safe_then; [by apply (safe_read (λ _ _, True))|]. intros keys db2 _ _. apply safe_reap_owners. }
  intros t db2 _ _. eapply safe_then; [|done].
  unfold reap_shared_processing. eapply safe_then; [apply safe_lrange|]. intros ids db3 _ Hids. by apply safe_reap_shared.
Qed.
End tick.

(** ** A worker is safe *)

Section worker.
Context (worker_id : ustring) (run : WorkRun).

Lemma safe_claim task_id ttl db : safe (λ _ _, True) (try_claim_with_ttl worker_id run task_id ttl) db.
Proof.
  unfold try_claim_with_ttl. destruct (wr_dedup run); [done|done|]. apply safe_command. intros now db' _ Hok.
  assert (same_queues db' (claim_script worker_id task_id ttl now db').2) as Hsame.
  { unfold claim_script. by repeat case_match. }
  destruct (same_queues_ok _ _ Hsame Hok). done.
Qed.

Lemma safe_release task_id db : safe (λ _ _, True) (release worker_id run task_id) db.
Proof.
  unfold release. destruct (wr_dedup run); [done|done|]. apply safe_aside. intros now db'. unfold release_script. by case_decide.
Qed.

(** The result is in the queue of replies. *)
Definition replied (task : Task) (db : QueueDb) : Prop := ∃ r, (reply_queue_name task, r) ∈ qd_results db.

Lemma replied_grows task db db' : grows db db' → replied task db → replied task db'.
Proof. intros Hg [r Hr]. exists r. by apply (g_results _ _ Hg). Qed.

Lemma safe_publish_reply task r fault db :
  safe (λ published db', published = true → replied task db') (publish_reply task r fault) db.
Proof.
  unfold publish_reply.
  assert (∀ b : bool, safe (λ published db', published = true → replied task db')
            (update (λ _ db, put_result (reply_queue_name task, r) db) ≫= λ _, mret b) db) as H.
  { intros b. eapply safe_then.
    - apply (safe_update (λ _ db', replied task db')). intros now db' _ Hok.
      destruct (same_queues_ok db' (put_result (reply_queue_name task, r) db')) as [H1 H2]; [|done|].
      { split_and!; try done. intros x Hx. cbn. apply elem_of_app. by left. }
      split_and!; [done|done|]. exists r. cbn. apply elem_of_app. right. by left.
    - intros [] db' _ Hr _. done. }
  destruct fault; [exact (H true)|done|done|exact (H false)].
Qed.

Lemma safe_finish_exhausted task retries error db : safe (λ _ _, True) (finish_exhausted worker_id run task retries error) db.
Proof.
  unfold finish_exhausted. eapply safe_then; [apply safe_publish_reply|]. intros _ db1 _ _.
  eapply (safe_then (λ _ _, True)); [|intros _ db2 _ _; apply safe_release].
  unfold publish_dead_letter. destruct (wr_dlq_fault run); try done; by apply safe_aside.
Qed.

Lemma safe_retry_loop task attempts attempt db :
  safe (λ outcome db', outcome = Some AckDone → replied task db') (retry_loop worker_id run task attempt attempts) db.
Proof.
  revert attempt db. induction attempts as [|[error|r fault error] attempts IH]; intros attempt db; cbn [retry_loop]; [done| |].
  - case_match; [apply IH|]. eapply safe_then; [apply safe_finish_exhausted|done].
  - eapply safe_then; [apply safe_publish_reply|]. intros published db1 _ Hp. destruct published; [by intros _; apply Hp|].
    case_match; [apply IH|]. eapply safe_then; [apply safe_finish_exhausted|done].
Qed.

Lemma safe_process_message task db :
  safe (λ outcome db', outcome = Some AckDone → replied task db') (process_message worker_id run task) db.
Proof.
  unfold process_message. eapply safe_then; [apply safe_claim|]. intros claim db1 _ _.
  assert (safe (λ outcome db', outcome = Some AckDone → replied task db')
    (is_cancelled run (tk_id task) ≫= λ cancelled : bool, if cancelled then mret (Some AckCancelled) else retry_loop worker_id run task 0 (wr_attempts run)) db1) as H.
  { eapply (safe_then (λ _ _, True)).
    - unfold is_cancelled. destruct (wr_cancel run); [done|done|by apply (safe_read (λ _ _, True))].
    - intros cancelled db2 _ _. case_match; [done|]. apply safe_retry_loop. }
  by destruct claim.
Qed.

Lemma safe_acknowledge queue id task reason db :
  id ∈ qd_queued db → wrote id task db → (reason = AckDone → replied task db) →
  safe (λ _ _, True) (acknowledge queue id task reason) db.
Proof.
  intros Hq Hw Hr. unfold acknowledge.
  assert (∀ db', grows db db' → acked task db' → spare id db') as Hspare.
  { intros db' Hg Ha t Hw'. left. assert (t = task) as ->; [|done].
    destruct (wrote_grows _ _ _ _ Hg Hw) as (p & Hp & Ht), Hw' as (p' & Hp' & Ht'). congruence. }
  eapply (safe_then (λ _ db', acked task db')).
  - apply safe_update. intros now db1 Hg1 Hok.
    destruct (note_acked_ok (task, reason) db1) as [H1 H2]; [intros E; by apply (replied_grows task db), Hr|done|].
    assert (acked task (note_acked (task, reason) db1)) as Ha by (exists reason; by left).
    destruct (lrem_ok (processing queue) id (note_acked (task, reason) db1) H1) as [H3 H4].
    { right. apply Hspare; [by etrans|done]. }
    change (note_acked (task, reason) (lrem (processing queue) id db1)) with (lrem (processing queue) id (note_acked (task, reason) db1)).
    split_and!; [done|by etrans|by eapply acked_grows].
  - intros [] db1 Hg1 Ha. apply safe_update. intros now db2 Hg2 Hok.
    destruct (del_hash_ok id db2 Hok) as (H1 & H2 & _); [|apply Hspare; [by etrans|by eapply acked_grows]|done].
    apply (g_queued db); [by etrans|done].
Qed.

Lemma safe_consume queue db : safe (λ _ _, True) (consume task_of worker_id run queue) db.
Proof.
  unfold consume. eapply safe_then.
  { apply (safe_command (λ id db', ∀ j, id = Some j → j ∈ qd_queued db')). intros now db' _ Hok.
    destruct (pop_ok queue now db' Hok) as (H1 & H2 & H3). done. }
  intros [id|] db1 _ Hid; [|done]. specialize (Hid id eq_refl). eapply safe_then; [apply safe_hgetall|].
  intros fields db2 Hg2 Hf. specialize (Hf Hid). pose proof (g_queued _ _ Hg2 id Hid) as Hid2. destruct fields as [m|]; [|done]. cbn [mbind option_bind].
  destruct (task_of (mg_payload m)) as [task|] eqn:Ht; [|done].
  eapply safe_then; [apply safe_process_message|]. intros [reason|] db3 Hg3 Hdone; [|done].
  eapply safe_then; [|done]. apply safe_acknowledge.
  - by eapply g_queued.
  - eapply wrote_grows; [done|]. by exists (mg_payload m).
  - intros ->. by apply Hdone.
Qed.
End worker.

Lemma safe_program e db : queue_ok db → safe (λ _ _, True) (queue_program task_of payload_of e) db.
Proof using payload_roundtrip.
  intros Hok. destruct e; cbn [queue_program].
  - eapply safe_then; [apply safe_publish|done].
  - eapply safe_then; [apply safe_consume|done].
  - eapply safe_then; [apply safe_reap_once|done].
  - by apply safe_aside.
  - by apply safe_aside.
  - by apply safe_aside.
Qed.

(** ** Everything at once *)

Notation QueueWorld := (World QueueDb QueueEvent ()).

Lemma empty_queue_ok : queue_ok empty_queue.
Proof.
  constructor; cbn; try done.
  - intros id [(q & s & H)|(q & H)]; unfold zset, rlist in H; cbn in H; rewrite lookup_empty in H; by apply not_elem_of_nil in H.
  - by intros t ?%not_elem_of_nil.
Qed.

Lemma queue_reachable_ok latency (w w' : QueueWorld) :
  (0 ≤ latency)%Z → w_db w = empty_queue → w_requests w = ∅ →
  rtc (step (queue_program task_of payload_of) queue_commit latency) w w' → queue_ok (w_db w').
Proof using payload_roundtrip.
  intros Hl Hdb Hr Hsteps. eapply (safe_reachable queue_ok grows); [done| | | |exact Hr|exact Hsteps].
  - intros e db. apply safe_program.
  - done.
  - rewrite Hdb. apply empty_queue_ok.
Qed.


(** ** A reaper alone *)

Lemma exec_then {A B} (f : A → Program QueueDb B) (p : Program QueueDb A) now db :
  exec (p ≫= f) now db = exec (f (exec p now db).1) now (exec p now db).2.
Proof. apply exec_bind. Qed.

Lemma exec_command {R} (d : R) c now (db : QueueDb) : exec (command d c) now db = c now db.
Proof. unfold command. cbn. by destruct (c now db). Qed.

Section recover.
Context (config : ReaperConfig) (live : gset ustring) (owner : ustring) (now : Z).
Context (wet : rc_dry_run config = false).
Notation faults := (λ _ : nat, NoFault).
Notation shared := (rc_shared_queue config).
Notation main_queue := (shared ++ u ":worker:" ++ owner).

Lemma exec_update f (db : QueueDb) : exec (update f) now db = ((), f now db).
Proof. unfold update. by rewrite exec_command. Qed.

Lemma exec_unless_dry f (db : QueueDb) : exec (unless_dry config f) now db = ((), f now db).
Proof using wet. unfold unless_dry. rewrite wet. apply exec_update. Qed.

(** The operation was put back, in a message that is new since [n]. *)
Definition put_back (n : nat) (t : Task) (db : QueueDb) : Prop :=
  ∃ s id, (s, id) ∈ zset shared db ∧ n ≤ id ∧ holds_task id t db.

(** The queue after a message was published. *)
Definition published (q : ustring) (payload : Payload) (db : QueueDb) : QueueDb :=
  note_queued (qd_next db) (zadd q (5 * now)%Z (qd_next db) (hset_new payload 5 now db).2).

Lemma exec_publish q payload (db : QueueDb) :
  exec (publish_message q None payload NoFault) now db = (true, published q payload db).
Proof. reflexivity. Qed.

Lemma published_zset q payload (db : QueueDb) q' : q' ≠ q → zset q' (published q payload db) = zset q' db.
Proof. intros Hq. unfold published, zset. cbn. by rewrite lookup_insert_ne. Qed.

Lemma published_shared q payload (db : QueueDb) s id :
  id < qd_next db → (s, id) ∈ zset q db → (s, id) ∈ zset q (published q payload db).
Proof.
  intros Hid Hin. unfold published. change (zset q (note_queued ?x ?d)) with (zset q d). unfold zadd.
  rewrite zset_set, decide_True by done. apply elem_of_zinsert. right. apply elem_of_zwithout. split; [done|]. cbn. lia.
Qed.

(** What a strand becomes: its operation is put back, and its hash gone. *)
Lemma exec_requeue_one id t (db : QueueDb) :
  let '((outcome, t'), db') := exec (requeue_one task_of payload_of faults config id t) now db in
  tl_budget t' = tl_budget t
  ∧ match outcome with
    | Requeued => ∃ task, holds_task id task db ∧ db' = del_hash id (published shared (payload_of task) db)
    | Dangling => qd_hashes db !! id = None ∧ db' = db
    | Poison => (∃ m, qd_hashes db !! id = Some m ∧ task_of (mg_payload m) = None) ∧ db' = db
    | _ => False
    end.
Proof using wet.
  unfold requeue_one. rewrite exec_then. unfold hgetall. rewrite !exec_command. cbn [fst snd].
  destruct (qd_hashes db !! id) as [m|] eqn:Hm; [|done].
  destruct (task_of (mg_payload m)) as [task|] eqn:Ht; [|cbn; split_and!; [done| |done]; by exists m].
  rewrite exec_then. unfold requeue_task. rewrite wet, !exec_then, exec_publish. cbn [fst snd]. rewrite exec_then, exec_update. cbn.
  split; [done|]. exists task. split; [by exists m|done].
Qed.

(** *** A source is drained *)

Notation failed := (shared ++ u "_failed").

Definition remove (kind : StrandSource) (source : ustring) (id : nat) (db : QueueDb) : QueueDb :=
  match kind with SourceList => lrem source id db | SourceZset => zrem source id db end.

(** The messages that wait are those that were drawn. *)
Definition bounded (db : QueueDb) : Prop := ∀ s j, (s, j) ∈ zset shared db → j < qd_next db.

Record drained (kind : StrandSource) (source : ustring) (n : nat) (ids : list nat) (db db' : QueueDb) : Prop := {
  dr_next : qd_next db ≤ qd_next db';
  dr_hash j : j ∉ ids → j < n → qd_hashes db' !! j = qd_hashes db !! j;
  dr_back task : put_back n task db → put_back n task db';
  dr_moved id task : id ∈ ids → holds_task id task db → put_back n task db';
  dr_zset q : q ≠ shared → (kind = SourceZset → q ≠ source) → zset q db' = zset q db;
  dr_list q : q ≠ failed → (kind = SourceList → q ≠ source) → rlist q db' = rlist q db;
  dr_source : match kind with
              | SourceList => ∀ rest, rlist source db = ids ++ rest → rlist source db' = rest
              | SourceZset => zset source db' = filter (λ x, x.2 ∉ ids) (zset source db)
              end;
  dr_bound : bounded db → bounded db';
}.

Lemma drained_nil kind source n db : drained kind source n [] db db.
Proof.
  constructor; try done.
  - by intros id task ?%not_elem_of_nil.
  - destruct kind; [done|]. symmetry. apply filter_all. intros x _. apply not_elem_of_nil.
Qed.

Lemma drained_cons kind source n id ids db1 db2 db3 :
  Forall (λ j, j < n) (id :: ids) → drained kind source n [id] db1 db2 → drained kind source n ids db2 db3 →
  drained kind source n (id :: ids) db1 db3.
Proof.
  intros Hn [n1 h1 b1 m1 z1 l1 s1 o1] [n2 h2 b2 m2 z2 l2 s2 o2]. apply Forall_cons in Hn as [Hid Hn]. constructor.
  - lia.
  - intros j [Hj Hj']%not_elem_of_cons Hlt. rewrite h2 by done. apply h1; [|done]. set_solver.
  - auto.
  - intros j task Hj Ht. destruct (decide (j = id)) as [->|Hne]; [apply b2, (m1 id); [by left|done]|].
    apply elem_of_cons in Hj as [?|Hj]; [done|]. apply (m2 j task Hj). destruct Ht as (m & Hm & Ht). exists m. split; [|done].
    rewrite h1; [done|set_solver|]. rewrite Forall_forall in Hn. by apply Hn.
  - intros q H1 H2. by rewrite z2, z1.
  - intros q H1 H2. by rewrite l2, l1.
  - destruct kind.
    + intros rest H. apply s2, s1. by rewrite H.
    + rewrite s2, s1, list_filter_filter. apply list_filter_iff. intros x. set_solver.
  - auto.
Qed.

Lemma zset_remove kind source id (db : QueueDb) q : (kind = SourceZset → q ≠ source) → zset q (remove kind source id db) = zset q db.
Proof. intros Hq. destruct kind; [done|]. cbn. unfold zrem. rewrite zset_set, decide_False; [done|by apply Hq]. Qed.

Lemma rlist_remove kind source id (db : QueueDb) q : (kind = SourceList → q ≠ source) → rlist q (remove kind source id db) = rlist q db.
Proof. intros Hq. destruct kind; [|done]. cbn. unfold lrem. rewrite rlist_set, decide_False; [done|by apply Hq]. Qed.

Lemma hashes_remove kind source id (db : QueueDb) : qd_hashes (remove kind source id db) = qd_hashes db.
Proof. by destruct kind. Qed.

Lemma next_remove kind source id (db : QueueDb) : qd_next (remove kind source id db) = qd_next db.
Proof. by destruct kind. Qed.

Lemma source_remove kind source id (db : QueueDb) :
  match kind with
  | SourceList => ∀ rest, rlist source db = [id] ++ rest → rlist source (remove kind source id db) = rest
  | SourceZset => zset source (remove kind source id db) = filter (λ x, x.2 ∉ [id]) (zset source db)
  end.
Proof.
  destruct kind; cbn.
  - intros rest H. unfold lrem. rewrite rlist_set, decide_True, H by done. cbn. by rewrite decide_True.
  - unfold zrem, zwithout. rewrite zset_set, decide_True by done. apply list_filter_iff. intros x. by rewrite list_elem_of_singleton.
Qed.

(** Removing what holds no operation. *)
Lemma drained_remove kind source n id db :
  (kind = SourceZset → source ≠ shared) → (∀ task, ¬ holds_task id task db) → drained kind source n [id] db (remove kind source id db).
Proof.
  intros Hsrc Hno. constructor.
  - by rewrite next_remove.
  - intros j _ _. by rewrite hashes_remove.
  - intros task (s & i & H1 & H2 & m & Hm & Ht). exists s, i. split_and!; [|done|].
    + rewrite zset_remove; [done|]. intros Hk E. by apply (Hsrc Hk).
    + exists m. by rewrite hashes_remove.
  - intros j task ->%list_elem_of_singleton Ht. by destruct (Hno task).
  - intros q _ Hq. by apply zset_remove.
  - intros q _ Hq. by apply rlist_remove.
  - apply source_remove.
  - intros Hb s j. rewrite next_remove, zset_remove; [apply Hb|]. intros Hk E. by apply (Hsrc Hk).
Qed.

Lemma drained_lpush kind source n ids id db db' :
  (kind = SourceList → source ≠ failed) → drained kind source n ids db db' → drained kind source n ids db (lpush failed id db').
Proof.
  intros Hsrc [n1 h1 b1 m1 z1 l1 s1 o1]. constructor; try done.
  - intros q Hq Hk. unfold lpush. rewrite rlist_set, decide_False by done. by apply l1.
  - destruct kind; [|done]. intros rest H. unfold lpush. rewrite rlist_set, decide_False by by apply Hsrc. by apply s1.
Qed.

(** An operation is put back. *)
Lemma drained_requeue kind source n id task db :
  (kind = SourceZset → source ≠ shared) → id < n → n ≤ qd_next db → holds_task id task db →
  bounded db →
  drained kind source n [id] db (remove kind source id (del_hash id (published shared (payload_of task) db))).
Proof using payload_roundtrip.
  intros Hsrc Hid Hn Hold Hnext. set (db1 := published shared (payload_of task) db). set (db2 := del_hash id db1).
  assert (qd_next db ≤ qd_next db2) as Hle by (subst db2 db1; cbn; lia).
  assert (∀ j, j ≠ id → j < qd_next db → qd_hashes db2 !! j = qd_hashes db !! j) as Hhash.
  { intros j H1 H2. subst db2 db1. cbn. rewrite lookup_delete_ne by done. by rewrite lookup_insert_ne by lia. }
  assert (∀ s j, (s, j) ∈ zset shared db → (s, j) ∈ zset shared (remove kind source id db2)) as Hz.
  { intros s j Hj. rewrite zset_remove; [|intros Hk E; by apply (Hsrc Hk)]. change (zset shared db2) with (zset shared db1).
    apply published_shared; [|done]. by eapply Hnext. }
  constructor.
  - by rewrite next_remove.
  - intros j Hj Hlt. rewrite hashes_remove. apply Hhash; [|lia]. by rewrite list_elem_of_singleton in Hj.
  - intros t (s & i & H1 & H2 & m & Hm & Ht). exists s, i. split_and!; [by apply Hz|done|]. exists m.
    rewrite hashes_remove, Hhash; [done|lia|by eapply Hnext].
  - intros j t ->%list_elem_of_singleton (m & Hm & Ht). destruct Hold as (m' & Hm' & Ht').
    assert (t = task) as -> by congruence. exists (5 * now)%Z, (qd_next db). split_and!; [|done|].
    + rewrite zset_remove; [|intros Hk E; by apply (Hsrc Hk)]. subst db2 db1. unfold published.
      change (zset shared (del_hash id (note_queued ?x ?d))) with (zset shared d). unfold zadd.
      rewrite zset_set, decide_True by done. apply elem_of_zinsert. by left.
    + eexists. rewrite hashes_remove. subst db2 db1. cbn. rewrite lookup_delete_ne, lookup_insert_eq by lia. split; [done|]. cbn.
      apply payload_roundtrip.
  - intros q Hq Hk. rewrite zset_remove by done. by apply published_zset.
  - intros q Hq Hk. by rewrite rlist_remove.
  - pose proof (source_remove kind source id db2) as H. destruct kind; [exact H|]. rewrite H. f_equal.
    by apply published_zset, Hsrc.
  - intros _ s j. rewrite next_remove, zset_remove; [|intros Hk E; by apply (Hsrc Hk)]. subst db2 db1. unfold published.
    change (zset shared (del_hash id (note_queued ?x ?d))) with (zset shared d). unfold zadd.
    rewrite zset_set, decide_True by done. cbn. intros [[= -> ->]|[Hj _]%elem_of_zwithout]%elem_of_zinsert; [lia|].
    specialize (Hnext s j Hj). lia.
Qed.

Lemma exec_dead_letter source kind id (db : QueueDb) :
  exec (dead_letter config source kind id) now db = ((), lpush failed id (remove kind source id db)).
Proof using wet. unfold dead_letter. rewrite wet, exec_then, exec_update. cbn [snd]. rewrite exec_update. by destruct kind. Qed.

(** Without budget nothing is touched. *)
Lemma exec_requeue_from_spent kind source ids drained_before t now' (db : QueueDb) :
  tl_budget t = 0 →
  let '((_, t'), db') := exec (requeue_from task_of payload_of faults config kind source ids drained_before t) now' db in
  db' = db ∧ tl_budget t' = 0.
Proof.
  revert drained_before t. induction ids as [|id ids IH]; intros before t Hb; [done|].
  cbn [requeue_from]. rewrite decide_True by done. by apply IH.
Qed.

(** A source is drained from the front as far as the budget goes; what is left is
    not touched. *)
Lemma exec_requeue_from kind source n ids drained_before t (db : QueueDb) :
  (kind = SourceZset → source ≠ shared) → (kind = SourceList → source ≠ failed) →
  Forall (λ j, j < n) ids → n ≤ qd_next db → bounded db →
  let '((_, t'), db') := exec (requeue_from task_of payload_of faults config kind source ids drained_before t) now db in
  ∃ pre post, ids = pre ++ post ∧ drained kind source n pre db db'
    ∧ tl_budget t ≤ tl_budget t' + length pre ∧ (post = [] ∨ tl_budget t' = 0).
Proof using wet payload_roundtrip.
  intros Hz Hf. revert drained_before t db. induction ids as [|id ids IH]; intros before t db Hids Hn Hbd.
  { cbn. exists [], []. split_and!; [done|apply drained_nil|cbn; lia|by left]. }
  pose proof Hids as [Hid Hids']%Forall_cons. cbn [requeue_from]. case_decide as Hb.
  { pose proof (exec_requeue_from_spent kind source ids false (count count_over_budget t) now db Hb) as H.
    destruct (exec _ now db) as [[all t'] db']. destruct H as [-> H]. exists [], (id :: ids).
    split_and!; [done|apply drained_nil|lia|by right]. }
  rewrite exec_then. pose proof (exec_requeue_one id t db) as Hone.
  destruct (exec (requeue_one _ _ _ _ id t) now db) as [[outcome t1] db1]. destruct Hone as [Hb1 Hout]. cbn [fst snd].
  assert (∀ t2 db2, drained kind source n [id] db db2 → tl_budget t1 ≤ tl_budget t2 + 1 → 
     let '((_, t'), db') := exec (requeue_from task_of payload_of faults config kind source ids before t2) now db2 in
     ∃ pre post, id :: ids = pre ++ post ∧ drained kind source n pre db db'
       ∧ tl_budget t ≤ tl_budget t' + length pre ∧ (post = [] ∨ tl_budget t' = 0)) as Hrest.
  { intros t2 db2 Hd Hbud. pose proof (dr_next _ _ _ _ _ _ Hd). pose proof (dr_bound _ _ _ _ _ _ Hd Hbd) as Hbd2.
    specialize (IH before t2 db2 Hids' ltac:(lia) Hbd2).
    destruct (exec (requeue_from _ _ _ _ _ _ ids before t2) now db2) as [[all t'] db'].
    destruct IH as (pre & post & -> & H1 & H2 & H3). exists (id :: pre), post.
    split_and!; [done| |cbn; lia|done]. eapply drained_cons; [|done..]. apply Forall_cons. split; [done|].
    by apply Forall_app in Hids' as [? _]. }
  destruct outcome; try done.
  - destruct Hout as (task & Hold & ->). rewrite exec_then, exec_unless_dry. cbn [snd].
    apply (Hrest (spend t1)); [by apply drained_requeue|]. cbn. lia.
  - destruct Hout as (Hnone & ->). rewrite exec_then, exec_unless_dry. cbn [snd].
    apply (Hrest t1); [|lia]. apply drained_remove; [done|]. intros task (m & Hm & _). congruence.
  - destruct Hout as ((m & Hm & Ht) & ->). rewrite exec_then, exec_dead_letter. cbn [snd].
    apply (Hrest (count count_dead_lettered t1)); [|cbn; lia]. apply drained_lpush; [done|]. apply drained_remove; [done|].
    intros task (m' & Hm' & Ht'). congruence.
Qed.

(** A worker's queues after both sources: what is left, and where the rest is. *)
Lemma drained_both n pre1 post1 pre2 post2 (db db1 db2 : QueueDb) :
  main_queue ≠ shared → processing main_queue ≠ failed →
  rlist (processing main_queue) db = pre1 ++ post1 → (zset main_queue db).*2 = pre2 ++ post2 →
  Forall (λ j, j < n) (pre1 ++ post1) → Forall (λ j, j < n) (pre2 ++ post2) →
  drained SourceList (processing main_queue) n pre1 db db1 → drained SourceZset main_queue n pre2 db1 db2 →
  rlist (processing main_queue) db2 = post1
  ∧ zset main_queue db2 = filter (λ x, x.2 ∉ pre2) (zset main_queue db)
  ∧ length (zset main_queue db2) ≤ length post2
  ∧ ∀ id task, id ∈ pre1 ++ post1 ∨ id ∈ pre2 ++ post2 → holds_task id task db →
      put_back n task db2
      ∨ holds_task id task db2
        ∧ (id ∈ rlist (processing main_queue) db2 ∨ id ∈ (zset main_queue db2).*2).
Proof.
  intros Hm Hf E1 E2 F1 F2 D1 D2.
  assert (rlist (processing main_queue) db2 = post1) as L2.
  { rewrite (dr_list _ _ _ _ _ _ D2) by done. by apply (dr_source _ _ _ _ _ _ D1). }
  assert (zset main_queue db2 = filter (λ x, x.2 ∉ pre2) (zset main_queue db)) as Z2.
  { rewrite (dr_source _ _ _ _ _ _ D2). by rewrite (dr_zset _ _ _ _ _ _ D1). }
  split_and!; [done|done| |].
  - rewrite Z2. revert E2. generalize (zset main_queue db) as z. intros z E2.
    apply fmap_app_inv in E2 as (z1 & z2 & -> & -> & ->). rewrite filter_app, length_app, length_fmap.
    rewrite filter_none; [apply length_filter|]. intros x Hx Hn. apply Hn. by apply list_elem_of_fmap_2.
  - intros id task Hid Hold.
    assert (id < n) as Hlt by (rewrite Forall_forall in F1, F2; naive_solver).
    destruct (decide (id ∈ pre1)) as [H1|H1]; [left; by apply (dr_back _ _ _ _ _ _ D2), (dr_moved _ _ _ _ _ _ D1 id task)|].
    assert (holds_task id task db1) as (m & Hh & Ht).
    { destruct Hold as (m & Hh & Ht). exists m. split; [|done]. by rewrite (dr_hash _ _ _ _ _ _ D1). }
    destruct (decide (id ∈ pre2)) as [H2|H2]; [left; apply (dr_moved _ _ _ _ _ _ D2 id task); [done|by exists m]|].
    right. split; [exists m; split; [by rewrite (dr_hash _ _ _ _ _ _ D2)|done]|].
    destruct Hid as [[?|Hid]%elem_of_app|Hid]; [done|left; by rewrite L2|right].
    rewrite <-E2 in Hid. apply list_elem_of_fmap in Hid as (x & -> & Hx). rewrite Z2.
    apply list_elem_of_fmap_2, list_elem_of_filter. done.
Qed.

Lemma main_not_shared : main_queue ≠ shared.
Proof. intros E. apply (f_equal length) in E. rewrite !length_app in E. cbn in E. lia. Qed.

Lemma processing_not_failed : processing main_queue ≠ failed.
Proof.
  unfold processing. intros E. rewrite <- app_assoc in E. apply app_inv_head in E. discriminate E.
Qed.

Lemma exec_reapable since expires t (db : QueueDb) :
  owner ∉ live → tl_decisions t !! owner = None → qd_dead_since db !! owner = Some (since, expires) → (now < expires)%Z →
  (rc_grace_secs config ≤ Z.quot (now - since) QSECOND)%Z →
  exec (reapable_now config live owner t) now db = ((true, decided owner true t), db).
Proof.
  intros Hl Hd Hs He Hg. unfold reapable_now. rewrite Hd, decide_False by done. rewrite exec_then. unfold get_dead_since.
  rewrite exec_command. cbn [fst snd]. rewrite Hs. rewrite (proj2 (Z.ltb_lt now expires)) by done.
  rewrite exec_then. unfold now_us. rewrite exec_command. cbn [fst snd]. rewrite (proj2 (Z.leb_le _ _)) by done. done.
Qed.

Lemma queued_bound (db : QueueDb) id : queue_ok db → anchored id db → id < qd_next db.
Proof. intros Hok Ha. destruct (q_queued _ Hok id) as [p Hp]; [by apply (q_anchored _ Hok)|]. by apply (q_next _ Hok id p). Qed.

Lemma queue_bounded (db : QueueDb) : queue_ok db → bounded db.
Proof. intros Hok s j Hj. apply (queued_bound db j Hok). left. eauto. Qed.

Lemma put_back_side n t (db db' : QueueDb) :
  zset shared db' = zset shared db → qd_hashes db' = qd_hashes db → put_back n t db → put_back n t db'.
Proof. intros Hz Hh (s & id & H1 & H2 & m & Hm & Ht). exists s, id. rewrite Hz. split_and!; [done|done|]. exists m. by rewrite Hh. Qed.

(** C16. A reaper that comes to a worker that has been dead for the grace takes what
    its budget for the tick allows from the worker's queues, taken or waiting: as
    many messages fewer are left as the budget still allowed requeues, none when it
    was enough for all of them.  Every operation that was there is in the shared
    queue again or still where it was, for a later tick.  The reaper is not on a dry
    run, its publishing succeeds, and nobody else touches the queues while it works
    on this worker. *)
Theorem dead_worker_recovered since expires t (db : QueueDb) :
  queue_ok db → owner ∉ live → tl_decisions t !! owner = None →
  qd_dead_since db !! owner = Some (since, expires) → (now < expires)%Z →
  (rc_grace_secs config ≤ Z.quot (now - since) QSECOND)%Z →
  let db' := (exec (reap_owner task_of payload_of faults config live owner t) now db).2 in
  length (rlist (processing main_queue) db') + length (zset main_queue db')
    ≤ length (rlist (processing main_queue) db) + length (zset main_queue db) - tl_budget t
  ∧ ∀ id task, id ∈ rlist (processing main_queue) db ∨ id ∈ (zset main_queue db).*2 → holds_task id task db →
      (∃ s id', (s, id') ∈ zset shared db' ∧ holds_task id' task db')
      ∨ holds_task id task db'
        ∧ (id ∈ rlist (processing main_queue) db' ∨ id ∈ (zset main_queue db').*2).
Proof using wet payload_roundtrip.
  intros Hok Hl Hd Hs He Hg. set (n := qd_next db).
  unfold reap_owner. rewrite exec_then, (exec_reapable since expires) by done. cbn [fst snd negb].
  rewrite exec_then. unfold lrange. rewrite exec_command. cbn [fst snd]. rewrite exec_then.
  assert (∀ id, anchored id db → id < n) as Hlt by (intros id; by apply queued_bound).
  assert (Forall (λ j, j < n) (rlist (processing main_queue) db)) as F1.
  { apply Forall_forall. intros id Hid. apply Hlt. right. eauto. }
  assert (Forall (λ j, j < n) (zset main_queue db).*2) as F2.
  { apply Forall_forall. intros id Hid. apply list_elem_of_fmap in Hid as ([s j] & -> & Hj). apply Hlt. left. eauto. }
  pose proof (exec_requeue_from SourceList (processing main_queue) n (rlist (processing main_queue) db) true
    (decided owner true t) db ltac:(done) (λ _, processing_not_failed) F1 ltac:(done) (queue_bounded _ Hok)) as H1.
  destruct (exec (requeue_from _ _ _ _ SourceList _ _ _ _) now db) as [[all1 t1] db1]. cbn [fst snd].
  destruct H1 as (pre1 & post1 & E1 & D1 & B1 & S1). change (tl_budget (decided owner true t)) with (tl_budget t) in B1.
  pose proof (dr_zset _ _ _ _ _ _ D1 main_queue main_not_shared ltac:(done)) as Hz1.
  rewrite exec_then. unfold zrange. rewrite exec_command. cbn [fst snd]. rewrite exec_then.
  pose proof (exec_requeue_from SourceZset main_queue n (zset main_queue db1).*2 true t1 db1 (λ _, main_not_shared) ltac:(done)
    ltac:(by rewrite Hz1) (dr_next _ _ _ _ _ _ D1) (dr_bound _ _ _ _ _ _ D1 (queue_bounded _ Hok))) as H2.
  destruct (exec (requeue_from _ _ _ _ SourceZset _ _ _ _) now db1) as [[all2 t2] db2]. cbn [fst snd].
  destruct H2 as (pre2 & post2 & E2 & D2 & B2 & S2). rewrite Hz1 in E2.
  destruct (drained_both n pre1 post1 pre2 post2 db db1 db2 main_not_shared processing_not_failed E1 E2)
    as (L & _ & Z & Hback); [by rewrite <-E1|by rewrite <-E2|done|done|].
  set (db' := (exec (if (all1 && all2 : bool) then _ else _) now db2).2).
  assert (db' = db2 ∨ db' = set_dead_since (delete owner (qd_dead_since db2)) db2) as Hdb'.
  { subst db'. destruct (all1 && all2); [right|by left]. by rewrite exec_then, exec_unless_dry. }
  clearbody db'. assert (length (zset main_queue db) = length pre2 + length post2) as Hlz.
  { by rewrite <-length_app, <-E2, length_fmap. }
  rewrite <-E1, <-E2 in Hback.
  split.
  - assert (length (rlist (processing main_queue) db2) + length (zset main_queue db2)
      ≤ length (rlist (processing main_queue) db) + length (zset main_queue db) - tl_budget t) as Hlen.
    { rewrite E1, L, length_app. destruct S1 as [->|S1], S2 as [->|S2]; cbn in *; lia. }
    by destruct Hdb' as [-> | ->].
  - intros id task Hid Ht. destruct (Hback id task Hid Ht) as [(s & id' & H1 & _ & H2)|H1].
    + left. exists s, id'. by destruct Hdb' as [-> | ->].
    + right. by destruct Hdb' as [-> | ->].
Qed.
End recover.
End queue.

(** ** The keys of workers *)

Lemma suffix_in_last (s l base rest : ustring) (c : Z) : c ∉ s → l ++ c :: rest = base ++ s → ∃ x, rest = x ++ s.
Proof.
  intros Hc E. apply app_eq_app in E as (k & [[-> ->]|[-> Ek]]).
  - destruct Hc. apply elem_of_app. right. by left.
  - destruct k as [|d k]; cbn in Ek; [|injection Ek as -> ->; by exists k]. subst s. destruct Hc. by left.
Qed.

Lemma ends_with_app s t : ends_with s (t ++ s) = true.
Proof. unfold ends_with. rewrite bool_decide_eq_true. exists t. by apply strip_suffix_Some. Qed.

Lemma ends_with_last s t c d : c ≠ d → ends_with (s ++ [c]) (t ++ [d]) = false.
Proof.
  intros Hne. apply not_true_iff_false. intros [base Hb]%bool_decide_eq_true. apply strip_suffix_Some in Hb.
  rewrite app_assoc in Hb. apply app_inj_tail in Hb as [_ E]. congruence.
Qed.

(** A key of a private queue ends as the id does. *)
Lemma private_key_suffix (s q id : ustring) : 58%Z ∉ s → ends_with s id = false → ends_with s (q ++ u ":worker:" ++ id) = false.
Proof.
  intros Hs Hid. apply not_true_iff_false. intros [base Hb]%bool_decide_eq_true. apply strip_suffix_Some in Hb.
  change (u ":worker:" ++ id) with (u ":worker" ++ 58%Z :: id) in Hb. rewrite app_assoc in Hb.
  apply suffix_in_last in Hb as [x ->]; [|done]. by rewrite ends_with_app in Hid.
Qed.

(** From each key of the queue of a worker, whose id is one the server sends to, the
    reaper reads that worker and no other. *)
Theorem worker_id_extracted shared id suffix :
  is_valid_server_id id = true → suffix ∈ BROKER_SUFFIXES →
  extract_worker_id (worker_private_queue_name shared id ++ suffix) shared = Some id.
Proof.
  intros Hv Hs. unfold is_valid_server_id in Hv. rewrite !andb_true_iff, !negb_true_iff, bool_decide_eq_false in Hv.
  destruct Hv as (((((Hne & _) & H1) & H2) & H3) & _).
  set (key := worker_private_queue_name shared id ++ suffix).
  assert (∀ s, s ∈ [u "_processing"; u "_failed"; u "_fairness_set"] → ends_with s (shared ++ u ":worker:" ++ id) = false) as Hid.
  { intros s Hin. apply private_key_suffix; [|]; revert s Hin; apply Forall_forall; repeat constructor; try done; by_decide. }
  assert (head (filter (λ s, ends_with s key = true) BROKER_SUFFIXES) = Some suffix) as Hhead.
  { subst key. unfold worker_private_queue_name, BROKER_SUFFIXES in *. set (main := shared ++ u ":worker:" ++ id) in *.
    assert (∀ s t c d, c ≠ d → ends_with (s ++ [c]) (main ++ t ++ [d]) = false) as Hlast.
    { intros s t c d Hcd. rewrite app_assoc. by apply ends_with_last. }
    assert (ends_with (u "_processing") (main ++ u "_failed") = false) as E1 by exact (Hlast (u "_processin") (u "_faile") 103%Z 100%Z ltac:(done)).
    assert (ends_with (u "_processing") (main ++ u "_fairness_set") = false) as E2 by exact (Hlast (u "_processin") (u "_fairness_se") 103%Z 116%Z ltac:(done)).
    assert (ends_with (u "_failed") (main ++ u "_fairness_set") = false) as E3 by exact (Hlast (u "_faile") (u "_fairness_se") 100%Z 116%Z ltac:(done)).
    rewrite !elem_of_cons in Hs. destruct Hs as [->|[->|[->|[->|Hs]]]]; [..|by apply not_elem_of_nil in Hs];
      rewrite !filter_cons; [by rewrite ends_with_app| | |].
    - by rewrite E1, ends_with_app.
    - by rewrite E2, E3, ends_with_app.
    - rewrite app_nil_r. rewrite !Hid by set_solver. unfold ends_with. rewrite (bool_decide_true (is_Some _)); [done|].
      exists main. apply strip_suffix_Some. by rewrite app_nil_r. }
  unfold extract_worker_id. rewrite Hhead. cbn [mbind option_bind].
  assert (strip_suffix suffix key = Some (worker_private_queue_name shared id)) as -> by by apply strip_suffix_Some.
  cbn [mbind option_bind].
  assert (strip_prefix (shared ++ u ":worker:") (worker_private_queue_name shared id) = Some id) as ->.
  { apply strip_prefix_Some. unfold worker_private_queue_name. by rewrite app_assoc. }
  cbn [mbind option_bind]. rewrite decide_False, decide_True; [done| |done]. subst key. unfold worker_private_queue_name.
  by rewrite <- !app_assoc.
Qed.

(** ** Runs *)

(** A text is an operation, or no operation. *)
Abbreviation QxDb := (QueueDb (Payload := option Task)).
Abbreviation QxWorld := (World QxDb QueueEvent ()).

Definition qx_of (p : option Task) : option Task := p.

Lemma qx_roundtrip t : qx_of (Some t) = Some t.
Proof. done. Qed.

Definition qx_op : OperationTask := {|
  environments := []; tasks := []; channels := []; priority := Some 2%Z; target_worker_id := None;
  evaluate_batch_id := None; op_test_case_id := None |}.

Definition qx_task : Task := operation_task (u "results") (u "k") qx_op.

Definition qx_config : ReaperConfig := {|
  rc_shared_queue := u "ops"; rc_grace_secs := 0; rc_max_requeues_per_tick := 100; rc_dry_run := false |}.

Definition qx_reap : QueueEvent := EvReap elements (λ _, NoFault) qx_config.

(** A run that succeeds when it ends. *)
Definition qx_run : WorkRun := {|
  wr_dedup := Up; wr_cancel := Off;
  wr_attempts := [Succeeded {| tr_task_id := u "k"; tr_success := true; tr_output := VObject []; tr_error := None;
                               tr_worker_id := None |} NoFault []];
  wr_reply_fault := NoFault; wr_dlq_fault := NoFault; wr_minimum_ttl := 600; wr_max_retries := 3 |}.

Definition qx_start : QxWorld := mkWorld 0 empty_queue ∅.

Definition qx_latency : Z := 3600 * QSECOND.

Abbreviation qx_program := (queue_program qx_of Some).

Definition qx_acts (l : list (Action QueueEvent)) : option QxWorld := acts qx_program queue_commit qx_latency l qx_start.

Definition qx_after (l : list (Action QueueEvent)) : QxWorld := default qx_start (qx_acts l).

Lemma qx_reached l : is_Some (qx_acts l) → rtc (step qx_program queue_commit qx_latency) qx_start (qx_after l).
Proof. intros [w Hw]. unfold qx_after. rewrite Hw. by apply (acts_steps _ _ _ l). Qed.

Definition runs (i n : nat) : list (Action QueueEvent) := replicate n (Run i).

(** The operation is taken by [a], whose heartbeat then lapses: two ticks of the reaper put
    it back. *)
Definition qx_put_back : list (Action QueueEvent) :=
  [Begin 0 (EvHeartbeat (u "a")); Run 0; Begin 2 (EvPublish (u "ops") (Some 2%Z) qx_task NoFault)] ++ runs 2 2
  ++ [Begin 3 (EvWork (u "a") (u "ops") qx_run)] ++ runs 3 3
  ++ [Tick (16 * QSECOND); Begin 1 (EvHeartbeat (u "b")); Run 1; Begin 4 qx_reap] ++ runs 4 20
  ++ [Begin 5 qx_reap] ++ runs 5 20.


Example qx_put_back_ends :
  (zset (u "ops") (w_db (qx_after qx_put_back)), qd_acked (w_db (qx_after qx_put_back)))
  = ([((5 * (16 * QSECOND))%Z, 1)], []).
Proof. by vm_compute. Qed.

(** Before the second tick. *)
Definition qx_dead : QxDb :=
  w_db (qx_after ([Begin 0 (EvHeartbeat (u "b")); Run 0; Begin 1 (EvPublish (u "ops:worker:a") None qx_task NoFault)] ++ runs 1 2
    ++ [Begin 2 qx_reap] ++ runs 2 20)).

Definition qx_tally : Tally := mkTally ∅ 100 no_stats.

Lemma qx_dead_ok : queue_ok qx_of qx_dead.
Proof.
  eapply (queue_reachable_ok qx_of Some qx_roundtrip qx_latency qx_start); [done|done|done|]. apply qx_reached. by_decide.
Qed.

Definition qx_recovered : QxDb :=
  (exec (reap_owner qx_of Some (λ _, NoFault) qx_config {[ u "b" ]} (u "a") qx_tally) QSECOND qx_dead).2.

Lemma dead_worker_recovered_witness :
  zset (u "ops:worker:a") qx_dead = [(0%Z, 0)]
  ∧ length (rlist (processing (u "ops:worker:a")) qx_recovered) + length (zset (u "ops:worker:a") qx_recovered) ≤ 0
  ∧ ((∃ s id', (s, id') ∈ zset (u "ops") qx_recovered ∧ holds_task qx_of id' qx_task qx_recovered)
     ∨ holds_task qx_of 0 qx_task qx_recovered
       ∧ (0 ∈ rlist (processing (u "ops:worker:a")) qx_recovered
          ∨ 0 ∈ (zset (u "ops:worker:a") qx_recovered).*2)).
Proof.
  split; [by vm_compute|].
  destruct (dead_worker_recovered qx_of Some qx_roundtrip qx_config {[ u "b" ]} (u "a") QSECOND eq_refl 0 (86400 * QSECOND)
    qx_tally qx_dead qx_dead_ok) as [Hlen Hops].
  - by_decide.
  - reflexivity.
  - by vm_compute.
  - done.
  - by vm_compute.
  - split.
    + etrans; [exact Hlen|]. by apply Nat.leb_le.
    + apply (Hops 0 qx_task).
      * right. by_decide.
      * eexists. split; [by vm_compute|done].
Defined.

Lemma worker_id_extracted_witness :
  is_valid_server_id (u "w1") = true ∧ extract_worker_id (u "ops:worker:w1_processing") (u "ops") = Some (u "w1").
Proof.
  split; [by vm_compute|]. refine (worker_id_extracted (u "ops") (u "w1") (u "_processing") _ _); [by vm_compute|by left].
Defined.

(** [a] comes back before [b] takes the operation again: [b] finds the claim of a live
    worker and acknowledges the only message there is.  When [a] then dies, nothing is
    left of the operation. *)
Definition qx_lost : list (Action QueueEvent) :=
  qx_put_back ++ [Begin 6 (EvHeartbeat (u "a")); Run 6; Begin 7 (EvWork (u "b") (u "ops") qx_run)] ++ runs 7 10 ++ [Drop 3].

Example skipped_copy_was_the_last :
  (qd_acked (w_db (qx_after qx_lost)), map_to_list (qd_hashes (w_db (qx_after qx_lost))), qd_results (w_db (qx_after qx_lost)))
  = ([(qx_task, AckHeldByOther)], [], []).
Proof. by vm_compute. Qed.

(** An operation of priority 2 that is put back has priority 5. *)
Example put_back_without_priority :
  mg_priority <$> (qd_hashes (w_db (qx_after qx_put_back)) !! 1) = Some 5%Z.
Proof. by vm_compute. Qed.
